(* ===== verification/_CoqProject ===== *)
-Q . S2P
Prelude.v
F64.v
Numbers.v
Clock.v
Health.v
LockFile.v
Config.v
Corpus.v
Policy.v
Pricing.v
HostCooldown.v
Budget.v
Ledger.v
Reservation.v
Tiers.v
Quota.v
Router.v
Utilization.v
Scenarios.v
Headers.v
Text.v
Json.v
Paths.v
Approval.v
Turn.v
SessionStore.v
Slots.v
ProcFs.v
Daemon.v
Cancel.v
Reaper.v
Jobs.v
Failure.v
Review.v
Substance.v
LoopRun.v
ExecSafety.v
ReviewDiff.v
ReviewContext.v
ReviewFilter.v
ReviewConfirm.v
ContextOpt.v
PromptPrefix.v
Reviewers.v
Minimax.v
ProviderWire.v
ProviderStream.v
ProviderFrames.v
ProviderCall.v
Transcripts.v
EngineQuery.v
Sop.v
EngineRoutes.v
Routes.v
Oneshot.v
EngineCost.v
Gate.v
DiffScope.v
ReviewPlan.v
ReviewDispatch.v
ReviewChunks.v
ReviewRun.v
AgenticTurn.v
