(* ===== verification/Prelude.v ===== *)
(** * Zoder: the decisions that spend money and run agents, verified

    Zoder routes coding requests to language models and keeps the account of
    what they cost; it also drives a coding engine in a loop of author turns,
    checks and reviews.  This library models the parts of the program that
    decide (crates/zoder-core, crates/model-health, crates/zoder-cli): which
    model may serve a request, whether a call may be paid, what it cost, what
    the ledger and the health store say about it afterwards; how many calls
    may run at once, when a loop run has succeeded and how its failure is
    reported, which commands a check may run and in what sandbox, what a
    reviewer is shown of a diff, and which processes may be signalled when a
    run ends.  The
    definitions are translated
    from the Rust sources, are executable, and are listed with their lines in
    the manifest beside this directory.

    ** How the parts interact

    A request is turned into a route in three ways.  The router (Router.v)
    ranks the free models of the corpus (Corpus.v) that the health store
    (Health.v) does not exclude; it sees the store through the class
    [HealthView], whose instance [store_health] is the store itself.  The
    scenario planner (Scenarios.v) picks among free, subscribed and metered
    candidates for a role; a subscription is usable when its telemetry says so
    (Utilization.v), which comes from response headers (Headers.v) or from
    counted tokens.  The provider that serves a model is the cheapest claimant
    of the configuration (Config.v, Quota.v), where a subscription whose
    windows (Tiers.v) the ledger shows used up counts as metered.

    Before a call is paid, the policy gate (Policy.v) and the budget gate
    (Budget.v) are asked.  The budget gate prices the call (Pricing.v), reads
    the month's spend from the ledger (Ledger.v) and keeps the host marker
    (HostCooldown.v) in step; a live marker restricts later routes to models
    that cost nothing.  A dispatch reserves its row first and settles it
    afterwards (Reservation.v): a reader of the month counts a settled row and
    fails on one in flight, unless its process died before it sent anything.
    After the call the gate proves that a free call was served free, and the
    health store records the outcome under its lockfile (LockFile.v).

    Routes.v composes these parts into the chain of one invocation, and the
    four ways to use a chain are built on it.  The single call (Oneshot.v)
    guards the head, walks the chain with the client of the providers
    (ProviderWire.v, ProviderStream.v, ProviderFrames.v, ProviderCall.v) and
    settles its answer in the ledger.  The turn of the coding engine
    (AgenticTurn.v) checks that the engine runs what was gated (EngineRoutes.v)
    and asks it afterwards what was spent (EngineQuery.v, EngineCost.v).  A
    review and a loop run are below.

    A coding run goes through the same machine from the other side.  A call
    takes a slot of its provider and a turn of its rate window (Slots.v).  The
    engine client reads the frames of a turn under two deadlines (Turn.v),
    decides every tool call by a policy and the writable roots (Approval.v,
    Paths.v) and keeps its sessions in a store (SessionStore.v); the
    transcripts of the program are Transcripts.v.  The loop (LoopRun.v) judges
    each author turn by the substance of its diff (Substance.v), by the
    configured check and by the reviewers' answers (Review.v), and reports its
    end through the failure contract (Failure.v).  Before a check is spawned
    its command passes the denylist and is wrapped in a sandbox (ExecSafety.v).

    A review (ReviewRun.v) captures the change (DiffScope.v), plans its
    reviewers (ReviewPlan.v, Reviewers.v), excludes files from the diff and
    packs the rest into chunks (ReviewDiff.v) with a context header
    (ReviewContext.v), calls a reviewer for each chunk along a chain of models
    (ReviewDispatch.v, ReviewChunks.v), drops the findings the source disproves
    (ReviewFilter.v), has the blocking ones confirmed by models of other
    families (ReviewConfirm.v) and reports one verdict.

    `zoder gate` (Gate.v) plans the checks of a repository from its files or
    its bundle, runs them to a deadline and reports one status.
    The engine is a daemon several clients share (Daemon.v): a client takes a
    lease, and a process may stop the daemon when the leases it can read and
    the record of its owner leave nobody else.  A cancel (Cancel.v) asks the
    daemon for every session within a budget and, unanswered, settles the
    session by that stop authority; afterwards the reaper (Reaper.v) scans the
    process table (ProcFs.v) for what the run left behind.  A run in the
    background keeps its state in a job directory (Jobs.v), whose writers are
    not serialised.

    ** Files

    - Prelude: results, machine integers, strings, the sorts and scans of the
      Rust iterators, generic lemmas, automation.
    - F64: IEEE binary64, the type of money and ranks, with its order and signs.
    - Clock: instants, durations, the calendar of chrono as an interface with
      its laws, and a Gregorian instance.
    - Health: model-health/src/lib.rs, the breaker, the classification of a
      probe and the pre-query gate of one model ([ModelHealth]).
    - LockFile: the same file's [mutate_locked], as interleaved steps of
      processes on one world (lock, store, clock), a load that fails included.
    - Config: config.rs, providers, their billing terms, the glob matcher.
    - Corpus: corpus.rs, rows, aliases, reconciliation, ingestion, overlay.
    - Policy: policy.rs, the gate before a call and the proof after it.
    - Pricing: pricing.rs, rates, peak windows, cost, lookup, loading.
    - HostCooldown: host_cooldown.rs, the marker file.
    - Budget: budget.rs, the gate and its synchronisation with the marker.
    - Ledger: ledger.rs, the file of bytes, its readers, the fold with its
      checkpoint, the month's total.
    - Reservation: ledger.rs, the slots rewritten in place, recovery, compaction.
    - Tiers: subscription_tiers.rs, the curated windows of a plan.
    - Quota: quota.rs and the provider choice of config.rs.
    - Router: router.rs.
    - Utilization: utilization.rs (verdicts, counters, views) and
      [capture_counter_usage] of provider.rs.
    - Scenarios: scenarios.rs.
    - Headers: the header parsers of utilization.rs.
    - Numbers, Text: the printers and parsers of decimal numbers, and the
      string operations of the standard library (find, split, trim, lines,
      case) with their lemmas.
    - Slots: provider_slots.rs and provider_rate.rs, slot files under file
      locks as interleaved steps, the rate window's file, the waiting loop.
    - ProcFs: the /proc readers of reaper.rs, on a table of entries.
    - Daemon: daemon_socket.rs and engine_rpc_impl.rs, leases, the record of
      the daemon, what a reader makes of the lease directory, the authority to
      stop, and the steps of clients, readers and stopping processes around
      the daemon lock ([daemon_step]), SIGKILL after its release included.
    - Cancel: cancel_budget.rs, cancel_outcome.rs and the cancel phase of
      reaper.rs, over clock readings and socket answers that are arguments;
      [stop_daemon] takes the authority from the census of Daemon.
    - Reaper: the scan, the pinning and the signals of reaper.rs, over a
      process table that changes at every reading.
    - Jobs: jobs.rs and the job state of agentic.rs; a write of a job's
      metadata is a truncation and the writes after it, and the writers of one
      job interleave at those steps ([job_step]).
    - Failure: failure.rs, the codes, the exit statuses, the recognition of a
      message.
    - Review: the reviewer answers of agentic.rs, from the scan for balanced
      objects to the aggregated verdict.
    - Substance: the classification of a diff in agentic.rs.
    - LoopRun: [cmd_loop_run] of agentic.rs, with the outcomes of the author,
      the check and the reviewers as a world the loop reads once an iteration.
    - ExecSafety: exec_safety.rs, the denylist of a shell command and the
      choice and argument lists of the sandbox it runs in.
    - ReviewDiff: review_diff.rs, the exclusion globs, the reader of diffs,
      the chunks and the map of a diff.
    - Gate: gate.rs, gate_bundle.rs and [cmd_gate], the plan of the checks,
      their run, the report and its two printed forms.
    - Json, Paths: JSON values and their accessors; paths, and the tree of
      files they are walked in.
    - Approval, Turn, SessionStore: acp-client, the decision on a tool call,
      one turn of the engine, the store of engine sessions.
    - Transcripts: session.rs, the names, the load, the save, the lock.
    - ReviewContext, ReviewFilter, ReviewConfirm: review_context.rs,
      review_filter.rs and review_confirm.rs.
    - ContextOpt, PromptPrefix, Reviewers: the context_opt modules and the
      prompts of a review.
    - Minimax: minimax.rs, the token plan and its wall.
    - ProviderWire, ProviderStream, ProviderFrames, ProviderCall: provider.rs,
      from the request to the settled call.
    - EngineRoutes: the routes of the engine's configuration (config.rs) and
      the checks of a dispatch (main.rs).
    - EngineQuery, Sop: engine_cost.rs, catalog_models.rs, sop_graph.rs and
      the commands on procedures.
    - Routes, Oneshot: the routes of an invocation and the single call
      (main.rs, provider_health.rs).
    - EngineCost, AgenticTurn: the cost of an engine turn and the turn itself
      (main.rs).
    - DiffScope, ReviewPlan, ReviewDispatch, ReviewChunks, ReviewRun:
      agentic.rs, a review from the capture of the change to its exit status.

    ** What the theorems show

    - Money is not spent by accident: [verify_free_iff], [check_allow_iff],
      [gate_fails_closed], [evaluate_decline_exact], [marker_discipline],
      [prefer_cost_neutral_exact], [metered_needs_opt_in], [calls_permitted],
      [turn_dispatches_permitted], [charge_never_refused].
    - A command or a tool runs where it may: [inspect_allows_iff],
      [wrap_never_downgrades], [sbpl_no_breakout], [containment_sound],
      [approved_write_contained], [permission_reply_sound].
    - A reviewer sees the whole of what is not excluded: [prepare_exact],
      [filter_exact], [split_parts_exact], [review_chunks_exact],
      [match_segments_iff], [diff_map_bounded], [capture_whole_or_marked],
      [task_diff_isolated], [review_whole].
    - A green gate is earned: [gate_zero_iff], [report_status_exact],
      [derive_plan_exact], [baseline_never_weaker], [run_command_ends],
      [probe_exact], [pretty_shows_all].
    - The ledger does not lose or misread spend: [checkpoint_resume],
      [month_to_date_exact], [reservation_fails_closed], [recovery_in_place],
      [compaction_keeps_entries], [reconcile_replaces_row], [call_cost_exact],
      [calls_accounted], [reviewer_calls_accounted], [turn_cost_exact],
      [cost_window_exclusive].
    - Routes are the intended ones: [select_best], [route_order_independent],
      [best_provider_cheapest], [exhausted_iff], [legacy_pick_exact],
      [idle_pick_exact], [account_chain_exact], [chain_head_is_pick],
      [provider_choice_exact], [routes_stay_in_list], [chain_exact],
      [overrides_exact], [fall_through_exact].
    - The engine runs what was gated: [candidates_exact], [binding_exact],
      [live_route_verified], [route_never_guessed], [agent_choice_exact],
      [merge_never_routes], [response_exact].
    - A subscription is left in time: [decide_account_prefers_sub_iff],
      [account_view_evidence], [parse_headers_sound], [observed_wall_exact].
    - Counters and breakers mean what they say: [rolling_counter_exact],
      [calendar_counter_exact], [capture_monthly_exact], [counters_stay_sound],
      [breaker_trips], [half_open_probe_exclusive], [gate_failure_horizon],
      [exhausted_recovers].
    - Shared files stay consistent, for every interleaving of the processes:
      [mutate_locked_serializable] (the updates of the health store apply one
      after the other while no lock is taken for stale and every load reads),
      [session_store_serializable], [locked_appends_accumulate],
      [session_lock_exact]; [job_meta_typed] states what the unlocked writers
      of a job leave.
    - Limits hold: [slot_cap], [rate_window_bound], [rate_run_reference],
      [wait_loop_total], [retry_after_bounded], [backoff_exact],
      [chunk_context_bounded], [squash_bounded].
    - An answer is what was sent: [chunking_exact], [frames_read_back],
      [body_stream_exact], [nothing_replayed], [turn_outcome_sound],
      [idle_timeout_exact], [response_exact].
    - A prompt fits and keeps its order: [cap_tool_output_exact],
      [elide_stale_exact], [compact_exact], [fit_window_sound],
      [fit_prompt_exact], [prefix_bytes_stable], [stable_review_exact].
    - A loop run ends, and ends for a reason: [loop_resolves_soundly],
      [resolution_iff], [classify_exact], [unchanged_diff_ends_run],
      [run_failure_exact], [classify_error_exact].
    - A verdict is what the reviewers said: [gate_approves_strictly],
      [balanced_objects_exact], [extracted_verdict_is_worst],
      [aggregate_exact], [merge_exact], [filter_drops_iff],
      [name_evidence_iff], [released_only_by_rejects],
      [confirmed_verdict_exact], [confirm_budget], [confirm_rounds_end],
      [reviewers_cross_family], [review_answer_checked],
      [review_order_irrelevant], [review_passes_exact], [review_command_ends],
      [loop_review_exact].
    - Nothing is signalled on a guess: [stop_spares_registered] (what a
      decision saw, and which signals a client registered later may still
      get), [census_sees_registered], [stop_authority_exact],
      [settle_signals_authorized], [retry_plan_bounds], [scan_selects_iff],
      [reap_signals_justified], [teardown_bounded], [prune_exact].
    - What is written is read back: [lease_roundtrip], [record_roundtrip],
      [parse_stat_roundtrip], [duration_roundtrip], [code_roundtrip],
      [quoted_path_roundtrip], [save_load_roundtrip], [digest_roundtrip],
      [limit_code_roundtrip], [shown_list_reads_back].
    - Catalog data is resolved as documented: [lookup_resolution],
      [loaded_catalog_wf], [resolve_precedence], [wildcard_match_correct],
      [ingest_free_chat_sound].

    Where the code departs from its documentation or from its intent, the
    departure is a lemma on a concrete input (for instance
    [stale_break_loses_update], [misaligned_reconcile_corrupts],
    [reset_of_other_window], [reset_kind_change_blinds_counter],
    [account_pick_misses_eligible], [unreadable_store_overwritten],
    [sigkill_cuts_registered], [overlapping_writes_tear],
    [fallback_loses_piped_prompt]); the manifest lists them as findings.

    ** Conventions

    - Integers are [Z]; saturating and wrapping operations are written out
      ([u32_sat_add], [i64_wrap], ...).  An [f64] is a value of the executable
      IEEE specification, NaN and infinities included; no theorem assumes an
      operation exact, and hypotheses exclude NaN where an order needs it.
    - Fallible calls return [result] or [option]; messages are the data they
      print.  Panics the code excludes by construction have no value.
    - A reading of the clock is an argument, one per reading.
    - A hash map whose order the code depends on is the list of its entries in
      iteration order, and order independence is then a theorem; a sorted map
      is the list of its entries in key order; a map used by key only is a
      [gmap].
    - Code outside the repository is a parameter: the JSON codec, chrono's
      calendar and parsers, the URL parser.  The hypotheses on it state what
      its documentation does, and each theorem that has one comes with a
      witness on concrete functions.
    - Fuel appears where a recursion is not structural, and a theorem shows
      that it is enough where the result depends on it: the glob matcher
      ([fuel_for]; [wildcard_match_correct]), the waiting loop ([wait_fuel];
      [wait_loop_total]), the climb to the ancestors of a process (bounded by
      the code as well; [protected_pids_total]), the poll of a spawned check
      ([poll_fuel], the polls that fit its timeout; [run_command_ends]), the
      closure of an agent's models ([candidate_fuel], the number of routes;
      [candidates_exact]), the first chunk of a review ([chunk_fuel];
      [review_ends]), the rounds of a confirmation ([confirm_rounds_end]) and
      the walk of a turn's chain (its length; [turn_dispatches_permitted]).
      Scans of a text take its length, printers of decimal numbers the size of
      the number; [session_lock_exact] is about the runs of the acquisition
      that end, which it need not.
    - Steps of several processes are a relation on one shared state, and what
      the operating system promises (an exclusive lock file, a released file
      lock, a pid file descriptor) is the rule of the step.

    ** What is not modelled

    Network and process I/O: the sockets and child processes of the engine
    client, the set-up of its sessions, the event stream of Goose, the signal
    handlers; downloads of catalogs; the command line and what is printed for
    the reader; reports of cost; the tool-server protocol; code generation.
    Of the modelled files: the loading and migration of configuration
    documents, the saving of the pricing catalog, the file of the utilization
    store with its quarantine, the failure of a disk write inside a ledger
    operation, and the assembly of prompts outside a review. *)
From stdpp Require Export base tactics option list sorting gmap strings.
From Stdlib Require Export ZArith Lia.
From Stdlib Require Export Ascii.

#[export] Set Default Goal Selector "!".

(** ** Scope and error values

    A fallible Rust call returns [Result<T, E>]; the two constructors keep the
    Rust names.  [let?] is the [?] operator. *)
Declare Scope zoder_scope.
Delimit Scope zoder_scope with zoder.

Inductive result (A E : Type) : Type :=
| Ok (a : A)
| Err (e : E).
Arguments Ok {A E} a.
Arguments Err {A E} e.

Definition result_bind {A B E} (r : result A E) (k : A -> result B E) : result B E :=
  match r with
  | Ok a => k a
  | Err e => Err e
  end.

Notation "'let?' x ':=' r 'in' k" := (result_bind r (fun x => k))
  (at level 10, x name, r at level 100, k at level 200) : zoder_scope.

Definition is_ok {A E} (r : result A E) : bool :=
  match r with Ok _ => true | Err _ => false end.

#[export] Instance result_eq_dec {A E} `{EqDecision A, EqDecision E} :
  EqDecision (result A E).
Proof. solve_decision. Defined.

Local Open Scope Z_scope.

(** ** Machine integers

    Integers are [Z]; an operation that Rust spells [saturating_*] is spelled
    with the bounds of its type. *)
Definition U32_MAX : Z := 4294967295.
Definition U64_MAX : Z := 18446744073709551615.
Definition I64_MAX : Z := 9223372036854775807.
Definition I64_MIN : Z := -9223372036854775808.

Definition u32_sat_add (a b : Z) : Z := Z.min U32_MAX (a + b).
Definition u32_sat_sub (a b : Z) : Z := Z.max 0 (a - b).
Definition u32_sat_mul (a b : Z) : Z := Z.min U32_MAX (a * b).
Definition u64_sat_add (a b : Z) : Z := Z.min U64_MAX (a + b).
Definition u64_sat_sub (a b : Z) : Z := Z.max 0 (a - b).
Definition i64_clamp (x : Z) : Z := Z.max I64_MIN (Z.min I64_MAX x).
(** Plain [+] on [i64]: two's complement wrap-around (release profile). *)
Definition i64_wrap (x : Z) : Z := (x - I64_MIN) mod 18446744073709551616 + I64_MIN.
Definition i64_sat_add (a b : Z) : Z := i64_clamp (a + b).
Definition i64_sat_sub (a b : Z) : Z := i64_clamp (a - b).
Definition i64_sat_mul (a b : Z) : Z := i64_clamp (a * b).

(** A [Duration] is its nanoseconds. *)
Definition ns_per_ms : Z := 1000000.
Definition ns_per_s : Z := 1000000000.

Ltac unfold_ints :=
  unfold i64_sat_add, i64_sat_sub, i64_sat_mul, i64_clamp, u64_sat_add,
    u64_sat_sub, u32_sat_add, u32_sat_sub, u32_sat_mul,
    I64_MAX, I64_MIN, U64_MAX, U32_MAX in *.

Lemma i64_wrap_id x : I64_MIN <= x <= I64_MAX -> i64_wrap x = x.
Proof. unfold i64_wrap, I64_MIN, I64_MAX. intros H. rewrite Z.mod_small; lia. Qed.

(** [div_lia] is [lia] with division and modulo by constants. *)
Ltac div_lia := Z.to_euclidean_division_equations; lia.

(** [ints] closes a goal of linear arithmetic over saturating operations. *)
Ltac ints := unfold_ints; lia.

(** [Option::or] *)
Definition or_opt {A} (a b : option A) : option A := match a with Some _ => a | None => b end.
(** [Option::filter] *)
Definition opt_filter {A} (p : A -> bool) (o : option A) : option A :=
  match o with
  | Some x => if p x then Some x else None
  | None => None
  end.

(** ** Strings

    A Rust string is a [string] of 8-bit characters. *)
Definition lower_ascii (c : ascii) : ascii :=
  let n := Ascii.nat_of_ascii c in
  if (65 <=? n)%nat && (n <=? 90)%nat then Ascii.ascii_of_nat (n + 32) else c.

Fixpoint to_ascii_lowercase (s : string) : string :=
  match s with
  | EmptyString => EmptyString
  | String c r => String (lower_ascii c) (to_ascii_lowercase r)
  end.

(** [s.chars().take(n).collect()] *)
Fixpoint take_chars (n : nat) (s : string) : string :=
  match n, s with
  | S n', String c r => String c (take_chars n' r)
  | _, _ => EmptyString
  end.

(** [s.is_empty()] *)
Definition str_is_empty (s : string) : bool :=
  match s with EmptyString => true | _ => false end.

(** [haystack.contains(needle)] *)
Fixpoint str_contains (needle s : string) : bool :=
  String.prefix needle s ||
  match s with
  | EmptyString => false
  | String _ r => str_contains needle r
  end.

(** The order of strings is that of their bytes. *)
Lemma ascii_compare_spec a b : Ascii.compare a b = N.compare (Ascii.N_of_ascii a) (Ascii.N_of_ascii b).
Proof. done. Qed.

Lemma string_compare_refl s : String.compare s s = Eq.
Proof. induction s as [|a s IH]; simpl; [done|]. by rewrite ascii_compare_spec, N.compare_refl. Qed.

Lemma string_compare_trans s1 s2 s3 :
  String.compare s1 s2 <> Gt -> String.compare s2 s3 <> Gt -> String.compare s1 s3 <> Gt.
Proof.
  revert s2 s3. induction s1 as [|a s1 IH]; intros [|b s2] [|c s3]; simpl; try done.
  rewrite !ascii_compare_spec.
  destruct (N.compare_spec (Ascii.N_of_ascii a) (Ascii.N_of_ascii b)) as [Hab|Hab|Hab];
    destruct (N.compare_spec (Ascii.N_of_ascii b) (Ascii.N_of_ascii c)) as [Hbc|Hbc|Hbc];
    destruct (N.compare_spec (Ascii.N_of_ascii a) (Ascii.N_of_ascii c)) as [Hac|Hac|Hac];
    intros H1 H2; try done; try lia.
  by apply (IH s2).
Qed.

(** [s.split_once(c)] *)
Fixpoint split_once (c : ascii) (s : string) : option (string * string) :=
  match s with
  | EmptyString => None
  | String a r =>
      if Ascii.eqb a c then Some (EmptyString, r)
      else match split_once c r with
           | Some (x, y) => Some (String a x, y)
           | None => None
           end
  end.

(** [s.split(c)], never empty. *)
Fixpoint split_on (c : ascii) (s : string) : list string :=
  match s with
  | EmptyString => [EmptyString]
  | String a r =>
      if Ascii.eqb a c then EmptyString :: split_on c r
      else match split_on c r with
           | w :: ws => String a w :: ws
           | [] => [String a EmptyString]
           end
  end.

Definition is_ws (c : ascii) : bool :=
  let n := Ascii.nat_of_ascii c in
  (n =? 32)%nat || ((9 <=? n)%nat && (n <=? 13)%nat).

Fixpoint trim_start (s : string) : string :=
  match s with
  | String c r => if is_ws c then trim_start r else s
  | EmptyString => EmptyString
  end.

Fixpoint trim_end (s : string) : string :=
  match s with
  | EmptyString => EmptyString
  | String c r =>
      let r' := trim_end r in
      if is_ws c && str_is_empty r' then EmptyString else String c r'
  end.

(** [s.trim()] *)
Definition trim (s : string) : string := trim_end (trim_start s).

(** ** Ordering combinators of [std::cmp] and [slice::sort_by] *)

(** [Ordering::then_with] *)
Definition then_with (c d : comparison) : comparison :=
  match c with Eq => d | _ => c end.

Definition bool_cmp (a b : bool) : comparison :=
  match a, b with
  | false, true => Lt
  | true, false => Gt
  | _, _ => Eq
  end.

Section Sorting.
Context {A : Type} (cmp : A -> A -> comparison).

Definition cmp_le (x y : A) : Prop := cmp x y <> Gt.

(** [slice::sort_by] is a stable sort; on a comparator that is a total
    preorder every stable sort is this function. *)
Fixpoint sort_insert (x : A) (l : list A) : list A :=
  match l with
  | [] => [x]
  | y :: ys => match cmp x y with
               | Gt => y :: sort_insert x ys
               | _ => x :: y :: ys
               end
  end.

Definition sort_by (l : list A) : list A := foldr sort_insert [] l.

(** [Iterator::max_by] keeps the LAST of several maxima, [min_by] the first
    of several minima. *)
Definition max_by (l : list A) : option A :=
  match l with
  | [] => None
  | x :: xs => Some (fold_left (fun m y => match cmp m y with Gt => m | _ => y end) xs x)
  end.

Definition min_by (l : list A) : option A :=
  match l with
  | [] => None
  | x :: xs => Some (fold_left (fun m y => match cmp m y with Gt => y | _ => m end) xs x)
  end.

Lemma sort_insert_perm x l : sort_insert x l ≡ₚ x :: l.
Proof.
  induction l as [|y l IH]; simpl; [done|].
  destruct (cmp x y); try done. rewrite IH. apply Permutation_swap.
Qed.

Lemma sort_by_perm l : sort_by l ≡ₚ l.
Proof.
  induction l as [|x l IH]; simpl; [done|]. by rewrite sort_insert_perm, IH.
Qed.

Lemma elem_of_sort_by x l : x ∈ sort_by l <-> x ∈ l.
Proof. by rewrite sort_by_perm. Qed.

Lemma fold_left_in {B} (f : B -> A -> B) (P : B -> Prop) l b :
  P b -> (forall b' x, P b' -> x ∈ l -> P (f b' x)) -> P (fold_left f l b).
Proof.
  revert b. induction l as [|x l IH]; simpl; intros b Hb Hf; [done|].
  apply IH; [apply Hf; [done|left]|]. intros; apply Hf; [done|by right].
Qed.

Lemma max_by_elem l x : max_by l = Some x -> x ∈ l.
Proof.
  destruct l as [|y l]; simpl; [done|]. intros [= <-].
  apply (fold_left_in _ (fun m => m ∈ y :: l)); [left|].
  intros m z Hm Hz. destruct (cmp m z); [by right|by right|done].
Qed.

Lemma max_by_is_Some l : l <> [] -> is_Some (max_by l).
Proof. destruct l; simpl; [done|]. eauto. Qed.

Lemma min_by_elem l x : min_by l = Some x -> x ∈ l.
Proof.
  destruct l as [|y l]; simpl; [done|]. intros [= <-].
  apply (fold_left_in _ (fun m => m ∈ y :: l)); [left|].
  intros m z Hm Hz. destruct (cmp m z); [done|done|by right].
Qed.

(** Sortedness needs the comparator to be total (antisymmetric as a
    comparison) and transitive on the elements that are sorted. *)
Section Total.
Variable P : A -> Prop.
Hypothesis cmp_flip : forall x y, P x -> P y -> cmp y x = CompOpp (cmp x y).
Hypothesis cmp_trans :
  forall x y z, P x -> P y -> P z -> cmp_le x y -> cmp_le y z -> cmp_le x z.

Lemma sort_insert_sorted x l :
  P x -> Forall P l -> StronglySorted cmp_le l -> StronglySorted cmp_le (sort_insert x l).
Proof.
  intros Hx. induction l as [|y l IH]; simpl; intros HP HS.
  { constructor; constructor. }
  apply Forall_cons in HP as [Hy HP]. apply StronglySorted_inv in HS as [HS Hall].
  assert (forall z, P z -> cmp_le y z -> cmp x y <> Gt -> cmp_le x z) as Htr.
  { intros z Hz Hyz Hxy. by apply (cmp_trans x y z). }
  destruct (cmp x y) eqn:E.
  1,2: constructor; [by constructor|]; constructor; [unfold cmp_le; congruence|];
    rewrite Forall_forall in *; intros z Hz;
    apply Htr; [by apply HP|by apply Hall|congruence].
  constructor; [by apply IH|].
  rewrite sort_insert_perm. constructor; [|done].
  unfold cmp_le. rewrite (cmp_flip x y), E by done. done.
Qed.

Lemma sort_by_sorted l : Forall P l -> StronglySorted cmp_le (sort_by l).
Proof.
  induction l as [|x l IH]; simpl; intros HP; [constructor|].
  apply Forall_cons in HP as [Hx HP].
  apply sort_insert_sorted; [done| |by apply IH]. by rewrite sort_by_perm.
Qed.

(** The sort is stable, so its head is the first of the minima. *)
Lemma sort_by_head l x :
  Forall P l -> head (sort_by l) = Some x ->
  exists pre post, l = pre ++ x :: post /\
    (forall y, y ∈ pre -> cmp y x = Gt) /\ (forall y, y ∈ post -> cmp_le x y).
Proof.
  revert x. induction l as [|z l IH]; simpl; intros x HP; [done|].
  apply Forall_cons in HP as [Hz HP]. destruct (sort_by l) as [|w s] eqn:E; simpl.
  { intros [= <-]. exists [], l. assert (l = []) as ->.
    { apply Permutation_nil_r. rewrite <- (sort_by_perm l). by rewrite E. }
    split_and!; [done|..]; intros y Hy; by apply not_elem_of_nil in Hy. }
  destruct (IH w HP eq_refl) as (pre & post & -> & Hpre & Hpost).
  apply Forall_app in HP as [HP1 HP2]. apply Forall_cons in HP2 as [Hw HP2].
  rewrite Forall_forall in HP1, HP2.
  assert (forall y, y ∈ pre ++ w :: post -> cmp_le z w -> cmp_le z y) as Hle.
  { intros y [Hy|[->|Hy]%elem_of_cons]%elem_of_app Hzw; [|done|].
    - apply (cmp_trans z w y); auto. unfold cmp_le. rewrite (cmp_flip y w) by auto.
      by rewrite (Hpre y Hy).
    - apply (cmp_trans z w y); auto. }
  destruct (cmp z w) eqn:Ec; simpl; intros [= <-].
  1,2: exists [], (pre ++ w :: post); split_and!; [done|intros y Hy; by apply not_elem_of_nil in Hy|];
    intros y Hy; apply Hle; [done|unfold cmp_le; congruence].
  exists (z :: pre), post. split_and!; [done| |done].
  intros y [->|Hy]%elem_of_cons; [done|by apply Hpre].
Qed.
End Total.
End Sorting.

(** ** Generic list lemmas *)

Lemma StronglySorted_impl {A} (R S : A -> A -> Prop) l :
  (forall x y, R x y -> S x y) -> StronglySorted R l -> StronglySorted S l.
Proof.
  intros H. induction 1 as [|x l _ IH Hx]; constructor; [done|]. eapply Forall_impl; [exact Hx|]. eauto.
Qed.
Lemma StronglySorted_head {A} (R : A -> A -> Prop) x l :
  StronglySorted R (x :: l) -> forall y, y ∈ l -> R x y.
Proof. intros [_ H]%StronglySorted_inv. by apply Forall_forall. Qed.

(** [find] on a list with a boolean predicate: Rust's [Iterator::find]. *)
Fixpoint find_first {A} (p : A -> bool) (l : list A) : option A :=
  match l with
  | [] => None
  | x :: xs => if p x then Some x else find_first p xs
  end.

Lemma find_first_Some {A} (p : A -> bool) l x :
  find_first p l = Some x -> x ∈ l /\ p x = true.
Proof.
  induction l as [|y l IH]; simpl; [done|]. destruct (p y) eqn:E.
  - intros [= <-]. split; [left|done].
  - intros [? ?]%IH. split; [by right|done].
Qed.

Lemma find_first_None {A} (p : A -> bool) l :
  find_first p l = None <-> forall x, x ∈ l -> p x = false.
Proof.
  induction l as [|y l IH]; simpl.
  - split; [intros _ x Hx; by apply not_elem_of_nil in Hx|done].
  - destruct (p y) eqn:E.
    + split; [done|]. intros H. specialize (H y ltac:(left)). congruence.
    + rewrite IH. split.
      * intros H x [->|Hx]%elem_of_cons; [done|by apply H].
      * intros H x Hx. apply H. by right.
Qed.

Lemma find_first_app {A} (p : A -> bool) l k :
  find_first p (l ++ k) = match find_first p l with Some x => Some x | None => find_first p k end.
Proof. induction l as [|x l IH]; simpl; [done|]. by destruct (p x). Qed.

Lemma find_first_map {A B} (p : B -> bool) (f : A -> B) l :
  find_first p (map f l) = f <$> find_first (fun x => p (f x)) l.
Proof. induction l as [|x l IH]; simpl; [done|]. by destruct (p (f x)). Qed.

Lemma find_first_ext {A} (p q : A -> bool) l : (forall x, p x = q x) -> find_first p l = find_first q l.
Proof. intros Hpq. induction l as [|x l IH]; simpl; [done|]. by rewrite Hpq, IH. Qed.

Lemma opt_filter_None {A} (p : A -> bool) o :
  opt_filter p o = None <-> forall x, o = Some x -> p x = false.
Proof. destruct o as [x|]; simpl; [destruct (p x) eqn:E|]; naive_solver congruence. Qed.

Lemma opt_filter_Some {A} (p : A -> bool) o x :
  opt_filter p o = Some x -> o = Some x /\ p x = true.
Proof. destruct o as [y|]; simpl; [destruct (p y) eqn:E|]; naive_solver. Qed.

(** [Iterator::filter] on a boolean predicate. *)
Definition filterb {A} (p : A -> bool) (l : list A) : list A := List.filter p l.

Lemma elem_of_filterb {A} (p : A -> bool) l x : x ∈ filterb p l <-> p x = true /\ x ∈ l.
Proof. unfold filterb. rewrite !list_elem_of_In, filter_In. tauto. Qed.

Lemma filterb_length {A} (p : A -> bool) l : (length (filterb p l) <= length l)%nat.
Proof. unfold filterb. induction l as [|x l IH]; cbn; [done|]. destruct (p x); cbn; lia. Qed.
Lemma filterb_perm {A} (p : A -> bool) l k : l ≡ₚ k -> filterb p l ≡ₚ filterb p k.
Proof.
  unfold filterb. induction 1; simpl; repeat case_match; try done.
  - by constructor.
  - by constructor.
  - by etrans.
Qed.

(** Sorting keeps the order of elements the comparator does not separate. *)
Lemma sort_by_stable {A} (cmp : A -> A -> comparison) (p : A -> bool) l :
  (forall x y, x ∈ l -> y ∈ l -> p x = true -> p y = true -> cmp x y <> Gt) ->
  filterb p (sort_by cmp l) = filterb p l.
Proof.
  unfold filterb. induction l as [|x l IH]; intros H; [done|]. cbn [sort_by foldr List.filter].
  rewrite <- IH by (intros; apply H; [by right..|done|done]). fold (sort_by cmp l).
  assert (Hin : forall y, y ∈ sort_by cmp l -> p x = true -> p y = true -> cmp x y <> Gt).
  { intros y Hy%elem_of_sort_by. apply H; [by left|by right]. }
  clear H IH. induction (sort_by cmp l) as [|y k IHk]; cbn [sort_insert List.filter]; [done|].
  destruct (cmp x y) eqn:E; [done|done|]. cbn [List.filter]. rewrite IHk by (intros; apply Hin; [by right|done|done]).
  destruct (p x) eqn:Ex; [|done]. destruct (p y) eqn:Ey; [|done]. by destruct (Hin y); [left|done..].
Qed.
Lemma existsb_elem {A} (p : A -> bool) l :
  existsb p l = true <-> exists x, x ∈ l /\ p x = true.
Proof. rewrite existsb_exists. by setoid_rewrite list_elem_of_In. Qed.

Lemma existsb_none {A} (p : A -> bool) l :
  existsb p l = false <-> forall x, x ∈ l -> p x = false.
Proof.
  induction l as [|y l IH]; simpl.
  - split; [intros _ x Hx; by apply not_elem_of_nil in Hx|done].
  - rewrite orb_false_iff, IH. split.
    + intros [? H] x [->|Hx]%elem_of_cons; [done|by apply H].
    + intros H. split; [apply H; left|]. intros x Hx. apply H. by right.
Qed.

Lemma forallb_elem {A} (p : A -> bool) l :
  forallb p l = true <-> forall x, x ∈ l -> p x = true.
Proof. rewrite forallb_forall. by setoid_rewrite list_elem_of_In. Qed.

Lemma omap_split {A B} (f : A -> option B) l pre x post :
  omap f l = pre ++ x :: post ->
  exists l1 a l2, l = l1 ++ a :: l2 /\ f a = Some x /\ omap f l1 = pre /\ omap f l2 = post.
Proof.
  revert pre. induction l as [|a l IH]; intros pre; simpl; [by destruct pre|].
  destruct (f a) as [b|] eqn:E.
  - destruct pre as [|b' pre]; simpl; intros [= -> Hl].
    + by exists [], a, l.
    + destruct (IH pre Hl) as (l1 & a' & l2 & -> & Ha & <- & <-). exists (a :: l1), a', l2.
      split_and!; [done..| |done]. simpl. by rewrite E.
  - intros Hl. destruct (IH pre Hl) as (l1 & a' & l2 & -> & Ha & <- & <-). exists (a :: l1), a', l2.
    split_and!; [done..| |done]. simpl. by rewrite E.
Qed.

Lemma filterb_split {A} (p : A -> bool) l pre x post :
  filterb p l = pre ++ x :: post ->
  exists l1 l2, l = l1 ++ x :: l2 /\ p x = true /\ filterb p l1 = pre /\ filterb p l2 = post.
Proof.
  assert (forall k, filterb p k = omap (fun y => if p y then Some y else None) k) as F.
  { unfold filterb. induction k as [|y k IH]; [done|]. cbn [List.filter]. rewrite IH. cbn. by destruct (p y). }
  rewrite F. intros (l1 & a & l2 & -> & Ha & <- & <-)%omap_split. destruct (p a) eqn:E; [|done]. simplify_eq.
  exists l1, l2. by rewrite !F.
Qed.

(** A scan of a sorted list finds a least element among those it looks for. *)
Lemma find_first_least {A} (R : A -> A -> Prop) (p : A -> bool) l x :
  StronglySorted R l -> find_first p l = Some x -> forall y, y ∈ l -> p y = true -> y = x \/ R x y.
Proof.
  induction 1 as [|z l Hl IH Hz]; simpl; [done|]. rewrite Forall_forall in Hz.
  destruct (p z) eqn:E; [intros [= ->]|intros Hx]; intros y [->|Hy]%elem_of_cons Hp; auto; congruence.
Qed.

(** Sorting commutes with filtering, so a scan of a sorted list finds, of the
    least elements it looks for, the one that came first. *)
Section SortScan.
Context {A : Type} (cmp : A -> A -> comparison) (P : A -> Prop).
Hypothesis cmp_flip : forall x y, P x -> P y -> cmp y x = CompOpp (cmp x y).
Hypothesis cmp_trans : forall x y z, P x -> P y -> P z -> cmp_le cmp x y -> cmp_le cmp y z -> cmp_le cmp x z.

Lemma sort_insert_least x k : (forall z, z ∈ k -> cmp_le cmp x z) -> sort_insert cmp x k = x :: k.
Proof.
  destruct k as [|z k]; [done|]. intros H. cbn [sort_insert]. specialize (H z ltac:(left)).
  unfold cmp_le in H. by destruct (cmp x z).
Qed.
Lemma filterb_sort_by p l : Forall P l -> filterb p (sort_by cmp l) = sort_by cmp (filterb p l).
Proof.
  unfold filterb. induction l as [|x l IH]; intros HP; [done|]. apply Forall_cons in HP as [Hx HP]. cbn [sort_by foldr List.filter].
  fold (sort_by cmp l). assert (filterb p (sort_insert cmp x (sort_by cmp l)) =
    if p x then sort_insert cmp x (filterb p (sort_by cmp l)) else filterb p (sort_by cmp l)) as E.
  { pose proof (sort_by_sorted cmp P cmp_flip cmp_trans l HP) as HS.
    assert (Forall P (sort_by cmp l)) as HPs by by rewrite sort_by_perm.
    clear IH. unfold filterb. induction HS as [|y k HS IH Hy]; cbn [sort_insert List.filter]; [by destruct (p x)|].
    apply Forall_cons in HPs as [Py HPs]. specialize (IH HPs). destruct (cmp x y) eqn:Ec; cbn [List.filter].
    3: { rewrite IH. destruct (p x), (p y); cbn [sort_insert]; by rewrite ?Ec. }
    all: destruct (p x); [|done]; rewrite sort_insert_least; [by destruct (p y)|].
    all: intros z Hz; pose proof (proj1 (elem_of_filterb p (y :: k) z) Hz) as [_ Hz'].
    all: apply elem_of_cons in Hz' as [->|Hz']; [unfold cmp_le; congruence|]; rewrite Forall_forall in Hy, HPs.
    all: apply (cmp_trans x y z); auto; unfold cmp_le; congruence. }
  unfold filterb in *. rewrite E, IH by done. by destruct (p x).
Qed.
Lemma find_first_sort_by p l x : Forall P l -> find_first p (sort_by cmp l) = Some x ->
  p x = true /\ exists pre post, l = pre ++ x :: post
    /\ (forall y, y ∈ pre -> p y = true -> cmp y x = Gt) /\ (forall y, y ∈ post -> p y = true -> cmp_le cmp x y).
Proof.
  intros HP Hx. pose proof (find_first_Some _ _ _ Hx) as [_ Hp]. split; [done|].
  assert (forall k : list A, find_first p k = head (filterb p k)) as E.
  { unfold filterb. induction k as [|y k IH]; [done|]. cbn [find_first List.filter]. by destruct (p y). }
  rewrite E, filterb_sort_by in Hx by done.
  apply (sort_by_head cmp P cmp_flip cmp_trans) in Hx as (pre & post & Hl & Hpre & Hpost).
  2: { rewrite Forall_forall in *. intros y [_ Hy]%elem_of_filterb. auto. }
  apply filterb_split in Hl as (l1 & l2 & -> & _ & <- & <-).
  exists l1, l2. split; [done|]. split; intros y Hy Py; [apply Hpre|apply Hpost]; by apply elem_of_filterb.
Qed.
End SortScan.

(** Keys compared component by component. *)
Fixpoint lexl (a b : list Z) : comparison :=
  match a, b with
  | x :: a, y :: b => then_with (x ?= y) (lexl a b)
  | _, _ => Eq
  end.

Lemma lexl_flip a b : lexl b a = CompOpp (lexl a b).
Proof.
  revert b. induction a as [|x a IH]; intros [|y b]; simpl; try done.
  rewrite (Z.compare_antisym x y). destruct (x ?= y); simpl; auto.
Qed.

Lemma lexl_trans a b c :
  length a = length b -> length b = length c ->
  lexl a b <> Gt -> lexl b c <> Gt -> lexl a c <> Gt.
Proof.
  revert b c. induction a as [|x a IH]; intros [|y b] [|z c]; simpl; try done.
  intros [= Hab] [= Hbc].
  intros H1 H2. destruct (Z.compare_spec x y) as [->|Hxy|Hxy]; [|..|done].
  - destruct (y ?= z) eqn:E; [by apply (IH b)|done|done].
  - destruct (Z.compare_spec y z) as [<-|Hyz|Hyz]; [..|done].
    + by rewrite (proj2 (Z.compare_lt_iff x y)) by lia.
    + by rewrite (proj2 (Z.compare_lt_iff x z)) by lia.
Qed.

(** ** Trimming is idempotent *)

Lemma trim_end_ws c s : is_ws c = false -> trim_end (String c s) = String c (trim_end s).
Proof. intros Hc. simpl. by rewrite Hc. Qed.

Lemma trim_start_shape s :
  trim_start s = EmptyString \/ exists c r, trim_start s = String c r /\ is_ws c = false.
Proof.
  induction s as [|c s IH]; simpl; [by left|]. destruct (is_ws c) eqn:E; [done|right; eauto].
Qed.

Lemma trim_end_idem s : trim_end (trim_end s) = trim_end s.
Proof.
  induction s as [|c s IH]; [done|]. cbn [trim_end].
  destruct (is_ws c && str_is_empty (trim_end s)) eqn:E; [done|].
  cbn [trim_end]. by rewrite IH, E.
Qed.

Lemma trim_idem s : trim (trim s) = trim s.
Proof.
  unfold trim. destruct (trim_start_shape s) as [->|(c & r & -> & Hc)]; [done|].
  rewrite trim_end_ws by done. cbn [trim_start]. rewrite Hc.
  rewrite trim_end_ws by done. by rewrite trim_end_idem.
Qed.

(** ** Hint database of the development *)
Create HintDb zoder discriminated.
Create Rewrite HintDb zoder_rw.
#[export] Hint Rewrite @elem_of_filterb @elem_of_sort_by @existsb_elem : zoder_rw.
#[export] Hint Resolve sort_by_perm filterb_perm : zoder.

(** [dmatch H] destructs the matches a computation hypothesis goes through. *)
Ltac dmatch :=
  repeat (case_match; simplify_eq/=; try done).
