(* ===== verification/F64.v ===== *)
(** IEEE-754 binary64, the type [f64] of the source.

    A value is a [spec_float] of the Standard Library's executable
    specification, at precision 53 and maximal exponent 1024: NaN, the two
    infinities, the two zeros and the finite values are all present, every
    operation rounds to nearest even, and a comparison with NaN is false.  The
    file states the order and sign facts the other files use; no theorem of
    the development assumes that an operation is exact. *)
From S2P Require Import Prelude.
From Stdlib Require Import SpecFloat.
Local Open Scope Z_scope.

Abbreviation f64 := spec_float.
Abbreviation f64_nan := S754_nan.
Abbreviation f64_infinity := (S754_infinity false).
Abbreviation f64_neg_infinity := (S754_infinity true).
Abbreviation f64_zero := (S754_zero false).
Abbreviation f64_neg_zero := (S754_zero true).

#[export] Instance f64_eq_dec : EqDecision f64.
Proof. solve_decision. Defined.
#[export] Instance f64_inhabited : Inhabited f64 := populate f64_zero.

Definition f64_add : f64 -> f64 -> f64 := SFadd 53 1024.
Definition f64_sub : f64 -> f64 -> f64 := SFsub 53 1024.
Definition f64_mul : f64 -> f64 -> f64 := SFmul 53 1024.
Definition f64_div : f64 -> f64 -> f64 := SFdiv 53 1024.
Definition f64_neg : f64 -> f64 := SFopp.

(** [n as f64] for an integer [n]: the nearest double. *)
Definition f64_of_Z (n : Z) : f64 := binary_normalize 53 1024 n 0 false.

(** A decimal literal [n/d] of the source, rounded to nearest: a division of
    two exactly represented integers. *)
Definition f64_lit (n d : Z) : f64 := f64_div (f64_of_Z n) (f64_of_Z d).

(** [f64::MAX] *)
Definition f64_MAX : f64 := SFmax_float 53 1024.

(** [a < b], [a <= b], [a == b]; [a > b] is [b < a]. *)
Definition f64_ltb : f64 -> f64 -> bool := SFltb.
Definition f64_leb : f64 -> f64 -> bool := SFleb.
Definition f64_eqb : f64 -> f64 -> bool := SFeqb.
(** [a.partial_cmp(&b)] *)
Definition f64_partial_cmp : f64 -> f64 -> option comparison := SFcompare.

Definition f64_is_nan (x : f64) : bool :=
  match x with S754_nan => true | _ => false end.

Definition f64_is_finite (x : f64) : bool :=
  match x with S754_zero _ | S754_finite _ _ _ => true | _ => false end.

(** [f64::total_cmp]: [-0.0] below [+0.0] and NaN, whose sign the model does
    not keep, above everything. *)
Definition f64_total_cmp (x y : f64) : comparison :=
  match x, y with
  | S754_nan, S754_nan => Eq
  | S754_nan, _ => Gt
  | _, S754_nan => Lt
  | S754_zero sx, S754_zero sy => bool_cmp sy sx
  | _, _ => default Eq (f64_partial_cmp x y)
  end.

(** [f64::max], [f64::min]: the other operand when one is NaN. *)
Definition f64_max (x y : f64) : f64 :=
  if f64_is_nan x then y else if f64_is_nan y then x
  else if f64_ltb x y then y else x.
Definition f64_min (x y : f64) : f64 :=
  if f64_is_nan x then y else if f64_is_nan y then x
  else if f64_ltb y x then y else x.
(** [f64::clamp] with ordered bounds. *)
Definition f64_clamp (x lo hi : f64) : f64 :=
  let x := if f64_ltb x lo then lo else x in
  if f64_ltb hi x then hi else x.
(** [Iterator::sum::<f64>], which starts at [-0.0]. *)
Definition f64_sum (l : list f64) : f64 := fold_left f64_add l f64_neg_zero.

Declare Scope f64_scope.
Delimit Scope f64_scope with f64.
Infix "+" := f64_add : f64_scope.
Infix "-" := f64_sub : f64_scope.
Infix "*" := f64_mul : f64_scope.
Infix "/" := f64_div : f64_scope.
Infix "<?" := f64_ltb : f64_scope.
Infix "<=?" := f64_leb : f64_scope.
Infix ">?" := (fun x y => f64_ltb y x) (at level 70, only parsing) : f64_scope.
Infix ">=?" := (fun x y => f64_leb y x) (at level 70, only parsing) : f64_scope.
Infix "=?" := f64_eqb : f64_scope.

(** ** Order *)

Lemma pos_compare_flip m1 m2 :
  Pos.compare_cont Eq m2 m1 = CompOpp (Pos.compare_cont Eq m1 m2).
Proof. apply (Pos.compare_antisym m1 m2). Qed.

Lemma f64_partial_cmp_flip x y :
  f64_partial_cmp y x = CompOpp <$> f64_partial_cmp x y.
Proof.
  unfold f64_partial_cmp.
  destruct x as [[]|[]| |[] m1 e1], y as [[]|[]| |[] m2 e2]; try done; simpl;
    rewrite (Z.compare_antisym e1 e2), (pos_compare_flip m1 m2);
    destruct (Z.compare e1 e2); simpl; try done;
    by destruct (Pos.compare_cont Eq m1 m2).
Qed.

Lemma f64_partial_cmp_refl x : f64_is_nan x = false -> f64_partial_cmp x x = Some Eq.
Proof.
  unfold f64_partial_cmp. destruct x as [[]|[]| |[] m e]; try done; simpl; intros _;
    rewrite Z.compare_refl; by rewrite (Pos.compare_refl m : Pos.compare_cont Eq m m = Eq).
Qed.

Lemma f64_partial_cmp_None x y :
  f64_partial_cmp x y = None <-> f64_is_nan x = true \/ f64_is_nan y = true.
Proof.
  unfold f64_partial_cmp. destruct x, y; simpl; split; intros H; try done;
    try (by left); try (by right); by destruct H.
Qed.

(** An order embedding of the non-NaN values into lexicographic triples. *)
Definition f64_rank (x : f64) : Z * Z * Z :=
  match x with
  | S754_infinity true => (-2, 0, 0)
  | S754_finite true m e => (-1, - e, - Z.pos m)
  | S754_zero _ => (0, 0, 0)
  | S754_finite false m e => (1, e, Z.pos m)
  | S754_infinity false => (2, 0, 0)
  | S754_nan => (0, 0, 0)
  end.

Definition lex3 (a b : Z * Z * Z) : comparison :=
  then_with (Z.compare a.1.1 b.1.1)
    (then_with (Z.compare a.1.2 b.1.2) (Z.compare a.2 b.2)).

Lemma f64_partial_cmp_rank x y :
  f64_is_nan x = false -> f64_is_nan y = false ->
  f64_partial_cmp x y = Some (lex3 (f64_rank x) (f64_rank y)).
Proof.
  unfold f64_partial_cmp, lex3.
  destruct x as [[]|[]| |[] m1 e1], y as [[]|[]| |[] m2 e2]; try done; simpl; intros _ _; f_equal.
  - rewrite Z.compare_opp, (Z.compare_antisym e1 e2).
    by destruct (Z.compare e1 e2).
  - by destruct (Z.compare e1 e2).
Qed.

Lemma lex3_trans_le a b c : lex3 a b <> Gt -> lex3 b c <> Gt -> lex3 a c <> Gt.
Proof.
  destruct a as [[a1 a2] a3], b as [[b1 b2] b3], c as [[c1 c2] c3].
  unfold lex3; simpl.
  destruct (Z.compare_spec a1 b1), (Z.compare_spec b1 c1), (Z.compare_spec a1 c1);
    simpl; try done; try lia; intros;
  destruct (Z.compare_spec a2 b2), (Z.compare_spec b2 c2), (Z.compare_spec a2 c2);
    simpl in *; try done; try lia.
  destruct (Z.compare_spec a3 b3), (Z.compare_spec b3 c3), (Z.compare_spec a3 c3);
    simpl in *; try done; try lia.
Qed.

Lemma lex3_flip a b : lex3 b a = CompOpp (lex3 a b).
Proof.
  destruct a as [[a1 a2] a3], b as [[b1 b2] b3]. unfold lex3; simpl.
  rewrite (Z.compare_antisym a1 b1), (Z.compare_antisym a2 b2), (Z.compare_antisym a3 b3).
  by destruct (Z.compare a1 b1), (Z.compare a2 b2), (Z.compare a3 b3).
Qed.

Lemma lex3_eq a b : lex3 a b = Eq <-> a = b.
Proof.
  destruct a as [[a1 a2] a3], b as [[b1 b2] b3]. unfold lex3; simpl. split.
  - destruct (Z.compare_spec a1 b1), (Z.compare_spec a2 b2), (Z.compare_spec a3 b3);
      simpl; try done. by subst.
  - intros [= -> -> ->]. by rewrite !Z.compare_refl.
Qed.

Lemma f64_ltb_spec x y :
  f64_ltb x y = true <->
  f64_is_nan x = false /\ f64_is_nan y = false /\ lex3 (f64_rank x) (f64_rank y) = Lt.
Proof.
  unfold f64_ltb, SFltb. change SFcompare with f64_partial_cmp.
  destruct (f64_is_nan x) eqn:Ex.
  { destruct x; try done. split; [done|naive_solver]. }
  destruct (f64_is_nan y) eqn:Ey.
  { destruct y; try done. destruct x as [[]|[]| |[] ? ?]; try done; naive_solver. }
  rewrite f64_partial_cmp_rank by done. destruct (lex3 _ _); naive_solver.
Qed.

Lemma f64_leb_spec x y :
  f64_leb x y = true <->
  f64_is_nan x = false /\ f64_is_nan y = false /\ lex3 (f64_rank x) (f64_rank y) <> Gt.
Proof.
  unfold f64_leb, SFleb. change SFcompare with f64_partial_cmp.
  destruct (f64_is_nan x) eqn:Ex.
  { destruct x; try done. split; [done|naive_solver]. }
  destruct (f64_is_nan y) eqn:Ey.
  { destruct y; try done. destruct x as [[]|[]| |[] ? ?]; try done; naive_solver. }
  rewrite f64_partial_cmp_rank by done. destruct (lex3 _ _); naive_solver.
Qed.

Lemma f64_leb_refl x : f64_is_nan x = false -> f64_leb x x = true.
Proof.
  intros H. unfold f64_leb, SFleb. change SFcompare with f64_partial_cmp.
  by rewrite f64_partial_cmp_refl.
Qed.

Lemma f64_leb_trans x y z : f64_leb x y = true -> f64_leb y z = true -> f64_leb x z = true.
Proof.
  rewrite !f64_leb_spec. intros (?&?&?) (?&?&?). repeat split; try done.
  by eapply lex3_trans_le.
Qed.

Lemma f64_ltb_leb x y : f64_ltb x y = true -> f64_leb x y = true.
Proof. rewrite f64_ltb_spec, f64_leb_spec. intros (?&?&->). done. Qed.

Lemma f64_ltb_irrefl x : f64_ltb x x = false.
Proof.
  apply not_true_iff_false. rewrite f64_ltb_spec. intros (?&?&H).
  pose proof (lex3_flip (f64_rank x) (f64_rank x)) as Hf. rewrite H in Hf. done.
Qed.

Lemma f64_leb_ltb_contra x y : f64_leb x y = true -> f64_ltb y x = false.
Proof.
  rewrite f64_leb_spec. intros (?&?&H). apply not_true_iff_false. rewrite f64_ltb_spec.
  intros (?&?&H'). rewrite lex3_flip, H' in H. done.
Qed.

Lemma f64_total x y :
  f64_is_nan x = false -> f64_is_nan y = false -> f64_leb x y = true \/ f64_ltb y x = true.
Proof.
  intros. rewrite f64_leb_spec, f64_ltb_spec, (lex3_flip (f64_rank x)).
  destruct (lex3 _ _); naive_solver.
Qed.

Lemma f64_leb_ltb_trans x y z : f64_leb x y = true -> f64_ltb y z = true -> f64_ltb x z = true.
Proof.
  intros H1 H2. pose proof (proj1 (f64_leb_spec _ _) H1) as (Hx&Hy&_).
  pose proof (proj1 (f64_ltb_spec _ _) H2) as (_&Hz&_).
  destruct (f64_total z x Hz Hx) as [H|H]; [|done].
  pose proof (f64_leb_trans _ _ _ H H1) as H3%f64_leb_ltb_contra. congruence.
Qed.

Lemma f64_ltb_leb_trans x y z : f64_ltb x y = true -> f64_leb y z = true -> f64_ltb x z = true.
Proof.
  intros H1 H2. pose proof (proj1 (f64_leb_spec _ _) H2) as (Hy&Hz&_).
  pose proof (proj1 (f64_ltb_spec _ _) H1) as (Hx&_&_).
  destruct (f64_total z x Hz Hx) as [H|H]; [|done].
  pose proof (f64_leb_trans _ _ _ H2 H) as H3%f64_leb_ltb_contra. congruence.
Qed.

Lemma f64_ltb_nan_r x y : f64_ltb x y = true -> f64_is_nan x = false /\ f64_is_nan y = false.
Proof. rewrite f64_ltb_spec. naive_solver. Qed.

(** [a.partial_cmp(b).unwrap_or(Equal)] *)
Definition f64_cmp_or_eq (x y : f64) : comparison := default Eq (f64_partial_cmp x y).

Lemma f64_cmp_or_eq_flip x y : f64_cmp_or_eq y x = CompOpp (f64_cmp_or_eq x y).
Proof.
  unfold f64_cmp_or_eq. rewrite f64_partial_cmp_flip. by destruct (f64_partial_cmp x y).
Qed.

Lemma f64_cmp_or_eq_le x y :
  f64_is_nan x = false -> f64_is_nan y = false ->
  f64_cmp_or_eq x y <> Gt <-> f64_leb x y = true.
Proof.
  intros Hx Hy. unfold f64_cmp_or_eq. rewrite f64_partial_cmp_rank by done. simpl.
  rewrite f64_leb_spec. naive_solver.
Qed.

Lemma f64_cmp_or_eq_rank x y :
  f64_is_nan x = false -> f64_is_nan y = false ->
  f64_cmp_or_eq x y = lex3 (f64_rank x) (f64_rank y).
Proof. intros. unfold f64_cmp_or_eq. by rewrite f64_partial_cmp_rank. Qed.

Lemma f64_cmp_or_eq_gt x y :
  f64_is_nan x = false -> f64_is_nan y = false ->
  f64_cmp_or_eq x y = Gt <-> f64_ltb y x = true.
Proof.
  intros Hx Hy. rewrite f64_cmp_or_eq_rank by done. rewrite f64_ltb_spec, lex3_flip.
  destruct (lex3 (f64_rank y) (f64_rank x)); naive_solver.
Qed.

(** [total_cmp] orders every value: the order embedding extended to NaN and
    the two zeros. *)
Definition f64_total_rank (x : f64) : Z * Z * Z :=
  match x with S754_nan => (3, 0, 0) | S754_zero true => (0, 0, -1) | _ => f64_rank x end.
Lemma f64_total_cmp_rank x y : f64_total_cmp x y = lex3 (f64_total_rank x) (f64_total_rank y).
Proof.
  destruct x as [[]|[]| |[] m1 e1], y as [[]|[]| |[] m2 e2]; try done; unfold f64_total_cmp, f64_total_rank;
    by rewrite f64_partial_cmp_rank by done.
Qed.
Lemma f64_total_cmp_flip x y : f64_total_cmp y x = CompOpp (f64_total_cmp x y).
Proof. rewrite !f64_total_cmp_rank. apply lex3_flip. Qed.
Lemma f64_total_cmp_trans x y z : f64_total_cmp x y <> Gt -> f64_total_cmp y z <> Gt -> f64_total_cmp x z <> Gt.
Proof. rewrite !f64_total_cmp_rank. apply lex3_trans_le. Qed.

(** ** Signs

    [f64_pos x]: the sign bit of [x] is clear, or [x] is NaN.  Sums, products
    and quotients of such values are such values. *)
Definition f64_pos (x : f64) : bool :=
  match x with
  | S754_zero s | S754_infinity s | S754_finite s _ _ => negb s
  | S754_nan => true
  end.

Lemma round_aux_pos m e l : f64_pos (binary_round_aux 53 1024 false m e l) = true.
Proof.
  unfold binary_round_aux. destruct (shr_fexp _ _ _ _ _) as [mrs' e'].
  destruct (shr_fexp _ _ _ _ _) as [mrs'' e'']. destruct (shr_m mrs''); try done. by case_match.
Qed.

Lemma binary_round_pos m e : f64_pos (binary_round 53 1024 false m e) = true.
Proof.
  unfold binary_round. destruct (shl_align _ _ _) as [mz ez]. apply round_aux_pos.
Qed.

Lemma f64_of_Z_pos n : 0 <= n -> f64_pos (f64_of_Z n) = true.
Proof. destruct n; [done| |lia]. intros _. apply binary_round_pos. Qed.

Lemma f64_mul_pos x y : f64_pos x = true -> f64_pos y = true -> f64_pos (f64_mul x y) = true.
Proof.
  destruct x as [[]|[]| |[] mx ex], y as [[]|[]| |[] my ey]; try done.
  intros _ _. apply round_aux_pos.
Qed.

Lemma f64_add_pos x y : f64_pos x = true -> f64_pos y = true -> f64_pos (f64_add x y) = true.
Proof.
  destruct x as [[]|[]| |[] mx ex], y as [[]|[]| |[] my ey]; try done.
  intros _ _. unfold f64_add. cbn [SFadd cond_Zopp].
  destruct (shl_align mx _ _) as [px ?], (shl_align my _ _) as [py ?]. cbn [fst].
  unfold binary_normalize. apply binary_round_pos.
Qed.

Lemma f64_div_pos x y : f64_pos x = true -> f64_pos y = true -> f64_pos (f64_div x y) = true.
Proof.
  destruct x as [[]|[]| |[] mx ex], y as [[]|[]| |[] my ey]; try done.
  intros _ _. unfold f64_div. cbn [SFdiv xorb].
  destruct (SFdiv_core_binary _ _ _ _ _ _) as [[mz ez] lz]. apply round_aux_pos.
Qed.

Lemma f64_pos_ge0 x : f64_pos x = true -> f64_is_nan x = false -> f64_leb f64_zero x = true.
Proof. by destruct x as [[]|[]| |[] mx ex]. Qed.

Lemma f64_mul_zero_l r :
  f64_is_finite r = true -> f64_mul f64_zero r = f64_zero \/ f64_mul f64_zero r = f64_neg_zero.
Proof. destruct r as [[]| | |[] ? ?]; simpl; auto; done. Qed.

Lemma f64_add_zero_r x z :
  f64_pos x = true -> z = f64_zero \/ z = f64_neg_zero -> f64_add x z = x.
Proof. by intros Hx [-> | ->]; destruct x as [[]|[]| |[] m e]. Qed.

(** A product with a zero count adds nothing to another one. *)
Lemma f64_add_zero_share (t r : f64) :
  f64_pos t = true -> f64_is_finite r = true -> f64_leb f64_zero r = true ->
  f64_add (f64_mul t r) (f64_mul f64_zero r) = f64_mul t r /\
  f64_add (f64_mul f64_zero r) (f64_mul t r) = f64_mul t r.
Proof.
  intros Ht Hf Hn. destruct r as [[]|[]| |[] mr er]; try done.
  - by destruct t as [[]|[]| |[] mt et].
  - by destruct t as [[]|[]| |[] mt et].
  - change (f64_mul f64_zero (S754_finite false mr er)) with f64_zero.
    pose proof (f64_mul_pos t (S754_finite false mr er) Ht eq_refl) as Hp.
    by destruct (f64_mul t _) as [[]|[]| |[] mt et].
Qed.

#[export] Hint Resolve f64_leb_refl f64_ltb_leb f64_leb_ltb_contra : zoder.
