(* ===== verification/Numbers.v ===== *)
(** The syntax [str::parse] accepts for the numbers the source reads: [u32],
    [u64] and [usize], [i64] and [f64]. *)
From S2P Require Import Prelude F64.
From Stdlib Require Import SpecFloat.
Local Open Scope Z_scope.

(** ** Digits and signs *)

Definition digit_value (c : ascii) : option Z :=
  let n := Z.of_nat (Ascii.nat_of_ascii c) in
  if (48 <=? n) && (n <=? 57) then Some (n - 48) else None.

(** The leading digits: their value on top of [acc], their number, the rest. *)
Fixpoint span_digits (s : string) (acc count : Z) : Z * Z * string :=
  match s with
  | EmptyString => (acc, count, s)
  | String c r =>
      match digit_value c with
      | Some d => span_digits r (acc * 10 + d) (count + 1)
      | None => (acc, count, s)
      end
  end.

(** A sign, when there is one. *)
Definition take_sign (s : string) : bool * string :=
  match s with
  | String c r => if Ascii.eqb c "-" then (true, r)
                  else if Ascii.eqb c "+" then (false, r) else (false, s)
  | EmptyString => (false, s)
  end.

(** All digits, at least one. *)
Definition digits_only (s : string) : option Z :=
  match span_digits s 0 0 with
  | (v, n, EmptyString) => if n =? 0 then None else Some v
  | _ => None
  end.

(** [parse::<u32>]: a minus sign is not in its syntax. *)
Definition parse_u32_std (s : string) : option Z :=
  let '(neg, r) := take_sign s in
  if neg : bool then None
  else opt_filter (fun v => v <=? U32_MAX) (digits_only r).

(** [parse::<u64>], and [parse::<usize>] on a 64-bit host. *)
Definition parse_u64_std (s : string) : option Z :=
  let '(neg, r) := take_sign s in
  if neg : bool then None
  else opt_filter (fun v => v <=? U64_MAX) (digits_only r).

(** [parse::<i64>] *)
Definition parse_i64_std (s : string) : option Z :=
  let '(neg, r) := take_sign s in
  v ← digits_only r;
  let v := if neg : bool then - v else v in
  if (I64_MIN <=? v) && (v <=? I64_MAX) then Some v else None.

(** The double nearest to [mant * 10 ^ exp10]. *)
Definition decimal_f64 (neg : bool) (mant exp10 : Z) : f64 :=
  match mant with
  | Zpos m =>
      if 0 <=? exp10 then binary_normalize 53 1024 (cond_Zopp neg (mant * 10 ^ exp10)) 0 neg
      else match 10 ^ (- exp10) with
           | Zpos d => SFdiv 53 1024 (S754_finite neg m 0) (S754_finite false d 0)
           | _ => f64_zero
           end
  | _ => S754_zero neg
  end.

(** The exponent part, with the rest of a number already read. *)
Definition read_exponent (s : string) : option Z :=
  match s with
  | EmptyString => Some 0
  | String c r =>
      if Ascii.eqb c "e" || Ascii.eqb c "E" then
        let '(neg, r) := take_sign r in
        v ← digits_only r; Some (if neg : bool then - v else v)
      else None
  end.

(** [parse::<f64>] *)
Definition parse_f64_std (s : string) : option f64 :=
  let '(neg, r) := take_sign s in
  let low := to_ascii_lowercase r in
  if bool_decide (low = "inf" \/ low = "infinity")%string then Some (S754_infinity neg)
  else if bool_decide (low = "nan")%string then Some f64_nan
  else
    let '(int, n_int, r) := span_digits r 0 0 in
    let '(mant, n_frac, r) :=
      match r with
      | String c r' =>
          if Ascii.eqb c "." then span_digits r' int 0 else (int, 0, r)
      | EmptyString => (int, 0, r)
      end in
    if n_int + n_frac =? 0 then None
    else e ← read_exponent r; Some (decimal_f64 neg mant (e - n_frac)).

(** ** Examples *)

(** The parsed doubles are the nearest ones: some literals. *)
Example parse_f64_examples :
  parse_f64_std "85" = Some (f64_of_Z 85) /\ parse_f64_std "0.1" = Some (f64_lit 1 10) /\
  parse_f64_std "12.50" = Some (f64_lit 25 2) /\ parse_f64_std "1e3" = Some (f64_of_Z 1000) /\
  parse_f64_std "-.5e+1" = Some (f64_of_Z (-5)) /\ parse_f64_std "." = None /\
  parse_f64_std "1e" = None /\ parse_f64_std "Infinity" = Some f64_infinity.
Proof. by vm_compute. Qed.
