(* ===== verification/Clock.v ===== *)
(** Instants, durations and the calendar.

    [chrono] is a library of the source's dependencies.  An instant
    ([DateTime<Utc>]) is its number of nanoseconds since the Unix epoch and a
    difference of instants a number of nanoseconds; the calendar operations
    the source calls are the class [Calendar], whose laws ([CalendarLaws])
    state documented behaviour of the library.  [gregorian] is a concrete
    calendar, used to instantiate the parameter. *)
From S2P Require Import Prelude.
Local Open Scope Z_scope.

Definition NS : Z := 1000000000.
(** [Duration::num_seconds] truncates towards zero. *)
Definition num_seconds (d : Z) : Z := Z.quot d NS.
(** [DateTime::timestamp] *)
Definition timestamp (t : Z) : Z := t / NS.
(** [Duration::hours], [Duration::days] *)
Definition hours_ns (h : Z) : Z := h * 3600 * NS.
Definition days_ns (d : Z) : Z := d * 86400 * NS.

(** The calendar operations the source uses on a [DateTime<Utc>]. *)
Class Calendar := {
  cal_year : Z -> Z;                (* [year()] *)
  cal_month : Z -> Z;               (* [month()], 1..12 *)
  cal_date : Z -> Z;                (* [date_naive()], as a day number *)
  cal_midnight : Z -> Z;            (* a day number at 00:00:00 UTC *)
  cal_first_of : Z -> Z -> option Z;
    (* [Utc.with_ymd_and_hms(y, m, 1, 0, 0, 0).single()] *)
  cal_hour : Z -> Z;                (* [hour()] *)
  cal_minute : Z -> Z;              (* [minute()] *)
  cal_weekday : Z -> Z;             (* [weekday().num_days_from_monday()] *)
  fmt_ym : Z -> string;             (* [format("%Y-%m")] *)
  fmt_ymd : Z -> string             (* [format("%Y-%m-%d")] *)
}.

(** The calendar month after the one [t] lies in. *)
Definition next_month `{Calendar} (t : Z) : Z * Z :=
  if cal_month t =? 12 then (cal_year t + 1, 1) else (cal_year t, cal_month t + 1).

Class CalendarLaws `{Calendar} : Prop := {
  (** The first instant of the next month is later than [t]. *)
  cal_next_month_later : forall t r,
    cal_first_of (next_month t).1 (next_month t).2 = Some r -> t < r
}.

(** ** A concrete calendar: proleptic Gregorian, days counted from 1970. *)
Definition day_of (t : Z) : Z := t / (86400 * NS).

(** The era-based conversion of a day number to year and month. *)
Definition gregorian_ym (d : Z) : Z * Z :=
  let z := d + 719468 in
  let era := z / 146097 in
  let doe := z mod 146097 in
  let yoe := (doe - doe / 1460 + doe / 36524 - doe / 146096) / 365 in
  let doy := doe - (365 * yoe + yoe / 4 - yoe / 100) in
  let mp := (5 * doy + 2) / 153 in
  let m := if mp <? 10 then mp + 3 else mp - 9 in
  (yoe + era * 400 + (if m <=? 2 then 1 else 0), m).

(** The day number of the first day of a month. *)
Definition gregorian_first (y m : Z) : Z :=
  let y' := if m <=? 2 then y - 1 else y in
  let era := y' / 400 in
  let yoe := y' mod 400 in
  let doy := (153 * (if 2 <? m then m - 3 else m + 9) + 2) / 5 in
  era * 146097 + (yoe * 365 + yoe / 4 - yoe / 100 + doy) - 719468.

Fixpoint digits_fuel (fuel : nat) (n : Z) (acc : string) : string :=
  match fuel with
  | O => acc
  | S f =>
      let acc' := String (Ascii.ascii_of_nat (48 + Z.to_nat (n mod 10))) acc in
      if n <? 10 then acc' else digits_fuel f (n / 10) acc'
  end.
Definition show_Z (n : Z) : string := digits_fuel 24 n EmptyString.
Definition pad2 (n : Z) : string := if n <? 10 then String "0" (show_Z n) else show_Z n.

Definition gregorian : Calendar := {|
  cal_year t := (gregorian_ym (day_of t)).1;
  cal_month t := (gregorian_ym (day_of t)).2;
  cal_date t := day_of t;
  cal_midnight d := d * 86400 * NS;
  cal_first_of y m := Some (gregorian_first y m * 86400 * NS);
  cal_hour t := (timestamp t mod 86400) / 3600;
  cal_minute t := (timestamp t mod 3600) / 60;
  cal_weekday t := (day_of t + 3) mod 7;
  fmt_ym t := let '(y, m) := gregorian_ym (day_of t) in show_Z y +:+ "-" +:+ pad2 m;
  fmt_ymd t := let '(y, m) := gregorian_ym (day_of t) in
    show_Z y +:+ "-" +:+ pad2 m +:+ "-" +:+ pad2 (day_of t - gregorian_first y m + 1)
|}.

(** *** The laws hold for it *)

Lemma gregorian_first_shift y m k :
  gregorian_first (y + 400 * k) m = gregorian_first y m + 146097 * k.
Proof.
  unfold gregorian_first.
  assert (forall a, (a + 400 * k) / 400 = a / 400 + k) as Hd by (intros; div_lia).
  assert (forall a, (a + 400 * k) mod 400 = a mod 400) as Hm by (intros; div_lia).
  destruct (m <=? 2).
  - replace (y + 400 * k - 1) with (y - 1 + 400 * k) by lia. rewrite Hd, Hm. lia.
  - rewrite Hd, Hm. lia.
Qed.

Definition succ_month (p : Z * Z) : Z * Z :=
  if p.2 =? 12 then (p.1 + 1, 1) else (p.1, p.2 + 1).

(** The claim on the 146097 days of one era, checked by evaluation. *)
Definition era_day_ok (doe : Z) : bool :=
  let p := succ_month (gregorian_ym (doe - 719468)) in
  doe - 719468 <? gregorian_first p.1 p.2.

Fixpoint all_below (n : nat) (p : Z -> bool) (acc : Z) : bool :=
  match n with
  | O => true
  | S k => p acc && all_below k p (acc + 1)
  end.

Lemma all_below_spec n p acc :
  all_below n p acc = true -> forall z, acc <= z < acc + Z.of_nat n -> p z = true.
Proof.
  revert acc. induction n as [|n IH]; simpl; intros acc H z Hz; [lia|].
  apply andb_true_iff in H as [H1 H2]. destruct (decide (z = acc)) as [->|]; [done|].
  apply (IH (acc + 1)); [done|lia].
Qed.

Lemma era_days_ok : all_below (Z.to_nat 146097) era_day_ok 0 = true.
Proof. vm_compute. reflexivity. Qed.

Lemma gregorian_ym_shift d k :
  gregorian_ym (d + 146097 * k) = ((gregorian_ym d).1 + 400 * k, (gregorian_ym d).2).
Proof.
  unfold gregorian_ym.
  replace (d + 146097 * k + 719468) with (d + 719468 + k * 146097) by lia.
  rewrite Z.div_add, Z.mod_add by lia. simpl. f_equal. lia.
Qed.

Lemma gregorian_next_month_later d :
  d < gregorian_first (succ_month (gregorian_ym d)).1 (succ_month (gregorian_ym d)).2.
Proof.
  assert (exists doe k, d = doe - 719468 + 146097 * k /\ 0 <= doe < 146097)
    as (doe & k & -> & Hb).
  { exists ((d + 719468) mod 146097), ((d + 719468) / 146097). div_lia. }
  pose proof (all_below_spec _ _ _ era_days_ok doe ltac:(lia)) as H.
  unfold era_day_ok in H. apply Z.ltb_lt in H.
  rewrite gregorian_ym_shift. revert H. unfold succ_month.
  destruct (gregorian_ym (doe - 719468)) as [y m]. cbn [fst snd].
  destruct (m =? 12); cbn [fst snd]; intros H.
  - replace (y + 400 * k + 1) with (y + 1 + 400 * k) by lia.
    rewrite gregorian_first_shift. lia.
  - rewrite gregorian_first_shift. lia.
Qed.

Lemma gregorian_laws : @CalendarLaws gregorian.
Proof.
  constructor. intros t r Hr.
  change (Some (gregorian_first (succ_month (gregorian_ym (day_of t))).1
                 (succ_month (gregorian_ym (day_of t))).2 * 86400 * NS) = Some r) in Hr.
  revert Hr. pose proof (gregorian_next_month_later (day_of t)) as Hf. revert Hf.
  generalize (succ_month (gregorian_ym (day_of t))). intros p.
  generalize (gregorian_first p.1 p.2). intros f Hf [= <-].
  unfold day_of, NS in *. div_lia.
Qed.

(** 2026-11-04T00:00:00Z, a fixed instant for witnesses. *)
Definition nov_2026 : Z := 20761 * 86400 * NS.
Example nov_2026_date : @fmt_ymd gregorian nov_2026 = "2026-11-04".
Proof. vm_compute. reflexivity. Qed.
Example nov_2026_weekday : @cal_weekday gregorian nov_2026 = 2.
Proof. vm_compute. reflexivity. Qed.
