(* ===== verification/Health.v ===== *)
(** Model health: the circuit breaker, the probe classification and the
    pre-query gate ([crates/model-health/src/lib.rs]).

    One record per model id; [now_unix()] readings are arguments, one per
    reading.  [Classification] and [ModelHealth] carry the source's
    constructors and fields; [HealthStore] is the [models] map.  The store's
    file protocol is in [LockFile.v]. *)
From S2P Require Import Prelude F64 Clock.
Local Open Scope Z_scope.

(** ** Data *)

Definition BREAKER_THRESHOLD : Z := 3.
Definition BREAKER_COOLDOWN_SECS : Z := 300.
Definition CAPACITY_CLASSIFICATION_TTL_SECS : Z := 30 * 60.
Definition GATE_BACKOFF_BASE_SECS : Z := 30.
Definition GATE_BACKOFF_CAP_SECS : Z := 900.
Definition GATE_HALF_OPEN_CLAIM_SECS : Z := 60.

Inductive State := Healthy | Degraded | Down.

Inductive Classification :=
| Reachable | Capacity | Unprovisioned | Unauthorized | CError | Unknown.

#[export] Instance Classification_eq_dec : EqDecision Classification.
Proof. solve_decision. Defined.

(** [Classification::from_status] *)
Definition from_status (status : Z) : Classification :=
  if (200 <=? status) && (status <=? 299) then Reachable
  else if status =? 404 then Unprovisioned
  else if (status =? 401) || (status =? 403) then Unauthorized
  else if (status =? 429) || (status =? 503) || (status =? 529) then Capacity
  else CError.

Section AnthropicBody.
(** [serde_json::from_str] composed with the two field reads: [None] when
    the body does not parse, otherwise the string values of ["type"] and of
    ["error"]["type"]. *)
Variable error_types : string -> option (option string * option string).

(** [Classification::from_anthropic_error_body] *)
Definition from_anthropic_error_body (body : string) (status : Z) : Classification :=
  match error_types body with
  | None => from_status status
  | Some (outer_type, inner_type) =>
      match inner_type with
      | None => from_status status
      | Some inner =>
          if negb (bool_decide (outer_type = Some "error")) then from_status status
          else if bool_decide (inner = "authentication_error")
                  || bool_decide (inner = "permission_error") then Unauthorized
          else if bool_decide (inner = "rate_limit_error")
                  || bool_decide (inner = "overloaded_error") then Capacity
          else from_status status
      end
  end.
End AnthropicBody.

(** [Classification::skips_consult] *)
Definition skips_consult (c : Classification) : bool :=
  match c with Capacity | Unprovisioned | Unauthorized => true | _ => false end.

(** [Classification::as_str] *)
Definition as_str (c : Classification) : string :=
  match c with
  | Reachable => "reachable" | Capacity => "capacity"
  | Unprovisioned => "unprovisioned" | Unauthorized => "unauthorized"
  | CError => "error" | Unknown => "unknown"
  end.

Record PreQueryGate := mkGate {
  open_count : Z;                           (* u32 *)
  retry_not_before_unix : option Z;
  half_open_claim_until_unix : option Z;
  gate_reason : option string
}.
Definition gate_default : PreQueryGate := mkGate 0 None None None.

Record ModelHealth := mkHealth {
  calls : Z;                                (* u64 *)
  failures : Z;                             (* u64 *)
  consecutive_failures : Z;                 (* u32 *)
  ewma_latency_ms : option f64;
  last_error : option string;
  last_failure_unix : option Z;
  provider_id : option string;
  classification : option Classification;
  checked_at_unix : option Z;
  quota_wall_until_unix : option Z;
  gate : option PreQueryGate
}.
Definition health_default : ModelHealth :=
  mkHealth 0 0 0 None None None None None None None None.
#[export] Instance health_inhabited : Inhabited ModelHealth := populate health_default.

Inductive Precheck :=
| Fresh (checked_at : Z)
| NeedsProbe (half_open : bool)
| Skip (until : Z) (reason : string).

(** ** The pre-query gate *)

(** The last match of [precheck_at]: is the last check fresh? *)
Definition precheck_fresh (h : ModelHealth) (now ttl_secs : Z) : Precheck :=
  match classification h, checked_at_unix h with
  | Some Reachable, Some ts =>
      if i64_sat_sub now ts <? ttl_secs then Fresh ts else NeedsProbe false
  | _, _ => NeedsProbe false
  end.

(** [ModelHealth::precheck_at] *)
Definition precheck_at (h : ModelHealth) (now ttl_secs : Z) : Precheck :=
  match gate h with
  | Some g =>
      match opt_filter (fun t => now <? t) (retry_not_before_unix g) with
      | Some until => Skip until (default "circuit breaker open" (gate_reason g))
      | None =>
          if 0 <? open_count g then
            match opt_filter (fun t => now <? t) (half_open_claim_until_unix g) with
            | Some claim =>
                Skip claim "half-open health probe in progress in another zoder process"
            | None => NeedsProbe true
            end
          else precheck_fresh h now ttl_secs
      end
  | None => precheck_fresh h now ttl_secs
  end.

Definition with_gate (h : ModelHealth) (g : option PreQueryGate) : ModelHealth :=
  mkHealth (calls h) (failures h) (consecutive_failures h) (ewma_latency_ms h)
    (last_error h) (last_failure_unix h) (provider_id h) (classification h)
    (checked_at_unix h) (quota_wall_until_unix h) g.

(** [ModelHealth::claim_half_open_at] *)
Definition claim_half_open_at (h : ModelHealth) (now : Z) : ModelHealth :=
  match gate h with
  | Some g => with_gate h (Some (mkGate (open_count g) (retry_not_before_unix g)
                (Some (i64_wrap (now + GATE_HALF_OPEN_CLAIM_SECS))) (gate_reason g)))
  | None => h
  end.

(** The backoff of [record_gate_failure_at] after [n] consecutive failures. *)
Definition gate_backoff (n : Z) : Z :=
  let exp := Z.min (u32_sat_sub n 1) 16 in
  Z.min (i64_sat_mul GATE_BACKOFF_BASE_SECS (Z.shiftl 1 exp)) GATE_BACKOFF_CAP_SECS.

(** [ModelHealth::record_gate_failure_at] *)
Definition record_gate_failure_at (h : ModelHealth) (now : Z) (provider : string)
    (c : Classification) (retry_after_secs : option Z) (reason : string) : ModelHealth :=
  let g := default gate_default (gate h) in
  let n := u32_sat_add (open_count g) 1 in
  let backoff := gate_backoff n in
  let retry_after := default 0 ((fun s => if s <=? I64_MAX then s else I64_MAX) <$> retry_after_secs) in
  let reason160 := take_chars 160 reason in
  mkHealth (calls h) (failures h) (consecutive_failures h) (ewma_latency_ms h)
    (Some reason160) (Some now) (Some provider) (Some c) (Some now) (quota_wall_until_unix h)
    (Some (mkGate n (Some (i64_sat_add now (Z.max backoff retry_after))) None (Some reason160))).

(** [ModelHealth::record_gate_success_at] *)
Definition record_gate_success_at (h : ModelHealth) (now : Z) (provider : string) : ModelHealth :=
  mkHealth (calls h) (failures h) (consecutive_failures h) (ewma_latency_ms h)
    (last_error h) (last_failure_unix h) (Some provider) (Some Reachable) (Some now)
    (quota_wall_until_unix h) None.

(** [ModelHealth::mark_checked]; [now] is its clock reading. *)
Definition mark_checked (h : ModelHealth) (now : Z) (provider : string) (c : Classification) :
    ModelHealth :=
  mkHealth (calls h) (failures h) (consecutive_failures h) (ewma_latency_ms h)
    (last_error h) (last_failure_unix h) (Some provider) (Some c) (Some now)
    (quota_wall_until_unix h) (gate h).

(** ** Skips and the breaker *)

(** [ModelHealth::is_skipped_by_classification_at] *)
Definition is_skipped_by_classification_at (h : ModelHealth) (now : Z) : bool :=
  match quota_wall_until_unix h with
  | Some until => now <? until
  | None => false
  end ||
  match classification h with
  | Some Capacity =>
      match checked_at_unix h with
      | Some ts => i64_sat_sub now ts <? CAPACITY_CLASSIFICATION_TTL_SECS
      | None => false
      end
  | Some (Unprovisioned | Unauthorized) => true
  | _ => false
  end.

(** [ModelHealth::state] *)
Definition state (h : ModelHealth) : State :=
  if BREAKER_THRESHOLD <=? consecutive_failures h then Down
  else if 1 <=? consecutive_failures h then Degraded else Healthy.

(** [ModelHealth::breaker_open_at] *)
Definition breaker_open_at (h : ModelHealth) (now : Z) : bool :=
  if consecutive_failures h <? BREAKER_THRESHOLD then false
  else match last_failure_unix h with
       | Some ts => i64_sat_sub now ts <? BREAKER_COOLDOWN_SECS
       | None => false
       end.

(** ** The store *)

(** [latency_ms.is_finite() && latency_ms >= 0.0] and the EWMA step. *)
Definition ewma_step (prev : option f64) (latency_ms : f64) : option f64 :=
  if f64_is_finite latency_ms && (f64_zero <=? latency_ms)%f64 then
    Some match prev with
         | Some p => if f64_is_finite p
                     then (f64_lit 7 10 * p + f64_lit 3 10 * latency_ms)%f64
                     else latency_ms
         | None => latency_ms
         end
  else prev.

(** [self.models.entry(model).or_default()] followed by the update [f]. *)
Definition upd (models : gmap string ModelHealth) (model : string)
    (f : ModelHealth -> ModelHealth) : gmap string ModelHealth :=
  <[model := f (default health_default (models !! model))]> models.

Definition on_success (latency_ms : f64) (h : ModelHealth) : ModelHealth :=
  mkHealth (u64_sat_add (calls h) 1) (failures h) 0 (ewma_step (ewma_latency_ms h) latency_ms)
    (last_error h) (last_failure_unix h) (provider_id h) (classification h)
    (checked_at_unix h) (quota_wall_until_unix h) (gate h).

(** [HealthStore::record_success] *)
Definition record_success models model latency_ms now :=
  upd models model (fun h =>
    let h := on_success latency_ms h in
    mkHealth (calls h) (failures h) (consecutive_failures h) (ewma_latency_ms h)
      (last_error h) (last_failure_unix h) (provider_id h) (classification h)
      (Some now) (quota_wall_until_unix h) (gate h)).

(** [HealthStore::record_classified_success] *)
Definition record_classified_success models model latency_ms provider c now :=
  upd models model (fun h =>
    let h := on_success latency_ms h in
    mark_checked
      (mkHealth (calls h) (failures h) (consecutive_failures h) (ewma_latency_ms h)
         (last_error h) (last_failure_unix h) (provider_id h) (classification h)
         (checked_at_unix h) None (gate h)) now provider c).

(** [HealthStore::record_failure]; the two clock readings. *)
Definition record_failure models model err t1 t2 :=
  upd models model (fun h =>
    mkHealth (u64_sat_add (calls h) 1) (u64_sat_add (failures h) 1)
      (u32_sat_add (consecutive_failures h) 1) (ewma_latency_ms h)
      (Some (take_chars 160 err)) (Some t1) (provider_id h) (classification h)
      (Some t2) (quota_wall_until_unix h) (gate h)).

(** [HealthStore::record_classified_failure_with_wall]; [t1] stamps the
    failure, [t2] the check. *)
Definition classified_failure err provider c wall t1 t2 (h : ModelHealth) : ModelHealth :=
  let h := mkHealth (u64_sat_add (calls h) 1) (failures h) (consecutive_failures h)
             (ewma_latency_ms h) (last_error h) (last_failure_unix h) (provider_id h)
             (classification h) (checked_at_unix h)
             (match wall with Some until => Some until | None => quota_wall_until_unix h end)
             (gate h) in
  if skips_consult c then
    let h := mkHealth (calls h) (failures h) (consecutive_failures h) (ewma_latency_ms h)
               (Some (take_chars 160 err)) (last_failure_unix h) (provider_id h)
               (classification h) (checked_at_unix h) (quota_wall_until_unix h) (gate h) in
    if negb (str_is_empty provider) then mark_checked h t2 provider c
    else mkHealth (calls h) (failures h) (consecutive_failures h) (ewma_latency_ms h)
           (last_error h) (last_failure_unix h) (provider_id h) (Some c) (Some t2)
           (quota_wall_until_unix h) (gate h)
  else
    let h := mkHealth (calls h) (u64_sat_add (failures h) 1)
               (u32_sat_add (consecutive_failures h) 1) (ewma_latency_ms h)
               (Some (take_chars 160 err)) (Some t1) (provider_id h) (classification h)
               (checked_at_unix h) (quota_wall_until_unix h) (gate h) in
    if negb (str_is_empty provider) then mark_checked h t2 provider c
    else mkHealth (calls h) (failures h) (consecutive_failures h) (ewma_latency_ms h)
           (last_error h) (last_failure_unix h) (provider_id h) (classification h) (Some t2)
           (quota_wall_until_unix h) (gate h).

Definition record_classified_failure_with_wall models model err provider c wall t1 t2 :=
  upd models model (classified_failure err provider c wall t1 t2).

(** [HealthStore::record_classified_failure] *)
Definition record_classified_failure models model err provider c t1 t2 :=
  record_classified_failure_with_wall models model err provider c None t1 t2.

(** [HealthStore::breaker_open], [HealthStore::is_skipped_by_classification]
    at a clock reading. *)
Definition store_breaker_open (models : gmap string ModelHealth) model now : bool :=
  default false ((fun h => breaker_open_at h now) <$> models !! model).
Definition store_is_skipped (models : gmap string ModelHealth) model now : bool :=
  default false ((fun h => is_skipped_by_classification_at h now) <$> models !! model).

(** The update of [decide_with_ttl] (crates/zoder-cli/src/provider_health.rs)
    under the store lock: decide, and claim the half-open slot. *)
Definition decide_locked (h : ModelHealth) (at_ ttl : Z) : ModelHealth * Precheck :=
  let d := precheck_at h at_ ttl in
  match d with
  | NeedsProbe true => (claim_half_open_at h at_, d)
  | _ => (h, d)
  end.

(** [decide_with_ttl]: under the lock, or, when the lock or the save fails, a
    read-only decision on a [snapshot] of the store. *)
Definition decide_with_ttl (locked : bool) (models snapshot : gmap string ModelHealth)
    (model : string) (at_ ttl : Z) : gmap string ModelHealth * Precheck :=
  if locked then
    let '(h, d) := decide_locked (default health_default (models !! model)) at_ ttl in
    (<[model := h]> models, d)
  else (models, default (NeedsProbe false) ((fun m => precheck_at m at_ ttl) <$> snapshot !! model)).

(** ** The pre-query gate: backoff and exclusivity *)

Lemma gate_backoff_bounds n : GATE_BACKOFF_BASE_SECS <= gate_backoff n <= GATE_BACKOFF_CAP_SECS.
Proof.
  unfold gate_backoff, GATE_BACKOFF_BASE_SECS, GATE_BACKOFF_CAP_SECS.
  assert (1 <= Z.shiftl 1 (Z.min (u32_sat_sub n 1) 16)).
  { rewrite Z.shiftl_mul_pow2 by ints. pose proof (Z.pow_pos_nonneg 2 (Z.min (u32_sat_sub n 1) 16)).
    ints. }
  ints.
Qed.

Lemma gate_backoff_small n : 1 <= n <= 5 -> gate_backoff n = 30 * 2 ^ (n - 1).
Proof.
  intros H. assert (n = 1 \/ n = 2 \/ n = 3 \/ n = 4 \/ n = 5) as Hn by lia.
  by destruct Hn as [->|[->|[->|[->| ->]]]].
Qed.

Lemma gate_backoff_large n : 6 <= n -> gate_backoff n = 900.
Proof.
  intros H. unfold gate_backoff, GATE_BACKOFF_BASE_SECS, GATE_BACKOFF_CAP_SECS.
  rewrite Z.shiftl_mul_pow2 by ints.
  assert (2 ^ 5 <= 2 ^ Z.min (u32_sat_sub n 1) 16) by (apply Z.pow_le_mono_r; ints).
  ints.
Qed.

(** A gate failure opens the gate for exactly [max(backoff, Retry-After)]
    seconds.  The backoff is 30 s doubled per consecutive failure up to 900 s;
    every query before the horizon is skipped with that horizon, and from the
    horizon on the model is offered as a half-open probe, never as fresh. *)
Theorem gate_failure_horizon (h : ModelHealth) (now ttl : Z) (provider reason : string)
    (c : Classification) (ra : option Z)
    (Hopen : 0 <= default 0 (open_count <$> gate h)) :
  let h' := record_gate_failure_at h now provider c ra reason in
  let n := u32_sat_add (default 0 (open_count <$> gate h)) 1 in
  let horizon := i64_sat_add now (Z.max (gate_backoff n) (Z.min I64_MAX (default 0 ra))) in
  (1 <= n <= 5 -> gate_backoff n = 30 * 2 ^ (n - 1)) /\
  (6 <= n -> gate_backoff n = 900) /\
  30 <= gate_backoff n <= 900 /\
  (forall t, t < horizon -> precheck_at h' t ttl = Skip horizon (take_chars 160 reason)) /\
  (forall t, horizon <= t -> precheck_at h' t ttl = NeedsProbe true).
Proof.
  intros h' n horizon.
  split; [apply gate_backoff_small|]. split; [apply gate_backoff_large|].
  split; [apply gate_backoff_bounds|].
  assert (gate h' = Some (mkGate n (Some horizon) None (Some (take_chars 160 reason)))) as Hg.
  { unfold h', record_gate_failure_at, horizon, n. simpl.
    destruct (gate h); simpl; do 5 f_equal; destruct ra; simpl; try done; case_match; ints. }
  assert (0 < n) by (unfold n; ints).
  unfold precheck_at. rewrite Hg. simpl. split; intros t Ht.
  - destruct (Z.ltb_spec t horizon); [done|lia].
  - destruct (Z.ltb_spec t horizon); [lia|]. destruct (Z.ltb_spec 0 n); [done|lia].
Qed.

Lemma gate_failure_horizon_witness :
  precheck_at (record_gate_failure_at health_default 1000 "p" CError (Some 45) "HTTP 500")
    1044 600 = Skip 1045 "HTTP 500" /\
  precheck_at (record_gate_failure_at health_default 1000 "p" CError (Some 45) "HTTP 500")
    1045 600 = NeedsProbe true.
Proof.
  pose proof (gate_failure_horizon health_default 1000 600 "p" "HTTP 500" CError (Some 45)
                ltac:(simpl; lia)) as (_ & _ & _ & H1 & H2).
  split; [apply (H1 1044); vm_compute; reflexivity|apply (H2 1045); vm_compute; discriminate].
Defined.

(** A half-open grant. *)
Lemma decide_locked_grant h at_ ttl h' :
  decide_locked h at_ ttl = (h', NeedsProbe true) ->
  exists g, gate h = Some g /\ 0 < open_count g /\
    opt_filter (fun t => at_ <? t) (retry_not_before_unix g) = None /\
    h' = claim_half_open_at h at_.
Proof.
  unfold decide_locked, precheck_at, precheck_fresh. intros H.
  destruct (gate h) as [g|] eqn:Eg; [|dmatch].
  destruct (opt_filter _ (retry_not_before_unix g)) eqn:Er; [done|].
  destruct (Z.ltb_spec 0 (open_count g)); [|dmatch].
  exists g. dmatch.
Qed.

(** The decisions of a sequence of processes, each under the store lock. *)
Fixpoint decide_all (h : ModelHealth) (ttl : Z) (ats : list Z) : ModelHealth * list Precheck :=
  match ats with
  | [] => (h, [])
  | t :: ts => let '(h1, d) := decide_locked h t ttl in
               let '(h2, ds) := decide_all h1 ttl ts in (h2, d :: ds)
  end.

(** The half-open probe is exclusive.  Once a process was granted the
    probe at [t0], every process deciding under the store lock within the
    60-second claim is told to skip until the claim lapses, whatever the order
    and number of the decisions, and none of them changes the record. *)
Theorem half_open_probe_exclusive (h h' : ModelHealth) (t0 ttl : Z) (ats : list Z)
    (Hrange : I64_MIN <= t0 <= I64_MAX - GATE_HALF_OPEN_CLAIM_SECS)
    (Hgrant : decide_locked h t0 ttl = (h', NeedsProbe true))
    (Hats : Forall (fun t => t0 <= t < t0 + GATE_HALF_OPEN_CLAIM_SECS) ats) :
  decide_all h' ttl ats =
    (h', map (fun _ => Skip (t0 + GATE_HALF_OPEN_CLAIM_SECS)
                 "half-open health probe in progress in another zoder process") ats).
Proof.
  destruct (decide_locked_grant _ _ _ _ Hgrant) as (g & Hg & Hopen & Hretry & ->).
  unfold claim_half_open_at. rewrite Hg, i64_wrap_id by (unfold GATE_HALF_OPEN_CLAIM_SECS in *; ints).
  induction ats as [|t ts IH]; [done|]. apply Forall_cons in Hats as [Ht Hts].
  simpl. unfold decide_locked at 1, precheck_at. simpl.
  assert (opt_filter (fun u => t <? u) (retry_not_before_unix g) = None) as ->.
  { revert Hretry. destruct (retry_not_before_unix g) as [r|]; simpl; [|done].
    destruct (Z.ltb_spec t0 r); [done|]. destruct (Z.ltb_spec t r); [lia|done]. }
  destruct (Z.ltb_spec 0 (open_count g)); [|lia].
  destruct (Z.ltb_spec t (t0 + GATE_HALF_OPEN_CLAIM_SECS)); [|lia].
  by rewrite IH.
Qed.

Lemma half_open_probe_exclusive_witness :
  let h := record_gate_failure_at health_default 1000 "p" CError None "timeout" in
  (decide_all (decide_locked h 1030 600).1 600 [1031; 1030; 1089]).2 =
    [Skip 1090 "half-open health probe in progress in another zoder process";
     Skip 1090 "half-open health probe in progress in another zoder process";
     Skip 1090 "half-open health probe in progress in another zoder process"].
Proof.
  intros h.
  rewrite (half_open_probe_exclusive h (decide_locked h 1030 600).1 1030 600 [1031; 1030; 1089]);
    [reflexivity|vm_compute; split; discriminate|vm_compute; reflexivity|].
  repeat constructor; vm_compute; discriminate.
Defined.

(** ** The breaker *)

(** What the breaker reads of a record. *)
Definition breaker_view (h : ModelHealth) : Z * option Z * Z :=
  (consecutive_failures h, last_failure_unix h, failures h).

Lemma breaker_open_view h1 h2 now :
  breaker_view h1 = breaker_view h2 -> breaker_open_at h1 now = breaker_open_at h2 now.
Proof. unfold breaker_view, breaker_open_at. by intros [= -> -> _]. Qed.

Lemma classified_failure_skip err provider c wall t1 t2 h :
  skips_consult c = true ->
  let h' := classified_failure err provider c wall t1 t2 h in
  breaker_view h' = breaker_view h /\ classification h' = Some c /\
  checked_at_unix h' = Some t2 /\ calls h' = u64_sat_add (calls h) 1 /\
  quota_wall_until_unix h' =
    match wall with Some u => Some u | None => quota_wall_until_unix h end /\ gate h' = gate h.
Proof.
  intros Hc h'. unfold h', classified_failure. rewrite Hc.
  destruct (str_is_empty provider); done.
Qed.

(** A skip-class outcome (capacity, unprovisioned, unauthorized) is breaker
    neutral and is skipped by classification instead.  For every model of the
    store the breaker answers as before at every instant; the failing model is
    skipped while the capacity classification is younger than 30 minutes, for
    ever for a permanent one, and at least until a recorded quota wall. *)
Theorem skip_class_breaker_neutral (models : gmap string ModelHealth) (model err provider : string)
    (c : Classification) (wall : option Z) (t1 t2 : Z) (Hc : skips_consult c = true) :
  let models' := record_classified_failure_with_wall models model err provider c wall t1 t2 in
  (forall m now, store_breaker_open models' m now = store_breaker_open models m now) /\
  (forall now, i64_sat_sub now t2 < CAPACITY_CLASSIFICATION_TTL_SECS ->
     store_is_skipped models' model now = true) /\
  (forall now, c <> Capacity -> store_is_skipped models' model now = true) /\
  (forall now until, wall = Some until -> now < until -> store_is_skipped models' model now = true) /\
  (forall now, c = Capacity -> CAPACITY_CLASSIFICATION_TTL_SECS <= i64_sat_sub now t2 ->
     (forall u, wall = Some u -> u <= now) ->
     (wall = None -> forall h u, models !! model = Some h -> quota_wall_until_unix h = Some u -> u <= now) ->
     store_is_skipped models' model now = false) /\
  (forall m now, m <> model -> store_is_skipped models' m now = store_is_skipped models m now).
Proof.
  unfold record_classified_failure_with_wall, upd. simpl.
  set (h0 := default health_default (models !! model)).
  destruct (classified_failure_skip err provider c wall t1 t2 h0 Hc)
    as (Hv & Hcl & Hch & _ & Hw & _).
  set (h' := classified_failure err provider c wall t1 t2 h0) in *.
  unfold store_breaker_open, store_is_skipped, is_skipped_by_classification_at.
  rewrite lookup_insert_eq. simpl. rewrite Hcl, Hch, Hw.
  split; [|split; [|split; [|split; [|split]]]].
  - intros m now. destruct (decide (m = model)) as [->|Hne].
    + rewrite lookup_insert_eq. simpl. rewrite (breaker_open_view h' h0) by done.
      unfold h0. by destruct (models !! model).
    + by rewrite lookup_insert_ne.
  - intros now Hnow. apply orb_true_iff. right. destruct c; try done. by apply Z.ltb_lt.
  - intros now Hne. apply orb_true_iff. right. by destruct c.
  - intros now u -> Hu. apply orb_true_iff. left. by apply Z.ltb_lt.
  - intros now -> Httl Hwall Hold. apply orb_false_iff. split; [|by apply Z.ltb_ge].
    destruct wall as [u|]; [apply Z.ltb_ge; by apply Hwall|].
    unfold h0. destruct (models !! model) as [h|] eqn:E; simpl; [|done].
    destruct (quota_wall_until_unix h) as [u|] eqn:Eu; [|done]. apply Z.ltb_ge. by eapply Hold.
  - intros m now Hne. by rewrite lookup_insert_ne.
Qed.

Lemma skip_class_breaker_neutral_witness :
  let m' := record_classified_failure_with_wall ∅ "m" "429" "p" Capacity None 100 100 in
  store_breaker_open m' "m" 101 = false /\ store_is_skipped m' "m" 1899 = true /\
  store_is_skipped m' "m" 1900 = false.
Proof.
  intros m'.
  destruct (skip_class_breaker_neutral ∅ "m" "429" "p" Capacity None 100 100 eq_refl)
    as (H1 & H2 & _ & _ & H5 & _).
  split; [exact (H1 "m" 101)|]. split; [apply H2; vm_compute; reflexivity|].
  apply H5; [reflexivity|vm_compute; discriminate|discriminate|].
  intros _ h u Hh. rewrite lookup_empty in Hh. discriminate.
Defined.

Lemma classified_failure_error err provider wall t1 t2 h :
  let h' := classified_failure err provider CError wall t1 t2 h in
  consecutive_failures h' = u32_sat_add (consecutive_failures h) 1 /\
  last_failure_unix h' = Some t1.
Proof. intros h'. unfold h', classified_failure. simpl. by destruct (str_is_empty provider). Qed.

(** [n] genuine errors in a row, stamped at the given instants. *)
Definition errors (err provider : string) (ts : list Z) (h : ModelHealth) : ModelHealth :=
  fold_left (fun h t => classified_failure err provider CError None t t h) ts h.

Lemma errors_view err provider ts h t :
  0 <= consecutive_failures h <= U32_MAX ->
  let h' := errors err provider (ts ++ [t]) h in
  consecutive_failures h' =
    Z.min U32_MAX (consecutive_failures h + Z.of_nat (length (ts ++ [t]))) /\
  last_failure_unix h' = Some t.
Proof.
  intros Hh h'. unfold h', errors. rewrite fold_left_app. simpl.
  destruct (classified_failure_error err provider None t t
    (fold_left (fun h t => classified_failure err provider CError None t t h) ts h)) as [-> ->].
  split; [|done]. rewrite length_app. simpl.
  assert (forall l x, 0 <= consecutive_failures x <= U32_MAX ->
    consecutive_failures
      (fold_left (fun h t => classified_failure err provider CError None t t h) l x) =
    Z.min U32_MAX (consecutive_failures x + Z.of_nat (length l))) as Hl.
  { induction l as [|u l IH]; simpl; intros x Hx; [ints|].
    destruct (classified_failure_error err provider None u u x) as [Hc _].
    rewrite IH; rewrite Hc; ints. }
  rewrite Hl by done. ints.
Qed.

(** The breaker trips on the third consecutive genuine error, not before,
    stays open for exactly 300 seconds after the last one, then lets a probe
    through; a success closes it at once whatever the history. *)
Theorem breaker_trips (h : ModelHealth) (err provider : string) (ts : list Z) (t : Z)
    (Hh : consecutive_failures h = 0) (Hlen : Z.of_nat (length ts) < U32_MAX) :
  let h' := errors err provider (ts ++ [t]) h in
  (forall now, breaker_open_at h' now = true <->
     (2 <= length ts)%nat /\ i64_sat_sub now t < BREAKER_COOLDOWN_SECS) /\
  (state h' = Down <-> (2 <= length ts)%nat) /\
  (forall lat now, breaker_open_at (on_success lat h') now = false /\
                   state (on_success lat h') = Healthy).
Proof.
  intros h'. destruct (errors_view err provider ts h t ltac:(ints)) as [Hc Hl]. fold h' in Hc, Hl.
  rewrite length_app in Hc. simpl in Hc. rewrite Hh in Hc.
  split; [|split; [|done]].
  - intros now. unfold breaker_open_at. rewrite Hc, Hl. unfold BREAKER_THRESHOLD.
    case_match; rewrite ?Z.ltb_lt, ?Z.ltb_ge in *; [split; [done|ints]|]. split; [ints|tauto].
  - unfold state. rewrite Hc. unfold BREAKER_THRESHOLD.
    repeat case_match; rewrite ?Z.leb_le, ?Z.leb_gt in *; split; try done; ints.
Qed.

Lemma breaker_trips_witness :
  breaker_open_at (errors "500" "p" [10; 20; 30] health_default) 329 = true /\
  breaker_open_at (errors "500" "p" [10; 20; 30] health_default) 330 = false.
Proof.
  destruct (breaker_trips health_default "500" "p" [10; 20] 30 eq_refl ltac:(vm_compute; reflexivity))
    as (H & _).
  split.
  - apply (H 329). split; [simpl; lia|vm_compute; reflexivity].
  - apply not_true_iff_false. rewrite (H 330). intros [_ Hc]. vm_compute in Hc. discriminate.
Defined.

(** ** Counter invariant over every operation *)

Inductive Op :=
| OpSuccess (latency : f64) (now : Z)
| OpClassifiedSuccess (latency : f64) (provider : string) (c : Classification) (now : Z)
| OpFailure (err : string) (t1 t2 : Z)
| OpClassifiedFailure (err provider : string) (c : Classification) (wall : option Z) (t1 t2 : Z)
| OpGateFailure (now : Z) (provider : string) (c : Classification) (ra : option Z) (reason : string)
| OpGateSuccess (now : Z) (provider : string)
| OpDecide (at_ ttl : Z).

Definition apply_op (models : gmap string ModelHealth) (model : string) (o : Op) :
    gmap string ModelHealth :=
  match o with
  | OpSuccess l now => record_success models model l now
  | OpClassifiedSuccess l p c now => record_classified_success models model l p c now
  | OpFailure e t1 t2 => record_failure models model e t1 t2
  | OpClassifiedFailure e p c w t1 t2 =>
      record_classified_failure_with_wall models model e p c w t1 t2
  | OpGateFailure now p c ra r => upd models model (fun h => record_gate_failure_at h now p c ra r)
  | OpGateSuccess now p => upd models model (fun h => record_gate_success_at h now p)
  | OpDecide t ttl => upd models model (fun h => (decide_locked h t ttl).1)
  end.

Definition health_wf (h : ModelHealth) : Prop :=
  0 <= failures h <= calls h /\ calls h <= U64_MAX /\
  0 <= consecutive_failures h <= failures h /\ consecutive_failures h <= U32_MAX /\
  match gate h with Some g => 0 <= open_count g <= U32_MAX | None => True end.

Lemma health_default_wf : health_wf health_default.
Proof. unfold health_wf; simpl; ints. Qed.

Lemma decide_locked_wf h t ttl : health_wf h -> health_wf (decide_locked h t ttl).1.
Proof.
  unfold decide_locked, claim_half_open_at, health_wf. intros Hh.
  destruct (precheck_at h t ttl) as [|[]|]; simpl; try done.
  destruct (gate h) as [g|] eqn:E; simpl; by rewrite ?E.
Qed.

Lemma apply_op_wf models m o :
  map_Forall (fun _ => health_wf) models -> map_Forall (fun _ => health_wf) (apply_op models m o).
Proof.
  intros Hwf. assert (health_wf (default health_default (models !! m))) as Hm.
  { destruct (models !! m) as [h|] eqn:E; simpl; [by apply (Hwf m)|apply health_default_wf]. }
  assert (forall f, health_wf (f (default health_default (models !! m))) ->
    map_Forall (fun _ => health_wf) (upd models m f)) as Hupd.
  { intros f Hf. unfold upd. by apply map_Forall_insert_2. }
  revert Hm Hupd. generalize (default health_default (models !! m)). intros h Hh Hupd.
  assert (match gate h with Some g => 0 <= open_count g <= U32_MAX | None => True end) as Hg
    by apply Hh.
  destruct o; simpl; apply Hupd; unfold classified_failure, record_gate_failure_at; try done.
  4: destruct (skips_consult c), (str_is_empty provider).
  all: try (unfold health_wf in *; simpl in *; repeat split; try done; ints).
  - unfold health_wf in *. simpl in *. repeat split; try done; try ints;
      destruct (gate h); simpl; ints.
  - by apply decide_locked_wf.
Qed.

(** The counters stay consistent.  Whatever sequence of records, gate
    updates and half-open claims is applied to the models of a store,
    [consecutive_failures <= failures <= calls] and every counter stays within
    its machine width; an open breaker is always reported as [Down]. *)
Theorem counters_invariant (ops : list (string * Op)) :
  let models := fold_left (fun ms mo => apply_op ms mo.1 mo.2) ops ∅ in
  forall m h, models !! m = Some h ->
    health_wf h /\ (forall now, breaker_open_at h now = true -> state h = Down).
Proof.
  intros models m h Hm. split.
  - assert (map_Forall (fun _ => health_wf) models) as Hall; [|by apply (Hall m)].
    unfold models. apply (fold_left_in _ (map_Forall (fun _ => health_wf)));
      [apply map_Forall_empty|]. intros. by apply apply_op_wf.
  - intros now. unfold breaker_open_at, state.
    destruct (Z.ltb_spec (consecutive_failures h) BREAKER_THRESHOLD); [done|].
    destruct (Z.leb_spec BREAKER_THRESHOLD (consecutive_failures h)); [done|lia].
Qed.

Lemma counters_invariant_witness :
  health_wf (mkHealth 2 1 1 None (Some "500") (Some 7) (Some "p") (Some CError) (Some 7) None None).
Proof.
  apply (counters_invariant [("m", OpSuccess f64_nan 5);
    ("m", OpClassifiedFailure "500" "p" CError None 7 7)] "m"). vm_compute. reflexivity.
Defined.
