(* ===== verification/LockFile.v ===== *)
(** The health store's lockfile and its locked read-modify-write
    ([HealthStore::mutate_locked], [LockGuard] in
    crates/model-health/src/lib.rs).

    The processes of a host run the acquisition loop, the update and the drop
    of the guard as interleaved atomic steps on a shared world: the lockfile
    (its modification time), the store on disk, and a clock in milliseconds.
    Each file system call is one step, so a check and the removal that acts on
    it are two.  The store is a parameter [S], [fresh] is its default and process
    [p] applies [f p]; a missing file reads as the default store, and so does one
    that cannot be read. *)
From S2P Require Import Prelude.
Local Open Scope Z_scope.

Definition LOCK_TIMEOUT_MS : Z := 5000.
Definition LOCK_STALE_SECS : Z := 30.

Section Protocol.
Context {S : Type} (fresh : S) (f : nat -> S -> S).

(** Where a process is.  [Trying], [Contended] and [Breaking] are the points
    of the loop of [LockGuard::acquire]: before [create_new], after it failed
    with [AlreadyExists], and after [is_stale] answered true. *)
Inductive Phase :=
| Trying (start : Z)
| Contended (start : Z)
| Breaking (start : Z)
| Holding
| Loaded (s : S) (whole : bool)
| Wrote
| TimedOut
| Finished.

(** What happened to the store: an update of a process saved onto what it had
    loaded, the store or the default, or the file moved aside. *)
Inductive Change := Saved (p : nat) (whole : bool) | MovedAside.

Record World := mkWorld {
  clock : Z;
  lockfile : option Z;         (* the modification time, when it exists *)
  disk : S;
  procs : gmap nat Phase;
  history : list Change
}.

Inductive Label :=
| Tick (ms : Z)
| Begin (p : nat)
| Create (p : nat)             (* [create_new] *)
| CheckStale (p : nat)         (* [is_stale] and what follows a false answer *)
| Break (p : nat)              (* [remove_file], then [continue] *)
| Load (p : nat)
| LoadFails (p : nat)                      (* the file is there and cannot be read *)
| LoadRejects (p : nat) (moved : bool)     (* it is too large or not a store *)
| Write (p : nat)
| WriteFail (p : nat)
| DropGuard (p : nat)
| Crash (p : nat).

(** [LockGuard::is_stale] *)
Definition is_stale (w : World) : bool :=
  match lockfile w with
  | None => false
  | Some modified =>
      if clock w <? modified then false
      else LOCK_STALE_SECS <=? (clock w - modified) / 1000
  end.

Definition set_proc (w : World) (p : nat) (ph : Phase) : World :=
  mkWorld (clock w) (lockfile w) (disk w) (<[p := ph]> (procs w)) (history w).
Definition set_lock (w : World) (l : option Z) : World :=
  mkWorld (clock w) l (disk w) (procs w) (history w).

(** One atomic step; [None] when the label does not apply. *)
Definition step (l : Label) (w : World) : option World :=
  match l with
  | Tick ms => if 0 <=? ms then
      Some (mkWorld (clock w + ms) (lockfile w) (disk w) (procs w) (history w)) else None
  | Begin p => match procs w !! p with
      | None => Some (set_proc w p (Trying (clock w)))
      | Some _ => None
      end
  | Create p => match procs w !! p with
      | Some (Trying start) =>
          match lockfile w with
          | None => Some (set_proc (set_lock w (Some (clock w))) p Holding)
          | Some _ => Some (set_proc w p (Contended start))
          end
      | _ => None
      end
  | CheckStale p => match procs w !! p with
      | Some (Contended start) =>
          if is_stale w then Some (set_proc w p (Breaking start))
          else if LOCK_TIMEOUT_MS <=? clock w - start then Some (set_proc w p TimedOut)
          else Some (set_proc w p (Trying start))
      | _ => None
      end
  | Break p => match procs w !! p with
      | Some (Breaking start) => Some (set_proc (set_lock w None) p (Trying start))
      | _ => None
      end
  | Load p => match procs w !! p with
      | Some Holding => Some (set_proc w p (Loaded (disk w) true))
      | _ => None
      end
  | LoadFails p => match procs w !! p with
      | Some Holding => Some (set_proc w p (Loaded fresh false))
      | _ => None
      end
  | LoadRejects p moved => match procs w !! p with
      | Some Holding =>
          Some (mkWorld (clock w) (lockfile w) (if moved then fresh else disk w) (<[p := Loaded fresh false]> (procs w))
                  (history w ++ (if moved then [MovedAside] else [])))
      | _ => None
      end
  | Write p => match procs w !! p with
      | Some (Loaded s whole) =>
          Some (mkWorld (clock w) (lockfile w) (f p s) (<[p := Wrote]> (procs w))
                  (history w ++ [Saved p whole]))
      | _ => None
      end
  | WriteFail p => match procs w !! p with
      | Some (Loaded _ _) => Some (set_proc w p Wrote)
      | _ => None
      end
  | DropGuard p => match procs w !! p with
      | Some (Holding | Loaded _ _ | Wrote) => Some (set_proc (set_lock w None) p Finished)
      | _ => None
      end
  | Crash p => match procs w !! p with
      | Some _ => Some (set_proc w p Finished)
      | None => None
      end
  end.

Fixpoint run (ls : list Label) (w : World) : option World :=
  match ls with
  | [] => Some w
  | l :: ls => match step l w with Some w' => run ls w' | None => None end
  end.

Definition init (s0 : S) : World := mkWorld 0 None s0 ∅ [].

Definition holds (ph : Phase) : bool :=
  match ph with Holding | Loaded _ _ | Wrote => true | _ => false end.
Definition holder (w : World) (p : nat) : Prop :=
  exists ph, procs w !! p = Some ph /\ holds ph = true.

(** The updates of [ps] applied one after the other. *)
Definition apply_all (s0 : S) (ps : list nat) : S := fold_left (fun s p => f p s) ps s0.
(** The store after a history. *)
Definition change (s : S) (c : Change) : S :=
  match c with Saved p whole => f p (if whole then s else fresh) | MovedAside => fresh end.
Definition replay (s0 : S) (cs : list Change) : S := fold_left change cs s0.
(** The processes whose update was saved. *)
Definition written (w : World) : list nat := omap (fun c => match c with Saved p _ => Some p | MovedAside => None end) (history w).

Record inv (s0 : S) (w : World) : Prop := {
  inv_free : lockfile w = None -> forall p, ~ holder w p;
  inv_unique : forall p q, holder w p -> holder w q -> p = q;
  inv_loaded : forall p s whole, procs w !! p = Some (Loaded s whole) -> s = if whole then disk w else fresh;
  inv_disk : disk w = replay s0 (history w);
  inv_breaking : forall p start, procs w !! p <> Some (Breaking start)
}.

Lemma holder_set_proc w p ph q :
  holder (set_proc w p ph) q <-> (q = p /\ holds ph = true) \/ (q <> p /\ holder w q).
Proof.
  unfold holder, set_proc; simpl. destruct (decide (q = p)) as [->|Hne].
  - rewrite lookup_insert_eq. naive_solver.
  - rewrite lookup_insert_ne by done. naive_solver.
Qed.

Lemma holder_set_lock w l q : holder (set_lock w l) q <-> holder w q.
Proof. done. Qed.

(** A process moves between phases that hold nothing. *)
Lemma inv_idle s0 w p ph :
  inv s0 w -> holds ph = false -> (forall start, ph <> Breaking start) ->
  inv s0 (set_proc w p ph).
Proof.
  intros [H1 H2 H3 H4 H5] Hph Hb. constructor; simpl; try done.
  - intros Hl q. rewrite holder_set_proc, Hph. intros [[_ ?]|[_ Hq]]; [done|]. by apply (H1 Hl q).
  - intros q r. rewrite !holder_set_proc, Hph. intros [[_ ?]|[_ Hq]] [[_ ?]|[_ Hr]]; try done.
    by apply H2.
  - intros q s whole. destruct (decide (q = p)) as [->|Hne].
    + rewrite lookup_insert_eq. intros [= ->]. done.
    + rewrite lookup_insert_ne by done. apply H3.
  - intros q start. destruct (decide (q = p)) as [->|Hne].
    + rewrite lookup_insert_eq. intros [= ->]. by eapply Hb.
    + rewrite lookup_insert_ne by done. apply H5.
Qed.

(** The unique holder moves on, possibly replacing the store. *)
Lemma inv_holder s0 w p ph d ws l :
  inv s0 w -> holder w p -> (forall start, ph <> Breaking start) ->
  (forall s whole, ph = Loaded s whole -> s = if whole then d else fresh) -> d = replay s0 ws ->
  (l = None -> holds ph = false) ->
  inv s0 (mkWorld (clock w) l d (<[p := ph]> (procs w)) ws).
Proof.
  intros [H1 H2 H3 H4 H5] Hp Hb Hl Hd Hlk.
  assert (forall q, holder (mkWorld (clock w) l d (<[p := ph]> (procs w)) ws) q ->
    q = p /\ holds ph = true) as Hq.
  { intros q Hq. apply (holder_set_proc w p ph q) in Hq as [?|[Hne Hq]]; [done|].
    by rewrite (H2 q p Hq Hp) in Hne. }
  constructor; simpl; try done.
  - intros -> q [_ Hh]%Hq. rewrite Hlk in Hh; done.
  - intros q r [-> _]%Hq [-> _]%Hq. done.
  - intros q s whole. destruct (decide (q = p)) as [->|Hne].
    + rewrite lookup_insert_eq. intros [= ->]. by apply Hl.
    + rewrite lookup_insert_ne by done. intros E.
      assert (holder w q) as Hhq by (eexists; by split). by rewrite (H2 q p Hhq Hp) in Hne.
  - intros q start. destruct (decide (q = p)) as [->|Hne].
    + rewrite lookup_insert_eq. intros [= ->]. by eapply Hb.
    + rewrite lookup_insert_ne by done. apply H5.
Qed.

(** A step that does not find a stale lock. *)
Definition fresh_step (l : Label) (w : World) : Prop :=
  match l with CheckStale _ => is_stale w = false | _ => True end.

Lemma step_inv s0 l w w' : inv s0 w -> fresh_step l w -> step l w = Some w' -> inv s0 w'.
Proof.
  intros Hinv Hf. pose proof Hinv as [H1 H2 H3 H4 H5].
  destruct l; simpl in *; intros Hs; repeat case_match; simplify_eq; try done;
    try (by apply inv_idle).
  - (* the lock is created *)
    assert (forall q, ~ holder w q) as Hno by (by apply H1).
    assert (forall q, holder (set_proc (set_lock w (Some (clock w))) p Holding) q -> q = p) as Hq.
    { intros q [[-> _]|[_ Hq]]%holder_set_proc; [done|]. by destruct (Hno q). }
    constructor; simpl; try done.
    + intros q r ->%Hq ->%Hq. done.
    + intros q s whole. destruct (decide (q = p)) as [->|Hne];
        [by rewrite lookup_insert_eq|rewrite lookup_insert_ne by done; apply H3].
    + intros q st. destruct (decide (q = p)) as [->|Hne];
        [by rewrite lookup_insert_eq|rewrite lookup_insert_ne by done; apply H5].
  - by destruct (H5 p start).
  - apply inv_holder; try done; [by eexists|by intros s whole [= <- <-]|].
    intros Hl. by destruct (H1 Hl p); eexists.
  - apply inv_holder; try done; [by eexists|by intros s whole [= <- <-]|].
    intros Hl. by destruct (H1 Hl p); eexists.
  - apply inv_holder; try done; [by eexists|by intros s whole [= <- <-]| |intros Hl; by destruct (H1 Hl p); eexists].
    unfold replay. by rewrite fold_left_app.
  - apply inv_holder; try done; [by eexists|by intros s whole [= <- <-]| |intros Hl; by destruct (H1 Hl p); eexists].
    unfold replay. by rewrite fold_left_app.
  - apply inv_holder; try done; [by eexists| |].
    + unfold replay. rewrite fold_left_app. simpl. fold (replay s0 (history w)).
      rewrite <- H4. f_equal. by eapply H3.
    + intros Hl. by destruct (H1 Hl p); eexists.
  - apply inv_holder; try done; [by eexists|].
    intros Hl. by destruct (H1 Hl p); eexists.
  - apply (inv_holder s0 w p Finished (disk w) (history w) None); try done. by eexists.
  - apply (inv_holder s0 w p Finished (disk w) (history w) None); try done. by eexists.
  - apply (inv_holder s0 w p Finished (disk w) (history w) None); try done. by eexists.
Qed.

(** Every stale check of the run answers false. *)
Fixpoint never_stale (ls : list Label) (w : World) : bool :=
  match ls with
  | [] => true
  | l :: ls =>
      match l with CheckStale _ => negb (is_stale w) | _ => true end &&
      match step l w with Some w' => never_stale ls w' | None => true end
  end.

Lemma run_inv s0 ls w w' :
  inv s0 w -> never_stale ls w = true -> run ls w = Some w' -> inv s0 w'.
Proof.
  revert w. induction ls as [|l ls IH]; simpl; intros w Hinv Hn Hr; [congruence|].
  apply andb_true_iff in Hn as [Hn1 Hn2].
  destruct (step l w) as [w1|] eqn:E; [|done].
  apply (IH w1); try done. eapply step_inv; [done| |done].
  destruct l; simpl in *; try done. by apply negb_true_iff.
Qed.

Lemma init_inv s0 : inv s0 (init s0).
Proof.
  constructor; simpl; try done.
  - by intros _ p (ph & Hp & _).
  - by intros p q (ph & Hp & _).
Qed.
End Protocol.
Arguments World S : clear implicits.
Arguments Phase S : clear implicits.

(** Every load of the run reads the store. *)
Definition reads_whole (ls : list Label) : bool :=
  forallb (fun l => match l with LoadFails _ | LoadRejects _ _ => false | _ => true end) ls.
Definition whole_history (cs : list Change) : bool :=
  forallb (fun c => match c with Saved _ whole => whole | MovedAside => false end) cs.

Section Whole.
Context {S : Type} (fresh : S) (f : nat -> S -> S).
(** What is loaded, and saved later, is whole. *)
Definition loads_whole (w : World S) : Prop :=
  whole_history (history w) = true /\ forall p s whole, procs w !! p = Some (Loaded s whole) -> whole = true.
Lemma step_whole l w w' : reads_whole [l] = true -> loads_whole w -> step fresh f l w = Some w' -> loads_whole w'.
Proof.
  intros Hl Hw Hs. pose proof Hw as [Hh Hp].
  assert (forall c k d p ph h, (forall s whole, ph = Loaded s whole -> whole = true) -> whole_history h = true ->
    loads_whole (mkWorld c k d (<[p := ph]> (procs w)) h)) as Hset.
  { intros c k d p ph h Hph Hh'. split; [done|]. simpl. intros q t b. destruct (decide (q = p)) as [->|Hq].
    - rewrite lookup_insert_eq. intros [= ->]. by apply (Hph t b).
    - rewrite lookup_insert_ne by done. apply Hp. }
  destruct l; try done; simpl in Hs; repeat case_match; simplify_eq; try done; try (apply Hset; [naive_solver|done]).
  apply Hset; [done|]. unfold whole_history in *. rewrite forallb_app, Hh. simpl. rewrite andb_true_r. by eapply Hp.
Qed.
Lemma run_whole ls : forall w w', reads_whole ls = true -> loads_whole w -> run fresh f ls w = Some w' -> loads_whole w'.
Proof.
  induction ls as [|l ls IH]; intros w w' Hl Hw; simpl; [by intros [= <-]|].
  destruct (step fresh f l w) as [w1|] eqn:E; [|done]. unfold reads_whole in *. simpl in Hl. apply andb_true_iff in Hl as [Hl Hls].
  apply (IH w1); [done|]. apply (step_whole l w); [by unfold reads_whole; simpl; rewrite Hl|done|done].
Qed.
Lemma replay_whole s0 cs : whole_history cs = true ->
  replay fresh f s0 cs = apply_all f s0 (omap (fun c => match c with Saved p _ => Some p | MovedAside => None end) cs).
Proof.
  revert s0. induction cs as [|c cs IH]; intros s0 H; [done|]. unfold whole_history in H. simpl in H. apply andb_true_iff in H as [Hc H].
  destruct c as [p []|]; [|done..]. by apply (IH (f p s0)).
Qed.
End Whole.

(** C6: as long as no waiter ever judges the lock stale, the locked
    read-modify-write excludes: at every reachable state, for any interleaving,
    time-outs, failed reads and writes and crashes included, at most one process
    holds the guard, and the store on disk is what the saved updates and the
    moves aside made of the initial store one after the other, an update whose
    load failed being made to the default store.  When every load reads the
    store, that is the initial store with exactly the saved updates applied, so
    none is lost. *)
Theorem mutate_locked_serializable {S : Type} (fresh : S) (f : nat -> S -> S) (s0 : S) (ls : list Label)
    (w : World S) (Hrun : run fresh f ls (init s0) = Some w) (Hfresh : never_stale fresh f ls (init s0) = true) :
  (forall p q, holder w p -> holder w q -> p = q) /\ disk w = replay fresh f s0 (history w) /\
  (reads_whole ls = true -> disk w = apply_all f s0 (written w)).
Proof.
  pose proof (run_inv fresh f s0 ls _ _ (init_inv fresh f s0) Hfresh Hrun) as [_ H _ H' _]. split_and!; [done|done|].
  intros Hl. rewrite H'. apply replay_whole. apply (run_whole fresh f ls (init s0)); [done| |done].
  split; [done|]. intros p t b. by simpl; rewrite lookup_empty.
Qed.

(** Two updates that overlap in time. *)
Definition two_writers : list Label :=
  [Begin 1; Begin 2; Create 1; Create 2; CheckStale 2; Load 1; Create 2; CheckStale 2;
   Write 1; DropGuard 1; Tick 5; Create 2; Load 2; Write 2; DropGuard 2].
Definition append (p : nat) (s : list nat) : list nat := s ++ [p].

Lemma mutate_locked_serializable_witness :
  exists w, run [] append two_writers (init []) = Some w /\ disk w = [1%nat; 2%nat].
Proof.
  eexists. split; [vm_compute; reflexivity|].
  apply (mutate_locked_serializable [] append [] two_writers); vm_compute; reflexivity.
Defined.

(** Process 0 crashed 30 s ago holding the lock; 1 and 2 both judge it stale,
    and 2 removes the lock that 1 has just created. *)
Definition double_break : list Label :=
  [Begin 0; Create 0; Crash 0; Tick 30000; Begin 1; Begin 2; Create 1; Create 2;
   CheckStale 1; CheckStale 2; Break 1; Create 1; Break 2; Create 2].

(** Breaking an abandoned lock is not atomic.  [is_stale] and the
    [remove_file] it triggers are two steps, so of two waiters that judged the
    same abandoned lock stale the slower one removes the lock the faster one
    has just created: both hold the guard, and of their two saved updates one
    is lost.  The code's remark that the next [create_new] sorts out a single
    winner does not hold. *)
Theorem stale_break_loses_update :
  exists (ls : list Label) (w1 w2 : World (list nat)),
    run [] append ls (init []) = Some w1 /\
    holder w1 1%nat /\ holder w1 2%nat /\
    run [] append [Load 1; Load 2; Write 1; Write 2; DropGuard 1; DropGuard 2] w1 = Some w2 /\
    written w2 = [1%nat; 2%nat] /\ disk w2 = [2%nat] /\
    disk w2 <> apply_all append [] (written w2).
Proof.
  exists double_break. eexists. eexists.
  split; [vm_compute; reflexivity|].
  split; [eexists; split; vm_compute; reflexivity|].
  split; [eexists; split; vm_compute; reflexivity|].
  split; [vm_compute; reflexivity|].
  split; [reflexivity|]. split; [reflexivity|]. vm_compute. discriminate.
Qed.

(** A store that is there and cannot be read is a default store to the update
    that follows, which is then saved over it: the comment that a read that
    fails means the file is not there yet does not hold, and the updates saved
    before are lost though one process at a time held the lock. *)
Theorem unreadable_store_overwritten :
  exists w : World (list nat), run [] append [Begin 1; Create 1; Load 1; Write 1; DropGuard 1; Begin 2; Create 2; LoadFails 2; Write 2; DropGuard 2] (init []) = Some w /\
    written w = [1%nat; 2%nat] /\ disk w = [2%nat].
Proof. eexists. split; [vm_compute; reflexivity|]. split; reflexivity. Qed.
