(* ===== verification/Config.v ===== *)
(** The configuration data that routing consults and its pure lookups
    (crates/zoder-core/src/config.rs): providers, their credentials, billing
    and subscription terms, and the resolution of a model id to a family,
    glob matcher included. *)
From S2P Require Import Prelude F64.
Local Open Scope Z_scope.

(** ** Providers *)

Definition PLACEHOLDER_PROVIDER_HOST : string := "api.example.com".
Definition UNSET_PROVIDER_ENDPOINT : string := "unset".
Definition DEFAULT_ACCOUNT_ID : string := "default".

Inductive Auth :=
| AuthNone
| AuthEnv (var : string)
| AuthBearer (token : string)
| AuthApiKeyHeader (header var : string).

(** [Auth::resolve]; [env] is the process environment. *)
Definition auth_resolve (env : string -> option string) (a : Auth) : option string :=
  match a with
  | AuthNone => None
  | AuthEnv var => opt_filter (fun s => negb (str_is_empty s)) (env var)
  | AuthBearer token => Some token
  | AuthApiKeyHeader _ var => opt_filter (fun s => negb (str_is_empty s)) (env var)
  end.

(** [Auth::header_pair] *)
Definition auth_header_pair (env : string -> option string) (a : Auth) : option (string * string) :=
  match a with
  | AuthNone => None
  | AuthEnv _ | AuthBearer _ =>
      (fun tok => ("authorization", ("Bearer " ++ tok)%string)) <$> auth_resolve env a
  | AuthApiKeyHeader header _ => (fun val => (header, val)) <$> auth_resolve env a
  end.

Inductive BillingMode := BillFree | Metered | Subscription.
Inductive QuotaUnit := Tokens | Requests | Messages | Sessions.
Inductive Observability := Header | Counter | PercentOnly.
Inductive ResetKind := Rolling | CalendarMonthly | CalendarDaily.

#[export] Instance BillingMode_eq_dec : EqDecision BillingMode.
Proof. solve_decision. Defined.
#[export] Instance QuotaUnit_eq_dec : EqDecision QuotaUnit.
Proof. solve_decision. Defined.
#[export] Instance Observability_eq_dec : EqDecision Observability.
Proof. solve_decision. Defined.
#[export] Instance ResetKind_eq_dec : EqDecision ResetKind.
Proof. solve_decision. Defined.

Record QuotaWindow := mkQuotaWindow {
  qw_name : string;
  qw_hours : Z;                             (* u32 *)
  qw_unit : QuotaUnit;
  qw_cap : option f64;
  qw_models : option (list string);
  qw_observability : Observability;
  qw_reset : ResetKind
}.

Record SubscriptionPlan := mkPlan {
  monthly_fee_usd : f64;
  plan_tier : option string;
  plan_windows : list QuotaWindow;
  plan_account_id : option string
}.

(** [SubscriptionPlan::effective_account_id] *)
Definition effective_account_id (p : SubscriptionPlan) : string :=
  match plan_account_id p with
  | Some s => if negb (str_is_empty (trim s)) then trim s else DEFAULT_ACCOUNT_ID
  | None => DEFAULT_ACCOUNT_ID
  end.

Record Provider := mkProvider {
  prov_id : string;
  model_aliases : list (list string);
  engine_provider_ref : option string;
  base_url : string;
  prov_kind : string;
  auth : Auth;
  paid : bool;
  billing : BillingMode;
  subscription : option SubscriptionPlan;
  serves : list string;
  azure_api_version : option string;
  max_context_tokens : option Z;
  overload_backoff_min_s : option Z;
  first_token_timeout_s : option Z;
  stream : option bool;
  rate_limit_group : option string;
  max_concurrent : option Z;
  max_requests_per_minute : option Z
}.

(** [Provider::is_flat_plan] *)
Definition is_flat_plan (p : Provider) : bool := bool_decide (billing p = Subscription).

(** [Provider::endpoint_is_configured] *)
Definition endpoint_is_configured (p : Provider) : bool :=
  let endpoint := trim (base_url p) in
  negb (str_is_empty endpoint) && negb (bool_decide (endpoint = UNSET_PROVIDER_ENDPOINT)).

(** [Provider::engine_kind_is_compatible] *)
Definition engine_kind_is_compatible (p : Provider) (engine_kind : string) : bool :=
  let engine_kind := trim engine_kind in
  let zoder_kind := trim (prov_kind p) in
  bool_decide (engine_kind = zoder_kind) ||
  ((bool_decide (engine_kind = "openai-compatible") || bool_decide (engine_kind = "openai")) &&
   bool_decide (zoder_kind = "openai-chat")).

(** [Config::provider] *)
Definition config_provider (providers : list Provider) (id : string) : option Provider :=
  find_first (fun p => bool_decide (prov_id p = id)) providers.

(** [Config::provider_call_budget] *)
Definition provider_call_budget (p : Provider) : string * Z * Z :=
  let group := default (prov_id p)
    (opt_filter (fun g => negb (str_is_empty (trim g))) (rate_limit_group p)) in
  (group, default 0 (max_concurrent p), default 0 (max_requests_per_minute p)).

(** ** The glob matcher of the family table *)

Module Glob.
Local Open Scope nat_scope.
Local Open Scope char_scope.

(** The loop variables of [wildcard_match]. *)
Record St := mkSt { p : nat; v : nat; star : option nat; star_value : nat }.

Definition at_star (pat : list ascii) (i : nat) : bool := bool_decide (pat !! i = Some "*").

(** One iteration of the first loop, entered with [v < value.len()]; [None]
    is [return false]. *)
Definition step (pat value : list ascii) (s : St) : option St :=
  if bool_decide (pat !! p s = Some "?")
     || (bool_decide (p s < length pat) && bool_decide (pat !! p s = value !! v s))
  then Some (mkSt (p s + 1) (v s + 1) (star s) (star_value s))
  else if at_star pat (p s) then Some (mkSt (p s + 1) (v s) (Some (p s)) (v s))
  else match star s with
       | Some star_pos =>
           Some (mkSt (star_pos + 1) (star_value s + 1) (Some star_pos) (star_value s + 1))
       | None => None
       end.

(** The second loop and the final test. *)
Fixpoint tail_stars (pat : list ascii) : bool :=
  match pat with
  | [] => true
  | c :: pat => bool_decide (c = "*") && tail_stars pat
  end.

(** [None] is out of fuel. *)
Fixpoint loop (fuel : nat) (pat value : list ascii) (s : St) : option bool :=
  match fuel with
  | O => None
  | S fuel =>
      if bool_decide (v s < length value) then
        match step pat value s with
        | Some s' => loop fuel pat value s'
        | None => Some false
        end
      else Some (tail_stars (drop (p s) pat))
  end.

(** Each backtrack advances [star_value]; between two backtracks each
    iteration advances [p] or [v]. *)
Definition fuel_for (pat value : list ascii) : nat :=
  S ((length value + 1) * (length pat + length value + 1)).

Definition wildcard_match (pat value : list ascii) : option bool :=
  loop (fuel_for pat value) pat value (mkSt 0 0 None 0).

(** What the two wildcards mean. *)
Inductive matches : list ascii -> list ascii -> Prop :=
| m_nil : matches [] []
| m_star pat value k : matches pat (drop k value) -> matches ("*" :: pat) value
| m_any pat c value : matches pat value -> matches ("?" :: pat) (c :: value)
| m_char pat c value : c <> "*" -> c <> "?" -> matches pat value ->
    matches (c :: pat) (c :: value).

Definition measure (pat value : list ascii) (s : St) : nat :=
  (length value - star_value s) * (length pat + length value + 1)
  + (length value - v s) + (length pat - p s).

Definition wf (pat value : list ascii) (s : St) : Prop :=
  p s <= length pat /\ v s <= length value /\
  match star s with
  | Some i => i < p s /\ star_value s <= v s /\ p s - (i + 1) = v s - star_value s
  | None => star_value s = 0
  end.

Lemma step_wf pat value s s' :
  v s < length value -> wf pat value s -> step pat value s = Some s' ->
  wf pat value s' /\ measure pat value s' < measure pat value s.
Proof.
  unfold step, wf, measure, at_star. intros Hv (Hp & Hv' & Hs).
  repeat case_bool_decide; simpl; intros E;
    repeat match goal with
      | H : pat !! p s = Some _ |- _ =>
          let L := fresh "L" in pose proof (lookup_lt_Some _ _ _ H) as L; clear H
      end;
    destruct (star s) as [i|] eqn:Es; simplify_eq/=; try rewrite Es; simpl;
    (split; [repeat split; lia|nia]).
Qed.

Lemma loop_terminates fuel pat value s :
  wf pat value s -> measure pat value s < fuel -> is_Some (loop fuel pat value s).
Proof.
  revert s. induction fuel as [|fuel IH]; intros s Hwf Hm; [lia|]. simpl.
  case_bool_decide as Hv; [|eauto].
  destruct (step pat value s) as [s'|] eqn:E; [|eauto].
  destruct (step_wf _ _ _ _ Hv Hwf E). apply IH; [done|lia].
Qed.

Lemma matches_drop_segment pat q value n :
  (forall j, j < n -> pat !! j <> Some "*") -> n <= length pat ->
  drop n pat = q -> matches pat value -> n <= length value /\ matches q (drop n value).
Proof.
  intros Hns Hn <- Hm. revert n Hns Hn. induction Hm as [|pat value k Hm IH|pat c value Hm IH|pat c value ? ? Hm IH];
    intros [|n] Hns Hn; simpl in *; try (split; [lia|]); try lia;
    try (by econstructor); try done.
  - by destruct (Hns 0 ltac:(lia)).
  - destruct (IH n) as [??]; [|lia|split; [lia|done]]. intros j Hj. apply (Hns (S j)). lia.
  - destruct (IH n) as [??]; [|lia|split; [lia|done]]. intros j Hj. apply (Hns (S j)). lia.
Qed.

Lemma matches_nil_r pat : matches pat [] <-> tail_stars pat = true.
Proof.
  split.
  - remember [] as value. induction 1; simpl; simplify_eq; [done|].
    apply IHmatches. by rewrite drop_nil.
  - induction pat as [|c pat IH]; simpl; [constructor|].
    rewrite andb_true_iff, bool_decide_eq_true. intros [-> H].
    apply (m_star _ _ 0). by apply IH.
Qed.

(** The text still to match, or one of the texts a backtrack can reach. *)
Definition pending (pat value : list ascii) (s : St) : Prop :=
  matches (drop (p s) pat) (drop (v s) value) \/
  exists i k, star s = Some i /\ star_value s < k <= length value /\
              matches (drop (i + 1) pat) (drop k value).

(** No [*] between the last star and the position in the pattern. *)
Definition seg (pat : list ascii) (s : St) : Prop :=
  forall i j, star s = Some i -> i < j < p s -> pat !! j <> Some "*".

(** A pending backtrack implies the text that a later star leaves pending. *)
Lemma backtrack_subsumed pat value s i k :
  wf pat value s -> seg pat s -> star s = Some i -> star_value s < k <= length value ->
  matches (drop (i + 1) pat) (drop k value) ->
  exists k', v s < k' <= length value /\ matches (drop (p s) pat) (drop k' value).
Proof.
  intros (Hp & Hv & Hs) Hseg Es Hk Hm. rewrite Es in Hs. destruct Hs as (Hi & Hsv & Hd).
  destruct (matches_drop_segment (drop (i + 1) pat) (drop (p s) pat) (drop k value)
              (p s - (i + 1))) as [Hl Hm'].
  - intros j Hj. rewrite lookup_drop. apply (Hseg i); [done|lia].
  - rewrite length_drop. lia.
  - rewrite drop_drop. f_equal. lia.
  - done.
  - rewrite length_drop in Hl. rewrite drop_drop in Hm'.
    exists (k + (p s - (i + 1))). split; [lia|done].
Qed.

Lemma matches_cons_star pat value i n :
  pat !! i = Some "*" -> n <= length value ->
  (matches (drop i pat) (drop n value) <->
   exists k, n <= k <= length value /\ matches (drop (i + 1) pat) (drop k value)).
Proof.
  intros Hi Hn. rewrite (drop_S _ _ _ Hi), Nat.add_1_r. split.
  - inversion 1 as [|? ? k Hm| |]; subst; try done. rewrite drop_drop in Hm.
    exists (Nat.min (n + k) (length value)). split; [lia|].
    destruct (Nat.min_spec (n + k) (length value)) as [[? ->]|[? ->]]; [done|].
    rewrite (drop_ge value (n + k)) in Hm by lia. by rewrite (drop_ge value (length value)) by lia.
  - intros (k & Hk & Hm). apply (m_star _ _ (k - n)). rewrite drop_drop.
    by replace (n + (k - n)) with k by lia.
Qed.

Lemma matches_cons_char pat value i n c :
  (pat !! i = Some "?" \/ pat !! i = Some c) -> c <> "*" -> value !! n = Some c ->
  (matches (drop i pat) (drop n value) <-> matches (drop (i + 1) pat) (drop (n + 1) value)).
Proof.
  intros Hi Hc Hn. rewrite (drop_S _ _ _ Hn), !Nat.add_1_r.
  destruct (decide (pat !! i = Some "?")) as [Hq|Hq].
  - rewrite (drop_S _ _ _ Hq). split; [by inversion 1|by constructor].
  - destruct Hi as [?|Hi]; [done|]. rewrite (drop_S _ _ _ Hi).
    split; [inversion 1; simplify_eq; done|constructor; congruence].
Qed.

Lemma matches_head pat value i n c :
  value !! n = Some c -> matches (drop i pat) (drop n value) ->
  pat !! i = Some "?" \/ pat !! i = Some "*" \/ pat !! i = Some c.
Proof.
  intros Hc. rewrite (drop_S _ _ _ Hc). destruct (pat !! i) as [d|] eqn:Hd.
  - rewrite (drop_S _ _ _ Hd). inversion 1; naive_solver.
  - rewrite drop_ge by (by apply lookup_ge_None). inversion 1.
Qed.

Lemma step_correct pat value s :
  Forall (fun c => c <> "*") value -> v s < length value -> wf pat value s -> seg pat s ->
  match step pat value s with
  | Some s' => seg pat s' /\ (pending pat value s <-> pending pat value s')
  | None => ~ pending pat value s
  end.
Proof.
  intros Hval Hv Hwf Hseg. destruct (lookup_lt_is_Some_2 value (v s) Hv) as [c Hc].
  assert (c <> "*") as Hcs by (by eapply (Forall_lookup_1 _ _ _ _ Hval)).
  unfold step. destruct (_ || _) eqn:E1.
  - assert (pat !! p s = Some "?" \/ pat !! p s = Some c) as Hp.
    { apply orb_true_iff in E1 as [E1|[_ E1]%andb_true_iff]; apply bool_decide_eq_true in E1; [by left|].
      right. by rewrite E1. }
    split.
    + intros i j. simpl. intros Hi Hj. destruct (decide (j = p s)) as [->|]; [naive_solver|].
      apply (Hseg i); [done|lia].
    + unfold pending. simpl. by rewrite (matches_cons_char _ _ _ _ c Hp Hcs Hc).
  - apply orb_false_iff in E1 as [E1 E2]. rewrite bool_decide_eq_false in E1.
    assert (pat !! p s <> Some c) as E3.
    { intros Hp. apply andb_false_iff in E2 as [E2|E2]; apply bool_decide_eq_false in E2; [|congruence].
      by apply E2, (lookup_lt_Some _ _ c). }
    clear E2. unfold at_star. case_bool_decide as Hst.
    + split; [unfold seg; simpl; intros i j [= <-] ?; lia|].
      unfold pending. simpl. rewrite (matches_cons_star _ _ _ _ Hst) by lia. split.
      * intros [(k & Hk & Hm)|(i & k & Hi & Hk & Hm)].
        -- destruct (decide (k = v s)) as [->|]; [by left|]. right. exists (p s), k. naive_solver lia.
        -- destruct (backtrack_subsumed _ _ _ _ _ Hwf Hseg Hi Hk Hm) as (k' & Hk' & Hm').
           apply (matches_cons_star _ _ _ _ Hst) in Hm' as (k2 & Hk2 & Hm2); [|lia].
           right. exists (p s), k2. split; [done|]. split; [lia|done].
      * intros [Hm|(i & k & [= <-] & Hk & Hm)]; left; [exists (v s)|exists k]; (split; [lia|done]).
    + assert (~ matches (drop (p s) pat) (drop (v s) value)) as Hno.
      { intros Hm. destruct (matches_head _ _ _ _ _ Hc Hm) as [?|[?|?]]; done. }
      unfold pending. destruct Hwf as (_ & _ & Hsv). destruct (star s) as [i|] eqn:Es; simpl.
      * split; [unfold seg; simpl; intros ? j [= <-] ?; lia|]. split.
        -- intros [?|(? & k & [= <-] & Hk & Hm)]; [done|].
           destruct (decide (k = star_value s + 1)) as [->|]; [by left|].
           right. exists i, k. split; [done|]. split; [lia|done].
        -- intros [Hm|(? & k & [= <-] & Hk & Hm)]; right; exists i;
             [exists (star_value s + 1)|exists k]; (split; [done|split; [lia|done]]).
      * intros [?|(? & ? & ? & _)]; done.
Qed.

Lemma loop_correct fuel pat value s b :
  Forall (fun c => c <> "*") value -> wf pat value s -> seg pat s ->
  loop fuel pat value s = Some b -> (b = true <-> pending pat value s).
Proof.
  intros Hval. revert s. induction fuel as [|fuel IH]; intros s Hwf Hseg; simpl; [done|].
  case_bool_decide as Hv.
  - pose proof (step_correct _ _ _ Hval Hv Hwf Hseg) as Hc.
    destruct (step pat value s) as [s'|] eqn:E.
    + destruct (step_wf _ _ _ _ Hv Hwf E). destruct Hc as [? ->]. by apply IH.
    + intros [= <-]. naive_solver.
  - intros [= <-]. rewrite <- matches_nil_r. unfold pending.
    assert (drop (v s) value = []) as -> by (apply drop_ge; lia).
    split; [by left|]. intros [?|(i & k & Hi & Hk & Hm)]; [done|].
    destruct (backtrack_subsumed _ _ _ _ _ Hwf Hseg Hi Hk Hm) as (k' & ? & _). lia.
Qed.
End Glob.

(** ** Model families *)

Definition DEFAULT_MODEL_FAMILIES : list (string * string) :=
  [ ("*gpt-oss*", "openai"); ("gpt-oss*", "openai"); ("openai/*", "openai");
    ("*gpt-*", "openai"); ("*claude*", "claude"); ("*gemini*", "gemini");
    ("*gemma*", "gemma"); ("*qwen*", "qwen"); ("*minimax*", "minimax");
    ("*deepseek*", "deepseek"); ("*nemotron*", "nemotron"); ("*glm*", "glm");
    ("z-ai/*", "glm"); ("*kimi*", "kimi"); ("moonshot*/*", "kimi");
    ("*mistral*", "mistral") ]%string.

(** [wildcard_match] on strings; the loop always answers. *)
Definition wildcard (pattern value : string) : bool :=
  default false (Glob.wildcard_match (String.list_ascii_of_string pattern) (String.list_ascii_of_string value)).

(** [s.rsplit_once(c)] *)
Fixpoint rsplit_once (c : ascii) (s : string) : option (string * string) :=
  match s with
  | EmptyString => None
  | String a r =>
      match rsplit_once c r with
      | Some (x, y) => Some (String a x, y)
      | None => if Ascii.eqb a c then Some (EmptyString, r) else None
      end
  end.

Definition eq_ignore_ascii_case (a b : string) : bool :=
  bool_decide (to_ascii_lowercase a = to_ascii_lowercase b).

Definition is_ascii_digit (c : ascii) : bool :=
  let n := Ascii.nat_of_ascii c in (48 <=? n)%nat && (n <=? 57)%nat.

(** The [family] value of a matching override. *)
Definition family_value (family lower : string) : string :=
  let family := trim family in
  if str_is_empty family then lower else to_ascii_lowercase family.

(** What an id that matches no table row belongs to. *)
Definition family_fallback (lower : string) : string :=
  let dotted :=
    match split_once "." lower with
    | Some (_, String c r) => if is_ascii_digit c then lower else String c r
    | _ => lower
    end in
  match rsplit_once "/" lower with
  | Some (prefix, _) => if str_is_empty prefix then dotted else prefix
  | None => dotted
  end.

(** [model_family]; [overrides] are the entries of the [BTreeMap] in key order. *)
Definition model_family (overrides : list (string * string)) (model_id : string) : string :=
  let model := trim model_id in
  let lower := to_ascii_lowercase model in
  if str_is_empty lower then "unknown"
  else match find_first (fun e => eq_ignore_ascii_case (trim (fst e)) model) overrides with
       | Some (_, family) => family_value family lower
       | None =>
           match find_first (fun e =>
                   let pattern := trim (fst e) in
                   (str_contains "*" pattern || str_contains "?" pattern) &&
                   wildcard (to_ascii_lowercase pattern) lower) overrides with
           | Some (_, family) => family_value family lower
           | None =>
               match find_first (fun e => wildcard (fst e) lower) DEFAULT_MODEL_FAMILIES with
               | Some (_, family) => family
               | None => family_fallback lower
               end
           end
       end.

Example family_dotted : model_family [] "amazon.nova-2-lite-v1:0" = "nova-2-lite-v1:0"%string.
Proof. by vm_compute. Qed.
Example family_aggregator : model_family [] "aihubmix/gemini-3-flash" = "gemini"%string.
Proof. by vm_compute. Qed.

(** [parse_reviewer_chain] *)
Definition parse_reviewer_chain (raw : option string) : list string :=
  match raw with
  | None => []
  | Some raw => filterb (fun s => negb (str_is_empty s)) (map trim (split_on "," raw))
  end.

(** ** Claims *)

(** The loop answers, and decides the meaning. *)
Lemma wildcard_match_spec (pat value : list ascii) : Forall (fun c => c <> "*"%char) value ->
  exists b, Glob.wildcard_match pat value = Some b /\ (b = true <-> Glob.matches pat value).
Proof.
  intros Hval.
  assert (Glob.wf pat value (Glob.mkSt 0 0 None 0)) as Hwf by (repeat split; simpl; lia).
  destruct (Glob.loop_terminates (Glob.fuel_for pat value) pat value _ Hwf) as [b Hb].
  { unfold Glob.measure, Glob.fuel_for. simpl. nia. }
  exists b. split; [done|].
  rewrite (Glob.loop_correct _ _ _ _ _ Hval Hwf ltac:(done) Hb). unfold Glob.pending. simpl.
  rewrite !drop_0. naive_solver.
Qed.

(** On a text without a literal [*] the two-pointer glob matcher always
    answers, and it answers true exactly when the pattern matches: [*] for any
    run, [?] for one character, anything else for itself. *)
Theorem wildcard_match_correct (pat value : list ascii)
    (Hval : Forall (fun c => c <> "*"%char) value) :
  exists b, Glob.wildcard_match pat value = Some b /\ (b = true <-> Glob.matches pat value).
Proof. by apply wildcard_match_spec. Qed.

Lemma wildcard_match_correct_witness :
  exists b, Glob.wildcard_match (String.list_ascii_of_string "*ab?") (String.list_ascii_of_string "aabxabc") = Some b
    /\ (b = true <-> Glob.matches (String.list_ascii_of_string "*ab?") (String.list_ascii_of_string "aabxabc")).
Proof.
  apply (wildcard_match_correct (String.list_ascii_of_string "*ab?") (String.list_ascii_of_string "aabxabc")).
  repeat constructor; discriminate.
Defined.

(** A [*] in the TEXT defeats the matcher: the literal comparison is tried
    before the star, so the pattern's [*] is consumed as a literal and the
    match that skips a longer run is lost. *)
Theorem wildcard_match_literal_star :
  Glob.wildcard_match (String.list_ascii_of_string "*a") (String.list_ascii_of_string "*xa") = Some false /\
  Glob.matches (String.list_ascii_of_string "*a") (String.list_ascii_of_string "*xa").
Proof.
  split; [by vm_compute|]. apply (Glob.m_star _ _ 2). simpl.
  constructor; [done|done|constructor].
Qed.
