(* ===== verification/Corpus.v ===== *)
(** The model corpus (crates/zoder-core/src/corpus.rs): model rows and their
    derived scores, alias resolution, the reconciliation with the served ids,
    the ingestion of a free provider's catalog and the alias overlay.

    The deserialised rows are the data; dates are days, parsed by the two
    chrono parsers, which are parameters. *)
From S2P Require Import Prelude F64.
Local Open Scope Z_scope.

(** ** Rows *)

Record BenchScore := mkBench {
  acc : option f64;
  bench_source : string;
  bench_date : option string;
  harness : option string;
  cost_per_test : option f64;
  latency_s : option f64
}.

Record Capability := mkCapability {
  swe_verified : option BenchScore;
  aider_polyglot : option BenchScore;
  livecodebench : option BenchScore;
  terminal_bench : option BenchScore;
  scale_seal : option BenchScore
}.

Record PrefScore := mkPref {
  rating : option f64;
  pref_score : option f64;
  pref_rank : option Z;
  votes : option Z;
  pref_source : string;
  pref_date : option string
}.

Record Preference := mkPreference {
  arena_webdev : option PrefScore;
  arena_agent : option PrefScore
}.

Record Workflows := mkWorkflows {
  single_pass : option f64;
  grind : option f64
}.

Record Economics := mkEconomics {
  input_usd_per_mtok : f64;
  output_usd_per_mtok : f64;
  cache_read_usd_per_mtok : f64;
  econ_source : string;
  econ_date : option string
}.

Record ModelEntry := mkModel {
  id : string;
  host : string;
  leaf : string;
  family : string;
  kind : string;
  route_candidate : bool;
  me_free : bool;
  me_paid : bool;
  gated_reason : option string;
  aliases : list string;
  source : option string;
  arena_overall_elo : option f64;
  arena_coding_elo : option f64;
  arena_webdev_elo : option f64;
  w_overall : option f64;
  w_coding : option f64;
  w_swe : option f64;
  ttft_ms_p50 : option f64;
  tok_per_s_p50 : option f64;
  total_ms_p50 : option f64;
  latency_score : option f64;
  latency_class : option string;
  agentic_score : option f64;
  capability : option Capability;
  preference : option Preference;
  economics : option Economics;
  workflows : option Workflows
}.

Record Corpus := mkCorpus {
  corpus_source : string;
  managed : bool;
  generated : string;
  arena_date : string;
  count : Z;
  models : list ModelEntry;
  alias_map : gmap string string;
  generated_at : option string
}.

Definition OVERLAY_SOURCE : string := "overlay".

(** [ModelEntry::routable] *)
Definition routable (m : ModelEntry) : bool :=
  me_free m && route_candidate m && bool_decide (kind m = "chat").

(** [ModelEntry::is_overlay] *)
Definition is_overlay (m : ModelEntry) : bool := bool_decide (source m = Some OVERLAY_SOURCE).

(** [Capability::scores_in_authority_order] *)
Definition scores_in_authority_order (c : Capability) : list (string * BenchScore) :=
  omap (fun o => o) [(fun s => ("swe_verified", s)) <$> swe_verified c;
           (fun s => ("scale_seal", s)) <$> scale_seal c;
           (fun s => ("aider_polyglot", s)) <$> aider_polyglot c;
           (fun s => ("livecodebench", s)) <$> livecodebench c;
           (fun s => ("terminal_bench", s)) <$> terminal_bench c].

(** [ModelEntry::code_capability] *)
Definition code_capability (m : ModelEntry) : option f64 :=
  match capability m with
  | None => None
  | Some cap =>
      let scores := omap (fun e => acc (snd e)) (scores_in_authority_order cap) in
      match scores with
      | [] => None
      | _ => Some (f64_sum scores / f64_of_Z (Z.of_nat (length scores)))%f64
      end
  end.

(** [ModelEntry::code_capability_source] *)
Definition code_capability_source (m : ModelEntry) : option string :=
  match capability m with
  | None => None
  | Some cap =>
      (fun e => if str_is_empty (bench_source (snd e)) then "?" else bench_source (snd e)) <$>
      find_first (fun e => bool_decide (is_Some (acc (snd e)))) (scores_in_authority_order cap)
  end.

(** [Economics::blended_usd_per_mtok] *)
Definition blended_usd_per_mtok (e : Economics) : f64 :=
  let i := input_usd_per_mtok e in
  let o := output_usd_per_mtok e in
  if (i >? f64_zero)%f64 && (o >? f64_zero)%f64 then ((i + o) / f64_of_Z 2)%f64 else f64_max i o.

(** [ModelEntry::value_score] *)
Definition value_score (m : ModelEntry) : option f64 :=
  (fun cap =>
     let cost := default f64_zero (blended_usd_per_mtok <$> economics m) in
     cap / (cost + f64_lit 1 100))%f64 <$> code_capability m.

(** [ModelEntry::normalized_model_key] *)
Definition last_segment (id : string) : string := List.last (split_on "/" id) id.
Definition normalized_model_key (id : string) : string :=
  let leaf := last_segment id in
  to_ascii_lowercase (match split_once ":" leaf with Some (base, _) => base | None => leaf end).

(** [ModelEntry::has_quality_signal] *)
Definition has_quality_signal (m : ModelEntry) : bool :=
  bool_decide (is_Some (agentic_score m)) || bool_decide (is_Some (w_swe m)) ||
  bool_decide (is_Some (code_capability m)) || bool_decide (is_Some (workflows m)).

(** [ModelEntry::inherit_quality_from] *)
Definition inherit_quality_from (m s : ModelEntry) : ModelEntry :=
  mkModel (id m) (host m) (leaf m) (family m) (kind m) (route_candidate m) (me_free m)
    (me_paid m) (gated_reason m) (aliases m) (source m)
    (arena_overall_elo s) (arena_coding_elo s) (arena_webdev_elo s) (w_overall s) (w_coding s)
    (w_swe s) (ttft_ms_p50 s) (tok_per_s_p50 s) (total_ms_p50 s) (latency_score s)
    (latency_class s) (agentic_score s) (capability s) (preference s) (economics m) (workflows s).

(** Assignments to the classification fields, to [agentic_score] and to
    [aliases]. *)
Definition set_class (kind' : string) (rc fr pd : bool) (why : option string) (m : ModelEntry) :
    ModelEntry :=
  mkModel (id m) (host m) (leaf m) (family m) kind' rc fr pd why (aliases m) (source m)
    (arena_overall_elo m) (arena_coding_elo m) (arena_webdev_elo m) (w_overall m) (w_coding m)
    (w_swe m) (ttft_ms_p50 m) (tok_per_s_p50 m) (total_ms_p50 m) (latency_score m)
    (latency_class m) (agentic_score m) (capability m) (preference m) (economics m) (workflows m).

Definition set_agentic (a : option f64) (m : ModelEntry) : ModelEntry :=
  mkModel (id m) (host m) (leaf m) (family m) (kind m) (route_candidate m) (me_free m)
    (me_paid m) (gated_reason m) (aliases m) (source m)
    (arena_overall_elo m) (arena_coding_elo m) (arena_webdev_elo m) (w_overall m) (w_coding m)
    (w_swe m) (ttft_ms_p50 m) (tok_per_s_p50 m) (total_ms_p50 m) (latency_score m)
    (latency_class m) a (capability m) (preference m) (economics m) (workflows m).

Definition set_aliases (al : list string) (m : ModelEntry) : ModelEntry :=
  mkModel (id m) (host m) (leaf m) (family m) (kind m) (route_candidate m) (me_free m)
    (me_paid m) (gated_reason m) al (source m)
    (arena_overall_elo m) (arena_coding_elo m) (arena_webdev_elo m) (w_overall m) (w_coding m)
    (w_swe m) (ttft_ms_p50 m) (tok_per_s_p50 m) (total_ms_p50 m) (latency_score m)
    (latency_class m) (agentic_score m) (capability m) (preference m) (economics m) (workflows m).

(** [ModelEntry::from_served_id] *)
Definition from_served_id (id : string) : ModelEntry :=
  let '(host, leaf) := match split_once "/" id with Some hl => hl | None => ("", id) end in
  let family := if str_is_empty host then id else host in
  mkModel id host leaf family "chat" false false false
    (Some "new: needs classification + bench (run corpus builder)") [] None
    None None None None None None None None None None None None None None None None.

(** ** Lookup and aliases *)

(** [Corpus::get] *)
Definition corpus_get (c : Corpus) (i : string) : option ModelEntry :=
  match find_first (fun m => bool_decide (id m = i)) (models c) with
  | Some m => Some m
  | None =>
      match alias_map c !! i with
      | Some target => find_first (fun m => bool_decide (id m = target)) (models c)
      | None => None
      end
  end.

Definition known (i : string) (ms : list ModelEntry) : bool :=
  existsb (fun m => bool_decide (id m = i)) ms.

(** [Corpus::resolve_alias] *)
Definition resolve_alias (c : Corpus) (i : string) : string :=
  match alias_map c !! i with
  | None => i
  | Some target =>
      if known i (models c) then i
      else if known target (models c) then target else i
  end.

(** The inner loop of [rebuild_aliases_from_models]: a row's names, kept when
    no earlier row declared them. *)
Definition declare_alias (row : ModelEntry) (al : gmap string string) (alias : string) :
    gmap string string :=
  let alias := trim alias in
  if str_is_empty alias || bool_decide (alias = id row) then al
  else match al !! alias with Some _ => al | None => <[alias := id row]> al end.
Definition declare_row (al : gmap string string) (row : ModelEntry) : gmap string string :=
  fold_left (declare_alias row) (aliases row) al.

(** [Corpus::rebuild_aliases_from_models] *)
Definition rebuild_aliases (ms : list ModelEntry) : gmap string string :=
  fold_left declare_row ms ∅.

(** [Corpus::dedup_by_id_last_wins]: [last] maps an id to the index of its last
    occurrence, and [retain] keeps the indices it holds. *)
Definition last_index {T} (id_of : T -> string) (l : list T) : gmap string nat :=
  fold_left (fun last e => <[id_of (snd e) := fst e]> last) (imap pair l) ∅.
Definition dedup_by_id_last_wins {T} (id_of : T -> string) (l : list T) : list T :=
  let last := last_index id_of l in
  if (size last =? length l)%nat then l
  else omap (fun e => if bool_decide (last !! id_of (snd e) = Some (fst e))
                      then Some (snd e) else None) (imap pair l).

(** [Corpus::free_chat] *)
Definition free_chat (c : Corpus) : list ModelEntry := filterb routable (models c).

(** ** Reconciliation with the served ids *)

Record RefreshReport := mkRefresh { added : list string; retired : list string; kept : Z }.

(** One row of the retirement loop. *)
Definition retire (served : list string) (m : ModelEntry) : ModelEntry :=
  if negb (bool_decide (id m ∈ served)) && route_candidate m
  then set_class (kind m) false false (me_paid m) (Some "retired: not currently served") m
  else m.
Definition retires (served : list string) (m : ModelEntry) : bool :=
  negb (bool_decide (id m ∈ served)) && route_candidate m.

(** [Corpus::reconcile] *)
Definition reconcile (c : Corpus) (served : list string) : Corpus * RefreshReport :=
  let existing := map id (models c) in
  let added := filterb (fun i => negb (bool_decide (i ∈ existing))) served in
  let kept := Z.of_nat (length (filterb (fun i => bool_decide (i ∈ existing)) served)) in
  let ms := models c ++ map from_served_id added in
  let retired := map id (filterb (retires served) ms) in
  let ms := map (retire served) ms in
  (mkCorpus (corpus_source c) (managed c) (generated c) (arena_date c)
     (Z.of_nat (length ms)) ms (alias_map c) (generated_at c),
   mkRefresh added retired kept).

(** ** Ingestion of a free catalog *)

Definition UNBENCHED_PRIOR : f64 := f64_lit 1 2.

(** The comparison that picks the quality source. *)
Definition quality_cmp (a b : ModelEntry) : comparison :=
  then_with
    match w_swe a, w_swe b with
    | Some a_score, Some b_score => f64_total_cmp b_score a_score
    | Some _, None => Lt
    | None, Some _ => Gt
    | None, None => Eq
    end
    (String.compare (id a) (id b)).

Definition quality_source (ms : list ModelEntry) (i : string) : option ModelEntry :=
  let key := normalized_model_key i in
  min_by quality_cmp (filterb (fun candidate =>
    negb (bool_decide (id candidate = i)) && has_quality_signal candidate &&
    bool_decide (normalized_model_key (id candidate) = key)) ms).

(** [iter_mut().find(p)] followed by an update of the row found. *)
Fixpoint update_first {A} (p : A -> bool) (f : A -> A) (l : list A) : list A :=
  match l with
  | [] => []
  | x :: l => if p x then f x :: l else x :: update_first p f l
  end.

Definition priced (m : ModelEntry) : bool :=
  match economics m with
  | Some e => (input_usd_per_mtok e >? f64_zero)%f64 || (output_usd_per_mtok e >? f64_zero)%f64
  | None => false
  end.

(** The update of a row the corpus already has. *)
Definition promote (src : option ModelEntry) (m : ModelEntry) : ModelEntry :=
  let m := set_class "chat" true true (me_paid m) None m in
  let has_only_prior :=
    bool_decide (code_capability m = None) &&
    match agentic_score m with None => true | Some a => (a =? UNBENCHED_PRIOR)%f64 end in
  if has_only_prior then
    match src with
    | Some s => inherit_quality_from m s
    | None => match agentic_score m with
              | None => set_agentic (Some UNBENCHED_PRIOR) m
              | Some _ => m
              end
    end
  else m.

(** One id of [Corpus::ingest_free_chat]. *)
Definition ingest_one (st : list ModelEntry * Z) (i : string) : list ModelEntry * Z :=
  let '(ms, promoted) := st in
  let src := quality_source ms i in
  match find_first (fun m => bool_decide (id m = i)) ms with
  | Some m =>
      if me_paid m || priced m then (ms, promoted)
      else (update_first (fun m => bool_decide (id m = i)) (promote src) ms,
            if routable m then promoted else promoted + 1)
  | None =>
      let e := set_class "chat" true true false None (from_served_id i) in
      let e := match src with
               | Some s => inherit_quality_from e s
               | None => set_agentic (Some UNBENCHED_PRIOR) e
               end in
      (ms ++ [e], promoted + 1)
  end.

(** [Corpus::ingest_free_chat] *)
Definition ingest_free_chat (c : Corpus) (ids : list string) : Corpus * Z :=
  let '(ms, promoted) := fold_left ingest_one ids (models c, 0) in
  (mkCorpus (corpus_source c) (managed c) (generated c) (arena_date c)
     (Z.of_nat (length ms)) ms (alias_map c) (generated_at c), promoted).

(** ** The alias overlay *)

Record OverlayModel := mkOverlayModel {
  om_id : string;
  om_provider : string;
  om_aliases : list string
}.
(** [ov_aliases] are the entries of the [BTreeMap] in key order. *)
Record AliasOverlay := mkOverlay {
  ov_models : list OverlayModel;
  ov_aliases : list (string * string)
}.
Inductive OverlayRead := OvMissing | OvBroken | OvBody (body : string).

Record OverlayReport := mkOverlayReport {
  ov_path : option string;
  ov_added : list string;
  ov_aliased : list string;
  ov_reassigned : list (string * string * string);
  ov_alias_count : Z
}.
Definition overlay_report_default : OverlayReport := mkOverlayReport None [] [] [] 0.

Definition trim_mem (a : string) (l : list string) : bool :=
  existsb (fun x => bool_decide (trim x = a)) l.

(** The names a known row learns. *)
Definition learn_alias (l : list string) (a : string) : list string :=
  if trim_mem a l then l else l ++ [a].

(** The row an unknown overlay id gets. *)
Definition overlay_row (id provider : string) (row_aliases : list string) : ModelEntry :=
  let e := from_served_id id in
  mkModel id (host e) (leaf e) (if str_is_empty (trim provider) then family e else trim provider)
    (kind e) false false false
    (Some "overlay: known id only — needs classification + bench + pricing before it can route (run corpus builder)")
    row_aliases (Some OVERLAY_SOURCE)
    None None None None None None None None None None None None None None None None.

(** One overlay row: the rows and the ids added so far. *)
Definition merge_overlay_row (st : list ModelEntry * list string) (om : OverlayModel) :
    list ModelEntry * list string :=
  let '(ms, added) := st in
  let i := trim (om_id om) in
  let row_aliases :=
    filterb (fun a => negb (str_is_empty a) && negb (bool_decide (a = i))) (map trim (om_aliases om)) in
  if known i ms
  then (update_first (fun m => bool_decide (id m = i))
          (fun m => set_aliases (fold_left learn_alias row_aliases (aliases m)) m) ms, added)
  else (ms ++ [overlay_row i (om_provider om) row_aliases], added ++ [i]).

Definition drop_alias (a : string) (m : ModelEntry) : ModelEntry :=
  set_aliases (filterb (fun x => negb (bool_decide (trim x = a))) (aliases m)) m.

(** One entry of the explicit map. *)
Definition fold_alias (st : list ModelEntry * list (string * string * string))
    (e : string * string) : list ModelEntry * list (string * string * string) :=
  let '(ms, reassigned) := st in
  let a := trim (fst e) in
  let target := trim (snd e) in
  if str_is_empty a || str_is_empty target then st
  else match list_find (fun m => id m = target) ms with
       | None => st
       | Some (target_idx, _) =>
           let moved := omap (fun im =>
             if negb (bool_decide (fst im = target_idx)) && trim_mem a (aliases (snd im))
             then Some (a, id (snd im), target) else None) (imap pair ms) in
           let ms := imap (fun idx m =>
             if bool_decide (idx = target_idx)
             then set_aliases (learn_alias (aliases m) a) m else drop_alias a m) ms in
           (ms, reassigned ++ moved)
       end.

(** [report.aliased]: the rows whose names grew. *)
Definition note_gain (before : list (list string)) (acc : list string) (im : nat * ModelEntry) :
    list string :=
  match before !! fst im with
  | None => acc
  | Some known_names =>
      let m := snd im in
      let gained := existsb (fun a => let a := trim a in
                      negb (str_is_empty a) && negb (bool_decide (a ∈ known_names))) (aliases m) in
      if gained && negb (bool_decide (id m ∈ acc)) then acc ++ [id m] else acc
  end.

(** The rows the overlay leaves. *)
Definition overlay_rows (ms : list ModelEntry) (ov : AliasOverlay) :
    list ModelEntry * list string * list (string * string * string) :=
  let '(ms, added) := fold_left merge_overlay_row (ov_models ov) (ms, []) in
  let '(ms, reassigned) := fold_left fold_alias (ov_aliases ov) (ms, []) in
  (ms, added, reassigned).

Section Overlay.
(** [serde_json::from_str::<AliasOverlay>] *)
Variable parse_overlay : string -> option AliasOverlay.

(** [Corpus::apply_alias_overlay_from]; [read] is what [read_overlay_body]
    answered. *)
Definition apply_alias_overlay_from (c : Corpus) (path : string) (read : OverlayRead) :
    Corpus * OverlayReport :=
  match read with
  | OvMissing | OvBroken => (c, overlay_report_default)
  | OvBody body =>
      match parse_overlay body with
      | None => (c, overlay_report_default)
      | Some ov =>
          let rows := dedup_by_id_last_wins om_id
            (filterb (fun m => negb (str_is_empty (trim (om_id m)))) (ov_models ov)) in
          if bool_decide (rows = []) && negb (bool_decide (ov_models ov = []))
          then (c, overlay_report_default)
          else
            let before := map (fun m =>
              filterb (fun a => negb (str_is_empty a)) (map trim (aliases m))) (models c) in
            let '(ms, added, reassigned) :=
              overlay_rows (models c) (mkOverlay rows (ov_aliases ov)) in
            let aliased := fold_left (note_gain before) (imap pair ms) [] in
            let al := rebuild_aliases ms in
            (mkCorpus (corpus_source c) (managed c) (generated c) (arena_date c)
               (Z.of_nat (length ms)) ms al (generated_at c),
             mkOverlayReport (Some path) added aliased reassigned (Z.of_nat (size al)))
      end
  end.
End Overlay.

(** ** Ages *)

Section Dates.
(** [NaiveDate::parse_from_str(s, "%Y-%m-%d")] and
    [DateTime::parse_from_rfc3339(s).date_naive()], as day numbers. *)
Variables (parse_ymd parse_rfc3339_date : string -> option Z).

Definition DEFAULT_STALE_DAYS : Z := 7.

(** [parse_corpus_date] *)
Definition parse_corpus_date (raw : string) : option Z :=
  let s := trim raw in
  if str_is_empty s then None
  else match parse_ymd s with Some d => Some d | None => parse_rfc3339_date s end.

(** [corpus_data_date] *)
Definition corpus_data_date (generated arena_date : string) (generated_at : option string) :
    option Z :=
  let rest := match parse_corpus_date generated with
              | Some d => Some d
              | None => parse_corpus_date arena_date
              end in
  match opt_filter (fun s => negb (str_is_empty s)) (trim <$> generated_at) with
  | Some at_ => match parse_corpus_date at_ with Some d => Some d | None => rest end
  | None => rest
  end.

(** [Corpus::age_days] *)
Definition corpus_age_days (c : Corpus) (today : Z) : option Z :=
  (fun built => today - built) <$> corpus_data_date (generated c) (arena_date c) (generated_at c).

(** [Corpus::staleness_warning]: the age and the date the warning names. *)
Definition staleness_warning (c : Corpus) (today max_days : Z) : option (Z * Z) :=
  if max_days <=? 0 then None
  else match corpus_age_days c today with
       | None => None
       | Some days =>
           if days <=? max_days then None
           else (fun date => (days, date)) <$>
                corpus_data_date (generated c) (arena_date c) (generated_at c)
       end.
End Dates.

(** ** Lemmas *)

Lemma known_elem i ms : known i ms = true <-> exists m, m ∈ ms /\ id m = i.
Proof. unfold known. rewrite existsb_elem. by setoid_rewrite bool_decide_eq_true. Qed.

(** *** Last-wins deduplication *)
Section Dedup.
Context {T : Type} (id_of : T -> string).

(** The rows no later row shares its id with. *)
Fixpoint dedup_ref (l : list T) : list T :=
  match l with
  | [] => []
  | x :: l => if bool_decide (id_of x ∈ map id_of l) then dedup_ref l else x :: dedup_ref l
  end.

Lemma last_index_snoc l x :
  last_index id_of (l ++ [x]) = <[id_of x := length l]> (last_index id_of l).
Proof.
  unfold last_index. rewrite imap_app, fold_left_app. simpl. by rewrite Nat.add_0_r.
Qed.

Lemma last_index_spec l k i :
  last_index id_of l !! k = Some i <->
  exists x, l !! i = Some x /\ id_of x = k /\ k ∉ map id_of (drop (S i) l).
Proof.
  revert i. induction l as [|y l IH] using rev_ind; intros i.
  - split; [done|]. by intros (x & ? & _).
  - rewrite last_index_snoc, lookup_insert_Some, IH. split.
    + intros [[<- <-]|(Hne & x & Hx & <- & Hk)].
      * exists y. rewrite list_lookup_middle by done. repeat split.
        rewrite drop_ge by (rewrite length_app; simpl; lia). apply not_elem_of_nil.
      * exists x. pose proof (lookup_lt_Some _ _ _ Hx).
        rewrite lookup_app_l by done. repeat split; [done|].
        rewrite drop_app_le, map_app by lia. set_solver.
    + intros (x & Hx & <- & Hk). destruct (decide (i = length l)) as [->|Hi].
      * rewrite list_lookup_middle in Hx by done. left. naive_solver.
      * pose proof (lookup_lt_Some _ _ _ Hx) as Hlt. rewrite length_app in Hlt. simpl in Hlt.
        rewrite lookup_app_l in Hx by lia. right.
        rewrite drop_app_le, map_app in Hk by lia. set_solver.
Qed.

Definition keeps (last : gmap string nat) (e : nat * T) : option T :=
  if bool_decide (last !! id_of (snd e) = Some (fst e)) then Some (snd e) else None.

Lemma dedup_keep pre l :
  omap (keeps (last_index id_of (pre ++ l))) (imap (fun i x => (length pre + i, x)%nat) l) =
  dedup_ref l.
Proof.
  revert pre. induction l as [|x l IH]; intros pre; [done|].
  assert (omap (keeps (last_index id_of (pre ++ x :: l)))
            (imap ((fun i y => (length pre + i, y)%nat) ∘ S) l) = dedup_ref l) as Htl.
  { specialize (IH (pre ++ [x])). rewrite <- app_assoc in IH. simpl in IH. rewrite <- IH.
    f_equal. apply imap_ext. intros i y _. simpl. rewrite length_app. simpl. f_equal. lia. }
  rewrite imap_cons. cbn [omap list_omap dedup_ref]. rewrite Htl, Nat.add_0_r.
  unfold keeps. simpl.
  assert (last_index id_of (pre ++ x :: l) !! id_of x = Some (length pre) <->
          id_of x ∉ map id_of l) as Hx.
  { rewrite last_index_spec. rewrite list_lookup_middle by done.
    replace (drop (S (length pre)) (pre ++ x :: l)) with l; [naive_solver|].
    rewrite drop_app_ge by lia. by replace (S (length pre) - length pre)%nat with 1%nat by lia. }
  repeat case_bool_decide; naive_solver.
Qed.

Lemma dedup_ref_ids l k : k ∈ map id_of (dedup_ref l) <-> k ∈ map id_of l.
Proof.
  induction l as [|x l IH]; simpl; [done|]. case_bool_decide as Hx; simpl.
  - rewrite IH, elem_of_cons. naive_solver.
  - rewrite !elem_of_cons, IH. done.
Qed.

Lemma dedup_ref_nodup l : NoDup (map id_of (dedup_ref l)).
Proof.
  induction l as [|x l IH]; simpl; [constructor|]. case_bool_decide as Hx; [done|].
  simpl. constructor; [|done]. by rewrite dedup_ref_ids.
Qed.

Lemma dedup_ref_length l : (length (dedup_ref l) <= length l)%nat.
Proof. induction l as [|x l IH]; simpl; [lia|]. case_bool_decide; simpl; lia. Qed.

Lemma dedup_ref_id l : length (dedup_ref l) = length l -> dedup_ref l = l.
Proof.
  induction l as [|x l IH]; simpl; [done|]. pose proof (dedup_ref_length l).
  case_bool_decide; simpl; intros; [lia|]. f_equal. apply IH. lia.
Qed.

Lemma last_index_dom l : dom (last_index id_of l) = list_to_set (map id_of l).
Proof.
  induction l as [|x l IH] using rev_ind; [done|].
  rewrite last_index_snoc, dom_insert_L, IH, map_app, list_to_set_app_L. simpl. set_solver.
Qed.

Lemma dedup_is_ref l : dedup_by_id_last_wins id_of l = dedup_ref l.
Proof.
  unfold dedup_by_id_last_wins. destruct (Nat.eqb_spec (size (last_index id_of l)) (length l)) as [Hs|].
  - symmetry. apply dedup_ref_id. rewrite <- Hs, <- size_dom, last_index_dom.
    assert (list_to_set (C := gset string) (map id_of l) = list_to_set (map id_of (dedup_ref l))) as ->.
    { apply set_eq. intros k. rewrite !elem_of_list_to_set. by rewrite dedup_ref_ids. }
    rewrite size_list_to_set by apply dedup_ref_nodup. by rewrite length_map.
  - apply (dedup_keep []).
Qed.
End Dedup.

(** *** Ingestion *)

Definition blocked (m : ModelEntry) : bool := me_paid m || priced m.

(** What ingestion may do to a row. *)
Record row_grows (m m' : ModelEntry) : Prop := {
  rg_id : id m' = id m;
  rg_economics : economics m' = economics m;
  rg_paid : me_paid m' = me_paid m;
  rg_blocked : blocked m = true -> m' = m;
  rg_routable : routable m = true -> routable m' = true
}.

Definition rows_grow (ms ms' : list ModelEntry) : Prop :=
  exists old new, ms' = old ++ new /\ Forall2 row_grows ms old /\
    Forall (fun m => blocked m = false /\ routable m = true) new.

#[export] Instance row_grows_preorder : PreOrder row_grows.
Proof.
  split; [by constructor|].
  intros m1 m2 m3 [? ? ? H1 ?] [? ? ? H2 ?]. constructor; try congruence; [|auto].
  intros Hb. rewrite H2; [by apply H1|by rewrite H1].
Qed.

#[export] Instance rows_grow_preorder : PreOrder rows_grow.
Proof.
  split.
  - intros ms. exists ms, []. rewrite app_nil_r. split; [done|]. split; [|constructor].
    by apply Forall_Forall2_diag, Forall_true.
  - intros ms1 ms2 ms3 (o1 & n1 & -> & Ho1 & Hn1) (o2 & n2 & -> & Ho2 & Hn2).
    apply Forall2_app_inv_l in Ho2 as (o2a & o2b & Ha & Hb & ->).
    exists o2a, (o2b ++ n2). rewrite app_assoc. split; [done|]. split; [by etrans|].
    apply Forall_app. split; [|done]. clear -Hn1 Hb.
    induction Hb as [|m m' l l' Hm Hl IH]; [constructor|].
    apply Forall_cons in Hn1 as [[Hbl Hr] Hn1]. constructor; [|by apply IH].
    destruct Hm as [_ He Hp _ Hro]. split; [|auto].
    unfold blocked, priced in *. by rewrite He, Hp.
Qed.

Lemma promote_grows src m : blocked m = false -> row_grows m (promote src m) /\ routable (promote src m) = true.
Proof.
  intros Hb. unfold promote. set (m1 := set_class _ _ _ _ _ m).
  assert (blocked m1 = false) as Hb1 by done.
  assert (routable m1 = true) as Hr1 by reflexivity.
  assert (row_grows m m1) as H1.
  { constructor; try reflexivity. rewrite Hb. discriminate. }
  assert (forall m2, id m2 = id m1 -> economics m2 = economics m1 -> me_paid m2 = me_paid m1 ->
            routable m2 = true -> row_grows m m2 /\ routable m2 = true) as H2.
  { intros m2 ? ? ? ?. split; [|done]. etrans; [exact H1|]. constructor; try done. congruence. }
  destruct (_ && _); [|by apply H2]. destruct src as [s|]; [by apply H2|].
  destruct (agentic_score m1); by apply H2.
Qed.

Lemma update_first_Forall2 {A} (R : A -> A -> Prop) `{!Reflexive R} (p : A -> bool) f l :
  (forall x, find_first p l = Some x -> R x (f x)) -> Forall2 R l (update_first p f l).
Proof.
  induction l as [|x l IH]; simpl; intros H; [constructor|].
  destruct (p x); constructor; auto.
  by apply Forall_Forall2_diag, Forall_true.
Qed.

Lemma find_first_update {A} (p : A -> bool) f l x :
  find_first p l = Some x -> p (f x) = true -> find_first p (update_first p f l) = Some (f x).
Proof.
  induction l as [|y l IH]; simpl; [done|]. destruct (p y) eqn:E; simpl.
  - intros [= ->] ->. done.
  - rewrite E. auto.
Qed.

Lemma rows_grow_find ms ms' i m :
  rows_grow ms ms' -> find_first (fun m => bool_decide (id m = i)) ms = Some m ->
  exists m', find_first (fun m => bool_decide (id m = i)) ms' = Some m' /\ row_grows m m'.
Proof.
  intros (old & new & -> & Ho & _). rewrite find_first_app.
  induction Ho as [|x y l k Hxy Hl IH]; simpl; [done|].
  destruct Hxy as [Hid ? ? ? ?]. rewrite Hid. case_bool_decide.
  - intros [= <-]. exists y. by split.
  - intros Hm. destruct (IH Hm) as (m' & Hf & ?). exists m'. split; [|done].
    by destruct (find_first _ k).
Qed.

(** The id is either refused or routable. *)
Definition settled (ms : list ModelEntry) (i : string) : Prop :=
  exists m, find_first (fun m => bool_decide (id m = i)) ms = Some m /\
            (blocked m = true \/ routable m = true).

Lemma settled_grows ms ms' i : rows_grow ms ms' -> settled ms i -> settled ms' i.
Proof.
  intros Hg (m & Hm & Hs). destruct (rows_grow_find _ _ _ _ Hg Hm) as (m' & Hm' & [? ? ? Hb Hr]).
  exists m'. split; [done|]. destruct Hs as [Hs|Hs]; [left; by rewrite Hb|right; auto].
Qed.

Lemma ingest_one_spec ms n i :
  let '(ms', n') := ingest_one (ms, n) i in
  rows_grow ms ms' /\ settled ms' i /\ (settled ms i -> n' = n).
Proof.
  unfold ingest_one. set (src := quality_source ms i).
  destruct (find_first _ ms) as [m|] eqn:Hm.
  - fold (blocked m). destruct (blocked m) eqn:Hb.
    { split; [done|]. split; [|done]. exists m. by split; [|left]. }
    destruct (promote_grows src m Hb) as [Hg Hr].
    assert (find_first (fun m => bool_decide (id m = i)) (update_first (fun m => bool_decide (id m = i)) (promote src) ms)
            = Some (promote src m)) as Hf.
    { apply find_first_update; [done|]. destruct Hg as [-> _ _ _ _].
      by destruct (find_first_Some _ _ _ Hm). }
    split; [|split].
    + exists (update_first (fun m => bool_decide (id m = i)) (promote src) ms), []. rewrite app_nil_r.
      split; [done|]. split; [|constructor]. apply update_first_Forall2; [apply _|].
      intros x Hx. rewrite Hm in Hx. by simplify_eq.
    + exists (promote src m). by split; [|right].
    + intros (m' & Hm' & Hs). simplify_eq. destruct Hs as [Hs|Hs]; [congruence|by rewrite Hs].
  - set (e := match src with Some s => _ | None => _ end).
    assert (blocked e = false /\ routable e = true /\ id e = i) as (Hb & Hr & Hi).
    { subst e. destruct src; unfold blocked, priced, routable, from_served_id;
        destruct (split_once "/" i) as [[??]|]; done. }
    split; [|split].
    + exists ms, [e]. split; [done|]. split; [by apply Forall_Forall2_diag, Forall_true|].
      by repeat constructor.
    + exists e. split; [|by right]. rewrite find_first_app, Hm. simpl. by rewrite bool_decide_true.
    + intros (m & Hm' & _). congruence.
Qed.

Lemma ingest_fold_spec ids ms n :
  let '(ms', n') := fold_left ingest_one ids (ms, n) in
  rows_grow ms ms' /\ (forall i, i ∈ ids -> settled ms' i) /\
  ((forall i, i ∈ ids -> settled ms i) -> n' = n).
Proof.
  revert ms n. induction ids as [|i ids IH]; intros ms n; cbn [fold_left].
  { split; [done|]. split; [|done]. intros i Hi. by apply not_elem_of_nil in Hi. }
  pose proof (ingest_one_spec ms n i) as H1. destruct (ingest_one (ms, n) i) as [ms1 n1].
  specialize (IH ms1 n1). destruct (fold_left ingest_one ids (ms1, n1)) as [ms2 n2].
  destruct H1 as (Hg1 & Hs1 & Hn1), IH as (Hg2 & Hs2 & Hn2).
  split; [by etrans|]. split.
  - intros j [->|Hj]%elem_of_cons; [by eapply settled_grows|by apply Hs2].
  - intros H. rewrite Hn2, Hn1; [done|apply H; left|].
    intros j Hj. eapply settled_grows; [done|]. apply H. by right.
Qed.

(** *** The overlay *)

Definition strip (m : ModelEntry) : ModelEntry := set_aliases [] m.

Lemma update_first_map {A B} (g : A -> B) (p : A -> bool) f l :
  (forall x, g (f x) = g x) -> map g (update_first p f l) = map g l.
Proof.
  intros Hg. induction l as [|x l IH]; simpl; [done|]. destruct (p x); simpl; congruence.
Qed.

Lemma imap_map_pres {A B} (g : A -> B) (f : nat -> A -> A) l :
  (forall i x, g (f i x) = g x) -> map g (imap f l) = map g l.
Proof.
  intros Hg. revert f Hg. induction l as [|x l IH]; intros f Hg; simpl; [done|].
  f_equal; [done|]. apply IH. intros i y. apply Hg.
Qed.

(** Rows that differ only in their names, followed by metadata-only rows. *)
Definition metadata_only (m : ModelEntry) : Prop :=
  route_candidate m = false /\ me_free m = false /\ me_paid m = false /\
  economics m = None /\ is_overlay m = true.

Lemma merge_overlay_row_strip ms added om :
  let '(ms', _) := merge_overlay_row (ms, added) om in
  exists new, map strip ms' = map strip ms ++ new /\ Forall metadata_only new.
Proof.
  unfold merge_overlay_row. destruct (known _ ms).
  - exists []. rewrite app_nil_r, update_first_map by done. by split; [|constructor].
  - eexists [_]. rewrite map_app. split; [done|]. by repeat constructor.
Qed.

Lemma merge_overlay_strip rows ms added :
  let '(ms', _) := fold_left merge_overlay_row rows (ms, added) in
  exists new, map strip ms' = map strip ms ++ new /\ Forall metadata_only new.
Proof.
  revert ms added. induction rows as [|om rows IH]; intros ms added; cbn [fold_left].
  { exists []. rewrite app_nil_r. by split; [|constructor]. }
  pose proof (merge_overlay_row_strip ms added om) as H1.
  destruct (merge_overlay_row (ms, added) om) as [ms1 added1].
  specialize (IH ms1 added1). destruct (fold_left _ rows _) as [ms2 added2].
  destruct H1 as (n1 & E1 & H1), IH as (n2 & E2 & H2). exists (n1 ++ n2).
  rewrite E2, E1, app_assoc. split; [done|]. by apply Forall_app.
Qed.

Lemma fold_alias_strip ms re e :
  map strip (fst (fold_alias (ms, re) e)) = map strip ms.
Proof.
  unfold fold_alias. destruct (_ || _); [done|]. destruct (list_find _ ms) as [[k m]|]; [|done].
  simpl. apply imap_map_pres. intros i x. by case_bool_decide.
Qed.

Lemma fold_aliases_strip es ms re :
  map strip (fst (fold_left fold_alias es (ms, re))) = map strip ms.
Proof.
  revert ms re. induction es as [|e es IH]; intros ms re; cbn [fold_left]; [done|].
  destruct (fold_alias (ms, re) e) as [ms1 re1] eqn:E. rewrite IH.
  pose proof (fold_alias_strip ms re e) as H. by rewrite E in H.
Qed.

Lemma map_strip_ids ms : map id (map strip ms) = map id ms.
Proof. rewrite map_map. by apply map_ext. Qed.

Lemma fold_alias_ids ms re e : map id (fst (fold_alias (ms, re) e)) = map id ms.
Proof. rewrite <- !(map_strip_ids (fst _)), fold_alias_strip. apply map_strip_ids. Qed.

(** Which rows answer to [a]. *)
Definition holders (a : string) (ms : list ModelEntry) : list bool :=
  map (fun m => trim_mem a (aliases m)) ms.

Lemma trim_mem_elem a l : trim_mem a l = true <-> exists x, x ∈ l /\ trim x = a.
Proof. unfold trim_mem. rewrite existsb_elem. by setoid_rewrite bool_decide_eq_true. Qed.

Lemma trim_mem_learn a b l :
  trim b = b -> trim_mem a (learn_alias l b) = trim_mem a l || bool_decide (b = a).
Proof.
  intros Hb. unfold learn_alias. destruct (trim_mem b l) eqn:E.
  - case_bool_decide as Hab; [|by rewrite orb_false_r]. subst. by rewrite E.
  - unfold trim_mem. rewrite existsb_app. simpl. by rewrite Hb, orb_false_r.
Qed.

Lemma trim_mem_drop a b l :
  trim_mem a (filterb (fun x => negb (bool_decide (trim x = b))) l) =
  trim_mem a l && negb (bool_decide (a = b)).
Proof.
  apply eq_true_iff_eq. rewrite andb_true_iff, negb_true_iff, bool_decide_eq_false, !trim_mem_elem.
  setoid_rewrite elem_of_filterb. setoid_rewrite negb_true_iff.
  setoid_rewrite bool_decide_eq_false. naive_solver.
Qed.

Lemma fold_alias_holders a ms re e :
  trim a = a -> trim (fst e) <> a -> holders a (fst (fold_alias (ms, re) e)) = holders a ms.
Proof.
  intros Ha He. unfold fold_alias. destruct (_ || _); [done|].
  destruct (list_find _ ms) as [[k m]|]; [|done]. simpl. apply imap_map_pres. intros i x.
  case_bool_decide; simpl.
  - rewrite trim_mem_learn by apply trim_idem. rewrite bool_decide_false by done. by rewrite orb_false_r.
  - rewrite trim_mem_drop, bool_decide_false by done. by rewrite andb_true_r.
Qed.

Lemma fold_aliases_holders a es ms re :
  trim a = a -> Forall (fun e => trim (fst e) <> a) es ->
  holders a (fst (fold_left fold_alias es (ms, re))) = holders a ms.
Proof.
  intros Ha. revert ms re. induction es as [|e es IH]; intros ms re H; cbn [fold_left]; [done|].
  apply Forall_cons in H as [He H]. destruct (fold_alias (ms, re) e) as [ms1 re1] eqn:E.
  rewrite IH by done. pose proof (fold_alias_holders a ms re e Ha He) as Hh. by rewrite E in Hh.
Qed.

(** After its own entry is folded, only the target row answers to the name. *)
Lemma fold_alias_sole ms re e :
  trim (fst e) <> EmptyString -> trim (snd e) <> EmptyString ->
  known (trim (snd e)) ms = true ->
  exists k, map id ms !! k = Some (trim (snd e)) /\
    forall j b, holders (trim (fst e)) (fst (fold_alias (ms, re) e)) !! j = Some b ->
                b = bool_decide (j = k).
Proof.
  intros Ha Ht (m & Hm & Hid)%known_elem. unfold fold_alias.
  replace (str_is_empty (trim (fst e)) || str_is_empty (trim (snd e))) with false
    by (by destruct (trim (fst e)), (trim (snd e))).
  destruct (list_find_elem_of (fun m => id m = trim (snd e)) ms m Hm Hid) as [[k x] Hk].
  rewrite Hk. apply list_find_Some in Hk as (Hk & Hx & _). exists k. simpl.
  split; [by rewrite list_lookup_fmap, Hk; simpl; f_equal|].
  intros j b. unfold holders. rewrite list_lookup_fmap, list_lookup_imap.
  destruct (ms !! j) as [y|]; [|done]. simpl. intros [= <-].
  case_bool_decide as Hj; simpl.
  - rewrite trim_mem_learn by apply trim_idem. rewrite bool_decide_true by done. by rewrite orb_true_r.
  - rewrite trim_mem_drop, bool_decide_true by done. by rewrite andb_false_r.
Qed.

Lemma declare_alias_other row al x a :
  trim x <> a -> declare_alias row al x !! a = al !! a.
Proof.
  intros H. unfold declare_alias. destruct (_ || _); [done|].
  destruct (al !! trim x); [done|]. by rewrite lookup_insert_ne.
Qed.

Lemma declare_alias_some row al x a v : al !! a = Some v -> declare_alias row al x !! a = Some v.
Proof.
  intros H. unfold declare_alias. destruct (_ || _); [done|].
  destruct (al !! trim x) eqn:E; [done|]. rewrite lookup_insert_ne by congruence. done.
Qed.

Lemma declare_row_some row al a v : al !! a = Some v -> declare_row al row !! a = Some v.
Proof.
  unfold declare_row. intros H. apply (fold_left_in _ (fun al => al !! a = Some v)); [done|].
  intros. by apply declare_alias_some.
Qed.

Lemma declare_row_none row al a :
  trim_mem a (aliases row) = false -> declare_row al row !! a = al !! a.
Proof.
  unfold declare_row, trim_mem. intros H. rewrite existsb_none in H.
  apply (fold_left_in _ (fun al' => al' !! a = al !! a)); [done|].
  intros al' x IH Hx. specialize (H x Hx). rewrite bool_decide_eq_false in H.
  by rewrite declare_alias_other.
Qed.

Lemma declare_row_new row al a :
  trim_mem a (aliases row) = true -> a <> EmptyString -> a <> id row -> al !! a = None ->
  declare_row al row !! a = Some (id row).
Proof.
  unfold declare_row. intros Hm Hne Hid. revert al.
  induction (aliases row) as [|x l IH]; intros al Hal; simpl in *; [done|].
  destruct (decide (trim x = a)) as [Hx|Hx].
  - apply (fold_left_in _ (fun al => al !! a = Some (id row))).
    + unfold declare_alias. rewrite Hx, bool_decide_false, orb_false_r by done.
      destruct a; [done|]. simpl. rewrite Hal. by rewrite lookup_insert_eq.
    + intros. by apply declare_alias_some.
  - rewrite bool_decide_false in Hm by done. apply IH; [done|]. by rewrite declare_alias_other.
Qed.

Lemma rebuild_sole ms a k t :
  map id ms !! k = Some t -> a <> EmptyString -> a <> t ->
  (forall j b, holders a ms !! j = Some b -> b = bool_decide (j = k)) ->
  rebuild_aliases ms !! a = Some t.
Proof.
  intros Hk Ha Hat Hh. unfold rebuild_aliases.
  rewrite list_lookup_fmap in Hk. destruct (ms !! k) as [m|] eqn:Hm; simplify_eq/=.
  apply list_elem_of_split_length in Hm as (pre & post & -> & ->).
  rewrite fold_left_app. cbn [fold_left].
  assert (forall j x, (pre ++ m :: post) !! j = Some x ->
            trim_mem a (aliases x) = bool_decide (j = length pre)) as Hj.
  { intros j x Hx. apply Hh. unfold holders. by rewrite list_lookup_fmap, Hx. }
  apply (fold_left_in _ (fun al => al !! a = Some (id m))).
  - apply declare_row_new; try done.
    + rewrite (Hj (length pre)) by (by rewrite list_lookup_middle). by rewrite bool_decide_true.
    + apply (fold_left_in _ (fun al => al !! a = None)); [done|].
      intros al x Hal [j Hx]%list_elem_of_lookup. pose proof (lookup_lt_Some _ _ _ Hx).
      rewrite declare_row_none; [done|].
      rewrite (Hj j) by (by rewrite lookup_app_l). rewrite bool_decide_false; [done|lia].
  - intros. by apply declare_row_some.
Qed.

Lemma fold_aliases_ids es ms re : map id (fst (fold_left fold_alias es (ms, re))) = map id ms.
Proof. rewrite <- !(map_strip_ids (fst _)), fold_aliases_strip. apply map_strip_ids. Qed.

Lemma known_ids i ms ms' : map id ms = map id ms' -> known i ms = known i ms'.
Proof.
  intros H. apply eq_true_iff_eq. rewrite !known_elem.
  assert (forall l, (exists m, m ∈ l /\ id m = i) <-> i ∈ map id l) as E.
  { intros l. rewrite list_elem_of_fmap. naive_solver. }
  by rewrite !E, H.
Qed.

Lemma routable_strip ms : map strip (filterb routable ms) = filterb routable (map strip ms).
Proof.
  induction ms as [|m ms IH]; [done|]. cbn [map filterb List.filter].
  change (routable (strip m)) with (routable m).
  unfold filterb in *. destruct (routable m); simpl; congruence.
Qed.

Lemma from_served_id_shape i :
  id (from_served_id i) = i /\ me_free (from_served_id i) = false /\
  route_candidate (from_served_id i) = false.
Proof. unfold from_served_id. by destruct (split_once "/" i) as [[??]|]. Qed.

Lemma retires_retire served m : retires served (retire served m) = false.
Proof.
  unfold retires, retire. destruct (negb (bool_decide (id m ∈ served)) && route_candidate m) eqn:E;
    [apply andb_false_r|done].
Qed.

Lemma retire_id served m : id (retire served m) = id m.
Proof. unfold retire. by case_match. Qed.

Lemma reconcile_known ms served i :
  i ∈ served ->
  i ∈ map id (map (retire served) (ms ++ map from_served_id
                (filterb (fun i => negb (bool_decide (i ∈ map id ms))) served))).
Proof.
  intros Hi. rewrite map_map, (map_ext _ _ (retire_id served)), map_app, elem_of_app.
  destruct (decide (i ∈ map id ms)); [by left|]. right.
  rewrite map_map. apply list_elem_of_fmap. exists i. split; [by destruct (from_served_id_shape i)|].
  apply elem_of_filterb. by rewrite bool_decide_false.
Qed.

Lemma overlay_rows_strip ms ov :
  exists new, map strip (fst (fst (overlay_rows ms ov))) = map strip ms ++ new /\
              Forall metadata_only new.
Proof.
  unfold overlay_rows. pose proof (merge_overlay_strip (ov_models ov) ms []) as H.
  destruct (fold_left merge_overlay_row _ _) as [ms1 added].
  pose proof (fold_aliases_strip (ov_aliases ov) ms1 []) as H2.
  destruct (fold_left fold_alias _ _) as [ms2 re]. simpl in *. by rewrite H2.
Qed.

(** ** Claims *)

(** Alias resolution is one exact hop that is safe on any corpus, even one
    whose alias map is stale: the answer is the input or names a row, a row's
    own id always wins over an alias spelled the same, and resolving twice is
    resolving once. *)
Theorem resolve_alias_safe (c : Corpus) (i : string) :
  resolve_alias c (resolve_alias c i) = resolve_alias c i /\
  (resolve_alias c i = i \/ known (resolve_alias c i) (models c) = true) /\
  (known i (models c) = true -> resolve_alias c i = i).
Proof.
  unfold resolve_alias. destruct (alias_map c !! i) as [t|] eqn:E.
  - destruct (known i (models c)) eqn:Ei; [rewrite E, Ei; auto|].
    destruct (known t (models c)) eqn:Et; [|rewrite E, Ei, Et; auto].
    rewrite Et. split; [by destruct (alias_map c !! t)|]. split; [by right|done].
  - rewrite E. auto.
Qed.

(** The index-map deduplication of the loader is the reference definition
    that drops every row a later row shares its id with; ids become unique
    and none is lost. *)
Theorem dedup_last_wins {T : Type} (id_of : T -> string) (l : list T) :
  dedup_by_id_last_wins id_of l = dedup_ref id_of l /\
  NoDup (map id_of (dedup_by_id_last_wins id_of l)) /\
  (forall k, k ∈ map id_of (dedup_by_id_last_wins id_of l) <-> k ∈ map id_of l).
Proof.
  rewrite !dedup_is_ref. split; [done|]. split; [apply dedup_ref_nodup|].
  intros k. apply dedup_ref_ids.
Qed.

(** Reconciliation never promotes: a row that is free or routable
    afterwards is an unchanged row of the input that is still served or was
    not in the pool; every served id has a row; and a second reconciliation
    with the same ids changes nothing and reports nothing. *)
Theorem reconcile_never_promotes (c : Corpus) (served : list string) :
  let c1 := fst (reconcile c served) in
  (forall m, m ∈ models c1 -> me_free m = true \/ route_candidate m = true -> m ∈ models c) /\
  (forall m, m ∈ models c1 -> route_candidate m = true -> id m ∈ served) /\
  (forall i, i ∈ served -> known i (models c1) = true) /\
  models (fst (reconcile c1 served)) = models c1 /\
  added (snd (reconcile c1 served)) = [] /\ retired (snd (reconcile c1 served)) = [].
Proof.
  set (ms := models c ++ map from_served_id
    (filterb (fun i => negb (bool_decide (i ∈ map id (models c)))) served)).
  pose proof (reconcile_known (models c) served) as Hserved. fold ms in Hserved.
  assert (filterb (fun i => negb (bool_decide (i ∈ map id (map (retire served) ms)))) served = [])
    as Hnil.
  { apply elem_of_nil_inv. intros i [Hi1 Hi2]%elem_of_filterb.
    by rewrite bool_decide_true in Hi1 by auto. }
  simpl. fold ms. rewrite Hnil, app_nil_r. split; [|split; [|split; [|split; [|split]]]].
  - intros m (m0 & -> & Hm0)%list_elem_of_fmap. unfold retire.
    destruct (_ && _); simpl; [naive_solver|]. unfold ms in Hm0. rewrite elem_of_app in Hm0.
    destruct Hm0 as [?|(i & -> & _)%list_elem_of_fmap]; [done|].
    destruct (from_served_id_shape i) as (_ & -> & ->). naive_solver.
  - intros m (m0 & -> & Hm0)%list_elem_of_fmap. pose proof (retires_retire served m0) as Hret.
    unfold retires in Hret. intros Hrc. rewrite Hrc, andb_true_r in Hret.
    by apply negb_false_iff, bool_decide_eq_true in Hret.
  - intros i Hi. apply known_elem. specialize (Hserved i Hi).
    apply list_elem_of_fmap in Hserved as (m & -> & Hm). eauto.
  - rewrite map_map. apply map_ext. intros m. unfold retire at 1.
    fold (retires served (retire served m)). by rewrite retires_retire.
  - done.
  - replace (filterb _ _) with (@nil ModelEntry); [done|]. symmetry.
    apply elem_of_nil_inv. intros m [Hm1 (m0 & -> & _)%list_elem_of_fmap]%elem_of_filterb.
    by rewrite retires_retire in Hm1.
Qed.

(** Ingesting a free provider's catalog never launders a paid or priced
    model: such a row stays exactly as it was, no row's price or paid flag
    changes, every appended row is unpriced; every listed id ends up refused or
    routable, and running the ingestion again promotes nothing. *)
Theorem ingest_free_chat_sound (c : Corpus) (ids : list string) :
  let c1 := fst (ingest_free_chat c ids) in
  (exists old new, models c1 = old ++ new /\ length old = length (models c) /\
     (forall k m m', models c !! k = Some m -> old !! k = Some m' ->
        id m' = id m /\ economics m' = economics m /\ me_paid m' = me_paid m /\
        (me_paid m || priced m = true -> m' = m)) /\
     Forall (fun m => me_paid m || priced m = false) new) /\
  (forall i, i ∈ ids -> exists m,
     find_first (fun m => bool_decide (id m = i)) (models c1) = Some m /\
     (me_paid m || priced m = true \/ routable m = true)) /\
  snd (ingest_free_chat c1 ids) = 0.
Proof.
  unfold ingest_free_chat. pose proof (ingest_fold_spec ids (models c) 0) as H.
  destruct (fold_left ingest_one ids (models c, 0)) as [ms n]. simpl.
  destruct H as ((old & new & -> & Ho & Hn) & Hs & _).
  pose proof (ingest_fold_spec ids (old ++ new) 0) as H2.
  destruct (fold_left ingest_one ids (old ++ new, 0)) as [ms2 n2]. simpl.
  destruct H2 as (_ & _ & H2). split; [|split; [done|by apply H2]].
  exists old, new. split; [done|]. split; [by rewrite (Forall2_length _ _ _ Ho)|]. split.
  - intros k m m' Hm Hm'. destruct (Forall2_lookup_lr _ _ _ _ _ _ Ho Hm Hm') as [? ? ? ? ?].
    repeat split; try done.
  - eapply Forall_impl; [done|]. by intros m [? _].
Qed.

(** Whatever the overlay file holds, the corpus rows keep every field but
    their names, and a row the overlay adds is neither free, paid, priced nor
    a route candidate; so the free pool is exactly the same models. *)
Theorem overlay_is_metadata_only (parse : string -> option AliasOverlay) (c : Corpus)
    (path : string) (read : OverlayRead) :
  let c1 := fst (apply_alias_overlay_from parse c path read) in
  (exists new, map strip (models c1) = map strip (models c) ++ new /\ Forall metadata_only new) /\
  map strip (free_chat c1) = map strip (free_chat c).
Proof.
  simpl. set (c1 := fst _).
  assert (exists new, map strip (models c1) = map strip (models c) ++ new /\
            Forall metadata_only new) as (new & E & Hnew).
  { subst c1. assert (exists new, map strip (models c) = map strip (models c) ++ new /\
              Forall metadata_only new) as Hsame by (exists []; by rewrite app_nil_r).
    destruct read as [| |body]; simpl; [done|done|].
    destruct (parse body) as [ov|]; [|done]. destruct (_ && _); [done|].
    match goal with |- context [overlay_rows ?ms ?ov] =>
      pose proof (overlay_rows_strip ms ov) as H; destruct (overlay_rows ms ov) as [[ms1 ?] ?] end.
    done. }
  split; [by exists new|]. unfold free_chat. rewrite !routable_strip, E.
  unfold filterb. rewrite List.filter_app. rewrite <- app_nil_r. f_equal.
  clear E. induction Hnew as [|m new [Hr [Hf _]] _ IH]; simpl; [done|].
  unfold routable at 1. by rewrite Hf.
Qed.

(** The overlay's explicit map decides.  The last entry of the map for a
    name, when its target names a row and no row bears the name itself,
    resolves the name to its target, whichever rows carried the name before. *)
Theorem overlay_map_decides (ms : list ModelEntry) (rows : list OverlayModel)
    (es1 es2 : list (string * string)) (a t : string) (c : Corpus)
    (Hc : models c = fst (fst (overlay_rows ms (mkOverlay rows (es1 ++ (a, t) :: es2)))))
    (Hmap : alias_map c = rebuild_aliases (models c))
    (Hlast : Forall (fun e => trim (fst e) <> trim a) es2)
    (Ha : trim a <> EmptyString) (Ht : trim t <> EmptyString)
    (Htarget : known (trim t) (models c) = true) (Hfree : known (trim a) (models c) = false) :
  resolve_alias c (trim a) = trim t.
Proof.
  assert (trim a <> trim t) as Hat by congruence.
  enough (rebuild_aliases (models c) !! trim a = Some (trim t)) as E.
  { unfold resolve_alias. by rewrite Hmap, E, Hfree, Htarget. }
  clear Hmap Hfree. rewrite Hc in Htarget |- *. clear Hc. unfold overlay_rows in *. cbn [ov_models ov_aliases] in *.
  destruct (fold_left merge_overlay_row rows (ms, [])) as [ms0 added0].
  rewrite fold_left_app in *. cbn [fold_left] in *.
  pose proof (fold_aliases_ids es1 ms0 []) as Hid1.
  destruct (fold_left fold_alias es1 (ms0, [])) as [ms1 re1].
  pose proof (fold_alias_ids ms1 re1 (a, t)) as Hid2.
  pose proof (fold_alias_sole ms1 re1 (a, t) Ha Ht) as Hsole.
  destruct (fold_alias (ms1, re1) (a, t)) as [ms2 re2].
  pose proof (fold_aliases_ids es2 ms2 re2) as Hid3.
  pose proof (fold_aliases_holders (trim a) es2 ms2 re2 (trim_idem a) Hlast) as Hh.
  destruct (fold_left fold_alias es2 (ms2, re2)) as [ms3 re3]. cbn [fst snd] in *.
  destruct Hsole as (k & Hk & Hb).
  { rewrite <- Htarget. apply known_ids. congruence. }
  apply (rebuild_sole ms3 (trim a) k (trim t)); try done.
  - congruence.
  - by rewrite Hh.
Qed.

Definition sol_row : ModelEntry := set_aliases ["codex:sol"%string] (from_served_id "gpt-5-sol").
Definition sol_corpus : Corpus :=
  let ms := fst (fst (overlay_rows [sol_row; from_served_id "gpt-6-sol"]
                        (mkOverlay [] [("codex:sol", "gpt-6-sol")%string]))) in
  mkCorpus "" false "" "" 2 ms (rebuild_aliases ms) None.

Lemma overlay_map_decides_witness : resolve_alias sol_corpus "codex:sol" = "gpt-6-sol"%string.
Proof.
  apply (overlay_map_decides [sol_row; from_served_id "gpt-6-sol"] [] [] [] "codex:sol" "gpt-6-sol"
           sol_corpus); try reflexivity; try discriminate. constructor.
Defined.
