(* ===== verification/Policy.v ===== *)
(** The policy gate (crates/zoder-core/src/policy.rs): default-deny for paid
    models before a call, and the post-call proof that a "free" call was
    served free. *)
From S2P Require Import Prelude F64 Config Corpus.
Local Open Scope Z_scope.

(** What the gate reads of [CallTelemetry]. *)
Record Telemetry := mkTelemetry {
  cost_usd : option f64;
  attempted_fallbacks : option Z;           (* i64 *)
  api_base : option string
}.

Inductive Decision :=
| Allow
| NeedConfirm (model why : string).

Inductive FreeViolation :=
| Billed (cost : f64)
| UsedFallbacks (n : Z)
| NonFreeBackend (base : string)
| NoServedBackend.

Record PolicyGate := mkGate {
  allow_paid : bool;
  free_hosts : list string;
  strict_free : bool
}.

(** [s.ends_with(suffix)] *)
Fixpoint ends_with (suffix s : string) : bool :=
  bool_decide (suffix = s) ||
  match s with String _ r => ends_with suffix r | EmptyString => false end.

(** [host_is_free] *)
Definition host_is_free (host : string) (free_hosts : list string) : bool :=
  existsb (fun h =>
    let h := to_ascii_lowercase (trim h) in
    negb (str_is_empty h) && (bool_decide (host = h) || ends_with ("." ++ h)%string host)) free_hosts.

Section Gate.
(** [Url::parse(s)] followed by [host_str]. *)
Variable url_host : string -> option string.

(** [host_of] *)
Definition host_of (api_base : string) : option string :=
  match to_ascii_lowercase <$> url_host api_base with
  | Some h => Some h
  | None => to_ascii_lowercase <$> url_host ("https://" ++ api_base)%string
  end.

(** [PolicyGate::new] on the configuration's [free_api_hosts] and
    [providers]. *)
Definition new_gate (free_api_hosts : list string) (providers : list Provider)
    (allow_paid strict_free : bool) : PolicyGate :=
  let free_hosts := fold_left (fun hosts p =>
    if negb (paid p) && negb (bool_decide (billing p = Metered))
    then match host_of (base_url p) with Some h => hosts ++ [h] | None => hosts end
    else hosts) providers free_api_hosts in
  mkGate allow_paid free_hosts strict_free.

(** [PolicyGate::check] *)
Definition check (g : PolicyGate) (model : ModelEntry) (provider_paid provider_cost_neutral : bool) :
    Decision :=
  if allow_paid g then Allow
  else if provider_paid then NeedConfirm (id model) "routed to a paid/metered provider"
  else if me_free model || provider_cost_neutral then Allow
  else NeedConfirm (id model) (default "paid model" (gated_reason model)).

(** [PolicyGate::verify_free]; each guard returns early. *)
Definition verify_free (g : PolicyGate) (model : ModelEntry) (t : Telemetry) :
    result unit FreeViolation :=
  if negb (me_free model) then Ok tt
  else
    match opt_filter (fun cost => (cost >? f64_zero)%f64) (cost_usd t) with
    | Some cost => Err (Billed cost)
    | None =>
        match opt_filter (fun fb => 0 <? fb) (attempted_fallbacks t) with
        | Some fb => Err (UsedFallbacks fb)
        | None =>
            match api_base t with
            | Some base =>
                let served_free := match host_of base with
                                   | Some host => host_is_free host (free_hosts g)
                                   | None => false
                                   end in
                if negb served_free then Err (NonFreeBackend base) else Ok tt
            | None => if strict_free g then Err NoServedBackend else Ok tt
            end
        end
    end.
End Gate.

(** ** Lemmas *)

Lemma ends_with_spec suffix s : ends_with suffix s = true <-> exists p, s = (p ++ suffix)%string.
Proof.
  induction s as [|c s IH]; simpl; rewrite orb_true_iff, bool_decide_eq_true.
  - split.
    + intros [->|?]; [by exists ""%string|done].
    + intros [[|d p] E]; simpl in E; [by left|done].
  - rewrite IH. split.
    + intros [->|[p ->]]; [by exists ""%string|by exists (String c p)].
    + intros [[|d p] E]; simpl in E; [by left|]. injection E as -> ->. right. by exists p.
Qed.

Lemma new_gate_hosts url_host hosts providers ap st h :
  h ∈ free_hosts (new_gate url_host hosts providers ap st) <->
  h ∈ hosts \/ exists p, p ∈ providers /\ paid p = false /\ billing p <> Metered /\
                         host_of url_host (base_url p) = Some h.
Proof.
  simpl. revert hosts. induction providers as [|p ps IH]; intros hosts; simpl.
  - split; [by left|]. intros [?|(p & Hp & _)]; [done|]. by apply not_elem_of_nil in Hp.
  - rewrite IH. setoid_rewrite elem_of_cons.
    destruct (paid p) eqn:Ep; simpl; [naive_solver congruence|].
    case_bool_decide as Eb; simpl; [naive_solver|].
    destruct (host_of _ (base_url p)) as [h'|] eqn:Eh; [|naive_solver congruence].
    rewrite elem_of_app, list_elem_of_singleton. naive_solver.
Qed.

(** ** Claims *)

(** C1: the post-call guard is exactly the documented proof of a free call.
    For a gate built from the configuration, a free model's call passes if and
    only if no positive cost and no fallback was reported and the backend that
    served it, when reported, has the host of a declared free host or of a
    subdomain of one, or of an unpaid, unmetered provider; in strict mode the
    backend must be reported.  Every host comparison is on whole labels. *)
Theorem verify_free_iff (url_host : string -> option string) (hosts : list string)
    (providers : list Provider) (allow strict : bool) (m : ModelEntry) (t : Telemetry)
    (Hfree : me_free m = true) :
  let proven base := exists host h, host_of url_host base = Some host /\
    (h ∈ hosts \/ exists p, p ∈ providers /\ paid p = false /\ billing p <> Metered /\
                            host_of url_host (base_url p) = Some h) /\
    let h := to_ascii_lowercase (trim h) in
    h <> EmptyString /\ (host = h \/ exists label, host = (label ++ "." ++ h)%string) in
  verify_free url_host (new_gate url_host hosts providers allow strict) m t = Ok tt <->
  (forall c, cost_usd t = Some c -> (c >? f64_zero)%f64 = false) /\
  (forall n, attempted_fallbacks t = Some n -> n <= 0) /\
  (forall base, api_base t = Some base -> proven base) /\
  (strict = true -> api_base t <> None).
Proof.
  intros proven. set (g := new_gate _ _ _ _ _).
  assert (forall base, match host_of url_host base with
                       | Some host => host_is_free host (free_hosts g) | None => false end = true <->
                       proven base) as Hp.
  { intros base. unfold proven. destruct (host_of url_host base) as [host|]; [|naive_solver].
    unfold host_is_free. rewrite existsb_elem. setoid_rewrite andb_true_iff.
    setoid_rewrite orb_true_iff. setoid_rewrite bool_decide_eq_true. setoid_rewrite ends_with_spec.
    setoid_rewrite negb_true_iff. unfold g. setoid_rewrite new_gate_hosts.
    assert (forall s, str_is_empty s = false <-> s <> EmptyString) as He by (by intros []).
    setoid_rewrite He. naive_solver. }
  unfold verify_free. rewrite Hfree. simpl.
  destruct (opt_filter _ (cost_usd t)) as [c|] eqn:Ec.
  { split; [done|]. intros [H _]. apply opt_filter_Some in Ec as [Ec1 Ec2].
    by rewrite (H c Ec1) in Ec2. }
  destruct (opt_filter _ (attempted_fallbacks t)) as [n|] eqn:En.
  { split; [done|]. intros (_ & H & _). apply opt_filter_Some in En as [En1 En2].
    specialize (H n En1). lia. }
  pose proof (proj1 (opt_filter_None _ _) Ec) as Ec'. pose proof (proj1 (opt_filter_None _ _) En) as En1.
  assert (forall n, attempted_fallbacks t = Some n -> n <= 0) as En'.
  { intros n Hn. specialize (En1 n Hn). simpl in En1. lia. }
  destruct (api_base t) as [base|].
  - specialize (Hp base). destruct (match host_of _ _ with Some _ => _ | None => _ end) eqn:E; simpl.
    + split; [|done]. intros _. repeat split; try done. intros ? [= <-]. by apply Hp.
    + split; [done|]. intros (_ & _ & H & _). naive_solver.
  - change (strict_free g) with strict. destruct strict; naive_solver.
Qed.

Definition demo_url_host (s : string) : option string :=
  if String.prefix "https://" s then Some (String.substring 8 (String.length s - 8) s) else None.
Definition demo_free_model : ModelEntry := set_class "chat" true true false None (from_served_id "m").
Definition demo_call (base : string) : Telemetry := mkTelemetry (Some f64_zero) (Some 0) (Some base).

Lemma verify_free_iff_witness :
  me_free demo_free_model = true /\
  (verify_free demo_url_host (new_gate demo_url_host ["free.example.com"%string] [] false true)
     demo_free_model (demo_call "api.free.example.com") = Ok tt) /\
  exists label, "api.free.example.com"%string = (label ++ "." ++ "free.example.com")%string.
Proof.
  assert (me_free demo_free_model = true) as H by reflexivity.
  assert (verify_free demo_url_host (new_gate demo_url_host ["free.example.com"%string] [] false true)
     demo_free_model (demo_call "api.free.example.com") = Ok tt) as Hv by (vm_compute; reflexivity).
  split; [exact H|]. split; [exact Hv|].
  pose proof (proj1 (verify_free_iff demo_url_host ["free.example.com"%string] [] false true
    demo_free_model (demo_call "api.free.example.com") H) Hv) as (_ & _ & Hb & _).
  exists "api"%string. reflexivity.
Defined.

(** Before a call the gate lets a model through exactly when paid calls
    are allowed, or the provider is not paid and the model is free or its
    provider cost-neutral; a paid provider dominates both. *)
Theorem check_allow_iff (g : PolicyGate) (m : ModelEntry) (provider_paid neutral : bool) :
  check g m provider_paid neutral = Allow <->
  allow_paid g = true \/ provider_paid = false /\ (me_free m = true \/ neutral = true).
Proof.
  unfold check. destruct (allow_paid g), provider_paid, (me_free m), neutral; simpl; naive_solver.
Qed.
