(* ===== verification/Pricing.v ===== *)
(** The pricing catalog (crates/zoder-core/src/pricing.rs): rates with their
    time-of-day windows, the cost arithmetic, the validation of a loaded
    entry, the lookup of a model id and the cost verdict.

    A JSON value is seen through the accessors of [serde_json::Value]
    ([JsonView]).  The catalog's map is the list of its entries in iteration
    order. *)
From S2P Require Import Prelude F64 Clock.
Local Open Scope Z_scope.

(** ** Data *)

Record TimeWindow := mkTimeWindow {
  tw_start : Z;                             (* u32 minutes *)
  tw_end : Z;
  tw_weekdays_only : bool
}.

Record OffPeak := mkOffPeak {
  op_input : f64;
  op_output : f64;
  op_cache_read : f64;
  op_start : Z;
  op_end : Z
}.

Record Peak := mkPeak {
  pk_input : f64;
  pk_output : f64;
  pk_cache_read : f64;
  pk_windows : list TimeWindow
}.

Record ModelPrice := mkPrice {
  mp_blended : f64;
  mp_input : f64;
  mp_output : f64;
  mp_cache_read : f64;
  mp_cache_write : f64;
  mp_reasoning : f64;
  mp_source : string;
  off_peak : option OffPeak;
  peak : option Peak
}.
Definition price_default : ModelPrice :=
  mkPrice f64_zero f64_zero f64_zero f64_zero f64_zero f64_zero "" None None.

Record PricingCatalog := mkCatalog {
  cat_managed : bool;
  cat_raw : option string;
  cat_generated : string;
  cat_source : option string;
  cat_generated_at : option string;
  cat_window : string;
  cat_models : list (string * ModelPrice);
  baseline_usd_per_mtok : f64;
  baseline_model : string
}.
Definition catalog_default : PricingCatalog :=
  mkCatalog false None "" None None "" [] f64_zero "".

Inductive CostVerdict :=
| Priced (cost : f64)
| VFree
| VUnknown.

(** ** Costs *)

(** The window test [TimeWindow::active_at] and [OffPeak::active_at] share. *)
Definition window_active (s e utc_min : Z) : bool :=
  if s <=? e then (s <=? utc_min) && (utc_min <? e) else (s <=? utc_min) || (utc_min <? e).

(** [TimeWindow::active_at] *)
Definition tw_active_at (w : TimeWindow) (utc_min : Z) : bool :=
  window_active (tw_start w) (tw_end w) utc_min.

(** [Peak::active_at] *)
Definition peak_active_at (p : Peak) (utc_min weekday : Z) : bool :=
  existsb (fun w => tw_active_at w utc_min && (negb (tw_weekdays_only w) || (weekday <? 5)))
    (pk_windows p).

(** [OffPeak::active_at] *)
Definition op_active_at (o : OffPeak) (utc_min : Z) : bool :=
  window_active (op_start o) (op_end o) utc_min.

(** [ModelPrice::is_priced] *)
Definition is_priced (p : ModelPrice) : bool :=
  (mp_blended p >? f64_zero)%f64 || (mp_input p >? f64_zero)%f64 || (mp_output p >? f64_zero)%f64.

Definition MILLION : f64 := f64_of_Z 1000000.

(** The blended rate over the combined token count, widened to [u128]. *)
Definition blended_cost (p : ModelPrice) (tokens_in tokens_out : Z) : f64 :=
  (mp_blended p * f64_of_Z (tokens_in + tokens_out) / MILLION)%f64.

(** [ModelPrice::cost_io] *)
Definition cost_io (p : ModelPrice) (tokens_in tokens_out : Z) : f64 :=
  if (tokens_in =? 0) && (tokens_out =? 0) then f64_zero
  else if (mp_input p >? f64_zero)%f64 || (mp_output p >? f64_zero)%f64 then
    let in_part := (f64_of_Z tokens_in * mp_input p)%f64 in
    let out_part := (f64_of_Z tokens_out * mp_output p)%f64 in
    ((in_part + out_part) / MILLION)%f64
  else blended_cost p tokens_in tokens_out.

(** [ModelPrice::cost_io_at] *)
Definition cost_io_at (p : ModelPrice) (tokens_in tokens_out utc_min : Z) : f64 :=
  match off_peak p with
  | Some op =>
      if op_active_at op utc_min && (op_input op >? f64_zero)%f64 && (op_output op >? f64_zero)%f64
      then let in_part := (f64_of_Z tokens_in * op_input op)%f64 in
           let out_part := (f64_of_Z tokens_out * op_output op)%f64 in
           ((in_part + out_part) / MILLION)%f64
      else cost_io p tokens_in tokens_out
  | None => cost_io p tokens_in tokens_out
  end.

(** [ModelPrice::cost_with_rates] *)
Definition cost_with_rates (tokens_in tokens_out cache_hit_tokens : Z)
    (in_rate out_rate cache_rate : f64) : f64 :=
  let hits := Z.min cache_hit_tokens tokens_in in
  let misses := tokens_in - hits in
  let hit_rate := if (cache_rate >? f64_zero)%f64 then cache_rate else in_rate in
  let in_part := (f64_of_Z misses * in_rate + f64_of_Z hits * hit_rate)%f64 in
  let out_part := (f64_of_Z tokens_out * out_rate)%f64 in
  ((in_part + out_part) / MILLION)%f64.

(** [ModelPrice::cost_io_with_cache] *)
Definition cost_io_with_cache (p : ModelPrice) (tokens_in tokens_out cache_hit_tokens : Z) : f64 :=
  if (tokens_in =? 0) && (tokens_out =? 0) then f64_zero
  else if (mp_input p >? f64_zero)%f64 || (mp_output p >? f64_zero)%f64
  then cost_with_rates tokens_in tokens_out cache_hit_tokens (mp_input p) (mp_output p)
         (mp_cache_read p)
  else blended_cost p tokens_in tokens_out.

(** [ModelPrice::cost_io_at_ts] *)
Definition cost_io_at_ts `{Calendar} (p : ModelPrice) (tokens_in tokens_out cache_hit_tokens ts : Z) :
    f64 :=
  let utc_min := cal_hour ts * 60 + cal_minute ts in
  let off :=
    match off_peak p with
    | Some op =>
        if op_active_at op utc_min && (op_input op >? f64_zero)%f64 && (op_output op >? f64_zero)%f64
        then cost_with_rates tokens_in tokens_out cache_hit_tokens (op_input op) (op_output op)
               (op_cache_read op)
        else cost_io_with_cache p tokens_in tokens_out cache_hit_tokens
    | None => cost_io_with_cache p tokens_in tokens_out cache_hit_tokens
    end in
  match peak p with
  | Some pk =>
      if peak_active_at pk utc_min (cal_weekday ts) &&
         (pk_input pk >? f64_zero)%f64 && (pk_output pk >? f64_zero)%f64
      then cost_with_rates tokens_in tokens_out cache_hit_tokens (pk_input pk) (pk_output pk)
             (pk_cache_read pk)
      else off
  | None => off
  end.

(** ** Lookup *)

(** [s.rsplit('/')]: the segments, the leaf first. *)
Definition rsplit_slash (s : string) : list string := rev (split_on "/" s).
Definition leaf_of (s : string) : string := default s (head (rsplit_slash s)).
(** The vendor chain, nearest the leaf first. *)
Definition segments (s : string) : list string := tail (rsplit_slash s).

(** The key is another spelling of the query's model: same leaf, and the key's
    vendor chain is a prefix of the query's, read from the leaf. *)
Definition leaf_match (ml kl : string) : bool :=
  negb (bool_decide (kl = ml)) && bool_decide (leaf_of kl = leaf_of ml) &&
  (length (segments kl) <=? length (segments ml))%nat &&
  bool_decide (take (length (segments kl)) (segments ml) = segments kl).

(** The scan of the leaf fallback; a second match ends it with no price. *)
Fixpoint leaf_scan (ml : string) (l : list (string * ModelPrice)) (found : option ModelPrice) :
    option ModelPrice :=
  match l with
  | [] => found
  | (k, v) :: l =>
      if leaf_match ml (to_ascii_lowercase k)
      then match found with
           | None => leaf_scan ml l (Some v)
           | Some _ => None
           end
      else leaf_scan ml l found
  end.

(** [PricingCatalog::lookup] *)
Definition lookup_price (models : list (string * ModelPrice)) (model : string) : option ModelPrice :=
  match find_first (fun e => bool_decide (fst e = model)) models with
  | Some (_, p) => Some p
  | None =>
      let ml := to_ascii_lowercase model in
      match find_first (fun e => bool_decide (to_ascii_lowercase (fst e) = ml)) models with
      | Some (_, p) => Some p
      | None =>
          if negb (str_contains "/" ml) then None
          else if str_is_empty (leaf_of ml) then None
          else leaf_scan ml models None
      end
  end.

(** [PricingCatalog::lookup_with_fallback]; [bundled] is the shipped list. *)
Definition lookup_with_fallback (bundled models : list (string * ModelPrice)) (model : string) :
    option ModelPrice :=
  match lookup_price models model with
  | Some p => Some p
  | None => lookup_price bundled model
  end.

(** ** Verdicts *)

(** [minutes_of_day_utc] *)
Definition minutes_of_day_utc (ts : Z) : Z :=
  let secs := timestamp ts in
  if secs <? 0 then 0 else (secs mod 86400) / 60.

Definition verdict_of (cost : f64) : CostVerdict :=
  if negb (f64_is_finite cost) || (cost <? f64_zero)%f64 then VUnknown else Priced cost.

(** [PricingCatalog::classify_cost] *)
Definition classify_cost (c : PricingCatalog) (model : string) (tokens_in tokens_out : Z)
    (ts : option Z) : CostVerdict :=
  match lookup_price (cat_models c) model with
  | None => VUnknown
  | Some p =>
      if negb (is_priced p) then VFree
      else verdict_of match ts with
                      | Some t => cost_io_at p tokens_in tokens_out (minutes_of_day_utc t)
                      | None => cost_io p tokens_in tokens_out
                      end
  end.

(** [PricingCatalog::classify_cost_with_cache] *)
Definition classify_cost_with_cache `{Calendar} (bundled : list (string * ModelPrice))
    (c : PricingCatalog) (model : string) (tokens_in tokens_out cache_hit_tokens : Z)
    (ts : option Z) : CostVerdict :=
  match lookup_with_fallback bundled (cat_models c) model with
  | None => VUnknown
  | Some price =>
      if negb (is_priced price) then VFree
      else verdict_of match ts with
                      | Some t => cost_io_at_ts price tokens_in tokens_out cache_hit_tokens t
                      | None => cost_io_with_cache price tokens_in tokens_out cache_hit_tokens
                      end
  end.

(** [PricingCatalog::cost_at] *)
Definition cost_at (c : PricingCatalog) (model : string) (tokens_in tokens_out : Z)
    (ts : option Z) : f64 :=
  match classify_cost c model tokens_in tokens_out ts with
  | Priced v => v
  | VFree | VUnknown => f64_zero
  end.

(** [PricingCatalog::is_billed] *)
Definition is_billed (c : PricingCatalog) (model : string) : bool :=
  default false (is_priced <$> lookup_price (cat_models c) model).

(** [PricingCatalog::avoided] *)
Definition avoided (c : PricingCatalog) (tokens : Z) : f64 :=
  (baseline_usd_per_mtok c * (f64_of_Z tokens / MILLION))%f64.

(** [is_known_unpriceable_model] *)
Definition is_known_unpriceable_model (model_id : string) : bool :=
  bool_decide (to_ascii_lowercase model_id ∈
    ["openrouter/auto"; "openrouter/bodybuilder"; "openrouter/fusion"; "openrouter/pareto-code"]%string).

(** ** Loading *)

(** The accessors of [serde_json::Value]; the entries of an object have
    distinct keys. *)
Class JsonView (J : Type) := {
  j_is_null : J -> bool;
  as_object : J -> option (list (string * J));
  as_array : J -> option (list J);
  as_f64 : J -> option f64;
  as_u64 : J -> option Z;
  as_bool : J -> option bool;
  as_str : J -> option string
}.

Section Load.
Context {J : Type} `{JsonView J}.

(** [obj.get(k)] *)
Definition obj_get (obj : list (string * J)) (k : string) : option J :=
  snd <$> find_first (fun e => bool_decide (fst e = k)) obj.
(** [v.get(k)] *)
Definition j_get (v : J) (k : string) : option J :=
  match as_object v with Some obj => obj_get obj k | None => None end.

Definition NUMERIC_PRICE_FIELDS : list string :=
  ["usd_per_mtok"; "input_usd_per_mtok"; "output_usd_per_mtok"; "cache_read_usd_per_mtok";
   "cache_write_usd_per_mtok"; "reasoning_usd_per_mtok"]%string.

(** [set_price_field] *)
Definition set_price_field (p : ModelPrice) (key : string) (n : f64) : ModelPrice :=
  let set k old := if bool_decide (key = k) then n else old in
  mkPrice (set "usd_per_mtok"%string (mp_blended p)) (set "input_usd_per_mtok"%string (mp_input p))
    (set "output_usd_per_mtok"%string (mp_output p))
    (set "cache_read_usd_per_mtok"%string (mp_cache_read p))
    (set "cache_write_usd_per_mtok"%string (mp_cache_write p))
    (set "reasoning_usd_per_mtok"%string (mp_reasoning p)) (mp_source p) (off_peak p) (peak p).

(** A rate the loader keeps. *)
Definition rate_ok (n : f64) : bool := f64_is_finite n && (f64_zero <=? n)%f64.

(** The valid number of a field, if it has one. *)
Definition field_rate (obj : list (string * J)) (f : string) : option f64 :=
  match obj_get obj f with
  | None => None
  | Some v => if j_is_null v then None else opt_filter rate_ok (as_f64 v)
  end.

(** The loop over [NUMERIC_PRICE_FIELDS]. *)
Definition read_rates (obj : list (string * J)) : ModelPrice :=
  fold_left (fun p f => match field_rate obj f with Some n => set_price_field p f n | None => p end)
    NUMERIC_PRICE_FIELDS price_default.

(** [clamp_window_min] and [clamp_peak_window_min] *)
Definition clamp_window_min (obj : list (string * J)) (key : string) (max : Z) : Z :=
  match obj_get obj key with
  | None => 0
  | Some v => match as_u64 v with
              | None => 0
              | Some raw => if U32_MAX <? raw then max else if max <? raw then max else raw
              end
  end.

(** [num] of the two blocks: [as_f64().unwrap_or(0.0).max(0.0)]. *)
Definition block_num (obj : list (string * J)) (k : string) : f64 :=
  f64_max (default f64_zero (match obj_get obj k with Some v => as_f64 v | None => None end)) f64_zero.

Definition read_off_peak (obj : list (string * J)) : option OffPeak :=
  match match obj_get obj "off_peak" with Some v => as_object v | None => None end with
  | None => None
  | Some op =>
      let op_input := block_num op "input_usd_per_mtok" in
      let op_output := block_num op "output_usd_per_mtok" in
      if (op_input >? f64_zero)%f64 && (op_output >? f64_zero)%f64
      then Some (mkOffPeak op_input op_output (block_num op "cache_read_usd_per_mtok")
                   (clamp_window_min op "window_start_utc_min" 1439)
                   (clamp_window_min op "window_end_utc_min" 1440))
      else None
  end.

Definition read_window (w : list (string * J)) : TimeWindow :=
  mkTimeWindow (clamp_window_min w "window_start_utc_min" 1439)
    (clamp_window_min w "window_end_utc_min" 1440)
    (default false (match obj_get w "weekdays_only" with Some v => as_bool v | None => None end)).

Definition read_peak (obj : list (string * J)) : option Peak :=
  match match obj_get obj "peak" with Some v => as_object v | None => None end with
  | None => None
  | Some pk =>
      let ws := match obj_get pk "windows" with Some v => default [] (as_array v) | None => [] end in
      let windows := map read_window (omap as_object ws) in
      match windows with
      | [] => None
      | _ => Some (mkPeak (block_num pk "input_usd_per_mtok") (block_num pk "output_usd_per_mtok")
                     (block_num pk "cache_read_usd_per_mtok") windows)
      end
  end.

(** [validate_model_price]; the warnings it prints are not kept. *)
Definition validate_model_price (raw : J) : option ModelPrice :=
  match as_object raw with
  | None => None
  | Some obj =>
      let price := read_rates obj in
      let present f := bool_decide (is_Some (field_rate obj f)) in
      let blended_present := present "usd_per_mtok"%string in
      let input_present := present "input_usd_per_mtok"%string in
      let output_present := present "output_usd_per_mtok"%string in
      let complete_component_pair := input_present && output_present in
      let partial_component_pair := xorb input_present output_present in
      if partial_component_pair || (negb complete_component_pair && negb blended_present) then None
      else
        let src := default EmptyString (match obj_get obj "source" with
                                        | Some v => as_str v | None => None end) in
        Some (mkPrice (mp_blended price) (mp_input price) (mp_output price) (mp_cache_read price)
                (mp_cache_write price) (mp_reasoning price) src (read_off_peak obj) (read_peak obj))
  end.

(** What the loader found at the path. *)
Inductive CatalogFile :=
| Absent
| File (is_file : bool) (len mode : Z) (body : option string).

Definition MAX_PRICE_BYTES : Z := 2097152.

Definition str_at (v : J) (k : string) : option string :=
  match j_get v k with Some x => as_str x | None => None end.

(** [HashMap::insert] on the entry list: a key keeps its place. *)
Definition models_insert (l : list (string * ModelPrice)) (k : string) (p : ModelPrice) :=
  if existsb (fun e => bool_decide (fst e = k)) l
  then map (fun e => if bool_decide (fst e = k) then (k, p) else e) l else l ++ [(k, p)].

(** The loop over the [models] object. *)
Definition load_models (entries : list (string * J)) : list (string * ModelPrice) :=
  fold_left (fun l e =>
    if is_known_unpriceable_model (fst e) then l
    else match validate_model_price (snd e) with
         | Some price => models_insert l (fst e) price
         | None => l
         end) entries [].

(** [PricingCatalog::load]; [parse] is [serde_json::from_str]. *)
Definition load_catalog (parse : string -> option J) (f : CatalogFile) : PricingCatalog :=
  match f with
  | Absent => catalog_default
  | File is_file len mode body =>
      if negb is_file then catalog_default
      else if MAX_PRICE_BYTES <? len then catalog_default
      else if negb (Z.land mode 18 =? 0) then catalog_default
      else match body with
           | None => catalog_default
           | Some s =>
               match parse s with
               | None => catalog_default
               | Some v =>
                   let models := match j_get v "models" with Some m => as_object m | None => None end in
                   mkCatalog
                     (default false (match j_get v "managed" with Some m => as_bool m | None => None end))
                     (match models with Some _ => None | None => Some s end)
                     (default EmptyString (str_at v "generated")) (str_at v "source")
                     (str_at v "generated_at") (default EmptyString (str_at v "window"))
                     (match models with Some es => load_models es | None => [] end)
                     (default f64_zero (opt_filter rate_ok
                        (match j_get v "baseline_usd_per_mtok" with Some x => as_f64 x | None => None end)))
                     (default EmptyString (str_at v "baseline_model"))
               end
           end
  end.
End Load.

(** ** Lemmas *)


(** ** Lemmas *)

Lemma existsb_mem {A} (p : A -> bool) l x : x ∈ l -> p x = true -> existsb p l = true.
Proof. intros. apply existsb_elem. eauto. Qed.

Lemma rate_ok_spec r : rate_ok r = true -> f64_is_finite r = true /\ f64_leb f64_zero r = true.
Proof. apply andb_true_iff. Qed.

(** *** The leaf scan *)

Definition leaf_entries (ml : string) (l : list (string * ModelPrice)) : list (string * ModelPrice) :=
  filterb (fun e => leaf_match ml (to_ascii_lowercase (fst e))) l.

Definition the_one (l : list (string * ModelPrice)) : option ModelPrice :=
  match l with [e] => Some (snd e) | _ => None end.

Lemma leaf_scan_some ml l p :
  leaf_scan ml l (Some p) = match leaf_entries ml l with [] => Some p | _ => None end.
Proof.
  induction l as [|[k v] l IH]; [done|]. unfold leaf_entries, filterb in *. simpl.
  destruct (leaf_match ml _); [done|]. apply IH.
Qed.

Lemma leaf_scan_none ml l : leaf_scan ml l None = the_one (leaf_entries ml l).
Proof.
  induction l as [|[k v] l IH]; [done|]. unfold leaf_entries, filterb in *. simpl.
  destruct (leaf_match ml _); [|apply IH]. rewrite leaf_scan_some. unfold leaf_entries, filterb.
  by destruct (List.filter _ l).
Qed.

Lemma split_on_nonempty c s : split_on c s <> [].
Proof. destruct s as [|a s]; simpl; [done|]. destruct (Ascii.eqb a c); [done|]. by destruct (split_on c s). Qed.

Lemma rsplit_slash_cons s : rsplit_slash s = leaf_of s :: segments s.
Proof.
  unfold leaf_of, segments, rsplit_slash. pose proof (split_on_nonempty "/" s) as H.
  destruct (rev (split_on "/" s)) as [|x l] eqn:E; [|done].
  apply (f_equal (@rev string)) in E. rewrite rev_involutive in E. done.
Qed.

(** The segments of the key end the segments of the query. *)
Lemma leaf_match_suffix ml kl :
  leaf_match ml kl = true <-> kl <> ml /\ exists pre, split_on "/" ml = pre ++ split_on "/" kl.
Proof.
  unfold leaf_match. rewrite !andb_true_iff, negb_true_iff, bool_decide_eq_false, !bool_decide_eq_true,
    Nat.leb_le.
  assert (forall s, split_on "/" s = rev (segments s) ++ [leaf_of s]) as Hs.
  { intros s. rewrite <- (rev_involutive (split_on "/" s)). fold (rsplit_slash s).
    by rewrite rsplit_slash_cons. }
  rewrite !Hs. split.
  - intros [[[Hne Hl] Hlen] Ht]. split; [done|].
    exists (rev (drop (length (segments kl)) (segments ml))).
    rewrite Hl. rewrite app_assoc, <- rev_app_distr. do 2 f_equal.
    rewrite <- (take_drop (length (segments kl)) (segments ml)) at 1. by rewrite Ht.
  - intros [Hne [pre E]]. rewrite app_assoc in E. apply app_inj_tail in E as [E El].
    apply (f_equal (@rev string)) in E. rewrite rev_app_distr, !rev_involutive in E.
    split; [split; [split; [done|done]|]|].
    + rewrite E, length_app. lia.
    + rewrite E. apply take_app_length.
Qed.

Lemma find_first_key_perm (l l' : list (string * ModelPrice)) (f : string -> string) k :
  l ≡ₚ l' -> NoDup (map (fun e => f (fst e)) l) ->
  find_first (fun e => bool_decide (f (fst e) = k)) l = find_first (fun e => bool_decide (f (fst e) = k)) l'.
Proof.
  intros HP HN.
  assert (forall (l : list (string * ModelPrice)) e,
    NoDup (map (fun e => f (fst e)) l) -> e ∈ l -> f (fst e) = k ->
    find_first (fun e => bool_decide (f (fst e) = k)) l = Some e) as Hf.
  { clear. intros l e. induction l as [|x l IH]; simpl; intros HN He Hk; [by apply not_elem_of_nil in He|].
    apply NoDup_cons in HN as [Hx HN]. apply elem_of_cons in He as [->|He].
    - by rewrite bool_decide_true.
    - rewrite bool_decide_false; [by apply IH|]. intros Hfx. apply Hx.
      apply list_elem_of_fmap. exists e. split; [congruence|done]. }
  destruct (find_first _ l) as [e|] eqn:E.
  - apply find_first_Some in E as [He Hk]. apply bool_decide_eq_true in Hk. symmetry.
    apply Hf; [by rewrite <- HP|by rewrite <- HP|done].
  - symmetry. apply find_first_None. intros x Hx. rewrite find_first_None in E. apply E. by rewrite HP.
Qed.

(** *** Loaded entries *)

Definition rates_wf (p : ModelPrice) : Prop :=
  rate_ok (mp_blended p) = true /\ rate_ok (mp_input p) = true /\ rate_ok (mp_output p) = true /\
  rate_ok (mp_cache_read p) = true /\ rate_ok (mp_cache_write p) = true /\
  rate_ok (mp_reasoning p) = true.

Definition window_wf (s e : Z) : Prop := s <= 1439 /\ e <= 1440.

Definition price_wf (p : ModelPrice) : Prop :=
  rates_wf p /\
  (forall op, off_peak p = Some op ->
     (op_input op >? f64_zero)%f64 = true /\ (op_output op >? f64_zero)%f64 = true /\
     window_wf (op_start op) (op_end op)) /\
  (forall pk, peak p = Some pk ->
     pk_windows pk <> [] /\ Forall (fun w => window_wf (tw_start w) (tw_end w)) (pk_windows pk)).

Section LoadLemmas.
Context {J : Type} `{JsonView J}.

Lemma field_rate_ok (obj : list (string * J)) f n : field_rate obj f = Some n -> rate_ok n = true.
Proof.
  unfold field_rate. destruct (obj_get obj f) as [v|]; [|done]. destruct (j_is_null v); [done|].
  destruct (as_f64 v); simpl; [|done]. by case_match; intros; simplify_eq.
Qed.

Lemma set_price_field_wf p k n : rates_wf p -> rate_ok n = true -> rates_wf (set_price_field p k n).
Proof.
  unfold rates_wf, set_price_field. simpl. intros (?&?&?&?&?&?) ?.
  repeat split; by case_bool_decide.
Qed.

Lemma read_rates_wf obj : rates_wf (read_rates obj).
Proof.
  unfold read_rates. apply (fold_left_in _ rates_wf); [by vm_compute|].
  intros p f Hp _. destruct (field_rate obj f) eqn:E; [|done].
  apply set_price_field_wf; [done|]. by eapply field_rate_ok.
Qed.

Lemma clamp_window_min_le obj k m : 0 <= m -> clamp_window_min obj k m <= m.
Proof. unfold clamp_window_min. intros. repeat case_match; lia. Qed.

Lemma validate_wf v p : validate_model_price v = Some p -> price_wf p.
Proof.
  unfold validate_model_price. destruct (as_object v) as [obj|]; [|done].
  destruct (_ || _); [done|]. intros [= <-]. split; [apply (read_rates_wf obj)|]. simpl. split.
  - intros op. unfold read_off_peak. destruct (match obj_get obj "off_peak" with Some _ => _ | None => _ end);
      [|done].
    destruct (_ && _) eqn:E; [|done]. intros [= <-]. simpl. apply andb_true_iff in E as [-> ->].
    repeat split; apply clamp_window_min_le; lia.
  - intros pk. unfold read_peak. destruct (match obj_get obj "peak" with Some _ => _ | None => _ end) as [o|];
      [|done].
    destruct (map read_window _) as [|w ws] eqn:E; [done|]. intros [= <-]. simpl. split; [done|].
    rewrite <- E. apply Forall_forall. intros x (y & -> & _)%list_elem_of_fmap.
    split; apply clamp_window_min_le; lia.
Qed.

Lemma models_insert_elem l k p e :
  e ∈ models_insert l k p -> e = (k, p) \/ e ∈ l.
Proof.
  unfold models_insert. destruct (existsb _ l).
  - intros (x & -> & Hx)%list_elem_of_fmap. case_bool_decide; [by left|by right].
  - rewrite elem_of_app, list_elem_of_singleton. tauto.
Qed.

Lemma models_insert_keys l k p :
  NoDup (map fst l) -> NoDup (map fst (models_insert l k p)).
Proof.
  intros HN. unfold models_insert. destruct (existsb _ l) eqn:E.
  - rewrite map_map. replace (map _ l) with (map fst l); [done|].
    apply map_ext. intros e. by case_bool_decide.
  - rewrite map_app. simpl. apply NoDup_app. split; [done|]. split; [|apply NoDup_singleton].
    intros x (e & -> & He)%list_elem_of_fmap Hk%list_elem_of_singleton.
    rewrite existsb_none in E. specialize (E e He). by rewrite bool_decide_true in E.
Qed.

Lemma load_models_wf entries :
  NoDup (map fst (load_models entries)) /\
  (forall e, e ∈ load_models entries ->
     price_wf (snd e) /\ is_known_unpriceable_model (fst e) = false).
Proof.
  unfold load_models. apply (fold_left_in _ (fun l => NoDup (map fst l) /\
    (forall e, e ∈ l -> price_wf (snd e) /\ is_known_unpriceable_model (fst e) = false))).
  { split; [constructor|]. intros e He. by apply not_elem_of_nil in He. }
  intros l [k v] [HN HP] _. simpl. destruct (is_known_unpriceable_model k) eqn:Ek; [done|].
  destruct (validate_model_price v) as [p|] eqn:E; [|done].
  split; [by apply models_insert_keys|]. intros e [->|He]%models_insert_elem; [|by apply HP].
  split; [by eapply validate_wf|done].
Qed.
End LoadLemmas.

(** ** Claims *)

(** The short-name fallback of the price lookup.  An id no key matches up
    to case is priced only if it is qualified, and then by the single key whose
    path segments end the id's; a second such key, or none, is no price.  So a
    bare id never borrows a rate and no id borrows one from another
    publisher. *)
Theorem lookup_resolution (models : list (string * ModelPrice)) (q : string)
    (Hexact : forall k, k ∈ map fst models -> to_ascii_lowercase k <> to_ascii_lowercase q) :
  lookup_price models q =
    (if str_contains "/" (to_ascii_lowercase q) && negb (str_is_empty (leaf_of (to_ascii_lowercase q)))
     then the_one (leaf_entries (to_ascii_lowercase q) models) else None) /\
  (forall k p, (k, p) ∈ leaf_entries (to_ascii_lowercase q) models <->
     (k, p) ∈ models /\ exists host, split_on "/" (to_ascii_lowercase q) =
                                     host ++ split_on "/" (to_ascii_lowercase k)).
Proof.
  assert (forall e, e ∈ models -> to_ascii_lowercase (fst e) <> to_ascii_lowercase q) as Hne.
  { intros e He. apply Hexact. apply list_elem_of_fmap. eauto. }
  split.
  - unfold lookup_price.
    rewrite (proj2 (find_first_None _ models)).
    2: { intros e He. apply bool_decide_eq_false. intros E. apply (Hne e He). by rewrite E. }
    rewrite (proj2 (find_first_None _ models)).
    2: { intros e He. apply bool_decide_eq_false. by apply Hne. }
    rewrite leaf_scan_none. destruct (str_contains _ _), (str_is_empty _); done.
  - intros k p. unfold leaf_entries. rewrite elem_of_filterb, leaf_match_suffix. simpl. split.
    + tauto.
    + intros [He Hh]. split; [|done]. split; [|done]. by apply (Hne (k, p)).
Qed.

Definition flat (r : f64) : ModelPrice := mkPrice f64_zero r r f64_zero f64_zero f64_zero "" None None.
Definition demo_catalog : list (string * ModelPrice) :=
  [("meta/llama-4", flat (f64_of_Z 2)); ("gpt-4o", flat (f64_of_Z 5))]%string.

Lemma lookup_resolution_witness :
  lookup_price demo_catalog "together/meta/llama-4" = Some (flat (f64_of_Z 2)) /\
  lookup_price demo_catalog "llama-4" = None.
Proof.
  split.
  - rewrite (proj1 (lookup_resolution demo_catalog "together/meta/llama-4"
      ltac:(intros k Hk; repeat (apply elem_of_cons in Hk as [->|Hk]; [vm_compute; discriminate|]);
            by apply not_elem_of_nil in Hk))). vm_compute. reflexivity.
  - rewrite (proj1 (lookup_resolution demo_catalog "llama-4"
      ltac:(intros k Hk; repeat (apply elem_of_cons in Hk as [->|Hk]; [vm_compute; discriminate|]);
            by apply not_elem_of_nil in Hk))). vm_compute. reflexivity.
Defined.

(** The price of an id does not depend on the iteration order of the hash
    map, as long as no two keys differ in case only. *)
Theorem lookup_order_independent (models models' : list (string * ModelPrice)) (q : string)
    (Hperm : models ≡ₚ models') (Hkeys : NoDup (map (fun e => to_ascii_lowercase (fst e)) models)) :
  lookup_price models q = lookup_price models' q.
Proof.
  unfold lookup_price.
  rewrite <- (find_first_key_perm models models' (fun k => k) q Hperm).
  2: { apply (NoDup_fmap_1 to_ascii_lowercase). change (NoDup (map to_ascii_lowercase (map fst models))).
       by rewrite map_map. }
  rewrite <- (find_first_key_perm models models' to_ascii_lowercase _ Hperm Hkeys).
  rewrite !leaf_scan_none.
  assert (leaf_entries (to_ascii_lowercase q) models ≡ₚ leaf_entries (to_ascii_lowercase q) models') as HP
    by (by apply filterb_perm).
  replace (the_one (leaf_entries (to_ascii_lowercase q) models'))
    with (the_one (leaf_entries (to_ascii_lowercase q) models)); [done|].
  destruct (leaf_entries _ models) as [|e [|e' l]] eqn:E.
  - by apply Permutation_nil in HP as ->.
  - by apply Permutation_length_1_inv in HP as ->.
  - apply Permutation_length in HP. by destruct (leaf_entries _ models') as [|? [|??]].
Qed.

Lemma lookup_order_independent_witness :
  lookup_price demo_catalog "openai/gpt-4o" = lookup_price (rev demo_catalog) "openai/gpt-4o".
Proof.
  apply (lookup_order_independent demo_catalog (rev demo_catalog) "openai/gpt-4o").
  - vm_compute. constructor.
  - vm_compute. repeat constructor; set_solver.
Defined.

(** The price of an id is order dependent when two keys differ in case
    only: the case-insensitive pass takes whichever the map yields first. *)
Theorem lookup_case_variants_order_dependent :
  exists models models' q, models ≡ₚ models' /\ NoDup (map fst models) /\
    lookup_price models q <> lookup_price models' q.
Proof.
  exists [("GPT-4", flat (f64_of_Z 5)); ("Gpt-4", flat (f64_of_Z 2))]%string,
    [("Gpt-4", flat (f64_of_Z 2)); ("GPT-4", flat (f64_of_Z 5))]%string, "gpt-4"%string.
  split; [constructor|]. split; [|by vm_compute].
  vm_compute. repeat constructor; set_solver.
Qed.

(** An entry that only has peak rates is reported free inside its peak window,
    where the cost arithmetic charges it. *)
Lemma peak_only_price_is_free :
  let pk := mkPeak (f64_of_Z 2) (f64_of_Z 8) f64_zero [mkTimeWindow 0 1440 false] in
  let p := mkPrice f64_zero f64_zero f64_zero f64_zero f64_zero f64_zero "" None (Some pk) in
  let c := mkCatalog false None "" None None "" [("m"%string, p)] f64_zero "" in
  classify_cost_with_cache (H := gregorian) [] c "m" 1000000 0 0 (Some nov_2026) = VFree /\
  cost_io_at_ts (H := gregorian) p 1000000 0 0 nov_2026 = f64_of_Z 2.
Proof. split; vm_compute; reflexivity. Qed.

(** A cost verdict never hides a missing price.  [Priced] carries a finite
    non-negative cost of an entry with a positive rate; [Free] is only said of
    an entry that is present without one; so an id with no entry in either list
    is [Unknown], and an entry's cost is only [Unknown] when the arithmetic
    overflowed or came out negative. *)
Theorem verdict_sound `{Calendar} (bundled : list (string * ModelPrice)) (c : PricingCatalog)
    (model : string) (tin tout hits : Z) (ts : option Z) :
  let entry := lookup_with_fallback bundled (cat_models c) model in
  let cost p := match ts with
                | Some t => cost_io_at_ts p tin tout hits t
                | None => cost_io_with_cache p tin tout hits
                end in
  match classify_cost_with_cache bundled c model tin tout hits ts with
  | Priced v => f64_is_finite v = true /\ (f64_zero <=? v)%f64 = true /\
                exists p, entry = Some p /\ is_priced p = true /\ v = cost p
  | VFree => exists p, entry = Some p /\ is_priced p = false
  | VUnknown => forall p, entry = Some p ->
                  is_priced p = true /\
                  (f64_is_finite (cost p) = false \/ (cost p <? f64_zero)%f64 = true)
  end.
Proof.
  intros entry cost. unfold classify_cost_with_cache. fold entry.
  destruct entry as [p|]; [|done]. destruct (is_priced p) eqn:Ep; simpl; [|eauto].
  fold (cost p). unfold verdict_of.
  destruct (f64_is_finite (cost p)) eqn:Ef; simpl; [|naive_solver].
  destruct (cost p <? f64_zero)%f64 eqn:El; [naive_solver|]. split; [done|]. split; [|eauto].
  destruct (f64_total f64_zero (cost p)) as [|H1]; try done; [by destruct (cost p)|congruence].
Qed.

(** For a non-negative input rate (not the float [-0.0]) cache accounting
    is anchored at both ends: with no hits the cost is the
    plain one, more hits than input tokens count as all of them, and without a
    cache rate a fully cached call costs as much as an uncached one. *)
Theorem cache_cost_anchored (p : ModelPrice) (tin tout hits : Z) (Hin : 0 <= tin)
    (Hrates : rate_ok (mp_input p) = true /\ f64_pos (mp_input p) = true /\
              rate_ok (mp_cache_read p) = true) :
  cost_io_with_cache p tin tout 0 = cost_io p tin tout /\
  (tin <= hits -> cost_io_with_cache p tin tout hits = cost_io_with_cache p tin tout tin) /\
  (tin <= hits -> (mp_cache_read p >? f64_zero)%f64 = false ->
   cost_io_with_cache p tin tout hits = cost_io p tin tout).
Proof.
  destruct Hrates as ([Hf Hn]%rate_ok_spec & Hp & [Hcf Hcn]%rate_ok_spec).
  pose proof (f64_of_Z_pos tin Hin) as Ht.
  unfold cost_io_with_cache, cost_io, cost_with_rates. split; [|split].
  - destruct (_ && _); [done|]. destruct (_ || _); [|done].
    rewrite Z.min_l, Z.sub_0_r by lia. change (f64_of_Z 0) with f64_zero.
    do 2 f_equal. apply f64_add_zero_r; [by apply f64_mul_pos|].
    destruct (mp_cache_read p >? f64_zero)%f64; by apply f64_mul_zero_l.
  - intros Hh. by rewrite Z.min_r, Z.min_l by lia.
  - intros Hh Hc. destruct (_ && _); [done|]. destruct (_ || _); [|done].
    rewrite Z.min_r, Z.sub_diag, Hc by lia. change (f64_of_Z 0) with f64_zero.
    do 2 f_equal. apply (f64_add_zero_share (f64_of_Z tin) (mp_input p) Ht Hf Hn).
Qed.

Lemma cache_cost_anchored_witness :
  cost_io_with_cache (flat (f64_of_Z 3)) 1000 10 0 = cost_io (flat (f64_of_Z 3)) 1000 10 /\
  cost_io_with_cache (flat (f64_of_Z 3)) 1000 10 5000 = cost_io (flat (f64_of_Z 3)) 1000 10.
Proof.
  assert (rate_ok (mp_input (flat (f64_of_Z 3))) = true /\ f64_pos (mp_input (flat (f64_of_Z 3))) = true /\
          rate_ok (mp_cache_read (flat (f64_of_Z 3))) = true) as Hr by (vm_compute; auto).
  split.
  - apply (proj1 (cache_cost_anchored (flat (f64_of_Z 3)) 1000 10 0 ltac:(lia) Hr)).
  - apply (proj2 (proj2 (cache_cost_anchored (flat (f64_of_Z 3)) 1000 10 5000 ltac:(lia) Hr)));
      [lia|vm_compute; reflexivity].
Defined.

(** What the loader accepts is safe to price with, whatever the file
    holds: every rate is finite and non-negative, an off-peak block has both
    rates and both kinds of window stay inside the day, even for minute values
    beyond 32 bits; keys are unique and no known unpriceable id is loaded. *)
Theorem loaded_catalog_wf {J : Type} `{JsonView J} (parse : string -> option J) (f : CatalogFile) :
  let models := cat_models (load_catalog parse f) in
  NoDup (map fst models) /\
  (forall k p, (k, p) ∈ models -> price_wf p /\ is_known_unpriceable_model k = false) /\
  rate_ok (baseline_usd_per_mtok (load_catalog parse f)) = true.
Proof.
  assert (NoDup (map fst ([] : list (string * ModelPrice))) /\
    (forall k p, (k, p) ∈ ([] : list (string * ModelPrice)) ->
       price_wf p /\ is_known_unpriceable_model k = false)) as [H1 H2].
  { split; [constructor|]. intros k p He. by apply not_elem_of_nil in He. }
  unfold load_catalog. destruct f as [|is_file len mode body]; [done|].
  destruct (negb is_file); [done|]. destruct (MAX_PRICE_BYTES <? len); [done|].
  destruct (negb _); [done|]. destruct body as [s|]; [|done]. destruct (parse s) as [v|]; [|done].
  simpl. split; [|split].
  - destruct (match j_get v "models" with Some m => _ | None => _ end) as [es|]; [|done].
    apply load_models_wf.
  - destruct (match j_get v "models" with Some m => _ | None => _ end) as [es|]; [|done].
    intros k p He. by apply (proj2 (load_models_wf es) (k, p)).
  - destruct (match j_get v "baseline_usd_per_mtok" with Some x => _ | None => _ end) as [b|]; [|done].
    simpl. by destruct (rate_ok b) eqn:E.
Qed.
