(* ===== verification/HostCooldown.v ===== *)
(** The host cooldown marker (crates/zoder-core/src/host_cooldown.rs): one file
    beside the ledger that keeps the host off metered routes until it expires.

    The file is what a reader can find at the path; each operation returns the
    file it leaves.  Whether a write or a removal succeeds is an argument, and
    so is each clock reading. *)
From S2P Require Import Prelude F64 Clock.
Local Open Scope Z_scope.

Definition COOLDOWN_VERSION : Z := 1.
Definition REASON_MONTHLY_CAP : string := "monthly_cap".

(** The detail is the two amounts it names. *)
Record HostCooldown := mkCooldown {
  version : Z;                              (* u32 *)
  reason : string;
  detail : option (f64 * f64);
  limit_usd : option f64;
  spent_usd : option f64;
  created_at : Z;
  expires_at : Z
}.

(** What is at the marker's path.  [TooLarge] is over [MAX_COOLDOWN_BYTES],
    [Corrupt] is not UTF-8 or does not parse. *)
Inductive MarkerFile :=
| Missing
| StatError
| TooLarge
| ReadError
| Corrupt
| Marker (m : HostCooldown).

Inductive IoError := ReadingMarker | CreatingMarker | RemovingMarker.

(** [HostCooldown::is_active_at] *)
Definition is_active_at (m : HostCooldown) (now : Z) : bool := now <? expires_at m.

(** [read_cooldown_at_with]; [rm_ok] is whether the best-effort removal of an
    expired marker succeeds. *)
Definition read_cooldown_at_with (file : MarkerFile) (now : Z) (remove_expired rm_ok : bool) :
    result (option HostCooldown) IoError * MarkerFile :=
  match file with
  | Missing => (Ok None, file)
  | StatError => (Err ReadingMarker, file)
  | TooLarge => (Ok None, file)
  | ReadError => (Err ReadingMarker, file)
  | Corrupt => (Ok None, file)
  | Marker marker =>
      if negb (version marker =? COOLDOWN_VERSION) then (Ok None, file)
      else if negb (is_active_at marker now)
      then (Ok None, if remove_expired && rm_ok then Missing else file)
      else (Ok (Some marker), file)
  end.

(** [read_cooldown_at] *)
Definition read_cooldown_at (file : MarkerFile) (now : Z) (rm_ok : bool) :=
  read_cooldown_at_with file now true rm_ok.

(** [cooldown_active] *)
Definition cooldown_active (file : MarkerFile) (now : Z) (rm_ok : bool) : bool :=
  match fst (read_cooldown_at file now rm_ok) with Ok (Some _) => true | _ => false end.

(** The marker [write_cooldown] publishes: the version defaults, and a live
    marker is never shortened. *)
Definition merged_marker (file : MarkerFile) (marker : HostCooldown) (now : Z) : HostCooldown :=
  let out := mkCooldown (if version marker =? 0 then COOLDOWN_VERSION else version marker)
               (reason marker) (detail marker) (limit_usd marker) (spent_usd marker)
               (created_at marker) (expires_at marker) in
  match fst (read_cooldown_at_with file now false true) with
  | Ok (Some current) =>
      mkCooldown (version out) (reason out) (detail out) (limit_usd out) (spent_usd out)
        (if created_at current <? created_at out then created_at current else created_at out)
        (if expires_at out <? expires_at current then expires_at current else expires_at out)
  | _ => out
  end.

(** [write_cooldown]; [io_ok] is whether the directory, the temporary file and
    the rename succeed, [now] the clock reading of the merge. *)
Definition write_cooldown (file : MarkerFile) (marker : HostCooldown) (now : Z) (io_ok : bool) :
    result HostCooldown IoError * MarkerFile :=
  if io_ok then let out := merged_marker file marker now in (Ok out, Marker out)
  else (Err CreatingMarker, file).

(** [clear_cooldown] *)
Definition clear_cooldown (file : MarkerFile) (rm_ok : bool) : result unit IoError * MarkerFile :=
  match file with
  | Missing => (Ok tt, Missing)
  | _ => if rm_ok then (Ok tt, Missing) else (Err RemovingMarker, file)
  end.

(** [month_end] *)
Definition month_end `{Calendar} (now : Z) : Z :=
  let next := next_month now in
  match cal_first_of (fst next) (snd next) with
  | Some t => t
  | None => now + days_ns 1
  end.

(** The marker of a tripped monthly cap. *)
Definition monthly_marker `{Calendar} (limit spent : f64) (now : Z) : HostCooldown :=
  mkCooldown COOLDOWN_VERSION REASON_MONTHLY_CAP (Some (spent, limit)) (Some limit) (Some spent)
    now (month_end now).

(** [trip_monthly_cap_cooldown]; [now'] is the merge's clock reading. *)
Definition trip_monthly_cap_cooldown `{Calendar} (file : MarkerFile) (limit spent : f64)
    (now now' : Z) (io_ok : bool) : result HostCooldown IoError * MarkerFile :=
  write_cooldown file (monthly_marker limit spent now) now' io_ok.

(** [status_line]: the live marker the line describes. *)
Definition status_line (file : MarkerFile) (now : Z) (rm_ok : bool) : option HostCooldown :=
  match fst (read_cooldown_at file now rm_ok) with Ok m => m | Err _ => None end.

(** ** Lemmas *)

Lemma merged_marker_version file marker now :
  version marker = 0 \/ version marker = COOLDOWN_VERSION ->
  version (merged_marker file marker now) = COOLDOWN_VERSION.
Proof.
  unfold merged_marker. intros Hv. assert ((if version marker =? 0 then COOLDOWN_VERSION
    else version marker) = COOLDOWN_VERSION) as E by (destruct (Z.eqb_spec (version marker) 0); lia).
  by destruct (fst _) as [[]|].
Qed.

Lemma merged_marker_extends file marker now :
  expires_at marker <= expires_at (merged_marker file marker now) /\
  created_at (merged_marker file marker now) <= created_at marker.
Proof.
  unfold merged_marker. destruct (fst _) as [[current|]|]; simpl; try lia.
  destruct (Z.ltb_spec (expires_at marker) (expires_at current)),
    (Z.ltb_spec (created_at current) (created_at marker)); lia.
Qed.

Lemma live_read m now b b' :
  version m = COOLDOWN_VERSION -> now < expires_at m ->
  read_cooldown_at_with (Marker m) now b b' = (Ok (Some m), Marker m).
Proof.
  intros Hv He. unfold read_cooldown_at_with. rewrite Hv, Z.eqb_refl. simpl.
  unfold is_active_at. by rewrite (proj2 (Z.ltb_lt _ _) He).
Qed.

Lemma month_end_later `{CalendarLaws} now : now < month_end now.
Proof.
  unfold month_end. destruct (cal_first_of _ _) as [t|] eqn:E.
  - by apply cal_next_month_later.
  - unfold days_ns, NS. lia.
Qed.

(** ** Claims *)

(** A second trip never cuts a live hold-off short.  Writing over a marker
    that is in force publishes one that expires no earlier and was created no
    later than both, and it is in force wherever either of them was. *)
Theorem write_never_shortens (cur marker : HostCooldown) (now : Z)
    (Hcur : version cur = COOLDOWN_VERSION /\ now < expires_at cur)
    (Hver : version marker = 0 \/ version marker = COOLDOWN_VERSION) :
  exists out, write_cooldown (Marker cur) marker now true = (Ok out, Marker out) /\
    expires_at out = Z.max (expires_at cur) (expires_at marker) /\
    created_at out = Z.min (created_at cur) (created_at marker) /\
    (forall t b, t < expires_at cur \/ t < expires_at marker ->
       cooldown_active (Marker out) t b = true).
Proof.
  destruct Hcur as [Hv Hl]. exists (merged_marker (Marker cur) marker now). split; [done|].
  pose proof (merged_marker_version (Marker cur) marker now Hver) as Hmv.
  assert (expires_at (merged_marker (Marker cur) marker now) =
            Z.max (expires_at cur) (expires_at marker) /\
          created_at (merged_marker (Marker cur) marker now) =
            Z.min (created_at cur) (created_at marker)) as [He Hc].
  { unfold merged_marker. rewrite live_read by done. simpl.
    destruct (Z.ltb_spec (expires_at marker) (expires_at cur)),
      (Z.ltb_spec (created_at cur) (created_at marker)); lia. }
  split; [done|]. split; [done|]. intros t b Ht.
  unfold cooldown_active, read_cooldown_at. by rewrite live_read by (try done; lia).
Qed.

Definition demo_marker (created expires : Z) : HostCooldown :=
  mkCooldown COOLDOWN_VERSION REASON_MONTHLY_CAP None None None created expires.

Lemma write_never_shortens_witness :
  exists out, write_cooldown (Marker (demo_marker 10 900)) (demo_marker 50 500) 60 true = (Ok out, Marker out)
    /\ expires_at out = 900 /\ created_at out = 10.
Proof.
  destruct (write_never_shortens (demo_marker 10 900) (demo_marker 50 500) 60)
    as (out & H1 & H2 & H3 & _).
  - split; [reflexivity|simpl; lia].
  - right. reflexivity.
  - exists out. split; [exact H1|]. split; [rewrite H2; reflexivity|rewrite H3; reflexivity].
Defined.

(** A trip of the monthly cap parks the host for the rest of the month and
    no longer than the marker says: whatever was at the path, after the write
    every reader at an instant before the end of the month sees the cooldown,
    and a reader at or after its expiry does not and removes the file. *)
Theorem trip_parks_until_month_end `{CalendarLaws} (file : MarkerFile) (limit spent : f64)
    (now now' : Z) :
  exists out, trip_monthly_cap_cooldown file limit spent now now' true = (Ok out, Marker out) /\
    now < month_end now <= expires_at out /\
    (forall t b, t < month_end now -> cooldown_active (Marker out) t b = true) /\
    (forall t, expires_at out <= t -> read_cooldown_at (Marker out) t true = (Ok None, Missing)).
Proof.
  exists (merged_marker file (monthly_marker limit spent now) now'). split; [done|].
  pose proof (merged_marker_version file (monthly_marker limit spent now) now' ltac:(by right)) as Hv.
  pose proof (merged_marker_extends file (monthly_marker limit spent now) now') as [He _].
  pose proof (month_end_later now). change (expires_at (monthly_marker limit spent now))
    with (month_end now) in He.
  split; [done|]. split.
  - intros t b Ht. unfold cooldown_active, read_cooldown_at. by rewrite live_read by (try done; lia).
  - intros t Ht. unfold read_cooldown_at, read_cooldown_at_with. rewrite Hv, Z.eqb_refl. simpl.
    unfold is_active_at. by rewrite (proj2 (Z.ltb_ge _ _) Ht).
Qed.

Lemma trip_parks_until_month_end_witness :
  exists out, @trip_monthly_cap_cooldown gregorian Corrupt f64_zero f64_zero nov_2026 nov_2026 true =
    (Ok out, Marker out) /\
  cooldown_active (Marker out) (nov_2026 + days_ns 20) true = true.
Proof.
  destruct (@trip_parks_until_month_end gregorian gregorian_laws Corrupt f64_zero f64_zero nov_2026 nov_2026)
    as (out & E & _ & Hl & _).
  exists out. split; [exact E|]. apply Hl. vm_compute. reflexivity.
Defined.
