(* ===== verification/Budget.v ===== *)
(** The pre-call budget gate (crates/zoder-core/src/budget.rs) and the host
    marker it keeps in step (the hook of host_cooldown.rs).

    The month-to-date read is the value its closure would return; messages are
    the data they print. *)
From S2P Require Import Prelude F64 Clock Pricing HostCooldown.
Local Open Scope Z_scope.

(** [estimate_tokens] of a text of [n] characters. *)
Definition estimate_tokens (n : Z) : Z := if n =? 0 then 0 else Z.max 1 ((n + 3) / 4).

Record Budget := mkBudget {
  max_cost_per_call_usd : option f64;
  monthly_cap_usd : option f64;
  est_output_tokens : Z
}.

(** One reason of a decline. *)
Inductive Reason :=
| OverPerCall (estimate cap : f64)
| OverMonthly (estimate after cap already : f64)
| NoRate (model : string) (per_call_cap : option f64)
| LedgerUnreadable (e : string)
| EvaluationFailed (e : string).

Inductive BudgetVerdict := WithinBudget | Confirm (message : list Reason).

Inductive TrippedCap := PerCall | Monthly.
#[export] Instance TrippedCap_eq_dec : EqDecision TrippedCap.
Proof. solve_decision. Defined.

Record BudgetDecline := mkDecline {
  message : list Reason;
  tripped : option TrippedCap;
  decline_limit_usd : option f64;
  decline_spent_usd : option f64
}.

(** [BudgetDecline::monthly_cap_tripped] *)
Definition monthly_cap_tripped (d : BudgetDecline) : bool := bool_decide (tripped d = Some Monthly).
Arguments monthly_cap_tripped : simpl never.

(** [Budget::evaluate_decline] *)
Definition evaluate_decline (b : Budget) (estimate_usd month_spent_usd : f64) :
    result (option BudgetDecline) string :=
  if (estimate_usd <=? f64_zero)%f64 then Ok None
  else
    let per_call :=
      match max_cost_per_call_usd b with
      | Some cap => if (estimate_usd >? cap)%f64 then [OverPerCall estimate_usd cap] else []
      | None => []
      end in
    let monthly :=
      match monthly_cap_usd b with
      | Some cap =>
          let after := (month_spent_usd + estimate_usd)%f64 in
          if (after >? cap)%f64 then [OverMonthly estimate_usd after cap month_spent_usd] else []
      | None => []
      end in
    match per_call ++ monthly with
    | [] => Ok None
    | reasons =>
        let tripped := match monthly, per_call with
                       | _ :: _, _ => Some Monthly
                       | [], _ :: _ => Some PerCall
                       | [], [] => None
                       end in
        let '(limit_usd, spent_usd) := match tripped with
                                       | Some Monthly => (monthly_cap_usd b, Some month_spent_usd)
                                       | Some PerCall => (max_cost_per_call_usd b, None)
                                       | None => (None, None)
                                       end in
        Ok (Some (mkDecline reasons tripped limit_usd spent_usd))
    end.

(** [Budget::evaluate] *)
Definition evaluate (b : Budget) (estimate_usd month_spent_usd : f64) : BudgetVerdict :=
  match evaluate_decline b estimate_usd month_spent_usd with
  | Ok (Some decline) => Confirm (message decline)
  | Ok None => WithinBudget
  | Err _ => WithinBudget
  end.

Section Gate.
Context `{Calendar}.
(** The price list shipped with the program. *)
Variable bundled : list (string * ModelPrice).

(** [Budget::evaluate_call_decline] *)
Definition evaluate_call_decline (b : Budget) (pricing : PricingCatalog) (model : string)
    (tokens_in tokens_out cache_hit_tokens : Z) (ts : option Z) (month_spent : result f64 string) :
    result (option BudgetDecline) string :=
  match classify_cost_with_cache bundled pricing model tokens_in tokens_out cache_hit_tokens ts with
  | VFree => Ok None
  | VUnknown => Ok (Some (mkDecline [NoRate model (max_cost_per_call_usd b)] None None None))
  | Priced estimate_usd =>
      match month_spent with
      | Err e => Ok (Some (mkDecline [LedgerUnreadable e] None None None))
      | Ok month_spent_usd => evaluate_decline b estimate_usd month_spent_usd
      end
  end.

(** [Budget::evaluate_call_with_cache] *)
Definition evaluate_call_with_cache (b : Budget) (pricing : PricingCatalog) (model : string)
    (tokens_in tokens_out cache_hit_tokens : Z) (ts : option Z) (month_spent : result f64 string) :
    BudgetVerdict :=
  match evaluate_call_decline b pricing model tokens_in tokens_out cache_hit_tokens ts month_spent with
  | Ok (Some decline) => Confirm (message decline)
  | Ok None => WithinBudget
  | Err _ => WithinBudget
  end.

(** [Budget::evaluate_call] *)
Definition evaluate_call (b : Budget) (pricing : PricingCatalog) (model : string)
    (tokens_in tokens_out : Z) (ts : option Z) (month_spent : result f64 string) : BudgetVerdict :=
  evaluate_call_with_cache b pricing model tokens_in tokens_out 0 ts month_spent.

(** [decline_to_verdict] *)
Definition decline_to_verdict (r : result (option BudgetDecline) string) :
    BudgetVerdict * option (option BudgetDecline) :=
  match r with
  | Ok decline => (match decline with Some d => Confirm (message d) | None => WithinBudget end,
                   Some decline)
  | Err e => (Confirm [EvaluationFailed e], None)
  end.

(** What the environment does to the marker's write and removal. *)
Record Io := mkIo { write_ok : bool; remove_ok : bool; write_now : Z }.

(** [note_budget_decline] (host_cooldown.rs) *)
Definition note_budget_decline (file : option MarkerFile) (decline : option BudgetDecline) (now : Z)
    (io : Io) : result (option HostCooldown) IoError * option MarkerFile :=
  match file with
  | None => (Ok None, None)
  | Some f =>
      match opt_filter monthly_cap_tripped decline with
      | None => (Ok None, Some f)
      | Some d =>
          let limit := default f64_zero (decline_limit_usd d) in
          let spent := default f64_zero (decline_spent_usd d) in
          let '(r, f') := trip_monthly_cap_cooldown f limit spent now (write_now io) (write_ok io) in
          (match r with Ok m => Ok (Some m) | Err e => Err e end, Some f')
      end
  end.

(** [Budget::sync_host_cooldown] *)
Definition sync_host_cooldown (file : MarkerFile) (decline : option BudgetDecline) (now : Z)
    (io : Io) : result (option HostCooldown) IoError * MarkerFile :=
  if default false (monthly_cap_tripped <$> decline) then
    let '(r, f') := note_budget_decline (Some file) decline now io in (r, default file f')
  else match decline with
       | None => let '(r, f') := clear_cooldown file (remove_ok io) in
                 (match r with Ok _ => Ok None | Err e => Err e end, f')
       | Some _ => (Ok None, file)
       end.

(** [Budget::sync_host_cooldown_or_warn] keeps the file and drops the error. *)
Definition sync_or_warn (file : MarkerFile) (decline : option BudgetDecline) (now : Z) (io : Io) :
    MarkerFile := snd (sync_host_cooldown file decline now io).

(** [Budget::evaluate_call_with_host_cooldown]; [clock] is [Utc::now()]. *)
Definition evaluate_call_with_host_cooldown (b : Budget) (file : MarkerFile)
    (pricing : PricingCatalog) (model : string) (tokens_in tokens_out cache_hit_tokens : Z)
    (ts : option Z) (month_spent : result f64 string) (clock : Z) (io : Io) :
    BudgetVerdict * MarkerFile :=
  let now := default clock ts in
  let is_free :=
    match classify_cost_with_cache bundled pricing model tokens_in tokens_out cache_hit_tokens ts with
    | VFree => true | _ => false end in
  let '(verdict, decision) := decline_to_verdict
    (evaluate_call_decline b pricing model tokens_in tokens_out cache_hit_tokens ts month_spent) in
  (verdict, match decision with
            | Some None => if is_free then file else sync_or_warn file None now io
            | Some (Some d) => sync_or_warn file (Some d) now io
            | None => file
            end).

(** [Budget::evaluate_with_host_cooldown] *)
Definition evaluate_with_host_cooldown (b : Budget) (file : MarkerFile)
    (estimate_usd month_spent_usd : f64) (now : Z) (io : Io) : BudgetVerdict * MarkerFile :=
  let '(verdict, decision) := decline_to_verdict (evaluate_decline b estimate_usd month_spent_usd) in
  (verdict, match decision with
            | Some None => if (estimate_usd <=? f64_zero)%f64 then file
                           else sync_or_warn file None now io
            | Some (Some d) => sync_or_warn file (Some d) now io
            | None => file
            end).
End Gate.

(** ** Lemmas *)

(** A decision on two numbers, cap by cap. *)
Definition over_per_call (b : Budget) (estimate : f64) : bool :=
  match max_cost_per_call_usd b with Some cap => (estimate >? cap)%f64 | None => false end.
Definition over_monthly (b : Budget) (estimate spent : f64) : bool :=
  match monthly_cap_usd b with Some cap => (spent + estimate >? cap)%f64 | None => false end.

Lemma evaluate_decline_spec b e s :
  exists o, evaluate_decline b e s = Ok o /\
  match o with
  | None => (e <=? f64_zero)%f64 = true \/ over_per_call b e = false /\ over_monthly b e s = false
  | Some d => (e <=? f64_zero)%f64 = false /\ message d <> [] /\
      (over_monthly b e s = true /\ tripped d = Some Monthly /\
         decline_limit_usd d = monthly_cap_usd b /\ decline_spent_usd d = Some s \/
       over_monthly b e s = false /\ over_per_call b e = true /\ tripped d = Some PerCall)
  end.
Proof.
  exists (match evaluate_decline b e s with Ok o => o | Err _ => None end).
  unfold evaluate_decline, over_per_call, over_monthly.
  destruct (e <=? f64_zero)%f64; [split; [done|by left]|].
  destruct (max_cost_per_call_usd b) as [c1|]; [destruct (e >? c1)%f64|];
  (destruct (monthly_cap_usd b) as [c2|]; [destruct (s + e >? c2)%f64|]); simpl;
  (split; [reflexivity|]); naive_solver.
Qed.

Lemma sync_or_warn_none `{Calendar} file now io :
  sync_or_warn file None now io = if remove_ok io then Missing else file.
Proof. unfold sync_or_warn, sync_host_cooldown, clear_cooldown. simpl. by destruct file, (remove_ok io). Qed.

Lemma sync_or_warn_some `{Calendar} file d now io :
  sync_or_warn file (Some d) now io =
    if monthly_cap_tripped d && write_ok io
    then Marker (merged_marker file (monthly_marker (default f64_zero (decline_limit_usd d))
                   (default f64_zero (decline_spent_usd d)) now) (write_now io))
    else file.
Proof.
  unfold sync_or_warn, sync_host_cooldown, note_budget_decline. cbn [fmap option_fmap option_map default opt_filter].
  destruct (monthly_cap_tripped d) eqn:E; [|done].
  unfold trip_monthly_cap_cooldown, write_cooldown. by destruct (write_ok io).
Qed.

(** ** Claims *)

(** The two-number gate declines exactly the calls it should.  A call
    passes if and only if its estimate is not positive or fits every
    configured cap; a decline names its reasons, blames the monthly cap
    whenever that one is exceeded, with the numbers that exceeded it, and the
    per-call cap otherwise. *)
Theorem evaluate_decline_exact (b : Budget) (estimate spent : f64) :
  (evaluate b estimate spent = WithinBudget <->
   (estimate <=? f64_zero)%f64 = true \/
   over_per_call b estimate = false /\ over_monthly b estimate spent = false) /\
  (forall d, evaluate_decline b estimate spent = Ok (Some d) ->
     message d <> [] /\
     (monthly_cap_tripped d = true <-> over_monthly b estimate spent = true) /\
     (over_monthly b estimate spent = true ->
        decline_limit_usd d = monthly_cap_usd b /\ decline_spent_usd d = Some spent) /\
     (monthly_cap_tripped d = false -> tripped d = Some PerCall)).
Proof.
  unfold evaluate, monthly_cap_tripped.
  destruct (evaluate_decline_spec b estimate spent) as (o & -> & Ho). split.
  - destruct o as [d|]; [|naive_solver]. split; [done|].
    intros Hw. exfalso. destruct Ho as (H0 & _ & Ho). destruct Hw as [Hw|[Hw1 Hw2]]; [congruence|].
    destruct Ho as [(H1 & _)|(_ & H1 & _)]; congruence.
  - intros d [= ->]. destruct Ho as (_ & Hm & [(H1 & H2 & H3 & H4)|(H1 & H2 & H3)]).
    + rewrite H2. rewrite bool_decide_true by done. naive_solver.
    + rewrite H3. rewrite bool_decide_false by done. split; [done|]. split; [by rewrite H1|].
      split; [congruence|done].
Qed.

(** C3: the catalog-aware gate fails closed.  A model without a rate, a cost
    that cannot be computed and a ledger that cannot be read are all
    confirmed with the user, none of them blames a cap, and none of them
    touches the host marker. *)
Theorem gate_fails_closed `{Calendar} bundled (b : Budget) (file : MarkerFile)
    (pricing : PricingCatalog) (model : string) (tin tout hits : Z) (ts : option Z)
    (month_spent : result f64 string) (clock : Z) (io : Io)
    (Hbad : classify_cost_with_cache bundled pricing model tin tout hits ts = VUnknown \/
            (exists v, classify_cost_with_cache bundled pricing model tin tout hits ts = Priced v) /\
            is_ok month_spent = false) :
  exists d, evaluate_call_decline bundled b pricing model tin tout hits ts month_spent = Ok (Some d) /\
    tripped d = None /\ message d <> [] /\
    evaluate_call_with_host_cooldown bundled b file pricing model tin tout hits ts month_spent clock io
      = (Confirm (message d), file).
Proof.
  unfold evaluate_call_with_host_cooldown, evaluate_call_decline.
  destruct Hbad as [-> | [[v ->] Hm]]; [|destruct month_spent as [m|e]; [done|]];
    (eexists; split; [reflexivity|]; split; [reflexivity|]; split; [done|]);
    simpl; by rewrite sync_or_warn_some.
Qed.

Lemma gate_fails_closed_witness :
  exists d, @evaluate_call_decline gregorian [] (mkBudget None (Some (f64_of_Z 10)) 1024)
      catalog_default "custom" 10 10 0 None (Ok f64_zero) = Ok (Some d) /\ tripped d = None.
Proof.
  destruct (@gate_fails_closed gregorian [] (mkBudget None (Some (f64_of_Z 10)) 1024) Missing
    catalog_default "custom" 10 10 0 None (Ok f64_zero) 0 (mkIo true true 0)
    (or_introl eq_refl)) as (d & H1 & H2 & _).
  exists d. split; [exact H1|exact H2].
Defined.

(** The gate keeps the host marker in step with what it observed.  The file
    changes only on a monthly trip, which publishes a merged monthly marker,
    or on a priced call that fits, which removes it; a free call, a per-call
    trip and a failed evaluation leave it, and so does an estimate that is not
    positive in the two-number form. *)
Theorem marker_discipline `{Calendar} bundled (b : Budget) (file : MarkerFile)
    (pricing : PricingCatalog) (model : string) (tin tout hits : Z) (ts : option Z)
    (month_spent : result f64 string) (clock : Z) (io : Io) (e s : f64) (now : Z) :
  (let '(verdict, file') := evaluate_call_with_host_cooldown bundled b file pricing model tin tout hits
                             ts month_spent clock io in
   file' <> file ->
   exists v spent, month_spent = Ok spent /\
     classify_cost_with_cache bundled pricing model tin tout hits ts = Priced v /\
     (over_monthly b v spent = true /\ (exists m, verdict = Confirm m) /\
        file' = Marker (merged_marker file (monthly_marker (default f64_zero (monthly_cap_usd b)) spent
                          (default clock ts)) (write_now io)) \/
      verdict = WithinBudget /\ file' = Missing)) /\
  (let '(verdict2, file2) := evaluate_with_host_cooldown b file e s now io in
   file2 <> file ->
   over_monthly b e s = true /\ (exists m, verdict2 = Confirm m) \/
   verdict2 = WithinBudget /\ file2 = Missing /\ (e <=? f64_zero)%f64 = false).
Proof.
  unfold evaluate_call_with_host_cooldown, evaluate_call_decline, evaluate_with_host_cooldown.
  assert (forall e s, match decline_to_verdict (evaluate_decline b e s) with
    | (v, Some None) => v = WithinBudget
    | (v, Some (Some d)) => v = Confirm (message d) /\
        (monthly_cap_tripped d = true -> over_monthly b e s = true /\
           decline_limit_usd d = monthly_cap_usd b /\ decline_spent_usd d = Some s)
    | (_, None) => False end) as Hd.
  { clear. intros e s. destruct (evaluate_decline_spec b e s) as (o & -> & Ho). simpl.
    destruct o as [d|]; [|done]. split; [done|]. unfold monthly_cap_tripped.
    rewrite bool_decide_eq_true. naive_solver congruence. }
  split.
  - destruct (classify_cost_with_cache _ _ _ _ _ _ _) as [v| |]; simpl; [|done|by rewrite sync_or_warn_some].
    destruct month_spent as [spent|err]; simpl; [|by rewrite sync_or_warn_some].
    specialize (Hd v spent). destruct (decline_to_verdict _) as [verdict [[d|]|]]; [| |done].
    + destruct Hd as [-> Hd]. rewrite sync_or_warn_some. destruct (monthly_cap_tripped d); [|done].
      destruct (Hd eq_refl) as (H1 & -> & ->). destruct (write_ok io); simpl; [|done].
      intros _. exists v, spent. split; [done|]. split; [done|]. left. eauto.
    + subst verdict. rewrite sync_or_warn_none. destruct (remove_ok io); [|done]. intros _. eauto 10.
  - specialize (Hd e s). destruct (decline_to_verdict _) as [verdict [[d|]|]]; [| |done].
    + destruct Hd as [-> Hd]. rewrite sync_or_warn_some. destruct (monthly_cap_tripped d); [|done].
      destruct (Hd eq_refl) as (H1 & _). left. eauto.
    + subst verdict. destruct (e <=? f64_zero)%f64; [done|]. rewrite sync_or_warn_none.
      destruct (remove_ok io); [|done]. by right.
Qed.

(** A model priced on its output only, in a call without tokens. *)
Definition out_only : PricingCatalog :=
  mkCatalog false None "" None None ""
    [("m", mkPrice f64_zero f64_zero (f64_of_Z 5) f64_zero f64_zero f64_zero "" None None)]%string
    f64_zero "".
Definition live_marker : MarkerFile :=
  Marker (mkCooldown COOLDOWN_VERSION REASON_MONTHLY_CAP None None None 0 1000).

(** The catalog-aware gate clears a live marker on a call it priced at $0.
    Such a call is not the free verdict the guard excludes, and its estimate
    is accepted before the month-to-date spend is compared with the cap, so
    the marker goes although the recorded spend is over the cap; the
    two-number form with the same numbers keeps it. *)
Theorem zero_priced_call_clears_marker :
  let b := mkBudget None (Some (f64_of_Z 10)) 0 in
  let spent := f64_of_Z 50 in
  let io := mkIo true true 100 in
  @evaluate_call_with_host_cooldown gregorian [] b live_marker out_only "m" 7 0 0 None (Ok spent) 100 io
    = (WithinBudget, Missing) /\
  over_monthly b f64_zero spent = true /\
  @evaluate_with_host_cooldown gregorian b live_marker f64_zero spent 100 io
    = (WithinBudget, live_marker).
Proof. vm_compute. repeat split. Qed.
