(* ===== verification/Ledger.v ===== *)
(** The spend ledger as a file of bytes (crates/zoder-core/src/ledger.rs): the
    line reader, the strict read, the per-month fold with its sidecar
    checkpoint, the month-to-date total and the rollups.

    A file is the list of its bytes.  [serde_json::from_slice::<Entry>] is the
    parameter [parse].  The reservations that rewrite slots of the file are in
    Reservation.v. *)
From S2P Require Import Prelude F64 Clock.
Local Open Scope Z_scope.

(** ** Entries *)

Definition MAX_LEDGER_LINE_BYTES : Z := 16 * 1024 * 1024.
Definition BILLABLE_RESERVATION_BYTES : Z := 4 * 1024.
Definition LEGACY_RESERVATION_BYTES : Z := 64 * 1024.
Definition LEGACY_INFLIGHT_GRACE_S : Z := 3600.
Definition STALE_RESERVATION_TRIM_S : Z := 6 * 3600.
Definition CHECKPOINT_VERSION : Z := 2.
Definition CHECKPOINT_FINGERPRINT_BYTES : Z := 64 * 1024.

Definition RESERVATION_PROVIDER : string := "__zoder_reservation__".
Definition PREPARED_RESERVATION_MODEL : string := "__zoder_billable_p__".
Definition ARMED_RESERVATION_MODEL : string := "__zoder_billable_a__".
Definition UNKNOWN_COST_RESERVATION_MODEL : string := "__zoder_billable_u__".

Record FinOpsTags := mkTags {
  tag_caller : option string;
  tag_task : option string;
  tag_tier : option string;
  cache_hit_ratio : option f64;
  cache_hit_tokens : option Z
}.
Definition tags_default : FinOpsTags := mkTags None None None None None.

Record Entry := mkEntry {
  ts_utc : Z;
  e_provider : string;
  e_model : string;
  e_host : string;
  tokens_in : Z;                            (* u64 *)
  tokens_out : Z;                           (* u64 *)
  cost_usd : f64;
  cost_unknown : bool;
  calls : Z;                                (* u64 *)
  violation : option string;
  e_tags : FinOpsTags;
  e_billing : option string;
  estimated_cost_usd : option f64
}.

(** [Entry::is_metered] *)
Definition is_metered (e : Entry) : bool :=
  negb (bool_decide (e_billing e = Some "free"%string) ||
        bool_decide (e_billing e = Some "subscription"%string)).

(** [host_of_model], [Entry::effective_host] *)
Definition host_of_model (model : string) : string :=
  match split_once "/" model with Some (h, _) => h | None => EmptyString end.
Definition effective_host (e : Entry) : string :=
  if str_is_empty (e_host e) then host_of_model (e_model e) else e_host e.

(** [entry_numbers_valid] *)
Definition entry_numbers_valid (e : Entry) : bool :=
  (0 <? calls e) && f64_is_finite (cost_usd e) && (f64_zero <=? cost_usd e)%f64 &&
  match cache_hit_ratio (e_tags e) with
  | None => true
  | Some v => f64_is_finite v && (f64_zero <=? v)%f64 && (v <=? f64_of_Z 1)%f64
  end.

(** [is_unsettled_reservation] *)
Definition is_unsettled_reservation (e : Entry) : bool :=
  bool_decide (e_provider e = RESERVATION_PROVIDER) &&
  (bool_decide (e_model e = PREPARED_RESERVATION_MODEL) ||
   bool_decide (e_model e = ARMED_RESERVATION_MODEL)).

(** [is_stale_armed_reservation] *)
Definition is_stale_armed_reservation (e : Entry) (now : Z) : bool :=
  bool_decide (e_provider e = RESERVATION_PROVIDER) &&
  bool_decide (e_model e = ARMED_RESERVATION_MODEL) &&
  (STALE_RESERVATION_TRIM_S <=? num_seconds (now - ts_utc e)).

(** [is_live_reservation] *)
Definition is_live_reservation (e : Entry) (now : Z) : bool :=
  if negb (bool_decide (e_provider e = RESERVATION_PROVIDER)) then false
  else if bool_decide (e_model e = PREPARED_RESERVATION_MODEL) then true
  else if bool_decide (e_model e = ARMED_RESERVATION_MODEL)
       then negb (is_stale_armed_reservation e now)
  else false.

(** [is_reservation_slot_len] *)
Definition is_reservation_slot_len (bytes : Z) : bool :=
  (bytes =? BILLABLE_RESERVATION_BYTES) || (bytes =? LEGACY_RESERVATION_BYTES).

(** ** Lines *)

Definition NL : ascii := "010"%char.
Definition CR : ascii := "013"%char.
Definition SP : ascii := " "%char.
(** [u8::is_ascii_whitespace] *)
Definition is_ascii_ws (c : ascii) : bool :=
  let n := Ascii.nat_of_ascii c in
  (n =? 32)%nat || (n =? 9)%nat || (n =? 10)%nat || (n =? 12)%nat || (n =? 13)%nat.

(** The lines of the bytes, each with its terminator; [cur] is the current
    line, reversed. *)
Fixpoint split_lines (cur : list ascii) (bs : list ascii) : list (list ascii) :=
  match bs with
  | [] => match cur with [] => [] | _ => [rev cur] end
  | b :: bs => if bool_decide (b = NL) then rev (b :: cur) :: split_lines [] bs
               else split_lines (b :: cur) bs
  end.

(** [while matches!(buf.last(), ..) { buf.pop() }] for the characters [p]. *)
Definition pop_while (p : ascii -> bool) (l : list ascii) : list ascii :=
  rev ((fix go l := match l with c :: l' => if p c then go l' else l | [] => [] end) (rev l)).

Definition is_nl_cr (c : ascii) : bool := bool_decide (c = NL) || bool_decide (c = CR).
Definition is_nl_cr_sp (c : ascii) : bool := is_nl_cr c || bool_decide (c = SP).

Record LedgerLine := mkLine {
  line_no : Z;
  start : Z;
  raw_len : Z;
  terminated : bool;
  payload : list ascii
}.

Inductive LedgerError :=
| LineTooLong (line_no : Z)
| MalformedRows (lines : list Z)
| Overflow
| UnknownCost (calls : Z).

(** [LedgerLines::read_line] on a line that was found. *)
Definition read_line (off before : Z) (raw : list ascii) : result LedgerLine LedgerError :=
  let n := Z.of_nat (length raw) in
  if MAX_LEDGER_LINE_BYTES <? n then Err (LineTooLong (before + 1))
  else Ok (mkLine (before + 1) off n (bool_decide (last raw = Some NL)) (pop_while is_nl_cr raw)).

(** The iterator [LedgerLines] from byte [off] after [before] lines; it ends at
    the first error. *)
Fixpoint ledger_lines (off before : Z) (raws : list (list ascii)) :
    list (result LedgerLine LedgerError) :=
  match raws with
  | [] => []
  | raw :: raws =>
      match read_line off before raw with
      | Err e => [Err e]
      | Ok line => Ok line :: ledger_lines (u64_sat_add off (raw_len line)) (before + 1) raws
      end
  end.

Definition lines_from (file : list ascii) (off before : Z) : list (result LedgerLine LedgerError) :=
  ledger_lines off before (split_lines [] (drop (Z.to_nat off) file)).

Definition is_blank (payload : list ascii) : bool := forallb is_ascii_ws payload.

(** ** Month totals *)

Record MonthTotal := mkMonth {
  month_cost_usd : f64;
  overflowed : bool;
  unknown_cost_calls : Z
}.
Definition month_default : MonthTotal := mkMonth f64_zero false 0.

(** [MonthTotal::add] *)
Definition month_add (t : MonthTotal) (e : Entry) : MonthTotal :=
  if negb (is_metered e) then t
  else if cost_unknown e
       then mkMonth (month_cost_usd t) (overflowed t) (u64_sat_add (unknown_cost_calls t) (calls e))
  else if overflowed t then t
  else let next := (month_cost_usd t + cost_usd e)%f64 in
       if f64_is_finite next then mkMonth next (overflowed t) (unknown_cost_calls t)
       else mkMonth (month_cost_usd t) true (unknown_cost_calls t).

(** [MonthTotal::month_to_date] *)
Definition month_to_date (t : MonthTotal) : result f64 LedgerError :=
  if overflowed t then Err Overflow
  else if 0 <? unknown_cost_calls t then Err (UnknownCost (unknown_cost_calls t))
  else Ok (month_cost_usd t).

(** [months.entry(bucket).or_default().add(entry)] *)
Definition months_add (months : gmap string MonthTotal) (bucket : string) (e : Entry) :
    gmap string MonthTotal :=
  <[bucket := month_add (default month_default (months !! bucket)) e]> months.

(** ** The checkpoint *)

Record LedgerCheckpoint := mkCheckpoint {
  cp_version : Z;
  inode : Z;
  device : Z;
  offset : Z;
  lines : Z;
  head_fingerprint : Z;
  tail_fingerprint : Z;
  months : gmap string MonthTotal;
  waste : Z;
  legacy_reservation_newest : option Z;
  checksum : Z
}.
Definition checkpoint_default : LedgerCheckpoint := mkCheckpoint 0 0 0 0 0 0 0 ∅ 0 None 0.

(** [fnv1a] *)
Definition fnv1a (bytes : list ascii) : Z :=
  fold_left (fun hash b =>
    (Z.lxor hash (Z.of_nat (Ascii.nat_of_ascii b)) * 1099511628211) mod 18446744073709551616)
    bytes 14695981039346656037.

(** [prefix_fingerprints]; [None] when the file is shorter than the window. *)
Definition prefix_fingerprints (file : list ascii) (off : Z) : option (Z * Z) :=
  let window := Z.min off CHECKPOINT_FINGERPRINT_BYTES in
  let read start :=
    let buf := take (Z.to_nat window) (drop (Z.to_nat start) file) in
    if Z.of_nat (length buf) =? window then Some (fnv1a buf) else None in
  match read 0, read (off - window) with
  | Some h, Some t => Some (h, t)
  | _, _ => None
  end.

(** [slot_padding] *)
Definition slot_padding (line : LedgerLine) : Z :=
  if negb (is_reservation_slot_len (raw_len line)) then 0
  else Z.max 0 (raw_len line - (Z.of_nat (length (pop_while is_nl_cr_sp (payload line))) + 1)).

(** ** The owner of a reservation *)

Module Markers.
Definition MARKER_NOTE : string := "billable call reserved but not reconciled (".
(** [reservation_marker] *)
Definition strip_prefix (p s : string) : option string :=
  if String.prefix p s then Some (String.substring (String.length p) (String.length s) s) else None.
Definition is_hex (c : ascii) : bool :=
  let n := Ascii.nat_of_ascii c in
  ((48 <=? n) && (n <=? 57) || (65 <=? n) && (n <=? 70) || (97 <=? n) && (n <=? 102))%nat.
Definition strip_close (s : string) : option string :=
  let n := (String.length s - 1)%nat in
  match String.get n s with
  | Some c => if bool_decide (c = ")"%char) then Some (String.substring 0 n s) else None
  | None => None
  end.
Definition reservation_marker (e : Entry) : option string :=
  match mbind (M:=option) strip_close (mbind (M:=option) (strip_prefix MARKER_NOTE) (violation e)) with
  | None => None
  | Some m =>
      match strip_prefix "zoder-reservation-" m with
      | Some hex => if (String.length hex =? 32)%nat && forallb is_hex (String.list_ascii_of_string hex) then Some m
                    else None
      | None => None
      end
  end.
End Markers.
(** The lock file of a marker's owner: it may be gone, not open, free, or held
    by the process that reserved. *)
Inductive OwnerLock := NoOwnerFile | OwnerUnopened | OwnerFree | OwnerHeld.
(** [Ledger::prepared_owner_is_gone] *)
Definition prepared_owner_is_gone (owner : string -> OwnerLock) (e : Entry) (raw_len : Z) : bool :=
  if negb (is_reservation_slot_len raw_len) then false
  else match Markers.reservation_marker e with
       | None => false
       | Some m => match owner m with NoOwnerFile | OwnerFree => true | OwnerUnopened | OwnerHeld => false end
       end.

Section Read.
Context `{Calendar}.
(** [serde_json::from_slice::<Entry>] *)
Variable parse : list ascii -> option Entry.
(** [serde_json::to_vec] of a checkpoint. *)
Variable checkpoint_bytes : LedgerCheckpoint -> list ascii.

(** [LedgerCheckpoint::compute_checksum] *)
Definition compute_checksum (c : LedgerCheckpoint) : Z :=
  fnv1a (checkpoint_bytes (mkCheckpoint (cp_version c) (inode c) (device c) (offset c) (lines c)
    (head_fingerprint c) (tail_fingerprint c) (months c) (waste c) (legacy_reservation_newest c) 0)).

(** [LedgerCheckpoint::is_current_for]; [ident] is the file's inode and
    device. *)
Definition is_current_for (c : LedgerCheckpoint) (file : list ascii) (ident : Z * Z) : bool :=
  if negb (cp_version c =? CHECKPOINT_VERSION) || negb (compute_checksum c =? checksum c) then false
  else if negb (bool_decide (ident = (inode c, device c)))
          || (Z.of_nat (length file) <? offset c) then false
  else bool_decide (prefix_fingerprints file (offset c) =
                    Some (head_fingerprint c, tail_fingerprint c)).

(** A row the reader accepts. *)
Definition parse_valid (payload : list ascii) : option Entry :=
  opt_filter entry_numbers_valid (parse payload).

(** The loop variables of [fold_ledger]. *)
Record FoldState := mkFold {
  fs_months : gmap string MonthTotal;
  fs_next : LedgerCheckpoint;
  fs_settled : bool;
  fs_malformed : list Z
}.

(** The settled prefix extended over a line. *)
Definition advance (c : LedgerCheckpoint) (line : LedgerLine) (months' : gmap string MonthTotal)
    (legacy' : option Z) : LedgerCheckpoint :=
  mkCheckpoint (cp_version c) (inode c) (device c) (u64_sat_add (start line) (raw_len line))
    (line_no line) (head_fingerprint c) (tail_fingerprint c) months'
    (u64_sat_add (waste c) (slot_padding line)) legacy' (checksum c).

(** [next.legacy_reservation_newest] after a settled row. *)
Definition legacy_newest (c : LedgerCheckpoint) (line : LedgerLine) (e : Entry) : option Z :=
  if (raw_len line =? LEGACY_RESERVATION_BYTES) && bool_decide (e_provider e = RESERVATION_PROVIDER)
  then Some (match legacy_reservation_newest c with
             | Some newest => Z.max newest (ts_utc e)
             | None => ts_utc e
             end)
  else legacy_reservation_newest c.

(** One iteration of the loop of [fold_ledger]; [skip] is [skip_prepared]. *)
Definition fold_line (skip : Entry -> Z -> bool) (s : FoldState) (line : LedgerLine) : FoldState :=
  let settled := fs_settled s && terminated line in
  if is_blank (payload line) then
    mkFold (fs_months s)
      (if settled then advance (fs_next s) line (months (fs_next s))
                         (legacy_reservation_newest (fs_next s)) else fs_next s)
      settled (fs_malformed s)
  else match parse_valid (payload line) with
       | None => mkFold (fs_months s) (fs_next s) false (fs_malformed s ++ [line_no line])
       | Some entry =>
           let bucket := fmt_ym (ts_utc entry) in
           if is_unsettled_reservation entry then
             if bool_decide (e_model entry = PREPARED_RESERVATION_MODEL) && skip entry (raw_len line)
             then mkFold (fs_months s) (fs_next s) false (fs_malformed s)
             else mkFold (months_add (fs_months s) bucket entry) (fs_next s) false (fs_malformed s)
           else
             mkFold (months_add (fs_months s) bucket entry)
               (if settled
                then advance (fs_next s) line (months_add (months (fs_next s)) bucket entry)
                       (legacy_newest (fs_next s) line entry)
                else fs_next s) settled (fs_malformed s)
       end.

(** The loop; a read error ends it. *)
Fixpoint fold_lines (skip : Entry -> Z -> bool) (s : FoldState)
    (ls : list (result LedgerLine LedgerError)) : result FoldState LedgerError :=
  match ls with
  | [] => Ok s
  | Err e :: _ => Err e
  | Ok line :: ls => fold_lines skip (fold_line skip s line) ls
  end.

Record Fold := mkFolded {
  fold_months : gmap string MonthTotal;
  fold_next : LedgerCheckpoint;
  base_offset : option Z
}.

(** [fold_ledger] *)
Definition fold_ledger (file : list ascii) (base : option LedgerCheckpoint)
    (skip : Entry -> Z -> bool) : result Fold LedgerError :=
  let next := default checkpoint_default base in
  match fold_lines skip (mkFold (months next) next true []) (lines_from file (offset next) (lines next)) with
  | Err e => Err e
  | Ok s => match fs_malformed s with
            | [] => Ok (mkFolded (fs_months s) (fs_next s) (offset <$> base))
            | malformed => Err (MalformedRows malformed)
            end
  end.

(** [Fold::month_to_date_at] *)
Definition fold_month_to_date_at (f : Fold) (now : Z) : result f64 LedgerError :=
  match fold_months f !! fmt_ym now with
  | None => Ok f64_zero
  | Some t => month_to_date t
  end.

(** [Ledger::month_to_date_usd_at] on a ledger that exists: a prepared row whose
    owner is gone is left out. *)
Definition month_to_date_usd_at (file : list ascii) (base : option LedgerCheckpoint)
    (owner : string -> OwnerLock) (now : Z) : result f64 LedgerError :=
  match fold_ledger file base (prepared_owner_is_gone owner) with
  | Err e => Err e
  | Ok f => fold_month_to_date_at f now
  end.

(** The stamp of [Ledger::publish_checkpoint]: the checkpoint that reaches the
    sidecar, if the settled prefix grew and the file could be read. *)
Definition publish_checkpoint (file : list ascii) (ident : Z * Z) (f : Fold) :
    option LedgerCheckpoint :=
  let c := fold_next f in
  if bool_decide (base_offset f = Some (offset c)) then None
  else match prefix_fingerprints file (offset c) with
       | None => None
       | Some (head, tail) =>
           let unsigned := mkCheckpoint CHECKPOINT_VERSION ident.1 ident.2 (offset c) (lines c)
             head tail (months c) (waste c) (legacy_reservation_newest c) 0 in
           Some (mkCheckpoint CHECKPOINT_VERSION ident.1 ident.2 (offset c) (lines c) head tail
             (months c) (waste c) (legacy_reservation_newest c) (compute_checksum unsigned))
       end.

(** [read_entries] and the report of [entries_strict_from_file]: the accepted
    rows and the numbers of the malformed lines. *)
Fixpoint read_entries (ls : list (result LedgerLine LedgerError)) :
    result (list Entry * list Z) LedgerError :=
  match ls with
  | [] => Ok ([], [])
  | Err e :: _ => Err e
  | Ok line :: ls =>
      match read_entries ls with
      | Err e => Err e
      | Ok (es, bad) =>
          if is_blank (payload line) then Ok (es, bad)
          else match parse_valid (payload line) with
               | Some e => Ok (e :: es, bad)
               | None => Ok (es, line_no line :: bad)
               end
      end
  end.

(** [Ledger::entries_strict_from_file] *)
Definition entries_strict (file : list ascii) : result (list Entry) LedgerError :=
  match read_entries (lines_from file 0 0) with
  | Err e => Err e
  | Ok (es, []) => Ok es
  | Ok (_, bad) => Err (MalformedRows bad)
  end.

(** ** Rollups *)

Record Rollup := mkRollup {
  r_cost_usd : f64;
  r_tokens_in : Z;
  r_tokens_out : Z;
  r_calls : Z;
  unknown_cost_tokens : Z;
  r_unknown_cost_calls : Z;
  unknown_cost_rows : Z
}.
Definition rollup_default : Rollup := mkRollup f64_zero 0 0 0 0 0 0.

(** [add_cost] *)
Definition add_cost (total cost : f64) : result f64 LedgerError :=
  let next := (total + cost)%f64 in
  if f64_is_finite next then Ok next else Err Overflow.

(** [accumulate_rollup] *)
Definition accumulate_rollup (r : Rollup) (e : Entry) : result Rollup LedgerError :=
  if cost_unknown e then
    Ok (mkRollup (r_cost_usd r) (r_tokens_in r) (r_tokens_out r) (r_calls r)
          (u64_sat_add (unknown_cost_tokens r) (u64_sat_add (tokens_in e) (tokens_out e)))
          (u64_sat_add (r_unknown_cost_calls r) (calls e))
          (u64_sat_add (unknown_cost_rows r) 1))
  else match add_cost (r_cost_usd r) (cost_usd e) with
       | Err x => Err x
       | Ok cost =>
           Ok (mkRollup cost (u64_sat_add (r_tokens_in r) (tokens_in e))
                 (u64_sat_add (r_tokens_out r) (tokens_out e)) (u64_sat_add (r_calls r) (calls e))
                 (unknown_cost_tokens r) (r_unknown_cost_calls r) (unknown_cost_rows r))
       end.

(** [Ledger::entries_in] *)
Definition entries_in (file : list ascii) (since until : option Z) : result (list Entry) LedgerError :=
  match entries_strict file with
  | Err e => Err e
  | Ok es =>
      Ok (filterb (fun e => match until with Some u => ts_utc e <=? u | None => true end)
           (filterb (fun e => match since with Some s => s <=? ts_utc e | None => true end) es))
  end.

(** The loop of [rollup_in_filtered] and [by_model_filtered] on the entries in
    the window; [key] is the period bucket or the model. *)
Definition rollup_by (key : Entry -> string) (keep : Entry -> bool) (es : list Entry) :
    result (gmap string Rollup) LedgerError :=
  fold_left (fun acc e =>
    match acc with
    | Err x => Err x
    | Ok out =>
        match accumulate_rollup (default rollup_default (out !! key e)) e with
        | Err x => Err x
        | Ok r => Ok (<[key e := r]> out)
        end
    end) (filterb keep es) (Ok ∅).

(** [Ledger::by_model_filtered] *)
Definition by_model_filtered (file : list ascii) (since until : option Z) (keep : Entry -> bool) :
    result (gmap string Rollup) LedgerError :=
  match entries_in file since until with
  | Err e => Err e
  | Ok es => rollup_by e_model keep es
  end.

(** [month_to_date_from_entries], the full-scan oracle. *)
Definition month_to_date_from_entries (es : list Entry) (now : Z) : result f64 LedgerError :=
  let bucket := fmt_ym now in
  let rows := filterb is_metered
    (filterb (fun e => bool_decide (fmt_ym (ts_utc e) = bucket)) es) in
  match fold_left (fun acc e => match acc with Ok r => accumulate_rollup r e | Err x => Err x end)
          rows (Ok rollup_default) with
  | Err x => Err x
  | Ok r => if 0 <? r_unknown_cost_calls r then Err (UnknownCost (r_unknown_cost_calls r))
            else Ok (r_cost_usd r)
  end.

(** ** What the theorems are about *)

(** A line as [split_lines] makes them: no [NL] but the last character. *)
Definition proper_line (r : list ascii) : Prop :=
  exists body, (NL ∉ body) /\ r = body ++ [NL].

(** What a checkpoint says of the settled prefix, without its stamp. *)
Definition settled_view (c : LedgerCheckpoint) : Z * Z * gmap string MonthTotal * Z * option Z :=
  (offset c, lines c, months c, waste c, legacy_reservation_newest c).
Definition state_view (s : FoldState) :=
  (fs_months s, settled_view (fs_next s), fs_settled s, fs_malformed s).
Definition result_map {A B E} (f : A -> B) (r : result A E) : result B E :=
  match r with Ok a => Ok (f a) | Err e => Err e end.
Definition fold_view (f : Fold) := (fold_months f, settled_view (fold_next f)).

(** [Published p c]: the sidecar may hold [c] after reads of ledgers that had
    the settled prefix [p]; each read started from scratch or from an earlier
    sidecar of a prefix of the file. *)
Inductive Published : list ascii -> LedgerCheckpoint -> Prop :=
| published_full file ident skip f c :
    Z.of_nat (length file) <= U64_MAX ->
    fold_ledger file None skip = Ok f -> publish_checkpoint file ident f = Some c ->
    Published (take (Z.to_nat (offset c)) file) c
| published_resume p c0 file ident skip f c :
    Published p c0 -> p `prefix_of` file -> Z.of_nat (length file) <= U64_MAX ->
    fold_ledger file (Some c0) skip = Ok f -> publish_checkpoint file ident f = Some c ->
    Published (take (Z.to_nat (offset c)) file) c.

(** The settled prefix made of the lines [rs] folds to [c]. *)
Definition folds_to (rs : list (list ascii)) (c : LedgerCheckpoint) : Prop :=
  Forall proper_line rs /\ offset c = Z.of_nat (length (concat rs)) /\
  lines c = Z.of_nat (length rs) /\
  forall skip, fold_lines skip (mkFold ∅ checkpoint_default true []) (ledger_lines 0 0 rs) =
               Ok (mkFold (months c) c true []).

(** The month totals and the oracle, one row at a time. *)
Definition add_row (m : gmap string MonthTotal) (e : Entry) : gmap string MonthTotal :=
  months_add m (fmt_ym (ts_utc e)) e.

Definition mtd_step (acc : result Rollup LedgerError) (e : Entry) : result Rollup LedgerError :=
  match acc with Ok r => accumulate_rollup r e | Err x => Err x end.
Definition mtd_finish (acc : result Rollup LedgerError) : result f64 LedgerError :=
  match acc with
  | Err x => Err x
  | Ok r => if 0 <? r_unknown_cost_calls r then Err (UnknownCost (r_unknown_cost_calls r))
            else Ok (r_cost_usd r)
  end.

(** ** Lines of a file *)

Lemma split_lines_app cur (body rest : list ascii) :
  NL ∉ body -> split_lines cur (body ++ NL :: rest) = ((rev cur ++ body ++ [NL])%list) :: split_lines [] rest.
Proof.
  revert cur. induction body as [|b body IH]; intros cur Hb; cbn [split_lines app].
  - by rewrite bool_decide_eq_true_2.
  - apply not_elem_of_cons in Hb as [Hne Hb]. rewrite bool_decide_eq_false_2 by congruence.
    rewrite IH by done. simpl. by rewrite <- app_assoc.
Qed.

Lemma split_lines_concat rs rest :
  Forall proper_line rs -> split_lines [] (concat rs ++ rest) = rs ++ split_lines [] rest.
Proof.
  induction 1 as [|r rs [body [Hb ->]] _ IH]; simpl; [done|].
  rewrite <- !app_assoc. simpl. rewrite split_lines_app by done. simpl. by rewrite IH.
Qed.

Lemma concat_split_lines cur bs : concat (split_lines cur bs) = rev cur ++ bs.
Proof.
  revert cur. induction bs as [|b bs IH]; intros cur; simpl.
  - destruct cur; simpl; [done|by rewrite !app_nil_r].
  - case_bool_decide as E; simpl; [rewrite IH; simpl; subst; by rewrite <- app_assoc|].
    rewrite IH. simpl. by rewrite <- app_assoc.
Qed.

Lemma split_lines_elem cur bs r :
  NL ∉ cur -> r ∈ split_lines cur bs -> last r = Some NL -> proper_line r.
Proof.
  revert cur. induction bs as [|b bs IH]; intros cur Hcur Hr Hl; simpl in Hr.
  - destruct cur as [|c cur]; [by apply not_elem_of_nil in Hr|].
    apply list_elem_of_singleton in Hr as ->. simpl in Hl. rewrite last_snoc in Hl.
    apply not_elem_of_cons in Hcur as [? _]. congruence.
  - case_bool_decide as E.
    + apply elem_of_cons in Hr as [->|Hr].
      * subst. exists (rev cur). split; [|done].
        by rewrite list_elem_of_In, <- in_rev, <- list_elem_of_In.
      * apply (IH []); [apply not_elem_of_nil|done..].
    + apply (IH (b :: cur)); [|done..]. apply not_elem_of_cons. split; congruence || done.
Qed.

(** ** Resuming a fold *)

Lemma fold_line_view skip s1 s2 line :
  state_view s1 = state_view s2 ->
  state_view (fold_line skip s1 line) = state_view (fold_line skip s2 line).
Proof.
  destruct s1 as [m1 [] b1 l1], s2 as [m2 [] b2 l2]. unfold state_view, settled_view. simpl.
  intros [= -> -> -> -> -> -> -> ->]. unfold fold_line, legacy_newest, advance. simpl.
  by repeat case_match.
Qed.

Lemma fold_lines_view skip s1 s2 ls :
  state_view s1 = state_view s2 ->
  result_map state_view (fold_lines skip s1 ls) = result_map state_view (fold_lines skip s2 ls).
Proof.
  revert s1 s2. induction ls as [|[line|e] ls IH]; intros s1 s2 Hs; simpl; [by rewrite Hs| |done].
  by apply IH, fold_line_view.
Qed.

Lemma fold_lines_app skip s s1 rs1 rs2 off before :
  fold_lines skip s (ledger_lines off before rs1) = Ok s1 ->
  0 <= off -> off + Z.of_nat (length (concat rs1)) <= U64_MAX ->
  fold_lines skip s (ledger_lines off before (rs1 ++ rs2)) =
  fold_lines skip s1 (ledger_lines (off + Z.of_nat (length (concat rs1)))
                        (before + Z.of_nat (length rs1)) rs2).
Proof.
  revert s off before. induction rs1 as [|r rs1 IH]; intros s off before; simpl.
  { intros [= <-] _ _. by rewrite !Z.add_0_r. }
  unfold read_line. destruct (_ <? _) eqn:Hlen; simpl; [done|].
  rewrite length_app, Nat2Z.inj_add. intros Hf Ho Hle. assert (u64_sat_add off (Z.of_nat (length r)) = off + Z.of_nat (length r))
    as Hsat by ints. rewrite Hsat in *.
  rewrite (IH _ _ _ Hf) by lia. do 2 f_equal; lia.
Qed.

Lemma fold_line_unsettled skip s line :
  fs_settled s = false ->
  fs_settled (fold_line skip s line) = false /\ fs_next (fold_line skip s line) = fs_next s.
Proof. intros Hs. unfold fold_line. rewrite Hs. simpl. by repeat case_match. Qed.

Lemma fold_lines_unsettled skip s s' ls :
  fold_lines skip s ls = Ok s' -> fs_settled s = false -> fs_next s' = fs_next s.
Proof.
  revert s. induction ls as [|[line|e] ls IH]; intros s; simpl; [by intros [= ->]| |done].
  intros Hf Hs. destruct (fold_line_unsettled skip s line Hs) as [? <-]. by apply (IH _ Hf).
Qed.

(** A line that keeps the prefix settled. *)
Lemma fold_line_settled skip s line :
  fs_settled (fold_line skip s line) = true -> fs_malformed s = [] ->
  fs_months s = months (fs_next s) ->
  fs_settled s = true /\ terminated line = true /\
  (forall skip', fold_line skip' s line = fold_line skip s line) /\
  fs_malformed (fold_line skip s line) = [] /\
  fs_months (fold_line skip s line) = months (fs_next (fold_line skip s line)) /\
  offset (fs_next (fold_line skip s line)) = u64_sat_add (start line) (raw_len line) /\
  lines (fs_next (fold_line skip s line)) = line_no line.
Proof.
  unfold fold_line. intros Hs Hm Hmo.
  destruct (is_blank (payload line)); simpl in *.
  { destruct (fs_settled s), (terminated line); simpl in *; try done. }
  destruct (parse_valid (payload line)) as [e|]; [|done].
  destruct (is_unsettled_reservation e).
  { by destruct (_ && skip _ _). }
  simpl in *. destruct (fs_settled s), (terminated line); simpl in *; try done.
  repeat split; try done. by rewrite Hmo.
Qed.

Lemma fold_lines_malformed skip s s' ls :
  fold_lines skip s ls = Ok s' -> fs_malformed s' = [] -> fs_malformed s = [].
Proof.
  revert s. induction ls as [|[line|e] ls IH]; intros s; simpl; [by intros [= ->]| |done].
  intros Hf Hs. specialize (IH _ Hf Hs). unfold fold_line in IH.
  repeat case_match; simpl in IH; try done. by destruct (fs_malformed s).
Qed.

Lemma fold_settled_prefix skip rs s s' off before :
  fold_lines skip s (ledger_lines off before rs) = Ok s' ->
  fs_malformed s' = [] -> fs_settled s = true -> fs_months s = months (fs_next s) ->
  offset (fs_next s) = off -> lines (fs_next s) = before ->
  0 <= off -> off + Z.of_nat (length (concat rs)) <= U64_MAX ->
  exists rs1 rs2, rs = rs1 ++ rs2 /\ Forall (fun r => last r = Some NL) rs1 /\
    offset (fs_next s') = off + Z.of_nat (length (concat rs1)) /\
    lines (fs_next s') = before + Z.of_nat (length rs1) /\
    forall skip', fold_lines skip' s (ledger_lines off before rs1) =
                  Ok (mkFold (months (fs_next s')) (fs_next s') true []).
Proof.
  revert s off before. induction rs as [|r rs IH]; intros s off before; simpl.
  { intros [= <-] Hm Hse Hmo Ho Hl _ _. exists [], []. simpl. rewrite <- Hmo, <- Hm, <- Hse.
    repeat split; [constructor|lia|lia|]. intros _. by destruct s. }
  unfold read_line at 1. destruct (_ <? _) eqn:Hlen; simpl; [done|].
  set (line := mkLine _ _ _ _ _). rewrite length_app, Nat2Z.inj_add.
  intros Hf Hm Hse Hmo Ho Hl Hoff Hle.
  destruct (fs_settled (fold_line skip s line)) eqn:Hs'.
  - destruct (fold_line_settled skip s line Hs') as (_ & Ht & Hany & Hm1 & Hmo1 & Ho1 & Hl1);
      [|done|].
    { refine (fold_lines_malformed skip s s' (Ok line :: _) _ Hm). exact Hf. }
    simpl in Ho1, Hl1. assert (u64_sat_add off (Z.of_nat (length r)) = off + Z.of_nat (length r))
      as Hsat by ints. rewrite Hsat in *.
    destruct (IH _ _ _ Hf Hm Hs' Hmo1 Ho1 Hl1) as (rs1 & rs2 & -> & Hterm & Ho2 & Hl2 & Hall); [lia..|].
    exists (r :: rs1), rs2. simpl. unfold read_line. rewrite Hlen, length_app. fold line. simpl.
    rewrite Hsat. repeat split; [|lia|lia|].
    + constructor; [|done]. simpl in Ht. by apply bool_decide_eq_true in Ht.
    + intros skip'. by rewrite Hany, Hall.
  - exists [], (r :: rs). simpl. rewrite (fold_lines_unsettled _ _ _ _ Hf Hs').
    assert (fs_next (fold_line skip s line) = fs_next s) as ->.
    { revert Hs'. unfold fold_line. rewrite Hse. simpl. by repeat case_match. }
    repeat split; [constructor|lia|lia|]. intros _. f_equal.
    assert (fs_malformed s = []) by (refine (fold_lines_malformed skip s s' (Ok line :: _) _ Hm); exact Hf).
    destruct s; simpl in *. by subst.
Qed.

(** The settled prefix of a read that continues from [rs]. *)
Lemma folds_to_extend rs c skip rest s :
  folds_to rs c -> Z.of_nat (length (concat rs ++ rest)) <= U64_MAX ->
  fold_lines skip (mkFold (months c) c true [])
    (ledger_lines (offset c) (lines c) (split_lines [] rest)) = Ok s ->
  fs_malformed s = [] ->
  exists rs1 rest1, rest = concat rs1 ++ rest1 /\ folds_to (rs ++ rs1) (fs_next s).
Proof.
  intros (Hp & Ho & Hl & Hall) Hlen Hf Hm.
  pose proof (concat_split_lines [] rest) as Hrest. simpl in Hrest. rewrite length_app in Hlen.
  destruct (fold_settled_prefix skip _ _ s _ _ Hf Hm eq_refl eq_refl eq_refl eq_refl)
    as (rs1 & rs2 & Heq & Hterm & Ho1 & Hl1 & Hall1); [lia|rewrite Hrest; lia|].
  exists rs1, (concat rs2). split; [by rewrite <- Hrest, Heq, concat_app|].
  assert (Z.of_nat (length (concat rs1)) <= Z.of_nat (length rest)).
  { rewrite <- Hrest, Heq, concat_app, length_app. lia. }
  split; [|split; [|split]].
  - apply Forall_app. split; [done|]. apply Forall_forall. intros r Hr.
    apply (split_lines_elem [] rest); [apply not_elem_of_nil| |by eapply Forall_forall in Hterm].
    rewrite Heq. apply elem_of_app. by left.
  - rewrite Ho1, Ho, concat_app, length_app. lia.
  - rewrite Hl1, Hl, length_app. lia.
  - intros skip'. rewrite (fold_lines_app _ _ _ _ _ _ _ (Hall skip')) by lia.
    rewrite !Z.add_0_l, <- Ho, <- Hl. apply Hall1.
Qed.

Lemma folds_to_nil : folds_to [] checkpoint_default.
Proof. by repeat split. Qed.

Lemma publish_view file ident f c :
  publish_checkpoint file ident f = Some c -> settled_view c = settled_view (fold_next f).
Proof. unfold publish_checkpoint. repeat case_match; try done. by intros [= <-]. Qed.

Lemma fold_ledger_next file base skip f :
  fold_ledger file base skip = Ok f ->
  exists s, fold_lines skip (mkFold (months (default checkpoint_default base))
                               (default checkpoint_default base) true [])
              (lines_from file (offset (default checkpoint_default base))
                 (lines (default checkpoint_default base))) = Ok s /\
    fs_malformed s = [] /\ f = mkFolded (fs_months s) (fs_next s) (offset <$> base).
Proof.
  unfold fold_ledger. destruct (fold_lines _ _ _) as [s|] eqn:Hf; [|done].
  destruct (fs_malformed s) eqn:Hm; [|done]. intros [= <-]. by exists s.
Qed.

Lemma drop_concat (rs : list (list ascii)) rest n :
  n = Z.of_nat (length (concat rs)) -> drop (Z.to_nat n) (concat rs ++ rest) = rest.
Proof. intros ->. by rewrite Nat2Z.id, drop_app_length. Qed.

(** A checkpoint that agrees with the fold of [rs] resumes like it. *)
Lemma folds_to_resume rs c0 c skip rest :
  folds_to rs c -> settled_view c0 = settled_view c ->
  result_map state_view (fold_lines skip (mkFold (months c0) c0 true [])
    (lines_from (concat rs ++ rest) (offset c0) (lines c0))) =
  result_map state_view (fold_lines skip (mkFold (months c) c true [])
    (ledger_lines (offset c) (lines c) (split_lines [] rest))).
Proof.
  intros (_ & Ho & _) Hv. unfold lines_from.
  assert (offset c0 = offset c) as -> by (unfold settled_view in Hv; congruence).
  assert (lines c0 = lines c) as -> by (unfold settled_view in Hv; congruence).
  rewrite (drop_concat _ _ _ Ho). apply fold_lines_view. unfold state_view. simpl.
  rewrite Hv. by assert (months c0 = months c) as -> by (unfold settled_view in Hv; congruence).
Qed.

Lemma folds_to_scan rs c skip rest :
  folds_to rs c -> Z.of_nat (length (concat rs ++ rest)) <= U64_MAX ->
  fold_lines skip (mkFold ∅ checkpoint_default true []) (lines_from (concat rs ++ rest) 0 0) =
  fold_lines skip (mkFold (months c) c true [])
    (ledger_lines (offset c) (lines c) (split_lines [] rest)).
Proof.
  intros (Hp & Ho & Hl & Hall) Hlen. unfold lines_from. rewrite drop_0, split_lines_concat by done.
  rewrite length_app in Hlen. rewrite (fold_lines_app _ _ _ _ _ _ _ (Hall skip)) by lia.
  by rewrite !Z.add_0_l, <- Ho, <- Hl.
Qed.

Lemma result_map_Ok {A B E} (f : A -> B) (r : result A E) a r' :
  result_map f r = result_map f r' -> r = Ok a -> exists a', r' = Ok a' /\ f a = f a'.
Proof. intros Hr ->. destruct r'; simplify_eq/=. eauto. Qed.

Lemma folds_to_take rs c rest : folds_to rs c -> take (Z.to_nat (offset c)) (concat rs ++ rest) = concat rs.
Proof. intros (_ & -> & _). by rewrite Nat2Z.id, take_app_length. Qed.

(** Every published checkpoint is the fold of its prefix. *)
Lemma published_folds p c :
  Published p c -> exists rs c', p = concat rs /\ folds_to rs c' /\ settled_view c = settled_view c'.
Proof.
  induction 1 as [file ident skip f c Hlen Hf Hpub
                 |p c0 file ident skip f c _ (rs & c' & -> & Hc' & Hv) [rest ->] Hlen Hf Hpub].
  - apply fold_ledger_next in Hf as (s & Hs & Hm & ->). simpl in Hs.
    unfold lines_from in Hs. rewrite drop_0 in Hs.
    destruct (folds_to_extend [] _ _ file s folds_to_nil Hlen Hs Hm) as (rs & rest & -> & Hrs).
    apply publish_view in Hpub. simpl in Hpub.
    assert (offset c = offset (fs_next s)) as -> by (unfold settled_view in Hpub; congruence).
    exists rs, (fs_next s). by rewrite (folds_to_take _ _ _ Hrs).
  - apply fold_ledger_next in Hf as (s & Hs & Hm & ->). simpl in Hs.
    destruct (result_map_Ok _ _ _ _ (folds_to_resume _ _ _ skip rest Hc' Hv) Hs)
      as (s' & Hs' & Hview).
    unfold state_view in Hview. injection Hview as Hmo Hnext Hse Hmal.
    destruct (folds_to_extend _ _ _ rest s' Hc' Hlen Hs') as (rs1 & rest1 & -> & Hrs);
      [congruence|].
    apply publish_view in Hpub. simpl in Hpub.
    exists (rs ++ rs1), (fs_next s').
    assert (settled_view c = settled_view (fs_next s')) as Hv'
      by (rewrite Hpub; unfold settled_view; congruence).
    assert (offset c = offset (fs_next s')) as -> by (unfold settled_view in Hv'; congruence).
    by rewrite app_assoc, <- concat_app, (folds_to_take _ _ _ Hrs).
Qed.

(** ** The month total and the full scan *)

(** The entries the fold counts: a prepared row that is skipped is none. *)
Definition counted_entry (skip : Entry -> Z -> bool) (line : result LedgerLine LedgerError) : option Entry :=
  match line with
  | Err _ => None
  | Ok line =>
      if is_blank (payload line) then None
      else opt_filter (fun e => negb (is_unsettled_reservation e && (bool_decide (e_model e = PREPARED_RESERVATION_MODEL) && skip e (raw_len line))))
             (parse_valid (payload line))
  end.
Definition counted_entries (owner : string -> OwnerLock) (file : list ascii) : list Entry :=
  omap (counted_entry (prepared_owner_is_gone owner)) (lines_from file 0 0).

Lemma fold_lines_entries skip ls s :
  match read_entries ls with
  | Err e => fold_lines skip s ls = Err e
  | Ok (es, bad) => exists s', fold_lines skip s ls = Ok s' /\
      fs_months s' = fold_left add_row (omap (counted_entry skip) ls) (fs_months s) /\
      fs_malformed s' = fs_malformed s ++ bad
  end.
Proof.
  revert s. induction ls as [|[line|e] ls IH]; intros s; simpl.
  { exists s. by rewrite app_nil_r. }
  2: done.
  specialize (IH (fold_line skip s line)). unfold fold_line in *.
  destruct (read_entries ls) as [[es bad]|]; [|by repeat case_match].
  destruct IH as (s' & Hs' & Hmo & Hmal). destruct (is_blank (payload line)).
  { exists s'. by simpl in *. }
  destruct (parse_valid (payload line)) as [e|]; cbn [opt_filter].
  - exists s'. rewrite Hmo, Hmal. split; [done|].
    destruct (is_unsettled_reservation e); [|done]. by destruct (bool_decide _ && skip _ _).
  - exists s'. rewrite Hmo, Hmal. simpl. by rewrite <- app_assoc.
Qed.
Lemma counted_all skip ls es bad : read_entries ls = Ok (es, bad) -> (forall e n, skip e n = false) -> omap (counted_entry skip) ls = es.
Proof.
  intros Hr Hs. revert es bad Hr. induction ls as [|[line|e] ls IH]; intros es bad; simpl; [by intros [= <- _]| |done].
  destruct (read_entries ls) as [[es' bad']|]; [|done]. specialize (IH es' bad' eq_refl).
  destruct (is_blank (payload line)); [by intros [= <- _]|]. destruct (parse_valid (payload line)) as [e|]; cbn [opt_filter].
  - intros [= <- _]. rewrite Hs, !andb_false_r. cbn [negb mbind option_bind]. by rewrite <- IH.
  - by intros [= <- _].
Qed.

Lemma add_rows_lookup es (m : gmap string MonthTotal) bucket :
  default month_default (fold_left add_row es m !! bucket) =
  fold_left month_add (filterb (fun e => bool_decide (fmt_ym (ts_utc e) = bucket)) es)
    (default month_default (m !! bucket)).
Proof.
  revert m. induction es as [|e es IH]; intros m; simpl; [done|]. rewrite IH.
  case_bool_decide as E; simpl; unfold add_row, months_add.
  - by rewrite <- E, lookup_insert_eq.
  - by rewrite lookup_insert_ne.
Qed.

Lemma month_add_overflowed es t :
  overflowed t = true -> overflowed (fold_left month_add es t) = true.
Proof.
  revert t. induction es as [|e es IH]; intros t Ht; simpl; [done|]. apply IH.
  unfold month_add. by repeat case_match.
Qed.

Lemma mtd_step_err es x : fold_left mtd_step es (Err x) = Err x.
Proof. by induction es. Qed.

Lemma month_add_rollup es t r :
  overflowed t = false -> month_cost_usd t = r_cost_usd r ->
  unknown_cost_calls t = r_unknown_cost_calls r ->
  month_to_date (fold_left month_add es t) = mtd_finish (fold_left mtd_step (filterb is_metered es) (Ok r)).
Proof.
  revert t r. induction es as [|e es IH]; intros t r Ho Hc Hu; simpl.
  { unfold month_to_date. by rewrite Ho, Hu, Hc. }
  unfold month_add at 2. destruct (is_metered e); simpl; [|by apply IH].
  unfold accumulate_rollup. destruct (cost_unknown e); [apply IH; simpl; congruence|].
  rewrite Ho. unfold add_cost. rewrite Hc. destruct (f64_is_finite _).
  - by apply IH.
  - rewrite mtd_step_err. simpl. unfold month_to_date. by rewrite month_add_overflowed.
Qed.

Lemma month_lookup f now :
  fold_month_to_date_at f now = month_to_date (default month_default (fold_months f !! fmt_ym now)).
Proof. unfold fold_month_to_date_at. by destruct (_ !! _). Qed.

Lemma checkpoint_views p c file skip :
  Published p c -> p `prefix_of` file -> Z.of_nat (length file) <= U64_MAX ->
  result_map fold_view (fold_ledger file (Some c) skip) =
  result_map fold_view (fold_ledger file None skip).
Proof.
  intros (rs & c' & -> & Hc' & Hv)%published_folds [rest ->] Hlen.
  unfold fold_ledger. simpl. pose proof (folds_to_resume _ _ _ skip rest Hc' Hv) as Hr.
  rewrite <- (folds_to_scan _ _ skip rest Hc' Hlen) in Hr.
  destruct (fold_lines skip (mkFold (months c) c true []) _) as [s1|],
    (fold_lines skip (mkFold ∅ checkpoint_default true []) _) as [s2|]; cbn in Hr; [|done..|congruence].
  unfold state_view in Hr. 
  assert (fs_malformed s1 = fs_malformed s2) as -> by congruence.
  destruct (fs_malformed s2); [|done]. simpl. unfold fold_view. simpl. congruence.
Qed.

(** C4: a checkpoint is never a second opinion.  Whatever sequence of reads
    published the sidecar (with whatever rows each of them skipped), resuming
    from it on a file that still has its settled prefix gives the same month
    totals, the same settled prefix and the same error, line numbers
    included, as reading the whole file. *)
Theorem checkpoint_resume p c file skip :
  Published p c -> p `prefix_of` file -> Z.of_nat (length file) <= U64_MAX ->
  result_map fold_view (fold_ledger file (Some c) skip) =
  result_map fold_view (fold_ledger file None skip).
Proof. apply checkpoint_views. Qed.

(** C19: the month-to-date spend the pre-call cap reads is exactly the full
    scan's: the metered rows of the month summed in file order, less the
    prepared rows whose owner is gone, failing on a malformed row with its line
    numbers, then on overflow, then on unknown cost; the running totals kept per
    month lose none of it, and while no owner is gone they are those of every
    row. *)
Theorem month_to_date_exact file owner now :
  month_to_date_usd_at file None owner now =
    match entries_strict file with
    | Err e => Err e
    | Ok _ => month_to_date_from_entries (counted_entries owner file) now
    end /\
  ((forall e n, prepared_owner_is_gone owner e n = false) ->
   month_to_date_usd_at file None owner now =
     match entries_strict file with Err e => Err e | Ok es => month_to_date_from_entries es now end).
Proof.
  unfold month_to_date_usd_at, entries_strict, fold_ledger, counted_entries. simpl.
  pose proof (fold_lines_entries (prepared_owner_is_gone owner) (lines_from file 0 0) (mkFold ∅ checkpoint_default true [])) as Hf.
  pose proof (counted_all (prepared_owner_is_gone owner) (lines_from file 0 0)) as Hc.
  destruct (read_entries _) as [[es bad]|e]; [|by rewrite Hf].
  destruct Hf as (s' & -> & Hmo & Hmal). simpl in Hmal. rewrite Hmal.
  destruct bad; [|done]. rewrite month_lookup. simpl. rewrite Hmo, add_rows_lookup.
  split; [simpl; by apply (month_add_rollup _ _ rollup_default)|]. intros Hg. rewrite (Hc es []) by done.
  simpl. by apply (month_add_rollup _ _ rollup_default).
Qed.

End Read.

(** ** A concrete ledger *)
Module Sample.
Definition paid : Entry :=
  mkEntry 1767225600000000 "openai" "openai/gpt" "" 10 20 (f64_of_Z 2) false 1 None tags_default
    (Some "metered"%string) None.
(** A parser that knows one row. *)
Definition row : list ascii := ["p"%char].
Definition parse (l : list ascii) : option Entry := if bool_decide (l = row) then Some paid else None.
Definition file1 : list ascii := row ++ [NL].
Definition file2 : list ascii := file1 ++ row ++ [NL].
Definition skip (_ : Entry) (_ : Z) : bool := false.
Definition bytes (_ : LedgerCheckpoint) : list ascii := [].
End Sample.

Lemma month_to_date_exact_witness :
  let all := @month_to_date_usd_at gregorian Sample.parse Sample.file2 None (fun _ => OwnerHeld) 1767225600000000 in
  (forall e n, prepared_owner_is_gone (fun _ => OwnerHeld) e n = false) /\ is_ok all = true /\
  all = match entries_strict Sample.parse Sample.file2 with
        | Err e => Err e
        | Ok es => @month_to_date_from_entries gregorian es 1767225600000000
        end.
Proof.
  assert (forall e n, prepared_owner_is_gone (fun _ => OwnerHeld) e n = false) as Hg
    by (intros e n; unfold prepared_owner_is_gone; repeat case_match; reflexivity).
  split; [exact Hg|]. split; [vm_compute; reflexivity|].
  apply (@month_to_date_exact gregorian Sample.parse Sample.file2 (fun _ => OwnerHeld) 1767225600000000). exact Hg.
Defined.

Lemma checkpoint_resume_witness :
  exists c, @Published gregorian Sample.parse Sample.bytes Sample.file1 c /\ 0 < offset c /\
  result_map fold_view (@fold_ledger gregorian Sample.parse Sample.file2 (Some c) Sample.skip) =
  result_map fold_view (@fold_ledger gregorian Sample.parse Sample.file2 None Sample.skip).
Proof.
  destruct (@fold_ledger gregorian Sample.parse Sample.file1 None Sample.skip) as [f|] eqn:Hf;
    [|exfalso; revert Hf; vm_compute; discriminate].
  destruct (@publish_checkpoint Sample.bytes Sample.file1 (1, 2) f) as [c|] eqn:Hc.
  2: { exfalso. vm_compute in Hf. injection Hf as <-. revert Hc. vm_compute. discriminate. }
  exists c. assert (Ho : offset c = 2).
  { vm_compute in Hf. injection Hf as <-. vm_compute in Hc. injection Hc as <-. done. }
  assert (Hp : @Published gregorian Sample.parse Sample.bytes Sample.file1 c).
  { assert (take (Z.to_nat (offset c)) Sample.file1 = Sample.file1) as <- by (by rewrite Ho).
    refine (@published_full gregorian Sample.parse Sample.bytes Sample.file1 (1, 2) Sample.skip
              f c _ Hf Hc). vm_compute; discriminate. }
  split; [exact Hp|]. split; [lia|].
  apply (@checkpoint_resume gregorian Sample.parse Sample.bytes Sample.file1);
    [exact Hp|by eexists|vm_compute; discriminate].
Defined.
