(* ===== verification/Reservation.v ===== *)
(** Billable reservations (crates/zoder-core/src/ledger.rs): the fixed-size
    slot a dispatch preallocates, its arming, reconciliation and cancellation
    in place, the recovery of abandoned slots and the compaction of a ledger
    that is mostly padding.

    Every operation runs under the exclusive ledger lock, so it is one step on
    the bytes of the file.  [serde_json::from_slice] and [to_vec] of an entry
    are the parameters [parse] and [json]; the owner locks held by other
    processes are the predicate [held]. *)
From S2P Require Import Prelude F64 Clock Ledger.
Import Markers.
Local Open Scope Z_scope.

Definition COMPACT_MIN_BYTES : Z := 4 * 1024 * 1024.
Definition RESERVATION_MODEL_PREFIX : string := "__zoder_billable_".

Definition bytes_of (s : string) : list ascii := String.list_ascii_of_string s.

(** ** Byte search *)

Fixpoint is_prefix_of (needle hay : list ascii) : bool :=
  match needle, hay with
  | [], _ => true
  | n :: needle, h :: hay => bool_decide (n = h) && is_prefix_of needle hay
  | _ :: _, [] => false
  end.

(** [hay.windows(needle.len()).position(..)] for a needle that is not empty. *)
Fixpoint window_position (needle hay : list ascii) : option nat :=
  if is_prefix_of needle hay then Some 0%nat
  else match hay with [] => None | _ :: hay => S <$> window_position needle hay end.

(** [contains_bytes], and [windows(..).any(..)] *)
Definition contains_bytes (hay : list ascii) (needle : string) : bool :=
  bool_decide (is_Some (window_position (bytes_of needle) hay)).

(** ** Rows of the file *)

(** [seek] and [write_all] *)
Definition write_at (file : list ascii) (off : Z) (data : list ascii) : list ascii :=
  let o := Z.to_nat off in
  take o file ++ replicate (o - length file) "000"%char ++ data ++ drop (o + length data) file.

(** The row [json] padded to [n] bytes, newline included. *)
Definition pad_row (json : list ascii) (n : Z) : list ascii :=
  json ++ replicate (Z.to_nat n - 1 - length json) SP ++ [NL].
Definition blank_row (n : Z) : list ascii := pad_row [] n.

(** [take(limit).read_until(b'\n')] repeated to the end of the file; [left] is
    what the current line may still take. *)
Fixpoint read_chunks (limit left : Z) (cur : list ascii) (bs : list ascii) : list (list ascii) :=
  match bs with
  | [] => match cur with [] => [] | _ => [rev cur] end
  | b :: bs => if bool_decide (b = NL) || (left <=? 1)
               then rev (b :: cur) :: read_chunks limit limit [] bs
               else read_chunks limit (left - 1) (b :: cur) bs
  end.
Definition READ_LIMIT : Z := MAX_LEDGER_LINE_BYTES + 1.
Definition raw_rows (bs : list ascii) : list (list ascii) := read_chunks READ_LIMIT READ_LIMIT [] bs.

(** The offset of the first row of exactly [slot_bytes] bytes with the marker. *)
Fixpoint find_row (off slot_bytes : Z) (marker : string) (rows : list (list ascii)) : option Z :=
  match rows with
  | [] => None
  | r :: rows =>
      if (Z.of_nat (length r) =? slot_bytes) && contains_bytes r marker then Some off
      else find_row (u64_sat_add off (Z.of_nat (length r))) slot_bytes marker rows
  end.
(** [find_reservation_slot] *)
Definition find_reservation_slot (file : list ascii) (slot_bytes : Z) (marker : string) : option Z :=
  find_row 0 slot_bytes marker (raw_rows file).

Inductive ReservationError :=
| ShortRead
| SlotMissing
| NotPrepared
| AlreadyArmed
| EntryTooLarge
| InvalidEntry
| InvalidOwner (off : Z)
| LedgerFailure (e : LedgerError).

(** [read_exact] of the slot. *)
Definition read_slot (file : list ascii) (off slot_bytes : Z) : result (list ascii) ReservationError :=
  let slot := take (Z.to_nat slot_bytes) (drop (Z.to_nat off) file) in
  if Z.of_nat (length slot) =? slot_bytes then Ok slot else Err ShortRead.

(** [verify_reservation_slot] *)
Definition verify_reservation_slot (file : list ascii) (off slot_bytes : Z) (marker : string) :
    result unit ReservationError :=
  match read_slot file off slot_bytes with
  | Err e => Err e
  | Ok slot => if contains_bytes slot marker then Ok tt else Err SlotMissing
  end.

(** The phase byte: [PREPARED_RESERVATION_MODEL.rfind('p')]. *)
Definition PHASE_OFFSET : Z := 17.

(** [transition_reservation_to_armed] *)
Definition transition_reservation_to_armed (file : list ascii) (off slot_bytes : Z)
    (marker : string) : result (list ascii) ReservationError :=
  match verify_reservation_slot file off slot_bytes marker with
  | Err e => Err e
  | Ok _ =>
      match read_slot file off slot_bytes with
      | Err e => Err e
      | Ok slot =>
          match window_position (bytes_of PREPARED_RESERVATION_MODEL) slot with
          | None => Err NotPrepared
          | Some pos => Ok (write_at file (off + (Z.of_nat pos + PHASE_OFFSET)) ["a"%char])
          end
      end
  end.

(** ** The reservation *)

Record BillableReservation := mkReservation {
  r_offset : Z;
  slot_bytes : Z;
  marker : string;
  armed : bool;
  reconciled : bool;
  dispatched_provider : string;
  dispatched_model : string;
  r_ts : Z;
  r_month_to_date : result f64 LedgerError
}.

Definition with_offset (r : BillableReservation) (off : Z) : BillableReservation :=
  mkReservation off (slot_bytes r) (marker r) (armed r) (reconciled r) (dispatched_provider r)
    (dispatched_model r) (r_ts r) (r_month_to_date r).
Definition with_armed (r : BillableReservation) (provider model : string) : BillableReservation :=
  mkReservation (r_offset r) (slot_bytes r) (marker r) true (reconciled r) provider model (r_ts r)
    (r_month_to_date r).
Definition with_reconciled (r : BillableReservation) : BillableReservation :=
  mkReservation (r_offset r) (slot_bytes r) (marker r) true true (dispatched_provider r)
    (dispatched_model r) (r_ts r) (r_month_to_date r).

(** [BillableReservation::relocate] *)
Definition relocate (r : BillableReservation) (file : list ascii) :
    result BillableReservation ReservationError :=
  match verify_reservation_slot file (r_offset r) (slot_bytes r) (marker r) with
  | Ok _ => Ok r
  | Err e =>
      match find_reservation_slot file (slot_bytes r) (marker r) with
      | Some off => Ok (with_offset r off)
      | None => Err e
      end
  end.

(** [arm_for]; [arm] is [arm_for("", "")].  The reservation keeps the offset it
    was found at when the transition fails. *)
Definition arm_for (r : BillableReservation) (file : list ascii) (provider model : string) :
    BillableReservation * result (list ascii) ReservationError :=
  if armed r then (r, Err AlreadyArmed)
  else match relocate r file with
       | Err e => (r, Err e)
       | Ok r =>
           match transition_reservation_to_armed file (r_offset r) (slot_bytes r) (marker r) with
           | Err e => (r, Err e)
           | Ok file => (with_armed r provider model, Ok file)
           end
       end.
Definition arm (r : BillableReservation) (file : list ascii) := arm_for r file EmptyString EmptyString.

(** An entry whose cost is unknown, as the reservations write it. *)
Definition unknown_entry (ts : Z) (provider model : string) (violation : option string) : Entry :=
  mkEntry ts provider model EmptyString 0 0 f64_zero true 1 violation tags_default None None.

(** [unknown_cost_entry] *)
Definition unknown_cost_entry (r : BillableReservation) : Entry :=
  unknown_entry (r_ts r)
    (if str_is_empty (dispatched_provider r) then RESERVATION_PROVIDER else dispatched_provider r)
    (if str_is_empty (dispatched_model r) then ARMED_RESERVATION_MODEL else dispatched_model r) None.

(** [str::is_char_boundary] *)
Definition is_char_boundary (s : string) (n : nat) : bool :=
  (n =? 0)%nat ||
  match String.get n s with
  | None => (n =? String.length s)%nat
  | Some c => let b := Ascii.nat_of_ascii c in (b <? 128)%nat || (192 <=? b)%nat
  end.
Fixpoint char_cut (s : string) (cut : nat) : nat :=
  match cut with
  | O => O
  | S c => if is_char_boundary s cut then cut else char_cut s c
  end.
Definition TRUNCATED : string := " [truncated]".

Section Slots.
(** [serde_json::from_slice::<Entry>], [serde_json::to_vec] *)
Variable parse : list ascii -> option Entry.
Variable json : Entry -> list ascii.

(** [fit_entry_json] *)
Definition fit_entry_json (entry : Entry) (slot_bytes : Z) : list ascii :=
  let full := json entry in
  if Z.of_nat (length full) <? slot_bytes then full
  else match violation entry with
       | None => full
       | Some v =>
           let over := (length full + 1 - Z.to_nat slot_bytes)%nat in
           let keep := (String.length v - (over + String.length TRUNCATED + 8))%nat in
           let v' := String.append (take_chars (char_cut v keep) v) TRUNCATED in
           json (mkEntry (ts_utc entry) (e_provider entry) (e_model entry) (e_host entry)
             (tokens_in entry) (tokens_out entry) (cost_usd entry) (cost_unknown entry)
             (calls entry) (Some v') (e_tags entry) (e_billing entry) (estimated_cost_usd entry))
       end.

(** The row [write_slot] and [reconcile] write, if the entry fits. *)
Definition entry_row (entry : Entry) (slot_bytes : Z) : result (list ascii) ReservationError :=
  let j := fit_entry_json entry slot_bytes in
  if slot_bytes <? Z.of_nat (length j) + 1 then Err EntryTooLarge else Ok (pad_row j slot_bytes).

(** [write_slot] *)
Definition write_slot (r : BillableReservation) (file : list ascii) (entry : Entry) :
    result (BillableReservation * list ascii) ReservationError :=
  match entry_row entry (slot_bytes r) with
  | Err e => Err e
  | Ok line =>
      match relocate r file with
      | Err e => Err e
      | Ok r => Ok (r, write_at file (r_offset r) line)
      end
  end.

(** [reconcile_unknown] *)
Definition reconcile_unknown (r : BillableReservation) (file : list ascii) :
    result (BillableReservation * list ascii) ReservationError :=
  match write_slot r file (unknown_cost_entry r) with
  | Err e => Err e
  | Ok (r, file) => Ok (with_reconciled r, file)
  end.

(** [Drop]: what dropping the reservation leaves in the file. *)
Definition drop_reservation (r : BillableReservation) (file : list ascii) : list ascii :=
  if armed r && negb (reconciled r) then
    match reconcile_unknown r file with Ok (_, file) => file | Err _ => file end
  else if negb (armed r) then
    match relocate r file with
    | Ok r => write_at file (r_offset r) (blank_row (slot_bytes r))
    | Err _ => file
    end
  else file.

(** [reconcile] takes the reservation, so every early return drops it armed. *)
Definition reconcile (r : BillableReservation) (file : list ascii) (entry : Entry) :
    list ascii * result unit ReservationError :=
  let r := with_armed r (dispatched_provider r) (dispatched_model r) in
  if negb (entry_numbers_valid entry) then (drop_reservation r file, Err InvalidEntry)
  else match write_slot r file entry with
       | Err e => (drop_reservation r file, Err e)
       | Ok (r, file) => (drop_reservation (with_reconciled r) file, Ok tt)
       end.

(** ** Recovery *)

Record ScanStats := mkStats { s_waste : Z; legacy_inflight : bool }.
Record Scan := mkScan {
  scan_stats : ScanStats;
  abandoned : list (Z * Z * string);
  stale_armed_rows : list (Z * Z * Z)
}.

(** The recovery scan's view of one row; [held] says another process holds the
    owner lock of a marker.  A lock this scan took itself is held too. *)
Definition scan_row (held : string -> bool) (now off : Z) (raw : list ascii) (s : Scan) :
    result Scan ReservationError :=
  let n := Z.of_nat (length raw) in
  let payload := pop_while is_nl_cr_sp raw in
  let is_slot := is_reservation_slot_len n in
  if negb (is_slot || contains_bytes payload RESERVATION_MODEL_PREFIX) then Ok s
  else
    let parsed := parse payload in
    let has p := match parsed with Some e => p e | None => false end in
    let inflight := has (fun e => bool_decide (e_provider e = RESERVATION_PROVIDER) &&
      (n =? LEGACY_RESERVATION_BYTES) && (num_seconds (now - ts_utc e) <? LEGACY_INFLIGHT_GRACE_S)) in
    let waste := if is_slot && negb (has (fun e => is_live_reservation e now))
                 then u64_sat_add (s_waste (scan_stats s)) (Z.max 0 (n - (Z.of_nat (length payload) + 1)))
                 else s_waste (scan_stats s) in
    let stats := mkStats waste (legacy_inflight (scan_stats s) || inflight) in
    let stale := match parsed with
                 | Some e => if is_stale_armed_reservation e now then [(off, n, ts_utc e)] else []
                 | None => []
                 end in
    let stale := stale_armed_rows s ++ stale in
    match parsed with
    | Some e =>
        if is_slot && bool_decide (e_provider e = RESERVATION_PROVIDER)
           && bool_decide (e_model e = PREPARED_RESERVATION_MODEL) then
          match reservation_marker e with
          | None => Err (InvalidOwner off)
          | Some m =>
              if held m || existsb (fun a => bool_decide (a.2 = m)) (abandoned s)
              then Ok (mkScan stats (abandoned s) stale)
              else Ok (mkScan stats (abandoned s ++ [(off, n, m)]) stale)
          end
        else Ok (mkScan stats (abandoned s) stale)
    | None => Ok (mkScan stats (abandoned s) stale)
    end.

Fixpoint scan_rows (held : string -> bool) (now off line_no : Z) (rows : list (list ascii))
    (s : Scan) : result Scan ReservationError :=
  match rows with
  | [] => Ok s
  | raw :: rows =>
      let n := Z.of_nat (length raw) in
      if MAX_LEDGER_LINE_BYTES <? n then Err (LedgerFailure (LineTooLong (line_no + 1)))
      else match scan_row held now off raw s with
           | Err e => Err e
           | Ok s => scan_rows held now (u64_sat_add off n) (line_no + 1) rows s
           end
  end.

(** The rewrite of an abandoned and of a stale armed row. *)
Definition blank_abandoned (file : list ascii) (a : Z * Z * string) : list ascii :=
  let '(off, n, _) := a in write_at file off (blank_row n).
Definition settle_entry (ts : Z) : Entry :=
  unknown_entry ts RESERVATION_PROVIDER UNKNOWN_COST_RESERVATION_MODEL None.
Definition settle_stale (file : list ascii) (a : Z * Z * Z) : list ascii :=
  let '(off, n, ts) := a in
  match entry_row (settle_entry ts) n with
  | Err _ => file
  | Ok line => write_at file off line
  end.

(** [recover_abandoned_prepared] *)
Definition recover_abandoned_prepared (held : string -> bool) (file : list ascii)
    (base : option LedgerCheckpoint) (now : Z) : result (list ascii * ScanStats) ReservationError :=
  let c := default checkpoint_default base in
  let inflight := match legacy_reservation_newest c with
                  | Some newest => num_seconds (now - newest) <? LEGACY_INFLIGHT_GRACE_S
                  | None => false
                  end in
  match scan_rows held now (offset c) (lines c) (raw_rows (drop (Z.to_nat (offset c)) file))
          (mkScan (mkStats (waste c) inflight) [] []) with
  | Err e => Err e
  | Ok s =>
      let st := scan_stats s in
      let blanked := fold_left (fun w a => u64_sat_add w a.1.2) (abandoned s) (s_waste st) in
      Ok (fold_left settle_stale (stale_armed_rows s) (fold_left blank_abandoned (abandoned s) file),
          mkStats blanked (legacy_inflight st))
  end.

(** ** Compaction *)

(** What the compacted file keeps of a row. *)
Definition compact_row (now : Z) (raw : list ascii) : list ascii :=
  let payload := pop_while is_nl_cr_sp raw in
  if is_blank payload then []
  else match parse payload with
       | Some e =>
           if negb (is_live_reservation e now) then payload ++ [NL]
           else if bool_decide (last raw = Some NL) then raw else raw ++ [NL]
       | None => if bool_decide (last raw = Some NL) then raw else raw ++ [NL]
       end.

Fixpoint compact_rows (now : Z) (rows : list (list ascii)) : result (list ascii) ReservationError :=
  match rows with
  | [] => Ok []
  | raw :: rows =>
      if MAX_LEDGER_LINE_BYTES <? Z.of_nat (length raw) then Err (LedgerFailure (LineTooLong 0))
      else match compact_rows now rows with
           | Err e => Err e
           | Ok out => Ok (compact_row now raw ++ out)
           end
  end.

(** [compact_if_wasteful]; [None] leaves the file. *)
Definition compact_if_wasteful (file : list ascii) (stats : ScanStats) (now : Z) :
    result (option (list ascii)) ReservationError :=
  let len := Z.of_nat (length file) in
  if (len <? COMPACT_MIN_BYTES) || (Z.min U64_MAX (s_waste stats * 2) <=? len) || legacy_inflight stats
  then Ok None
  else match compact_rows now (raw_rows file) with
       | Err e => Err e
       | Ok out => Ok (Some out)
       end.
End Slots.

(** ** Opening, recording and reserving *)

(** The ledger file, its inode and device, and its sidecar. *)
Record LedgerStore := mkStore {
  st_file : list ascii;
  st_ident : Z * Z;
  st_sidecar : option LedgerCheckpoint
}.
Definition MAX_CHECKPOINT_BYTES : Z := 1024 * 1024.

Section Store.
Context `{Calendar}.
Variable parse : list ascii -> option Entry.
Variable json : Entry -> list ascii.
Variable checkpoint_bytes : LedgerCheckpoint -> list ascii.

(** [load_checkpoint] *)
Definition load_checkpoint (st : LedgerStore) : option LedgerCheckpoint :=
  opt_filter (fun c => (Z.of_nat (length (checkpoint_bytes c)) <=? MAX_CHECKPOINT_BYTES) &&
                       is_current_for checkpoint_bytes c (st_file st) (st_ident st)) (st_sidecar st).

(** [open_locked_rw]; [fresh] is the identity of a compacted file. *)
Definition open_locked_rw (held : string -> bool) (now : Z) (fresh : Z * Z) (st : LedgerStore) :
    LedgerStore * result (option LedgerCheckpoint) ReservationError :=
  let base := load_checkpoint st in
  match recover_abandoned_prepared parse json held (st_file st) base now with
  | Err e => (st, Err e)
  | Ok (file, stats) =>
      match compact_if_wasteful parse file stats now with
      | Err e => (mkStore file (st_ident st) (st_sidecar st), Err e)
      | Ok (Some out) => (mkStore out fresh (st_sidecar st), Ok None)
      | Ok None => (mkStore file (st_ident st) (st_sidecar st), Ok base)
      end
  end.

(** The strict read both writers make, with the sidecar it publishes. *)
Definition open_and_fold (held : string -> bool) (now : Z) (fresh : Z * Z) (st : LedgerStore) :
    LedgerStore * result Fold ReservationError :=
  let '(st, base) := open_locked_rw held now fresh st in
  match base with
  | Err e => (st, Err e)
  | Ok base =>
      match fold_ledger parse (st_file st) base (fun _ _ => false) with
      | Err e => (st, Err (LedgerFailure e))
      | Ok f =>
          let sidecar := match publish_checkpoint checkpoint_bytes (st_file st) (st_ident st) f with
                         | Some c => Some c
                         | None => st_sidecar st
                         end in
          (mkStore (st_file st) (st_ident st) sidecar, Ok f)
      end
  end.

Definition append (st : LedgerStore) (row : list ascii) : LedgerStore :=
  mkStore (st_file st ++ row) (st_ident st) (st_sidecar st).

(** [Ledger::record] *)
Definition record (held : string -> bool) (now : Z) (fresh : Z * Z) (st : LedgerStore) (e : Entry) :
    LedgerStore * result unit ReservationError :=
  if negb (entry_numbers_valid e) then (st, Err InvalidEntry)
  else match open_and_fold held now fresh st with
       | (st, Err x) => (st, Err x)
       | (st, Ok _) => (append st (json e ++ [NL]), Ok tt)
       end.

(** [Ledger::reserve_billable]; [hex] are the 32 random digits of the marker,
    [opened] and [ts] the clock readings of the recovery and of the row. *)
Definition pending_entry (m : string) (ts : Z) : Entry :=
  unknown_entry ts RESERVATION_PROVIDER PREPARED_RESERVATION_MODEL
    (Some (MARKER_NOTE +:+ m +:+ ")")%string).
Definition reserve_billable (held : string -> bool) (opened ts : Z) (fresh : Z * Z) (hex : string)
    (st : LedgerStore) : LedgerStore * result BillableReservation ReservationError :=
  match open_and_fold held opened fresh st with
  | (st, Err e) => (st, Err e)
  | (st, Ok f) =>
      let m := ("zoder-reservation-" +:+ hex)%string in
      let r := mkReservation (Z.of_nat (length (st_file st))) BILLABLE_RESERVATION_BYTES m false false
                 EmptyString EmptyString ts (fold_month_to_date_at f opened) in
      (append st (pad_row (json (pending_entry m ts)) BILLABLE_RESERVATION_BYTES), Ok r)
  end.
End Store.

(** ** What the theorems are about *)

(** What the strict reader makes of a row: nothing, a malformed row or an
    entry. *)
Definition row_entry (parse : list ascii -> option Entry) (raw : list ascii) : option (option Entry) :=
  let payload := pop_while is_nl_cr raw in
  if is_blank payload then None else Some (parse_valid parse payload).

Definition rows_entries (parse : list ascii -> option Entry) (rows : list (list ascii)) : list Entry :=
  omap (fun r => match row_entry parse r with Some (Some e) => Some e | _ => None end) rows.
Definition rows_malformed (parse : list ascii -> option Entry) (rows : list (list ascii)) : nat :=
  length (filterb (fun r => match row_entry parse r with Some None => true | _ => false end) rows).

#[global] Arguments rows_entries : simpl never.
#[global] Arguments rows_malformed : simpl never.
Definition fits (raw : list ascii) : Prop := Z.of_nat (length raw) <= MAX_LEDGER_LINE_BYTES.

(** The marker of a prepared reservation slot. *)
Definition prepared_marker (parse : list ascii -> option Entry) (raw : list ascii) : option string :=
  if is_reservation_slot_len (Z.of_nat (length raw)) then
    match parse (pop_while is_nl_cr_sp raw) with
    | Some e => if bool_decide (e_provider e = RESERVATION_PROVIDER) &&
                   bool_decide (e_model e = PREPARED_RESERVATION_MODEL)
                then reservation_marker e else None
    | None => None
    end
  else None.
(** The date of a stale armed reservation. *)
Definition stale_date (parse : list ascii -> option Entry) (now : Z) (raw : list ascii) : option Z :=
  let payload := pop_while is_nl_cr_sp raw in
  if is_reservation_slot_len (Z.of_nat (length raw)) || contains_bytes payload RESERVATION_MODEL_PREFIX
  then match parse payload with
       | Some e => if is_stale_armed_reservation e now then Some (ts_utc e) else None
       | None => None
       end
  else None.

(** What recovery does to one row. *)
Definition blank_one (parse : list ascii -> option Entry) (held : string -> bool)
    (raw cur : list ascii) : list ascii :=
  match prepared_marker parse raw with
  | Some m => if held m then cur else blank_row (Z.of_nat (length raw))
  | None => cur
  end.
Definition settle_one (parse : list ascii -> option Entry) (json : Entry -> list ascii) (now : Z)
    (raw cur : list ascii) : list ascii :=
  match stale_date parse now raw with
  | Some ts => match entry_row json (settle_entry ts) (Z.of_nat (length raw)) with
               | Ok line => line
               | Err _ => cur
               end
  | None => cur
  end.
Definition recover_row (parse : list ascii -> option Entry) (json : Entry -> list ascii)
    (held : string -> bool) (now : Z) (raw : list ascii) : list ascii :=
  settle_one parse json now raw (blank_one parse held raw raw).

(** ** Rows and padding *)

Lemma pop_while_snoc p l c :
  pop_while p (l ++ [c]) = if p c then pop_while p l else l ++ [c].
Proof. unfold pop_while. rewrite rev_app_distr. simpl. destruct (p c); [done|]. simpl. by rewrite rev_involutive. Qed.

Lemma pop_while_nil p : pop_while p [] = [].
Proof. done. Qed.

Lemma pop_while_split p l : exists suf, l = pop_while p l ++ suf /\ forallb p suf = true.
Proof.
  induction l as [|c l IH] using rev_ind; [by exists []|]. rewrite pop_while_snoc.
  destruct (p c) eqn:E; [|exists []; by rewrite app_nil_r].
  destruct IH as (suf & Hl & Hs). exists (suf ++ [c]). split.
  - by rewrite app_assoc, <- Hl.
  - rewrite forallb_app, Hs. simpl. by rewrite E.
Qed.

Lemma pop_while_weaken (p q : ascii -> bool) l :
  (forall c, p c = true -> q c = true) -> pop_while p (pop_while q l) = pop_while q l.
Proof.
  intros Hpq. induction l as [|c l IH] using rev_ind; [done|]. rewrite pop_while_snoc.
  destruct (q c) eqn:E; [done|]. rewrite pop_while_snoc.
  destruct (p c) eqn:E'; [|done]. apply Hpq in E'. congruence.
Qed.

Lemma pop_while_twice (p q : ascii -> bool) l :
  (forall c, p c = true -> q c = true) -> pop_while q (pop_while p l) = pop_while q l.
Proof.
  intros Hpq. induction l as [|c l IH] using rev_ind; [done|]. rewrite !pop_while_snoc.
  destruct (p c) eqn:E.
  - by rewrite (Hpq c E).
  - by rewrite pop_while_snoc.
Qed.

Lemma is_nl_cr_le c : is_nl_cr c = true -> is_nl_cr_sp c = true.
Proof. unfold is_nl_cr_sp. by intros ->. Qed.

Lemma is_nl_cr_sp_ws c : is_nl_cr_sp c = true -> is_ascii_ws c = true.
Proof.
  unfold is_nl_cr_sp, is_nl_cr. rewrite !orb_true_iff, !bool_decide_eq_true.
  by intros [[->| ->]| ->].
Qed.

Lemma is_blank_pop p l :
  (forall c, p c = true -> is_ascii_ws c = true) -> is_blank (pop_while p l) = is_blank l.
Proof.
  intros Hp. unfold is_blank. induction l as [|c l IH] using rev_ind; [done|].
  rewrite pop_while_snoc, forallb_app. simpl. destruct (p c) eqn:E.
  - rewrite IH, (Hp c E). simpl. by rewrite andb_true_r.
  - rewrite forallb_app. done.
Qed.

Lemma pad_row_length j n :
  Z.of_nat (length j) + 1 <= n -> Z.of_nat (length (pad_row j n)) = n.
Proof. intros Hj. unfold pad_row. rewrite !length_app, length_replicate. simpl. lia. Qed.

Lemma pad_row_proper j n : NL ∉ j -> proper_line (pad_row j n).
Proof.
  intros Hj. exists (j ++ replicate (Z.to_nat n - 1 - length j) SP). split.
  - intros [?|[Hc _]%elem_of_replicate]%elem_of_app; done.
  - unfold pad_row. by rewrite <- app_assoc.
Qed.

Lemma write_row (q r r' rest : list ascii) :
  length r = length r' ->
  write_at (q ++ r ++ rest) (Z.of_nat (length q)) r' = q ++ r' ++ rest.
Proof.
  intros Hl. unfold write_at. rewrite Nat2Z.id, take_app_length.
  replace (length q - _)%nat with 0%nat by (rewrite !length_app; lia). simpl. do 2 f_equal.
  rewrite <- drop_drop, drop_app_length, <- Hl. apply drop_app_length.
Qed.

Lemma split_lines_cur_length cur bs r rs :
  split_lines cur bs = r :: rs -> (length cur <= length r)%nat.
Proof.
  revert cur. induction bs as [|b bs IH]; intros cur; simpl.
  - destruct cur; [done|]. intros [= <- _]. rewrite <- length_rev. simpl. by rewrite !length_app.
  - case_bool_decide; [intros [= <- _]|intros Hs; apply IH in Hs; simpl in Hs; lia].
    rewrite length_app, length_rev. lia.
Qed.

Lemma split_lines_nonempty cur bs : cur <> [] -> exists r rs, split_lines cur bs = r :: rs.
Proof.
  revert cur. induction bs as [|b bs IH]; intros cur Hc; simpl; [destruct cur; [done|eauto]|].
  case_bool_decide; [eauto|by apply IH].
Qed.

(** Rows within the limit are read whole. *)
Lemma read_chunks_split limit left cur bs :
  left = limit - Z.of_nat (length cur) -> 1 <= left ->
  Forall (fun r => Z.of_nat (length r) < limit) (split_lines cur bs) ->
  read_chunks limit left cur bs = split_lines cur bs.
Proof.
  revert left cur. induction bs as [|b bs IH]; intros left cur -> H1 Hf; simpl in *; [done|].
  destruct (bool_decide (b = NL)) eqn:E; simpl.
  - apply Forall_cons in Hf as [Hb Hf]. f_equal. apply IH; [simpl; lia| |done].
    rewrite length_app, length_rev in Hb. simpl in Hb. lia.
  - destruct (split_lines_nonempty (b :: cur) bs) as (r & rs & Hr); [done|].
    pose proof (split_lines_cur_length _ _ _ _ Hr) as Hlen. simpl in Hlen.
    assert (Z.of_nat (length r) < limit) by (rewrite Hr in Hf; by apply Forall_cons in Hf as [? _]).
    destruct (_ <=? 1) eqn:E1; [lia|]. apply IH; [simpl; lia|lia|done].
Qed.

Lemma raw_rows_split bs : Forall fits (split_lines [] bs) -> raw_rows bs = split_lines [] bs.
Proof.
  intros Hf. apply read_chunks_split; [done|unfold READ_LIMIT, MAX_LEDGER_LINE_BYTES; lia|].
  eapply Forall_impl; [done|]. unfold fits, READ_LIMIT. simpl. lia.
Qed.

Lemma rows_entries_cons parse r rows :
  rows_entries parse (r :: rows) =
  match row_entry parse r with Some (Some e) => [e] | _ => [] end ++ rows_entries parse rows.
Proof. unfold rows_entries. simpl. by destruct (row_entry parse r) as [[e|]|]. Qed.

Lemma rows_malformed_cons parse r rows :
  rows_malformed parse (r :: rows) =
  (match row_entry parse r with Some None => 1 | _ => 0 end + rows_malformed parse rows)%nat.
Proof. unfold rows_malformed. simpl. by destruct (row_entry parse r) as [[e|]|]. Qed.

(** The texts of the rows that are not blank, without the padding and the line
    ends behind them. *)
Definition row_texts (rows : list (list ascii)) : list (list ascii) :=
  filterb (fun r => negb (is_blank r)) (map (pop_while is_nl_cr_sp) rows).
Lemma row_texts_cons r rows : row_texts (r :: rows) = row_texts [r] ++ row_texts rows.
Proof. unfold row_texts, filterb. cbn [map List.filter]. by destruct (negb _). Qed.

(** The strict read as a function of the rows. *)
Lemma read_entries_rows parse off before rows :
  Forall fits rows ->
  exists bad, read_entries parse (ledger_lines off before rows) =
              Ok (rows_entries parse rows, bad) /\ length bad = rows_malformed parse rows.
Proof.
  intros Hf. revert off before. induction Hf as [|r rows Hr _ IH]; intros off before.
  { by exists []. }
  rewrite rows_entries_cons, rows_malformed_cons. simpl. unfold read_line. destruct (_ <? _) eqn:E; [unfold fits in Hr; lia|]. simpl.
  destruct (IH (u64_sat_add off (Z.of_nat (length r))) (before + 1)) as (bad & -> & Hbad).
  unfold row_entry.
  destruct (is_blank _); simpl; [by exists bad|].
  destruct (parse_valid _ _); simpl; [by exists bad|]. eexists. split; [done|]. simpl. by rewrite Hbad.
Qed.

Section Compact.
Variable parse : list ascii -> option Entry.
(** JSON allows white space after a value. *)
Hypothesis parse_trailing_ws : forall p c, is_nl_cr_sp c = true -> parse (p ++ [c]) = parse p.

Lemma parse_pop l : parse (pop_while is_nl_cr_sp l) = parse (pop_while is_nl_cr l).
Proof.
  rewrite <- (pop_while_twice is_nl_cr is_nl_cr_sp) by apply is_nl_cr_le.
  generalize (pop_while is_nl_cr l). clear l. intros l.
  induction l as [|c l IH] using rev_ind; [done|]. rewrite pop_while_snoc.
  destruct (is_nl_cr_sp c) eqn:E; [|done]. by rewrite parse_trailing_ws.
Qed.

Lemma row_entry_pop raw :
  row_entry parse (pop_while is_nl_cr_sp raw ++ [NL]) = row_entry parse raw.
Proof.
  unfold row_entry. rewrite pop_while_snoc. simpl.
  rewrite pop_while_weaken by apply is_nl_cr_le.
  rewrite !is_blank_pop by (intros; apply is_nl_cr_sp_ws; first [done|by apply is_nl_cr_le]).
  unfold parse_valid. by rewrite parse_pop.
Qed.

Lemma row_entry_nl raw : row_entry parse (raw ++ [NL]) = row_entry parse raw.
Proof. unfold row_entry. by rewrite pop_while_snoc. Qed.

(** A compacted row is dropped blank, or is the same row to the reader. *)
Lemma compact_row_entry now raw :
  (compact_row parse now raw = [] /\ row_entry parse raw = None) \/
  row_entry parse (compact_row parse now raw) = row_entry parse raw.
Proof.
  unfold compact_row. rewrite is_blank_pop by apply is_nl_cr_sp_ws.
  destruct (is_blank raw) eqn:Eb.
  { left. split; [done|]. unfold row_entry.
    rewrite is_blank_pop by (intros; by apply is_nl_cr_sp_ws, is_nl_cr_le). by rewrite Eb. }
  right. repeat case_match; first [apply row_entry_pop|apply row_entry_nl|done].
Qed.

(** ... and its text is left alone. *)
Lemma compact_row_text now raw : row_texts [compact_row parse now raw] = row_texts [raw].
Proof.
  destruct (is_blank (pop_while is_nl_cr_sp raw)) eqn:Eb.
  { unfold compact_row, row_texts, filterb. rewrite Eb. cbn [map List.filter]. by rewrite Eb. }
  assert (pop_while is_nl_cr_sp (compact_row parse now raw) = pop_while is_nl_cr_sp raw) as Hp.
  { unfold compact_row. rewrite Eb. repeat case_match; rewrite ?pop_while_snoc; try done. by apply pop_while_weaken. }
  unfold row_texts. cbn [map]. by rewrite Hp.
Qed.

Lemma compact_row_proper now raw :
  (exists body, (NL ∉ body) /\ (raw = body \/ raw = body ++ [NL])) -> 
  compact_row parse now raw = [] \/ proper_line (compact_row parse now raw).
Proof.
  intros (body & Hb & Hraw). unfold compact_row.
  assert (proper_line (if bool_decide (last raw = Some NL) then raw else raw ++ [NL])) as Hp.
  { destruct Hraw as [-> | ->].
    - rewrite bool_decide_eq_false_2; [by exists body|].
      intros [l' ->]%last_Some. apply Hb, elem_of_app. right. by left.
    - rewrite bool_decide_eq_true_2 by (by rewrite last_snoc). by exists body. }
  assert (proper_line (pop_while is_nl_cr_sp raw ++ [NL])) as Hp'.
  { exists (pop_while is_nl_cr_sp raw). split; [|done].
    assert (pop_while is_nl_cr_sp raw = pop_while is_nl_cr_sp body) as ->.
    { destruct Hraw as [-> | ->]; [done|]. by rewrite pop_while_snoc. }
    destruct (pop_while_split is_nl_cr_sp body) as (suf & Hs & _).
    intros Hin. apply Hb. rewrite Hs. apply elem_of_app. by left. }
  repeat case_match; eauto.
Qed.

Lemma compact_row_length now raw : (length (compact_row parse now raw) <= length raw + 1)%nat.
Proof.
  unfold compact_row. destruct (pop_while_split is_nl_cr_sp raw) as (suf & Hs & _).
  assert (length (pop_while is_nl_cr_sp raw) <= length raw)%nat
    by (rewrite Hs at 2; rewrite length_app; lia).
  repeat case_match; simpl; rewrite ?length_app; simpl; lia.
Qed.

Lemma compact_rows_total now rows :
  Forall fits rows -> compact_rows parse now rows = Ok (concat (map (compact_row parse now) rows)).
Proof.
  induction 1 as [|r rows Hr _ IH]; simpl; [done|].
  destruct (_ <? _) eqn:E; [unfold fits in Hr; lia|]. by rewrite IH.
Qed.

Lemma compacted_rows now rows :
  Forall (fun r => exists body, (NL ∉ body) /\ (r = body \/ r = body ++ [NL])) rows ->
  exists rs, concat (map (compact_row parse now) rows) = concat rs /\ Forall proper_line rs /\
    (forall n : Z, Forall (fun r => Z.of_nat (length r) < n) rows -> Forall (fun r => Z.of_nat (length r) <= n) rs) /\
    rows_entries parse rs = rows_entries parse rows /\
    rows_malformed parse rs = rows_malformed parse rows /\
    row_texts rs = row_texts rows.
Proof.
  induction 1 as [|r rows Hr _ (rs & Hc & Hp & Hl & He & Hm & Ht)]; simpl.
  { exists []. simpl. repeat split; constructor. }
  rewrite Hc, rows_entries_cons, rows_malformed_cons, (row_texts_cons r), <- Ht, <- (compact_row_text now r).
  destruct (compact_row_entry now r) as [[-> Hn]|Hsame].
  { exists rs. simpl. rewrite Hn. simpl. repeat split; try done.
    intros n [_ ?]%Forall_cons. by apply Hl. }
  destruct (compact_row_proper now r Hr) as [Hnil|Hpr].
  { exists rs. rewrite Hnil in Hsame |- *. simpl. unfold row_entry at 1 in Hsame. simpl in Hsame.
    rewrite <- Hsame. simpl. repeat split; try done. intros n [_ ?]%Forall_cons. by apply Hl. }
  exists (compact_row parse now r :: rs). rewrite rows_entries_cons, rows_malformed_cons, row_texts_cons. simpl.
  rewrite Hsame, He, Hm. repeat split; [by constructor|].
  intros n [? ?]%Forall_cons. constructor; [|by apply Hl].
  pose proof (compact_row_length now r). lia.
Qed.
End Compact.

Lemma split_lines_shape cur bs :
  NL ∉ cur ->
  Forall (fun r => exists body, (NL ∉ body) /\ (r = body \/ r = body ++ [NL])) (split_lines cur bs).
Proof.
  assert (forall l : list ascii, NL ∉ l -> NL ∉ rev l) as Hrev.
  { intros l Hl. by rewrite list_elem_of_In, <- in_rev, <- list_elem_of_In. }
  revert cur. induction bs as [|b bs IH]; intros cur Hcur; simpl.
  - destruct cur as [|c cur]; constructor; [|constructor]. exists (rev (c :: cur)). eauto.
  - destruct (decide (b = NL)) as [-> | Hne].
    + rewrite bool_decide_eq_true_2 by done. constructor; [|apply IH, not_elem_of_nil].
      exists (rev cur). eauto.
    + rewrite bool_decide_eq_false_2 by done. apply IH. by apply not_elem_of_cons.
Qed.

(** C17: compacting the ledger keeps every row.  For a parser that allows
    white space after a value, a file whose rows are below the line limit
    compacts to a file whose rows have, in the same order, the texts of all the
    rows that are not blank, malformed ones included, with nothing lost but the
    padding and the line ends behind them; the strict reader finds the same
    entries in the same order in it, and as many malformed rows. *)
Theorem compaction_keeps_entries parse now file
    (Hws : forall p c, is_nl_cr_sp c = true -> parse (p ++ [c]) = parse p)
    (Hfit : Forall (fun r => Z.of_nat (length r) < MAX_LEDGER_LINE_BYTES) (split_lines [] file)) :
  exists out es bad bad',
    compact_rows parse now (raw_rows file) = Ok out /\
    row_texts (split_lines [] out) = row_texts (split_lines [] file) /\
    read_entries parse (lines_from file 0 0) = Ok (es, bad) /\
    read_entries parse (lines_from out 0 0) = Ok (es, bad') /\ length bad' = length bad.
Proof.
  assert (Hfits : Forall fits (split_lines [] file)).
  { eapply Forall_impl; [done|]. unfold fits. simpl. lia. }
  destruct (compacted_rows parse Hws now (split_lines [] file)) as (rs & Hc & Hp & Hl & He & Hm & Ht);
    [apply split_lines_shape, not_elem_of_nil|].
  destruct (read_entries_rows parse 0 0 _ Hfits) as (bad & Hr & Hbad).
  destruct (read_entries_rows parse 0 0 rs) as (bad' & Hr' & Hbad'); [by apply Hl|].
  exists (concat rs), (rows_entries parse (split_lines [] file)), bad, bad'.
  rewrite raw_rows_split, compact_rows_total, Hc by done. unfold lines_from. rewrite !drop_0, Hr.
  assert (split_lines [] (concat rs) = rs) as Hsplit.
  { rewrite <- (app_nil_r (concat rs)), split_lines_concat by done. simpl. by rewrite app_nil_r. }
  rewrite Hsplit, Hr', He. repeat split; congruence.
Qed.

(** ** Recovery rewrites rows in place *)

Section Recover.
Variable parse : list ascii -> option Entry.
Variable json : Entry -> list ascii.
Variable held : string -> bool.
Variable now : Z.

(** The row's entries in the scan's work lists. *)
Definition row_abandoned (off : Z) (raw : list ascii) : list (Z * Z * string) :=
  match prepared_marker parse raw with
  | Some m => if held m then [] else [(off, Z.of_nat (length raw), m)]
  | None => []
  end.
Definition row_stale (off : Z) (raw : list ascii) : list (Z * Z * Z) :=
  match stale_date parse now raw with
  | Some ts => [(off, Z.of_nat (length raw), ts)]
  | None => []
  end.

Lemma scan_row_lists off raw s s' :
  scan_row parse held now off raw s = Ok s' ->
  (forall m, prepared_marker parse raw = Some m -> forall a, a ∈ abandoned s -> a.2 <> m) ->
  abandoned s' = abandoned s ++ row_abandoned off raw /\
  stale_armed_rows s' = stale_armed_rows s ++ row_stale off raw.
Proof.
  unfold scan_row, row_abandoned, row_stale, prepared_marker, stale_date.
  destruct (is_reservation_slot_len _) eqn:Es; simpl.
  2: { destruct (contains_bytes _ _); simpl; [|intros [= <-] _; by rewrite !app_nil_r].
       destruct (parse _) as [e|]; intros [= <-] _; simpl; rewrite !app_nil_r; [|done].
       by destruct (is_stale_armed_reservation _ _); rewrite ?app_nil_r. }
  destruct (parse _) as [e|]; [|intros [= <-] _; by rewrite !app_nil_r].
  destruct (_ && bool_decide (e_model e = PREPARED_RESERVATION_MODEL)).
  2: { intros [= <-] _. simpl. rewrite !app_nil_r.
       by destruct (is_stale_armed_reservation _ _); rewrite ?app_nil_r. }
  destruct (reservation_marker e) as [m|]; [|done]. intros Hs Hfresh.
  assert (existsb (fun a => bool_decide (a.2 = m)) (abandoned s) = false) as Hex.
  { apply existsb_none. intros a Ha. apply bool_decide_eq_false. by apply Hfresh. }
  rewrite Hex, orb_false_r in Hs.
  destruct (held m); injection Hs as <-; simpl; rewrite ?app_nil_r;
    (split; [done|by destruct (is_stale_armed_reservation _ _)]).
Qed.

Fixpoint rows_work {A} (f : Z -> list ascii -> list A) (off : Z) (rows : list (list ascii)) : list A :=
  match rows with
  | [] => []
  | r :: rows => f off r ++ rows_work f (off + Z.of_nat (length r)) rows
  end.

Lemma row_abandoned_marker off raw a :
  a ∈ row_abandoned off raw -> prepared_marker parse raw = Some a.2.
Proof.
  unfold row_abandoned. destruct (prepared_marker _ _) as [m|].
  - destruct (held m); [intros Ha; by apply not_elem_of_nil in Ha|].
    by intros ->%list_elem_of_singleton.
  - intros Ha; by apply not_elem_of_nil in Ha.
Qed.

Lemma scan_rows_lists off line_no rows s s' :
  scan_rows parse held now off line_no rows s = Ok s' ->
  0 <= off -> off + Z.of_nat (length (concat rows)) <= U64_MAX ->
  NoDup (omap (prepared_marker parse) rows) ->
  (forall m, m ∈ omap (prepared_marker parse) rows -> forall a, a ∈ abandoned s -> a.2 <> m) ->
  abandoned s' = abandoned s ++ rows_work row_abandoned off rows /\
  stale_armed_rows s' = stale_armed_rows s ++ rows_work row_stale off rows.
Proof.
  revert off line_no s. induction rows as [|r rows IH]; intros off line_no s; simpl.
  { intros [= <-]. by rewrite !app_nil_r. }
  destruct (_ <? _); [done|]. destruct (scan_row _ _ _ _ _ _) as [s1|] eqn:E; [|done].
  rewrite length_app, Nat2Z.inj_add. intros Hs Ho Hle Hnd Hfresh.
  assert (u64_sat_add off (Z.of_nat (length r)) = off + Z.of_nat (length r)) as Hsat by ints.
  rewrite Hsat in Hs.
  destruct (scan_row_lists _ _ _ _ E) as [Ha Hst].
  { intros m Hm. apply Hfresh. rewrite Hm. by left. }
  destruct (IH _ _ _ Hs) as [-> ->]; [lia|lia| | |].
  - destruct (prepared_marker parse r); [by apply NoDup_cons in Hnd as [_ ?]|done].
  - intros m Hm a. rewrite Ha, elem_of_app. intros [Hin|Hin].
    + apply Hfresh; [|done]. destruct (prepared_marker parse r); [by right|done].
    + apply row_abandoned_marker in Hin. rewrite Hin in Hnd. apply NoDup_cons in Hnd as [Hnd _].
      by intros <-.
  - by rewrite Ha, Hst, <- !app_assoc.
Qed.

(** Work items that rewrite a row with a row of its length rewrite the rows one
    by one. *)
Lemma rewrite_rows {A} (f : Z -> list ascii -> list A) (act : list ascii -> A -> list ascii)
    (one : list ascii -> list ascii -> list ascii) (q : list ascii) rows curs :
  (forall q raw cur rest, length raw = length cur ->
     fold_left act (f (Z.of_nat (length q)) raw) (q ++ cur ++ rest) = q ++ one raw cur ++ rest /\
     length (one raw cur) = length cur) ->
  Forall2 (fun raw cur : list ascii => length raw = length cur) rows curs ->
  fold_left act (rows_work f (Z.of_nat (length q)) rows) (q ++ concat curs) =
    q ++ concat (zip_with one rows curs) /\
  Forall2 (fun raw cur : list ascii => length raw = length cur) rows (zip_with one rows curs).
Proof.
  intros Hact Hall. revert q. induction Hall as [|raw cur rows curs Hl _ IH]; intros q; simpl; [done|].
  destruct (Hact q raw cur (concat curs) Hl) as [Hw Hlen]. rewrite fold_left_app, Hw.
  assert (Z.of_nat (length q) + Z.of_nat (length raw) = Z.of_nat (length (q ++ one raw cur))) as ->.
  { rewrite length_app. lia. }
  destruct (IH (q ++ one raw cur)) as [IH1 IH2]. rewrite app_assoc, IH1, <- app_assoc.
  split; [done|]. constructor; [lia|done].
Qed.

Lemma blank_one_rewrites (q raw cur rest : list ascii) :
  length raw = length cur ->
  fold_left blank_abandoned (row_abandoned (Z.of_nat (length q)) raw) (q ++ cur ++ rest) =
    q ++ blank_one parse held raw cur ++ rest /\
  length (blank_one parse held raw cur) = length cur.
Proof.
  intros Hl. unfold row_abandoned, blank_one.
  destruct (prepared_marker parse raw) as [m|] eqn:E; [|done]. destruct (held m); [done|]. simpl.
  assert (is_reservation_slot_len (Z.of_nat (length raw)) = true) as Hs.
  { unfold prepared_marker in E. by destruct (is_reservation_slot_len _). }
  assert (length (blank_row (Z.of_nat (length raw))) = length raw) as Hb.
  { apply Nat2Z.inj. apply pad_row_length. revert Hs. unfold is_reservation_slot_len,
      BILLABLE_RESERVATION_BYTES, LEGACY_RESERVATION_BYTES. simpl. lia. }
  rewrite write_row by lia. split; [done|lia].
Qed.

Lemma entry_row_length e n line :
  entry_row json e n = Ok line -> Z.of_nat (length line) = n.
Proof. unfold entry_row. case_match eqn:E; [done|]. intros [= <-]. apply pad_row_length. lia. Qed.

Lemma settle_one_rewrites (q raw cur rest : list ascii) :
  length raw = length cur ->
  fold_left (settle_stale json) (row_stale (Z.of_nat (length q)) raw) (q ++ cur ++ rest) =
    q ++ settle_one parse json now raw cur ++ rest /\
  length (settle_one parse json now raw cur) = length cur.
Proof.
  intros Hl. unfold row_stale, settle_one. destruct (stale_date parse now raw) as [ts|]; [|done].
  simpl. destruct (entry_row json _ _) as [line|] eqn:E; [|done]. apply entry_row_length in E.
  rewrite write_row by lia. split; [done|lia].
Qed.

Lemma zip_recover rows :
  zip_with (settle_one parse json now) rows (zip_with (blank_one parse held) rows rows) =
  map (recover_row parse json held now) rows.
Proof. induction rows as [|r rows IH]; simpl; [done|]. by rewrite IH. Qed.
End Recover.

(** C16: recovery only rewrites rows in place.  If the markers of the prepared
    slots are distinct, the bytes before the checkpoint are untouched and every
    row after it keeps its place and length: an abandoned prepared slot is
    blanked, a stale armed reservation becomes a settled unknown-cost row when
    it fits, every other row is byte-identical, whatever order the rewrites
    are applied in. *)
Theorem recovery_in_place parse json held file base now file' stats
    (Hrun : recover_abandoned_prepared parse json held file base now = Ok (file', stats))
    (Hoff : 0 <= offset (default checkpoint_default base) <= Z.of_nat (length file))
    (Hlen : Z.of_nat (length file) <= U64_MAX)
    (Hfit : Forall fits (split_lines [] (drop (Z.to_nat (offset (default checkpoint_default base))) file)))
    (Hnd : NoDup (omap (prepared_marker parse)
             (split_lines [] (drop (Z.to_nat (offset (default checkpoint_default base))) file)))) :
  let o := Z.to_nat (offset (default checkpoint_default base)) in
  file' = take o file ++
          concat (map (recover_row parse json held now) (split_lines [] (drop o file))) /\
  length file' = length file.
Proof.
  simpl. set (o := Z.to_nat (offset (default checkpoint_default base))) in *.
  unfold recover_abandoned_prepared in Hrun.
  destruct (scan_rows _ _ _ _ _ _ _) as [s|] eqn:Es; [|done]. injection Hrun as <- _.
  fold o in Es. rewrite raw_rows_split in Es by done.
  pose proof (concat_split_lines [] (drop o file)) as Hc. simpl in Hc.
  assert (Z.of_nat (length (take o file)) = offset (default checkpoint_default base)) as Ho.
  { rewrite length_take. lia. }
  apply scan_rows_lists in Es as [Ha Hs]; simpl in *; [|lia| |done|].
  2: { rewrite Hc, length_drop. lia. }
  2: { intros m _ a Hin. by apply not_elem_of_nil in Hin. }
  rewrite Ha, Hs, <- Ho.
  assert (Forall2 (fun raw cur : list ascii => length raw = length cur)
            (split_lines [] (drop o file)) (split_lines [] (drop o file))) as Hall
    by (generalize (split_lines [] (drop o file)); intros l; induction l; by constructor).
  destruct (rewrite_rows _ _ _ (take o file) _ _ (blank_one_rewrites parse held) Hall) as [Hb Hall2].
  destruct (rewrite_rows _ _ _ (take o file) _ _ (settle_one_rewrites parse json now) Hall2) as [Hst Hall3].
  rewrite zip_recover in Hst, Hall3.
  assert (take o file ++ concat (split_lines [] (drop o file)) = file) as Hfile
    by (by rewrite Hc, take_drop).
  rewrite Hfile in Hb. rewrite Hb, Hst. split; [done|].
  rewrite <- (f_equal length Hfile), !length_app. f_equal.
  clear -Hall3. induction Hall3; simpl; [done|]. rewrite !length_app. lia.
Qed.

(** ** The reservation's own row *)

Lemma is_prefix_of_app n a b : is_prefix_of n a = true -> is_prefix_of n (a ++ b) = true.
Proof.
  revert a. induction n as [|x n IH]; intros [|y a]; simpl; try done.
  rewrite !andb_true_iff. intros [? ?]. split; [done|by apply IH].
Qed.

Lemma read_slot_at (pre slot rest : list ascii) n :
  Z.of_nat (length slot) = n ->
  read_slot (pre ++ slot ++ rest) (Z.of_nat (length pre)) n = Ok slot.
Proof.
  intros <-. unfold read_slot. rewrite !Nat2Z.id, drop_app_length, take_app_length.
  by rewrite Z.eqb_refl.
Qed.

Lemma find_row_at off n m pre slot rows :
  Forall (fun r => negb ((Z.of_nat (length r) =? n) && contains_bytes r m)) pre ->
  Z.of_nat (length slot) = n -> contains_bytes slot m = true ->
  0 <= off -> off + Z.of_nat (length (concat pre)) <= U64_MAX ->
  find_row off n m (pre ++ slot :: rows) = Some (off + Z.of_nat (length (concat pre))).
Proof.
  intros Hpre Hl Hm. revert off. induction Hpre as [|r pre Hr _ IH]; intros off Ho Hle; simpl in *.
  - rewrite Hl, Z.eqb_refl, Hm. simpl. f_equal. lia.
  - rewrite length_app, Nat2Z.inj_add in *. destruct (_ && _); [done|].
    assert (u64_sat_add off (Z.of_nat (length r)) = off + Z.of_nat (length r)) as -> by ints.
    rewrite IH by lia. f_equal. lia.
Qed.

(** The slot is where the reservation left it, or it is the first row of the
    file that can be it and the old place fails the check. *)
Definition reachable_slot (r : BillableReservation) (pre : list (list ascii)) (slot rest : list ascii) : Prop :=
  Z.of_nat (length slot) = slot_bytes r /\ contains_bytes slot (marker r) = true /\
  (r_offset r = Z.of_nat (length (concat pre)) \/
   (is_ok (verify_reservation_slot (concat pre ++ slot ++ rest) (r_offset r) (slot_bytes r) (marker r)) = false /\
    Forall (fun r' => negb ((Z.of_nat (length r') =? slot_bytes r) && contains_bytes r' (marker r))) pre)).

Lemma relocate_reaches r pre slot rest :
  Forall proper_line pre -> proper_line slot -> reachable_slot r pre slot rest ->
  Forall fits (split_lines [] (concat pre ++ slot ++ rest)) ->
  Z.of_nat (length (concat pre ++ slot ++ rest)) <= U64_MAX ->
  relocate r (concat pre ++ slot ++ rest) = Ok (with_offset r (Z.of_nat (length (concat pre)))).
Proof.
  intros Hp Hs (Hl & Hm & Hw) Hfit Hlen. unfold relocate.
  destruct Hw as [Ho|[Hv Hno]].
  - unfold verify_reservation_slot. rewrite Ho, read_slot_at, Hm by done.
    rewrite <- Ho. by destruct r.
  - destruct (verify_reservation_slot _ _ _ _); [done|].
    unfold find_reservation_slot. rewrite raw_rows_split by done.
    assert (split_lines [] (concat pre ++ slot ++ rest) = pre ++ slot :: split_lines [] rest) as ->.
    { rewrite split_lines_concat by done. f_equal.
      rewrite <- (app_nil_r slot) at 1. change (slot ++ []) with (concat [slot]).
      rewrite split_lines_concat; [done|by constructor]. }
    rewrite length_app in Hlen. rewrite find_row_at; [done..|lia|lia].
Qed.

(** C18: reconciliation replaces exactly the reservation's row.  When the slot
    can be reached, it still has its place or it is the first row of its size
    with the marker, a valid entry that fits takes the slot's place, padded to
    the slot's length: every other row of the ledger is byte-identical and
    keeps its offset. *)
Theorem reconcile_replaces_row json r e pre slot rest row
    (Hpre : Forall proper_line pre) (Hslot : proper_line slot)
    (Hreach : reachable_slot r pre slot rest)
    (Hfit : Forall fits (split_lines [] (concat pre ++ slot ++ rest)))
    (Hlen : Z.of_nat (length (concat pre ++ slot ++ rest)) <= U64_MAX)
    (Hvalid : entry_numbers_valid e = true)
    (Hrow : entry_row json e (slot_bytes r) = Ok row)
    (Hnl : NL ∉ fit_entry_json json e (slot_bytes r)) :
  reconcile json r (concat pre ++ slot ++ rest) e = (concat pre ++ row ++ rest, Ok tt) /\
  split_lines [] (concat pre ++ row ++ rest) = pre ++ row :: split_lines [] rest /\
  length row = length slot.
Proof.
  assert (length row = length slot) as Hrl.
  { apply Nat2Z.inj. rewrite (entry_row_length _ _ _ _ Hrow). by destruct Hreach as [-> _]. }
  split; [|split; [|done]].
  - unfold reconcile, write_slot. rewrite Hvalid. simpl. rewrite Hrow.
    assert (relocate (with_armed r (dispatched_provider r) (dispatched_model r)) (concat pre ++ slot ++ rest) =
            Ok (with_offset (with_armed r (dispatched_provider r) (dispatched_model r))
                  (Z.of_nat (length (concat pre))))) as ->.
    { by apply relocate_reaches. }
    simpl. rewrite write_row by done. unfold drop_reservation. done.
  - rewrite split_lines_concat by done. f_equal.
    assert (proper_line row) as Hp.
    { unfold entry_row in Hrow. case_match; [done|]. injection Hrow as <-. by apply pad_row_proper. }
    rewrite <- (app_nil_r row) at 1. change (row ++ []) with (concat [row]).
    rewrite split_lines_concat; [done|by constructor].
Qed.

(** ** A concrete ledger *)
Module SampleSlots.
Definition hex : string := "00112233445566778899aabbccddeeff".
Definition mark : string := ("zoder-reservation-" +:+ hex)%string.
Definition pending : Entry := pending_entry mark 0.
(** The rows of the examples, and a parser that reads them with any trailing
    white space. *)
Definition row_a : list ascii := bytes_of "aa".
Definition row_p : list ascii := bytes_of ("pending " +:+ mark)%string.
Definition parse (l : list ascii) : option Entry :=
  let p := pop_while is_nl_cr_sp l in
  if bool_decide (p = row_a) then Some Ledger.Sample.paid
  else if bool_decide (p = row_p) then Some pending else None.
Definition json (e : Entry) : list ascii :=
  if bool_decide (e_provider e = RESERVATION_PROVIDER) then row_p else row_a.
Definition abandoned_slot : list ascii := pad_row row_p BILLABLE_RESERVATION_BYTES.
(** The other examples use a slot of 100 bytes. *)
Definition slot : list ascii := pad_row row_p 100.
Definition short_row : list ascii := row_a ++ [NL].
Definition padded_row : list ascii := row_a ++ [SP; SP; NL].
Definition padded_slot : list ascii := pad_row row_a 100.
Definition reservation (off : Z) : BillableReservation :=
  mkReservation off 100 mark true false EmptyString EmptyString 0 (Ok f64_zero).
Definition free (_ : string) : bool := false.

(** Two padded rows, the reservation and a row after it. *)
Definition before : list ascii := padded_row ++ slot ++ short_row.
Definition compacted : list ascii := short_row ++ slot ++ short_row.
Definition after : list ascii :=
  short_row ++ take 2 slot ++ padded_slot ++ drop 2 short_row.

Lemma trailing_ws p c : is_nl_cr_sp c = true -> parse (p ++ [c]) = parse p.
Proof. intros Hc. unfold parse. by rewrite pop_while_snoc, Hc. Qed.

Lemma fits_bool (l : list (list ascii)) :
  forallb (fun r => Z.of_nat (length r) <? MAX_LEDGER_LINE_BYTES) l = true ->
  Forall (fun r => Z.of_nat (length r) < MAX_LEDGER_LINE_BYTES) l.
Proof. rewrite forallb_elem, Forall_forall. intros Hall x Hx. specialize (Hall x Hx). lia. Qed.

Lemma fits_all (l : list (list ascii)) :
  forallb (fun r => Z.of_nat (length r) <? MAX_LEDGER_LINE_BYTES) l = true -> Forall fits l.
Proof. intros Hl%fits_bool. eapply Forall_impl; [done|]. unfold fits. simpl. lia. Qed.
End SampleSlots.

Lemma compaction_keeps_entries_witness :
  exists out es bad bad',
    compact_rows SampleSlots.parse 0 (raw_rows SampleSlots.before) = Ok out /\
    row_texts (split_lines [] out) = row_texts (split_lines [] SampleSlots.before) /\
    read_entries SampleSlots.parse (lines_from SampleSlots.before 0 0) = Ok (es, bad) /\
    read_entries SampleSlots.parse (lines_from out 0 0) = Ok (es, bad') /\ length bad' = length bad.
Proof.
  apply (compaction_keeps_entries SampleSlots.parse 0 SampleSlots.before);
    [exact SampleSlots.trailing_ws|apply SampleSlots.fits_bool; vm_compute; reflexivity].
Defined.

Lemma recovery_in_place_witness :
  exists file' stats,
    recover_abandoned_prepared SampleSlots.parse SampleSlots.json SampleSlots.free
      SampleSlots.abandoned_slot None 0 = Ok (file', stats) /\
    let o := Z.to_nat (offset (default checkpoint_default None)) in
    file' = take o SampleSlots.abandoned_slot ++
      concat (map (recover_row SampleSlots.parse SampleSlots.json SampleSlots.free 0)
                (split_lines [] (drop o SampleSlots.abandoned_slot))) /\
    length file' = length SampleSlots.abandoned_slot.
Proof.
  destruct (recover_abandoned_prepared SampleSlots.parse SampleSlots.json SampleSlots.free
              SampleSlots.abandoned_slot None 0) as [[file' stats]|] eqn:Hrun.
  2: { exfalso. assert (is_ok (recover_abandoned_prepared SampleSlots.parse SampleSlots.json
         SampleSlots.free SampleSlots.abandoned_slot None 0) = true) as Hok by (vm_compute; reflexivity).
       rewrite Hrun in Hok. discriminate. }
  exists file', stats. split; [reflexivity|].
  apply (recovery_in_place SampleSlots.parse SampleSlots.json SampleSlots.free
           SampleSlots.abandoned_slot None 0 file' stats Hrun).
  - split; vm_compute; discriminate.
  - vm_compute. discriminate.
  - apply SampleSlots.fits_all. vm_compute. reflexivity.
  - apply (proj1 (bool_decide_eq_true _)). vm_compute. reflexivity.
Defined.

Lemma reconcile_replaces_row_witness :
  exists pre slot rest row, slot <> row /\
  reconcile SampleSlots.json (SampleSlots.reservation 5) (concat pre ++ slot ++ rest) Ledger.Sample.paid =
    (concat pre ++ row ++ rest, Ok tt).
Proof.
  exists [SampleSlots.padded_row], SampleSlots.slot, SampleSlots.short_row, SampleSlots.padded_slot.
  split; [apply (proj1 (bool_decide_eq_false (SampleSlots.slot = SampleSlots.padded_slot))); vm_compute; reflexivity|].
  refine (proj1 (reconcile_replaces_row SampleSlots.json (SampleSlots.reservation 5)
    Ledger.Sample.paid [SampleSlots.padded_row] SampleSlots.slot SampleSlots.short_row
    SampleSlots.padded_slot _ _ _ _ _ _ _ _)).
  - constructor; [|constructor]. exists (SampleSlots.row_a ++ [SP; SP]).
    split; [apply (bool_decide_eq_true (NL ∉ SampleSlots.row_a ++ [SP; SP]))|]; vm_compute; reflexivity.
  - apply pad_row_proper. apply (proj1 (bool_decide_eq_true (NL ∉ SampleSlots.row_p))). vm_compute. reflexivity.
  - split; [|split; [|left]]; vm_compute; reflexivity.
  - apply SampleSlots.fits_all. vm_compute. reflexivity.
  - vm_compute. discriminate.
  - vm_compute. reflexivity.
  - vm_compute. reflexivity.
  - apply (proj1 (bool_decide_eq_true (NL ∉ fit_entry_json SampleSlots.json Ledger.Sample.paid
      (slot_bytes (SampleSlots.reservation 5))))). vm_compute. reflexivity.
Defined.

(** A compaction that shifts a live reservation by less than its marker's
    distance to the slot's start makes the reconciliation destroy another row.
    The check at the stale offset looks for the marker anywhere in the window
    and not for a row boundary, so it accepts the misaligned window: on this
    ledger the reconciliation reports success, and afterwards the strict read
    fails, the row after the reservation is gone. *)
Theorem misaligned_reconcile_corrupts :
  entries_strict SampleSlots.parse SampleSlots.before =
    Ok [Ledger.Sample.paid; SampleSlots.pending; Ledger.Sample.paid] /\
  compact_rows SampleSlots.parse 0 (raw_rows SampleSlots.before) = Ok SampleSlots.compacted /\
  reconcile SampleSlots.json (SampleSlots.reservation 5) SampleSlots.compacted Ledger.Sample.paid =
    (SampleSlots.after, Ok tt) /\
  entries_strict SampleSlots.parse SampleSlots.after = Err (MalformedRows [2]).
Proof. repeat split; vm_compute; reflexivity. Qed.

(** ** A pending reservation and the month total *)

Lemma month_add_unknown_nonneg es t :
  Forall (fun e => 0 < calls e) es -> 0 <= unknown_cost_calls t ->
  0 <= unknown_cost_calls (fold_left month_add es t).
Proof.
  intros Hes. revert t. induction Hes as [|e es He _ IH]; intros t Ht; simpl; [done|]. apply IH.
  unfold month_add. repeat case_match; simpl; ints.
Qed.

Lemma parse_valid_calls parse p e : parse_valid parse p = Some e -> 0 < calls e.
Proof.
  unfold parse_valid, opt_filter. destruct (parse p) as [e'|]; [|done].
  destruct (entry_numbers_valid e') eqn:E; [|done]. intros [= <-].
  unfold entry_numbers_valid in E. rewrite !andb_true_iff in E. lia.
Qed.

Lemma rows_entries_calls parse rows : Forall (fun e => 0 < calls e) (rows_entries parse rows).
Proof.
  induction rows as [|r rows IH]; [constructor|]. rewrite rows_entries_cons. unfold row_entry.
  destruct (is_blank _); [done|]. destruct (parse_valid parse _) as [e|] eqn:E; [|done].
  constructor; [by eapply parse_valid_calls|done].
Qed.

Lemma rows_entries_app parse r1 r2 : rows_entries parse (r1 ++ r2) = rows_entries parse r1 ++ rows_entries parse r2.
Proof.
  induction r1 as [|r r1 IH]; [done|]. rewrite <- app_comm_cons, !rows_entries_cons, IH.
  by rewrite app_assoc.
Qed.

(** A call of unknown cost in the month leaves it without a total. *)
Lemma month_add_unknown_pos es t : Forall (fun e => 0 < calls e) es -> 1 <= unknown_cost_calls t ->
  1 <= unknown_cost_calls (fold_left month_add es t).
Proof.
  revert t. induction es as [|e es IH]; intros t Hall Ht; [done|]. apply Forall_cons in Hall as [He Hall]. simpl. apply IH; [done|].
  unfold month_add. repeat case_match; simpl; try done. ints.
Qed.
Lemma unknown_call_no_total `{Calendar} es e : Forall (fun e => 0 < calls e) es -> e ∈ es -> is_metered e = true -> cost_unknown e = true ->
  is_ok (month_to_date (fold_left month_add es month_default)) = false.
Proof.
  intros Hall (l1 & l2 & ->)%list_elem_of_split Hm Hu. apply Forall_app in Hall as [H1 [He H2]%Forall_cons].
  rewrite fold_left_app. simpl.
  assert (1 <= unknown_cost_calls (fold_left month_add l2 (month_add (fold_left month_add l1 month_default) e))) as Hpos.
  { apply month_add_unknown_pos; [done|]. pose proof (month_add_unknown_nonneg l1 month_default H1 ltac:(done)) as Hn.
    unfold month_add at 1. rewrite Hm, Hu. simpl. ints. }
  unfold month_to_date. destruct (overflowed _); [done|]. destruct (0 <? _) eqn:E; [done|lia].
Qed.
Lemma counted_calls `{Calendar} parse skip ls : Forall (fun e => 0 < calls e) (omap (counted_entry parse skip) ls).
Proof.
  apply Forall_forall. intros e ([line|] & _ & He)%list_elem_of_omap; [|done]. unfold counted_entry in He.
  destruct (is_blank _); [done|]. apply opt_filter_Some in He as [He _]. by eapply parse_valid_calls.
Qed.
Lemma read_entries_ok_lines `{Calendar} parse off before raws es bad raw : read_entries parse (ledger_lines off before raws) = Ok (es, bad) -> raw ∈ raws ->
  exists line off' before', read_line off' before' raw = Ok line /\ Ok line ∈ ledger_lines off before raws.
Proof.
  revert off before es bad. induction raws as [|r raws IH]; intros off before es bad; [by intros _ ?%not_elem_of_nil|]. cbn [ledger_lines].
  destruct (read_line off before r) as [line|] eqn:E; [|done]. cbn [read_entries].
  destruct (read_entries parse (ledger_lines (u64_sat_add off (raw_len line)) (before + 1) raws)) as [[es' bad']|] eqn:Er; [|done].
  intros _ [->|Hin]%elem_of_cons; [exists line, off, before; split; [done|left]|].
  destruct (IH _ _ _ _ Er Hin) as (l & o & b & Hl & Hi). exists l, o, b. split; [done|by right].
Qed.
(** The bytes before a row: nothing, or whole rows. *)
Definition ends_row (before : list ascii) : Prop := before = [] \/ last before = Some NL.
Lemma split_lines_ended cur before rest : NL ∉ cur -> (before = [] /\ cur = []) \/ last (rev cur ++ before) = Some NL ->
  split_lines cur (before ++ rest) = split_lines cur before ++ split_lines [] rest.
Proof.
  revert cur. induction before as [|b before IH]; intros cur Hcur Hend.
  - destruct Hend as [[_ ->]|Hl]; [done|]. rewrite app_nil_r in Hl. destruct Hcur.
    apply last_Some in Hl as [l' Hl]. rewrite list_elem_of_In, in_rev, <- list_elem_of_In, Hl. apply elem_of_app. right. left.
  - cbn [app split_lines]. destruct (decide (b = NL)) as [->|Hne].
    + rewrite bool_decide_eq_true_2 by done. cbn [app]. f_equal. apply IH; [apply not_elem_of_nil|].
      destruct Hend as [[? _]|Hl]; [done|]. destruct before as [|c before]; [by left|]. right. cbn [rev app].
      change (rev cur ++ NL :: c :: before) with (rev cur ++ ([NL] ++ (c :: before))) in Hl. rewrite app_assoc, last_app_cons in Hl. done.
    + rewrite bool_decide_eq_false_2 by done. apply IH; [by apply not_elem_of_cons|]. right. destruct Hend as [[? _]|Hl]; [done|].
      cbn [rev]. by rewrite <- app_assoc.
Qed.
Lemma ends_row_rows before rest : ends_row before -> split_lines [] (before ++ rest) = split_lines [] before ++ split_lines [] rest.
Proof. intros [->|Hl]; apply split_lines_ended; try apply not_elem_of_nil; [by left|by right]. Qed.
Lemma substring_whole s n : (String.length s <= n)%nat -> String.substring 0 n s = s.
Proof. revert n. induction s as [|c s IH]; intros [|n] Hn; simpl in *; try done; [lia|]. rewrite IH; [done|lia]. Qed.
Lemma substring_skip a b n : String.substring (String.length a) n (a +:+ b) = String.substring 0 n b.
Proof. induction a as [|c a IH]; [done|]. exact IH. Qed.
Lemma substring_take a b : String.substring 0 (String.length a) (a +:+ b) = a.
Proof. induction a as [|c a IH]; [by destruct b|]. change (String c (String.substring 0 (String.length a) (a +:+ b)) = String c a). by rewrite IH. Qed.
Lemma prefix_app p s : String.prefix p (p +:+ s) = true.
Proof. induction p as [|c p IH]; [by destruct s|]. change ((if ascii_dec c c then String.prefix p (p +:+ s) else false) = true). by destruct (ascii_dec c c). Qed.
Lemma str_app_longer p s : (String.length s <= String.length (p +:+ s))%nat.
Proof. induction p as [|c p IH]; [done|]. change (String.length s <= S (String.length (p +:+ s)))%nat. lia. Qed.
Lemma strip_prefix_self p s : strip_prefix p (p +:+ s) = Some s.
Proof. unfold strip_prefix. rewrite prefix_app, substring_skip, substring_whole; [done|]. by apply str_app_longer. Qed.
Lemma strip_close_self s : strip_close (s +:+ ")") = Some s.
Proof.
  unfold strip_close.
  assert (String.length (s +:+ ")") = S (String.length s)) as ->.
  { induction s as [|c s IH]; [done|]. change (S (String.length (s +:+ ")")) = S (S (String.length s))). by rewrite IH. }
  replace (S (String.length s) - 1)%nat with (String.length s) by lia.
  assert (String.get (String.length s) (s +:+ ")") = Some ")"%char) as ->.
  { induction s as [|c s IH]; [done|exact IH]. }
  rewrite bool_decide_eq_true_2 by done. by rewrite substring_take.
Qed.
Lemma pending_marker ts hex : String.length hex = 32%nat -> forallb is_hex (bytes_of hex) = true ->
  reservation_marker (pending_entry ("zoder-reservation-" +:+ hex) ts) = Some ("zoder-reservation-" +:+ hex)%string.
Proof.
  intros Hl Hh. unfold reservation_marker, pending_entry. cbn [unknown_entry violation mbind option_bind].
  rewrite strip_prefix_self. cbn [mbind option_bind]. rewrite strip_close_self, strip_prefix_self.
  unfold bytes_of in Hh. by rewrite Hl, Hh.
Qed.

(** C5: a reservation makes the month fail closed.  Once [reserve_billable] has
    written its pending row, every read of that month's spend refuses to give a
    total for as long as the row is in the file, its owner's lock is not seen to
    be free or gone, and the bytes before it end a row: whatever rows precede
    and follow it, malformed ones and an unterminated end included, and from
    whatever published checkpoint the read resumes.  So no concurrent budget
    decision can miss the call in flight. *)
Theorem reservation_fails_closed `{Calendar} parse json checkpoint_bytes held opened ts fresh hex st st' r before rest file base owner now
    (Hres : reserve_billable parse json checkpoint_bytes held opened ts fresh hex st = (st', Ok r))
    (Hhex : String.length hex = 32%nat /\ forallb is_hex (bytes_of hex) = true)
    (Hparse : parse (pop_while is_nl_cr (pad_row (json (pending_entry (marker r) ts)) BILLABLE_RESERVATION_BYTES)) =
              Some (pending_entry (marker r) ts))
    (Hjson : NL ∉ json (pending_entry (marker r) ts))
    (Hlen : Z.of_nat (length (json (pending_entry (marker r) ts))) < BILLABLE_RESERVATION_BYTES)
    (Hblank : is_blank (json (pending_entry (marker r) ts)) = false)
    (Hbefore : ends_row before)
    (Howner : owner (marker r) = OwnerHeld \/ owner (marker r) = OwnerUnopened)
    (Hfile : file = before ++ drop (Z.to_nat (r_offset r)) (st_file st') ++ rest)
    (Hmonth : fmt_ym ts = fmt_ym now)
    (Hbase : base = None \/ exists p c, base = Some c /\ Published parse checkpoint_bytes p c /\ p `prefix_of` file /\ Z.of_nat (length file) <= U64_MAX) :
  is_ok (month_to_date_usd_at parse file base owner now) = false.
Proof.
  assert (exists st1 m, st' = append st1 (pad_row (json (pending_entry m ts)) BILLABLE_RESERVATION_BYTES) /\ r_offset r = Z.of_nat (length (st_file st1)) /\
    marker r = m /\ m = ("zoder-reservation-" +:+ hex)%string) as (st1 & m & -> & Ho & Hrm & Hm).
  { unfold reserve_billable in Hres. destruct (open_and_fold _ _ _ _ _ _ st) as [st1 [f|]]; [|done]. injection Hres as <- <-. by exists st1, ("zoder-reservation-" +:+ hex)%string. }
  rewrite Hrm in *. clear Hres Hrm. subst m. set (e := pending_entry _ ts) in *. set (slot := pad_row (json e) BILLABLE_RESERVATION_BYTES) in *.
  unfold append in Hfile. cbn [st_file] in Hfile. rewrite Ho, Nat2Z.id, drop_app_length in Hfile.
  assert (month_to_date_usd_at parse file base owner now = month_to_date_usd_at parse file None owner now \/ is_ok (month_to_date_usd_at parse file base owner now) = is_ok (month_to_date_usd_at parse file None owner now)) as Hb.
  { destruct Hbase as [->|(p & c & -> & Hp & Hpre & Hfl)]; [by left|]. right.
    pose proof (checkpoint_views parse checkpoint_bytes p c file (prepared_owner_is_gone owner) Hp Hpre Hfl) as Hv.
    unfold month_to_date_usd_at. destruct (fold_ledger parse file (Some c) _) as [f1|], (fold_ledger parse file None _) as [f2|]; try done.
    cbn in Hv. unfold fold_view in Hv. injection Hv as Hv ?. unfold fold_month_to_date_at. by rewrite Hv. }
  assert (is_ok (month_to_date_usd_at parse file None owner now) = false) as Hf; [|by destruct Hb as [Hb|Hb]; rewrite Hb]. clear Hb Hbase base.
  unfold month_to_date_usd_at, fold_ledger. simpl.
  pose proof (fold_lines_entries parse (prepared_owner_is_gone owner) (lines_from file 0 0) (mkFold ∅ checkpoint_default true [])) as Hf.
  destruct (read_entries parse (lines_from file 0 0)) as [[es bad]|x] eqn:Er; [|by rewrite Hf].
  destruct Hf as (s' & -> & Hmo & Hmal). destruct (fs_malformed s'); [|done]. rewrite month_lookup. simpl. rewrite Hmo, add_rows_lookup.
  apply (unknown_call_no_total _ e); [|apply elem_of_filterb; split; [by apply bool_decide_eq_true_2|]|done|done].
  { apply Forall_forall. intros y [_ Hy]%elem_of_filterb. pose proof (counted_calls parse (prepared_owner_is_gone owner) (lines_from file 0 0)) as Hc.
    rewrite Forall_forall in Hc. by apply Hc. }
  assert (Hl : Z.of_nat (length slot) = BILLABLE_RESERVATION_BYTES) by (apply pad_row_length; lia).
  unfold lines_from in *. rewrite drop_0 in *. 
  assert (slot ∈ split_lines [] file) as Hin.
  { rewrite Hfile, ends_row_rows by done. apply elem_of_app. right.
    change (slot ++ rest) with (concat [slot] ++ rest) || (replace (slot ++ rest) with (concat [slot] ++ rest) by (simpl; by rewrite app_nil_r)).
    rewrite split_lines_concat by (constructor; [by apply pad_row_proper|done]). left. }
  destruct (read_entries_ok_lines parse _ _ _ _ _ _ Er Hin) as (line & off & bef & Hr & Hli).
  apply list_elem_of_omap. exists (Ok line). split; [done|].
  unfold read_line in Hr. destruct (_ <? _); [done|]. injection Hr as <-. unfold counted_entry. cbn [payload raw_len].
  assert (is_blank (pop_while is_nl_cr slot) = false) as Hbl.
  { rewrite is_blank_pop by (intros; by apply is_nl_cr_sp_ws, is_nl_cr_le).
    unfold slot, pad_row, is_blank in *. by rewrite forallb_app, Hblank. }
  rewrite Hbl. unfold parse_valid. rewrite Hparse. change (opt_filter entry_numbers_valid (Some e)) with (Some e). cbn [opt_filter].
  assert (prepared_owner_is_gone owner e (Z.of_nat (length slot)) = false) as ->.
  { unfold prepared_owner_is_gone, e. rewrite pending_marker by apply Hhex. rewrite Hl. cbn [negb]. by destruct (is_reservation_slot_len _), Howner as [-> | ->]. }
  by rewrite !andb_false_r.
Qed.

(** A ledger with a row, a reservation made on it, and the reads while it is
    pending. *)
Definition sample_reserved :=
  @reserve_billable gregorian SampleSlots.parse SampleSlots.json (fun _ => []) SampleSlots.free 0 0 (1, 3)
    SampleSlots.hex (mkStore SampleSlots.short_row (1, 2) None).
Lemma sample_reserved_exact :
  match sample_reserved with
  | (st', Ok r) =>
      marker r = SampleSlots.mark /\ r_offset r = 3 /\
      st_file st' = SampleSlots.short_row ++ drop 3 (st_file st') ++ []
  | _ => False
  end.
Proof. vm_compute. repeat split. Qed.

Lemma reservation_fails_closed_witness :
  exists st' r, sample_reserved = (st', Ok r) /\
    is_ok (@month_to_date_usd_at gregorian SampleSlots.parse (st_file st' ++ SampleSlots.row_a) None (fun _ => OwnerHeld) 5) = false.
Proof.
  pose proof sample_reserved_exact as Hs. destruct sample_reserved as [st' [r|]] eqn:Hout; [|done].
  destruct Hs as (Hm & Ho & Hf). exists st', r. split; [reflexivity|].
  refine (reservation_fails_closed SampleSlots.parse SampleSlots.json (fun _ => []) SampleSlots.free 0 0 (1, 3)
           SampleSlots.hex _ st' r SampleSlots.short_row SampleSlots.row_a _ None _ 5 Hout _ _ _ _ _ _ _ _ _ _);
    rewrite ?Hm, ?Ho.
  - split; vm_compute; reflexivity.
  - vm_compute. reflexivity.
  - intros Hin. apply list_elem_of_In in Hin. vm_compute in Hin. intuition discriminate.
  - vm_compute. reflexivity.
  - vm_compute. reflexivity.
  - right. vm_compute. reflexivity.
  - left. reflexivity.
  - rewrite app_assoc. f_equal. rewrite Hf at 1. by rewrite app_nil_r.
  - reflexivity.
  - left. reflexivity.
Defined.

(** [record] appends without looking at the end of the file: on a ledger
    whose last row has lost only its newline it reports success and joins two
    rows into one malformed line, so from then on every strict read fails. *)
Theorem record_joins_unterminated_row :
  let st := mkStore SampleSlots.row_a (1, 2) None in
  let out := @record gregorian SampleSlots.parse SampleSlots.json (fun _ => []) SampleSlots.free 0 (1, 3)
               st Ledger.Sample.paid in
  is_ok out.2 = true /\
  entries_strict SampleSlots.parse (st_file st) = Ok [Ledger.Sample.paid] /\
  entries_strict SampleSlots.parse (st_file out.1) = Err (MalformedRows [1]).
Proof. repeat split; vm_compute; reflexivity. Qed.
