(* ===== verification/Tiers.v ===== *)
(** Subscription tiers (crates/zoder-core/src/subscription_tiers.rs): the
    curated catalog, its validation and loading, and the resolution of a
    plan's windows with their provenance.

    A [BTreeMap] is the list of its entries in key order.  The JSON parser is
    the parameter of [load_tier_catalog]; the warnings are not kept. *)
From S2P Require Import Prelude F64 Config.
Local Open Scope Z_scope.

Definition MAX_TIER_CATALOG_BYTES : Z := 2097152.

Inductive Confidence := Published | Observed | Estimated.
#[export] Instance Confidence_eq_dec : EqDecision Confidence.
Proof. solve_decision. Defined.

Record TierWindow := mkTierWindow {
  tw_name : string;
  tw_hours : Z;                             (* u32 *)
  tw_unit : QuotaUnit;
  tw_cap : option f64;
  tw_models : option (list string);
  tw_observability : Observability;
  tw_reset : ResetKind
}.

(** [TierWindow::into_quota_window] *)
Definition into_quota_window (w : TierWindow) : QuotaWindow :=
  mkQuotaWindow (tw_name w) (tw_hours w) (tw_unit w) (tw_cap w) (tw_models w)
    (tw_observability w) (tw_reset w).

Record TierEntry := mkTier {
  tier_fee_usd : f64;
  tier_confidence : Confidence;
  tier_source : string;
  tier_windows : list TierWindow
}.

Record TierCatalog := mkTierCatalog {
  tc_version : Z;
  as_of : string;
  disclaimer : string;
  tc_providers : list (string * list (string * TierEntry))
}.
Definition tier_catalog_empty : TierCatalog := mkTierCatalog 1 EmptyString EmptyString [].

(** [BTreeMap::get] *)
Definition map_get {A} (m : list (string * A)) (k : string) : option A :=
  snd <$> find_first (fun e => bool_decide (e.1 = k)) m.

(** [TierCatalog::validate]: the windows it complains about, once per
    complaint. *)
Definition window_problems (w : TierWindow) : list string :=
  (if tw_hours w =? 0 then [tw_name w] else []) ++
  (if match tw_cap w with
      | Some c => negb (f64_is_finite c) || (c <=? f64_zero)%f64
      | None => false
      end then [tw_name w] else []).
Definition tier_validate (c : TierCatalog) : list string :=
  concat (map (fun p => concat (map (fun t => concat (map window_problems (tier_windows t.2))) p.2))
            (tc_providers c)).

(** [TierCatalog::tier] *)
Definition tier (c : TierCatalog) (provider_id tier_id : string) : option TierEntry :=
  match map_get (tc_providers c) provider_id with
  | None => None
  | Some tiers => map_get tiers tier_id
  end.

(** The provider family its id, kind, address and tier name mention. *)
Definition classify_identity (identity : string) : option string :=
  if str_contains "minimax" identity then Some "minimax"%string
  else if str_contains "anthropic" identity || str_contains "claude-" identity then Some "anthropic"%string
  else if str_contains "openai" identity || str_contains "codex" identity
          || str_contains "chatgpt-" identity then Some "openai"%string
  else None.

(** [TierCatalog::provider_namespace] *)
Definition provider_namespace (c : TierCatalog) (p : Provider) (tier_id : string) : option string :=
  if bool_decide (is_Some (tier c (prov_id p) tier_id)) then Some (prov_id p)
  else
    let identity := to_ascii_lowercase
      (prov_id p +:+ " " +:+ prov_kind p +:+ " " +:+ base_url p +:+ " " +:+ tier_id) in
    match opt_filter (fun ns => bool_decide (is_Some (tier c ns tier_id))) (classify_identity identity) with
    | Some ns => Some ns
    | None =>
        match filterb (fun e => bool_decide (is_Some (map_get e.2 tier_id))) (tc_providers c) with
        | [only] => Some only.1
        | _ => None
        end
    end.

(** What [load_tier_catalog] finds at the path. *)
Inductive TierFile :=
| TfMissing
| TfNotRegular
| TfUnreadable (bytes : Z)
| TfText (bytes : Z) (text : string).

(** [load_tier_catalog]; [bundled] is the shipped catalog. *)
Definition load_tier_catalog (parse : string -> option TierCatalog) (bundled : TierCatalog)
    (file : option TierFile) : TierCatalog :=
  match file with
  | Some (TfText bytes text) =>
      if MAX_TIER_CATALOG_BYTES <? bytes then bundled
      else match parse text with
           | Some c => match tier_validate c with [] => c | _ => bundled end
           | None => bundled
           end
  | _ => bundled
  end.

Inductive ResolveSource :=
| Explicit
| Preset (provider tier : string)
| PresetWithOverrides (provider tier : string) (overridden : list string)
| UnknownTier (provider : option string) (tier : string).

Inductive WindowProvenance :=
| FromCatalog (confidence : Confidence) (source : string)
| Operator.

Record ResolvedPlan := mkResolved {
  rp_windows : list QuotaWindow;
  rp_provenance : list WindowProvenance;
  rp_source : ResolveSource
}.

Definition operator_windows (ws : list QuotaWindow) (src : ResolveSource) : ResolvedPlan :=
  mkResolved ws (map (fun _ => Operator) ws) src.

Definition preset_provenance (t : TierEntry) : WindowProvenance :=
  FromCatalog (tier_confidence t) (tier_source t).

(** The first loop of the merge: a preset window or its override. *)
Definition merge_preset (explicit : list QuotaWindow) (t : TierEntry) (w : TierWindow) :
    QuotaWindow * WindowProvenance :=
  match find_first (fun ow => bool_decide (qw_name ow = tw_name w)) explicit with
  | Some ow => (ow, Operator)
  | None => (into_quota_window w, preset_provenance t)
  end.
(** The second loop: the explicit windows the preset does not name. *)
Definition extra_windows (explicit : list QuotaWindow) (t : TierEntry) : list QuotaWindow :=
  filterb (fun ow => negb (existsb (fun w => bool_decide (tw_name w = qw_name ow)) (tier_windows t))) explicit.

(** [resolve_plan_windows] *)
Definition resolve_plan_windows (plan : SubscriptionPlan) (catalog : TierCatalog)
    (provider_id : option string) : ResolvedPlan :=
  match plan_tier plan with
  | None => operator_windows (plan_windows plan) Explicit
  | Some tier_id =>
      match provider_id with
      | None => operator_windows (plan_windows plan) (UnknownTier None tier_id)
      | Some provider =>
          match tier catalog provider tier_id with
          | None => operator_windows (plan_windows plan) (UnknownTier (Some provider) tier_id)
          | Some preset =>
              match plan_windows plan with
              | [] => mkResolved (map into_quota_window (tier_windows preset))
                        (map (fun _ => preset_provenance preset) (tier_windows preset))
                        (Preset provider tier_id)
              | explicit =>
                  let merged := map (merge_preset explicit preset) (tier_windows preset) in
                  let extra := extra_windows explicit preset in
                  let overridden := map tw_name (filterb (fun w =>
                    existsb (fun ow => bool_decide (qw_name ow = tw_name w)) explicit) (tier_windows preset)) in
                  mkResolved (map fst merged ++ extra)
                    (map snd merged ++ map (fun _ => Operator) extra)
                    (PresetWithOverrides provider tier_id overridden)
              end
          end
      end
  end.

(** ** Lemmas *)

Definition named (n : string) (w : QuotaWindow) : bool := bool_decide (qw_name w = n).

Lemma merge_preset_name explicit t w : qw_name (merge_preset explicit t w).1 = tw_name w.
Proof.
  unfold merge_preset. destruct (find_first _ explicit) as [ow|] eqn:E; [|done]. simpl.
  apply find_first_Some in E as [_ E]. by apply bool_decide_eq_true in E.
Qed.

Lemma find_extra explicit t n :
  (forall w, w ∈ tier_windows t -> tw_name w <> n) ->
  find_first (named n) (extra_windows explicit t) = find_first (named n) explicit.
Proof.
  intros Hn. unfold extra_windows, filterb, named.
  induction explicit as [|ow l IH]; simpl; [done|].
  destruct (existsb _ (tier_windows t)) eqn:E; simpl.
  - rewrite IH. apply existsb_elem in E as (w & Hw & He). apply bool_decide_eq_true in He.
    rewrite bool_decide_eq_false_2; [done|]. intros <-. by apply (Hn w).
  - by rewrite IH.
Qed.

Lemma find_merged explicit t n :
  find_first (named n) (map fst (map (merge_preset explicit t) (tier_windows t)) ++ extra_windows explicit t) =
  match find_first (named n) explicit with
  | Some ow => Some ow
  | None => find_first (named n) (map into_quota_window (tier_windows t))
  end.
Proof.
  rewrite find_first_app, !find_first_map.
  rewrite (find_first_ext (fun w => named n (merge_preset explicit t w).1)
             (fun w => bool_decide (tw_name w = n)))
    by (intros w; unfold named; by rewrite merge_preset_name).
  change (fun x => named n (into_quota_window x)) with (fun w => bool_decide (tw_name w = n)).
  destruct (find_first _ (tier_windows t)) as [w|] eqn:E; simpl.
  - apply find_first_Some in E as [_ E]. apply bool_decide_eq_true in E as <-.
    unfold merge_preset, named. by destruct (find_first _ explicit).
  - rewrite find_extra; [by destruct (find_first _ explicit)|].
    intros w Hw. pose proof (proj1 (find_first_None _ _) E w Hw) as Hn.
    by apply bool_decide_eq_false in Hn.
Qed.

Lemma lookup_map {A B} (f : A -> B) l (i : nat) : map f l !! i = f <$> l !! i.
Proof. apply list_lookup_fmap. Qed.

Lemma merged_provenance explicit t i w pv :
  (map fst (map (merge_preset explicit t) (tier_windows t)) ++ extra_windows explicit t) !! i = Some w ->
  (map snd (map (merge_preset explicit t) (tier_windows t)) ++
     map (fun _ => Operator) (extra_windows explicit t)) !! i = Some pv ->
  (pv = Operator /\ w ∈ explicit) \/
  (pv = preset_provenance t /\ w ∈ map into_quota_window (tier_windows t) /\
   find_first (named (qw_name w)) explicit = None).
Proof.
  rewrite !lookup_app, !length_map, !lookup_map.
  destruct (decide (i < length (tier_windows t))%nat) as [Hi|Hi].
  - destruct (lookup_lt_is_Some_2 _ _ Hi) as [tw Htw]. rewrite Htw. simpl.
    unfold merge_preset. destruct (find_first _ explicit) as [ow|] eqn:E; intros [= <-] [= <-].
    + left. split; [done|]. by apply find_first_Some in E as [E _].
    + right. split; [done|]. split; [|done].
      apply list_elem_of_fmap. exists tw. split; [done|]. by eapply list_elem_of_lookup_2.
  - rewrite !(lookup_ge_None_2 (tier_windows t)) by lia. simpl.
    intros Hw. rewrite Hw. simpl. intros [= <-]. left. split; [done|].
    apply list_elem_of_lookup_2 in Hw. unfold extra_windows in Hw. by apply elem_of_filterb in Hw as [_ ?].
Qed.

(** ** Properties *)

(** The plan resolver implements its documented precedence.  Every window
    has one provenance; without a known preset the windows are the operator's;
    with one, the window of each name is the operator's if he declared that
    name and the preset's otherwise, and its provenance says which. *)
Theorem resolve_precedence (plan : SubscriptionPlan) (catalog : TierCatalog) (provider : option string) :
  let r := resolve_plan_windows plan catalog provider in
  length (rp_windows r) = length (rp_provenance r) /\
  (forall t, plan_tier plan ≫= (fun id => provider ≫= fun p => tier catalog p id) = Some t ->
     (forall n, find_first (named n) (rp_windows r) =
        match find_first (named n) (plan_windows plan) with
        | Some ow => Some ow
        | None => find_first (named n) (map into_quota_window (tier_windows t))
        end) /\
     (forall i w pv, rp_windows r !! i = Some w -> rp_provenance r !! i = Some pv ->
        (pv = Operator /\ w ∈ plan_windows plan) \/
        (pv = preset_provenance t /\ w ∈ map into_quota_window (tier_windows t) /\
         find_first (named (qw_name w)) (plan_windows plan) = None))) /\
  (plan_tier plan ≫= (fun id => provider ≫= fun p => tier catalog p id) = None ->
     rp_windows r = plan_windows plan /\ Forall (fun pv => pv = Operator) (rp_provenance r)).
Proof.
  assert (Hop : forall src, let r := operator_windows (plan_windows plan) src in
            length (rp_windows r) = length (rp_provenance r) /\
            rp_windows r = plan_windows plan /\ Forall (fun pv => pv = Operator) (rp_provenance r)).
  { intros src. simpl. rewrite length_map. split_and!; [done..|]. by apply Forall_forall; intros x
      (? & -> & _)%list_elem_of_fmap. }
  unfold resolve_plan_windows. destruct (plan_tier plan) as [id|]; simpl.
  2: { destruct (Hop Explicit) as [? ?]. by split_and!. }
  destruct provider as [p|]; simpl; [|destruct (Hop (UnknownTier None id)) as [? ?]; by split_and!].
  destruct (tier catalog p id) as [t|]; simpl.
  2: { destruct (Hop (UnknownTier (Some p) id)) as [? ?]. by split_and!. }
  split; [|split; [|done]].
  { destruct (plan_windows plan); simpl; rewrite ?length_app, !length_map; [done|]. lia. }
  intros t' [= <-]. destruct (plan_windows plan) as [|ow ows] eqn:Ew; simpl.
  - split; [done|]. intros i w pv Hw Hpv. right. split; [|split; [|done]].
    + apply list_elem_of_lookup_2 in Hpv. by apply list_elem_of_fmap in Hpv as (? & -> & _).
    + by eapply list_elem_of_lookup_2.
  - split; [intros n; apply (find_merged (ow :: ows))|apply merged_provenance].
Qed.

Definition window_5h (cap : Z) : QuotaWindow :=
  mkQuotaWindow "5h" 5 Requests (Some (f64_of_Z cap)) None Counter Rolling.
Definition demo_tier : TierEntry :=
  mkTier (f64_of_Z 100) Observed "observed" [mkTierWindow "5h" 5 Requests (Some (f64_of_Z 900)) None Counter Rolling;
    mkTierWindow "weekly" 168 Requests None None Counter Rolling].
Definition demo_tiers : TierCatalog :=
  mkTierCatalog 1 "" "" [("anthropic"%string, [("claude-max"%string, demo_tier)])].
Definition demo_plan : SubscriptionPlan :=
  mkPlan (f64_of_Z 100) (Some "claude-max"%string) [window_5h 450] None.

(** The override of a preset window on a concrete plan. *)
Example resolve_override :
  rp_windows (resolve_plan_windows demo_plan demo_tiers (Some "anthropic"%string)) =
    [window_5h 450; mkQuotaWindow "weekly" 168 Requests None None Counter Rolling].
Proof. vm_compute. reflexivity. Qed.
