(* ===== verification/Quota.v ===== *)
(** Subscription quotas (crates/zoder-core/src/quota.rs) and the choice of the
    provider that serves a model (crates/zoder-core/src/config.rs): the usage
    of a window, the billing tier of a provider, and the ranking of the
    providers that claim a model. *)
From S2P Require Import Prelude F64 Clock Config Tiers Ledger.
Local Open Scope Z_scope.

Definition SOURCE_OPERATOR : string := "operator".
Definition APPROACHING_THRESHOLD : f64 := f64_lit 8 10.

Record WindowUsage := mkUsage {
  wu_name : string;
  wu_hours : Z;
  wu_unit : QuotaUnit;
  used : f64;
  wu_cap : option f64;
  pct : f64;
  next_reset : option Z;
  approaching : bool;
  wu_confidence : option Confidence;
  wu_source : option string
}.

(** [unit_amount] *)
Definition unit_amount (e : Entry) (u : QuotaUnit) : f64 :=
  match u with
  | Tokens => f64_of_Z (u64_sat_add (tokens_in e) (tokens_out e))
  | Requests | Messages | Sessions => f64_of_Z (calls e)
  end.

Section Usage.
Context `{Calendar}.

(** [in_active_window] *)
Definition in_active_window (w : QuotaWindow) (now ts : Z) : bool :=
  match qw_reset w with
  | Rolling => now - hours_ns (qw_hours w) <=? ts
  | CalendarMonthly => (cal_year ts =? cal_year now) && (cal_month ts =? cal_month now)
  | CalendarDaily => cal_date ts =? cal_date now
  end.

(** The rows the window counts. *)
Definition counted (entries : list Entry) (provider_id : string) (w : QuotaWindow) (now : Z) : list Entry :=
  filterb (fun e => bool_decide (e_provider e = provider_id) && (ts_utc e <=? now) &&
                    in_active_window w now (ts_utc e)) entries.

Definition min_opt (o : option Z) (t : Z) : option Z :=
  Some (match o with Some o => Z.min o t | None => t end).

(** [pct] of [window_usage_at]. *)
Definition window_pct (cap : option f64) (used : f64) : f64 :=
  match cap with
  | None => f64_zero
  | Some c => if (c >? f64_zero)%f64 then (used / c)%f64 else f64_zero
  end.

(** [window_usage_at] *)
Definition window_usage_at (entries : list Entry) (provider_id : string) (w : QuotaWindow)
    (confidence : option Confidence) (source : option string) (now : Z) : WindowUsage :=
  let rows := counted entries provider_id w now in
  let used := fold_left (fun u e => u + unit_amount e (qw_unit w))%f64 rows f64_zero in
  let oldest := fold_left (fun o e => min_opt o (ts_utc e)) rows None in
  let p := window_pct (qw_cap w) used in
  let reset := match qw_reset w with
               | Rolling => (fun o => o + hours_ns (qw_hours w)) <$> oldest
               | CalendarDaily => Some (cal_midnight (cal_date now + 1))
               | CalendarMonthly => cal_first_of (next_month now).1 (next_month now).2
               end in
  mkUsage (qw_name w) (qw_hours w) (qw_unit w) used (qw_cap w) p reset
    (p >=? APPROACHING_THRESHOLD)%f64 confidence source.

(** [plan_usage_for_catalog_provider]; [now] is the clock each window reads. *)
Definition plan_usage_for_catalog_provider (entries : list Entry) (ledger_provider_id : string)
    (plan : SubscriptionPlan) (catalog : TierCatalog) (catalog_provider_id : string) (now : Z) :
    list WindowUsage :=
  let resolved := resolve_plan_windows plan catalog (Some catalog_provider_id) in
  zip_with (fun w prov =>
    match prov with
    | FromCatalog c s => window_usage_at entries ledger_provider_id w (Some c) (Some s) now
    | Operator => window_usage_at entries ledger_provider_id w None (Some SOURCE_OPERATOR) now
    end) (rp_windows resolved) (rp_provenance resolved).

(** [plan_usage] *)
Definition plan_usage (entries : list Entry) (provider_id : string) (plan : SubscriptionPlan)
    (catalog : TierCatalog) (now : Z) : list WindowUsage :=
  plan_usage_for_catalog_provider entries provider_id plan catalog provider_id now.

(** [amortized_per_call]; the sum of the calls wraps in a release build. *)
Definition amortized_per_call (entries : list Entry) (provider_id : string) (plan : SubscriptionPlan)
    (now : Z) : f64 :=
  if (monthly_fee_usd plan <=? f64_zero)%f64 then f64_zero
  else
    let since := now - days_ns 30 in
    let n := fold_left (fun s e => (s + calls e) mod (U64_MAX + 1))
      (filterb (fun e => bool_decide (e_provider e = provider_id) && (since <=? ts_utc e)) entries) 0 in
    if n =? 0 then f64_zero else (monthly_fee_usd plan / f64_of_Z n)%f64.

(** [subscription_window_exhausted] *)
Definition subscription_window_exhausted (p : Provider) (entries : list Entry)
    (catalog : TierCatalog) (now : Z) : bool :=
  match subscription p with
  | None => false
  | Some plan =>
      let catalog_provider := default (prov_id p)
        (match plan_tier plan with
         | Some t => provider_namespace catalog p t
         | None => None
         end) in
      existsb (fun u => (pct u >=? f64_of_Z 1)%f64)
        (plan_usage_for_catalog_provider entries (prov_id p) plan catalog catalog_provider now)
  end.

Inductive BillingTier := TierFree | SubscriptionLive | TierMetered | SubscriptionExhausted.
(** The discriminants, in the derived order. *)
Definition tier_index (t : BillingTier) : Z :=
  match t with TierFree => 0 | SubscriptionLive => 1 | TierMetered => 2 | SubscriptionExhausted => 3 end.

(** [billing_tier] *)
Definition billing_tier (p : Provider) (entries : list Entry) (catalog : TierCatalog) (now : Z) :
    BillingTier :=
  match billing p with
  | BillFree => TierFree
  | Metered => TierMetered
  | Subscription => if subscription_window_exhausted p entries catalog now
                    then SubscriptionExhausted else SubscriptionLive
  end.

Record RankedProvider := mkRanked {
  rp_provider : Provider;
  prefix_len : Z;
  rp_tier : BillingTier
}.

(** The longest [serves] prefix that claims the model. *)
Definition best_prefix_len (p : Provider) (model_id : string) : option Z :=
  max_by Z.compare
    (map (fun prefix => Z.of_nat (String.length prefix))
       (filterb (fun prefix => negb (str_is_empty prefix) && String.prefix prefix model_id) (serves p))).

Definition rank_cmp (a b : RankedProvider) : comparison :=
  then_with (Z.compare (tier_index (rp_tier a)) (tier_index (rp_tier b)))
            (Z.compare (prefix_len b) (prefix_len a)).

(** [ranked_providers_for_model] *)
Definition ranked_providers_for_model (providers : list Provider) (model_id : string)
    (entries : list Entry) (catalog : TierCatalog) (now : Z) : list RankedProvider :=
  sort_by rank_cmp (omap (fun p =>
    (fun n => mkRanked p n (billing_tier p entries catalog now)) <$> best_prefix_len p model_id) providers).

(** [best_provider_for_model], [provider_for_model] *)
Definition best_provider_for_model (providers : list Provider) (model_id : string)
    (entries : list Entry) (catalog : TierCatalog) (now : Z) : option Provider :=
  rp_provider <$> head (ranked_providers_for_model providers model_id entries catalog now).
Definition provider_for_model (providers : list Provider) (model_id : string) (now : Z) : option Provider :=
  best_provider_for_model providers model_id [] tier_catalog_empty now.

Definition is_placeholder (p : Provider) : bool := str_contains PLACEHOLDER_PROVIDER_HOST (base_url p).
(** [real_best_provider_for_model], [real_provider_for_model] *)
Definition real_best_provider_for_model (providers : list Provider) (model_id : string)
    (entries : list Entry) (catalog : TierCatalog) (now : Z) : option Provider :=
  opt_filter (fun p => negb (is_placeholder p))
    (best_provider_for_model providers model_id entries catalog now).
Definition real_provider_for_model (providers : list Provider) (model_id : string) (now : Z) : option Provider :=
  opt_filter (fun p => negb (is_placeholder p)) (provider_for_model providers model_id now).
Definition model_has_real_provider (providers : list Provider) (model_id : string) (now : Z) : bool :=
  bool_decide (is_Some (real_provider_for_model providers model_id now)).
End Usage.

(** ** Claims on a model *)

(** [p] claims [m] with a longest prefix of [n] characters. *)
Definition claims (p : Provider) (m : string) (n : Z) : Prop :=
  exists s, s ∈ serves p /\ s <> EmptyString /\ String.prefix s m = true /\
    n = Z.of_nat (String.length s) /\
    forall s', s' ∈ serves p -> s' <> EmptyString -> String.prefix s' m = true ->
               Z.of_nat (String.length s') <= n.

Lemma max_by_Z l x : max_by Z.compare l = Some x -> forall y, y ∈ l -> y <= x.
Proof.
  destruct l as [|z l]; simpl; [done|]. intros [= <-]. revert z.
  induction l as [|w l IH]; intros z; simpl.
  - by intros y ->%list_elem_of_singleton.
  - assert (z <= fold_left (fun m y => match m ?= y with Gt => m | _ => y end) l
                   match z ?= w with Gt => z | _ => w end /\
            w <= fold_left (fun m y => match m ?= y with Gt => m | _ => y end) l
                   match z ?= w with Gt => z | _ => w end) as [Hz Hw].
    { assert (Z.max z w <= fold_left (fun m y => match m ?= y with Gt => m | _ => y end) l
                   match z ?= w with Gt => z | _ => w end).
      { etrans; [|apply (IH _ _ ltac:(left))]. destruct (Z.compare_spec z w); lia. } lia. }
    intros y [->|[->|Hy]%elem_of_cons]%elem_of_cons; [done|done|]. apply IH. by right.
Qed.

Lemma serving_elem (p : Provider) m s :
  s ∈ filterb (fun prefix => negb (str_is_empty prefix) && String.prefix prefix m) (serves p) <->
  s ∈ serves p /\ s <> EmptyString /\ String.prefix s m = true.
Proof.
  rewrite elem_of_filterb, andb_true_iff, negb_true_iff. destruct s; simpl; naive_solver.
Qed.

Lemma best_prefix_len_spec p m :
  match best_prefix_len p m with
  | Some n => claims p m n
  | None => forall n, ~ claims p m n
  end.
Proof.
  unfold best_prefix_len. set (l := filterb _ _).
  destruct (max_by _ _) as [n|] eqn:E.
  - pose proof (max_by_elem _ _ _ E) as Hin. apply list_elem_of_fmap in Hin as (s & -> & Hs).
    apply serving_elem in Hs as (Hs1 & Hs2 & Hs3). exists s. split_and!; [done..|].
    intros s' H1 H2 H3. apply (max_by_Z _ _ E). apply list_elem_of_fmap. exists s'.
    split; [done|]. by apply serving_elem.
  - intros n (s & H1 & H2 & H3 & _).
    assert (s ∈ l) as Hs by (by apply serving_elem).
    assert (map (fun prefix => Z.of_nat (String.length prefix)) l <> []) as Hne.
    { intros Hnil. apply map_eq_nil in Hnil. rewrite Hnil in Hs. by apply not_elem_of_nil in Hs. }
    destruct (max_by_is_Some Z.compare _ Hne) as [x Hx]. by rewrite E in Hx.
Qed.

Lemma claims_unique p m n k : claims p m n -> claims p m k -> n = k.
Proof.
  intros (s & H1 & H2 & H3 & -> & Hs) (s' & H1' & H2' & H3' & -> & Hs').
  specialize (Hs s' H1' H2' H3'). specialize (Hs' s H1 H2 H3). lia.
Qed.

Lemma rank_cmp_flip x y : rank_cmp y x = CompOpp (rank_cmp x y).
Proof.
  unfold rank_cmp. rewrite (Z.compare_antisym (tier_index (rp_tier x))), (Z.compare_antisym (prefix_len y)).
  by destruct (_ ?= _).
Qed.

Lemma rank_cmp_le x y :
  cmp_le rank_cmp x y <->
  tier_index (rp_tier x) < tier_index (rp_tier y) \/
  (tier_index (rp_tier x) = tier_index (rp_tier y) /\ prefix_len y <= prefix_len x).
Proof.
  unfold cmp_le, rank_cmp, then_with.
  destruct (Z.compare_spec (tier_index (rp_tier x)) (tier_index (rp_tier y))),
    (Z.compare_spec (prefix_len y) (prefix_len x)); split; intros; try done; try lia.
Qed.

Lemma rank_cmp_trans x y z : cmp_le rank_cmp x y -> cmp_le rank_cmp y z -> cmp_le rank_cmp x z.
Proof. rewrite !rank_cmp_le. lia. Qed.

Lemma rank_cmp_gt x y :
  rank_cmp x y = Gt <->
  tier_index (rp_tier y) < tier_index (rp_tier x) \/
  (tier_index (rp_tier x) = tier_index (rp_tier y) /\ prefix_len x < prefix_len y).
Proof.
  unfold rank_cmp, then_with.
  destruct (Z.compare_spec (tier_index (rp_tier x)) (tier_index (rp_tier y))),
    (Z.compare_spec (prefix_len y) (prefix_len x)); split; intros; try done; try lia.
Qed.

(** ** Usage *)

Lemma zip_with_map_l {A B C} (f : A -> B -> C) (g : A -> C) l k :
  length l = length k -> (forall x y, f x y = g x) -> zip_with f l k = map g l.
Proof.
  intros Hl Hf. revert k Hl. induction l as [|x l IH]; intros [|y k]; simpl; try done.
  intros [= Hl]. rewrite Hf. by rewrite IH.
Qed.

Lemma resolved_length plan catalog provider :
  length (rp_windows (resolve_plan_windows plan catalog provider)) =
  length (rp_provenance (resolve_plan_windows plan catalog provider)).
Proof.
  unfold resolve_plan_windows. repeat case_match; simpl; rewrite ?length_app, ?length_map; lia.
Qed.

Section UsageLemmas.
Context `{Calendar}.

Definition used_in (entries : list Entry) (provider_id : string) (w : QuotaWindow) (now : Z) : f64 :=
  fold_left (fun u e => u + unit_amount e (qw_unit w))%f64 (counted entries provider_id w now) f64_zero.

Definition plan_namespace (p : Provider) (plan : SubscriptionPlan) (catalog : TierCatalog) : string :=
  default (prov_id p) (match plan_tier plan with Some t => provider_namespace catalog p t | None => None end).

Lemma exhausted_pct p entries catalog now :
  subscription_window_exhausted p entries catalog now = true <->
  exists plan w, subscription p = Some plan /\
    w ∈ rp_windows (resolve_plan_windows plan catalog (Some (plan_namespace p plan catalog))) /\
    (f64_of_Z 1 <=? window_pct (qw_cap w) (used_in entries (prov_id p) w now))%f64 = true.
Proof.
  unfold subscription_window_exhausted. destruct (subscription p) as [plan|]; [|naive_solver].
  unfold plan_usage_for_catalog_provider.
  change (default (prov_id p) match plan_tier plan with Some t => provider_namespace catalog p t | None => None end)
    with (plan_namespace p plan catalog).
  pose proof (resolved_length plan catalog (Some (plan_namespace p plan catalog))) as Hl.
  rewrite existsb_elem. split.
  - intros (u & Hu & Hp). apply elem_of_lookup_zip_with in Hu as (i & w & pv & -> & Hw & _).
    exists plan, w. split; [done|]. split; [by eapply list_elem_of_lookup_2|]. by destruct pv.
  - intros (plan' & w & [= <-] & Hw & Hp). apply list_elem_of_lookup in Hw as [i Hi].
    destruct (lookup_lt_is_Some_2 (rp_provenance (resolve_plan_windows plan catalog
      (Some (plan_namespace p plan catalog)))) i) as [pv Hpv]; [rewrite <- Hl; by eapply lookup_lt_Some|].
    eexists. split; [apply elem_of_lookup_zip_with; by eexists i, w, pv|]. by destruct pv.
Qed.

Lemma window_pct_ge1 cap u :
  (f64_of_Z 1 <=? window_pct cap u)%f64 = true ->
  exists c, cap = Some c /\ (f64_zero <? c)%f64 = true /\ (f64_of_Z 1 <=? u / c)%f64 = true.
Proof. unfold window_pct. destruct cap as [c|]; [|done]. destruct (_ <? _)%f64 eqn:E; [|done]. eauto. Qed.

Lemma f64_div_zero_l c : (f64_zero <? c)%f64 = true -> (f64_zero / c)%f64 = f64_zero.
Proof. by destruct c as [[]|[]| |[] m e]. Qed.

(** A subscription counts as exhausted exactly when one of its resolved
    windows has a positive cap and the rows of this provider inside the window
    add up to at least that cap; a window without a known cap never exhausts
    it. *)
Theorem exhausted_iff (p : Provider) (entries : list Entry) (catalog : TierCatalog) (now : Z) :
  subscription_window_exhausted p entries catalog now = true <->
  exists plan w c, subscription p = Some plan /\
    w ∈ rp_windows (resolve_plan_windows plan catalog (Some (plan_namespace p plan catalog))) /\
    qw_cap w = Some c /\ (f64_zero <? c)%f64 = true /\
    (f64_of_Z 1 <=? used_in entries (prov_id p) w now / c)%f64 = true.
Proof.
  rewrite exhausted_pct. split.
  - intros (plan & w & Hs & Hw & (c & Hc & Hp & Hu)%window_pct_ge1). by exists plan, w, c.
  - intros (plan & w & c & Hs & Hw & Hc & Hp & Hu). exists plan, w. rewrite Hc. simpl. by rewrite Hp.
Qed.

(** C40: an exhausted subscription recovers by itself: once every row of the
    provider is older than each of its rolling windows, the provider is a live
    subscription again, whatever the caps. *)
Theorem exhausted_recovers (p : Provider) (entries : list Entry) (catalog : TierCatalog) (now : Z)
    (Hbill : billing p = Subscription)
    (Hold : forall plan w, subscription p = Some plan ->
       w ∈ rp_windows (resolve_plan_windows plan catalog (Some (plan_namespace p plan catalog))) ->
       qw_reset w = Rolling /\
       forall e, e ∈ entries -> e_provider e = prov_id p -> ts_utc e < now - hours_ns (qw_hours w)) :
  billing_tier p entries catalog now = SubscriptionLive.
Proof.
  unfold billing_tier. rewrite Hbill.
  destruct (subscription_window_exhausted p entries catalog now) eqn:E; [|done].
  apply exhausted_pct in E as (plan & w & Hs & Hw & Hp).
  destruct (Hold plan w Hs Hw) as [Hr Ho].
  assert (counted entries (prov_id p) w now = []) as Hc.
  { unfold counted. destruct (filterb _ entries) as [|e l] eqn:Ef; [done|].
    assert (e ∈ e :: l) as He by left. rewrite <- Ef in He.
    apply elem_of_filterb in He as [He Hin]. rewrite !andb_true_iff in He.
    destruct He as [[Hpr _] Hact]. apply bool_decide_eq_true in Hpr.
    unfold in_active_window in Hact. rewrite Hr in Hact. specialize (Ho e Hin Hpr). lia. }
  apply window_pct_ge1 in Hp as (c & _ & Hc0 & Hu). unfold used_in in Hu. rewrite Hc in Hu. cbn [fold_left] in Hu.
  by rewrite f64_div_zero_l in Hu.
Qed.

(** C15: routing picks the cheapest provider that claims the model.  The choice
    claims the model; any provider before it in the configuration is strictly
    worse and none after it is better, comparing billing tiers first (free,
    subscription with quota, metered, exhausted subscription), then the length
    of the longest claimed prefix; there is no choice exactly when nobody
    claims the model. *)
Theorem best_provider_cheapest (providers : list Provider) (m : string) (entries : list Entry)
    (catalog : TierCatalog) (now : Z) :
  let tier_of p := tier_index (billing_tier p entries catalog now) in
  match best_provider_for_model providers m entries catalog now with
  | None => forall p n, p ∈ providers -> ~ claims p m n
  | Some p => exists n pre post, providers = pre ++ p :: post /\ claims p m n /\
      (forall q k, q ∈ pre -> claims q m k ->
         tier_of p < tier_of q \/ (tier_of p = tier_of q /\ k < n)) /\
      (forall q k, q ∈ post -> claims q m k ->
         tier_of p < tier_of q \/ (tier_of p = tier_of q /\ k <= n))
  end.
Proof.
  simpl. unfold best_provider_for_model, ranked_providers_for_model.
  set (f := fun p => (fun n => mkRanked p n (billing_tier p entries catalog now)) <$> best_prefix_len p m).
  assert (forall q k, claims q m k -> f q = Some (mkRanked q k (billing_tier q entries catalog now))) as Hf.
  { intros q k Hq. unfold f. pose proof (best_prefix_len_spec q m) as Hspec.
    destruct (best_prefix_len q m) as [n|]; [|by destruct (Hspec k)].
    by rewrite (claims_unique q m n k). }
  destruct (head (sort_by rank_cmp (omap f providers))) as [x|] eqn:E; simpl.
  - apply (sort_by_head rank_cmp (fun _ => True)) in E as (pre' & post' & Hl & Hpre & Hpost);
      [|intros; apply rank_cmp_flip|intros x' y z _ _ _; apply rank_cmp_trans|by apply Forall_true].
    apply omap_split in Hl as (pre & p & post & -> & Hp & <- & <-).
    unfold f in Hp. pose proof (best_prefix_len_spec p m) as Hspec.
    destruct (best_prefix_len p m) as [n|]; [|done]. injection Hp as <-. simpl.
    exists n, pre, post. split_and!; [done|done| |].
    + intros q k Hq Hc. specialize (Hpre _ (proj2 (list_elem_of_omap _ _ _)
        (ex_intro _ q (conj Hq (Hf q k Hc))))). apply rank_cmp_gt in Hpre. simpl in Hpre. lia.
    + intros q k Hq Hc. specialize (Hpost _ (proj2 (list_elem_of_omap _ _ _)
        (ex_intro _ q (conj Hq (Hf q k Hc))))). apply rank_cmp_le in Hpost. simpl in Hpost. lia.
  - intros p n Hp Hc. apply head_None in E.
    assert (omap f providers = []) as Hnil.
    { apply Permutation_nil_r. rewrite <- (sort_by_perm rank_cmp). by rewrite E. }
    assert (mkRanked p n (billing_tier p entries catalog now) ∈ omap f providers) as Hin
      by (apply list_elem_of_omap; eauto). rewrite Hnil in Hin. by apply not_elem_of_nil in Hin.
Qed.
End UsageLemmas.

(** ** Concrete providers *)

Definition demo_provider (i url : string) (b : BillingMode) (plan : option SubscriptionPlan)
    (sv : list string) : Provider :=
  mkProvider i [] None url "openai-chat" AuthNone false b plan sv None None None None None None None None.
Definition demo_call (model : string) (ts n : Z) : Entry :=
  mkEntry ts "claude" model "" 1 1 f64_zero false n None tags_default (Some "subscription"%string) None.
Definition capped_plan (cap : option f64) (globs : option (list string)) : SubscriptionPlan :=
  mkPlan (f64_of_Z 20) None [mkQuotaWindow "5h" 5 Requests cap globs Counter Rolling] None.
Definition claude (cap : option f64) (globs : option (list string)) : Provider :=
  demo_provider "claude" "https://claude.test" Subscription (Some (capped_plan cap globs)) ["claude-"%string].

Lemma exhausted_recovers_witness :
  let p := claude (Some (f64_of_Z 10)) None in
  let rows := [demo_call "claude-opus" 0 12] in
  @billing_tier gregorian p rows demo_tiers 1 = SubscriptionExhausted /\
  @billing_tier gregorian p rows demo_tiers (hours_ns 5 + 1) = SubscriptionLive.
Proof.
  split; [vm_compute; reflexivity|].
  apply (@exhausted_recovers gregorian); [reflexivity|].
  intros plan w [= <-] ->%list_elem_of_singleton. split; [reflexivity|].
  intros e ->%list_elem_of_singleton _. vm_compute. reflexivity.
Defined.

(** A per-model window limits every model.  The quota reads neither the
    model globs of a window nor the models of the rows, so calls to one model
    that use up the other model's own cap demote the whole provider. *)
Theorem foreign_model_exhausts_window :
  let p := claude (Some (f64_of_Z 10)) (Some ["claude-opus-*"%string]) in
  let metered := demo_provider "metered" "https://pay.test" Metered None ["claude-"%string] in
  let rows := [demo_call "claude-sonnet-5" 0 12] in
  @billing_tier gregorian p rows demo_tiers 1 = SubscriptionExhausted /\
  prov_id <$> @best_provider_for_model gregorian [p; metered] "claude-sonnet-5" rows demo_tiers 1 =
    Some "metered"%string.
Proof. vm_compute. split; reflexivity. Qed.

(** A cap of zero is unlimited headroom: whatever was used, the window is
    at zero percent, not approaching, and never exhausts the plan. *)
Theorem zero_cap_is_headroom `{Calendar} (entries : list Entry) (provider_id : string)
    (w : QuotaWindow) (c : option Confidence) (s : option string) (now : Z)
    (Hcap : qw_cap w = Some f64_zero) :
  let u := window_usage_at entries provider_id w c s now in
  pct u = f64_zero /\ approaching u = false.
Proof. unfold window_usage_at. simpl. rewrite Hcap. done. Qed.

Lemma zero_cap_is_headroom_witness :
  let u := @window_usage_at gregorian [demo_call "claude-opus" 0 12] "claude"
             (mkQuotaWindow "5h" 5 Requests (Some f64_zero) None Counter Rolling) None None 1 in
  used u = f64_of_Z 12 /\ pct u = f64_zero /\ approaching u = false.
Proof. split; [vm_compute; reflexivity|]. apply (@zero_cap_is_headroom gregorian). reflexivity. Defined.

(** A placeholder that wins the ranking hides a real provider.  The
    placeholder is dropped after the best claimant was chosen, so a model that
    a configured provider serves is reported as having no provider at all. *)
Theorem placeholder_hides_real_provider :
  let hidden := demo_provider "template" "https://api.example.com/v1" BillFree None ["claude-"%string] in
  let real := demo_provider "pay" "https://pay.test" Metered None ["claude-"%string] in
  @real_provider_for_model gregorian [hidden; real] "claude-opus" 0 = None /\
  @real_provider_for_model gregorian [real] "claude-opus" 0 = Some real.
Proof. vm_compute. split; reflexivity. Qed.
