(* ===== verification/Router.v ===== *)
(** The router (crates/zoder-core/src/router.rs): the rank of a model for a
    tier, the candidates of the free pool, the fallback chain and the route.

    The router reads the health store through two questions, the class
    [HealthView]; the store of Health.v answers them ([store_health]). *)
From S2P Require Import Prelude F64 Clock Health Corpus.
Local Open Scope Z_scope.

(** ** Health, as the router sees it *)
Class HealthView := {
  breaker_open : string -> bool;
  is_skipped_by_classification : string -> bool
}.

(** The [HealthStore] at a clock reading. *)
#[export] Instance store_health (store : gmap string ModelHealth) (now : Z) : HealthView | 100 := {|
  breaker_open i := store_breaker_open store i now;
  is_skipped_by_classification i := store_is_skipped store i now
|}.

Inductive Tier := Fast | Strong | Auto | SinglePass | Grind.
#[export] Instance Tier_eq_dec : EqDecision Tier.
Proof. solve_decision. Defined.

(** [Tier::parse] *)
Definition tier_parse (s : string) : Tier :=
  let s := to_ascii_lowercase s in
  let is_one l := existsb (fun x => bool_decide (s = x)) l in
  if is_one ["fast"%string] then Fast
  else if is_one ["strong"%string; "codex"%string] then Strong
  else if is_one ["single-pass"%string; "singlepass"%string; "single"%string; "oneshot"%string] then SinglePass
  else if is_one ["grind"%string; "loop"%string] then Grind
  else Auto.

(** The reason line is the pick and the count it reports. *)
Inductive RouteReason :=
| Pinned (pin : string) (fallbacks : Z)
| Ranked (tier : Tier) (pick : string) (tie_break : bool)
| CostNeutralOnly (inner : RouteReason) (left_count : Z).

Record Route := mkRoute {
  primary : string;
  fallbacks : list string;
  reason : RouteReason;
  host_cooldown : bool
}.

(** [Route::allows_metered] *)
Definition allows_metered (r : Route) (is_cost_neutral : bool) : bool :=
  is_cost_neutral || negb (host_cooldown r).

(** [Route::prefer_cost_neutral] *)
Definition prefer_cost_neutral (r : Route) (is_cost_neutral : string -> bool) : option Route :=
  let neutral := filterb is_cost_neutral (primary r :: fallbacks r) in
  match neutral with
  | [] => None
  | p :: rest => Some (mkRoute p rest (CostNeutralOnly (reason r) (Z.of_nat (length neutral))) true)
  end.

Inductive RouteError :=
| AllBreakersOpen
| AllUnavailable (breaker skipped unscored : bool)
| NoneConfigured
| NoHealthyModel (tier : Tier).

Definition AUTO_MISSING_LATENCY_PRIOR : f64 := f64_zero.

Definition opt_or {A} (a b : option A) : option A := match a with Some _ => a | None => b end.

(** [Router::workflow_rank] *)
Definition workflow_rank (m : ModelEntry) (wf cap : option f64) : f64 :=
  match wf with
  | Some w => (f64_of_Z 2 + w)%f64
  | None => match cap with
            | Some c => (f64_of_Z 1 + c)%f64
            | None => default f64_zero (opt_or (agentic_score m) (w_swe m))
            end
  end.

(** [Router::rank_key] *)
Definition rank_key (m : ModelEntry) (tier : Tier) : f64 :=
  let cap := (fun c => c / f64_of_Z 100)%f64 <$> code_capability m in
  match tier with
  | Fast => (default f64_zero (opt_or (latency_score m) (agentic_score m)) +
             default f64_zero ((fun c => c * f64_lit 1 1000) <$> cap))%f64
  | Strong => match cap with
              | Some c => (f64_of_Z 1 + c)%f64
              | None => default f64_zero (opt_or (w_swe m) (agentic_score m))
              end
  | Auto => match cap with
            | Some c =>
                let latency := default AUTO_MISSING_LATENCY_PRIOR (latency_score m) in
                (f64_of_Z 1 + f64_lit 6 10 * c + f64_lit 4 10 * latency)%f64
            | None => default f64_zero (opt_or (agentic_score m) (w_swe m))
            end
  | SinglePass => workflow_rank m (workflows m ≫= single_pass) cap
  | Grind => workflow_rank m (workflows m ≫= grind) cap
  end.

Record Router := mkRouter {
  rt_corpus : Corpus;
  pinned_primary : option string;
  backed : option (gset string);
  rt_host_cooldown : bool
}.

(** [Router::new] and the builders. *)
Definition router_new (c : Corpus) : Router := mkRouter c None None false.
Definition with_primary (r : Router) (p : option string) : Router :=
  mkRouter (rt_corpus r)
    (resolve_alias (rt_corpus r) <$> opt_filter (fun s => negb (str_is_empty (trim s))) p)
    (backed r) (rt_host_cooldown r).
Definition with_backed (r : Router) (b : option (gset string)) : Router :=
  mkRouter (rt_corpus r) (pinned_primary r) b (rt_host_cooldown r).
Definition with_host_cooldown (r : Router) (active : bool) : Router :=
  mkRouter (rt_corpus r) (pinned_primary r) (backed r) active.

(** The comparator of [candidates]: the higher key first, then the id. *)
Definition keyed_cmp (a b : f64 * ModelEntry) : comparison :=
  then_with (f64_cmp_or_eq b.1 a.1) (String.compare (id a.2) (id b.2)).

Definition is_backed (r : Router) (i : string) : bool :=
  match backed r with Some b => bool_decide (i ∈ b) | None => true end.

Section Health.
Context `{HealthView}.

Definition healthy (m : ModelEntry) : bool :=
  negb (breaker_open (id m)) && negb (is_skipped_by_classification (id m)).

(** [Router::candidates] *)
Definition keyed (r : Router) (tier : Tier) : list (f64 * ModelEntry) :=
  filterb (fun km => (km.1 >? f64_zero)%f64)
    (map (fun m => (rank_key m tier, m))
       (filterb (fun m => is_backed r (id m)) (filterb healthy (free_chat (rt_corpus r))))).
Definition candidates (r : Router) (tier : Tier) : list ModelEntry :=
  map snd (sort_by keyed_cmp (keyed r tier)).

(** One loop of [build_fallbacks]: at most four ids. *)
Fixpoint push_fallbacks (keep : ModelEntry -> bool) (ranked : list ModelEntry) (acc : list string) :
    list string :=
  match ranked with
  | [] => acc
  | m :: ranked =>
      if (4 <=? length acc)%nat then acc
      else push_fallbacks keep ranked (if keep m then acc ++ [id m] else acc)
  end.
(** [Router::build_fallbacks] *)
Definition build_fallbacks (ranked : list ModelEntry) (primary_id primary_family : string) : list string :=
  let others := filterb (fun m => negb (bool_decide (id m = primary_id))) ranked in
  push_fallbacks (fun m => bool_decide (family m = primary_family)) others
    (push_fallbacks (fun m => negb (bool_decide (family m = primary_family))) others []).

(** Why a backed pool is empty: the flags of the diagnosis. *)
Definition pool_diagnosis (b : gset string) (r : Router) (tier : Tier) : bool * bool * bool :=
  let pool := filterb (fun m => bool_decide (id m ∈ b)) (free_chat (rt_corpus r)) in
  (existsb (fun m => breaker_open (id m)) pool,
   existsb (fun m => is_skipped_by_classification (id m)) pool,
   existsb (fun m => negb (breaker_open (id m)) && negb (is_skipped_by_classification (id m)) &&
                     negb (rank_key m tier >? f64_zero)%f64) pool).

(** The error of [Router::select] on an empty pool. *)
Definition empty_pool (r : Router) (tier : Tier) : RouteError :=
  match backed r with
  | Some b =>
      if existsb (fun m => bool_decide (id m ∈ b)) (free_chat (rt_corpus r)) then
        let '(breaker, skipped, unscored) := pool_diagnosis b r tier in
        if breaker && negb skipped && negb unscored then AllBreakersOpen
        else AllUnavailable breaker skipped unscored
      else NoneConfigured
  | None => NoHealthyModel tier
  end.

(** [Router::select] *)
Definition select (r : Router) (tier : Tier) : result Route RouteError :=
  let ranked := candidates r tier in
  match pinned_primary r with
  | Some pin =>
      let pin_family := default EmptyString (family <$> corpus_get (rt_corpus r) pin) in
      let fb := build_fallbacks ranked pin pin_family in
      Ok (mkRoute pin fb (Pinned pin (Z.of_nat (length fb))) (rt_host_cooldown r))
  | None =>
      match ranked with
      | [] => Err (empty_pool r tier)
      | p :: rest =>
          let tie := match rest with
                     | next :: _ => (rank_key next tier =? rank_key p tier)%f64
                     | [] => false
                     end in
          Ok (mkRoute (id p) (build_fallbacks ranked (id p) (family p)) (Ranked tier (id p) tie)
                (rt_host_cooldown r))
      end
  end.
End Health.

(** ** The order of the candidates *)

Definition key_ok (km : f64 * ModelEntry) : Prop := f64_is_nan km.1 = false.

Lemma keyed_cmp_flip x y : key_ok x -> key_ok y -> keyed_cmp y x = CompOpp (keyed_cmp x y).
Proof.
  intros _ _. unfold keyed_cmp. rewrite (f64_cmp_or_eq_flip y.1 x.1), (String.compare_antisym (id x.2)).
  destruct (f64_cmp_or_eq y.1 x.1); simpl; [by rewrite CompOpp_involutive|done..].
Qed.

Lemma keyed_cmp_le x y :
  key_ok x -> key_ok y ->
  cmp_le keyed_cmp x y <->
  (y.1 <? x.1)%f64 = true \/ (f64_cmp_or_eq x.1 y.1 = Eq /\ String.compare (id x.2) (id y.2) <> Gt).
Proof.
  unfold key_ok, cmp_le, keyed_cmp. intros Hx Hy.
  pose proof (f64_cmp_or_eq_gt x.1 y.1 Hx Hy) as Hgt. rewrite (f64_cmp_or_eq_flip x.1 y.1).
  destruct (f64_cmp_or_eq x.1 y.1) eqn:E; simpl; naive_solver.
Qed.

Lemma keyed_cmp_trans x y z :
  key_ok x -> key_ok y -> key_ok z -> cmp_le keyed_cmp x y -> cmp_le keyed_cmp y z -> cmp_le keyed_cmp x z.
Proof.
  intros Hx Hy Hz. rewrite !keyed_cmp_le by done. unfold key_ok in *.
  assert (forall a b, f64_is_nan a = false -> f64_is_nan b = false -> f64_cmp_or_eq a b = Eq ->
            (a <=? b)%f64 = true /\ (b <=? a)%f64 = true) as Heq.
  { intros a b Ha Hb He. rewrite <- !f64_cmp_or_eq_le by done. rewrite (f64_cmp_or_eq_flip a b), He. done. }
  intros [H1|[H1 S1]] [H2|[H2 S2]].
  - left. apply f64_ltb_leb in H2. by eapply f64_leb_ltb_trans.
  - left. apply Heq in H2 as [_ H2]; [|done..]. by eapply f64_leb_ltb_trans.
  - left. apply Heq in H1 as [_ H1]; [|done..]. by eapply f64_ltb_leb_trans.
  - right. rewrite f64_cmp_or_eq_rank in * by done. split; [|by eapply string_compare_trans].
    rewrite lex3_eq in *. congruence.
Qed.

Lemma keyed_cmp_anti x y :
  keyed_cmp x y <> Gt -> keyed_cmp y x <> Gt -> id x.2 = id y.2.
Proof.
  unfold keyed_cmp. rewrite (f64_cmp_or_eq_flip y.1 x.1), (String.compare_antisym (id x.2)).
  destruct (f64_cmp_or_eq y.1 x.1); simpl; [|by intros ? []|by intros []].
  intros H1 H2. symmetry. apply String.compare_eq_iff.
  by destruct (String.compare (id y.2) (id x.2)).
Qed.

Section HealthLemmas.
Context `{HealthView}.

(** A model the router may pick. *)
Definition eligible (r : Router) (tier : Tier) (m : ModelEntry) : Prop :=
  m ∈ models (rt_corpus r) /\ routable m = true /\
  breaker_open (id m) = false /\ is_skipped_by_classification (id m) = false /\
  (forall b, backed r = Some b -> id m ∈ b) /\ (f64_zero <? rank_key m tier)%f64 = true.

Lemma eligible_checks r m :
  healthy m = true /\ is_backed r (id m) = true <->
  breaker_open (id m) = false /\ is_skipped_by_classification (id m) = false /\
  (forall b, backed r = Some b -> id m ∈ b).
Proof.
  unfold healthy, is_backed. rewrite andb_true_iff, !negb_true_iff.
  destruct (backed r) as [b|]; [rewrite bool_decide_eq_true|]; naive_solver.
Qed.

Lemma elem_of_keyed r tier km :
  km ∈ keyed r tier <-> km.1 = rank_key km.2 tier /\ eligible r tier km.2.
Proof.
  unfold keyed, eligible, free_chat. rewrite elem_of_filterb, list_elem_of_fmap.
  destruct km as [k m]. cbn [fst snd]. pose proof (eligible_checks r m) as Hc. split.
  - intros (Hk & m' & [= -> ->] & Hm). rewrite !elem_of_filterb in Hm. naive_solver.
  - intros (-> & Hin & Hr & Hh & Hb & Hset & Hk). split; [done|]. exists m. rewrite !elem_of_filterb.
    naive_solver.
Qed.

Lemma keyed_ok r tier : Forall key_ok (keyed r tier).
Proof.
  apply Forall_forall. intros km Hkm. apply elem_of_keyed in Hkm as [Hk (_ & _ & _ & _ & _ & Hpos)].
  unfold key_ok. rewrite Hk. by apply f64_ltb_nan_r in Hpos as [_ ?].
Qed.

Lemma elem_of_candidates r tier m : m ∈ candidates r tier <-> eligible r tier m.
Proof.
  unfold candidates. rewrite list_elem_of_fmap. split.
  - intros (km & -> & Hkm). rewrite elem_of_sort_by in Hkm. by apply elem_of_keyed in Hkm as [_ ?].
  - intros Hm. exists (rank_key m tier, m). split; [done|]. rewrite elem_of_sort_by.
    by apply elem_of_keyed.
Qed.

Lemma keyed_sorted r tier : StronglySorted (cmp_le keyed_cmp) (sort_by keyed_cmp (keyed r tier)).
Proof.
  apply (sort_by_sorted _ key_ok); [apply keyed_cmp_flip|apply keyed_cmp_trans|apply keyed_ok].
Qed.

(** ** The fallback chain *)
#[local] Arguments take : simpl never.

Lemma push_fallbacks_spec keep ranked acc :
  (length acc <= 4)%nat ->
  push_fallbacks keep ranked acc = take 4 (acc ++ map id (filterb keep ranked)).
Proof.
  revert acc. induction ranked as [|m ranked IH]; intros acc Hacc; cbn [push_fallbacks].
  { simpl. rewrite app_nil_r. symmetry. by apply take_ge. }
  destruct (Nat.leb_spec 4 (length acc)) as [E|E].
  - rewrite take_app_le by lia. by rewrite take_ge by lia.
  - rewrite IH; [|destruct (keep m); rewrite ?length_app; simpl; lia].
    simpl. destruct (keep m); simpl; [by rewrite <- app_assoc|done].
Qed.

Lemma build_fallbacks_spec ranked p f :
  build_fallbacks ranked p f =
  let others := filterb (fun m => negb (bool_decide (id m = p))) ranked in
  take 4 (map id (filterb (fun m => negb (bool_decide (family m = f))) others) ++
          map id (filterb (fun m => bool_decide (family m = f)) others)).
Proof.
  unfold build_fallbacks. simpl. set (others := filterb _ ranked).
  rewrite (push_fallbacks_spec _ others []) by (simpl; lia). simpl.
  rewrite push_fallbacks_spec by (rewrite length_take; lia).
  set (a := map id _). set (b := map id _). destruct (decide (length a <= 4)%nat) as [Hl|Hl].
  - by rewrite (take_ge a) by lia.
  - rewrite (take_app_le (take 4 a)) by (rewrite length_take; lia). rewrite take_take.
    by rewrite take_app_le by lia.
Qed.

Lemma elem_of_fallbacks ranked p f i :
  i ∈ build_fallbacks ranked p f -> i <> p /\ exists m, m ∈ ranked /\ id m = i.
Proof.
  rewrite build_fallbacks_spec. simpl. intros Hi.
  apply elem_of_take in Hi as (n & Hi & _). apply list_elem_of_lookup_2 in Hi.
  apply elem_of_app in Hi as [Hi|Hi]; apply list_elem_of_fmap in Hi as (m & -> & Hm);
    rewrite !elem_of_filterb in Hm; destruct Hm as (_ & Hne & Hm);
    apply negb_true_iff, bool_decide_eq_false in Hne; eauto.
Qed.
End HealthLemmas.

(** ** A corpus in another order *)

Lemma existsb_perm {A} (p : A -> bool) l k : l ≡ₚ k -> existsb p l = existsb p k.
Proof. induction 1; simpl; [done|congruence| |congruence]. by destruct (p x), (p y). Qed.

(** Two sorted lists of the same elements are the same list when the order is
    antisymmetric on them. *)
Lemma sorted_unique {A} (R : A -> A -> Prop) (l k : list A) :
  l ≡ₚ k -> (forall x y, x ∈ l -> y ∈ l -> R x y -> R y x -> x = y) ->
  StronglySorted R l -> StronglySorted R k -> l = k.
Proof.
  revert k. induction l as [|x l IH]; intros k Hp Hanti Hl Hk.
  { by apply Permutation_nil_l in Hp. }
  destruct k as [|y k]; [by apply Permutation_nil_r in Hp|].
  assert (x = y) as <-.
  { assert (x ∈ y :: k) as Hx by (rewrite <- Hp; left).
    assert (y ∈ x :: l) as Hy by (rewrite Hp; left).
    apply elem_of_cons in Hx as [?|Hx]; [done|]. apply elem_of_cons in Hy as [?|Hy]; [done|].
    apply Hanti; [left|by right| |].
    - by apply (StronglySorted_head R _ l).
    - by apply (StronglySorted_head R _ k). }
  f_equal. apply StronglySorted_inv in Hl as [Hl _], Hk as [Hk _].
  apply IH; [by apply Permutation_cons_inv in Hp| |done|done].
  intros a b Ha Hb. apply Hanti; by right.
Qed.

Lemma nodup_id_eq (ms : list ModelEntry) m m' :
  NoDup (map id ms) -> m ∈ ms -> m' ∈ ms -> id m = id m' -> m = m'.
Proof.
  intros Hnd Hm Hm' He. apply list_elem_of_lookup in Hm as [i Hi], Hm' as [j Hj].
  assert (i = j) as <-.
  { eapply NoDup_lookup; [exact Hnd| |]; rewrite list_lookup_fmap; [by rewrite Hi|].
    rewrite Hj. simpl. by rewrite He. }
  congruence.
Qed.

Lemma find_id_perm (ms ms' : list ModelEntry) i :
  ms ≡ₚ ms' -> NoDup (map id ms) ->
  find_first (fun m => bool_decide (id m = i)) ms = find_first (fun m => bool_decide (id m = i)) ms'.
Proof.
  intros Hp Hnd.
  destruct (find_first _ ms) as [m|] eqn:E, (find_first _ ms') as [m'|] eqn:E'; [| | |done].
  - apply find_first_Some in E as [Hm Hi], E' as [Hm' Hi'].
    apply bool_decide_eq_true in Hi, Hi'. rewrite <- Hp in Hm'. f_equal.
    apply (nodup_id_eq ms); congruence || done.
  - apply find_first_Some in E as [Hm Hi]. rewrite Hp in Hm.
    by rewrite (proj1 (find_first_None _ _) E' m Hm) in Hi.
  - apply find_first_Some in E' as [Hm Hi]. rewrite <- Hp in Hm.
    by rewrite (proj1 (find_first_None _ _) E m' Hm) in Hi.
Qed.

Section Claims.
Context `{HealthView}.

Lemma keyed_perm r r' tier :
  models (rt_corpus r) ≡ₚ models (rt_corpus r') -> backed r = backed r' ->
  keyed r tier ≡ₚ keyed r' tier.
Proof.
  intros Hp Hb. unfold keyed, free_chat, is_backed. rewrite Hb.
  apply filterb_perm, Permutation_map, filterb_perm, filterb_perm, filterb_perm, Hp.
Qed.

Lemma candidates_perm r r' tier :
  models (rt_corpus r) ≡ₚ models (rt_corpus r') -> NoDup (map id (models (rt_corpus r))) ->
  backed r = backed r' -> candidates r tier = candidates r' tier.
Proof.
  intros Hp Hnd Hb. unfold candidates. f_equal.
  apply (sorted_unique (cmp_le keyed_cmp)); [|intros x y Hx Hy Hxy Hyx|apply keyed_sorted..].
  - rewrite !sort_by_perm. by apply keyed_perm.
  - rewrite elem_of_sort_by in Hx, Hy. apply elem_of_keyed in Hx as [Hx [Hmx _]], Hy as [Hy [Hmy _]].
    assert (x.2 = y.2) as He by (apply (nodup_id_eq (models (rt_corpus r))); [done..|by apply keyed_cmp_anti]).
    destruct x, y. simpl in *. by subst.
Qed.

(** C7: the route is sound and best.  Without a pin the primary is an eligible
    model (a free chat model that is healthy, backed and scored) and none
    outranks it, equal ranks going to the smaller id; a pin always leads.  The
    fallbacks are at most four other eligible models.  Selection fails exactly
    when there is no pin and no eligible model. *)
Theorem select_best (r : Router) (tier : Tier) :
  match select r tier with
  | Ok route =>
      match pinned_primary r with
      | Some pin => primary route = pin
      | None => exists m, eligible r tier m /\ primary route = id m /\
          forall m', eligible r tier m' ->
            (rank_key m' tier <? rank_key m tier)%f64 = true \/
            (f64_cmp_or_eq (rank_key m tier) (rank_key m' tier) = Eq /\
             String.compare (id m) (id m') <> Gt)
      end /\
      (length (fallbacks route) <= 4)%nat /\
      (forall i, i ∈ fallbacks route -> i <> primary route /\ exists m, eligible r tier m /\ id m = i)
  | Err _ => pinned_primary r = None /\ forall m, ~ eligible r tier m
  end.
Proof.
  assert (forall p f, (length (build_fallbacks (candidates r tier) p f) <= 4)%nat /\
            (forall i, i ∈ build_fallbacks (candidates r tier) p f ->
               i <> p /\ exists m, eligible r tier m /\ id m = i)) as Hfb.
  { intros p f. split; [rewrite build_fallbacks_spec; simpl; rewrite length_take; lia|].
    intros i Hi. apply elem_of_fallbacks in Hi as (? & m & Hm & ?). split; [done|].
    exists m. by rewrite <- elem_of_candidates. }
  unfold select. destruct (pinned_primary r) as [pin|]; simpl; [split; [done|apply Hfb]|].
  destruct (candidates r tier) as [|m rest] eqn:E; simpl.
  - split; [done|]. intros m Hm. rewrite <- elem_of_candidates, E in Hm. by apply not_elem_of_nil in Hm.
  - split; [|apply Hfb]. pose proof (keyed_sorted r tier) as Hs.
    assert (Hin : m ∈ candidates r tier) by (rewrite E; left).
    unfold candidates in E. destruct (sort_by keyed_cmp (keyed r tier)) as [|km l] eqn:Es; [done|].
    simpl in E. injection E as <- <-. exists km.2.
    assert (Hkm : km ∈ keyed r tier) by (rewrite <- (elem_of_sort_by keyed_cmp), Es; left).
    pose proof (proj1 (Forall_forall _ _) (keyed_ok r tier) km Hkm) as Hok.
    apply elem_of_keyed in Hkm as [Hk He]. split_and!; [done..|]. intros m' Hm'.
    assert (Hm'k : (rank_key m' tier, m') ∈ keyed r tier) by by apply elem_of_keyed.
    pose proof (proj1 (Forall_forall _ _) (keyed_ok r tier) _ Hm'k) as Hok'.
    rewrite <- (elem_of_sort_by keyed_cmp), Es in Hm'k. rewrite <- Hk.
    apply elem_of_cons in Hm'k as [<-|Hl].
    + right. simpl. rewrite f64_cmp_or_eq_rank by done. rewrite lex3_eq. split; [done|].
      by rewrite string_compare_refl.
    + apply (StronglySorted_head _ _ _ Hs) in Hl. by apply keyed_cmp_le in Hl.
Qed.

(** The fallback chain spreads over families.  It is the ranked models
    other than the primary, those of other families first and each group in
    rank order, cut at four: a same-family fallback appears only when fewer
    than four models of other families are left. *)
Theorem fallbacks_other_families_first (ranked : list ModelEntry) (p f : string) :
  let others := filterb (fun m => negb (bool_decide (id m = p))) ranked in
  let away := filterb (fun m => negb (bool_decide (family m = f))) others in
  let home := filterb (fun m => bool_decide (family m = f)) others in
  build_fallbacks ranked p f = take 4 (map id away ++ map id home) /\
  ((4 <= length away)%nat -> build_fallbacks ranked p f = take 4 (map id away)).
Proof.
  simpl. rewrite build_fallbacks_spec. simpl. split; [done|]. intros Hl.
  by rewrite take_app_le by (rewrite length_map; lia).
Qed.

(** A route does not depend on the order of the corpus.  Two corpora with
    the same models in any order, ids distinct, and the same aliases give the
    same route, or the same error. *)
Theorem route_order_independent (r r' : Router) (tier : Tier)
    (Hperm : models (rt_corpus r) ≡ₚ models (rt_corpus r'))
    (Hids : NoDup (map id (models (rt_corpus r))))
    (Halias : alias_map (rt_corpus r) = alias_map (rt_corpus r'))
    (Hpin : pinned_primary r = pinned_primary r') (Hback : backed r = backed r')
    (Hcool : rt_host_cooldown r = rt_host_cooldown r') :
  select r tier = select r' tier.
Proof.
  unfold select. rewrite (candidates_perm r r' tier) by done. rewrite Hpin, Hcool.
  destruct (pinned_primary r') as [pin|].
  - assert (corpus_get (rt_corpus r) pin = corpus_get (rt_corpus r') pin) as ->; [|done].
    unfold corpus_get. rewrite Halias, (find_id_perm _ _ pin Hperm Hids).
    destruct (find_first _ _); [done|]. destruct (alias_map (rt_corpus r') !! pin); simpl; [|done].
    by apply find_id_perm.
  - destruct (candidates r' tier); [|done]. f_equal. unfold empty_pool. rewrite Hback.
    destruct (backed r') as [b|]; [|done]. unfold pool_diagnosis, free_chat.
    assert (forall p q, existsb p (filterb q (models (rt_corpus r))) =
                        existsb p (filterb q (models (rt_corpus r')))) as Hex
      by (intros; by apply existsb_perm, filterb_perm).
    rewrite !Hex. destruct (existsb _ _); [|done].
    assert (forall p q q', existsb p (filterb q (filterb q' (models (rt_corpus r)))) =
                        existsb p (filterb q (filterb q' (models (rt_corpus r'))))) as Hex2
      by (intros; by apply existsb_perm, filterb_perm, filterb_perm).
    by rewrite !Hex2.
Qed.

(** Under a host cooldown nothing metered is left.  Restricting a route to
    cost-neutral models keeps exactly those, in order, refuses metered calls,
    and fails exactly when there is none. *)
Theorem prefer_cost_neutral_exact (r : Route) (neutral : string -> bool) :
  match prefer_cost_neutral r neutral with
  | None => forall i, i ∈ primary r :: fallbacks r -> neutral i = false
  | Some r' => primary r' :: fallbacks r' = filterb neutral (primary r :: fallbacks r) /\
      (forall i, i ∈ primary r' :: fallbacks r' -> neutral i = true) /\
      forall n, allows_metered r' n = n
  end.
Proof.
  unfold prefer_cost_neutral. destruct (filterb neutral _) as [|p rest] eqn:E.
  - intros i Hi. destruct (neutral i) eqn:En; [|done].
    assert (i ∈ filterb neutral (primary r :: fallbacks r)) as Hin by by apply elem_of_filterb.
    rewrite E in Hin. by apply not_elem_of_nil in Hin.
  - cbn [primary fallbacks]. split; [done|]. split; [|intros []; done].
    intros i Hi. rewrite <- E in Hi. by apply elem_of_filterb in Hi as [? _].
Qed.
End Claims.

(** ** A concrete corpus *)
Definition demo_model (i fam : string) (elo : Z) : ModelEntry :=
  mkModel i "h" i fam "chat" true true false None [] None None None None None None None None None None
    None None (Some (f64_lit elo 100)) None None None None.
Definition demo_corpus (ms : list ModelEntry) : Corpus :=
  mkCorpus "test" false "" "" (Z.of_nat (length ms)) ms ∅ None.
Definition demo_rows : list ModelEntry :=
  [demo_model "b/two" "b" 50; demo_model "a/one" "a" 50; demo_model "a/three" "a" 40].

Lemma route_order_independent_witness :
  @select (store_health ∅ 0) (router_new (demo_corpus demo_rows)) Strong =
    @select (store_health ∅ 0) (router_new (demo_corpus (rev demo_rows))) Strong /\
  (match @select (store_health ∅ 0) (router_new (demo_corpus demo_rows)) Strong with
   | Ok route => primary route = "a/one"%string /\ fallbacks route = ["b/two"%string; "a/three"%string]
   | Err _ => False
   end).
Proof.
  split; [|vm_compute; split; reflexivity].
  apply (@route_order_independent (store_health ∅ 0)); [| |reflexivity..].
  - apply Permutation_rev.
  - apply (proj1 (bool_decide_eq_true _)). vm_compute. reflexivity.
Defined.
