(* ===== verification/Utilization.v ===== *)
(** Subscription telemetry (crates/zoder-core/src/utilization.rs): the age
    buckets of an observation, the verdict on one rate-limit snapshot and on a
    whole account, the store of header-fed records and counter-fed windows,
    and the capture of token usage (crates/zoder-core/src/provider.rs).

    The store is two maps keyed by the strings the source builds.  Its file
    (lock, size cap, schema migration of the JSON) is in no operation here
    except the migration of the rows. *)
From S2P Require Import Prelude F64 Clock Config Tiers.
Local Open Scope Z_scope.

(** ** Constants and enumerations *)

Definition DEFAULT_USE_TARGET : f64 := f64_of_Z 80.
Definition DEFAULT_CAP_GUARD : f64 := f64_of_Z 85.
Definition DEFAULT_RESET_IMMINENCE_THRESHOLD : f64 := f64_lit 1 10.
Definition FRESH_MAX_AGE_SECS : Z := 5 * 60.
Definition STALE_MAX_AGE_SECS : Z := 60 * 60.
Definition FUTURE_TIMESTAMP_TOLERANCE_SECS : Z := 60.
Definition FORECAST_CONFIDENCE_MIN : f64 := f64_lit 1 2.
Definition CURRENT_SCHEMA_VERSION : Z := 2.

Inductive TelemetryHealth := Fresh | Stale | Degraded.
#[export] Instance TelemetryHealth_eq_dec : EqDecision TelemetryHealth.
Proof. solve_decision. Defined.

(** [TelemetryHealth::from_age_secs] *)
Definition from_age_secs (age_secs : option Z) : TelemetryHealth :=
  match age_secs with
  | None => Degraded
  | Some s =>
      if s <? - FUTURE_TIMESTAMP_TOLERANCE_SECS then Degraded
      else if s <? FRESH_MAX_AGE_SECS then Fresh
      else if s <? STALE_MAX_AGE_SECS then Stale
      else Degraded
  end.

(** [TelemetryHealth::health_weight] *)
Definition health_weight (h : TelemetryHealth) : f64 :=
  match h with
  | Fresh => f64_of_Z 1
  | Stale => f64_lit 8 10
  | Degraded => f64_zero
  end.

Inductive BudgetMode := Block | Chargeback.
#[export] Instance BudgetMode_eq_dec : EqDecision BudgetMode.
Proof. solve_decision. Defined.

(** The constructor of the verdict [RouteDecision::Chargeback] carries the
    name of its string form. *)
Inductive RouteDecision := PreferSub | FallBackToFree | ChargebackPaid.
#[export] Instance RouteDecision_eq_dec : EqDecision RouteDecision.
Proof. solve_decision. Defined.

Inductive Provider := Other | Openai | OpenaiCodex | Anthropic | MiniMax.
#[export] Instance Provider_eq_dec : EqDecision Provider.
Proof. solve_decision. Defined.

(** ** Snapshots and knobs *)

Record WindowSnapshot := mkWindowSnapshot {
  ws_used_percent : option f64;
  ws_window_minutes : option Z;             (* u32 *)
  ws_reset_at_epoch : option Z;             (* i64 seconds *)
  ws_label : option string
}.

Record RateLimitSnapshot := mkSnapshot {
  rs_provider : Provider;
  rs_account_id : string;
  rs_plan : string;
  rs_primary : option WindowSnapshot;
  rs_secondary : option WindowSnapshot;
  rs_has_credits : option bool;
  rs_observed_at : option Z
}.

(** [RateLimitSnapshot::default] *)
Definition snapshot_default : RateLimitSnapshot :=
  mkSnapshot Other "" "" None None None None.

Record RouteKnobs := mkKnobs {
  use_target : f64;
  cap_guard : f64;
  budget_mode : BudgetMode;
  chargeback_budget_usd : option f64;
  reset_imminence_threshold : f64
}.

(** [RouteKnobs::default] *)
Definition knobs_default : RouteKnobs :=
  mkKnobs DEFAULT_USE_TARGET DEFAULT_CAP_GUARD Block None DEFAULT_RESET_IMMINENCE_THRESHOLD.

(** ** The verdict on one snapshot *)

(** The closure [pct] of [effective_used]. *)
Definition snapshot_pct (now_epoch : Z) (w : WindowSnapshot) : f64 :=
  match ws_reset_at_epoch w with
  | Some t => if t <=? now_epoch then f64_zero else default f64_zero (ws_used_percent w)
  | None => default f64_zero (ws_used_percent w)
  end.

(** [effective_used] *)
Definition effective_used (snap : RateLimitSnapshot) (now : Z) : f64 :=
  let pct := snapshot_pct (timestamp now) in
  match rs_primary snap, rs_secondary snap with
  | Some p, Some s => f64_max (pct p) (pct s)
  | Some p, None => pct p
  | None, Some s => pct s
  | None, None => f64_zero
  end.

(** The verdict past the guard, shared by [decide] and [decide_account]. *)
Definition past_guard (knobs : RouteKnobs) (remaining : option f64) : RouteDecision :=
  match budget_mode knobs with
  | Block => FallBackToFree
  | Chargeback =>
      match chargeback_budget_usd knobs, remaining with
      | Some _, Some r => if (r >? f64_zero)%f64 then ChargebackPaid else FallBackToFree
      | _, _ => FallBackToFree
      end
  end.

(** The freshness gate of [decide]. *)
Definition snapshot_degraded (snap : RateLimitSnapshot) (now : Z) : bool :=
  match rs_observed_at snap with
  | Some observed_at => bool_decide (from_age_secs (Some (num_seconds (now - observed_at))) = Degraded)
  | None => false
  end.

(** [decide] *)
Definition decide_snapshot (snap : RateLimitSnapshot) (knobs : RouteKnobs) (now : Z)
    (chargeback_remaining_usd : option f64) : RouteDecision :=
  let used := effective_used snap now in
  if snapshot_degraded snap now then FallBackToFree
  else if bool_decide (rs_has_credits snap = Some false) then FallBackToFree
  else if (used <? use_target knobs)%f64 then PreferSub
  else if (used <? cap_guard knobs)%f64 then PreferSub
  else past_guard knobs chargeback_remaining_usd.

(** ** The verdict on an account *)

Record WindowView := mkWindowView {
  wv_name : string;
  wv_used_percent : option f64;
  wv_observability : Observability;
  wv_health : TelemetryHealth;
  wv_reset_at : option Z;
  wv_hours : Z                              (* u32 *)
}.

Record AccountView := mkAccountView {
  av_provider : Provider;
  av_account_id : string;
  av_plan : string;
  av_has_credits : option bool;
  av_windows : list WindowView
}.

Record AccountDecision := mkAccountDecision {
  ad_decision : RouteDecision;
  ad_strength : f64;
  ad_binding_window : option string
}.

Record WindowForecast := mkForecast {
  projected_used_percent : f64;
  wf_confidence : f64;
  elapsed_fraction : f64
}.

(** [forecast_window] *)
Definition forecast_window (w : WindowView) (now : Z) : option WindowForecast :=
  used ← wv_used_percent w;
  reset_at ← wv_reset_at w;
  if wv_hours w =? 0 then None
  else
    let duration := (f64_of_Z (wv_hours w) * f64_of_Z 3600)%f64 in
    if (duration <=? f64_zero)%f64 then None
    else
      let time_to_reset := f64_of_Z (num_seconds (reset_at - now)) in
      let elapsed := (duration - time_to_reset)%f64 in
      if (elapsed <=? f64_zero)%f64 then None
      else
        let fraction := f64_clamp (elapsed / duration)%f64 f64_zero (f64_of_Z 1) in
        if (fraction <=? f64_zero)%f64 then None
        else
          Some (mkForecast
                  (f64_max (f64_min (used / fraction)%f64 (f64_of_Z 1000)) used)
                  (f64_clamp (fraction * health_weight (wv_health w))%f64 f64_zero (f64_of_Z 1))
                  fraction).

(** The filter of the observable windows. *)
Definition observable (w : WindowView) : bool :=
  match wv_used_percent w with
  | Some _ => negb (bool_decide (wv_health w = Degraded))
  | None => false
  end.

Definition used_or_zero (w : WindowView) : f64 := default f64_zero (wv_used_percent w).
Definition binding_score (w : WindowView) : f64 :=
  (used_or_zero w * health_weight (wv_health w))%f64.
Definition binding_cmp (a b : WindowView) : comparison :=
  f64_cmp_or_eq (binding_score a) (binding_score b).

(** [forecast_account] *)
Definition forecast_account (account : AccountView) (now : Z) : option WindowForecast :=
  binding ← max_by binding_cmp (filterb observable (av_windows account));
  forecast_window binding now.

(** [is_window_imminently_resetting] *)
Definition is_window_imminently_resetting (knobs : RouteKnobs) (now : Z) (w : WindowView) : bool :=
  let cycle_secs := (f64_of_Z (wv_hours w) * f64_of_Z 3600)%f64 in
  if (cycle_secs <=? f64_zero)%f64 then false
  else match wv_reset_at w with
       | None => false
       | Some r =>
           let raw := num_seconds (r - now) in
           if raw <? 0 then false
           else (f64_of_Z raw / cycle_secs <=? reset_imminence_threshold knobs)%f64
       end.

(** The window is at or above the guard (the test of [hard_cap_breach]). *)
Definition at_guard (knobs : RouteKnobs) (w : WindowView) : bool :=
  (used_or_zero w >=? cap_guard knobs)%f64.

(** The test of [stale_near_cap]. *)
Definition stale_at_guard (knobs : RouteKnobs) (w : WindowView) : bool :=
  bool_decide (wv_health w = Degraded) &&
  match wv_used_percent w with Some u => (u >=? cap_guard knobs)%f64 | None => false end.

(** The test of [forecast_breach]. *)
Definition forecast_breaches (knobs : RouteKnobs) (now : Z) (w : WindowView) : bool :=
  match forecast_window w now with
  | Some f => (wf_confidence f >=? FORECAST_CONFIDENCE_MIN)%f64 &&
              (projected_used_percent f >=? cap_guard knobs)%f64
  | None => false
  end.

Definition has_number (w : WindowView) : bool :=
  match wv_used_percent w with Some _ => true | None => false end.

Definition fall_back : AccountDecision := mkAccountDecision FallBackToFree (f64_of_Z 100) None.

(** [decide_account].  The binding window exists, since [obs] is not empty
    where it is taken. *)
Definition decide_account (account : AccountView) (knobs : RouteKnobs) (now : Z)
    (chargeback_remaining : option f64) : AccountDecision :=
  if bool_decide (av_has_credits account = Some false) then fall_back
  else
    let obs := filterb observable (av_windows account) in
    match max_by binding_cmp obs with
    | None =>
        if existsb has_number (av_windows account) then fall_back
        else mkAccountDecision PreferSub f64_zero None
    | Some binding =>
        if existsb (stale_at_guard knobs) (av_windows account) then fall_back
        else
          let hard_cap_breach := existsb (at_guard knobs) obs in
          let relax := hard_cap_breach &&
            forallb (is_window_imminently_resetting knobs now) (filterb (at_guard knobs) obs) in
          let decision :=
            if relax then PreferSub
            else if hard_cap_breach || existsb (forecast_breaches knobs now) obs
                 then past_guard knobs chargeback_remaining
                 else PreferSub in
          mkAccountDecision decision (used_or_zero binding) (Some (wv_name binding))
    end.

(** ** The store *)

Record UtilizationRecord := mkRecord {
  ur_provider : Provider;
  ur_account_id : string;
  ur_plan : string;
  ur_primary : option WindowSnapshot;
  ur_secondary : option WindowSnapshot;
  ur_has_credits : option bool;
  ur_last_updated : Z
}.

Record CounterIncrement := mkIncrement {
  ci_observed_at : Z;
  ci_tokens : f64
}.

Record CounterWindow := mkCounter {
  cw_provider : Provider;
  cw_account_id : string;
  cw_plan : string;
  cw_window_name : string;
  used_tokens : f64;
  cw_cap : option f64;
  cw_used_percent : option f64;
  cw_reset_at : option Z;
  period_id : option string;
  rolling_hours : option Z;                 (* u32 *)
  increments : list CounterIncrement;
  cw_last_updated : Z
}.

Record UtilizationStore := mkStore {
  records : gmap string UtilizationRecord;
  counters : gmap string CounterWindow;
  schema_version : Z                        (* u32 *)
}.

(** [UtilizationStore::default] *)
Definition store_default : UtilizationStore := mkStore ∅ ∅ CURRENT_SCHEMA_VERSION.

(** [{provider:?}] *)
Definition provider_debug (p : Provider) : string :=
  match p with
  | Other => "Other"
  | Openai => "Openai"
  | OpenaiCodex => "OpenaiCodex"
  | Anthropic => "Anthropic"
  | MiniMax => "MiniMax"
  end.

Definition key (p : Provider) (account_id plan : string) : string :=
  provider_debug p +:+ "::" +:+ account_id +:+ "::" +:+ plan.

Definition counter_key (p : Provider) (account_id plan window_name : string) : string :=
  provider_debug p +:+ "::" +:+ account_id +:+ "::" +:+ plan +:+ "::" +:+ window_name.

(** *** Header-fed records *)

(** [UtilizationRecord::from_snapshot] *)
Definition from_snapshot (snap : RateLimitSnapshot) (now : Z) : UtilizationRecord :=
  mkRecord (rs_provider snap) (rs_account_id snap) (rs_plan snap)
    (rs_primary snap) (rs_secondary snap) (rs_has_credits snap)
    (default now (rs_observed_at snap)).

(** [UtilizationRecord::as_snapshot] *)
Definition as_snapshot (r : UtilizationRecord) : RateLimitSnapshot :=
  mkSnapshot (ur_provider r) (ur_account_id r) (ur_plan r)
    (ur_primary r) (ur_secondary r) (ur_has_credits r) (Some (ur_last_updated r)).

(** The test [upsert] and [record] share: nothing to record. *)
Definition snapshot_is_empty (snap : RateLimitSnapshot) : bool :=
  match rs_primary snap, rs_secondary snap, rs_has_credits snap with
  | None, None, None => true
  | _, _, _ => false
  end.

(** [UtilizationStore::upsert] *)
Definition upsert (s : UtilizationStore) (snap : RateLimitSnapshot) (now : Z) : UtilizationStore :=
  if snapshot_is_empty snap then s
  else mkStore (<[key (rs_provider snap) (rs_account_id snap) (rs_plan snap) :=
                    from_snapshot snap now]> (records s)) (counters s) (schema_version s).

(** [UtilizationStore::get] *)
Definition get (s : UtilizationStore) (p : Provider) (account_id plan : string) :
    option UtilizationRecord :=
  records s !! key p account_id plan.

(** [UtilizationStore::get_counter] *)
Definition get_counter (s : UtilizationStore) (p : Provider) (account_id plan w : string) :
    option CounterWindow :=
  counters s !! counter_key p account_id plan w.

(** *** Counter-fed windows *)

(** [compute_used_percent] *)
Definition compute_used_percent (used : f64) (cap : option f64) : option f64 :=
  match cap with
  | Some c =>
      if f64_is_finite used && (used >=? f64_zero)%f64 && f64_is_finite c && (c >? f64_zero)%f64 then
        let percent := ((used / c) * f64_of_Z 100)%f64 in
        if f64_is_finite percent then Some percent else None
      else None
  | None => None
  end.

(** [migrate_fractional_counter_percent] *)
Definition migrate_fractional_counter_percent (cw : CounterWindow) : CounterWindow :=
  let set_pct p := mkCounter (cw_provider cw) (cw_account_id cw) (cw_plan cw) (cw_window_name cw)
    (used_tokens cw) (cw_cap cw) p (cw_reset_at cw) (period_id cw) (rolling_hours cw)
    (increments cw) (cw_last_updated cw) in
  match cw_cap cw with
  | Some _ => set_pct (compute_used_percent (used_tokens cw) (cw_cap cw))
  | None =>
      match cw_used_percent cw with
      | Some p => set_pct (if (p <? f64_zero)%f64 then None else Some (p * f64_of_Z 100)%f64)
      | None => cw
      end
  end.

(** The migration [build_from_bytes] applies to a parsed store. *)
Definition migrate_store (s : UtilizationStore) : UtilizationStore :=
  if schema_version s <? 2 then
    mkStore (records s) (migrate_fractional_counter_percent <$> counters s) CURRENT_SCHEMA_VERSION
  else s.

(** The row a first sight of a window inserts. *)
Definition new_counter (p : Provider) (account_id plan w : string) (period : option string)
    (hours : option Z) (now : Z) : CounterWindow :=
  mkCounter p account_id plan w f64_zero None None None period hours [] now.

Section Counters.
Context `{Calendar}.

(** [period_id_for] *)
Definition period_id_for (now : Z) : option string := Some (fmt_ym now).

(** [current_period_for_stored_id] *)
Definition current_period_for_stored_id (now : Z) (stored : string) : string :=
  if Nat.eqb (String.length stored) 10 then fmt_ymd now else fmt_ym now.

(** The increments still inside the trailing window that ends at [now]. *)
Definition trailing (hours now : Z) (l : list CounterIncrement) : list CounterIncrement :=
  filterb (fun i => now - hours_ns hours <=? ci_observed_at i) l.

(** [effective_counter_percent] *)
Definition effective_counter_percent (c : CounterWindow) (now : Z) : option f64 :=
  compute_used_percent
    (match rolling_hours c with
     | Some h => f64_sum (map ci_tokens (trailing h now (increments c)))
     | None => used_tokens c
     end) (cw_cap c).

(** The calendar reset of [record_counter]. *)
Definition roll_period (c : CounterWindow) (now : Z) : CounterWindow :=
  match period_id c with
  | Some stored =>
      let current := current_period_for_stored_id now stored in
      if bool_decide (stored = current) then c
      else mkCounter (cw_provider c) (cw_account_id c) (cw_plan c) (cw_window_name c)
             f64_zero (cw_cap c) None (cw_reset_at c) (Some current) (rolling_hours c) []
             (cw_last_updated c)
  | None => c
  end.

Definition valid_tokens (tokens : f64) : bool := f64_is_finite tokens && (tokens >? f64_zero)%f64.

(** The body of [record_counter] on its row. *)
Definition record_row (c : CounterWindow) (tokens_used : f64) (now : Z) : CounterWindow :=
  let c := roll_period c now in
  let observed_now :=
    match rolling_hours c with
    | Some _ => if now <? cw_last_updated c then cw_last_updated c else now
    | None => now
    end in
  let incs :=
    match rolling_hours c with
    | Some h => trailing h observed_now (increments c) ++
                (if valid_tokens tokens_used then [mkIncrement observed_now tokens_used] else [])
    | None => increments c
    end in
  let used :=
    match rolling_hours c with
    | Some _ => f64_min (f64_sum (map ci_tokens incs)) f64_MAX
    | None => if valid_tokens tokens_used then f64_min (used_tokens c + tokens_used)%f64 f64_MAX
              else used_tokens c
    end in
  mkCounter (cw_provider c) (cw_account_id c) (cw_plan c) (cw_window_name c)
    used (cw_cap c) (compute_used_percent used (cw_cap c)) (cw_reset_at c) (period_id c)
    (rolling_hours c) incs observed_now.

(** [self.counters.entry(k).or_insert_with(..)] followed by an update of the row. *)
Definition with_counter (s : UtilizationStore) (k : string) (fresh : CounterWindow)
    (f : CounterWindow -> CounterWindow) : UtilizationStore :=
  mkStore (records s) (<[k := f (default fresh (counters s !! k))]> (counters s)) (schema_version s).

(** [UtilizationStore::record_counter]; the value it returns is the row's
    [used_tokens]. *)
Definition record_counter (s : UtilizationStore) (p : Provider) (account_id plan w : string)
    (tokens_used : f64) (now : Z) : UtilizationStore :=
  with_counter s (counter_key p account_id plan w)
    (new_counter p account_id plan w None None now)
    (fun c => record_row c tokens_used now).

(** The body of [set_counter_period_id]. *)
Definition set_period_row (c : CounterWindow) (period : option string) (now : Z) : CounterWindow :=
  let stored := match period with
                | Some p => match period_id c with Some q => Some q | None => Some p end
                | None => None
                end in
  mkCounter (cw_provider c) (cw_account_id c) (cw_plan c) (cw_window_name c)
    (used_tokens c) (cw_cap c) (cw_used_percent c) (cw_reset_at c) stored
    (rolling_hours c) (increments c) now.

(** [UtilizationStore::set_counter_period_id] *)
Definition set_counter_period_id (s : UtilizationStore) (p : Provider) (account_id plan w : string)
    (period : option string) (now : Z) : UtilizationStore :=
  with_counter s (counter_key p account_id plan w)
    (new_counter p account_id plan w period None now)
    (fun c => set_period_row c period now).

(** The body of [set_counter_rolling_hours]. *)
Definition set_rolling_row (c : CounterWindow) (hours : option Z) : CounterWindow :=
  let incs :=
    match hours, increments c with
    | Some _, [] => if (used_tokens c >? f64_zero)%f64
                    then [mkIncrement (cw_last_updated c) (used_tokens c)] else []
    | Some _, l => l
    | None, _ => []
    end in
  mkCounter (cw_provider c) (cw_account_id c) (cw_plan c) (cw_window_name c)
    (used_tokens c) (cw_cap c) (cw_used_percent c) (cw_reset_at c) (period_id c)
    hours incs (cw_last_updated c).

(** [UtilizationStore::set_counter_rolling_hours] *)
Definition set_counter_rolling_hours (s : UtilizationStore) (p : Provider)
    (account_id plan w : string) (hours : option Z) (now : Z) : UtilizationStore :=
  with_counter s (counter_key p account_id plan w)
    (new_counter p account_id plan w None hours now)
    (fun c => set_rolling_row c hours).

(** The body of [set_counter_cap]. *)
Definition set_cap_row (c : CounterWindow) (cap : option f64) (now : Z) : CounterWindow :=
  mkCounter (cw_provider c) (cw_account_id c) (cw_plan c) (cw_window_name c)
    (used_tokens c) cap (compute_used_percent (used_tokens c) cap) (cw_reset_at c) (period_id c)
    (rolling_hours c) (increments c) now.

(** [UtilizationStore::set_counter_cap] *)
Definition set_counter_cap (s : UtilizationStore) (p : Provider) (account_id plan w : string)
    (cap : option f64) (now : Z) : UtilizationStore :=
  with_counter s (counter_key p account_id plan w)
    (new_counter p account_id plan w None None now)
    (fun c => set_cap_row c cap now).

(** [UtilizationStore::recompute_counter_percent] *)
Definition recompute_counter_percent (s : UtilizationStore) (p : Provider)
    (account_id plan w : string) : UtilizationStore * option f64 :=
  let k := counter_key p account_id plan w in
  match counters s !! k with
  | None => (s, None)
  | Some c =>
      let pct := compute_used_percent (used_tokens c) (cw_cap c) in
      (mkStore (records s)
         (<[k := mkCounter (cw_provider c) (cw_account_id c) (cw_plan c) (cw_window_name c)
                   (used_tokens c) (cw_cap c) pct (cw_reset_at c) (period_id c)
                   (rolling_hours c) (increments c) (cw_last_updated c)]> (counters s))
         (schema_version s), pct)
  end.

(** ** The view of an account *)

Definition primary_name (n : string) : bool := bool_decide (n = "primary") || bool_decide (n = "5h").
Definition secondary_name (n : string) : bool := bool_decide (n = "secondary") || bool_decide (n = "weekly").

Definition minutes_match (ws : WindowSnapshot) (m : Z) : bool :=
  bool_decide (ws_window_minutes ws = Some m).

(** [header_match], the window of the record it pairs with the configured one. *)
Definition header_match (r : UtilizationRecord) (cw : QuotaWindow) : option WindowSnapshot :=
  let m := u32_sat_mul (qw_hours cw) 60 in
  let by_name :=
    match ur_primary r, ur_secondary r with
    | Some p, s =>
        if primary_name (qw_name cw) then Some p
        else if secondary_name (qw_name cw) then s else None
    | None, s => if secondary_name (qw_name cw) then s else None
    end in
  match ur_primary r, ur_secondary r with
  | Some p, s =>
      if minutes_match p m then Some p
      else match s with
           | Some s => if minutes_match s m then Some s else by_name
           | None => by_name
           end
  | None, _ => by_name
  end.

(** [header_epoch_for_window], the window whose reset it reads. *)
Definition header_epoch_source (r : UtilizationRecord) (cw : QuotaWindow) : option WindowSnapshot :=
  let m := u32_sat_mul (qw_hours cw) 60 in
  let by_minutes :=
    match ur_primary r, ur_secondary r with
    | Some p, s =>
        if minutes_match p m then Some p
        else match s with Some s => if minutes_match s m then Some s else None | None => None end
    | None, Some s => if minutes_match s m then Some s else None
    | None, None => None
    end in
  match ur_primary r, ur_secondary r with
  | Some p, s =>
      if primary_name (qw_name cw) then Some p
      else match s with
           | Some s => if secondary_name (qw_name cw) then Some s else by_minutes
           | None => by_minutes
           end
  | None, Some s => if secondary_name (qw_name cw) then Some s else by_minutes
  | None, None => None
  end.

(** [counter_is_current] *)
Definition counter_is_current (cw : QuotaWindow) (now : Z) (c : CounterWindow) : bool :=
  match qw_reset cw with
  | Rolling => true
  | CalendarMonthly =>
      match period_id c with Some p => bool_decide (p = fmt_ym now) | None => true end
  | CalendarDaily =>
      match period_id c with Some p => bool_decide (p = fmt_ymd now) | None => true end
  end.

(** [DateTime::<Utc>::from_timestamp(epoch, 0)] of chrono, [None] out of its
    range. *)
Variable from_timestamp : Z -> option Z.

(** One turn of the loop of [build_account_view]. *)
Definition window_view (header : option UtilizationRecord) (counter : option CounterWindow)
    (now : Z) (cw : QuotaWindow) : WindowView :=
  let matched := r ← header; w ← header_match r cw; Some (ws_used_percent w, ur_last_updated r) in
  let epoch := r ← header; w ← header_epoch_source r cw; ws_reset_at_epoch w in
  let reset_at :=
    match c ← counter; cw_reset_at c with
    | Some t => Some t
    | None => e ← epoch; from_timestamp e
    end in
  let current := match counter with None => true | Some c => counter_is_current cw now c end in
  let age ts := num_seconds (now - ts) in
  let used_percent :=
    match qw_observability cw with
    | Counter => if current then c ← counter; effective_counter_percent c now else Some f64_zero
    | Header | PercentOnly => m ← matched; m.1
    end in
  let health :=
    match qw_observability cw with
    | Counter => from_age_secs ((fun c => age (cw_last_updated c)) <$> counter)
    | Header | PercentOnly => from_age_secs ((fun m => age m.2) <$> matched)
    end in
  mkWindowView (qw_name cw) used_percent (qw_observability cw) health reset_at (qw_hours cw).

(** The credit flag of [build_account_view]: that of a record still trusted. *)
Definition account_credits (header : option UtilizationRecord) (now : Z) : option bool :=
  r ← header;
  if bool_decide (from_age_secs (Some (num_seconds (now - ur_last_updated r))) = Degraded)
  then None else ur_has_credits r.

(** [build_account_view] *)
Definition build_account_view (p : Provider) (account_id plan : string)
    (configured_windows : list QuotaWindow) (s : UtilizationStore) (now : Z) : AccountView :=
  let header := get s p account_id plan in
  mkAccountView p account_id plan (account_credits header now)
    (map (fun cw => window_view header (get_counter s p account_id plan (qw_name cw)) now cw)
         configured_windows).

(** ** Capturing a response's usage (provider.rs) *)

(** The period of a calendar window in [capture_counter_usage]. *)
Definition capture_period (reset : ResetKind) (now : Z) : option string :=
  match reset with
  | CalendarMonthly => period_id_for now
  | CalendarDaily => Some (fmt_ymd now)
  | Rolling => None
  end.

(** The calls [capture_counter_usage] makes for one window of the plan. *)
Definition configure_window (plan account_id : string) (now : Z) (s : UtilizationStore)
    (w : TierWindow) : UtilizationStore :=
  match tw_observability w with
  | Counter =>
      let hours := if bool_decide (tw_reset w = Rolling) then Some (tw_hours w) else None in
      let s := set_counter_rolling_hours s MiniMax account_id plan (tw_name w) hours now in
      let s := set_counter_cap s MiniMax account_id plan (tw_name w) (tw_cap w) now in
      set_counter_period_id s MiniMax account_id plan (tw_name w)
        (capture_period (tw_reset w) now) now
  | _ => s
  end.

(** [total_tokens] *)
Definition total_tokens (prompt completion : option Z) : option f64 :=
  match prompt, completion with
  | Some p, Some c => Some (f64_of_Z p + f64_of_Z c)%f64
  | Some p, None => Some (f64_of_Z p)
  | None, Some c => Some (f64_of_Z c)
  | None, None => None
  end.

(** [capture_counter_usage] on an open store; [catalog] is the bundled one. *)
Definition capture_counter_usage (catalog : TierCatalog) (provider_id base_url plan account_id : string)
    (prompt completion : option Z) (now : Z) (s : UtilizationStore) : UtilizationStore :=
  if negb (str_contains "minimax" (to_ascii_lowercase provider_id)) &&
     negb (str_contains "minimax" (to_ascii_lowercase base_url)) then s
  else match total_tokens prompt completion with
       | None => s
       | Some total =>
           if (total <=? f64_zero)%f64 then s
           else
             let s := match tier catalog "minimax" plan with
                      | Some entry => fold_left (configure_window plan account_id now) (tier_windows entry) s
                      | None => s
                      end in
             record_counter s MiniMax account_id plan "monthly" total now
       end.
End Counters.

(** ** The verdict on an account *)

Lemma past_guard_not_sub knobs remaining : past_guard knobs remaining <> PreferSub.
Proof. unfold past_guard. repeat case_match; done. Qed.

Lemma past_guard_chargeback knobs remaining :
  past_guard knobs remaining = ChargebackPaid <->
  budget_mode knobs = Chargeback /\ is_Some (chargeback_budget_usd knobs) /\
  exists r, remaining = Some r /\ f64_ltb f64_zero r = true.
Proof.
  unfold past_guard. split.
  - repeat case_match; naive_solver.
  - intros (-> & [b ->] & r & -> & Hr). simpl. by rewrite Hr.
Qed.

Lemma max_by_None {A} (cmp : A -> A -> comparison) l : max_by cmp l = None -> l = [].
Proof. by destruct l. Qed.

Lemma observable_has_number w : observable w = true -> has_number w = true.
Proof. unfold observable, has_number. by destruct (wv_used_percent w). Qed.

Lemma no_binding account :
  max_by binding_cmp (filterb observable (av_windows account)) = None <->
  forall w, w ∈ av_windows account -> observable w = false.
Proof.
  split.
  - intros Hm%max_by_None w Hw. destruct (observable w) eqn:E; [|done].
    assert (w ∈ filterb observable (av_windows account)) as Hin by by apply elem_of_filterb.
    rewrite Hm in Hin. by apply not_elem_of_nil in Hin.
  - intros Hall. destruct (max_by _ _) as [b|] eqn:E; [|done].
    apply max_by_elem, elem_of_filterb in E as [Hb Hin]. by rewrite (Hall b Hin) in Hb.
Qed.

(** The windows at the guard are all about to reset. *)
Lemma relax_spec knobs now l :
  existsb (at_guard knobs) (filterb observable l) &&
  forallb (is_window_imminently_resetting knobs now)
    (filterb (at_guard knobs) (filterb observable l)) = true <->
  (exists w, w ∈ l /\ observable w = true /\ at_guard knobs w = true) /\
  (forall w, w ∈ l -> observable w = true -> at_guard knobs w = true ->
     is_window_imminently_resetting knobs now w = true).
Proof.
  rewrite andb_true_iff, existsb_elem, forallb_elem.
  setoid_rewrite elem_of_filterb. setoid_rewrite elem_of_filterb. naive_solver.
Qed.

Lemma quiet_spec knobs now l :
  existsb (at_guard knobs) (filterb observable l) ||
  existsb (forecast_breaches knobs now) (filterb observable l) = false <->
  forall w, w ∈ l -> observable w = true ->
    at_guard knobs w = false /\ forecast_breaches knobs now w = false.
Proof.
  rewrite orb_false_iff, !existsb_none. setoid_rewrite elem_of_filterb. naive_solver.
Qed.

(** C20: an account keeps the subscription exactly when its credits are not
    reported exhausted and either no window ever had a reading, or some
    trusted reading exists, no stale one stands at the guard, and either the
    windows at the guard are all about to reset or none is at the guard nor
    forecast to reach it. *)
Theorem decide_account_prefers_sub_iff account knobs now remaining :
  ad_decision (decide_account account knobs now remaining) = PreferSub <->
  av_has_credits account <> Some false /\
  ((forall w, w ∈ av_windows account -> has_number w = false) \/
   (exists w, w ∈ av_windows account /\ observable w = true) /\
   (forall w, w ∈ av_windows account -> stale_at_guard knobs w = false) /\
   ((exists w, w ∈ av_windows account /\ observable w = true /\ at_guard knobs w = true) /\
    (forall w, w ∈ av_windows account -> observable w = true -> at_guard knobs w = true ->
       is_window_imminently_resetting knobs now w = true) \/
    (forall w, w ∈ av_windows account -> observable w = true ->
       at_guard knobs w = false /\ forecast_breaches knobs now w = false))).
Proof.
  unfold decide_account. case_bool_decide as Hc; [split; [done|by intros [? _]]|].
  destruct (max_by _ _) as [b|] eqn:Hm.
  - assert (b ∈ av_windows account /\ observable b = true) as [Hb Hobs].
    { by apply max_by_elem, elem_of_filterb in Hm as [? ?]. }
    assert (~ forall w, w ∈ av_windows account -> has_number w = false) as Hn.
    { intros Hall. specialize (Hall b Hb). by rewrite observable_has_number in Hall. }
    destruct (existsb (stale_at_guard knobs) _) eqn:Hs.
    { apply existsb_elem in Hs. destruct Hs as (w & Hw & Hst).
      split; [done|]. intros (_ & [Hall|(_ & Hall & _)]); [done|]. by rewrite Hall in Hst. }
    rewrite existsb_none in Hs. cbn [ad_decision].
    destruct (_ && _) eqn:Hr.
    { apply relax_spec in Hr. split; [|done]. intros _. split; [done|]. right.
      split; [by exists b|]. split; [done|by left]. }
    pose proof (relax_spec knobs now (av_windows account)) as Hrel. rewrite Hr in Hrel.
    destruct (_ || _) eqn:Hq.
    + pose proof (quiet_spec knobs now (av_windows account)) as Hqs. rewrite Hq in Hqs.
      split; [intros Hp; by apply past_guard_not_sub in Hp|].
      intros (_ & [Hall|(_ & _ & [Hi|Hi])]); [done| |].
      * by apply Hrel in Hi.
      * by apply Hqs in Hi.
    + pose proof (proj1 (quiet_spec _ _ _) Hq) as Hqs. split; [|done]. intros _.
      split; [done|]. right. split; [by exists b|]. split; [done|by right].
  - rewrite no_binding in Hm. destruct (existsb has_number _) eqn:Hn.
    + apply existsb_elem in Hn as (w & Hw & Hwn). split; [done|].
      intros (_ & [Hall|((v & Hv & Ho) & _)]); [by rewrite Hall in Hwn|by rewrite Hm in Ho].
    + rewrite existsb_none in Hn. split; [|done]. intros _. split; [done|by left].
Qed.

(** A window at 84 percent that is about to reset is pre-empted by its
    forecast, while the same window at 86 percent keeps the subscription. *)
Definition near_reset (percent : Z) : AccountView :=
  mkAccountView OpenaiCodex "default" "pro" None
    [mkWindowView "5h" (Some (f64_of_Z percent)) Header Fresh (Some (900 * NS)) 5].

Lemma imminent_window_preempted :
  ad_decision (decide_account (near_reset 84) knobs_default 0 None) = FallBackToFree /\
  ad_decision (decide_account (near_reset 86) knobs_default 0 None) = PreferSub.
Proof. by vm_compute. Qed.

(** ** The verdict on a snapshot *)

Lemma decide_snapshot_prefers_sub_iff snap knobs now remaining :
  decide_snapshot snap knobs now remaining = PreferSub <->
  snapshot_degraded snap now = false /\ rs_has_credits snap <> Some false /\
  ((effective_used snap now <? use_target knobs)%f64 = true \/
   (effective_used snap now <? cap_guard knobs)%f64 = true).
Proof.
  unfold decide_snapshot. pose proof (past_guard_not_sub knobs remaining) as Hp.
  repeat case_match; repeat case_bool_decide; naive_solver congruence.
Qed.

(** ** Counters *)

Section CounterLemmas.
Context `{Calendar}.

Lemma trailing_app h now l k : trailing h now (l ++ k) = trailing h now l ++ trailing h now k.
Proof. apply List.filter_app. Qed.

Lemma trailing_trailing h t1 t2 l :
  t1 <= t2 -> trailing h t2 (trailing h t1 l) = trailing h t2 l.
Proof.
  intros Ht. unfold trailing, filterb. induction l as [|i l IH]; [done|]. cbn [List.filter].
  destruct (Z.leb_spec (t1 - hours_ns h) (ci_observed_at i)); cbn [List.filter];
    destruct (Z.leb_spec (t2 - hours_ns h) (ci_observed_at i)); try lia; by rewrite IH.
Qed.

Lemma trailing_now h t l :
  0 <= h -> Forall (fun i => t <= ci_observed_at i) l -> trailing h t l = l.
Proof.
  intros Hh Hl. unfold trailing, filterb. induction Hl as [|i l Hi Hl IH]; [done|].
  cbn [List.filter]. destruct (Z.leb_spec (t - hours_ns h) (ci_observed_at i)); [by rewrite IH|].
  unfold hours_ns, NS in *. lia.
Qed.

(** *** The reference: every capture at a clock that never steps back *)
Definition capture : Type := f64 * Z.

Fixpoint clamped (last : Z) (evs : list capture) : list CounterIncrement :=
  match evs with
  | [] => []
  | (tokens, now) :: evs =>
      let t := Z.max last now in
      (if valid_tokens tokens then [mkIncrement t tokens] else []) ++ clamped t evs
  end.
Definition clamped_last (last : Z) (evs : list capture) : Z :=
  fold_left (fun t e => Z.max t e.2) evs last.

Lemma clamped_last_ge last evs : last <= clamped_last last evs.
Proof.
  revert last. induction evs as [|e evs IH]; intros last; simpl; [done|].
  etrans; [|apply IH]. lia.
Qed.

Definition record_rows (c : CounterWindow) (evs : list capture) : CounterWindow :=
  fold_left (fun c e => record_row c e.1 e.2) evs c.

Lemma record_row_rolling c h tokens now :
  rolling_hours c = Some h -> period_id c = None ->
  let t := Z.max (cw_last_updated c) now in
  let incs := trailing h t (increments c) ++
              (if valid_tokens tokens then [mkIncrement t tokens] else []) in
  let used := f64_min (f64_sum (map ci_tokens incs)) f64_MAX in
  record_row c tokens now =
  mkCounter (cw_provider c) (cw_account_id c) (cw_plan c) (cw_window_name c)
    used (cw_cap c) (compute_used_percent used (cw_cap c)) (cw_reset_at c) None (Some h) incs t.
Proof.
  intros Hh Hp t incs used. unfold record_row, roll_period. rewrite Hp, Hh.
  assert ((if now <? cw_last_updated c then cw_last_updated c else now) = t) as ->.
  { unfold t. destruct (Z.ltb_spec now (cw_last_updated c)); lia. }
  by rewrite Hp.
Qed.

Lemma record_rows_rolling c h evs :
  rolling_hours c = Some h -> period_id c = None -> 0 <= h -> evs <> [] ->
  let c' := record_rows c evs in
  rolling_hours c' = Some h /\ period_id c' = None /\ cw_cap c' = cw_cap c /\
  cw_last_updated c' = clamped_last (cw_last_updated c) evs /\
  increments c' = trailing h (cw_last_updated c')
                    (increments c ++ clamped (cw_last_updated c) evs) /\
  used_tokens c' = f64_min (f64_sum (map ci_tokens (increments c'))) f64_MAX /\
  cw_used_percent c' = compute_used_percent (used_tokens c') (cw_cap c').
Proof.
  intros Hh Hp Hn Hne. revert c Hh Hp Hne.
  induction evs as [|[tokens now] evs IH]; intros c Hh Hp Hne c'; [done|].
  unfold c', record_rows. cbn [fold_left fst snd]. rewrite (record_row_rolling c h) by done.
  set (t := Z.max (cw_last_updated c) now). set (c1 := mkCounter _ _ _ _ _ _ _ _ _ _ _ _).
  set (new := if valid_tokens tokens then [mkIncrement t tokens] else []).
  assert (trailing h t new = new) as Hnew.
  { apply trailing_now; [done|]. unfold new. case_match; repeat constructor. simpl. lia. }
  cbn [clamped clamped_last fold_left snd]. fold t new.
  destruct evs as [|e evs].
  - cbn [fold_left clamped clamped_last c1 rolling_hours period_id cw_cap cw_last_updated increments
         used_tokens cw_used_percent]. split_and!; try done.
    rewrite app_nil_r, trailing_app. by rewrite Hnew.
  - destruct (IH c1) as (? & ? & ? & Hl & Hi & Hu & Hpc); [done..|].
    change (fold_left _ (e :: evs) c1) with (record_rows c1 (e :: evs)). split_and!; try done.
    rewrite Hi. cbn [c1 increments cw_last_updated]. fold new.
    rewrite !trailing_app, <- app_assoc, trailing_trailing; [done|].
    rewrite Hl. apply clamped_last_ge.
Qed.

(** *** The same on the store *)
Definition record_counters (s : UtilizationStore) (p : Provider) (account_id plan w : string)
    (evs : list capture) : UtilizationStore :=
  fold_left (fun s e => record_counter s p account_id plan w e.1 e.2) evs s.

Lemma record_counters_row s p account_id plan w evs c :
  get_counter s p account_id plan w = Some c ->
  get_counter (record_counters s p account_id plan w evs) p account_id plan w =
    Some (record_rows c evs).
Proof.
  unfold get_counter, record_counters, record_rows. revert s c.
  induction evs as [|e evs IH]; intros s c Hc; [done|]. cbn [fold_left]. apply IH.
  unfold record_counter, with_counter. cbn [counters]. by rewrite lookup_insert_eq, Hc.
Qed.

Lemma record_counters_frame s p account_id plan w evs k :
  k <> counter_key p account_id plan w ->
  counters (record_counters s p account_id plan w evs) !! k = counters s !! k.
Proof.
  intros Hk. unfold record_counters. revert s.
  induction evs as [|e evs IH]; intros s; [done|]. cbn [fold_left]. rewrite IH.
  unfold record_counter, with_counter. cbn [counters]. by rewrite lookup_insert_ne.
Qed.

(** C25: after any captures, at any clock readings, a rolling counter holds
    exactly the increments of the trailing window of the captures taken at a
    clock that never steps back; its tokens are their sum, its percent is
    computed from them, and no other counter changes. *)
Theorem rolling_counter_exact s p account_id plan w evs c h :
  get_counter s p account_id plan w = Some c ->
  rolling_hours c = Some h -> period_id c = None -> 0 <= h -> evs <> [] ->
  let s' := record_counters s p account_id plan w evs in
  (exists c', get_counter s' p account_id plan w = Some c' /\
     cw_last_updated c' = clamped_last (cw_last_updated c) evs /\
     increments c' = trailing h (cw_last_updated c')
                       (increments c ++ clamped (cw_last_updated c) evs) /\
     used_tokens c' = f64_min (f64_sum (map ci_tokens (increments c'))) f64_MAX /\
     cw_used_percent c' = compute_used_percent (used_tokens c') (cw_cap c)) /\
  (forall k, k <> counter_key p account_id plan w -> counters s' !! k = counters s !! k).
Proof.
  intros Hc Hh Hp Hn Hne s'. split; [|intros k Hk; by apply record_counters_frame].
  destruct (record_rows_rolling c h evs) as (_ & _ & Hcap & Hl & Hi & Hu & Hpc); [done..|].
  exists (record_rows c evs). split; [by apply record_counters_row|].
  rewrite Hcap in Hpc. done.
Qed.

(** *** Calendar windows *)

(** What one capture adds to a calendar counter. *)
Definition add_tokens (used tokens : f64) : f64 :=
  if valid_tokens tokens then f64_min (used + tokens)%f64 f64_MAX else used.

(** The period id of an instant in the format of the stored id. *)
Definition period_at (daily : bool) (now : Z) : string := if daily then fmt_ymd now else fmt_ym now.
Definition is_daily (id : string) : bool := Nat.eqb (String.length id) 10.

Definition calendar_row (daily : bool) (c : CounterWindow) (stored : string) : Prop :=
  rolling_hours c = None /\ period_id c = Some stored /\ is_daily stored = daily.

Lemma record_row_calendar daily c stored e :
  calendar_row daily c stored -> is_daily (period_at daily e.2) = daily ->
  let c' := record_row c e.1 e.2 in
  calendar_row daily c' (period_at daily e.2) /\ cw_cap c' = cw_cap c /\
  used_tokens c' =
    add_tokens (if bool_decide (stored = period_at daily e.2) then used_tokens c else f64_zero) e.1.
Proof.
  intros (Hr & Hp & Hd) He c'. unfold c', record_row, roll_period. rewrite Hp.
  change (current_period_for_stored_id e.2 stored) with (period_at (is_daily stored) e.2).
  rewrite Hd. case_bool_decide as Hs;
    cbn [rolling_hours used_tokens cw_cap period_id cw_used_percent]; rewrite Hr;
    unfold calendar_row; cbn [rolling_hours period_id used_tokens cw_cap cw_used_percent];
    split_and!; try done. by rewrite Hp, Hs.
Qed.

(** Captures all in the stored period add up. *)
Lemma record_rows_same_period daily c stored evs :
  calendar_row daily c stored -> Forall (fun e => period_at daily e.2 = stored) evs ->
  let c' := record_rows c evs in
  calendar_row daily c' stored /\ cw_cap c' = cw_cap c /\
  used_tokens c' = fold_left add_tokens (map fst evs) (used_tokens c).
Proof.
  intros Hc Hf. revert c Hc. induction Hf as [|e evs He Hf IH]; intros c Hc; [done|].
  unfold record_rows. cbn [fold_left map]. fold (record_rows (record_row c e.1 e.2) evs).
  destruct (record_row_calendar daily c stored e) as (Hc' & Hcap & Hu);
    [done|rewrite He; apply Hc|].
  rewrite He in Hc'. destruct (IH _ Hc') as (? & Hcap' & ->).
  rewrite Hu, He, bool_decide_true by done. by rewrite Hcap', Hcap.
Qed.

Lemma record_rows_period daily c stored evs :
  calendar_row daily c stored ->
  Forall (fun e => is_daily (period_at daily e.2) = daily) evs ->
  calendar_row daily (record_rows c evs)
    (default stored (last (map (fun e => period_at daily e.2) evs))) /\
  cw_cap (record_rows c evs) = cw_cap c.
Proof.
  intros Hc Hf. revert c stored Hc. induction Hf as [|e evs He Hf IH]; intros c stored Hc; [done|].
  unfold record_rows. cbn [fold_left map]. fold (record_rows (record_row c e.1 e.2) evs).
  destruct (record_row_calendar daily c stored e) as (Hc' & Hcap & _); [done..|].
  destruct (IH _ _ Hc') as [Hc'' Hcap']. rewrite Hcap'. split; [|done].
  rewrite last_cons. by destruct (last (map _ evs)).
Qed.

Lemma record_rows_app c l k : record_rows c (l ++ k) = record_rows (record_rows c l) k.
Proof. apply fold_left_app. Qed.

Lemma record_rows_percent c evs :
  evs <> [] ->
  cw_used_percent (record_rows c evs) =
    compute_used_percent (used_tokens (record_rows c evs)) (cw_cap (record_rows c evs)).
Proof.
  destruct evs as [|e evs _] using rev_ind; [done|]. intros _. by rewrite record_rows_app.
Qed.

(** A calendar counter counts the current period only: once the captures
    enter a period other than the last one seen, its tokens are the sum of the
    captures since, whatever was recorded before. *)
Theorem calendar_counter_exact s p account_id plan w c daily stored pre post P :
  get_counter s p account_id plan w = Some c -> calendar_row daily c stored ->
  Forall (fun e => is_daily (period_at daily e.2) = daily) (pre ++ post) ->
  default stored (last (map (fun e => period_at daily e.2) pre)) <> P ->
  post <> [] -> Forall (fun e => period_at daily e.2 = P) post ->
  exists c', get_counter (record_counters s p account_id plan w (pre ++ post)) p account_id plan w
      = Some c' /\
    period_id c' = Some P /\
    used_tokens c' = fold_left add_tokens (map fst post) f64_zero /\
    cw_used_percent c' = compute_used_percent (used_tokens c') (cw_cap c).
Proof.
  intros Hget Hc [Hpre Hpost]%Forall_app Hne Hpe HP.
  exists (record_rows c (pre ++ post)). split; [by apply record_counters_row|].
  destruct (record_rows_period daily c stored pre) as [Hmid Hcap]; [done..|].
  rewrite record_rows_app. set (m := record_rows c pre) in *.
  destruct post as [|e post]; [done|]. clear Hpe.
  apply Forall_cons in Hpost as [He _]. apply Forall_cons in HP as [HeP HP].
  destruct (record_row_calendar daily m _ e Hmid He) as (Hc1 & Hcap1 & Hu1).
  rewrite HeP, bool_decide_false in Hu1 by done. rewrite HeP in Hc1.
  destruct (record_rows_same_period daily _ P post Hc1 HP) as (Hc2 & Hcap2 & Hu2).
  change (record_rows m (e :: post)) with (record_rows (record_row m e.1 e.2) post).
  split_and!; [apply Hc2|by rewrite Hu2, Hu1|].
  rewrite <- Hcap, <- Hcap1, <- Hcap2.
  change (record_rows (record_row m e.1 e.2) post) with (record_rows m (e :: post)).
  by apply record_rows_percent.
Qed.

(** *** Every counter the store can hold *)
Record counter_wf (c : CounterWindow) : Prop := {
  wf_finite : f64_is_finite (used_tokens c) = true;
  wf_nonneg : f64_leb f64_zero (used_tokens c) = true;
  wf_increments : Forall (fun i => valid_tokens (ci_tokens i) = true) (increments c);
  wf_percent : cw_used_percent c = compute_used_percent (used_tokens c) (cw_cap c)
}.

(** The operations on the counters of a store. *)
Inductive CounterOp :=
| OpRecord (p : Provider) (account_id plan w : string) (tokens : f64) (now : Z)
| OpPeriod (p : Provider) (account_id plan w : string) (period : option string) (now : Z)
| OpRolling (p : Provider) (account_id plan w : string) (hours : option Z) (now : Z)
| OpCap (p : Provider) (account_id plan w : string) (cap : option f64) (now : Z)
| OpRecompute (p : Provider) (account_id plan w : string)
| OpUpsert (snap : RateLimitSnapshot) (now : Z).

Definition run_op (s : UtilizationStore) (op : CounterOp) : UtilizationStore :=
  match op with
  | OpRecord p a pl w tokens now => record_counter s p a pl w tokens now
  | OpPeriod p a pl w period now => set_counter_period_id s p a pl w period now
  | OpRolling p a pl w hours now => set_counter_rolling_hours s p a pl w hours now
  | OpCap p a pl w cap now => set_counter_cap s p a pl w cap now
  | OpRecompute p a pl w => (recompute_counter_percent s p a pl w).1
  | OpUpsert snap now => upsert s snap now
  end.

Definition run_ops (s : UtilizationStore) (ops : list CounterOp) : UtilizationStore :=
  fold_left run_op ops s.

Definition nonneg (x : f64) : Prop := f64_pos x = true \/ x = f64_neg_zero.

Lemma nonneg_of_leb x : f64_leb f64_zero x = true -> nonneg x.
Proof. unfold nonneg. destruct x as [[]|[]| |[] m e]; simpl; auto; done. Qed.

Lemma valid_tokens_pos t : valid_tokens t = true -> f64_pos t = true.
Proof. by destruct t as [[]|[]| |[] m e]. Qed.

Lemma nonneg_add x t : nonneg x -> f64_pos t = true -> f64_pos (f64_add x t) = true.
Proof. intros [Hx|Hx] Ht; [by apply f64_add_pos|]. subst x. by destruct t as [[]|[]| |[] m e]. Qed.

Lemma nonneg_sum l : Forall (fun i => valid_tokens (ci_tokens i) = true) l ->
  nonneg (f64_sum (map ci_tokens l)).
Proof.
  intros Hl. unfold f64_sum. assert (nonneg f64_neg_zero) as Hz by by right.
  revert Hz. generalize f64_neg_zero. induction Hl as [|i l Hi Hl IH]; intros z Hz; [done|].
  cbn [map fold_left]. apply IH. left. by apply nonneg_add, valid_tokens_pos.
Qed.

Lemma capped_wf x :
  nonneg x -> f64_is_finite (f64_min x f64_MAX) = true /\ f64_leb f64_zero (f64_min x f64_MAX) = true.
Proof.
  intros Hx. unfold f64_min. destruct (f64_is_nan x) eqn:Hn; [done|].
  change (f64_is_nan f64_MAX) with false. cbv iota.
  destruct (f64_ltb f64_MAX x) eqn:E; [done|].
  destruct Hx as [Hx| ->]; [|done].
  by destruct x as [[]|[]| |[] m e].
Qed.

Lemma new_counter_wf p a pl w period hours now : counter_wf (new_counter p a pl w period hours now).
Proof. by constructor. Qed.

Lemma roll_period_wf c now :
  counter_wf c ->
  f64_is_finite (used_tokens (roll_period c now)) = true /\
  f64_leb f64_zero (used_tokens (roll_period c now)) = true /\
  Forall (fun i => valid_tokens (ci_tokens i) = true) (increments (roll_period c now)).
Proof. intros []. unfold roll_period. repeat case_match; done. Qed.

Lemma record_row_wf c tokens now : counter_wf c -> counter_wf (record_row c tokens now).
Proof.
  intros (Hf & Hn & Hi)%(roll_period_wf c now). unfold record_row.
  set (c1 := roll_period c now) in *. destruct (rolling_hours c1) as [h|].
  - set (t := if _ <? _ then _ else _). set (incs := trailing h t _ ++ _).
    assert (Forall (fun i => valid_tokens (ci_tokens i) = true) incs) as Hincs.
    { apply Forall_app. split; [|case_match; repeat constructor; done].
      apply Forall_forall. intros i [_ Hin]%elem_of_filterb. by eapply Forall_forall in Hi. }
    destruct (capped_wf (f64_sum (map ci_tokens incs))); [by apply nonneg_sum|]. by constructor.
  - destruct (valid_tokens tokens) eqn:Hv; [|by constructor].
    destruct (capped_wf (used_tokens c1 + tokens)%f64); [|by constructor].
    left. apply nonneg_add; [by apply nonneg_of_leb|by apply valid_tokens_pos].
Qed.

Lemma set_rolling_row_wf c hours : counter_wf c -> counter_wf (set_rolling_row c hours).
Proof.
  intros [Hf Hn Hi Hp]. unfold set_rolling_row.
  constructor; cbn [used_tokens increments cw_used_percent cw_cap]; try done.
  destruct hours as [h|]; [|done]. destruct (increments c); [|done].
  destruct (f64_ltb f64_zero (used_tokens c)) eqn:E; [|done].
  repeat constructor. unfold valid_tokens. cbn [ci_tokens]. by rewrite Hf, E.
Qed.

(** The counters of a store are all well formed. *)
Definition store_wf (s : UtilizationStore) : Prop := map_Forall (fun _ c => counter_wf c) (counters s).

Lemma with_counter_wf s k fresh f :
  store_wf s -> counter_wf fresh -> (forall c, counter_wf c -> counter_wf (f c)) ->
  store_wf (with_counter s k fresh f).
Proof.
  intros Hs Hfr Hf. apply map_Forall_insert_2; [|done]. apply Hf.
  destruct (counters s !! k) eqn:E; [by eapply Hs|done].
Qed.

Lemma run_op_wf s op : store_wf s -> store_wf (run_op s op).
Proof.
  intros Hs. destruct op; cbn [run_op].
  1: apply with_counter_wf; [done|apply new_counter_wf|]; intros; by apply record_row_wf.
  1: apply with_counter_wf; [done|apply new_counter_wf|]; intros c []; by constructor.
  1: apply with_counter_wf; [done|apply new_counter_wf|]; intros; by apply set_rolling_row_wf.
  1: apply with_counter_wf; [done|apply new_counter_wf|]; intros c []; by constructor.
  - unfold recompute_counter_percent. destruct (counters s !! _) as [c|] eqn:E; [|done].
    apply map_Forall_insert_2; [|done]. destruct (Hs _ _ E). by constructor.
  - unfold upsert. by destruct (snapshot_is_empty snap).
Qed.

(** C39: whatever is recorded and configured, in any order and with any
    clock, every counter's tokens stay finite and non-negative, its increments
    are positive, and its percent is the one its tokens and cap give. *)
Theorem counters_stay_sound ops : store_wf (run_ops store_default ops).
Proof.
  unfold run_ops. assert (store_wf store_default) as Hs by apply map_Forall_empty.
  revert Hs. generalize store_default. induction ops as [|op ops IH]; intros s Hs; [done|].
  cbn [fold_left]. by apply IH, run_op_wf.
Qed.
End CounterLemmas.

(** ** The view of an account *)

Lemma from_age_trusted age :
  from_age_secs age <> Degraded <->
  exists s, age = Some s /\ - FUTURE_TIMESTAMP_TOLERANCE_SECS <= s < STALE_MAX_AGE_SECS.
Proof.
  unfold from_age_secs. destruct age as [s|]; [|naive_solver].
  destruct (Z.ltb_spec s (- FUTURE_TIMESTAMP_TOLERANCE_SECS));
    [|destruct (Z.ltb_spec s FRESH_MAX_AGE_SECS);
      [|destruct (Z.ltb_spec s STALE_MAX_AGE_SECS)]];
    (split; [intros Hn|intros (s' & [= <-] & ?)]);
    unfold FRESH_MAX_AGE_SECS, STALE_MAX_AGE_SECS, FUTURE_TIMESTAMP_TOLERANCE_SECS in *;
    try done; try lia; eexists; split; try done; lia.
Qed.

Lemma observable_iff w :
  observable w = true <-> is_Some (wv_used_percent w) /\ wv_health w <> Degraded.
Proof.
  unfold observable. destruct (wv_used_percent w); [|by split; [done|intros [[? ?] _]]].
  rewrite negb_true_iff, bool_decide_eq_false. naive_solver.
Qed.

Lemma header_match_of_record r cw ws :
  header_match r cw = Some ws -> ur_primary r = Some ws \/ ur_secondary r = Some ws.
Proof. unfold header_match. repeat case_match; naive_solver. Qed.

(** An instant whose age is within the trusted range. *)
Definition trusted_at (now ts : Z) : Prop :=
  - FUTURE_TIMESTAMP_TOLERANCE_SECS <= num_seconds (now - ts) < STALE_MAX_AGE_SECS.

Section View.
Context `{Calendar} (from_timestamp : Z -> option Z).

(** The evidence behind a window that takes part in the verdict. *)
Definition window_evidence (s : UtilizationStore) (p : Provider) (account_id plan : string)
    (now : Z) (cw : QuotaWindow) (pct : option f64) : Prop :=
  match qw_observability cw with
  | Counter =>
      exists c, get_counter s p account_id plan (qw_name cw) = Some c /\
        trusted_at now (cw_last_updated c) /\
        pct = if counter_is_current cw now c then effective_counter_percent c now
              else Some f64_zero
  | Header | PercentOnly =>
      exists r ws, get s p account_id plan = Some r /\ trusted_at now (ur_last_updated r) /\
        (ur_primary r = Some ws \/ ur_secondary r = Some ws) /\ pct = ws_used_percent ws
  end.

(** The view lists the plan's windows in order, and a window that takes
    part in the verdict has a reading from the account's own record, or its
    own counter, observed within the last hour; a percent-only window's
    reading is never computed from a counter. *)
Theorem account_view_evidence p account_id plan cfg s now :
  let v := build_account_view from_timestamp p account_id plan cfg s now in
  map wv_name (av_windows v) = map qw_name cfg /\
  Forall2 (fun cw w => observable w = true ->
             window_evidence s p account_id plan now cw (wv_used_percent w)) cfg (av_windows v).
Proof.
  split; [by unfold build_account_view; cbn [av_windows]; rewrite List.map_map|].
  unfold build_account_view; cbn [av_windows].
  apply Forall2_fmap_r, Forall2_same_length_lookup. split; [done|].
  intros i cw cw' Hi Hi'. simplify_eq. intros [[u Hu] Hh]%observable_iff.
  unfold window_evidence, window_view, trusted_at in *. cbn [wv_used_percent wv_health] in *.
  destruct (qw_observability cw); apply from_age_trusted in Hh as (age & Hage & ?).
  - destruct (get s p account_id plan) as [r|]; [|done]. simpl in *.
    destruct (header_match r cw) as [ws|] eqn:Hm; [|done]. simplify_eq/=.
    exists r, ws. split_and!; try done; [lia..|by eapply header_match_of_record].
  - destruct (get_counter s p account_id plan (qw_name cw)) as [c|]; [|done]. simplify_eq/=.
    exists c. split_and!; try done; lia.
  - destruct (get s p account_id plan) as [r|]; [|done]. simpl in *.
    destruct (header_match r cw) as [ws|] eqn:Hm; [|done]. simplify_eq/=.
    exists r, ws. split_and!; try done; [lia..|by eapply header_match_of_record].
Qed.
End View.

(** ** The capture of a response's usage *)

Section Capture.
Context `{Calendar}.

Lemma string_app_inj_l a b c : (a +:+ b = a +:+ c)%string -> b = c.
Proof. induction a as [|x a IH]; simpl; [done|]. by intros [= ?%IH]. Qed.

Lemma counter_key_inj p account_id plan w w' :
  counter_key p account_id plan w = counter_key p account_id plan w' -> w = w'.
Proof. unfold counter_key. intros Hk. by do 6 apply string_app_inj_l in Hk. Qed.

Lemma with_counter_lookup s k fresh f : counters (with_counter s k fresh f) !! k =
  Some (f (default fresh (counters s !! k))).
Proof. apply lookup_insert_eq. Qed.

Lemma with_counter_lookup_ne s k k' fresh f :
  k <> k' -> counters (with_counter s k fresh f) !! k' = counters s !! k'.
Proof. apply lookup_insert_ne. Qed.

Lemma configure_window_other plan account_id now s w k :
  tw_name w <> k ->
  get_counter (configure_window plan account_id now s w) MiniMax account_id plan k =
  get_counter s MiniMax account_id plan k.
Proof.
  intros Hw. assert (counter_key MiniMax account_id plan (tw_name w) <>
                     counter_key MiniMax account_id plan k) as Hk.
  { by intros ?%counter_key_inj. }
  unfold configure_window, get_counter. destruct (tw_observability w); [done| |done].
  unfold set_counter_period_id, set_counter_cap, set_counter_rolling_hours.
  by rewrite !with_counter_lookup_ne.
Qed.

Lemma configure_windows_other plan account_id now s l k :
  Forall (fun w => tw_name w <> k) l ->
  get_counter (fold_left (configure_window plan account_id now) l s) MiniMax account_id plan k =
  get_counter s MiniMax account_id plan k.
Proof.
  intros Hl. revert s. induction Hl as [|w l Hw Hl IH]; intros s; [done|].
  cbn [fold_left]. rewrite IH. by apply configure_window_other.
Qed.

(** The row of a calendar-monthly window once configured. *)
Definition monthly_row (c : CounterWindow) (cap : option f64) (now : Z) : CounterWindow :=
  set_period_row (set_cap_row (set_rolling_row c None) cap now) (period_id_for now) now.

Lemma configure_monthly plan account_id now s w :
  tw_observability w = Counter -> tw_reset w = CalendarMonthly ->
  get_counter (configure_window plan account_id now s w) MiniMax account_id plan (tw_name w) =
  Some (monthly_row (default (new_counter MiniMax account_id plan (tw_name w) None None now)
                       (get_counter s MiniMax account_id plan (tw_name w))) (tw_cap w) now).
Proof.
  intros Ho Hr. unfold configure_window, get_counter. rewrite Ho, Hr.
  unfold set_counter_period_id, set_counter_cap, set_counter_rolling_hours.
  by rewrite !with_counter_lookup.
Qed.

(** What the month already holds: nothing when the stored period is another. *)
Definition month_base (row : option CounterWindow) (now : Z) : f64 :=
  match row with
  | None => f64_zero
  | Some c =>
      match period_id c with
      | None => used_tokens c
      | Some q => if bool_decide (q = fmt_ym now) then used_tokens c else f64_zero
      end
  end.

(** Capturing a metered response of a plan whose monthly counter resets
    by calendar adds its tokens to what the current month already held, under
    the catalog's cap, and stamps the row with the month and the instant. *)
Theorem capture_monthly_exact catalog provider_id base_url plan account_id prompt completion now s
    entry pre m post total :
  str_contains "minimax" (to_ascii_lowercase provider_id) = true \/
  str_contains "minimax" (to_ascii_lowercase base_url) = true ->
  total_tokens prompt completion = Some total -> f64_leb total f64_zero = false ->
  tier catalog "minimax" plan = Some entry -> tier_windows entry = pre ++ m :: post ->
  tw_name m = "monthly"%string -> tw_observability m = Counter -> tw_reset m = CalendarMonthly ->
  Forall (fun w => tw_name w <> "monthly"%string) (pre ++ post) ->
  is_daily (fmt_ym now) = false ->
  (forall c q, get_counter s MiniMax account_id plan "monthly" = Some c -> period_id c = Some q ->
     is_daily q = false) ->
  exists c,
    get_counter (capture_counter_usage catalog provider_id base_url plan account_id
                   prompt completion now s) MiniMax account_id plan "monthly" = Some c /\
    used_tokens c = add_tokens (month_base (get_counter s MiniMax account_id plan "monthly") now) total /\
    cw_cap c = tw_cap m /\
    cw_used_percent c = compute_used_percent (used_tokens c) (tw_cap m) /\
    period_id c = Some (fmt_ym now) /\ cw_last_updated c = now.
Proof.
  intros Hid Ht Hpos Htier Hw Hn Ho Hr [Hpre Hpost]%Forall_app Hd Hrow.
  unfold capture_counter_usage.
  assert (negb (str_contains "minimax" (to_ascii_lowercase provider_id)) &&
          negb (str_contains "minimax" (to_ascii_lowercase base_url)) = false) as ->.
  { destruct Hid as [-> | ->]; [done|]. apply andb_false_r. }
  rewrite Ht, Hpos, Htier, Hw, fold_left_app. cbn [fold_left].
  set (s1 := fold_left _ post _).
  assert (get_counter s1 MiniMax account_id plan "monthly" =
          Some (monthly_row (default (new_counter MiniMax account_id plan "monthly" None None now)
                   (get_counter s MiniMax account_id plan "monthly")) (tw_cap m) now)) as Hs1.
  { unfold s1. rewrite configure_windows_other by done. rewrite <- Hn at 1.
    rewrite configure_monthly by done. rewrite Hn, configure_windows_other by done. done. }
  set (c0 := default _ _) in Hs1.
  exists (record_row (monthly_row c0 (tw_cap m) now) total now).
  split.
  { unfold record_counter, get_counter in *. by rewrite with_counter_lookup, Hs1. }
  set (stored := default (fmt_ym now) (period_id c0)).
  assert (calendar_row false (monthly_row c0 (tw_cap m) now) stored) as Hcal.
  { split_and!; [done|unfold monthly_row, period_id_for, stored; cbn; by destruct (period_id c0)|].
    unfold stored, c0. destruct (get_counter s _ _ _ _) as [c|] eqn:Hg; [|done].
    simpl. destruct (period_id c) as [q|] eqn:Hq; [|done]. by eapply Hrow. }
  destruct (record_row_calendar false _ stored (total, now) Hcal Hd) as ((_ & Hp & _) & Hcap & Hu).
  cbn [fst snd period_at] in *. split_and!; [|done| |done|].
  - rewrite Hu. f_equal. unfold stored, c0, month_base.
    destruct (get_counter s _ _ _ _) as [c|]; simpl.
    + destruct (period_id c); [done|]. simpl. by rewrite bool_decide_true.
    + by rewrite bool_decide_true.
  - set (row := record_row _ _ _) in *.
    transitivity (compute_used_percent (used_tokens row) (cw_cap row)); [done|by rewrite Hcap].
  - unfold record_row, roll_period. by repeat case_match.
Qed.
End Capture.

(** ** Concrete inputs *)

Module Sample.

Definition hour (n : Z) : Z := nov_2026 + n * 3600 * NS.
Definition pct (n : Z) : option f64 := Some (f64_of_Z n).

(** A rolling five-hour counter with one increment at hour 10. *)
Definition rolling_row : CounterWindow :=
  mkCounter MiniMax "a" "max" "monthly" (f64_of_Z 90) (pct 100) (pct 90) None None (Some 5)
    [mkIncrement (hour 10) (f64_of_Z 90)] (hour 10).
Definition monthly_counter (id : string) (used : Z) : CounterWindow :=
  mkCounter MiniMax "a" "max" "monthly" (f64_of_Z used) (pct 100) (pct used) None (Some id) None []
    (hour 0).
Definition store_of (c : CounterWindow) : UtilizationStore :=
  mkStore ∅ {[counter_key MiniMax "a" "max" "monthly" := c]} 2.

Definition monthly_tier (o : Observability) (reset : ResetKind) : TierWindow :=
  mkTierWindow "monthly" 5 Tokens (pct 100) None o reset.
Definition catalog_of (w : TierWindow) : TierCatalog :=
  mkTierCatalog 1 "" "" [("minimax", [("max", mkTier f64_zero Published "" [w])])]%string.
Definition window_of (w : TierWindow) : QuotaWindow :=
  mkQuotaWindow (tw_name w) (tw_hours w) (tw_unit w) (tw_cap w) (tw_models w)
    (tw_observability w) (tw_reset w).
Definition stamp (t : Z) : option Z := Some (t * NS).

Lemma rolling_counter_exact_witness :
  exists c', get_counter (record_counters (H := gregorian) (store_of rolling_row) MiniMax "a" "max" "monthly"
      [(f64_of_Z 5, hour 9); (f64_of_Z 7, hour 16)]) MiniMax "a" "max" "monthly" = Some c' /\
    increments c' = [mkIncrement (hour 16) (f64_of_Z 7)].
Proof.
  destruct (@rolling_counter_exact gregorian (store_of rolling_row) MiniMax "a" "max" "monthly"
    [(f64_of_Z 5, hour 9); (f64_of_Z 7, hour 16)] rolling_row 5 eq_refl eq_refl eq_refl)
    as [(c' & Hc & Hl & Hi & _) _]; [lia|done|].
  exists c'. split; [exact Hc|]. rewrite Hi, Hl. vm_compute. reflexivity.
Defined.

Lemma calendar_counter_exact_witness :
  exists c', get_counter (record_counters (H := gregorian)
      (store_of (monthly_counter "2026-10" 90)) MiniMax "a" "max" "monthly"
      ([(f64_of_Z 5, hour (-200))] ++ [(f64_of_Z 7, hour 1)])) MiniMax "a" "max" "monthly" = Some c' /\
    used_tokens c' = f64_of_Z 7.
Proof.
  destruct (@calendar_counter_exact gregorian (store_of (monthly_counter "2026-10" 90))
    MiniMax "a" "max" "monthly" (monthly_counter "2026-10" 90) false "2026-10"
    [(f64_of_Z 5, hour (-200))] [(f64_of_Z 7, hour 1)] "2026-11" eq_refl)
    as (c' & Hc & _ & Hu & _).
  - split_and!; vm_compute; reflexivity.
  - repeat constructor; vm_compute; reflexivity.
  - vm_compute. discriminate.
  - discriminate.
  - repeat constructor; vm_compute; reflexivity.
  - exists c'. split; [exact Hc|]. rewrite Hu. vm_compute. reflexivity.
Defined.

Lemma capture_monthly_exact_witness :
  exists c, get_counter (capture_counter_usage (H := gregorian)
      (catalog_of (monthly_tier Counter CalendarMonthly)) "minimax" "" "max" "a" (Some 7) None
      (hour 1) (store_of (monthly_counter "2026-10" 90))) MiniMax "a" "max" "monthly" = Some c /\
    used_tokens c = f64_of_Z 7.
Proof.
  destruct (@capture_monthly_exact gregorian (catalog_of (monthly_tier Counter CalendarMonthly))
    "minimax" "" "max" "a" (Some 7) None (hour 1) (store_of (monthly_counter "2026-10" 90))
    (mkTier f64_zero Published "" [monthly_tier Counter CalendarMonthly]) []
    (monthly_tier Counter CalendarMonthly) [] (f64_of_Z 7))
    as (c & Hc & Hu & _); try reflexivity.
  - by left.
  - constructor.
  - vm_compute. intros c q [= <-] [= <-]. reflexivity.
  - exists c. split; [exact Hc|]. rewrite Hu. vm_compute. reflexivity.
Defined.

(** A rolling counter reached through the capture: a reading an hour before
    the last one is stamped at that hour, not at the later of the two, since
    the cap is set first and moves the row's clock back. *)
Lemma capture_defeats_clamp :
  exists c,
    get_counter (capture_counter_usage (H := gregorian)
      (catalog_of (monthly_tier Counter Rolling)) "minimax" "" "max" "a" (Some 7) None
      (hour 9) (store_of rolling_row)) MiniMax "a" "max" "monthly" = Some c /\
    cw_last_updated c = hour 9 /\
    get_counter (record_counter (H := gregorian) (store_of rolling_row) MiniMax "a" "max" "monthly"
      (f64_of_Z 7) (hour 9)) MiniMax "a" "max" "monthly" <> Some c.
Proof. eexists. split_and!; vm_compute; [reflexivity|reflexivity|discriminate]. Qed.

(** A percent-only window named "monthly" has its tokens counted all the same. *)
Lemma capture_counts_percent_only :
  exists c,
    get_counter (capture_counter_usage (H := gregorian)
      (catalog_of (monthly_tier PercentOnly Rolling)) "minimax" "" "max" "a" (Some 7) None
      (hour 9) store_default) MiniMax "a" "max" "monthly" = Some c /\
    used_tokens c = f64_of_Z 7.
Proof. eexists. split; vm_compute; reflexivity. Qed.

(** A counter stored under a daily id whose window the catalog now resets by
    month keeps its daily id at every capture, and the view reads it as a
    fresh 0 percent although its cap is used up. *)
Lemma reset_kind_change_blinds_counter :
  let w := monthly_tier Counter CalendarMonthly in
  let s := capture_counter_usage (H := gregorian) (catalog_of w) "minimax" "" "max" "a"
             (Some 200) None (hour 1) (store_of (monthly_counter "2026-11-04" 90)) in
  (exists c, get_counter s MiniMax "a" "max" "monthly" = Some c /\
     period_id c = Some "2026-11-04"%string /\ cw_used_percent c = pct 290) /\
  let v := build_account_view (H := gregorian) stamp MiniMax "a" "max" [window_of w] s (hour 1) in
  map wv_used_percent (av_windows v) = [Some f64_zero] /\
  ad_decision (decide_account v knobs_default (hour 1) None) = PreferSub.
Proof. split; [eexists; split_and!; vm_compute; reflexivity|split; vm_compute; reflexivity]. Qed.

(** A record whose primary window is the weekly one and whose secondary is the
    five-hour one: the view pairs the five-hour reading with the weekly reset. *)
Lemma reset_of_other_window :
  let weekly := mkWindowSnapshot (pct 10) (Some 10080) (Some 900) None in
  let five := mkWindowSnapshot (pct 95) (Some 300) (Some 14000) None in
  let s := upsert store_default (mkSnapshot OpenaiCodex "a" "pro" (Some weekly) (Some five) None (Some 0)) 0 in
  let v := build_account_view (H := gregorian) stamp OpenaiCodex "a" "pro"
             [mkQuotaWindow "5h" 5 Requests None None Header Rolling] s 0 in
  map (fun w => (wv_used_percent w, wv_reset_at w)) (av_windows v) = [(pct 95, Some (900 * NS))] /\
  ad_decision (decide_account v knobs_default 0 None) = PreferSub.
Proof. split; vm_compute; reflexivity. Qed.

(** Two accounts share a key when an id contains the separator. *)
Lemma record_keys_collide :
  key MiniMax "a::b" "c" = key MiniMax "a" "b::c".
Proof. reflexivity. Qed.
End Sample.
