(* ===== verification/Scenarios.v ===== *)
(** Routing scenarios (crates/zoder-core/src/scenarios.rs): the class of a
    provider, the presets and their overrides, the eligibility of a candidate
    for a role, and the pick and the chain of a role, on one snapshot and on
    the views of several accounts. *)
From S2P Require Import Prelude F64 Clock Config Utilization.
Local Open Scope Z_scope.

Inductive ProviderClass := Free | Sub | Paid.
#[export] Instance ProviderClass_eq_dec : EqDecision ProviderClass.
Proof. solve_decision. Defined.

(** [classify]; the model id it is given is not used. *)
Definition classify (p : Config.Provider) : ProviderClass :=
  if paid p || bool_decide (billing p = Metered) then Paid
  else match billing p with
       | BillFree => Free
       | Subscription => Sub
       | Metered => Paid
       end.

Inductive Role := Primary | Reviewer.

(** ** Scenarios *)

Record RouteScenario := mkScenario {
  primary_classes : list ProviderClass;
  reviewer_classes : list ProviderClass;
  sc_use_target : f64;
  sc_cap_guard : f64;
  sc_budget_mode : BudgetMode;
  allow_paid : bool
}.

Record RouteScenarioOverride := mkOverride {
  o_primary_classes : option (list ProviderClass);
  o_reviewer_classes : option (list ProviderClass);
  o_use_target : option f64;
  o_cap_guard : option f64;
  o_budget_mode : option BudgetMode;
  o_allow_paid : option bool
}.

(** [RouteScenarioOverride::is_empty] *)
Definition is_empty (o : RouteScenarioOverride) : bool :=
  match o with
  | mkOverride None None None None None None => true
  | _ => false
  end.

(** [RouteScenarioOverride::apply] *)
Definition apply_override (o : RouteScenarioOverride) (base : RouteScenario) : RouteScenario :=
  if is_empty o then base
  else mkScenario
    (default (primary_classes base) (o_primary_classes o))
    (default (reviewer_classes base) (o_reviewer_classes o))
    (default (sc_use_target base) (o_use_target o))
    (default (sc_cap_guard base) (o_cap_guard o))
    (default (sc_budget_mode base) (o_budget_mode o))
    (default (allow_paid base) (o_allow_paid o)).

Definition economy : RouteScenario :=
  mkScenario [Free] [Free; Sub] (f64_of_Z 50) (f64_of_Z 60) Block false.
Definition balanced : RouteScenario :=
  mkScenario [Free; Sub] [Sub; Free] (f64_of_Z 80) (f64_of_Z 85) Block false.
Definition aggressive : RouteScenario :=
  mkScenario [Sub; Free] [Sub; Free] (f64_of_Z 90) (f64_of_Z 95) Block false.
Definition unlimited : RouteScenario :=
  mkScenario [Sub; Paid; Free] [Sub; Paid; Free] DEFAULT_USE_TARGET DEFAULT_CAP_GUARD
    Chargeback true.

(** [RouteScenario::knobs] *)
Definition knobs_of (s : RouteScenario) : RouteKnobs :=
  mkKnobs (sc_use_target s) (sc_cap_guard s) (sc_budget_mode s) None
    DEFAULT_RESET_IMMINENCE_THRESHOLD.

(** [RouteScenario::classes_for] *)
Definition classes_for (s : RouteScenario) (role : Role) : list ProviderClass :=
  match role with
  | Primary => primary_classes s
  | Reviewer => reviewer_classes s
  end.

(** [default_scenarios] *)
Definition default_scenarios : gmap string RouteScenario :=
  <["economy" := economy]> (<["balanced" := balanced]>
    (<["aggressive" := aggressive]> (<["unlimited" := unlimited]> ∅)))%string.

(** [resolve_active] *)
Definition resolve_active (scenario_name : string) (o : option RouteScenarioOverride) : RouteScenario :=
  let base := default balanced (default_scenarios !! scenario_name) in
  match o with
  | Some o => apply_override o base
  | None => base
  end.

(** ** Candidates *)

Record RoutableCandidate := mkCandidate {
  model_id : string;
  cls : ProviderClass;
  swe_rank : f64;
  healthy : bool
}.

(** [classes.contains(&c)] *)
Definition has_class (c : ProviderClass) (l : list ProviderClass) : bool := bool_decide (c ∈ l).

Definition keeps_sub (d : RouteDecision) : bool :=
  match d with PreferSub | ChargebackPaid => true | FallBackToFree => false end.

(** The legacy gate of a [Sub] candidate: no snapshot, no subscription. *)
Definition snapshot_allows (s : RouteScenario) (snapshot : option RateLimitSnapshot) (now : Z) : bool :=
  match snapshot with
  | Some snap => keeps_sub (decide_snapshot snap (knobs_of s) now None)
  | None => false
  end.

(** [candidate_eligible_with_account] *)
Definition candidate_eligible_with_account (role : Role) (c : RoutableCandidate) (s : RouteScenario)
    (snapshot : option RateLimitSnapshot) (account_view : option AccountView)
    (allow_paid_runtime : bool) (now : Z) : bool :=
  if negb (healthy c) then false
  else
    let classes := classes_for s role in
    match cls c with
    | Free => has_class Free classes
    | Sub =>
        if negb (has_class Sub classes) then false
        else match account_view with
             | Some view => keeps_sub (ad_decision (decide_account view (knobs_of s) now None))
             | None => snapshot_allows s snapshot now
             end
    | Paid => allow_paid s && allow_paid_runtime && has_class Paid classes
    end.

(** [candidate_eligible] *)
Definition candidate_eligible (role : Role) (c : RoutableCandidate) (s : RouteScenario)
    (snapshot : option RateLimitSnapshot) (allow_paid_runtime : bool) (now : Z) : bool :=
  if negb (healthy c) then false
  else
    let classes := classes_for s role in
    match cls c with
    | Free => has_class Free classes
    | Sub =>
        if negb (has_class Sub classes) then false
        else match snapshot with
             | None => false
             | Some snap => keeps_sub (decide_snapshot snap (knobs_of s) now None)
             end
    | Paid => allow_paid s && allow_paid_runtime && has_class Paid classes
    end.

(** The sort by rank, highest first. *)
Definition rank_desc (a b : RoutableCandidate) : comparison :=
  f64_cmp_or_eq (swe_rank b) (swe_rank a).
Definition of_class (k : ProviderClass) (l : list RoutableCandidate) : list RoutableCandidate :=
  filterb (fun c => bool_decide (cls c = k)) l.
Definition ranked (k : ProviderClass) (l : list RoutableCandidate) : list RoutableCandidate :=
  sort_by rank_desc (of_class k l).

(** The loop over the classes of the pickers: the first class that yields. *)
Fixpoint first_class {A} (pick : ProviderClass -> option A) (classes : list ProviderClass) : option A :=
  match classes with
  | [] => None
  | k :: ks => match pick k with Some x => Some x | None => first_class pick ks end
  end.

(** [pick_candidate_for_role] *)
Definition pick_candidate_for_role (role : Role) (candidates : list RoutableCandidate)
    (s : RouteScenario) (snapshot : option RateLimitSnapshot) (allow_paid_runtime : bool)
    (now : Z) : option string :=
  first_class (fun k =>
    model_id <$> find_first (fun c => candidate_eligible role c s snapshot allow_paid_runtime now)
                   (ranked k candidates))
    (classes_for s role).

(** The loop over one class of the chains, on the model ids in order with
    their eligibility: [inl] is the early [return out]. *)
Fixpoint chain_class (max_chain : nat) (l : list (string * bool)) (out : list string) :
    list string + list string :=
  match l with
  | [] => inr out
  | (id, ok) :: l =>
      if bool_decide (id ∈ out) then chain_class max_chain l out
      else if ok then
        let out := out ++ [id] in
        if (0 <? max_chain)%nat && (max_chain <=? length out)%nat then inl out
        else chain_class max_chain l out
      else chain_class max_chain l out
  end.

(** The loop over the classes of the chains. *)
Fixpoint chain_classes (pool : ProviderClass -> list (string * bool)) (max_chain : nat)
    (classes : list ProviderClass) (out : list string) : list string :=
  match classes with
  | [] => out
  | k :: ks =>
      match chain_class max_chain (pool k) out with
      | inl out => out
      | inr out => chain_classes pool max_chain ks out
      end
  end.

(** The candidates of a class in the order the legacy chain tries them. *)
Definition legacy_pool (role : Role) (candidates : list RoutableCandidate) (s : RouteScenario)
    (snapshot : option RateLimitSnapshot) (allow_paid_runtime : bool) (now : Z)
    (k : ProviderClass) : list (string * bool) :=
  map (fun c => (model_id c, candidate_eligible role c s snapshot allow_paid_runtime now))
    (ranked k candidates).

(** [chain_for_role] *)
Definition chain_for_role (role : Role) (candidates : list RoutableCandidate) (s : RouteScenario)
    (snapshot : option RateLimitSnapshot) (allow_paid_runtime : bool) (now : Z)
    (max_chain : nat) : list string :=
  chain_classes (legacy_pool role candidates s snapshot allow_paid_runtime now) max_chain
    (classes_for s role) [].

(** ** Several accounts *)

(** [account_views.get(i).and_then(|v| v.as_ref())] *)
Definition view_of (account_views : list (option AccountView)) (i : nat) : option AccountView :=
  v ← account_views !! i; v.

Definition any_sub_has_view (candidates : list RoutableCandidate)
    (account_views : list (option AccountView)) : bool :=
  existsb (fun x => x) (imap (fun i c =>
    bool_decide (cls c = Sub) && bool_decide (is_Some (view_of account_views i))) candidates).

(** The strength of a [Sub] candidate. *)
Definition sub_strength (s : RouteScenario) (any_view : bool) (view : option AccountView)
    (c : RoutableCandidate) (now : Z) : f64 :=
  match view with
  | Some v => ad_strength (decide_account v (knobs_of s) now None)
  | None => if any_view then f64_infinity else f64_neg (swe_rank c)
  end.

(** An entry of [scored]: index, strength, eligibility. *)
Definition scored : Type := nat * f64 * bool.

Definition scored_subs (role : Role) (candidates : list RoutableCandidate)
    (account_views : list (option AccountView)) (s : RouteScenario)
    (snapshot : option RateLimitSnapshot) (allow_paid_runtime : bool) (now : Z) : list scored :=
  omap (fun e : option scored => e) (imap (fun i c =>
    if bool_decide (cls c = Sub) then
      let view := view_of account_views i in
      Some (i, sub_strength s (any_sub_has_view candidates account_views) view c now,
            candidate_eligible_with_account role c s snapshot view allow_paid_runtime now)
    else None) candidates).

Definition scored_cmp (a b : scored) : comparison :=
  then_with (bool_cmp b.2 a.2)
    (then_with (f64_cmp_or_eq a.1.2 b.1.2) (Nat.compare a.1.1 b.1.1)).

(** [pick_sub_candidate_by_idle] *)
Definition pick_sub_candidate_by_idle (role : Role) (candidates : list RoutableCandidate)
    (account_views : list (option AccountView)) (s : RouteScenario)
    (snapshot : option RateLimitSnapshot) (allow_paid_runtime : bool) (now : Z) : option string :=
  e ← find_first snd (sort_by scored_cmp
        (scored_subs role candidates account_views s snapshot allow_paid_runtime now));
  model_id <$> candidates !! e.1.1.

(** The loop for the best-ranked candidate of a class. *)
Definition best_ranked (k : ProviderClass) (candidates : list RoutableCandidate) :
    option RoutableCandidate :=
  fold_left (fun best c =>
    match best with
    | None => Some c
    | Some b => if (swe_rank c >? swe_rank b)%f64 then Some c else best
    end) (of_class k candidates) None.

(** [pick_candidate_for_role_with_account] *)
Definition pick_candidate_for_role_with_account (role : Role) (candidates : list RoutableCandidate)
    (account_views : list (option AccountView)) (s : RouteScenario)
    (snapshot : option RateLimitSnapshot) (allow_paid_runtime : bool) (now : Z) : option string :=
  first_class (fun k =>
    match k with
    | Sub => pick_sub_candidate_by_idle role candidates account_views s snapshot allow_paid_runtime now
    | _ =>
        c ← best_ranked k candidates;
        if candidate_eligible_with_account role c s snapshot None allow_paid_runtime now
        then Some (model_id c) else None
    end) (classes_for s role).

(** The candidates of a class in the order the chain of accounts tries them. *)
Definition account_pool (role : Role) (candidates : list RoutableCandidate)
    (account_views : list (option AccountView)) (s : RouteScenario)
    (snapshot : option RateLimitSnapshot) (allow_paid_runtime : bool) (now : Z)
    (k : ProviderClass) : list (string * bool) :=
  match k with
  | Sub =>
      omap (fun e : scored =>
        c ← candidates !! e.1.1;
        Some (model_id c, candidate_eligible_with_account role c s snapshot
                            (view_of account_views e.1.1) allow_paid_runtime now))
        (sort_by scored_cmp
          (scored_subs role candidates account_views s snapshot allow_paid_runtime now))
  | _ =>
      map (fun c => (model_id c,
             candidate_eligible_with_account role c s snapshot None allow_paid_runtime now))
        (ranked k candidates)
  end.

(** [chain_for_role_with_account] *)
Definition chain_for_role_with_account (role : Role) (candidates : list RoutableCandidate)
    (account_views : list (option AccountView)) (s : RouteScenario)
    (snapshot : option RateLimitSnapshot) (allow_paid_runtime : bool) (now : Z)
    (max_chain : nat) : list string :=
  chain_classes (account_pool role candidates account_views s snapshot allow_paid_runtime now)
    max_chain (classes_for s role) [].

(** ** Eligibility *)

Lemma has_class_true c l : has_class c l = true <-> c ∈ l.
Proof. unfold has_class. by rewrite bool_decide_eq_true. Qed.

(** A scenario sets no chargeback budget, so its verdicts never charge back. *)
Lemma keeps_sub_account v s now :
  keeps_sub (ad_decision (decide_account v (knobs_of s) now None)) = true <->
  ad_decision (decide_account v (knobs_of s) now None) = PreferSub.
Proof.
  unfold decide_account, past_guard. cbn [budget_mode chargeback_budget_usd knobs_of].
  repeat case_match; simplify_eq/=; repeat case_match; simplify_eq/=; naive_solver.
Qed.

Lemma keeps_sub_snapshot snap s now :
  keeps_sub (decide_snapshot snap (knobs_of s) now None) = true <->
  decide_snapshot snap (knobs_of s) now None = PreferSub.
Proof.
  unfold decide_snapshot, past_guard. cbn [budget_mode chargeback_budget_usd knobs_of].
  repeat case_match; simplify_eq/=; naive_solver.
Qed.

(** What lets a candidate be used for a role. *)
Definition allowed (role : Role) (c : RoutableCandidate) (s : RouteScenario)
    (snapshot : option RateLimitSnapshot) (view : option AccountView)
    (allow_paid_runtime : bool) (now : Z) : Prop :=
  healthy c = true /\ cls c ∈ classes_for s role /\
  match cls c with
  | Free => True
  | Sub =>
      match view with
      | Some v => ad_decision (decide_account v (knobs_of s) now None) = PreferSub
      | None => exists snap, snapshot = Some snap /\
                  decide_snapshot snap (knobs_of s) now None = PreferSub
      end
  | Paid => allow_paid s = true /\ allow_paid_runtime = true
  end.

Lemma eligible_with_account_iff role c s snapshot view runtime now :
  candidate_eligible_with_account role c s snapshot view runtime now = true <->
  allowed role c s snapshot view runtime now.
Proof.
  unfold candidate_eligible_with_account, allowed. destruct (healthy c); cbn [negb]; [|naive_solver].
  destruct (cls c) eqn:Hc.
  - rewrite has_class_true. naive_solver.
  - destruct (has_class Sub _) eqn:Hs; cbn [negb].
    + apply has_class_true in Hs. destruct view as [v|].
      * rewrite keeps_sub_account. naive_solver.
      * unfold snapshot_allows. destruct snapshot as [snap|]; [|naive_solver].
        rewrite keeps_sub_snapshot. naive_solver.
    + split; [done|]. intros (_ & Hin & _). apply has_class_true in Hin. congruence.
  - rewrite !andb_true_iff, has_class_true. tauto.
Qed.

(** Without a view the two gates are one. *)
Lemma eligible_without_account role c s snapshot runtime now :
  candidate_eligible_with_account role c s snapshot None runtime now =
  candidate_eligible role c s snapshot runtime now.
Proof. reflexivity. Qed.

(** ** Chains *)

(** The eligible ids of a list, each where it first comes and not in [seen]. *)
Fixpoint fresh_ids (seen : list string) (l : list (string * bool)) : list string :=
  match l with
  | [] => []
  | (id, ok) :: l =>
      if ok && negb (bool_decide (id ∈ seen)) then id :: fresh_ids (seen ++ [id]) l
      else fresh_ids seen l
  end.

Lemma chain_class_uncapped l out : chain_class 0 l out = inr (out ++ fresh_ids out l).
Proof.
  revert out. induction l as [|[id ok] l IH]; intros out; cbn [chain_class fresh_ids].
  { by rewrite app_nil_r. }
  case_bool_decide; destruct ok; cbn [andb negb]; try done.
  rewrite IH. by rewrite <- app_assoc.
Qed.

Lemma chain_class_capped n l out :
  (length out < n)%nat ->
  chain_class n l out =
    if (n <=? length (out ++ fresh_ids out l))%nat then inl (take n (out ++ fresh_ids out l))
    else inr (out ++ fresh_ids out l).
Proof.
  revert out. induction l as [|[id ok] l IH]; intros out Hn; cbn [chain_class fresh_ids].
  { rewrite app_nil_r. destruct (Nat.leb_spec n (length out)); [lia|done]. }
  case_bool_decide; destruct ok; cbn [andb negb]; try by apply IH.
  destruct (Nat.ltb_spec 0 n); [|lia]. cbn [andb].
  replace (out ++ id :: fresh_ids (out ++ [id]) l) with ((out ++ [id]) ++ fresh_ids (out ++ [id]) l)
    by by rewrite <- app_assoc.
  destruct (Nat.leb_spec n (length (out ++ [id]))) as [Hle|Hlt]; [|by apply IH].
  rewrite length_app in Hle. simpl in Hle.
  rewrite take_app_length' by (rewrite length_app; simpl; lia).
  rewrite (length_app (out ++ [id])), length_app. simpl.
  destruct (Nat.leb_spec n (length out + 1 + length (fresh_ids (out ++ [id]) l))); [|lia].
  done.
Qed.

Lemma fresh_ids_app seen l k :
  fresh_ids seen (l ++ k) = fresh_ids seen l ++ fresh_ids (seen ++ fresh_ids seen l) k.
Proof.
  revert seen. induction l as [|[id ok] l IH]; intros seen; cbn [fresh_ids app].
  { by rewrite app_nil_r. }
  destruct (ok && _); [|by rewrite IH]. cbn [app]. rewrite IH. by rewrite <- app_assoc.
Qed.

(** The chain without a cap lists the classes' ids in order. *)
Lemma chain_classes_uncapped pool ks out :
  chain_classes pool 0 ks out = out ++ fresh_ids out (concat (map pool ks)).
Proof.
  revert out. induction ks as [|k ks IH]; intros out; cbn [chain_classes map concat].
  { by rewrite app_nil_r. }
  rewrite chain_class_uncapped, IH, fresh_ids_app. by rewrite <- app_assoc.
Qed.

Lemma chain_classes_capped pool n ks out :
  (length out < n)%nat ->
  chain_classes pool n ks out = take n (out ++ fresh_ids out (concat (map pool ks))).
Proof.
  revert out. induction ks as [|k ks IH]; intros out Hn; cbn [chain_classes map concat].
  { cbn [fresh_ids]. rewrite app_nil_r, take_ge; [done|lia]. }
  rewrite chain_class_capped by done. rewrite fresh_ids_app, app_assoc.
  destruct (Nat.leb_spec n (length (out ++ fresh_ids out (pool k)))).
  - symmetry. by apply take_app_le.
  - by apply IH.
Qed.

Lemma elem_of_fresh_ids seen l id :
  id ∈ fresh_ids seen l <-> (id ∉ seen) /\ (id, true) ∈ l.
Proof.
  revert seen. induction l as [|[id' ok] l IH]; intros seen; cbn [fresh_ids].
  { split; [by intros ?%not_elem_of_nil|by intros [_ ?%not_elem_of_nil]]. }
  rewrite elem_of_cons. destruct ok; cbn [andb].
  - case_bool_decide as Hs; cbn [negb]; rewrite ?elem_of_cons, IH, ?elem_of_app, ?list_elem_of_singleton;
      destruct (decide (id = id')); naive_solver.
  - rewrite IH. naive_solver.
Qed.

Lemma NoDup_fresh_ids seen l : NoDup (fresh_ids seen l).
Proof.
  revert seen. induction l as [|[id ok] l IH]; intros seen; cbn [fresh_ids]; [constructor|].
  destruct (ok && _); [|done]. constructor; [|done].
  rewrite elem_of_fresh_ids, elem_of_app, list_elem_of_singleton. naive_solver.
Qed.

(** The head of the chain is the first eligible id, class by class. *)
Lemma head_fresh_ids l : head (fresh_ids [] l) = fst <$> find_first snd l.
Proof.
  induction l as [|[id ok] l IH]; [done|]. cbn [fresh_ids find_first snd].
  rewrite bool_decide_false by apply not_elem_of_nil. by destruct ok.
Qed.

Lemma find_first_concat (pool : ProviderClass -> list (string * bool)) ks :
  fst <$> find_first snd (concat (map pool ks)) =
  first_class (fun k => fst <$> find_first snd (pool k)) ks.
Proof.
  induction ks as [|k ks IH]; [done|]. cbn [map concat first_class].
  rewrite find_first_app, <- IH. by destruct (find_first snd (pool k)).
Qed.

Section Routes.
Context (role : Role) (candidates : list RoutableCandidate) (s : RouteScenario)
  (snapshot : option RateLimitSnapshot) (runtime : bool) (now : Z).

(** The candidate with index [i], with the view the gate uses for it. *)
Definition route_ok (views : list (option AccountView)) (id : string) : Prop :=
  exists i c, candidates !! i = Some c /\ model_id c = id /\
    allowed role c s snapshot
      (match cls c with Sub => view_of views i | _ => None end) runtime now.

Lemma elem_of_ranked k c : c ∈ ranked k candidates <-> cls c = k /\ c ∈ candidates.
Proof.
  unfold ranked, of_class. rewrite elem_of_sort_by, elem_of_filterb, bool_decide_eq_true. tauto.
Qed.

Lemma elem_of_scored_subs views e :
  e ∈ scored_subs role candidates views s snapshot runtime now <->
  exists c, candidates !! e.1.1 = Some c /\ cls c = Sub /\
    e.1.2 = sub_strength s (any_sub_has_view candidates views) (view_of views e.1.1) c now /\
    e.2 = candidate_eligible_with_account role c s snapshot (view_of views e.1.1) runtime now.
Proof.
  unfold scored_subs. rewrite list_elem_of_omap. split.
  - intros (x & Hx & ->). apply elem_of_lookup_imap_1 in Hx as (i & c & Hx & Hc).
    case_bool_decide; [|done]. simplify_eq/=. by exists c.
  - intros (c & Hc & Hk & Hs & He). exists (Some e). split; [|done].
    apply elem_of_lookup_imap. exists e.1.1, c. split; [|done].
    rewrite bool_decide_true by done. destruct e as [[i st] el]. simpl in *. by subst.
Qed.

Lemma legacy_pool_spec k id :
  (id, true) ∈ legacy_pool role candidates s snapshot runtime now k <->
  exists c, c ∈ candidates /\ cls c = k /\ model_id c = id /\
    candidate_eligible role c s snapshot runtime now = true.
Proof.
  unfold legacy_pool. rewrite list_elem_of_fmap. split.
  - intros (c & [= -> He] & [Hk Hc]%elem_of_ranked). exists c. by rewrite <- He.
  - intros (c & Hc & Hk & <- & He). exists c. by rewrite He, elem_of_ranked.
Qed.

Lemma account_pool_spec views k id :
  (id, true) ∈ account_pool role candidates views s snapshot runtime now k <->
  exists i c, candidates !! i = Some c /\ cls c = k /\ model_id c = id /\
    allowed role c s snapshot (match k with Sub => view_of views i | _ => None end) runtime now.
Proof.
  setoid_rewrite <- eligible_with_account_iff. destruct k; cbn [account_pool].
  1,3: rewrite list_elem_of_fmap; split;
    [intros (c & [= -> He] & [Hk (i & Hc)%list_elem_of_lookup]%elem_of_ranked); exists i, c; by rewrite <- He
    |intros (i & c & Hc & Hk & <- & He); exists c; rewrite He, elem_of_ranked;
     split_and!; [done..|by eapply list_elem_of_lookup_2]].
  rewrite list_elem_of_omap. setoid_rewrite elem_of_sort_by. setoid_rewrite elem_of_scored_subs. split.
  - intros (e & (c & Hc & Hk & _) & He). rewrite Hc in He. simplify_eq/=. by exists e.1.1, c.
  - intros (i & c & Hc & Hk & Hid & He).
    eexists (i, sub_strength s (any_sub_has_view candidates views) (view_of views i) c now, true).
    simpl. rewrite Hc. simpl. split; [exists c; by rewrite He|]. by rewrite Hid, He.
Qed.

Lemma elem_of_concat_pools (pool : ProviderClass -> list (string * bool)) ks x :
  x ∈ concat (map pool ks) <-> exists k, k ∈ ks /\ x ∈ pool k.
Proof.
  induction ks as [|k ks IH]; cbn [map concat].
  { split; [by intros ?%not_elem_of_nil|by intros (? & ?%not_elem_of_nil & _)]. }
  rewrite elem_of_app, IH. split.
  - intros [Hx|(k' & ? & ?)]; [exists k; split; [left|done]|exists k'; split; [by right|done]].
  - intros (k' & [->|Hk]%elem_of_cons & Hx); [by left|right; eauto].
Qed.

(** C26: the chain over several accounts has no duplicate, a limit only cuts
    it, and it holds exactly the candidates allowed for the role: healthy, of a
    listed class, metered ones only with both permissions, subscriptions only
    when the account's own windows, or the snapshot where it has no view, say
    to keep them. *)
Theorem account_chain_exact views :
  let chain := chain_for_role_with_account role candidates views s snapshot runtime now in
  NoDup (chain 0%nat) /\ (forall n, chain (S n) = take (S n) (chain 0%nat)) /\
  (forall id, id ∈ chain 0%nat <-> route_ok views id).
Proof.
  intros chain. unfold chain, chain_for_role_with_account.
  rewrite chain_classes_uncapped. cbn [app]. split_and!; [apply NoDup_fresh_ids| |].
  - intros n. apply chain_classes_capped. simpl. lia.
  - intros id. rewrite elem_of_fresh_ids, elem_of_concat_pools.
    setoid_rewrite account_pool_spec. unfold route_ok. split.
    + intros (_ & k & Hk & i & c & Hc & <- & Hid & Ha). by exists i, c.
    + intros (i & c & Hc & Hid & Ha). split; [apply not_elem_of_nil|].
      exists (cls c). split; [apply Ha|]. by exists i, c.
Qed.

(** On one snapshot the chain's head is the pick, and the chain is its
    limit-free form cut at the limit. *)
Theorem chain_head_is_pick :
  let chain := chain_for_role role candidates s snapshot runtime now in
  (forall n, head (chain n) = pick_candidate_for_role role candidates s snapshot runtime now) /\
  (forall n, chain (S n) = take (S n) (chain 0%nat)) /\ NoDup (chain 0%nat) /\
  (forall id, id ∈ chain 0%nat <-> route_ok [] id).
Proof.
  intros chain. unfold chain, chain_for_role. set (pool := legacy_pool _ _ _ _ _ _).
  assert (forall n, chain_classes pool (S n) (classes_for s role) [] =
                    take (S n) (chain_classes pool 0 (classes_for s role) [])) as Hcut.
  { intros n. rewrite chain_classes_uncapped. apply chain_classes_capped. simpl. lia. }
  assert (head (chain_classes pool 0 (classes_for s role) []) =
          pick_candidate_for_role role candidates s snapshot runtime now) as Hhead.
  { rewrite chain_classes_uncapped. cbn [app]. rewrite head_fresh_ids, find_first_concat.
    unfold pick_candidate_for_role. clear Hcut. induction (classes_for s role) as [|k ks IH]; [done|].
    cbn [first_class]. rewrite IH. unfold pool, legacy_pool. rewrite find_first_map.
    cbn [snd]. by destruct (find_first _ _). }
  split_and!; [|done| |].
  - intros [|n]; [done|]. rewrite Hcut, <- Hhead. by destruct (chain_classes pool 0 _ _).
  - rewrite chain_classes_uncapped. apply NoDup_fresh_ids.
  - intros id. rewrite chain_classes_uncapped. cbn [app].
    rewrite elem_of_fresh_ids, elem_of_concat_pools. unfold pool. setoid_rewrite legacy_pool_spec.
    unfold route_ok. setoid_rewrite <- eligible_with_account_iff. split.
    + intros (_ & k & Hk & c & (i & Hc)%list_elem_of_lookup & <- & Hid & He).
      exists i, c. split_and!; [done..|]. destruct (cls c); by rewrite <- He.
    + intros (i & c & Hc & Hid & He).
      assert (candidate_eligible role c s snapshot runtime now = true) as He'.
      { rewrite <- eligible_without_account. rewrite <- He. by destruct (cls c). }
      split; [apply not_elem_of_nil|]. exists (cls c).
      rewrite <- eligible_without_account in He'. apply eligible_with_account_iff in He' as Ha.
      split; [apply Ha|]. exists c. split_and!; [by eapply list_elem_of_lookup_2|done..].
Qed.

(** *** The picks *)

Lemma first_class_spec {A} (pick : ProviderClass -> option A) ks :
  match first_class pick ks with
  | Some x => exists pre k post, ks = pre ++ k :: post /\ pick k = Some x /\
                forall k', k' ∈ pre -> pick k' = None
  | None => forall k, k ∈ ks -> pick k = None
  end.
Proof.
  induction ks as [|k ks IH]; cbn [first_class].
  { intros k Hk. by apply not_elem_of_nil in Hk. }
  destruct (pick k) as [x|] eqn:E.
  { exists [], k, ks. split_and!; [done..|]. intros k' Hk. by apply not_elem_of_nil in Hk. }
  destruct (first_class pick ks) as [x|].
  - destruct IH as (pre & k' & post & -> & Hp & Hpre). exists (k :: pre), k', post.
    split_and!; [done..|]. intros k2 [->|Hk]%elem_of_cons; [done|by apply Hpre].
  - intros k2 [->|Hk]%elem_of_cons; [done|by apply IH].
Qed.

Definition ranked_ok (c : RoutableCandidate) : Prop := f64_is_nan (swe_rank c) = false.

Lemma ranked_sorted k :
  Forall ranked_ok candidates -> StronglySorted (cmp_le rank_desc) (ranked k candidates).
Proof.
  intros Hn. apply (sort_by_sorted rank_desc ranked_ok).
  - intros x y _ _. apply f64_cmp_or_eq_flip.
  - unfold cmp_le, rank_desc, ranked_ok. intros x y z Hx Hy Hz.
    rewrite !f64_cmp_or_eq_le by done. intros H1 H2. by eapply f64_leb_trans.
  - apply Forall_forall. intros c Hc. rewrite Forall_forall in Hn. apply Hn.
    unfold of_class in Hc. by apply elem_of_filterb in Hc as [_ ?].
Qed.

(** On one snapshot the pick is the best-ranked eligible candidate of the
    first listed class that has one, and there is no pick exactly when no
    candidate is eligible. *)
Theorem legacy_pick_exact :
  Forall ranked_ok candidates ->
  let ok c := candidate_eligible role c s snapshot runtime now in
  match pick_candidate_for_role role candidates s snapshot runtime now with
  | Some id => exists pre c post, classes_for s role = pre ++ cls c :: post /\
      c ∈ candidates /\ model_id c = id /\ ok c = true /\
      (forall c', c' ∈ candidates -> ok c' = true -> cls c' ∉ pre) /\
      (forall c', c' ∈ candidates -> cls c' = cls c -> ok c' = true ->
         f64_leb (swe_rank c') (swe_rank c) = true)
  | None => forall c, c ∈ candidates -> ok c = false
  end.
Proof.
  intros Hn ok. unfold pick_candidate_for_role. fold ok.
  assert (forall k c, c ∈ candidates -> ok c = true -> cls c = k ->
            model_id <$> find_first ok (ranked k candidates) <> None) as Hsome.
  { intros k c Hc Hok Hk. destruct (find_first ok _) eqn:E; [done|].
    rewrite find_first_None in E. specialize (E c). rewrite elem_of_ranked in E.
    rewrite E in Hok; [done|auto]. }
  pose proof (first_class_spec (fun k => model_id <$> find_first ok (ranked k candidates))
    (classes_for s role)) as Hp.
  destruct (first_class _ _) as [id|].
  - destruct Hp as (pre & k & post & Hks & Hk & Hpre).
    destruct (find_first ok (ranked k candidates)) as [c|] eqn:Ef; [|done]. injection Hk as Hid.
    apply find_first_Some in Ef as Hc. destruct Hc as [[Hk Hc]%elem_of_ranked Hok]. subst k.
    exists pre, c, post. split_and!; [done..| |].
    + intros c' Hc' Hok' Hin. by apply (Hsome (cls c') c' Hc' Hok' eq_refl), Hpre.
    + intros c' Hc' Hk' Hok'.
      assert (c' ∈ ranked (cls c) candidates) as Hin by by apply elem_of_ranked.
      rewrite Forall_forall in Hn.
      destruct (find_first_least _ _ _ _ (ranked_sorted _ (proj2 (Forall_forall _ _) Hn)) Ef c' Hin Hok')
        as [->|Hle]; [by apply f64_leb_refl, Hn|].
      unfold cmp_le, rank_desc in Hle. rewrite f64_cmp_or_eq_le in Hle by by apply Hn. done.
  - intros c Hc. destruct (ok c) eqn:Hok; [|done].
    destruct (Hsome (cls c) c Hc Hok eq_refl). apply Hp.
    assert (allowed role c s snapshot None runtime now) as Ha.
    { apply eligible_with_account_iff. by rewrite eligible_without_account. }
    apply Ha.
Qed.

(** *** The idle pick *)

Definition strength_ok (e : scored) : Prop := f64_is_nan e.1.2 = false.

Definition scored_key (e : scored) : list Z :=
  let '(r1, r2, r3) := f64_rank e.1.2 in
  [if e.2 then 0 else 1; r1; r2; r3; Z.of_nat e.1.1].

Lemma scored_cmp_key a b :
  strength_ok a -> strength_ok b -> scored_cmp a b = lexl (scored_key a) (scored_key b).
Proof.
  unfold strength_ok, scored_cmp, scored_key. intros Ha Hb. rewrite f64_cmp_or_eq_rank by done.
  destruct (f64_rank a.1.2) as [[x1 x2] x3], (f64_rank b.1.2) as [[y1 y2] y3].
  unfold lex3. cbn [fst snd lexl]. rewrite <- Nat2Z.inj_compare.
  destruct a.2, b.2; simpl; try done;
    destruct (x1 ?= y1); simpl; try done; destruct (x2 ?= y2); simpl; try done;
    destruct (x3 ?= y3); simpl; try done; by destruct (Z.of_nat a.1.1 ?= Z.of_nat b.1.1).
Qed.

Lemma scored_sorted l :
  Forall strength_ok l -> StronglySorted (cmp_le scored_cmp) (sort_by scored_cmp l).
Proof.
  intros Hl. apply (sort_by_sorted scored_cmp strength_ok); [..|done].
  - intros x y Hx Hy. rewrite !scored_cmp_key by done. apply lexl_flip.
  - unfold cmp_le. intros x y z Hx Hy Hz. rewrite !scored_cmp_key by done.
    apply lexl_trans; unfold scored_key; repeat case_match; done.
Qed.

Lemma scored_le_eligible a b :
  strength_ok a -> strength_ok b -> a.2 = true -> b.2 = true -> cmp_le scored_cmp a b ->
  f64_leb a.1.2 b.1.2 = true /\
  (f64_leb b.1.2 a.1.2 = true -> (a.1.1 <= b.1.1)%nat).
Proof.
  unfold cmp_le, scored_cmp, strength_ok. intros Ha Hb -> ->. simpl.
  rewrite <- f64_cmp_or_eq_le by done. rewrite <- (f64_cmp_or_eq_le b.1.2 a.1.2) by done.
  rewrite (f64_cmp_or_eq_flip a.1.2 b.1.2).
  destruct (f64_cmp_or_eq a.1.2 b.1.2); simpl; try done. intros Hn. split; [done|]. intros _.
  by apply Nat.compare_le_iff.
Qed.

(** Among the subscriptions the pick takes the most idle account that may
    be used, the earliest one when several are equally idle, and there is no
    pick exactly when none may be used. *)
Theorem idle_pick_exact views :
  Forall strength_ok (scored_subs role candidates views s snapshot runtime now) ->
  let sub i c := candidates !! i = Some c /\ cls c = Sub /\
                 allowed role c s snapshot (view_of views i) runtime now in
  let idle i c := sub_strength s (any_sub_has_view candidates views) (view_of views i) c now in
  match pick_sub_candidate_by_idle role candidates views s snapshot runtime now with
  | Some id => exists i c, sub i c /\ model_id c = id /\
      forall j c', sub j c' -> f64_leb (idle i c) (idle j c') = true /\
        (f64_leb (idle j c') (idle i c) = true -> (i <= j)%nat)
  | None => forall i c, ~ sub i c
  end.
Proof.
  intros Hn sub idle. unfold pick_sub_candidate_by_idle.
  set (l := scored_subs _ _ _ _ _ _ _) in *.
  assert (forall i c, sub i c -> (i, idle i c, true) ∈ l) as Hin.
  { intros i c (Hc & Hk & Ha%eligible_with_account_iff). apply elem_of_scored_subs.
    exists c. cbn [fst snd]. by rewrite Ha. }
  destruct (find_first snd (sort_by scored_cmp l)) as [e|] eqn:Ef.
  - apply find_first_Some in Ef as He. destruct He as [He%elem_of_sort_by Hok].
    apply elem_of_scored_subs in He as Hc. destruct Hc as (c & Hc & Hk & Hs & Hel).
    rewrite Hok in Hel. symmetry in Hel. apply eligible_with_account_iff in Hel.
    simpl. rewrite Hc. exists e.1.1, c. split_and!; [done..|]. intros j c' Hsub.
    fold (idle e.1.1 c) in Hs. rewrite <- Hs.
    rewrite Forall_forall in Hn. pose proof (Hin j c' Hsub) as Hj.
    destruct (find_first_least _ _ _ _ (scored_sorted l (proj2 (Forall_forall _ _) Hn)) Ef
      (j, idle j c', true) (proj2 (elem_of_sort_by _ _ _) Hj) eq_refl) as [Heq|Hle].
    + rewrite <- Heq. simpl. split; [apply f64_leb_refl, (Hn _ Hj)|done].
    + by apply (scored_le_eligible e (j, idle j c', true)); [apply Hn|apply (Hn _ Hj)|..].
  - intros i c Hsub%Hin. rewrite find_first_None in Ef.
    by specialize (Ef _ (proj2 (elem_of_sort_by scored_cmp _ _) Hsub)).
Qed.

Lemma best_ranked_elem k c : best_ranked k candidates = Some c -> cls c = k /\ c ∈ candidates.
Proof.
  unfold best_ranked. intros Hb.
  assert (forall c', c' ∈ of_class k candidates -> cls c' = k /\ c' ∈ candidates) as Hof.
  { intros c' [Hk Hc]%elem_of_filterb. by apply bool_decide_eq_true in Hk. }
  revert c Hb. apply (fold_left_in _ (fun b => forall c, b = Some c -> cls c = k /\ c ∈ candidates));
    [done|].
  intros [b|] c' Hb Hc' c; [destruct (_ <? _)%f64|]; intros [= <-]; auto.
Qed.

(** The pick over several accounts is always a candidate allowed for the
    role, so never a metered one without both permissions nor a subscription
    whose windows say to leave it. *)
Theorem account_pick_allowed views id :
  pick_candidate_for_role_with_account role candidates views s snapshot runtime now = Some id ->
  route_ok views id.
Proof.
  unfold pick_candidate_for_role_with_account. intros Hpick.
  match type of Hpick with first_class ?p _ = _ =>
    pose proof (first_class_spec p (classes_for s role)) as Hp end.
  rewrite Hpick in Hp. destruct Hp as (pre & k & post & _ & Hk & _).
  assert (forall k' : ProviderClass, k' <> Sub ->
    (c ← best_ranked k' candidates;
     if candidate_eligible_with_account role c s snapshot None runtime now
     then Some (model_id c) else None) = Some id -> route_ok views id) as Hother.
  { intros k' Hne He. destruct (best_ranked k' candidates) as [c|] eqn:Eb; [|done]. simpl in He.
    apply best_ranked_elem in Eb as [Hc (i & Hi)%list_elem_of_lookup].
    destruct (candidate_eligible_with_account _ _ _ _ _ _ _) eqn:Ee; [|done]. simplify_eq.
    exists i, c. split_and!; [done..|]. apply eligible_with_account_iff. by destruct (cls c). }
  destruct k; [by apply (Hother Free)| |by apply (Hother Paid)].
  unfold pick_sub_candidate_by_idle in Hk.
  destruct (find_first _ _) as [e|] eqn:Ef; [|done]. simpl in Hk.
  apply find_first_Some in Ef as [He%elem_of_sort_by Hok].
  apply elem_of_scored_subs in He as (c & Hc & Hcls & _ & Hel). rewrite Hc in Hk. simplify_eq/=.
  exists e.1.1, c. split_and!; [done..|]. rewrite Hcls. apply eligible_with_account_iff. congruence.
Qed.
End Routes.

(** ** The active scenario *)

(** The presets that spend money only by an override. *)
Lemma preset_allow_paid name :
  allow_paid (default balanced (default_scenarios !! name)) = bool_decide (name = "unlimited"%string).
Proof.
  unfold default_scenarios. case_bool_decide as Hn; [by subst|].
  rewrite !lookup_insert. repeat case_decide; subst; done.
Qed.

(** An override writes the fields it sets and no other, and an unknown name is
    the balanced preset. *)
Lemma resolve_active_fields name o :
  let base := default balanced (default_scenarios !! name) in
  let s := resolve_active name o in
  primary_classes s = default (primary_classes base) (o ≫= o_primary_classes) /\
  reviewer_classes s = default (reviewer_classes base) (o ≫= o_reviewer_classes) /\
  sc_use_target s = default (sc_use_target base) (o ≫= o_use_target) /\
  sc_cap_guard s = default (sc_cap_guard base) (o ≫= o_cap_guard) /\
  sc_budget_mode s = default (sc_budget_mode base) (o ≫= o_budget_mode) /\
  allow_paid s = default (allow_paid base) (o ≫= o_allow_paid).
Proof.
  intros base s. unfold s, resolve_active, apply_override. fold base.
  destruct o as [o|]; [|done]. destruct (is_empty o) eqn:E; [|done].
  by destruct o as [[] [] [] [] [] []].
Qed.

(** Metered models stay out of every route unless the operator names the
    [unlimited] preset or overrides the permission, and passes the flag of the
    call: otherwise neither the pick nor the chain holds a metered candidate
    only. *)
Theorem metered_needs_opt_in name o role candidates views snapshot runtime now n id :
  id ∈ chain_for_role_with_account role candidates views (resolve_active name o) snapshot runtime now n ->
  (forall c, c ∈ candidates -> model_id c = id -> cls c = Paid) ->
  runtime = true /\
  ((o ≫= o_allow_paid) = Some true \/
   ((o ≫= o_allow_paid) = None /\ name = "unlimited"%string)).
Proof.
  intros Hid Hall. set (s := resolve_active name o) in *.
  destruct (account_chain_exact role candidates s snapshot runtime now views) as (_ & Hcut & Hiff).
  assert (route_ok role candidates s snapshot runtime now views id) as (i & c & Hc & Hm & Ha).
  { apply Hiff. destruct n as [|n]; [done|]. rewrite Hcut in Hid. by eapply elem_of_take in Hid as (? & ?%list_elem_of_lookup_2 & _). }
  destruct Ha as (_ & _ & Ha). rewrite (Hall c) in Ha by (done || by eapply list_elem_of_lookup_2).
  destruct Ha as [Hp Hr]. split; [done|].
  destruct (resolve_active_fields name o) as (_ & _ & _ & _ & _ & Hf). fold s in Hf.
  rewrite Hp, preset_allow_paid in Hf.
  destruct (o ≫= o_allow_paid) as [b|]; simpl in Hf; [left; congruence|right].
  split; [done|]. symmetry in Hf. by apply bool_decide_eq_true in Hf.
Qed.

(** ** Concrete inputs *)

Module Sample.

Definition cand (id : string) (k : ProviderClass) (rank : Z) (ok : bool) : RoutableCandidate :=
  mkCandidate id k (f64_of_Z rank) ok.
Definition snap (percent : Z) : RateLimitSnapshot :=
  mkSnapshot OpenaiCodex "a" "pro"
    (Some (mkWindowSnapshot (Some (f64_of_Z percent)) None None None)) None None (Some 0).
Definition view (percent : Z) : AccountView :=
  mkAccountView OpenaiCodex "a" "pro" None
    [mkWindowView "weekly" (Some (f64_of_Z percent)) Header Fresh None 168].
Definition pool : list RoutableCandidate :=
  [cand "free" Free 50 true; cand "sub-a" Sub 70 true; cand "sub-b" Sub 60 true;
   cand "paid" Paid 90 true].

Lemma legacy_pick_exact_witness :
  pick_candidate_for_role Primary pool aggressive (Some (snap 20)) false 0 = Some "sub-a"%string /\
  match pick_candidate_for_role Primary pool aggressive (Some (snap 20)) false 0 with
  | Some id => exists c, c ∈ pool /\ model_id c = id
  | None => False
  end.
Proof.
  split; [vm_compute; reflexivity|].
  assert (Forall ranked_ok pool) as Hn by repeat constructor.
  pose proof (legacy_pick_exact Primary pool aggressive (Some (snap 20)) false 0 Hn) as Hp.
  destruct (pick_candidate_for_role _ _ _ _ _ _) as [id|] eqn:E.
  - destruct Hp as (pre & c & post & _ & Hc & Hid & _). exists c. split; [exact Hc|exact Hid].
  - vm_compute in E. discriminate.
Defined.

Lemma idle_pick_exact_witness :
  let views := [None; Some (view 80); Some (view 30); None] in
  pick_sub_candidate_by_idle Primary pool views aggressive None false 0 = Some "sub-b"%string /\
  exists i c, pool !! i = Some c /\ model_id c = "sub-b"%string.
Proof.
  intros views. split; [vm_compute; reflexivity|].
  assert (Forall strength_ok (scored_subs Primary pool views aggressive None false 0)) as Hn
    by (vm_compute; repeat constructor).
  pose proof (idle_pick_exact Primary pool aggressive None false 0 views Hn) as Hp. cbv zeta in Hp.
  assert (pick_sub_candidate_by_idle Primary pool views aggressive None false 0 =
          Some "sub-b"%string) as E by (vm_compute; reflexivity).
  rewrite E in Hp. destruct Hp as (i & c & (Hc & _) & Hid & _). exists i, c. split; [exact Hc|exact Hid].
Defined.

Lemma account_pick_allowed_witness :
  route_ok Primary pool aggressive None false 0 [None; Some (view 80); Some (view 30); None] "sub-b".
Proof. apply account_pick_allowed. vm_compute. reflexivity. Defined.

Lemma metered_needs_opt_in_witness :
  true = true /\ ((None : option RouteScenarioOverride) ≫= o_allow_paid = Some true \/
    ((None : option RouteScenarioOverride) ≫= o_allow_paid = None /\
     "unlimited"%string = "unlimited"%string)).
Proof.
  apply (metered_needs_opt_in "unlimited" None Primary [cand "paid" Paid 90 true] [] None true 0 0 "paid").
  - vm_compute. left.
  - intros c [->|Hc]%elem_of_cons _; [reflexivity|]. by apply not_elem_of_nil in Hc.
Defined.

(** The pick over accounts looks at the best-ranked free candidate only: when
    that one is unhealthy it finds no route although the chain has one. *)
Lemma account_pick_misses_eligible :
  let pool := [cand "down" Free 90 false; cand "up" Free 50 true] in
  pick_candidate_for_role_with_account Primary pool [] balanced None false 0 = None /\
  chain_for_role_with_account Primary pool [] balanced None false 0 0 = ["up"%string] /\
  pick_candidate_for_role Primary pool balanced None false 0 = Some "up"%string.
Proof. by vm_compute. Qed.

(** Past its guard a subscription is never kept, whatever the budget mode. *)
Lemma chargeback_never_keeps_sub v s now :
  ad_decision (decide_account v (knobs_of s) now None) <> ChargebackPaid.
Proof.
  intros Hd. pose proof (keeps_sub_account v s now) as Hk. rewrite Hd in Hk.
  by destruct Hk as [Hk _]; specialize (Hk eq_refl).
Qed.
End Sample.
