(* ===== verification/Headers.v ===== *)
(** Rate-limit headers (crates/zoder-core/src/utilization.rs): the detection of
    the vendor of a response, the parsers of the two vendors whose windows are
    read, and their detection against each other.

    A header set is its case-insensitive lookup ([HeaderLookup]); chrono's
    RFC 3339 parser is a parameter.  Each reading of the clock is an argument. *)
From S2P Require Import Prelude F64 Numbers Clock Utilization.
Local Open Scope Z_scope.

Class HeaderLookup := header : string -> option string.

(** [HeaderLookup for BTreeMap], on the map's entries in key order. *)
Definition map_lookup (entries : list (string * string)) : HeaderLookup := fun name =>
  match find_first (fun e => bool_decide (e.1 = name)) entries with
  | Some e => Some e.2
  | None =>
      let needle := to_ascii_lowercase name in
      snd <$> find_first (fun e => bool_decide (to_ascii_lowercase e.1 = needle)) entries
  end.

(** ** The parsers of header values *)

(** [trim_end_matches('%')] *)
Fixpoint trim_percent (s : string) : string :=
  match s with
  | EmptyString => EmptyString
  | String c r =>
      let r' := trim_percent r in
      if Ascii.eqb c "%" && str_is_empty r' then EmptyString else String c r'
  end.

Definition parse_pct (raw : string) : option f64 :=
  opt_filter (fun n => f64_is_finite n && (n >=? f64_zero)%f64)
    (parse_f64_std (trim_percent (trim raw))).
Definition parse_u32 (raw : string) : option Z := parse_u32_std (trim raw).
Definition parse_i64 (raw : string) : option Z := parse_i64_std (trim raw).

Definition parse_bool_loose (raw : string) : option bool :=
  let s := to_ascii_lowercase (trim raw) in
  if bool_decide (s ∈ ["true"; "1"; "yes"; "on"]%string) then Some true
  else if bool_decide (s ∈ ["false"; "0"; "no"; "off"]%string) then Some false
  else None.

(** [anthropic_suffix_minutes] *)
Definition anthropic_suffix_minutes (suffix : string) : option Z :=
  let len := String.length suffix in
  if (len <? 2)%nat then None
  else
    n ← parse_u32_std (String.substring 0 (len - 1) suffix);
    let unit := String.substring (len - 1) 1 suffix in
    if bool_decide (unit = "m"%string) then Some n
    else if bool_decide (unit = "h"%string) then Some (u32_sat_mul n 60)
    else if bool_decide (unit = "d"%string) then Some (u32_sat_mul n (60 * 24))
    else None.

Section Parsers.
(** [DateTime::parse_from_rfc3339(s).timestamp()] of chrono. *)
Variable rfc3339 : string -> option Z.
Context `{HeaderLookup}.

Definition present (name : string) : bool := match header name with Some _ => true | None => false end.

(** [Provider::detect] *)
Definition codex_headers : list string :=
  ["x-codex-plan-type"; "x-codex-active-limit"; "x-codex-credits-has-credits";
   "x-codex-primary-used-percent"; "x-codex-primary-window-minutes"; "x-codex-primary-reset-at";
   "x-codex-primary-reset-after-seconds"; "x-codex-secondary-used-percent";
   "x-codex-secondary-window-minutes"; "x-codex-secondary-reset-at";
   "x-codex-secondary-reset-after-seconds"].
Definition anthropic_headers : list string :=
  ["anthropic-ratelimit-unified-5h-status"; "anthropic-ratelimit-unified-status";
   "anthropic-ratelimit-requests-limit"; "anthropic-ratelimit-tokens-remaining";
   "anthropic-ratelimit-unified-5h-utilization"].
Definition openai_headers : list string :=
  ["x-ratelimit-limit-requests"; "x-ratelimit-limit-tokens"; "x-ratelimit-remaining-requests";
   "x-ratelimit-remaining-tokens"].

Definition detect : option Provider :=
  if existsb present codex_headers then Some OpenaiCodex
  else if existsb present anthropic_headers then Some Anthropic
  else if existsb present openai_headers then Some Openai
  else None.

Definition is_digit (c : ascii) : bool := match digit_value c with Some _ => true | None => false end.
Fixpoint all_digits (s : string) : bool :=
  match s with EmptyString => true | String c r => is_digit c && all_digits r end.

(** [parse_epoch_seconds] *)
Definition parse_epoch_seconds (raw : string) : option Z :=
  let s := trim raw in
  if str_is_empty s then None
  else match rfc3339 s with
       | Some t => Some t
       | None => if all_digits s then parse_i64_std s else None
       end.

(** The reset of a Codex window: the instant, or the delay from now. *)
Definition codex_reset (window : string) (now_epoch : Z) : option Z :=
  match header ("x-codex-" +:+ window +:+ "-reset-at") ≫= parse_epoch_seconds with
  | Some t => Some t
  | None =>
      secs ← opt_filter (fun secs => 0 <=? secs)
               (header ("x-codex-" +:+ window +:+ "-reset-after-seconds") ≫= parse_i64);
      if now_epoch + secs <=? I64_MAX then Some (now_epoch + secs) else None
  end.

(** One window of [parse_codex]. *)
Definition codex_window (window : string) (now_epoch : Z) : option WindowSnapshot :=
  let w := mkWindowSnapshot
    (header ("x-codex-" +:+ window +:+ "-used-percent") ≫= parse_pct)
    (header ("x-codex-" +:+ window +:+ "-window-minutes") ≫= parse_u32)
    (codex_reset window now_epoch)
    (Some window) in
  match ws_used_percent w, ws_reset_at_epoch w with
  | None, None => None
  | _, _ => Some w
  end.

(** [parse_codex] *)
Definition parse_codex (account_id plan : string) (now1 now2 : Z) : RateLimitSnapshot :=
  mkSnapshot OpenaiCodex account_id (default plan (header "x-codex-plan-type"))
    (codex_window "primary" now1) (codex_window "secondary" now2)
    (header "x-codex-credits-has-credits" ≫= parse_bool_loose) None.

(** [anthropic_unified_window] *)
Definition anthropic_unified_window (suffix : string) : option WindowSnapshot :=
  let pre := ("anthropic-ratelimit-unified-" +:+ suffix)%string in
  if negb (present (pre +:+ "-status")) && negb (present (pre +:+ "-utilization")) then None
  else Some (mkWindowSnapshot (header (pre +:+ "-utilization") ≫= parse_pct)
               (anthropic_suffix_minutes suffix)
               (header (pre +:+ "-reset") ≫= parse_epoch_seconds) (Some suffix)).

(** [anthropic_unified_window_nosuffix] *)
Definition anthropic_unified_window_nosuffix : option WindowSnapshot :=
  if negb (present "anthropic-ratelimit-unified-status") &&
     negb (present "anthropic-ratelimit-unified-remaining") &&
     negb (present "anthropic-ratelimit-unified-reset") then None
  else Some (mkWindowSnapshot None None
               (header "anthropic-ratelimit-unified-reset" ≫= parse_epoch_seconds)
               (Some "unified"%string)).

(** [anthropic_legacy_pair] and the percent [parse_anthropic] makes of it. *)
Definition anthropic_legacy_pair (unit : string) : option Z * option Z * option Z :=
  let pre := ("anthropic-ratelimit-" +:+ unit)%string in
  (header (pre +:+ "-limit") ≫= parse_i64, header (pre +:+ "-remaining") ≫= parse_i64,
   header (pre +:+ "-reset") ≫= parse_epoch_seconds).

Definition legacy_window (unit : string) : option WindowSnapshot :=
  match anthropic_legacy_pair unit with
  | (Some l, Some r, reset) =>
      if (0 <? l) && (0 <=? r) && (r <=? l) then
        Some (mkWindowSnapshot (Some ((f64_of_Z (l - r) / f64_of_Z l) * f64_of_Z 100)%f64)
                None reset (Some unit))
      else None
  | _ => None
  end.

(** [parse_anthropic] *)
Definition parse_anthropic (account_id plan : string) : RateLimitSnapshot :=
  let primary := match anthropic_unified_window "5h" with
                 | Some w => Some w
                 | None => anthropic_unified_window_nosuffix
                 end in
  let secondary := anthropic_unified_window "7d" in
  match primary with
  | Some _ => mkSnapshot Anthropic account_id plan primary secondary None None
  | None =>
      mkSnapshot Anthropic account_id plan (legacy_window "requests")
        (match legacy_window "tokens" with Some w => Some w | None => secondary end) None None
  end.

(** [parse_headers] *)
Definition parse_headers (account_id plan : string) (now1 now2 now : Z) : option RateLimitSnapshot :=
  p ← detect;
  let snap :=
    match p with
    | OpenaiCodex => parse_codex account_id plan now1 now2
    | Utilization.Anthropic => parse_anthropic account_id plan
    | Openai | Other | MiniMax => mkSnapshot p account_id plan None None None None
    end in
  Some (mkSnapshot (rs_provider snap) (rs_account_id snap) (rs_plan snap) (rs_primary snap)
          (rs_secondary snap) (rs_has_credits snap) (Some now)).

(** [RateLimitSnapshot::from_headers] *)
Definition from_headers (p : Provider) (account_id plan : string) (now1 now2 now : Z) :
    option RateLimitSnapshot :=
  snap ← parse_headers account_id plan now1 now2 now;
  if bool_decide (rs_provider snap = p) then Some snap
  else if bool_decide (detect = Some p) then
    Some (mkSnapshot p (rs_account_id snap) (rs_plan snap) (rs_primary snap)
            (rs_secondary snap) (rs_has_credits snap) (rs_observed_at snap))
  else None.
End Parsers.

(** A percent that parses is a number the guard can be compared with. *)
Lemma parse_pct_finite raw u :
  parse_pct raw = Some u -> f64_is_finite u = true /\ f64_leb f64_zero u = true.
Proof. unfold parse_pct. by intros [_ ?%andb_true_iff]%opt_filter_Some. Qed.

Section HeaderLemmas.
Variable rfc3339 : string -> option Z.
Context `{HeaderLookup}.

(** Where the percent of a window comes from: a header that parses to a finite
    non-negative number, or a limit and a remaining count within it. *)
Definition percent_evidence (u : f64) : Prop :=
  (exists name raw, header name = Some raw /\ parse_pct raw = Some u /\
     f64_is_finite u = true /\ f64_leb f64_zero u = true) \/
  (exists unit l r, header ("anthropic-ratelimit-" +:+ unit +:+ "-limit") ≫= parse_i64 = Some l /\
     header ("anthropic-ratelimit-" +:+ unit +:+ "-remaining") ≫= parse_i64 = Some r /\
     0 < l /\ 0 <= r <= l /\ u = ((f64_of_Z (l - r) / f64_of_Z l) * f64_of_Z 100)%f64).

Definition window_sound (o : option WindowSnapshot) : Prop :=
  forall w u, o = Some w -> ws_used_percent w = Some u -> percent_evidence u.

Lemma header_percent_evidence name u :
  header name ≫= parse_pct = Some u -> percent_evidence u.
Proof.
  destruct (header name) as [raw|] eqn:E; [|done]. simpl. intros Hp. left.
  exists name, raw. split_and!; [done..| |]; by apply parse_pct_finite in Hp as [? ?].
Qed.

Lemma codex_window_sound window now : window_sound (codex_window rfc3339 window now).
Proof.
  intros w u Hw Hu. unfold codex_window in Hw. apply (header_percent_evidence
    ("x-codex-" +:+ window +:+ "-used-percent")).
  repeat case_match; simplify_eq/=; congruence.
Qed.

Lemma unified_window_sound suffix : window_sound (anthropic_unified_window rfc3339 suffix).
Proof.
  intros w u Hw Hu. unfold anthropic_unified_window in Hw. case_match; [done|]. simplify_eq/=.
  by eapply header_percent_evidence.
Qed.

Lemma nosuffix_window_sound : window_sound (anthropic_unified_window_nosuffix rfc3339).
Proof.
  intros w u Hw Hu. unfold anthropic_unified_window_nosuffix in Hw. case_match; [done|].
  by simplify_eq/=.
Qed.

Lemma legacy_window_sound unit : window_sound (legacy_window rfc3339 unit).
Proof.
  intros w u Hw Hu. unfold legacy_window, anthropic_legacy_pair in Hw.
  destruct (_ ≫= parse_i64) as [l|] eqn:El; [|done].
  destruct (header (_ +:+ "-remaining") ≫= parse_i64) as [r|] eqn:Er; [|done].
  destruct (_ && _) eqn:Ec; [|done]. simplify_eq/=.
  rewrite !andb_true_iff, Z.ltb_lt, !Z.leb_le in Ec.
  right. exists unit, l, r. split_and!; try done; lia.
Qed.

Lemma window_sound_None : window_sound None.
Proof. by intros w u Hw. Qed.
#[local] Hint Resolve codex_window_sound unified_window_sound nosuffix_window_sound
  legacy_window_sound window_sound_None : zoder.

Lemma parse_anthropic_sound account_id plan :
  let snap := parse_anthropic rfc3339 account_id plan in
  window_sound (rs_primary snap) /\ window_sound (rs_secondary snap).
Proof.
  unfold parse_anthropic.
  pose proof (unified_window_sound "5h") as H5. pose proof (unified_window_sound "7d") as H7.
  pose proof nosuffix_window_sound as Hn. pose proof (legacy_window_sound "tokens") as Ht.
  pose proof (legacy_window_sound "requests") as Hr.
  destruct (anthropic_unified_window rfc3339 "5h") as [w|]; [by split|].
  destruct (anthropic_unified_window_nosuffix rfc3339) as [w|]; [by split|].
  split; [done|]. by destruct (legacy_window rfc3339 "tokens").
Qed.

(** Every percent in a parsed snapshot was published: it is a header's
    finite non-negative number, or follows from a limit and a remaining count
    within it; the snapshot is of the detected vendor and stamped with the
    instant of parsing. *)
Theorem parse_headers_sound account_id plan now1 now2 now snap :
  parse_headers rfc3339 account_id plan now1 now2 now = Some snap ->
  detect = Some (rs_provider snap) /\ rs_observed_at snap = Some now /\
  rs_account_id snap = account_id /\
  window_sound (rs_primary snap) /\ window_sound (rs_secondary snap).
Proof.
  unfold parse_headers. destruct detect as [p|] eqn:Hd; [|done]. cbn [option_bind mbind].
  pose proof (parse_anthropic_sound account_id plan) as [Ha1 Ha2].
  destruct p; intros Hs; injection Hs as <-; cbn [rs_provider rs_observed_at rs_account_id rs_primary
    rs_secondary parse_codex]; split_and!; try done; auto with zoder;
    unfold parse_anthropic; by repeat case_match.
Qed.

Lemma present_detects_codex name : name ∈ codex_headers -> present name = true -> detect = Some OpenaiCodex.
Proof.
  intros Hn Hp. unfold detect. assert (existsb present codex_headers = true) as ->; [|done].
  apply existsb_elem. by exists name.
Qed.

(** Membership of a literal in a literal list. *)
Ltac listed := apply (bool_decide_eq_true_1 _); vm_compute; reflexivity.

Lemma bind_present {A} name (f : string -> option A) x :
  header name ≫= f = Some x -> present name = true.
Proof. unfold present. by destruct (header name). Qed.

Lemma codex_window_detected window now :
  window = "primary"%string \/ window = "secondary"%string ->
  codex_window rfc3339 window now <> None -> detect = Some OpenaiCodex.
Proof.
  intros Hw Hsome. unfold codex_window, codex_reset in Hsome. cbn [ws_used_percent ws_reset_at_epoch] in Hsome.
  destruct (header ("x-codex-" +:+ window +:+ "-used-percent") ≫= parse_pct) eqn:E1.
  { apply bind_present in E1. refine (present_detects_codex _ _ E1). destruct Hw as [-> | ->]; listed. }
  destruct (header ("x-codex-" +:+ window +:+ "-reset-at") ≫= _) eqn:E2.
  { apply bind_present in E2. refine (present_detects_codex _ _ E2). destruct Hw as [-> | ->]; listed. }
  destruct (header ("x-codex-" +:+ window +:+ "-reset-after-seconds") ≫= _) eqn:E3; [|done].
  apply bind_present in E3. refine (present_detects_codex _ _ E3). destruct Hw as [-> | ->]; listed.
Qed.

(** A header set in which the Codex parser finds a window, a credit flag
    or a plan is detected as a Codex one, so its reading is never dropped, and
    a response parsed for a known vendor is kept exactly when that vendor is
    the detected one. *)
Theorem codex_detection_complete account_id plan now1 now2 now p :
  (let snap := parse_codex rfc3339 account_id plan now1 now2 in
   snapshot_is_empty snap = true /\ rs_plan snap = plan \/ detect = Some OpenaiCodex) /\
  from_headers rfc3339 p account_id plan now1 now2 now =
    if bool_decide (detect = Some p) then parse_headers rfc3339 account_id plan now1 now2 now else None.
Proof.
  split.
  - intros snap. unfold snap, snapshot_is_empty, parse_codex. cbn [rs_primary rs_secondary rs_has_credits rs_plan].
    destruct (codex_window rfc3339 "primary" now1) eqn:E1.
    { right. apply (codex_window_detected "primary" now1); [by left|congruence]. }
    destruct (codex_window rfc3339 "secondary" now2) eqn:E2.
    { right. apply (codex_window_detected "secondary" now2); [by right|congruence]. }
    destruct (header "x-codex-credits-has-credits" ≫= parse_bool_loose) eqn:E3.
    { right. apply bind_present in E3. refine (present_detects_codex _ _ E3). listed. }
    destruct (header "x-codex-plan-type") eqn:E4; [|by left].
    right. apply (present_detects_codex "x-codex-plan-type"); [listed|].
    unfold present. by rewrite E4.
  - unfold from_headers. destruct (parse_headers _ _ _ _ _ _) as [snap|] eqn:E.
    + apply parse_headers_sound in E as (Hd & _). simpl. rewrite Hd.
      repeat case_bool_decide; simplify_eq; done.
    + by case_bool_decide.
Qed.
End HeaderLemmas.

(** ** Concrete inputs *)

Module Sample.
Definition no_dates : string -> option Z := fun _ => None.

Definition codex : HeaderLookup := map_lookup
  [("X-Codex-Primary-Used-Percent", " 84.5% "); ("x-codex-primary-reset-after-seconds", "600")]%string.

Lemma parse_headers_sound_witness :
  exists snap, parse_headers (H := codex) no_dates "a" "pro" 10 10 (10 * NS) = Some snap /\
    @detect codex = Some (rs_provider snap) /\
    (w ← rs_primary snap; ws_used_percent w) = Some (f64_lit 169 2) /\
    (w ← rs_primary snap; ws_reset_at_epoch w) = Some 610.
Proof.
  eexists. split; [vm_compute; reflexivity|]. split_and!.
  - apply (parse_headers_sound (H := codex) no_dates "a" "pro" 10 10 (10 * NS)).
    vm_compute. reflexivity.
  - vm_compute. reflexivity.
  - vm_compute. reflexivity.
Defined.

(** A response that publishes only the weekly Anthropic window is not detected,
    although the parser reads the window: the reading is dropped. *)
Definition weekly_only : HeaderLookup := map_lookup
  [("anthropic-ratelimit-unified-7d-status", "rejected");
   ("anthropic-ratelimit-unified-7d-utilization", "99")]%string.

Lemma anthropic_weekly_only_dropped :
  parse_headers (H := weekly_only) no_dates "a" "max" 0 0 0 = None /\
  exists w, rs_secondary (parse_anthropic (H := weekly_only) no_dates "a" "max") = Some w /\
    ws_used_percent w = Some (f64_of_Z 99).
Proof. split; [by vm_compute|]. eexists. split; vm_compute; reflexivity. Qed.
End Sample.
