(* ===== verification/Text.v ===== *)
(** Text as the parsers of the source take it apart: words between white
    space, lines, prefixes and suffixes, decimal numbers and their printing.
    The round trip of a printed number through [str::parse] is proved here for
    every file that reads back what it wrote. *)
From Stdlib Require Import DecimalString DecimalN.
From S2P Require Import Prelude Numbers.
Local Open Scope Z_scope.

(** ** Words *)

(** [s.split_whitespace()], with the word being read. *)
Fixpoint words_from (s cur : string) : list string :=
  match s with
  | EmptyString => if str_is_empty cur then [] else [cur]
  | String c r =>
      if is_ws c then if str_is_empty cur then words_from r "" else cur :: words_from r ""
      else words_from r (cur +:+ String c "")
  end.
Definition split_whitespace (s : string) : list string := words_from s "".

(** [v.join(sep)] *)
Fixpoint join (sep : string) (v : list string) : string :=
  match v with
  | [] => ""
  | [w] => w
  | w :: v => w +:+ sep +:+ join sep v
  end.

(** The bytes of a string. *)
Definition len (s : string) : Z := Z.of_nat (String.length s).

(** Every character of a string. *)
Fixpoint str_all (p : ascii -> bool) (s : string) : bool :=
  match s with
  | EmptyString => true
  | String c r => p c && str_all p r
  end.

(** A word: not empty, no white space. *)
Definition is_word (w : string) : bool := negb (str_is_empty w) && str_all (fun c => negb (is_ws c)) w.

Lemma str_app_cons c (a b : string) : String c a +:+ b = String c (a +:+ b).
Proof. done. Qed.
Lemma str_nil_app (a : string) : "" +:+ a = a.
Proof. done. Qed.

Lemma str_app_assoc (a b c : string) : (a +:+ b) +:+ c = a +:+ b +:+ c.
Proof. induction a as [|x a IH]; [done|]. by rewrite !str_app_cons, IH. Qed.

Lemma str_app_nil (a : string) : a +:+ "" = a.
Proof. induction a as [|x a IH]; [done|]. by rewrite str_app_cons, IH. Qed.

Lemma str_contains_app needle a b : str_contains needle (a +:+ needle +:+ b) = true.
Proof.
  induction a as [|c a IH].
  - rewrite str_nil_app. assert (forall n r, String.prefix n (n +:+ r) = true) as Hp.
    { induction n as [|d n IHn]; intros r; [by destruct r|]. rewrite str_app_cons. cbn. by destruct (ascii_dec d d). }
    specialize (Hp needle b). destruct (needle +:+ b); cbn [str_contains]; by rewrite Hp.
  - rewrite str_app_cons. cbn [str_contains]. by rewrite IH, orb_true_r.
Qed.
Lemma str_all_app p a b : str_all p (a +:+ b) = str_all p a && str_all p b.
Proof. induction a as [|x a IH]; [done|]. rewrite str_app_cons. simpl. by rewrite IH, andb_assoc. Qed.

Lemma str_is_empty_app a b : str_is_empty (a +:+ b) = str_is_empty a && str_is_empty b.
Proof. by destruct a, b. Qed.

Lemma words_from_word w r cur :
  str_all (fun c => negb (is_ws c)) w = true -> words_from (w +:+ r) cur = words_from r (cur +:+ w).
Proof.
  revert cur. induction w as [|c w IH]; intros cur; [by rewrite str_app_nil|].
  rewrite str_app_cons. simpl. intros [Hc Hw]%andb_true_iff. destruct (is_ws c); [done|]. rewrite IH by done.
  by rewrite str_app_assoc.
Qed.

(** Words joined by blanks are read back, whatever blank ends the text. *)
Lemma split_join ws tail :
  forallb is_word ws = true -> str_all is_ws tail = true -> split_whitespace (join " " ws +:+ tail) = ws.
Proof.
  intros Hws Htail.
  assert (forall t, str_all is_ws t = true -> words_from t "" = []) as Hend.
  { induction t as [|c t IH]; simpl; [done|]. intros [Hc Ht]%andb_true_iff. rewrite Hc. by apply IH. }
  unfold split_whitespace. induction ws as [|w ws IH]; [by apply Hend|].
  simpl in Hws. apply andb_true_iff in Hws as [[Hne Hw]%andb_true_iff Hws].
  assert (forall t, str_all is_ws t = true -> words_from t w = [w]) as Hlast.
  { intros [|c t] Ht; simpl in *; [by destruct w|]. apply andb_true_iff in Ht as [Hc Ht].
    rewrite Hc. destruct w; [done|]. simpl. by rewrite Hend. }
  destruct ws as [|w' ws].
  - cbn [join]. rewrite words_from_word by done. by apply Hlast.
  - change (join " " (w :: w' :: ws)) with (w +:+ " " +:+ join " " (w' :: ws)).
    rewrite !str_app_assoc, words_from_word, str_nil_app by done.
    change (" " +:+ ?s) with (String " " s). simpl words_from. destruct w; [done|]. simpl.
    f_equal. by apply IH.
Qed.

(** A blank before the words changes nothing. *)
Lemma split_leading_blank c s : is_ws c = true -> split_whitespace (String c s) = split_whitespace s.
Proof. intros Hc. unfold split_whitespace. simpl. by rewrite Hc. Qed.

Lemma words_from_words s cur : str_all (fun c => negb (is_ws c)) cur = true -> forallb is_word (words_from s cur) = true.
Proof.
  revert cur. induction s as [|c s IH]; intros cur Hc; cbn [words_from].
  - destruct cur as [|x cur]; [done|]. cbn [str_is_empty forallb]. unfold is_word. by rewrite Hc.
  - destruct (is_ws c) eqn:Ec.
    + destruct cur as [|x cur]; cbn [str_is_empty]; [by apply IH|]. cbn [forallb]. rewrite IH by done.
      unfold is_word. by rewrite Hc.
    + apply IH. rewrite str_all_app, Hc. cbn [str_all]. by rewrite Ec.
Qed.

(** Blanks after the words change nothing. *)
Lemma words_from_trim s cur : words_from (trim_end s) cur = words_from s cur.
Proof.
  assert (forall t, trim_end t = ""%string -> words_from t "" = []) as Hb.
  { induction t as [|c t IH]; [done|]. cbn [trim_end words_from]. destruct (is_ws c); cbn [andb]; [|done].
    destruct (trim_end t) eqn:E; [|done]. auto. }
  revert cur. induction s as [|c s IH]; intros cur; [done|]. cbn [trim_end]. destruct (is_ws c) eqn:Hc; cbn [andb].
  - destruct (str_is_empty (trim_end s)) eqn:E; [|cbn [words_from]; rewrite Hc; by destruct cur; cbn; rewrite IH].
    cbn [words_from]. rewrite Hc, Hb by (by destruct (trim_end s)). by destruct cur.
  - cbn [words_from]. by rewrite Hc, IH.
Qed.
Lemma split_trim_end s : split_whitespace (trim_end s) = split_whitespace s.
Proof. apply words_from_trim. Qed.

(** ** Prefixes, suffixes, lines *)

(** [s.strip_prefix(p)] *)
Fixpoint strip_prefix (p s : string) : option string :=
  match p, s with
  | EmptyString, _ => Some s
  | String a p, String b s => if Ascii.eqb a b then strip_prefix p s else None
  | String _ _, EmptyString => None
  end.

(** [s.strip_suffix(p)] *)
Fixpoint strip_suffix (p s : string) : option string :=
  if bool_decide (s = p) then Some ""%string
  else match s with
       | EmptyString => None
       | String c r => String c <$> strip_suffix p r
       end.

Lemma strip_prefix_app p s : strip_prefix p (p +:+ s) = Some s.
Proof. induction p as [|c p IH]; [done|]. rewrite str_app_cons. simpl. by rewrite Ascii.eqb_refl. Qed.

Lemma strip_prefix_Some p s r : strip_prefix p s = Some r -> s = p +:+ r.
Proof.
  revert s. induction p as [|c p IH]; intros s.
  { intros [= ->]. by rewrite str_nil_app. }
  destruct s as [|d s]; simpl; [done|].
  destruct (Ascii.eqb_spec c d) as [->|]; [|done]. intros H. by rewrite (IH _ H), str_app_cons.
Qed.

Lemma str_length_app (a b : string) : String.length (a +:+ b) = (String.length a + String.length b)%nat.
Proof. induction a as [|x a IH]; [done|]. rewrite str_app_cons. simpl. by rewrite IH. Qed.

Lemma strip_suffix_app s p : strip_suffix p (s +:+ p) = Some s.
Proof.
  induction s as [|c s IH].
  - rewrite str_nil_app. destruct p; cbn [strip_suffix]; by rewrite bool_decide_eq_true_2.
  - rewrite str_app_cons. cbn [strip_suffix]. rewrite bool_decide_eq_false_2; [by rewrite IH|].
    intros E. apply (f_equal String.length) in E. simpl in E. rewrite str_length_app in E. lia.
Qed.

Lemma strip_suffix_Some p s r : strip_suffix p s = Some r -> s = r +:+ p.
Proof.
  revert r. induction s as [|c s IH]; intros r; cbn [strip_suffix]; case_bool_decide as E.
  1,3: intros [= <-]; by rewrite <- E.
  - done.
  - destruct (strip_suffix p s) as [r'|] eqn:Es; [|done]. intros [= <-]. by rewrite str_app_cons, <- (IH r' eq_refl).
Qed.

(** ** Bytes, and the parts of a text they mark off *)

Definition is_ascii_digit (c : ascii) : bool := bool_decide (is_Some (digit_value c)).
Definition is_ascii_alpha (c : ascii) : bool :=
  let n := Ascii.nat_of_ascii c in
  ((65 <=? n)%nat && (n <=? 90)%nat) || ((97 <=? n)%nat && (n <=? 122)%nat).
Definition is_ascii_alphanumeric (c : ascii) : bool := is_ascii_digit c || is_ascii_alpha c.
Fixpoint trim_end_matches (p : ascii -> bool) (s : string) : string :=
  match s with
  | EmptyString => EmptyString
  | String c r =>
      let r' := trim_end_matches p r in
      if p c && str_is_empty r' then EmptyString else String c r'
  end.
Definition newline : ascii := Ascii.ascii_of_nat 10.
Definition tab : ascii := Ascii.ascii_of_nat 9.
Fixpoint skip_while (p : ascii -> bool) (s : string) : string :=
  match s with
  | String c r => if p c then skip_while p r else s
  | EmptyString => EmptyString
  end.
Fixpoint take_while (p : ascii -> bool) (s : string) : string :=
  match s with
  | String c r => if p c then String c (take_while p r) else EmptyString
  | EmptyString => EmptyString
  end.
Fixpoint str_drop (n : nat) (s : string) : string :=
  match n, s with
  | S n, String _ r => str_drop n r
  | _, _ => s
  end.
Fixpoint find_map {A B} (f : A -> option B) (l : list A) : option B :=
  match l with
  | [] => None
  | x :: l => match f x with Some y => Some y | None => find_map f l end
  end.
(** [Vec::dedup] *)
Fixpoint dedup_adjacent (l : list string) : list string :=
  match l with
  | [] => []
  | x :: r =>
      match r with
      | y :: _ => if bool_decide (x = y) then dedup_adjacent r else x :: dedup_adjacent r
      | [] => [x]
      end
  end.

Definition quote : ascii := Ascii.ascii_of_nat 34.
Definition backslash : ascii := Ascii.ascii_of_nat 92.
Fixpoint str_has (c : ascii) (s : string) : bool :=
  match s with EmptyString => false | String d r => Ascii.eqb d c || str_has c r end.
Fixpoint str_take (n : nat) (s : string) : string :=
  match n, s with
  | S n, String c r => String c (str_take n r)
  | _, _ => EmptyString
  end.
Lemma str_take_drop n s : s = str_take n s +:+ str_drop n s.
Proof.
  revert n. induction s as [|c s IH]; intros [|n]; try (by rewrite ?str_nil_app).
  cbn [str_take str_drop]. by rewrite str_app_cons, <- IH.
Qed.
Lemma str_drop_app a e : str_drop (String.length a) (a +:+ e) = e.
Proof. induction a as [|c a IH]; [by rewrite str_nil_app; destruct e|]. rewrite str_app_cons. apply IH. Qed.
Lemma str_take_length n s : (n <= String.length s)%nat -> String.length (str_take n s) = n.
Proof.
  revert n. induction s as [|c s IH]; intros [|n] H; cbn in *; try lia. rewrite IH; lia.
Qed.
Lemma str_take_app a b : str_take (String.length a) (a +:+ b) = a.
Proof. induction a as [|c a IH]; [by destruct b|]. rewrite str_app_cons. cbn. by rewrite IH. Qed.

(** [t.rsplit('/').next()] *)
Definition basename (t : string) : string := default t (last (split_on "/" t)).
Definition trim_matches (p : ascii -> bool) (s : string) : string := trim_end_matches p (skip_while p s).

(** [s.starts_with(p)] *)
Definition starts_with (p s : string) : bool := bool_decide (is_Some (strip_prefix p s)).
Lemma starts_with_spec p s : starts_with p s = true <-> exists r, s = p +:+ r.
Proof.
  unfold starts_with. rewrite bool_decide_eq_true. split.
  - intros [r H]. exists r. by apply strip_prefix_Some.
  - intros [r ->]. rewrite strip_prefix_app. by eexists.
Qed.
Lemma starts_with_trans a b s : starts_with a b = true -> starts_with b s = true -> starts_with a s = true.
Proof.
  rewrite !starts_with_spec. intros [r ->] [t ->]. exists (r +:+ t). by rewrite str_app_assoc.
Qed.

Lemma split_on_pieces c s w : w ∈ split_on c s -> str_has c w = false.
Proof.
  revert w. induction s as [|a s IH]; intros w; cbn [split_on].
  { intros ->%list_elem_of_singleton. done. }
  destruct (Ascii.eqb a c) eqn:Ea.
  - intros [->|?]%elem_of_cons; [done|by apply IH].
  - destruct (split_on c s) as [|x l].
    + intros ->%list_elem_of_singleton. cbn. by rewrite Ea.
    + intros [->|?]%elem_of_cons; [|by apply IH; right]. cbn. rewrite Ea. apply IH. by left.
Qed.

Lemma split_on_whole c w : str_has c w = false -> split_on c w = [w].
Proof.
  induction w as [|a w IH]; [done|]. cbn [str_has split_on]. intros [Ha Hw]%orb_false_iff. by rewrite Ha, IH.
Qed.

Lemma split_on_app c w r : str_has c w = false -> split_on c (w +:+ String c r) = w :: split_on c r.
Proof.
  induction w as [|a w IH]; intros Hw.
  - rewrite str_nil_app. cbn [split_on]. by rewrite Ascii.eqb_refl.
  - cbn [str_has] in Hw. apply orb_false_iff in Hw as [Ha Hw]. rewrite str_app_cons. cbn [split_on]. by rewrite Ha, IH.
Qed.

Lemma skip_while_app p a b : str_all p a = true -> skip_while p (a +:+ b) = skip_while p b.
Proof.
  induction a as [|c a IH]; [done|]. cbn [str_all]. intros [Hc Ha]%andb_true_iff. rewrite str_app_cons. cbn [skip_while].
  rewrite Hc. by apply IH.
Qed.
Lemma skip_while_split p s : exists a, str_all p a = true /\ s = a +:+ skip_while p s.
Proof.
  induction s as [|c s (a & Ha & E)]; [by exists ""|]. cbn [skip_while]. destruct (p c) eqn:Hc.
  - exists (String c a). cbn [str_all]. rewrite Hc, str_app_cons. by split; [|rewrite <- E].
  - by exists "".
Qed.

(** [s.lines()]: split at line feeds, a carriage return before one dropped,
    no last empty line. *)
Definition chomp (l : string) : string := default l (strip_suffix (String (Ascii.ascii_of_nat 13) "") l).
Definition lines (s : string) : list string :=
  let parts := split_on (Ascii.ascii_of_nat 10) s in
  match last parts with
  | Some EmptyString => map chomp (removelast parts)
  | _ => map chomp (removelast parts) ++ option_list (last parts)
  end.

(** ** Decimal printing *)

Definition show_u (n : Z) : string := NilEmpty.string_of_uint (N.to_uint (Z.to_N n)).

(** The value of digits after a prefix of value [acc]. *)
Fixpoint uint_val (acc : Z) (d : Decimal.uint) : Z :=
  match d with
  | Decimal.Nil => acc
  | Decimal.D0 d => uint_val (acc * 10) d
  | Decimal.D1 d => uint_val (acc * 10 + 1) d
  | Decimal.D2 d => uint_val (acc * 10 + 2) d
  | Decimal.D3 d => uint_val (acc * 10 + 3) d
  | Decimal.D4 d => uint_val (acc * 10 + 4) d
  | Decimal.D5 d => uint_val (acc * 10 + 5) d
  | Decimal.D6 d => uint_val (acc * 10 + 6) d
  | Decimal.D7 d => uint_val (acc * 10 + 7) d
  | Decimal.D8 d => uint_val (acc * 10 + 8) d
  | Decimal.D9 d => uint_val (acc * 10 + 9) d
  end.

Lemma uint_val_pos d acc : uint_val (Zpos acc) d = Zpos (Pos.of_uint_acc d acc).
Proof.
  revert acc. induction d as [|d IH|d IH|d IH|d IH|d IH|d IH|d IH|d IH|d IH|d IH]; intros acc;
    cbn [uint_val Pos.of_uint_acc]; [done|..]; rewrite <- IH; f_equal; lia.
Qed.

Lemma uint_val_N d : uint_val 0 d = Z.of_N (N.of_uint d).
Proof.
  unfold N.of_uint. induction d as [|d IH|d IH|d IH|d IH|d IH|d IH|d IH|d IH|d IH|d IH];
    cbn [uint_val Pos.of_uint]; [done|exact IH|..]; apply uint_val_pos.
Qed.

Lemma span_string_of_uint d r acc count :
  (forall c s, r = String c s -> digit_value c = None) ->
  span_digits (NilEmpty.string_of_uint d +:+ r) acc count
    = (uint_val acc d, count + Z.of_nat (String.length (NilEmpty.string_of_uint d)), r).
Proof.
  intros Hr. revert acc count. induction d as [|d IH|d IH|d IH|d IH|d IH|d IH|d IH|d IH|d IH|d IH];
    intros acc count.
  { cbn [NilEmpty.string_of_uint]. rewrite str_nil_app. simpl.
    destruct r as [|c s]; simpl; [|rewrite (Hr c s eq_refl)]; do 2 f_equal; lia. }
  all: cbn [NilEmpty.string_of_uint]; rewrite str_app_cons; cbn [span_digits uint_val String.length].
  all: match goal with |- context [digit_value ?c] =>
    let v := eval vm_compute in (digit_value c) in change (digit_value c) with v end.
  all: cbv match; rewrite IH; f_equal; f_equal; try lia; f_equal; lia.
Qed.

Lemma show_u_digits n : 0 <= n -> exists k, 0 < k /\
  forall r, (forall c s, r = String c s -> digit_value c = None) ->
  span_digits (show_u n +:+ r) 0 0 = (n, k, r).
Proof.
  intros Hn. exists (Z.of_nat (String.length (show_u n))). split.
  - unfold show_u. destruct (N.to_uint (Z.to_N n)) eqn:E; simpl; try lia.
    destruct (Z.to_N n) as [|p]; [done|]. apply (f_equal N.of_uint) in E.
    by rewrite DecimalN.Unsigned.of_to in E.
  - intros r Hr. unfold show_u. rewrite span_string_of_uint by done.
    rewrite uint_val_N, DecimalN.Unsigned.of_to, Z2N.id by done. done.
Qed.

(** A number below a power of ten prints in as many digits at most. *)
Lemma uint_val_least d : forall acc, 0 <= acc -> acc * 10 ^ Z.of_nat (String.length (NilEmpty.string_of_uint d)) <= uint_val acc d.
Proof.
  induction d as [|d IH|d IH|d IH|d IH|d IH|d IH|d IH|d IH|d IH|d IH]; intros acc Ha; cbn [uint_val NilEmpty.string_of_uint String.length];
    [cbn; lia|..].
  all: rewrite Nat2Z.inj_succ, Z.pow_succ_r by lia; set (k := 10 ^ _) in *;
    assert (0 <= k) as Hk by (apply Z.pow_nonneg; lia).
  all: etransitivity; [|apply IH; lia]; fold k; nia.
Qed.

Lemma show_u_length n k : 0 <= n < 10 ^ Z.of_nat k -> (1 <= k)%nat -> (String.length (show_u n) <= k)%nat.
Proof.
  intros Hn Hk. unfold show_u. set (d := N.to_uint (Z.to_N n)).
  assert (Decimal.unorm d = d) as Hu by (unfold d; by rewrite <- DecimalN.Unsigned.to_of, DecimalN.Unsigned.of_to).
  assert (uint_val 0 d = n) as Hv by (rewrite uint_val_N; unfold d; rewrite DecimalN.Unsigned.of_to; lia).
  destruct (Decimal.nzhead d) as [|d'|d'|d'|d'|d'|d'|d'|d'|d'|d'] eqn:Ez; unfold Decimal.unorm in Hu; rewrite Ez in Hu;
    [rewrite <- Hu; cbn; lia|by destruct (DecimalFacts.nzhead_nonzero _ _ Ez)|..].
  all: rewrite <- Hu in Hv |- *; cbn [uint_val NilEmpty.string_of_uint String.length] in Hv |- *.
  all: match type of Hv with uint_val ?a _ = _ => pose proof (uint_val_least d' a ltac:(lia)) as Hl end;
    set (m := String.length _) in *; destruct (decide (S m <= k)%nat); [done|exfalso];
    assert (10 ^ Z.of_nat k <= 10 ^ Z.of_nat m) by (apply Z.pow_le_mono_r; lia); nia.
Qed.

(** A printed number starts with a digit, and holds nothing else. *)
Lemma string_of_uint_digits d : str_all (fun c => bool_decide (is_Some (digit_value c))) (NilEmpty.string_of_uint d) = true.
Proof. induction d; simpl; [done|..]; by rewrite IHd. Qed.

Lemma show_u_all_digits n : str_all (fun c => bool_decide (is_Some (digit_value c))) (show_u n) = true.
Proof. apply string_of_uint_digits. Qed.

Lemma str_all_impl (p q : ascii -> bool) s :
  (forall c, p c = true -> q c = true) -> str_all p s = true -> str_all q s = true.
Proof.
  intros Hpq. induction s as [|c s IH]; simpl; [done|].
  intros [Hc Hs]%andb_true_iff. by rewrite (Hpq c Hc), IH.
Qed.

Lemma digit_not_ws c : bool_decide (is_Some (digit_value c)) = true -> negb (is_ws c) = true.
Proof. destruct c as [[] [] [] [] [] [] [] []]; vm_compute; congruence. Qed.

Lemma show_u_take_sign n r : 0 <= n -> take_sign (show_u n +:+ r) = (false, show_u n +:+ r).
Proof.
  intros Hn. destruct (show_u_digits n Hn) as (k & Hk & Hd).
  pose proof (show_u_all_digits n) as Ha. specialize (Hd "" ltac:(done)).
  destruct (show_u n) as [|c s]; simpl in *; [injection Hd; lia|].
  apply andb_true_iff in Ha as [Hc _]. revert Hc. clear.
  destruct c as [[] [] [] [] [] [] [] []]; vm_compute; congruence.
Qed.

Lemma digits_only_show n : 0 <= n -> digits_only (show_u n) = Some n.
Proof.
  intros Hn. destruct (show_u_digits n Hn) as (k & Hk & Hd). unfold digits_only.
  specialize (Hd "" ltac:(done)). rewrite str_app_nil in Hd. rewrite Hd.
  by rewrite (proj2 (Z.eqb_neq k 0)) by lia.
Qed.

Lemma parse_u_show (max n : Z) : 0 <= n <= max ->
  (let '(neg, r) := take_sign (show_u n) in
   if neg : bool then None else opt_filter (fun v => v <=? max) (digits_only r)) = Some n.
Proof.
  intros Hn. pose proof (show_u_take_sign n "" ltac:(lia)) as Hs. rewrite str_app_nil in Hs.
  rewrite Hs, digits_only_show by lia. simpl. by rewrite (proj2 (Z.leb_le n max)) by lia.
Qed.

Lemma parse_u32_show n : 0 <= n <= U32_MAX -> parse_u32_std (show_u n) = Some n.
Proof. apply parse_u_show. Qed.
Lemma parse_u64_show n : 0 <= n <= U64_MAX -> parse_u64_std (show_u n) = Some n.
Proof. apply parse_u_show. Qed.

(** [parse::<u128>] *)
Definition U128_MAX : Z := 340282366920938463463374607431768211455.
Definition parse_u128_std (s : string) : option Z :=
  let '(neg, r) := take_sign s in
  if neg : bool then None
  else opt_filter (fun v => v <=? U128_MAX) (digits_only r).
Lemma parse_u128_show n : 0 <= n <= U128_MAX -> parse_u128_std (show_u n) = Some n.
Proof. apply parse_u_show. Qed.

Lemma show_u_word n : 0 <= n -> is_word (show_u n) = true.
Proof.
  intros Hn. unfold is_word. apply andb_true_iff. split.
  - destruct (show_u_digits n Hn) as (k & Hk & Hd). specialize (Hd "" ltac:(done)).
    destruct (show_u n); [simpl in Hd; injection Hd; lia|done].
  - eapply str_all_impl; [apply digit_not_ws|apply show_u_all_digits].
Qed.

#[export] Hint Resolve show_u_word parse_u32_show parse_u64_show parse_u128_show : zoder.

Lemma span_digits_nonneg s acc count : 0 <= acc -> 0 <= (span_digits s acc count).1.1.
Proof.
  revert acc count. induction s as [|c s IH]; intros acc count Ha; simpl; [done|].
  destruct (digit_value c) as [d|] eqn:E; [|done]. apply IH.
  unfold digit_value in E. case_match eqn:H; simplify_eq. apply andb_true_iff in H. lia.
Qed.

Lemma digits_only_nonneg s v : digits_only s = Some v -> 0 <= v.
Proof.
  unfold digits_only. pose proof (span_digits_nonneg s 0 0 ltac:(done)) as H.
  destruct (span_digits s 0 0) as [[v' n] [|]]; simpl in H; [|done]. case_match; [done|]. by intros [= <-].
Qed.

Lemma digits_all (p : ascii -> bool) n :
  (forall c, is_ascii_digit c = true -> p c = true) -> str_all p (show_u n) = true.
Proof. intros Hp. eapply str_all_impl; [|apply show_u_all_digits]. intros c Hc. by apply Hp. Qed.
Lemma parse_u64_nonneg s v : parse_u64_std s = Some v -> 0 <= v.
Proof.
  unfold parse_u64_std. destruct (take_sign s) as [neg r]. destruct neg; [done|].
  intros [H _]%opt_filter_Some. by apply digits_only_nonneg in H.
Qed.
Lemma no_char_in_digits c n : is_ascii_digit c = false -> str_has c (show_u n) = false.
Proof.
  intros Hc. pose proof (show_u_all_digits n) as Ha. induction (show_u n) as [|d s IH]; [done|].
  cbn [str_has str_all] in *. apply andb_true_iff in Ha as [Hd Ha]. rewrite (IH Ha), orb_false_r.
  destruct (Ascii.eqb d c) eqn:E; [|done]. apply Ascii.eqb_eq in E as ->. unfold is_ascii_digit in Hc. congruence.
Qed.

(** Pieces put together. *)
Lemma join_cons w v : join "" (w :: v) = w +:+ join "" v.
Proof. destruct v as [|x v]; [by rewrite str_app_nil|]. cbn [join]. by rewrite str_nil_app. Qed.
Lemma join_app u v : join "" (u ++ v) = join "" u +:+ join "" v.
Proof.
  induction u as [|x u IH]; [by rewrite str_nil_app|]. cbn [app]. by rewrite !join_cons, IH, str_app_assoc.
Qed.
Lemma join_piece x l : x ∈ l -> exists a b, join "" l = a +:+ x +:+ b.
Proof.
  intros (u & v & ->)%list_elem_of_split. exists (join "" u), (join "" v). by rewrite join_app, join_cons.
Qed.

(** ** Splitting by a text or by a class of characters *)

(** [s.split_once(sep)] *)
Fixpoint split_once_str (sep s : string) : option (string * string) :=
  match strip_prefix sep s with
  | Some r => Some (""%string, r)
  | None => match s with
            | String c r => match split_once_str sep r with Some (a, b) => Some (String c a, b) | None => None end
            | EmptyString => None
            end
  end.

(** [s.replace(needle, to)] of a needle that is not empty; [skip] bytes belong
    to the occurrence just replaced. *)
Fixpoint replace_from (skip : nat) (needle to s : string) : string :=
  match s with
  | EmptyString => EmptyString
  | String c r =>
      match skip with
      | S k => replace_from k needle to r
      | O => if starts_with needle s then to +:+ replace_from (String.length needle - 1) needle to r
             else String c (replace_from 0 needle to r)
      end
  end.
Definition str_replace (needle to s : string) : string := replace_from 0 needle to s.

(** [s.split(p)] and, without the empty pieces, its words. *)
Fixpoint split_where (p : ascii -> bool) (s : string) : list string :=
  match s with
  | EmptyString => [EmptyString]
  | String c r =>
      if p c then EmptyString :: split_where p r
      else match split_where p r with
           | w :: ws => String c w :: ws
           | [] => [String c EmptyString]
           end
  end.
Definition non_empty (w : string) : bool := negb (str_is_empty w).
Definition words_where (p : ascii -> bool) (s : string) : list string :=
  filterb non_empty (split_where (fun c => negb (p c)) s).
Definition ident_byte (c : ascii) : bool := is_ascii_alphanumeric c || Ascii.eqb c "_".

(** [s.chars()] of a text in UTF-8: a byte that continues a character has its
    two high bits 10. *)
Definition char_start (c : ascii) : bool :=
  let n := Ascii.nat_of_ascii c in (n <? 128)%nat || (192 <=? n)%nat.
Fixpoint char_count (s : string) : nat :=
  match s with
  | EmptyString => 0
  | String c r => if char_start c then S (char_count r) else char_count r
  end.
Fixpoint chars_take (n : nat) (s : string) : string :=
  match s with
  | EmptyString => EmptyString
  | String c r =>
      if char_start c then match n with O => EmptyString | S n => String c (chars_take n r) end
      else String c (chars_take n r)
  end.

(** The last byte, for [s.ends_with] of a set of characters. *)
Fixpoint str_last (s : string) : option ascii :=
  match s with
  | EmptyString => None
  | String c EmptyString => Some c
  | String _ r => str_last r
  end.
Definition char_in (l : list ascii) (c : ascii) : bool := existsb (Ascii.eqb c) l.
Definition starts_in (l : list ascii) (s : string) : bool := match s with String c _ => char_in l c | EmptyString => false end.
Definition ends_in (l : list ascii) (s : string) : bool := match str_last s with Some c => char_in l c | None => false end.

Lemma split_once_str_Some sep s a b : split_once_str sep s = Some (a, b) -> s = a +:+ sep +:+ b.
Proof.
  revert a. induction s as [|c s IH]; intros a; cbn [split_once_str]; destruct (strip_prefix sep _) as [r|] eqn:E.
  1,3: intros [= <- <-]; apply strip_prefix_Some in E; by rewrite str_nil_app.
  - done.
  - destruct (split_once_str sep s) as [[x y]|] eqn:Es; [|done]. intros [= <- <-]. by rewrite str_app_cons, <- (IH x).
Qed.

Lemma words_where_class p s w : w ∈ words_where p s -> w <> ""%string /\ str_all p w = true.
Proof.
  unfold words_where. rewrite elem_of_filterb. intros [Hn Hw]. split; [by destruct w|]. revert w Hn Hw.
  induction s as [|c s IH]; intros w Hn; cbn [split_where].
  { intros ->%list_elem_of_singleton. done. }
  destruct (p c) eqn:Hp; cbn.
  - destruct (split_where _ s) as [|x l] eqn:E; [intros ->%list_elem_of_singleton; cbn; by rewrite Hp|].
    intros [->|H]%elem_of_cons; [|apply IH; [done|by right]]. cbn [str_all]. rewrite Hp.
    destruct x as [|d x]; [done|]. apply IH; [done|by left].
  - intros [->|?]%elem_of_cons; [done|by apply IH].
Qed.

(** [s.split(sep)] and [s.trim_end_matches(sep)] of a text that is not empty;
    every round shortens the rest. *)
Fixpoint split_str_from (fuel : nat) (sep s : string) : list string :=
  match fuel, split_once_str sep s with
  | S fuel, Some (a, b) => a :: split_str_from fuel sep b
  | _, _ => [s]
  end.
Definition split_str (sep s : string) : list string := split_str_from (String.length s) sep s.
Fixpoint trim_end_str_from (fuel : nat) (suffix s : string) : string :=
  match fuel, strip_suffix suffix s with
  | S fuel, Some r => trim_end_str_from fuel suffix r
  | _, _ => s
  end.
Definition trim_end_str (suffix s : string) : string := trim_end_str_from (String.length s) suffix s.
Fixpoint trim_start_str_from (fuel : nat) (prefix s : string) : string :=
  match fuel, strip_prefix prefix s with
  | S fuel, Some r => trim_start_str_from fuel prefix r
  | _, _ => s
  end.
Definition trim_start_str (prefix s : string) : string := trim_start_str_from (String.length s) prefix s.

(** ** Lines and edges of a text put together *)

Lemma trim_end_app a b : trim_end b <> ""%string -> trim_end (a +:+ b) = a +:+ trim_end b.
Proof.
  intros Hb. induction a as [|c a IH]; [done|]. rewrite !str_app_cons. cbn [trim_end]. rewrite IH.
  rewrite str_is_empty_app. destruct (trim_end b) as [|x y]; [done|]. by rewrite !andb_false_r.
Qed.
Lemma trim_end_length s : (String.length (trim_end s) <= String.length s)%nat.
Proof. induction s as [|c s IH]; [done|]. cbn [trim_end]. case_match; cbn; lia. Qed.
Lemma trim_start_length s : (String.length (trim_start s) <= String.length s)%nat.
Proof. induction s as [|c s IH]; [done|]. cbn [trim_start]. case_match; cbn; lia. Qed.
Lemma trim_end_blank r c : is_ws c = true -> trim_end (r +:+ String c "") = trim_end r.
Proof.
  intros Hc. induction r as [|d r IH].
  - rewrite str_nil_app. cbn [trim_end str_is_empty]. by rewrite Hc.
  - rewrite str_app_cons. cbn [trim_end]. by rewrite IH.
Qed.

(** A trimmed text keeps its edges. *)
Definition trimmed (s : string) : Prop := trim_start s = s /\ trim_end s = s.
Lemma trimmed_trim s : trimmed s <-> trim s = s.
Proof.
  unfold trim. split; [by intros [-> ->]|]. intros H. pose proof (trim_end_length (trim_start s)) as H1. pose proof (trim_start_length s) as H2.
  rewrite H in H1. assert (Hs : trim_start s = s).
  { clear H. induction s as [|c s IH]; [done|]. cbn [trim_start] in *. destruct (is_ws c); [|done]. cbn in *.
    pose proof (trim_start_length s). lia. }
  split; [done|]. by rewrite <- Hs at 1.
Qed.
Lemma chomp_trimmed s : trimmed s -> chomp s = s.
Proof.
  intros [_ H]. unfold chomp. destruct (strip_suffix _ s) as [r|] eqn:E; [|done]. apply strip_suffix_Some in E as ->.
  rewrite trim_end_blank in H by done. pose proof (trim_end_length r) as Hl. rewrite H, str_length_app in Hl. cbn in Hl. lia.
Qed.
Lemma trimmed_app a b : a <> ""%string -> trim_start a = a -> b <> ""%string -> trim_end b = b -> trimmed (a +:+ b).
Proof.
  intros Ha Hs Hb He. split.
  - destruct a as [|c a]; [done|]. rewrite str_app_cons. cbn [trim_start] in *. destruct (is_ws c); [|done].
    pose proof (trim_start_length a) as Hl. rewrite Hs in Hl. cbn in Hl. lia.
  - rewrite trim_end_app by congruence. by rewrite He.
Qed.
Lemma trim_blank_left c s : is_ws c = true -> trim (String c s) = trim s.
Proof. intros Hc. unfold trim. cbn [trim_start]. by rewrite Hc. Qed.

Lemma trim_end_word s : str_all (fun c => negb (is_ws c)) s = true -> trim_end s = s.
Proof.
  induction s as [|c s IH]; simpl; [done|]. intros [Hc Ha]%andb_true_iff.
  apply negb_true_iff in Hc. by rewrite Hc, (IH Ha).
Qed.
Lemma trim_word s : str_all (fun c => negb (is_ws c)) s = true -> trim s = s.
Proof.
  intros Ha. unfold trim. destruct s as [|c s]; [done|].
  pose proof Ha as Hb. simpl in Hb. apply andb_true_iff in Hb as [Hc _]. apply negb_true_iff in Hc.
  cbn [trim_start]. rewrite Hc. by apply trim_end_word.
Qed.
Lemma trim_empty s : trim s = ""%string -> trim_end s = ""%string.
Proof.
  induction s as [|c r IH]; [done|]. unfold trim in *. cbn [trim_start]. destruct (is_ws c) eqn:Hc.
  - intros H. cbn [trim_end]. by rewrite IH, Hc.
  - by rewrite trim_end_ws.
Qed.

(** [lines] of lines that were each ended by a line feed. *)
Definition end_lines (ls : list string) : string := foldr (fun l r => l +:+ String newline r) "" ls.
Lemma lines_end_lines ls : Forall (fun l => str_has newline l = false) ls -> lines (end_lines ls) = map chomp ls.
Proof.
  intros Hl. assert (Hs : split_on newline (end_lines ls) = ls ++ [""]).
  { induction Hl as [|l ls Hn Hl IH]; [done|]. cbn [end_lines foldr app]. rewrite split_on_app by done. f_equal. apply IH. }
  unfold lines. change (Ascii.ascii_of_nat 10) with newline. rewrite Hs, last_snoc, removelast_last. done.
Qed.
Lemma str_has_app c a b : str_has c (a +:+ b) = str_has c a || str_has c b.
Proof. induction a as [|d a IH]; [done|]. rewrite str_app_cons. cbn [str_has]. by rewrite IH, orb_assoc. Qed.

(** ** The last byte *)

Lemma str_last_some c s : exists d, str_last (String c s) = Some d.
Proof. revert c. induction s as [|d s IH]; intros c; [by exists c|]. apply IH. Qed.
Lemma str_last_or c s prev : or_opt (str_last (String c s)) prev = or_opt (str_last s) (Some c).
Proof.
  destruct s as [|d s]; [done|]. change (str_last (String c (String d s))) with (str_last (String d s)).
  by destruct (str_last_some d s) as [x ->].
Qed.
