(* ===== verification/Json.v ===== *)
(** JSON values as serde_json holds them, and the accessors the sources use.

    An object is the list of its entries; the codec keeps one entry per key, so
    a lookup that returns the first is the lookup of the map.  Parsing and
    printing are the codec's and are parameters where they are used. *)
From S2P Require Import Prelude.
Local Open Scope string_scope.
Local Open Scope Z_scope.
Local Open Scope list_scope.

(** A number keeps what [value_as_u64]/[value_as_i64] can read of it: its integer value, or
    nothing when it is a fraction or out of range. *)
Inductive Value :=
  | Null
  | Bool (b : bool)
  | Number (n : option Z)
  | Str (s : string)
  | Array (l : list Value)
  | Object (entries : list (string * Value)).

Fixpoint assoc (k : string) (l : list (string * Value)) : option Value :=
  match l with
  | [] => None
  | (k', v) :: r => if bool_decide (k = k') then Some v else assoc k r
  end.

(** [Value::get] with a string index, and the typed views. *)
Definition value_get (v : Value) (k : string) : option Value :=
  match v with Object l => assoc k l | _ => None end.
Definition value_as_str (v : Value) : option string :=
  match v with Str s => Some s | _ => None end.
Definition value_as_bool (v : Value) : option bool :=
  match v with Bool b => Some b | _ => None end.
Definition value_as_array (v : Value) : option (list Value) :=
  match v with Array l => Some l | _ => None end.
Definition value_as_object (v : Value) : option (list (string * Value)) :=
  match v with Object l => Some l | _ => None end.
Definition value_as_i64 (v : Value) : option Z :=
  match v with
  | Number (Some n) => if bool_decide (I64_MIN <= n <= I64_MAX) then Some n else None
  | _ => None
  end.
Definition value_as_u64 (v : Value) : option Z :=
  match v with
  | Number (Some n) => if bool_decide (0 <= n <= U64_MAX) then Some n else None
  | _ => None
  end.

(** [v.get(k).and_then(Value::as_str)] *)
Definition value_get_str (v : Value) (k : string) : option string := value_get v k ≫= value_as_str.

Lemma assoc_elem k l v : assoc k l = Some v -> (k, v) ∈ l.
Proof.
  induction l as [|[k' v'] l IH]; cbn; [done|]. case_bool_decide; intros; simplify_eq; [by left | right; auto].
Qed.

Lemma get_str_Some v k s : value_get_str v k = Some s <-> value_get v k = Some (Str s).
Proof. unfold value_get_str. destruct (value_get v k) as [[]|]; cbn; naive_solver. Qed.
