(* ===== verification/Paths.v ===== *)
(** Paths and the tree they are walked in: the parts of std::path and
    std::fs the containment check of acp-client/src/lib.rs rests on.

    The tree is the file system of one moment, keyed by the names below the
    root; walking a path follows path_resolution(7), symbolic links included,
    with the kernel's bound on their number. *)
From S2P Require Import Prelude Text.
Local Open Scope string_scope.
Local Open Scope list_scope.

(** ** The tree *)

(** A directory is searchable when names below it may be looked up. *)
Inductive Node := Dir (searchable : bool) | File | Link (target : string).

Notation Tree := (gmap (list string) Node).

Definition node (t : Tree) (p : list string) : option Node :=
  match p with [] => Some (Dir true) | _ => t !! p end.

Definition is_dir (t : Tree) (p : list string) : bool :=
  match node t p with Some (Dir _) => true | _ => false end.

Definition enterable (t : Tree) (p : list string) : bool :=
  match node t p with Some (Dir true) => true | _ => false end.

(** Links a walk may follow before it fails with [ELOOP]. *)
Definition MAXSYMLINKS : nat := 40.

Definition has_root (p : string) : bool := starts_with "/" p.

Definition start_at (cur : list string) (p : string) : list string :=
  if has_root p then [] else cur.

(** The walk of the segments of a path from a directory: the place it ends at
    and the links still allowed.  With [creat] a missing last name is the place
    where [open(O_CREAT)] makes the file. *)
Fixpoint namei (t : Tree) (creat : bool) (links : nat) : list string -> list string -> option (list string * nat) :=
  fix go cur segs :=
    match segs with
    | [] => Some (cur, links)
    | seg :: r =>
        if bool_decide (seg = "") then if is_dir t cur then go cur r else None
        else if enterable t cur then
          if bool_decide (seg = ".") then go cur r
          else if bool_decide (seg = "..") then go (removelast cur) r
          else
            match node t (cur ++ [seg]) with
            | Some (Link d) =>
                match links with
                | O => None
                | S l => namei t creat l (start_at cur d) (split_on "/" d ++ r)
                end
            | Some _ => go (cur ++ [seg]) r
            | None => if creat && bool_decide (r = []) then Some (cur ++ [seg], links) else None
            end
        else None
    end.

Definition walk (t : Tree) (creat : bool) (cwd : list string) (p : string) : option (list string) :=
  if str_is_empty p then None
  else fst <$> namei t creat MAXSYMLINKS (start_at cwd p) (split_on "/" p).

(** [std::fs::canonicalize] and [Path::exists] *)
Definition canonicalize (t : Tree) (cwd : list string) (p : string) : option (list string) := walk t false cwd p.
Definition path_exists (t : Tree) (cwd : list string) (p : string) : bool :=
  bool_decide (is_Some (canonicalize t cwd p)).

(** Where a process with the working directory [cwd] writes when it opens the
    path for writing and creation. *)
Definition lands_at (t : Tree) (cwd : list string) (p : string) : option (list string) := walk t true cwd p.

(** ** Components *)

Inductive Component := RootDir | CurDir | ParentDir | Normal (name : string).

#[export] Instance component_eq_dec : EqDecision Component.
Proof. solve_decision. Defined.

Definition noop_seg (s : string) : bool := bool_decide (s = "") || bool_decide (s = ".").

Definition comp_of (s : string) : Component := if bool_decide (s = "..") then ParentDir else Normal s.

(** A component as the segment of a path's text; the root is the empty one
    before the first slash. *)
Definition comp_seg (c : Component) : string :=
  match c with RootDir => "" | CurDir => "." | ParentDir => ".." | Normal n => n end.

Definition body_segs (p : string) : list string := filterb (fun s => negb (noop_seg s)) (split_on "/" p).

(** [Path::components] *)
Definition std_components (p : string) : list Component :=
  (if has_root p then [RootDir]
   else match split_on "/" p with "." :: _ => [CurDir] | _ => [] end) ++ map comp_of (body_segs p).

(** [std::path::absolute], as its components. *)
Definition absolute (t : Tree) (cwd : list string) (p : string) : option (list Component) :=
  if str_is_empty p then None
  else if has_root p then Some (RootDir :: map comp_of (body_segs p))
  else if is_dir t cwd then Some (RootDir :: map Normal cwd ++ map comp_of (body_segs p))
  else None.

(** A path built from components, looked up. *)
Definition canonicalize_comps (t : Tree) (cs : list Component) : option (list string) :=
  fst <$> namei t false MAXSYMLINKS [] (map comp_seg cs).

(** ** The walk's equations *)

Lemma namei_nil t c l cur : namei t c l cur [] = Some (cur, l).
Proof. by destruct l. Qed.

Lemma namei_cons t c l cur seg r :
  namei t c l cur (seg :: r) =
  if bool_decide (seg = "") then if is_dir t cur then namei t c l cur r else None
  else if enterable t cur then
    if bool_decide (seg = ".") then namei t c l cur r
    else if bool_decide (seg = "..") then namei t c l (removelast cur) r
    else
      match node t (cur ++ [seg]) with
      | Some (Link d) =>
          match l with
          | O => None
          | S l => namei t c l (start_at cur d) (split_on "/" d ++ r)
          end
      | Some _ => namei t c l (cur ++ [seg]) r
      | None => if c && bool_decide (r = []) then Some (cur ++ [seg], l) else None
      end
  else None.
Proof. by destruct l. Qed.

(** A property of walks by the links left, then by the segments. *)
Lemma namei_ind (P : nat -> list string -> list string -> Prop) :
  (forall l cur, P l cur []) ->
  (forall l cur seg r,
     (forall l' cur' segs', (l' < l)%nat -> P l' cur' segs') -> (forall cur', P l cur' r) -> P l cur (seg :: r)) ->
  forall l cur segs, P l cur segs.
Proof.
  intros Hn Hc l. induction l as [l IHl] using lt_wf_ind. intros cur segs. revert cur.
  induction segs as [|s r IHr]; intros cur; auto.
Qed.

(** The directory tests of one step. *)
Ltac enter :=
  match goal with
  | _ : context [is_dir ?t ?c] |- _ => destruct (is_dir t c); try done
  | _ : context [enterable ?t ?c] |- _ => destruct (enterable t c); try done
  | |- context [is_dir ?t ?c] => destruct (is_dir t c); try done
  | |- context [enterable ?t ?c] => destruct (enterable t c); try done
  end.

(** A walk is the walk of its front followed by the walk of its rest. *)
Lemma namei_app t c l cur a b : b <> [] ->
  namei t c l cur (a ++ b) = namei t false l cur a ≫= fun '(d, l') => namei t c l' d b.
Proof.
  intros Hb. revert l cur a. apply (namei_ind (fun l cur a => namei t c l cur (a ++ b) = _)).
  - intros l cur. by rewrite namei_nil.
  - intros l cur seg r IHl IHr. cbn [app]. rewrite !namei_cons.
    repeat case_bool_decide; try (by destruct r).
    all: enter; auto.
    all: destruct (node t (cur ++ [seg])) as [[| |d]|]; auto.
    all: try (cbn; by rewrite andb_false_r).
    all: destruct l as [|l]; [done|]; rewrite app_assoc; apply IHl; lia.
Qed.

(** Without creation a walk that succeeds is also the walk with it. *)
Lemma namei_creat t l cur s x : namei t false l cur s = Some x -> namei t true l cur s = Some x.
Proof.
  revert l cur s. apply (namei_ind (fun l cur s => namei t false l cur s = Some x -> _)).
  - intros l cur. by rewrite !namei_nil.
  - intros l cur seg r IHl IHr. rewrite !namei_cons. repeat case_bool_decide; try done.
    all: enter; auto.
    all: destruct (node t (cur ++ [seg])) as [[| |d]|]; auto; try done.
    all: destruct l as [|l]; [done|]; apply IHl; lia.
Qed.

(** *** Segments that name the directory itself *)

Inductive thin : list string -> list string -> Prop :=
  | thin_nil : thin [] []
  | thin_keep s a b : thin a b -> thin (s :: a) (s :: b)
  | thin_drop s a b : noop_seg s = true -> thin a b -> thin (s :: a) b.

Lemma thin_refl a : thin a a.
Proof. induction a; by constructor. Qed.

Lemma thin_app u a b : thin a b -> thin (u ++ a) (u ++ b).
Proof. induction u; cbn; [done|]. intros. constructor. auto. Qed.

Lemma thin_body p : thin (split_on "/" p) (body_segs p).
Proof.
  unfold body_segs. induction (split_on "/" p) as [|s r IH]; cbn; [constructor|].
  destruct (noop_seg s) eqn:E; cbn; by constructor.
Qed.

Lemma noop_cases s : noop_seg s = true -> s = "" \/ s = ".".
Proof. unfold noop_seg. rewrite orb_true_iff, !bool_decide_eq_true; auto. Qed.

(** Leaving such segments out keeps a successful walk. *)
Lemma namei_thin t c l cur a x :
  namei t c l cur a = Some x -> forall b, thin a b -> namei t c l cur b = Some x.
Proof.
  revert l cur a. apply (namei_ind (fun l cur a => namei t c l cur a = Some x -> forall b, thin a b -> namei t c l cur b = Some x)).
  - intros l cur Hw b Hb. inversion Hb; by subst.
  - intros l cur seg r IHl IHr Hw b Hb. rewrite namei_cons in Hw. inversion Hb as [|? ? b' Hr|? ? ? Hs Hr]; subst.
    + rewrite namei_cons. repeat case_bool_decide; try done.
      all: enter; eauto.
      all: destruct (node t (cur ++ [seg])) as [[| |d]|]; eauto; try (by rewrite ?andb_false_r in Hw).
      all: try (destruct l as [|l]; [done|]; eapply IHl; [lia|exact Hw|by apply thin_app]).
      by inversion Hr; subst.
    + apply IHr; [|done]. destruct (noop_cases _ Hs) as [->| ->].
      * rewrite bool_decide_true in Hw by done. by destruct (is_dir t cur).
      * rewrite bool_decide_false in Hw by done. rewrite bool_decide_true in Hw by done. by destruct (enterable t cur).
Qed.
