(* ===== verification/Approval.v ===== *)
(** Tool approvals of the engine client (acp-client/src/lib.rs): the policy a
    tool call is decided by, the containment of its target in the writable
    roots, the reply to a permission request, and the printed matrix of write
    tools; with the roots of main.rs that feed it.

    The file system is a tree of Paths.v.  A request is a JSON value; its
    decoding and the write of the reply's bytes are not modelled. *)
From S2P Require Import Prelude Text Json Paths.
Local Open Scope string_scope.
Local Open Scope list_scope.

(** ** The policy *)

Definition DEFAULT_AUTO_APPROVE : list string :=
  ["read"; "read_file"; "list_files"; "list"; "glob"; "grep"; "search"].

Inductive ApprovalPolicy := All | Allowlist | NoTools.

Inductive EngineKind := Zeroclaw | Goose.

#[export] Instance approval_policy_eq_dec : EqDecision ApprovalPolicy.
Proof. solve_decision. Defined.
#[export] Instance engine_kind_eq_dec : EqDecision EngineKind.
Proof. solve_decision. Defined.

Definition parse_engine_kind (s : string) : option EngineKind :=
  let k := to_ascii_lowercase (trim s) in
  if bool_decide (k = "zeroclaw") then Some Zeroclaw
  else if bool_decide (k = "goose") then Some Goose
  else None.

Inductive ToolKindCategory := KindRead | KindWrite | KindExec | KindOther.

#[export] Instance tool_kind_category_eq_dec : EqDecision ToolKindCategory.
Proof. solve_decision. Defined.

Definition acp_kind_category (kind : string) : option ToolKindCategory :=
  let k := to_ascii_lowercase (trim kind) in
  if str_is_empty k then None
  else Some (
    if bool_decide (k ∈ ["read"; "search"; "fetch"]) then KindRead
    else if bool_decide (k ∈ ["edit"; "delete"; "move"; "write"]) then KindWrite
    else if bool_decide (k ∈ ["execute"; "exec"]) then KindExec
    else KindOther).

Definition decide_approval (policy : ApprovalPolicy) (tool : string) : bool :=
  match policy with
  | All => true
  | NoTools => false
  | Allowlist =>
      let t := to_ascii_lowercase tool in
      existsb (fun a => bool_decide (t = a)) DEFAULT_AUTO_APPROVE
  end.

Definition decide_approval_categorized (policy : ApprovalPolicy) (tool : string)
    (category : option ToolKindCategory) : bool :=
  match policy with
  | All => true
  | NoTools => false
  | Allowlist =>
      match category with
      | Some KindRead => true
      | Some _ | None => decide_approval Allowlist tool
      end
  end.

(** ** Containment *)

Inductive ContainmentVerdict := Inside | Outside | Unknown.

#[export] Instance containment_verdict_eq_dec : EqDecision ContainmentVerdict.
Proof. solve_decision. Defined.

(** A canonical place as the components of its path. *)
Definition of_canon (p : list string) : list Component := RootDir :: map Normal p.

Definition normalize_step (stack : list Component) (c : Component) : list Component :=
  match c with
  | RootDir => [RootDir]
  | CurDir => stack
  | ParentDir =>
      let top_is_root_or_prefix := bool_decide (last stack = Some RootDir) in
      if negb top_is_root_or_prefix && bool_decide (1 < length stack)%nat then removelast stack
      else if bool_decide (stack = []) then [ParentDir]
      else stack
  | Normal name => stack ++ [Normal name]
  end.

Definition lexical_normalize (p : list Component) : list Component :=
  match fold_left normalize_step p [] with
  | [] => [CurDir]
  | stack => stack
  end.

(** The longest prefix that exists, tried from the longest. *)
Fixpoint best_split (t : Tree) (comps : list Component) (split : nat) : option nat :=
  match split with
  | O => None
  | S s =>
      if bool_decide (is_Some (canonicalize_comps t (take split comps))) then Some split
      else best_split t comps s
  end.

Section Containment.

(** The tree, and the directory of the process that decides. *)
Context (t : Tree) (cwd : list string).

Definition canonicalize_for_write (p : string) : option (list Component) :=
  if str_is_empty p then None
  else if path_exists t cwd p then of_canon <$> canonicalize t cwd p
  else
    abs ← absolute t cwd p;
    split ← best_split t abs (length abs);
    canon_prefix ← canonicalize_comps t (take split abs);
    Some (lexical_normalize (of_canon canon_prefix ++ drop split abs)).

Definition contains (target : list Component) (root : string) : bool :=
  match canonicalize t cwd root with
  | Some r => bool_decide (of_canon r `prefix_of` target)
  | None => false
  end.

Definition resolve_containment (target : string) (roots : list string) : ContainmentVerdict :=
  match canonicalize_for_write target with
  | None => Unknown
  | Some target_canon => if existsb (contains target_canon) roots then Inside else Outside
  end.

Definition path_within_roots (target : string) (roots : list string) : bool :=
  bool_decide (resolve_containment target roots = Inside).

End Containment.

(** ** The write tools of an engine *)

Definition ZEROCLAW_WRITE_TOOLS : list string := ["edit"; "write"; "apply_patch"; "shell"; "bash"].
Definition GOOSE_WRITE_TOOLS : list string := ["text_editor"; "write_file"].

Definition is_write_class_tool (engine : EngineKind) (tool : string) : bool :=
  let table := match engine with Zeroclaw => ZEROCLAW_WRITE_TOOLS | Goose => GOOSE_WRITE_TOOLS end in
  let needle := to_ascii_lowercase tool in
  existsb (fun x => bool_decide (needle = to_ascii_lowercase x)) table.

Fixpoint pick_string_field (params : Value) (candidates : list string) : option string :=
  match params with
  | Object obj =>
      match candidates with
      | [] => None
      | key :: rest =>
          match assoc key obj ≫= value_as_str with
          | Some s => if negb (str_is_empty s) then Some s else pick_string_field params rest
          | None => pick_string_field params rest
          end
      end
  | _ => None
  end.

Definition extract_write_target (engine : EngineKind) (tool : string) (params : Value) : option string :=
  let needle := to_ascii_lowercase tool in
  match engine with
  | Zeroclaw => None
  | Goose =>
      if bool_decide (needle = "text_editor") then pick_string_field params ["path"]
      else if bool_decide (needle = "write_file") then pick_string_field params ["file_path"; "path"]
      else None
  end.

Definition is_engine_known (engine : EngineKind) : bool :=
  match engine with Zeroclaw | Goose => true end.

(** Why a call was denied, as the line the operator reads. *)
Inductive DenyLine :=
  | UnknownEngine | NotInMatrix | MissingPath
  | ResolvesOutside (target : string) | Unresolvable (target : string).

Record ApprovalSettings := {
  policy : ApprovalPolicy;
  writable_roots : list string;
  enforce_writable_roots : bool;
  trust_engine : bool;
}.

Section Decision.

Context (t : Tree) (cwd : list string).

Definition is_write_call (engine : EngineKind) (tool : string) (category : option ToolKindCategory) : bool :=
  match category with
  | Some KindWrite => true
  | Some KindRead | Some KindExec => false
  | Some KindOther | None => is_write_class_tool engine tool
  end.

Definition shape_denial (engine : EngineKind) (tool : string) : DenyLine :=
  if negb (is_engine_known engine) then UnknownEngine
  else if negb (is_write_class_tool engine tool) then NotInMatrix
  else MissingPath.

(** The decision with the line it logs. *)
Definition decide_approval_with_containment (o : ApprovalSettings) (tool : string) (kind : option string)
    (params : Value) (engine : EngineKind) : bool * option DenyLine :=
  let category := kind ≫= acp_kind_category in
  let by_policy := decide_approval_categorized (policy o) tool category in
  if negb (enforce_writable_roots o) then (by_policy, None)
  else if negb (is_write_call engine tool category) then (by_policy, None)
  else
    match extract_write_target engine tool params with
    | None =>
        if negb (trust_engine o) then (false, Some (shape_denial engine tool))
        else (by_policy, None)
    | Some target =>
        match resolve_containment t cwd target (writable_roots o) with
        | Inside => (by_policy, None)
        | Outside => (false, Some (ResolvesOutside target))
        | Unknown => (false, Some (Unresolvable target))
        end
    end.

(** The zeroclaw daemon's [approval_request]: the request id, the tool, and the
    decision sent back. *)
Definition zeroclaw_approval (o : ApprovalSettings) (params : Value) : string * string * bool :=
  let req_id := default "" (value_get_str params "request_id") in
  let tool := default "" (value_get_str params "tool_name") in
  (req_id, tool, (decide_approval_with_containment o tool None params Zeroclaw).1).

(** Goose's [session/request_permission]. *)
Inductive PermissionOutcome := Selected (option_id : string) | Cancelled.

Fixpoint pick_by_kind (options : list Value) (kinds : list string) : option string :=
  match kinds with
  | [] => None
  | kind :: rest =>
      match find_first (fun o => bool_decide (value_get_str o "kind" = Some kind)) options with
      | Some opt => value_get_str opt "optionId"
      | None => pick_by_kind options rest
      end
  end.

Definition tool_call (req_params : Value) (field : string) : option Value :=
  value_get req_params "toolCall" ≫= fun tc => value_get tc field.

Definition permission_tool (req_params : Value) : string :=
  default "tool"
    (match tool_call req_params "title" ≫= value_as_str with
     | Some s => Some s
     | None => tool_call req_params "name" ≫= value_as_str
     end).

Definition permission_approved (o : ApprovalSettings) (req_params : Value) : bool :=
  (decide_approval_with_containment o (permission_tool req_params)
     (tool_call req_params "kind" ≫= value_as_str)
     (default (Object []) (tool_call req_params "rawInput")) Goose).1.

Definition permission_reply (o : ApprovalSettings) (req_params : Value) : PermissionOutcome :=
  let options := default [] (value_get req_params "options" ≫= value_as_array) in
  let outcome :=
    if permission_approved o req_params then
      match pick_by_kind options ["allow_once"; "allow_always"] with
      | Some id => Some id
      | None => head options ≫= fun o => value_get_str o "optionId"
      end
    else pick_by_kind options ["reject_once"; "reject_always"] in
  match outcome with
  | Some id => Selected id
  | None => Cancelled
  end.

End Decision.

(** ** The roots of a run (main.rs) *)

Inductive RootsError := CwdUnresolved | AddDirUnresolved (raw : string).

Section Roots.
Context (t : Tree) (proc : list string).

(** [-C DIR] or the process's directory. *)
Definition agentic_cwd (cd : option string) : option (list string) :=
  match cd with
  | Some d =>
      match canonicalize t proc d with
      | Some p => if is_dir t p then Some p else None
      | None => None
      end
  | None => if is_dir t proc then Some proc else None
  end.

(** The absolute path keeps a trailing slash, which only a directory has. *)
Definition resolve_root (p : string) : option (list string) :=
  abs ← absolute t proc p;
  canon ← canonicalize_comps t abs;
  if bool_decide (is_Some (strip_suffix "/" p)) && negb (is_dir t canon) then None else Some canon.

Fixpoint resolve_add_dirs (add_dir : list string) : result (list (list string)) RootsError :=
  match add_dir with
  | [] => Ok []
  | raw :: rest =>
      match resolve_root raw with
      | None => Err (AddDirUnresolved raw)
      | Some canon => result_bind (resolve_add_dirs rest) (fun roots => Ok (canon :: roots))
      end
  end.

Definition resolve_writable_roots (cwd : list string) (add_dir : list string) : result (list (list string)) RootsError :=
  match canonicalize_comps t (of_canon cwd) with
  | None => Err CwdUnresolved
  | Some cwd_canon => result_bind (resolve_add_dirs add_dir) (fun roots => Ok (cwd_canon :: roots))
  end.

End Roots.

(** [--approve] has three values. *)
Inductive ApprovalArg := ArgAll | ArgAllowlist | ArgNone.

Definition parse_approval (approve : option ApprovalArg) : ApprovalPolicy :=
  match approve with
  | Some ArgAll => All
  | Some ArgNone => NoTools
  | Some ArgAllowlist | None => Allowlist
  end.

(** ** The matrix of write tools *)

Record WriteToolMatrixRow := {
  row_engine : EngineKind;
  tool_name : string;
  path_field : option string;
}.

Definition write_tool_matrix : list WriteToolMatrixRow :=
  [ {| row_engine := Zeroclaw; tool_name := "edit"; path_field := None |};
    {| row_engine := Zeroclaw; tool_name := "write"; path_field := None |};
    {| row_engine := Zeroclaw; tool_name := "apply_patch"; path_field := None |};
    {| row_engine := Zeroclaw; tool_name := "shell"; path_field := None |};
    {| row_engine := Zeroclaw; tool_name := "bash"; path_field := None |};
    {| row_engine := Goose; tool_name := "text_editor"; path_field := Some "path" |};
    {| row_engine := Goose; tool_name := "write_file"; path_field := Some "file_path" |} ].

Definition line_feed : string := String newline "".

(** [{:<n}] *)
Fixpoint pad_right (n : nat) (s : string) : string :=
  match n, s with
  | S n', String c r => String c (pad_right n' r)
  | S n', EmptyString => String " " (pad_right n' EmptyString)
  | O, _ => s
  end.

Definition engine_name (e : EngineKind) : string :=
  match e with Zeroclaw => "zeroclaw" | Goose => "goose" end.

Definition matrix_row_line (row : WriteToolMatrixRow) : string :=
  pad_right 10 (engine_name (row_engine row)) +:+ " " +:+ pad_right 15 (tool_name row) +:+ " "
    +:+ default "-" (path_field row) +:+ line_feed.

Definition write_tool_matrix_human : string :=
  "writable-root enforcement: per-engine write-tool matrix" +:+ line_feed
  +:+ "(rows describe what is recognized as write-class; "
  +:+ "path_field=None means the arg extractor is not yet wired up ->" +:+ line_feed
  +:+ " fail-closed deny on enforce=true unless --trust-engine is set)" +:+ line_feed
  +:+ "engine     tool            path_field" +:+ line_feed
  +:+ join "" (map matrix_row_line write_tool_matrix).

(** ** The policy's theorems *)

(** What the policy grants, by the kind of the call or its exact name. *)
Definition granted (p : ApprovalPolicy) (tool : string) (category : option ToolKindCategory) : Prop :=
  p = All \/ p = Allowlist /\ (category = Some KindRead \/ to_ascii_lowercase tool ∈ DEFAULT_AUTO_APPROVE).

Lemma decide_categorized_iff p tool c : decide_approval_categorized p tool c = true <-> granted p tool c.
Proof.
  unfold granted. destruct p; cbn; [naive_solver| |naive_solver].
  assert (Hn : decide_approval Allowlist tool = true <-> to_ascii_lowercase tool ∈ DEFAULT_AUTO_APPROVE).
  { cbn [decide_approval]. rewrite existsb_elem. setoid_rewrite bool_decide_eq_true. naive_solver. }
  destruct c as [[]|]; rewrite ?Hn; naive_solver.
Qed.

Lemma decide_approval_exact (o : ApprovalSettings) t cwd tool kind params engine :
  (decide_approval_with_containment t cwd o tool kind params engine).1 = true <->
  granted (policy o) tool (kind ≫= acp_kind_category) /\
  (enforce_writable_roots o = true ->
   is_write_call engine tool (kind ≫= acp_kind_category) = true ->
   match extract_write_target engine tool params with
   | Some target => resolve_containment t cwd target (writable_roots o) = Inside
   | None => trust_engine o = true
   end).
Proof.
  unfold decide_approval_with_containment. rewrite <- decide_categorized_iff.
  destruct (enforce_writable_roots o); cbn; [|naive_solver].
  destruct (is_write_call _ _ _); cbn; [|naive_solver].
  destruct (extract_write_target _ _ _) as [target|].
  - destruct (resolve_containment _ _ _ _); cbn; naive_solver.
  - destruct (trust_engine o); cbn; naive_solver.
Qed.

(** ** Containment's theorems *)

(** The directory of a running process, walked from the root. *)
Definition working_dir (t : Tree) (cwd : list string) : Prop :=
  forall l, namei t false l [] cwd = Some (cwd, l).

(** The path is under a root that exists. *)
Definition under_root (t : Tree) (cwd : list string) (roots : list string) (loc : list string) : Prop :=
  exists root r, root ∈ roots /\ canonicalize t cwd root = Some r /\ r `prefix_of` loc.

(** The target's last name, in the directory its other names lead to, is a
    symbolic link that leads nowhere yet. *)
Definition dangling_leaf (t : Tree) (cwd : list string) (target : string) : Prop :=
  path_exists t cwd target = false /\
  exists name dir d l, last (body_segs target) = Some name /\
    namei t false MAXSYMLINKS (start_at cwd target) (removelast (body_segs target)) = Some (dir, l) /\
    node t (dir ++ [name]) = Some (Link d) /\ namei t false l dir [name] = None.

Lemma of_canon_prefix a b : of_canon a `prefix_of` of_canon b -> a `prefix_of` b.
Proof.
  unfold of_canon. intros H%prefix_cons_inv_2. revert b H. induction a as [|x a IH]; intros b H; cbn in *.
  - apply prefix_nil.
  - destruct b as [|y b]; cbn in H; [by apply prefix_nil_not in H|].
    pose proof (prefix_cons_inv_1 _ _ _ _ H) as [=->]. apply prefix_cons, IH. by apply prefix_cons_inv_2 in H.
Qed.

Lemma resolve_inside t cwd target roots :
  resolve_containment t cwd target roots = Inside ->
  exists p, canonicalize_for_write t cwd target = Some p /\
    forall loc, p = of_canon loc -> under_root t cwd roots loc.
Proof.
  unfold resolve_containment. destruct (canonicalize_for_write t cwd target) as [p|]; [|done].
  destruct (existsb _ roots) eqn:He; [|done]. intros _. exists p. split; [done|]. intros loc ->.
  apply existsb_elem in He as (root & Hin & Hc). unfold contains in Hc.
  destruct (canonicalize t cwd root) as [r|] eqn:Hr; [|done]. apply bool_decide_eq_true in Hc.
  exists root, r. split_and!; [done..|]. by apply of_canon_prefix.
Qed.

Lemma comp_seg_of segs : map comp_seg (map comp_of segs) = segs.
Proof.
  induction segs as [|s r IH]; cbn; [done|]. rewrite IH. f_equal. unfold comp_of. case_bool_decide; by subst.
Qed.

Lemma comp_seg_normal p : map comp_seg (map Normal p) = p.
Proof. induction p; cbn; congruence. Qed.

Lemma normalize_normals p st : fold_left normalize_step (map Normal p) st = st ++ map Normal p.
Proof.
  revert st. induction p as [|n p IH]; intros st; cbn; [by rewrite app_nil_r|].
  by rewrite IH, <- app_assoc.
Qed.

Lemma normalize_canon p : lexical_normalize (of_canon p) = of_canon p.
Proof. unfold lexical_normalize, of_canon. cbn. by rewrite normalize_normals. Qed.

Lemma best_split_spec t abs n k : (k <= length abs)%nat -> best_split t abs k = Some n ->
  (1 <= n <= k)%nat /\ is_Some (canonicalize_comps t (take n abs)) /\
  ((n < k)%nat -> canonicalize_comps t (take (S n) abs) = None).
Proof.
  induction k as [|k IH]; intros Hk Hs; [done|]. cbn [best_split] in Hs. case_bool_decide as Hc.
  - simplify_eq. split_and!; [lia|lia|done|lia].
  - destruct (IH ltac:(lia) Hs) as (? & ? & Hn). split_and!; [lia|lia|done|].
    intros Hlt. destruct (decide (n < k)%nat) as [|Hge]; [auto|].
    replace n with k in * by lia. by rewrite eq_None_not_Some.
Qed.

Lemma namei_root_seg t c l s : namei t c l [] ("" :: s) = namei t c l [] s.
Proof. by rewrite namei_cons. Qed.

Lemma working_dir_app t c cwd l s : working_dir t cwd -> namei t c l [] (cwd ++ s) = namei t c l cwd s.
Proof.
  intros Hd. destruct s as [|x s].
  - rewrite app_nil_r, namei_nil. destruct c; [apply namei_creat|]; apply Hd.
  - rewrite namei_app by done. by rewrite Hd.
Qed.

(** A path that can be opened for creation is one whose absolute form can. *)
Lemma lands_absolute t cwd p loc abs : working_dir t cwd ->
  absolute t cwd p = Some abs -> lands_at t cwd p = Some loc ->
  exists l, namei t true MAXSYMLINKS [] (map comp_seg abs) = Some (loc, l).
Proof.
  intros Hd Ha Hl. unfold lands_at, walk in Hl. unfold absolute in Ha.
  destruct (str_is_empty p); [done|]. apply fmap_Some in Hl as ([loc' l] & Hl & ->). exists l. cbn [fst].
  pose proof (namei_thin _ _ _ _ _ _ Hl _ (thin_body p)) as Hb. unfold start_at in Hb.
  destruct (has_root p).
  - simplify_eq. cbn [map comp_seg]. by rewrite comp_seg_of, namei_root_seg.
  - destruct (is_dir t cwd); [|done]. simplify_eq. cbn [map comp_seg].
    by rewrite map_app, comp_seg_of, comp_seg_normal, namei_root_seg, working_dir_app.
Qed.

(** A first name a walk cannot pass is a file it can only create, or a link. *)
Lemma create_past_missing t l cur a r loc l1 :
  namei t false l cur [a] = None -> namei t true l cur (a :: r) = Some (loc, l1) ->
  r = [] /\ a <> "" /\ a <> "." /\ a <> ".." /\
  (node t (cur ++ [a]) = None /\ loc = cur ++ [a] \/ exists d, node t (cur ++ [a]) = Some (Link d)).
Proof.
  intros Hf Hc. assert (Hr : r = []).
  { destruct r as [|b r]; [done|]. change (a :: b :: r) with ([a] ++ b :: r) in Hc.
    rewrite namei_app in Hc by done. by rewrite Hf in Hc. }
  subst r. split; [done|]. rewrite namei_cons in Hf, Hc.
  repeat case_bool_decide; try done; enter; rewrite namei_nil in Hf; try done.
  split_and!; [done..|]. destruct (node t (cur ++ [a])) as [[| |d]|]; rewrite ?namei_nil in Hf; try done; [eauto|].
  left. cbn in Hc. by simplify_eq.
Qed.

Lemma comp_seg_Normal c : comp_seg c <> "" -> comp_seg c <> "." -> comp_seg c <> ".." -> c = Normal (comp_seg c).
Proof. by destruct c. Qed.

Lemma absolute_segs t cwd target abs : absolute t cwd target = Some abs ->
  map comp_seg abs = "" :: start_at cwd target ++ body_segs target.
Proof.
  unfold absolute, start_at. destruct (str_is_empty target); [done|].
  destruct (has_root target); [|destruct (is_dir t cwd); [|done]]; intros [= <-]; cbn [map comp_seg].
  - by rewrite comp_seg_of.
  - by rewrite map_app, comp_seg_of, comp_seg_normal.
Qed.

(** The walk of all but the last name is the walk to the target's directory. *)
Lemma walk_to_dir t cwd target abs n a canon l : working_dir t cwd -> absolute t cwd target = Some abs -> body_segs target <> [] ->
  drop n abs = [a] -> namei t false MAXSYMLINKS [] (map comp_seg (take n abs)) = Some (canon, l) ->
  last (body_segs target) = Some (comp_seg a) /\
  namei t false MAXSYMLINKS (start_at cwd target) (removelast (body_segs target)) = Some (canon, l).
Proof.
  intros Hd Ha Hb Hdrop Hw. apply absolute_segs in Ha. rewrite <- (take_drop n abs), Hdrop, map_app in Ha. cbn [map] in Ha.
  destruct (exists_last Hb) as (u & x & Hu). rewrite Hu, last_snoc, removelast_last in *.
  rewrite app_assoc, (app_comm_cons _ [x]) in Ha. apply app_inj_tail in Ha as [Ht <-]. rewrite Ht, namei_root_seg in Hw.
  split; [done|]. unfold start_at in *. destruct (has_root target); [done|]. by rewrite working_dir_app in Hw.
Qed.

Lemma body_missing t cwd target abs : working_dir t cwd -> absolute t cwd target = Some abs ->
  namei t false MAXSYMLINKS [] (map comp_seg abs) = None -> body_segs target <> [].
Proof.
  unfold absolute. intros Hd Ha Hn Hb. destruct (str_is_empty target); [done|].
  destruct (has_root target); [|destruct (is_dir t cwd); [|done]]; injection Ha as <-; revert Hn; cbn [map comp_seg].
  - by rewrite comp_seg_of, Hb, namei_root_seg, namei_nil.
  - by rewrite map_app, comp_seg_of, comp_seg_normal, Hb, namei_root_seg, working_dir_app, namei_nil.
Qed.

(** The check of a target that does not exist, step by step. *)
Lemma canonicalize_missing t cwd target p : path_exists t cwd target = false ->
  canonicalize_for_write t cwd target = Some p ->
  exists abs n canon l, absolute t cwd target = Some abs /\
    namei t false MAXSYMLINKS [] (map comp_seg (take n abs)) = Some (canon, l) /\
    p = lexical_normalize (of_canon canon ++ drop n abs) /\
    (drop n abs <> [] -> forall a, head (drop n abs) = Some a -> namei t false l canon [comp_seg a] = None).
Proof.
  intros He Hc. unfold canonicalize_for_write in Hc. rewrite He in Hc.
  destruct (str_is_empty target); [done|].
  apply bind_Some in Hc as (abs & Ha & Hc). apply bind_Some in Hc as (n & Hn & Hc).
  apply bind_Some in Hc as (canon & Hp & Hc). simplify_eq.
  unfold canonicalize_comps in Hp. apply fmap_Some in Hp as ([canon' l] & Hp & ->).
  exists abs, n, canon', l. split_and!; [done..|]. intros Hd a Hh.
  apply best_split_spec in Hn as (Hle & _ & Hnext); [|done].
  destruct (drop n abs) as [|x r] eqn:E; [done|]. injection Hh as ->.
  assert (Hlt : (n < length abs)%nat).
  { destruct (decide (n < length abs)%nat); [done|]. rewrite drop_ge in E by lia. done. }
  specialize (Hnext Hlt). assert (Ht : take (S n) abs = take n abs ++ [a]).
  { apply take_S_r. rewrite <- (take_drop n abs), E, lookup_app_r; rewrite length_take; [|lia].
    replace (n - n `min` length abs)%nat with O by lia. done. }
  unfold canonicalize_comps in Hnext. rewrite Ht, map_app in Hnext.
  cbn [map] in Hnext. rewrite namei_app in Hnext by done. rewrite Hp in Hnext.
  by apply fmap_None in Hnext.
Qed.

(** An open for writing that the containment check calls inside makes or
    changes a file below a canonical writable root, except through a symbolic
    link at the target's own place that leads nowhere yet. *)
Theorem containment_sound t cwd target roots loc :
  working_dir t cwd -> resolve_containment t cwd target roots = Inside -> lands_at t cwd target = Some loc ->
  under_root t cwd roots loc \/ dangling_leaf t cwd target.
Proof.
  intros Hd Hi Hl. apply resolve_inside in Hi as (p & Hp & Hin).
  destruct (path_exists t cwd target) eqn:He.
  - left. apply Hin. unfold canonicalize_for_write in Hp. rewrite He in Hp. destruct (str_is_empty target) eqn:Hs; [done|].
    apply fmap_Some in Hp as (loc' & Hp & ->). f_equal. unfold canonicalize, lands_at, walk in *. rewrite Hs in *.
    apply fmap_Some in Hp as ([a l] & Hp & ->). apply namei_creat in Hp. rewrite Hp in Hl. by simplify_eq/=.
  - destruct (canonicalize_missing _ _ _ _ He Hp) as (abs & n & canon & l & Ha & Hw & -> & Hmiss).
    destruct (lands_absolute _ _ _ _ _ Hd Ha Hl) as [l1 Hc].
    rewrite <- (take_drop n abs), map_app in Hc.
    destruct (drop n abs) as [|a r] eqn:E.
    + left. apply Hin. rewrite app_nil_r, normalize_canon. f_equal.
      rewrite app_nil_r in Hc. apply namei_creat in Hw. rewrite Hw in Hc. by simplify_eq.
    + rewrite namei_app in Hc by done. rewrite Hw in Hc. cbn [mbind option_bind] in Hc.
      destruct (create_past_missing _ _ _ _ _ _ _ (Hmiss ltac:(done) a eq_refl) Hc) as (Hr & H1 & H2 & H3 & Hcase).
      apply map_eq_nil in Hr as ->. destruct Hcase as [[_ ->]|[d Hd']].
      * left. apply Hin. rewrite (comp_seg_Normal a) by done. unfold of_canon. cbn [comp_seg app].
        change (RootDir :: map Normal canon ++ [Normal (comp_seg a)]) with (RootDir :: map Normal canon ++ map Normal [comp_seg a]).
        rewrite <- map_app. apply normalize_canon.
      * right. split; [done|].
        destruct (walk_to_dir t cwd target abs n a canon l) as [Hlast Hdir]; [done|done| |done|done|].
        { apply (body_missing t cwd target abs); [done..|].
          rewrite <- (take_drop n abs), E, map_app, namei_app, Hw by done. by apply (Hmiss ltac:(done)). }
        exists (comp_seg a), canon, d, l. do 3 (split; [done|]). by apply (Hmiss ltac:(done)).
Qed.

(** *** The check and a tree that grows before the write *)

(** New names below existing directories, none of them a link; nothing
    removed or replaced. *)
Definition grows (t t' : Tree) : Prop :=
  forall q, match t !! q with
            | Some x => t' !! q = Some x
            | None => match t' !! q with Some (Link _) => False | _ => True end
            end.

(** Every entry's directory is an entry. *)
Definition closed (t : Tree) : Prop :=
  forall p n, is_Some (t !! (p ++ [n])) -> is_Some (node t p).

Definition plain (s : string) : Prop := s <> "" /\ s <> "." /\ s <> "..".

Lemma node_snoc t p n : node t (p ++ [n]) = t !! (p ++ [n]).
Proof. by destruct p. Qed.

Lemma grows_node t t' p x : grows t t' -> node t p = Some x -> node t' p = Some x.
Proof. intros Hg. destruct p as [|n p]; [done|]. cbn. specialize (Hg (n :: p)). by intros H; rewrite H in Hg. Qed.

Lemma grows_dir t t' p : grows t t' ->
  (is_dir t p = true -> is_dir t' p = true) /\ (enterable t p = true -> enterable t' p = true).
Proof.
  intros Hg. unfold is_dir, enterable. destruct (node t p) as [x|] eqn:E; [|done].
  by rewrite (grows_node _ _ _ _ Hg E).
Qed.

Lemma namei_grows t t' l cur s x : grows t t' -> namei t false l cur s = Some x -> namei t' false l cur s = Some x.
Proof.
  intros Hg. revert l cur s. apply (namei_ind (fun l cur s => namei t false l cur s = Some x -> _)).
  - intros l cur. by rewrite !namei_nil.
  - intros l cur seg r IHl IHr. rewrite !namei_cons. destruct (grows_dir _ _ cur Hg) as [Hd He].
    case_bool_decide.
    { destruct (is_dir t cur); [|done]. rewrite Hd by done. auto. }
    destruct (enterable t cur); [|done]. rewrite He by done. repeat case_bool_decide; auto; try done.
    all: destruct (node t (cur ++ [seg])) as [k|] eqn:E; [|done]; rewrite (grows_node _ _ _ _ Hg E).
    all: destruct k; auto; destruct l as [|l]; [done|]; apply IHl; lia.
Qed.

Lemma closed_parent t p : closed t -> is_Some (node t p) -> is_Some (node t (removelast p)).
Proof.
  intros Hc. destruct (decide (p = [])) as [->|Hp]; [done|].
  destruct (exists_last Hp) as (q & n & ->). rewrite removelast_last, node_snoc. apply Hc.
Qed.

Lemma namei_exists t l cur s p l1 : closed t -> is_Some (node t cur) ->
  namei t false l cur s = Some (p, l1) -> is_Some (node t p).
Proof.
  intros Hcl. revert l cur s.
  apply (namei_ind (fun l cur s => is_Some (node t cur) -> namei t false l cur s = Some (p, l1) -> _)).
  - intros l cur Hn. rewrite namei_nil. by intros [=-> ->].
  - intros l cur seg r IHl IHr Hn. rewrite namei_cons. repeat case_bool_decide; try done; enter; eauto using closed_parent.
    all: destruct (node t (cur ++ [seg])) as [[]|] eqn:E; try done; try (apply IHr; by rewrite E).
    all: destruct l as [|l]; [done|]; apply IHl; [lia|]; unfold start_at; by destruct (has_root _).
Qed.

(** Below a name that was absent a walk of plain names is lexical. *)
Lemma fresh_walk t t' l cur a r loc l1 : grows t t' -> closed t -> Forall plain (a :: r) ->
  node t (cur ++ [a]) = None -> namei t' true l cur (a :: r) = Some (loc, l1) -> loc = cur ++ a :: r.
Proof.
  intros Hg Hc. revert cur a. induction r as [|b r IH]; intros cur a [(H1 & H2 & H3) Hr]%Forall_cons Hn; rewrite namei_cons.
  all: rewrite !(bool_decide_false (a = _)) by done; enter.
  all: rewrite node_snoc in Hn |- *; specialize (Hg (cur ++ [a])); rewrite Hn in Hg.
  all: destruct (t' !! (cur ++ [a])) as [[]|]; try done.
  1-2: rewrite namei_nil; by intros [=].
  - cbn. by intros [=].
  - intros Hw. apply IH in Hw; [by rewrite <- app_assoc in Hw|done|].
    rewrite node_snoc, eq_None_not_Some. intros Hs%Hc. rewrite node_snoc, Hn in Hs. by destruct Hs.
  - intros Hw. apply IH in Hw; [by rewrite <- app_assoc in Hw|done|].
    rewrite node_snoc, eq_None_not_Some. intros Hs%Hc. rewrite node_snoc, Hn in Hs. by destruct Hs.
Qed.

(** A name the check could not pass, passed after the tree has grown. *)
Lemma missing_first t t' l cur a r x : grows t t' -> is_Some (node t cur) -> plain a ->
  namei t false l cur [a] = None -> namei t' true l cur (a :: r) = Some x ->
  node t (cur ++ [a]) = None \/ exists d, node t (cur ++ [a]) = Some (Link d).
Proof.
  intros Hg [k Hk] (H1 & H2 & H3). rewrite !namei_cons, !(bool_decide_false (a = _)) by done.
  unfold enterable. rewrite (grows_node _ _ _ _ Hg Hk), Hk. destruct k as [[]| |]; try done.
  destruct (node t (cur ++ [a])) as [[]|]; rewrite ?namei_nil; eauto; done.
Qed.

Lemma absolute_plain t cwd target abs : absolute t cwd target = Some abs ->
  Forall plain (cwd ++ body_segs target) -> exists s, abs = RootDir :: map Normal s /\ Forall plain s /\ (s ⊆ cwd ++ body_segs target).
Proof.
  unfold absolute. intros Ha Hp. destruct (str_is_empty target); [done|].
  assert (Hb : map comp_of (body_segs target) = map Normal (body_segs target)).
  { apply Forall_app in Hp as [_ Hp]. clear Ha. apply map_ext_Forall. eapply Forall_impl; [exact Hp|].
    intros n (H1 & H2 & H3). unfold comp_of. by rewrite bool_decide_false. }
  rewrite Hb in Ha. destruct (has_root target); [|destruct (is_dir t cwd); [|done]]; injection Ha as <-.
  - exists (body_segs target). apply Forall_app in Hp as [_ Hp]. split_and!; [done..|set_solver].
  - exists (cwd ++ body_segs target). by rewrite map_app.
Qed.

Lemma map_Normal_drop n s : (1 <= n)%nat -> exists u, drop n (RootDir :: map Normal s) = map Normal u /\ u ⊆ s /\
  (Forall plain s -> Forall plain u).
Proof.
  intros Hn. destruct n as [|n]; [lia|]. exists (drop n s). cbn [drop].
  split_and!; [apply skipn_map| |by apply Forall_drop].
  intros x Hx. apply list_elem_of_In. apply list_elem_of_In in Hx. rewrite <- (take_drop n s). apply in_or_app. by right.
Qed.

(** For a path without parent components the verdict outlives the creation
    of files and directories: whatever is added to the tree before the write,
    links excepted, the write lands below a writable root, unless one of the
    path's names is a link that led nowhere at the time of the check. *)
Theorem containment_stable t t' cwd target roots loc :
  closed t -> grows t t' -> working_dir t cwd -> Forall plain (cwd ++ body_segs target) ->
  resolve_containment t cwd target roots = Inside -> lands_at t' cwd target = Some loc ->
  under_root t cwd roots loc \/
  exists dir name d, name ∈ cwd ++ body_segs target /\ node t (dir ++ [name]) = Some (Link d).
Proof.
  intros Hcl Hg Hd Hpl Hi Hl. apply resolve_inside in Hi as (p & Hp & Hin).
  destruct (path_exists t cwd target) eqn:He.
  - left. apply Hin. unfold canonicalize_for_write in Hp. rewrite He in Hp. destruct (str_is_empty target) eqn:Hs; [done|].
    apply fmap_Some in Hp as (loc' & Hp & ->). f_equal. unfold canonicalize, lands_at, walk in *. rewrite Hs in *.
    apply fmap_Some in Hp as ([a l] & Hp & ->). apply (namei_grows _ _ _ _ _ _ Hg) in Hp. apply namei_creat in Hp.
    rewrite Hp in Hl. by simplify_eq/=.
  - destruct (canonicalize_missing _ _ _ _ He Hp) as (abs & n & canon & l & Ha & Hw & -> & Hmiss).
    assert (Ha' : absolute t' cwd target = Some abs).
    { unfold absolute in *. destruct (str_is_empty target), (has_root target); try done.
      destruct (is_dir t cwd) eqn:E; [|done]. by rewrite (proj1 (grows_dir t t' cwd Hg) E). }
    assert (Hd' : working_dir t' cwd) by (intros k; apply (namei_grows t); [done|apply Hd]).
    destruct (lands_absolute _ _ _ _ _ Hd' Ha' Hl) as [l1 Hc].
    rewrite <- (take_drop n abs), map_app in Hc. pose proof (namei_grows _ _ _ _ _ _ Hg Hw) as Hw'.
    destruct (absolute_plain _ _ _ _ Ha Hpl) as (s & -> & Hs & Hsub).
    assert (Hn : (1 <= n)%nat).
    { destruct n; [|lia]. exfalso. cbn in Hw. injection Hw as <- <-. pose proof (Hmiss ltac:(done) RootDir eq_refl) as Hx. by rewrite namei_cons in Hx. }
    destruct (map_Normal_drop n s Hn) as (u & Hu & Husub & Hup). rewrite Hu in *.
    specialize (Hup Hs). unfold of_canon at 1 in Hin. cbn [app] in Hin. rewrite <- map_app in Hin.
    destruct u as [|a r].
    + left. apply Hin. rewrite app_nil_r in Hc |- *. apply namei_creat in Hw'. rewrite Hw' in Hc. simplify_eq.
      apply normalize_canon.
    + cbn [map] in Hc. rewrite namei_app, Hw' in Hc by done. cbn [mbind option_bind comp_seg] in Hc.
      rewrite comp_seg_normal in Hc. pose proof (Hmiss ltac:(done) _ eq_refl) as Hm. cbn [comp_seg] in Hm.
      assert (Hk : is_Some (node t canon)) by (eapply namei_exists; [done| |exact Hw]; done).
      destruct (missing_first _ _ _ _ _ _ _ Hg Hk (Forall_inv Hup) Hm Hc) as [Ha0|[d Hlink]].
      * left. apply Hin. rewrite (fresh_walk _ _ _ _ _ _ _ _ Hg Hcl Hup Ha0 Hc). apply normalize_canon.
      * right. exists canon, a, d. split; [|done]. apply Hsub, Husub. by left.
Qed.

(** ** The reply *)

Lemma pick_by_kind_Some options kinds id : pick_by_kind options kinds = Some id ->
  exists opt k, opt ∈ options /\ k ∈ kinds /\ value_get_str opt "kind" = Some k /\ value_get_str opt "optionId" = Some id.
Proof.
  induction kinds as [|k ks IH]; cbn; [done|]. destruct (find_first _ options) as [opt|] eqn:E.
  - apply find_first_Some in E as [Hin Hk]. apply bool_decide_eq_true in Hk. intros Hid.
    exists opt, k. split_and!; [done|by left|done|done].
  - intros (opt & k' & ? & ? & ?)%IH. exists opt, k'. split_and!; [done|by right|naive_solver..].
Qed.

Definition offered (req_params : Value) : list Value := default [] (value_get req_params "options" ≫= value_as_array).

(** The reply to a permission request names an option that was offered,
    and for a call the policy does not grant it names a reject option or
    cancels; a call is granted only under the policy, and when roots are
    enforced a write among them only with a target the check calls inside. *)
Theorem permission_reply_sound t cwd o req :
  match permission_reply t cwd o req with
  | Cancelled => True
  | Selected id =>
      exists opt, opt ∈ offered req /\ value_get_str opt "optionId" = Some id /\
        (permission_approved t cwd o req = false ->
         exists k, k ∈ ["reject_once"; "reject_always"] /\ value_get_str opt "kind" = Some k)
  end /\
  (permission_approved t cwd o req = true <->
   let tool := permission_tool req in
   let category := (tool_call req "kind" ≫= value_as_str) ≫= acp_kind_category in
   granted (policy o) tool category /\
   (enforce_writable_roots o = true -> is_write_call Goose tool category = true ->
    match extract_write_target Goose tool (default (Object []) (tool_call req "rawInput")) with
    | Some target => resolve_containment t cwd target (writable_roots o) = Inside
    | None => trust_engine o = true
    end)).
Proof.
  split; [|apply decide_approval_exact]. unfold permission_reply. fold (offered req).
  destruct (permission_approved t cwd o req).
  - destruct (pick_by_kind (offered req) _) as [id|] eqn:E.
    + apply pick_by_kind_Some in E as (opt & k & ? & _ & _ & ?). exists opt. done.
    + destruct (offered req) as [|opt rest]; cbn [head mbind option_bind]; [done|].
      destruct (value_get_str opt "optionId") as [id|] eqn:Ho; [|done]. exists opt. split_and!; [by left|done..].
  - destruct (pick_by_kind (offered req) _) as [id|] eqn:E; [|done].
    apply pick_by_kind_Some in E as (opt & k & ? & ? & ? & ?). exists opt. split_and!; [done..|]. eauto.
Qed.

(** C11: with roots enforced and the engine not trusted, an approved write names
    a target, and when the process that writes resolves it from the directory
    the check resolved it from, the file it makes or changes is below a
    canonical writable root, except through a link that leads nowhere yet at
    the target's own place: its last name in the directory its other names
    lead to. *)
Theorem approved_write_contained t cwd o tool kind params engine :
  enforce_writable_roots o = true -> trust_engine o = false -> working_dir t cwd ->
  is_write_call engine tool (kind ≫= acp_kind_category) = true ->
  (decide_approval_with_containment t cwd o tool kind params engine).1 = true ->
  exists target, extract_write_target engine tool params = Some target /\
    forall loc, lands_at t cwd target = Some loc ->
      under_root t cwd (writable_roots o) loc \/ dangling_leaf t cwd target.
Proof.
  intros He Ht Hd Hw [_ Ha]%decide_approval_exact. specialize (Ha He Hw).
  destruct (extract_write_target engine tool params) as [target|]; [|congruence].
  exists target. split; [done|]. intros loc. by apply containment_sound.
Qed.

(** ** The matrix *)

(** A row that names a field is a tool whose target is read from that field; a
    row that names none is a write tool no arguments ever give a target for. *)
Lemma matrix_matches_extractor row : row ∈ write_tool_matrix ->
  is_write_class_tool (row_engine row) (tool_name row) = true /\
  match path_field row with
  | None => forall params, extract_write_target (row_engine row) (tool_name row) params = None
  | Some f => forall obj s, assoc f obj = Some (Str s) -> s <> "" ->
      extract_write_target (row_engine row) (tool_name row) (Object obj) = Some s
  end.
Proof.
  intros Hin. unfold write_tool_matrix in Hin.
  repeat (apply elem_of_cons in Hin as [->|Hin]; [split; [done|]; cbn [path_field row_engine tool_name]|]).
  6,7: intros obj s Ho Hs; unfold extract_write_target; cbn; rewrite Ho; cbn; by destruct s.
  all: try done. by apply not_elem_of_nil in Hin.
Qed.

Lemma row_names_lower row : row ∈ write_tool_matrix -> to_ascii_lowercase (tool_name row) = tool_name row.
Proof. intros Hin. revert row Hin. by apply Forall_forall, (bool_decide_unpack (Forall _ write_tool_matrix)). Qed.

(** Conversely every write tool of an engine has a row. *)
Lemma write_class_has_row engine tool : is_write_class_tool engine tool = true <->
  exists row, row ∈ write_tool_matrix /\ row_engine row = engine /\ to_ascii_lowercase tool = tool_name row.
Proof.
  assert (Ht : match engine with Zeroclaw => ZEROCLAW_WRITE_TOOLS | Goose => GOOSE_WRITE_TOOLS end =
               map tool_name (filterb (fun r => bool_decide (row_engine r = engine)) write_tool_matrix))
    by (by destruct engine).
  unfold is_write_class_tool. rewrite Ht, existsb_elem. setoid_rewrite bool_decide_eq_true. split.
  - intros (x & (row & -> & [He%bool_decide_eq_true Hin]%elem_of_filterb)%list_elem_of_fmap & Hx).
    rewrite row_names_lower in Hx by done. eauto.
  - intros (row & Hin & <- & Hx). exists (tool_name row). rewrite row_names_lower by done. split; [|done].
    apply list_elem_of_fmap. exists row. split; [done|]. apply elem_of_filterb. by rewrite bool_decide_true.
Qed.

(** ** The roots *)

Lemma resolve_add_dirs_exact t proc add_dir roots :
  resolve_add_dirs t proc add_dir = Ok roots <->
  Forall2 (fun raw root => resolve_root t proc raw = Some root) add_dir roots.
Proof.
  revert roots. induction add_dir as [|raw rest IH]; intros roots; cbn.
  - split; [by intros [= <-]|by inversion 1].
  - destruct (resolve_root t proc raw) as [canon|] eqn:E.
    + destruct (resolve_add_dirs t proc rest) as [rs|e]; cbn.
      * split; [intros [= <-]; constructor; [done|by apply IH]|].
        inversion 1 as [|? ? ? rs' Hr Hrest]; subst. apply IH in Hrest. congruence.
      * split; [done|]. inversion 1 as [|? ? ? rs' Hr Hrest]; subst. by apply IH in Hrest.
    + split; [done|]. inversion 1; congruence.
Qed.

(** The roots of a run are its directory, then one root per flag in order; a
    flag that does not resolve fails the run. *)
Lemma writable_roots_exact t proc cwd add_dir roots :
  resolve_writable_roots t proc cwd add_dir = Ok roots <->
  exists c rs, roots = c :: rs /\ canonicalize_comps t (of_canon cwd) = Some c /\
    Forall2 (fun raw root => resolve_root t proc raw = Some root) add_dir rs.
Proof.
  unfold resolve_writable_roots. destruct (canonicalize_comps t (of_canon cwd)) as [c|]; [|naive_solver].
  setoid_rewrite <- resolve_add_dirs_exact. destruct (resolve_add_dirs t proc add_dir); cbn; naive_solver.
Qed.

(** ** Concrete inputs *)

Lemma closed_check t :
  forallb (fun e => bool_decide (is_Some (node t (removelast e.1)))) (map_to_list t) = true -> closed t.
Proof.
  intros Hf p n [x Hx]. rewrite forallb_elem in Hf. apply elem_of_map_to_list in Hx.
  specialize (Hf _ Hx). apply bool_decide_eq_true in Hf. cbn in Hf. by rewrite removelast_last in Hf.
Qed.

Module Sample.

(** A repository, a directory beside it, and links between them. *)
Definition tree : Tree := {[
  ["r"] := Dir true; ["r"; "src"] := Dir true; ["r"; "src"; "a"] := File;
  ["r"; "out"] := Link "/o"; ["r"; "dangling"] := Link "../o/fresh";
  ["o"] := Dir true; ["p"] := Dir true ]}.

Definition settings : ApprovalSettings :=
  {| policy := All; writable_roots := ["/r"]; enforce_writable_roots := true; trust_engine := false |}.

Definition edit (path : string) : Value := Object [("path", Str path)].

Definition decided (path : string) : bool * option DenyLine :=
  decide_approval_with_containment tree ["r"] settings "text_editor" (Some "edit") (edit path) Goose.

Lemma decided_examples :
  map (fun p => (decided p).1) ["src/a"; "/r/src/../new"; "new/deep/er"; "../o/x"; "out/x"; "/r/src/../../o/x"; ""]
  = [true; true; true; false; false; false; false].
Proof. vm_compute. reflexivity. Qed.

Lemma working_dir_repo : working_dir tree ["r"].
Proof. intros l. by destruct l; vm_compute. Qed.

Lemma approved_write_contained_witness :
  exists target, extract_write_target Goose "text_editor" (edit "/r/src/new") = Some target /\
    forall loc, lands_at tree ["r"] target = Some loc ->
      under_root tree ["r"] (writable_roots settings) loc \/ dangling_leaf tree ["r"] target.
Proof.
  apply (approved_write_contained tree ["r"] settings "text_editor" (Some "edit") (edit "/r/src/new") Goose).
  - reflexivity.
  - reflexivity.
  - exact working_dir_repo.
  - reflexivity.
  - vm_compute. reflexivity.
Defined.

(** The tree after a tool has made a directory. *)
Definition tree' : Tree := <[["r"; "new"] := Dir true]> tree.

Lemma tree_closed : closed tree.
Proof. apply closed_check. vm_compute. reflexivity. Qed.

Lemma tree_grows : grows tree tree'.
Proof.
  intros q. unfold tree'. destruct (decide (q = ["r"; "new"])) as [->|Hq]; [by vm_compute|].
  rewrite lookup_insert_ne by done. destruct (tree !! q); done.
Qed.

Lemma containment_stable_witness :
  under_root tree ["r"] ["/r"] ["r"; "new"; "x"] \/
  exists dir name d, name ∈ ["r"] ++ body_segs "/r/new/x" /\ node tree (dir ++ [name]) = Some (Link d).
Proof.
  apply (containment_stable tree tree' ["r"] "/r/new/x" ["/r"] ["r"; "new"; "x"]).
  - exact tree_closed.
  - exact tree_grows.
  - exact working_dir_repo.
  - repeat constructor; discriminate.
  - vm_compute. reflexivity.
  - vm_compute. reflexivity.
Defined.

(** A link whose target does not exist yet passes as a file about to be
    created below the root, and the write follows it out. *)
Lemma dangling_link_escapes :
  (decided "/r/dangling").1 = true /\ lands_at tree ["r"] "/r/dangling" = Some ["o"; "fresh"].
Proof. by vm_compute. Qed.

(** A parent component after a missing directory is resolved in the text, so
    the link behind it is taken for a name; a tool that makes the missing
    directory first writes behind the link. *)
Lemma missing_directory_escapes :
  (decided "/r/new/../out/x").1 = true /\ lands_at tree ["r"] "/r/new/../out/x" = None /\
  lands_at tree' ["r"] "/r/new/../out/x" = Some ["o"; "x"].
Proof. by vm_compute. Qed.

(** A relative target is resolved from the directory of the deciding process;
    with [-C] the engine's session has another one. *)
Lemma relative_target_of_other_directory :
  (decide_approval_with_containment tree ["p"]
     {| policy := All; writable_roots := ["/r"; "/p"]; enforce_writable_roots := true; trust_engine := false |}
     "text_editor" None (edit "out/x") Goose).1 = true /\
  agentic_cwd tree ["p"] (Some "/r") = Some ["r"] /\
  lands_at tree ["r"] "out/x" = Some ["o"; "x"] /\
  (decide_approval_with_containment tree ["p"]
     {| policy := All; writable_roots := ["/r"]; enforce_writable_roots := true; trust_engine := false |}
     "text_editor" None (edit "src/new") Goose).1 = false /\
  lands_at tree ["r"] "src/new" = Some ["r"; "src"; "new"].
Proof. by vm_compute. Qed.

(** Normalising a relative path whose stack holds one name neither drops the
    name nor keeps the parent component. *)
Lemma normalize_relative_parent :
  lexical_normalize (std_components "a/../b") = [Normal "a"; Normal "b"] /\
  lexical_normalize (std_components "../../x") = [ParentDir; Normal "x"].
Proof. by vm_compute. Qed.

(** A call whose kind says read or execute is not checked, whatever its tool. *)
Lemma kind_bypasses_roots :
  (decide_approval_with_containment tree ["r"] settings "text_editor" (Some "execute") (edit "/o/x") Goose).1 = true.
Proof. by vm_compute. Qed.

(** A granted call whose only options reject it is answered with one of them. *)
Lemma approval_answers_reject :
  permission_reply tree ["r"] settings
    (Object [("toolCall", Object [("title", Str "shell")]);
             ("options", Array [Object [("kind", Str "reject_once"); ("optionId", Str "no")]])]) = Selected "no".
Proof. by vm_compute. Qed.

(** The printed matrix names one field of [write_file] where its layout in the
    documentation names both. *)
Lemma matrix_prints_one_field :
  matrix_row_line {| row_engine := Goose; tool_name := "write_file"; path_field := Some "file_path" |}
  = "goose      write_file      file_path" +:+ line_feed.
Proof. by vm_compute. Qed.

End Sample.
