(* ===== verification/Turn.v ===== *)
(** One turn of the coding engine (acp-client/src/lib.rs): the idle watchdog,
    the frames of the zeroclaw dialect and what each does to the turn, the loop
    that reads them under two deadlines, and the drain after a cancel.

    Instants are milliseconds of one monotonic clock, readings of it are
    arguments.  The socket is the list of what arrives on it, each with the
    instant it can be read; how the bytes become frames is not modelled. *)
From S2P Require Import Prelude Text Json Paths Approval.
Local Open Scope string_scope.
Local Open Scope Z_scope.
Local Open Scope list_scope.

(** ** The idle windows *)

Definition DEFAULT_AGENT_IDLE_FIRST_EVENT_S : Z := 600.
Definition DEFAULT_AGENT_IDLE_BETWEEN_EVENTS_S : Z := 180.
Definition HOSTED_AGENT_IDLE_FIRST_EVENT_S : Z := DEFAULT_AGENT_IDLE_FIRST_EVENT_S.
Definition HOSTED_AGENT_IDLE_BETWEEN_EVENTS_S : Z := DEFAULT_AGENT_IDLE_BETWEEN_EVENTS_S.

Inductive IdleWindowPhase := FirstEvent | BetweenEvents.

#[export] Instance idle_window_phase_eq_dec : EqDecision IdleWindowPhase.
Proof. solve_decision. Defined.

Record AgentIdleWindows := { aw_first_event : option Z; aw_between_events : option Z }.

Definition nonzero (d : option Z) : option Z := opt_filter (fun d => negb (d =? 0)) d.

Definition from_durations (first_event between_events : option Z) : AgentIdleWindows :=
  {| aw_first_event := nonzero first_event; aw_between_events := nonzero between_events |}.

Definition from_secs (first_event_s between_events_s : Z) : AgentIdleWindows :=
  from_durations (if 0 <? first_event_s then Some (first_event_s * 1000) else None)
                 (if 0 <? between_events_s then Some (between_events_s * 1000) else None).

Definition from_millis (first_event_ms between_events_ms : Z) : AgentIdleWindows :=
  from_durations (if 0 <? first_event_ms then Some first_event_ms else None)
                 (if 0 <? between_events_ms then Some between_events_ms else None).

Definition windows_disabled : AgentIdleWindows := {| aw_first_event := None; aw_between_events := None |}.
Definition windows_default : AgentIdleWindows :=
  from_secs DEFAULT_AGENT_IDLE_FIRST_EVENT_S DEFAULT_AGENT_IDLE_BETWEEN_EVENTS_S.

Definition windows_enabled (w : AgentIdleWindows) : bool :=
  bool_decide (is_Some (aw_first_event w)) || bool_decide (is_Some (aw_between_events w)).

(** ** The watchdog *)

Record IdleWatchdog := {
  wd_windows : AgentIdleWindows;
  phase : IdleWindowPhase;
  phase_start : Z;
  last_substantive : option Z;
  tool_wait : bool;
}.

Definition new_watchdog (w : AgentIdleWindows) (now : Z) : IdleWatchdog :=
  {| wd_windows := w; phase := FirstEvent; phase_start := now; last_substantive := None; tool_wait := false |}.

Definition note_substantive_event (d : IdleWatchdog) (now : Z) : IdleWatchdog :=
  {| wd_windows := wd_windows d;
     phase := match phase d with FirstEvent => BetweenEvents | p => p end;
     phase_start := phase_start d; last_substantive := Some now; tool_wait := tool_wait d |}.

Definition note_metadata_event (d : IdleWatchdog) : IdleWatchdog := d.

Definition substantive_kind (kind : string) : bool :=
  bool_decide (kind ∈ ["agent_message_chunk"; "agent_thought_chunk"; "agent_message"; "tool_call"; "permission_request"]).

Definition note_update_kind (d : IdleWatchdog) (kind : string) (now : Z) : IdleWatchdog :=
  if substantive_kind kind then note_substantive_event d now else note_metadata_event d.

Definition note_tool_round_complete (d : IdleWatchdog) (now : Z) : IdleWatchdog :=
  {| wd_windows := wd_windows d; phase := FirstEvent; phase_start := now; last_substantive := None; tool_wait := false |}.

Definition set_tool_wait (d : IdleWatchdog) (waiting : bool) (now : Z) : IdleWatchdog :=
  let was_waiting := tool_wait d in
  let d := {| wd_windows := wd_windows d; phase := phase d; phase_start := phase_start d;
              last_substantive := last_substantive d; tool_wait := waiting |} in
  if negb waiting && was_waiting then note_tool_round_complete d now else d.

Definition active_window (d : IdleWatchdog) : option Z :=
  match phase d with
  | FirstEvent => aw_first_event (wd_windows d)
  | BetweenEvents => aw_between_events (wd_windows d)
  end.

Definition idle_deadline (d : IdleWatchdog) : option Z :=
  if tool_wait d then None
  else
    window ← active_window d;
    let base := match phase d with
                | FirstEvent => phase_start d
                | BetweenEvents => default (phase_start d) (last_substantive d)
                end in
    Some (base + window).

Definition last_event_age (d : IdleWatchdog) (now : Z) : Z :=
  Z.max 0 (now - default (phase_start d) (last_substantive d)).

Definition idle_read_deadline (idle : option Z) (overall : Z) : Z :=
  match idle with
  | Some idle => if idle <? overall then idle else overall
  | None => overall
  end.

Definition idle_fired (idle : option Z) (overall now : Z) : bool :=
  match idle with
  | Some idle => (idle <? overall) && (idle <=? now)
  | None => false
  end.

(** The reason an idle timeout is reported with. *)
Record IdleDetail := {
  idle_age : Z; idle_window : IdleWindowPhase; idle_window_ms : Z; idle_model : string
}.

Definition idle_timeout_detail (model_id model_override : option string) (agent_alias : string)
    (d : IdleWatchdog) (now : Z) : IdleDetail :=
  {| idle_age := last_event_age d now; idle_window := phase d;
     idle_window_ms := default 0 (active_window d);
     idle_model := default agent_alias (match model_id with Some m => Some m | None => model_override end) |}.

(** ** Frames *)

Definition zeroclaw_frame_kind (frame : Value) : string :=
  let m := value_get_str frame "method" in
  if bool_decide (m = Some "session/request_permission") then "permission_request"
  else if bool_decide (m = Some "session/update") then
    default "" (value_get frame "params" ≫= fun p => value_get_str p "type")
  else "".

Definition first_of (u : Value) (keys : list string) : option Value := find_map (value_get u) keys.

Definition goose_frame_kind (frame : Value) : string :=
  let m := value_get_str frame "method" in
  if bool_decide (m = Some "session/request_permission") then "permission_request"
  else if bool_decide (m = Some "session/update") then
    default "" (value_get frame "params" ≫= fun p => value_get p "update" ≫= fun u =>
                first_of u ["sessionUpdate"; "session_update"; "type"] ≫= value_as_str)
  else "".

Definition MAX_CUMULATIVE_CONTENT_BYTES : Z := 64 * 1024 * 1024.

(** *** Rate-limit metadata *)

Definition header_recognized (lower : string) : bool :=
  starts_with "x-codex-" lower || starts_with "x-ratelimit-" lower || starts_with "anthropic-ratelimit-" lower.

Section Headers.

(** The codec's print of a number. *)
Variable print_number : option Z -> string.

Definition header_scalar (v : Value) : option string :=
  match v with
  | Str s => Some s
  | Number n => Some (print_number n)
  | Bool b => Some (if b then "true" else "false")
  | _ => None
  end.

Fixpoint visit (v : Value) (out : gmap string string) : gmap string string :=
  match v with
  | Object entries =>
      (fix visit_entries (l : list (string * Value)) (out : gmap string string) :=
         match l with
         | [] => out
         | (name, value) :: rest =>
             let lower := to_ascii_lowercase name in
             visit_entries rest
               (if header_recognized lower
                then match header_scalar value with
                     | Some scalar => <[lower := scalar]> out
                     | None => out
                     end
                else visit value out)
         end) entries out
  | Array values =>
      (fix visit_values (l : list Value) (out : gmap string string) :=
         match l with
         | [] => out
         | value :: rest => visit_values rest (visit value out)
         end) values out
  | _ => out
  end.

Definition utilization_headers (v : Value) : gmap string string := visit v ∅.

End Headers.

Inductive AgentEvent :=
  | Text (t : string)
  | Thought (t : string)
  | ToolCall (name : string)
  | ToolResult (name : string)
  | ApprovalEvent (tool : string) (approved : bool)
  | Usage (input_tokens : Z)
  | UtilizationEvent (headers : gmap string string).

(** ** Outcomes *)

Inductive AgentOutcome :=
  | Completed | Timeout | IdleTimeout | Interrupted | Failed | CancelledTurn | MaxTokens
  | OtherOutcome (raw : string).

#[export] Instance agent_outcome_eq_dec : EqDecision AgentOutcome.
Proof. solve_decision. Defined.

Definition outcome_str (o : AgentOutcome) : string :=
  match o with
  | Completed => "completed"
  | Timeout => "timeout"
  | IdleTimeout => "idle_timeout"
  | Interrupted => "interrupted"
  | Failed => "failed"
  | CancelledTurn => "cancelled"
  | MaxTokens => "max_tokens"
  | OtherOutcome raw => raw
  end.

Definition from_wire (raw : string) : AgentOutcome :=
  if bool_decide (raw = "completed") then Completed
  else if bool_decide (raw = "timeout") then Timeout
  else if bool_decide (raw = "idle_timeout") then IdleTimeout
  else if bool_decide (raw = "interrupted") then Interrupted
  else if bool_decide (raw = "failed") then Failed
  else if bool_decide (raw = "cancelled") then CancelledTurn
  else if bool_decide (raw = "max_tokens") then MaxTokens
  else OtherOutcome raw.

Definition is_timed_out (o : AgentOutcome) : bool := bool_decide (o = Timeout) || bool_decide (o = IdleTimeout).
Definition is_cancelled (o : AgentOutcome) : bool := bool_decide (o = CancelledTurn).
Definition run_succeeded (o : AgentOutcome) : bool := bool_decide (o = Completed).

Definition terminal_failure_detail (outcome : AgentOutcome) (streamed terminal : string) : option string :=
  if negb (bool_decide (outcome = Completed)) && str_is_empty streamed && negb (str_is_empty terminal)
  then Some terminal else None.

(** ** The state of a turn *)

Inductive ReadFault := FrameOverCap | SocketError.

Inductive FailureDetail :=
  | DetailIdle (d : IdleDetail)
  | DetailRead (e : ReadFault)
  | DetailApproval (approved : bool) (tool : string)
  | DetailTerminal (text : string).

Record TurnState := {
  content : string;
  content_bytes : Z;
  input_tokens : Z;
  tool_calls : Z;
  pending_tool_results : gmap string Z;
  failure_detail : option FailureDetail;
  watchdog : IdleWatchdog;
  events : list AgentEvent;
}.

Definition new_turn (w : AgentIdleWindows) (now : Z) : TurnState :=
  {| content := ""; content_bytes := 0; input_tokens := 0; tool_calls := 0; pending_tool_results := ∅;
     failure_detail := None; watchdog := new_watchdog w now; events := [] |}.

Definition emit (s : TurnState) (e : AgentEvent) : TurnState :=
  {| content := content s; content_bytes := content_bytes s; input_tokens := input_tokens s; tool_calls := tool_calls s;
     pending_tool_results := pending_tool_results s; failure_detail := failure_detail s; watchdog := watchdog s;
     events := events s ++ [e] |}.

Definition set_watchdog (s : TurnState) (d : IdleWatchdog) : TurnState :=
  {| content := content s; content_bytes := content_bytes s; input_tokens := input_tokens s; tool_calls := tool_calls s;
     pending_tool_results := pending_tool_results s; failure_detail := failure_detail s; watchdog := d; events := events s |}.

Definition set_detail (s : TurnState) (d : option FailureDetail) : TurnState :=
  {| content := content s; content_bytes := content_bytes s; input_tokens := input_tokens s; tool_calls := tool_calls s;
     pending_tool_results := pending_tool_results s; failure_detail := d; watchdog := watchdog s; events := events s |}.

Definition set_content (s : TurnState) (c : string) : TurnState :=
  {| content := c; content_bytes := content_bytes s; input_tokens := input_tokens s; tool_calls := tool_calls s;
     pending_tool_results := pending_tool_results s; failure_detail := failure_detail s; watchdog := watchdog s; events := events s |}.

Definition push_text (s : TurnState) (t : string) (total : Z) : TurnState :=
  emit {| content := content s +:+ t; content_bytes := total; input_tokens := input_tokens s; tool_calls := tool_calls s;
          pending_tool_results := pending_tool_results s; failure_detail := failure_detail s; watchdog := watchdog s;
          events := events s |} (Text t).

Definition note_usage (s : TurnState) (n : Z) : TurnState :=
  emit {| content := content s; content_bytes := content_bytes s; input_tokens := Z.max (input_tokens s) n;
          tool_calls := tool_calls s; pending_tool_results := pending_tool_results s; failure_detail := failure_detail s;
          watchdog := watchdog s; events := events s |} (Usage n).

Definition any_pending (p : gmap string Z) : bool := existsb (fun e => 0 <? e.2) (map_to_list p).

(** The entry of a tool's name after a call and after a result. *)
Definition call_pending (name : string) (p : gmap string Z) : gmap string Z :=
  <[name := (default 0 (p !! name) + 1) mod 2 ^ 32]> p.
Definition result_pending (name : string) (p : gmap string Z) : gmap string Z :=
  match p !! name with
  | Some count => if 0 <? count then <[name := count - 1]> p else p
  | None => p
  end.

Definition count_call (s : TurnState) (name : string) : TurnState :=
  {| content := content s; content_bytes := content_bytes s; input_tokens := input_tokens s;
     tool_calls := (tool_calls s + 1) mod 2 ^ 32;
     pending_tool_results := call_pending name (pending_tool_results s);
     failure_detail := failure_detail s; watchdog := watchdog s; events := events s |}.

Definition count_tool_result (s : TurnState) (name : string) : TurnState :=
  {| content := content s; content_bytes := content_bytes s; input_tokens := input_tokens s; tool_calls := tool_calls s;
     pending_tool_results := result_pending name (pending_tool_results s);
     failure_detail := failure_detail s; watchdog := watchdog s; events := events s |}.

(** The watchdog after a frame that may have changed what is pending. *)
Definition update_wait (s : TurnState) (now : Z) : TurnState :=
  set_watchdog s (set_tool_wait (watchdog s) (any_pending (pending_tool_results s)) now).

(** ** Classification of a turn without a terminal frame *)

Definition settle_outcome (pending : gmap string Z) (content : string) (calls : Z) : AgentOutcome :=
  if any_pending pending then Interrupted
  else if str_is_empty content && (calls =? 0) then Failed
  else Timeout.

Definition classify_partial_outcome (pending : gmap string Z) (content : string) (calls : Z) : AgentOutcome :=
  if str_is_empty content && (calls =? 0) then Failed else Interrupted.

Definition classify_partial_outcome_flat (pending : option (gmap string Z)) (content : string) (calls : Z) : AgentOutcome :=
  match pending with
  | Some p => classify_partial_outcome p content calls
  | None => if str_is_empty content && (calls =? 0) then Failed else Interrupted
  end.

Definition partial_outcome (s : TurnState) : AgentOutcome :=
  classify_partial_outcome (pending_tool_results s) (content s) (tool_calls s).
Definition settled_outcome (s : TurnState) : AgentOutcome :=
  settle_outcome (pending_tool_results s) (content s) (tool_calls s).

(** ** What a frame does *)

Inductive TurnError :=
  | PromptFailed (msg : string)
  | ContentOverCap (appended : Z)
  | TerminalOverCap (bytes : Z).

Inductive FrameStep := Go (s : TurnState) | End_ (s : TurnState) (o : AgentOutcome) | Bail (e : TurnError).

Section Drive.

(** The tree and directory the approvals are decided in, the run's settings,
    and the codec's print of numbers. *)
Context (tree : Tree) (cwd : list string) (approvals : ApprovalSettings) (show_reasoning : bool)
  (print_number : option Z -> string).

Definition tool_name_of (params : Value) : string := default "tool" (value_get_str params "name").
Definition update_kind (params : Value) : string := default "" (value_get_str params "type").

Definition on_text (s : TurnState) (params : Value) : FrameStep :=
  match value_get_str params "text" with
  | Some t =>
      let new_total := u64_sat_add (content_bytes s) (Z.of_nat (String.length t)) in
      if MAX_CUMULATIVE_CONTENT_BYTES <? new_total then Bail (ContentOverCap (content_bytes s))
      else Go (push_text s t new_total)
  | None => Go s
  end.

Definition on_thought (s : TurnState) (params : Value) : TurnState :=
  match value_get_str params "text" with
  | Some t => emit s (Thought t)
  | None => s
  end.

Definition on_usage (s : TurnState) (params : Value) : TurnState :=
  match value_get params "input_tokens" ≫= value_as_u64 with
  | Some it => note_usage s it
  | None => s
  end.

Definition on_approval (s : TurnState) (params : Value) (write_ok : bool) : FrameStep :=
  let '(_, tool, approved) := zeroclaw_approval tree cwd approvals params in
  if write_ok then Go (emit s (ApprovalEvent tool approved))
  else
    let s := emit (set_detail s (Some (DetailApproval approved tool))) (ApprovalEvent tool false) in
    End_ s (partial_outcome s).

Definition on_turn_complete (s : TurnState) (params : Value) : FrameStep :=
  let oc := from_wire (default "completed" (value_get_str params "outcome")) in
  match value_get_str params "content" with
  | Some c =>
      if str_is_empty c then End_ s oc
      else if MAX_CUMULATIVE_CONTENT_BYTES <? Z.of_nat (String.length c) then Bail (TerminalOverCap (Z.of_nat (String.length c)))
      else End_ (set_content (set_detail s (DetailTerminal <$> terminal_failure_detail oc (content s) c)) c) oc
  | None => End_ s oc
  end.

Definition on_update (s : TurnState) (params : Value) (now : Z) (write_ok : bool) : FrameStep :=
  let kind := update_kind params in
  if bool_decide (kind = "agent_message_chunk") then on_text s params
  else if bool_decide (kind = "agent_thought_chunk") && show_reasoning then Go (on_thought s params)
  else if bool_decide (kind = "tool_call") then
    let name := tool_name_of params in
    Go (emit (update_wait (count_call s name) now) (ToolCall name))
  else if bool_decide (kind = "tool_result") then
    let name := tool_name_of params in
    Go (emit (update_wait (count_tool_result s name) now) (ToolResult name))
  else if bool_decide (kind = "context_usage") then Go (on_usage s params)
  else if bool_decide (kind = "approval_request") then on_approval s params write_ok
  else if bool_decide (kind = "turn_complete") then on_turn_complete s params
  else Go s.

(** A response: an error ends the turn when it answers the prompt or one of
    our approvals. *)
Definition on_response (s : TurnState) (frame : Value) : FrameStep :=
  match value_get frame "error" with
  | Some err =>
      let id := default "" (value_get_str frame "id") in
      let msg := default "error" (value_get_str err "message") in
      if bool_decide (id = "prompt") then Bail (PromptFailed msg)
      else if starts_with "approve-" id then End_ s Failed
      else Go s
  | None => Go s
  end.

(** The watchdog and the rate-limit metadata, before the dispatch. *)
Definition note_frame (s : TurnState) (frame : Value) (now : Z) : TurnState :=
  let s := set_watchdog s (note_update_kind (watchdog s) (zeroclaw_frame_kind frame) now) in
  let headers := utilization_headers print_number frame in
  if bool_decide (headers = ∅) then s else emit s (UtilizationEvent headers).

Definition on_frame (s : TurnState) (frame : Value) (now : Z) (write_ok : bool) : FrameStep :=
  let s := note_frame s frame now in
  match value_get frame "method" with
  | None => on_response s frame
  | Some _ =>
      if bool_decide (value_get_str frame "method" = Some "session/update")
      then on_update s (default Null (value_get frame "params")) now write_ok
      else Go s
  end.

(** ** The loop *)

(** What the socket delivers: a line ([None] when it is not JSON), the end of
    the stream or a read error.  [begun] is the instant its first byte can be
    read, [at_] its last, [seen] the clock when it is handled; [write_ok] says
    whether an answer written then goes through. *)
Inductive Delivery := Line (frame : option Value) (write_ok : bool) | Eof | Broken (e : ReadFault).

Record Arrival := { begun : Z; at_ : Z; seen : Z; what : Delivery }.

Definition SETTLE_BUDGET : Z := 5000.

(** A frame handled while draining: only the in-flight payload counts, and
    text over the cap is left out. *)
Definition drain_update (s : TurnState) (params : Value) : TurnState + (TurnState * AgentOutcome) :=
  let kind := update_kind params in
  if bool_decide (kind = "agent_message_chunk") then
    inl (match value_get_str params "text" with
         | Some t =>
             let new_total := u64_sat_add (content_bytes s) (Z.of_nat (String.length t)) in
             if new_total <=? MAX_CUMULATIVE_CONTENT_BYTES then push_text s t new_total else s
         | None => s
         end)
  else if bool_decide (kind = "agent_thought_chunk") && show_reasoning then inl (on_thought s params)
  else if bool_decide (kind = "tool_call") then
    let name := tool_name_of params in inl (emit (count_call s name) (ToolCall name))
  else if bool_decide (kind = "tool_result") then
    let name := tool_name_of params in inl (emit (count_tool_result s name) (ToolResult name))
  else if bool_decide (kind = "context_usage") then inl (on_usage s params)
  else if bool_decide (kind = "turn_complete") then
    let s := match value_get_str params "content" with
             | Some c =>
                 if negb (str_is_empty c) && (Z.of_nat (String.length c) <=? MAX_CUMULATIVE_CONTENT_BYTES)
                 then set_content s c else s
             | None => s
             end in
    inr (s, from_wire (default "completed" (value_get_str params "outcome")))
  else inl s.

Definition drain_frame (s : TurnState) (frame : Value) : TurnState + (TurnState * AgentOutcome) :=
  if bool_decide (default "" (value_get_str frame "method") = "session/update")
  then drain_update s (default Null (value_get frame "params"))
  else inl s.

Fixpoint drain_after_cancel (deadline now : Z) (s : TurnState) (arrivals : list Arrival) : TurnState * AgentOutcome :=
  if deadline <=? now then (s, settled_outcome s)
  else
    match arrivals with
    | [] => (s, settled_outcome s)
    | a :: rest =>
        if deadline <? at_ a then (s, settled_outcome s)
        else
          match what a with
          | Eof | Broken _ => (s, settled_outcome s)
          | Line None _ => drain_after_cancel deadline (seen a) s rest
          | Line (Some frame) _ =>
              match drain_frame s frame with
              | inl s' => drain_after_cancel deadline (seen a) s' rest
              | inr r => r
              end
          end
    end.

(** A read given up at [limit] drops the bytes it has; what is left of the
    line is no frame any more. *)
Definition torn (limit : Z) (a : Arrival) : Arrival :=
  match what a with
  | Line _ w => if begun a <=? limit then {| begun := begun a; at_ := at_ a; seen := seen a; what := Line None w |} else a
  | _ => a
  end.

Inductive TurnResult := Run (s : TurnState) (o : AgentOutcome) | Error (e : TurnError).

(** [wake t] is the clock when a timer set for [t] has fired. *)
Context (wake : Z -> Z) (model_id model_override : option string) (agent_alias : string).

(** The read was not answered by its deadline. *)
Definition on_timeout (deadline : Z) (s : TurnState) (arrivals : list Arrival) : TurnResult :=
  let idle := idle_deadline (watchdog s) in
  let limit := idle_read_deadline idle deadline in
  let now := wake limit in
  if idle_fired idle deadline now
  then Run (set_detail s (Some (DetailIdle (idle_timeout_detail model_id model_override agent_alias (watchdog s) now)))) IdleTimeout
  else
    let arrivals := match arrivals with [] => [] | a :: rest => torn limit a :: rest end in
    let '(s, o) := drain_after_cancel (now + SETTLE_BUDGET) now s arrivals in Run s o.

Fixpoint turn_loop (deadline : Z) (s : TurnState) (arrivals : list Arrival) : TurnResult :=
  match arrivals with
  | [] => on_timeout deadline s arrivals
  | a :: rest =>
      if idle_read_deadline (idle_deadline (watchdog s)) deadline <? at_ a then on_timeout deadline s arrivals
      else
        match what a with
        | Eof => Run s (partial_outcome s)
        | Broken e => let s := set_detail s (Some (DetailRead e)) in Run s (partial_outcome s)
        | Line None _ => turn_loop deadline s rest
        | Line (Some frame) write_ok =>
            match on_frame s frame (seen a) write_ok with
            | Go s' => turn_loop deadline s' rest
            | End_ s' o => Run s' o
            | Bail e => Error e
            end
        end
  end.

End Drive.

(** ** Outcomes on the wire *)

(** Reading an outcome's wire string gives it back, and writing what was read
    gives the engine's own string back. *)
Lemma outcome_wire_roundtrip raw o :
  outcome_str (from_wire raw) = raw /\ ((forall r, o <> OtherOutcome r) -> from_wire (outcome_str o) = o).
Proof.
  split; [|by destruct o; try done; intros H; destruct (H raw0)].
  unfold from_wire. by repeat case_bool_decide; subst.
Qed.

(** ** Only rate-limit headers leave the engine's metadata *)

Section Headers.
Variable print_number : option Z -> string.

(** A nested induction for JSON values. *)
Lemma value_ind (P : Value -> Prop) :
  P Null -> (forall b, P (Bool b)) -> (forall n, P (Number n)) -> (forall s, P (Str s)) ->
  (forall l, Forall P l -> P (Array l)) -> (forall l, Forall (fun e => P e.2) l -> P (Object l)) ->
  forall v, P v.
Proof.
  intros H0 H1 H2 H3 H4 H5. fix IH 1. intros [|b|n|s|l|l]; [done|apply H1|apply H2|apply H3| |].
  - apply H4. induction l as [|v l IHl]; constructor; [apply IH|done].
  - apply H5. induction l as [|[k v] l IHl]; constructor; [apply IH|done].
Qed.

Lemma headers_recognized v : map_Forall (fun k _ => header_recognized k = true) (utilization_headers print_number v).
Proof.
  unfold utilization_headers. assert (He : map_Forall (fun k (_ : string) => header_recognized k = true) ∅) by apply map_Forall_empty.
  revert He. generalize (∅ : gmap string string). induction v as [|b|n|s|l IH|l IH] using value_ind; intros out He; try done; cbn [visit].
  - revert out He. induction IH as [|v l Hv _ IHl]; intros out He; [done|]. apply IHl, Hv, He.
  - revert out He. induction IH as [|[k v] l Hv _ IHl]; intros out He; [done|]. apply IHl.
    destruct (header_recognized (to_ascii_lowercase k)) eqn:Hk; [|by apply Hv].
    destruct (header_scalar print_number v); [|done]. by apply map_Forall_insert_2.
Qed.

End Headers.

(** ** The watchdog *)

Definition watchdog_wf (d : IdleWatchdog) : Prop := phase d = BetweenEvents <-> is_Some (last_substantive d).

Lemma watchdog_wf_steps d kind w now : watchdog_wf d ->
  watchdog_wf (note_update_kind d kind now) /\ watchdog_wf (set_tool_wait d w now).
Proof.
  unfold watchdog_wf, note_update_kind, note_substantive_event, set_tool_wait, note_tool_round_complete. intros Hd. split.
  - destruct (substantive_kind kind); [|done]. cbn. destruct (phase d); naive_solver.
  - destruct (negb w && tool_wait d); cbn; [|done]. split; [done|]. by intros [].
Qed.

(** The total budget bounds every read, and a read given up at the earlier
    deadline is an idle timeout exactly when that deadline is the idle one. *)
Lemma read_deadline_exact idle overall wake : idle_read_deadline idle overall <= wake ->
  idle_read_deadline idle overall <= overall /\
  (idle_fired idle overall wake = true <-> exists i, idle = Some i /\ i < overall).
Proof.
  unfold idle_read_deadline, idle_fired. destruct idle as [i|]; [|split; [lia|naive_solver]].
  destruct (Z.ltb_spec i overall); cbn; intros Hw; (split; [lia|]).
  - rewrite Z.leb_le. split; [eauto|done].
  - split; [done|]. intros (j & [= ->] & ?). lia.
Qed.

(** ** The turn *)

Section TurnFacts.

Context (tree : Tree) (cwd : list string) (approvals : ApprovalSettings) (show_reasoning : bool)
  (print_number : option Z -> string).

Local Notation handle := (on_frame tree cwd approvals show_reasoning print_number).
Local Notation handle_update := (on_update tree cwd approvals show_reasoning).
Local Notation drain := (drain_after_cancel show_reasoning).

(** A line that arrived by the read's deadline and left the turn running. *)
Inductive consumed (deadline : Z) : TurnState -> list Arrival -> TurnState -> Prop :=
  | consumed_nil s : consumed deadline s [] s
  | consumed_junk s a l s' w :
      what a = Line None w -> at_ a <= idle_read_deadline (idle_deadline (watchdog s)) deadline ->
      consumed deadline s l s' -> consumed deadline s (a :: l) s'
  | consumed_frame s a l s1 s' f w :
      what a = Line (Some f) w -> at_ a <= idle_read_deadline (idle_deadline (watchdog s)) deadline ->
      handle s f (seen a) w = Go s1 -> consumed deadline s1 l s' -> consumed deadline s (a :: l) s'.

(** The next read of a turn in state [s] times out on what is left. *)
Definition silent (deadline : Z) (s : TurnState) (post : list Arrival) : Prop :=
  match post with
  | [] => True
  | a :: _ => idle_read_deadline (idle_deadline (watchdog s)) deadline < at_ a
  end.

Section Loop.
Context (wake : Z -> Z) (model_id model_override : option string) (agent_alias : string).

Local Notation timed_out := (on_timeout show_reasoning wake model_id model_override agent_alias).
Local Notation run_loop :=
  (turn_loop tree cwd approvals show_reasoning print_number wake model_id model_override agent_alias).

(** How a turn ends, after the lines it consumed. *)
Inductive turn_end (deadline : Z) (s : TurnState) : list Arrival -> TurnResult -> Prop :=
  | end_silence post : silent deadline s post -> turn_end deadline s post (timed_out deadline s post)
  | end_eof a post : what a = Eof -> turn_end deadline s (a :: post) (Run s (partial_outcome s))
  | end_broken a post e : what a = Broken e ->
      turn_end deadline s (a :: post) (Run (set_detail s (Some (DetailRead e))) (partial_outcome (set_detail s (Some (DetailRead e)))))
  | end_frame a post f w s' o : what a = Line (Some f) w -> handle s f (seen a) w = End_ s' o ->
      turn_end deadline s (a :: post) (Run s' o)
  | end_bail a post f w e : what a = Line (Some f) w -> handle s f (seen a) w = Bail e ->
      turn_end deadline s (a :: post) (Error e).

Lemma turn_loop_decompose deadline arrivals s : exists pre post s',
  arrivals = pre ++ post /\ consumed deadline s pre s' /\ turn_end deadline s' post (run_loop deadline s arrivals).
Proof.
  revert s. induction arrivals as [|a rest IH]; intros s.
  { exists [], [], s. split_and!; [done|constructor|by apply end_silence]. }
  cbn [turn_loop]. destruct (Z.ltb_spec (idle_read_deadline (idle_deadline (watchdog s)) deadline) (at_ a)).
  { exists [], (a :: rest), s. split_and!; [done|constructor|by apply end_silence]. }
  destruct (what a) as [[f|] w| |e] eqn:Hw.
  - destruct (handle s f (seen a) w) as [s1|s1 o|e] eqn:Hf.
    + destruct (IH s1) as (pre & post & s' & -> & Hc & He). exists (a :: pre), post, s'.
      split_and!; [done| |done]. by eapply consumed_frame.
    + exists [], (a :: rest), s. split_and!; [done|constructor|by eapply end_frame].
    + exists [], (a :: rest), s. split_and!; [done|constructor|by eapply end_bail].
  - destruct (IH s) as (pre & post & s' & -> & Hc & He). exists (a :: pre), post, s'.
    split_and!; [done| |done]. by eapply consumed_junk.
  - exists [], (a :: rest), s. split_and!; [done|constructor|by apply end_eof].
  - exists [], (a :: rest), s. split_and!; [done|apply consumed_nil|]. by apply end_broken.
Qed.

End Loop.

(** *** What a running turn keeps *)

Definition shown (l : list AgentEvent) : string :=
  join "" (map (fun e => match e with Text t => t | _ => "" end) l).

Record turn_wf (s : TurnState) : Prop := {
  wf_shown : content s = shown (events s);
  wf_bytes : content_bytes s = Z.of_nat (String.length (content s));
  wf_cap : content_bytes s <= MAX_CUMULATIVE_CONTENT_BYTES;
  wf_calls : 0 <= tool_calls s < 2 ^ 32;
  wf_wait : tool_wait (watchdog s) = any_pending (pending_tool_results s);
  wf_watch : watchdog_wf (watchdog s);
}.

Lemma new_turn_wf w now : turn_wf (new_turn w now).
Proof. constructor; try done. unfold watchdog_wf. cbn. split; [done|]. by intros []. Qed.

Lemma shown_snoc l e : shown (l ++ [e]) = shown l +:+ match e with Text t => t | _ => "" end.
Proof. unfold shown. by rewrite map_app, join_app. Qed.

Ltac wf_split H := destruct H as [Hshown Hbytes Hcap Hcalls Hwait Hwatch].

Lemma emit_wf s e : (forall t, e <> Text t) -> turn_wf s -> turn_wf (emit s e).
Proof.
  intros He H. wf_split H. constructor; try done. cbn [content events emit]. rewrite shown_snoc, Hshown. destruct e; try by rewrite str_app_nil.
  by destruct (He t).
Qed.

Lemma push_text_wf s t : turn_wf s ->
  let total := u64_sat_add (content_bytes s) (Z.of_nat (String.length t)) in
  total <= MAX_CUMULATIVE_CONTENT_BYTES -> turn_wf (push_text s t total).
Proof.
  intros H total Ht. wf_split H. constructor; try done; cbn [content content_bytes events emit push_text].
  - by rewrite shown_snoc, Hshown.
  - rewrite str_length_app. subst total. unfold u64_sat_add, U64_MAX, MAX_CUMULATIVE_CONTENT_BYTES in *. lia.
Qed.

Lemma note_frame_wf s f now : turn_wf s -> turn_wf (note_frame print_number s f now).
Proof.
  intros H. unfold note_frame. assert (Hw : turn_wf (set_watchdog s (note_update_kind (watchdog s) (zeroclaw_frame_kind f) now))).
  { wf_split H. constructor; try done; cbn; [|by apply (watchdog_wf_steps _ _ false)].
    unfold note_update_kind, note_substantive_event, note_metadata_event. by destruct (substantive_kind _). }
  case_bool_decide; [done|]. by apply emit_wf.
Qed.

Lemma set_tool_wait_wait d w now : tool_wait (set_tool_wait d w now) = w.
Proof. unfold set_tool_wait. destruct w, (tool_wait d) eqn:E; done. Qed.

Lemma update_wait_wf s s' now : turn_wf s -> content s' = content s -> content_bytes s' = content_bytes s ->
  events s' = events s -> watchdog s' = watchdog s -> 0 <= tool_calls s' < 2 ^ 32 -> turn_wf (update_wait s' now).
Proof.
  intros H Hc Hb He Hd Ht. wf_split H. constructor; cbn; rewrite ?Hc, ?Hb, ?He, ?Hd; try done.
  - apply set_tool_wait_wait.
  - by apply (watchdog_wf_steps _ "").
Qed.

(** A frame that says how the turn ended, and the text it may carry. *)
Definition says (f : Value) (o : AgentOutcome) : Prop :=
  exists p, value_get_str f "method" = Some "session/update" /\ value_get f "params" = Some p /\
    value_get_str p "type" = Some "turn_complete" /\ o = from_wire (default "completed" (value_get_str p "outcome")).

Definition carries (f : Value) (c : string) : Prop :=
  exists p, value_get f "params" = Some p /\ value_get_str p "type" = Some "turn_complete" /\
    value_get_str p "content" = Some c /\ c <> "".

(** What the caller is left with: the text it was shown, or the text of a
    terminal frame, never more than the cap. *)
Definition kept (s : TurnState) (from : Value -> Prop) : Prop :=
  Z.of_nat (String.length (content s)) <= MAX_CUMULATIVE_CONTENT_BYTES /\
  (content s = shown (events s) \/ exists f, from f /\ carries f (content s)).

Lemma wf_kept s from : turn_wf s -> kept s from.
Proof. intros H. wf_split H. split; [lia|by left]. Qed.

Definition step_ok (f : Value) (r : FrameStep) : Prop :=
  match r with
  | Go s => turn_wf s
  | End_ s o => kept s (eq f) /\ (o = Failed \/ o = Interrupted \/ says f o)
  | Bail _ => True
  end.

Lemma update_kind_Some p k : update_kind p = k -> k <> "" -> value_get_str p "type" = Some k.
Proof. unfold update_kind. destruct (value_get_str p "type"); cbn; [by intros ->|done]. Qed.

Lemma params_Some f k : update_kind (default Null (value_get f "params")) = k -> k <> "" ->
  exists p, value_get f "params" = Some p /\ value_get_str p "type" = Some k.
Proof. destruct (value_get f "params") as [p|]; cbn; [|done]. intros. exists p. split; [done|by apply update_kind_Some]. Qed.

Lemma partial_cases p c n : classify_partial_outcome p c n = Failed \/ classify_partial_outcome p c n = Interrupted.
Proof. unfold classify_partial_outcome. destruct (_ && _); auto. Qed.

Lemma str_is_empty_ne c : str_is_empty c = false -> c <> "".
Proof. by destruct c. Qed.

Lemma on_terminal_ok s f p : turn_wf s -> value_get_str f "method" = Some "session/update" ->
  value_get f "params" = Some p -> value_get_str p "type" = Some "turn_complete" -> step_ok f (on_turn_complete s p).
Proof.
  intros Hs Hm Hp Ht. assert (Hsays : says f (from_wire (default "completed" (value_get_str p "outcome")))) by (exists p; done).
  unfold on_turn_complete. destruct (value_get_str p "content") as [c|] eqn:Hc.
  - destruct (str_is_empty c) eqn:Hne; [by split; [apply wf_kept|auto]|].
    destruct (Z.ltb_spec MAX_CUMULATIVE_CONTENT_BYTES (Z.of_nat (String.length c))); [done|]. split; [|auto].
    split; [cbn; lia|]. right. exists f. split; [done|]. exists p. split_and!; [done..|by apply str_is_empty_ne].
  - split; [by apply wf_kept|auto].
Qed.

Lemma on_frame_ok s f now w : turn_wf s -> step_ok f (handle s f now w).
Proof.
  intros H. unfold on_frame. pose proof (note_frame_wf s f now H) as Hn. revert Hn.
  generalize (note_frame print_number s f now). clear s H. intros s H. pose proof H as Hs. wf_split Hs.
  destruct (value_get f "method") as [m|] eqn:Hmeth.
  2:{ unfold on_response. destruct (value_get f "error"); [|done]. repeat case_bool_decide; [done|].
      destruct (starts_with _ _); [|done]. split; [by apply wf_kept|auto]. }
  case_bool_decide as Hm; [|done]. unfold on_update.
  case_bool_decide as Hk; [|clear Hk; case_bool_decide as Hk; cbn [andb]; [destruct show_reasoning|]].
  - unfold on_text. destruct (value_get_str _ "text") as [t|]; [|done].
    destruct (Z.ltb_spec MAX_CUMULATIVE_CONTENT_BYTES (u64_sat_add (content_bytes s) (Z.of_nat (String.length t)))); [done|].
    by apply push_text_wf.
  - cbn. unfold on_thought. destruct (value_get_str _ "text"); [|done]. by apply emit_wf.
  - rewrite Hk. done.
  - clear Hk. repeat case_bool_decide; try done; cbn.
    + apply emit_wf; [done|]. apply (update_wait_wf s); try done. cbn. by apply Z.mod_pos_bound.
    + apply emit_wf; [done|]. by apply (update_wait_wf s).
    + unfold on_usage. destruct (_ ≫= _); [|done]. apply emit_wf; [done|]. by constructor.
    + unfold on_approval. unfold zeroclaw_approval. destruct w; [by apply emit_wf|].
      split; [apply wf_kept, emit_wf; [done|by constructor]|]. unfold partial_outcome. destruct (partial_cases
        (pending_tool_results s) (content s) (tool_calls s)); auto.
    + destruct (params_Some f _ H4) as (p & Hp & Ht); [done|]. rewrite Hp. by apply on_terminal_ok.
Qed.

Lemma consumed_wf deadline s l s' : consumed deadline s l s' -> turn_wf s -> turn_wf s'.
Proof.
  induction 1 as [|?????????|? a l s1 s' f w ?? Hf _ IH]; auto. intros Hs. apply IH.
  pose proof (on_frame_ok s f (seen a) w Hs) as Hok. by rewrite Hf in Hok.
Qed.

(** The frames of a list of arrivals. *)
Definition frame_of (l : list Arrival) (f : Value) : Prop := exists a w, a ∈ l /\ what a = Line (Some f) w.

Lemma kept_mono s (p q : Value -> Prop) : (forall f, p f -> q f) -> kept s p -> kept s q.
Proof. intros Hpq [? [?|(f & ? & ?)]]; (split; [done|]); [by left|right; eauto]. Qed.

(** The part of the invariant a drain keeps: it does not feed the watchdog. *)
Definition text_ok (s : TurnState) : Prop :=
  content s = shown (events s) /\ content_bytes s = Z.of_nat (String.length (content s)) /\
  content_bytes s <= MAX_CUMULATIVE_CONTENT_BYTES.

Lemma text_ok_emit s e : (forall t, e <> Text t) -> text_ok s -> text_ok (emit s e).
Proof.
  intros He (H1 & H2 & H3). split_and!; [|done..]. cbn [content events emit]. rewrite shown_snoc, H1.
  destruct e; try by rewrite str_app_nil. by destruct (He t).
Qed.

Lemma drain_frame_ok s f : text_ok s ->
  match drain_frame show_reasoning s f with
  | inl s' => text_ok s'
  | inr (s', o) => kept s' (eq f) /\ says f o
  end.
Proof.
  intros H. unfold drain_frame. case_bool_decide as Hm; [|done]. unfold drain_update.
  assert (Hmeth : value_get_str f "method" = Some "session/update").
  { destruct (value_get_str f "method"); cbn in Hm; by subst. }
  case_bool_decide as Hk; [|clear Hk; case_bool_decide as Hk; cbn [andb]; [destruct show_reasoning|]].
  - destruct (value_get_str _ "text") as [t|]; [|done].
    destruct (Z.leb_spec (u64_sat_add (content_bytes s) (Z.of_nat (String.length t))) MAX_CUMULATIVE_CONTENT_BYTES) as [Hle|]; [|done].
    destruct H as (H1 & H2 & H3). split_and!; cbn [content content_bytes events emit push_text]; [by rewrite shown_snoc, H1| |done].
    rewrite str_length_app. unfold u64_sat_add, U64_MAX, MAX_CUMULATIVE_CONTENT_BYTES in *. lia.
  - unfold on_thought. destruct (value_get_str _ "text"); [|done]. by apply text_ok_emit.
  - by rewrite Hk.
  - clear Hk. repeat case_bool_decide; try done; try (by apply text_ok_emit).
    { unfold on_usage. destruct (_ ≫= _); [|done]. by apply text_ok_emit. }
    destruct (params_Some f "turn_complete") as (p & Hp & Ht); [done..|]. rewrite Hp. change (default Null (Some p)) with p.
    split; [|by exists p]. destruct H as (Hs1 & Hs2 & Hs3).
    assert (Hkeep : kept s (eq f)) by (split; [lia|by left]).
    destruct (value_get_str p "content") as [c|] eqn:Hc; [|done].
    destruct (str_is_empty c) eqn:He; cbn [negb andb]; [done|].
    destruct (Z.leb_spec (Z.of_nat (String.length c)) MAX_CUMULATIVE_CONTENT_BYTES); [|done].
    split; [done|]. right. exists f. split; [done|]. exists p. split_and!; [done..|by apply str_is_empty_ne].
Qed.

Lemma settle_cases p c n : settle_outcome p c n ∈ [Failed; Interrupted; Timeout].
Proof. unfold settle_outcome. destruct (any_pending p); [|destruct (str_is_empty c && (n =? 0))]; rewrite !elem_of_cons; auto. Qed.

Lemma drain_ok deadline now s l s' o : text_ok s -> drain deadline now s l = (s', o) ->
  kept s' (frame_of l) /\ (o ∈ [Failed; Interrupted; Timeout] \/ exists f, frame_of l f /\ says f o).
Proof.
  assert (Hend : forall s l, text_ok s -> kept s (frame_of l) /\
    (settled_outcome s ∈ [Failed; Interrupted; Timeout] \/ exists f, frame_of l f /\ says f (settled_outcome s))).
  { intros s0 l0 (H1 & H2 & H3). split; [split; [lia|by left]|left; apply settle_cases]. }
  assert (Hcons : forall a (l : list Arrival) f, frame_of l f -> frame_of (a :: l) f).
  { intros a l0 f (b & w & ? & ?). exists b, w. split; [by right|done]. }
  revert now s. induction l as [|a l IH]; intros now s Hs; cbn [drain_after_cancel].
  { destruct (_ <=? _); intros [= <- <-]; by apply Hend. }
  destruct (_ <=? _); [intros [= <- <-]; by apply Hend|].
  destruct (_ <? _); [intros [= <- <-]; by apply Hend|].
  destruct (what a) as [[f|] w| |e] eqn:Hw; try (intros [= <- <-]; by apply Hend).
  - pose proof (drain_frame_ok s f Hs) as Hf. destruct (drain_frame show_reasoning s f) as [s1|[s1 o1]].
    + intros Hd. destruct (IH _ _ Hf Hd) as [Hk Ho]. split; [eapply kept_mono, Hk; apply Hcons|]. destruct Ho as [|(g & ? & ?)]; eauto.
    + intros [= <- <-]. destruct Hf as [Hk Hsay].
      assert (Hfa : frame_of (a :: l) f) by (exists a, w; split; [by left|done]).
      split; [eapply kept_mono, Hk; by intros ? <-|]. eauto.
  - intros Hd. destruct (IH _ _ Hs Hd) as [Hk Ho]. split; [eapply kept_mono, Hk; apply Hcons|]. destruct Ho as [|(g & ? & ?)]; eauto.
Qed.

Lemma torn_frames limit a l f : frame_of (torn limit a :: l) f -> frame_of (a :: l) f.
Proof.
  intros (b & w & Hb & Hw). apply elem_of_cons in Hb as [->|Hb]; [|exists b, w; split; [by right|done]].
  exists a, w. split; [by left|]. unfold torn in Hw. destruct (what a) as [g v| |] eqn:E; rewrite ?E in Hw; try done.
  destruct (begun a <=? limit); cbn in Hw; congruence.
Qed.

Lemma wf_text_ok s : turn_wf s -> text_ok s.
Proof. intros H. wf_split H. done. Qed.

Context (wake : Z -> Z) (model_id model_override : option string) (agent_alias : string).

Local Notation run_loop :=
  (turn_loop tree cwd approvals show_reasoning print_number wake model_id model_override agent_alias).
Local Notation timed_out := (on_timeout show_reasoning wake model_id model_override agent_alias).

(** C12: A turn's outcome is one of the four failures or the one a terminal
    frame said, so it completes only when the engine said so; and what the
    caller gets is the text it was shown, or a terminal frame's own, never more
    than the cap. *)
Theorem turn_outcome_sound w start deadline arrivals s o :
  run_loop deadline (new_turn w start) arrivals = Run s o ->
  kept s (frame_of arrivals) /\
  (o ∈ [Failed; Interrupted; Timeout; IdleTimeout] \/ exists f, frame_of arrivals f /\ says f o).
Proof.
  intros Hrun. destruct (turn_loop_decompose wake model_id model_override agent_alias deadline arrivals (new_turn w start)) as (pre & post & s0 & -> & Hc & He).
  rewrite Hrun in He. clear Hrun. apply consumed_wf in Hc; [|apply new_turn_wf].
  assert (Happ : forall f, frame_of post f -> frame_of (pre ++ post) f).
  { intros f (a & v & ? & ?). exists a, v. split; [apply elem_of_app; by right|done]. }
  assert (Hpart : forall s1, turn_wf s1 -> kept s1 (frame_of (pre ++ post)) /\
    (partial_outcome s1 ∈ [Failed; Interrupted; Timeout; IdleTimeout] \/ exists f, frame_of (pre ++ post) f /\ says f (partial_outcome s1))).
  { intros s1 H1. split; [by apply wf_kept|left]. unfold partial_outcome.
    destruct (partial_cases (pending_tool_results s1) (content s1) (tool_calls s1)) as [->| ->]; rewrite !elem_of_cons; auto. }
  inversion He as [? Hs Heq| | |a post' f v s1 o1 Hw Hf|]; subst.
  - unfold on_timeout in *. destruct (idle_fired _ _ _).
    + simplify_eq. split; [by apply wf_kept; constructor; destruct Hc|]. left. rewrite !elem_of_cons. auto.
    + destruct (drain _ _ s0 _) as [s1 o1] eqn:Hd. simplify_eq.
      apply drain_ok in Hd as [Hk Ho]; [|by apply wf_text_ok].
      assert (Ht : forall f, frame_of match post with [] => [] | a :: rest =>
        torn (idle_read_deadline (idle_deadline (watchdog s0)) deadline) a :: rest end f -> frame_of post f).
      { intros f. destruct post; [done|apply torn_frames]. }
      split; [eapply kept_mono, Hk; auto|]. destruct Ho as [Ho|(f & ? & ?)]; [left|right; eauto].
      apply (elem_of_app [Failed; Interrupted; Timeout] [IdleTimeout]). by left.
  - by apply Hpart.
  - apply Hpart. by constructor; destruct Hc.
  - pose proof (on_frame_ok s0 f (seen a) v Hc) as Hok. rewrite Hf in Hok. destruct Hok as [Hk Ho].
    assert (Hfr : frame_of (pre ++ a :: post') f) by (apply Happ; exists a, v; split; [by left|done]).
    split; [eapply kept_mono, Hk; by intros ? <-|].
    destruct Ho as [->|[->|Ho]]; [left; rewrite !elem_of_cons; auto..|eauto].
Qed.

(** *** Silence, from the frames alone *)

(** What a frame does to the pending calls. *)
Definition pending_step (f : Value) (p : gmap string Z) : gmap string Z :=
  if bool_decide (value_get_str f "method" = Some "session/update") then
    let params := default Null (value_get f "params") in
    if bool_decide (update_kind params = "tool_call") then call_pending (tool_name_of params) p
    else if bool_decide (update_kind params = "tool_result") then result_pending (tool_name_of params) p
    else p
  else p.

(** A frame as the watchdog's specification sees it: when it was handled,
    whether it was output, and whether it closed the last pending call. *)
Record Beat := { beat_seen : Z; beat_output : bool; beat_ends_round : bool }.

Fixpoint beats (p : gmap string Z) (l : list Arrival) : list Beat :=
  match l with
  | [] => []
  | a :: l =>
      match what a with
      | Line (Some f) _ =>
          let p' := pending_step f p in
          {| beat_seen := seen a; beat_output := substantive_kind (zeroclaw_frame_kind f);
             beat_ends_round := any_pending p && negb (any_pending p') |} :: beats p' l
      | _ => beats p l
      end
  end.

Fixpoint pending_after (p : gmap string Z) (l : list Arrival) : gmap string Z :=
  match l with
  | [] => p
  | a :: l => pending_after (match what a with Line (Some f) _ => pending_step f p | _ => p end) l
  end.

Definition beat_base (b : Beat) : IdleWindowPhase * Z :=
  (if beat_ends_round b then FirstEvent else BetweenEvents, beat_seen b).

(** The phase and the instant silence is measured from: the latest frame that
    closed a tool round or was output, or the start of the turn. *)
Definition silence_base (init : IdleWindowPhase * Z) (l : list Beat) : IdleWindowPhase * Z :=
  match find_first (fun b => beat_ends_round b || beat_output b) (rev l) with
  | Some b => beat_base b
  | None => init
  end.

Definition window_of (w : AgentIdleWindows) (ph : IdleWindowPhase) : option Z :=
  match ph with FirstEvent => aw_first_event w | BetweenEvents => aw_between_events w end.

(** The instant an idle turn is given up, after the arrivals of [l]. *)
Definition silence_limit (w : AgentIdleWindows) (start : Z) (l : list Arrival) : option Z :=
  if any_pending (pending_after ∅ l) then None
  else let '(ph, base) := silence_base (FirstEvent, start) (beats ∅ l) in
       (fun win => base + win) <$> window_of w ph.

Lemma silence_base_cons init b l :
  silence_base init (b :: l) =
  silence_base (if beat_ends_round b || beat_output b then beat_base b else init) l.
Proof.
  unfold silence_base. cbn [rev]. rewrite find_first_app. destruct (find_first _ (rev l)); [done|]. cbn.
  by destruct (_ || _).
Qed.

(** What the watchdog's state stands for. *)
Definition watch_base (d : IdleWatchdog) : IdleWindowPhase * Z :=
  (phase d, match phase d with FirstEvent => phase_start d | BetweenEvents => default (phase_start d) (last_substantive d) end).

Lemma set_tool_wait_same d now : set_tool_wait d (tool_wait d) now = d.
Proof. unfold set_tool_wait. by destruct d as [? ? ? ? []]. Qed.

(** The watchdog after a frame: the note of its kind, then the wait its tool
    call or result leaves. *)
Definition watched (s' : TurnState) (d : IdleWatchdog) (p : gmap string Z) (now : Z) : Prop :=
  pending_tool_results s' = p /\ watchdog s' = set_tool_wait d (any_pending p) now.

Lemma watched_same s s' now : turn_wf s -> pending_tool_results s' = pending_tool_results s -> watchdog s' = watchdog s ->
  watched s' (watchdog s) (pending_tool_results s) now.
Proof. intros H Hp Hd. wf_split H. split; [done|]. by rewrite Hd, <- Hwait, set_tool_wait_same. Qed.

Lemma on_frame_watched s f now w s' : turn_wf s -> handle s f now w = Go s' ->
  watched s' (note_update_kind (watchdog s) (zeroclaw_frame_kind f) now) (pending_step f (pending_tool_results s)) now.
Proof.
  intros H Hf. unfold on_frame in Hf. pose proof (note_frame_wf s f now H) as Hn.
  assert (Hd : watchdog (note_frame print_number s f now) = note_update_kind (watchdog s) (zeroclaw_frame_kind f) now /\
               pending_tool_results (note_frame print_number s f now) = pending_tool_results s).
  { unfold note_frame. by destruct (bool_decide (utilization_headers print_number f = ∅)). }
  destruct Hd as [<- <-]. revert Hn Hf. generalize (note_frame print_number s f now). clear s H. intros s H Hf.
  unfold pending_step. destruct (value_get f "method") as [m|] eqn:Hmeth.
  2:{ rewrite bool_decide_false by (unfold value_get_str; by rewrite Hmeth).
      unfold on_response in Hf. destruct (value_get f "error"); repeat case_bool_decide; simplify_eq; try done;
        try destruct (starts_with _ _); simplify_eq; by apply watched_same. }
  case_bool_decide as Hm; [|simplify_eq; by apply watched_same]. unfold on_update in Hf.
  revert Hf. generalize (default Null (value_get f "params")). intros params Hf.
  case_bool_decide as Hk; [|clear Hk; destruct (bool_decide (_ = "agent_thought_chunk") && show_reasoning) eqn:Hr].
  - rewrite Hk. unfold on_text in Hf. destruct (value_get_str _ "text"); [destruct (_ <? _); [done|]|]; simplify_eq; by apply watched_same.
  - apply andb_true_iff in Hr as [Hk%bool_decide_eq_true _]. rewrite Hk. simplify_eq. unfold on_thought.
    destruct (value_get_str _ "text"); by apply watched_same.
  - clear Hr. repeat case_bool_decide; lazymatch type of Hf with Go _ = Go _ => injection Hf as <- | _ => idtac end;
      try done; try (by apply watched_same).
    + unfold on_usage. destruct (_ ≫= _); by apply watched_same.
    + unfold on_approval in Hf. destruct w; [|done]. unfold zeroclaw_approval in Hf. simplify_eq. by apply watched_same.
    + unfold on_turn_complete in Hf. destruct (value_get_str _ "content"); [|done].
      destruct (str_is_empty _); [done|]. by destruct (_ <? _).
Qed.

Lemma watch_base_step d kind b now : watchdog_wf d ->
  watch_base (set_tool_wait (note_update_kind d kind now) b now) =
  if tool_wait d && negb b then (FirstEvent, now) else if substantive_kind kind then (BetweenEvents, now) else watch_base d.
Proof.
  unfold watchdog_wf, note_update_kind, note_substantive_event, note_metadata_event, set_tool_wait, watch_base.
  intros Hd. destruct (substantive_kind kind); destruct b, (tool_wait d); cbn; try done; by destruct (phase d).
Qed.

Lemma consumed_silence deadline s l s' : consumed deadline s l s' -> turn_wf s ->
  watch_base (watchdog s') = silence_base (watch_base (watchdog s)) (beats (pending_tool_results s) l) /\
  pending_tool_results s' = pending_after (pending_tool_results s) l /\
  wd_windows (watchdog s') = wd_windows (watchdog s).
Proof.
  induction 1 as [s|s a l s' w Hw Ht _ IH|s a l s1 s' f w Hw Ht Hf _ IH]; intros Hs; cbn [beats pending_after].
  - done.
  - rewrite Hw. by apply IH.
  - rewrite Hw. pose proof (on_frame_ok s f (seen a) w Hs) as Hok. rewrite Hf in Hok.
    destruct (on_frame_watched _ _ _ _ _ Hs Hf) as [Hp Hd]. destruct (IH Hok) as (IH1 & IH2 & IH3).
    wf_split Hs. rewrite silence_base_cons, IH1, IH2, IH3, Hp, Hd, watch_base_step by done. split_and!; [|done|].
    + f_equal. cbn [beat_ends_round beat_output]. unfold beat_base. cbn [beat_ends_round beat_seen]. rewrite Hwait.
      by destruct (any_pending (pending_tool_results s)), (any_pending (pending_step f (pending_tool_results s))), (substantive_kind _).
    + unfold set_tool_wait, note_update_kind, note_substantive_event. by destruct (substantive_kind _), (_ && _).
Qed.

Lemma consumed_run deadline s pre s' post : consumed deadline s pre s' ->
  run_loop deadline s (pre ++ post) = run_loop deadline s' post.
Proof.
  induction 1 as [|s a l s' w Hw Ht _ IH|s a l s1 s' f w Hw Ht Hf _ IH]; [done| |]; cbn [app turn_loop];
    rewrite (proj2 (Z.ltb_ge _ _) Ht), Hw; [done|]. by rewrite Hf.
Qed.

Lemma idle_deadline_base d : idle_deadline d =
  if tool_wait d then None else (fun win => (watch_base d).2 + win) <$> window_of (wd_windows d) (watch_base d).1.
Proof. unfold idle_deadline, active_window, watch_base, window_of. by destruct (tool_wait d), (phase d). Qed.

(** After the lines it consumed the watchdog's deadline is the one the
    frames themselves give. *)
Lemma consumed_limit deadline w start l s : consumed deadline (new_turn w start) l s ->
  idle_deadline (watchdog s) = silence_limit w start l /\ turn_wf s.
Proof.
  intros Hc. pose proof (consumed_wf _ _ _ _ Hc (new_turn_wf w start)) as Hs.
  destruct (consumed_silence _ _ _ _ Hc (new_turn_wf w start)) as (Hb & Hp & Hw). split; [|done].
  wf_split Hs. rewrite idle_deadline_base, Hwait, Hp, Hb, Hw. unfold silence_limit. cbn [new_turn pending_tool_results watchdog].
  destruct (any_pending (pending_after ∅ l)); [done|]. change (watch_base (new_watchdog w start)) with (FirstEvent, start).
  by destruct (silence_base (FirstEvent, start) (beats ∅ l)).
Qed.

(** The turn consumed [pre], no tool is running after it, and the next line is
    not there when the window measured from the latest output or tool round
    has passed, before the total budget has. *)
Definition fell_silent (deadline : Z) (w : AgentIdleWindows) (start : Z) (arrivals : list Arrival) : Prop :=
  exists pre post s i, arrivals = pre ++ post /\ consumed deadline (new_turn w start) pre s /\
    silence_limit w start pre = Some i /\ i < deadline /\
    match post with [] => True | a :: _ => i < at_ a end.

(** A turn ends as idle exactly when it fell silent: whatever metadata
    arrives, the window runs from the latest frame that was output or closed the
    last tool call, it does not run while a tool call is pending, and it never
    outlives the total budget; otherwise only a terminal frame can say so. *)
Theorem idle_timeout_exact w start deadline arrivals : (forall t, t <= wake t) ->
  (fell_silent deadline w start arrivals -> exists s, run_loop deadline (new_turn w start) arrivals = Run s IdleTimeout) /\
  (forall s, run_loop deadline (new_turn w start) arrivals = Run s IdleTimeout ->
   fell_silent deadline w start arrivals \/ exists f, frame_of arrivals f /\ says f IdleTimeout).
Proof.
  intros Hwake. split.
  - intros (pre & post & s & i & -> & Hc & Hlim & Hi & Hpost). rewrite (consumed_run _ _ _ _ _ Hc).
    destruct (consumed_limit _ _ _ _ _ Hc) as [Hd _]. rewrite Hlim in Hd.
    assert (Hread : idle_read_deadline (idle_deadline (watchdog s)) deadline = i).
    { rewrite Hd. cbn. by rewrite (proj2 (Z.ltb_lt _ _) Hi). }
    assert (Hto : run_loop deadline s post = timed_out deadline s post).
    { destruct post as [|a post]; [done|]. cbn [turn_loop]. rewrite Hread. by rewrite (proj2 (Z.ltb_lt _ _) Hpost). }
    rewrite Hto. unfold on_timeout. rewrite Hread, Hd. cbn [idle_fired].
    rewrite (proj2 (Z.ltb_lt _ _) Hi), (proj2 (Z.leb_le _ _) (Hwake i)). cbn [andb]. eauto.
  - intros s Hrun. destruct (turn_loop_decompose wake model_id model_override agent_alias deadline arrivals (new_turn w start))
      as (pre & post & s0 & -> & Hc & He).
    rewrite Hrun in He. clear Hrun. destruct (consumed_limit _ _ _ _ _ Hc) as [Hlim Hwf].
    assert (Happ : forall f, frame_of post f -> frame_of (pre ++ post) f).
    { intros f (a & v & ? & ?). exists a, v. split; [apply elem_of_app; by right|done]. }
    remember (Run s IdleTimeout) as r eqn:Heq. destruct He as [post Hs|a post Hw|a post e Hw|a post f v s1 o1 Hw Hf|]; [| | | |done].
    + unfold on_timeout in Heq. destruct (idle_fired _ _ _) eqn:Hfire.
      * left. destruct (read_deadline_exact (idle_deadline (watchdog s0)) deadline _ (Hwake _)) as [_ Hx].
        apply Hx in Hfire as (i & Hidle & Hlt). exists pre, post, s0, i. split_and!; [done|done|congruence|done|].
        unfold silent in Hs. rewrite Hidle in Hs. cbn in Hs. by rewrite (proj2 (Z.ltb_lt _ _) Hlt) in Hs.
      * right. destruct (drain _ _ s0 _) as [s1 o1] eqn:Hd. simplify_eq. apply drain_ok in Hd as [_ Ho]; [|by apply wf_text_ok].
        destruct Ho as [Ho|(f & Hf & Hsay)]; [by rewrite !elem_of_cons, elem_of_nil in Ho; destruct Ho as [|[|[|]]]|].
        exists f. split; [|done]. apply Happ. destruct post; [done|]. by eapply torn_frames.
    + destruct (partial_cases (pending_tool_results s) (content s) (tool_calls s)) as [Hx|Hx]; unfold partial_outcome in *; congruence.
    + destruct (partial_cases (pending_tool_results s0) (content s0) (tool_calls s0)) as [Hx|Hx]; unfold partial_outcome in *; cbn in *; congruence.
    + injection Heq as -> ->. right. exists f. split; [apply Happ; exists a, v; split; [by left|done]|].
      pose proof (on_frame_ok s0 f (seen a) v Hwf) as Hok. rewrite Hf in Hok. by destruct Hok as [_ [?|[?|?]]].
Qed.

End TurnFacts.

(** ** Concrete inputs *)

Module Sample.

Definition update (fields : list (string * Value)) : Value :=
  Object [("method", Str "session/update"); ("params", Object fields)].
Definition chunk (t : string) : Value := update [("type", Str "agent_message_chunk"); ("text", Str t)].
Definition call (n : string) : Value := update [("type", Str "tool_call"); ("name", Str n)].
Definition result (n : string) : Value := update [("type", Str "tool_result"); ("name", Str n)].
Definition usage (n : Z) : Value := update [("type", Str "context_usage"); ("input_tokens", Number (Some n))].
Definition complete (fields : list (string * Value)) : Value := update (("type", Str "turn_complete") :: fields).

Definition at_ms (t : Z) (f : Value) : Arrival := {| begun := t; at_ := t; seen := t; what := Line (Some f) true |}.

Definition settings : ApprovalSettings :=
  {| policy := NoTools; writable_roots := []; enforce_writable_roots := false; trust_engine := false |}.

Definition run (deadline : Z) (arrivals : list Arrival) : TurnResult :=
  turn_loop ∅ [] settings true (fun _ => "") (fun t => t) None None "coder" deadline
    (new_turn (from_secs 600 180) 0) arrivals.

Definition outcome_of (r : TurnResult) : option (AgentOutcome * string) :=
  match r with Run s o => Some (o, content s) | Error _ => None end.

(** Ten minutes of silence while a tool runs do not end a turn; three after a
    token do, and usage reports do not put that off. *)
Lemma run_examples :
  outcome_of (run 3600000 [at_ms 1000 (call "shell"); at_ms 900000 (result "shell"); at_ms 1400000 (chunk "ok");
                           at_ms 1500000 (complete [])]) = Some (Completed, "ok") /\
  outcome_of (run 3600000 [at_ms 1000 (chunk "a"); at_ms 100000 (usage 7); at_ms 170000 (usage 8); at_ms 182000 (chunk "b")])
    = Some (IdleTimeout, "a") /\
  outcome_of (run 3600000 [at_ms 1000 (chunk "a"); {| begun := 2000; at_ := 2000; seen := 2000; what := Eof |}])
    = Some (Interrupted, "a") /\
  outcome_of (run 60000 [at_ms 1000 (chunk "a"); at_ms 61000 (chunk "b"); at_ms 62000 (complete [("outcome", Str "cancelled")])])
    = Some (CancelledTurn, "ab") /\
  outcome_of (run 60000 [at_ms 1000 (call "shell")]) = Some (Interrupted, "").
Proof. by vm_compute. Qed.

Lemma turn_outcome_sound_witness : exists s,
  run 3600000 [at_ms 1000 (chunk "a"); at_ms 2000 (complete [])] = Run s Completed /\
  kept s (frame_of [at_ms 1000 (chunk "a"); at_ms 2000 (complete [])]) /\
  (Completed ∈ [Failed; Interrupted; Timeout; IdleTimeout] \/
   exists f, frame_of [at_ms 1000 (chunk "a"); at_ms 2000 (complete [])] f /\ says f Completed).
Proof.
  eexists. split; [vm_compute; reflexivity|].
  apply (turn_outcome_sound ∅ [] settings true (fun _ => "") (fun t => t) None None "coder" (from_secs 600 180) 0 3600000).
  vm_compute. reflexivity.
Defined.

Lemma idle_timeout_exact_witness :
  (fell_silent ∅ [] settings true (fun _ => "") 3600000 (from_secs 600 180) 0 [at_ms 1000 (chunk "a")] ->
   exists s, run 3600000 [at_ms 1000 (chunk "a")] = Run s IdleTimeout) /\
  (forall s, run 3600000 [at_ms 1000 (chunk "a")] = Run s IdleTimeout ->
   fell_silent ∅ [] settings true (fun _ => "") 3600000 (from_secs 600 180) 0 [at_ms 1000 (chunk "a")] \/
   exists f, frame_of [at_ms 1000 (chunk "a")] f /\ says f IdleTimeout).
Proof.
  apply (idle_timeout_exact ∅ [] settings true (fun _ => "") (fun t => t) None None "coder" (from_secs 600 180) 0 3600000).
  intros t. apply Z.le_refl.
Defined.

(** The frame that ends the turn is half read when the budget expires: its
    first half is dropped with the read, its second is no frame. *)
Lemma torn_completion_lost :
  outcome_of (run 60000 [at_ms 1000 (chunk "done");
    {| begun := 59999; at_ := 60001; seen := 60001; what := Line (Some (complete [])) true |}]) = Some (Timeout, "done") /\
  outcome_of (run 60000 [at_ms 1000 (chunk "done"); at_ms 60001 (complete [])]) = Some (Completed, "done").
Proof. by vm_compute. Qed.

(** While draining, a chunk over the cap is left out and a later, smaller one
    is still appended, so the text has a hole. *)
Lemma drain_leaves_hole :
  let s := {| content := "x"; content_bytes := MAX_CUMULATIVE_CONTENT_BYTES - 1; input_tokens := 0; tool_calls := 0;
              pending_tool_results := ∅; failure_detail := None; watchdog := new_watchdog windows_disabled 0; events := [] |} in
  content (drain_after_cancel true 100 0 s [at_ms 1 (chunk "bc"); at_ms 2 (chunk "d")]).1 = "xd".
Proof. by vm_compute. Qed.

(** A turn that streamed text and has no tool pending is not completed by the
    end of its stream, and the settle window names it differently. *)
Lemma partial_turn_never_completed :
  classify_partial_outcome ∅ "text" 0 = Interrupted /\ settle_outcome ∅ "text" 0 = Timeout.
Proof. by vm_compute. Qed.

End Sample.
