(* ===== verification/SessionStore.v ===== *)
(** The store of engine sessions (acp-client/src/session_store.rs): scopes,
    the load and its freshness, the mutations with their eviction, and the locked read-modify-write as interleaved steps on a lockfile
    that every holder unlinks.

    The JSON codec is a parameter; the file on disk is a text.  The directory
    entry of the lockfile, its inodes and their locks are the state the steps
    share. *)
From S2P Require Import Prelude Numbers Text F64 Approval Router.
Local Open Scope string_scope.
Local Open Scope Z_scope.
Local Open Scope list_scope.

(** ** Records and scopes *)

Record EngineSessionRecord := { rec_scope : string; rec_session_id : string; updated_unix : Z }.

Notation SessionMap := (gmap string EngineSessionRecord).

Definition DEFAULT_MAX_AGE_SECS : Z := 7 * 24 * 60 * 60.
Definition DEFAULT_MAX_ENTRIES : nat := 128.

Section Scope.

(** [std::fs::canonicalize], as text. *)
Variable canonicalize : string -> option string.

Definition canonicalize_path (p : string) : string := default p (canonicalize p).

Definition make_scope (engine_kind cwd : string) : string := engine_kind +:+ ":" +:+ canonicalize_path cwd.

Definition make_agent_scope (engine_kind cwd agent_alias : string) : string :=
  let base := make_scope engine_kind cwd in
  if str_is_empty agent_alias then base else base +:+ "#agent:" +:+ agent_alias.

End Scope.

Definition engine_kind_scope (kind : EngineKind) : string :=
  match kind with Zeroclaw => "zeroclaw" | Goose => "goose" end.

(** [max_age_secs], [max_entries], and the clock as every reading sees it. *)
Record StoreConfig := { max_age_secs : Z; max_entries : nat }.

Definition config (_ : unit) : StoreConfig := {| max_age_secs := DEFAULT_MAX_AGE_SECS; max_entries := DEFAULT_MAX_ENTRIES |}.

Definition record_fresh (cfg : StoreConfig) (now : Z) (rec : EngineSessionRecord) : bool :=
  negb ((0 <? max_age_secs cfg) && (max_age_secs cfg <? i64_sat_sub now (updated_unix rec))).

(** ** Eviction *)

(** Oldest first, ties by scope. *)
Definition age_cmp (a b : string * Z) : comparison := then_with (Z.compare a.2 b.2) (String.compare a.1 b.1).

Definition by_age (m : SessionMap) : list (string * Z) :=
  sort_by age_cmp (map (fun e => (e.1, updated_unix e.2)) (map_to_list m)).

Definition drop_stale (cfg : StoreConfig) (now : Z) (m : SessionMap) : SessionMap :=
  if 0 <? max_age_secs cfg
  then filter (fun e => i64_sat_sub now (updated_unix e.2) <= max_age_secs cfg) m
  else m.

Definition remove_keys (l : list string) (m : SessionMap) : SessionMap := foldl (fun m k => delete k m) m l.

Definition enforce_cap (cfg : StoreConfig) (m : SessionMap) : SessionMap :=
  let over_by := (size m - max_entries cfg)%nat in
  if bool_decide (over_by = 0%nat) then m
  else remove_keys (map fst (take over_by (by_age m))) m.

(** The map left, and how many records were removed. *)
Definition evict_in_place (cfg : StoreConfig) (now : Z) (m : SessionMap) : SessionMap * nat :=
  if bool_decide (size m = 0%nat) then (m, 0%nat)
  else
    let m' := enforce_cap cfg (drop_stale cfg now m) in
    (m', (size m - size m')%nat).

(** ** The operations on a file's text *)

Section Store.

(** [serde_json::from_str] and [to_vec_pretty] of the map. *)
Context (decode : string -> option SessionMap) (encode : SessionMap -> string).

Inductive FileRead := Absent | Unreadable | Contents (s : string).

(** [None] is an error. *)
Definition load (cfg : StoreConfig) (now : Z) (file : FileRead) (scope : string) : option (option EngineSessionRecord) :=
  match file with
  | Absent => Some None
  | Unreadable => None
  | Contents raw =>
      Some (map ← decode raw; rec ← map !! scope; if record_fresh cfg now rec then Some rec else None)
  end.

(** The map a mutation starts from. *)
Definition read_map (file : FileRead) : SessionMap :=
  match file with Contents s => default ∅ (decode s) | _ => ∅ end.

Definition insert_record (cfg : StoreConfig) (now : Z) (scope session_id : string) (m : SessionMap) : SessionMap :=
  (evict_in_place cfg now
     (<[scope := {| rec_scope := scope; rec_session_id := session_id; updated_unix := now |}]> m)).1.

(** The mutations of [save_with_scope], [clear] and [prune]: the map to write,
    or nothing. *)
Definition save_mutation (cfg : StoreConfig) (now : Z) (scope session_id : string) (m : SessionMap) : option SessionMap :=
  Some (insert_record cfg now scope session_id m).
Definition clear_mutation (scope : string) (m : SessionMap) : option SessionMap :=
  if bool_decide (is_Some (m !! scope)) then Some (delete scope m) else None.
Definition prune_mutation (cfg : StoreConfig) (now : Z) (m : SessionMap) : option SessionMap :=
  let '(m', evicted) := evict_in_place cfg now m in
  if (0 <? evicted)%nat then Some m' else None.

(** [mutate_locked] with the lock granted: the file after it. *)
Definition mutate (f : SessionMap -> option SessionMap) (file : FileRead) : FileRead :=
  match f (read_map file) with
  | Some m => Contents (encode m)
  | None => file
  end.

Definition save_with_scope (cfg : StoreConfig) (now : Z) (scope session_id : string) : FileRead -> FileRead :=
  mutate (save_mutation cfg now scope session_id).
Definition clear (scope : string) : FileRead -> FileRead := mutate (clear_mutation scope).
Definition prune (cfg : StoreConfig) (now : Z) (file : FileRead) : FileRead * nat :=
  (mutate (prune_mutation cfg now) file, (evict_in_place cfg now (read_map file)).2).

End Store.

(** ** The locked read-modify-write *)

Section Protocol.
Context {S : Type} (f : nat -> S -> option S).

(** Where a process is in [mutate_locked]: before the lockfile is opened,
    with an inode of it open, holding that inode's lock, with the map loaded,
    past the write, past the unlink of the lockfile's name. *)
Inductive StorePhase :=
  | Started
  | Opened (ino : nat)
  | Locked (ino : nat)
  | Loaded (ino : nat) (s : S)
  | Wrote (ino : nat)
  | Unlinked (ino : nat)
  | Finished
  | TimedOut.

Record World := mkWorld {
  entry : option nat;          (* the inode the lockfile's name leads to *)
  next_ino : nat;
  locks : gmap nat nat;        (* the holder of each locked inode *)
  disk : S;
  procs : gmap nat StorePhase;
  written : list nat           (* the processes whose map was saved *)
}.

Inductive StoreLabel :=
  | Begin (p : nat)
  | Open (p : nat)             (* open with [create] *)
  | Lock (p : nat)             (* [try_lock_exclusive] that succeeds *)
  | GiveUp (p : nat)
  | Load (p : nat)
  | Write (p : nat)            (* the temp file renamed, or no write needed *)
  | Unlink (p : nat)           (* the guard's [remove_file] *)
  | Close (p : nat)
  | Crash (p : nat).

Definition set_proc (w : World) (p : nat) (ph : StorePhase) : World :=
  mkWorld (entry w) (next_ino w) (locks w) (disk w) (<[p := ph]> (procs w)) (written w).

Definition open_ino (ph : StorePhase) : option nat :=
  match ph with
  | Opened i | Locked i | Loaded i _ | Wrote i | Unlinked i => Some i
  | _ => None
  end.
Definition held_ino (ph : StorePhase) : option nat :=
  match ph with Locked i | Loaded i _ | Wrote i | Unlinked i => Some i | _ => None end.

Definition release (w : World) (ph : StorePhase) : gmap nat nat :=
  match held_ino ph with Some i => delete i (locks w) | None => locks w end.

Definition step (l : StoreLabel) (w : World) : option World :=
  match l with
  | Begin p => match procs w !! p with
      | None | Some Finished => Some (set_proc w p Started)
      | _ => None
      end
  | Open p => match procs w !! p with
      | Some Started =>
          match entry w with
          | Some i => Some (set_proc w p (Opened i))
          | None => Some (mkWorld (Some (next_ino w)) (next_ino w + 1)%nat (locks w) (disk w)
                            (<[p := Opened (next_ino w)]> (procs w)) (written w))
          end
      | _ => None
      end
  | Lock p => match procs w !! p with
      | Some (Opened i) =>
          match locks w !! i with
          | None => Some (mkWorld (entry w) (next_ino w) (<[i := p]> (locks w)) (disk w)
                            (<[p := Locked i]> (procs w)) (written w))
          | Some _ => None
          end
      | _ => None
      end
  | GiveUp p => match procs w !! p with
      | Some (Opened _) => Some (set_proc w p TimedOut)
      | _ => None
      end
  | Load p => match procs w !! p with
      | Some (Locked i) => Some (set_proc w p (Loaded i (disk w)))
      | _ => None
      end
  | Write p => match procs w !! p with
      | Some (Loaded i s) =>
          match f p s with
          | Some s' => Some (mkWorld (entry w) (next_ino w) (locks w) s' (<[p := Wrote i]> (procs w)) (written w ++ [p]))
          | None => Some (set_proc w p (Wrote i))
          end
      | _ => None
      end
  | Unlink p => match procs w !! p with
      | Some (Wrote i) =>
          Some (mkWorld None (next_ino w) (locks w) (disk w) (<[p := Unlinked i]> (procs w)) (written w))
      | _ => None
      end
  | Close p => match procs w !! p with
      | Some (Unlinked i) =>
          Some (mkWorld (entry w) (next_ino w) (delete i (locks w)) (disk w) (<[p := Finished]> (procs w)) (written w))
      | _ => None
      end
  | Crash p => match procs w !! p with
      | Some ph => Some (mkWorld (entry w) (next_ino w) (release w ph) (disk w) (<[p := TimedOut]> (procs w)) (written w))
      | None => None
      end
  end.

Fixpoint run (ls : list StoreLabel) (w : World) : option World :=
  match ls with
  | [] => Some w
  | l :: ls => match step l w with Some w' => run ls w' | None => None end
  end.

Definition init (s0 : S) : World := mkWorld None 0 ∅ s0 ∅ [].

(** The maps of [ps] applied one after the other. *)
Definition apply_all (s0 : S) (ps : list nat) : S := fold_left (fun s p => default s (f p s)) ps s0.

(** Inside the critical section: between the lock and the unlink. *)
Definition critical (ph : StorePhase) : bool :=
  match ph with Locked _ | Loaded _ _ | Wrote _ => true | _ => false end.

(** An unlink nobody else has the unlinked inode open at. *)
Definition unlinks_alone (l : StoreLabel) (w : World) : bool :=
  match l with
  | Unlink p =>
      match procs w !! p with
      | Some (Wrote i) => forallb (fun e => (e.1 =? p)%nat || negb (bool_decide (open_ino e.2 = Some i))) (map_to_list (procs w))
      | _ => true
      end
  | _ => true
  end.

Fixpoint calm (ls : list StoreLabel) (w : World) : bool :=
  match ls with
  | [] => true
  | l :: ls => unlinks_alone l w && match step l w with Some w' => calm ls w' | None => true end
  end.

End Protocol.
Arguments World S : clear implicits.
Arguments StorePhase S : clear implicits.

(** *** The protocol's theorems *)

Section ProtocolFacts.
Context {S : Type} (f : nat -> S -> option S).

Definition linked (ph : StorePhase S) : bool :=
  match ph with Opened _ | Locked _ | Loaded _ _ | Wrote _ => true | _ => false end.

Record inv (s0 : S) (w : World S) : Prop := {
  inv_entry : forall i, entry w = Some i -> (i < next_ino w)%nat;
  inv_bound : forall p ph i, procs w !! p = Some ph -> open_ino ph = Some i -> (i < next_ino w)%nat;
  inv_held : forall p ph i, procs w !! p = Some ph -> held_ino ph = Some i -> locks w !! i = Some p;
  inv_linked : forall p ph i, procs w !! p = Some ph -> linked ph = true -> open_ino ph = Some i -> entry w = Some i;
  inv_loaded : forall p i s, procs w !! p = Some (Loaded i s) -> s = disk w;
  inv_disk : disk w = apply_all f s0 (written w);
}.

Lemma held_open (ph : StorePhase S) i : held_ino ph = Some i -> open_ino ph = Some i.
Proof. by destruct ph. Qed.

Lemma critical_held (ph : StorePhase S) : critical ph = true -> exists i, held_ino ph = Some i /\ linked ph = true.
Proof. destruct ph; cbn; naive_solver. Qed.

(** Two processes in their critical sections are one. *)
Lemma critical_unique s0 w p q ph ph' : inv s0 w -> procs w !! p = Some ph -> procs w !! q = Some ph' ->
  critical ph = true -> critical ph' = true -> p = q.
Proof.
  intros [_ _ H3 H4 _ _] Hp Hq (i & Hi & Hl)%critical_held (j & Hj & Hl')%critical_held.
  pose proof (H4 _ _ _ Hp Hl (held_open _ _ Hi)) as He. pose proof (H4 _ _ _ Hq Hl' (held_open _ _ Hj)) as He'.
  assert (i = j) as <- by congruence. pose proof (H3 _ _ _ Hp Hi). pose proof (H3 _ _ _ Hq Hj). congruence.
Qed.

Lemma store_init_inv s0 : inv s0 (init s0).
Proof. by constructor. Qed.

Ltac at_proc q p := destruct (decide (q = p)) as [->|?]; [rewrite lookup_insert_eq|rewrite lookup_insert_ne by done].

(** A process moves on; what it holds afterwards it held before. *)
Lemma inv_move s0 w p ph ph' d ws : inv s0 w -> procs w !! p = Some ph ->
  (forall i, open_ino ph' = Some i -> open_ino ph = Some i) ->
  (forall i, held_ino ph' = Some i -> held_ino ph = Some i) ->
  (linked ph' = true -> linked ph = true) ->
  (forall i s, ph' = Loaded i s -> s = d) ->
  (d = disk w \/ critical ph = true) -> d = apply_all f s0 ws ->
  inv s0 (mkWorld (entry w) (next_ino w) (locks w) d (<[p := ph']> (procs w)) ws).
Proof.
  intros Hinv Hp Ho Hh Hl Hd Hdisk Hall. pose proof Hinv as [H1 H2 H3 H4 H5 H6]. constructor; cbn; try done.
  - intros q ph0 i. at_proc q p; [intros [= <-] Hi; eauto|eauto].
  - intros q ph0 i. at_proc q p; [intros [= <-] Hi; eauto|eauto].
  - intros q ph0 i. at_proc q p; [intros [= <-] Hi Hj; eauto|eauto].
  - intros q i s. at_proc q p; [intros [= ->]; eauto|]. intros Hq. destruct Hdisk as [->|Hc]; [eauto|].
    exfalso. eapply (n : q <> p), critical_unique; [done|exact Hq|exact Hp|done|done].
Qed.

Lemma apply_all_snoc s0 ps p : apply_all f s0 (ps ++ [p]) = default (apply_all f s0 ps) (f p (apply_all f s0 ps)).
Proof. unfold apply_all. by rewrite fold_left_app. Qed.

Lemma step_open s0 w p w' : inv s0 w -> step f (Open p) w = Some w' -> inv s0 w'.
Proof.
  intros Hinv Hs. pose proof Hinv as [H1 H2 H3 H4 H5 H6]. cbn in Hs.
  destruct (procs w !! p) as [[]|] eqn:Hp; try done. destruct (entry w) as [i|] eqn:He; injection Hs as <-.
  - constructor; cbn; rewrite ?He; try done.
    + intros q ph j. at_proc q p; [intros [= <-] [= <-]; auto|eauto].
    + intros q ph j. at_proc q p; [by intros [= <-]|eauto].
    + intros q ph j. at_proc q p; [by intros [= <-] _ [= <-]|eauto].
    + intros q j s. at_proc q p; [done|eauto].
  - constructor; cbn; try done.
    + intros j [= <-]. lia.
    + intros q ph j. at_proc q p; [intros [= <-] [= <-]; lia|]. intros Hq Hj. specialize (H2 _ _ _ Hq Hj). lia.
    + intros q ph j. at_proc q p; [by intros [= <-]|eauto].
    + intros q ph j. at_proc q p; [by intros [= <-] _ [= <-]|]. intros Hq Hl Hj. specialize (H4 _ _ _ Hq Hl Hj). congruence.
    + intros q j s. at_proc q p; [done|eauto].
Qed.

Lemma step_lock s0 w p w' : inv s0 w -> step f (Lock p) w = Some w' -> inv s0 w'.
Proof.
  intros Hinv Hs. pose proof Hinv as [H1 H2 H3 H4 H5 H6]. cbn in Hs.
  destruct (procs w !! p) as [[]|] eqn:Hp; try done. destruct (locks w !! ino) eqn:Hl; [done|]. injection Hs as <-.
  constructor; cbn; try done.
  - intros q ph j. at_proc q p; [intros [= <-] [= <-]; eapply H2; [exact Hp|done]|eauto].
  - intros q ph j. at_proc q p; [intros [= <-] [= <-]; apply lookup_insert_eq|]. intros Hq Hj.
    specialize (H3 _ _ _ Hq Hj). rewrite lookup_insert_ne; [done|]. intros ->. congruence.
  - intros q ph j. at_proc q p; [intros [= <-] _ [= <-]; by eapply H4|eauto].
  - intros q j s. at_proc q p; [done|eauto].
Qed.

(** Dropping a lock only its holder knows of. *)
Lemma step_close s0 w p ph w' : inv s0 w -> procs w !! p = Some ph -> open_ino (Finished : StorePhase S) = None ->
  forall ph', open_ino ph' = None -> linked ph' = false ->
  w' = mkWorld (entry w) (next_ino w) (release w ph) (disk w) (<[p := ph']> (procs w)) (written w) -> inv s0 w'.
Proof.
  intros Hinv Hp _ ph' Ho Hl ->. pose proof Hinv as [H1 H2 H3 H4 H5 H6].
  assert (Hh : held_ino ph' = None) by (by destruct ph').
  constructor; cbn; try done.
  - intros q ph0 j. at_proc q p; [intros [= <-]; congruence|eauto].
  - intros q ph0 j. at_proc q p; [intros [= <-]; congruence|]. intros Hq Hj. pose proof (H3 _ _ _ Hq Hj) as Hk.
    unfold release. destruct (held_ino ph) as [i|] eqn:Hi; [|done]. pose proof (H3 _ _ _ Hp Hi).
    rewrite lookup_delete_ne; [done|]. intros ->. congruence.
  - intros q ph0 j. at_proc q p; [intros [= <-]; congruence|eauto].
  - intros q j s. at_proc q p; [|eauto]. intros [= ->]. done.
Qed.

Lemma step_unlink s0 w p w' : inv s0 w -> unlinks_alone (Unlink p) w = true -> step f (Unlink p) w = Some w' -> inv s0 w'.
Proof.
  intros Hinv Hal Hs. pose proof Hinv as [H1 H2 H3 H4 H5 H6]. cbn in Hs, Hal.
  destruct (procs w !! p) as [[]|] eqn:Hp; try done. injection Hs as <-. rewrite forallb_elem in Hal.
  constructor; cbn; try done.
  - intros q ph j. at_proc q p; [intros [= <-] [= <-]; by eapply (H2 p)|eauto].
  - intros q ph j. at_proc q p; [intros [= <-] [= <-]; by eapply (H3 p)|eauto].
  - intros q ph j. at_proc q p; [by intros [= <-]|]. intros Hq Hl Hj. exfalso.
    pose proof (H4 _ _ _ Hq Hl Hj) as He. pose proof (H4 _ _ _ Hp eq_refl eq_refl) as He'.
    apply elem_of_map_to_list in Hq. specialize (Hal _ Hq). cbn in Hal.
    rewrite (proj2 (Nat.eqb_neq q p) n) in Hal. apply negb_true_iff, bool_decide_eq_false in Hal. congruence.
  - intros q j s. at_proc q p; [done|eauto].
Qed.

Lemma store_step_inv s0 l w w' : inv s0 w -> unlinks_alone l w = true -> step f l w = Some w' -> inv s0 w'.
Proof.
  intros Hinv Hal Hs. pose proof Hinv as [H1 H2 H3 H4 H5 H6]. destruct l.
  - assert (Hidle : procs w !! p = None \/ procs w !! p = Some Finished) by (cbn in Hs; destruct (procs w !! p) as [[]|]; auto; done).
    assert (Hw : w' = set_proc w p Started) by (cbn in Hs; destruct Hidle as [E|E]; rewrite E in Hs; congruence). subst w'.
    constructor; cbn; try done; intros q; at_proc q p; try (by intros ? ? [= <-]); eauto; done.
  - by eapply step_open.
  - by eapply step_lock.
  - cbn in Hs. destruct (procs w !! p) as [[]|] eqn:Hp; try done. injection Hs as <-. by eapply inv_move; eauto.
  - cbn in Hs. destruct (procs w !! p) as [[]|] eqn:Hp; try done. injection Hs as <-.
    eapply inv_move; eauto. by intros i s [= _ <-].
  - cbn in Hs. destruct (procs w !! p) as [[]|] eqn:Hp; try done.
    destruct (f p s) as [s'|] eqn:Hf; injection Hs as <-.
    + eapply inv_move; eauto; [done|]. rewrite apply_all_snoc, <- H6, <- (H5 _ _ _ Hp), Hf. done.
    + by eapply inv_move; eauto.
  - by eapply step_unlink.
  - cbn in Hs. destruct (procs w !! p) as [[]|] eqn:Hp; try done. injection Hs as <-.
    by eapply (step_close _ _ _ (Unlinked ino) _ Hinv Hp eq_refl Finished).
  - cbn in Hs. destruct (procs w !! p) as [ph|] eqn:Hp; try done. injection Hs as <-.
    by eapply (step_close _ _ _ ph _ Hinv Hp eq_refl TimedOut).
Qed.

Lemma store_run_inv s0 ls w w' : inv s0 w -> calm f ls w = true -> run f ls w = Some w' -> inv s0 w'.
Proof.
  revert w. induction ls as [|l ls IH]; cbn; intros w Hinv Hc Hr; [by simplify_eq|]. apply andb_true_iff in Hc as [Ha Hc].
  destruct (step f l w) as [w1|] eqn:E; [|done]. eapply IH; [by eapply store_step_inv|done|done].
Qed.
End ProtocolFacts.

(** As long as no holder unlinks the lockfile while another process has it
    open, the locked read-modify-write of the session store excludes and loses
    nothing: whatever the interleaving, time-outs and crashes included, at most
    one process is between its lock and its unlink, and the store is the
    initial one with exactly the saved mutations applied in turn. *)
Theorem session_store_serializable {S : Type} (f : nat -> S -> option S) (s0 : S) ls w :
  run f ls (init s0) = Some w -> calm f ls (init s0) = true ->
  (forall p q ph ph', procs w !! p = Some ph -> procs w !! q = Some ph' ->
    critical ph = true -> critical ph' = true -> p = q) /\
  disk w = apply_all f s0 (written w).
Proof.
  intros Hr Hc. pose proof (store_run_inv f s0 ls _ _ (store_init_inv f s0) Hc Hr) as Hinv. split; [|apply Hinv].
  intros. by eapply critical_unique.
Qed.

Module Races.

Definition append (p : nat) (s : list nat) : option (list nat) := Some (s ++ [p]).

Definition in_turn : list StoreLabel :=
  [Begin 1; Open 1; Lock 1; Load 1; Write 1; Unlink 1; Begin 2; Open 2; Close 1; Lock 2; Load 2; Write 2; Unlink 2; Close 2].

Lemma session_store_serializable_witness : exists w,
  run append in_turn (init []) = Some w /\
  (forall p q ph ph', procs w !! p = Some ph -> procs w !! q = Some ph' ->
    critical ph = true -> critical ph' = true -> p = q) /\
  disk w = apply_all append [] (written w).
Proof.
  eexists. split; [vm_compute; reflexivity|].
  apply (session_store_serializable append [] in_turn); vm_compute; reflexivity.
Defined.

(** A waiter has the first lockfile open when its holder unlinks it; a third
    process makes a new one, and both hold a lock. *)
Definition orphaned_waiter : list StoreLabel :=
  [Begin 1; Begin 2; Open 1; Lock 1; Open 2; Load 1; Write 1; Unlink 1; Close 1; Lock 2;
   Begin 3; Open 3; Lock 3; Load 2; Load 3; Write 2; Write 3].

Lemma unlink_orphans_waiter : exists w,
  run append orphaned_waiter (init []) = Some w /\
  critical (default Finished (procs w !! 2%nat)) = true /\ critical (default Finished (procs w !! 3%nat)) = true /\
  written w = [1; 2; 3]%nat /\ disk w = [1; 3]%nat.
Proof. eexists. split; [vm_compute; reflexivity|]. by vm_compute. Qed.

End Races.

(** ** Eviction's theorems *)

Lemma remove_keys_lookup l (m : SessionMap) k : remove_keys l m !! k = if bool_decide (k ∈ l) then None else m !! k.
Proof.
  revert m. induction l as [|x l IH]; intros m; cbn [remove_keys foldl]; [done|].
  change (foldl _ ?a l) with (remove_keys l a). rewrite IH. destruct (decide (k = x)) as [->|Hne].
  - rewrite lookup_delete_eq, (bool_decide_true (x ∈ x :: l)) by (by left). by destruct (bool_decide _).
  - rewrite lookup_delete_ne by done. rewrite (bool_decide_ext (k ∈ x :: l) (k ∈ l)); [done|]. rewrite elem_of_cons. naive_solver.
Qed.

Lemma remove_keys_size l (m : SessionMap) : NoDup l -> (forall k, k ∈ l -> is_Some (m !! k)) ->
  size (remove_keys l m) = (size m - length l)%nat.
Proof.
  intros Hnd. revert m. induction Hnd as [|x l Hx Hnd IH]; intros m Hin; cbn [remove_keys foldl length].
  { change (foldl _ ?a []) with a. lia. }
  change (foldl _ ?a l) with (remove_keys l a). rewrite IH.
  - destruct (Hin x) as [r Hr]; [by left|]. pose proof (map_size_delete_Some x m (ex_intro _ r Hr)) as Hs. rewrite Hs. lia.
  - intros k Hk. rewrite lookup_delete_ne; [apply Hin; by right|]. by intros ->.
Qed.

Lemma age_cmp_flip a b : age_cmp b a = CompOpp (age_cmp a b).
Proof.
  unfold age_cmp. rewrite (Z.compare_antisym a.2 b.2), (String.compare_antisym a.1 b.1).
  by destruct (a.2 ?= b.2), (String.compare b.1 a.1).
Qed.

Lemma age_cmp_trans a b c : cmp_le age_cmp a b -> cmp_le age_cmp b c -> cmp_le age_cmp a c.
Proof.
  unfold cmp_le, age_cmp.
  destruct (Z.compare_spec a.2 b.2), (Z.compare_spec b.2 c.2), (Z.compare_spec a.2 c.2); cbn; try done; try lia.
  apply string_compare_trans.
Qed.

Lemma by_age_perm m : by_age m ≡ₚ map (fun e => (e.1, updated_unix e.2)) (map_to_list m).
Proof. apply sort_by_perm. Qed.

Lemma by_age_sorted m : StronglySorted (cmp_le age_cmp) (by_age m).
Proof.
  apply (sort_by_sorted age_cmp (fun _ => True)); [intros; apply age_cmp_flip|intros; by eapply age_cmp_trans|].
  by apply Forall_true.
Qed.

Lemma by_age_keys m : map fst (by_age m) ≡ₚ map fst (map_to_list m).
Proof. rewrite by_age_perm, map_map. done. Qed.

Lemma by_age_NoDup m : NoDup (map fst (by_age m)).
Proof. rewrite by_age_keys. apply NoDup_fst_map_to_list. Qed.

Lemma elem_of_by_age m k u : (k, u) ∈ by_age m <-> exists r, m !! k = Some r /\ updated_unix r = u.
Proof.
  rewrite by_age_perm, list_elem_of_fmap. split.
  - intros ([k' r] & [= -> ->] & Hin%elem_of_map_to_list). eauto.
  - intros (r & Hr & <-). exists (k, r). split; [done|]. by apply elem_of_map_to_list.
Qed.

Lemma by_age_length m : length (by_age m) = size m.
Proof. rewrite by_age_perm, length_map. apply length_map_to_list. Qed.

(** Of the records the window leaves, the cap keeps the newest. *)
Lemma enforce_cap_exact cfg m : let m' := enforce_cap cfg m in
  m' ⊆ m /\ size m' = Nat.min (size m) (max_entries cfg) /\
  forall k r j r', m' !! k = Some r -> m !! j = Some r' -> m' !! j = None ->
    age_cmp (j, updated_unix r') (k, updated_unix r) = Lt.
Proof.
  cbn zeta. unfold enforce_cap. case_bool_decide as Hn; [split_and!; [done|lia|intros; congruence]|].
  set (n := (size m - max_entries cfg)%nat) in *.
  assert (Hnd : NoDup (map fst (take n (by_age m)))).
  { pose proof (by_age_NoDup m) as H. rewrite <- (take_drop n (by_age m)), map_app in H. by apply NoDup_app in H as [? _]. }
  assert (Htake : forall k, k ∈ map fst (take n (by_age m)) -> exists r, m !! k = Some r /\ (k, updated_unix r) ∈ take n (by_age m)).
  { intros k ([k' u] & -> & Hin)%list_elem_of_fmap. pose proof (proj1 (elem_of_take _ _ _) Hin) as (i & Hi & _). apply list_elem_of_lookup_2 in Hi as Hin'.
    apply elem_of_by_age in Hin' as (r & Hr & <-). eauto. }
  split_and!.
  - apply map_subseteq_spec. intros k r. rewrite remove_keys_lookup. by case_bool_decide.
  - rewrite remove_keys_size, length_map, length_take, by_age_length; [lia|done|].
    intros k (r & Hr & _)%Htake. eauto.
  - intros k r j r'. rewrite !remove_keys_lookup. case_bool_decide as Hk; [done|]. case_bool_decide as Hj; [|congruence].
    intros Hr Hr' _. destruct (Htake _ Hj) as (r2 & Hr2 & Hin). assert (r2 = r') as -> by congruence.
    assert (Hkin : (k, updated_unix r) ∈ drop n (by_age m)).
    { assert (Hin' : (k, updated_unix r) ∈ by_age m) by (apply elem_of_by_age; eauto).
      rewrite <- (take_drop n (by_age m)), elem_of_app in Hin'. destruct Hin' as [Ht|]; [|done].
      exfalso. apply Hk, list_elem_of_fmap. by exists (k, updated_unix r). }
    pose proof (by_age_sorted m) as Hsort. rewrite <- (take_drop n (by_age m)) in Hsort.
    pose proof (StronglySorted_app_1_elem_of _ _ _ _ _ Hsort Hin Hkin) as Hle. unfold cmp_le in Hle.
    destruct (age_cmp (j, updated_unix r') (k, updated_unix r)) eqn:Hc; [|done|done].
    unfold age_cmp in Hc. cbn in Hc. destruct (Z.compare _ _); try done. apply String.compare_eq_iff in Hc. by subst.
Qed.

Lemma drop_stale_lookup cfg now m k r : drop_stale cfg now m !! k = Some r <-> m !! k = Some r /\ record_fresh cfg now r = true.
Proof.
  unfold drop_stale, record_fresh. destruct (Z.ltb_spec 0 (max_age_secs cfg)); cbn; [|naive_solver].
  rewrite map_lookup_filter_Some. cbn. rewrite negb_true_iff, Z.ltb_ge. done.
Qed.

(** What an eviction leaves: fresh records only, as many as the cap allows,
    the newest of them, ties by the greater scope; and the count it returns is
    the number of records it took out. *)
Theorem evict_exact cfg now m : let '(m', n) := evict_in_place cfg now m in
  (forall k r, m' !! k = Some r -> m !! k = Some r /\ record_fresh cfg now r = true) /\
  size m' = Nat.min (size (drop_stale cfg now m)) (max_entries cfg) /\
  (forall k r j r', m' !! k = Some r -> m !! j = Some r' -> record_fresh cfg now r' = true -> m' !! j = None ->
    age_cmp (j, updated_unix r') (k, updated_unix r) = Lt) /\
  (size m' + n = size m)%nat.
Proof.
  unfold evict_in_place. case_bool_decide as He.
  - apply map_size_empty_inv in He as ->. split_and!; try done.
    unfold drop_stale. destruct (0 <? max_age_secs cfg); by rewrite ?map_filter_empty, map_size_empty.
  - destruct (enforce_cap_exact cfg (drop_stale cfg now m)) as (Hsub & Hsize & Hnew).
    assert (Hss : drop_stale cfg now m ⊆ m).
    { apply map_subseteq_spec. intros k r Hk. by apply drop_stale_lookup in Hk as [? _]. }
    split; [|split; [|split]]; [|done| |].
    + intros k r Hk. apply (drop_stale_lookup cfg now m). by eapply lookup_weaken.
    + intros k r j r' Hk Hj Hf Hn. eapply Hnew; [done| |done]. by apply drop_stale_lookup.
    + pose proof (map_subseteq_size _ _ (transitivity Hsub Hss)). lia.
Qed.

(** A fresh record that is newer than every other survives its eviction. *)
Lemma newest_survives cfg now m k r : m !! k = Some r -> record_fresh cfg now r = true -> (1 <= max_entries cfg)%nat ->
  (forall j r', m !! j = Some r' -> j <> k -> updated_unix r' < updated_unix r) ->
  (evict_in_place cfg now m).1 !! k = Some r.
Proof.
  intros Hk Hf Hcap Hnew. pose proof (evict_exact cfg now m) as He. destruct (evict_in_place cfg now m) as [m' n].
  destruct He as (Hsub & Hsize & Hold & _). cbn.
  assert (Hds : drop_stale cfg now m !! k = Some r) by (by apply drop_stale_lookup).
  assert (Hpos : (1 <= size (drop_stale cfg now m))%nat).
  { destruct (decide (drop_stale cfg now m = ∅)) as [E|E]; [by rewrite E in Hds|]. apply map_size_non_empty_iff in E. lia. }
  destruct (m' !! k) as [r'|] eqn:Hm; [destruct (Hsub _ _ Hm) as [? _]; congruence|]. exfalso.
  assert (Hne : m' <> ∅) by (apply map_size_non_empty_iff; lia).
  apply map_choose in Hne as (j & r' & Hj). destruct (Hsub _ _ Hj) as [Hj' _].
  pose proof (Hold _ _ _ _ Hj Hk Hf Hm) as Hlt. unfold age_cmp in Hlt. cbn in Hlt.
  assert (j <> k) by congruence. specialize (Hnew _ _ Hj' H). by rewrite (proj2 (Z.compare_gt_iff _ _)) in Hlt.
Qed.

Section RoundTrip.
Context (decode : string -> option SessionMap) (encode : SessionMap -> string).
Hypothesis codec : forall m, decode (encode m) = Some m.

(** C34: A session that was saved is the one the next run loads, within the window,
    when the store held no record of the same or a later second. *)
Theorem save_load_roundtrip cfg now now' scope sid file :
  (1 <= max_entries cfg)%nat -> 0 <= now <= now' -> now' <= I64_MAX ->
  (max_age_secs cfg = 0 \/ now' - now <= max_age_secs cfg) ->
  (forall j r, read_map decode file !! j = Some r -> j <> scope -> updated_unix r < now) ->
  load decode cfg now' (save_with_scope decode encode cfg now scope sid file) scope =
  Some (Some {| rec_scope := scope; rec_session_id := sid; updated_unix := now |}).
Proof.
  intros Hcap Hnow Hmax Hage Hnew. unfold save_with_scope, mutate, save_mutation, insert_record. cbn [load].
  rewrite codec. cbn [mbind option_bind]. set (rec := {| rec_scope := scope; rec_session_id := sid; updated_unix := now |}).
  assert (Hfresh : forall t, now <= t <= now' -> record_fresh cfg t rec = true).
  { intros t Ht. unfold record_fresh, i64_sat_sub, i64_clamp. subst rec. cbn [updated_unix].
    apply negb_true_iff, andb_false_iff. destruct Hage as [->|Hage]; [by left|right]. apply Z.ltb_ge.
    unfold I64_MIN, I64_MAX in *. lia. }
  rewrite (newest_survives cfg now _ scope rec).
  - cbn [mbind option_bind]. by rewrite Hfresh by lia.
  - apply lookup_insert_eq.
  - apply Hfresh. lia.
  - done.
  - intros j r' Hj Hne. rewrite lookup_insert_ne in Hj by done. by apply (Hnew j r').
Qed.
End RoundTrip.

(** *** Concrete inputs *)

Module Sample.

(** A codec: the map's number, written in binary. *)
#[export] Instance record_eq_dec : EqDecision EngineSessionRecord.
Proof. solve_decision. Defined.
#[export] Instance record_countable : Countable EngineSessionRecord.
Proof.
  apply (inj_countable' (fun r => (rec_scope r, rec_session_id r, updated_unix r))
    (fun t => {| rec_scope := t.1.1; rec_session_id := t.1.2; updated_unix := t.2 |})). by intros [].
Defined.

Fixpoint bits (p : positive) : string :=
  match p with xH => "" | xO p => String "0" (bits p) | xI p => String "1" (bits p) end.
Fixpoint of_bits (s : string) : option positive :=
  match s with
  | EmptyString => Some xH
  | String c s => (if bool_decide (c = "0"%char) then xO else xI) <$> of_bits s
  end.

Lemma of_bits_bits p : of_bits (bits p) = Some p.
Proof. induction p as [p IH|p IH|]; cbn; [by rewrite IH|by rewrite IH|done]. Qed.

Definition encode_map (m : SessionMap) : string := bits (encode m).
Definition decode_map (s : string) : option SessionMap := of_bits s ≫= decode.

Lemma codec_ok m : decode_map (encode_map m) = Some m.
Proof. unfold decode_map, encode_map. rewrite of_bits_bits. apply decode_encode. Qed.

Lemma save_load_roundtrip_witness :
  load decode_map (config ()) 2000 (save_with_scope decode_map encode_map (config ()) 1000 "goose:/r" "id-1" Absent) "goose:/r" =
  Some (Some {| rec_scope := "goose:/r"; rec_session_id := "id-1"; updated_unix := 1000 |}).
Proof.
  apply (save_load_roundtrip decode_map encode_map codec_ok).
  - vm_compute. lia.
  - lia.
  - unfold I64_MAX. lia.
  - right. vm_compute. discriminate.
  - intros j r Hj. vm_compute in Hj. destruct j; discriminate.
Defined.

(** A record saved in the same second as one of a greater scope is the first
    one a full store evicts. *)
Lemma saved_record_evicted :
  let cfg := {| max_age_secs := DEFAULT_MAX_AGE_SECS; max_entries := 1 |} in
  let store : SessionMap := {[ "goose:/b" := {| rec_scope := "goose:/b"; rec_session_id := "old"; updated_unix := 1000 |} ]} in
  map fst (map_to_list (insert_record cfg 1000 "goose:/a" "new" store)) = ["goose:/b"] /\
  map fst (map_to_list (insert_record cfg 999 "goose:/z" "new" store)) = ["goose:/b"].
Proof. by vm_compute. Qed.

End Sample.
