(* ===== verification/Slots.v ===== *)
(** The host-wide call budgets of a provider (provider_rate.rs of zoder-core,
    provider_slots.rs of zoder-cli, and the limits the reviewer takes from
    them in agentic.rs): names of groups, limits, the waiting loop, the slot
    files as interleaved steps of the calls of a host, the rate window.

    A [Duration] is its nanoseconds, a stamp of the rate file milliseconds. *)
From S2P Require Import Prelude Numbers.
Local Open Scope Z_scope.

Definition POLL : Z := 200 * ns_per_ms.
Definition NOTICE_AFTER : Z := 10 * ns_per_s.
Definition NOTICE_EVERY : Z := 30 * ns_per_s.
Definition WINDOW_MS : Z := 60000.
Definition DEFAULT_QUEUE_TIMEOUT_S : Z := 900.

(** ** Names and limits *)

Definition is_ascii_alphanumeric (c : ascii) : bool :=
  let n := Ascii.nat_of_ascii c in
  ((48 <=? n)%nat && (n <=? 57)%nat) || ((65 <=? n)%nat && (n <=? 90)%nat) ||
  ((97 <=? n)%nat && (n <=? 122)%nat).

Definition safe_char (c : ascii) : ascii :=
  if is_ascii_alphanumeric c || Ascii.eqb c "-" || Ascii.eqb c "_" || Ascii.eqb c "."
  then c else "_"%char.

(** A directory name for a group.  A character outside ASCII is one [char] in
    Rust and several bytes here; each becomes an underscore. *)
Fixpoint safe_group (group : string) : string :=
  match group with
  | EmptyString => EmptyString
  | String c r => String (safe_char c) (safe_group r)
  end.

(** The directory of the slot files, as its components under the home. *)
Definition slots_dir (group : string) : list string := ["state"; "slots"; safe_group group]%string.
Definition rate_file (group : string) : list string :=
  ["state"; "rate"; safe_group group +:+ ".json"]%string.

(** [limit_for]: the parts of the specification in order.  The first exact
    match returns; the last [*] read before the end is the default. *)
Fixpoint limit_scan (parts : list string) (provider : string) (default : Z) : Z :=
  match parts with
  | [] => default
  | part :: rest =>
      match split_once "=" (trim part) with
      | None => limit_scan rest provider default
      | Some (name, n) =>
          match parse_u64_std (trim n) with
          | None => limit_scan rest provider default
          | Some n =>
              if bool_decide (trim name = "*"%string) then limit_scan rest provider n
              else if bool_decide (trim name = provider) then n
              else limit_scan rest provider default
          end
      end
  end.

Definition limit_for (spec : option string) (provider : string) : Z :=
  match spec with
  | None => 0
  | Some spec => limit_scan (split_on "," spec) provider 0
  end.

(** The queue timeout of the core module; the reviewer's trims its value. *)
Definition queue_timeout_from_env (var : option string) : Z :=
  default DEFAULT_QUEUE_TIMEOUT_S (v ← var; parse_u64_std v) * ns_per_s.
Definition reviewer_queue_timeout_from_env (var : option string) : Z :=
  default DEFAULT_QUEUE_TIMEOUT_S (v ← var; parse_u64_std (trim v)) * ns_per_s.

(** The slot limit of a reviewer call, and whether it takes a second slot,
    one of its group. *)
Definition reviewer_slot_limit (spec : option string) (profile_default : Z)
    (id : string) (cfg_conc : Z) : Z :=
  match spec with
  | Some spec => Z.max (limit_for (Some spec) id) cfg_conc
  | None => Z.max profile_default cfg_conc
  end.
Definition reviewer_takes_group_slot (group id : string) : bool := negb (bool_decide (group = id)).

(** ** Taking a slot *)

(** What opening and locking the slot file [i] gave. *)
Inductive LockTry := Locked | WouldBlock | IoError.

(** [try_take] from slot [i] on, [n] slots left. *)
Fixpoint try_take_from (try_lock : nat -> LockTry) (i n : nat) : result (option nat) unit :=
  match n with
  | O => Ok None
  | S n' =>
      match try_lock i with
      | Locked => Ok (Some i)
      | WouldBlock => try_take_from try_lock (S i) n'
      | IoError => Err tt
      end
  end.
Definition try_take (try_lock : nat -> LockTry) (limit : nat) : result (option nat) unit :=
  try_take_from try_lock 0 limit.

(** ** The waiting loop

    [wait_for_slot], [wait_for_rate_turn] and the reviewer's [acquire] are one
    loop around an attempt.  The environment gives, for the round [k], what
    the attempt returned and how long it took ([cost k]), and by how much the
    timer overslept ([over k]); a timer never fires early.  [next] is when the
    next notice is due, [renotice] what follows a notice. *)
Inductive WaitResult (A : Type) :=
| Granted (a : A) (waited : Z)
| QueueTimeout (waited : Z)
| AttemptFailed.
Arguments Granted {A} a waited.
Arguments QueueTimeout {A} waited.
Arguments AttemptFailed {A}.

Section Waiting.
Context {A : Type}.
Variable attempt : nat -> result (option A) unit.
Variable cost over : nat -> Z.
Variable queue_timeout : Z.
Variable renotice : Z -> option Z.

(** The result with the notices printed; [None] when the fuel is too small. *)
Fixpoint wait_loop (fuel : nat) (k : nat) (elapsed : Z) (next : option Z) :
    option (WaitResult A * list Z) :=
  match fuel with
  | O => None
  | S fuel =>
      match attempt k with
      | Err _ => Some (AttemptFailed, [])
      | Ok (Some a) => Some (Granted a (elapsed + cost k), [])
      | Ok None =>
          let waited := elapsed + cost k in
          if queue_timeout <=? waited then Some (QueueTimeout waited, [])
          else
            let due := match next with Some at_ => at_ <=? waited | None => false end in
            let next' := if due then next ≫= renotice else next in
            r ← wait_loop fuel (S k)
                  (waited + Z.min POLL (u64_sat_sub queue_timeout waited) + over k) next';
            Some (r.1, if due then (waited / ns_per_s) :: r.2 else r.2)
      end
  end.

(** Rounds that reach the timeout whatever the environment does. *)
Definition wait_fuel : nat := Z.to_nat (queue_timeout / POLL + 2).
End Waiting.

(** One notice after ten seconds in the core loops; one every thirty seconds
    in the reviewer's. *)
Definition notice_once (_ : Z) : option Z := None.
Definition notice_again (at_ : Z) : option Z := Some (at_ + NOTICE_EVERY).

(** One round of the loop on the slot files, as the round [k] finds them. *)
Definition slot_attempt (try_lock : nat -> nat -> LockTry) (limit k : nat) :
    result (option (option nat)) unit :=
  match try_take (try_lock k) limit with
  | Ok (Some i) => Ok (Some (Some i))
  | Ok None => Ok None
  | Err e => Err e
  end.

Definition wait_for_slot (limit : nat) (try_lock : nat -> nat -> LockTry) (cost over : nat -> Z)
    (queue_timeout : Z) (quiet : bool) : option (WaitResult (option nat) * list Z) :=
  match limit with
  | O => Some (Granted None 0, [])
  | _ => wait_loop (slot_attempt try_lock limit) cost over queue_timeout notice_once
           (wait_fuel queue_timeout) 0 0 (if quiet then None else Some NOTICE_AFTER)
  end.

(** [acquire] of provider_slots.rs. *)
Definition reviewer_acquire (limit : nat) (try_lock : nat -> nat -> LockTry)
    (cost over : nat -> Z) (queue_timeout : Z) (quiet : bool) :
    option (WaitResult (option nat) * list Z) :=
  match limit with
  | O => Some (Granted None 0, [])
  | _ => wait_loop (slot_attempt try_lock limit) cost over queue_timeout notice_again
           (wait_fuel queue_timeout) 0 0 (if quiet then None else Some NOTICE_EVERY)
  end.

(** ** The rate window *)

(** The JSON codec of the stamps; [None] is a text that does not parse. *)
Class StampCodec := {
  read_stamps : string -> option (list Z);
  write_stamps : list Z -> string
}.
Class StampCodecLaws `{StampCodec} : Prop := {
  read_write_stamps l : read_stamps (write_stamps l) = Some l
}.

Section Rate.
Context `{StampCodec}.

(** What the rewrite under the lock did: all of it, or an error (or the end of
    the process) after the file was emptied and [n] bytes were written. *)
Inductive Rewrite := Rewritten | CutShort (n : nat).

(** [rate_admit] on the text [raw] of the file. *)
Definition rate_admit (raw : string) (limit now_ms : Z) (io : Rewrite) :
    result bool unit * string :=
  let stamps := default [] (read_stamps raw) in
  let cutoff := Z.max 0 (now_ms - WINDOW_MS) in
  let stamps := filterb (fun ts => cutoff <? ts) stamps in
  let admits := Z.of_nat (length stamps) mod 4294967296 <? limit in
  let stamps := if admits then stamps ++ [now_ms] else stamps in
  match io with
  | Rewritten => (Ok admits, write_stamps stamps)
  | CutShort n => (Err tt, take_chars n (write_stamps stamps))
  end.

(** The round [k] of [wait_for_rate_turn] finds the file [raw k] and reads
    the clock [now k].  A failure of the blocking task counts as a refusal. *)
Inductive RateTask := TaskRan (io : Rewrite) | TaskLost.
Definition rate_attempt (raw : nat -> string) (now : nat -> Z) (task : nat -> RateTask)
    (limit : Z) (k : nat) : result (option unit) unit :=
  match task k with
  | TaskLost => Ok None
  | TaskRan io => match (rate_admit (raw k) limit (now k) io).1 with
                  | Ok true => Ok (Some tt)
                  | Ok false => Ok None
                  | Err e => Err e
                  end
  end.

Definition wait_for_rate_turn (rate_limit : Z) (raw : nat -> string) (now : nat -> Z)
    (task : nat -> RateTask) (cost over : nat -> Z) (queue_timeout : Z) (quiet : bool) :
    option (WaitResult unit * list Z) :=
  if rate_limit =? 0 then Some (Granted tt 0, [])
  else wait_loop (rate_attempt raw now task rate_limit) cost over queue_timeout notice_once
         (wait_fuel queue_timeout) 0 0 (if quiet then None else Some NOTICE_AFTER).

(** The requests of a host on one group, in the order in which they held the
    lock: each read its clock, then held the lock when the wall clock showed
    [locked_at]. *)
Record Turn := mkTurn { stamp : Z; locked_at : Z }.

Fixpoint rate_run (raw : string) (limit : Z) (turns : list Turn) : list bool * string :=
  match turns with
  | [] => ([], raw)
  | t :: rest =>
      let '(r, raw) := rate_admit raw limit (stamp t) Rewritten in
      let admitted := match r with Ok b => b | Err _ => false end in
      let '(bs, raw) := rate_run raw limit rest in (admitted :: bs, raw)
  end.
End Rate.

(** [acquire] of provider_rate.rs: the slot first, then the turn.  An error of
    the second drops the guard of the first. *)
Record Acquired := mkAcquired {
  guard : option nat; waited : Z; limit : nat; rate_limit : Z
}.
Definition is_held (a : Acquired) : bool := bool_decide (is_Some (guard a)).

Definition acquire (slot_result : WaitResult (option nat)) (rate_result : WaitResult unit)
    (max_concurrent : nat) (max_requests_per_minute : Z) : option Acquired :=
  match slot_result with
  | Granted g slot_waited =>
      match rate_result with
      | Granted _ rate_waited =>
          Some (mkAcquired g (slot_waited + rate_waited) max_concurrent max_requests_per_minute)
      | _ => None
      end
  | _ => None
  end.

(** ** The slot files of one directory, interleaved

    The calls of a host, over all processes, take their steps in any order.
    A call opens and tries the files one after the other; a held lock ends
    with its guard or with its process.  Times are of one monotonic clock. *)
Inductive CallState :=
| Scanning (started : Z) (i : nat)
| Sleeping (started until : Z)
| Holding (i : nat)
| Failed (started at_ : Z).

Record Call := mkCall { call_limit : nat; call_timeout : Z; call_state : CallState }.
Definition set_state (c : Call) (s : CallState) : Call := mkCall (call_limit c) (call_timeout c) s.

Record SlotWorld := mkSlotWorld {
  sw_clock : Z;
  sw_locks : gmap nat nat;      (* slot file to the call that holds it *)
  sw_calls : gmap nat Call
}.
Definition set_call (w : SlotWorld) (c : nat) (x : Call) : SlotWorld :=
  mkSlotWorld (sw_clock w) (sw_locks w) (<[c := x]> (sw_calls w)).

Inductive slot_step : SlotWorld -> SlotWorld -> Prop :=
| step_tick w d : 0 <= d ->
    slot_step w (mkSlotWorld (sw_clock w + d) (sw_locks w) (sw_calls w))
| step_begin w c lim timeout : sw_calls w !! c = None -> (0 < lim)%nat -> 0 <= timeout ->
    slot_step w (set_call w c (mkCall lim timeout (Scanning (sw_clock w) 0)))
| step_locked w c x started i :
    sw_calls w !! c = Some x -> call_state x = Scanning started i ->
    (i < call_limit x)%nat -> sw_locks w !! i = None ->
    slot_step w (mkSlotWorld (sw_clock w) (<[i := c]> (sw_locks w))
                   (<[c := set_state x (Holding i)]> (sw_calls w)))
| step_would_block w c x started i :
    sw_calls w !! c = Some x -> call_state x = Scanning started i ->
    (i < call_limit x)%nat -> is_Some (sw_locks w !! i) ->
    slot_step w (set_call w c (set_state x (Scanning started (S i))))
| step_io_error w c x started i :
    sw_calls w !! c = Some x -> call_state x = Scanning started i ->
    slot_step w (mkSlotWorld (sw_clock w) (sw_locks w) (delete c (sw_calls w)))
| step_timeout w c x started i :
    sw_calls w !! c = Some x -> call_state x = Scanning started i ->
    (call_limit x <= i)%nat -> call_timeout x <= sw_clock w - started ->
    slot_step w (set_call w c (set_state x (Failed started (sw_clock w))))
| step_sleep w c x started i :
    sw_calls w !! c = Some x -> call_state x = Scanning started i ->
    (call_limit x <= i)%nat -> sw_clock w - started < call_timeout x ->
    let waited := sw_clock w - started in
    slot_step w (set_call w c (set_state x
      (Sleeping started (sw_clock w + Z.min POLL (u64_sat_sub (call_timeout x) waited)))))
| step_wake w c x started until :
    sw_calls w !! c = Some x -> call_state x = Sleeping started until -> until <= sw_clock w ->
    slot_step w (set_call w c (set_state x (Scanning started 0)))
| step_release w c x i :
    (* the guard is dropped, or the process ends and the kernel unlocks *)
    sw_calls w !! c = Some x -> call_state x = Holding i ->
    slot_step w (mkSlotWorld (sw_clock w) (delete i (sw_locks w)) (delete c (sw_calls w)))
| step_crash w c x :
    sw_calls w !! c = Some x -> (forall i, call_state x <> Holding i) ->
    slot_step w (mkSlotWorld (sw_clock w) (sw_locks w) (delete c (sw_calls w))).

Definition slot_init : SlotWorld := mkSlotWorld 0 ∅ ∅.

(** The calls that hold a slot, as the list of their numbers. *)
Definition holders (w : SlotWorld) : list nat :=
  omap (fun '(c, x) => match call_state x with Holding _ => Some c | _ => None end)
    (map_to_list (sw_calls w)).

(** ** Names and limits: theorems *)

Lemma safe_char_safe c : safe_char (safe_char c) = safe_char c.
Proof. unfold safe_char at 2 3. destruct (_ || _) eqn:E; [|done]. unfold safe_char. by rewrite E. Qed.

(** A group's directory is one path component: no separator survives. *)
Lemma safe_group_no_slash g : str_contains "/" (safe_group g) = false.
Proof.
  induction g as [|c g IH]; [done|]. cbn [safe_group str_contains]. rewrite IH, orb_false_r.
  cbn [String.prefix]. destruct (ascii_dec "/" (safe_char c)) as [E|]; [exfalso|done].
  revert E. destruct c as [[] [] [] [] [] [] [] []]; vm_compute; congruence.
Qed.

Lemma safe_group_idempotent g : safe_group (safe_group g) = safe_group g.
Proof. induction g as [|c g IH]; simpl; [done|]. by rewrite safe_char_safe, IH. Qed.

(** What a part of the specification assigns, when it is well formed. *)
Definition assignment (part : string) : option (string * Z) :=
  '(name, n) ← split_once "=" (trim part);
  n ← parse_u64_std (trim n); Some (trim name, n).

(** The limit of a provider is that of the first well-formed part that names
    it; without one it is that of the last well-formed default part, and zero
    without that.  Malformed parts change nothing. *)
Lemma limit_scan_exact parts provider d :
  provider <> "*"%string ->
  limit_scan parts provider d =
  match find_first (fun '(name, _) => bool_decide (name = provider)) (omap assignment parts) with
  | Some (_, n) => n
  | None => default d (snd <$> last (filterb (fun '(name, _) => bool_decide (name = "*"%string))
                                       (omap assignment parts)))
  end.
Proof.
  intros Hp. revert d. induction parts as [|part parts IH]; intros d; [done|].
  change (omap assignment (part :: parts)) with
    (match assignment part with Some y => y :: omap assignment parts | None => omap assignment parts end).
  cbn [limit_scan]. destruct (assignment part) as [[nm n]|] eqn:Ea; unfold assignment in Ea;
    destruct (split_once "=" (trim part)) as [[name v]|]; simplify_eq/=; try apply IH;
    destruct (parse_u64_std (trim v)) as [n'|]; simplify_eq/=; [|apply IH].
  destruct (decide (trim name = "*"%string)) as [E|E].
  - rewrite (bool_decide_eq_true_2 _ E), IH, E, (bool_decide_eq_false_2 ("*"%string = provider)) by congruence.
    case_match; [done|]. rewrite last_cons. by destruct (last (filterb _ _)).
  - rewrite (bool_decide_eq_false_2 _ E). by destruct (bool_decide (trim name = provider)).
Qed.

(** An operator's specification does not lower a reviewer's limit below the
    configured one, although it is documented to take precedence. *)
Lemma reviewer_spec_cannot_lower :
  reviewer_slot_limit (Some "p=1"%string) 0 "p" 4 = 4 /\ limit_for (Some "p=1"%string) "p" = 1.
Proof. by vm_compute. Qed.

(** ** Taking a slot: theorems *)

(** [try_take] takes the first file it can lock; a held file is skipped, and
    an error of a file before that ends the attempt. *)
Lemma try_take_exact try_lock n i :
  match try_take_from try_lock i n with
  | Ok (Some j) => (i <= j < i + n)%nat /\ try_lock j = Locked /\
      forall k, (i <= k < j)%nat -> try_lock k = WouldBlock
  | Ok None => forall k, (i <= k < i + n)%nat -> try_lock k = WouldBlock
  | Err _ => exists j, (i <= j < i + n)%nat /\ try_lock j = IoError /\
      forall k, (i <= k < j)%nat -> try_lock k = WouldBlock
  end.
Proof.
  revert i. induction n as [|n IH]; intros i; simpl; [lia|].
  destruct (try_lock i) eqn:E.
  - split_and!; [lia..|done|lia].
  - specialize (IH (S i)).
    assert (forall k, (i <= k)%nat -> k = i \/ (S i <= k)%nat) as Hk by lia.
    destruct (try_take_from try_lock (S i) n) as [[j|]|].
    + destruct IH as (? & ? & IH). split_and!; [lia..|done|].
      intros k Hi. destruct (Hk k) as [->|]; [lia|done|apply IH; lia].
    + intros k Hi. destruct (Hk k) as [->|]; [lia|done|apply IH; lia].
    + destruct IH as (j & ? & ? & IH). exists j. split_and!; [lia..|done|].
      intros k Hi. destruct (Hk k) as [->|]; [lia|done|apply IH; lia].
  - exists i. split_and!; [lia..|done|lia].
Qed.

(** Two groups whose names differ only in replaced characters share a
    directory, and a reviewer whose group is spelled that way waits for the
    slot it holds itself, until the timeout. *)
Lemma group_alias_self_deadlock :
  slots_dir "org/model" = slots_dir "org_model" /\
  reviewer_takes_group_slot "org/model" "org_model" = true /\
  wait_for_slot 1 (fun _ _ => WouldBlock) (fun _ => 0) (fun _ => 0) ns_per_s true
    = Some (QueueTimeout ns_per_s, []).
Proof. by vm_compute. Qed.

(** ** The waiting loop: theorems *)
Section WaitingTheorems.
Context {A : Type} (attempt : nat -> result (option A) unit) (cost over : nat -> Z)
  (queue_timeout : Z) (renotice : Z -> option Z).
Hypothesis cost_nonneg : forall k, 0 <= cost k.
Hypothesis over_nonneg : forall k, 0 <= over k.

(** By how much the timer before round [k] was late. *)
Definition late (k : nat) : Z := match k with O => 0 | S k => over k end.

(** The outcome [r] of a wait that ends in round [k]. *)
Definition ends_in (k : nat) (r : WaitResult A) : Prop :=
  (forall j, (j < k)%nat -> attempt j = Ok None) /\
  match r with
  | Granted a _ => attempt k = Ok (Some a)
  | QueueTimeout waited => attempt k = Ok None /\
      queue_timeout <= waited <= queue_timeout + late k + cost k
  | AttemptFailed => attempt k = Err tt
  end.

Lemma wait_loop_ends fuel k elapsed next :
  (1 <= fuel)%nat -> queue_timeout - elapsed <= POLL * (Z.of_nat fuel - 1) ->
  elapsed <= queue_timeout + late k -> (forall j, (j < k)%nat -> attempt j = Ok None) ->
  exists k' r notes, wait_loop attempt cost over queue_timeout renotice fuel k elapsed next
    = Some (r, notes) /\ (k' < k + fuel)%nat /\ ends_in k' r.
Proof.
  revert k elapsed next. induction fuel as [|fuel IH]; intros k elapsed next Hf Hd Hl Hk; [lia|].
  simpl. destruct (attempt k) as [[a|]|[]] eqn:E.
  1,3: eexists k, _, _; split_and!; [done|lia|by split].
  pose proof (cost_nonneg k). pose proof (over_nonneg k).
  case_match eqn:Et.
  { eexists k, _, _. split_and!; [done|lia|]. split; [done|]. split; [done|lia]. }
  edestruct (IH (S k)) as (k' & r & notes & -> & Hk' & Hr).
  5: { eexists k', r, _. split_and!; [done|lia|done]. }
  all: unfold POLL, ns_per_ms in *; cbn [late]; unfold_ints; try lia.
  intros j Hj. destruct (decide (j = k)) as [->|]; [done|apply Hk; lia].
Qed.
End WaitingTheorems.

(** C32: A wait always ends.  Whatever the attempts return and however long
    they and the timers take, the loop gives a result within
    [timeout / POLL + 2] attempts; every attempt before the last was refused;
    a grant is the last attempt's; and it gives up only once the timeout has
    passed, late by at most one timer and one attempt. *)
Theorem wait_loop_total {A} (attempt : nat -> result (option A) unit) (cost over : nat -> Z)
    (queue_timeout : Z) (renotice : Z -> option Z) (next : option Z) :
  (forall k, 0 <= cost k) -> (forall k, 0 <= over k) -> 0 <= queue_timeout ->
  exists k r notes,
    wait_loop attempt cost over queue_timeout renotice (wait_fuel queue_timeout) 0 0 next
      = Some (r, notes) /\
    Z.of_nat k <= queue_timeout / POLL + 1 /\ ends_in attempt cost over queue_timeout k r.
Proof.
  intros Hc Ho Ht. pose proof (Z.div_pos queue_timeout POLL Ht ltac:(done)).
  edestruct (wait_loop_ends attempt cost over queue_timeout renotice Hc Ho
    (wait_fuel queue_timeout) 0 0 next) as (k & r & notes & -> & Hk & Hr).
  all: unfold wait_fuel in *; simpl; try lia.
  - unfold POLL, ns_per_ms in *. div_lia.
  - exists k, r, notes. split_and!; [done|lia|done].
Qed.

Lemma wait_loop_total_witness :
  exists k r notes,
    wait_loop (fun k => if (k <? 7)%nat then Ok None else Ok (Some k)) (fun _ => 5) (fun _ => 1000)
      (2 * ns_per_s) notice_once (wait_fuel (2 * ns_per_s)) 0 0 (Some NOTICE_AFTER) = Some (r, notes) /\
    Z.of_nat k <= 2 * ns_per_s / POLL + 1 /\
    ends_in (fun k => if (k <? 7)%nat then Ok None else Ok (Some k)) (fun _ => 5) (fun _ => 1000)
      (2 * ns_per_s) k r.
Proof. apply wait_loop_total; [intros _; lia|intros _; lia|vm_compute; congruence]. Defined.

(** ** The rate window: theorems *)
Section RateTheorems.
Context `{StampCodecLaws}.

(** Stamps above a bound. *)
Definition count_above (lo : Z) (l : list Z) : nat := length (filterb (fun ts => lo <? ts) l).

Lemma count_above_app lo l k : count_above lo (l ++ k) = (count_above lo l + count_above lo k)%nat.
Proof. unfold count_above, filterb. by rewrite List.filter_app, length_app. Qed.

Lemma filterb_filterb {B} (p q : B -> bool) l :
  (forall x, p x = true -> q x = true) -> filterb p (filterb q l) = filterb p l.
Proof.
  intros Hpq. unfold filterb. induction l as [|x l IH]; simpl; [done|].
  destruct (p x) eqn:Ep; [rewrite (Hpq x Ep); simpl; by rewrite Ep, IH|].
  destruct (q x); simpl; [by rewrite Ep|done].
Qed.

Lemma count_above_prune lo cut l :
  cut <= lo -> count_above lo (filterb (fun ts => cut <? ts) l) = count_above lo l.
Proof. intros. unfold count_above. rewrite filterb_filterb; [done|intros x; lia]. Qed.

(** The requests admitted when the wall clock showed a time in the window
    [(lo, lo + WINDOW_MS - stale]]. *)
Definition started_in (lo stale : Z) (turns : list Turn) (bs : list bool) : nat :=
  length (filterb (fun '(t, b) => b && (lo <? locked_at t) && (locked_at t <=? lo + WINDOW_MS - stale))
    (zip turns bs)).

Lemma started_in_cons lo stale t turns b bs :
  started_in lo stale (t :: turns) (b :: bs) =
  ((if b && (lo <? locked_at t)%Z && (locked_at t <=? lo + WINDOW_MS - stale)%Z then 1 else 0)
   + started_in lo stale turns bs)%nat.
Proof. unfold started_in. simpl. by case_match. Qed.

Lemma started_in_late lo stale turns bs :
  (forall t, t ∈ turns -> lo + WINDOW_MS - stale < locked_at t) -> started_in lo stale turns bs = 0%nat.
Proof.
  revert bs. induction turns as [|t turns IH]; intros bs Ht; [done|].
  destruct bs as [|b bs]; [done|]. rewrite started_in_cons, IH.
  - pose proof (Ht t ltac:(left)). rewrite (proj2 (Z.leb_gt (locked_at t) _)) by done.
    by rewrite andb_false_r.
  - intros t' ?. apply Ht. by right.
Qed.

(** A run of turns: they hold the lock in order, each with a reading of the
    clock at most [stale] old. *)
Definition turns_ok (stale : Z) (turns : list Turn) : Prop :=
  StronglySorted (fun a b => locked_at a <= locked_at b) turns /\
  Forall (fun t => 0 < stamp t /\ locked_at t - stale <= stamp t <= locked_at t) turns.

Lemma rate_run_bound stale lo lim raw turns :
  0 < lim <= U32_MAX -> turns_ok stale turns ->
  Z.of_nat (length (default [] (read_stamps raw))) <= U32_MAX ->
  let c := count_above (Z.max 0 (lo - stale)) (default [] (read_stamps raw)) in
  Z.of_nat c + Z.of_nat (started_in lo stale turns (rate_run raw lim turns).1)
    <= Z.max lim (Z.of_nat c).
Proof.
  intros Hlim. revert raw. induction turns as [|t turns IH]; intros raw [Hs Hf] Hlen; [unfold started_in; simpl; lia|].
  set (l := default [] (read_stamps raw)) in *.
  destruct (decide (lo + WINDOW_MS - stale < locked_at t)) as [Hlate|Hin].
  { rewrite started_in_late; [simpl; lia|]. intros t' [->|Ht']%elem_of_cons; [done|].
    pose proof (StronglySorted_head _ _ _ Hs t' Ht'). simpl in *. lia. }
  apply StronglySorted_inv in Hs as [Hs _]. apply Forall_cons in Hf as [[Hpos [Hlo Hhi]] Hf].
  cbn [rate_run rate_admit]. fold l.
  set (cut := Z.max 0 (stamp t - WINDOW_MS)).
  set (l' := filterb (fun ts => cut <? ts) l).
  assert (length l' <= length l)%nat as Hl' by apply filterb_length.
  assert (count_above (Z.max 0 (lo - stale)) l' = count_above (Z.max 0 (lo - stale)) l) as Hc.
  { apply count_above_prune. lia. }
  assert (count_above (Z.max 0 (lo - stale)) l' <= length l')%nat as Hcl by apply filterb_length.
  rewrite Z.mod_small by (unfold U32_MAX in *; lia).
  destruct (Z.of_nat (length l') <? lim) eqn:Ea.
  - specialize (IH (write_stamps (l' ++ [stamp t])) (conj Hs Hf)).
    rewrite read_write_stamps in IH. cbn [from_option id] in IH. rewrite length_app in IH.
    specialize (IH ltac:(simpl; unfold U32_MAX in *; lia)). rewrite count_above_app in IH.
    destruct (rate_run _ lim turns) as [bs raw'] eqn:Er. cbn [fst] in *. rewrite started_in_cons.
    assert (count_above (Z.max 0 (lo - stale)) [stamp t] = if lo - stale <? stamp t then 1%nat else 0%nat) as H1.
    { unfold count_above. simpl. replace (Z.max 0 (lo - stale) <? stamp t) with (lo - stale <? stamp t) by lia.
      by case_match. }
    rewrite H1 in IH. clear Er H1. simpl.
    destruct (lo <? locked_at t) eqn:E1, (lo - stale <? stamp t) eqn:E2; simpl; try lia.
    all: case_match; lia.
  - specialize (IH (write_stamps l') (conj Hs Hf)). rewrite read_write_stamps in IH. cbn [from_option id] in IH.
    specialize (IH ltac:(lia)). destruct (rate_run _ lim turns) as [bs raw'] eqn:Er. cbn [fst] in *.
    rewrite started_in_cons. simpl. lia.
Qed.
End RateTheorems.

(** C31: the rate budget bounds what it says it bounds.  Whatever the file
    held, when the requests of a host read the clock at most [stale]
    milliseconds before they hold the lock, no window of
    [60000 - stale] milliseconds sees more than [lim] of them admitted. *)
Theorem rate_window_bound `{StampCodecLaws} (raw : string) (lim stale lo : Z) (turns : list Turn) :
  0 < lim <= U32_MAX -> turns_ok stale turns ->
  Z.of_nat (length (default [] (read_stamps raw))) <= U32_MAX ->
  Z.of_nat (started_in lo stale turns (rate_run raw lim turns).1) <= lim.
Proof. intros Hl Ht Hr. pose proof (rate_run_bound stale lo lim raw turns Hl Ht Hr). simpl in *. lia. Qed.

(** The budget as documented, on the full history of admissions. *)
Fixpoint reference_run (history : list Z) (lim : Z) (stamps : list Z) : list bool :=
  match stamps with
  | [] => []
  | now :: rest =>
      let admits := Z.of_nat (length (filterb (fun ts => now - WINDOW_MS <? ts) history)) <? lim in
      admits :: reference_run (if admits then history ++ [now] else history) lim rest
  end.

Lemma rate_run_history `{StampCodecLaws} last history lim raw turns :
  0 <= last -> lim <= U32_MAX ->
  StronglySorted (fun a b => stamp a <= stamp b) turns ->
  Forall (fun t => last <= stamp t /\ 0 < stamp t) turns ->
  Forall (fun ts => 0 < ts) history ->
  (forall cut, Z.max 0 (last - WINDOW_MS) <= cut ->
     filterb (fun ts => cut <? ts) (default [] (read_stamps raw)) = filterb (fun ts => cut <? ts) history) ->
  Z.of_nat (length (default [] (read_stamps raw))) <= U32_MAX ->
  (rate_run raw lim turns).1 = reference_run history lim (map stamp turns).
Proof.
  intros Hlast Hlim. revert last history raw Hlast.
  induction turns as [|t turns IH]; intros last history raw Hlast Hs Hf Hpos Heq Hlen; [done|].
  pose proof (StronglySorted_head _ _ _ Hs) as Hh. apply StronglySorted_inv in Hs as [Hs _].
  apply Forall_cons in Hf as [[Ht Htp] Hf]. cbn [rate_run rate_admit map reference_run].
  set (cut := Z.max 0 (stamp t - WINDOW_MS)).
  rewrite (Heq cut) by lia. pose proof (f_equal length (Heq cut ltac:(lia))) as Hl.
  set (h := filterb (fun ts => cut <? ts) history) in *.
  assert (filterb (fun ts => stamp t - WINDOW_MS <? ts) history = h) as Hh'.
  { unfold h. clear -Hpos. induction Hpos as [|x l Hx _ IH]; [done|].
    unfold filterb in *. simpl. rewrite IH. by replace (cut <? x) with (stamp t - WINDOW_MS <? x) by lia. }
  rewrite Hh'. pose proof (filterb_length (fun ts => cut <? ts) (default [] (read_stamps raw))).
  rewrite Z.mod_small by (unfold U32_MAX in *; lia).
  assert (Forall (fun t' => stamp t <= stamp t' /\ 0 < stamp t') turns) as Hf'.
  { apply Forall_forall. intros t' Ht'. specialize (Hh t' Ht').
    apply Forall_forall with (x := t') in Hf; [simpl in *; lia|done]. }
  destruct (_ <? lim) eqn:E; destruct (rate_run (write_stamps _) lim turns) as [bs raw'] eqn:Er;
    apply (f_equal fst) in Er; cbn [fst] in *; rewrite <- Er; f_equal;
    apply (IH (stamp t)); try done; try lia.
  all: rewrite ?read_write_stamps; cbn [from_option id].
  - apply Forall_app. split; [done|]. by constructor.
  - intros cut' Hc. unfold filterb, h. rewrite !List.filter_app. f_equal. apply filterb_filterb. intros x; lia.
  - rewrite length_app. simpl. lia.
  - intros cut' Hc. unfold h. apply filterb_filterb. intros x; lia.
  - lia.
Qed.

(** On clock readings that do not go back, the pruned file admits exactly
    the requests that the full history of admissions would: a request starts
    when fewer than [lim] were admitted in the 60 seconds before it. *)
Theorem rate_run_reference `{StampCodecLaws} (lim : Z) (raw : string) (turns : list Turn) :
  lim <= U32_MAX -> read_stamps raw = None ->
  StronglySorted (fun a b => stamp a <= stamp b) turns -> Forall (fun t => 0 < stamp t) turns ->
  (rate_run raw lim turns).1 = reference_run [] lim (map stamp turns).
Proof.
  intros Hl Hraw Hs Hf. apply (rate_run_history 0); rewrite ?Hraw; try done.
  eapply Forall_impl; [done|]. simpl. lia.
Qed.

(** ** A codec for the examples

    stdpp's encoding of a list of integers, spelled in the letters of its
    bits; the empty text does not parse. *)
Fixpoint bits_of_pos (p : positive) : string :=
  match p with
  | xH => "."
  | xO p => String "0" (bits_of_pos p)
  | xI p => String "1" (bits_of_pos p)
  end%string.
Fixpoint pos_of_bits (s : string) : option positive :=
  match s with
  | EmptyString => None
  | String c r => if Ascii.eqb c "." then Some xH
                  else p ← pos_of_bits r; Some (if Ascii.eqb c "0" then xO p else xI p)
  end.
Lemma pos_of_bits_of_pos p : pos_of_bits (bits_of_pos p) = Some p.
Proof. induction p as [p IH|p IH|]; simpl; [by rewrite IH..|done]. Qed.

#[export] Instance sample_codec : StampCodec := {|
  read_stamps s := pos_of_bits s ≫= decode;
  write_stamps l := bits_of_pos (encode l)
|}.
#[export] Instance sample_codec_laws : StampCodecLaws.
Proof. split. intros l. simpl. rewrite pos_of_bits_of_pos. simpl. apply decode_encode. Qed.

Definition sample_turns : list Turn :=
  [mkTurn 100000 100000; mkTurn 100010 100200; mkTurn 130000 130000; mkTurn 160005 160010;
   mkTurn 160100 160100].

Lemma rate_window_bound_witness :
  (rate_run "" 2 sample_turns).1 = [true; true; false; true; true] /\
  Z.of_nat (started_in 100000 500 sample_turns (rate_run "" 2 sample_turns).1) <= 2.
Proof.
  split; [by vm_compute|]. apply rate_window_bound; [done| |done].
  split; repeat constructor; simpl; lia.
Defined.

Lemma rate_run_reference_witness :
  (rate_run "" 2 sample_turns).1 = reference_run [] 2 [100000; 100010; 130000; 160005; 160100].
Proof.
  apply (rate_run_reference 2 "" sample_turns); [done|done|..]; repeat constructor; simpl; lia.
Defined.

(** A reading that waited for the lock is stamped with its age, so the window
    forgets it that much too early: two requests within a millisecond on a
    budget of one a minute. *)
Lemma stale_stamp_overruns :
  (rate_run "" 1 [mkTurn 1000 61000; mkTurn 61001 61001]).1 = [true; true].
Proof. by vm_compute. Qed.

(** After the wall clock was set back by an hour, the stamps of the hour are
    in the future and nothing is admitted until it has passed again. *)
Lemma clock_set_back_blocks :
  (rate_run "" 1 [mkTurn 9000000 9000000; mkTurn 5400000 5400000; mkTurn 5460001 5460001;
                  mkTurn 9059999 9059999; mkTurn 9060000 9060000]).1
  = [true; false; false; false; true].
Proof. by vm_compute. Qed.

(** A rewrite cut short after the file was emptied leaves a text that reads
    as no requests at all: the window starts over. *)
Lemma cut_short_forgets_window :
  let full := (rate_admit "" 1 100000 Rewritten).2 in
  let cut := rate_admit full 1 100500 (CutShort 0) in
  (rate_admit full 1 100500 Rewritten).1 = Ok false /\ cut.1 = Err tt /\
  (rate_admit cut.2 1 101000 Rewritten).1 = Ok true.
Proof. by vm_compute. Qed.

(** ** The slot files: theorems *)

(** What holds of every reachable state: the locks are those of the holders,
    each below its own limit, and nobody sleeps past its deadline. *)
Definition call_ok (w : SlotWorld) (c : nat) (x : Call) : Prop :=
  match call_state x with
  | Scanning started i => started <= sw_clock w /\ (i <= call_limit x)%nat
  | Sleeping started until => started <= sw_clock w /\ until <= started + call_timeout x
  | Holding i => (i < call_limit x)%nat /\ sw_locks w !! i = Some c
  | Failed started at_ => started + call_timeout x <= at_ <= sw_clock w
  end.

Record slots_ok (w : SlotWorld) : Prop := {
  so_calls : forall c x, sw_calls w !! c = Some x -> call_ok w c x;
  so_locks : forall i c, sw_locks w !! i = Some c ->
    exists x, sw_calls w !! c = Some x /\ call_state x = Holding i
}.

Lemma slots_ok_init : slots_ok slot_init.
Proof. split; simpl; intros *; by rewrite lookup_empty. Qed.

(** A step that changes one call's state, neither of them a holder's. *)
Lemma slots_ok_set w c x y :
  slots_ok w -> sw_calls w !! c = Some x \/ sw_calls w !! c = None ->
  (forall i, sw_calls w !! c = Some x -> call_state x <> Holding i) ->
  (forall i, call_state y <> Holding i) -> call_ok w c y -> slots_ok (set_call w c y).
Proof.
  intros [Hc Hl] Hx Hn Hn' Hy. split; simpl.
  - intros c' x'. rewrite lookup_insert. case_decide as E; [by intros [= <-]; subst|apply Hc].
  - intros i c' Hi. destruct (Hl i c' Hi) as (x' & Hx' & Hs). exists x'.
    rewrite lookup_insert_ne; [done|]. intros ->. destruct Hx; [|congruence].
    simplify_eq. by eapply Hn.
Qed.

Lemma slots_ok_delete w c x :
  slots_ok w -> sw_calls w !! c = Some x -> (forall i, call_state x <> Holding i) ->
  slots_ok (mkSlotWorld (sw_clock w) (sw_locks w) (delete c (sw_calls w))).
Proof.
  intros [Hc Hl] Hx Hn. split; simpl.
  - intros c' x' [? Hx']%lookup_delete_Some. by apply Hc.
  - intros i c' Hi. destruct (Hl i c' Hi) as (x' & Hx' & Hs). exists x'.
    rewrite lookup_delete_ne; [done|]. intros ->. simplify_eq. by eapply Hn.
Qed.

Lemma slots_ok_step w w' : slot_step w w' -> slots_ok w -> slots_ok w'.
Proof.
  intros Hstep Hok. pose proof Hok as [Hc Hl].
  assert (POLL > 0) as Hpoll by done.
  destruct Hstep as [w d|w c lim timeout Hx|w c x started i Hx Hs Hi Hfree|w c x started i Hx Hs Hi Hheld
    |w c x started i Hx Hs|w c x started i Hx Hs Hi Ht|w c x started i Hx Hs Hi Ht waited
    |w c x started until Hx Hs Ht|w c x i Hx Hs|w c x Hx Hs].
  - split; simpl; [|done]. intros c x Hx. specialize (Hc c x Hx). unfold call_ok in *. simpl.
    destruct (call_state x); [lia|lia|exact Hc|lia].
  - apply (slots_ok_set w c (mkCall lim timeout (Scanning 0 0))); [done|by right|congruence|done|unfold call_ok; simpl; lia].
  - (* locked *) split; simpl.
    + intros c' x'. rewrite lookup_insert. case_decide as E.
      { intros [= <-]. subst. unfold call_ok. simpl. by rewrite lookup_insert_eq. }
      intros Hx'. specialize (Hc c' x' Hx'). unfold call_ok in *. simpl in *.
      destruct (call_state x') as [| |j|]; try lia.
      destruct Hc. split; [done|]. rewrite lookup_insert_ne; [done|congruence].
    + intros j c'. rewrite lookup_insert. case_decide as E.
      { intros [= <-]. subst. eexists. rewrite lookup_insert_eq. by split. }
      intros Hj. destruct (Hl j c' Hj) as (x' & Hx' & Hs'). exists x'.
      rewrite lookup_insert_ne; [done|]. intros ->. congruence.
  - apply (slots_ok_set w c x); [done|by left|congruence|done|]. specialize (Hc c x Hx).
    unfold call_ok in *. rewrite Hs in Hc. simpl. lia.
  - apply (slots_ok_delete w c x); [done..|congruence].
  - apply (slots_ok_set w c x); [done|by left|congruence|done|]. specialize (Hc c x Hx).
    unfold call_ok in *. rewrite Hs in Hc. simpl. lia.
  - apply (slots_ok_set w c x); [done|by left|congruence|done|]. specialize (Hc c x Hx).
    unfold call_ok in *. rewrite Hs in Hc. simpl. subst waited. unfold_ints. lia.
  - apply (slots_ok_set w c x); [done|by left|congruence|done|]. specialize (Hc c x Hx).
    unfold call_ok in *. rewrite Hs in Hc. simpl. lia.
  - (* release *)
    assert (sw_locks w !! i = Some c) as Hic.
    { specialize (Hc c x Hx). unfold call_ok in Hc. rewrite Hs in Hc. by destruct Hc. }
    split; simpl.
    + intros c' x' [? Hx']%lookup_delete_Some. specialize (Hc c' x' Hx'). unfold call_ok in *. simpl.
      destruct (call_state x') as [| |j|]; try done. destruct Hc as [? Hj]. split; [done|].
      rewrite lookup_delete_ne; [done|]. congruence.
    + intros j c' [? Hj]%lookup_delete_Some. destruct (Hl j c' Hj) as (x' & Hx' & Hs'). exists x'.
      rewrite lookup_delete_ne; [done|]. intros ->. congruence.
  - by apply (slots_ok_delete w c x).
Qed.

Lemma slots_ok_reachable w : rtc slot_step slot_init w -> slots_ok w.
Proof.
  assert (forall a b, rtc slot_step a b -> slots_ok a -> slots_ok b) as H.
  { induction 1; eauto using slots_ok_step. }
  intros Hr. by eapply H, slots_ok_init.
Qed.

(** Distinct elements below a bound are at most as many. *)
Lemma NoDup_below (l : list nat) (n : nat) : NoDup l -> (forall x, x ∈ l -> (x < n)%nat) -> (length l <= n)%nat.
Proof.
  intros Hn Hb. transitivity (length (seq 0 n)); [|by rewrite length_seq].
  apply NoDup_incl_length; [by apply NoDup_ListNoDup|].
  intros x Hx. apply in_seq. apply list_elem_of_In in Hx. specialize (Hb x Hx). lia.
Qed.

(** The slot a call holds. *)
Definition slot_of (w : SlotWorld) (c : nat) : nat :=
  match call_state <$> sw_calls w !! c with Some (Holding i) => i | _ => 0%nat end.

Lemma elem_of_holders w c :
  c ∈ holders w <-> exists x i, sw_calls w !! c = Some x /\ call_state x = Holding i.
Proof.
  unfold holders. rewrite list_elem_of_omap. split.
  - intros ([c' x] & Hx%elem_of_map_to_list & H). destruct (call_state x) as [| |i|] eqn:E; try done.
    simplify_eq. by exists x, i.
  - intros (x & i & Hx & E). exists (c, x). rewrite elem_of_map_to_list, E. by split.
Qed.

Lemma NoDup_holders w : NoDup (holders w).
Proof.
  unfold holders. pose proof (NoDup_fst_map_to_list (sw_calls w)) as Hn.
  induction (map_to_list (sw_calls w)) as [|[c x] l IH]; simpl in *; [constructor|].
  apply NoDup_cons in Hn as [Hc Hn]. destruct (call_state x); auto. constructor; [|by apply IH].
  rewrite list_elem_of_omap. intros ([c' x'] & Hin & Hm).
  assert (c' = c) as -> by (by destruct (call_state x'); simplify_eq).
  apply Hc. apply list_elem_of_fmap. by exists (c, x').
Qed.

(** C21: the concurrency cap.  In every state the calls of a host can reach,
    however their steps, their timeouts, their errors and the ends of their
    processes interleave, no slot file is held by two calls, and when the
    calls that hold one were given limits of at most [n], at most [n] calls
    hold one. *)
Theorem slot_cap (w : SlotWorld) (n : nat) :
  rtc slot_step slot_init w ->
  (forall c x i, sw_calls w !! c = Some x -> call_state x = Holding i -> (call_limit x <= n)%nat) ->
  (length (holders w) <= n)%nat /\
  (forall c d x y i, sw_calls w !! c = Some x -> sw_calls w !! d = Some y ->
     call_state x = Holding i -> call_state y = Holding i -> c = d).
Proof.
  intros Hr Hn. apply slots_ok_reachable in Hr as [Hc _].
  assert (forall c x i, sw_calls w !! c = Some x -> call_state x = Holding i ->
    (i < call_limit x)%nat /\ sw_locks w !! i = Some c) as Hh.
  { intros c x i Hx Hs. specialize (Hc c x Hx). unfold call_ok in Hc. by rewrite Hs in Hc. }
  assert (forall c d x y i, sw_calls w !! c = Some x -> sw_calls w !! d = Some y ->
     call_state x = Holding i -> call_state y = Holding i -> c = d) as Hinj.
  { intros c d x y i Hx Hy H1 H2. destruct (Hh c x i Hx H1), (Hh d y i Hy H2). congruence. }
  split; [|done]. rewrite <- (length_fmap (slot_of w)). apply NoDup_below.
  - apply NoDup_fmap_2_strong, NoDup_holders.
    intros c d (x & i & Hx & E1)%elem_of_holders (y & j & Hy & E2)%elem_of_holders.
    unfold slot_of. rewrite Hx, Hy. simpl. rewrite E1, E2. intros ->. by eapply Hinj.
  - intros i (c & -> & (x & j & Hx & E)%elem_of_holders)%list_elem_of_fmap.
    unfold slot_of. rewrite Hx. simpl. rewrite E.
    destruct (Hh c x j Hx E). specialize (Hn c x j Hx E). lia.
Qed.

(** Three calls on two slots: two hold, the third waits for its turn. *)
Definition busy_world : SlotWorld :=
  mkSlotWorld 5 {[0%nat := 7%nat; 1%nat := 8%nat]}
    {[7%nat := mkCall 2 1000 (Holding 0); 8%nat := mkCall 2 1000 (Holding 1);
      9%nat := mkCall 2 1000 (Sleeping 5 1005)]}.

Lemma busy_world_reachable : rtc slot_step slot_init busy_world.
Proof.
  unfold slot_init.
  eapply rtc_l; [apply (step_tick _ 5); lia|]. cbn.
  eapply rtc_l; [by apply (step_begin _ 7 2 1000); [|lia|lia]|].
  eapply rtc_l; [eapply (step_locked _ 7 _ 5 0); [done|done|simpl; lia|done]|].
  eapply rtc_l; [by apply (step_begin _ 8 2 1000); [|lia|lia]|].
  eapply rtc_l; [by eapply (step_would_block _ 8 _ 5 0); [done|done|simpl; lia|]|].
  eapply rtc_l; [by eapply (step_locked _ 8 _ 5 1); [done|done|simpl; lia|]|].
  eapply rtc_l; [by apply (step_begin _ 9 2 1000); [|lia|lia]|].
  eapply rtc_l; [by eapply (step_would_block _ 9 _ 5 0); [done|done|simpl; lia|]|].
  eapply rtc_l; [by eapply (step_would_block _ 9 _ 5 1); [done|done|simpl; lia|]|].
  eapply rtc_l; [by eapply (step_sleep _ 9 _ 5 2); [done|done|simpl; lia|simpl; lia]|].
  match goal with |- rtc _ ?a ?b => replace a with b by (by vm_compute) end.
  apply rtc_refl.
Qed.

Lemma slot_cap_witness :
  length (holders busy_world) = 2%nat /\ (length (holders busy_world) <= 2)%nat.
Proof.
  split; [by vm_compute|]. apply (slot_cap busy_world 2); [apply busy_world_reachable|].
  intros c x i Hx Hs. unfold busy_world in Hx. simpl in Hx.
  repeat (apply lookup_insert_Some in Hx as [[<- <-]|[_ Hx]]; [done|]).
  apply lookup_singleton_Some in Hx as [<- <-]. done.
Defined.

(** A scan that nobody interrupts is [try_take] on the locks it finds: it
    reaches the first free file and holds it, or ends with the whole range
    held. *)
Definition lock_try_of (w : SlotWorld) (i : nat) : LockTry :=
  match sw_locks w !! i with Some _ => WouldBlock | None => Locked end.

Lemma scan_is_try_take w c x started i n :
  sw_calls w !! c = Some x -> call_state x = Scanning started i -> call_limit x = (i + n)%nat ->
  match try_take_from (lock_try_of w) i n with
  | Ok (Some j) =>
      rtc slot_step w (mkSlotWorld (sw_clock w) (<[j := c]> (sw_locks w))
                         (<[c := set_state x (Holding j)]> (sw_calls w)))
  | Ok None => rtc slot_step w (set_call w c (set_state x (Scanning started (call_limit x))))
  | Err _ => False
  end.
Proof.
  revert w x i. induction n as [|n IH]; intros w x i Hx Hs Hl; simpl.
  { replace (set_call w c _) with w; [apply rtc_refl|]. destruct w as [cl lo ca], x as [li ti st].
    unfold set_call, set_state. simpl in *. subst. f_equal. symmetry. apply insert_id.
    by rewrite Hx, Nat.add_0_r. }
  unfold lock_try_of at 1. destruct (sw_locks w !! i) as [h|] eqn:Eh.
  - assert (slot_step w (set_call w c (set_state x (Scanning started (S i))))) as Hstep.
    { eapply step_would_block; [done..|lia|by rewrite Eh]. }
    set (w' := set_call w c _) in *.
    specialize (IH w' (set_state x (Scanning started (S i))) (S i)).
    assert (lock_try_of w' = lock_try_of w) as E by done. rewrite E in IH.
    specialize (IH (lookup_insert_eq _ _ _) eq_refl ltac:(simpl; lia)).
    unfold w', set_call in IH. simpl in IH. unfold set_state in *. simpl in IH.
    destruct (try_take_from (lock_try_of w) (S i) n) as [[j|]|]; [..|done].
    all: rewrite insert_insert_eq in IH; eapply rtc_l; [exact Hstep|exact IH].
  - eapply rtc_once, step_locked; [done..|lia|done].
Qed.
