(* ===== verification/ProcFs.v ===== *)
(** The process table as the program reads it (the [/proc] section of
    reaper.rs, [owner_still_alive] of engine_rpc_impl.rs): the stat line and its
    parser, identities, liveness, the protected ancestors. *)
From S2P Require Import Prelude Numbers Text.
Local Open Scope Z_scope.

(** ** The stat line *)

Record ProcStat := mkProcStat { state : string; comm : string; ppid : Z; start_ticks : Z }.

Definition TASK_COMM_LEN : nat := 16.

(** [STATES.contains(state)] *)
Definition is_state_char (c : ascii) : bool :=
  bool_decide (c ∈ ["R"; "S"; "D"; "Z"; "T"; "t"; "W"; "X"; "x"; "K"; "P"; "I"]%char).

Definition valid_stat_tail (tail : string) : bool :=
  let tail := trim_start tail in
  match tail with
  | EmptyString => false
  | String state rest =>
      is_state_char state &&
      match rest with String c _ => Ascii.eqb c " " | EmptyString => false end &&
      (20 <=? length (split_whitespace tail))%nat
  end.

(** The part after the first opening parenthesis. *)
Fixpoint after_open (s : string) : option string :=
  match s with
  | EmptyString => None
  | String c r => if Ascii.eqb c "(" then Some r else after_open r
  end.

(** The text before and after the last closing parenthesis that starts a
    plausible tail. *)
Fixpoint split_close (s : string) : option (string * string) :=
  match s with
  | EmptyString => None
  | String c r =>
      match split_close r with
      | Some (a, b) => Some (String c a, b)
      | None => if Ascii.eqb c ")" && valid_stat_tail r then Some (""%string, r) else None
      end
  end.

Definition parse_stat (raw : string) : option ProcStat :=
  rest ← after_open raw;
  '(comm, rest) ← split_close rest;
  if (TASK_COMM_LEN - 1 <? String.length comm)%nat then None
  else
    let fields := split_whitespace rest in
    state ← head fields;
    f ← fields !! 1%nat; ppid ← parse_u32_std f;
    f ← fields !! 19%nat; start ← parse_u64_std f;
    Some (mkProcStat state comm ppid start).

(** ** The table

    What the files of one process read as.  [None] is a file that cannot be
    read, or is not valid text.  [birth] is not read by anything: it tells one
    process from the next that is given its number. *)
Record Process := mkProcess {
  stat_text : option string;
  real_uid : option Z;          (* the Uid line of the status file *)
  cwd_link : option string;
  exe_link : option string;
  birth : nat
}.
Abbreviation Table := (gmap Z Process).

Definition read_stat (t : Table) (pid : Z) : option ProcStat :=
  p ← t !! pid; raw ← stat_text p; parse_stat raw.
Definition proc_uid (t : Table) (pid : Z) : option Z := p ← t !! pid; real_uid p.

(** A zombie or a dead task runs nothing. *)
Definition is_dead_state (s : string) : bool := bool_decide (s = "Z"%string) || bool_decide (s = "X"%string).

Definition alive (t : Table) (pid : Z) : bool :=
  match read_stat t pid with
  | Some stat => negb (is_dead_state (state stat))
  | None => false
  end.

Definition live_start_ticks (t : Table) (pid : Z) : option Z :=
  stat ← read_stat t pid;
  if is_dead_state (state stat) then None else Some (start_ticks stat).

Definition live_identity (t : Table) (pid : Z) : option (Z * Z) :=
  start ← live_start_ticks t pid; Some (pid, start).

(** [live_pids]: every entry above init whose stat line reads. *)
Definition live_pids (t : Table) : gmap Z Z :=
  map_imap (fun pid (_ : Process) =>
    if pid <=? 1 then None else start_ticks <$> read_stat t pid) t.

(** The walk over the parents, with the set collected so far. *)
Fixpoint protected_from (fuel : nat) (t : Table) (cursor : Z) (acc : gset Z) : option (gset Z) :=
  match fuel with
  | O => None
  | S fuel =>
      if (cursor <=? 1) || bool_decide (cursor ∈ acc) then Some acc
      else
        let acc := {[cursor]} ∪ acc in
        match read_stat t cursor with
        | None => Some acc
        | Some stat => if ppid stat =? cursor then Some acc
                       else protected_from fuel t (ppid stat) acc
        end
  end.
Definition protected_pids (t : Table) (self : Z) : option (gset Z) :=
  protected_from (S (S (size t))) t self ∅.

(** [signal_if_same_process]: [Some pid] when the signal goes out. *)
Definition signal_if_same_process (t : Table) (pid : Z) (expected : option Z) : bool :=
  match expected with
  | None => false
  | Some e => bool_decide (live_start_ticks t pid = Some e)
  end.

(** [DaemonLease::owner_still_alive]: its own reading of the stat line, from
    the last closing parenthesis. *)
Fixpoint after_last_paren (s : string) : option string :=
  match s with
  | EmptyString => None
  | String c r => match after_last_paren r with
                  | Some t => Some t
                  | None => if Ascii.eqb c ")" then Some r else None
                  end
  end.

Definition owner_still_alive (t : Table) (pid : Z) : bool :=
  if pid =? 0 then false
  else match (p ← t !! pid; stat_text p) with
       | None => false
       | Some stat =>
           match after_last_paren stat with
           | None => true
           | Some after_comm =>
               let state := default ""%string (head (split_whitespace after_comm)) in
               negb (is_dead_state state) && negb (str_is_empty state)
           end
       end.

(** A path of [/proc], absolute, as its components. *)
Definition components (p : string) : list string :=
  filterb (fun c => negb (str_is_empty c) && negb (bool_decide (c = "."%string))) (split_on "/" p).
(** [Path::starts_with] *)
Definition path_starts_with (p root : list string) : bool :=
  bool_decide (take (length root) p = root).

Definition strip_deleted_suffix (path : string) : string :=
  default path (strip_suffix " (deleted)" path).

Definition process_executable (t : Table) (pid : Z) : option string :=
  p ← t !! pid; exe ← exe_link p; Some (strip_deleted_suffix exe).

(** ** Theorems *)

Lemma after_open_skip (s r : string) :
  str_all (fun c => negb (Ascii.eqb c "(")) s = true -> after_open (s +:+ "(" +:+ r) = Some r.
Proof.
  induction s as [|c s IH]; [done|]. rewrite str_app_cons. simpl.
  intros [Hc Hs]%andb_true_iff. apply negb_true_iff in Hc. rewrite Hc. by apply IH.
Qed.

Lemma split_close_none s :
  str_all (fun c => negb (Ascii.eqb c ")")) s = true -> split_close s = None.
Proof.
  induction s as [|c s IH]; simpl; [done|]. intros [Hc Hs]%andb_true_iff.
  rewrite IH by done. apply negb_true_iff in Hc. by rewrite Hc.
Qed.

Lemma split_close_last comm tail :
  str_all (fun c => negb (Ascii.eqb c ")")) tail = true -> valid_stat_tail tail = true ->
  split_close (comm +:+ ")" +:+ tail) = Some (comm, tail).
Proof.
  intros Ht Hv. induction comm as [|c comm IH].
  - rewrite str_nil_app. change (")" +:+ tail) with (String ")" tail). simpl.
    by rewrite split_close_none, Hv.
  - rewrite str_app_cons. simpl. by rewrite IH.
Qed.

(** The line the kernel writes: the fields after the name have no white space
    and no parenthesis, and start with the state. *)
Definition stat_line (pid : Z) (comm : string) (fields : list string) : string :=
  show_u pid +:+ " (" +:+ comm +:+ ") " +:+ join " " fields +:+ String (Ascii.ascii_of_nat 10) "".

Definition field_ok (f : string) : bool := is_word f && str_all (fun c => negb (Ascii.eqb c ")")) f.

Lemma join_no_paren fields :
  forallb field_ok fields = true ->
  str_all (fun c => negb (Ascii.eqb c ")")) (join " " fields) = true.
Proof.
  induction fields as [|f fields IH]; [done|]. simpl forallb. intros [[_ Hf]%andb_true_iff Hs]%andb_true_iff.
  destruct fields as [|g fields]; [done|].
  change (join " " (f :: g :: fields)) with (f +:+ " " +:+ join " " (g :: fields)).
  by rewrite !str_all_app, Hf, IH.
Qed.

Lemma fields_words fields : forallb field_ok fields = true -> forallb is_word fields = true.
Proof.
  induction fields as [|f fields IH]; simpl; [done|].
  intros [[Hf _]%andb_true_iff Hs]%andb_true_iff. by rewrite Hf, IH.
Qed.

Definition is_digit_char (c : ascii) : bool := bool_decide (is_Some (digit_value c)).
Lemma digit_no_open c : is_digit_char c = true -> negb (Ascii.eqb c "(") = true.
Proof. destruct c as [[] [] [] [] [] [] [] []]; vm_compute; congruence. Qed.

Lemma state_not_ws c : is_state_char c = true -> is_ws c = false.
Proof.
  destruct c as [[] [] [] [] [] [] [] []]; vm_compute; congruence.
Qed.

(** The stat line survives its worst command names.  Whatever characters
    the name holds, parentheses and blanks included, the parser gives back the
    name, the state, the parent and the start time the kernel wrote, provided
    the name fits the kernel's limit. *)
Theorem parse_stat_roundtrip (pid : Z) (comm : string) (c : ascii) (fields : list string) (pp st : Z) :
  (String.length comm <= 15)%nat -> is_state_char c = true ->
  forallb field_ok fields = true -> (19 <= length fields)%nat ->
  fields !! 0%nat = Some (show_u pp) -> fields !! 18%nat = Some (show_u st) ->
  0 <= pp <= U32_MAX -> 0 <= st <= U64_MAX ->
  parse_stat (stat_line pid comm (String c "" :: fields)) = Some (mkProcStat (String c "") comm pp st).
Proof.
  intros Hlen Hc Hf Hn Hp Hs Hpp Hst.
  set (body := join " " (String c "" :: fields) +:+ String (Ascii.ascii_of_nat 10) "").
  assert (field_ok (String c "") = true) as Hcf.
  { revert Hc. clear. destruct c as [[] [] [] [] [] [] [] []]; vm_compute; congruence. }
  assert (forallb field_ok (String c "" :: fields) = true) as Hall by (simpl forallb; by rewrite Hcf, Hf).
  assert (split_whitespace body = String c "" :: fields) as Hw.
  { apply split_join; [by apply fields_words|done]. }
  assert (exists r, body = String c (String " " r)) as [r Hr].
  { destruct fields as [|g fields]; [done|]. eexists. unfold body.
    change (join " " (String c "" :: g :: fields)) with (String c "" +:+ " " +:+ join " " (g :: fields)).
    rewrite !str_app_assoc, str_app_cons, str_nil_app, str_app_cons. done. }
  unfold parse_stat, stat_line. fold body.
  change (" (" +:+ ?x) with (String " " (String "(" x)).
  replace (show_u pid +:+ String " " (String "(" (comm +:+ ") " +:+ body)))
    with ((show_u pid +:+ " ") +:+ "(" +:+ (comm +:+ ")" +:+ String " " body))
    by (by rewrite str_app_assoc).
  rewrite after_open_skip.
  2: { rewrite str_all_app, andb_true_r. eapply str_all_impl; [apply digit_no_open|apply show_u_all_digits]. }
  simpl. rewrite split_close_last; simpl.
  - rewrite (proj2 (Nat.ltb_ge _ _)) by (simpl; lia). rewrite split_leading_blank, Hw by done. simpl.
    rewrite Hp. simpl. rewrite parse_u32_show by done. simpl. rewrite Hs. simpl.
    by rewrite parse_u64_show.
  - unfold body. rewrite str_all_app, join_no_paren by done. done.
  - unfold valid_stat_tail. cbv zeta.
    replace (trim_start (String " " body)) with body by (rewrite Hr; simpl; by rewrite (state_not_ws c Hc)).
    rewrite Hw, Hr, Hc. cbn [andb]. change (Ascii.eqb " " " ") with true. cbn [andb].
    apply Nat.leb_le. simpl. lia.
Qed.

Definition sample_fields : list string :=
  ["7"; "1"; "1"; "0"; "-1"; "4194304"; "100"; "0"; "0"; "0"; "0"; "0"; "0"; "0"; "20"; "0"; "1"; "0";
   "81234"; "0"; "0"]%string.
Lemma parse_stat_roundtrip_witness :
  parse_stat (stat_line 42 "worker) R) S 7" ("S"%string :: sample_fields))
    = Some (mkProcStat "S" "worker) R) S 7" 7 81234).
Proof.
  apply (parse_stat_roundtrip 42 "worker) R) S 7" "S" sample_fields 7 81234);
    first [done|vm_compute; reflexivity|vm_compute; lia|split; vm_compute; congruence].
Defined.

(** ** The protected ancestors *)

(** What the walk must cover from [p]: its parent, when it is a process above
    init and another one. *)
Definition parent_in (t : Table) (s : gset Z) (p : Z) : Prop :=
  forall stat, read_stat t p = Some stat -> 1 < ppid stat -> ppid stat ∈ s.

Lemma read_stat_dom t p stat : read_stat t p = Some stat -> p ∈ dom t.
Proof. unfold read_stat. destruct (t !! p) eqn:E; [|done]. intros _. by apply elem_of_dom_2 in E. Qed.

Lemma protected_from_total t fuel cursor acc :
  (size (dom t ∖ acc) + 2 <= fuel)%nat ->
  exists s, protected_from fuel t cursor acc = Some s /\ acc ⊆ s /\ (1 < cursor -> cursor ∈ s) /\
    forall p, p ∈ s -> p ∉ acc -> 1 < p /\ parent_in t s p.
Proof.
  revert cursor acc. induction fuel as [|fuel IH]; intros cursor acc Hf; [lia|]. simpl.
  destruct (cursor <=? 1) eqn:Ec; simpl; [exists acc; split_and!; [done|done|lia|done]|].
  case_bool_decide as Hin; [by exists acc; split_and!|].
  assert (forall p : Z, p ∈ {[cursor]} ∪ acc -> p ∉ acc -> p = cursor) as Hnew by set_solver.
  destruct (read_stat t cursor) as [stat|] eqn:Es.
  - case_match eqn:Ep.
    { apply Z.eqb_eq in Ep. exists ({[cursor]} ∪ acc). split_and!; [done|set_solver|set_solver|].
      intros p Hp Hpa. rewrite (Hnew p Hp Hpa). split; [lia|]. intros st Hst _. simplify_eq. set_solver. }
    destruct (IH (ppid stat) ({[cursor]} ∪ acc)) as (s & Hs & Hsub & Hc & Hcl).
    { assert (size (dom t ∖ ({[cursor]} ∪ acc)) < size (dom t ∖ acc))%nat; [|lia].
      apply subset_size. apply read_stat_dom in Es. set_solver. }
    exists s. split_and!; [done|set_solver|set_solver|].
    intros p Hp Hpa. destruct (decide (p = cursor)) as [->|Hne]; [|apply Hcl; set_solver].
    split; [lia|]. intros st Hst. simplify_eq. done.
  - exists ({[cursor]} ∪ acc). split_and!; [done|set_solver|set_solver|].
    intros p Hp Hpa. rewrite (Hnew p Hp Hpa). split; [lia|]. intros st Hst. congruence.
Qed.

(** The walk to init ends, whatever the table says, a cycle of parents
    included, within one step more than there are processes; what it returns
    holds the process itself and, with each process, its parent, so every
    ancestor above init. *)
Theorem protected_pids_total (t : Table) (self : Z) :
  exists s, protected_pids t self = Some s /\ (1 < self -> self ∈ s) /\
    (forall p, p ∈ s -> 1 < p) /\ forall p, p ∈ s -> parent_in t s p.
Proof.
  destruct (protected_from_total t (S (S (size t))) self ∅) as (s & Hs & _ & Hself & Hcl).
  { rewrite difference_empty_L, size_dom. lia. }
  exists s. split_and!; [done|done| |]; intros p Hp; by apply Hcl.
Qed.

(** ** Liveness *)

(** The two liveness checks disagree on what cannot be read: the reaper's
    reads a missing or unreadable entry as dead, and so does the lease's,
    although its documentation says that such a client counts as alive. *)
Lemma unreadable_client_is_dead t pid : (p ← t !! pid; stat_text p) = None -> owner_still_alive t pid = false.
Proof. intros H. unfold owner_still_alive. rewrite H. by destruct (pid =? 0). Qed.

(** A directory whose name ends in the kernel's mark is taken for the
    directory without it. *)
Lemma deleted_suffix_ambiguous :
  path_starts_with (components (strip_deleted_suffix "/home/u/ws (deleted)")) (components "/home/u/ws") = true.
Proof. by vm_compute. Qed.
