(* ===== verification/Daemon.v ===== *)
(** Who may stop the shared engine daemon: the leases of its clients and the
    stop decision (engine_rpc_impl.rs), the record of the daemon and of its
    owner (main.rs, reaper.rs), the removal of a stale socket
    (daemon_socket.rs), and the steps of clients and stopping processes around
    the daemon lock ([daemon_step]): SIGTERM under the lock, SIGKILL after its
    release, and the kill of a daemon that failed to start, which asks nobody.

    The lease directory is a map from file names to their text, [None] for a
    file that cannot be read; [read_dir] lists it in the order of
    [map_to_list], and no result depends on that order. *)
From S2P Require Import Prelude Numbers Text ProcFs.
Local Open Scope Z_scope.

(** ** Leases *)

Record DaemonLease := mkLease {
  client_pid : Z; daemon_pid : Z; acquired_at_ns : Z; refreshed_at_ns : Z
}.

Abbreviation LeaseDir := (gmap string (option string)).

(** The body [write_lease_file] writes. *)
Definition lease_body (l : DaemonLease) : string :=
  join " " [show_u (client_pid l); show_u (daemon_pid l); show_u (acquired_at_ns l);
            show_u (refreshed_at_ns l)] +:+ String (Ascii.ascii_of_nat 10) "".

Definition parse_lease_file (content : string) (expected_client : Z) : option DaemonLease :=
  let fields := split_whitespace content in
  f ← fields !! 0%nat; client ← parse_u32_std f;
  if negb (client =? expected_client) then None
  else
    f ← fields !! 1%nat; daemon ← parse_u32_std f;
    f ← fields !! 2%nat; acquired ← parse_u128_std f;
    f ← fields !! 3%nat; refreshed ← parse_u128_std f;
    Some (mkLease client daemon acquired refreshed).

(** [acquire_daemon_lease] at the time [now]: the time of the first
    acquisition is kept, and the file is replaced. *)
Definition acquire_daemon_lease (dir : LeaseDir) (client daemon now : Z) : DaemonLease * LeaseDir :=
  let acquired :=
    match dir !! show_u client with
    | Some (Some content) => default now (f ← split_whitespace content !! 2%nat; parse_u128_std f)
    | _ => now
    end in
  let l := mkLease client daemon acquired now in
  (l, <[show_u client := Some (lease_body l)]> dir).

Definition remove_daemon_lease (dir : LeaseDir) (client : Z) : LeaseDir := delete (show_u client) dir.

(** What one entry of the directory is to the reader. *)
Inductive LeaseEntry := NotALease | LiveLease (l : DaemonLease) | DeadLease.

Definition read_entry (t : Table) (name : string) (content : option string) : LeaseEntry :=
  match opt_filter (fun p => 1 <? p) (parse_u32_std name) with
  | None => NotALease
  | Some client =>
      match c ← content; parse_lease_file c client with
      | None => NotALease
      | Some l => if owner_still_alive t client then LiveLease l else DeadLease
      end
  end.

Definition is_dead_entry (e : LeaseEntry) : bool := match e with DeadLease => true | _ => false end.

(** [read_daemon_leases]: the live leases, oldest first, and the directory
    without the files of the dead. *)
Definition read_daemon_leases (t : Table) (dir : LeaseDir) : list DaemonLease * LeaseDir :=
  let live := omap (fun '(name, content) =>
                match read_entry t name content with LiveLease l => Some l | _ => None end)
                (map_to_list dir) in
  (sort_by (fun a b => acquired_at_ns a ?= acquired_at_ns b) live,
   filter (fun nc => is_dead_entry (read_entry t nc.1 nc.2) = false) dir).

Definition DAEMON_LEASE_TTL : Z := 60 * 1000000000.

Definition is_fresh (t : Table) (now ttl : Z) (l : DaemonLease) : bool :=
  owner_still_alive t (client_pid l) && (Z.max 0 (now - refreshed_at_ns l) <=? ttl).

(** ** The stop decision *)

Record DaemonOwner := mkOwner { owner_pid : Z; owner_ticks : Z }.

Inductive DaemonStopAuthority := Owner | LastConsumer | NotAuthorized.

Definition daemon_stop_authority (t : Table) (now : Z) (leases : list DaemonLease) (client : Z)
    (owner : option DaemonOwner) (owner_is_alive : bool) (ttl : Z) : DaemonStopAuthority :=
  let live := filterb (fun l => owner_still_alive t (client_pid l)) leases in
  match find_first (fun l => client_pid l =? client) live with
  | None => NotAuthorized
  | Some ours =>
      if existsb (fun l => negb (client_pid l =? client)) live then NotAuthorized
      else
        let last := if is_fresh t now ttl ours then LastConsumer else NotAuthorized in
        match owner with
        | Some o => if owner_is_alive
                    then if owner_pid o =? client then Owner else NotAuthorized
                    else last
        | None => last
        end
  end.

Definition client_may_stop_daemon (t : Table) (now : Z) (dir : LeaseDir) (client ttl : Z) : bool :=
  match daemon_stop_authority t now (read_daemon_leases t dir).1 client None false ttl with
  | Owner | LastConsumer => true
  | NotAuthorized => false
  end.

Definition any_daemon_lease (t : Table) (dir : LeaseDir) : bool :=
  negb (bool_decide ((read_daemon_leases t dir).1 = [])).

(** ** The record of the daemon *)

(** The body [write_daemon_record] writes. *)
Definition record_body (identity : Z * Z) (owner : option DaemonOwner) : string :=
  join " " ([show_u identity.1; show_u identity.2] ++
            match owner with
            | Some o => [show_u (owner_pid o); show_u (owner_ticks o)]
            | None => []
            end) +:+ String (Ascii.ascii_of_nat 10) "".

Definition read_daemon_record (raw : string) : option (Z * Z) :=
  match split_whitespace raw with
  | f :: g :: rest =>
      pid ← parse_u32_std f;
      if pid <=? 1 then None
      else
        start ← parse_u64_std g;
        match rest with
        | [] => Some (pid, start)
        | o :: ticks :: rest =>
            owner ← parse_u32_std o;
            if owner <=? 1 then None
            else
              _ ← parse_u64_std ticks;
              match rest with [] => Some (pid, start) | _ => None end
        | _ => None
        end
  | _ => None
  end.

Definition read_daemon_owner (raw : string) : option DaemonOwner :=
  let fields := split_whitespace raw in
  f ← fields !! 2%nat; owner ← parse_u32_std f;
  if owner <=? 1 then None
  else f ← fields !! 3%nat; ticks ← parse_u64_std f; Some (mkOwner owner ticks).

Inductive DaemonRecordState := Live (pid : Z) | RecycledPid (pid : Z) | Missing.

Definition record_pid (r : DaemonRecordState) : option Z :=
  match r with Live pid => Some pid | _ => None end.

(** [daemon_record_state], on the text of the record. *)
Definition daemon_record_state (t : Table) (raw : option string) : DaemonRecordState :=
  match raw ≫= read_daemon_record with
  | None => Missing
  | Some (pid, start) =>
      if bool_decide (live_start_ticks t pid = Some start) then Live pid else RecycledPid pid
  end.

(** The daemons this process spawned: [note_daemon_identity] and its
    counterpart. *)
Definition note_daemon_identity (daemons : gmap Z Z) (identity : Z * Z) : gmap Z Z :=
  if 1 <? identity.1 then <[identity.1 := identity.2]> daemons else daemons.
Definition forget_daemon_identity (daemons : gmap Z Z) (identity : Z * Z) : gmap Z Z :=
  if bool_decide (daemons !! identity.1 = Some identity.2) then delete identity.1 daemons else daemons.
Definition spawned_daemon_still_matches (t : Table) (daemons : gmap Z Z) (pid : Z) : bool :=
  match daemons !! pid with
  | Some start => bool_decide (live_start_ticks t pid = Some start)
  | None => false
  end.

(** [remove_stale_socket]: the entry is unlinked only under the lock and while
    it is the one the probe saw.  An entry is its device and inode. *)
Definition remove_stale_socket (lock_taken : bool) (at_path expected : option (Z * Z)) (unlink_ok : bool) :
    bool * option (Z * Z) :=
  if negb lock_taken then (false, at_path)
  else if negb (bool_decide (at_path = expected)) then (false, at_path)
  else match at_path with
       | Some _ => if unlink_ok then (true, None) else (false, at_path)
       | None => (false, None)
       end.

(** *** The decision as it is taken *)

(** What a stopping process reads under the lock: as much of the lease
    directory as can be read, the process table while it is read, the record's
    text, and the tables and the clock of the decision. *)
Record Census := mkCensus {
  cs_dir : LeaseDir;
  at_leases : Table;
  cs_record : option string;
  at_owner : Table;
  at_decision : Table;
  cs_now : Z
}.
Definition census_leases (s : Census) : list DaemonLease := (read_daemon_leases (at_leases s) (cs_dir s)).1.
Definition census_owner (s : Census) : option DaemonOwner := cs_record s ≫= read_daemon_owner.
Definition owner_is_alive (s : Census) : bool :=
  match census_owner s with
  | Some o => bool_decide (live_start_ticks (at_owner s) (owner_pid o) = Some (owner_ticks o))
  | None => false
  end.
Definition census_authority (s : Census) (client : Z) : DaemonStopAuthority :=
  daemon_stop_authority (at_decision s) (cs_now s) (census_leases s) client (census_owner s) (owner_is_alive s) DAEMON_LEASE_TTL.

Inductive Signal := SigTerm | SigKill.

(** ** The daemon lock, interleaved

    One daemon, its clients and those who stop it.  Clients register under the
    shared lock before they connect, and refresh their lease whenever they
    connect again; a client whose lease cannot be written connects all the
    same.  A process that stops the daemon takes the census and sends SIGTERM
    under the exclusive lock, releases it, and may send SIGKILL after a wait.
    The process that spawned the daemon kills it without lock or census when
    it does not get ready. *)
Inductive ClientPhase := Unregistered | Registering | Written | Ready | Connected.
Inductive StopPhase := StopLocked | StopDecided (s : Census) | StopTermed | StopWaiting.
Inductive DaemonStage := NotSpawned | Starting (spawner : Z) | Running.

Record DaemonWorld := mkDaemonWorld {
  clients : gmap Z ClientPhase;          (* the live clients *)
  lease_dir : LeaseDir;                  (* lease files, of the dead as well *)
  unlisted : gset Z;                     (* live clients whose lease was not written, or was deleted *)
  stoppers : gmap Z StopPhase;
  stage : DaemonStage;
  signals : list (Z * Signal)            (* sent to the daemon, with their senders *)
}.

Definition shared_held (w : DaemonWorld) : Prop :=
  exists c ph, clients w !! c = Some ph /\ (ph = Registering \/ ph = Written).
Definition holds_exclusive (ph : StopPhase) : Prop := match ph with StopWaiting => False | _ => True end.
Definition exclusive_held (w : DaemonWorld) : Prop :=
  exists p ph, stoppers w !! p = Some ph /\ holds_exclusive ph.

(** A reader sees the entries as they are, unreadable, or not at all. *)
Definition lease_view (view dir : LeaseDir) : Prop :=
  forall name, view !! name = dir !! name \/ view !! name = None \/ view !! name = Some None.
(** What a reader leaves of the directory: it deletes the files of those it
    takes for dead, as far as it can. *)
Definition swept_to (t : Table) (view dir dir' : LeaseDir) : Prop :=
  forall name, dir' !! name = dir !! name \/
    dir' !! name = None /\ exists content, view !! name = Some content /\ is_dead_entry (read_entry t name content) = true.
(** The live clients whose file was deleted. *)
Definition lost (cls : gmap Z ClientPhase) (dir dir' : LeaseDir) : gset Z :=
  filter (fun c => is_Some (dir !! show_u c) /\ dir' !! show_u c = None) (dom cls).

Definition set_client (w : DaemonWorld) c ph : DaemonWorld :=
  mkDaemonWorld (<[c := ph]> (clients w)) (lease_dir w) (unlisted w) (stoppers w) (stage w) (signals w).
Definition set_stopper (w : DaemonWorld) p ph sent : DaemonWorld :=
  mkDaemonWorld (clients w) (lease_dir w) (unlisted w) (<[p := ph]> (stoppers w)) (stage w) (signals w ++ sent).
Definition end_stopper (w : DaemonWorld) p sent : DaemonWorld :=
  mkDaemonWorld (clients w) (lease_dir w) (unlisted w) (delete p (stoppers w)) (stage w) (signals w ++ sent).
Definition set_stage (w : DaemonWorld) st sent : DaemonWorld :=
  mkDaemonWorld (clients w) (lease_dir w) (unlisted w) (stoppers w) st (signals w ++ sent).
(** [c] writes its lease, and is in the phase [ph] then. *)
Definition write_lease (w : DaemonWorld) c ph daemon now : DaemonWorld :=
  mkDaemonWorld (<[c := ph]> (clients w)) (acquire_daemon_lease (lease_dir w) c daemon now).2 (unlisted w ∖ {[c]})
    (stoppers w) (stage w) (signals w).

Inductive daemon_step : DaemonWorld -> DaemonWorld -> Prop :=
(* clients *)
| dstep_arrive w c : clients w !! c = None -> 1 < c <= U32_MAX ->
    daemon_step w (mkDaemonWorld (<[c := Unregistered]> (clients w)) (lease_dir w)
                     (unlisted w ∖ {[c]}) (stoppers w) (stage w) (signals w))
| dstep_lock_shared w c : clients w !! c = Some Unregistered -> ~ exclusive_held w ->
    daemon_step w (set_client w c Registering)
| dstep_write w c daemon now : clients w !! c = Some Registering -> 0 <= daemon <= U32_MAX -> 0 <= now <= U128_MAX ->
    daemon_step w (write_lease w c Written daemon now)
| dstep_write_fails w c ph : clients w !! c = Some ph -> ph = Unregistered \/ ph = Registering ->
    daemon_step w (mkDaemonWorld (<[c := Ready]> (clients w)) (lease_dir w)
                     ({[c]} ∪ unlisted w) (stoppers w) (stage w) (signals w))
| dstep_unlock_shared w c : clients w !! c = Some Written -> daemon_step w (set_client w c Ready)
| dstep_connect w c : clients w !! c = Some Ready -> daemon_step w (set_client w c Connected)
| dstep_refresh w c daemon now : clients w !! c = Some Connected -> ~ exclusive_held w ->
    0 <= daemon <= U32_MAX -> 0 <= now <= U128_MAX -> daemon_step w (write_lease w c Connected daemon now)
| dstep_exit w c : is_Some (clients w !! c) ->
    daemon_step w (mkDaemonWorld (delete c (clients w)) (lease_dir w) (unlisted w)
                     (delete c (stoppers w)) (stage w) (signals w))
(* [zoder daemon check] reads the leases without a lock, and deletes the file
   of a client it took for dead at any time since *)
| dstep_probe_deletes w c : 1 < c <= U32_MAX ->
    let dir' := delete (show_u c) (lease_dir w) in
    daemon_step w (mkDaemonWorld (clients w) dir' (unlisted w ∪ lost (clients w) (lease_dir w) dir')
                     (stoppers w) (stage w) (signals w))
(* a process that stops the daemon *)
| dstep_lock_exclusive w p : is_Some (clients w !! p) -> stoppers w !! p = None ->
    ~ exclusive_held w -> ~ shared_held w -> daemon_step w (set_stopper w p StopLocked [])
| dstep_census w p s dir' : stoppers w !! p = Some StopLocked ->
    lease_view (cs_dir s) (lease_dir w) -> swept_to (at_leases s) (cs_dir s) (lease_dir w) dir' ->
    daemon_step w (mkDaemonWorld (clients w) dir' (unlisted w ∪ lost (clients w) (lease_dir w) dir')
                     (<[p := StopDecided s]> (stoppers w)) (stage w) (signals w))
| dstep_spare w p s : stoppers w !! p = Some (StopDecided s) -> census_authority s p = NotAuthorized ->
    daemon_step w (end_stopper w p [])
| dstep_recycled w p s : stoppers w !! p = Some (StopDecided s) -> census_authority s p <> NotAuthorized ->
    daemon_step w (end_stopper w p [])
| dstep_term w p s : stoppers w !! p = Some (StopDecided s) -> census_authority s p <> NotAuthorized ->
    daemon_step w (set_stopper w p StopTermed [(p, SigTerm)])
| dstep_release w p : stoppers w !! p = Some StopTermed -> daemon_step w (set_stopper w p StopWaiting [])
| dstep_exited w p : stoppers w !! p = Some StopWaiting -> daemon_step w (end_stopper w p [])
| dstep_kill w p : stoppers w !! p = Some StopWaiting -> daemon_step w (end_stopper w p [(p, SigKill)])
(* the spawner *)
| dstep_spawn w p : is_Some (clients w !! p) -> stage w = NotSpawned -> daemon_step w (set_stage w (Starting p) [])
| dstep_started w p : stage w = Starting p -> daemon_step w (set_stage w Running [])
| dstep_startup_kill w p : stage w = Starting p -> is_Some (clients w !! p) ->
    daemon_step w (set_stage w NotSpawned [(p, SigKill)]).

Definition daemon_init : DaemonWorld := mkDaemonWorld ∅ ∅ ∅ ∅ NotSpawned [].

(** ** Theorems: leases *)

Definition lease_ok (l : DaemonLease) : Prop :=
  0 <= client_pid l <= U32_MAX /\ 0 <= daemon_pid l <= U32_MAX /\
  0 <= acquired_at_ns l <= U128_MAX /\ 0 <= refreshed_at_ns l <= U128_MAX.

Lemma lease_body_words l : lease_ok l ->
  split_whitespace (lease_body l) =
    [show_u (client_pid l); show_u (daemon_pid l); show_u (acquired_at_ns l); show_u (refreshed_at_ns l)].
Proof.
  intros (H1 & H2 & H3 & H4). apply split_join; [|done]. simpl.
  by rewrite !show_u_word by lia.
Qed.

(** A lease file is read back as the lease that was written, and only
    under its own name. *)
Theorem lease_roundtrip (l : DaemonLease) (c : Z) :
  lease_ok l -> parse_lease_file (lease_body l) c = (if client_pid l =? c then Some l else None).
Proof.
  intros Hok. unfold parse_lease_file. rewrite lease_body_words by done.
  destruct Hok as (H1 & H2 & H3 & H4). simpl.
  rewrite !parse_u32_show, !parse_u128_show by done. simpl.
  destruct (client_pid l =? c); [by destruct l|done].
Qed.

Definition sample_lease : DaemonLease := mkLease 4242 900 1762000000000000000 1762000030000000000.
Lemma lease_roundtrip_witness :
  parse_lease_file (lease_body sample_lease) 4242 = Some sample_lease /\
  parse_lease_file (lease_body sample_lease) 4243 = None.
Proof.
  split; [refine (lease_roundtrip sample_lease 4242 _)|refine (lease_roundtrip sample_lease 4243 _)];
    unfold lease_ok, sample_lease, U32_MAX, U128_MAX; simpl; lia.
Defined.

(** A refresh keeps the time of the first acquisition. *)
Lemma refresh_keeps_acquired dir client d1 d2 t1 t2 :
  0 <= client <= U32_MAX -> 0 <= d1 <= U32_MAX -> 0 <= t1 <= U128_MAX ->
  dir !! show_u client = None ->
  let '(l1, dir1) := acquire_daemon_lease dir client d1 t1 in
  acquired_at_ns (acquire_daemon_lease dir1 client d2 t2).1 = t1.
Proof.
  intros Hc Hd Ht Hn. unfold acquire_daemon_lease. rewrite Hn. rewrite lookup_insert_eq.
  rewrite lease_body_words by (unfold lease_ok; simpl; lia). simpl. by rewrite parse_u128_show.
Qed.

Lemma elem_of_read_leases t dir l :
  l ∈ (read_daemon_leases t dir).1 <->
  exists name content, dir !! name = Some content /\ read_entry t name content = LiveLease l.
Proof.
  unfold read_daemon_leases. simpl. rewrite elem_of_sort_by, list_elem_of_omap. split.
  - intros ([name content] & Hin%elem_of_map_to_list & H).
    destruct (read_entry t name content) eqn:E; simplify_eq. by eauto.
  - intros (name & content & Hin & E). exists (name, content). by rewrite elem_of_map_to_list, E.
Qed.

Lemma read_entry_live t name content l :
  read_entry t name content = LiveLease l ->
  exists body, content = Some body /\ parse_lease_file body (client_pid l) = Some l /\
    owner_still_alive t (client_pid l) = true /\ 1 < client_pid l.
Proof.
  unfold read_entry. destruct (opt_filter _ _) as [c|] eqn:Ec; [|done].
  apply opt_filter_Some in Ec as [_ Hc]. destruct content as [body|]; [|done]. simpl.
  destruct (parse_lease_file body c) as [l'|] eqn:Ep; [|done].
  destruct (owner_still_alive t c) eqn:Ea; [|done]. intros [= ->].
  assert (client_pid l = c) as <-.
  { unfold parse_lease_file in Ep.
    destruct (split_whitespace body !! 0%nat ≫= parse_u32_std) as [c'|] eqn:E0;
      [|destruct (split_whitespace body !! 0%nat); simpl in *; rewrite ?E0 in Ep; done].
    destruct (split_whitespace body !! 0%nat); simpl in *; [|done]. rewrite E0 in Ep. simpl in Ep.
    destruct (c' =? c) eqn:E; simpl in Ep; [|done].
    repeat (case_match; simplify_eq/=); try done. simplify_option_eq. lia. }
  exists body. split_and!; [done|done|done|lia].
Qed.

(** The time of the first acquisition that a registration keeps. *)
Lemma acquired_in_range (dir : LeaseDir) (client now : Z) : 0 <= now <= U128_MAX ->
  0 <= match dir !! show_u client with
       | Some (Some content) => default now (f ← split_whitespace content !! 2%nat; parse_u128_std f)
       | _ => now
       end <= U128_MAX.
Proof.
  intros Ht. destruct (dir !! show_u client) as [[content|]|]; try done.
  destruct (split_whitespace content !! 2%nat) as [f|]; simpl; [|done].
  unfold parse_u128_std. destruct (take_sign f) as [[] r]; [done|].
  destruct (digits_only r) as [v|] eqn:Ev; simpl; [|done]. case_match; simpl; [|done].
  apply digits_only_nonneg in Ev. lia.
Qed.

(** A client that registers is in every later census while it lives, and a
    census removes the files of dead clients and nothing else. *)
Theorem census_sees_registered (t : Table) (dir : LeaseDir) (client daemon now : Z) :
  1 < client <= U32_MAX -> 0 <= daemon <= U32_MAX -> 0 <= now <= U128_MAX ->
  owner_still_alive t client = true ->
  (acquire_daemon_lease dir client daemon now).1
    ∈ (read_daemon_leases t (acquire_daemon_lease dir client daemon now).2).1 /\
  forall name content, dir !! name = Some content ->
    (read_daemon_leases t dir).2 !! name = None <->
    exists c, parse_u32_std name = Some c /\ owner_still_alive t c = false /\
      1 < c /\ is_Some (b ← content; parse_lease_file b c).
Proof.
  intros Hc Hd Ht Ha. split.
  - apply elem_of_read_leases. exists (show_u client). eexists. split; [simpl; apply lookup_insert_eq|].
    unfold read_entry. rewrite parse_u32_show by lia. simpl.
    rewrite (proj2 (Z.ltb_lt 1 client)) by lia. simpl.
    set (acq := match dir !! show_u client with Some (Some content) =>
      default now (f ← split_whitespace content !! 2%nat; parse_u128_std f) | _ => now end).
    assert (0 <= acq <= U128_MAX) by (by apply acquired_in_range).
    unfold parse_lease_file. rewrite lease_body_words by (unfold lease_ok; simpl; lia). simpl.
    rewrite !parse_u32_show, !parse_u128_show by lia. simpl. by rewrite Z.eqb_refl, Ha.
  - intros name content Hn. simpl. rewrite map_lookup_filter_None. split.
    + intros [?|H]; [congruence|]. specialize (H content Hn). simpl in H.
      unfold is_dead_entry, read_entry in H.
      destruct (opt_filter _ _) as [c|] eqn:Ec; [|done].
      apply opt_filter_Some in Ec as [Hp Hc']. exists c.
      destruct (b ← content; parse_lease_file b c) as [l|] eqn:Ep; [|done].
      destruct (owner_still_alive t c) eqn:Eo; [done|]. split_and!; [done|done|lia|done].
    + intros (c & Hp & Ho & Hc' & [l Hl]). right. intros content' Hn'. simplify_eq. simpl.
      unfold is_dead_entry, read_entry. rewrite Hp. simpl. rewrite (proj2 (Z.ltb_lt 1 c)) by lia.
      simpl. by rewrite Hl, Ho.
Qed.

(** ** Theorems: the stop decision *)

(** The stop decision is exactly its four rules.  A client may stop the
    daemon when it holds a live lease, no other live client holds one, and
    either the daemon's live owner is that client, or no owner lives and the
    client's lease was refreshed within the TTL; and it is the owner's right
    just when a live owner was found. *)
Theorem stop_authority_exact (t : Table) (now : Z) (leases : list DaemonLease) (client : Z)
    (owner : option DaemonOwner) (alive : bool) (ttl : Z) :
  let live l := l ∈ leases /\ owner_still_alive t (client_pid l) = true in
  let authority := daemon_stop_authority t now leases client owner alive ttl in
  let alone := (exists l, live l /\ client_pid l = client) /\ (forall l, live l -> client_pid l = client) in
  let orphan := owner = None \/ alive = false in
  (authority = Owner <->
     alone /\ alive = true /\ exists o, owner = Some o /\ owner_pid o = client) /\
  (authority = LastConsumer <->
     alone /\ orphan /\ exists l,
       find_first (fun l => client_pid l =? client)
         (filterb (fun l => owner_still_alive t (client_pid l)) leases) = Some l /\
       Z.max 0 (now - refreshed_at_ns l) <= ttl).
Proof.
  intros live authority alone orphan. subst authority. unfold daemon_stop_authority.
  set (ls := filterb (fun l => owner_still_alive t (client_pid l)) leases).
  assert (forall l, l ∈ ls <-> live l) as Hls.
  { intros l. unfold ls, live. rewrite elem_of_filterb. tauto. }
  destruct (find_first (fun l => client_pid l =? client) ls) as [ours|] eqn:Ef.
  2: { assert (~ alone) as Hna.
       { intros [(l & Hl & Hc) _]. apply Hls in Hl.
         pose proof (proj1 (find_first_None _ _) Ef l Hl) as H. simpl in H. lia. }
       split; split; [done|tauto|done|tauto]. }
  apply find_first_Some in Ef as Hours. destruct Hours as [Hin Hc].
  assert (existsb (fun l => negb (client_pid l =? client)) ls = false <-> alone) as Halone.
  { rewrite existsb_none. split.
    - intros H. split; [exists ours; split; [by apply Hls|lia]|].
      intros l Hl. specialize (H l (proj2 (Hls l) Hl)). lia.
    - intros [_ H] l Hl. specialize (H l (proj1 (Hls l) Hl)). lia. }
  destruct (existsb _ ls) eqn:Ee.
  { assert (~ alone) by (intros H; apply Halone in H; congruence). split; split; [done|tauto|done|tauto]. }
  assert (alone) as Hal by (by apply Halone).
  assert (is_fresh t now ttl ours = (Z.max 0 (now - refreshed_at_ns ours) <=? ttl)) as ->.
  { unfold is_fresh. apply Hls in Hin as [_ Ha]. by rewrite Ha. }
  assert (forall b : bool, (if b then LastConsumer else NotAuthorized) <> Owner) as Hno by by intros [].
  assert (forall b : bool, (if b then LastConsumer else NotAuthorized) = LastConsumer <-> b = true) as Hyes
    by by intros [].
  destruct owner as [o|]; [destruct alive|].
  - split; [|split; [by destruct (owner_pid o =? client)|by intros (_ & [|] & _)]].
    destruct (owner_pid o =? client) eqn:Eo; split; try done.
    + intros _. split_and!; [done|done|]. exists o. split; [done|lia].
    + intros (_ & _ & o' & [= <-] & ?). lia.
  - split; split; try (by intros H%Hno); try (by intros (_ & ? & _)).
    + intros H%Hyes. split_and!; [done|by right|]. exists ours. split; [done|lia].
    + intros (_ & _ & l & [= <-] & ?). apply Hyes. lia.
  - split; split; try (by intros H%Hno); try (by intros (_ & _ & o & ? & _)).
    + intros H%Hyes. split_and!; [done|by left|]. exists ours. split; [done|lia].
    + intros (_ & _ & l & [= <-] & ?). apply Hyes. lia.
Qed.

(** The record of a daemon is read back as its identity and its owner. *)
Theorem record_roundtrip (identity : Z * Z) (owner : option DaemonOwner) :
  1 < identity.1 <= U32_MAX -> 0 <= identity.2 <= U64_MAX ->
  (forall o, owner = Some o -> 1 < owner_pid o <= U32_MAX /\ 0 <= owner_ticks o <= U64_MAX) ->
  read_daemon_record (record_body identity owner) = Some identity /\
  read_daemon_owner (record_body identity owner) = owner.
Proof.
  destruct identity as [pid start]. simpl. intros Hp Hs Ho.
  unfold read_daemon_record, read_daemon_owner, record_body.
  rewrite split_join; [|simpl; rewrite !show_u_word by lia; destruct owner as [o|]; [|done]|done].
  2: { destruct (Ho o eq_refl). simpl. by rewrite !show_u_word by lia. }
  simpl. rewrite parse_u32_show by lia. simpl. rewrite (proj2 (Z.leb_gt pid 1)) by lia.
  rewrite parse_u64_show by lia. simpl. destruct owner as [o|]; [|done].
  destruct (Ho o eq_refl) as [H1 H2]. simpl. rewrite parse_u32_show by lia. simpl.
  rewrite (proj2 (Z.leb_gt (owner_pid o) 1)) by lia. rewrite parse_u64_show by lia. simpl.
  split; [done|by destruct o].
Qed.

Lemma record_roundtrip_witness :
  read_daemon_record (record_body (900, 81234) (Some (mkOwner 42 80000))) = Some (900, 81234) /\
  read_daemon_owner (record_body (900, 81234) (Some (mkOwner 42 80000))) = Some (mkOwner 42 80000).
Proof.
  apply (record_roundtrip (900, 81234) (Some (mkOwner 42 80000))); simpl;
    [unfold U32_MAX; lia|unfold U64_MAX; lia|].
  intros o [= <-]. simpl. unfold U32_MAX, U64_MAX. lia.
Defined.

(** Only a process whose start time is the recorded one is named live. *)
Lemma record_state_live t raw pid :
  daemon_record_state t raw = Live pid ->
  exists text start, raw = Some text /\ read_daemon_record text = Some (pid, start) /\
    live_start_ticks t pid = Some start.
Proof.
  unfold daemon_record_state. destruct raw as [text|]; [|done]. simpl.
  destruct (read_daemon_record text) as [[p start]|] eqn:E; [|done].
  case_bool_decide; [|done]. intros [= ->]. eauto.
Qed.

(** The stale socket's removal never unlinks another entry. *)
Lemma remove_stale_socket_safe lock at_path expected ok :
  (remove_stale_socket lock at_path expected ok).1 = true ->
  lock = true /\ at_path = expected /\ (remove_stale_socket lock at_path expected ok).2 = None.
Proof.
  unfold remove_stale_socket. destruct lock; [|done]. case_bool_decide; [|done]. simpl.
  destruct at_path; [|done]. by destruct ok.
Qed.

(** ** Theorems: the lock *)

Definition registered (ph : ClientPhase) : Prop := ph = Written \/ ph = Ready \/ ph = Connected.
Definition lease_listed (dir : LeaseDir) (c : Z) : Prop :=
  exists l, lease_ok l /\ client_pid l = c /\ dir !! show_u c = Some (Some (lease_body l)).
(** The census [s] could not read the lease of [c], or could not see that the
    process [c] is there. *)
Definition unread (s : Census) (c : Z) : Prop :=
  (forall body, cs_dir s !! show_u c <> Some (Some body)) \/
  owner_still_alive (at_leases s) c = false \/ owner_still_alive (at_decision s) c = false.

(** What holds of every reachable state. *)
Record daemon_ok (w : DaemonWorld) : Prop := {
  do_pid : forall c ph, clients w !! c = Some ph -> 1 < c <= U32_MAX;
  do_listed : forall c ph, clients w !! c = Some ph -> registered ph -> c ∈ unlisted w \/ lease_listed (lease_dir w) c;
  do_one : forall p q a b, stoppers w !! p = Some a -> stoppers w !! q = Some b ->
    holds_exclusive a -> holds_exclusive b -> p = q;
  do_exclusive : exclusive_held w -> ~ shared_held w;
  do_seen : forall p s, stoppers w !! p = Some (StopDecided s) -> forall c ph, clients w !! c = Some ph -> registered ph ->
    c ∈ unlisted w \/ unread s c \/ lease_listed (cs_dir s) c;
  do_termed : forall p ph, stoppers w !! p = Some ph -> ph = StopTermed \/ ph = StopWaiting -> (p, SigTerm) ∈ signals w
}.

Lemma daemon_ok_init : daemon_ok daemon_init.
Proof.
  split; simpl; try (intros *; by rewrite lookup_empty).
  intros (p & ph & H & _). simpl in H. by rewrite lookup_empty in H.
Qed.

Lemma show_u_inj_pid c d : 0 <= c <= U32_MAX -> 0 <= d <= U32_MAX -> show_u c = show_u d -> c = d.
Proof. intros Hc Hd H. apply (f_equal parse_u32_std) in H. rewrite !parse_u32_show in H by done. by injection H. Qed.

(** A client that moves to the phase [ph], when nobody else's lease changes. *)
Lemma daemon_ok_client w c ph dir unl :
  daemon_ok w -> 1 < c <= U32_MAX ->
  (forall d, d <> c -> 1 < d <= U32_MAX -> dir !! show_u d = lease_dir w !! show_u d) ->
  (forall d, d <> c -> d ∈ unlisted w -> d ∈ unl) ->
  (registered ph -> (c ∈ unl \/ lease_listed dir c) /\
     (exclusive_held w -> c ∈ unl \/ exists ph', clients w !! c = Some ph' /\ registered ph' /\ (c ∈ unlisted w -> c ∈ unl))) ->
  (ph = Registering \/ ph = Written -> ~ exclusive_held w) ->
  daemon_ok (mkDaemonWorld (<[c := ph]> (clients w)) dir unl (stoppers w) (stage w) (signals w)).
Proof.
  intros [Hp Hl Ho He Hs Ht] Hc Hdir Hunl Hph Hx. split; simpl.
  - intros d q. rewrite lookup_insert. case_decide; [by subst|apply Hp].
  - intros d q. rewrite lookup_insert. case_decide as E; [subst; intros [= <-] Hq; by apply Hph|].
    intros Hd Hq. destruct (Hl d q Hd Hq) as [?|(l & ? & ? & Hlk)]; [left; by apply Hunl|].
    right. exists l. rewrite Hdir; eauto.
  - exact Ho.
  - intros Hex (d & q & Hd & Hq). simpl in Hd. rewrite lookup_insert in Hd. case_decide; [simplify_eq; by apply Hx|].
    apply (He Hex). by exists d, q.
  - intros p s Hps d q. rewrite lookup_insert. case_decide as E; [subst; intros [= <-] Hq|].
    + destruct (Hph Hq) as [_ [|(ph' & Hc' & Hr & Hu)]]; [by exists p, (StopDecided s)|by left|].
      destruct (Hs p s Hps d ph' Hc' Hr); auto.
    + intros Hd Hq. destruct (Hs p s Hps d q Hd Hq); auto.
  - exact Ht.
Qed.

Lemma daemon_ok_write w c ph ph' daemon now : daemon_ok w -> clients w !! c = Some ph' -> ~ exclusive_held w ->
  0 <= daemon <= U32_MAX -> 0 <= now <= U128_MAX -> daemon_ok (write_lease w c ph daemon now).
Proof.
  intros Hok Hc Hx Hd Hn. pose proof (do_pid w Hok c ph' Hc) as Hpid. apply daemon_ok_client; try done.
  - intros d Hne Hd'. simpl. rewrite lookup_insert_ne; [done|]. intros E. apply Hne. apply show_u_inj_pid in E; lia.
  - set_solver.
  - intros _. split; [|done]. right. destruct (acquired_in_range (lease_dir w) c now Hn) as [Ha Hb].
    eexists (mkLease c daemon _ now). split; [|split; [reflexivity|]].
    2: { simpl. rewrite lookup_insert, decide_True by done. reflexivity. }
    unfold lease_ok. simpl. split; [lia|]. split; [lia|]. split; [split; [exact Ha|exact Hb]|lia].
Qed.

(** The directory loses files, and their owners are noted. *)
Lemma listed_lost w dir' c ph : clients w !! c = Some ph -> c ∈ unlisted w \/ lease_listed (lease_dir w) c ->
  (dir' !! show_u c = lease_dir w !! show_u c \/ dir' !! show_u c = None) ->
  c ∈ unlisted w ∪ lost (clients w) (lease_dir w) dir' \/ lease_listed dir' c.
Proof.
  intros Hc [?|(l & ? & ? & Hl)] Hdir; [left; set_solver|]. destruct Hdir as [E|E].
  - right. exists l. by rewrite E.
  - left. apply elem_of_union. right. apply elem_of_filter. rewrite Hl, E. split; [by eauto|]. by apply elem_of_dom.
Qed.

(** A stopping process that ends, or whose phase changes to one that keeps the
    lock if it takes it over. *)
Lemma daemon_ok_end w p sent : daemon_ok w -> daemon_ok (end_stopper w p sent).
Proof.
  intros [Hp Hl Ho He Hs Ht]. split; simpl; try done.
  - intros q q' a b [_ Hq]%lookup_delete_Some [_ Hq']%lookup_delete_Some. by eapply Ho.
  - intros (q & a & Hq & Ha). simpl in Hq. apply lookup_delete_Some in Hq as [_ Hq]. apply He. by exists q, a.
  - intros q s [_ Hq]%lookup_delete_Some. by eapply Hs.
  - intros q ph [_ Hq]%lookup_delete_Some Hph. apply elem_of_app. left. by eapply Ht.
Qed.
Lemma daemon_ok_stopper w p ph sent : daemon_ok w ->
  (holds_exclusive ph -> (~ exclusive_held w /\ ~ shared_held w) \/ exists a, stoppers w !! p = Some a /\ holds_exclusive a) ->
  (forall s, ph <> StopDecided s) ->
  (ph = StopTermed \/ ph = StopWaiting -> (p, SigTerm) ∈ signals w ++ sent) ->
  daemon_ok (set_stopper w p ph sent).
Proof.
  intros [Hp Hl Ho He Hs Ht] Hx Hd Hm. split; simpl; try done.
  - intros q q' a b Hq Hq' Ha Hb. rewrite lookup_insert in Hq, Hq'. repeat case_decide; subst; [done|..|by eapply Ho].
    + simplify_eq. destruct (Hx Hb) as [[Hn _]|(a' & ? & ?)]; [destruct Hn; by exists q, a|by eapply Ho].
    + simplify_eq. destruct (Hx Ha) as [[Hn _]|(a' & ? & ?)]; [destruct Hn; by exists q', b|by eapply Ho].
  - intros (q & a & Hq & Ha). simpl in Hq. rewrite lookup_insert in Hq. case_decide.
    + simplify_eq. destruct (Hx Ha) as [[_ ?]|(a' & ? & ?)]; [done|]. apply He. by exists q, a'.
    + apply He. by exists q, a.
  - intros q s Hq. rewrite lookup_insert in Hq. case_decide; [simplify_eq; by destruct (Hd s)|]. by eapply Hs.
  - intros q a Hq Ha. rewrite lookup_insert in Hq. case_decide; [simplify_eq; by apply Hm|]. apply elem_of_app. left. by eapply Ht.
Qed.

Lemma daemon_ok_census w p s dir' : daemon_ok w -> stoppers w !! p = Some StopLocked ->
  lease_view (cs_dir s) (lease_dir w) -> swept_to (at_leases s) (cs_dir s) (lease_dir w) dir' ->
  daemon_ok (mkDaemonWorld (clients w) dir' (unlisted w ∪ lost (clients w) (lease_dir w) dir')
               (<[p := StopDecided s]> (stoppers w)) (stage w) (signals w)).
Proof.
  intros Hok Hlock Hview Hsw. pose proof Hok as [Hp Hl Ho He Hs Ht].
  assert (exclusive_held w) as Hex by (by exists p, StopLocked).
  split; simpl; try done.
  - intros c ph Hc Hph. eapply listed_lost; [done|by eapply Hl|]. destruct (Hsw (show_u c)) as [|[]]; auto.
  - intros q q' a b Hq Hq' Ha Hb. rewrite lookup_insert in Hq, Hq'. repeat case_decide; subst; [done|..|by eapply Ho].
    + by apply (Ho q q' a StopLocked).
    + by apply (Ho q q' StopLocked b).
  - intros _ (c & ph & Hc & Hph). apply (He Hex). by exists c, ph.
  - intros q s' Hq c ph Hc Hph. rewrite lookup_insert in Hq. case_decide.
    + simplify_eq. destruct (Hl c ph Hc Hph) as [?|Hlist]; [left; set_solver|]. right.
      destruct Hlist as (l & Hlo & Hlc & Hlk). destruct (Hview (show_u c)) as [E|[E|E]].
      * right. exists l. by rewrite E.
      * left. left. intros body. by rewrite E.
      * left. left. intros body. by rewrite E.
    + destruct (Hs q s' Hq c ph Hc Hph) as [?|?]; [left; set_solver|by right].
  - intros q a Hq Ha. rewrite lookup_insert in Hq. case_decide; [simplify_eq; by destruct Ha|]. by eapply Ht.
Qed.

Lemma daemon_ok_step w w' : daemon_step w w' -> daemon_ok w -> daemon_ok w'.
Proof.
  intros Hstep Hok. pose proof Hok as [Hp Hl Ho He Hs Ht].
  destruct Hstep as [w c Hc Hr|w c Hc Hex|w c d n Hc Hd Hn|w c ph Hc Hph|w c Hc|w c Hc|w c d n Hc Hex Hd Hn|w c Hc|w c Hc dir'
    |w p Hc Hn Hex Hsh|w p s dir' Hlock Hview Hsw|w p s Hd Ha|w p s Hd Ha|w p s Hd Ha|w p Hd|w p Hd|w p Hd|w p Hc Hst|w p Hst|w p Hst Hc].
  - apply daemon_ok_client; [done..|set_solver|unfold registered; naive_solver|naive_solver].
  - apply daemon_ok_client; [done|by eapply Hp|done|done|unfold registered; naive_solver|done].
  - eapply daemon_ok_write; [done..| |done|done]. intros Hex. apply (He Hex). exists c, Registering. auto.
  - apply daemon_ok_client; [done|by eapply Hp|done|set_solver| |naive_solver]. intros _. split; [left; set_solver|].
    intros _. left. set_solver.
  - apply daemon_ok_client; [done|by eapply Hp|done|done| |naive_solver]. intros _.
    split; [apply (Hl c Written); [done|by left]|]. intros _. right. exists Written. by split_and!; [|left|].
  - apply daemon_ok_client; [done|by eapply Hp|done|done| |naive_solver]. intros _.
    split; [apply (Hl c Ready); [done|right; by left]|]. intros _. right. exists Ready. split_and!; [done|right; by left|done].
  - by eapply daemon_ok_write.
  - (* exit *) split; simpl.
    + intros d ph [_ Hd]%lookup_delete_Some. by eapply Hp.
    + intros d ph [_ Hd]%lookup_delete_Some. by apply Hl.
    + intros q q' a b [_ Hq]%lookup_delete_Some [_ Hq']%lookup_delete_Some. by eapply Ho.
    + intros (q & a & Hq & Ha) (d & b & Hd & Hb). simpl in Hq, Hd.
      apply lookup_delete_Some in Hq as [_ Hq]. apply lookup_delete_Some in Hd as [_ Hd].
      apply He; [by exists q, a|by exists d, b].
    + intros q s [_ Hq]%lookup_delete_Some d ph [_ Hd]%lookup_delete_Some. by eapply Hs.
    + intros q ph [_ Hq]%lookup_delete_Some. by eapply Ht.
  - (* probe *) split; simpl; try done.
    + intros d ph Hd Hph. eapply listed_lost; [done|by eapply Hl|]. unfold dir'. rewrite lookup_delete. case_decide; auto.
    + intros q s Hq d ph Hd Hph. destruct (Hs q s Hq d ph Hd Hph); [left; set_solver|by right].
  - apply daemon_ok_stopper; [done|by left|done|naive_solver].
  - by apply daemon_ok_census.
  - by apply daemon_ok_end.
  - by apply daemon_ok_end.
  - apply daemon_ok_stopper; [done|intros _; right; by exists (StopDecided s)|done|].
    intros _. apply elem_of_app. right. by left.
  - apply daemon_ok_stopper; [done|done|done|]. intros _. apply elem_of_app. left. eapply Ht; [done|by left].
  - by apply daemon_ok_end.
  - by apply daemon_ok_end.
  - split; simpl; try done. intros q ph Hq Hph. apply elem_of_app. left. by eapply Ht.
  - split; simpl; try done. intros q ph Hq Hph. apply elem_of_app. left. by eapply Ht.
  - split; simpl; try done. intros q ph Hq Hph. apply elem_of_app. left. by eapply Ht.
Qed.

(** What a census that grants authority has seen. *)
Lemma authority_sees s p : census_authority s p <> NotAuthorized ->
  (exists l, l ∈ census_leases s /\ client_pid l = p)
  /\ (forall l, l ∈ census_leases s -> owner_still_alive (at_decision s) (client_pid l) = true -> client_pid l = p)
  /\ forall o, census_owner s = Some o -> live_start_ticks (at_owner s) (owner_pid o) = Some (owner_ticks o) -> owner_pid o = p.
Proof.
  unfold census_authority. intros Ha.
  destruct (stop_authority_exact (at_decision s) (cs_now s) (census_leases s) p (census_owner s) (owner_is_alive s) DAEMON_LEASE_TTL)
    as [Hown Hlast].
  destruct (daemon_stop_authority _ _ _ _ _ _ _) eqn:E; [| |done].
  - destruct (proj1 Hown eq_refl) as ([(l & [Hl _] & Hc) Hall] & _ & o & Ho & Hop). split; [by exists l|]. split; [by auto|]. naive_solver.
  - destruct (proj1 Hlast eq_refl) as ([(l & [Hl _] & Hc) Hall] & Horph & _). split; [by exists l|]. split; [by auto|].
    intros o Ho Hlive. destruct Horph as [Horph|Horph]; [congruence|]. unfold owner_is_alive in Horph. rewrite Ho in Horph.
    by apply bool_decide_eq_false in Horph.
Qed.

Lemma listed_read s c : 1 < c <= U32_MAX -> lease_listed (cs_dir s) c -> owner_still_alive (at_leases s) c = true ->
  exists l, l ∈ census_leases s /\ client_pid l = c.
Proof.
  intros Hc (l & Hok & Hlc & Hl) Ha. exists l. split; [|done]. apply elem_of_read_leases. eexists _, _. split; [exact Hl|].
  unfold read_entry. rewrite parse_u32_show by lia. cbn [opt_filter]. rewrite (proj2 (Z.ltb_lt 1 c)) by lia. cbn [mbind option_bind].
  rewrite lease_roundtrip by done. by rewrite Hlc, Z.eqb_refl, Ha.
Qed.

Lemma reachable_ok w : rtc daemon_step daemon_init w -> daemon_ok w.
Proof.
  assert (forall a b, rtc daemon_step a b -> daemon_ok a -> daemon_ok b) as H by (induction 1; eauto using daemon_ok_step).
  intros Hr. by apply (H _ _ Hr), daemon_ok_init.
Qed.

(** The step that sends a signal. *)
Lemma signal_step w w' p sig : daemon_step w w' -> signals w' = signals w ++ [(p, sig)] ->
  (sig = SigTerm /\ exists s, stoppers w !! p = Some (StopDecided s) /\ census_authority s p <> NotAuthorized)
  \/ (sig = SigKill /\ (stoppers w !! p = Some StopWaiting \/ stage w = Starting p)).
Proof.
  assert (Hnil : forall l : list (Z * Signal), l <> l ++ [(p, sig)]).
  { intros l H. apply (f_equal length) in H. rewrite length_app in H. cbn in H. lia. }
  destruct 1; cbn [signals set_client write_lease set_stopper end_stopper set_stage]; intros Heq; rewrite ?app_nil_r in Heq;
    try (by apply Hnil in Heq); apply app_inv_head in Heq; simplify_eq; [left|right|right]; eauto.
Qed.

(** C29: who can stop the daemon, and under whom.  However registrations,
    refreshes, connections, exits, readers of the leases, censuses, signals and
    the spawner interleave: SIGTERM is sent by a process whose own lease the
    census read, never past a live owner other than itself, and every other
    client connected at that moment is one whose lease could not be written or
    was deleted by a reader that took it for dead, or one whose lease or whose
    process that census could not read.  SIGKILL is sent only by a process that
    had sent SIGTERM, or by the spawner of a daemon that is still starting. *)
Theorem stop_spares_registered (w w' : DaemonWorld) (p : Z) (sig : Signal) :
  rtc daemon_step daemon_init w -> daemon_step w w' -> signals w' = signals w ++ [(p, sig)] ->
  match sig with
  | SigTerm => exists s, stoppers w !! p = Some (StopDecided s)
      /\ (exists l, l ∈ census_leases s /\ client_pid l = p)
      /\ (forall o, census_owner s = Some o -> live_start_ticks (at_owner s) (owner_pid o) = Some (owner_ticks o) -> owner_pid o = p)
      /\ forall c, c <> p -> clients w !! c = Some Connected -> c ∈ unlisted w \/ unread s c
  | SigKill => (p, SigTerm) ∈ signals w \/ stage w = Starting p
  end.
Proof.
  intros Hr Hs Hsig. pose proof (reachable_ok w Hr) as Hok.
  destruct (signal_step w w' p sig Hs Hsig) as [[-> (s & Hd & Ha)]|[-> [Hw|Hst]]];
    [|left; eapply (do_termed w Hok); [done|by right]|by right].
  exists s. destruct (authority_sees s p Ha) as (Hown & Halone & Howner). split_and!; try done.
  intros c Hne Hc. destruct (do_seen w Hok p s Hd c Connected Hc) as [?|[?|Hlist]]; [right; by right|by left|by right|].
  right. destruct (owner_still_alive (at_leases s) c) eqn:El; [|right; by left].
  destruct (owner_still_alive (at_decision s) c) eqn:Ed; [|right; by right]. exfalso. apply Hne.
  destruct (listed_read s c (do_pid w Hok c _ Hc) Hlist El) as (l & Hl & <-). by apply Halone.
Qed.

(** ** Examples *)

Definition sample_process (pid : Z) (comm : string) : Process :=
  mkProcess (Some (stat_line pid comm ("S"%string :: sample_fields))) (Some 1000) (Some "/home/u/ws"%string)
    (Some "/usr/bin/zoder"%string) 0.
Definition sample_table : Table := {[4242 := sample_process 4242 "zoder"]}.
Definition dead_dir : LeaseDir := {["77"%string := Some "77 900 5 6"%string; ".lock"%string := None]}.

Lemma census_sees_registered_witness :
  (acquire_daemon_lease dead_dir 4242 900 1000).1
    ∈ (read_daemon_leases sample_table (acquire_daemon_lease dead_dir 4242 900 1000).2).1 /\
  ((read_daemon_leases sample_table dead_dir).2 !! "77"%string = None <->
    exists c, parse_u32_std "77" = Some c /\ owner_still_alive sample_table c = false /\
      1 < c /\ is_Some (b ← Some "77 900 5 6"%string; parse_lease_file b c)).
Proof.
  split.
  - apply (census_sees_registered sample_table dead_dir 4242 900 1000);
      [unfold U32_MAX; lia|unfold U32_MAX; lia|unfold U128_MAX; lia|vm_compute; reflexivity].
  - apply (census_sees_registered sample_table dead_dir 4242 900 1000);
      [unfold U32_MAX; lia|unfold U32_MAX; lia|unfold U128_MAX; lia|vm_compute; reflexivity|
       vm_compute; reflexivity].
Defined.

(** *** Runs of the lock *)

Lemma no_stopper w : stoppers w = ∅ -> ~ exclusive_held w.
Proof. intros Hs (q & a & Hq & _). rewrite Hs in Hq. done. Qed.
Lemma only_waiting w p : stoppers w = {[p := StopWaiting]} -> ~ exclusive_held w.
Proof. intros Hs (q & a & Hq & Ha). rewrite Hs in Hq. apply lookup_singleton_Some in Hq as [_ <-]. done. Qed.

(** A client registers and connects, or connects without a lease. *)
Lemma client_connects w c : clients w !! c = None -> 1 < c <= U32_MAX -> ~ exclusive_held w ->
  exists w', rtc daemon_step w w' /\ clients w' = <[c := Connected]> (clients w)
    /\ lease_dir w' = (acquire_daemon_lease (lease_dir w) c 900 5).2 /\ unlisted w' = unlisted w ∖ {[c]}
    /\ stoppers w' = stoppers w /\ stage w' = stage w /\ signals w' = signals w.
Proof.
  intros Hc Hp Hx. eexists. split.
  { eapply rtc_l; [by apply (dstep_arrive w c)|].
    eapply rtc_l; [apply (dstep_lock_shared _ c); [simpl; by rewrite lookup_insert, decide_True|done]|].
    eapply rtc_l; [apply (dstep_write _ c 900 5); [simpl; by rewrite lookup_insert, decide_True|unfold U32_MAX; lia|unfold U128_MAX; lia]|].
    eapply rtc_l; [apply (dstep_unlock_shared _ c); simpl; by rewrite lookup_insert, decide_True|].
    eapply rtc_l; [apply (dstep_connect _ c); simpl; by rewrite lookup_insert, decide_True|]. apply rtc_refl. }
  simpl. rewrite !insert_insert_eq. split_and!; try done. set_solver.
Qed.
Lemma client_connects_unlisted w c : clients w !! c = None -> 1 < c <= U32_MAX ->
  exists w', rtc daemon_step w w' /\ clients w' = <[c := Connected]> (clients w) /\ lease_dir w' = lease_dir w
    /\ stoppers w' = stoppers w.
Proof.
  intros Hc Hp. eexists. split.
  { eapply rtc_l; [by apply (dstep_arrive w c)|].
    eapply rtc_l; [apply (dstep_write_fails _ c Unregistered); [simpl; by rewrite lookup_insert, decide_True|by left]|].
    eapply rtc_l; [apply (dstep_connect _ c); simpl; by rewrite lookup_insert, decide_True|]. apply rtc_refl. }
  simpl. by rewrite !insert_insert_eq.
Qed.

(** Process 1001 is alone with its lease when it takes the census. *)
Definition two_processes : Table := {[1001 := sample_process 1001 "zoder"; 1002 := sample_process 1002 "zoder"]}.
Definition alone_dir : LeaseDir := (acquire_daemon_lease ∅ 1001 900 5).2.
Definition alone_census : Census := mkCensus alone_dir two_processes None ∅ two_processes 5.
Lemma alone_authority : census_authority alone_census 1001 = LastConsumer.
Proof. vm_compute. reflexivity. Qed.
Lemma decides_alone w : stoppers w = ∅ -> ~ shared_held w -> is_Some (clients w !! 1001) -> lease_dir w = alone_dir ->
  exists w', rtc daemon_step w w' /\ clients w' = clients w /\ stoppers w' = {[1001 := StopDecided alone_census]}
    /\ lease_dir w' = lease_dir w /\ unlisted w' = unlisted w.
Proof.
  intros Hs Hsh Hc Hd. eexists. split.
  { eapply rtc_l; [apply (dstep_lock_exclusive w 1001); [done|by rewrite Hs|by apply no_stopper|done]|].
    eapply rtc_l; [apply (dstep_census _ 1001 alone_census (lease_dir w)); [simpl; by rewrite Hs|simpl; rewrite Hd|]|apply rtc_refl].
    - intros name. by left.
    - intros name. by left. }
  simpl. rewrite Hs, insert_insert_eq. split_and!; try done.
  assert (lost (clients w) (lease_dir w) (lease_dir w) = ∅) as ->; [|set_solver].
  apply set_eq. intros x. unfold lost. rewrite elem_of_filter. split; [|set_solver]. intros [[[y Hy] Hn] _]. congruence.
Qed.

(** Client 1002 could not write its lease, is connected all the same, and 1001
    stops the daemon under it. *)
Lemma stop_spares_registered_witness :
  exists w w', rtc daemon_step daemon_init w /\ daemon_step w w' /\ signals w' = signals w ++ [(1001, SigTerm)] /\
    clients w !! 1002 = Some Connected /\
    exists s, stoppers w !! 1001 = Some (StopDecided s)
      /\ (exists l, l ∈ census_leases s /\ client_pid l = 1001)
      /\ (forall o, census_owner s = Some o -> live_start_ticks (at_owner s) (owner_pid o) = Some (owner_ticks o) -> owner_pid o = 1001)
      /\ forall c, c <> 1001 -> clients w !! c = Some Connected -> c ∈ unlisted w \/ unread s c.
Proof.
  destruct (client_connects daemon_init 1001) as (w1 & R1 & C1 & D1 & _ & S1 & _); [done|unfold U32_MAX; lia|by apply no_stopper|].
  destruct (client_connects_unlisted w1 1002) as (w2 & R2 & C2 & D2 & S2); [by rewrite C1|unfold U32_MAX; lia|].
  destruct (decides_alone w2) as (w3 & R3 & C3 & S3 & _).
  - by rewrite S2, S1.
  - intros (c & ph & Hc & Hph). rewrite C2, C1 in Hc. simpl in Hc.
    repeat (rewrite lookup_insert in Hc; case_decide; [simplify_eq; by destruct Hph|]). done.
  - rewrite C2, C1. by eexists.
  - by rewrite D2, D1.
  - assert (daemon_step w3 (set_stopper w3 1001 StopTermed [(1001, SigTerm)])) as Hstep.
    { apply (dstep_term w3 1001 alone_census); [by rewrite S3|by rewrite alone_authority]. }
    assert (rtc daemon_step daemon_init w3) as Hr by (etrans; [exact R1|]; by etrans).
    exists w3, (set_stopper w3 1001 StopTermed [(1001, SigTerm)]). split; [exact Hr|]. split; [exact Hstep|]. split; [reflexivity|].
    split; [by rewrite C3, C2, lookup_insert, decide_True|].
    exact (stop_spares_registered w3 _ 1001 SigTerm Hr Hstep eq_refl).
Defined.

(** A client that registered after the lock was released is connected to the
    daemon, its lease written, when SIGKILL is sent. *)
Lemma sigkill_cuts_registered :
  exists w w', rtc daemon_step daemon_init w /\ daemon_step w w' /\ signals w' = signals w ++ [(1001, SigKill)] /\
    clients w !! 1002 = Some Connected /\ lease_listed (lease_dir w) 1002 /\ 1002 ∉ unlisted w.
Proof.
  destruct (client_connects daemon_init 1001) as (w1 & R1 & C1 & D1 & _ & S1 & _); [done|unfold U32_MAX; lia|by apply no_stopper|].
  destruct (decides_alone w1) as (w2 & R2 & C2 & S2 & D2 & _).
  - by rewrite S1.
  - intros (c & ph & Hc & Hph). rewrite C1 in Hc. simpl in Hc.
    repeat (rewrite lookup_insert in Hc; case_decide; [simplify_eq; by destruct Hph|]). done.
  - rewrite C1. by eexists.
  - by rewrite D1.
  - set (w3 := set_stopper (set_stopper w2 1001 StopTermed [(1001, SigTerm)]) 1001 StopWaiting []).
    assert (stoppers w3 = {[1001 := StopWaiting]}) as S3 by (subst w3; simpl; rewrite S2; vm_compute; reflexivity).
    assert (rtc daemon_step w2 w3) as R3.
    { eapply rtc_l; [apply (dstep_term w2 1001 alone_census); [by rewrite S2|by rewrite alone_authority]|].
      eapply rtc_l; [apply (dstep_release _ 1001); simpl; by rewrite lookup_insert, decide_True|apply rtc_refl]. }
    destruct (client_connects w3 1002) as (w4 & R4 & C4 & D4 & U4 & S4 & _);
      [simpl; by rewrite C2, C1|unfold U32_MAX; lia|by eapply only_waiting|].
    exists w4, (end_stopper w4 1001 [(1001, SigKill)]). split.
    { etrans; [exact R1|]. etrans; [exact R2|]. by etrans. }
    split; [apply dstep_kill; by rewrite S4, S3|]. split; [reflexivity|]. split; [rewrite C4; by rewrite lookup_insert, decide_True|].
    split; [|rewrite U4; set_solver].
    exists (mkLease 1002 900 5 5). rewrite D4. simpl. rewrite D2, D1. vm_compute. split_and!; done.
Qed.

(** The spawner of a daemon that does not get ready for it kills the daemon
    under a registered client. *)
Lemma startup_kill_cuts_registered :
  exists w w', rtc daemon_step daemon_init w /\ daemon_step w w' /\ signals w' = signals w ++ [(1001, SigKill)] /\
    clients w !! 1002 = Some Connected /\ lease_listed (lease_dir w) 1002 /\ 1002 ∉ unlisted w.
Proof.
  set (w1 := set_stage (mkDaemonWorld {[1001 := Unregistered]} ∅ (∅ ∖ {[1001]}) ∅ NotSpawned []) (Starting 1001) []).
  assert (rtc daemon_step daemon_init w1) as R1.
  { eapply rtc_l; [apply (dstep_arrive _ 1001); [done|unfold U32_MAX; lia]|].
    eapply rtc_l; [apply (dstep_spawn _ 1001); [by eexists|done]|apply rtc_refl]. }
  destruct (client_connects w1 1002) as (w2 & R2 & C2 & D2 & U2 & _ & G2 & _); [done|unfold U32_MAX; lia|by apply no_stopper|].
  exists w2, (set_stage w2 NotSpawned [(1001, SigKill)]). split; [by etrans|].
  split; [apply dstep_startup_kill; [by rewrite G2|rewrite C2; by eexists]|]. split; [reflexivity|].
  split; [rewrite C2; by rewrite lookup_insert, decide_True|]. split; [|rewrite U2; set_solver].
  exists (mkLease 1002 900 5 5). rewrite D2. vm_compute. split_and!; done.
Qed.

(** A lease names its client by number only: a number given to another process
    keeps the lease of the dead client alive. *)
Lemma recycled_client_holds_lease :
  (read_daemon_leases sample_table {["4242"%string := Some "4242 900 5 6"%string]}).1 = [mkLease 4242 900 5 6].
Proof. by vm_compute. Qed.

(** A record with a fifth field is no record of a daemon, yet names an owner. *)
Lemma record_readers_disagree :
  read_daemon_record "900 81234 42 80000 x" = None /\
  read_daemon_owner "900 81234 42 80000 x" = Some (mkOwner 42 80000).
Proof. by vm_compute. Qed.
