(* ===== verification/Cancel.v ===== *)
(** How a cancel is asked for, waited for, classified, retried and settled
    (cancel_budget.rs and cancel_outcome.rs of zoder-core, the author's cancel
    of agentic.rs, the session half of reaper.rs).

    The stop of the daemon is the list of its events in order; the authority is
    what Daemon.v makes of the census under the lock.

    A [Duration] is its nanoseconds.  What the engine answers, how long it
    takes and what the process table shows are arguments. *)
From Stdlib Require Import SpecFloat.
From S2P Require Import Prelude F64 Numbers Text ProcFs Daemon.
Local Open Scope Z_scope.

Definition CANCEL_SETTLE_BUDGET : Z := 5 * ns_per_s.

(** ** The ack budget *)

Definition DEFAULT_CANCEL_ACK_CAP : Z := 60 * ns_per_s.

Definition cancel_ack_cap_from_env (var : option string) : Z :=
  default DEFAULT_CANCEL_ACK_CAP (v ← var; s ← parse_u64_std (trim v); Some (s * ns_per_s)).

Definition cancel_ack_budget (active_step : option Z) (cap : Z) : Z :=
  match active_step with
  | None => CANCEL_SETTLE_BUDGET
  | Some elapsed => Z.min (Z.max cap CANCEL_SETTLE_BUDGET) (Z.max CANCEL_SETTLE_BUDGET elapsed)
  end.

(** The tool step of the current turn; an instant is its nanoseconds. *)
Record ToolStep := mkToolStep { ts_pending : Z; ts_started : option Z }.

Definition turn_started (_ : ToolStep) : ToolStep := mkToolStep 0 None.
Definition tool_call_started (now : Z) (s : ToolStep) : ToolStep :=
  mkToolStep (u32_sat_add (ts_pending s) 1)
    (match ts_started s with Some t => Some t | None => Some now end).
Definition tool_result_seen (s : ToolStep) : ToolStep :=
  let p := u32_sat_sub (ts_pending s) 1 in
  mkToolStep p (if p =? 0 then None else ts_started s).
Definition active_step_elapsed (now : Z) (s : ToolStep) : option Z :=
  if ts_pending s =? 0 then None
  else t ← ts_started s; Some (Z.max 0 (now - t)).

Inductive ToolEvent := TurnStarted | ToolCall (at_ : Z) | ToolResult.
Definition tool_event (s : ToolStep) (e : ToolEvent) : ToolStep :=
  match e with
  | TurnStarted => turn_started s
  | ToolCall t => tool_call_started t s
  | ToolResult => tool_result_seen s
  end.
Definition tool_run (events : list ToolEvent) : ToolStep := fold_left tool_event events (mkToolStep 0 None).

(** ** The outcome of one cancel *)

Inductive CancelOutcome := Confirmed | NotConfirmed | EngineUnreachable | DeadlineExpired.

Definition is_confirmed (o : CancelOutcome) : bool := match o with Confirmed => true | _ => false end.
Definition is_retryable (o : CancelOutcome) : bool := match o with NotConfirmed => true | _ => false end.
Definition is_engine_gone (o : CancelOutcome) : bool := match o with EngineUnreachable => true | _ => false end.

Inductive IoErrorKind := NotFound | ConnectionRefused | OtherIo.
Definition io_error_proves_no_listener (k : IoErrorKind) : bool :=
  match k with NotFound | ConnectionRefused => true | OtherIo => false end.

(** The chain of causes of an error, outermost first: an [io::Error], or
    something else. *)
Abbreviation ErrorChain := (list (option IoErrorKind)).

Fixpoint classify_cancel_error (chain : ErrorChain) : CancelOutcome :=
  match chain with
  | [] => NotConfirmed
  | Some io :: _ => if io_error_proves_no_listener io then EngineUnreachable else NotConfirmed
  | None :: rest => classify_cancel_error rest
  end.

(** What [cancel_session] returned: [Ok], or the chain of its error. *)
Inductive CancelTry := Acked | Failed (chain : ErrorChain).

(** ** The author's cancel *)

Definition SETTLE_BUDGET_SECS : Z := CANCEL_SETTLE_BUDGET / ns_per_s.
Definition AUTHOR_CANCEL_RETRY_ATTEMPTS : nat := 2.
Definition AUTHOR_CANCEL_RETRY_BACKOFF : Z := 300 * ns_per_ms.
Definition UNCONFIRMED_CANCEL_ABORT_THRESHOLD : Z := 2.

Definition author_cancel_deadline_for (first_attempt : Z) : Z :=
  (first_attempt / ns_per_ms
   + Z.of_nat AUTHOR_CANCEL_RETRY_ATTEMPTS * SETTLE_BUDGET_SECS * 1000
   + (AUTHOR_CANCEL_RETRY_BACKOFF / ns_per_ms) * Z.of_nat AUTHOR_CANCEL_RETRY_ATTEMPTS
   + 1000) * ns_per_ms.
Definition AUTHOR_CANCEL_DEADLINE : Z := author_cancel_deadline_for (SETTLE_BUDGET_SECS * ns_per_s).

Definition author_cancel_first_budget (now : Z) (s : ToolStep) (var : option string) : Z :=
  cancel_ack_budget (active_step_elapsed now s) (cancel_ack_cap_from_env var).

(** [cancel_author_session_best_effort]: the retry that was acknowledged, or
    the failures of all of them. *)
Fixpoint author_retries (attempt n : nat) (tries : nat -> CancelTry) (failures : list ErrorChain) :
    result nat (list ErrorChain) :=
  match n with
  | O => Err failures
  | S n => match tries attempt with
           | Acked => Ok (S attempt)
           | Failed e => author_retries (S attempt) n tries (failures ++ [e])
           end
  end.
Definition cancel_author_session_best_effort (tries : nat -> CancelTry) (first_error : ErrorChain) :
    result nat (list ErrorChain) :=
  author_retries 0 AUTHOR_CANCEL_RETRY_ATTEMPTS tries [first_error].

(** How long it takes: the first ask, then a backoff and an ask for each
    retry, each timer late by [over k] and each ask ended by its budget. *)
Definition author_cancel_time (first : Z) (asked over : nat -> Z) (n : nat) : Z :=
  first + foldr (fun k t => t + AUTHOR_CANCEL_RETRY_BACKOFF + over k + asked k) 0 (seq 0 n).

Definition unconfirmed_cancel_abort_threshold (shared_daemon : bool) : Z :=
  if shared_daemon then 1 else UNCONFIRMED_CANCEL_ABORT_THRESHOLD.

Record UnconfirmedCancelTracker := mkTracker { threshold : Z; streak : Z }.
Definition tracker_new (n : Z) : UnconfirmedCancelTracker := mkTracker (Z.max n 1) 0.
Definition tracker_from_shared_daemon (shared : bool) : UnconfirmedCancelTracker :=
  tracker_new (unconfirmed_cancel_abort_threshold shared).
Definition tracker_observe (t : UnconfirmedCancelTracker) (unconfirmed : bool) :
    UnconfirmedCancelTracker * bool :=
  let s := if unconfirmed then u64_sat_add (streak t) 1 else 0 in
  (mkTracker (threshold t) s, threshold t <=? s).

(** ** The plan of the retries *)

Definition CANCEL_RETRY_ATTEMPTS : Z := 3.
Definition CANCEL_RETRY_BACKOFF : list Z := [150 * ns_per_ms; 300 * ns_per_ms; 450 * ns_per_ms].
Definition CANCEL_RETRY_BUDGET : Z := 1500 * ns_per_ms.
Definition RETRY_ATTEMPT_FLOOR : Z := 100 * ns_per_ms.
Definition MIN_ATTEMPT : Z := ns_per_ms.

(** [Duration::as_secs_f64], [Duration::mul_f64] (to the nearest nanosecond),
    and [f64::floor] with the cast to [usize]. *)
Definition as_secs_f64 (d : Z) : f64 :=
  f64_add (f64_of_Z (d / ns_per_s)) (f64_div (f64_of_Z (d mod ns_per_s)) (f64_of_Z ns_per_s)).
Definition round_half_even (num den : Z) : Z :=
  let q := num / den in
  let r := 2 * (num mod den) in
  if r <? den then q else if den <? r then q + 1 else if Z.even q then q else q + 1.
Definition f64_scaled (x : f64) (unit : Z) : option (Z * Z) :=
  match x with
  | S754_finite false m e => if 0 <=? e then Some (Zpos m * 2 ^ e * unit, 1) else Some (Zpos m * unit, 2 ^ (- e))
  | S754_zero _ => Some (0, 1)
  | _ => None
  end.
Definition mul_f64 (d : Z) (s : f64) : Z :=
  match f64_scaled (f64_mul s (as_secs_f64 d)) ns_per_s with
  | Some (n, den) => round_half_even n den
  | None => 0
  end.
Definition floor_usize (x : f64) : Z :=
  match f64_scaled x 1 with Some (n, den) => n / den | None => 0 end.

Definition nominal_backoff : Z := foldr Z.add 0 CANCEL_RETRY_BACKOFF.

Definition plan_retries (left : Z) : Z :=
  if RETRY_ATTEMPT_FLOOR * CANCEL_RETRY_ATTEMPTS + nominal_backoff <=? left then CANCEL_RETRY_ATTEMPTS
  else
    let per_retry := RETRY_ATTEMPT_FLOOR + nominal_backoff / CANCEL_RETRY_ATTEMPTS in
    Z.max 1 (Z.min CANCEL_RETRY_ATTEMPTS
      (floor_usize (f64_div (as_secs_f64 left) (as_secs_f64 per_retry)))).
Definition plan_attempt (left : Z) : Z :=
  let retries := plan_retries left in
  let attempt_total := Z.max MIN_ATTEMPT (Z.min (left / 2) (CANCEL_RETRY_BUDGET * retries)) in
  Z.max MIN_ATTEMPT (Z.min CANCEL_RETRY_BUDGET (attempt_total / retries)).
Definition plan_scale (left : Z) : f64 :=
  let backoff_total := Z.max 0 (left - plan_attempt left * plan_retries left) in
  f64_min (f64_div (as_secs_f64 backoff_total) (as_secs_f64 nominal_backoff)) (f64_of_Z 1).

Definition retry_plan (left : Z) : Z * list Z * Z :=
  (plan_retries left,
   map (fun d => mul_f64 d (plan_scale left)) (take (Z.to_nat (plan_retries left)) CANCEL_RETRY_BACKOFF),
   plan_attempt left).

Inductive UnconfirmedCancelOutcome :=
| RetryConfirmed (n : nat)
| DaemonGone (n : nat)
| NeverAcknowledged (n : nat).

(** [retry_unconfirmed_cancel_within]: [tries k] is what the retry [k]
    returned. *)
Fixpoint retry_from (attempt n : nat) (tries : nat -> CancelTry) (planned : nat) : UnconfirmedCancelOutcome :=
  match n with
  | O => NeverAcknowledged planned
  | S n => match tries attempt with
           | Acked => RetryConfirmed (S attempt)
           | Failed e => match classify_cancel_error e with
                         | EngineUnreachable => DaemonGone (S attempt)
                         | _ => retry_from (S attempt) n tries planned
                         end
           end
  end.
Definition retry_unconfirmed_cancel_within (budget : Z) (tries : nat -> CancelTry) : UnconfirmedCancelOutcome :=
  let n := Z.to_nat (plan_retries budget) in retry_from 0 n tries n.

(** ** The session sets

    [SESSIONS] keeps the order in which the engine minted them; the other four
    are sets of normalised ids, and an id enters [unidentified] as it is. *)
Record Sessions := mkSessions {
  minted : list string;
  cancelled : gset string;
  unreachable : gset string;
  settled : gset string;
  unidentified : gset string
}.

Definition session_key (id : string) : string := trim id.

Definition note_session (id : string) (s : Sessions) : Sessions :=
  let key := session_key id in
  if str_is_empty key || bool_decide (key ∈ minted s) then s
  else mkSessions (minted s ++ [key]) (cancelled s) (unreachable s) (settled s) (unidentified s).

Definition mark_cancelled (id : string) (s : Sessions) : Sessions :=
  let key := session_key id in
  if str_is_empty key then s
  else mkSessions (minted s) ({[key]} ∪ cancelled s) (unreachable s) (settled s) (unidentified s).
Definition mark_unreachable (id : string) (s : Sessions) : Sessions :=
  let key := session_key id in
  if str_is_empty key then s
  else mkSessions (minted s) (cancelled s) ({[key]} ∪ unreachable s) (settled s) (unidentified s).
Definition note_session_settled (id : string) (s : Sessions) : Sessions :=
  let key := session_key id in
  if str_is_empty key then s
  else mkSessions (minted s) (cancelled s) (unreachable s) ({[key]} ∪ settled s) (unidentified s).
Definition mark_unidentified_daemon (id : string) (s : Sessions) : Sessions :=
  mkSessions (minted s) (cancelled s) (unreachable s) (settled s) ({[id]} ∪ unidentified s).

Definition is_pending (s : Sessions) (id : string) : bool :=
  let key := session_key id in
  negb (bool_decide (key ∈ cancelled s)) && negb (bool_decide (key ∈ unreachable s)) &&
  negb (bool_decide (key ∈ settled s)).

(** The list of the cancel phase, and that of the final sweep. *)
Definition pending_in_order (s : Sessions) : list string := filterb (is_pending s) (minted s).
Definition pending_sessions (s : Sessions) : list string := filterb (is_pending s) (rev (minted s)).

Definition unreachable_session_count (s : Sessions) : nat :=
  length (filterb (fun id => bool_decide (id ∈ unreachable s)) (minted s)).
Definition unidentified_daemon_count (s : Sessions) : nat :=
  length (filterb (fun id => bool_decide (id ∈ unidentified s)) (minted s)).

Definition teardown_is_quiet (pending_sessions_empty outcome_quiet : bool) (unreachable unidentified : nat) : bool :=
  pending_sessions_empty && outcome_quiet && (unreachable =? 0)%nat && (unidentified =? 0)%nat.

(** ** Settling an unconfirmed cancel *)

Inductive ExitCleanup := NothingToDo | CleanupConfirmed | Unconfirmed.

Definition merge_cleanup (a b : ExitCleanup) : ExitCleanup :=
  match a, b with
  | _, Unconfirmed | Unconfirmed, _ => Unconfirmed
  | NothingToDo, other | other, NothingToDo => other
  | CleanupConfirmed, CleanupConfirmed => CleanupConfirmed
  end.

(** What the settling does to the daemon lock and to processes, in order. *)
Inductive StopEvent := TookLock | SentSignal (pid : Z) (sig : Signal) | ReleasedLock.

(** What the settling finds: the record of the daemon, read against the table
    at that moment; whether the daemon lock is taken and the census under it;
    then the tables at the reading of the start time, at each signal and after
    the waits. *)
Record SettleEnv := mkSettleEnv {
  se_record : option string;
  at_record : Table;
  lock_taken : bool;
  se_census : Census;
  at_expected : Table;
  at_term : Table;
  after_grace : Table;
  at_kill : Table;
  after_kill : Table
}.

Record UnconfirmedCancel := mkUnconfirmedCancel {
  attempts : nat;
  outcome : UnconfirmedCancelOutcome;
  uc_daemon_pid : option Z;
  daemon_stopped : bool
}.

Definition retries_of (o : UnconfirmedCancelOutcome) : nat :=
  match o with RetryConfirmed n | DaemonGone n | NeverAcknowledged n => n end.

(** The attempt of the process [self] to stop the daemon [pid]: whether it was
    stopped, whether it still runs, and what was done. *)
Definition stop_daemon (e : SettleEnv) (self pid : Z) : bool * bool * list StopEvent :=
  if negb (lock_taken e) then (false, true, [])
  else
    match census_authority (se_census e) self with
    | NotAuthorized => (false, true, [TookLock; ReleasedLock])
    | _ =>
        let expected := live_start_ticks (at_expected e) pid in
        if signal_if_same_process (at_term e) pid expected then
          let sent := [TookLock; SentSignal pid SigTerm; ReleasedLock] in
          let stopped := negb (alive (after_kill e) pid) in
          if alive (after_grace e) pid && signal_if_same_process (at_kill e) pid expected
          then (stopped, negb stopped, sent ++ [SentSignal pid SigKill])
          else (stopped, negb stopped, sent)
        else (false, false, [TookLock; ReleasedLock])
    end.

(** [settle_unconfirmed_cancel], with what it did. *)
Definition settle_unconfirmed_cancel (e : SettleEnv) (self : Z) (id : string) (o : UnconfirmedCancelOutcome)
    (s : Sessions) : UnconfirmedCancel * Sessions * list StopEvent :=
  let attempts := S (retries_of o) in
  match o with
  | RetryConfirmed _ => (mkUnconfirmedCancel attempts o None false, mark_cancelled id s, [])
  | _ =>
      let record := daemon_record_state (at_record e) (se_record e) in
      let '(stopped, still_running, events) :=
        match record with
        | Live pid => stop_daemon e self pid
        | _ => (false, false, [])
        end in
      let s := if still_running then s else mark_cancelled id s in
      let s := match o, record with
               | NeverAcknowledged _, Missing => if still_running then s else mark_unidentified_daemon id s
               | _, _ => s
               end in
      (mkUnconfirmedCancel attempts o (record_pid record) stopped, s, events)
  end.

(** One session of the cancel phase.  [remaining] and [left] are what is left
    of its window before the first ask and after its failure. *)
Record AskEnv := mkAskEnv {
  remaining : Z;
  first_try : CancelTry;
  left_after : Z;
  retry_tries : nat -> CancelTry;
  settle_env : SettleEnv;
  self_pid : Z;
  minted_meanwhile : list string
}.

Definition cancel_session_with_retries (a : AskEnv) (id : string) (s : Sessions) :
    ExitCleanup * Sessions * list StopEvent :=
  if remaining a <=? 0 then (NothingToDo, s, [])
  else match first_try a with
  | Acked => (CleanupConfirmed, mark_cancelled id s, [])
  | Failed chain =>
      match classify_cancel_error chain with
      | EngineUnreachable => (CleanupConfirmed, mark_unreachable id s, [])
      | _ =>
          let o := if left_after a <? RETRY_ATTEMPT_FLOOR then NeverAcknowledged 0
                   else retry_unconfirmed_cancel_within (left_after a) (retry_tries a) in
          let '(_, s, events) := settle_unconfirmed_cancel (settle_env a) (self_pid a) id o s in
          (match o with
           | RetryConfirmed _ | DaemonGone _ => CleanupConfirmed
           | NeverAcknowledged _ => Unconfirmed
           end, s, events)
      end
  end.

Definition MAX_CANCEL_PASSES : nat := 8.
Definition CANCEL_PHASE_CAP_WINDOWS : Z := 20.

(** The asks of one pass, in order; [k] counts the asks of the phase, and the
    engine may mint sessions during any of them. *)
Fixpoint cancel_pass (env : nat -> AskEnv) (k : nat) (ids : list string) (s : Sessions)
    (cleanup : ExitCleanup) : nat * Sessions * ExitCleanup :=
  match ids with
  | [] => (k, s, cleanup)
  | id :: ids =>
      let '(r, s, _) := cancel_session_with_retries (env k) id s in
      let s := fold_left (fun s m => note_session m s) (minted_meanwhile (env k)) s in
      cancel_pass env (S k) ids s (merge_cleanup cleanup r)
  end.

(** [cancel_recorded_sessions_with_cleanup]: [elapsed p] is the time the phase
    has taken before its pass [p].  The list of the ids asked comes with the
    result. *)
Fixpoint cancel_passes (env : nat -> AskEnv) (elapsed : nat -> Z) (budget : Z) (p n k : nat)
    (s : Sessions) (cleanup : ExitCleanup) (asked : list string) : Sessions * ExitCleanup * list string :=
  match n with
  | O => (s, cleanup, asked)
  | S n =>
      if budget * CANCEL_PHASE_CAP_WINDOWS <=? elapsed p then (s, cleanup, asked)
      else
        let pending := pending_in_order s in
        match pending with
        | [] => (s, cleanup, asked)
        | _ =>
            let '(k, s, cleanup) := cancel_pass env k pending s cleanup in
            cancel_passes env elapsed budget (S p) n k s cleanup (asked ++ pending)
        end
  end.
Definition cancel_recorded_sessions_with_cleanup (env : nat -> AskEnv) (elapsed : nat -> Z) (budget : Z)
    (s : Sessions) : Sessions * ExitCleanup * list string :=
  cancel_passes env elapsed budget 0 MAX_CANCEL_PASSES 0 s NothingToDo [].

Inductive DeploymentMode := Standalone | Fleet.
Definition daemon_cancel_budget_ms (m : DeploymentMode) : Z :=
  match m with Standalone => 1500 | Fleet => 750 end.
Definition REAP_CANCEL_BUDGET : Z := CANCEL_SETTLE_BUDGET.
Definition cancel_budget_for (m : DeploymentMode) : Z :=
  match m with
  | Fleet => REAP_CANCEL_BUDGET
  | Standalone => REAP_CANCEL_BUDGET + u64_sat_sub (daemon_cancel_budget_ms m) 750 * ns_per_ms
  end.

(** ** The blocking cancel of the final sweep

    What the socket did for one session: the connect, the handshake, the
    cancel frame, and the bytes read for the ack. *)
Inductive BlockingTry :=
| ConnectFailed (k : IoErrorKind)
| HandshakeFailed
| SendFailed
| Sent (ack_bytes : Z).

Definition cancel_one_blocking (t : BlockingTry) (id : string) (s : Sessions) :
    ExitCleanup * Sessions * list string :=
  if bool_decide (id ∈ cancelled s) || bool_decide (id ∈ unreachable s) ||
     bool_decide (session_key id ∈ settled s)
  then (NothingToDo, s, [])
  else match t with
  | ConnectFailed k =>
      if io_error_proves_no_listener k && negb (str_is_empty (session_key id)) &&
         negb (bool_decide (session_key id ∈ unreachable s))
      then (NothingToDo, mark_unreachable id s, [id])
      else (NothingToDo, s, [])
  | HandshakeFailed => (NothingToDo, s, [])
  | SendFailed => (Unconfirmed, s, [])
  | Sent n => (if 0 <? n then CleanupConfirmed else Unconfirmed, mark_cancelled id s, [])
  end.

Fixpoint cancel_sessions_blocking (tries : nat -> BlockingTry) (k : nat) (ids : list string) (s : Sessions) :
    ExitCleanup * Sessions * list string :=
  match ids with
  | [] => (NothingToDo, s, [])
  | id :: ids =>
      let '(c, s, u) := cancel_one_blocking (tries k) id s in
      let '(c', s, u') := cancel_sessions_blocking tries (S k) ids s in
      (merge_cleanup c c', s, u ++ u')
  end.

(** ** Theorems: budgets *)

(** The ack budget is the age of the running step, kept between the
    settle budget and the cap; without a step, or with a cap below the settle
    budget, it is the settle budget. *)
Theorem cancel_ack_budget_bounds (active : option Z) (cap : Z) :
  CANCEL_SETTLE_BUDGET <= cancel_ack_budget active cap <= Z.max cap CANCEL_SETTLE_BUDGET /\
  (active = None \/ cap <= CANCEL_SETTLE_BUDGET -> cancel_ack_budget active cap = CANCEL_SETTLE_BUDGET) /\
  (forall e, active = Some e -> CANCEL_SETTLE_BUDGET <= e <= cap -> cancel_ack_budget active cap = e).
Proof.
  unfold cancel_ack_budget. destruct active as [e|].
  - split; [lia|]. split; [intros [|]; [done|lia]|intros ? [= <-]; lia].
  - split; [lia|]. done.
Qed.

(** The clock of the step runs exactly while something is pending. *)
Definition tool_step_wf (s : ToolStep) : Prop :=
  0 <= ts_pending s <= U32_MAX /\ (ts_pending s = 0 <-> ts_started s = None).

Lemma tool_event_wf s e : tool_step_wf s -> tool_step_wf (tool_event s e).
Proof.
  intros [Hp Hs]. unfold tool_step_wf. destruct e; simpl.
  - unfold U32_MAX. split; [lia|done].
  - unfold u32_sat_add. split; [unfold U32_MAX in *; lia|]. destruct (ts_started s); split; try done;
      unfold U32_MAX in *; lia.
  - unfold u32_sat_sub. split; [unfold U32_MAX in *; lia|].
    destruct (Z.max 0 (ts_pending s - 1) =? 0) eqn:E; split; try done; intros H; [lia|lia|].
    apply Hs in H. lia.
Qed.

Lemma tool_run_wf events : tool_step_wf (tool_run events).
Proof.
  assert (forall s, tool_step_wf s -> tool_step_wf (fold_left tool_event events s)) as Hf.
  { induction events as [|e events IH]; intros s Hs; simpl; [done|]. by apply IH, tool_event_wf. }
  apply Hf. split; [unfold U32_MAX; simpl; lia|done].
Qed.

Lemma tool_run_app a b : tool_run (a ++ b) = fold_left tool_event b (tool_run a).
Proof. apply fold_left_app. Qed.

(** While tool calls are pending, the reported age is that of the busy
    period: the time since the call that found nothing pending.  With nothing
    pending there is no age. *)
Theorem step_elapsed_exact (pre post : list ToolEvent) (t now : Z) :
  ts_pending (tool_run pre) = 0 ->
  (forall a b, post = a ++ b -> ts_pending (tool_run (pre ++ ToolCall t :: a)) <> 0) ->
  active_step_elapsed now (tool_run pre) = None /\
  active_step_elapsed now (tool_run (pre ++ ToolCall t :: post)) = Some (Z.max 0 (now - t)).
Proof.
  intros Hpre Hpost. split; [unfold active_step_elapsed; by rewrite Hpre|].
  assert (ts_started (tool_run (pre ++ ToolCall t :: post)) = Some t) as Hs.
  { induction post as [|e post IH] using rev_ind.
    - rewrite tool_run_app. simpl. destruct (tool_run_wf pre) as [_ Hwf].
      apply Hwf in Hpre. by rewrite Hpre.
    - assert (ts_started (tool_run (pre ++ ToolCall t :: post)) = Some t) as IH'.
      { apply IH. intros a b ->. apply (Hpost a (b ++ [e])). by rewrite app_assoc. }
      pose proof (Hpost (post ++ [e]) [] (eq_sym (app_nil_r _))) as He.
      rewrite (app_comm_cons post [e]), app_assoc, tool_run_app in He |- *. simpl in *.
      destruct e; simpl in *; [done|by rewrite IH'|]. by destruct (_ =? 0) eqn:E; [lia|]. }
  pose proof (Hpost post [] (eq_sym (app_nil_r _))) as Hp.
  unfold active_step_elapsed. rewrite (proj2 (Z.eqb_neq _ 0) Hp), Hs. done.
Qed.

Lemma step_elapsed_exact_witness :
  active_step_elapsed 30 (tool_run [ToolCall 1; ToolResult]) = None /\
  active_step_elapsed 30 (tool_run ([ToolCall 1; ToolResult] ++ [ToolCall 10; ToolCall 12])) = Some 20.
Proof.
  apply (step_elapsed_exact [ToolCall 1; ToolResult] [ToolCall 12] 10 30); [done|].
  intros [|? [|? a]] b H; simplify_eq/=; done.
Defined.

(** The recorded start is documented as that of the oldest call still pending;
    when the first of two overlapping calls has returned, it is older. *)
Lemma started_outlives_its_call :
  active_step_elapsed 40 (tool_run [ToolCall 0; ToolCall 30; ToolResult]) = Some 40.
Proof. done. Qed.

(** ** Theorems: outcomes *)

(** An error is classified by the first i/o error of its chain: the engine
    is called unreachable when that error is a missing path or a refused
    connection, and in every other case the cancel is unconfirmed; the two
    outcomes that are not errors never come out. *)
Theorem classify_cancel_error_exact (chain : ErrorChain) :
  let first := head (omap (fun x => x) chain) in
  classify_cancel_error chain <> Confirmed /\ classify_cancel_error chain <> DeadlineExpired /\
  (classify_cancel_error chain = EngineUnreachable <->
     first = Some NotFound \/ first = Some ConnectionRefused).
Proof.
  induction chain as [|[io|] chain IH]; simpl.
  - split_and!; [done|done|]. split; [done|by intros [|]].
  - destruct io; simpl; split_and!; try done; split; try done; auto; by intros [|].
  - exact IH.
Qed.

(** The outer deadline of the author's cancel never cuts its retries off:
    with every ask inside its budget and timers late by less than a second in
    all, the whole sequence ends before the deadline. *)
Theorem author_cancel_fits (budget first : Z) (asked over : nat -> Z) (n : nat) :
  (n <= AUTHOR_CANCEL_RETRY_ATTEMPTS)%nat -> first <= budget ->
  (forall k, asked k <= SETTLE_BUDGET_SECS * ns_per_s) ->
  (forall k, 0 <= over k) -> over 0%nat + over 1%nat <= 999 * ns_per_ms ->
  author_cancel_time first asked over n <= author_cancel_deadline_for budget.
Proof.
  intros Hn Hf Ha Ho Hsum. pose proof (Ha 0%nat). pose proof (Ha 1%nat).
  pose proof (Ho 0%nat). pose proof (Ho 1%nat).
  unfold author_cancel_time, author_cancel_deadline_for, AUTHOR_CANCEL_RETRY_ATTEMPTS in *.
  change (SETTLE_BUDGET_SECS) with 5 in *.
  change (AUTHOR_CANCEL_RETRY_BACKOFF) with (300 * ns_per_ms).
  change (300 * ns_per_ms / ns_per_ms) with 300. unfold ns_per_ms, ns_per_s in *.
  pose proof (Z.div_mod budget 1000000 ltac:(lia)). pose proof (Z.mod_pos_bound budget 1000000 ltac:(lia)).
  destruct n as [|[|[|n]]]; simpl; lia.
Qed.

Lemma author_cancel_fits_witness :
  author_cancel_time (5 * ns_per_s) (fun _ => 5 * ns_per_s) (fun _ => 2 * ns_per_ms) 2
    <= author_cancel_deadline_for (5 * ns_per_s).
Proof. apply author_cancel_fits; unfold SETTLE_BUDGET_SECS; vm_compute; try lia; congruence. Defined.

(** The tracker after a run of observations, oldest first, and what each
    answered. *)
Fixpoint tracker_run (t : UnconfirmedCancelTracker) (obs : list bool) : UnconfirmedCancelTracker * list bool :=
  match obs with
  | [] => (t, [])
  | b :: obs => let '(t, a) := tracker_observe t b in
                let '(t, r) := tracker_run t obs in (t, a :: r)
  end.

Lemma tracker_run_app t a b :
  tracker_run t (a ++ b) = ((tracker_run (tracker_run t a).1 b).1, (tracker_run t a).2 ++ (tracker_run (tracker_run t a).1 b).2).
Proof.
  revert t. induction a as [|x a IH]; intros t; simpl; [by destruct (tracker_run t b)|].
  rewrite IH. by destruct (tracker_run _ a).
Qed.

(** The loop is told to stop after an author turn exactly when that turn
    and the [threshold - 1] before it all ended with an unconfirmed cancel. *)
Theorem tracker_aborts_iff (n : Z) (obs : list bool) (b : bool) :
  Z.of_nat (length obs) < U64_MAX ->
  last (tracker_run (tracker_new n) (obs ++ [b])).2 = Some true <->
  exists k, Z.of_nat k = Z.max n 1 /\ (k <= length (obs ++ [b]))%nat /\
    forall i, (i < k)%nat -> rev (obs ++ [b]) !! i = Some true.
Proof.
  intros Hlen.
  assert (forall obs, Z.of_nat (length obs) <= U64_MAX ->
    threshold (tracker_run (tracker_new n) obs).1 = Z.max n 1 /\
    exists k, streak (tracker_run (tracker_new n) obs).1 = Z.of_nat k /\ (k <= length obs)%nat /\
      (forall i, (i < k)%nat -> rev obs !! i = Some true) /\ rev obs !! k <> Some true) as Hinv.
  { clear. induction obs as [|x obs IH] using rev_ind; intros Hl.
    - split; [done|]. exists 0%nat. split_and!; [done|simpl; lia|lia|done].
    - rewrite length_app in Hl. simpl in Hl. destruct IH as (Ht & k & Hk & Hkl & Htrue & Hend); [lia|].
      rewrite tracker_run_app. simpl. unfold tracker_observe. rewrite rev_app_distr. simpl.
      destruct x; simpl.
      + split; [done|]. exists (S k). rewrite Hk, length_app. unfold u64_sat_add. simpl.
        split_and!; [lia|lia| |done]. intros [|i] Hi; [done|]. apply Htrue. lia.
      + split; [done|]. exists 0%nat. split_and!; [done|lia|lia|done]. }
  rewrite tracker_run_app. simpl. unfold tracker_observe.
  destruct (Hinv obs ltac:(lia)) as (Ht & k & Hk & Hkl & Htrue & Hend). rewrite Ht, Hk.
  simpl. rewrite last_snoc, rev_app_distr, length_app. simpl. unfold u64_sat_add.
  destruct b; split.
  - intros [= H]. exists (Z.to_nat (Z.max n 1)). split_and!; [lia|lia|].
    intros [|i] Hi; [done|]. apply Htrue. lia.
  - intros (m & Hm & Hml & Hall). f_equal. apply Z.leb_le.
    enough (m <= S k)%nat by lia. destruct (decide (m <= S k)%nat); [done|exfalso].
    apply Hend. apply (Hall (S k)). lia.
  - intros [= H]. lia.
  - intros (m & Hm & Hml & Hall). specialize (Hall 0%nat ltac:(lia)). done.
Qed.

Lemma tracker_aborts_iff_witness :
  last (tracker_run (tracker_new 2) ([true; false; true] ++ [true])).2 = Some true <->
  exists k, Z.of_nat k = Z.max 2 1 /\ (k <= length ([true; false; true] ++ [true]))%nat /\
    forall i, (i < k)%nat -> rev ([true; false; true] ++ [true]) !! i = Some true.
Proof. apply tracker_aborts_iff. vm_compute. reflexivity. Defined.

(** ** Theorems: the retries *)

Lemma f64_scaled_nonneg x unit n den : 0 <= unit -> f64_scaled x unit = Some (n, den) -> 0 <= n /\ 0 < den.
Proof.
  intros Hu. unfold f64_scaled. destruct x as [|s| |[] m e]; try done.
  - intros [= <- <-]. lia.
  - case_match eqn:E; intros [= <- <-].
    + pose proof (Z.pow_nonneg 2 e ltac:(lia)). nia.
    + pose proof (Z.pow_pos_nonneg 2 (- e) ltac:(lia) ltac:(lia)). nia.
Qed.

Lemma round_half_even_nonneg n den : 0 <= n -> 0 < den -> 0 <= round_half_even n den.
Proof.
  intros Hn Hd. unfold round_half_even. pose proof (Z.div_pos n den Hn Hd).
  repeat case_match; lia.
Qed.

Lemma mul_f64_nonneg d s : 0 <= mul_f64 d s.
Proof.
  unfold mul_f64. destruct (f64_scaled _ _) as [[n den]|] eqn:E; [|done].
  apply f64_scaled_nonneg in E as [??]; [by apply round_half_even_nonneg|done].
Qed.

Lemma plan_retries_range left : 1 <= plan_retries left <= 3.
Proof. unfold plan_retries, CANCEL_RETRY_ATTEMPTS. case_match; lia. Qed.

(** The plan of the retries keeps its promises for every window: one to
    three retries, a delay before each, an ask of at least a millisecond and
    at most a second and a half, and asks that take no more than half of the
    window in all, unless that is less than a millisecond each. *)
Theorem retry_plan_bounds (left : Z) : 0 <= left ->
  let '(retries, backoff, per_attempt) := retry_plan left in
  1 <= retries <= CANCEL_RETRY_ATTEMPTS /\ Z.of_nat (length backoff) = retries /\
  Forall (fun d => 0 <= d) backoff /\
  MIN_ATTEMPT <= per_attempt <= CANCEL_RETRY_BUDGET /\
  per_attempt * retries <= Z.max (left / 2) (MIN_ATTEMPT * retries).
Proof.
  intros Hl. unfold retry_plan. pose proof (plan_retries_range left) as Hr.
  split; [unfold CANCEL_RETRY_ATTEMPTS; lia|]. split_and!.
  - rewrite length_map, length_take. simpl. lia.
  - apply Forall_forall. intros d Hd. apply list_elem_of_In, in_map_iff in Hd as (d' & <- & _).
    apply mul_f64_nonneg.
  - unfold plan_attempt. lia.
  - unfold plan_attempt, MIN_ATTEMPT, CANCEL_RETRY_BUDGET, ns_per_ms. lia.
  - unfold plan_attempt. set (r := plan_retries left) in *. set (l := left / 2).
    unfold MIN_ATTEMPT, CANCEL_RETRY_BUDGET, ns_per_ms.
    assert (Z.max 1000000 (Z.min l (1500 * 1000000 * r)) / r * r
      <= Z.max 1000000 (Z.min l (1500 * 1000000 * r))).
    { rewrite Z.mul_comm. apply Z.mul_div_le. lia. }
    assert (r = 1 \/ r = 2 \/ r = 3) as [-> | [-> | ->]] by lia; lia.
Qed.

Lemma retry_plan_bounds_witness :
  let '(retries, backoff, per_attempt) := retry_plan (800 * ns_per_ms) in
  1 <= retries <= CANCEL_RETRY_ATTEMPTS /\ Z.of_nat (length backoff) = retries /\
  Forall (fun d => 0 <= d) backoff /\
  MIN_ATTEMPT <= per_attempt <= CANCEL_RETRY_BUDGET /\
  per_attempt * retries <= Z.max (800 * ns_per_ms / 2) (MIN_ATTEMPT * retries).
Proof. apply (retry_plan_bounds (800 * ns_per_ms)). vm_compute. congruence. Defined.

(** The plans of the deployment profiles, and of a window nearly spent. *)
Example retry_plan_examples :
  retry_plan CANCEL_SETTLE_BUDGET = (3, CANCEL_RETRY_BACKOFF, 833333333) /\
  retry_plan (800 * ns_per_ms) = (2, [66666667; 133333333], 200000000) /\
  retry_plan 0 = (1, [0], MIN_ATTEMPT).
Proof. by vm_compute. Qed.

Lemma retry_from_exact attempt n tries planned :
  match retry_from attempt n tries planned with
  | RetryConfirmed m => (attempt < m <= attempt + n)%nat /\ tries (m - 1)%nat = Acked
  | DaemonGone m => (attempt < m <= attempt + n)%nat /\
      exists c, tries (m - 1)%nat = Failed c /\ classify_cancel_error c = EngineUnreachable
  | NeverAcknowledged m => m = planned /\ forall k, (attempt <= k < attempt + n)%nat ->
      exists c, tries k = Failed c /\ classify_cancel_error c = NotConfirmed
  end.
Proof.
  revert attempt. induction n as [|n IH]; intros attempt; simpl; [split; [done|lia]|].
  destruct (tries attempt) as [|c] eqn:E.
  { split; [lia|]. by replace (S attempt - 1)%nat with attempt by lia. }
  destruct (classify_cancel_error_exact c) as (H1 & H2 & _).
  destruct (classify_cancel_error c) eqn:Ec; try done.
  - specialize (IH (S attempt)). destruct (retry_from (S attempt) n tries planned).
    + destruct IH. split; [lia|done].
    + destruct IH. split; [lia|done].
    + destruct IH as [-> IH]. split; [done|]. intros k Hk.
      destruct (decide (k = attempt)) as [->|]; [by exists c|apply IH; lia].
  - split; [lia|]. exists c. by replace (S attempt - 1)%nat with attempt by lia.
Qed.

(** ** Theorems: settling *)

(** The daemon still runs, as far as the settling can tell. *)
Definition spared (e : SettleEnv) (self : Z) : bool :=
  match daemon_record_state (at_record e) (se_record e) with
  | Live pid => (stop_daemon e self pid).1.2
  | _ => false
  end.

(** What an attempt to stop the daemon may have done. *)
Lemma stop_daemon_events e self pid :
  let events := (stop_daemon e self pid).2 in
  (forall p sig, SentSignal p sig ∉ events) \/
  census_authority (se_census e) self <> NotAuthorized /\ lock_taken e = true /\
  exists start, live_start_ticks (at_expected e) pid = Some start /\ live_start_ticks (at_term e) pid = Some start /\
    (events = [TookLock; SentSignal pid SigTerm; ReleasedLock] \/
     events = [TookLock; SentSignal pid SigTerm; ReleasedLock; SentSignal pid SigKill] /\
     alive (after_grace e) pid = true /\ live_start_ticks (at_kill e) pid = Some start).
Proof.
  assert (forall p sig, SentSignal p sig ∉ [TookLock; ReleasedLock]) as Hno by (intros p sig; rewrite !elem_of_cons, elem_of_nil; naive_solver).
  unfold stop_daemon. destruct (lock_taken e); cbn [negb]; [|left; by intros p sig ?%not_elem_of_nil].
  destruct (census_authority (se_census e) self) eqn:Ea; [| |by left].
  all: unfold signal_if_same_process; destruct (live_start_ticks (at_expected e) pid) as [start|] eqn:Ee; [|by left].
  all: case_bool_decide as Et; [|by left]; right; do 2 (split; [done|]); exists start; do 2 (split; [done|]).
  all: destruct (alive (after_grace e) pid); cbn [andb]; [|by left]; case_bool_decide as Ek; [right|by left].
  all: by split_and!.
Qed.

Lemma two_events {A} (a b c : A) pre x post : [a; b; c] = pre ++ x :: post ->
  (pre = [] /\ x = a) \/ (pre = [a] /\ x = b) \/ (pre = [a; b] /\ x = c).
Proof. destruct pre as [|p1 [|p2 [|p3 pre]]]; intros [=]; simplify_eq; auto. by destruct pre. Qed.

(** C24: settling signals under the lock and by right.  A signal goes out only
    when the record names a live process whose start time is the recorded one,
    and only to that number, held by one process from the reading of the start
    time under the lock on; the census taken under the lock showed the lease of
    this process and no lease of another live client, and no live owner but
    this process.  SIGTERM is sent while the lock is held; SIGKILL is the last
    thing done, after SIGTERM and after the lock was released, and only when
    the process is still alive. *)
Theorem settle_signals_authorized (e : SettleEnv) (self : Z) (id : string) (o : UnconfirmedCancelOutcome)
    (s : Sessions) (before after : list StopEvent) (pid : Z) (sig : Signal) :
  (settle_unconfirmed_cancel e self id o s).2 = before ++ SentSignal pid sig :: after ->
  (forall n, o <> RetryConfirmed n) /\
  daemon_record_state (at_record e) (se_record e) = Live pid /\
  (exists l, l ∈ census_leases (se_census e) /\ client_pid l = self) /\
  (forall l, l ∈ census_leases (se_census e) -> owner_still_alive (at_decision (se_census e)) (client_pid l) = true -> client_pid l = self) /\
  (forall w, census_owner (se_census e) = Some w ->
     live_start_ticks (at_owner (se_census e)) (owner_pid w) = Some (owner_ticks w) -> owner_pid w = self) /\
  exists start, live_start_ticks (at_expected e) pid = Some start /\ live_start_ticks (at_term e) pid = Some start /\
    match sig with
    | SigTerm => lock_taken e = true /\ before = [TookLock]
    | SigKill => before = [TookLock; SentSignal pid SigTerm; ReleasedLock] /\ after = [] /\
        alive (after_grace e) pid = true /\ live_start_ticks (at_kill e) pid = Some start
    end.
Proof.
  intros He.
  assert (exists p, (forall n, o <> RetryConfirmed n) /\ daemon_record_state (at_record e) (se_record e) = Live p /\
    (stop_daemon e self p).2 = before ++ SentSignal pid sig :: after) as (p & Ho & Hrec & Hev).
  { destruct o as [n|n|n]; cbn [settle_unconfirmed_cancel] in He; [by destruct before|..].
    all: destruct (daemon_record_state (at_record e) (se_record e)) as [p|p|]; cbn in He; try (by destruct before).
    all: exists p; split_and!; try done; destruct (stop_daemon e self p) as [[? ?] ?]; exact He. }
  destruct (stop_daemon_events e self p) as [Hno|(Ha & Hl & start & H1 & H2 & Hcase)].
  { destruct (Hno pid sig). rewrite Hev. apply elem_of_app. right. by left. }
  destruct (authority_sees _ _ Ha) as (A1 & A2 & A3). split; [done|].
  assert (pid = p /\ match sig with
    | SigTerm => lock_taken e = true /\ before = [TookLock]
    | SigKill => before = [TookLock; SentSignal p SigTerm; ReleasedLock] /\ after = [] /\
        alive (after_grace e) p = true /\ live_start_ticks (at_kill e) p = Some start
    end) as [-> Hm]; [|split; [done|]; split; [done|]; split; [done|]; split; [done|]; by exists start].
  destruct Hcase as [E|(E & Hg & Hk)]; rewrite E in Hev.
  - apply two_events in Hev as [[_ ?]|[[-> ?]|[_ ?]]]; simplify_eq; done.
  - destruct before as [|b1 [|b2 [|b3 [|b4 before]]]]; simplify_eq/=; try done. by destruct before.
Qed.

(** The start time that a signal is checked against is read when the lock has
    been taken, not from the record: a process that was given the daemon's
    number while the lock was waited for is signalled. *)
Definition taken_over (t : Table) : Table :=
  {[900 := mkProcess (Some (stat_line 900 "editor" ("S"%string :: sample_fields))) (Some 1000)
             (Some "/home/u/other"%string) None 1]}.
Definition stranger_env : SettleEnv :=
  let before : Table := {[900 := mkProcess (Some (stat_line 900 "zeroclaw"
    (["S"; "7"; "1"; "1"; "0"; "-1"; "4194304"; "100"; "0"; "0"; "0"; "0"; "0"; "0"; "0"; "20"; "0"; "1"; "0";
      "70000"; "0"]%string))) (Some 1000) None None 0]} in
  let after := taken_over before in
  mkSettleEnv (Some (record_body (900, 70000) None)) before true alone_census after after ∅ ∅ ∅.
Definition no_sessions : Sessions := mkSessions ["s1"%string] ∅ ∅ ∅ ∅.

Lemma settle_signals_authorized_witness :
  (settle_unconfirmed_cancel stranger_env 1001 "s1" (NeverAcknowledged 3) no_sessions).2
    = [TookLock] ++ SentSignal 900 SigTerm :: [ReleasedLock] /\
  daemon_record_state (at_record stranger_env) (se_record stranger_env) = Live 900.
Proof.
  assert ((settle_unconfirmed_cancel stranger_env 1001 "s1" (NeverAcknowledged 3) no_sessions).2
    = [TookLock] ++ SentSignal 900 SigTerm :: [ReleasedLock]) as H by (vm_compute; reflexivity).
  split; [exact H|].
  apply (settle_signals_authorized stranger_env 1001 "s1" (NeverAcknowledged 3) no_sessions _ _ 900 SigTerm H).
Defined.

Lemma settle_signals_stranger :
  (settle_unconfirmed_cancel stranger_env 1001 "s1" (NeverAcknowledged 3) no_sessions).2
    = [TookLock; SentSignal 900 SigTerm; ReleasedLock] /\
  (se_record stranger_env ≫= read_daemon_record) = Some (900, 70000) /\
  live_start_ticks (at_term stranger_env) 900 = Some 81234.
Proof. by vm_compute. Qed.

Lemma mark_cancelled_pending id s :
  str_is_empty (session_key id) = false -> is_pending (mark_cancelled id s) id = false.
Proof.
  intros Hk. unfold is_pending, mark_cancelled. rewrite Hk. simpl.
  rewrite (bool_decide_eq_true_2 (session_key id ∈ _)) by set_solver. done.
Qed.

Lemma settle_pending e self id o s :
  str_is_empty (session_key id) = false -> is_pending s id = true ->
  is_pending (settle_unconfirmed_cancel e self id o s).1.2 id
    = match o with RetryConfirmed _ => false | _ => spared e self end.
Proof.
  intros Hk Hp. destruct o as [n|n|n]; simpl; [by apply mark_cancelled_pending|..];
    unfold spared; destruct (daemon_record_state _ _) as [p|p|]; simpl;
    try destruct (stop_daemon e self p) as [[st []] sg]; simpl; try done;
    try (by apply mark_cancelled_pending).
Qed.

(** Asking a session retires it on evidence only.  A pending session that
    is asked with time left stops being pending exactly when the engine
    acknowledged the cancel at once or on a retry, or nobody listens on the
    socket, or no recorded daemon was left running by the settling. *)
Theorem ask_retires_iff (a : AskEnv) (id : string) (s : Sessions) :
  str_is_empty (session_key id) = false -> is_pending s id = true -> 0 < remaining a ->
  is_pending (cancel_session_with_retries a id s).1.2 id = false <->
  first_try a = Acked \/
  exists chain, first_try a = Failed chain /\
    (classify_cancel_error chain = EngineUnreachable \/
     (RETRY_ATTEMPT_FLOOR <= left_after a /\
        exists n, retry_unconfirmed_cancel_within (left_after a) (retry_tries a) = RetryConfirmed n) \/
     spared (settle_env a) (self_pid a) = false).
Proof.
  intros Hk Hp Hr. unfold cancel_session_with_retries. rewrite (proj2 (Z.leb_gt _ _) Hr).
  destruct (first_try a) as [|chain] eqn:Ef; simpl.
  { rewrite mark_cancelled_pending by done. split; auto. }
  destruct (classify_cancel_error_exact chain) as (H1 & H2 & _).
  set (o := if left_after a <? RETRY_ATTEMPT_FLOOR then NeverAcknowledged 0
            else retry_unconfirmed_cancel_within (left_after a) (retry_tries a)).
  pose proof (settle_pending (settle_env a) (self_pid a) id o s Hk Hp) as Hs.
  assert ((match o with RetryConfirmed _ => False | _ => True end) <->
    ~ (RETRY_ATTEMPT_FLOOR <= left_after a /\
       exists n, retry_unconfirmed_cancel_within (left_after a) (retry_tries a) = RetryConfirmed n)) as Ho.
  { unfold o. destruct (left_after a <? RETRY_ATTEMPT_FLOOR) eqn:El; [split; [intros _ [Hle _]; apply Z.ltb_lt in El; lia|done]|apply Z.ltb_ge in El].
    destruct (retry_unconfirmed_cancel_within _ _); split; try done; try (intros _ [_ [n' Hn]]; done).
    intros H. apply H. split; [lia|eauto]. }
  destruct (classify_cancel_error chain) eqn:Ec; try done; simpl.
  - destruct (settle_unconfirmed_cancel (settle_env a) (self_pid a) id o s) as [[u s'] sg]. simpl in *. rewrite Hs.
    split.
    + intros Hsp. right. exists chain. split; [done|]. destruct o; [right; left|auto|auto].
      destruct (decide (RETRY_ATTEMPT_FLOOR <= left_after a)); [|exfalso; apply Ho; tauto].
      destruct (retry_unconfirmed_cancel_within _ _) eqn:Er; [eauto|..]; exfalso; apply Ho;
        intros [_ [m Hm]]; done.
    + intros [|(c & [= <-] & [|[Hc|Hsp]])]; try congruence.
      * destruct o; [done|..]; exfalso; by apply Ho.
      * by destruct o.
  - split; [|intros _].
    + intros _. right. exists chain. auto.
    + unfold is_pending, mark_unreachable. rewrite Hk. simpl.
      rewrite (bool_decide_eq_true_2 (session_key id ∈ {[session_key id]} ∪ _)) by set_solver.
      by rewrite andb_false_r.
Qed.

Definition spared_env : SettleEnv :=
  let t : Table := {[900 := mkProcess (Some (stat_line 900 "zeroclaw" ("S"%string :: sample_fields)))
    (Some 1000) None None 0]} in
  mkSettleEnv (Some (record_body (900, 81234) None)) t false alone_census t t t t t.
Definition silent_ask : AskEnv :=
  mkAskEnv CANCEL_SETTLE_BUDGET (Failed [None]) 0 (fun _ => Failed [None]) spared_env 1001 [].

Lemma ask_retires_iff_witness :
  is_pending (cancel_session_with_retries silent_ask "s1" no_sessions).1.2 "s1" = false <->
  first_try silent_ask = Acked \/
  exists chain, first_try silent_ask = Failed chain /\
    (classify_cancel_error chain = EngineUnreachable \/
     (RETRY_ATTEMPT_FLOOR <= left_after silent_ask /\
        exists n, retry_unconfirmed_cancel_within (left_after silent_ask) (retry_tries silent_ask) = RetryConfirmed n) \/
     spared (settle_env silent_ask) (self_pid silent_ask) = false).
Proof. apply ask_retires_iff; by vm_compute. Defined.

(** A session whose daemon was spared stays pending, and every pass of the
    phase asks it again, although a pass is documented to ask a session once
    and later passes to be for sessions minted meanwhile. *)
Lemma spared_session_asked_every_pass :
  (cancel_recorded_sessions_with_cleanup (fun _ => silent_ask) (fun _ => 0) CANCEL_SETTLE_BUDGET no_sessions).2
    = replicate 8 "s1"%string.
Proof. by vm_compute. Qed.

(** When the socket lost its listener during the retries and the recorded
    daemon was spared, the cleanup is reported as confirmed although the
    session is still pending. *)
Definition gone_ask : AskEnv :=
  mkAskEnv CANCEL_SETTLE_BUDGET (Failed [None]) ns_per_s (fun _ => Failed [Some NotFound]) spared_env 1001 [].
Lemma confirmed_while_pending :
  let r := cancel_recorded_sessions_with_cleanup (fun _ => gone_ask) (fun _ => 0) CANCEL_SETTLE_BUDGET no_sessions in
  r.1.2 = CleanupConfirmed /\ pending_in_order r.1.1 = ["s1"%string].
Proof. by vm_compute. Qed.

(** The two cancel paths report an unreachable engine differently: as a
    confirmed cleanup, and as nothing done. *)
Lemma unreachable_reported_twice :
  (cancel_session_with_retries (mkAskEnv 1 (Failed [Some NotFound]) 0 (fun _ => Acked) spared_env 1001 []) "s1"
     no_sessions).1.1 = CleanupConfirmed /\
  (cancel_one_blocking (ConnectFailed NotFound) "s1" no_sessions).1.1 = NothingToDo.
Proof. by vm_compute. Qed.
