(* ===== verification/Reaper.v ===== *)
(** The reaper of a run (reaper.rs): which processes it may select, how it
    signals them, and the rounds of its teardown.

    The process table changes under the reaper at every moment.  A run is
    given the table at each of its readings: [world n] is what the reading
    number [n] sees, and a reading after a wait has any later number.  A pidfd
    is pinned to the process itself, which [birth] tells apart from the next
    process with the same number. *)
From S2P Require Import Prelude Numbers Text ProcFs Daemon Cancel.
Local Open Scope Z_scope.

(** ** The plan *)

Abbreviation Path := (list string).

Record ReapPlan := mkReapPlan {
  roots : list Path;
  owned_roots : list Path;
  started_ticks : Z;
  preexisting : gmap Z Z;
  daemon_binary : option string
}.

(** [ReapPlan::new] on absolute paths: [boot] is the tick of now, [live] the
    processes at that moment, [scratch] the directory that was created. *)
Definition plan_roots (workspace temp : Path) (scratch : option Path) : list Path * list Path :=
  let workspace_is_shared_temp := path_starts_with temp workspace in
  let w := if negb (bool_decide (workspace = [])) && negb workspace_is_shared_temp then [workspace] else [] in
  (w ++ option_list scratch, option_list scratch).
Definition new_plan (workspace temp : Path) (scratch : option Path) (boot : option Z) (live : gmap Z Z)
    (binary : option string) : option ReapPlan :=
  started ← boot;
  let '(rs, owned) := plan_roots workspace temp scratch in
  match rs with
  | [] => None
  | _ => Some (mkReapPlan rs owned started live binary)
  end.

(** [scratch_root]: nothing is created in the root of the file system. *)
Definition scratch_root (temp : Path) (name : string) (created : bool) : option Path :=
  match temp with
  | [] => None
  | _ => if created then Some (temp ++ [name]) else None
  end.

Definition owns_cwd (plan : ReapPlan) (cwd : Path) : bool :=
  existsb (fun root => path_starts_with cwd root) (roots plan).

(** ** Selecting *)

Record Candidate := mkCandidate { c_pid : Z; c_comm : string; c_cwd : string; c_start : Z }.

(** What one reading sees: the table, the daemons this process spawned, the
    record of the daemon, and how paths resolve. *)
Record Reading := mkReading {
  w_table : Table;
  w_daemons : gmap Z Z;
  w_record : option string;
  w_canonical : string -> option string
}.

Definition same_file (w : Reading) (a b : string) : bool :=
  match w_canonical w a, w_canonical w b with
  | Some l, Some r => bool_decide (l = r)
  | _, _ => bool_decide (components a = components b)
  end.

Inductive DaemonExemption := Spawned | Recorded | Executable.

Definition daemon_exemption (w : Reading) (binary : option string) (pid : Z) : option DaemonExemption :=
  if spawned_daemon_still_matches (w_table w) (w_daemons w) pid then Some Spawned
  else
    let recorded := match w_record w ≫= read_daemon_record with
                    | Some (p, ticks) => (p =? pid) && bool_decide (live_start_ticks (w_table w) pid = Some ticks)
                    | None => false
                    end in
    if recorded then Some Recorded
    else match process_executable (w_table w) pid, binary with
         | Some exe, Some b => if same_file w exe b then Some Executable else None
         | _, _ => None
         end.

(** One entry of the table: the candidate it is, when it is one. *)
Definition select_entry (w : Reading) (plan : ReapPlan) (protected : gset Z) (uid pid : Z) : option Candidate :=
  let t := w_table w in
  if (pid <=? 1) || bool_decide (pid ∈ protected) then None
  else match daemon_exemption w (daemon_binary plan) pid with
  | Some _ => None
  | None =>
      stat ← read_stat t pid;
      if is_dead_state (state stat) then None
      else
        let same_as_at_open :=
          match preexisting plan !! pid with
          | Some seen => (seen =? ProcFs.start_ticks stat) && (seen <? started_ticks plan)
          | None => false
          end in
        if (ProcFs.start_ticks stat <? started_ticks plan) || same_as_at_open then None
        else if negb (bool_decide (proc_uid t pid = Some uid)) then None
        else
          cwd ← (p ← t !! pid; cwd_link p);
          let cwd := strip_deleted_suffix cwd in
          if owns_cwd plan (components cwd)
          then Some (mkCandidate pid (comm stat) cwd (ProcFs.start_ticks stat)) else None
  end.

Definition scan (w : Reading) (plan : ReapPlan) (self uid : Z) : list Candidate :=
  let protected := default ∅ (protected_pids (w_table w) self) in
  sort_by (fun a b => c_pid a ?= c_pid b)
    (omap (fun '(pid, _) => select_entry w plan protected uid pid) (map_to_list (w_table w))).

(** ** Signalling *)

Inductive Identity := Same | Recycled.

(** [confirm_identity]: the stat line, then the owner, in two readings. *)
Definition confirm_identity (stat_at uid_at : Table) (c : Candidate) (uid : Z) : Identity :=
  match read_stat stat_at (c_pid c) with
  | Some stat =>
      if ProcFs.start_ticks stat =? c_start c then
        if is_dead_state (state stat) || negb (bool_decide (proc_uid uid_at (c_pid c) = Some uid))
        then Recycled else Same
      else Recycled
  | None => Recycled
  end.

Record Target := mkTarget { candidate : Candidate; pin : option nat }.

(** A signal that was sent: at which reading, to which number, through which
    pinned process. *)
Record Sent := mkSent { sent_at : nat; sent_pid : Z; sent_pin : option nat; sent_signal : Signal }.

(** The process a signal reaches: a pinned signal reaches its process or
    nothing. *)
Definition victim (t : Table) (e : Sent) : option nat :=
  match birth <$> t !! sent_pid e with
  | Some b => match sent_pin e with
              | Some b' => if bool_decide (b = b') then Some b else None
              | None => Some b
              end
  | None => None
  end.

Record Reaped := mkReaped { r_pid : Z; r_comm : string; r_cwd : string; r_signal : Signal }.
Definition entry (c : Candidate) (sig : Signal) : Reaped := mkReaped (c_pid c) (c_comm c) (c_cwd c) sig.

Record ReapOutcome := mkOutcome { reaped : list Reaped; survivors : list Reaped; skipped : list Reaped }.
Definition quiet (o : ReapOutcome) : bool :=
  bool_decide (reaped o = []) && bool_decide (skipped o = []) && bool_decide (survivors o = []).
Definition signalled_new_work (o : ReapOutcome) : bool :=
  negb (bool_decide (reaped o = [])) || negb (bool_decide (survivors o = [])).

Section Reap.
Variable world : nat -> Reading.
(** Whether the kernel has pidfds, and when a wait that starts at a reading
    ends: it only passes time, everything is read again after it. *)
Variable pidfd : bool.
Variable after_wait : nat -> nat.
Variable plan : ReapPlan.
Variable self uid : Z.

Let table (n : nat) : Table := w_table (world n).

Definition pidfd_open (n : nat) (pid : Z) : option nat :=
  if pidfd then birth <$> table n !! pid else None.

Definition target_alive (n : nat) (g : Target) : bool :=
  match pin g with
  | Some b => bool_decide (birth <$> table n !! c_pid (candidate g) = Some b) &&
              alive (table (S n)) (c_pid (candidate g))
  | None => alive (table n) (c_pid (candidate g))
  end.

(** Pin first, then validate. *)
Fixpoint pin_targets (n : nat) (cs : list Candidate) : nat * list Target * list Reaped :=
  match cs with
  | [] => (n, [], [])
  | c :: cs =>
      let p := pidfd_open n (c_pid c) in
      let same := confirm_identity (table (n + 1)) (table (n + 2)) c uid in
      let '(n', gs, sk) := pin_targets (n + 3) cs in
      match same with
      | Same => (n', mkTarget c p :: gs, sk)
      | Recycled => (n', gs, entry c SigTerm :: sk)
      end
  end.

Fixpoint term_all (n : nat) (gs : list Target) : nat * list Sent :=
  match gs with
  | [] => (n, [])
  | g :: gs =>
      let '(n', es) := term_all (S n) gs in
      (n', mkSent n (c_pid (candidate g)) (pin g) SigTerm :: es)
  end.

(** What follows the grace: the target is gone, or it is killed. *)
Definition finish_target (n : nat) (g : Target) : nat * bool * Reaped * list Sent :=
  let c := candidate g in
  if negb (target_alive n g) ||
     match confirm_identity (table (n + 2)) (table (n + 3)) c uid with Same => false | Recycled => true end
  then (n + 4, true, entry c SigTerm, [])%nat
  else
    let n' := after_wait (n + 5) in
    (n' + 2, negb (target_alive n' g), entry c SigKill, [mkSent (n + 4) (c_pid c) (pin g) SigKill])%nat.

Fixpoint finish_all (n : nat) (gs : list Target) : nat * list Reaped * list Reaped * list Sent :=
  match gs with
  | [] => (n, [], [], [])
  | g :: gs =>
      let '(n, gone, record, es) := finish_target n g in
      let '(n, rs, sv, es') := finish_all n gs in
      if gone then (n, record :: rs, sv, es ++ es') else (n, rs, record :: sv, es ++ es')
  end.

Definition MAX_REAP_PASSES : nat := 8.

(** The candidates a pass has not seen, by number and start time. *)
Fixpoint filter_new (seen : list (Z * Z)) (cs : list Candidate) : list Candidate * list (Z * Z) :=
  match cs with
  | [] => ([], seen)
  | c :: cs =>
      let key := (c_pid c, c_start c) in
      if bool_decide (key ∈ seen) then filter_new seen cs
      else let '(new, seen) := filter_new (key :: seen) cs in (c :: new, seen)
  end.

Definition outcome_app (a b : ReapOutcome) : ReapOutcome :=
  mkOutcome (reaped a ++ reaped b) (survivors a ++ survivors b) (skipped a ++ skipped b).

Fixpoint reap_passes (passes : nat) (n : nat) (seen : list (Z * Z)) (o : ReapOutcome) (log : list Sent) :
    ReapOutcome * list Sent * nat :=
  match passes with
  | O => (o, log, n)
  | S passes =>
      let '(new, seen) := filter_new seen (scan (world n) plan self uid) in
      match new with
      | [] => (o, log, n)
      | _ =>
          let '(n, gs, sk) := pin_targets (S n) new in
          let o := outcome_app o (mkOutcome [] [] sk) in
          match gs with
          | [] => reap_passes passes n seen o log
          | _ =>
              let '(n, terms) := term_all n gs in
              let '(n, rs, sv, kills) := finish_all (after_wait n) gs in
              reap_passes passes (after_wait n) seen (outcome_app o (mkOutcome rs sv []))
                (log ++ terms ++ kills)
          end
      end
  end.
Definition reap (n : nat) : ReapOutcome * list Sent * nat :=
  reap_passes MAX_REAP_PASSES n [] (mkOutcome [] [] []) [].
End Reap.

(** ** The teardown

    What happens in one round: the frames of the blocking cancel, the reap,
    the sessions minted during either. *)
Record RoundEnv := mkRound {
  frames : nat -> BlockingTry;
  reap_outcome : ReapOutcome;
  minted_during : list string
}.

Record TeardownReport := mkReport {
  rounds : nat;
  unreachable_sessions : list string;
  producing_work : bool;
  exit_cleanup : ExitCleanup
}.

Definition MAX_TEARDOWN_ROUNDS : nat := 4.

Fixpoint teardown_from (env : nat -> RoundEnv) (round n : nat) (s : Sessions) (r : TeardownReport) :
    TeardownReport * Sessions :=
  match n with
  | O => (r, s)
  | S n =>
      let e := env round in
      let '(cleanup, s, unreach) := cancel_sessions_blocking (frames e) 0 (pending_sessions s) s in
      let s := fold_left (fun s m => note_session m s) (minted_during e) s in
      let last := (S round =? MAX_TEARDOWN_ROUNDS)%nat in
      let is_quiet := teardown_is_quiet (bool_decide (pending_sessions s = [])) (quiet (reap_outcome e))
                        (unreachable_session_count s) (unidentified_daemon_count s) in
      let r := mkReport (S (rounds r)) (unreachable_sessions r ++ unreach)
                 (if negb is_quiet && last then signalled_new_work (reap_outcome e) else producing_work r)
                 (if (rounds r =? 0)%nat then cleanup else exit_cleanup r) in
      if is_quiet then (r, s) else teardown_from env (S round) n s r
  end.
Definition teardown_rounds (env : nat -> RoundEnv) (s : Sessions) : TeardownReport * Sessions :=
  teardown_from env 0 MAX_TEARDOWN_ROUNDS s (mkReport 0 [] false NothingToDo).

(** ** Theorems: the plan and the selection *)

Lemma starts_with_take p root : path_starts_with p root = true <-> exists rest, p = root ++ rest.
Proof.
  unfold path_starts_with. rewrite bool_decide_eq_true. split.
  - intros H. exists (drop (length root) p). transitivity (take (length root) p ++ drop (length root) p); [by rewrite take_drop|by rewrite H].
  - intros [rest ->]. by rewrite take_app_length.
Qed.

(** The shared temporary directory is never in scope: no root of a plan is
    that directory or one above it, whatever workspace was asked for. *)
Theorem plan_spares_shared_temp (workspace temp : Path) (name : string) (created : bool)
    (boot : option Z) (live : gmap Z Z) (binary : option string) (plan : ReapPlan) :
  new_plan workspace temp (scratch_root temp name created) boot live binary = Some plan ->
  roots plan <> [] /\ owns_cwd plan temp = false /\
  forall root, root ∈ roots plan -> root <> [] /\ path_starts_with temp root = false.
Proof.
  unfold new_plan. destruct boot as [b|]; [|done]. cbn [mbind option_bind].
  set (sc := scratch_root temp name created).
  assert (forall root, root ∈ (plan_roots workspace temp sc).1 -> root <> [] /\ path_starts_with temp root = false) as Hr.
  { intros root. unfold plan_roots. simpl. rewrite elem_of_app. intros [Hw|Hs].
    - destruct (bool_decide (workspace = [])) eqn:Ew; simpl in Hw; [by apply not_elem_of_nil in Hw|].
      destruct (path_starts_with temp workspace) eqn:Et; simpl in Hw; [by apply not_elem_of_nil in Hw|].
      apply list_elem_of_singleton in Hw as ->. split; [|done]. by apply bool_decide_eq_false in Ew.
    - unfold sc, scratch_root in Hs. destruct temp as [|c temp]; [by apply not_elem_of_nil in Hs|].
      destruct created; [|by apply not_elem_of_nil in Hs]. apply list_elem_of_singleton in Hs as ->.
      split; [done|]. destruct (path_starts_with (c :: temp) ((c :: temp) ++ [name])) eqn:E; [|done].
      apply starts_with_take in E as [rest E]. apply (f_equal length) in E.
      rewrite !length_app in E. simpl in E. lia. }
  destruct (plan_roots workspace temp sc) as [rs owned]. simpl in Hr.
  destruct rs as [|r rs]; [done|]. intros [= <-]. cbn [roots]. split; [congruence|]. split; [|exact Hr].
  unfold owns_cwd. simpl roots. apply existsb_none. intros x Hx. by apply Hr.
Qed.

Lemma plan_spares_shared_temp_witness :
  let plan := mkReapPlan [["tmp"; "zoder-reap-1-2"]%string] [["tmp"; "zoder-reap-1-2"]%string] 500 ∅ None in
  roots plan <> [] /\ owns_cwd plan ["tmp"]%string = false /\
  forall root, root ∈ roots plan -> root <> [] /\ path_starts_with ["tmp"]%string root = false.
Proof.
  apply (plan_spares_shared_temp ["tmp"]%string ["tmp"]%string "zoder-reap-1-2" true (Some 500) ∅ None).
  vm_compute. reflexivity.
Defined.

(** What makes an entry of the table a candidate. *)
Record selectable (w : Reading) (plan : ReapPlan) (self uid : Z) (c : Candidate) : Prop := {
  sel_above_init : 1 < c_pid c;
  sel_not_ancestor : forall s, protected_pids (w_table w) self = Some s -> c_pid c ∉ s;
  sel_not_daemon : daemon_exemption w (daemon_binary plan) (c_pid c) = None;
  sel_stat : exists stat, read_stat (w_table w) (c_pid c) = Some stat /\ comm stat = c_comm c /\
    ProcFs.start_ticks stat = c_start c /\ is_dead_state (state stat) = false;
  sel_started : started_ticks plan <= c_start c;
  sel_owner : proc_uid (w_table w) (c_pid c) = Some uid;
  sel_cwd : exists p link, w_table w !! c_pid c = Some p /\ cwd_link p = Some link /\
    c_cwd c = strip_deleted_suffix link;
  sel_in_scope : owns_cwd plan (components (c_cwd c)) = true
}.

Lemma select_entry_Some w plan protected uid pid c :
  select_entry w plan protected uid pid = Some c <->
  c_pid c = pid /\ 1 < pid /\ (pid ∉ protected) /\ daemon_exemption w (daemon_binary plan) pid = None /\
  (exists stat, read_stat (w_table w) pid = Some stat /\ comm stat = c_comm c /\
     ProcFs.start_ticks stat = c_start c /\ is_dead_state (state stat) = false) /\
  started_ticks plan <= c_start c /\ proc_uid (w_table w) pid = Some uid /\
  (exists p link, w_table w !! pid = Some p /\ cwd_link p = Some link /\ c_cwd c = strip_deleted_suffix link) /\
  owns_cwd plan (components (c_cwd c)) = true.
Proof.
  unfold select_entry. destruct (pid <=? 1) eqn:Ep; simpl; [split; [done|intros (_ & H & _); lia]|].
  case_bool_decide as Epr; [split; [done|tauto]|].
  destruct (daemon_exemption w (daemon_binary plan) pid) eqn:Ee; [split; [done|intros H; by destruct H as (_&_&_&?&_)]|].
  destruct (read_stat (w_table w) pid) as [stat|] eqn:Es; simpl.
  2: { split; [done|]. intros (_&_&_&_&(st & Hst & _)&_). congruence. }
  destruct (is_dead_state (state stat)) eqn:Ed.
  { split; [done|]. intros (_&_&_&_&(st & Hst & _ & _ & Hd)&_). congruence. }
  assert ((match preexisting plan !! pid with
           | Some seen => (seen =? ProcFs.start_ticks stat) && (seen <? started_ticks plan)
           | None => false end) = true -> ProcFs.start_ticks stat < started_ticks plan) as Hpre.
  { destruct (preexisting plan !! pid); [|done]. intros [? ?]%andb_true_iff. lia. }
  destruct (_ || _) eqn:Eo.
  { split; [done|]. intros (_&_&_&_&(st & Hst & _ & Hs & _)&Hge&_). simplify_eq.
    apply orb_true_iff in Eo as [H|H%Hpre]; rewrite Hs in *; lia. }
  apply orb_false_iff in Eo as [Hlt _]. apply Z.ltb_ge in Hlt.
  case_bool_decide as Eu; simpl; [|split; [done|intros (_&_&_&_&_&_&?&_); congruence]].
  destruct (w_table w !! pid) as [p|] eqn:Et; simpl.
  2: { split; [done|]. intros (_&_&_&_&_&_&_&(p & l & ? & _)&_). congruence. }
  destruct (cwd_link p) as [link|] eqn:El; simpl.
  2: { split; [done|]. intros (_&_&_&_&_&_&_&(p' & l & ? & ? & _)&_). congruence. }
  destruct (owns_cwd plan (components (strip_deleted_suffix link))) eqn:Ec.
  - split.
    + intros [= <-]. simpl. split_and!; eauto; lia.
    + intros (<- & _ & _ & _ & (st & Hst & Hc & Hs & _) & _ & _ & (p' & l & Hp & Hl & Hcwd) & _).
      simplify_eq. destruct c; simpl in *. by subst.
  - split; [done|]. intros (_&_&_&_&_&_&_&(p' & l & Hp & Hl & Hcwd)&Ho). simplify_eq. rewrite Hcwd in Ho. congruence.
Qed.

(** The scan selects exactly the processes the reaper may kill: above
    init, neither this process nor an ancestor of it, not the shared daemon by
    any of its three identities, able to run, started no earlier than the run,
    of the same user, and with a working directory inside a root of the plan. *)
Theorem scan_selects_iff (w : Reading) (plan : ReapPlan) (self uid : Z) (c : Candidate) :
  c ∈ scan w plan self uid <-> selectable w plan self uid c.
Proof.
  unfold scan. rewrite elem_of_sort_by, list_elem_of_omap.
  destruct (protected_pids_total (w_table w) self) as (s & Hs & _). rewrite Hs. simpl. split.
  - intros ([pid p] & Hin & Hsel). apply select_entry_Some in Hsel as (<- & H1 & H2 & H3 & H4 & H5 & H6 & H7 & H8).
    split; auto. intros s' Hs'. congruence.
  - intros [H1 H2 H3 H4 H5 H6 H7 H8]. destruct H7 as (p & l & Hp & Hl & Hc).
    exists (c_pid c, p). split; [by apply elem_of_map_to_list|]. apply select_entry_Some.
    split_and!; eauto.
Qed.

(** The snapshot of the processes that existed when the run began is
    documented to settle the boundary tick exactly; the selection does not
    depend on it at all. *)
Lemma preexisting_irrelevant w rs owned started pre pre' binary self uid c :
  c ∈ scan w (mkReapPlan rs owned started pre binary) self uid <->
  c ∈ scan w (mkReapPlan rs owned started pre' binary) self uid.
Proof.
  assert (forall p q, selectable w (mkReapPlan rs owned started p binary) self uid c ->
    selectable w (mkReapPlan rs owned started q binary) self uid c) as H.
  { intros p q []. by split. }
  split; intros Hc; apply scan_selects_iff; apply scan_selects_iff in Hc; by eapply H.
Qed.

(** ** Theorems: the signals *)
Section ReapTheorems.
Context (world : nat -> Reading) (pidfd : bool) (after_wait : nat -> nat) (plan : ReapPlan) (self uid : Z).
Hypothesis wait_forward : forall n, (n <= after_wait n)%nat.

Let table (n : nat) : Table := w_table (world n).

(** What stands behind a signal: the scan that selected its candidate at
    [n0], the pin at [n2], the confirmation at [n1]. *)
Definition justified (e : Sent) : Prop :=
  exists c n0 n1, c ∈ scan (world n0) plan self uid /\ (n0 < n1 <= sent_at e)%nat /\
    sent_pid e = c_pid c /\ confirm_identity (table n1) (table (S n1)) c uid = Same /\
    (sent_signal e = SigKill -> (n1 + 2 = sent_at e)%nat) /\
    forall b, sent_pin e = Some b ->
      exists n2, (n0 < n2 < n1)%nat /\ birth <$> table n2 !! c_pid c = Some b.

(** A target that was selected at [n0], pinned and confirmed before [n]. *)
Definition confirmed_target (n0 n : nat) (g : Target) : Prop :=
  candidate g ∈ scan (world n0) plan self uid /\
  exists n1, (n0 < n1 < n)%nat /\ confirm_identity (table n1) (table (S n1)) (candidate g) uid = Same /\
    forall b, pin g = Some b ->
      exists n2, (n0 < n2 < n1)%nat /\ birth <$> table n2 !! c_pid (candidate g) = Some b.

Lemma confirmed_later n0 n m g : confirmed_target n0 n g -> (n <= m)%nat -> confirmed_target n0 m g.
Proof. intros [Hs (n1 & Hn & H)] Hm. split; [done|]. exists n1. split; [lia|done]. Qed.

Lemma pin_targets_confirmed n0 n cs n' gs sk :
  pin_targets world pidfd uid n cs = (n', gs, sk) -> (n0 < n)%nat ->
  (forall c, c ∈ cs -> c ∈ scan (world n0) plan self uid) ->
  (n <= n')%nat /\ (forall g, g ∈ gs -> confirmed_target n0 n' g) /\ length cs = (length gs + length sk)%nat.
Proof.
  revert n n' gs sk. induction cs as [|c cs IH]; intros n n' gs sk; simpl.
  { intros [= <- <- <-] _ _. split_and!; [lia|intros g Hg; by apply not_elem_of_nil in Hg|done]. }
  destruct (pin_targets world pidfd uid (n + 3) cs) as [[m hs] ss] eqn:E.
  intros Heq Hn Hcs. destruct (IH _ _ _ _ E ltac:(lia)) as (Hle & Hconf & Hlen).
  { intros c' Hc'. apply Hcs. by right. }
  destruct (confirm_identity _ _ c uid) eqn:Ec; simplify_eq; simpl; split_and!; try lia.
  - intros g [->|Hg]%elem_of_cons; [|by apply Hconf]. split; [apply Hcs; left|]. simpl.
    exists (n + 1)%nat. split; [lia|]. split.
    { by replace (S (n + 1)) with (n + 2)%nat by lia. }
    intros b Hb. exists n. split; [lia|]. unfold pidfd_open in Hb. by destruct pidfd.
  - exact Hconf.
Qed.

Lemma term_all_justified n0 n gs n' es :
  term_all n gs = (n', es) -> (forall g, g ∈ gs -> confirmed_target n0 n g) ->
  (n <= n')%nat /\ forall e, e ∈ es -> justified e.
Proof.
  revert n n' es. induction gs as [|g gs IH]; intros n n' es; simpl.
  { intros [= <- <-] _. split; [lia|]. intros e He. by apply not_elem_of_nil in He. }
  destruct (term_all (S n) gs) as [m fs] eqn:E. intros [= <- <-] Hg.
  destruct (IH _ _ _ E) as [Hle Hj].
  { intros g' Hg'. eapply confirmed_later; [apply Hg; by right|lia]. }
  split; [lia|]. intros e [->|He]%elem_of_cons; [|by apply Hj].
  destruct (Hg g ltac:(left)) as [Hs (n1 & Hn & Hc & Hp)].
  exists (candidate g), n0, n1. simpl. split_and!; [done|lia|lia|done|done|done|done].
Qed.

Lemma finish_target_justified n0 n g n' gone record es :
  finish_target world after_wait uid n g = (n', gone, record, es) -> confirmed_target n0 n g ->
  (n <= n')%nat /\ forall e, e ∈ es -> justified e.
Proof.
  unfold finish_target. intros Heq [Hs (n1 & Hn & Hc & Hp)].
  destruct (negb (target_alive world n g)); simpl in Heq.
  { simplify_eq. split; [lia|]. intros e He. by apply not_elem_of_nil in He. }
  destruct (confirm_identity _ _ (candidate g) uid) eqn:Ec; simplify_eq.
  - pose proof (wait_forward (n + 5)). split; [lia|].
    intros e He%list_elem_of_singleton. subst e. exists (candidate g), n0, (n + 2)%nat. simpl.
    split_and!; [done|lia|lia|done| |lia|].
    { by replace (S (n + 2)) with (n + 3)%nat by lia. }
    intros b Hb. destruct (Hp b Hb) as (n2 & ? & ?). exists n2. split; [lia|done].
  - split; [lia|]. intros e He. by apply not_elem_of_nil in He.
Qed.

Lemma finish_all_justified n0 n gs n' rs sv es :
  finish_all world after_wait uid n gs = (n', rs, sv, es) -> (forall g, g ∈ gs -> confirmed_target n0 n g) ->
  (n <= n')%nat /\ (forall e, e ∈ es -> justified e) /\ length gs = (length rs + length sv)%nat.
Proof.
  revert n n' rs sv es. induction gs as [|g gs IH]; intros n n' rs sv es; simpl.
  { intros [= <- <- <- <-] _. split_and!; [lia|intros e He; by apply not_elem_of_nil in He|done]. }
  destruct (finish_target world after_wait uid n g) as [[[m gone] record] es1] eqn:E1.
  destruct (finish_all world after_wait uid m gs) as [[[m' rs1] sv1] es2] eqn:E2.
  intros Heq Hg. destruct (finish_target_justified n0 _ _ _ _ _ _ E1 (Hg g ltac:(left))) as [Hle Hj].
  destruct (IH _ _ _ _ _ E2) as (Hle' & Hj' & Hlen).
  { intros g' Hg'. eapply confirmed_later; [apply Hg; by right|lia]. }
  assert (forall e, e ∈ es1 ++ es2 -> justified e) by (intros e [|]%elem_of_app; auto).
  destruct gone; simplify_eq; simpl; split_and!; try done; lia.
Qed.

Lemma filter_new_sub seen cs new seen' :
  filter_new seen cs = (new, seen') -> forall c, c ∈ new -> c ∈ cs.
Proof.
  revert seen new seen'. induction cs as [|c cs IH]; intros seen new seen'; simpl; [by intros [= <- <-]|].
  case_bool_decide; [intros H' d Hd; right; by eapply IH|].
  destruct (filter_new _ cs) as [new1 seen1] eqn:E. intros [= <- <-] d [->|Hd]%elem_of_cons; [left|].
  right. by eapply IH.
Qed.

Lemma reap_passes_justified passes n seen o log o' log' n' :
  reap_passes world pidfd after_wait plan self uid passes n seen o log = (o', log', n') ->
  (forall e, e ∈ log -> justified e) -> forall e, e ∈ log' -> justified e.
Proof.
  revert n seen o log. induction passes as [|passes IH]; intros n seen o log; simpl; [by intros [= <- <- <-]|].
  destruct (filter_new seen _) as [new seen1] eqn:Ef.
  destruct new as [|c new]; [by intros [= <- <- <-]|].
  destruct (pin_targets world pidfd uid (S n) (c :: new)) as [[n1 gs] sk] eqn:Ep.
  destruct (pin_targets_confirmed n _ _ _ _ _ Ep ltac:(lia)) as (Hle & Hconf & _).
  { by eapply filter_new_sub. }
  destruct gs as [|g gs]; [apply IH|].
  destruct (term_all n1 (g :: gs)) as [n2 terms] eqn:Et.
  destruct (finish_all world after_wait uid (after_wait n2) (g :: gs)) as [[[n3 rs] sv] kills] eqn:Ek.
  intros Heq Hlog. eapply IH; [exact Heq|].
  destruct (term_all_justified n _ _ _ _ Et Hconf) as [Hle2 Hj2].
  destruct (finish_all_justified n _ _ _ _ _ _ Ek) as (_ & Hj3 & _).
  { intros g' Hg'. eapply confirmed_later; [by apply Hconf|]. pose proof (wait_forward n2). lia. }
  intros e. rewrite !elem_of_app. intros [|[|]]; auto.
Qed.
End ReapTheorems.

(** C23: no signal without proof.  Every signal a reap sends, in any pass and
    however the process table changes meanwhile, goes to the number of a
    process that a scan of this reap selected; between the scan and the signal
    that number was confirmed to belong to a running process of the user with
    the selected start time, immediately before for SIGKILL; and a pinned
    signal is pinned to the process that held the number between the two. *)
Theorem reap_signals_justified (world : nat -> Reading) (pidfd : bool) (after_wait : nat -> nat)
    (plan : ReapPlan) (self uid : Z) (n : nat) (e : Sent) :
  (forall k, (k <= after_wait k)%nat) ->
  e ∈ (reap world pidfd after_wait plan self uid n).1.2 ->
  justified world plan self uid e.
Proof.
  intros Hw He. unfold reap in He.
  destruct (reap_passes world pidfd after_wait plan self uid MAX_REAP_PASSES n [] _ []) as [[o log] n'] eqn:E.
  eapply (reap_passes_justified world pidfd after_wait plan self uid Hw); [exact E| |exact He].
  intros e' He'. by apply not_elem_of_nil in He'.
Qed.

(** The rules of the kernel that the reaper relies on, for the readings of a
    run: a process keeps its number while it lives, its start time does not
    change, and no two processes share a number and a start time. *)
Record kernel_ok (world : nat -> Reading) : Prop := {
  ko_continuous : forall p b i j k, (i <= k <= j)%nat ->
    birth <$> w_table (world i) !! p = Some b -> birth <$> w_table (world j) !! p = Some b ->
    birth <$> w_table (world k) !! p = Some b;
  ko_identity : forall p i j s s' b b',
    read_stat (w_table (world i)) p = Some s -> read_stat (w_table (world j)) p = Some s' ->
    birth <$> w_table (world i) !! p = Some b -> birth <$> w_table (world j) !! p = Some b' ->
    ProcFs.start_ticks s = ProcFs.start_ticks s' -> b = b'
}.

(** With pidfds the reaper kills nobody else.  A pinned signal that
    reaches a process reaches the very process that a scan of this reap
    selected, although numbers may be recycled at any moment. *)
Theorem pinned_signals_hit_selected (world : nat -> Reading) (after_wait : nat -> nat)
    (plan : ReapPlan) (self uid : Z) (n : nat) (e : Sent) (b v : nat) :
  (forall k, (k <= after_wait k)%nat) -> kernel_ok world ->
  e ∈ (reap world true after_wait plan self uid n).1.2 -> sent_pin e = Some b ->
  victim (w_table (world (sent_at e))) e = Some v ->
  exists c n0, (n0 < sent_at e)%nat /\ selectable (world n0) plan self uid c /\ sent_pid e = c_pid c /\
    birth <$> w_table (world n0) !! c_pid c = Some v.
Proof.
  intros Hw [Hcont Hid] He Hpin Hv.
  destruct (reap_signals_justified world true after_wait plan self uid n e Hw He)
    as (c & n0 & n1 & Hscan & Hn & Hpid & Hconf & _ & Hp).
  destruct (Hp b Hpin) as (n2 & Hn2 & Hb2). unfold victim in Hv.
  destruct (birth <$> w_table (world (sent_at e)) !! sent_pid e) as [b'|] eqn:Eb; [|done].
  rewrite Hpin in Hv. case_bool_decide; [|done]. simplify_eq.
  rewrite Hpid in Eb.
  assert (birth <$> w_table (world n1) !! c_pid c = Some v) as Hb1 by (eapply (Hcont _ _ n2 (sent_at e)); [lia|done..]).
  apply scan_selects_iff in Hscan. exists c, n0. split_and!; [lia|done|done|].
  destruct (sel_stat _ _ _ _ _ Hscan) as (stat & Hstat & _ & Hstart & _).
  destruct (sel_cwd _ _ _ _ _ Hscan) as (p & _ & Hproc & _). rewrite Hproc. simpl.
  unfold confirm_identity in Hconf.
  destruct (read_stat (w_table (world n1)) (c_pid c)) as [stat1|] eqn:E1; [|done].
  destruct (ProcFs.start_ticks stat1 =? c_start c) eqn:Es; [|done].
  f_equal. eapply (Hid (c_pid c) n0 n1 stat stat1); [done|done|by rewrite Hproc|done|lia].
Qed.

(** An agent's child in the workspace that ignores signals, the run itself,
    and a shell that is older than the run. *)
Definition child_fields (start : string) : list string :=
  ["S"; "700"; "1"; "1"; "0"; "-1"; "4194304"; "100"; "0"; "0"; "0"; "0"; "0"; "0"; "0"; "20"; "0"; "1"; "0"]
    ++ [start; "0"].
Definition reap_table : Table :=
  {[700 := mkProcess (Some (stat_line 700 "zoder" (child_fields "60000"))) (Some 1000) (Some "/home/u/ws"%string) None 1;
    800 := mkProcess (Some (stat_line 800 "sh" (child_fields "100"))) (Some 1000) (Some "/home/u/ws"%string) None 2;
    900 := mkProcess (Some (stat_line 900 "worker) R" (child_fields "81234"))) (Some 1000)
             (Some "/home/u/ws/target (deleted)"%string) None 3]}.
Definition reap_world (_ : nat) : Reading := mkReading reap_table ∅ None (fun _ => None).
Definition reap_plan : ReapPlan := mkReapPlan [["home"; "u"; "ws"]%string] [] 70000 ∅ None.

Example reap_example :
  map c_pid (scan (reap_world 0) reap_plan 700 1000) = [900] /\
  map (fun e => (sent_pid e, sent_pin e, sent_signal e)) (reap reap_world true S reap_plan 700 1000 0).1.2
    = [(900, Some 3%nat, SigTerm); (900, Some 3%nat, SigKill)] /\
  map r_pid (survivors (reap reap_world true S reap_plan 700 1000 0).1.1) = [900].
Proof. by vm_compute. Qed.

Definition first_sent : Sent := mkSent 4 900 (Some 3%nat) SigTerm.
Lemma first_sent_in : first_sent ∈ (reap reap_world true S reap_plan 700 1000 0).1.2.
Proof. vm_compute. left. Qed.

Lemma reap_signals_justified_witness : justified reap_world reap_plan 700 1000 first_sent.
Proof.
  apply (reap_signals_justified reap_world true S reap_plan 700 1000 0 first_sent); [lia|apply first_sent_in].
Defined.

Lemma pinned_signals_hit_selected_witness :
  exists c n0, (n0 < 4)%nat /\ selectable (reap_world n0) reap_plan 700 1000 c /\ 900 = c_pid c /\
    birth <$> w_table (reap_world n0) !! c_pid c = Some 3%nat.
Proof.
  apply (pinned_signals_hit_selected reap_world S reap_plan 700 1000 0 first_sent 3 3);
    [lia| |apply first_sent_in|done|by vm_compute].
  split; [done|]. unfold reap_world. simpl. intros p _ _ s s' b b' H1 H2 H3 H4 _. congruence.
Defined.

(** Without pidfds the check is only next to the signal: a number recycled in
    between is signalled on behalf of its former owner. *)
Definition racing_world (n : nat) : Reading :=
  if (n <? 4)%nat then reap_world n
  else mkReading (<[900 := mkProcess (Some (stat_line 900 "editor" (child_fields "90000"))) (Some 1000)
                          (Some "/home/u/other"%string) None 4]> reap_table) ∅ None (fun _ => None).
Lemma unpinned_signal_hits_stranger :
  let log pidfd := (reap racing_world pidfd S reap_plan 700 1000 0).1.2 in
  map (fun e => victim (w_table (racing_world (sent_at e))) e) (log false) = [Some 4%nat] /\
  map (fun e => victim (w_table (racing_world (sent_at e))) e) (log true) = [None].
Proof. by vm_compute. Qed.

(** ** Theorems: outcomes and rounds *)

Lemma outcome_app_quiet a b : quiet (outcome_app a b) = true -> quiet a = true /\ quiet b = true.
Proof.
  destruct a as [r1 v1 s1], b as [r2 v2 s2]. unfold quiet, outcome_app. simpl.
  rewrite !andb_true_iff, !bool_decide_eq_true. intros [[[??]%app_nil [??]%app_nil] [??]%app_nil].
  by subst.
Qed.

Lemma quiet_lengths o : quiet o = true -> (length (reaped o) + length (survivors o) + length (skipped o) = 0)%nat.
Proof.
  destruct o as [r v s]. unfold quiet. simpl. rewrite !andb_true_iff, !bool_decide_eq_true.
  intros [[-> ->] ->]. done.
Qed.

Lemma reap_passes_quiet world pidfd after_wait plan self uid passes n seen o log o' log' n' :
  (forall k, (k <= after_wait k)%nat) ->
  reap_passes world pidfd after_wait plan self uid passes n seen o log = (o', log', n') ->
  quiet o' = true ->
  quiet o = true /\ log' = log /\ (passes = 0%nat \/ (filter_new seen (scan (world n) plan self uid)).1 = []).
Proof.
  intros Hw. revert n seen o log. induction passes as [|passes IH]; intros n seen o log; simpl.
  { intros [= <- <- <-]. auto. }
  destruct (filter_new seen _) as [new seen1] eqn:Ef.
  destruct new as [|c new]; [intros [= <- <- <-]; auto|].
  destruct (pin_targets world pidfd uid (S n) (c :: new)) as [[n1 gs] sk] eqn:Ep.
  destruct (pin_targets_confirmed world pidfd plan self uid n _ _ _ _ _ Ep ltac:(lia)) as (_ & Hconf & Hlen).
  { by eapply filter_new_sub. }
  destruct gs as [|g gs]; intros Heq Hq.
  - destruct (IH _ _ _ _ Heq Hq) as [[_ Hsk]%outcome_app_quiet _].
    apply quiet_lengths in Hsk. simpl in *. lia.
  - destruct (term_all n1 (g :: gs)) as [n2 terms] eqn:Et.
    destruct (finish_all world after_wait uid (after_wait n2) (g :: gs)) as [[[n3 rs] sv] kills] eqn:Ek.
    destruct (IH _ _ _ _ Heq Hq) as [[_ Hrs]%outcome_app_quiet _].
    destruct (term_all_justified world plan self uid n _ _ _ _ Et Hconf) as [Hle2 _].
    destruct (finish_all_justified world after_wait plan self uid Hw n _ _ _ _ _ _ Ek) as (_ & _ & Hl).
    { intros g' Hg'. eapply confirmed_later; [by apply Hconf|]. pose proof (Hw n2). lia. }
    apply quiet_lengths in Hrs. simpl in *. lia.
Qed.

(** A reap that reports nothing did nothing and had nothing to do: it is
    quiet exactly when its first scan selects no process, and then no signal
    was sent. *)
Theorem reap_quiet_iff (world : nat -> Reading) (pidfd : bool) (after_wait : nat -> nat)
    (plan : ReapPlan) (self uid : Z) (n : nat) :
  (forall k, (k <= after_wait k)%nat) ->
  let '(o, log, _) := reap world pidfd after_wait plan self uid n in
  (quiet o = true <-> scan (world n) plan self uid = []) /\ (quiet o = true -> log = []).
Proof.
  intros Hw. destruct (reap world pidfd after_wait plan self uid n) as [[o log] n'] eqn:E.
  unfold reap in E. split.
  - split.
    + intros Hq. apply (reap_passes_quiet _ _ _ _ _ _ _ _ _ _ _ _ _ _ Hw) in E as (_ & _ & [|Hf]); [done| |done].
      destruct (scan (world n) plan self uid) as [|c cs]; [done|exfalso]. revert Hf. cbn [filter_new].
      rewrite bool_decide_eq_false_2 by apply not_elem_of_nil. by destruct (filter_new _ cs).
    + intros Hs. unfold MAX_REAP_PASSES in E. cbn [reap_passes] in E. rewrite Hs in E. simpl in E. by simplify_eq.
  - intros Hq. by apply (reap_passes_quiet _ _ _ _ _ _ _ _ _ _ _ _ _ _ Hw) in E as (_ & -> & _).
Qed.

Lemma reap_quiet_iff_witness :
  let '(o, log, _) := reap reap_world true S reap_plan 700 1000 0 in
  (quiet o = true <-> scan (reap_world 0) reap_plan 700 1000 = []) /\ (quiet o = true -> log = []).
Proof. apply (reap_quiet_iff reap_world true S reap_plan 700 1000 0). lia. Defined.

(** The sessions after [k] rounds, and what each round's cancel came to. *)
Fixpoint sessions_after (env : nat -> RoundEnv) (k : nat) (s : Sessions) : Sessions :=
  match k with
  | O => s
  | S k =>
      let s := sessions_after env k s in
      let s := (cancel_sessions_blocking (frames (env k)) 0 (pending_sessions s) s).1.2 in
      fold_left (fun s m => note_session m s) (minted_during (env k)) s
  end.

(** Round [k] may end the teardown: nothing is pending after it, its reap was
    quiet, and no session is left whose stop was not proved. *)
Definition round_quiet (env : nat -> RoundEnv) (k : nat) (s : Sessions) : bool :=
  let s := sessions_after env (S k) s in
  teardown_is_quiet (bool_decide (pending_sessions s = [])) (quiet (reap_outcome (env k)))
    (unreachable_session_count s) (unidentified_daemon_count s).

Lemma teardown_from_spec env round n s r :
  exists k, (k <= n)%nat /\
    (teardown_from env round n (sessions_after env round s) r).2 = sessions_after env (round + k) s /\
    rounds (teardown_from env round n (sessions_after env round s) r).1 = (rounds r + k)%nat /\
    (forall j, (j < k)%nat -> (j + 1 < k)%nat \/ k = n \/ round_quiet env (round + j) s = true) /\
    (forall j, (j + 1 < k)%nat -> round_quiet env (round + j) s = false) /\
    (k = n \/ (0 < k)%nat) /\
    ((0 < rounds r)%nat ->
      exit_cleanup (teardown_from env round n (sessions_after env round s) r).1 = exit_cleanup r).
Proof.
  revert round r. induction n as [|n IH]; intros round r.
  { exists 0%nat. simpl. rewrite !Nat.add_0_r. split_and!; auto; lia. }
  cbn [teardown_from].
  destruct (cancel_sessions_blocking (frames (env round)) 0 (pending_sessions (sessions_after env round s))
              (sessions_after env round s)) as [[cl s1] un] eqn:Ec.
  set (s2 := fold_left (fun s m => note_session m s) (minted_during (env round)) s1).
  assert (sessions_after env (S round) s = s2) as Hs2 by (simpl; by rewrite Ec).
  set (q := teardown_is_quiet _ _ _ _).
  assert (round_quiet env round s = q) as Hq by (unfold round_quiet, q; by rewrite Hs2).
  set (r' := mkReport _ _ _ _).
  assert ((0 < rounds r)%nat -> exit_cleanup r' = exit_cleanup r) as Hexit.
  { intros H. unfold r'. simpl. destruct (rounds r); [lia|done]. }
  destruct q eqn:Eq.
  - exists 1%nat. replace (round + 1)%nat with (S round) by lia. rewrite Hs2.
    split_and!; [lia|done|simpl; lia| |intros j; lia|by right; lia|done].
    intros j Hj. right. right. replace j with 0%nat by lia. by rewrite Nat.add_0_r.
  - destruct (IH (S round) r') as (k & Hk & H1 & H2 & H3 & H4 & H5 & H6). rewrite Hs2 in H1, H2, H6.
    exists (S k). replace (round + S k)%nat with (S round + k)%nat by lia.
    split_and!; [lia|done|rewrite H2; simpl; lia| | |by right; lia|].
    + intros [|j] Hj; [destruct H5 as [Hkn|]; [right; left; lia|left; lia]|].
      destruct (H3 j ltac:(lia)) as [|[->|H]]; [left; lia|right; by left|right; right].
      by replace (round + S j)%nat with (S round + j)%nat by lia.
    + intros [|j] Hj; [by rewrite Nat.add_0_r|].
      replace (round + S j)%nat with (S round + j)%nat by lia. apply H4. lia.
    + intros H. rewrite H6 by (simpl; lia). by apply Hexit.
Qed.

(** The teardown ends within four rounds, and never claims quiet too
    early: it stops before the fourth round only when that round left nothing
    pending, reaped nothing, and no session is left that could not be reached
    or whose daemon could not be identified; no earlier round qualified.  What
    it reports of the cancel is the first round's. *)
Theorem teardown_bounded (env : nat -> RoundEnv) (s : Sessions) :
  let '(r, s') := teardown_rounds env s in
  (1 <= rounds r <= MAX_TEARDOWN_ROUNDS)%nat /\ s' = sessions_after env (rounds r) s /\
  ((rounds r < MAX_TEARDOWN_ROUNDS)%nat -> round_quiet env (rounds r - 1) s = true) /\
  (forall j, (j + 1 < rounds r)%nat -> round_quiet env j s = false) /\
  exit_cleanup r = (cancel_sessions_blocking (frames (env 0%nat)) 0 (pending_sessions s) s).1.1.
Proof.
  unfold teardown_rounds.
  destruct (teardown_from_spec env 0 MAX_TEARDOWN_ROUNDS s (mkReport 0 [] false NothingToDo))
    as (k & Hk & H1 & H2 & H3 & H4 & H5 & _). simpl sessions_after in *.
  assert (exit_cleanup (teardown_from env 0 MAX_TEARDOWN_ROUNDS s (mkReport 0 [] false NothingToDo)).1
    = (cancel_sessions_blocking (frames (env 0%nat)) 0 (pending_sessions s) s).1.1) as He.
  { unfold MAX_TEARDOWN_ROUNDS. cbn [teardown_from].
    destruct (cancel_sessions_blocking (frames (env 0%nat)) 0 (pending_sessions s) s) as [[cl s1] un] eqn:Ec.
    set (r' := mkReport _ _ _ _). set (s2 := fold_left _ _ s1).
    assert (sessions_after env 1 s = s2) as Hs2 by (simpl; by rewrite Ec).
    destruct (teardown_is_quiet _ _ _ _); [done|].
    destruct (teardown_from_spec env 1 3 s r') as (k' & _ & _ & _ & _ & _ & _ & H).
    rewrite Hs2 in H. cbn [teardown_from] in H. rewrite H by (simpl; lia). done. }
  destruct (teardown_from env 0 MAX_TEARDOWN_ROUNDS s (mkReport 0 [] false NothingToDo)) as [r s'].
  simpl in *. rewrite H2, He. unfold MAX_TEARDOWN_ROUNDS in *. split_and!; try done; try lia.
  - intros Hlt. destruct (H3 (k - 1)%nat ltac:(lia)) as [|[|]]; [lia|lia|done].
Qed.
