(* ===== verification/Jobs.v ===== *)
(** Background jobs (jobs.rs, the job registry of agentic.rs): ages and their
    syntax, liveness, the metadata of a job through its life, listing and
    pruning.  The writers of a job's metadata take no lock: a write truncates
    the file and writes into it, and the steps of several writers interleave.

    An instant and a [chrono::Duration] are nanoseconds.  The answer of
    [kill], the sizes and the removals of the file system are arguments. *)
From S2P Require Import Prelude Numbers Text.
Local Open Scope Z_scope.

(** ** Durations *)

(** [chrono::Duration::seconds] and its siblings panic outside this range. *)
Definition CHRONO_MAX_SECS : Z := I64_MAX / 1000.

Inductive DurationError := EmptyDuration | MissingUnit | NotAnInteger | NotPositive | UnknownUnit (unit : string).
Inductive DurationResult := DurationOk (d : Z) | DurationErr (e : DurationError) | DurationPanic.

(** [s.split_at] at the first character that is not a digit. *)
Fixpoint split_digits (s : string) : string * string :=
  match s with
  | EmptyString => (EmptyString, EmptyString)
  | String c r => match digit_value c with
                  | Some _ => let '(a, b) := split_digits r in (String c a, b)
                  | None => (EmptyString, s)
                  end
  end.

Definition unit_secs (unit : string) : option Z :=
  if bool_decide (unit = "s"%string) then Some 1
  else if bool_decide (unit = "m"%string) then Some 60
  else if bool_decide (unit = "h"%string) then Some 3600
  else if bool_decide (unit = "d"%string) then Some 86400
  else None.

Definition parse_duration (s : string) : DurationResult :=
  let s := trim s in
  if str_is_empty s then DurationErr EmptyDuration
  else
    let '(num, unit) := split_digits s in
    if str_is_empty unit then DurationErr MissingUnit
    else match parse_i64_std num with
    | None => DurationErr NotAnInteger
    | Some n =>
        if n <=? 0 then DurationErr NotPositive
        else match unit_secs unit with
        | None => DurationErr (UnknownUnit unit)
        | Some k => if n * k <=? CHRONO_MAX_SECS then DurationOk (n * k * ns_per_s) else DurationPanic
        end
    end.

Definition human_age (d : Z) : string :=
  let secs := Z.max 0 (Z.quot d ns_per_s) in
  if secs <? 60 then show_u secs +:+ "s"
  else if secs <? 3600 then
    let m := secs / 60 in let r := secs mod 60 in
    if r =? 0 then show_u m +:+ "m" else show_u m +:+ "m" +:+ show_u r +:+ "s"
  else if secs <? 86400 then
    let h := secs / 3600 in let r := (secs mod 3600) / 60 in
    if r =? 0 then show_u h +:+ "h" else show_u h +:+ "h" +:+ show_u r +:+ "m"
  else
    let days := secs / 86400 in let r := (secs mod 86400) / 3600 in
    if r =? 0 then show_u days +:+ "d" else show_u days +:+ "d" +:+ show_u r +:+ "h".

(** ** Liveness and identity *)

Inductive KillResult := KillOk | KillErr (errno : Z).
Definition EPERM : Z := 1.
Definition ESRCH : Z := 3.

(** [kill(pid, 0)] is an argument; a number that is not a positive [i32] is
    not probed. *)
Definition signed_positive_pid (pid : Z) : option Z :=
  if (0 <? pid) && (pid <=? 2147483647) then Some pid else None.
Definition pid_alive (kill : Z -> KillResult) (pid : Z) : bool :=
  match signed_positive_pid pid with
  | None => false
  | Some p => match kill p with
              | KillOk => true
              | KillErr e => e =? EPERM
              end
  end.
Definition process_group_alive (kill : Z -> KillResult) (pgid : Z) : bool :=
  match signed_positive_pid pgid with
  | None => false
  | Some p => match kill (- p) with
              | KillOk => true
              | KillErr e => e =? EPERM
              end
  end.

(** [Path::components] of a relative or absolute text. *)
Inductive PathComponent := RootDir | CurDir | ParentDir | Normal (s : string).
#[export] Instance path_component_eq_dec : EqDecision PathComponent.
Proof. solve_decision. Defined.
Definition component_of (s : string) : list PathComponent :=
  if bool_decide (s = ""%string) || bool_decide (s = "."%string) then []
  else if bool_decide (s = ".."%string) then [ParentDir] else [Normal s].
Definition path_components (p : string) : list PathComponent :=
  match split_on "/" p with
  | first :: rest =>
      (if bool_decide (first = ""%string) && negb (str_is_empty p) then [RootDir]
       else if bool_decide (first = "."%string) then [CurDir] else component_of first)
      ++ concat (map component_of rest)
  | [] => []
  end.

(** [dir] is an absolute directory, as its components. *)
Definition job_id_is_contained_child (dir : list PathComponent) (id : string) : bool :=
  match path_components id with
  | [Normal s] => bool_decide (removelast (dir ++ [Normal s]) = dir)
  | _ => false
  end.

(** ** The metadata of a job *)

Record JobMeta := mkJobMeta {
  job_id : string;
  job_kind : string;
  job_status : string;
  job_cwd : string;
  job_pid : Z;
  started : Z;
  finished : option Z
}.

Definition STATUS_RUNNING : string := "running".
Definition JOB_STATUS_RESOLVED_WITH_WARNINGS : string := "resolved-with-warnings".

(** The [result.json] of a job: not a readable regular file of a JSON object,
    or what its [kind] and [resolved] fields say. *)
Inductive ResultFile := NoResult | ResultJson (kind : option string) (resolved : option bool).
Definition result_indicates_resolved_loop (r : ResultFile) : bool :=
  match r with
  | ResultJson (Some k) (Some true) => bool_decide (k = "loop"%string)
  | _ => false
  end.

(** [read_meta]: the directory names the job, whatever the body says. *)
Definition read_meta (name : string) (body : option JobMeta) : option JobMeta :=
  m ← body;
  Some (mkJobMeta name (job_kind m) (job_status m) (job_cwd m) (job_pid m) (started m) (finished m)).

Definition set_status (m : JobMeta) (s : string) (now : Z) : JobMeta :=
  mkJobMeta (job_id m) (job_kind m) s (job_cwd m) (job_pid m) (started m) (Some now).

Definition spawn_meta (name k cwd : string) (pid now : Z) : JobMeta :=
  mkJobMeta name k STATUS_RUNNING cwd pid now None.

(** [finalize_job]: what the worker writes, given the record it read. *)
Definition finalize_job (m : JobMeta) (ok : bool) (r : ResultFile) (now : Z) : option JobMeta :=
  if bool_decide (job_status m = STATUS_RUNNING) then
    Some (set_status m
      (if ok then "done"%string
       else if result_indicates_resolved_loop r then JOB_STATUS_RESOLVED_WITH_WARNINGS
       else "failed"%string) now)
  else None.

Inductive CancelSignalOutcome := AlreadyFinished | Signalled.

(** [cancel_background_process_group]: the answers of [kill] to the probe, to
    the SIGTERM, to the last poll of the wait and to the probe after it; the
    result has the signals delivered to the group. *)
Definition cancel_background_process_group (probe term at_deadline after : Z -> KillResult) (m : JobMeta) :
    result (CancelSignalOutcome * list (Z * Z)) unit :=
  if negb (pid_alive probe (job_pid m)) then Ok (AlreadyFinished, [])
  else match signed_positive_pid (job_pid m) with
  | None => Ok (AlreadyFinished, [])
  | Some p =>
      match term (- p) with
      | KillErr e => if e =? ESRCH then Ok (AlreadyFinished, []) else Err tt
      | KillOk =>
          if process_group_alive at_deadline p && process_group_alive after p then Ok (Signalled, [(- p, 15); (- p, 9)])
          else Ok (Signalled, [(- p, 15)])
      end
  end.

(** [resolve_job] on the jobs, newest first. *)
Definition resolve_job (jobs : list JobMeta) (want : option string) (running_only : bool) : option JobMeta :=
  match want with
  | Some w => find_first (fun j => bool_decide (job_id j = w)) jobs
  | None => find_first (fun j => negb running_only || bool_decide (job_status j = STATUS_RUNNING)) jobs
  end.

(** ** Listing *)

Definition newest_first (jobs : list JobMeta) : list JobMeta :=
  sort_by (fun a b => started b ?= started a) jobs.

(** [read_dir_jobs]: the entries in directory order, by name. *)
Definition read_dir_jobs (entries : list (string * option JobMeta)) : list JobMeta :=
  newest_first (omap (fun '(name, body) => read_meta name body) entries).

Definition listed (all : bool) (here : option string) (j : JobMeta) : bool :=
  if all || bool_decide (job_status j = STATUS_RUNNING) then true
  else if str_is_empty (job_cwd j) then true
  else match here with
       | Some h => bool_decide (job_cwd j = h)
       | None => true
       end.

(** ** Pruning *)

Definition is_terminal (kill : Z -> KillResult) (m : JobMeta) : bool :=
  if bool_decide (job_status m = STATUS_RUNNING) then false else negb (pid_alive kill (job_pid m)).

Inductive PruneResult := Removed | DryRun | UnsafeId | RemoveError (e : string).
Record PruneOutcome := mkPruneOutcome { po_id : string; po_bytes : Z; po_result : PruneResult }.
Record PruneReport := mkPruneReport {
  removed : nat; bytes_reclaimed : Z; skipped_running : nat; kept_by_keep : nat; dry_run : bool
}.

Definition DEFAULT_RETENTION : Z := 7 * 86400 * ns_per_s.

Section Prune.
Variable kill : Z -> KillResult.
Variable dir : list PathComponent.
Variable dir_bytes : string -> Z.
(** What removing a job directory gave. *)
Variable remove : string -> result unit string.
Variable now : Z.
Variable keep_n : nat.
Variable older_than : option Z.
Variable dry : bool.

Definition expired (m : JobMeta) : bool := default DEFAULT_RETENTION older_than <=? now - started m.

(** The outcome of a job that the policy selects. *)
Definition prune_one (m : JobMeta) : PruneOutcome :=
  if negb (job_id_is_contained_child dir (job_id m)) then mkPruneOutcome (job_id m) 0 UnsafeId
  else if dry then mkPruneOutcome (job_id m) (dir_bytes (job_id m)) DryRun
  else match remove (job_id m) with
       | Ok _ => mkPruneOutcome (job_id m) (dir_bytes (job_id m)) Removed
       | Err e => mkPruneOutcome (job_id m) (dir_bytes (job_id m)) (RemoveError e)
       end.

(** The loop, over the jobs newest first, with its counters. *)
Fixpoint prune_loop (jobs : list JobMeta) (keep_seen : nat) (r : PruneReport) (out : list PruneOutcome) :
    PruneReport * list PruneOutcome :=
  match jobs with
  | [] => (r, out)
  | m :: jobs =>
      if negb (is_terminal kill m) then
        prune_loop jobs keep_seen
          (mkPruneReport (removed r) (bytes_reclaimed r) (S (skipped_running r)) (kept_by_keep r) (dry_run r)) out
      else if (0 <? keep_n)%nat && (keep_seen <? keep_n)%nat then
        prune_loop jobs (S keep_seen)
          (mkPruneReport (removed r) (bytes_reclaimed r) (skipped_running r) (S (kept_by_keep r)) (dry_run r)) out
      else if negb (expired m) then prune_loop jobs keep_seen r out
      else
        let o := prune_one m in
        let r := match po_result o with
                 | Removed => mkPruneReport (S (removed r)) (bytes_reclaimed r + po_bytes o)
                                (skipped_running r) (kept_by_keep r) (dry_run r)
                 | _ => r
                 end in
        prune_loop jobs keep_seen r (out ++ [o])
  end.
End Prune.

(** [cmd_jobs_prune] once its options are read: the report, the outcomes and
    whether the command fails. *)
Definition cmd_jobs_prune (kill : Z -> KillResult) (dir : list PathComponent) (dir_bytes : string -> Z)
    (remove : string -> result unit string) (now : Z) (keep : option nat) (older_than : option Z)
    (dry : bool) (all : list JobMeta) : PruneReport * list PruneOutcome * bool :=
  let '(r, out) := prune_loop kill dir dir_bytes remove now (default 0%nat keep) older_than dry
                     (newest_first all) 0 (mkPruneReport 0 0 0 0 dry) [] in
  (r, out, existsb (fun o => match po_result o with UnsafeId | RemoveError _ => true | _ => false end) out).

(** [cmd_cancel]: the signals it delivers and the record it then writes over
    the one on disk.  [reread] is the record after the signals. *)
Inductive CancelError := NoJob | RefusedId | SignalFailed.
Definition cmd_cancel (dir : list PathComponent) (probe term at_deadline after : Z -> KillResult)
    (jobs : list JobMeta) (want : option string) (reread : option JobMeta) (now : Z) :
    result (CancelSignalOutcome * list (Z * Z) * option JobMeta) CancelError :=
  match resolve_job jobs want true with
  | None => Err NoJob
  | Some m =>
      if negb (job_id_is_contained_child dir (job_id m)) then Err RefusedId
      else match cancel_background_process_group probe term at_deadline after m with
           | Err _ => Err SignalFailed
           | Ok (o, sigs) => Ok (o, sigs, (fun meta => set_status meta "cancelled" now) <$> reread)
           end
  end.

(** ** The life of a job

    [write_meta] truncates the file and then writes the text of the record from
    its start, without a lock; the text is written in one piece or in several,
    and a writer that dies leaves what it has written.  [render] is the text of
    a record and [parse] reads a text. *)
Inductive MetaWriter := Spawner | Finalizer | Canceller (n : nat).
#[export] Instance meta_writer_eq_dec : EqDecision MetaWriter.
Proof. solve_decision. Defined.
(** A record to be written, and one of which so many bytes are written. *)
Inductive Pending := ToWrite (m : JobMeta) | Writing (m : JobMeta) (written : nat).

Record JobFile := mkJobFile {
  content : option (list ascii);
  worker_started : bool;
  spawn_begun : bool;
  worker_done : bool;
  pending : MetaWriter -> option Pending
}.
Definition no_job : JobFile := mkJobFile None false false false (fun _ => None).
Definition set_pending (f : JobFile) (c : option (list ascii)) (w : MetaWriter) (o : option Pending) : JobFile :=
  mkJobFile c (worker_started f) (spawn_begun f) (worker_done f) (fun v => if decide (v = w) then o else pending f v).

(** [pwrite] at [k]: a gap before it is filled with zero bytes. *)
Definition write_over (k : nat) (bs file : list ascii) : list ascii :=
  take k file ++ replicate (k - length file) Ascii.zero ++ bs ++ drop (k + length bs) file.

Section Life.
Variable render : JobMeta -> list ascii.
Variable parse : list ascii -> option JobMeta.
Variables name k cwd : string.

Definition reads (f : JobFile) : option JobMeta := read_meta name (content f ≫= parse).

Inductive job_step : JobFile -> JobFile -> Prop :=
  | SpawnChild f : worker_started f = false ->
      job_step f (mkJobFile (content f) true (spawn_begun f) (worker_done f) (pending f))
  | SpawnMeta f pid now : worker_started f = true -> spawn_begun f = false ->
      job_step f (set_pending (mkJobFile (content f) true true (worker_done f) (pending f)) (content f) Spawner
                    (Some (ToWrite (spawn_meta name k cwd pid now))))
  | FinalizeRead f ok r now : worker_started f = true -> worker_done f = false ->
      job_step f (set_pending (mkJobFile (content f) true (spawn_begun f) true (pending f)) (content f) Finalizer
                    (m ← reads f; ToWrite <$> finalize_job m ok r now))
  | CancelRead f n now : pending f (Canceller n) = None ->
      job_step f (set_pending f (content f) (Canceller n) ((fun m => ToWrite (set_status m "cancelled" now)) <$> reads f))
  | Truncate f w m : pending f w = Some (ToWrite m) -> job_step f (set_pending f (Some []) w (Some (Writing m 0)))
  | WriteSome f w m i n : pending f w = Some (Writing m i) -> (i + n <= length (render m))%nat ->
      job_step f (set_pending f (Some (write_over i (take n (drop i (render m))) (default [] (content f)))) w (Some (Writing m (i + n))))
  | Finish f w m : pending f w = Some (Writing m (length (render m))) -> job_step f (set_pending f (content f) w None)
  | Dies f w : job_step f (set_pending f (content f) w None).

(** Two writers are inside [write_meta] at once. *)
Definition overlap (f : JobFile) : Prop :=
  exists w v m i m' i', w <> v /\ pending f w = Some (Writing m i) /\ pending f v = Some (Writing m' i').
Definition serial_step (f f' : JobFile) : Prop := job_step f f' /\ ~ overlap f'.
End Life.

(** ** Performance history *)

(** The fields of a [result.json] and of an iteration of its log that the
    history reads; a field that is absent or of another type is [None]. *)
Record LogEntry := mkLogEntry {
  le_author : option string;
  le_reviewer : option string;
  le_verdict : option string;
  le_check_passed : option bool;
  le_diff_lines : option Z;
  le_tool_calls : option Z
}.
Record PerfRecord := mkPerfRecord {
  pf_kind : option string;
  pf_log : option (list LogEntry);
  pf_resolved : option bool;
  pf_max_iters : option Z
}.

(** [u64] addition in the release profile. *)
Definition u64_add (a b : Z) : Z := (a + b) mod (U64_MAX + 1).

Record AuthorStat := mkAuthorStat {
  runs : Z; resolved_runs : Z; iters_used : Z; hit_cap : Z; runs_with_cap : Z;
  tool_calls : Z; diff_lines : Z; check_passed_runs : Z; barren_first_iter : Z
}.
Record ReviewerStat := mkReviewerStat {
  reviews : Z; approvals : Z; agreed_pass : Z; agreed_fail : Z; rubber_stamp : Z; rejected_green : Z
}.
Definition no_author_stat : AuthorStat := mkAuthorStat 0 0 0 0 0 0 0 0 0.
Definition no_reviewer_stat : ReviewerStat := mkReviewerStat 0 0 0 0 0 0.

Definition loop_log (d : PerfRecord) : option (list LogEntry) :=
  if bool_decide (pf_kind d = Some "loop"%string) then
    match pf_log d with
    | Some (x :: l) => Some (x :: l)
    | _ => None
    end
  else None.

Definition log_author (log : list LogEntry) : string :=
  match omap le_author log with a :: _ => a | [] => "(unnamed)" end.

Definition add_author (d : PerfRecord) (log : list LogEntry) (a : AuthorStat) : AuthorStat :=
  let len := Z.of_nat (length log) in
  let counts (b : bool) (n : Z) := u64_add n (if b then 1 else 0) in
  mkAuthorStat
    (u64_add (runs a) 1)
    (counts (default false (pf_resolved d)) (resolved_runs a))
    (u64_add (iters_used a) len)
    (counts (match pf_max_iters d with Some c => c <=? len | None => false end) (hit_cap a))
    (counts (bool_decide (is_Some (pf_max_iters d))) (runs_with_cap a))
    (foldl (fun n x => u64_add n (default 0 (le_tool_calls x))) (tool_calls a) log)
    (foldl (fun n x => u64_add n (default 0 (le_diff_lines x))) (diff_lines a) log)
    (counts (existsb (fun x => bool_decide (le_check_passed x = Some true)) log) (check_passed_runs a))
    (counts (default 0 (x ← head log; le_diff_lines x) =? 0) (barren_first_iter a)).

Definition add_review (x : LogEntry) (r : ReviewerStat) : ReviewerStat :=
  let approved := bool_decide (le_verdict x = Some "approve"%string) in
  let counts (b : bool) (n : Z) := u64_add n (if b then 1 else 0) in
  let cell (a c : bool) := bool_decide (le_check_passed x = Some c) && Bool.eqb approved a in
  mkReviewerStat
    (u64_add (reviews r) 1)
    (counts approved (approvals r))
    (counts (cell true true) (agreed_pass r))
    (counts (cell false false) (agreed_fail r))
    (counts (cell true false) (rubber_stamp r))
    (counts (cell false true) (rejected_green r)).

(** [entry(k).or_default()], then the update. *)
Definition bump {A} (zero : A) (f : A -> A) (k : string) (m : gmap string A) : gmap string A :=
  <[ k := f (default zero (m !! k)) ]> m.

Definition add_record (acc : gmap string AuthorStat * gmap string ReviewerStat) (d : PerfRecord) :
    gmap string AuthorStat * gmap string ReviewerStat :=
  match loop_log d with
  | None => acc
  | Some log =>
      (bump no_author_stat (add_author d log) (log_author log) acc.1,
       foldl (fun rs x => match le_reviewer x with
                          | Some rm => bump no_reviewer_stat (add_review x) rm rs
                          | None => rs
                          end) acc.2 log)
  end.

(** [collect_perf], on the records of the job directories that could be read,
    in directory order. *)
Definition collect_perf (records : list PerfRecord) : gmap string AuthorStat * gmap string ReviewerStat :=
  foldl add_record (∅, ∅) records.

(** * Theorems *)

Lemma split_digits_show n unit :
  (forall c s, unit = String c s -> digit_value c = None) -> split_digits (show_u n +:+ unit) = (show_u n, unit).
Proof.
  intros Hu. pose proof (show_u_all_digits n) as Ha. revert Ha. generalize (show_u n). intros s.
  induction s as [|c s IH]; cbn [str_all]; intros Ha.
  - rewrite str_nil_app. destruct unit as [|c r]; simpl; [done|]. by rewrite (Hu c r eq_refl).
  - rewrite str_app_cons. cbn [split_digits]. apply andb_true_iff in Ha as [Hc Ha].
    apply bool_decide_eq_true in Hc as [d ->]. by rewrite (IH Ha).
Qed.


Lemma parse_i64_show n : 0 <= n <= I64_MAX -> parse_i64_std (show_u n) = Some n.
Proof.
  intros Hn. unfold parse_i64_std. pose proof (show_u_take_sign n "" ltac:(lia)) as Ht.
  rewrite str_app_nil in Ht. rewrite Ht, digits_only_show by lia. simpl.
  destruct (I64_MIN <=? n) eqn:E1, (n <=? I64_MAX) eqn:E2; simpl; rewrite ?Z.leb_le, ?Z.leb_gt in *;
    unfold I64_MIN in *; try lia; done.
Qed.

(** What the parser makes of a number and a tail that starts with a letter. *)
Lemma parse_number_unit n unit :
  0 < n <= I64_MAX -> (forall c s, unit = String c s -> digit_value c = None) ->
  str_is_empty unit = false -> str_all (fun c => negb (is_ws c)) unit = true ->
  parse_duration (show_u n +:+ unit) =
    match unit_secs unit with
    | None => DurationErr (UnknownUnit unit)
    | Some k => if n * k <=? CHRONO_MAX_SECS then DurationOk (n * k * ns_per_s) else DurationPanic
    end.
Proof.
  intros Hn Hu He Hw. unfold parse_duration. rewrite trim_word.
  2:{ rewrite str_all_app, Hw, (str_all_impl _ _ _ digit_not_ws (show_u_all_digits n)). done. }
  rewrite str_is_empty_app, He, andb_false_r, (split_digits_show n unit Hu), He.
  rewrite parse_i64_show by lia. destruct (n <=? 0) eqn:E; [apply Z.leb_le in E; lia|done].
Qed.

(** An age whose text has one unit: less than a minute, whole minutes, an hour
    or a day with less than the next smaller unit beyond. *)
Definition one_unit (secs : Z) : bool :=
  if secs <? 60 then true
  else if secs <? 3600 then secs mod 60 =? 0
  else if secs <? 86400 then (secs mod 3600) / 60 =? 0
  else (secs mod 86400) / 3600 =? 0.

Definition precision (secs : Z) : Z :=
  if secs <? 3600 then 1 else if secs <? 86400 then 60 else 3600.

Lemma compound_is_refused n n' (u u' : ascii) :
  0 < n <= I64_MAX -> 0 <= n' -> digit_value u = None -> is_ws u = false -> is_ws u' = false ->
  parse_duration (show_u n +:+ String u "" +:+ show_u n' +:+ String u' "")
    = DurationErr (UnknownUnit (String u (show_u n' +:+ String u' ""))).
Proof.
  intros Hn Hn' Hd Hw Hw'. rewrite str_app_cons, str_nil_app. rewrite parse_number_unit; [|done| |done|].
  - pose proof (show_u_word n' Hn') as Hs. unfold is_word in Hs. apply andb_true_iff in Hs as [Hs _].
    destruct (show_u n') as [|c r]; [done|]. rewrite str_app_cons. unfold unit_secs.
    rewrite !bool_decide_eq_false_2 by (intros [=]). done.
  - by intros c s [= <- <-].
  - cbn [str_all]. rewrite Hw, str_all_app. cbn [str_all]. rewrite Hw'.
    rewrite (str_all_impl _ _ _ digit_not_ws (show_u_all_digits n')). done.
Qed.

Lemma chrono_max : CHRONO_MAX_SECS = 9223372036854775.
Proof. reflexivity. Qed.

Lemma single_is_read n u k :
  0 < n -> n * k <= CHRONO_MAX_SECS -> unit_secs u = Some k -> 0 < k ->
  parse_duration (show_u n +:+ u) = DurationOk (n * k * ns_per_s).
Proof.
  intros Hn Hk Hu Hp.
  assert (n <= I64_MAX) by (rewrite chrono_max in Hk; unfold I64_MAX; nia).
  assert (u = "s"%string \/ u = "m"%string \/ u = "h"%string \/ u = "d"%string) as Hc.
  { unfold unit_secs in Hu. repeat (case_bool_decide; [tauto|]). done. }
  rewrite parse_number_unit; [|lia|..].
  - rewrite Hu. destruct (n * k <=? CHRONO_MAX_SECS) eqn:E; [done|apply Z.leb_gt in E; lia].
  - destruct Hc as [->|[->|[->| ->]]]; intros c s [= <- <-]; reflexivity.
  - destruct Hc as [->|[->|[->| ->]]]; reflexivity.
  - destruct Hc as [->|[->|[->| ->]]]; reflexivity.
Qed.

(** The text of an age reads back as that age exactly up to the unit below
    the one it names when the text has one unit, and is refused as an unknown
    unit when it has two *)
Theorem duration_roundtrip d (Hd : ns_per_s <= d <= CHRONO_MAX_SECS * ns_per_s) :
  let secs := d / ns_per_s in
  if one_unit secs then
    exists r, parse_duration (human_age d) = DurationOk (r * ns_per_s) /\ r <= secs < r + precision secs
  else exists u, parse_duration (human_age d) = DurationErr (UnknownUnit u).
Proof.
  intros secs. unfold human_age. rewrite Z.quot_div_nonneg by (unfold ns_per_s in *; lia). fold secs.
  assert (1 <= secs <= CHRONO_MAX_SECS) as Hs.
  { unfold secs. split; [apply Z.div_le_lower_bound|apply Z.div_le_upper_bound]; unfold ns_per_s in *; lia. }
  rewrite Z.max_r by lia. unfold one_unit, precision.
  destruct (Z.ltb_spec secs 60) as [H60|H60].
  { destruct (Z.ltb_spec secs 3600); [|lia]. exists secs. split; [|lia].
    rewrite (single_is_read secs "s" 1) by first [lia|reflexivity]. f_equal. lia. }
  assert (secs <= I64_MAX) by (rewrite chrono_max in Hs; unfold I64_MAX; lia).
  destruct (Z.ltb_spec secs 3600) as [H3|H3];
    [|destruct (Z.ltb_spec secs 86400) as [H8|H8]];
    match goal with |- if ?b then _ else _ => destruct b eqn:E end;
    try (eexists; apply compound_is_refused; (done || Z.to_euclidean_division_equations; lia));
    apply Z.eqb_eq in E.
  - exists (secs / 60 * 60). split; [|Z.to_euclidean_division_equations; lia].
    apply single_is_read; first [reflexivity|Z.to_euclidean_division_equations; lia].
  - exists (secs / 3600 * 3600). split; [|Z.to_euclidean_division_equations; lia].
    apply single_is_read; first [reflexivity|Z.to_euclidean_division_equations; lia].
  - exists (secs / 86400 * 86400). split; [|Z.to_euclidean_division_equations; lia].
    apply single_is_read; first [reflexivity|Z.to_euclidean_division_equations; lia].
Qed.

Lemma duration_roundtrip_witness :
  let secs := 7200 * ns_per_s / ns_per_s in
  if one_unit secs then
    exists r, parse_duration (human_age (7200 * ns_per_s)) = DurationOk (r * ns_per_s) /\ r <= secs < r + precision secs
  else exists u, parse_duration (human_age (7200 * ns_per_s)) = DurationErr (UnknownUnit u).
Proof. apply (duration_roundtrip (7200 * ns_per_s)). vm_compute. split; discriminate. Defined.

(** [--older-than] with a number of days beyond the range of [chrono] stops
    the command with a panic, not with the usage error of the other bad texts. *)
Lemma huge_duration_panics : parse_duration "106751991168d" = DurationPanic.
Proof. reflexivity. Qed.

(** ** Metadata *)

(** A record that any of the writers produces: it names its directory, its
    status is one of the five, and it has a finish time exactly when it is not
    running. *)
Definition meta_wf (name : string) (m : JobMeta) : Prop :=
  job_id m = name /\
  job_status m ∈ [STATUS_RUNNING; "done"; "failed"; JOB_STATUS_RESOLVED_WITH_WARNINGS; "cancelled"]%string /\
  (job_status m = STATUS_RUNNING <-> finished m = None).

Lemma set_status_wf name m s now :
  job_id m = name -> s <> STATUS_RUNNING ->
  s ∈ ["done"; "failed"; JOB_STATUS_RESOLVED_WITH_WARNINGS; "cancelled"]%string -> meta_wf name (set_status m s now).
Proof. intros Hn Hs Hin. split_and!; [done|by apply list_elem_of_further|]. simpl. by split. Qed.

Lemma finalize_wf name m ok r now m' :
  job_id m = name -> finalize_job m ok r now = Some m' -> meta_wf name m'.
Proof.
  unfold finalize_job. intros Hn. case_bool_decide; [|done]. intros [= <-].
  apply set_status_wf; [done|..]; repeat case_match; first [done|set_solver].
Qed.

Lemma read_meta_id name body m : read_meta name body = Some m -> job_id m = name /\ is_Some body.
Proof. unfold read_meta. destruct body; simpl; [|done]. intros [= <-]. by eauto. Qed.

Lemma finalize_terminal m ok r now m' : finalize_job m ok r now = Some m' -> job_status m' <> STATUS_RUNNING.
Proof. unfold finalize_job. case_bool_decide; [|done]. intros [= <-]. simpl. by repeat case_match. Qed.

Lemma write_over_next i n (t : list ascii) : (i + n <= length t)%nat ->
  write_over i (take n (drop i t)) (take i t) = take (i + n) t.
Proof.
  intros Hl. unfold write_over. rewrite length_take, Nat.min_l, Nat.sub_diag by lia. cbn [replicate app].
  rewrite take_take, Nat.min_id, (drop_ge (take i t)) by (rewrite length_take; lia). by rewrite app_nil_r, take_take_drop.
Qed.

Section Serial.
Variable render : JobMeta -> list ascii.
Variable parse : list ascii -> option JobMeta.
Hypothesis parse_render : forall m, parse (render m) = Some m.
Hypothesis parse_cut : forall m i, (i < length (render m))%nat -> parse (take i (render m)) = None.
Variables name k cwd : string.
Notation reads := (reads parse name).
Notation job_step := (job_step render parse name k cwd).
Notation serial_step := (serial_step render parse name k cwd).

(** What is on disk is the beginning of the text of a well-formed record. *)
Definition begins (c : option (list ascii)) (P : JobMeta -> Prop) : Prop :=
  exists m i, c = Some (take i (render m)) /\ meta_wf name m /\ P m.
Definition record_of (p : Pending) : JobMeta := match p with ToWrite m | Writing m _ => m end.
(** The spawner has not written the whole of its record yet. *)
Definition early (f : JobFile) : Prop :=
  spawn_begun f = false \/ (exists m, pending f Spawner = Some (ToWrite m)) \/
  exists m i, pending f Spawner = Some (Writing m i) /\ (i < length (render m))%nat.

Record file_ok (f : JobFile) : Prop := {
  ok_content : content f = None \/ begins (content f) (fun _ => True);
  ok_pending : forall w p, pending f w = Some p -> meta_wf name (record_of p) /\
    (w = Spawner <-> job_status (record_of p) = STATUS_RUNNING);
  ok_writing : forall w m i, pending f w = Some (Writing m i) -> content f = Some (take i (render m)) /\ (i <= length (render m))%nat;
  ok_begun : is_Some (pending f Spawner) -> spawn_begun f = true;
  ok_done : is_Some (pending f Finalizer) -> worker_done f = true;
  ok_early : early f -> (forall w, w <> Spawner -> pending f w = None) /\
    (content f = None \/ exists m i, pending f Spawner = Some (Writing m i))
}.

Lemma begins_reads c P m : begins c P -> c ≫= parse = Some m -> meta_wf name m /\ P m.
Proof.
  intros (m' & i & -> & Hwf & HP) H. cbn in H. destruct (decide (i < length (render m'))%nat) as [Hi|Hi].
  - by rewrite parse_cut in H.
  - rewrite firstn_all2, parse_render in H by lia. by injection H as <-.
Qed.
Lemma reads_ok f m : file_ok f -> reads f = Some m -> content f ≫= parse = Some m /\ meta_wf name m.
Proof.
  intros Hok H. unfold Jobs.reads, read_meta in H. destruct (content f ≫= parse) as [m'|] eqn:E; [|done]. cbn in H.
  destruct (ok_content f Hok) as [Hn|Hb]; [by rewrite Hn in E|]. destruct (begins_reads _ _ _ Hb E) as [Hwf _].
  injection H as <-. pose proof Hwf as [<- _]. by destruct m'.
Qed.
(** Nothing can be read while the spawner has not written its record. *)
Lemma early_reads f : file_ok f -> early f -> reads f = None.
Proof.
  intros Hok He. destruct (ok_early f Hok He) as [_ Hc]. unfold Jobs.reads. destruct Hc as [->|(m & i & Hp)]; [done|].
  destruct (ok_writing f Hok _ _ _ Hp) as [-> _]. cbn. destruct He as [Hb|[[m' Hp']|(m' & i' & Hp' & Hi)]].
  - assert (spawn_begun f = true) by (apply ok_begun; [done|by eexists]). congruence.
  - congruence.
  - rewrite Hp in Hp'. injection Hp' as <- <-. by rewrite parse_cut.
Qed.

Lemma pending_set f c w o v : pending (set_pending f c w o) v = if decide (v = w) then o else pending f v.
Proof. done. Qed.

(** A writer other than the spawner comes to hold a record it has read. *)
Lemma ok_read f w o d : file_ok f -> w <> Spawner -> pending f w = None ->
  (forall p, o = Some p -> exists m, p = ToWrite m /\ meta_wf name m /\ job_status m <> STATUS_RUNNING /\ is_Some (reads f)) ->
  (worker_done f = true -> d = true) -> (w = Finalizer -> d = true) ->
  file_ok (set_pending (mkJobFile (content f) (worker_started f) (spawn_begun f) d (pending f)) (content f) w o).
Proof.
  intros Hok Hw Hnone Hm Hd Hf. pose proof Hok as [Hc Hp Hwr Hb Hdn He]. split; cbn [content set_pending pending worker_done spawn_begun]; [done|..].
  - intros v p. case_decide as E; [|by apply Hp]. subst v. intros ->. destruct (Hm p eq_refl) as (m & -> & Hwf & Hr & _). by split.
  - intros v m i. case_decide as E; [|by apply Hwr]. intros Hx. by destruct (Hm _ Hx) as (? & ? & _).
  - by rewrite decide_False.
  - case_decide; [by rewrite Hf|]. auto.
  - intros Hearly. assert (early f) as He' by (unfold early in *; cbn in Hearly; by rewrite !decide_False in Hearly).
    destruct (He He') as [Hn Hcc]. split; [|by rewrite decide_False].
    intros v Hv. case_decide as E; [|by apply Hn]. destruct o as [p|]; [|done].
    destruct (Hm p eq_refl) as (_ & _ & _ & _ & [m Hr]). by rewrite (early_reads f Hok He') in Hr.
Qed.
(** A writer ends. *)
Lemma ok_clear f w : file_ok f -> file_ok (set_pending f (content f) w None).
Proof.
  intros Hok. pose proof Hok as [Hc Hp Hwr Hb Hdn He]. split; cbn [content set_pending pending worker_done spawn_begun]; [done|..].
  - intros v p. case_decide; [done|]. apply Hp.
  - intros v m i. case_decide; [done|]. apply Hwr.
  - case_decide; [by intros []|done].
  - case_decide; [by intros []|done].
  - intros Hearly. assert (early f) as He'.
    { unfold early in *. cbn in Hearly. destruct (decide (Spawner = w)); [|done]. destruct Hearly as [?|[[? ?]|(? & ? & ? & _)]]; [by left|done|done]. }
    destruct (He He') as [Hn Hcc]. split; [intros v Hv; case_decide; [done|by apply Hn]|].
    destruct Hcc as [?|(m & i & Hx)]; [by left|]. case_decide as E; [|right; by exists m, i].
    unfold early in Hearly. cbn in Hearly. rewrite decide_True in Hearly by done.
    destruct Hearly as [Hf|[[? ?]|(? & ? & ? & _)]]; [|done|done]. rewrite Hb in Hf; [done|by eexists].
Qed.
(** A writer that is alone inside [write_meta] goes on. *)
Lemma ok_write f w p m i : file_ok f -> pending f w = Some p -> record_of p = m -> (i <= length (render m))%nat ->
  (p = ToWrite m \/ exists i0, p = Writing m i0 /\ (i0 <= i)%nat) ->
  ~ overlap (set_pending f (Some (take i (render m))) w (Some (Writing m i))) ->
  file_ok (set_pending f (Some (take i (render m))) w (Some (Writing m i))).
Proof.
  intros Hok Hw Hrec Hi Hfrom Hno. pose proof Hok as [Hc Hp Hwr Hb Hdn He]. destruct (Hp w p Hw) as [Hwf Hst]. rewrite Hrec in Hwf, Hst.
  assert (forall v m' i', v <> w -> pending f v <> Some (Writing m' i')) as Halone.
  { intros v m' i' Hv Hx. apply Hno. exists w, v, m, i, m', i'. split; [done|]. cbn. rewrite decide_True, decide_False by done. done. }
  split; cbn [content set_pending pending worker_done spawn_begun].
  - right. by exists m, i.
  - intros v q. case_decide as E; [|by apply Hp]. subst v. intros [= <-]. done.
  - intros v m' i'. case_decide as E; [|by intros ?%Halone]. intros [= <- <-]. done.
  - case_decide as E; [|done]. intros _. apply Hb. rewrite E, Hw. by eexists.
  - case_decide as E; [|done]. intros _. apply Hdn. rewrite E, Hw. by eexists.
  - intros Hearly. unfold early in Hearly. cbn in Hearly. destruct (decide (Spawner = w)) as [<-|Hne].
    + assert (early f) as He'.
      { destruct Hearly as [?|[[? ?]|(m' & i' & [= <- <-] & Hlt)]]; [by left|done|]. right. rewrite Hw.
        destruct Hfrom as [->|(i0 & -> & Hle)]; [left; by eexists|right]. exists m, i0. split; [done|lia]. }
      destruct (He He') as [Hn _]. split; [intros v Hv; rewrite decide_False by done; by apply Hn|]. right. by exists m, i.
    + exfalso. assert (early f) as He'.
      { destruct Hearly as [?|[?|?]]; [by left|right; by left|right; by right]. }
      destruct (He He') as [Hn _]. rewrite (Hn w) in Hw by done. done.
Qed.

Lemma serial_step_ok f f' : file_ok f -> serial_step f f' -> file_ok f'.
Proof.
  intros Hok [Hstep Hno]. pose proof Hok as [Hc Hp Hwr Hb Hdn He].
  destruct Hstep as [f Hs|f pid now Hs Hsb|f ok r now Hs Hd|f n now Hn|f w m Hw|f w m i n Hw Hl|f w m Hw|f w].
  - by split.
  - (* the spawner's record *) destruct (He (or_introl Hsb)) as [Hnone Hcc].
    assert (pending f Spawner = None) as Hns by (destruct (pending f Spawner) eqn:E; [rewrite Hb in Hsb; [done|by eexists]|done]).
    destruct Hcc as [Hcc|(m & i & Hx)]; [|congruence].
    split; cbn [content set_pending pending worker_done spawn_begun]; [by left|..].
    + intros v q. case_decide as E; [|by apply Hp]. subst v. intros [= <-]. cbn. split; [|by split].
      split_and!; [done|by left|by split].
    + intros v m i. case_decide; [done|]. by apply Hwr.
    + done.
    + case_decide; [done|]. exact Hdn.
    + intros _. split; [intros v Hv; rewrite decide_False by done; by apply Hnone|by left].
  - rewrite <- Hs. apply ok_read; try done.
    + destruct (pending f Finalizer) eqn:E; [|done]. rewrite Hdn in Hd; [done|by eexists].
    + intros q (m & Hr & (m' & Hfin & ->)%fmap_Some)%bind_Some. exists m'. split; [done|].
      destruct (reads_ok f m Hok Hr) as [_ [Hid _]].
      split; [by eapply finalize_wf|]. split; [by eapply finalize_terminal|by eexists].
  - apply (ok_read f (Canceller n) _ (worker_done f)); try done.
    intros q (m & Hr & ->)%fmap_Some. eexists. split; [done|]. destruct (reads_ok f m Hok Hr) as [_ [Hid _]].
    split; [apply set_status_wf; [done|done|set_solver]|]. split; [done|by eexists].
  - apply (ok_write f w (ToWrite m) m 0); try done; [lia|by left].
  - destruct (Hwr _ _ _ Hw) as [Hcont Hi]. rewrite Hcont in Hno |- *. cbn [default from_option] in Hno |- *. unfold Datatypes.id in Hno |- *.
    rewrite write_over_next in Hno |- * by done. apply (ok_write f w (Writing m i) m (i + n)); try done. right. exists i. split; [done|lia].
  - by apply ok_clear.
  - by apply ok_clear.
Qed.
Lemma no_job_ok : file_ok no_job.
Proof. split; cbn; try done; [by left|by intros []..|by intros _; split; [|left]]. Qed.
Lemma serial_run_ok f : rtc serial_step no_job f -> file_ok f.
Proof.
  assert (forall a b, rtc serial_step a b -> file_ok a -> file_ok b) as H by (induction 1; eauto using serial_step_ok).
  intros Hr. by apply (H _ _ Hr), no_job_ok.
Qed.

(** A job that was read as settled. *)
Definition settled_job (f : JobFile) : Prop :=
  spawn_begun f = true /\ pending f Spawner = None /\ begins (content f) (fun m => job_status m <> STATUS_RUNNING).
Lemma settled_read f m : file_ok f -> reads f = Some m -> job_status m <> STATUS_RUNNING -> settled_job f.
Proof.
  intros Hok Hr Hst. destruct (reads_ok f m Hok Hr) as [Hparse _].
  assert (~ early f) as Hne by (intros He; by rewrite (early_reads f Hok He) in Hr).
  assert (spawn_begun f = true) as Hb by (destruct (spawn_begun f) eqn:E; [done|]; exfalso; apply Hne; by left).
  split; [done|]. split.
  - destruct (pending f Spawner) as [[m'|m' i]|] eqn:E; [|..|done].
    + exfalso. apply Hne. right. left. by eexists.
    + destruct (ok_writing f Hok _ _ _ E) as [Hcont Hi]. exfalso. destruct (decide (i < length (render m'))%nat) as [Hlt|Hge].
      * apply Hne. right. right. by exists m', i.
      * rewrite Hcont in Hparse. cbn in Hparse. rewrite firstn_all2, parse_render in Hparse by lia. injection Hparse as <-.
        apply Hst. by apply (ok_pending f Hok Spawner _ E).
  - destruct (ok_content f Hok) as [Hn|(m' & i & Hcont & Hwf & _)]; [by rewrite Hn in Hparse|]. exists m', i. split; [done|]. split; [done|].
    rewrite Hcont in Hparse. cbn in Hparse. destruct (decide (i < length (render m'))%nat); [by rewrite parse_cut in Hparse|].
    rewrite firstn_all2, parse_render in Hparse by lia. by injection Hparse as <-.
Qed.
Lemma settled_step f f' : file_ok f -> settled_job f -> serial_step f f' -> settled_job f'.
Proof.
  intros Hok (Hb & Hns & Hc) [Hstep Hno].
  assert (forall w p, pending f w = Some p -> w <> Spawner /\ meta_wf name (record_of p) /\ job_status (record_of p) <> STATUS_RUNNING) as Hpend.
  { intros w q Hw. destruct (ok_pending f Hok w q Hw) as [Hwf Hst]. assert (w <> Spawner) as Hne by congruence. split; [done|]. split; [done|]. tauto. }
  destruct Hstep as [f Hs|f pid now Hs Hsb|f ok r now Hs Hd|f n now Hn|f w m Hw|f w m i n Hw Hl|f w m Hw|f w];
    unfold settled_job; cbn [content set_pending pending spawn_begun]; try congruence; split_and!; try done.
  - destruct (Hpend w _ Hw) as (Hne & _ & _). by rewrite decide_False.
  - destruct (Hpend w _ Hw) as (_ & Hwf & Hst). by exists m, 0%nat.
  - destruct (Hpend w _ Hw) as (Hne & _ & _). by rewrite decide_False.
  - destruct (Hpend w _ Hw) as (_ & Hwf & Hst). destruct (ok_writing f Hok _ _ _ Hw) as [-> Hi]. cbn. unfold Datatypes.id.
    rewrite write_over_next by done. by exists m, (i + n)%nat.
  - case_decide; done.
  - case_decide; done.
Qed.
Lemma settled_run f f' : rtc serial_step f f' -> file_ok f -> settled_job f -> file_ok f' /\ settled_job f'.
Proof. induction 1; eauto using serial_step_ok, settled_step. Qed.
Lemma settled_reads f m : settled_job f -> reads f = Some m -> job_status m <> STATUS_RUNNING.
Proof.
  intros (_ & _ & Hc) Hr. unfold Jobs.reads, read_meta in Hr. destruct (content f ≫= parse) as [m'|] eqn:E; [|done].
  cbn in Hr. injection Hr as <-. by destruct (begins_reads _ _ _ Hc E).
Qed.

(** C37: as long as no two writers of a job's metadata are inside [write_meta] at
    once, whatever their order and wherever one dies: what is on disk is the
    text of a well-formed record or the beginning of one, so that a record
    that can be read names its directory, has one of the five statuses and has
    a finish time exactly when it is not running; and once a reader has found
    the job settled, none finds it running again *)
Theorem job_meta_typed f (Hrun : rtc serial_step no_job f) :
  (content f = None \/ exists m i, content f = Some (take i (render m)) /\ meta_wf name m) /\
  (forall m, reads f = Some m -> meta_wf name m) /\
  forall m f', reads f = Some m -> job_status m <> STATUS_RUNNING -> rtc serial_step f f' ->
    forall m', reads f' = Some m' -> job_status m' <> STATUS_RUNNING.
Proof.
  pose proof (serial_run_ok f Hrun) as Hok. split; [|split].
  - destruct (ok_content f Hok) as [?|(m & i & ? & ? & _)]; [by left|right; by exists m, i].
  - intros m Hm. by apply (reads_ok f).
  - intros m f' Hm Hst Hr m' Hm'. destruct (settled_run f f' Hr Hok (settled_read f m Hok Hm Hst)) as [_ Hs].
    by apply (settled_reads f').
Qed.
End Serial.

(** Naming a finished job in a cancel signals whatever process group now has
    its pid and writes [cancelled] over its status. *)
Lemma cancel_rewrites_finished_job :
  let m := mkJobMeta "j" "loop" "done" "/w" 7 0 (Some 5) in
  cmd_cancel [RootDir; Normal "jobs"] (fun _ => KillOk) (fun _ => KillOk) (fun _ => KillErr ESRCH) (fun _ => KillErr ESRCH)
      [m] (Some "j"%string) (Some m) 9
    = Ok (Signalled, [(-7, 15)], Some (set_status m "cancelled" 9)) /\
  cmd_cancel [RootDir; Normal "jobs"] (fun _ => KillOk) (fun _ => KillOk) (fun _ => KillErr ESRCH) (fun _ => KillErr ESRCH)
      [m] None (Some m) 9 = Err NoJob.
Proof. done. Qed.

(** ** Pruning *)

Definition is_removed (o : PruneOutcome) : bool := match po_result o with Removed => true | _ => false end.
Definition removed_bytes (out : list PruneOutcome) : Z := foldr (fun o n => po_bytes o + n) 0 (filterb is_removed out).

Lemma filterb_cons {A} (p : A -> bool) x l : filterb p (x :: l) = if p x then x :: filterb p l else filterb p l.
Proof. done. Qed.

Lemma prune_loop_exact kill dir dir_bytes remove now keep older dry jobs seen r out :
  (seen <= keep)%nat ->
  let fin := filterb (is_terminal kill) jobs in
  let sel := map (prune_one dir dir_bytes remove dry) (filterb (expired now older) (drop (keep - seen) fin)) in
  prune_loop kill dir dir_bytes remove now keep older dry jobs seen r out =
    (mkPruneReport (removed r + length (filterb is_removed sel)) (bytes_reclaimed r + removed_bytes sel)
       (skipped_running r + length (filterb (fun m => negb (is_terminal kill m)) jobs))
       (kept_by_keep r + Nat.min (keep - seen) (length fin)) (dry_run r), out ++ sel).
Proof.
  revert seen r out. induction jobs as [|m jobs IH]; intros seen r out Hs.
  { cbn. rewrite drop_nil. cbn. rewrite app_nil_r. destruct r; cbn. unfold removed_bytes; cbn.
    do 2 f_equal; lia. }
  cbn [prune_loop]. rewrite !filterb_cons. destruct (is_terminal kill m); cbn [negb].
  2:{ rewrite IH by done. cbn. do 2 f_equal; lia. }
  destruct ((0 <? keep)%nat && (seen <? keep)%nat) eqn:E.
  { apply andb_true_iff in E as [_ E]. apply Nat.ltb_lt in E. rewrite IH by lia.
    replace (keep - seen)%nat with (S (keep - S seen)) by lia. cbn. do 2 f_equal; lia. }
  assert (seen = keep) as ->.
  { apply andb_false_iff in E. rewrite !Nat.ltb_ge in E. lia. }
  rewrite Nat.sub_diag in *. rewrite ?drop_0. rewrite filterb_cons.
  destruct (expired now older m); cbn [negb map].
  2:{ rewrite IH by done. rewrite Nat.sub_diag. cbn. done. }
  rewrite IH by done. rewrite Nat.sub_diag. rewrite ?drop_0. rewrite <- app_assoc. cbn [app].
  rewrite filterb_cons. unfold removed_bytes. rewrite filterb_cons.
  destruct (prune_one dir dir_bytes remove dry m) as [i b res].
  destruct res; cbn; (destruct r; cbn; do 2 f_equal; lia).
Qed.

(** A prune targets exactly the finished jobs beyond the newest [keep]
    ones that are older than the cutoff, treats each on its own, and reports
    how many it removed, their bytes, how many it skipped and how many it kept *)
Theorem prune_exact kill dir dir_bytes remove now keep older dry all :
  let k := default 0%nat keep in
  let fin := filterb (is_terminal kill) (newest_first all) in
  let sel := map (prune_one dir dir_bytes remove dry) (filterb (expired now older) (drop k fin)) in
  cmd_jobs_prune kill dir dir_bytes remove now keep older dry all =
    (mkPruneReport (length (filterb is_removed sel)) (removed_bytes sel)
       (length (filterb (fun m => negb (is_terminal kill m)) (newest_first all)))
       (Nat.min k (length fin)) dry,
     sel, existsb (fun o => match po_result o with UnsafeId | RemoveError _ => true | _ => false end) sel).
Proof.
  intros k fin sel. unfold cmd_jobs_prune. rewrite prune_loop_exact by lia. rewrite Nat.sub_0_r. done.
Qed.

Lemma StronglySorted_filterb {A} (R : A -> A -> Prop) p l :
  StronglySorted R l -> StronglySorted R (filterb p l).
Proof.
  induction 1 as [|x l _ IH Hx]; [constructor|]. rewrite filterb_cons. destruct (p x); [|done].
  constructor; [done|]. rewrite Forall_forall in *. intros y [_ Hy]%elem_of_filterb. by apply Hx.
Qed.

Lemma newest_first_sorted all : StronglySorted (fun a b => started b <= started a) (newest_first all).
Proof.
  eapply StronglySorted_impl; [|apply (sort_by_sorted _ (fun _ => True))].
  - intros a b. unfold cmp_le. cbn. rewrite Z.compare_gt_iff. lia.
  - intros x y _ _. by rewrite Z.compare_antisym.
  - intros x y z _ _ _. unfold cmp_le. rewrite !Z.compare_gt_iff. lia.
  - by apply Forall_true.
Qed.

Lemma sorted_split {A} (R : A -> A -> Prop) l1 l2 :
  StronglySorted R (l1 ++ l2) -> forall x y, x ∈ l1 -> y ∈ l2 -> R x y.
Proof.
  induction l1 as [|z l1 IH]; intros H x y Hx Hy; [by apply not_elem_of_nil in Hx|].
  apply elem_of_cons in Hx as [->|Hx].
  - eapply (StronglySorted_head _ _ _ H). apply elem_of_app. by right.
  - apply StronglySorted_inv in H as [H _]. by apply IH.
Qed.

Lemma filterb_submseteq {A} (p : A -> bool) l : filterb p l ⊆+ l.
Proof.
  induction l as [|x l IH]; [done|]. rewrite filterb_cons. destruct (p x); [by constructor|by constructor].
Qed.

(** The finished jobs that survive ahead of a targeted one. *)
Lemma newer_survivors kill all k m :
  m ∈ drop k (filterb (is_terminal kill) (newest_first all)) ->
  exists newer, length newer = k /\
    (forall x, x ∈ newer -> x ∈ all /\ is_terminal kill x = true /\ started m <= started x) /\ newer ++ [m] ⊆+ all.
Proof.
  set (fin := filterb _ _). intros Hm. exists (take k fin). split_and!.
  - apply length_take_le. destruct (decide (k <= length fin)%nat); [done|].
    rewrite drop_ge in Hm by lia. by apply not_elem_of_nil in Hm.
  - intros x Hx. assert (x ∈ fin) as [Ht Ha]%elem_of_filterb.
    { apply elem_of_take in Hx as (i & Hi & _). by eapply list_elem_of_lookup_2. }
    split_and!; [by apply elem_of_sort_by in Ha|done|].
    pose proof (StronglySorted_filterb _ (is_terminal kill) _ (newest_first_sorted all)) as Hs. fold fin in Hs.
    rewrite <- (take_drop k fin) in Hs. by apply (sorted_split _ _ _ Hs x m).
  - trans fin.
    + rewrite <- (take_drop k fin) at 2. apply submseteq_app; [done|].
      by apply singleton_submseteq_l.
    + trans (newest_first all); [apply filterb_submseteq|]. unfold newest_first. by rewrite sort_by_perm.
Qed.

(** Every directory a prune removes is a direct child of the jobs
    directory, of a job with a settled status and no live process that is older
    than the cutoff and, with [--keep n], than n other finished jobs *)
Theorem prune_removes_only_stale kill dir dir_bytes remove now keep older dry all o
  (Hin : o ∈ (cmd_jobs_prune kill dir dir_bytes remove now keep older dry all).1.2)
  (Hrem : po_result o = Removed) :
  dry = false /\ exists m s, m ∈ all /\ po_id o = job_id m /\ path_components (job_id m) = [Normal s] /\
    job_status m <> STATUS_RUNNING /\ pid_alive kill (job_pid m) = false /\
    default DEFAULT_RETENTION older <= now - started m /\
    exists newer, length newer = default 0%nat keep /\
      (forall x, x ∈ newer -> x ∈ all /\ is_terminal kill x = true /\ started m <= started x) /\
      newer ++ [m] ⊆+ all.
Proof.
  rewrite prune_exact in Hin. cbn in Hin. apply list_elem_of_fmap in Hin as (m & -> & Hm).
  apply elem_of_filterb in Hm as [Hexp Hm]. unfold prune_one in *.
  destruct (job_id_is_contained_child dir (job_id m)) eqn:Hc; [|done]. cbn [negb] in *.
  destruct dry; [done|]. destruct (remove (job_id m)); [|done]. cbn [po_result po_id] in *. clear Hrem.
  split; [done|]. unfold job_id_is_contained_child in Hc.
  destruct (path_components (job_id m)) as [|[| | |s] [|]] eqn:Ep; try done.
  pose proof (newer_survivors _ _ _ _ Hm) as Hnewer.
  assert (m ∈ all /\ is_terminal kill m = true) as [Hall Ht].
  { assert (m ∈ filterb (is_terminal kill) (newest_first all)) as [Ht Ha]%elem_of_filterb;
      [|by apply elem_of_sort_by in Ha].
    rewrite <- (take_drop (default 0%nat keep) (filterb _ _)). apply elem_of_app. by right. }
  unfold is_terminal in Ht. case_bool_decide; [done|]. apply negb_true_iff in Ht. apply Z.leb_le in Hexp.
  by exists m, s.
Qed.

Lemma prune_removes_only_stale_witness :
  let m := mkJobMeta "j" "loop" "done" "/w" 7 0 (Some 5) in
  let dir := [RootDir; Normal "jobs"] in
  let kill := fun _ => KillErr ESRCH in
  mkPruneOutcome "j" 10 Removed ∈
    (cmd_jobs_prune kill dir (fun _ => 10) (fun _ => Ok tt) (DEFAULT_RETENTION + 1) None None false [m]).1.2 /\
  exists newer, length newer = 0%nat /\ newer ++ [m] ⊆+ [m].
Proof.
  intros m dir kill.
  assert (Hin : mkPruneOutcome "j" 10 Removed ∈
    (cmd_jobs_prune kill dir (fun _ => 10) (fun _ => Ok tt) (DEFAULT_RETENTION + 1) None None false [m]).1.2)
    by (vm_compute; left).
  split; [exact Hin|].
  destruct (prune_removes_only_stale _ _ _ _ _ _ _ _ _ _ Hin eq_refl)
    as (_ & m' & s & Hm & _ & _ & _ & _ & _ & newer & Hl & _ & Hs).
  apply list_elem_of_singleton in Hm as ->. by exists newer.
Defined.

(** ** Performance history *)

Lemma u64_add_comm2 a b c : u64_add (u64_add a b) c = u64_add (u64_add a c) b.
Proof. unfold u64_add. rewrite !Zplus_mod_idemp_l. f_equal. lia. Qed.

Lemma foldl_commute {A B} (f : A -> B -> A) (g : A -> A) (l : list B) a :
  (forall a b, f (g a) b = g (f a b)) -> foldl f (g a) l = g (foldl f a l).
Proof. intros H. revert a. induction l as [|b l IH]; intros a; [done|]. cbn [foldl]. by rewrite H, IH. Qed.

Lemma foldl_swap {A B} (f : A -> B -> A) (l k : list B) a :
  (forall a b c, f (f a b) c = f (f a c) b) -> foldl f (foldl f a l) k = foldl f (foldl f a k) l.
Proof.
  intros H. revert a. induction k as [|c k IH]; intros a; [done|]. cbn [foldl].
  rewrite <- IH. f_equal. by rewrite (foldl_commute f (fun a => f a c)).
Qed.

Lemma foldl_perm {A B} (f : A -> B -> A) (l k : list B) a :
  (forall a b c, f (f a b) c = f (f a c) b) -> l ≡ₚ k -> foldl f a l = foldl f a k.
Proof.
  intros H Hp. revert a. induction Hp as [|x l k _ IH|x y l|l k j _ IH1 _ IH2]; intros a; cbn [foldl].
  - done.
  - apply IH.
  - by rewrite H.
  - by rewrite IH1, IH2.
Qed.

Lemma bump_swap {A} (zero : A) f g k j (m : gmap string A) :
  (forall a, f (g a) = g (f a)) -> bump zero f k (bump zero g j m) = bump zero g j (bump zero f k m).
Proof.
  intros H. unfold bump. destruct (decide (k = j)) as [->|Hne].
  - rewrite !lookup_insert_eq, !insert_insert_eq. cbn. by rewrite H.
  - rewrite !lookup_insert_ne by done. by apply insert_insert_ne.
Qed.

Lemma add_author_swap d log d' log' a :
  add_author d log (add_author d' log' a) = add_author d' log' (add_author d log a).
Proof.
  unfold add_author.
  cbn [runs resolved_runs iters_used hit_cap runs_with_cap tool_calls diff_lines check_passed_runs barren_first_iter].
  f_equal; first [apply u64_add_comm2 | apply foldl_swap; intros; apply u64_add_comm2].
Qed.

Lemma add_review_swap x y r : add_review x (add_review y r) = add_review y (add_review x r).
Proof.
  unfold add_review. cbn [reviews approvals agreed_pass agreed_fail rubber_stamp rejected_green].
  f_equal; apply u64_add_comm2.
Qed.

Definition grade (rs : gmap string ReviewerStat) (x : LogEntry) : gmap string ReviewerStat :=
  match le_reviewer x with Some rm => bump no_reviewer_stat (add_review x) rm rs | None => rs end.

Lemma grade_swap rs x y : grade (grade rs x) y = grade (grade rs y) x.
Proof.
  unfold grade. destruct (le_reviewer x), (le_reviewer y); try done.
  apply bump_swap. apply add_review_swap.
Qed.

Lemma add_record_swap acc d e : add_record (add_record acc d) e = add_record (add_record acc e) d.
Proof.
  unfold add_record. destruct (loop_log d), (loop_log e); try done. cbn [fst snd]. f_equal.
  - apply bump_swap. apply add_author_swap.
  - apply (foldl_swap grade). apply grade_swap.
Qed.

(** The performance history does not depend on the order in which the job
    directories are read *)
Theorem perf_order_independent l k (Hp : l ≡ₚ k) : collect_perf l = collect_perf k.
Proof. apply foldl_perm; [apply add_record_swap|done]. Qed.

Definition sample_log : list LogEntry := [mkLogEntry (Some "a") (Some "r") (Some "approve") (Some true) (Some 3) (Some 2)].
Lemma perf_order_independent_witness :
  let d := mkPerfRecord (Some "loop") (Some sample_log) (Some true) (Some 1) in
  let e := mkPerfRecord (Some "review") None None None in
  collect_perf [d; e] = collect_perf [e; d].
Proof. intros d e. apply (perf_order_independent [d; e] [e; d]). constructor. Defined.

(** ** What a reviewer's row counts *)

Definition tally (p : LogEntry -> bool) (l : list LogEntry) : Z := Z.of_nat (length (filterb p l)) mod (U64_MAX + 1).

Definition says_approve (x : LogEntry) : bool := bool_decide (le_verdict x = Some "approve"%string).
Definition graded (approved check : bool) (x : LogEntry) : bool :=
  bool_decide (le_check_passed x = Some check) && Bool.eqb (says_approve x) approved.
Definition reviewed_by (rm : string) (x : LogEntry) : bool := bool_decide (le_reviewer x = Some rm).

Lemma tally_snoc p l x : tally p (l ++ [x]) = u64_add (tally p l) (if p x then 1 else 0).
Proof.
  unfold tally, u64_add. rewrite Zplus_mod_idemp_l. unfold filterb. rewrite List.filter_app, length_app. simpl.
  destruct (p x); simpl; f_equal; lia.
Qed.

Definition row_of (l : list LogEntry) : ReviewerStat :=
  mkReviewerStat (tally (fun _ => true) l) (tally says_approve l) (tally (graded true true) l)
    (tally (graded false false) l) (tally (graded true false) l) (tally (graded false true) l).

Lemma row_of_snoc l x : row_of (l ++ [x]) = add_review x (row_of l).
Proof. unfold row_of, add_review. cbn [reviews approvals agreed_pass agreed_fail rubber_stamp rejected_green]. by rewrite !tally_snoc. Qed.

Lemma grade_rows l rm :
  foldl grade ∅ l !! rm = match filterb (reviewed_by rm) l with [] => None | r => Some (row_of r) end.
Proof.
  induction l as [|x l IH] using rev_ind; [done|].
  rewrite foldl_app. unfold filterb in *. rewrite List.filter_app. cbn [foldl List.filter].
  unfold grade at 1, reviewed_by at 2. destruct (le_reviewer x) as [rm'|] eqn:E.
  2:{ rewrite bool_decide_eq_false_2 by done. by rewrite app_nil_r. }
  unfold bump. destruct (decide (rm' = rm)) as [->|Hne].
  - rewrite lookup_insert_eq, bool_decide_eq_true_2, IH by done.
    destruct (List.filter (reviewed_by rm) l) as [|y r] eqn:Ef;
      [apply (f_equal Some); symmetry; exact (row_of_snoc [] x)|]. cbn [default app].
    by rewrite app_comm_cons, row_of_snoc.
  - rewrite lookup_insert_ne, bool_decide_eq_false_2 by congruence. by rewrite app_nil_r.
Qed.

Lemma collect_reviewers records :
  (collect_perf records).2 = foldl grade ∅ (concat (omap loop_log records)).
Proof.
  unfold collect_perf. induction records as [|d l IH] using rev_ind; [done|].
  rewrite foldl_app, omap_app, concat_app, foldl_app. cbn [foldl omap]. unfold add_record at 1.
  change (list_omap _ _ loop_log [d]) with (omap loop_log [d]). cbn.
  destruct (loop_log d); cbn; rewrite IH; [by rewrite app_nil_r|done].
Qed.

(** A reviewer's row counts, among the iterations of the loop records it
    reviewed, the approvals and the four cells of its verdict against the
    check; it has no row when it reviewed none *)
Theorem reviewer_row_exact records rm :
  (collect_perf records).2 !! rm =
    match filterb (reviewed_by rm) (concat (omap loop_log records)) with
    | [] => None
    | r => Some (row_of r)
    end.
Proof. rewrite collect_reviewers. apply grade_rows. Qed.

(** ** Divergences *)

(** An error other than [EPERM] makes a process count as dead. *)
Lemma interrupted_probe_is_dead : pid_alive (fun _ => KillErr 4) 7 = false.
Proof. done. Qed.

(** One directory removed and one refused: the command fails. *)
Lemma partial_prune_fails :
  let job i := mkJobMeta i "loop" "done" "/w" 7 0 (Some 5) in
  let '(r, _, failed) := cmd_jobs_prune (fun _ => KillErr ESRCH) [RootDir; Normal "jobs"] (fun _ => 10)
    (fun i => if bool_decide (i = "a"%string) then Ok tt else Err "busy"%string)
    (DEFAULT_RETENTION + 1) None None false [job "a"%string; job "b"%string] in
  removed r = 1%nat /\ failed = true.
Proof. by vm_compute. Qed.

(** ** Runs of the metadata's writers *)

Section Runs.
Variable render : JobMeta -> list ascii.
Variable parse : list ascii -> option JobMeta.
Hypothesis parse_render : forall m, parse (render m) = Some m.
Notation job_step := (job_step render parse "j" "loop" "/w").
Notation serial_step := (serial_step render parse "j" "loop" "/w").
Notation reads := (reads parse "j").

Lemma serial_is_run f f' : rtc serial_step f f' -> rtc job_step f f'.
Proof. induction 1 as [|a b c [H _] _ IH]; [apply rtc_refl|]. by eapply rtc_l. Qed.
Lemma alone_no_overlap f w : (forall v m i, v <> w -> pending f v <> Some (Writing m i)) -> ~ overlap f.
Proof.
  intros Ha (v & u & m & i & m' & i' & Hne & Hv & Hu). destruct (decide (v = w)) as [->|Hvw]; [|by apply Ha in Hv].
  by apply (Ha u m' i').
Qed.
(** A writer that is alone writes its whole record. *)
Lemma writes f w m : pending f w = Some (ToWrite m) -> (forall v m i, v <> w -> pending f v <> Some (Writing m i)) ->
  exists f', rtc serial_step f f' /\ content f' = Some (render m) /\ pending f' w = None
    /\ (forall v, v <> w -> pending f' v = pending f v) /\ worker_started f' = worker_started f
    /\ spawn_begun f' = spawn_begun f /\ worker_done f' = worker_done f.
Proof.
  intros Hw Ha. eexists. split.
  { eapply rtc_l; [split; [by apply (Truncate _ _ _ _ _ f w m)|]|].
    { apply (alone_no_overlap _ w). intros v m' i' Hv. cbn. rewrite decide_False by done. by apply Ha. }
    eapply rtc_l; [split; [apply (WriteSome _ _ _ _ _ _ w m 0 (length (render m))); [cbn; by rewrite decide_True|lia]|]|].
    { apply (alone_no_overlap _ w). intros v m' i' Hv. cbn. rewrite !decide_False by done. by apply Ha. }
    eapply rtc_l; [split; [apply (Finish _ _ _ _ _ _ w m); cbn; by rewrite decide_True|]|apply rtc_refl].
    apply (alone_no_overlap _ w). intros v m' i' Hv. cbn. rewrite !decide_False by done. by apply Ha. }
  cbn. rewrite drop_0, firstn_all, decide_True by done. split_and!; try done.
  - unfold write_over. cbn. by rewrite drop_nil, app_nil_r.
  - intros v Hv. by rewrite !decide_False.
Qed.

Definition the_job : JobMeta := spawn_meta "j" "loop" "/w" 7 0.
Lemma reads_whole f m : content f = Some (render m) -> job_id m = "j"%string -> reads f = Some m.
Proof. intros Hc Hi. unfold Jobs.reads, read_meta. rewrite Hc. cbn. rewrite parse_render. cbn. rewrite <- Hi. by destruct m. Qed.

Lemma spawned_run : exists f, rtc serial_step no_job f /\ content f = Some (render the_job) /\ (forall w, pending f w = None)
  /\ worker_started f = true /\ worker_done f = false.
Proof.
  set (f2 := set_pending (mkJobFile None true true false (fun _ => None)) None Spawner (Some (ToWrite the_job))).
  assert (rtc serial_step no_job f2) as R.
  { eapply rtc_l; [split; [by apply (SpawnChild _ _ _ _ _ no_job)|by intros (? & ? & ? & ? & ? & ? & _ & ? & _)]|].
    eapply rtc_l; [split; [by apply (SpawnMeta _ _ _ _ _ (mkJobFile None true false false (fun _ => None)) 7 0)|]|apply rtc_refl].
    apply (alone_no_overlap _ Spawner). intros v m i Hv. cbn. by rewrite decide_False. }
  destruct (writes f2 Spawner the_job) as (f & Rf & Hc & Hw & Hv & Hs & _ & Hd); [done|intros v m i Hv; cbn; by rewrite decide_False|].
  exists f. split; [by etrans|]. split_and!; try done. intros w. destruct (decide (w = Spawner)) as [->|Hne]; [done|].
  rewrite Hv by done. cbn. by rewrite decide_False.
Qed.

(** The finalizer and a cancel have both read the running record. *)
Definition both_read (f : JobFile) : JobFile :=
  let f := set_pending (mkJobFile (content f) true (spawn_begun f) true (pending f)) (content f) Finalizer
             (Some (ToWrite (set_status the_job "done" 9))) in
  set_pending f (content f) (Canceller 0) (Some (ToWrite (set_status the_job "cancelled" 8))).
Lemma both_read_run f : content f = Some (render the_job) -> (forall w, pending f w = None) -> worker_started f = true -> worker_done f = false ->
  rtc serial_step f (both_read f).
Proof.
  intros Hc Hp Hs Hd. pose proof (reads_whole f the_job Hc eq_refl) as Hr.
  eapply rtc_l; [split; [apply (FinalizeRead _ _ _ _ _ f true NoResult 9); done|]|].
  { apply (alone_no_overlap _ Finalizer). intros v m i Hv. cbn. rewrite decide_False by done. by rewrite Hp. }
  rewrite Hr. cbn [mbind option_bind].
  eapply rtc_l; [split; [apply (CancelRead _ _ _ _ _ _ 0 8); cbn; by rewrite Hp|]|].
  { apply (alone_no_overlap _ (Canceller 0)). intros v m i Hv. cbn. rewrite decide_False by done. case_decide; [done|]. by rewrite Hp. }
  unfold both_read. change (reads (set_pending _ (content f) Finalizer _)) with (reads f). rewrite Hr. apply rtc_refl.
Qed.

Lemma settled_run_exists : exists f m, rtc serial_step no_job f /\ reads f = Some m /\ job_status m = "done"%string.
Proof.
  destruct spawned_run as (f & R & Hc & Hp & Hs & Hd). pose proof (both_read_run f Hc Hp Hs Hd) as R2.
  destruct (writes (both_read f) Finalizer (set_status the_job "done" 9)) as (f' & R' & Hc' & _).
  - done.
  - intros v m i Hv. cbn. case_decide; [done|]. rewrite decide_False by done. by rewrite Hp.
  - exists f', (set_status the_job "done" 9). split; [etrans; [exact R|]; by etrans|]. split; [by apply reads_whole|done].
Qed.

(** A cancel that lands while the finalizer holds what it read is overwritten
    by it. *)
Lemma finalize_overwrites_cancel : exists f f' m m',
  rtc serial_step no_job f /\ rtc serial_step f f' /\
  reads f = Some m /\ job_status m = "cancelled"%string /\ reads f' = Some m' /\ job_status m' = "done"%string.
Proof.
  destruct spawned_run as (f & R & Hc & Hp & Hs & Hd). pose proof (both_read_run f Hc Hp Hs Hd) as R2.
  destruct (writes (both_read f) (Canceller 0) (set_status the_job "cancelled" 8)) as (f1 & R3 & Hc1 & Hw1 & Hv1 & _).
  - done.
  - intros v m i Hv. cbn. rewrite decide_False by done. case_decide; [done|]. by rewrite Hp.
  - destruct (writes f1 Finalizer (set_status the_job "done" 9)) as (f2 & R4 & Hc2 & _).
    + by rewrite Hv1.
    + intros v m i Hv. destruct (decide (v = Canceller 0)) as [->|Hne].
      * by rewrite Hw1.
      * rewrite Hv1 by done. cbn. rewrite !decide_False by done. by rewrite Hp.
    + exists f1, f2, (set_status the_job "cancelled" 8), (set_status the_job "done" 9).
      split; [etrans; [exact R|]; by etrans|]. split; [done|]. split_and!; try done; by apply reads_whole.
Qed.

(** A worker that finishes before its metadata is written finds nothing to
    finalize; the record then stays [running] for ever, and no prune removes
    a running job. *)
Lemma fast_worker_stuck_running : exists f m,
  rtc serial_step no_job f /\ reads f = Some m /\ job_status m = STATUS_RUNNING /\
  worker_done f = true /\ (forall w, pending f w = None) /\ forall kill, is_terminal kill m = false.
Proof.
  set (f2 := set_pending (mkJobFile None true false true (fun _ => None)) None Finalizer None).
  set (f3 := set_pending (mkJobFile None true true true (pending f2)) None Spawner (Some (ToWrite the_job))).
  assert (rtc serial_step no_job f3) as R.
  { eapply rtc_l; [split; [by apply (SpawnChild _ _ _ _ _ no_job)|by intros (? & ? & ? & ? & ? & ? & _ & ? & _)]|].
    eapply rtc_l; [split; [by apply (FinalizeRead _ _ _ _ _ (mkJobFile None true false false (fun _ => None)) true NoResult 9)|]|].
    { apply (alone_no_overlap _ Finalizer). intros v m i Hv. cbn. by rewrite decide_False. }
    eapply rtc_l; [split; [by apply (SpawnMeta _ _ _ _ _ f2 7 0)|]|apply rtc_refl].
    apply (alone_no_overlap _ Spawner). intros v m i Hv. cbn. rewrite decide_False by done. by case_decide. }
  destruct (writes f3 Spawner the_job) as (f & Rf & Hc & Hw & Hv & _ & _ & Hd);
    [done|intros v m i Hv; cbn; rewrite decide_False by done; by case_decide|].
  exists f, the_job. split; [by etrans|]. split; [by apply reads_whole|]. split_and!; try done.
  intros w. destruct (decide (w = Spawner)) as [->|Hne]; [done|]. rewrite Hv by done. cbn. rewrite decide_False by done. by case_decide.
Qed.

(** Two writes that overlap leave the end of the longer text behind the
    shorter one. *)
Lemma overlapping_writes_tear : exists f, rtc job_step no_job f /\ (forall w, pending f w = None) /\
  let shorter := render (set_status the_job "done" 9) in
  let longer := render (set_status the_job "cancelled" 8) in
  content f = Some (shorter ++ drop (length shorter) longer).
Proof.
  destruct spawned_run as (f & R & Hc & Hp & Hs & Hd). pose proof (both_read_run f Hc Hp Hs Hd) as R2.
  set (md := set_status the_job "done" 9). set (mc := set_status the_job "cancelled" 8).
  eexists. split; [|split].
  { etrans; [by apply serial_is_run, R|]. etrans; [by apply serial_is_run, R2|].
    eapply rtc_l; [by apply (Truncate _ _ _ _ _ _ (Canceller 0) mc)|].
    eapply rtc_l; [by apply (Truncate _ _ _ _ _ _ Finalizer md)|].
    eapply rtc_l; [apply (WriteSome _ _ _ _ _ _ (Canceller 0) mc 0 (length (render mc))); [done|lia]|].
    eapply rtc_l; [apply (WriteSome _ _ _ _ _ _ Finalizer md 0 (length (render md))); [done|lia]|].
    eapply rtc_l; [by apply (Finish _ _ _ _ _ _ (Canceller 0) mc)|].
    eapply rtc_l; [by apply (Finish _ _ _ _ _ _ Finalizer md)|apply rtc_refl]. }
  - intros w. cbn. repeat (case_decide; [done|]). apply Hp.
  - cbn. rewrite !drop_0, !firstn_all. unfold write_over. cbn. by rewrite drop_nil, app_nil_r.
Qed.
End Runs.

(** A codec: the number of a record in unary, closed by a brace. *)
Module SampleCodec.
#[export] Instance job_meta_eq_dec : EqDecision JobMeta.
Proof. solve_decision. Defined.
#[export] Instance job_meta_countable : Countable JobMeta.
Proof.
  refine (inj_countable' (fun m => (job_id m, job_kind m, job_status m, job_cwd m, job_pid m, started m, finished m))
    (fun '(a, b, c, d, e, f, g) => mkJobMeta a b c d e f g) _). by intros [].
Defined.
Definition render (m : JobMeta) : list ascii := replicate (Pos.to_nat (encode m)) "1"%char ++ ["}"%char].
Definition parse (l : list ascii) : option JobMeta :=
  if bool_decide (last l = Some "}"%char) then decode (Pos.of_nat (pred (length l))) else None.
Lemma parse_render m : parse (render m) = Some m.
Proof.
  unfold parse, render. rewrite last_snoc, bool_decide_eq_true_2 by done. rewrite length_app, length_replicate. cbn [length].
  rewrite Nat.add_1_r. cbn [pred]. by rewrite Pos2Nat.id, decode_encode.
Qed.
Lemma parse_cut m i : (i < length (render m))%nat -> parse (take i (render m)) = None.
Proof.
  unfold parse, render. rewrite length_app, length_replicate. cbn [length]. intros Hi.
  rewrite take_app_le by (rewrite length_replicate; lia). rewrite bool_decide_eq_false_2; [done|]. intros Hl%last_Some_elem_of.
  rewrite take_replicate in Hl. apply elem_of_replicate in Hl as [Hl _]. done.
Qed.
End SampleCodec.

Lemma job_meta_typed_witness : exists f m,
  rtc (serial_step SampleCodec.render SampleCodec.parse "j" "loop" "/w") no_job f /\
  reads SampleCodec.parse "j" f = Some m /\ job_status m = "done"%string /\ meta_wf "j" m.
Proof.
  destruct (settled_run_exists SampleCodec.render SampleCodec.parse SampleCodec.parse_render) as (f & m & R & Hr & Hs).
  exists f, m. split; [exact R|]. split; [exact Hr|]. split; [exact Hs|].
  apply (job_meta_typed SampleCodec.render SampleCodec.parse SampleCodec.parse_render SampleCodec.parse_cut "j" "loop" "/w" f R). exact Hr.
Defined.

