(* ===== verification/Failure.v ===== *)
(** The failure contract (failure.rs): the closed list of codes with their
    classes and exit codes, the recognition of free text by whole-word
    markers, the reset timestamp of an engine's budget refusal, and the
    classification of an error chain.

    An error chain is the list of its frames, outermost first; a frame is the
    classified failure it carries or its text.  Parsing an RFC 3339 instant is
    an argument. *)
From S2P Require Import Prelude Numbers Text.
Local Open Scope Z_scope.

(** ** Codes, classes, exit codes *)

Inductive FailureClass := Transient | Permanent | ConfigClass | BudgetClass | Blocked | Infrastructure.

Inductive FailureCode :=
  | DiffTooLarge | DiffTruncated | EmptyDiff | NoReviewerModel | ReviewersUnavailable | ReviewBlocked
  | LoopExhausted | ReviewerBudgetExhausted | AuthorFailed | AuthorTimeout | PolicyViolation
  | EngineBudgetExceeded | EngineUnreachable | SessionLimit | CancelUnconfirmed | WorktreeTainted
  | ConfigError | UsageError | Internal.
#[export] Instance failure_code_eq_dec : EqDecision FailureCode.
Proof. solve_decision. Defined.
#[export] Instance failure_class_eq_dec : EqDecision FailureClass.
Proof. solve_decision. Defined.

Definition class_str (c : FailureClass) : string :=
  match c with
  | Transient => "transient" | Permanent => "permanent" | ConfigClass => "config"
  | BudgetClass => "budget" | Blocked => "blocked" | Infrastructure => "infrastructure"
  end.

Definition EXIT_BLOCKED : Z := 10.
Definition EXIT_TRANSIENT : Z := 20.
Definition EXIT_BUDGET : Z := 30.
Definition EXIT_CONFIG : Z := 40.
Definition EXIT_INTERNAL : Z := 50.
Definition EXIT_INFRASTRUCTURE : Z := 60.
Definition UNCLASSIFIED_EXIT_CODE : Z := EXIT_INTERNAL.

Definition class_exit_code (c : FailureClass) : Z :=
  match c with
  | Blocked => EXIT_BLOCKED | Transient => EXIT_TRANSIENT | BudgetClass => EXIT_BUDGET
  | ConfigClass => EXIT_CONFIG | Permanent => EXIT_INTERNAL | Infrastructure => EXIT_INFRASTRUCTURE
  end.

Definition code_str (c : FailureCode) : string :=
  match c with
  | DiffTooLarge => "diff_too_large" | DiffTruncated => "diff_truncated" | EmptyDiff => "empty_diff"
  | NoReviewerModel => "no_reviewer_model" | ReviewersUnavailable => "reviewers_unavailable"
  | ReviewBlocked => "review_blocked" | LoopExhausted => "loop_exhausted"
  | ReviewerBudgetExhausted => "reviewer_budget_exhausted" | AuthorFailed => "author_failed"
  | AuthorTimeout => "author_timeout" | PolicyViolation => "policy_violation"
  | EngineBudgetExceeded => "engine_budget_exceeded" | EngineUnreachable => "engine_unreachable"
  | SessionLimit => "session_limit" | CancelUnconfirmed => "cancel_unconfirmed"
  | WorktreeTainted => "worktree_tainted" | ConfigError => "config" | UsageError => "usage" | Internal => "internal"
  end.

Definition code_class (c : FailureCode) : FailureClass :=
  match c with
  | ReviewBlocked => Blocked
  | SessionLimit => Infrastructure
  | EngineBudgetExceeded => BudgetClass
  | ReviewersUnavailable | AuthorFailed | AuthorTimeout | EngineUnreachable | CancelUnconfirmed | WorktreeTainted => Transient
  | NoReviewerModel | PolicyViolation | ConfigError | UsageError | ReviewerBudgetExhausted => ConfigClass
  | DiffTooLarge | DiffTruncated | EmptyDiff | LoopExhausted | Internal => Permanent
  end.

Definition exit_code (c : FailureCode) : Z := class_exit_code (code_class c).

Definition ALL : list FailureCode :=
  [ReviewBlocked; ReviewersUnavailable; DiffTooLarge; DiffTruncated; EmptyDiff; NoReviewerModel; LoopExhausted;
   ReviewerBudgetExhausted; AuthorFailed; AuthorTimeout; PolicyViolation; EngineBudgetExceeded; EngineUnreachable;
   SessionLimit; CancelUnconfirmed; WorktreeTainted; ConfigError; UsageError; Internal].

Definition from_code (s : string) : option FailureCode := find_first (fun c => bool_decide (code_str c = s)) ALL.

(** ** Whole-word markers *)

Definition is_word_byte (c : ascii) : bool := is_ascii_alphanumeric c || Ascii.eqb c "_".

Definition first_byte (s : string) : option ascii := match s with String c _ => Some c | EmptyString => None end.
Fixpoint last_byte (s : string) : option ascii :=
  match s with
  | EmptyString => None
  | String c EmptyString => Some c
  | String _ r => last_byte r
  end.
Definition is_word_at (o : option ascii) : bool := match o with Some c => is_word_byte c | None => false end.

(** A match of [needle] between the bytes [before] and [after] is not part of
    a longer word. *)
Definition stands_alone (needle : string) (before after : option ascii) : bool :=
  negb (is_word_at (first_byte needle) && is_word_at before)
  && negb (is_word_at (last_byte needle) && is_word_at after).

(** [haystack.match_indices(needle)], filtered: the text from each whole-word
    match on, with the text before it.  [skip] bytes of the last match are
    still to be passed, since matches do not overlap.  The needle is not
    empty. *)
Fixpoint word_scan (needle before : string) (prev : option ascii) (skip : nat) (h : string) : list (string * string) :=
  match h with
  | EmptyString => []
  | String c r =>
      let next k := word_scan needle (before +:+ String c "") (Some c) k r in
      match skip with
      | S k => next k
      | O =>
          match strip_prefix needle h with
          | Some rest =>
              (if stands_alone needle prev (first_byte rest) then [(before, h)] else [])
                ++ next (pred (String.length needle))
          | None => next 0%nat
          end
      end
  end.
Definition word_matches (haystack needle : string) : list (string * string) := word_scan needle "" None 0 haystack.

Definition has_word (haystack needle : string) : bool :=
  match word_matches haystack needle with [] => false | _ => true end.

Definition starts_a_line_or_frame (haystack needle : string) : bool :=
  existsb (fun '(before, _) =>
      let b := trim_end_matches (fun c => Ascii.eqb c " " || Ascii.eqb c tab) before in
      match last_byte b with
      | None => true
      | Some c => Ascii.eqb c newline || Ascii.eqb c ":"
      end) (word_matches haystack needle).

(** ** Recognising a message *)

Definition BUDGET_EXCEEDED_MARKER : string := "budget_exceeded:".
Definition DIFF_TRUNCATED_MARKER : string := "truncated during acquisition".

Definition classify_message_code (lower : string) : option FailureCode :=
  let w := has_word lower in
  if w BUDGET_EXCEEDED_MARKER then Some EngineBudgetExceeded
  else if w "session_limit" || (w "session limit" && w "32001") then Some SessionLimit
  else if w "review diff was truncated during acquisition" || w DIFF_TRUNCATED_MARKER then Some DiffTruncated
  else if w "no changes to review" || w "empty_diff" then Some EmptyDiff
  else if w "no reviewer model resolved" || w "no reviewer route matches" || w "no_reviewer_model" then Some NoReviewerModel
  else if w "above the" && w "-byte limit" then Some DiffTooLarge
  else if w "review blocked" || w "requests changes" then Some ReviewBlocked
  else if w "reviewers completed" || w "review incomplete" || w "reviewer_unavailable" || w "reviewer refused"
          || w "review refused" then Some ReviewersUnavailable
  else if w "author cancellation unconfirmed" || w "cancel not confirmed" || w "cancellation deadline expired"
       then Some CancelUnconfirmed
  else if w "author turn timed out" || w "author timeout" then Some AuthorTimeout
  else if w "author turn did not finish" || w "author_failed" || w "author failed" then Some AuthorFailed
  else if w "violated free policy" || w "violates the free policy" || w "policy violation" then Some PolicyViolation
  else if w "loop ended unresolved" || w "loop_exhausted" then Some LoopExhausted
  else if w "connecting to engine" || w "daemon not ready" || w "daemon exited during startup" || w "engine is unavailable"
          || w "engine offline" || w "no daemon is running" then Some EngineUnreachable
  else if w "invalid --engine" || starts_a_line_or_frame lower "usage:" || w "mutually exclusive" || w "requires --"
          || w "unknown subcommand" then Some UsageError
  else if w "loading zoder config" || w "loading engine" || w "failed to parse config" || w "failed to parse engine config"
          || w "config error" || w "invalid config" then Some ConfigError
  else None.

(** ** The reset timestamp *)

Definition instant_char (c : ascii) : bool :=
  is_ascii_digit c || Ascii.eqb c "-" || Ascii.eqb c ":" || Ascii.eqb c "T" || Ascii.eqb c "Z" || Ascii.eqb c "+"
  || Ascii.eqb c ".".

Definition date_led (s : string) : bool :=
  match s with
  | String y1 (String y2 (String y3 (String y4 (String d1 (String m1 (String m2 (String d2 (String a (String b _))))))))) =>
      is_ascii_digit y1 && is_ascii_digit y2 && is_ascii_digit y3 && is_ascii_digit y4 && Ascii.eqb d1 "-"
      && is_ascii_digit m1 && is_ascii_digit m2 && Ascii.eqb d2 "-" && is_ascii_digit a && is_ascii_digit b
  | _ => false
  end.

Definition reset_timestamp_after (tail : string) : option string :=
  let token := trim_end_matches
    (fun c => Ascii.eqb c "." || Ascii.eqb c ":" || Ascii.eqb c "-" || Ascii.eqb c "+")
    (take_while instant_char (skip_while (fun c => negb (is_ascii_digit c)) tail)) in
  if date_led token then Some token else None.

(** The markers are matched in the lower-cased line; the tail is taken from
    the line at the same offset. *)
Definition marker_offsets (line : string) : list nat :=
  let lower := to_ascii_lowercase line in
  sort_by Nat.compare
    (map (fun '(before, _) => String.length before)
       (concat (map (word_matches lower) ["reset"; "resets"; "until"]%string))).

Definition extract_reset_timestamp (line : string) : option string :=
  find_map (fun at_ => reset_timestamp_after (str_drop at_ line)) (marker_offsets line).

Definition classify_engine_budget_exceeded (message : string) : option (FailureCode * option string) :=
  match word_matches (to_ascii_lowercase message) BUDGET_EXCEEDED_MARKER with
  | [] => None
  | (before, _) :: _ =>
      let rest := str_drop (String.length before + String.length BUDGET_EXCEEDED_MARKER) message in
      Some (EngineBudgetExceeded, extract_reset_timestamp (trim (default ""%string (head (lines rest)))))
  end.

Definition classify_message (message : string) : option (FailureCode * option string) :=
  code ← classify_message_code (to_ascii_lowercase message);
  Some (code,
    if bool_decide (code = EngineBudgetExceeded) then
      match classify_engine_budget_exceeded message with Some (_, reset) => reset | None => None end
    else None).

(** ** Classified failures *)

Record ReviewerOutcome := mkReviewerOutcome { ro_model : string; ro_err_kind : string }.
Record ClassifiedFailure := mkClassifiedFailure {
  cf_code : FailureCode;
  cf_message : string;
  budget_reset_at : option string;
  cf_reviewers : list ReviewerOutcome
}.

Definition classified_new (code : FailureCode) (message : string) : ClassifiedFailure :=
  mkClassifiedFailure code message None [].
Definition with_budget_reset (code : FailureCode) (message : string) (reset : option string) : ClassifiedFailure :=
  mkClassifiedFailure code message reset [].

(** Instants are nanoseconds; [num_seconds] truncates toward zero. *)
Definition retry_after_s (parse_from_rfc3339 : string -> option Z) (f : ClassifiedFailure) (now : Z) : option Z :=
  reset ← budget_reset_at f;
  at_ ← parse_from_rfc3339 reset;
  let secs := Z.quot (at_ - now) 1000000000 in
  if 0 <? secs then Some secs else None.

Inductive Frame := Classified (f : ClassifiedFailure) | Prose (text : string).
Definition frame_text (fr : Frame) : string :=
  match fr with Classified f => cf_message f | Prose t => t end.

Definition classify_error (chain : list Frame) : option ClassifiedFailure :=
  match find_map (fun fr => match fr with Classified f => Some f | Prose _ => None end) chain with
  | Some f => Some f
  | None =>
      let text := join ": " (map frame_text chain) in
      '(code, reset) ← classify_message text;
      Some (with_budget_reset code text reset)
  end.

(** ** The state of the contract in one process *)

Record ContractRunState := mkContractRunState { cr_scope : bool; cr_emitted : bool }.
Inductive ContractStep := BeginRun (in_scope : bool) | MarkResultEmitted.
Definition contract_step (s : ContractRunState) (e : ContractStep) : ContractRunState :=
  match e with
  | BeginRun scope => mkContractRunState scope false
  | MarkResultEmitted => mkContractRunState (cr_scope s) true
  end.

(** * Theorems *)

(** The code strings are a closed, unambiguous list: every code reads
    back from its string and nothing else does *)
Theorem code_roundtrip s c : from_code s = Some c <-> code_str c = s.
Proof.
  split.
  - intros H. apply find_first_Some in H as [_ H]. by apply bool_decide_eq_true in H.
  - intros <-. by destruct c.
Qed.

(** ** Whole words *)

(** The byte before the text that follows [a], which itself follows [prev]. *)
Definition byte_before (prev : option ascii) (a : string) : option ascii :=
  match last_byte a with Some c => Some c | None => prev end.

Lemma last_byte_some c a : exists d, last_byte (String c a) = Some d.
Proof. revert c. induction a as [|x a IH]; intros c; [by eexists|]. apply IH. Qed.

Lemma byte_before_cons prev c a : byte_before prev (String c a) = byte_before (Some c) a.
Proof.
  unfold byte_before. destruct a as [|x a]; [done|]. change (last_byte (String c (String x a))) with (last_byte (String x a)).
  by destruct (last_byte_some x a) as [d ->].
Qed.

Lemma str_app_inv (a b c d : string) :
  a +:+ b = c +:+ d -> (String.length a <= String.length c)%nat -> exists e, c = a +:+ e /\ b = e +:+ d.
Proof.
  revert c. induction a as [|x a IH]; intros c H Hl.
  { exists c. rewrite !str_nil_app in *. done. }
  destruct c as [|y c]; cbn [String.length] in Hl; [lia|]. rewrite !str_app_cons in H. injection H as -> H.
  destruct (IH c H ltac:(lia)) as (e & -> & ->). exists e. by rewrite str_app_cons.
Qed.

(** A needle none of whose proper suffixes is also one of its prefixes: its
    matches cannot overlap. *)
Definition unbordered (needle : string) : Prop :=
  forall a e, needle = a +:+ e -> (0 < String.length a)%nat -> (0 < String.length e)%nat ->
  strip_prefix e needle = None.

Lemma unbordered_gap needle rest a rest' :
  unbordered needle -> needle +:+ rest = a +:+ needle +:+ rest' -> (0 < String.length a)%nat ->
  (String.length needle <= String.length a)%nat.
Proof.
  intros Hu Heq Ha. destruct (decide (String.length needle <= String.length a)%nat) as [|Hlt]; [done|exfalso].
  symmetry in Heq. apply str_app_inv in Heq as (e & Hn & Heq); [|lia].
  assert (String.length needle = String.length a + String.length e)%nat as Hlen by (by rewrite Hn, str_length_app).
  symmetry in Heq. apply str_app_inv in Heq as (e' & He & _); [|lia].
  specialize (Hu a e Hn Ha ltac:(lia)). by rewrite He, strip_prefix_app in Hu.
Qed.

Lemma word_scan_spec needle h : unbordered needle -> (0 < String.length needle)%nat -> forall before prev skip b t,
  (forall a rest, h = a +:+ needle +:+ rest -> (skip <= String.length a)%nat) ->
  (b, t) ∈ word_scan needle before prev skip h <->
  exists a rest, h = a +:+ needle +:+ rest /\ t = needle +:+ rest /\ b = before +:+ a /\
    stands_alone needle (byte_before prev a) (first_byte rest) = true.
Proof.
  intros Hu Hlen. induction h as [|c r IH]; intros before prev skip b t Hskip.
  { cbn [word_scan]. split; [by intros ?%not_elem_of_nil|]. intros (a & rest & H & _).
    apply (f_equal String.length) in H. rewrite !str_length_app in H. cbn in H. lia. }
  assert (forall k, (forall a rest, r = a +:+ needle +:+ rest -> (k <= String.length a)%nat) ->
    (b, t) ∈ word_scan needle (before +:+ String c "") (Some c) k r <->
    exists a rest, String c r = String c a +:+ needle +:+ rest /\ t = needle +:+ rest /\ b = before +:+ String c a /\
      stands_alone needle (byte_before prev (String c a)) (first_byte rest) = true) as Hnext.
  { intros k Hk. rewrite (IH _ _ _ _ _ Hk). split.
    - intros (a & rest & -> & -> & -> & Hs). exists a, rest. rewrite byte_before_cons, str_app_cons.
      by rewrite str_app_assoc, str_app_cons, str_nil_app.
    - intros (a & rest & H & -> & -> & Hs). rewrite str_app_cons in H. injection H as ->. exists a, rest.
      rewrite byte_before_cons in Hs. by rewrite str_app_assoc, str_app_cons, str_nil_app. }
  cbn [word_scan]. destruct skip as [|k].
  - destruct (strip_prefix needle (String c r)) as [rest|] eqn:E.
    + apply strip_prefix_Some in E. rewrite elem_of_app, Hnext.
      2:{ intros a rest' ->. rewrite E in Hskip. rewrite <- (str_app_cons c) in E. symmetry in E.
          apply unbordered_gap in E; [|done|cbn; lia]. cbn in E. lia. }
      split.
      * intros [H|H].
        -- destruct (stands_alone needle prev (first_byte rest)) eqn:Es; [|by apply not_elem_of_nil in H].
           apply list_elem_of_singleton in H. injection H as -> ->. exists "", rest.
           by rewrite str_nil_app, str_app_nil.
        -- destruct H as (a & rest' & ?). by exists (String c a), rest'.
      * intros (a & rest' & H & -> & -> & Hs). destruct a as [|x a].
        -- left. rewrite str_nil_app in H. rewrite H in E. 
           assert (rest' = rest) as ->.
           { apply str_app_inv in E as (e & He & E); [|done].
             apply (f_equal String.length) in He as Hl. rewrite str_length_app in Hl.
             destruct e; [|cbn in Hl; lia]. by rewrite str_nil_app in E. }
           cbn [byte_before last_byte] in Hs. rewrite Hs. rewrite <- H, str_app_nil. by left.
        -- right. rewrite str_app_cons in H. injection H as <- H. exists a, rest'. by rewrite str_app_cons, H.
    + rewrite Hnext by (intros; lia). split.
      * intros (a & rest' & ?). by exists (String c a), rest'.
      * intros (a & rest' & H & -> & -> & Hs). destruct a as [|x a].
        -- rewrite str_nil_app in H. by rewrite H, strip_prefix_app in E.
        -- rewrite str_app_cons in H. injection H as <- H. exists a, rest'. by rewrite str_app_cons, H.
  - rewrite Hnext.
    2:{ intros a rest ->. specialize (Hskip (String c a) rest). cbn in Hskip. rewrite str_app_cons in Hskip.
        specialize (Hskip eq_refl). lia. }
    split.
    + intros (a & rest' & ?). by exists (String c a), rest'.
    + intros (a & rest' & H & -> & -> & Hs). destruct a as [|x a].
      * specialize (Hskip "" rest' H). cbn in Hskip. lia.
      * rewrite str_app_cons in H. injection H as <- H. exists a, rest'. by rewrite str_app_cons, H.
Qed.

(** A marker is found exactly where it occurs with no word character
    touching a word end of it *)
Theorem has_word_iff haystack needle (Hu : unbordered needle) (Hl : (0 < String.length needle)%nat) :
  has_word haystack needle = true <->
  exists a rest, haystack = a +:+ needle +:+ rest /\ stands_alone needle (last_byte a) (first_byte rest) = true.
Proof.
  pose proof (word_scan_spec needle haystack Hu Hl "" None 0) as H. unfold has_word, word_matches.
  split.
  - destruct (word_scan needle "" None 0 haystack) as [|[b t] l]; [done|intros _].
    destruct (proj1 (H b t ltac:(intros; lia)) ltac:(left)) as (a & rest & -> & _ & _ & Hs).
    exists a, rest. split; [done|]. unfold byte_before in Hs. by destruct (last_byte a).
  - intros (a & rest & -> & Hs).
    assert ((a, needle +:+ rest) ∈ word_scan needle "" None 0 (a +:+ needle +:+ rest)) as Hin.
    { apply H; [intros; lia|]. exists a, rest. split_and!; [done..|]. unfold byte_before. by destruct (last_byte a). }
    destruct (word_scan _ _ _ _ _); [by apply not_elem_of_nil in Hin|done].
Qed.

Definition borders (needle : string) : list nat :=
  filterb (fun k => match strip_prefix (str_drop k needle) needle with Some _ => true | None => false end)
    (seq 1 (String.length needle - 1)).

Lemma unbordered_dec needle : borders needle = [] -> unbordered needle.
Proof.
  intros Hb a e Hn Ha He. destruct (strip_prefix e needle) eqn:E; [|done].
  assert (String.length a ∈ borders needle) as Hin; [|by rewrite Hb in Hin; apply not_elem_of_nil in Hin].
  apply elem_of_filterb. split.
  - rewrite Hn at 1. by rewrite str_drop_app, E.
  - apply elem_of_seq. rewrite Hn, str_length_app. lia.
Qed.

Lemma has_word_iff_witness :
  has_word "engine: budget_exceeded: cap" BUDGET_EXCEEDED_MARKER = true <->
  exists a rest, ("engine: budget_exceeded: cap" = a +:+ BUDGET_EXCEEDED_MARKER +:+ rest)%string /\
    stands_alone BUDGET_EXCEEDED_MARKER (last_byte a) (first_byte rest) = true.
Proof.
  apply (has_word_iff "engine: budget_exceeded: cap" BUDGET_EXCEEDED_MARKER).
  - apply unbordered_dec. reflexivity.
  - vm_compute. lia.
Defined.

(** A marker inside a longer identifier is not found. *)
Lemma longer_word_is_not_a_marker :
  has_word "reviewer_budget_exceeded: x" BUDGET_EXCEEDED_MARKER = false /\
  has_word "token usage: 1200" "usage:" = true /\ starts_a_line_or_frame "token usage: 1200" "usage:" = false.
Proof. by vm_compute. Qed.

(** ** The reset timestamp is a piece of the message *)

Definition piece (x s : string) : Prop := exists a b, s = a +:+ x +:+ b.

Lemma piece_refl s : piece s s.
Proof. exists ""%string, ""%string. by rewrite str_nil_app, str_app_nil. Qed.
Lemma piece_trans x y z : piece x y -> piece y z -> piece x z.
Proof. intros (a & b & ->) (c & d & ->). exists (c +:+ a), (b +:+ d). by rewrite !str_app_assoc. Qed.
Lemma piece_prefix x b : piece x (x +:+ b).
Proof. exists ""%string, b. by rewrite str_nil_app. Qed.
Lemma piece_suffix a x : piece x (a +:+ x).
Proof. exists a, ""%string. by rewrite str_app_nil. Qed.
Lemma piece_cons c x s : piece x s -> piece x (String c s).
Proof. intros (a & b & ->). exists (String c a), b. by rewrite str_app_cons. Qed.

Lemma skip_while_piece p s : piece (skip_while p s) s.
Proof. induction s as [|c s IH]; [apply piece_refl|]. simpl. destruct (p c); [by apply piece_cons|apply piece_refl]. Qed.
Lemma take_while_piece p s : piece (take_while p s) s.
Proof.
  assert (exists b, s = take_while p s +:+ b) as [b Hb]; [|rewrite Hb at 2; apply piece_prefix].
  induction s as [|c s [b IH]]; simpl; [by exists ""%string|].
  destruct (p c); [exists b; by rewrite str_app_cons, <- IH|by eexists].
Qed.
Lemma trim_end_matches_piece p s : piece (trim_end_matches p s) s.
Proof.
  assert (exists b, s = trim_end_matches p s +:+ b) as [b Hb]; [|rewrite Hb at 2; apply piece_prefix].
  induction s as [|c s [b IH]]; simpl; [by exists ""%string|].
  destruct (p c && str_is_empty (trim_end_matches p s)); [by eexists|exists b; by rewrite str_app_cons, <- IH].
Qed.
Lemma str_drop_piece n s : piece (str_drop n s) s.
Proof. revert n. induction s as [|c s IH]; intros [|n]; try apply piece_refl. apply piece_cons, IH. Qed.
Lemma trim_piece s : piece (trim s) s.
Proof.
  unfold trim. apply piece_trans with (trim_start s).
  - assert (forall x, trim_end x = trim_end_matches is_ws x) as -> by (induction x as [|c x IH]; simpl; rewrite ?IH; done).
    apply trim_end_matches_piece.
  - assert (forall x, trim_start x = skip_while is_ws x) as -> by (induction x as [|c x IH]; simpl; rewrite ?IH; done).
    apply skip_while_piece.
Qed.

Lemma split_on_head_piece c s : exists w ws, split_on c s = w :: ws /\ exists b, s = w +:+ b.
Proof.
  induction s as [|a s (w & ws & E & b & Hb)]; simpl; [by exists ""%string, []; split; [|exists ""%string]|].
  destruct (Ascii.eqb a c); [by eexists ""%string, _; split; [|eexists]|]. rewrite E.
  exists (String a w), ws. split; [done|]. exists b. by rewrite str_app_cons, <- Hb.
Qed.
Lemma chomp_piece l : piece (chomp l) l.
Proof.
  unfold chomp. destruct (strip_suffix _ l) as [r|] eqn:E; [|apply piece_refl].
  apply strip_suffix_Some in E. simpl. rewrite E. apply piece_prefix.
Qed.
Lemma first_line_piece s : piece (default ""%string (head (lines s))) s.
Proof.
  destruct (split_on_head_piece newline s) as (w & ws & E & b & Hb).
  assert (piece w s) as Hw by (rewrite Hb; apply piece_prefix).
  unfold lines. change (Ascii.ascii_of_nat 10) with newline. rewrite E.
  destruct ws as [|w' ws].
  - destruct w as [|c w]; [apply (piece_prefix ""%string s)|exact Hw].
  - apply piece_trans with w; [|done]. change (removelast (w :: w' :: ws)) with (w :: removelast (w' :: ws)).
    destruct (last (w :: w' :: ws)) as [[|]|]; apply chomp_piece.
Qed.

Lemma find_map_Some {A B} (f : A -> option B) l y : find_map f l = Some y -> exists x, x ∈ l /\ f x = Some y.
Proof.
  induction l as [|x l IH]; simpl; [done|]. destruct (f x) eqn:E.
  - intros [= ->]. exists x. by split; [left|].
  - intros H. destruct (IH H) as (x' & Hx & Hf). exists x'. by split; [right|].
Qed.

Lemma reset_after_sound tail ts : reset_timestamp_after tail = Some ts -> date_led ts = true /\ piece ts tail.
Proof.
  unfold reset_timestamp_after. case_match eqn:Hd; [|done]. intros [= <-]. split; [done|].
  eapply piece_trans; [apply trim_end_matches_piece|]. eapply piece_trans; [apply take_while_piece|]. apply skip_while_piece.
Qed.

(** A reset timestamp is never made up: it comes only with the engine's
    budget refusal, is led by a date, and stands in the message *)
Theorem reset_is_published m c ts (H : classify_message m = Some (c, Some ts)) :
  c = EngineBudgetExceeded /\ has_word (to_ascii_lowercase m) BUDGET_EXCEEDED_MARKER = true /\
  date_led ts = true /\ piece ts m.
Proof.
  unfold classify_message in H. apply bind_Some in H as (code & _ & H). injection H as -> H.
  case_bool_decide as Hc; [|done]. split; [done|].
  unfold classify_engine_budget_exceeded in H. unfold has_word.
  destruct (word_matches (to_ascii_lowercase m) BUDGET_EXCEEDED_MARKER) as [|[before t] l]; [done|]. split; [done|].
  unfold extract_reset_timestamp in H. apply find_map_Some in H as (at_ & _ & H).
  apply reset_after_sound in H as [Hd Hp]. split; [done|].
  eapply piece_trans; [exact Hp|]. eapply piece_trans; [apply str_drop_piece|].
  eapply piece_trans; [apply trim_piece|]. eapply piece_trans; [apply first_line_piece|]. apply str_drop_piece.
Qed.

Lemma reset_is_published_witness :
  let m := "turn failed: Budget_Exceeded: quota; reset window 30d, resets at 2026-11-01T00:00:00Z."%string in
  classify_message m = Some (EngineBudgetExceeded, Some "2026-11-01T00:00:00Z"%string) /\
  piece "2026-11-01T00:00:00Z" m.
Proof.
  intros m. assert (H : classify_message m = Some (EngineBudgetExceeded, Some "2026-11-01T00:00:00Z"%string))
    by reflexivity.
  split; [exact H|]. apply (reset_is_published m _ _ H).
Defined.

(** The outermost classification of a chain wins; without one the code is
    what the joined text of the frames is recognised as *)
Theorem classify_error_exact chain :
  (exists pre f post, chain = pre ++ Classified f :: post /\ (forall x, x ∈ pre -> exists t, x = Prose t) /\
     classify_error chain = Some f) \/
  ((forall x, x ∈ chain -> exists t, x = Prose t) /\
   classify_error chain =
     (fun '(code, reset) => with_budget_reset code (join ": " (map frame_text chain)) reset)
       <$> classify_message (join ": " (map frame_text chain))).
Proof.
  unfold classify_error.
  assert ((exists pre f post, chain = pre ++ Classified f :: post /\ (forall x, x ∈ pre -> exists t, x = Prose t) /\
     find_map (fun fr => match fr with Classified f => Some f | Prose _ => None end) chain = Some f) \/
   ((forall x, x ∈ chain -> exists t, x = Prose t) /\
     find_map (fun fr => match fr with Classified f => Some f | Prose _ => None end) chain = None)) as Hc.
  { induction chain as [|[f|t] l IH]; simpl.
    - right. by split; [intros x ?%not_elem_of_nil|].
    - left. exists [], f, l. split_and!; [done|by intros x ?%not_elem_of_nil|done].
    - destruct IH as [(pre & f & post & -> & Hp & Hf)|[Hp Hf]].
      + left. exists (Prose t :: pre), f, post. split_and!; [done| |done].
        intros x [->|Hx]%elem_of_cons; [by eexists|by apply Hp].
      + right. split; [|done]. intros x [->|Hx]%elem_of_cons; [by eexists|by apply Hp]. }
  destruct Hc as [(pre & f & post & He & Hp & ->)|[Hp ->]]; [left; by exists pre, f, post|right].
  split; [done|]. by destruct (classify_message _) as [[]|].
Qed.

(** An oversized or an empty diff exits in the internal band, not in the
    operator-fix band. *)
Lemma unusable_diff_exits_internal : exit_code DiffTooLarge = EXIT_INTERNAL /\ exit_code EmptyDiff = EXIT_INTERNAL.
Proof. done. Qed.
