(* ===== verification/Review.v ===== *)
(** Reviewer answers (agentic.rs): findings and verdicts, the extraction of a
    verdict from the text of an answer, the panel's aggregate and the merge of
    the chunks of one review.

    Decoding JSON is an argument: [decode] reads a text as a review,
    [decode_object] reads a text as an object, with its keys and what reading
    it as a review gives. *)
From Stdlib Require Import DecimalString.
From S2P Require Import Prelude Numbers Config Text Failure.
Local Open Scope Z_scope.

(** ** Data *)

Record Finding := mkFinding {
  severity : string;
  title : string;
  body : string;
  location : option string;
  disposition : option string
}.

Definition disposition_or_default (f : Finding) : string :=
  match disposition f with
  | Some d => if bool_decide (d = "real" \/ d = "disproved" \/ d = "intended")%string then d else "open"
  | None => "open"
  end.

Record ReviewOutput := mkReview {
  verdict : string;
  summary : string;
  findings : list Finding;
  next_steps : list string;
  escalation_reason : option string;
  forced_family_conflict : bool;
  filtered_findings : list string
}.

Definition plain_review (v s : string) (fs : list Finding) (steps filtered : list string) : ReviewOutput :=
  mkReview v s fs steps None false filtered.

Definition EMPTY_DIFF_VERDICT : string := "empty_diff".
Definition is_empty_diff (r : ReviewOutput) : bool := eq_ignore_ascii_case (trim (verdict r)) EMPTY_DIFF_VERDICT.

Definition norm (v : string) : string := to_ascii_lowercase (trim v).

Definition verdict_rank (v : string) : nat :=
  let v := norm v in
  if bool_decide (v = "request_changes" \/ v = "reject" \/ v = "block")%string then 2
  else if bool_decide (v = "comment" \/ v = "neutral")%string then 1
  else if bool_decide (v = "approve" \/ v = "")%string then 0
  else 2.

(** ** Balanced objects in a text *)

(** The inner loop from an opening brace: how many bytes up to the brace that
    closes it. *)
Fixpoint balanced_end (s : string) (depth : nat) (in_str esc : bool) : option nat :=
  match s with
  | EmptyString => None
  | String c r =>
      if in_str then
        if esc then S <$> balanced_end r depth true false
        else if Ascii.eqb c backslash then S <$> balanced_end r depth true true
        else S <$> balanced_end r depth (negb (Ascii.eqb c quote)) false
      else if Ascii.eqb c quote then S <$> balanced_end r depth true esc
      else if Ascii.eqb c "{" then S <$> balanced_end r (S depth) false esc
      else if Ascii.eqb c "}" then
        match pred depth with
        | O => Some 1%nat
        | S d => S <$> balanced_end r (S d) false esc
        end
      else S <$> balanced_end r depth false esc
  end.

(** The outer loop; [skip] bytes of the last object are still to be passed. *)
Fixpoint objects_from (skip : nat) (s : string) : list string :=
  match s with
  | EmptyString => []
  | String c r =>
      match skip with
      | S k => objects_from k r
      | O =>
          if Ascii.eqb c "{" then
            match balanced_end s 0 false false with
            | Some n => str_take n s :: objects_from (pred n) r
            | None => []
            end
          else objects_from 0 r
      end
  end.
Definition balanced_json_objects (s : string) : list string := objects_from 0 s.

(** ** Reading an answer *)

(** The text after the first occurrence of [needle]. *)
Fixpoint after_first (needle s : string) : option string :=
  match strip_prefix needle s with
  | Some r => Some r
  | None => match s with EmptyString => None | String _ r => after_first needle r end
  end.

Definition reasoning_tags : list (string * string) :=
  [("<think>", "</think>"); ("<thinking>", "</thinking>"); ("<reasoning>", "</reasoning>")]%string.

Definition strip_leading_reasoning_block (s : string) : string :=
  let t := trim_start s in
  default s (find_map (fun '(open, close) =>
    if (String.length open <=? String.length t)%nat && eq_ignore_ascii_case (str_take (String.length open) t) open then
      let rest := str_drop (String.length open) t in
      match after_first close (to_ascii_lowercase rest) with
      | Some tail => Some (trim_start (str_drop (String.length rest - String.length tail) rest))
      | None => None
      end
    else None) reasoning_tags).

Definition strip_single_code_fence (s : string) : string :=
  match strip_prefix "```" s with
  | None => s
  | Some rest =>
      match strip_suffix "```" rest with
      | None => s
      | Some body =>
          match split_once newline body with
          | None => s
          | Some (info, inner) =>
              if str_all is_ascii_alphanumeric (trim info) && negb (str_contains "```" inner) then trim inner else s
          end
      end
  end.

Definition fail_closed_review_output (raw : string) : ReviewOutput :=
  plain_review "request_changes"
    "Reviewer did not return a parseable structured verdict; failing closed (request_changes). Raw output preserved below."
    [mkFinding "info" "unparseable review (fail-closed)" (trim raw) None None] [] [].

Section Answers.
Variable decode : string -> option ReviewOutput.
Variable decode_object : string -> option (list string * option ReviewOutput).

(** One object of the scan: the most blocking verdict so far. *)
Definition keep_worst (worst : option ReviewOutput * nat) (obj : string) : option ReviewOutput * nat :=
  match decode obj with
  | None => worst
  | Some r =>
      let v := norm (verdict r) in
      if str_is_empty v then worst
      else
        let rank := verdict_rank v in
        if negb (bool_decide (is_Some (fst worst))) || (snd worst <? rank)%nat
        then (Some (plain_review v (summary r) (findings r) (next_steps r) (filtered_findings r)), rank)
        else worst
  end.
Definition parse_review_json_only (raw : string) : option ReviewOutput :=
  fst (foldl keep_worst (None, 0%nat) (balanced_json_objects (trim raw))).

Definition parse_review (raw : string) : ReviewOutput :=
  match parse_review_json_only (trim (strip_leading_reasoning_block raw)) with
  | Some r => r
  | None => fail_closed_review_output raw
  end.

Definition known_severity (s : string) : bool :=
  bool_decide (s ∈ ["critical"; "high"; "medium"; "low"; "info"]%string).

Definition strict_accepts (r : ReviewOutput) : bool :=
  bool_decide (verdict r ∈ ["approve"; "request_changes"; "comment"]%string)
  && negb (str_is_empty (trim (summary r)))
  && negb (bool_decide (trim (summary r) = "..."%string))
  && forallb (fun f => known_severity (severity f) && negb (str_is_empty (trim (title f)))
                       && negb (str_is_empty (trim (body f)))) (findings r)
  && negb (bool_decide (verdict r = "approve"%string)
           && existsb (fun f => bool_decide (severity f ∈ ["critical"; "high"]%string)) (findings r)).

Definition strict_review (raw : string) : option ReviewOutput :=
  '(keys, review) ← decode_object (strip_single_code_fence (trim (strip_leading_reasoning_block raw)));
  if forallb (fun k => bool_decide (k ∈ keys)) ["verdict"; "summary"; "findings"; "next_steps"]%string
  then opt_filter strict_accepts review
  else None.

Definition review_gate_parse (raw : string) : ReviewOutput :=
  match strict_review raw with
  | Some r => r
  | None =>
      let extracted := parse_review raw in
      if bool_decide (verdict extracted = "approve"%string) then fail_closed_review_output raw else extracted
  end.
End Answers.

(** ** The panel *)

Inductive ReviewerSlot := SlotOk (model : string) (review : ReviewOutput) | SlotFailed (model err : string).
Definition slot_model (s : ReviewerSlot) : string := match s with SlotOk m _ | SlotFailed m _ => m end.
Definition slot_is_ok (s : ReviewerSlot) : bool := match s with SlotOk _ _ => true | SlotFailed _ _ => false end.
Definition slot_review (s : ReviewerSlot) : option ReviewOutput := match s with SlotOk _ r => Some r | SlotFailed _ _ => None end.
Definition display_verdict (s : ReviewerSlot) : string := match s with SlotOk _ r => verdict r | SlotFailed _ _ => "comment" end.
Definition display_summary (s : ReviewerSlot) : string :=
  match s with SlotOk _ r => summary r | SlotFailed _ e => "reviewer failed: " +:+ e end.

Record ReviewerView := mkReviewerView {
  rv_model : string; rv_verdict : string; rv_summary : string; rv_findings : list Finding; rv_ok : bool;
  rv_escalation : option string; rv_conflict : bool
}.
Record PanelPayload := mkPanelPayload {
  pp_verdict : string; pp_complete : bool; pp_requested : nat; pp_ok_models : nat; pp_failed_models : nat;
  pp_reviewers : list ReviewerView; pp_filtered : list string; pp_empty_diff : option string
}.

Definition max_rank (l : list nat) : nat := foldr Nat.max 0%nat l.

Definition aggregate_verdict (reviews : list ReviewerSlot) (ok_models failed_models : nat) : string :=
  let worst := max_rank (map (fun r => verdict_rank (verdict r)) (omap slot_review reviews)) in
  if (2 <=? worst)%nat then "request_changes"
  else if (ok_models =? 0)%nat then "request_changes"
  else if (0 <? failed_models)%nat || (1 <=? worst)%nat then "comment"
  else "approve".

Definition aggregate_review (reviews : list ReviewerSlot) (requested ok_models failed_models : nat) :
    string * bool * PanelPayload :=
  let all_failed := (ok_models =? 0)%nat in
  let agg := aggregate_verdict reviews ok_models failed_models in
  (agg, all_failed,
   mkPanelPayload agg (negb all_failed && (failed_models =? 0)%nat && (ok_models =? requested)%nat)
     requested ok_models failed_models
     (map (fun s => mkReviewerView (slot_model s) (display_verdict s) (display_summary s)
             (default [] (findings <$> slot_review s)) (slot_is_ok s)
             (r ← slot_review s; escalation_reason r)
             (match slot_review s with Some r => forced_family_conflict r | None => false end)) reviews)
     (concat (map filtered_findings (omap slot_review reviews)))
     (display_summary <$> find_first (fun s => match slot_review s with Some r => is_empty_diff r | None => false end) reviews)).

(** ** Chunks *)

Definition append_chunk_review (merged review : ReviewOutput) (idx count : nat) : ReviewOutput :=
  mkReview
    (if (verdict_rank (verdict merged) <? verdict_rank (verdict review))%nat then verdict review else verdict merged)
    (if (count =? 1)%nat then summary review
     else summary merged +:+ "Chunk " +:+ show_u (Z.of_nat (idx + 1)) +:+ "/" +:+ show_u (Z.of_nat count) +:+ ": "
            +:+ summary review +:+ String newline "")
    (findings merged ++ findings review) (next_steps merged ++ next_steps review)
    (escalation_reason merged) (forced_family_conflict merged) (filtered_findings merged ++ filtered_findings review).

Fixpoint merge_from (merged : ReviewOutput) (idx count : nat) (reviews : list ReviewOutput) : ReviewOutput :=
  match reviews with
  | [] => merged
  | r :: reviews => merge_from (append_chunk_review merged r idx count) (S idx) count reviews
  end.
Definition merge_chunk_reviews (reviews : list ReviewOutput) : ReviewOutput :=
  merge_from (plain_review "approve" "" [] [] []) 0 (length reviews) reviews.

(** ** Locations and identity of a finding *)

Definition has_concrete_location (f : Finding) : bool :=
  match trim <$> location f with
  | Some l =>
      negb (str_is_empty l)
      && negb (bool_decide (to_ascii_lowercase l ∈ ["n/a"; "none"; "general"; "various"; "-"]%string))
      && negb (str_all (fun c => negb (Ascii.eqb c "." || Ascii.eqb c "/" || Ascii.eqb c ":")) l)
  | None => false
  end.

(** [t.get(..n)] of a text of single-byte characters. *)
Definition strip_prefix_ignore_case (p t : string) : option string :=
  if (String.length p <=? String.length t)%nat && eq_ignore_ascii_case (str_take (String.length p) t) p
  then Some (str_drop (String.length p) t) else None.
Definition line_spec_numbers (tail : string) : string :=
  let t := trim tail in
  match find_map (fun p => strip_prefix_ignore_case p t) ["lines "; "line "]%string with
  | Some r => trim r
  | None => match t with
            | String c r => if Ascii.eqb c "L" || Ascii.eqb c "l" then r else t
            | EmptyString => t
            end
  end.
Definition is_line_spec (tail : string) : bool :=
  let t := line_spec_numbers tail in
  str_is_empty t
  || (negb (str_all (fun c => negb (is_ascii_digit c)) t)
      && str_all (fun c => is_ascii_digit c || Ascii.eqb c "-" || Ascii.eqb c ",") t).

Definition drop_line_spec (path : string) : option string :=
  '(head_, tail) ← rsplit_once ":" path;
  if is_line_spec tail then Some head_ else None.
Definition finding_location_path (loc : option string) : string :=
  match opt_filter (fun l => negb (str_is_empty l)) (trim <$> loc) with
  | None => ""
  | Some l => trim (match drop_line_spec l with
                    | Some p => default p (drop_line_spec p)
                    | None => l
                    end)
  end.

Definition finding_location_line (loc : string) : option Z :=
  let parts := split_on ":" (trim loc) in
  if (length parts <? 2)%nat then None
  else
    let usize (p : option string) := bool_decide (is_Some (s ← p; parse_u64_std s)) in
    let parts := if usize (last parts) && (2 <? length parts)%nat && usize (last (removelast parts))
                 then removelast parts else parts in
    line ← last parts;
    first ← head (split_on "-" (line_spec_numbers line));
    parse_u64_std first.

(** [prev] is the byte before, [sp] whether the last byte written was a space
    (or nothing was written). *)
Definition is_ident (c : ascii) : bool := is_ascii_alphanumeric c || Ascii.eqb c "_".
Fixpoint norm_title (prev : option ascii) (sp : bool) (s : string) : string :=
  match s with
  | EmptyString => EmptyString
  | String c r =>
      let inner_dash :=
        match prev, r with
        | Some p, String n _ => is_ident p && is_ident n
        | _, _ => false
        end in
      if is_ws c || (Ascii.eqb c "-" && negb inner_dash) then
        if sp then norm_title (Some c) true r else String " " (norm_title (Some c) true r)
      else String c (norm_title (Some c) false r)
  end.
Definition finding_fingerprint (f : Finding) : string :=
  finding_location_path (location f) +:+ "::" +:+ trim (norm_title None true (to_ascii_lowercase (title f))).

(** * Theorems *)

Lemma lower_idem s : to_ascii_lowercase (to_ascii_lowercase s) = to_ascii_lowercase s.
Proof.
  induction s as [|c s IH]; simpl; [done|]. rewrite IH. f_equal.
  destruct c as [[] [] [] [] [] [] [] []]; reflexivity.
Qed.

(** A letter of a lower-cased text is blank exactly when it was. *)
Lemma lower_ws c : is_ws (lower_ascii c) = is_ws c.
Proof. destruct c as [[] [] [] [] [] [] [] []]; reflexivity. Qed.
Lemma trim_start_lower s : trim_start (to_ascii_lowercase s) = to_ascii_lowercase (trim_start s).
Proof. induction s as [|c s IH]; simpl; [done|]. rewrite lower_ws. by destruct (is_ws c). Qed.
Lemma trim_end_lower s : trim_end (to_ascii_lowercase s) = to_ascii_lowercase (trim_end s).
Proof.
  induction s as [|c s IH]; simpl; [done|]. rewrite IH, lower_ws.
  assert (str_is_empty (to_ascii_lowercase (trim_end s)) = str_is_empty (trim_end s)) as -> by by destruct (trim_end s).
  by destruct (is_ws c && str_is_empty (trim_end s)).
Qed.

Lemma norm_idem v : norm (norm v) = norm v.
Proof.
  assert (trim (to_ascii_lowercase (trim v)) = to_ascii_lowercase (trim (trim v))) as H
    by (unfold trim; by rewrite trim_start_lower, trim_end_lower).
  unfold norm. by rewrite H, trim_idem, lower_idem.
Qed.

Lemma verdict_rank_norm v : verdict_rank (norm v) = verdict_rank v.
Proof. unfold verdict_rank. by rewrite norm_idem. Qed.

Lemma verdict_rank_0 v : verdict_rank v = 0%nat <-> norm v = "approve"%string \/ norm v = ""%string.
Proof.
  unfold verdict_rank. generalize (norm v). intros w. split.
  - repeat case_bool_decide; [done|done|done|done].
  - intros [->| ->]; reflexivity.
Qed.

(** ** The scan *)

(** What follows the quote that opens a string literal, its closing quote
    included; a backslash takes the byte after it along. *)
Inductive quoted : string -> Prop :=
  | quoted_end : quoted (String quote "")
  | quoted_esc c r : quoted r -> quoted (String backslash (String c r))
  | quoted_char c r : c <> quote -> c <> backslash -> quoted r -> quoted (String c r).
(** What may stand between two braces: string literals, objects, and other
    bytes. *)
Inductive balanced_text : string -> Prop :=
  | balanced_nil : balanced_text ""
  | balanced_char c r : c <> quote -> c <> "{"%char -> c <> "}"%char -> balanced_text r -> balanced_text (String c r)
  | balanced_string l r : quoted l -> balanced_text r -> balanced_text (String quote (l +:+ r))
  | balanced_braces o r : balanced_text o -> balanced_text r -> balanced_text (String "{" (o +:+ String "}" r)).
(** A text whose opening brace is closed by its last byte. *)
Definition closed_object (o : string) : Prop := exists b, o = String "{" (b +:+ "}") /\ balanced_text b.

(** What stands in a text between its balanced objects [os]: bytes without an
    opening brace, and at the end perhaps one that is never closed. *)
Inductive laid_out : string -> list string -> Prop :=
  | laid_end p : str_has "{" p = false -> laid_out p []
  | laid_open p t : str_has "{" p = false -> (forall o u, String "{" t = o +:+ u -> ~ closed_object o) ->
      laid_out (p +:+ String "{" t) []
  | laid_object p o t os : str_has "{" p = false -> closed_object o -> laid_out t os -> laid_out (p +:+ o +:+ t) (o :: os).

(** What closes [d] open braces. *)
Inductive closes : nat -> string -> Prop :=
  | closes_last b : balanced_text b -> closes 1 (b +:+ "}")
  | closes_more d b o : balanced_text b -> closes d o -> closes (S d) (b +:+ String "}" o).

Lemma balanced_app a b : balanced_text a -> balanced_text b -> balanced_text (a +:+ b).
Proof.
  intros Ha Hb. induction Ha as [|c r ? ? ? _ IH|l r Hl _ IH|o r Ho _ _ IH].
  - by rewrite str_nil_app.
  - rewrite str_app_cons. by constructor.
  - rewrite str_app_cons, str_app_assoc. by constructor.
  - rewrite str_app_cons, str_app_assoc, str_app_cons. by constructor.
Qed.
Lemma closes_under d b o : balanced_text b -> closes d o -> closes d (b +:+ o).
Proof.
  intros Hb Ho. destruct Ho as [b' Hb'|d b' o Hb' Ho]; rewrite <- str_app_assoc; constructor; try done; by apply balanced_app.
Qed.
Lemma closes_pos d o : closes d o -> exists d', d = S d'.
Proof. intros []; eauto. Qed.
Lemma closes_brace d o : closes (S (S d)) o -> closes (S d) (String "{" o).
Proof.
  inversion 1 as [|d' b o' Hb Ho E1 E2]; subst. change (String "{" (b +:+ String "}" o')) with (String "{" (b +:+ String "}" ("" +:+ o'))).
  replace (String "{" (b +:+ String "}" ("" +:+ o'))) with (String "{" (b +:+ String "}" "") +:+ o')
    by (by rewrite str_app_cons, str_app_assoc, str_app_cons).
  apply closes_under; [|done]. repeat constructor; done.
Qed.
Lemma fmap_S_add n (x : option nat) : S <$> ((fun m => n + m)%nat <$> x) = (fun m => S n + m)%nat <$> x.
Proof. by destruct x. Qed.

Lemma quoted_scan l s d : quoted l -> balanced_end (l +:+ s) d true false = (fun m => String.length l + m)%nat <$> balanced_end s d false false.
Proof.
  induction 1 as [|c r _ IH|c r Hq Hb _ IH]; rewrite ?str_app_cons, ?str_nil_app; cbn [balanced_end String.length].
  - done.
  - change (Ascii.eqb backslash backslash) with true. cbn. by rewrite IH, !fmap_S_add.
  - apply Ascii.eqb_neq in Hq, Hb. rewrite Hq, Hb. cbn. by rewrite IH, fmap_S_add.
Qed.
Lemma balanced_scan b s d : balanced_text b ->
  balanced_end (b +:+ s) (S d) false false = (fun m => String.length b + m)%nat <$> balanced_end s (S d) false false.
Proof.
  intros Hb. revert s d. induction Hb as [|c r Hq Ho Hc _ IH|l r Hl _ IH|o r _ IHo _ IH]; intros s d.
  - rewrite str_nil_app. by destruct (balanced_end s _ _ _).
  - rewrite str_app_cons. cbn [balanced_end String.length]. apply Ascii.eqb_neq in Hq, Ho, Hc. by rewrite Hq, Ho, Hc, IH, fmap_S_add.
  - rewrite str_app_cons, str_app_assoc. cbn [balanced_end String.length]. change (Ascii.eqb quote quote) with true. cbn iota.
    rewrite (quoted_scan _ _ _ Hl), IH, str_length_app. destruct (balanced_end s _ _ _); cbn; [f_equal; lia|done].
  - rewrite str_app_cons, str_app_assoc, str_app_cons. cbn [balanced_end String.length].
    change (Ascii.eqb "{" quote) with false. change (Ascii.eqb "{" "{") with true. cbn iota. rewrite IHo. cbn [balanced_end].
    change (Ascii.eqb "}" quote) with false. change (Ascii.eqb "}" "{") with false. change (Ascii.eqb "}" "}") with true. cbn [pred].
    rewrite IH, str_length_app. cbn [String.length]. destruct (balanced_end s _ _ _); cbn; [f_equal; lia|done].
Qed.
Lemma scan_sound s :
  (forall d n, balanced_end s (S d) false false = Some n -> exists o u, s = o +:+ u /\ String.length o = n /\ closes (S d) o)
  /\ forall e d n, balanced_end s (S d) true e = Some n ->
       exists l r m, s = l +:+ r /\ balanced_end r (S d) false false = Some m /\ n = (String.length l + m)%nat
         /\ (if e then exists c l', l = String c l' /\ quoted l' else quoted l)
         /\ (exists o u, r = o +:+ u /\ String.length o = m /\ closes (S d) o).
Proof.
  induction s as [|c s [IHo IHs]]; [split; intros; done|]. split.
  - intros d n. cbn [balanced_end]. destruct (Ascii.eqb c quote) eqn:Eq.
    { apply Ascii.eqb_eq in Eq as ->. intros (m & H & ->)%fmap_Some.
      apply IHs in H as (l & r & m' & -> & _ & -> & Hl & o & u & -> & <- & Ho).
      exists (String quote (l +:+ o)), u. rewrite str_app_cons, str_app_assoc. split; [done|]. cbn. rewrite str_length_app. split; [done|].
      replace (String quote (l +:+ o)) with (String quote (l +:+ "") +:+ o) by (by rewrite str_app_cons, str_app_nil).
      apply closes_under; [|done]. by repeat constructor. }
    destruct (Ascii.eqb c "{") eqn:Eo.
    { apply Ascii.eqb_eq in Eo as ->. intros (m & H & ->)%fmap_Some. apply IHo in H as (o & u & -> & <- & Ho).
      exists (String "{" o), u. do 2 (split; [done|]). by apply closes_brace. }
    destruct (Ascii.eqb c "}") eqn:Ec.
    { apply Ascii.eqb_eq in Ec as ->. cbn [pred]. destruct d as [|d].
      - intros [= <-]. exists "}", s. do 2 (split; [done|]). apply (closes_last ""). constructor.
      - intros (m & H & ->)%fmap_Some. apply IHo in H as (o & u & -> & <- & Ho). exists (String "}" o), u. do 2 (split; [done|]).
        apply (closes_more _ ""); [constructor|done]. }
    intros (m & H & ->)%fmap_Some. apply IHo in H as (o & u & -> & <- & Ho). exists (String c o), u. do 2 (split; [done|]).
    apply Ascii.eqb_neq in Eq, Eo, Ec. apply (closes_under _ (String c "") o); [|done]. by repeat constructor.
  - intros e d n. cbn [balanced_end]. destruct e.
    { intros (m & H & ->)%fmap_Some. apply IHs in H as (l & r & m' & -> & Hr & -> & Hl & Ho).
      exists (String c l), r, m'. do 3 (split; [done|]). split; [by eauto|done]. }
    destruct (Ascii.eqb c backslash) eqn:Eb.
    { apply Ascii.eqb_eq in Eb as ->. intros (m & H & ->)%fmap_Some. apply IHs in H as (l & r & m' & -> & Hr & -> & (c & l' & -> & Hl) & Ho).
      exists (String backslash (String c l')), r, m'. do 3 (split; [done|]). split; [by constructor|done]. }
    destruct (Ascii.eqb c quote) eqn:Eq; cbn [negb]; intros (m & H & ->)%fmap_Some.
    + apply Ascii.eqb_eq in Eq as ->. exists (String quote ""), s, m. do 3 (split; [done|]). split; [constructor|by apply IHo].
    + apply IHs in H as (l & r & m' & -> & Hr & -> & Hl & Ho). exists (String c l), r, m'. do 3 (split; [done|]). split; [|done].
      apply Ascii.eqb_neq in Eb, Eq. by constructor.
Qed.

(** The scan from an opening brace finds the object the brace opens. *)
Lemma scan_exact t n : balanced_end (String "{" t) 0 false false = Some n <->
  exists o u, String "{" t = o +:+ u /\ String.length o = n /\ closed_object o.
Proof.
  assert (balanced_end (String "{" t) 0 false false = S <$> balanced_end t 1 false false) as -> by reflexivity. split.
  - intros (m & H & ->)%fmap_Some. apply scan_sound in H as (o & u & -> & <- & Ho). exists (String "{" o), u. do 2 (split; [done|]).
    inversion Ho as [b Hb|d' b o' _ Ho']; subst; [by exists b|]. by apply closes_pos in Ho' as [].
  - intros (o & u & H & <- & b & -> & Hb). rewrite str_app_cons in H. injection H as ->. rewrite str_app_assoc, balanced_scan by done.
    cbn [balanced_end String.length]. rewrite str_app_cons, str_nil_app. cbn. by rewrite str_length_app.
Qed.
Lemma closed_object_scan o : closed_object o <-> (exists r, o = String "{" r) /\ balanced_end o 0 false false = Some (String.length o).
Proof.
  split.
  - intros Ho. pose proof Ho as (b & -> & _). split; [by eexists|]. apply scan_exact. exists (String "{" (b +:+ "}")), "". by rewrite str_app_nil.
  - intros [[r ->] H]. apply scan_exact in H as (o & u & H & Hl & Ho). apply (f_equal String.length) in H as Hlen.
    rewrite str_length_app in Hlen. destruct u; [|cbn in Hlen, Hl; lia]. by rewrite H, str_app_nil.
Qed.
Lemma never_closed t : balanced_end (String "{" t) 0 false false = None <-> forall o u, String "{" t = o +:+ u -> ~ closed_object o.
Proof.
  rewrite eq_None_not_Some. unfold is_Some. setoid_rewrite scan_exact. naive_solver.
Qed.

Lemma balanced_end_bound s d i e n : balanced_end s d i e = Some n -> (0 < n <= String.length s)%nat.
Proof.
  revert d i e n. induction s as [|c s IH]; intros d i e n; cbn [balanced_end String.length]; [done|].
  assert (forall d i e, S <$> balanced_end s d i e = Some n -> (0 < n <= S (String.length s))%nat) as Hs.
  { intros d' i' e' H. apply fmap_Some in H as (m & Hm & ->). apply IH in Hm. lia. }
  repeat case_match; try apply Hs. intros [= <-]. lia.
Qed.

(** The end of an object depends on the object only. *)
Lemma balanced_end_local s d i e n t :
  balanced_end s d i e = Some n -> balanced_end (str_take n s +:+ t) d i e = Some n.
Proof.
  revert d i e n. induction s as [|c s IH]; intros d i e n; cbn [balanced_end]; [done|].
  assert (forall d i e, S <$> balanced_end s d i e = Some n ->
    exists m, n = S m /\ S <$> balanced_end (str_take m s +:+ t) d i e = Some n) as Hs.
  { intros d' i' e' H. apply fmap_Some in H as (m & Hm & ->). exists m. split; [done|]. by rewrite (IH _ _ _ _ Hm). }
  repeat case_match; intros Hb;
    first [ apply Hs in Hb as (m & -> & Hb); cbn [str_take]; rewrite str_app_cons; cbn [balanced_end];
            repeat match goal with H : _ = _ |- _ => rewrite H end; done
          | injection Hb as <-; cbn [str_take]; rewrite str_app_cons; cbn [balanced_end];
            repeat match goal with H : _ = _ |- _ => rewrite H end; done ].
Qed.

Lemma objects_skip n s : objects_from n s = objects_from 0 (str_drop n s).
Proof. revert n. induction s as [|c s IH]; intros [|n]; try done. cbn [objects_from str_drop]. apply IH. Qed.

Lemma objects_prose p t : str_has "{" p = false -> objects_from 0 (p +:+ t) = objects_from 0 t.
Proof.
  induction p as [|c p IH]; [by rewrite str_nil_app|]. cbn [str_has]. intros [Hc Hp]%orb_false_iff.
  rewrite str_app_cons. cbn [objects_from]. rewrite Hc. by apply IH.
Qed.

(** C38: the scan returns exactly the balanced objects of a text: a list of
    objects is returned exactly when the text is laid out around them, as bytes
    without an opening brace, an object whose braces balance outside its string
    literals, and so on, up to the end or to a brace that is never closed *)
Theorem balanced_objects_exact s os : balanced_json_objects s = os <-> laid_out s os.
Proof.
  unfold balanced_json_objects. split.
  - revert os. remember (String.length s) as n eqn:Hn. revert s Hn.
    induction (lt_wf n) as [n _ IH]. intros s -> os <-.
    assert (exists p t, s = p +:+ t /\ str_has "{" p = false /\ (t = ""%string \/ exists r, t = String "{" r))
      as (p & t & -> & Hp & Ht).
    { clear IH. induction s as [|c s (p & t & -> & Hp & Ht)]; [exists "", ""; auto|].
      destruct (Ascii.eqb c "{") eqn:E.
      - apply Ascii.eqb_eq in E as ->. exists "", (String "{" (p +:+ t)). rewrite str_nil_app. eauto.
      - exists (String c p), t. rewrite str_app_cons. cbn [str_has]. by rewrite E, Hp. }
    rewrite objects_prose by done. destruct Ht as [->|[r ->]].
    { rewrite str_app_nil. by constructor. }
    cbn [objects_from]. change (Ascii.eqb "{" "{") with true. cbn [negb].
    destruct (balanced_end (String "{" r) 0 false false) as [n|] eqn:E; [|apply laid_open; [done|by apply never_closed]].
    pose proof (balanced_end_bound _ _ _ _ _ E) as Hn. destruct n as [|n]; [lia|]. cbn [pred].
    rewrite (str_take_drop (S n) (String "{" r)) at 1. cbn [str_drop]. rewrite objects_skip.
    apply laid_object; [done| |].
    + apply closed_object_scan. split; [by eexists|]. pose proof (balanced_end_local _ _ _ _ _ "" E) as Hl. rewrite str_app_nil in Hl.
      by rewrite Hl, str_take_length by lia.
    + eapply IH; [|done|done]. rewrite (str_take_drop (S n) (String "{" r)). cbn [str_drop].
      rewrite !str_length_app, str_take_length by lia. lia.
  - induction 1 as [p Hp|p t Hp Ht%never_closed|p o t os Hp [[r ->] Ho]%closed_object_scan _ IH].
    + by rewrite <- (str_app_nil p), objects_prose.
    + rewrite objects_prose by done. cbn [objects_from]. change (Ascii.eqb "{" "{") with true. by rewrite Ht.
    + rewrite objects_prose by done. pose proof (balanced_end_local _ _ _ _ _ t Ho) as Hl.
      pose proof (str_take_app (String "{" r) "") as Hall. rewrite str_app_nil in Hall. rewrite Hall in Hl.
      rewrite str_app_cons in *. cbn [objects_from]. change (Ascii.eqb "{" "{") with true.
      rewrite Hl. rewrite <- (str_app_cons "{" r t), str_take_app. f_equal. cbn [String.length pred].
      by rewrite objects_skip, str_drop_app.
Qed.

(** ** The whole answer *)

(** [s], behind its leading blanks, opens with a reasoning block of [tag],
    whatever its case; [after] is what follows its first closing tag. *)
Definition leading_block (tag : string * string) (s after : string) : Prop :=
  exists open inner close,
    trim_start s = open +:+ inner +:+ close +:+ after
    /\ eq_ignore_ascii_case open (fst tag) = true /\ eq_ignore_ascii_case close (snd tag) = true
    /\ forall inner' close' after', inner +:+ close +:+ after = inner' +:+ close' +:+ after' ->
         eq_ignore_ascii_case close' (snd tag) = true -> (String.length inner <= String.length inner')%nat.
Definition thought_free (s t : string) : Prop :=
  (exists tag after, tag ∈ reasoning_tags /\ leading_block tag s after /\ t = trim_start after)
  \/ (forall tag after, tag ∈ reasoning_tags -> ~ leading_block tag s after) /\ t = s.
(** [t] is one code fence around [inner] and nothing else. *)
Definition fence_around (t inner : string) : Prop :=
  exists info, t = "```" +:+ info +:+ String newline (inner +:+ "```")
    /\ str_has newline info = false /\ str_all is_ascii_alphanumeric (trim info) = true /\ ~ piece "```" inner.
Definition fence_free (t o : string) : Prop :=
  (exists inner, fence_around t inner /\ o = trim inner) \/ (forall inner, ~ fence_around t inner) /\ o = t.
(** [o] is all there is of an answer, apart from one reasoning block before it,
    one fence around it and blanks. *)
Definition whole_answer (raw o : string) : Prop := exists t, thought_free raw t /\ fence_free (trim t) o.

Lemma lowercase_app a b : to_ascii_lowercase (a +:+ b) = to_ascii_lowercase a +:+ to_ascii_lowercase b.
Proof. induction a as [|c a IH]; [by rewrite !str_nil_app|]. rewrite str_app_cons. cbn [to_ascii_lowercase]. by rewrite IH, str_app_cons. Qed.
Lemma lower_length s : String.length (to_ascii_lowercase s) = String.length s.
Proof. induction s as [|c s IH]; cbn; [done|]. by rewrite IH. Qed.
Lemma lower_app_inv s x y : to_ascii_lowercase s = x +:+ y ->
  exists a b, s = a +:+ b /\ to_ascii_lowercase a = x /\ to_ascii_lowercase b = y.
Proof.
  revert x. induction s as [|c s IH]; intros [|d x].
  - rewrite str_nil_app. intros <-. by exists "", "".
  - by rewrite str_app_cons.
  - rewrite str_nil_app. intros <-. by exists "", (String c s).
  - rewrite str_app_cons. cbn [to_ascii_lowercase]. intros [= <- H]. apply IH in H as (a & b & -> & <- & <-).
    by exists (String c a), b.
Qed.
Lemma str_app_same (a b c d : string) : a +:+ b = c +:+ d -> String.length a = String.length c -> a = c /\ b = d.
Proof.
  intros H Hl. destruct (str_app_inv _ _ _ _ H ltac:(lia)) as (e & -> & ->). rewrite str_length_app in Hl.
  destruct e; cbn in Hl; [|lia]. by rewrite str_app_nil, str_nil_app.
Qed.
Lemma str_app_injr (a b c : string) : a +:+ c = b +:+ c -> a = b.
Proof. intros H. apply (str_app_same a c b c) in H as [? _]; [done|]. apply (f_equal String.length) in H. rewrite !str_length_app in H. lia. Qed.

Lemma after_first_spec n s r :
  after_first n s = Some r <->
  exists a, s = a +:+ n +:+ r /\ forall a' r', s = a' +:+ n +:+ r' -> (String.length a <= String.length a')%nat.
Proof.
  assert (Hu : forall s r1 r2, (exists a, s = a +:+ n +:+ r1 /\ forall a' r', s = a' +:+ n +:+ r' -> (String.length a <= String.length a')%nat) ->
    (exists a, s = a +:+ n +:+ r2 /\ forall a' r', s = a' +:+ n +:+ r' -> (String.length a <= String.length a')%nat) -> r1 = r2).
  { intros u r1 r2 (a1 & H1 & L1) (a2 & H2 & L2). pose proof (L1 _ _ H2). pose proof (L2 _ _ H1). rewrite H1 in H2.
    apply str_app_same in H2 as [_ H2]; [|lia]. by apply str_app_same in H2 as [_ H2]. }
  assert (Hs : forall s r, after_first n s = Some r ->
    exists a, s = a +:+ n +:+ r /\ forall a' r', s = a' +:+ n +:+ r' -> (String.length a <= String.length a')%nat).
  { clear. induction s as [|c s IH]; intros r; cbn [after_first]; destruct (strip_prefix n _) as [x|] eqn:E.
    1,3: intros [= <-]; apply strip_prefix_Some in E; exists ""; rewrite str_nil_app; split; [done|]; intros; cbn; lia.
    { done. }
    intros H. destruct (IH r H) as (a & -> & Hl). exists (String c a). rewrite str_app_cons. split; [done|].
    intros [|d a'] r' Ha'.
    - rewrite str_nil_app in Ha'. rewrite Ha', strip_prefix_app in E. done.
    - rewrite str_app_cons in Ha'. injection Ha' as _ Ha'. apply Hl in Ha'. cbn. lia. }
  split; [apply Hs|]. intros Hr. destruct (after_first n s) as [r'|] eqn:E.
  { f_equal. eapply Hu; [by apply Hs|done]. }
  exfalso. destruct Hr as (a & -> & _). clear Hs Hu. induction a as [|c a IH].
  - rewrite str_nil_app in E. destruct (n +:+ r) eqn:En; cbn [after_first] in E; rewrite <- En in E; by rewrite strip_prefix_app in E.
  - rewrite str_app_cons in E. cbn [after_first] in E. destruct (strip_prefix n _); [done|]. by apply IH.
Qed.

Lemma lower_tags tag : tag ∈ reasoning_tags -> to_ascii_lowercase (fst tag) = fst tag /\ to_ascii_lowercase (snd tag) = snd tag.
Proof. unfold reasoning_tags. rewrite !elem_of_cons, elem_of_nil. intros [->|[->|[->|[]]]]; by split. Qed.

Lemma eq_ignore_lower a b : eq_ignore_ascii_case a b = true -> to_ascii_lowercase b = b -> to_ascii_lowercase a = b.
Proof. unfold eq_ignore_ascii_case. intros H%bool_decide_eq_true Hb. by rewrite H. Qed.
Lemma lower_eq_ignore a b : to_ascii_lowercase b = b -> to_ascii_lowercase a = b -> eq_ignore_ascii_case a b = true.
Proof. unfold eq_ignore_ascii_case. intros Hb Ha. apply bool_decide_eq_true. by rewrite Ha. Qed.

(** One round of the loop over the tags. *)
Definition block_rest (s : string) (tag : string * string) : option string :=
  let t := trim_start s in
  if (String.length (fst tag) <=? String.length t)%nat && eq_ignore_ascii_case (str_take (String.length (fst tag)) t) (fst tag) then
    let rest := str_drop (String.length (fst tag)) t in
    tail ← after_first (snd tag) (to_ascii_lowercase rest);
    Some (trim_start (str_drop (String.length rest - String.length tail) rest))
  else None.
Lemma strip_leading_rounds s : strip_leading_reasoning_block s = default s (find_map (block_rest s) reasoning_tags).
Proof. reflexivity. Qed.

Lemma block_rest_spec s tag x : tag ∈ reasoning_tags ->
  block_rest s tag = Some x <-> exists after, leading_block tag s after /\ x = trim_start after.
Proof.
  intros Htag. destruct (lower_tags tag Htag) as [Lo Lc]. unfold block_rest, leading_block. set (t := trim_start s). cbn zeta. split.
  - destruct (_ && _) eqn:E; [|done]. apply andb_true_iff in E as [Hl%Nat.leb_le Hopen].
    set (rest := str_drop _ t). intros (tail & Ha & [= <-])%bind_Some. apply after_first_spec in Ha as (a & Hs & Hmin).
    apply lower_app_inv in Hs as (inner & u & Hrest & <- & Hs). apply lower_app_inv in Hs as (close & after & -> & Hc & <-).
    assert (Hd : str_drop (String.length rest - String.length (to_ascii_lowercase after)) rest = after).
    { rewrite Hrest, !str_length_app, lower_length, <- str_app_assoc.
      replace (_ - _)%nat with (String.length (inner +:+ close)) by (rewrite str_length_app; lia). apply str_drop_app. }
    rewrite Hd. exists after. split; [|done]. exists (str_take (String.length (fst tag)) t), inner, close.
    split; [|split; [done|split; [by apply lower_eq_ignore|]]].
    + rewrite <- Hrest. apply str_take_drop.
    + intros inner' close' after' He Hc'. rewrite <- Hrest in He. apply eq_ignore_lower in Hc'; [|done].
      specialize (Hmin (to_ascii_lowercase inner') (to_ascii_lowercase after')). rewrite !lower_length in Hmin. apply Hmin.
      by rewrite He, !lowercase_app, Hc'.
  - intros (after & (open & inner & close & Ht & Ho & Hc & Hmin) & ->).
    pose proof (eq_ignore_lower _ _ Ho Lo) as Ho'. pose proof (eq_ignore_lower _ _ Hc Lc) as Hc'.
    assert (String.length (fst tag) = String.length open) as Hlen by by rewrite <- Ho', lower_length.
    rewrite Hlen, Ht, str_take_app, str_drop_app, Ho, str_length_app, andb_true_r.
    destruct (Nat.leb_spec (String.length open) (String.length open + String.length (inner +:+ close +:+ after))); [|lia].
    assert (after_first (snd tag) (to_ascii_lowercase (inner +:+ close +:+ after)) = Some (to_ascii_lowercase after)) as ->.
    { apply after_first_spec. exists (to_ascii_lowercase inner). rewrite !lowercase_app, Hc'. split; [done|].
      intros a' r' He. rewrite <- Hc', <- !lowercase_app in He. apply lower_app_inv in He as (i' & u & He & <- & Hu).
      apply lower_app_inv in Hu as (c' & a' & -> & Hcc & <-). rewrite !lower_length. apply (Hmin _ _ _ He).
      apply lower_eq_ignore; [done|]. by rewrite Hcc. }
    cbn [mbind option_bind]. rewrite lower_length, !str_length_app, <- str_app_assoc.
    replace (_ - _)%nat with (String.length (inner +:+ close)) by (rewrite str_length_app; lia). by rewrite str_drop_app.
Qed.

Lemma take_take m n s : (m <= n)%nat -> str_take m (str_take n s) = str_take m s.
Proof. revert n s. induction m as [|m IH]; intros [|n] [|c s] H; cbn; try done; [lia|]. f_equal. apply IH. lia. Qed.
Lemma lower_take n s : to_ascii_lowercase (str_take n s) = str_take n (to_ascii_lowercase s).
Proof. revert s. induction n as [|n IH]; intros [|c s]; cbn; try done. by rewrite IH. Qed.
Lemma one_block s t1 t2 x1 x2 : t1 ∈ reasoning_tags -> t2 ∈ reasoning_tags ->
  block_rest s t1 = Some x1 -> block_rest s t2 = Some x2 -> x1 = x2.
Proof.
  intros H1 H2 E1 E2. assert (t1 = t2) as ->; [|congruence].
  assert (forall t x, t ∈ reasoning_tags -> block_rest s t = Some x ->
    str_take (String.length (fst t)) (to_ascii_lowercase (trim_start s)) = fst t) as Hp.
  { intros t x Ht. unfold block_rest. cbn zeta. destruct (_ && _) eqn:E; [|done]. intros _. apply andb_true_iff in E as [_ E].
    rewrite <- lower_take. apply eq_ignore_lower; [done|]. by apply lower_tags. }
  apply Hp in E1, E2; [|done..]. clear Hp. set (l := to_ascii_lowercase _) in *.
  assert (forall a b : string * string, (String.length (fst a) <= String.length (fst b))%nat -> str_take (String.length (fst a)) l = fst a ->
    str_take (String.length (fst b)) l = fst b -> str_take (String.length (fst a)) (fst b) = fst a) as Hpre.
  { intros a b Hl Ha Hb. by rewrite <- Hb, take_take. }
  unfold reasoning_tags in *. rewrite !elem_of_cons, elem_of_nil in H1, H2.
  destruct H1 as [->|[->|[->|[]]]], H2 as [->|[->|[->|[]]]]; try done; exfalso;
    first [ pose proof (fun H => Hpre _ _ H E1 E2) as K; specialize (K ltac:(cbn; lia))
          | pose proof (fun H => Hpre _ _ H E2 E1) as K; specialize (K ltac:(cbn; lia)) ]; vm_compute in K; discriminate.
Qed.

Lemma find_map_none {A B} (f : A -> option B) l x : find_map f l = None -> x ∈ l -> f x = None.
Proof. induction l as [|y l IH]; cbn; [by intros _ ?%not_elem_of_nil|]. destruct (f y) eqn:E; [done|]. intros H [->|Hx]%elem_of_cons; auto. Qed.
Lemma thought_free_spec s t : thought_free s t <-> t = strip_leading_reasoning_block s.
Proof.
  rewrite strip_leading_rounds. unfold thought_free. destruct (find_map (block_rest s) reasoning_tags) as [x|] eqn:E; cbn.
  - apply find_map_Some in E as (tag & Hin & E). pose proof (proj1 (block_rest_spec s tag x Hin) E) as (after & Hb & Hx). split.
    + intros [(tag' & after' & Hin' & Hb' & ->)|[Hno _]]; [|by apply Hno in Hb].
      eapply one_block; [exact Hin'|exact Hin| |exact E]. apply block_rest_spec; [done|]. by exists after'.
    + intros ->. left. by exists tag, after.
  - assert (forall tag after, tag ∈ reasoning_tags -> ~ leading_block tag s after) as Hno.
    { intros tag after Hin Hb. assert (block_rest s tag = Some (trim_start after)) as H by (apply block_rest_spec; [done|]; by exists after).
      by rewrite (find_map_none _ _ _ E Hin) in H. }
    split; [|by right]. intros [(tag & after & Hin & Hb & _)|[_ ->]]; [by apply Hno in Hb|done].
Qed.

Lemma split_once_first c s a b : split_once c s = Some (a, b) <-> s = a +:+ String c b /\ str_has c a = false.
Proof.
  revert a b. induction s as [|d s IH]; intros a b; cbn [split_once].
  { split; [done|]. intros [H _]. by destruct a. }
  destruct (Ascii.eqb d c) eqn:E.
  - apply Ascii.eqb_eq in E as ->. split; [intros [= <- <-]; by rewrite str_nil_app|].
    intros [H Ha]. destruct a as [|x a]; [rewrite str_nil_app in H; by injection H as ->|].
    rewrite str_app_cons in H. injection H as <- _. cbn in Ha. by rewrite Ascii.eqb_refl in Ha.
  - destruct (split_once c s) as [[x y]|] eqn:Es.
    + pose proof (proj1 (IH x y) eq_refl) as [-> Hx]. split.
      * intros [= <- <-]. rewrite str_app_cons. cbn. by rewrite E.
      * intros [H Ha]. destruct a as [|z a]; [rewrite str_nil_app in H; injection H as -> _; by rewrite Ascii.eqb_refl in E|].
        rewrite str_app_cons in H. injection H as <- H. cbn in Ha. apply orb_false_iff in Ha as [_ Ha].
        pose proof (proj2 (IH a b) (conj H Ha)) as K. by injection K as -> ->.
    + split; [done|]. intros [H Ha]. destruct a as [|z a]; [rewrite str_nil_app in H; injection H as -> _; by rewrite Ascii.eqb_refl in E|].
      rewrite str_app_cons in H. injection H as <- H. cbn in Ha. apply orb_false_iff in Ha as [_ Ha].
      by pose proof (proj2 (IH a b) (conj H Ha)).
Qed.

Lemma prefix_spec n s : String.prefix n s = true <-> exists r, s = n +:+ r.
Proof.
  revert s. induction n as [|c n IH]; intros s; cbn [String.prefix].
  { split; [|by destruct s]. intros _. exists s. by rewrite str_nil_app. }
  destruct s as [|d s]; [split; [done|]; by intros [r H]|]. simpl. destruct (ascii_dec c d) as [->|Hne].
  - rewrite IH. split; intros [r H]; exists r; rewrite str_app_cons in *; congruence.
  - split; [done|]. intros [r H]. rewrite str_app_cons in H. congruence.
Qed.
Lemma contains_piece needle s : str_contains needle s = true <-> piece needle s.
Proof.
  induction s as [|c s IH]; cbn [str_contains].
  - rewrite orb_false_r. split.
    + intros H. destruct needle; [|done]. by exists "", "".
    + intros (a & b & H). destruct a, needle; done.
  - rewrite orb_true_iff, IH, prefix_spec. split.
    + intros [[b ->]|(a & b & ->)]; [by exists "", b|by exists (String c a), b].
    + intros ([|d a] & b & H); [left; by exists b|right].
      rewrite str_app_cons in H. injection H as _ ->. by exists a, b.
Qed.

Lemma fence_free_spec t o : fence_free t o <-> o = strip_single_code_fence t.
Proof.
  assert (Hspec : forall inner, fence_around t inner <->
    exists rest body info, strip_prefix "```" t = Some rest /\ strip_suffix "```" rest = Some body /\ split_once newline body = Some (info, inner)
      /\ str_all is_ascii_alphanumeric (trim info) && negb (str_contains "```" inner) = true).
  { intros inner. unfold fence_around. setoid_rewrite andb_true_iff. setoid_rewrite negb_true_iff. split.
    - intros (info & -> & Hn & Ha & Hp). exists (info +:+ String newline (inner +:+ "```")), (info +:+ String newline inner), info.
      split; [apply strip_prefix_app|]. split.
      { rewrite <- str_app_cons, <- str_app_assoc. apply strip_suffix_app. }
      split; [by apply split_once_first|]. split; [done|]. apply not_true_iff_false. by rewrite contains_piece.
    - intros (rest & body & info & H1 & H2 & H3 & Ha & Hc). apply strip_prefix_Some in H1 as ->. apply strip_suffix_Some in H2 as ->.
      apply split_once_first in H3 as [-> Hn]. exists info. rewrite str_app_assoc, str_app_cons. do 3 (split; [done|]).
      apply not_true_iff_false in Hc. by rewrite contains_piece in Hc. }
  unfold fence_free, strip_single_code_fence. setoid_rewrite Hspec. clear Hspec.
  destruct (strip_prefix "```" t) as [rest|]; [|naive_solver]. destruct (strip_suffix "```" rest) as [body|] eqn:E2; [|naive_solver].
  destruct (split_once newline body) as [[info inner]|] eqn:E3; [|naive_solver].
  destruct (_ && _) eqn:E4; split.
  - intros [(inner' & (r' & b' & i' & H1 & H2 & H3 & _) & ->)|[Hno _]]; [congruence|]. exfalso. apply (Hno inner). by exists rest, body, info.
  - intros ->. left. exists inner. split; [|done]. by exists rest, body, info.
  - intros [(inner' & (r' & b' & i' & H1 & H2 & H3 & H4) & ->)|[_ ->]]; [|done]. exfalso. simplify_eq. congruence.
  - intros ->. right. split; [|done]. intros inner' (r' & b' & i' & H1 & H2 & H3 & H4). simplify_eq. congruence.
Qed.
Lemma whole_answer_spec raw o : whole_answer raw o <-> o = strip_single_code_fence (trim (strip_leading_reasoning_block raw)).
Proof.
  unfold whole_answer. setoid_rewrite thought_free_spec. setoid_rewrite fence_free_spec. split; [by intros (t & -> & ->)|by eauto].
Qed.

Lemma strict_accepts_spec r :
  strict_accepts r = true <->
  verdict r ∈ ["approve"; "request_changes"; "comment"]%string /\ trim (summary r) <> "" /\ trim (summary r) <> "..."
  /\ (forall f, f ∈ findings r -> severity f ∈ ["critical"; "high"; "medium"; "low"; "info"]%string /\ trim (title f) <> "" /\ trim (body f) <> "")
  /\ (verdict r = "approve" -> forall f, f ∈ findings r -> severity f ∉ ["critical"; "high"]%string).
Proof.
  unfold strict_accepts, known_severity. rewrite !andb_true_iff, !negb_true_iff, bool_decide_eq_true, bool_decide_eq_false, forallb_elem.
  assert (He : forall s, str_is_empty s = false <-> s <> "") by (intros []; by split).
  setoid_rewrite andb_true_iff. setoid_rewrite andb_true_iff. setoid_rewrite negb_true_iff. rewrite He. setoid_rewrite He.
  setoid_rewrite bool_decide_eq_true. rewrite andb_false_iff, bool_decide_eq_false, existsb_none. setoid_rewrite bool_decide_eq_false.
  destruct (decide (verdict r = "approve")); naive_solver.
Qed.

(** ** The verdict of an answer *)

Section Answer_theorems.
Variable decode : string -> option ReviewOutput.
Variable decode_object : string -> option (list string * option ReviewOutput).

(** The objects of a text that count as votes, with their normal verdicts. *)
Definition votes (raw : string) : list ReviewOutput :=
  filterb (fun r => negb (str_is_empty (norm (verdict r)))) (omap decode (balanced_json_objects (trim raw))).
Definition settled (r : ReviewOutput) : ReviewOutput :=
  plain_review (norm (verdict r)) (summary r) (findings r) (next_steps r) (filtered_findings r).

(** The first most blocking of a list of votes. *)
Definition worse (w : option ReviewOutput) (r : ReviewOutput) : option ReviewOutput :=
  match w with
  | Some m => if (verdict_rank (verdict m) <? verdict_rank (verdict r))%nat then Some r else w
  | None => Some r
  end.
Definition worst_of (l : list ReviewOutput) : option ReviewOutput := foldl worse None l.

Lemma keep_worst_fold l w :
  foldl (keep_worst decode) (settled <$> w, default 0%nat (verdict_rank ∘ verdict <$> w)) l =
  let w' := foldl worse w (filterb (fun r => negb (str_is_empty (norm (verdict r)))) (omap decode l)) in
  (settled <$> w', default 0%nat (verdict_rank ∘ verdict <$> w')).
Proof.
  revert w. induction l as [|o l IH]; intros w; [done|]. cbn [foldl]. unfold keep_worst at 2.
  change (omap decode (o :: l)) with (match decode o with Some r => r :: omap decode l | None => omap decode l end).
  destruct (decode o) as [r|]; [|apply IH]. unfold filterb. cbn [List.filter].
  destruct (str_is_empty (norm (verdict r))) eqn:Ee; cbn [negb]; [apply IH|]. cbn [foldl]. rewrite verdict_rank_norm.
  destruct w as [m|]; cbn [fmap option_fmap option_map compose default from_option id fst snd negb].
  - rewrite bool_decide_eq_true_2 by eauto. cbn [negb orb worse].
    destruct (verdict_rank (verdict m) <? verdict_rank (verdict r))%nat;
      [apply (IH (Some r))|apply (IH (Some m))].
  - rewrite bool_decide_eq_false_2 by (by intros [? ?]). cbn [negb orb worse]. apply (IH (Some r)).
Qed.

Lemma json_only_exact raw : parse_review_json_only decode raw = settled <$> worst_of (votes raw).
Proof.
  pose proof (keep_worst_fold (balanced_json_objects (trim raw)) None) as H. cbn in H.
  unfold parse_review_json_only. by rewrite H.
Qed.

Lemma worst_of_spec l w :
  foldl worse w l = w \/ exists r, foldl worse w l = Some r /\ r ∈ l.
Proof.
  revert w. induction l as [|x l IH]; intros w; [by left|]. cbn [foldl].
  destruct (IH (worse w x)) as [->|(r & Hr & Hin)]; [|right; exists r; split; [done|by right]].
  destruct w as [m|]; cbn [worse]; [case_match; [|by left]|]; right; exists x; (split; [done|left]).
Qed.

Lemma worst_of_ge l w r x :
  foldl worse w l = Some r -> (x ∈ l \/ w = Some x) -> (verdict_rank (verdict x) <= verdict_rank (verdict r))%nat.
Proof.
  revert w x. induction l as [|y l IH]; intros w x; cbn [foldl].
  { intros -> [?%not_elem_of_nil|[= ->]]; done. }
  intros Hr Hx.
  assert (exists z, worse w y = Some z /\ (verdict_rank (verdict y) <= verdict_rank (verdict z))%nat /\
    (w = Some x -> (verdict_rank (verdict x) <= verdict_rank (verdict z))%nat)) as (z & Hz & Hy & Hw).
  { destruct w as [m|]; cbn [worse]; [|by exists y].
    destruct (verdict_rank (verdict m) <? verdict_rank (verdict y))%nat eqn:E.
    - apply Nat.ltb_lt in E. exists y. split_and!; [done|done|intros [= <-]; lia].
    - apply Nat.ltb_ge in E. exists m. split_and!; [done|done|by intros [= <-]]. }
  assert (verdict_rank (verdict z) <= verdict_rank (verdict r))%nat as Hzr by (apply (IH _ z Hr); by right).
  destruct Hx as [[->|Hin]%elem_of_cons|Hs]; [lia| |specialize (Hw Hs); lia].
  apply (IH _ x Hr). by left.
Qed.

Lemma worst_of_none l : worst_of l = None <-> l = [].
Proof.
  split; [|by intros ->]. destruct l as [|x l]; [done|]. unfold worst_of. cbn [foldl worse].
  intros H. destruct (worst_of_spec l (Some x)) as [Hx|(r & Hr & _)]; congruence.
Qed.

(** Without a strict whole answer, the verdict of an answer is that of its
    most blocking object that names one, and a text with none is blocked: an
    object that approves cannot hide one that blocks *)
Theorem extracted_verdict_is_worst raw :
  let text := trim (strip_leading_reasoning_block raw) in
  match votes text with
  | [] => parse_review decode raw = fail_closed_review_output raw
  | _ => exists r, r ∈ votes text /\ parse_review decode raw = settled r /\
           forall x, x ∈ votes text -> (verdict_rank (verdict x) <= verdict_rank (verdict r))%nat
  end.
Proof.
  intros text. unfold parse_review. fold text. rewrite json_only_exact.
  destruct (votes text) as [|v l] eqn:Ev; [done|].
  destruct (worst_of (v :: l)) as [r|] eqn:Er; [|by apply worst_of_none in Er].
  exists r. split_and!; [|done|].
  - destruct (worst_of_spec (v :: l) None) as [H|(r' & Hr & Hin)]; unfold worst_of in Er; [congruence|].
    rewrite Er in Hr. by injection Hr as ->.
  - intros x Hx. apply (worst_of_ge _ _ _ _ Er). by left.
Qed.

Lemma lower_severity s : s ∈ ["medium"; "low"; "info"]%string <->
  s ∈ ["critical"; "high"; "medium"; "low"; "info"]%string /\ s ∉ ["critical"; "high"]%string.
Proof.
  rewrite !elem_of_cons, !elem_of_nil. split; [intros [->|[->|[->|[]]]]; (split; [tauto|]; intros [?|[?|[]]]; discriminate)|].
  intros [[->|[->|H]] Hn]; [destruct Hn; tauto..|done].
Qed.
Lemma strict_review_spec raw r :
  strict_review decode_object raw = Some r <->
  exists o keys, whole_answer raw o /\ decode_object o = Some (keys, Some r)
    /\ (forall k, k ∈ ["verdict"; "summary"; "findings"; "next_steps"]%string -> k ∈ keys) /\ strict_accepts r = true.
Proof.
  setoid_rewrite whole_answer_spec. unfold strict_review. split.
  - intros ([keys review] & Hd & H)%bind_Some. destruct (forallb _ _) eqn:Hk; [|done]. destruct review as [r'|]; [|done]. cbn in H.
    destruct (strict_accepts r') eqn:Ha; [|done]. injection H as ->. eexists _, keys. split; [done|]. split; [done|]. split; [|done].
    rewrite forallb_elem in Hk. intros k Hin. specialize (Hk k Hin). by apply bool_decide_eq_true in Hk.
  - intros (o & keys & -> & Hd & Hk & Ha). rewrite Hd. cbn [mbind option_bind]. rewrite (proj2 (forallb_elem _ _)).
    + cbn. by rewrite Ha.
    + intros k Hin. apply bool_decide_eq_true. by apply Hk.
Qed.
Lemma extracted_rank_0 raw : verdict_rank (verdict (parse_review decode raw)) = 0%nat -> verdict (parse_review decode raw) = "approve"%string.
Proof.
  pose proof (extracted_verdict_is_worst raw) as Hw. cbv zeta in Hw.
  destruct (votes (trim (strip_leading_reasoning_block raw))) as [|v l] eqn:Ev.
  { rewrite Hw. intros H; by vm_compute in H. }
  destruct Hw as (r & Hin & Hr & _). rewrite Hr. cbn. rewrite verdict_rank_norm. intros H0.
  apply verdict_rank_0 in H0 as [H0|H0]; [done|]. rewrite <- Ev in Hin. apply elem_of_filterb in Hin as [Hne _]. by rewrite H0 in Hne.
Qed.

(** C9: the review gate lets an answer through as anything but a block or a
    comment exactly when all there is of the answer, apart from one reasoning
    block before it, one fence around it and blanks, reads as a review object
    with all four keys that approves, has a summary, and whose findings are all
    of a known severity below high, with a title and a body *)
Theorem gate_approves_strictly raw :
  verdict_rank (verdict (review_gate_parse decode decode_object raw)) = 0%nat <->
  exists o keys r, whole_answer raw o /\ decode_object o = Some (keys, Some r)
    /\ (forall k, k ∈ ["verdict"; "summary"; "findings"; "next_steps"]%string -> k ∈ keys)
    /\ verdict r = "approve"%string /\ trim (summary r) <> ""%string /\ trim (summary r) <> "..."%string
    /\ forall f, f ∈ findings r ->
         severity f ∈ ["medium"; "low"; "info"]%string /\ trim (title f) <> ""%string /\ trim (body f) <> ""%string.
Proof.
  assert (verdict_rank (verdict (review_gate_parse decode decode_object raw)) = 0%nat <->
    exists r, strict_review decode_object raw = Some r /\ verdict r = "approve"%string) as ->.
  { unfold review_gate_parse. split.
    - destruct (strict_review decode_object raw) as [r|] eqn:Es.
      + intros H0. exists r. split; [done|]. apply strict_review_spec in Es as (o & keys & _ & _ & _ & Ha).
        apply strict_accepts_spec in Ha as (Hv & _). rewrite !elem_of_cons in Hv.
        destruct Hv as [->|[Hv|[Hv|Hv]]]; [done|..|by apply not_elem_of_nil in Hv]; rewrite Hv in H0; by vm_compute in H0.
      + case_bool_decide as Hv; [by intros H; vm_compute in H|]. intros H0. by apply extracted_rank_0 in H0.
    - by intros (r & -> & ->). }
  setoid_rewrite strict_review_spec. setoid_rewrite strict_accepts_spec. split.
  - intros (r & (o & keys & Ho & Hd & Hk & _ & Hs & Hs' & Hf & Hn) & Hv). exists o, keys, r. do 6 (split; [done|]).
    intros f Hin. destruct (Hf f Hin) as (Hsev & ? & ?). split; [|done]. apply lower_severity. split; [done|by apply Hn].
  - intros (o & keys & r & Ho & Hd & Hk & Hv & Hs & Hs' & Hf). exists r. split; [|done]. exists o, keys. do 3 (split; [done|]).
    split; [rewrite Hv; by left|]. do 2 (split; [done|]).
    split; [|intros _]; intros f Hin; destruct (Hf f Hin) as ([? ?]%lower_severity & ? & ?); done.
Qed.
End Answer_theorems.

(** ** The panel and the chunks *)

Lemma max_rank_le l n : (max_rank l <= n)%nat <-> forall x, x ∈ l -> (x <= n)%nat.
Proof.
  induction l as [|y l IH].
  - cbn. split; [by intros _ x ?%not_elem_of_nil|lia].
  - change (max_rank (y :: l)) with (Nat.max y (max_rank l)). split.
    + intros H x [->|Hx]%elem_of_cons; [lia|]. apply IH; [lia|done].
    + intros H. pose proof (H y ltac:(left)). assert (max_rank l <= n)%nat; [|lia].
      apply IH. intros x Hx. apply H. by right.
Qed.

Lemma max_rank_perm l k : l ≡ₚ k -> max_rank l = max_rank k.
Proof. unfold max_rank. induction 1; simpl; lia. Qed.

(** What the panel's completed reviewers said. *)
Definition says (reviews : list ReviewerSlot) (rank : nat) : Prop :=
  exists m r, SlotOk m r ∈ reviews /\ (rank <= verdict_rank (verdict r))%nat.

Lemma max_rank_says reviews n :
  (S n <= max_rank (map (fun r => verdict_rank (verdict r)) (omap slot_review reviews)))%nat <-> says reviews (S n).
Proof.
  set (l := map _ _). split.
  - intros H. destruct (decide (Exists (fun x => S n <= x)%nat l)) as [He|Hne].
    + apply Exists_exists in He as (x & Hx & Hle). apply list_elem_of_fmap in Hx as (r & -> & Hr).
      apply list_elem_of_omap in Hr as ([m r'|m e] & Hin & Hs); [|done]. injection Hs as ->. by exists m, r.
    + assert (max_rank l <= n)%nat; [|lia]. apply max_rank_le. intros x Hx.
      destruct (decide (x <= n)%nat); [done|]. exfalso. apply Hne. apply Exists_exists. exists x. split; [done|lia].
  - intros (m & r & Hin & Hle). destruct (decide (S n <= max_rank l)%nat) as [|Hlt]; [done|exfalso].
    assert (max_rank l <= n)%nat as Hm by lia. rewrite max_rank_le in Hm.
    specialize (Hm (verdict_rank (verdict r))). cut (verdict_rank (verdict r) ∈ l); [intros Hl; specialize (Hm Hl); lia|].
    apply list_elem_of_fmap. exists r. split; [done|]. apply list_elem_of_omap. by exists (SlotOk m r).
Qed.

(** The panel approves exactly when some reviewer answered, none failed and
    none of those that answered said more than approve; it blocks exactly when
    one that answered blocks or none answered *)
Theorem aggregate_exact reviews requested ok_models failed_models :
  let '(agg, all_failed, p) := aggregate_review reviews requested ok_models failed_models in
  agg = pp_verdict p /\ all_failed = bool_decide (ok_models = 0%nat) /\
  (agg = "approve"%string <-> ok_models <> 0%nat /\ failed_models = 0%nat /\ ~ says reviews 1) /\
  (agg = "request_changes"%string <-> says reviews 2 \/ ok_models = 0%nat) /\
  (agg = "approve" \/ agg = "comment" \/ agg = "request_changes")%string /\
  (pp_complete p = true <-> ok_models <> 0%nat /\ failed_models = 0%nat /\ ok_models = requested).
Proof.
  cbv beta iota delta [aggregate_review]. cbn [pp_verdict pp_complete]. unfold aggregate_verdict.
  pose proof (max_rank_says reviews 0) as H1. pose proof (max_rank_says reviews 1) as H2.
  set (w := max_rank _) in *. rewrite <- H1, <- H2. clearbody w. clear H1 H2.
  destruct (Nat.leb_spec 2 w); destruct (Nat.eqb_spec ok_models 0);
    destruct (Nat.ltb_spec 0 failed_models); destruct (Nat.leb_spec 1 w); cbn [orb];
    (split_and!;
     first [ done | by rewrite bool_decide_eq_true_2 | by rewrite bool_decide_eq_false_2
           | rewrite ?andb_true_iff, ?Nat.eqb_eq; cbn; intuition (try discriminate; try lia) ]).
Qed.

(** What the merge of several chunks makes of them. *)
Lemma merge_from_spec reviews : forall merged idx count,
  let m := merge_from merged idx count reviews in
  findings m = findings merged ++ concat (map findings reviews) /\
  next_steps m = next_steps merged ++ concat (map next_steps reviews) /\
  verdict_rank (verdict m) = Nat.max (verdict_rank (verdict merged))
    (max_rank (map (fun r => verdict_rank (verdict r)) reviews)) /\
  (verdict m = verdict merged \/ exists r, r ∈ reviews /\ verdict m = verdict r).
Proof.
  induction reviews as [|r l IH]; intros merged idx count.
  { cbn. rewrite !app_nil_r. split_and!; [done|done|lia|by left]. }
  change (max_rank (map (fun r => verdict_rank (verdict r)) (r :: l)))
    with (Nat.max (verdict_rank (verdict r)) (max_rank (map (fun r => verdict_rank (verdict r)) l))).
  cbn [merge_from map concat].
  destruct (IH (append_chunk_review merged r idx count) (S idx) count) as (-> & -> & Hr & Hv).
  cbn [append_chunk_review findings next_steps verdict] in *. rewrite <- !app_assoc. split_and!; [done|done|..].
  - rewrite Hr. destruct (Nat.ltb_spec (verdict_rank (verdict merged)) (verdict_rank (verdict r))); lia.
  - destruct Hv as [Hv|(r' & Hin & Hv)]; [|right; exists r'; by split; [right|]].
    case_match; [right; exists r; by split; [left|]|by left].
Qed.

(** A review in chunks keeps every finding and step in chunk order and has
    the verdict of a most blocking chunk: it approves only when every chunk
    approves, whatever the order in which they came back *)
Theorem merge_exact reviews :
  let m := merge_chunk_reviews reviews in
  findings m = concat (map findings reviews) /\ next_steps m = concat (map next_steps reviews) /\
  (verdict_rank (verdict m) = 0%nat <-> forall r, r ∈ reviews -> verdict_rank (verdict r) = 0%nat) /\
  (reviews <> [] -> verdict m = "approve"%string \/ exists r, r ∈ reviews /\ verdict m = verdict r /\
     forall x, x ∈ reviews -> (verdict_rank (verdict x) <= verdict_rank (verdict r))%nat) /\
  forall k, reviews ≡ₚ k -> verdict_rank (verdict (merge_chunk_reviews k)) = verdict_rank (verdict m).
Proof.
  cbv zeta. unfold merge_chunk_reviews.
  destruct (merge_from_spec reviews (plain_review "approve" "" [] [] []) 0 (length reviews)) as (Hf & Hs & Hr & Hv).
  cbn [plain_review findings next_steps verdict app] in *. change (verdict_rank "approve") with 0%nat in Hr. cbn in Hr.
  assert (forall x, x ∈ reviews -> (verdict_rank (verdict x) <= max_rank (map (fun r => verdict_rank (verdict r)) reviews))%nat) as Hle.
  { intros x Hx. apply (proj1 (max_rank_le (map (fun r => verdict_rank (verdict r)) reviews) _)); [done|].
    apply list_elem_of_fmap. by exists x. }
  split_and!; [done|done|..].
  - rewrite Hr. rewrite <- Nat.le_0_r, max_rank_le. split.
    + intros H r Hin. specialize (Hle r Hin). apply Nat.le_0_r. apply H. apply list_elem_of_fmap. by exists r.
    + intros H x Hx. apply list_elem_of_fmap in Hx as (r & -> & Hin). by rewrite (H r Hin).
  - intros _. destruct Hv as [Hv|(r & Hin & Hv)]; [by left|right]. exists r. split_and!; [done|done|].
    intros x Hx. rewrite <- Hv, Hr. by apply Hle.
  - intros k Hk. destruct (merge_from_spec k (plain_review "approve" "" [] [] []) 0 (length k)) as (_ & _ & -> & _).
    rewrite Hr. change (verdict_rank (verdict (plain_review "approve" "" [] [] []))) with 0%nat.
    symmetry. rewrite Nat.max_0_l. apply max_rank_perm. by apply Permutation_map.
Qed.

(** ** The identity of a finding *)

Lemma rsplit_none c s : str_has c s = false -> rsplit_once c s = None.
Proof.
  induction s as [|a s IH]; [done|]. cbn [str_has rsplit_once]. intros [Ha Hs]%orb_false_iff. by rewrite IH, Ha.
Qed.
Lemma rsplit_app c p t : str_has c t = false -> rsplit_once c (p +:+ String c t) = Some (p, t).
Proof.
  intros Ht. induction p as [|a p IH].
  - rewrite str_nil_app. cbn [rsplit_once]. by rewrite rsplit_none, Ascii.eqb_refl.
  - rewrite str_app_cons. cbn [rsplit_once]. by rewrite IH.
Qed.



Lemma trim_digits n : trim (show_u n) = show_u n.
Proof.
  assert (str_all (fun c => negb (is_ws c)) (show_u n) = true) as Ha.
  { apply digits_all. intros c Hc. by apply digit_not_ws. }
  unfold trim. destruct (show_u n) as [|c s]; [done|]. cbn [str_all] in Ha. apply andb_true_iff in Ha as [Hc Ha].
  apply negb_true_iff in Hc. cbn [trim_start]. rewrite Hc. rewrite trim_end_ws by done. f_equal.
  induction s as [|d s IH]; [done|]. cbn [str_all] in Ha. apply andb_true_iff in Ha as [Hd Ha].
  apply negb_true_iff in Hd. rewrite trim_end_ws by done. by rewrite IH.
Qed.

Lemma digit_facts c : is_ascii_digit c = true ->
  lower_ascii c = c /\ Ascii.eqb c "L" = false /\ Ascii.eqb c "l" = false /\ Ascii.eqb c ":" = false.
Proof. destruct c as [[] [] [] [] [] [] [] []]; cbn; intros H; first [by vm_compute in H | done]. Qed.

Lemma line_spec_digits n : 0 <= n -> is_line_spec (show_u n) = true.
Proof.
  intros Hn. unfold is_line_spec. assert (line_spec_numbers (show_u n) = show_u n) as ->.
  { unfold line_spec_numbers. rewrite trim_digits. pose proof (show_u_all_digits n) as Ha.
    destruct (show_u n) as [|c s]; [done|]. cbn [str_all] in Ha. apply andb_true_iff in Ha as [Hc _].
    apply digit_facts in Hc as (Hl & H1 & H2 & _).
    assert (forall p, strip_prefix_ignore_case (String "l" p) (String c s) = None) as Hsp.
    { intros p. unfold strip_prefix_ignore_case. destruct (_ <=? _)%nat; [|done]. cbn [String.length str_take andb].
      unfold eq_ignore_ascii_case. cbn [to_ascii_lowercase]. rewrite Hl. rewrite bool_decide_eq_false_2; [done|].
      intros [=Hx]. subst c. done. }
    cbn [find_map]. rewrite !Hsp. by rewrite H1, H2. }
  destruct (show_u_digits n Hn) as (k & Hk & Hd). specialize (Hd "" ltac:(done)). rewrite str_app_nil in Hd.
  pose proof (digits_all (fun c => is_ascii_digit c || Ascii.eqb c "-" || Ascii.eqb c ",") n
    ltac:(intros c Hc; cbv beta; by rewrite Hc)) as Ha.
  pose proof (show_u_all_digits n) as Hall.
  destruct (show_u n) as [|c s]; [done|]. cbn [str_is_empty orb]. rewrite Ha, andb_true_r.
  cbn [str_all] in Hall. apply andb_true_iff in Hall as [Hc _].
  change (is_ascii_digit c = true) in Hc. cbn [str_all]. by rewrite Hc.
Qed.

Lemma drop_line_spec_number p n : 0 <= n -> drop_line_spec (p +:+ String ":" (show_u n)) = Some p.
Proof.
  intros Hn. unfold drop_line_spec. rewrite rsplit_app by (by apply no_char_in_digits). cbn.
  by rewrite line_spec_digits.
Qed.

(** A text that neither starts nor ends blank is its own trim. *)
Lemma trim_end_keep a b : trim_end b = b -> str_is_empty b = false -> trim_end (a +:+ b) = a +:+ b.
Proof.
  intros Hb He. induction a as [|c a IH]; [by rewrite str_nil_app|]. rewrite str_app_cons. cbn [trim_end].
  rewrite IH, str_is_empty_app, He, andb_false_r, andb_false_r. done.
Qed.
Lemma trim_numbered p n : 0 <= n -> trim p = p -> str_is_empty p = false ->
  trim (p +:+ String ":" (show_u n)) = p +:+ String ":" (show_u n).
Proof.
  intros Hn Hp He. unfold trim.
  assert (trim_start (p +:+ String ":" (show_u n)) = p +:+ String ":" (show_u n)) as ->.
  { destruct p as [|c p]; [done|]. rewrite str_app_cons. cbn [trim_start].
    destruct (is_ws c) eqn:Ec; [|done]. exfalso.
    assert (forall s, (String.length (trim s) <= String.length s)%nat) as Hlen.
    { assert (forall s, (String.length (trim_end s) <= String.length s)%nat) as He1.
      { induction s as [|d s IH]; cbn [trim_end String.length]; [lia|]. case_match; cbn [String.length]; lia. }
      assert (forall s, (String.length (trim_start s) <= String.length s)%nat) as He2.
      { induction s as [|d s IH]; cbn [trim_start String.length]; [lia|]. case_match; cbn [String.length] in *; lia. }
      intros s. unfold trim. specialize (He1 (trim_start s)). specialize (He2 s). lia. }
    specialize (Hlen p). assert (trim (String c p) = trim p) as Ht by (unfold trim; cbn [trim_start]; by rewrite Ec).
    rewrite Ht in Hp. rewrite Hp in Hlen. cbn in Hlen. lia. }
  apply trim_end_keep; [|done]. rewrite trim_end_ws by done. f_equal.
  pose proof (trim_digits n) as Hd. unfold trim in Hd.
  destruct (show_u n) as [|c s] eqn:E; [done|].
  assert (is_ws c = false) as Hc.
  { pose proof (show_u_all_digits n) as Ha. rewrite E in Ha. cbn [str_all] in Ha. apply andb_true_iff in Ha as [Hc _].
    apply digit_not_ws in Hc. by apply negb_true_iff in Hc. }
  cbn [trim_start] in Hd. by rewrite Hc in Hd.
Qed.

(** The identity of a finding does not depend on the line it cites: with
    the same title, a path alone, with a line, or with a line and a column
    give the same fingerprint *)
Theorem fingerprint_ignores_lines f g p n m
  (Hp : trim p = p) (He : str_is_empty p = false) (Hc : str_has ":" p = false) (Hn : 0 <= n) (Hm : 0 <= m)
  (Ht : to_ascii_lowercase (title f) = to_ascii_lowercase (title g)) (Hf : location f = Some p)
  (Hg : location g = Some p \/ location g = Some (p +:+ String ":" (show_u n)) \/
        location g = Some (p +:+ String ":" (show_u n +:+ String ":" (show_u m)))) :
  finding_fingerprint f = finding_fingerprint g /\ finding_location_path (location g) = p.
Proof.
  assert (drop_line_spec p = None) as Hno by (unfold drop_line_spec; by rewrite rsplit_none).
  assert (finding_location_path (location g) = p) as Hpath.
  { unfold finding_location_path. destruct Hg as [->|[->| ->]]; cbn.
    - rewrite Hp, He. cbn. rewrite Hno. done.
    - rewrite trim_numbered by done. rewrite str_is_empty_app, He. cbn. rewrite drop_line_spec_number by done.
      rewrite Hno. done.
    - rewrite <- str_app_cons, <- str_app_assoc. rewrite trim_numbered;
        [|done|by apply trim_numbered|by rewrite str_is_empty_app, He].
      rewrite !str_is_empty_app, He. cbn. rewrite drop_line_spec_number by done. cbn.
      by rewrite drop_line_spec_number. }
  split; [|done]. unfold finding_fingerprint. rewrite Ht, Hpath. rewrite Hf. f_equal.
  unfold finding_location_path. cbn. rewrite Hp, He. cbn. by rewrite Hno.
Qed.

Lemma fingerprint_ignores_lines_witness :
  let f := mkFinding "high" "Off-by-one" "b" (Some "src/a.rs"%string) None in
  let g := mkFinding "low" "off-BY-one" "c" (Some ("src/a.rs" +:+ String ":" (show_u 12 +:+ String ":" (show_u 3)))) None in
  finding_fingerprint f = finding_fingerprint g /\ finding_location_path (location g) = "src/a.rs"%string.
Proof.
  intros f g. apply (fingerprint_ignores_lines f g "src/a.rs" 12 3); try reflexivity; try lia. right; right; reflexivity.
Defined.
