(* ===== verification/Substance.v ===== *)
(** What a diff changes (agentic.rs): comment lines, test paths and the
    classification of a unified diff that the loop's anti-gaming guard uses. *)
From S2P Require Import Prelude Policy Text Failure.
Local Open Scope Z_scope.

Inductive DiffSubstance := SubEmpty | WhitespaceOnly | CommentOnly | TestOnly | Substantive.
#[export] Instance substance_eq_dec : EqDecision DiffSubstance.
Proof. solve_decision. Defined.

Definition substance_accept_eligible (s : DiffSubstance) : bool :=
  match s with Substantive | TestOnly => true | _ => false end.

Definition DIFF_ACQUISITION_TRUNCATION_MARKER : string := "[git diff truncated during acquisition".

Definition triple_quote : string := String (Ascii.ascii_of_nat 34) (String (Ascii.ascii_of_nat 34) (String (Ascii.ascii_of_nat 34) "")).
Definition COMMENT_MARKERS : list string := ["//"; "#"; "/*"; "*/"; "*"; "--"; "<!--"; triple_quote; "'''"]%string.
Definition CODE_LOOKALIKE_PREFIXES : list string :=
  ["#define"; "#undef"; "#include"; "#import"; "#pragma"; "#if"; "#ifdef"; "#ifndef"; "#elif"; "#else"; "#endif";
   "#error"; "#warning"; "#line"; "#!"; "#["]%string.

Definition is_comment_line (line : string) : bool :=
  let t := trim line in
  if str_is_empty t then true
  else match find_first (fun m => starts_with m t) COMMENT_MARKERS with
  | None => false
  | Some marker =>
      if bool_decide (marker = "#"%string) then negb (existsb (fun p => starts_with p t) CODE_LOOKALIKE_PREFIXES)
      else if bool_decide (marker = "*"%string) then bool_decide (t = "*"%string) || starts_with "* " t
      else if bool_decide (marker = "--"%string) then
        bool_decide (t = "--"%string) || starts_with "-- " t || starts_with "--[" t
      else true
  end.

(** [path.replace('\\', "/")] *)
Fixpoint forward_slashes (s : string) : string :=
  match s with
  | EmptyString => EmptyString
  | String c r => String (if Ascii.eqb c (Ascii.ascii_of_nat 92) then "/"%char else c) (forward_slashes r)
  end.

(** [Path::file_name]: the last normal component, if the path ends in one. *)
Definition file_name (p : string) : option string :=
  match rev (filterb (fun s => negb (str_is_empty s) && negb (bool_decide (s = "."%string))) (split_on "/" p)) with
  | s :: _ => if bool_decide (s = ".."%string) then None else Some s
  | [] => None
  end.

Definition test_suffixes : list string :=
  ["_test."; "_test.rs"; "_test.py"; "_test.go"; "_test.js"; "_test.ts";
   "_spec."; "_spec.rs"; "_spec.py"; "_spec.go"; "_spec.js"; "_spec.ts"]%string.

Definition is_test_path (path : string) : bool :=
  if str_is_empty path || bool_decide (path = "/dev/null"%string) then false
  else
    let p := forward_slashes path in
    if str_contains "/tests/" p || str_contains "/test/" p then true
    else if starts_with "tests/" p || starts_with "test/" p then true
    else
      let b := default p (file_name p) in
      if bool_decide (b = "t"%string) || ends_with ".t" b then true
      else starts_with "test_" b || existsb (fun s => ends_with s b) test_suffixes
           || str_contains ".test." b || str_contains ".spec." b.

(** ** The lines of a diff *)

(** [rest.trim_start_matches("b/")] *)
Fixpoint trim_start_b (fuel : nat) (s : string) : string :=
  match fuel, strip_prefix "b/" s with
  | S fuel, Some r => trim_start_b fuel r
  | _, _ => s
  end.

Inductive DiffLine := PathLine (path : string) | ContentLine (text : string) | OtherLine.

Definition real_path (p : string) : bool := negb (str_is_empty p) && negb (bool_decide (p = "/dev/null"%string)).

Definition path_line (p : string) : DiffLine := if real_path p then PathLine p else OtherLine.

Definition read_diff_line (line : string) : DiffLine :=
  match strip_prefix "+++ " line with
  | Some rest => path_line (trim (trim_start_b (String.length rest) rest))
  | None =>
  match strip_prefix "--- " line with
  | Some _ => OtherLine
  | None =>
  match strip_prefix "diff --git " line with
  | Some rest =>
      let halves := split_whitespace rest in
      path_line (default ""%string
        (match (s ← nth_error halves 1; strip_prefix "b/" s) with
         | Some p => Some p
         | None => s ← head halves; strip_prefix "a/" s
         end))
  | None =>
      if starts_with "Index: " line || starts_with "index " line then OtherLine
      else match strip_prefix "+" line with
      | Some rest => ContentLine rest
      | None => match strip_prefix "-" line with
                | Some rest => ContentLine rest
                | None => OtherLine
                end
      end
  end
  end
  end.

Definition content_lines (diff : string) : list string :=
  omap (fun l => match read_diff_line l with ContentLine t => Some t | _ => None end) (lines diff).
Definition changed_paths (diff : string) : list string :=
  omap (fun l => match read_diff_line l with PathLine p => Some p | _ => None end) (lines diff).

Definition classify_diff_substance (diff : string) : DiffSubstance :=
  if str_contains DIFF_ACQUISITION_TRUNCATION_MARKER diff then Substantive
  else
    let content := content_lines diff in
    match content with
    | [] => SubEmpty
    | _ =>
        if forallb (fun l => str_is_empty (trim l)) content then WhitespaceOnly
        else if forallb is_comment_line content then CommentOnly
        else
          let real := filterb real_path (changed_paths diff) in
          if existsb (fun l => negb (is_comment_line l)) content && negb (bool_decide (real = []))
             && forallb is_test_path real
          then TestOnly else Substantive
    end.

Definition diff_has_content (diff : string) : bool :=
  negb (bool_decide (classify_diff_substance diff = SubEmpty)).

(** * Theorems *)

Lemma blank_is_comment l : str_is_empty (trim l) = true -> is_comment_line l = true.
Proof. intros H. unfold is_comment_line. by rewrite H. Qed.

Lemma changed_paths_real diff : filterb real_path (changed_paths diff) = changed_paths diff.
Proof.
  unfold changed_paths. generalize (lines diff). intros ls. induction ls as [|l ls IH]; [done|].
  cbn. destruct (read_diff_line l) as [p|t|] eqn:E; cbn; try exact IH.
  assert (real_path p = true) as ->; [|unfold filterb in *; cbn in *; by rewrite IH].
  unfold read_diff_line, path_line in E. repeat case_match; simplify_eq; done.
Qed.

Lemma forallb_changed {A} (p : A -> bool) l : forallb p l = false <-> exists x, x ∈ l /\ p x = false.
Proof.
  induction l as [|x l IH]; cbn; [split; [done|by intros (x & ?%not_elem_of_nil & _)]|].
  rewrite andb_false_iff, IH. split.
  - intros [H|(y & Hy & Hp)]; [exists x; split; [left|done]|exists y; split; [by right|done]].
  - intros (y & [->|Hy]%elem_of_cons & Hp); [by left|right; by exists y].
Qed.
Lemma forallb_all {A} (p : A -> bool) l : forallb p l = true <-> forall x, x ∈ l -> p x = true.
Proof. rewrite forallb_forall. split; intros H x Hx; apply H; by apply list_elem_of_In. Qed.

(** The class of a diff is decided by its changed lines and paths: it may
    resolve the loop exactly when some changed line is neither blank nor a
    comment or the diff was cut short, and is test-only exactly when, besides,
    it names files and all of them are tests *)
Theorem classify_exact diff :
  let c := classify_diff_substance diff in
  let cut := str_contains DIFF_ACQUISITION_TRUNCATION_MARKER diff in
  let real_change := exists l, l ∈ content_lines diff /\ is_comment_line l = false in
  (substance_accept_eligible c = true <-> cut = true \/ real_change) /\
  (c = TestOnly <-> cut = false /\ real_change /\ changed_paths diff <> [] /\
     forall p, p ∈ changed_paths diff -> is_test_path p = true) /\
  (c = SubEmpty <-> cut = false /\ content_lines diff = []) /\
  (c = WhitespaceOnly <-> cut = false /\ content_lines diff <> [] /\
     forall l, l ∈ content_lines diff -> trim l = ""%string).
Proof.
  cbv zeta. unfold classify_diff_substance. rewrite changed_paths_real.
  destruct (str_contains _ diff); [cbn; intuition discriminate|].
  destruct (content_lines diff) as [|l0 ls] eqn:Ec.
  { cbn. assert (~ exists l, l ∈ [] /\ is_comment_line l = false) by (intros (l & ?%not_elem_of_nil & _); done).
    intuition (try discriminate; try congruence). }
  rewrite <- Ec in *. assert (content_lines diff <> []) as Hne by congruence. clear Ec l0 ls.
  assert (forallb (fun l => str_is_empty (trim l)) (content_lines diff) = true <->
    forall l, l ∈ content_lines diff -> trim l = ""%string) as Hb.
  { rewrite forallb_all. split; intros H l Hl; specialize (H l Hl); [by destruct (trim l)|by rewrite H]. }
  pose proof (forallb_changed is_comment_line (content_lines diff)) as Hch.
  destruct (forallb (fun l => str_is_empty (trim l)) (content_lines diff)) eqn:Eb.
  - assert (forallb is_comment_line (content_lines diff) = true) as Hc.
    { apply forallb_all. intros l Hl. apply blank_is_comment. rewrite forallb_all in Eb. by apply Eb. }
    rewrite Hc in Hch. cbn. intuition discriminate.
  - destruct (forallb is_comment_line (content_lines diff)) eqn:Ecm; [cbn; intuition discriminate|].
    assert (existsb (fun l => negb (is_comment_line l)) (content_lines diff) = true) as ->.
    { apply existsb_exists. destruct (proj1 Hch eq_refl) as (l & Hl & Hp). exists l. apply list_elem_of_In in Hl.
      by rewrite Hp. }
    cbn [andb]. pose proof (forallb_all is_test_path (changed_paths diff)) as Ht.
    case_bool_decide as Hp; cbn [negb andb]; [rewrite Hp; cbn; intuition discriminate|].
    destruct (forallb is_test_path (changed_paths diff)); cbn; intuition discriminate.
Qed.

(** A removed line that starts with two dashes and a blank is read as a file
    header, so the diff has no content. *)
Lemma removed_dashes_are_a_header :
  content_lines ("@@ -1 +0,0 @@" +:+ String newline ("--- i;" +:+ String newline "")) = [].
Proof. reflexivity. Qed.

(** An added line that starts with two plus signs and a blank names a file. *)
Lemma added_pluses_name_a_file :
  changed_paths ("@@ -0,0 +1 @@" +:+ String newline ("+++ tests/x.rs" +:+ String newline "")) = ["tests/x.rs"%string].
Proof. reflexivity. Qed.
