(* ===== verification/LoopRun.v ===== *)
(** The author/check/review loop (agentic.rs, [cmd_loop_run]): its budgets, the
    decision that resolves it, its streaks, one iteration with every early
    exit, the run, and the failure an unresolved run reports.

    What the outside world answers in an iteration is one record: the author's
    phase, the captured diff, the check, the clock against the deadline, the
    engine load and the four reviews the iteration may ask for.  Costs, the
    heartbeat, commits and the event log are not modelled; the feedback is the
    data its text is made of. *)
From S2P Require Import Prelude Text Cancel Failure Review Substance.
Local Open Scope Z_scope.

(** ** Budgets *)

Definition DEFAULT_LOOP_TIMEOUT_SECS : Z := 900.
Definition WORKER_RUN_TIMEOUT_SECS : Z := 7200.

(** Whether the warning of [validate_loop_timeouts] is given. *)
Definition validate_loop_timeouts (loop_timeout agent_timeout : Z) : bool := loop_timeout <=? agent_timeout.

Definition loop_deadline_headroom_secs (worker : Z) : Z := Z.max (worker / 10) 300.
Definition default_loop_deadline_secs (worker : Z) : Z :=
  if worker <=? 1 then worker
  else worker - Z.max 1 (Z.min (worker - 1) (loop_deadline_headroom_secs worker)).

Record LoopRunBudget := mkLoopRunBudget { deadline_secs : Z; shared_daemon : bool }.

(** [config] is the configured deadline and whether the daemon is shared, when
    the configuration could be loaded. *)
Definition resolve_loop_run_budget (flag : option Z) (config : option (option Z * bool)) : LoopRunBudget :=
  mkLoopRunBudget
    (match flag with
     | Some s => s
     | None => default (default_loop_deadline_secs WORKER_RUN_TIMEOUT_SECS) ('(s, _) ← config; s)
     end)
    (match config with Some (_, shared) => shared | None => false end).

(** Instants are nanoseconds. *)
Definition deadline_remaining_at (started secs now : Z) : Z := Z.max 0 (started + secs * ns_per_s - now).
Definition deadline_expired_at (started secs now : Z) : bool := deadline_remaining_at started secs now =? 0.

(** ** Reading a review *)

Definition REVIEWER_UNAVAILABLE_VERDICT : string := "reviewer_unavailable".
Definition COMMENT_NO_EVIDENCE_VERDICT : string := "comment_no_evidence".

Definition is_block_verdict (v : string) : bool :=
  bool_decide (norm v ∈ ["request_changes"; "reject"; "block"]%string).
Definition request_changes_is_located (r : ReviewOutput) : bool :=
  negb (is_block_verdict (verdict r)) || existsb has_concrete_location (findings r).
Definition is_unlocated_block (r : ReviewOutput) : bool :=
  is_block_verdict (verdict r) && negb (request_changes_is_located r).

Definition has_located_blocking_finding (r : ReviewOutput) : bool :=
  existsb (fun f => bool_decide (to_ascii_lowercase (severity f) ∈ ["critical"; "high"]%string) && has_concrete_location f)
    (findings r).
Definition has_unlocated_critical_finding (r : ReviewOutput) : bool :=
  existsb (fun f => bool_decide (norm (severity f) = "critical"%string) && negb (has_concrete_location f)) (findings r).

Definition mark_unlocated_no_evidence (r : ReviewOutput) : ReviewOutput :=
  plain_review COMMENT_NO_EVIDENCE_VERDICT
    ("Reviewer requested changes with no located finding; treating as comment-with-no-evidence, NOT as a blocking defect. Original summary: "
       +:+ summary r)
    (findings r) (next_steps r) (filtered_findings r).

Definition says_approve (r : ReviewOutput) : bool := bool_decide (norm (verdict r) = "approve"%string).
Definition majority_loop_approval (samples : list ReviewOutput) : bool :=
  match samples with
  | [] => false
  | _ =>
      if existsb (fun r => has_located_blocking_finding r || has_unlocated_critical_finding r) samples then false
      else (length samples <? 2 * length (filterb says_approve samples))%nat
  end.
Definition majority_resolves_on_unchanged_diff (current fresh1 fresh2 : ReviewOutput) (check_satisfied substance_ok : bool) : bool :=
  if negb check_satisfied || negb substance_ok then false
  else majority_loop_approval [current; fresh1; fresh2].

(** The finding keeps the first 8000 characters of the text. *)
Definition synthesize_reviewer_unavailable (prose : string) : ReviewOutput :=
  plain_review REVIEWER_UNAVAILABLE_VERDICT
    "No reviewer returned a parseable structured JSON verdict; loop stays unresolved (reviewer_unavailable)."
    [mkFinding "info" "reviewer_unavailable (prose-only output)" (str_take (Z.to_nat 8000) prose) None None] [] [].

Definition count_blocking (r : ReviewOutput) (green : bool) : nat :=
  length (filterb (fun f => bool_decide (norm (severity f) ∈ ["critical"; "high"]%string)) (findings r)).

Definition loop_review_ok_verdict (v : string) (blocking : nat) : bool :=
  let v := norm v in
  if bool_decide (v ∈ ["request_changes"; "reject"; "block"]%string) then false
  else if negb (bool_decide (v ∈ ["approve"; "comment"; "neutral"]%string)) then false
  else bool_decide (v = "approve"%string) || (blocking =? 0)%nat.
Definition loop_review_ok (r : ReviewOutput) (blocking : nat) : bool := loop_review_ok_verdict (verdict r) blocking.
Definition explicit_loop_approval (r : ReviewOutput) (blocking : nat) : bool := says_approve r && (blocking =? 0)%nat.

Definition unresolved_review_stops_loop (v : string) (skipped_empty_diff unlocated_no_evidence : bool) : bool :=
  if unlocated_no_evidence then true
  else bool_decide (v = REVIEWER_UNAVAILABLE_VERDICT) && negb skipped_empty_diff.

(** ** The decision *)

Record LoopResolutionSignals := mkSignals {
  substance : DiffSubstance;
  check_configured : bool;
  check_passed : option bool;
  sig_verdict : string;
  blocking_findings : nat
}.

Definition decide_loop_resolution (s : LoopResolutionSignals) (accept_on_green : bool) : bool :=
  let substance_ok := substance_accept_eligible (substance s) in
  let check_explicit_passed := bool_decide (check_passed s = Some true) in
  let check_satisfied :=
    if check_configured s then bool_decide (check_passed s = Some true)
    else negb (bool_decide (check_passed s = Some false)) in
  let review_ok := (blocking_findings s =? 0)%nat && loop_review_ok_verdict (sig_verdict s) (blocking_findings s) in
  if (check_explicit_passed || check_satisfied) && negb substance_ok then false
  else if negb review_ok then false
  else if accept_on_green && check_explicit_passed && substance_ok && review_ok then true
  else check_satisfied && substance_ok.

Definition loop_signals_from_review (sub : DiffSubstance) (configured : bool) (passed : option bool) (r : ReviewOutput) :
    LoopResolutionSignals :=
  let green := bool_decide (passed = Some true) in
  mkSignals sub configured passed (verdict r) (count_blocking r green).

(** ** Streaks *)

Record Turn := mkTurn {
  run_completed : bool;
  run_outcome : string;
  tool_calls : Z;
  turn_model : string;
  turn_policy_violation : option string;
  failure_detail : option string
}.

Definition turn_is_dead (turn : option Turn) : bool :=
  match turn with Some t => negb (run_completed t) | None => true end.
Definition counts_toward_dead_streak (turn : option Turn) (calls : Z) : bool :=
  match turn with
  | None => true
  | Some _ => turn_is_dead turn && (calls =? 0)
  end.

Definition DEAD_STREAK_ABORT_THRESHOLD : nat := 2.
Definition STALL_LIMIT : nat := 3.

Record LoopStreakUpdate := mkStreaks { dead_streak : nat; check_timeout_streak : nat; streak_abort : bool }.
Definition update_loop_streaks (turn_failed check_timed_out diff_empty : bool) (prev_dead prev_check : nat) : LoopStreakUpdate :=
  if negb diff_empty then mkStreaks 0 0 false
  else
    let dead := if turn_failed then S prev_dead else 0%nat in
    let chk := if check_timed_out then S prev_check else 0%nat in
    mkStreaks dead chk (DEAD_STREAK_ABORT_THRESHOLD <=? dead)%nat.

Definition nonsubstantive_stall_step (repeated : bool) (prev_stall limit : nat) : nat * bool :=
  if repeated then (S prev_stall, (limit <=? S prev_stall)%nat) else (0%nat, false).

(** ** The author phase *)

Definition AUTHOR_CANCEL_UNCONFIRMED_MARKER : string := "author cancellation unconfirmed:".

(** How the cancel under its deadline ended. *)
Inductive CancelRun := CancelConfirmed | CancelRefused (reason : string) | CancelDeadline.
Definition cancel_under_deadline (c : CancelRun) : result unit string :=
  match c with
  | CancelConfirmed => Ok tt
  | CancelRefused e => Err (AUTHOR_CANCEL_UNCONFIRMED_MARKER +:+ e)
  | CancelDeadline => Err (AUTHOR_CANCEL_UNCONFIRMED_MARKER +:+ "cancellation deadline expired")
  end.

Inductive AuthorRun := Returned (r : result Turn string) | OutOfTime (c : CancelRun).
Definition author_phase_with_cancel (secs : Z) (a : AuthorRun) : result Turn string :=
  match a with
  | Returned r => r
  | OutOfTime c =>
      Err ("author phase timed out after " +:+ show_u secs +:+
           match cancel_under_deadline c with
           | Ok _ => "s (killed, daemon cancel issued)"
           | Err e => "s (killed, daemon cancel unconfirmed: " +:+ e +:+ ")"
           end)
  end.

(** ** One iteration *)

Record LoopConfig := mkLoopConfig {
  max_iters : nat;
  check_command : option string;
  accept_on_green : bool;
  require_approval : bool;
  loop_timeout_secs : Z;
  run_budget : LoopRunBudget
}.

(** A completed review pass: its output, the model of its completion, the
    first model its reviewer verdicts name, and whether they are complete. *)
Record ReviewRun := mkReviewRun {
  rr_review : ReviewOutput; rr_model : option string; rr_verdict_model : option string; rr_complete : bool
}.

(** What the world answers in one iteration, in the order it is asked. *)
Record IterWorld := mkIterWorld {
  expired_at_start : bool;
  author_run : AuthorRun;
  captured_diff : result string string;
  check_result : bool * string;
  expired_before_review : bool;
  engine_load_error : option string;
  review_run : result ReviewRun string;
  reask_run : result ReviewRun string;
  fresh_run1 : result ReviewRun string;
  fresh_run2 : result ReviewRun string
}.

Record IterRecord := mkIterRecord {
  rec_iter : nat;
  rec_author_model : option string;
  rec_author_error : option string;
  rec_check_passed : option bool;
  rec_review_error : option string;
  rec_review_complete : bool;
  rec_reviewer_model : option string;
  rec_verdict : option string;
  rec_findings : list Finding;
  rec_majority : list string;
  rec_abort_reason : option string
}.

(** What the next author turn is told. *)
Inductive Push := NoPush | MadeNoChanges | NoNewEdits.
Record Feedback := mkFeedback {
  fb_interrupted : option string;
  fb_push : Push;
  fb_check_tail : option string;
  fb_summary : string;
  fb_findings : list Finding;
  fb_next_steps : list string
}.

Record LoopState := mkLoopState {
  tracker : UnconfirmedCancelTracker;
  author_models : list string;
  prev_diff : string;
  st_dead_streak : nat;
  st_check_timeout_streak : nat;
  stall_streak : nat;
  feedback : option Feedback;
  iterations : list IterRecord;
  resolved : bool;
  final_verdict : string;
  deadline_hit : bool;
  policy_violation : option string
}.

Definition loop_start (cfg : LoopConfig) : LoopState :=
  mkLoopState (tracker_from_shared_daemon (shared_daemon (run_budget cfg))) [] "" 0 0 0 None [] false "comment" false None.

Inductive IterEnd := Continue (s : LoopState) | Stop (s : LoopState).
Definition end_state (e : IterEnd) : LoopState := match e with Continue s | Stop s => s end.

Definition with_tracker (t : UnconfirmedCancelTracker) (s : LoopState) : LoopState :=
  mkLoopState t (author_models s) (prev_diff s) (st_dead_streak s) (st_check_timeout_streak s) (stall_streak s) (feedback s)
    (iterations s) (resolved s) (final_verdict s) (deadline_hit s) (policy_violation s).
Definition with_author (m : string) (s : LoopState) : LoopState :=
  mkLoopState (tracker s) (if bool_decide (m ∈ author_models s) then author_models s else author_models s ++ [m])
    (prev_diff s) (st_dead_streak s) (st_check_timeout_streak s) (stall_streak s) (feedback s)
    (iterations s) (resolved s) (final_verdict s) (deadline_hit s) (policy_violation s).
Definition with_streaks (u : LoopStreakUpdate) (s : LoopState) : LoopState :=
  mkLoopState (tracker s) (author_models s) (prev_diff s) (dead_streak u) (check_timeout_streak u) (stall_streak s) (feedback s)
    (iterations s) (resolved s) (final_verdict s) (deadline_hit s) (policy_violation s).
Definition with_policy_violation (v : option string) (s : LoopState) : LoopState :=
  mkLoopState (tracker s) (author_models s) (prev_diff s) (st_dead_streak s) (st_check_timeout_streak s) (stall_streak s)
    (feedback s) (iterations s) (resolved s) (final_verdict s) (deadline_hit s) v.
Definition with_deadline_hit (s : LoopState) : LoopState :=
  mkLoopState (tracker s) (author_models s) (prev_diff s) (st_dead_streak s) (st_check_timeout_streak s) (stall_streak s)
    (feedback s) (iterations s) (resolved s) (final_verdict s) true (policy_violation s).
Definition with_verdict (v : string) (s : LoopState) : LoopState :=
  mkLoopState (tracker s) (author_models s) (prev_diff s) (st_dead_streak s) (st_check_timeout_streak s) (stall_streak s)
    (feedback s) (iterations s) (resolved s) v (deadline_hit s) (policy_violation s).
Definition with_record (r : IterRecord) (s : LoopState) : LoopState :=
  mkLoopState (tracker s) (author_models s) (prev_diff s) (st_dead_streak s) (st_check_timeout_streak s) (stall_streak s)
    (feedback s) (iterations s ++ [r]) (resolved s) (final_verdict s) (deadline_hit s) (policy_violation s).
Definition with_resolved (s : LoopState) : LoopState :=
  mkLoopState (tracker s) (author_models s) (prev_diff s) (st_dead_streak s) (st_check_timeout_streak s) (stall_streak s)
    (feedback s) (iterations s) true (final_verdict s) (deadline_hit s) (policy_violation s).
Definition with_stall (n : nat) (s : LoopState) : LoopState :=
  mkLoopState (tracker s) (author_models s) (prev_diff s) (st_dead_streak s) (st_check_timeout_streak s) n
    (feedback s) (iterations s) (resolved s) (final_verdict s) (deadline_hit s) (policy_violation s).
Definition with_prev_diff (d : string) (s : LoopState) : LoopState :=
  mkLoopState (tracker s) (author_models s) d (st_dead_streak s) (st_check_timeout_streak s) (stall_streak s)
    (feedback s) (iterations s) (resolved s) (final_verdict s) (deadline_hit s) (policy_violation s).
Definition with_feedback (f : Feedback) (s : LoopState) : LoopState :=
  mkLoopState (tracker s) (author_models s) (prev_diff s) (st_dead_streak s) (st_check_timeout_streak s) (stall_streak s)
    (Some f) (iterations s) (resolved s) (final_verdict s) (deadline_hit s) (policy_violation s).
Definition with_majority (samples : list string) (model : option string) (s : LoopState) : LoopState :=
  mkLoopState (tracker s) (author_models s) (prev_diff s) (st_dead_streak s) (st_check_timeout_streak s) (stall_streak s)
    (feedback s)
    (match last (iterations s) with
     | Some r => removelast (iterations s) ++
         [mkIterRecord (rec_iter r) (rec_author_model r) (rec_author_error r) (rec_check_passed r) (rec_review_error r)
            (rec_review_complete r) model (rec_verdict r) (rec_findings r) samples (rec_abort_reason r)]
     | None => iterations s
     end) (resolved s) (final_verdict s) (deadline_hit s) (policy_violation s).

(** What the phases before the review establish. *)
Record Work := mkWork {
  turn : option Turn;
  author_err : option string;
  session_limit : bool;
  cancel_unconfirmed : bool;
  work_diff : string;
  work_substance : DiffSubstance;
  work_check : option bool;
  work_check_tail : string
}.

Definition author_error (w : Work) : option string :=
  match (t ← turn w; failure_detail t) with Some d => Some d | None => author_err w end.
Definition author_outcome (w : Work) : string :=
  match turn w, author_err w with
  | Some t, _ => run_outcome t
  | None, Some e => "interrupted: " +:+ e
  | None, None => "interrupted"
  end.
Definition work_calls (w : Work) : Z := default 0 (tool_calls <$> turn w).

(** A record of an iteration that ends before its review. *)
Definition unreviewed_record (i : nat) (w : Work) (error : option string) (why reason : string) : IterRecord :=
  mkIterRecord i (turn_model <$> turn w) error (work_check w) (Some why) false None
    (Some REVIEWER_UNAVAILABLE_VERDICT) [] [] (Some reason).

Definition empty_author_diff_review_skip (w : Work) : string :=
  "review skipped: the author turn produced no changes to review (outcome: " +:+ author_outcome w +:+ ", tool calls: "
    +:+ show_u (work_calls w) +:+ "); nothing was authored" +:+
  match author_error w with Some e => "; author: " +:+ e | None => "" end.

(** The review of the iteration: its output with the error, if any. *)
Record Reviewed := mkReviewed {
  rv_review : ReviewOutput; rv_error : option string; rv_reviewer : option string;
  rv_verdict_model : option string; rv_all_complete : bool
}.
Definition unavailable (detail : string) : Reviewed :=
  mkReviewed (synthesize_reviewer_unavailable detail) (Some detail) None None false.
Definition of_run (previous : option string) (r : result ReviewRun string) : Reviewed :=
  match r with
  | Ok x => mkReviewed (rr_review x) previous (rr_model x) (rr_verdict_model x) (rr_complete x)
  | Err msg => unavailable ("review incomplete: " +:+ msg)
  end.

Definition review_skipped_empty_diff (world : IterWorld) (w : Work) : bool :=
  negb (bool_decide (is_Some (engine_load_error world))) && negb (cancel_unconfirmed w) && negb (session_limit w)
  && str_is_empty (trim (work_diff w)).

Definition review_of (world : IterWorld) (w : Work) : Reviewed :=
  match engine_load_error world with
  | Some e => unavailable ("review skipped: loading engine: " +:+ e)
  | None =>
      if cancel_unconfirmed w then
        unavailable "review skipped: the author cancel was never confirmed, so this diff is not a finished turn"
      else if session_limit w then
        unavailable "review skipped: the author turn never obtained a daemon session (session limit reached); nothing was authored to review"
      else if review_skipped_empty_diff world w then unavailable (empty_author_diff_review_skip w)
      else of_run None (review_run world)
  end.

(** The re-ask of an unlocated block: the review that counts and whether it is
    the no-evidence mark. *)
Definition reask (world : IterWorld) (first : Reviewed) : Reviewed * bool :=
  if is_unlocated_block (rv_review first) then
    let r2 := of_run (rv_error first) (reask_run world) in
    let model := match rv_reviewer r2 with Some m => Some m | None => rv_reviewer first end in
    if is_unlocated_block (rv_review r2)
    then (mkReviewed (mark_unlocated_no_evidence (rv_review r2)) (rv_error r2) model (rv_verdict_model r2) (rv_all_complete r2), true)
    else (mkReviewed (rv_review r2) (rv_error r2) model (rv_verdict_model r2) (rv_all_complete r2), false)
  else (first, false).

(** What the author is told next. *)
Definition next_feedback (w : Work) (no_new_progress : bool) (r : ReviewOutput) : Feedback :=
  mkFeedback (author_err w)
    (if str_is_empty (trim (work_diff w)) then MadeNoChanges else if no_new_progress then NoNewEdits else NoPush)
    (if bool_decide (work_check w = Some false) then Some (work_check_tail w) else None)
    (summary r) (findings r) (next_steps r).

Definition sample_of (r : result ReviewRun string) : ReviewOutput :=
  match r with
  | Ok x => rr_review x
  | Err msg => synthesize_reviewer_unavailable ("review incomplete: " +:+ msg)
  end.
Definition model_of (previous : option string) (r : result ReviewRun string) : option string :=
  match r with Ok x => match rr_model x with Some m => Some m | None => previous end | Err _ => previous end.

(** From the reviewed iteration on: stop, resolve, or go on. *)
Definition decide_iteration (cfg : LoopConfig) (i : nat) (world : IterWorld) (w : Work) (rv : Reviewed) (no_evidence : bool)
    (s : LoopState) : IterEnd :=
  let review := rv_review rv in
  let skipped := review_skipped_empty_diff world w in
  let green := bool_decide (work_check w = Some true) in
  let check_satisfied := negb (bool_decide (work_check w = Some false)) in
  let blocking := count_blocking review green in
  let substance_ok := substance_accept_eligible (work_substance w) in
  let repeated := (1 <? i)%nat && bool_decide (work_diff w = prev_diff s) in
  if unresolved_review_stops_loop (verdict review) skipped no_evidence then Stop s
  else
    let review_ok := loop_review_ok review blocking in
    let resolve_now :=
      decide_loop_resolution
        (loop_signals_from_review (work_substance w) (bool_decide (is_Some (check_command cfg))) (work_check w) review)
        (accept_on_green cfg)
      && (negb (require_approval cfg) || explicit_loop_approval review blocking) in
    if (green || check_satisfied) && negb substance_ok && negb skipped then
      let '(next, abort) := nonsubstantive_stall_step repeated (stall_streak s) STALL_LIMIT in
      let s := with_prev_diff (work_diff w) (with_stall next s) in
      if abort then Stop s else Continue s
    else if resolve_now then Stop (with_resolved s)
    else
      let go_on s :=
        let s := if repeated then s else with_stall 0 s in
        Continue (with_feedback (next_feedback w repeated review) (with_prev_diff (work_diff w) s)) in
      if repeated then
        let ask := negb review_ok && (1 <=? stall_streak s)%nat && negb skipped in
        let f1 := sample_of (fresh_run1 world) in
        let f2 := sample_of (fresh_run2 world) in
        let s := if ask then
                   with_majority [verdict review; verdict f1; verdict f2]
                     (model_of (model_of (rv_reviewer rv) (fresh_run1 world)) (fresh_run2 world)) s
                 else s in
        if ask && majority_resolves_on_unchanged_diff review f1 f2 check_satisfied substance_ok
        then Stop (with_verdict "approve" (with_resolved s))
        else
          let s := if no_evidence then s else with_stall (S (stall_streak s)) s in
          if (STALL_LIMIT <=? stall_streak s)%nat then Stop s else go_on s
      else go_on s.

(** The phases after the diff is captured. *)
Definition after_capture (cfg : LoopConfig) (i : nat) (world : IterWorld) (w : Work) (check_timed_out : bool) (s : LoopState) : IterEnd :=
  let aborted := cancel_unconfirmed w && (threshold (tracker s) <=? streak (tracker s)) in
  let u := update_loop_streaks (counts_toward_dead_streak (turn w) (work_calls w)) check_timed_out
             (str_is_empty (trim (work_diff w))) (st_dead_streak s) (st_check_timeout_streak s) in
  let s := with_streaks u s in
  if streak_abort u then Stop s
  else if aborted then
    Stop (with_verdict REVIEWER_UNAVAILABLE_VERDICT
      (with_record (unreviewed_record i w (author_error w)
         "review skipped: the author cancel was never confirmed, so this diff is not a finished turn"
         (if unconfirmed_cancel_abort_threshold (shared_daemon (run_budget cfg)) =? 1
          then "author cancel unconfirmed on a shared daemon" else "author cancel unconfirmed twice in a row")) s))
  else if expired_before_review world then
    Stop (with_verdict REVIEWER_UNAVAILABLE_VERDICT
      (with_record (unreviewed_record i w (author_err w) "review skipped: the whole-run deadline was reached"
         "whole-run deadline reached") (with_deadline_hit s)))
  else
    let '(rv, no_evidence) := reask world (review_of world w) in
    let s := with_record
      (mkIterRecord i (turn_model <$> turn w) (author_error w) (work_check w) (rv_error rv) (rv_all_complete rv)
         (rv_verdict_model rv) (Some (verdict (rv_review rv))) (findings (rv_review rv)) [] None)
      (with_verdict (verdict (rv_review rv)) s) in
    decide_iteration cfg i world w rv no_evidence s.

Definition is_session_limit (author_err : option string) : bool :=
  match author_err with
  | Some e => bool_decide (fst <$> classify_message e = Some SessionLimit)
  | None => false
  end.

(** [run_check_watched] names its own time-out in the tail. *)
Definition check_wedged (r : bool * string) : bool :=
  negb (fst r) && str_contains "killed after " (snd r) && str_contains "(loop timeout)" (snd r).

(** From the author's turn on. *)
Definition iteration_body (cfg : LoopConfig) (i : nat) (world : IterWorld) (turn : option Turn) (author_err : option string)
    (s : LoopState) : IterEnd :=
  let session_limit := is_session_limit author_err in
  match captured_diff world with
  | Err detail =>
      Stop (with_verdict "comment"
        (with_record (mkIterRecord i None None None None false None None [] [] (Some "diff_capture_failed"%string)) s))
  | Ok diff =>
      let runs_check := negb session_limit && bool_decide (is_Some (check_command cfg)) in
      let '(passed, tail, wedged) :=
        if runs_check then (Some (fst (check_result world)), snd (check_result world), check_wedged (check_result world))
        else (None, ""%string, false) in
      after_capture cfg i world
        (mkWork turn author_err session_limit
           (match author_err with Some e => str_contains AUTHOR_CANCEL_UNCONFIRMED_MARKER e | None => false end)
           diff (classify_diff_substance diff) passed tail)
        wedged s
  end.

Definition loop_iteration (cfg : LoopConfig) (i : nat) (world : IterWorld) (s : LoopState) : IterEnd :=
  if expired_at_start world then Stop (with_deadline_hit s)
  else
    let author := author_phase_with_cancel (loop_timeout_secs cfg) (author_run world) in
    match author with
    | Ok t =>
        match turn_policy_violation t with
        | Some v => Stop (with_policy_violation (Some v) s)
        | None => iteration_body cfg i world (Some t) None (with_author (turn_model t) s)
        end
    | Err msg =>
        let unconfirmed := str_contains AUTHOR_CANCEL_UNCONFIRMED_MARKER msg in
        iteration_body cfg i world None (Some msg) (with_tracker (fst (tracker_observe (tracker s) unconfirmed)) s)
    end.

(** ** The run *)

(** [for i in 1..=max_iters]: the last iteration entered, and the state the
    loop leaves. *)
Fixpoint loop_from (cfg : LoopConfig) (world : nat -> IterWorld) (todo i : nat) (s : LoopState) : nat * LoopState :=
  match todo with
  | O => (pred i, s)
  | S todo =>
      match loop_iteration cfg i (world i) s with
      | Stop s => (i, s)
      | Continue s => loop_from cfg world todo (S i) s
      end
  end.
Definition loop_run (cfg : LoopConfig) (world : nat -> IterWorld) : nat * LoopState :=
  loop_from cfg world (Nat.max (max_iters cfg) 1) 1 (loop_start cfg).

(** ** The failure of an unresolved run *)

Definition loop_evidence (last_iter : option IterRecord) : string :=
  let review_error := r ← last_iter; rec_review_error r in
  let author_error := r ← last_iter; rec_author_error r in
  let author_hit_engine_budget :=
    match author_error with
    | Some e => bool_decide (fst <$> classify_message e = Some EngineBudgetExceeded)
    | None => false
    end in
  let author_failed_before_model :=
    negb (bool_decide (is_Some (r ← last_iter; rec_author_model r))) && bool_decide (is_Some author_error) in
  default ""%string
    (if author_hit_engine_budget || author_failed_before_model then author_error
     else match review_error with Some e => Some e | None => author_error end).

Definition loop_failure (violation : option string) (last_iter : option IterRecord) (final : string) (count : nat) :
    ClassifiedFailure :=
  let evidence := loop_evidence last_iter in
  let tail := if str_is_empty evidence then ""%string else "; last recorded reason: " +:+ evidence in
  match violation with
  | Some v =>
      classified_new PolicyViolation
        ("loop author turn violated free policy (use --allow-paid to permit): " +:+ v +:+ tail)
  | None =>
      let '(code, reset) :=
        match classify_message evidence with
        | Some (code, reset) => (code, if bool_decide (code = EngineBudgetExceeded) then reset else None)
        | None =>
            (if bool_decide (final = REVIEWER_UNAVAILABLE_VERDICT) then ReviewersUnavailable
             else if (count =? 0)%nat then EngineUnreachable else LoopExhausted, None)
        end in
      with_budget_reset code
        ("loop ended unresolved after " +:+ show_u (Z.of_nat count) +:+ " iteration(s)" +:+ tail) reset
  end.

Definition run_failure (s : LoopState) : option ClassifiedFailure :=
  if resolved s then None
  else Some (loop_failure (policy_violation s) (last (iterations s)) (final_verdict s) (length (iterations s))).

Definition loop_teardown_reason (resolved : bool) (violation : option string) (deadline_hit : bool) (code : option FailureCode)
    (final : string) (iterations_empty : bool) : string :=
  if resolved then "approved"
  else if bool_decide (is_Some violation) then "policy_violation"
  else if deadline_hit then "deadline"
  else match opt_filter (fun c => bool_decide
           (c ∈ [SessionLimit; AuthorFailed; AuthorTimeout; CancelUnconfirmed; EngineUnreachable])) code with
       | Some c => code_str c
       | None =>
           if bool_decide (final = REVIEWER_UNAVAILABLE_VERDICT) then "reviewer_unavailable"
           else if iterations_empty then "author_failed"
           else "exhausted"
       end.

Definition run_teardown_reason (s : LoopState) : string :=
  loop_teardown_reason (resolved s) (policy_violation s) (deadline_hit s) (cf_code <$> run_failure s) (final_verdict s)
    (bool_decide (iterations s = [])).

(** * Theorems *)

(** ** Budgets *)

(** The default deadline of a run leaves it at least a second and ends it
    before its worker's timeout, keeping five minutes or a tenth of the budget
    for the teardown whenever that leaves more than half of the budget *)
Theorem loop_deadline_bounds worker (Hw : 2 <= worker) :
  1 <= default_loop_deadline_secs worker < worker /\
  (600 < worker -> default_loop_deadline_secs worker = worker - loop_deadline_headroom_secs worker /\
     worker / 2 < default_loop_deadline_secs worker).
Proof.
  unfold default_loop_deadline_secs, loop_deadline_headroom_secs.
  destruct (Z.leb_spec worker 1); [lia|]. Z.to_euclidean_division_equations. lia.
Qed.
Lemma loop_deadline_bounds_witness :
  1 <= default_loop_deadline_secs WORKER_RUN_TIMEOUT_SECS < WORKER_RUN_TIMEOUT_SECS /\
  (600 < WORKER_RUN_TIMEOUT_SECS ->
     default_loop_deadline_secs WORKER_RUN_TIMEOUT_SECS
       = WORKER_RUN_TIMEOUT_SECS - loop_deadline_headroom_secs WORKER_RUN_TIMEOUT_SECS /\
     WORKER_RUN_TIMEOUT_SECS / 2 < default_loop_deadline_secs WORKER_RUN_TIMEOUT_SECS).
Proof. apply (loop_deadline_bounds WORKER_RUN_TIMEOUT_SECS). vm_compute. discriminate. Defined.

(** ** The decision *)

Definition benign (v : string) : Prop := norm v ∈ ["approve"; "comment"; "neutral"]%string.

Lemma review_ok_verdict_iff v b :
  loop_review_ok_verdict v b = true <-> benign v /\ (norm v = "approve"%string \/ b = 0%nat).
Proof.
  unfold loop_review_ok_verdict, benign. generalize (norm v). intros w. case_bool_decide as Hb.
  - split; [done|]. intros [Hg _]. set_solver.
  - case_bool_decide as Hg; cbn; [|by split; [|intros [? _]]].
    rewrite orb_true_iff, bool_decide_eq_true, Nat.eqb_eq. tauto.
Qed.

(** An iteration may resolve the loop exactly when its diff is real work,
    a configured check passed (an unconfigured one at least did not fail), no
    finding blocks and the verdict is a known benign one; the flag to accept on
    green changes nothing *)
Theorem resolution_iff s accept :
  decide_loop_resolution s accept = true <->
  substance_accept_eligible (substance s) = true /\
  (if check_configured s then check_passed s = Some true else check_passed s <> Some false) /\
  blocking_findings s = 0%nat /\ benign (sig_verdict s).
Proof.
  unfold decide_loop_resolution.
  destruct (substance_accept_eligible (substance s)); cbn [negb andb];
    [rewrite andb_false_r|rewrite andb_true_r].
  2:{ split; [|by intros [? _]]. destruct (_ && loop_review_ok_verdict _ _), accept,
        (check_passed s) as [[]|], (check_configured s); done. }
  destruct (Nat.eqb_spec (blocking_findings s) 0) as [Hb|Hb]; cbn [andb negb]; [|by split; [|intros (_ & _ & ? & _)]].
  pose proof (review_ok_verdict_iff (sig_verdict s) (blocking_findings s)) as Hr.
  destruct (loop_review_ok_verdict _ _); cbn [negb andb].
  - assert (benign (sig_verdict s)) as Hg by (by apply Hr).
    destruct (check_passed s) as [[]|], (check_configured s), accept; cbn; intuition (done || congruence).
  - split; [done|]. intros (_ & _ & _ & Hg). apply Hr. by split; [|right].
Qed.

Lemma accept_on_green_is_inert s : decide_loop_resolution s true = decide_loop_resolution s false.
Proof. apply eq_true_iff_eq. by rewrite !resolution_iff. Qed.

(** A passing check excuses no finding. *)
Lemma green_excuses_nothing r : count_blocking r true = count_blocking r false.
Proof. done. Qed.

(** ** Where a review comes from *)

Lemma norm_unavailable d : norm (verdict (synthesize_reviewer_unavailable d)) = REVIEWER_UNAVAILABLE_VERDICT.
Proof. done. Qed.

(** The review that counts is the output of a completed review pass of the
    iteration, or says so in its verdict. *)
Definition from_run (world : IterWorld) (w : Work) (r : ReviewOutput) : Prop :=
  engine_load_error world = None /\ cancel_unconfirmed w = false /\ session_limit w = false /\
  str_is_empty (trim (work_diff w)) = false /\
  exists x, review_run world = Ok x /\
    ((is_unlocated_block (rr_review x) = false /\ r = rr_review x) \/
     (is_unlocated_block (rr_review x) = true /\ exists y, reask_run world = Ok y /\ r = rr_review y /\
        is_unlocated_block r = false)).

Lemma review_source world w rv ne :
  reask world (review_of world w) = (rv, ne) ->
  from_run world w (rv_review rv) \/
  (ne = false /\ verdict (rv_review rv) = REVIEWER_UNAVAILABLE_VERDICT) \/
  (ne = true /\ verdict (rv_review rv) = COMMENT_NO_EVIDENCE_VERDICT).
Proof.
  assert (forall d, is_unlocated_block (synthesize_reviewer_unavailable d) = false) as Hu by done.
  assert (forall d, reask world (unavailable d) = (rv, ne) ->
    ne = false /\ verdict (rv_review rv) = REVIEWER_UNAVAILABLE_VERDICT) as Hd.
  { intros d. unfold reask. cbn [unavailable rv_review]. rewrite Hu. by intros [= <- <-]. }
  unfold review_of. destruct (engine_load_error world) eqn:Ee; [by intros H%Hd; right; left|].
  destruct (cancel_unconfirmed w) eqn:Ec; [by intros H%Hd; right; left|].
  destruct (session_limit w) eqn:El; [by intros H%Hd; right; left|].
  unfold review_skipped_empty_diff. rewrite Ee, Ec, El. rewrite bool_decide_eq_false_2 by (by intros [? ?]). cbn [negb andb].
  destruct (str_is_empty (trim (work_diff w))) eqn:Et; [by intros H%Hd; right; left|].
  destruct (review_run world) as [x|msg] eqn:Er; [|by intros H%Hd; right; left].
  unfold reask. cbn [of_run rv_review]. destruct (is_unlocated_block (rr_review x)) eqn:Eu.
  2:{ intros [= <- <-]. left. split_and!; [done..|]. exists x. split; [done|]. by left. }
  destruct (reask_run world) as [y|msg] eqn:Ey; cbn [of_run rv_review].
  - destruct (is_unlocated_block (rr_review y)) eqn:Eu2; intros [= <- <-]; [by right; right|].
    left. split_and!; [done..|]. exists x. split; [done|]. right. split; [done|]. by exists y.
  - cbn [unavailable rv_review]. rewrite Hu. intros [= <- <-]. by right; left.
Qed.

(** ** What a resolving iteration has established *)

Definition approves (r : ReviewOutput) : Prop := norm (verdict r) = "approve"%string.
Definition no_blocking (r : ReviewOutput) : Prop :=
  forall f, f ∈ findings r -> norm (severity f) ∉ ["critical"; "high"]%string.
Definition no_veto (r : ReviewOutput) : Prop :=
  forall f, f ∈ findings r ->
    (has_concrete_location f = true -> to_ascii_lowercase (severity f) ∉ ["critical"; "high"]%string) /\
    (has_concrete_location f = false -> norm (severity f) <> "critical"%string).

Definition reviewed_ok (cfg : LoopConfig) (r : ReviewOutput) : Prop :=
  benign (verdict r) /\ no_blocking r /\ (require_approval cfg = true -> approves r).
Definition majority_ok (world : IterWorld) (r : ReviewOutput) : Prop :=
  no_veto r /\ exists x y, fresh_run1 world = Ok x /\ fresh_run2 world = Ok y /\
    approves (rr_review x) /\ approves (rr_review y) /\ no_veto (rr_review x) /\ no_veto (rr_review y).

Lemma count_blocking_0 r g : count_blocking r g = 0%nat <-> no_blocking r.
Proof.
  unfold count_blocking, no_blocking. rewrite length_zero_iff_nil. split.
  - intros H f Hf Hs. assert (f ∈ filterb (fun f => bool_decide (norm (severity f) ∈ ["critical"; "high"]%string)) (findings r)) as Hin.
    { apply elem_of_filterb. split; [by apply bool_decide_eq_true|done]. }
    rewrite H in Hin. by apply not_elem_of_nil in Hin.
  - intros H. destruct (filterb _ _) as [|f l] eqn:E; [done|exfalso].
    assert (f ∈ f :: l) as Hin by left. rewrite <- E in Hin. apply elem_of_filterb in Hin as [Hs Hf].
    apply bool_decide_eq_true in Hs. by apply (H f Hf).
Qed.

Lemma veto_iff r : has_located_blocking_finding r || has_unlocated_critical_finding r = false <-> no_veto r.
Proof.
  rewrite orb_false_iff. unfold has_located_blocking_finding, has_unlocated_critical_finding, no_veto.
  rewrite <- !not_true_iff_false, !existsb_exists. split.
  - intros [H1 H2] f Hf. apply list_elem_of_In in Hf. split; intros Hl Hs.
    + apply H1. exists f. split; [done|]. by rewrite Hl, bool_decide_eq_true_2.
    + apply H2. exists f. split; [done|]. by rewrite Hl, bool_decide_eq_true_2.
  - intros H. split; intros (f & Hf & Hb); apply list_elem_of_In in Hf; destruct (H f Hf) as [Ha Hc];
      apply andb_true_iff in Hb as [Hs Hl]; apply bool_decide_eq_true in Hs; [by apply Ha|].
    apply negb_true_iff in Hl. by apply Hc.
Qed.

Lemma majority_iff current f1 f2 c sub :
  says_approve current = false ->
  majority_resolves_on_unchanged_diff current f1 f2 c sub = true ->
  c = true /\ sub = true /\ approves f1 /\ approves f2 /\ no_veto current /\ no_veto f1 /\ no_veto f2.
Proof.
  intros Hcur. unfold majority_resolves_on_unchanged_diff, majority_loop_approval.
  destruct c; [|done]. destruct sub; [|done]. cbn [negb orb existsb].
  pose proof (veto_iff current) as Hv. pose proof (veto_iff f1) as Hv1. pose proof (veto_iff f2) as Hv2.
  destruct (has_located_blocking_finding current || has_unlocated_critical_finding current); [done|].
  destruct (has_located_blocking_finding f1 || has_unlocated_critical_finding f1); [done|].
  destruct (has_located_blocking_finding f2 || has_unlocated_critical_finding f2); [done|].
  cbn [orb]. unfold filterb. cbn [List.filter]. rewrite Hcur. unfold says_approve, approves.
  case_bool_decide; case_bool_decide; cbn; try done. intros _. tauto.
Qed.

Lemma benign_available v : benign v -> v <> REVIEWER_UNAVAILABLE_VERDICT.
Proof.
  intros Hb ->. unfold benign in Hb.
  change (norm REVIEWER_UNAVAILABLE_VERDICT) with REVIEWER_UNAVAILABLE_VERDICT in Hb.
  rewrite !elem_of_cons in Hb. destruct Hb as [Hb|[Hb|[Hb|Hb]]]; [done..|by apply not_elem_of_nil in Hb].
Qed.

(** A reviewed iteration that resolves. *)
Lemma decide_resolved cfg i world w rv ne s :
  resolved s = false -> resolved (end_state (decide_iteration cfg i world w rv ne s)) = true ->
  ne = false /\ verdict (rv_review rv) <> REVIEWER_UNAVAILABLE_VERDICT /\
  substance_accept_eligible (work_substance w) = true /\ work_check w <> Some false /\
  ((reviewed_ok cfg (rv_review rv) /\ (is_Some (check_command cfg) -> work_check w = Some true)) \/
   (1 < i)%nat /\ work_diff w = prev_diff s /\ majority_ok world (rv_review rv)).
Proof.
  intros Hr. unfold decide_iteration.
  destruct (unresolved_review_stops_loop _ _ ne) eqn:Eu; [cbn; congruence|].
  assert (ne = false) as -> by (by destruct ne).
  set (sig := loop_signals_from_review _ _ _ _).
  destruct (_ && _ && _) eqn:Eg in |- *.
  { destruct (nonsubstantive_stall_step _ _ _) as [n ab]. destruct ab; cbn; congruence. }
  destruct (decide_loop_resolution sig (accept_on_green cfg) && _) eqn:Ed.
  - intros _. apply andb_true_iff in Ed as [Ed Ha]. apply resolution_iff in Ed as (Hs & Hc & Hb & Hg).
    cbn in Hs, Hc, Hb, Hg. apply count_blocking_0 in Hb as Hnb. split_and!; [done|by apply benign_available|done|..].
    + intros Hf. rewrite Hf in Hc. destruct (bool_decide (is_Some (check_command cfg))); congruence.
    + left. split; [split_and!; [done|done|]|].
      * intros Happ. rewrite Happ in Ha. cbn in Ha. unfold explicit_loop_approval in Ha.
        apply andb_true_iff in Ha as [Ha _]. by apply bool_decide_eq_true in Ha.
      * intros Hsome. by rewrite bool_decide_eq_true_2 in Hc.
  - destruct ((1 <? i)%nat && bool_decide (work_diff w = prev_diff s)) eqn:Erep; [|cbn; congruence].
    apply andb_true_iff in Erep as [Hi Hd]. apply Nat.ltb_lt in Hi. apply bool_decide_eq_true in Hd.
    destruct (_ && majority_resolves_on_unchanged_diff _ _ _ _ _) eqn:Em.
    + intros _. apply andb_true_iff in Em as [Hask Hm]. apply andb_true_iff in Hask as [[Hok _]%andb_true_iff Hskip].
      apply negb_true_iff in Hok.
      apply majority_iff in Hm as (Hc & Hs & H1 & H2 & Hv & Hv1 & Hv2).
      2:{ unfold says_approve. apply bool_decide_eq_false. intros Happ. unfold loop_review_ok in Hok.
          rewrite <- not_true_iff_false in Hok. apply Hok. apply review_ok_verdict_iff. unfold benign. rewrite Happ.
          split; [left|by left]. }
      split_and!; [done| |done|..].
      * intros Hv'. unfold unresolved_review_stops_loop in Eu. rewrite bool_decide_eq_true_2 in Eu by done.
        cbn in Eu. apply negb_false_iff in Eu. by rewrite Eu in Hskip.
      * apply negb_true_iff, bool_decide_eq_false in Hc. done.
      * right. split; [done|]. split; [done|]. split; [done|]. unfold approves, sample_of in *.
        destruct (fresh_run1 world) as [x|]; [|done]. destruct (fresh_run2 world) as [y|]; [|done]. by exists x, y.
    + match goal with |- context [if ?b then with_majority _ _ _ else _] => destruct b end;
        destruct (_ <=? _)%nat; cbn; congruence.
Qed.

(** What an iteration that resolves the loop has established, with the diff of
    the iteration before. *)
Definition resolving (cfg : LoopConfig) (i : nat) (world : IterWorld) (previous : string) : Prop :=
  exists diff, captured_diff world = Ok diff /\
  substance_accept_eligible (classify_diff_substance diff) = true /\ str_is_empty (trim diff) = false /\
  expired_at_start world = false /\ expired_before_review world = false /\ engine_load_error world = None /\
  (forall msg, author_phase_with_cancel (loop_timeout_secs cfg) (author_run world) = Err msg ->
     str_contains AUTHOR_CANCEL_UNCONFIRMED_MARKER msg = false) /\
  (is_Some (check_command cfg) -> fst (check_result world) = true) /\
  exists x, review_run world = Ok x /\
  exists r, (r = rr_review x /\ is_unlocated_block (rr_review x) = false \/
             is_unlocated_block (rr_review x) = true /\ exists y, reask_run world = Ok y /\ r = rr_review y) /\
    (reviewed_ok cfg r \/ (1 < i)%nat /\ diff = previous /\ majority_ok world r).

Lemma with_policy_resolved v s : resolved (with_policy_violation v s) = resolved s.
Proof. done. Qed.

Lemma body_resolved cfg i world turn author_err s :
  expired_at_start world = false -> resolved s = false ->
  author_phase_with_cancel (loop_timeout_secs cfg) (author_run world) =
    match turn, author_err with Some t, None => Ok t | _, Some e => Err e | None, None => Err ""%string end ->
  resolved (end_state (iteration_body cfg i world turn author_err s)) = true ->
  resolving cfg i world (prev_diff s).
Proof.
  intros Hex Hr Hauthor. unfold iteration_body.
  destruct (captured_diff world) as [diff|e] eqn:Ed; [|cbn; congruence].
  set (runs_check := negb (is_session_limit author_err) && bool_decide (is_Some (check_command cfg))).
  set (chk := if runs_check then _ else _).
  assert (chk = if runs_check then (Some (fst (check_result world)), snd (check_result world), check_wedged (check_result world))
                else (None, ""%string, false)) as Hchk by done. clearbody chk.
  destruct chk as [[passed tail] wedged]. unfold after_capture.
  set (w := mkWork _ _ _ _ _ _ _ _). set (u := update_loop_streaks _ _ _ _ _).
  destruct (streak_abort u); [cbn; congruence|].
  destruct (cancel_unconfirmed w && _) eqn:Eab; [cbn; congruence|].
  destruct (expired_before_review world) eqn:Eexp; [cbn; congruence|].
  destruct (reask world (review_of world w)) as [rv ne] eqn:Ereask. intros Hres.
  apply decide_resolved in Hres as (-> & Hva & Hsub & Hnf & Hcase); [|done].
  apply review_source in Ereask as [(Hel & Hcu & Hsl & Hne & x & Hx & Hsrc)|[(_ & Hv)|(? & _)]]; [|done|done].
  cbn in Hcu, Hsl, Hne, Hsub, Hnf, Hcase. exists diff. split_and!; try done.
  - intros msg Hm. rewrite Hm in Hauthor. destruct turn, author_err; by simplify_eq.
  - intros Hsome. subst runs_check. rewrite Hsl, bool_decide_eq_true_2 in Hchk by done. cbn in Hchk.
    injection Hchk as -> -> ->. by destruct (fst (check_result world)).
  - exists x. split; [done|]. exists (rv_review rv). split.
    + destruct Hsrc as [[Hu ->]|(Hu & y & Hy & -> & _)]; [by left|right; split; [done|by exists y]].
    + destruct Hcase as [[Hok _]|(Hi & Hp & Hm)]; [by left|right]. by split_and!.
Qed.

Lemma iteration_resolved cfg i world s :
  resolved s = false -> resolved (end_state (loop_iteration cfg i world s)) = true ->
  resolving cfg i world (prev_diff s).
Proof.
  intros Hr. unfold loop_iteration. destruct (expired_at_start world) eqn:Ex; [cbn; congruence|].
  destruct (author_phase_with_cancel _ _) as [t|msg] eqn:Ea.
  - destruct (turn_policy_violation t); [cbn; congruence|].
    intros Hres. apply body_resolved in Hres; [|done|done|done]. done.
  - intros Hres. apply body_resolved in Hres; [|done|done|done]. done.
Qed.

(** The states an iteration leaves: what it keeps and the record it adds. *)
Definition adds_record (i : nat) (s s' : LoopState) : Prop :=
  exists r, map rec_iter (iterations s') = map rec_iter (iterations s) ++ [r] /\ r = i.

Lemma map_removelast_last {A B} (f : A -> B) l x y :
  last l = Some x -> f y = f x -> map f (removelast l ++ [y]) = map f l.
Proof.
  intros Hl Hf. apply last_Some in Hl as [k ->]. rewrite removelast_last, !map_app. cbn. by rewrite Hf.
Qed.

Lemma decide_frame cfg i world w rv ne s : forall s',
  end_state (decide_iteration cfg i world w rv ne s) = s' ->
  map rec_iter (iterations s') = map rec_iter (iterations s).
Proof.
  intros s' <-. unfold decide_iteration.
  assert (forall a b s0, map rec_iter (iterations (with_majority a b s0)) = map rec_iter (iterations s0)) as Hmaj.
  { intros a b s0. cbn. destruct (last (iterations s0)) as [r|] eqn:E; [|done]. by eapply map_removelast_last. }
  destruct (unresolved_review_stops_loop _ _ _); [done|].
  destruct (_ && _ && _) in |- *.
  { destruct (nonsubstantive_stall_step _ _ _) as [n []]; done. }
  destruct (decide_loop_resolution _ _ && _); [done|].
  destruct ((1 <? i)%nat && _); [|done].
  match goal with |- context [if ?b then with_majority _ _ _ else _] => destruct b end;
    destruct (_ && majority_resolves_on_unchanged_diff _ _ _ _ _);
    destruct ne; try destruct (_ <=? _)%nat; cbn -[with_majority]; rewrite ?Hmaj; done.
Qed.

Lemma decide_continue cfg i world w rv ne s s' :
  decide_iteration cfg i world w rv ne s = Continue s' ->
  resolved s' = resolved s /\ prev_diff s' = work_diff w.
Proof.
  unfold decide_iteration. destruct (unresolved_review_stops_loop _ _ _); [done|].
  destruct (_ && _ && _) in |- *.
  { destruct (nonsubstantive_stall_step _ _ _) as [n []]; [done|]. by intros [= <-]. }
  destruct (decide_loop_resolution _ _ && _); [done|].
  destruct ((1 <? i)%nat && _); [|by intros [= <-]].
  match goal with |- context [if ?b then with_majority _ _ _ else _] => destruct b end;
    destruct (_ && majority_resolves_on_unchanged_diff _ _ _ _ _); try done;
    destruct ne; destruct (_ <=? _)%nat; try done; by intros [= <-].
Qed.

Lemma body_frame cfg i world turn author_err s :
  let e := iteration_body cfg i world turn author_err s in
  (map rec_iter (iterations (end_state e)) = map rec_iter (iterations s) \/ adds_record i s (end_state e)) /\
  forall s', e = Continue s' -> resolved s' = resolved s /\ captured_diff world = Ok (prev_diff s') /\ adds_record i s s'.
Proof.
  cbv zeta. unfold iteration_body. destruct (captured_diff world) as [diff|d].
  2:{ split; [|done]. right. exists i. cbn. by rewrite map_app. }
  match goal with |- context [let '(_, _) := ?c in _] => destruct c as [[passed tail] wedged] end.
  unfold after_capture. set (w := mkWork _ _ _ _ _ _ _ _).
  destruct (streak_abort _); [split; [by left|done]|].
  destruct (cancel_unconfirmed w && _); [split; [right; exists i; cbn; by rewrite map_app|done]|].
  destruct (expired_before_review world); [split; [right; exists i; cbn; by rewrite map_app|done]|].
  destruct (reask world (review_of world w)) as [rv ne].
  set (s0 := with_record _ _).
  assert (map rec_iter (iterations s0) = map rec_iter (iterations s) ++ [i]) as Hs0 by (cbn; by rewrite map_app).
  split.
  - right. exists i. split; [|done]. rewrite <- Hs0. by apply (decide_frame cfg i world w rv ne s0).
  - intros s' Hc. pose proof (decide_frame cfg i world w rv ne s0 s') as Hf. rewrite Hc in Hf. specialize (Hf eq_refl).
    apply decide_continue in Hc as [Hr Hp]. split_and!; [done|by rewrite Hp|]. exists i. by rewrite Hf, Hs0.
Qed.

Lemma iteration_frame cfg i world s :
  let e := loop_iteration cfg i world s in
  (map rec_iter (iterations (end_state e)) = map rec_iter (iterations s) \/ adds_record i s (end_state e)) /\
  forall s', e = Continue s' -> resolved s' = resolved s /\ captured_diff world = Ok (prev_diff s') /\ adds_record i s s'.
Proof.
  cbv zeta. unfold loop_iteration. destruct (expired_at_start world); [split; [by left|done]|].
  destruct (author_phase_with_cancel _ _) as [t|msg].
  - destruct (turn_policy_violation t); [split; [by left|done]|].
    apply (body_frame cfg i world (Some t) None (with_author (turn_model t) s)).
  - apply (body_frame cfg i world None (Some msg) (with_tracker _ s)).
Qed.

(** The run, with the state its last iteration starts from. *)
Lemma loop_from_spec cfg world todo i s n s' :
  loop_from cfg world todo i s = (n, s') -> (1 <= i)%nat -> resolved s = false ->
  map rec_iter (iterations s) = seq 1 (pred i) ->
  ((1 < i)%nat -> captured_diff (world (pred i)) = Ok (prev_diff s)) ->
  (map rec_iter (iterations s') = seq 1 n \/ map rec_iter (iterations s') = seq 1 (pred n)) /\ (n <= pred i + todo)%nat /\
  (resolved s' = true -> (i <= n)%nat /\ exists p, ((1 < n)%nat -> captured_diff (world (pred n)) = Ok p) /\ resolving cfg n (world n) p).
Proof.
  revert i s. induction todo as [|todo IH]; intros i s; cbn [loop_from].
  { intros [= <- <-] Hi Hr Hrec Hp. split_and!; [by left|lia|congruence]. }
  pose proof (iteration_frame cfg i (world i) s) as [Hrec Hcont]. intros Hl Hi Hr Hseq Hp.
  assert (seq 1 (pred i) ++ [i] = seq 1 i) as Hsnoc.
  { destruct i as [|i]; [lia|]. cbn [pred]. by rewrite seq_S. }
  destruct (loop_iteration cfg i (world i) s) as [s1|s1] eqn:E.
  - destruct (Hcont s1 eq_refl) as (Hr1 & Hd & x & Hadd & ->).
    apply IH in Hl as (Hs & Hn & Hres); [|lia|congruence|by rewrite Hadd, Hseq|done].
    split_and!; [done|lia|]. intros H. destruct (Hres H) as [? ?]. split; [lia|done].
  - injection Hl as <- <-. cbn [end_state] in Hrec. split_and!.
    + destruct Hrec as [->|(x & -> & ->)]; [by right|left]. by rewrite Hseq, Hsnoc.
    + lia.
    + intros Hres. split; [lia|]. exists (prev_diff s). split; [done|].
      apply iteration_resolved; [done|]. by rewrite E.
Qed.

(** C2: A run resolves only in an iteration whose own diff is real work, whose
    configured check passed, whose author's turn is over, and whose completed
    review either found nothing blocking or was overruled by two fresh
    approvals of the diff the previous iteration already had, no sample having
    placed a blocking finding *)
Theorem loop_resolves_soundly cfg world (H : resolved (snd (loop_run cfg world)) = true) :
  let n := fst (loop_run cfg world) in
  (1 <= n <= Nat.max (max_iters cfg) 1)%nat /\
  exists previous, ((1 < n)%nat -> captured_diff (world (pred n)) = Ok previous) /\ resolving cfg n (world n) previous.
Proof.
  unfold loop_run in *. destruct (loop_from cfg world _ 1 (loop_start cfg)) as [n s'] eqn:E.
  apply loop_from_spec in E as (_ & Hn & Hres); [|lia|done|done|intros; lia].
  destruct (Hres H) as [H1 Hp]. cbn. split; [cbn in Hn; lia|done].
Qed.

(** A run enters at most its iterations and records every one of them in
    order, the last one possibly excepted *)
Theorem loop_records cfg world :
  let n := fst (loop_run cfg world) in
  let recs := map rec_iter (iterations (snd (loop_run cfg world))) in
  (n <= Nat.max (max_iters cfg) 1)%nat /\ (recs = seq 1 n \/ recs = seq 1 (pred n)).
Proof.
  unfold loop_run. destruct (loop_from cfg world _ 1 (loop_start cfg)) as [n s'] eqn:E.
  apply loop_from_spec in E as (Hrec & Hn & _); [|lia|done|done|intros; lia]. cbn. by split; [cbn in Hn; lia|].
Qed.

(** ** A run cannot spin *)

(** The iterations from [i] to before [m] all go on, and lead from [s] to [t]. *)
Inductive goes_on (cfg : LoopConfig) (world : nat -> IterWorld) : nat -> LoopState -> nat -> LoopState -> Prop :=
  | goes_here i s : goes_on cfg world i s i s
  | goes_next i s s1 m t : loop_iteration cfg i (world i) s = Continue s1 -> goes_on cfg world (S i) s1 m t ->
      goes_on cfg world i s m t.

Lemma goes_on_le cfg world i s m t : goes_on cfg world i s m t -> (i <= m)%nat.
Proof. induction 1; lia. Qed.

Lemma entered cfg world todo i s n s' m :
  loop_from cfg world todo i s = (n, s') -> (i <= m <= n)%nat -> exists t, goes_on cfg world i s m t.
Proof.
  revert i s. induction todo as [|todo IH]; intros i s; cbn [loop_from].
  { intros [= <- <-] Hm. assert (m = i) as -> by lia. exists s. constructor. }
  destruct (loop_iteration cfg i (world i) s) as [s1|s1] eqn:E; intros Hl Hm.
  - destruct (decide (m = i)) as [->|Hne]; [exists s; constructor|].
    destruct (IH _ _ Hl ltac:(lia)) as [t Ht]. exists t. by econstructor.
  - injection Hl as <- <-. assert (m = i) as -> by lia. exists s. constructor.
Qed.

Lemma goes_on_split cfg world i s m t k :
  goes_on cfg world i s m t -> (i <= k <= m)%nat -> exists u, goes_on cfg world k u m t.
Proof.
  induction 1 as [i s|i s s1 m t Hs Hg IH]; intros Hk.
  - assert (k = i) as -> by lia. exists s. constructor.
  - destruct (decide (k = i)) as [->|Hne]; [exists s; by econstructor|]. apply IH. lia.
Qed.

Lemma decide_stall cfg i world w rv ne s s' :
  decide_iteration cfg i world w rv ne s = Continue s' -> (1 < i)%nat -> work_diff w = prev_diff s ->
  (stall_streak s < stall_streak s' < STALL_LIMIT)%nat.
Proof.
  unfold decide_iteration. intros Hc Hi Hd. revert Hc. rewrite (proj2 (Nat.ltb_lt 1 i) Hi), (bool_decide_eq_true_2 (work_diff w = prev_diff s)) by done.
  destruct (unresolved_review_stops_loop _ _ ne) eqn:Eu; [done|]. destruct ne; [done|]. cbn [andb].
  destruct (_ && _ && negb _) in |- *.
  { unfold nonsubstantive_stall_step. destruct (Nat.leb_spec STALL_LIMIT (S (stall_streak s))); [done|].
    intros [= <-]. cbn. lia. }
  destruct (decide_loop_resolution _ _ && _); [done|].
  match goal with |- context [if ?b then with_majority _ _ _ else _] => destruct b end;
    destruct (_ && majority_resolves_on_unchanged_diff _ _ _ _ _); try done;
    match goal with |- context [(STALL_LIMIT <=? ?n)%nat] => destruct (Nat.leb_spec STALL_LIMIT n) end; try done;
    intros [= <-]; cbn in *; lia.
Qed.

Lemma iteration_stall cfg i world s s' :
  loop_iteration cfg i world s = Continue s' -> (1 < i)%nat -> captured_diff world = Ok (prev_diff s) ->
  (stall_streak s < stall_streak s' < STALL_LIMIT)%nat.
Proof.
  unfold loop_iteration. destruct (expired_at_start world); [done|]. intros Hc Hi Hd.
  assert (forall turn err s0, iteration_body cfg i world turn err s0 = Continue s' ->
    stall_streak s0 = stall_streak s -> prev_diff s0 = prev_diff s ->
    (stall_streak s < stall_streak s' < STALL_LIMIT)%nat) as Hbody.
  { intros turn err s0 Hb Hst Hpd. unfold iteration_body in Hb. rewrite Hd in Hb.
    match type of Hb with context [let '(_, _) := ?c in _] => destruct c as [[passed tail] wedged] end.
    unfold after_capture in Hb. set (w := mkWork _ _ _ _ _ _ _ _) in *.
    destruct (streak_abort _); [done|]. destruct (cancel_unconfirmed w && _); [done|].
    destruct (expired_before_review world); [done|]. destruct (reask world (review_of world w)) as [rv ne].
    apply decide_stall in Hb; [|done|cbn; by rewrite Hpd]. cbn in Hb. lia. }
  destruct (author_phase_with_cancel _ _) as [t|msg].
  - destruct (turn_policy_violation t); [done|]. by eapply Hbody.
  - by eapply Hbody.
Qed.

(** C27: four iterations in a row with the same diff end the run, whatever the
    reviews and the check say and however many iterations are left *)
Theorem unchanged_diff_ends_run cfg world k d
  (Hk : (1 <= k)%nat) (Hd : forall j, (k <= j <= k + 3)%nat -> captured_diff (world j) = Ok d) :
  (fst (loop_run cfg world) <= k + 3)%nat.
Proof.
  destruct (decide (fst (loop_run cfg world) <= k + 3)%nat) as [|Hgt]; [done|exfalso].
  unfold loop_run in Hgt. destruct (loop_from cfg world _ 1 (loop_start cfg)) as [n s'] eqn:E. cbn in Hgt.
  destruct (entered _ _ _ _ _ _ _ (k + 4) E ltac:(lia)) as [t Ht].
  apply goes_on_split with (k := k) in Ht as [u Hu]; [|lia].
  assert (forall i s, goes_on cfg world i s (k + 4) t -> (i < k + 4)%nat ->
    exists s1, loop_iteration cfg i (world i) s = Continue s1 /\ goes_on cfg world (S i) s1 (k + 4) t) as Hstep.
  { intros i s Hg Hlt. inversion Hg; subst; [lia|eauto]. }
  apply Hstep in Hu as (s1 & H1 & Hu); [|lia]. apply Hstep in Hu as (s2 & H2 & Hu); [|lia].
  apply Hstep in Hu as (s3 & H3 & Hu); [|lia]. apply Hstep in Hu as (s4 & H4 & _); [|lia].
  assert (forall i s s1, loop_iteration cfg i (world i) s = Continue s1 -> captured_diff (world i) = Ok (prev_diff s1)) as Hpd.
  { intros i s s0 Hc. pose proof (iteration_frame cfg i (world i) s) as [_ Hf]. by destruct (Hf s0 Hc) as (_ & ? & _). }
  apply Hpd in H1 as P1. apply Hpd in H2 as P2. apply Hpd in H3 as P3.
  rewrite Hd in P1, P2, P3 by lia. injection P1 as P1. injection P2 as P2. injection P3 as P3.
  apply iteration_stall in H2; [|lia|rewrite Hd by lia; by rewrite P1].
  apply iteration_stall in H3; [|lia|rewrite Hd by lia; by rewrite P2].
  apply iteration_stall in H4; [|lia|rewrite Hd by lia; by rewrite P3].
  unfold STALL_LIMIT in *. lia.
Qed.

(** ** Samples *)

Definition sample_diff : string :=
  "diff --git a/src/a.rs b/src/a.rs" +:+ String newline ("+++ b/src/a.rs" +:+ String newline ("+let x = 1;" +:+ String newline "")).
Definition sample_cfg (iters : nat) : LoopConfig :=
  mkLoopConfig iters (Some "cargo test"%string) false false 900 (mkLoopRunBudget 6480 false).
Definition sample_turn : Turn := mkTurn true "completed" 3 "m" None None.
Definition sample_review (v : string) (fs : list Finding) : result ReviewRun string :=
  Ok (mkReviewRun (plain_review v "s" fs [] []) (Some "r"%string) (Some "r"%string) true).
Definition sample_world (a : AuthorRun) (diff : string) (ok : bool) (r f1 f2 : result ReviewRun string) : IterWorld :=
  mkIterWorld false a (Ok diff) (ok, ""%string) false None r r f1 f2.

Lemma loop_resolves_soundly_witness :
  let w := fun _ : nat => sample_world (Returned (Ok sample_turn)) sample_diff true (sample_review " Approve" [])
                            (sample_review "comment" []) (sample_review "comment" []) in
  fst (loop_run (sample_cfg 5) w) = 1%nat /\
  exists previous, ((1 < 1)%nat -> captured_diff (w 0%nat) = Ok previous) /\ resolving (sample_cfg 5) 1 (w 1%nat) previous.
Proof.
  intros w. split; [reflexivity|]. apply (loop_resolves_soundly (sample_cfg 5) w). reflexivity.
Defined.

Lemma unchanged_diff_ends_run_witness :
  let w := fun _ : nat => sample_world (Returned (Ok sample_turn)) sample_diff false
     (sample_review "request_changes" [mkFinding "high" "t" "b" (Some "src/a.rs:1"%string) None])
     (sample_review "approve" []) (sample_review "approve" []) in
  (fst (loop_run (sample_cfg 50) w) <= 1 + 3)%nat.
Proof. intros w. apply (unchanged_diff_ends_run (sample_cfg 50) w 1 sample_diff); [lia|done]. Defined.

(** ** The failure of an unresolved run *)

(** C28: A run reports a failure exactly when it did not resolve, always with a
    non-zero exit code; its code is the policy gate's, else what the last
    record's evidence is recognised as, else by the verdict and the count, and
    a reset timestamp comes only with the engine's budget refusal *)
Theorem run_failure_exact s :
  (run_failure s = None <-> resolved s = true) /\ (run_teardown_reason s = "approved"%string <-> resolved s = true) /\
  forall f, run_failure s = Some f ->
    0 < exit_code (cf_code f) /\
    (is_Some (budget_reset_at f) -> cf_code f = EngineBudgetExceeded) /\
    cf_code f =
      match policy_violation s, classify_message (loop_evidence (last (iterations s))) with
      | Some _, _ => PolicyViolation
      | None, Some (c, _) => c
      | None, None => if bool_decide (final_verdict s = REVIEWER_UNAVAILABLE_VERDICT) then ReviewersUnavailable
                      else if bool_decide (iterations s = []) then EngineUnreachable else LoopExhausted
      end.
Proof.
  unfold run_failure. split_and!.
  - destruct (resolved s); split; done.
  - unfold run_teardown_reason, run_failure, loop_teardown_reason. destruct (resolved s); [done|]. split; [|done].
    case_bool_decide; [done|]. destruct (deadline_hit s); [done|]. cbn [fmap option_fmap option_map].
    unfold opt_filter. case_bool_decide; [by destruct (cf_code _)|]. repeat case_bool_decide; done.
  - intros f. destruct (resolved s); [done|]. intros [= <-]. unfold loop_failure.
    split; [match goal with |- 0 < exit_code ?c => by destruct c end|].
    destruct (policy_violation s) as [v|]; [cbn; split; [by intros [? ?]|done]|].
    destruct (classify_message _) as [[c reset]|]; cbn.
    + split; [|done]. case_bool_decide; [done|by intros [? ?]].
    + split; [by intros [? ?]|]. case_bool_decide; [done|].
      destruct (iterations s); [by rewrite bool_decide_eq_true_2|by rewrite bool_decide_eq_false_2].
Qed.

(** ** Divergences *)

(** An author whose cancel is not confirmed ends the run in that very
    iteration, whatever threshold the tracker has. *)
Lemma unconfirmed_cancel_always_ends cfg i world s msg :
  author_phase_with_cancel (loop_timeout_secs cfg) (author_run world) = Err msg ->
  str_contains AUTHOR_CANCEL_UNCONFIRMED_MARKER msg = true ->
  exists s', loop_iteration cfg i world s = Stop s'.
Proof.
  intros Ha Hm. unfold loop_iteration. destruct (expired_at_start world); [by eexists|]. rewrite Ha.
  unfold iteration_body. destruct (captured_diff world) as [diff|]; [|by eexists].
  match goal with |- context [let '(_, _) := ?c in _] => destruct c as [[passed tail] wedged] end.
  rewrite Hm. unfold after_capture. destruct (streak_abort _); [by eexists|].
  destruct (cancel_unconfirmed _ && _); [by eexists|]. destruct (expired_before_review world); [by eexists|].
  set (w := mkWork _ _ _ _ _ _ _ _).
  destruct (reask world (review_of world w)) as [rv ne] eqn:Er.
  assert (verdict (rv_review rv) = REVIEWER_UNAVAILABLE_VERDICT) as Hv.
  { revert Er. unfold review_of. cbn. destruct (engine_load_error world); by intros [= <- <-]. }
  unfold decide_iteration, unresolved_review_stops_loop, review_skipped_empty_diff. rewrite Hv, bool_decide_eq_true_2 by done.
  cbn [w cancel_unconfirmed negb]. rewrite andb_false_r. destruct ne; by eexists.
Qed.

(** Two turns without an edit end the run without a record of the second. *)
Lemma dead_turn_leaves_no_record :
  let w := fun _ : nat => sample_world (Returned (Err "boom"%string)) "" false (sample_review "approve" [])
                            (sample_review "approve" []) (sample_review "approve" []) in
  let '(n, s) := loop_run (sample_cfg 5) w in n = 2%nat /\ map rec_iter (iterations s) = [1%nat].
Proof. by vm_compute. Qed.

(** An author that runs out of time, with its cancel confirmed and no edit, is
    reported as a reviewer that could not be reached. *)
Lemma author_timeout_blames_reviewer :
  let w := fun _ : nat => sample_world (OutOfTime CancelConfirmed) "" false (sample_review "approve" [])
                            (sample_review "approve" []) (sample_review "approve" []) in
  let s := snd (loop_run (sample_cfg 1) w) in
  cf_code <$> run_failure s = Some ReviewersUnavailable /\ run_teardown_reason s = "reviewer_unavailable"%string /\
  rec_author_error <$> last (iterations s)
    = Some (Some "author phase timed out after 900s (killed, daemon cancel issued)"%string).
Proof. by vm_compute. Qed.

(** Two fresh approvals overrule a high finding that names no place. *)
Lemma unlocated_high_is_overruled :
  let high l := mkFinding "high" "t" "b" l None in
  let w := fun _ : nat => sample_world (Returned (Ok sample_turn)) sample_diff true
     (sample_review "request_changes" [high None; mkFinding "low" "t" "b" (Some "src/a.rs:1"%string) None])
     (sample_review "approve" []) (sample_review "approve" [high None]) in
  let '(n, s) := loop_run (sample_cfg 9) w in n = 3%nat /\ resolved s = true.
Proof. by vm_compute. Qed.

(** A severity padded with a blank is no veto, though it counts as blocking. *)
Lemma padded_severity_is_no_veto :
  let r := plain_review "approve" "s" [mkFinding " high" "t" "b" (Some "src/a.rs:1"%string) None] [] [] in
  count_blocking r false = 1%nat /\ majority_loop_approval [r; r; r] = true.
Proof. by vm_compute. Qed.

(** A rejected comment-only diff leaves the author the feedback of an earlier
    iteration: after the first one, none at all. *)
Lemma rejected_diff_keeps_stale_feedback :
  let comment := "diff --git a/src/a.rs b/src/a.rs" +:+ String newline ("+// x" +:+ String newline "") in
  let w := sample_world (Returned (Ok sample_turn)) comment true
     (sample_review "request_changes" [mkFinding "high" "t" "b" (Some "src/a.rs:1"%string) None])
     (sample_review "approve" []) (sample_review "approve" []) in
  match loop_iteration (sample_cfg 9) 1 w (loop_start (sample_cfg 9)) with
  | Continue s => feedback s = None
  | Stop _ => False
  end.
Proof. by vm_compute. Qed.
