(* ===== verification/ReviewDiff.v ===== *)
(** Preparing a diff for review (review_diff.rs): size caps, the globs and the
    exclusion of files, the map of definitions, the splitting of hunks and the
    packing into chunks.

    Texts are byte strings in UTF-8 whose white space and letters are ASCII;
    sizes are in bytes.  The ignore file and git are read by the caller. *)
From S2P Require Import Prelude Numbers Config Policy Text.
Local Open Scope string_scope.
Local Open Scope Z_scope.
Local Open Scope list_scope.

(** ** Size caps *)

Definition DEFAULT_MAX_DIFF_BYTES : Z := 120000.
Definition DEFAULT_MAX_HUNK_BYTES : Z := 9000.
Definition DIFF_MAP_MAX_BYTES : Z := 4096.
Definition DEFAULT_MAX_REVIEW_CHUNKS : Z := 24.
Definition HUNK_OVERLAP_LINES : nat := 3.
Definition MAX_DEFS_PER_FILE : nat := 40.

Definition resolve_limit (flag config : option Z) (default_ : Z) : Z := default default_ (or_opt flag config).
Definition resolve_limit_for_route (flag route config : option Z) (default_ : Z) : Z :=
  resolve_limit (or_opt flag route) config default_.

Record RouteReviewDefaults := mkRouteDefaults {
  route_hunk_bytes : option Z; route_diff_bytes : option Z; route_chunks : option Z; route_tokens : option Z
}.
Record ReviewConfig := mkReviewConfig {
  cfg_diff_bytes : option Z; cfg_hunk_bytes : option Z; exclude : list string;
  route_defaults : gmap string RouteReviewDefaults
}.

Definition route_default_for (defaults : gmap string RouteReviewDefaults) (model : string) : option RouteReviewDefaults :=
  if str_is_empty model then None
  else match defaults !! model with
       | Some d => Some d
       | None => let base := basename model in if bool_decide (base = model) then None else defaults !! base
       end.

Record ReviewCaps := mkReviewCaps {
  max_hunk_bytes : Z; max_diff_bytes : Z; max_chunks : Z; max_tokens_floor : option Z; from_route : bool
}.

Definition derived_max_chunks (max_diff_bytes max_hunk_bytes : Z) : Z :=
  Z.max (max_diff_bytes / Z.max max_hunk_bytes 1 + 4) DEFAULT_MAX_REVIEW_CHUNKS.

Definition resolve_review_caps (flag_hunk flag_diff : option Z) (cfg : option ReviewConfig) (model : option string) : ReviewCaps :=
  let route := c ← cfg; m ← model; route_default_for (route_defaults c) m in
  let hunk := resolve_limit_for_route flag_hunk (route ≫= route_hunk_bytes) (cfg ≫= cfg_hunk_bytes) DEFAULT_MAX_HUNK_BYTES in
  let diff := resolve_limit_for_route flag_diff (route ≫= route_diff_bytes) (cfg ≫= cfg_diff_bytes) DEFAULT_MAX_DIFF_BYTES in
  mkReviewCaps hunk diff
    (default (derived_max_chunks diff hunk) (opt_filter (fun n => 0 <? n) (route ≫= route_chunks)))
    (route ≫= route_tokens) (bool_decide (is_Some route)).

(** ** Globs *)

(** The two pointers of [segment_match] move as those of the configuration's
    matcher do. *)
Definition segment_match (pat value : string) : bool :=
  default false (Glob.wildcard_match (String.list_ascii_of_string pat) (String.list_ascii_of_string value)).

Fixpoint match_segments (pat path : list string) {struct pat} : bool :=
  match pat with
  | [] => match path with [] => true | _ => false end
  | seg :: rest =>
      if bool_decide (seg = "**") then
        (fix any_suffix (path : list string) : bool :=
           match_segments rest path || match path with [] => false | _ :: path => any_suffix path end) path
      else match path with
           | [] => false
           | first :: more => segment_match seg first && match_segments rest more
           end
  end.

Fixpoint trim_dot_slashes (s : string) : string :=
  match s with
  | String a (String b r) => if Ascii.eqb a "." && Ascii.eqb b "/" then trim_dot_slashes r else s
  | _ => s
  end.
Definition segments (s : string) : list string := filterb (fun w => negb (str_is_empty w)) (split_on "/" s).

Definition glob_match (pattern path : string) : bool :=
  let pat := trim pattern in
  let anchored := starts_with "/" pat in
  let pat := trim_end_matches (Ascii.eqb "/") (skip_while (Ascii.eqb "/") pat) in
  if str_is_empty pat then false
  else
    let pat := if ends_with "/" (trim_end pattern) then pat +:+ "/**" else pat in
    let vseg := segments (trim_dot_slashes path) in
    let pseg := segments pat in
    match last vseg, pseg with
    | None, _ | _, [] => false
    | Some base, [p] => if negb anchored && negb (str_has "/" pat) then segment_match p base else match_segments [p] vseg
    | Some _, _ => match_segments pseg vseg
    end.

(** ** Sections and paths *)

(** The text cut before each [head] that follows a line feed: what comes before
    the first cut, and the pieces after it. *)
Fixpoint cut_lines (head : string) (s : string) : string * list string :=
  match s with
  | EmptyString => (EmptyString, [])
  | String c r =>
      let '(p, ps) := cut_lines head r in
      if Ascii.eqb c newline && starts_with head r then (String c EmptyString, p :: ps) else (String c p, ps)
  end.
Definition pieces (head s : string) : list string := let '(p, ps) := cut_lines head s in p :: ps.
Definition sections (diff : string) : list string := pieces "diff --git " diff.

(** The text before the first [head] that follows a line feed, and the rest. *)
Definition first_cut (head s : string) : option (string * string) :=
  let '(p, ps) := cut_lines head s in match ps with [] => None | _ => Some (p, str_drop (String.length p) s) end.

Definition octal (c : ascii) : option Z := opt_filter (fun d => d <? 8) (digit_value c).
Definition push_byte (v : Z) (s : string) : string := if v <? 256 then String (Ascii.ascii_of_nat (Z.to_nat v)) s else s.
Definition escaped (c : ascii) : ascii :=
  if Ascii.eqb c "t" then tab else if Ascii.eqb c "n" then newline
  else if Ascii.eqb c "r" then Ascii.ascii_of_nat 13 else c.

(** The bytes of a quoted path. *)
Fixpoint unescape (s : string) : string :=
  match s with
  | EmptyString => EmptyString
  | String c r =>
      if negb (Ascii.eqb c backslash) then String c (unescape r)
      else match r with
      | EmptyString => String c EmptyString
      | String x r1 =>
          match octal x with
          | None => String (escaped x) (unescape r1)
          | Some a =>
              match r1 with
              | EmptyString => push_byte a EmptyString
              | String y r2 =>
                  match octal y with
                  | None => push_byte a (unescape r1)
                  | Some b =>
                      match r2 with
                      | EmptyString => push_byte (8 * a + b) EmptyString
                      | String z r3 =>
                          match octal z with
                          | None => push_byte (8 * a + b) (unescape r2)
                          | Some d => push_byte (8 * (8 * a + b) + d) (unescape r3)
                          end
                      end
                  end
              end
          end
      end
  end.

Definition unquote_git_path (raw : string) : string :=
  unescape (default raw (r ← strip_prefix (String quote "") raw; strip_suffix (String quote "") r)).

Definition clean_git_path (raw : string) : option string :=
  let raw := trim raw in
  if str_is_empty raw || bool_decide (raw = "/dev/null") then None
  else
    let unquoted := if starts_with (String quote "") raw then unquote_git_path raw else raw in
    Some (default unquoted (or_opt (strip_prefix "a/" unquoted) (strip_prefix "b/" unquoted))).

(** The two header lines, read up to the first hunk. *)
Fixpoint header_paths (ls : list string) (minus : option string) : option string * option string :=
  match ls with
  | [] => (minus, None)
  | line :: ls =>
      if starts_with "@@" line then (minus, None)
      else
        let minus := or_opt minus (strip_prefix "--- " line) in
        match strip_prefix "+++ " line with
        | Some rest => (minus, Some rest)
        | None => header_paths ls minus
        end
  end.
Definition section_path (section : string) : option string :=
  let '(minus, plus) := header_paths (lines section) None in
  or_opt (plus ≫= clean_git_path) (minus ≫= clean_git_path).

Fixpoint keep_first (seen : list string) (l : list string) : list string :=
  match l with
  | [] => seen
  | p :: l => keep_first (if bool_decide (p ∈ seen) then seen else seen ++ [p]) l
  end.
Definition touched_paths (diff : string) : list string := keep_first [] (omap section_path (sections diff)).

(** ** Exclusion *)

Record ExcludedFile := mkExcluded { ex_path : string; ex_bytes : Z; ex_pattern : string }.
Record ExclusionReport := mkReport { ex_files : list ExcludedFile; ex_total : Z }.

Definition excluded_as (patterns : list string) (section : string) : option ExcludedFile :=
  path ← section_path section;
  pattern ← find_first (fun pat => glob_match pat path) patterns;
  Some (mkExcluded path (len section) pattern).

Definition filter_step (patterns : list string) (acc : string * ExclusionReport) (section : string) : string * ExclusionReport :=
  let '(out, report) := acc in
  match excluded_as patterns section with
  | Some f => (out, mkReport (ex_files report ++ [f]) (ex_total report + ex_bytes f))
  | None => (out +:+ section, report)
  end.
Definition filter_diff (diff : string) (patterns : list string) : string * ExclusionReport :=
  match patterns with
  | [] => (diff, mkReport [] 0)
  | _ => foldl (filter_step patterns) ("", mkReport [] 0) (sections diff)
  end.

Definition parse_zoderignore (raw : string) : list string :=
  filterb (fun l => negb (str_is_empty l) && negb (starts_with "#" l)) (map trim (lines raw)).

(** ** Definitions in a source line *)

Definition DEF_KEYWORDS : list string :=
  ["fn"; "def"; "func"; "function"; "class"; "struct"; "enum"; "union"; "interface"; "trait"; "type"; "impl"; "sub";
   "proc"; "namespace"; "errordomain"; "record"].
Definition CONTROL_KEYWORDS : list string :=
  ["if"; "else"; "for"; "while"; "switch"; "case"; "return"; "sizeof"; "do"; "catch"; "try"; "throw"; "new"; "delete";
   "assert"; "defined"; "typeof"; "await"; "yield"; "match"; "when"].

Definition is_ident_start (b : ascii) : bool := is_ascii_alpha b || Ascii.eqb b "_".
Definition is_ident_char (b : ascii) : bool := is_ascii_alphanumeric b || Ascii.eqb b "_".

(** The identifiers of a text, each with what follows it. *)
Fixpoint ident_words (inside : bool) (s : string) : list (string * string) :=
  match s with
  | EmptyString => []
  | String c r =>
      if inside then ident_words (is_ident_char c) r
      else if is_ident_start c then (take_while is_ident_char s, skip_while is_ident_char s) :: ident_words true r
      else ident_words false r
  end.

Definition next_ident (rest : string) : option string :=
  let t := skip_while (fun c => negb (is_ident_start c)) rest in
  if str_is_empty t then None else Some (take_while is_ident_char t).

Definition keyword_def (line : string) : option string :=
  let decl := match split_once "(" line with Some (d, _) => d | None => line end in
  find_map (fun '(word, rest) => if bool_decide (word ∈ DEF_KEYWORDS) then next_ident rest else None) (ident_words false decl).

Definition starts_ident (s : string) : bool := match s with String c _ => is_ident_start c | EmptyString => false end.

Definition shell_def (line : string) : option string :=
  '(before, after) ← split_once "(" line;
  let name := trim_end before in
  if str_is_empty name || negb (str_all is_ident_char name) || negb (starts_ident name) then None
  else if starts_with ")" (trim_start after) then Some name else None.

(** The text up to its last character that is not of an identifier, and the
    rest. *)
Fixpoint last_break (s : string) : option (string * string) :=
  match s with
  | EmptyString => None
  | String c r =>
      match last_break r with
      | Some (b, n) => Some (String c b, n)
      | None => if is_ident_char c then None else Some (String c EmptyString, r)
      end
  end.

Definition type_like (c : ascii) : bool :=
  is_ascii_alphanumeric c || Ascii.eqb c "_" || Ascii.eqb c "*" || Ascii.eqb c "&".

Definition c_style_def (line : string) : option string :=
  '(before_open, _) ← split_once "(" line;
  let prefix := trim_end before_open in
  if str_has "=" prefix then None
  else
    '(upto, name) ← last_break prefix;
    if str_is_empty name || negb (starts_ident name) then None
    else if bool_decide (name ∈ CONTROL_KEYWORDS) then None
    else
      let before := trim_end upto in
      if str_is_empty before then None
      else if ends_with "." before || ends_with "->" before || ends_with "::" before then None
      else if existsb type_like (String.list_ascii_of_string before) then Some name else None.

Definition extract_defs (raw : string) : list string :=
  let line := trim raw in
  match line with
  | EmptyString => []
  | String first _ =>
      if Ascii.eqb first "/" || Ascii.eqb first "*" || Ascii.eqb first "#" then []
      else match or_opt (keyword_def line) (or_opt (shell_def line) (c_style_def line)) with
           | Some name => [name]
           | None => []
           end
  end.

(** ** The map of a diff *)

Record FileFacts := mkFacts { added : Z; removed : Z; add_defs : list string; del_defs : list string; in_hunks : bool }.

Definition fact_line (f : FileFacts) (line : string) : FileFacts :=
  if negb (in_hunks f) then mkFacts (added f) (removed f) (add_defs f) (del_defs f) (starts_with "@@" line)
  else match strip_prefix "+" line with
  | Some rest =>
      if starts_with "++" rest then f
      else mkFacts (added f + 1) (removed f) (keep_first (add_defs f) (extract_defs rest)) (del_defs f) true
  | None =>
      match strip_prefix "-" line with
      | Some rest =>
          if starts_with "--" rest then f
          else mkFacts (added f) (removed f + 1) (add_defs f) (keep_first (del_defs f) (extract_defs rest)) true
      | None => f
      end
  end.
Definition file_facts (section : string) : FileFacts := foldl fact_line (mkFacts 0 0 [] [] false) (lines section).

Definition join_defs (defs : list string) : string :=
  let sorted := dedup_adjacent (sort_by String.compare defs) in
  if (MAX_DEFS_PER_FILE <? length sorted)%nat then
    join ", " (take MAX_DEFS_PER_FILE sorted) +:+ " (+" +:+ show_u (Z.of_nat (length sorted - MAX_DEFS_PER_FILE)) +:+ " more)"
  else join ", " sorted.

Definition pair_compare (a b : string * string) : comparison :=
  then_with (String.compare a.1 b.1) (String.compare a.2 b.2).

(** The renames, in the order of the set. *)
Definition renames (add_defs del_defs : list string) : list (string * string) :=
  sort_by pair_compare
    (concat (map (fun d => map (fun a => (d, a))
       (filterb (fun a => negb (bool_decide (a = d)) && str_contains d a && (3 <=? len d)) add_defs)) del_defs)).

Definition eol : string := String newline "".

Definition map_block (path : string) (f : FileFacts) : string :=
  "f " +:+ path +:+ " +" +:+ show_u (added f) +:+ " -" +:+ show_u (removed f) +:+ eol
  +:+ (match add_defs f with [] => "" | ds => " +defs: " +:+ join_defs ds +:+ eol end)
  +:+ (match del_defs f with [] => "" | ds => " -defs: " +:+ join_defs ds +:+ eol end)
  +:+ join "" (map (fun '(d, a) => " rename " +:+ d +:+ " -> " +:+ a +:+ eol) (renames (add_defs f) (del_defs f))).

Definition blocks (diff : string) : list string :=
  omap (fun section => path ← section_path section; Some (map_block path (file_facts section))) (sections diff).

(** [block.matches("\n ").count()] *)
Fixpoint def_lines (s : string) : Z :=
  match s with
  | EmptyString => 0
  | String c r => (if Ascii.eqb c newline && starts_with " " r then 1 else 0) + def_lines r
  end.

Definition NOTE_RESERVE : Z := 96.
Record MapState := mkMap { map_text : string; omitted : Z; omitted_defs : Z }.
Definition map_step (m : MapState) (block : string) : MapState :=
  if DIFF_MAP_MAX_BYTES <? len (map_text m) + len block + NOTE_RESERVE then
    mkMap (map_text m) (omitted m + 1) (omitted_defs m + def_lines block)
  else mkMap (map_text m +:+ block) (omitted m) (omitted_defs m).

Definition omitted_note (m : MapState) : string :=
  "... " +:+ show_u (omitted m) +:+ " more file(s) (~" +:+ show_u (omitted_defs m)
  +:+ " definition lines) omitted to keep the map under 4096 bytes" +:+ eol.

Definition truncate_map (s : string) : string :=
  if DIFF_MAP_MAX_BYTES <? len s then
    let s := str_take (Z.to_nat DIFF_MAP_MAX_BYTES) s in
    if ends_with eol s then s else s +:+ eol
  else s.

Definition build_diff_map (diff : string) : string :=
  let m := foldl map_step (mkMap ("diff-map (deterministic; covers ALL chunks):" +:+ eol) 0 0) (blocks diff) in
  truncate_map (if 0 <? omitted m then map_text m +:+ omitted_note m else map_text m).

(** ** Splitting a hunk *)

Inductive ChunkError :=
  | SectionTooLarge (bytes cap : Z)
  | HunkTooLarge (bytes cap : Z)
  | EmptyHunk (path : string)
  | HeaderTooLarge (path : string) (cap : Z)
  | LineTooLarge (path : string) (bytes cap : Z)
  | PartTooLarge (cap : Z)
  | TooManyChunks (max_chunks cap : Z)
  | DiffTooLarge (bytes max_diff_bytes : Z).

(** [body.split_inclusive('\n')] *)
Fixpoint split_inclusive (s : string) : list string :=
  match s with
  | EmptyString => []
  | String c r =>
      if Ascii.eqb c newline then String c EmptyString :: split_inclusive r
      else match split_inclusive r with
           | [] => [String c EmptyString]
           | l :: ls => String c l :: ls
           end
  end.

Definition line_counts (line : string) : Z * Z :=
  match line with
  | EmptyString => (1, 1)
  | String c _ =>
      if Ascii.eqb c "-" then (1, 0) else if Ascii.eqb c "+" then (0, 1) else if Ascii.eqb c backslash then (0, 0) else (1, 1)
  end.

Definition parse_pair (s : string) : Z * Z :=
  let '(start, count) := default (s, "1") (split_once "," s) in
  (default 0 (parse_u64_std (trim start)), default 1 (parse_u64_std (trim count))).

Definition hunk_token (ranges : (Z * Z) * (Z * Z)) (tok : string) : (Z * Z) * (Z * Z) :=
  match strip_prefix "-" tok with
  | Some s => (parse_pair s, ranges.2)
  | None => match strip_prefix "+" tok with Some s => (ranges.1, parse_pair s) | None => ranges end
  end.
Definition parse_hunk_header (header : string) : (Z * Z) * (Z * Z) :=
  foldl hunk_token ((0, 1), (0, 1)) (take 2 (split_whitespace (default header (strip_prefix "@@ " header)))).

Definition bytes_of (ls : list string) : Z := foldr Z.add 0 (map len ls).
Definition old_of (ls : list string) : Z := foldr Z.add 0 (map (fun l => (line_counts l).1) ls).
Definition new_of (ls : list string) : Z := foldr Z.add 0 (map (fun l => (line_counts l).2) ls).

(** The lines gathered into groups of at most [budget] bytes. *)
Fixpoint group_lines (path : string) (cap budget : Z) (cur : list string) (ls : list string) :
    result (list (list string)) ChunkError :=
  match ls with
  | [] => Ok (match cur with [] => [] | _ => [cur] end)
  | line :: ls =>
      if budget <? len line then Err (LineTooLarge path (len line) cap)
      else match cur with
      | [] => group_lines path cap budget [line] ls
      | _ =>
          if budget <? bytes_of cur + len line then
            match group_lines path cap budget [line] ls with Ok gs => Ok (cur :: gs) | Err e => Err e end
          else group_lines path cap budget (cur ++ [line]) ls
      end
  end.

Fixpoint take_context (ls : list string) : list string :=
  match ls with
  | l :: ls => if starts_with " " l then l :: take_context ls else []
  | [] => []
  end.

(** The context carried over is shortened from the front until it fits. *)
Fixpoint shrink_overlap (budget group_bytes : Z) (overlap : list string) : list string :=
  match overlap with
  | [] => []
  | _ :: rest => if budget <? bytes_of overlap + group_bytes then shrink_overlap budget group_bytes rest else overlap
  end.
Definition overlap_of (budget : Z) (prev group : list string) : list string :=
  shrink_overlap budget (bytes_of group) (rev (take HUNK_OVERLAP_LINES (take_context (rev prev)))).

Fixpoint with_overlap (budget : Z) (prev : option (list string)) (groups : list (list string)) :
    list (list string * list string) :=
  match groups with
  | [] => []
  | g :: gs =>
      (match prev with None => [] | Some p => overlap_of budget p g end, g) :: with_overlap budget (Some g) gs
  end.

Definition usize_add (a b : Z) : Z := (a + b) mod 18446744073709551616.

Definition part_text (header path : string) (k total old_start new_start : Z) (overlap core : list string) : string :=
  let ls := overlap ++ core in
  let part := header +:+ "@@ -" +:+ show_u old_start +:+ "," +:+ show_u (old_of ls) +:+ " +" +:+ show_u new_start +:+ ","
    +:+ show_u (new_of ls) +:+ " @@ part " +:+ show_u k +:+ "/" +:+ show_u total +:+ " of " +:+ path +:+ eol +:+ join "" ls in
  if ends_with eol part then part else part +:+ eol.

Fixpoint render_parts (header path : string) (cap total k old_pos new_pos : Z) (groups : list (list string * list string)) :
    result (list string) ChunkError :=
  match groups with
  | [] => Ok []
  | (overlap, core) :: gs =>
      let part := part_text header path k total (u64_sat_sub old_pos (old_of overlap)) (u64_sat_sub new_pos (new_of overlap))
                    overlap core in
      if cap <? len part then Err (PartTooLarge cap)
      else match render_parts header path cap total (k + 1) (usize_add old_pos (old_of core)) (usize_add new_pos (new_of core)) gs with
           | Ok parts => Ok (part :: parts)
           | Err e => Err e
           end
  end.

Definition split_oversized_hunk (header hunk path : string) (cap : Z) : result (list string) ChunkError :=
  let '(hunk_header, body) := default (hunk, "") (split_once newline hunk) in
  let '((old_start, _), (new_start, _)) := parse_hunk_header hunk_header in
  match split_inclusive body with
  | [] => Err (EmptyHunk path)
  | ls =>
      let overhead := len header + len path + 160 in
      if cap <=? overhead then Err (HeaderTooLarge path cap)
      else
        let budget := cap - overhead in
        match group_lines path cap budget [] ls with
        | Err e => Err e
        | Ok groups =>
            render_parts header path cap (Z.of_nat (length groups)) 1 old_start new_start (with_overlap budget None groups)
        end
  end.

(** ** Units and chunks *)

Definition ChunkUnit : Type := string * string.

Definition hunk_units (header path : string) (cap : Z) (split_hunks : bool) (hunk : string) : result (list ChunkUnit) ChunkError :=
  if len header + len hunk <=? cap then Ok [(header, hunk)]
  else if split_hunks then
    match split_oversized_hunk header hunk path cap with
    | Ok parts => Ok (map (fun part => (header, default part (strip_prefix header part))) parts)
    | Err e => Err e
    end
  else Err (HunkTooLarge (len header + len hunk) cap).

Fixpoint collect {A B E} (f : A -> result (list B) E) (l : list A) : result (list B) E :=
  match l with
  | [] => Ok []
  | x :: l => match f x with
              | Err e => Err e
              | Ok ys => match collect f l with Ok zs => Ok (ys ++ zs) | Err e => Err e end
              end
  end.

Definition section_units (cap : Z) (split_hunks : bool) (section : string) : result (list ChunkUnit) ChunkError :=
  match first_cut "@@" section with
  | None => if cap <? len section then Err (SectionTooLarge (len section) cap) else Ok [("", section)]
  | Some (header, body) =>
      collect (hunk_units header (default "" (section_path section)) cap split_hunks) (pieces "@@" body)
  end.

Record Packing := mkPacking { packed : list string; last_header : option string }.

Definition pack_step (cap max_chunks : Z) (p : Packing) (u : ChunkUnit) : result Packing ChunkError :=
  let '(header, body) := u in
  let continues_file := negb (str_is_empty header) && bool_decide (last_header p = Some header) in
  let cost := if continues_file then len body else len header + len body in
  let fits := match last (packed p) with None => false | Some chunk => len chunk + cost <=? cap end in
  let chunks :=
    match last (packed p), fits with
    | Some chunk, true => removelast (packed p) ++ [chunk +:+ (if continues_file then "" else header) +:+ body]
    | _, _ => packed p ++ [header +:+ body]
    end in
  if max_chunks <? Z.of_nat (length chunks) then Err (TooManyChunks max_chunks cap) else Ok (mkPacking chunks (Some header)).

Fixpoint pack (cap max_chunks : Z) (p : Packing) (us : list ChunkUnit) : result Packing ChunkError :=
  match us with
  | [] => Ok p
  | u :: us => match pack_step cap max_chunks p u with Ok p => pack cap max_chunks p us | Err e => Err e end
  end.

Definition review_diff_chunks (diff : string) (max_hunk_bytes : Z) (split_hunks : bool) (max_chunks : Z) :
    result (list string) ChunkError :=
  let cap := Z.max max_hunk_bytes 1 in
  if str_is_empty (trim diff) then Ok []
  else match collect (section_units cap split_hunks) (sections diff) with
       | Err e => Err e
       | Ok us => match pack cap max_chunks (mkPacking [] None) us with Ok p => Ok (packed p) | Err e => Err e end
       end.

Record PreparedDiff := mkPrepared {
  filtered : string; excluded : ExclusionReport; diff_map : option string; chunks : list string;
  emptied_by_exclusion : bool
}.

Definition prepare_review_diff_with_chunks (zoderignore : list string) (raw_diff : string)
    (cli_excludes config_excludes : list string) (max_diff_bytes max_hunk_bytes max_chunks : Z) (split_hunks : bool) :
    result PreparedDiff ChunkError :=
  let '(filtered, excluded) := filter_diff raw_diff (zoderignore ++ config_excludes ++ cli_excludes) in
  let emptied := negb (str_is_empty (trim raw_diff)) && str_is_empty (trim filtered) in
  if max_diff_bytes <? len filtered then Err (DiffTooLarge (len filtered) max_diff_bytes)
  else match review_diff_chunks filtered max_hunk_bytes split_hunks max_chunks with
       | Err e => Err e
       | Ok chunks =>
           Ok (mkPrepared filtered excluded (if (1 <? length chunks)%nat then Some (build_diff_map filtered) else None)
                 chunks emptied)
       end.

(** ** Texts and their lines *)

Lemma len_app a b : len (a +:+ b) = len a + len b.
Proof. unfold len. rewrite str_length_app. lia. Qed.
Lemma len_nonneg s : 0 <= len s.
Proof. unfold len. lia. Qed.
Lemma len_join ls : len (join "" ls) = bytes_of ls.
Proof. induction ls as [|l ls IH]; [done|]. rewrite join_cons, len_app, IH. done. Qed.

Lemma cut_lines_join head s : let '(p, ps) := cut_lines head s in p +:+ join "" ps = s.
Proof.
  induction s as [|c s IH]; [done|]. cbn [cut_lines]. destruct (cut_lines head s) as [p ps].
  destruct (_ && _); rewrite str_app_cons, ?str_nil_app, ?join_cons, IH; done.
Qed.
Lemma pieces_join head s : join "" (pieces head s) = s.
Proof. pose proof (cut_lines_join head s) as H. unfold pieces. destruct (cut_lines head s). by rewrite join_cons. Qed.

Definition ends_eol (s : string) : Prop := exists x, s = x +:+ eol.

Lemma ends_eol_cons c s : ends_eol s -> ends_eol (String c s).
Proof. intros [x ->]. exists (String c x). by rewrite str_app_cons. Qed.

(** Every piece but the last one ends with a line feed. *)
Lemma cut_lines_ends head s : let '(p, ps) := cut_lines head s in
  (ps <> [] -> ends_eol p) /\ Forall ends_eol (removelast ps).
Proof.
  induction s as [|c s IH]; [split; [done|constructor]|]. cbn [cut_lines]. destruct (cut_lines head s) as [p ps].
  destruct IH as [IH1 IH2]. destruct (Ascii.eqb c newline && starts_with head s) eqn:E.
  - apply andb_true_iff in E as [E _]. apply Ascii.eqb_eq in E as ->. split; [intros _; by exists ""|].
    destruct ps as [|q ps]; [constructor|]. cbn [removelast]. constructor; [by apply IH1|exact IH2].
  - split; [|done]. intros H. by apply ends_eol_cons, IH1.
Qed.

Lemma first_cut_spec head s h b : first_cut head s = Some (h, b) -> s = h +:+ b /\ ends_eol h.
Proof.
  unfold first_cut. pose proof (cut_lines_join head s) as H1. pose proof (cut_lines_ends head s) as H2.
  destruct (cut_lines head s) as [p ps]. destruct ps as [|q ps]; [done|]. intros [= -> <-].
  split; [|by apply H2]. by rewrite <- H1, str_drop_app.
Qed.

(** ** Exclusion *)

Definition kept (patterns : list string) (s : string) : bool := negb (bool_decide (is_Some (excluded_as patterns s))).
Definition total_bytes (files : list ExcludedFile) : Z := foldr Z.add 0 (map ex_bytes files).

Lemma kept_spec patterns s : kept patterns s = match excluded_as patterns s with Some _ => false | None => true end.
Proof.
  unfold kept. destruct (excluded_as patterns s).
  - rewrite bool_decide_eq_true_2; [done|by eexists].
  - rewrite bool_decide_eq_false_2; [done|by intros [? ?]].
Qed.

Lemma total_bytes_snoc files f : total_bytes (files ++ [f]) = total_bytes files + ex_bytes f.
Proof. unfold total_bytes. induction files as [|g files IH]; cbn in *; lia. Qed.

Lemma filter_fold patterns ss out files :
  foldl (filter_step patterns) (out, mkReport files (total_bytes files)) ss =
    (out +:+ join "" (filterb (kept patterns) ss),
     mkReport (files ++ omap (excluded_as patterns) ss) (total_bytes (files ++ omap (excluded_as patterns) ss))).
Proof.
  revert out files. induction ss as [|x ss IH]; intros out files; [by rewrite str_app_nil, app_nil_r|].
  cbn [foldl filter_step omap list_omap filterb List.filter]. rewrite kept_spec.
  destruct (excluded_as patterns x) as [f|]; cbn [ex_files ex_total].
  - by rewrite <- total_bytes_snoc, IH, <- app_assoc.
  - by rewrite IH, join_cons, str_app_assoc.
Qed.

Lemma excluded_bytes patterns x f : excluded_as patterns x = Some f -> ex_bytes f = len x.
Proof.
  unfold excluded_as. intros H. apply bind_Some in H as (p & _ & H). apply bind_Some in H as (q & _ & H).
  by injection H as <-.
Qed.

Lemma filter_sizes patterns ss :
  len (join "" (filterb (kept patterns) ss)) + total_bytes (omap (excluded_as patterns) ss) = len (join "" ss).
Proof.
  unfold total_bytes. induction ss as [|x ss IH]; [done|]. cbn [omap list_omap filterb List.filter].
  rewrite join_cons, len_app, kept_spec. destruct (excluded_as patterns x) as [f|] eqn:E; unfold filterb in IH.
  - cbn [map foldr]. rewrite (excluded_bytes _ _ _ E). lia.
  - rewrite join_cons, len_app. lia.
Qed.

(** The exclusion takes away exactly the sections whose path matches a
    pattern, each under the first pattern that matches, and keeps the others
    byte for byte and in order; the sizes add up to the size of the diff *)
Theorem filter_exact diff patterns :
  let '(out, report) := filter_diff diff patterns in
  out = join "" (filterb (kept patterns) (sections diff)) /\
  ex_files report = omap (excluded_as patterns) (sections diff) /\
  ex_total report = total_bytes (ex_files report) /\
  len out + ex_total report = len diff.
Proof.
  assert (forall ps, foldl (filter_step ps) ("", mkReport [] 0) (sections diff) =
    (join "" (filterb (kept ps) (sections diff)),
     mkReport (omap (excluded_as ps) (sections diff)) (total_bytes (omap (excluded_as ps) (sections diff))))) as Hf
    by (intros ps; exact (filter_fold ps (sections diff) "" [])).
  assert (filter_diff diff patterns = foldl (filter_step patterns) ("", mkReport [] 0) (sections diff)) as ->.
  { destruct patterns; [|done]. rewrite Hf. cbn [filter_diff].
    assert (forall x, excluded_as [] x = None) as Hn by (intros x; unfold excluded_as; by destruct (section_path x)).
    assert (forall ss, omap (excluded_as []) ss = [] /\ filterb (kept []) ss = ss) as Hk.
    { induction ss as [|x ss [IH1 IH2]]; [done|]. cbn [omap list_omap filterb List.filter]. rewrite kept_spec, Hn.
      split; [exact IH1|]. f_equal. exact IH2. }
    destruct (Hk (sections diff)) as [-> ->]. unfold sections. by rewrite pieces_join. }
  rewrite Hf. cbn [ex_files ex_total]. split_and!; try done.
  rewrite filter_sizes. unfold sections. by rewrite pieces_join.
Qed.

(** ** What a text changes *)

Definition strip_eol (l : string) : string := default l (strip_suffix eol l).
Definition is_change (l : string) : bool := starts_with "+" l || starts_with "-" l.
(** The added and removed lines of a text. *)
Definition changes (ls : list string) : list string := filterb is_change (map strip_eol ls).
Definition payload (s : string) : list string := changes (split_inclusive s).

(** A whole line, and a list of lines of which only the last may be open. *)
Definition whole (l : string) : Prop := exists x, l = x +:+ eol /\ str_has newline x = false.
Inductive lines_ok : list string -> Prop :=
  | lines_nil : lines_ok []
  | lines_open x : x <> "" -> str_has newline x = false -> lines_ok [x]
  | lines_whole l ls : whole l -> lines_ok ls -> lines_ok (l :: ls).

Lemma split_inclusive_ok s : lines_ok (split_inclusive s) /\ join "" (split_inclusive s) = s.
Proof.
  induction s as [|c s [IH1 IH2]]; [split; [constructor|done]|]. cbn [split_inclusive].
  destruct (Ascii.eqb_spec c newline) as [->|Hc].
  - split; [constructor; [by exists ""|done]|]. by rewrite join_cons, IH2, str_app_cons, str_nil_app.
  - apply Ascii.eqb_neq in Hc. destruct (split_inclusive s) as [|l ls].
    + rewrite <- IH2. split; [|done]. apply lines_open; [done|]. cbn [str_has]. by rewrite Hc.
    + split; [|by rewrite join_cons, str_app_cons, <- IH2, join_cons].
      inversion IH1 as [|x Hx Hn|l' ls' (x & -> & Hn) Hls]; subst.
      * apply lines_open; [done|]. cbn [str_has]. by rewrite Hc.
      * apply lines_whole; [|done]. exists (String c x). rewrite str_app_cons. split; [done|]. cbn [str_has]. by rewrite Hc.
Qed.

Lemma split_line x r : str_has newline x = false -> split_inclusive (x +:+ eol +:+ r) = (x +:+ eol) :: split_inclusive r.
Proof.
  induction x as [|c x IH]; intros Hx.
  - rewrite !str_nil_app. unfold eol. rewrite str_app_cons, str_nil_app. done.
  - cbn [str_has] in Hx. apply orb_false_iff in Hx as [Hc Hx]. rewrite !str_app_cons. cbn [split_inclusive].
    by rewrite Hc, IH.
Qed.
Lemma split_open x : x <> "" -> str_has newline x = false -> split_inclusive x = [x].
Proof.
  induction x as [|c x IH]; [done|]. intros _ Hx. cbn [str_has] in Hx. apply orb_false_iff in Hx as [Hc Hx].
  cbn [split_inclusive]. rewrite Hc. destruct x as [|d x]; [done|]. by rewrite IH.
Qed.
Lemma split_join_lines ls : lines_ok ls -> split_inclusive (join "" ls) = ls.
Proof.
  induction 1 as [|x Hx Hn|l ls (x & -> & Hn) _ IH]; [done|by apply split_open|].
  by rewrite join_cons, str_app_assoc, split_line, IH.
Qed.

Lemma lines_ok_app a b : lines_ok (a ++ b) -> lines_ok a /\ lines_ok b /\ (b <> [] -> Forall whole a).
Proof.
  induction a as [|l a IH]; cbn [app]; intros H; [by split_and!; [constructor| |]|].
  inversion H as [|x Hx Hn E|l' ls' Hl Hls]; subst.
  - destruct a as [|? ?]; [|done]. cbn in *. subst. split_and!; [by constructor|constructor|done].
  - destruct (IH Hls) as (H1 & H2 & H3). split_and!; [by constructor|done|]. intros Hb. constructor; [done|by apply H3].
Qed.
Lemma whole_app a b : Forall whole a -> lines_ok b -> lines_ok (a ++ b).
Proof. induction 1; [done|]. intros Hb. cbn [app]. constructor; auto. Qed.

Lemma strip_whole x : strip_eol (x +:+ eol) = x.
Proof. unfold strip_eol. by rewrite strip_suffix_app. Qed.
Lemma strip_open x : str_has newline x = false -> strip_eol x = x.
Proof.
  intros Hx. unfold strip_eol. destruct (strip_suffix eol x) as [y|] eqn:E; [|done].
  apply strip_suffix_Some in E. subst x. exfalso. revert Hx.
  induction y as [|c y IH]; [done|]. rewrite str_app_cons. cbn [str_has]. by intros [_ ?]%orb_false_iff.
Qed.

Lemma changes_app a b : changes (a ++ b) = changes a ++ changes b.
Proof. unfold changes, filterb. by rewrite map_app, List.filter_app. Qed.
Lemma payload_lines ls : lines_ok ls -> payload (join "" ls) = changes ls.
Proof. intros H. unfold payload. by rewrite split_join_lines. Qed.

Lemma split_inclusive_nil s : split_inclusive s = [] -> s = "".
Proof. intros H. destruct (split_inclusive_ok s) as [_ <-]. by rewrite H. Qed.

Lemma split_closed x b : split_inclusive ((x +:+ eol) +:+ b) = split_inclusive (x +:+ eol) ++ split_inclusive b.
Proof.
  induction x as [|c x IH]; [by rewrite !str_nil_app; unfold eol; rewrite str_app_cons, str_nil_app|].
  rewrite !str_app_cons. cbn [split_inclusive]. rewrite IH. destruct (Ascii.eqb c newline); [done|].
  destruct (split_inclusive (x +:+ eol)) eqn:E; [|done]. apply split_inclusive_nil in E.
  destruct x; [by rewrite str_nil_app in E|by rewrite str_app_cons in E].
Qed.

Lemma payload_app a b : ends_eol a -> payload (a +:+ b) = payload a ++ payload b.
Proof. intros [x ->]. unfold payload. by rewrite split_closed, changes_app. Qed.

(** Closing an open last line changes no change. *)
Definition finish (s : string) : string := if ends_with eol s then s else s +:+ eol.

Lemma ends_with_eol s : ends_with eol s = true <-> ends_eol s.
Proof. apply ends_with_spec. Qed.

Lemma split_whole x : str_has newline x = false -> split_inclusive (x +:+ eol) = [x +:+ eol].
Proof. intros Hx. rewrite <- (str_app_nil eol) at 1. by rewrite split_line. Qed.

Lemma finish_lines ls : lines_ok ls -> ends_with eol (join "" ls) = false ->
  changes (split_inclusive (join "" ls +:+ eol)) = changes ls.
Proof.
  induction 1 as [|x Hx Hn|l ls (x & -> & Hn) Hls IH]; intros E; [done|..].
  - cbn [join]. rewrite split_whole by done. unfold changes. cbn [map]. by rewrite strip_whole, strip_open.
  - destruct ls as [|l ls].
    + exfalso. rewrite <- not_true_iff_false in E. apply E, ends_with_eol. by exists x.
    + assert (ends_with eol (join "" (l :: ls)) = false) as E'.
      { apply not_true_iff_false. intros [y Hy]%ends_with_eol. rewrite <- not_true_iff_false in E.
        apply E, ends_with_eol. exists ((x +:+ eol) +:+ y). by rewrite join_cons, Hy, !str_app_assoc. }
      rewrite join_cons, str_app_assoc, split_closed, split_whole, changes_app, IH by done.
      by rewrite <- changes_app.
Qed.

Lemma payload_finish s : payload (finish s) = payload s.
Proof.
  unfold finish. destruct (ends_with eol s) eqn:E; [done|]. destruct (split_inclusive_ok s) as [H1 H2].
  unfold payload. rewrite <- (finish_lines _ H1); by rewrite H2.
Qed.

(** *** The pieces *)

Lemma starts_with_cons a p c s : starts_with (String a p) (String c s) = Ascii.eqb a c && starts_with p s.
Proof. unfold starts_with. cbn [strip_prefix]. by destruct (Ascii.eqb a c); [|rewrite bool_decide_eq_false_2; [|intros [? ?]]]. Qed.

Lemma cut_first head t r : str_has newline t = false -> starts_with t r = true -> starts_with t (cut_lines head r).1 = true.
Proof.
  revert r. induction t as [|a t IH]; intros r Ht Hr; [done|].
  cbn [str_has] in Ht. apply orb_false_iff in Ht as [Ha Ht]. destruct r as [|c r]; [done|].
  rewrite starts_with_cons in Hr. apply andb_true_iff in Hr as [Hc Hr]. apply Ascii.eqb_eq in Hc as <-.
  specialize (IH r Ht Hr). cbn [cut_lines]. destruct (cut_lines head r) as [p ps]. rewrite Ha. cbn [andb fst] in *.
  by rewrite starts_with_cons, Ascii.eqb_refl.
Qed.

Lemma cut_heads head s : str_has newline head = false -> Forall (fun p => starts_with head p = true) (cut_lines head s).2.
Proof.
  intros Hh. induction s as [|c s IH]; [constructor|]. cbn [cut_lines].
  pose proof (cut_first head head s Hh) as Hf. destruct (cut_lines head s) as [p ps]. cbn [snd fst] in *.
  destruct (_ && _) eqn:E; cbn [snd]; [|done]. apply andb_true_iff in E as [_ E]. constructor; auto.
Qed.

Lemma first_cut_head head s h b : str_has newline head = false -> first_cut head s = Some (h, b) -> starts_with head b = true.
Proof.
  intros Hh. unfold first_cut. pose proof (cut_lines_join head s) as H1. pose proof (cut_heads head s Hh) as H2.
  destruct (cut_lines head s) as [p ps]. destruct ps as [|q ps]; [done|]. intros [= -> <-].
  rewrite <- H1, str_drop_app, join_cons. inversion H2 as [|? ? Hq]; subst. apply starts_with_spec in Hq as [r ->].
  apply starts_with_spec. exists (r +:+ join "" ps). by rewrite str_app_assoc.
Qed.

Lemma pieces_head head s : str_has newline head = false -> starts_with head s = true ->
  Forall (fun p => starts_with head p = true) (pieces head s).
Proof.
  intros Hh Hs. unfold pieces. pose proof (cut_first head head s Hh Hs) as H1. pose proof (cut_heads head s Hh) as H2.
  destruct (cut_lines head s) as [p ps]. by constructor.
Qed.

Lemma payload_join ps : Forall ends_eol (removelast ps) -> payload (join "" ps) = concat (map payload ps).
Proof.
  induction ps as [|p ps IH]; [done|]. intros H. rewrite join_cons. cbn [map concat].
  destruct ps as [|q ps]; [cbn; by rewrite str_app_nil, app_nil_r|].
  cbn [removelast] in H. inversion H; subst. by rewrite payload_app, IH.
Qed.
Lemma payload_pieces head s : concat (map payload (pieces head s)) = payload s.
Proof.
  rewrite <- payload_join, pieces_join; [done|]. unfold pieces. pose proof (cut_lines_ends head s) as H.
  destruct (cut_lines head s) as [p ps]. destruct H as [H1 H2]. destruct ps as [|q ps]; [constructor|].
  cbn [removelast]. constructor; [by apply H1|exact H2].
Qed.

(** ** Splitting a hunk *)

Lemma group_lines_spec path cap budget cur ls gs : group_lines path cap budget cur ls = Ok gs ->
  concat gs = cur ++ ls /\ Forall (fun g => g <> []) gs.
Proof.
  revert cur gs. induction ls as [|l ls IH]; intros cur gs; cbn [group_lines].
  - intros [= <-]. destruct cur; [by split|]. cbn. rewrite app_nil_r. split; [done|]. by repeat constructor.
  - destruct (budget <? len l); [done|]. destruct cur as [|c cur].
    + intros H. destruct (IH _ _ H) as [-> ?]. done.
    + destruct (budget <? _).
      * destruct (group_lines path cap budget [l] ls) as [gs'|] eqn:E; [|done]. intros [= <-].
        destruct (IH _ _ E) as [H1 H2]. cbn [concat]. rewrite H1. split; [done|]. by constructor.
      * intros H. destruct (IH _ _ H) as [-> ?]. by rewrite <- app_assoc.
Qed.

Definition is_context (l : string) : bool := starts_with " " l.
(** What may be repeated at the head of a part. *)
Definition good_overlap (ov : list string) : Prop := (length ov <= HUNK_OVERLAP_LINES)%nat /\ forallb is_context ov = true.

Lemma good_overlap_suffix a b : good_overlap (a ++ b) -> good_overlap b.
Proof. intros [H1 H2]. rewrite length_app in H1. rewrite forallb_app in H2. apply andb_true_iff in H2 as [_ H2]. split; [lia|done]. Qed.

Lemma take_context_spec ls : exists post, ls = take_context ls ++ post /\ forallb is_context (take_context ls) = true.
Proof.
  induction ls as [|l ls (post & H1 & H2)]; [by exists []|]. cbn [take_context].
  destruct (starts_with " " l) eqn:E; [|by exists (l :: ls)]. exists post. cbn [app forallb]. unfold is_context at 1.
  by rewrite E, H2, <- H1.
Qed.
Lemma shrink_suffix budget gb ov : exists a, ov = a ++ shrink_overlap budget gb ov.
Proof.
  induction ov as [|l ov (a & H)]; [by exists []|]. cbn [shrink_overlap].
  destruct (budget <? _); [exists (l :: a); cbn; by f_equal|by exists []].
Qed.

Lemma overlap_of_spec budget prev g : exists q, prev = q ++ overlap_of budget prev g /\ good_overlap (overlap_of budget prev g).
Proof.
  unfold overlap_of. destruct (take_context_spec (rev prev)) as (post & H1 & H2).
  set (t := take HUNK_OVERLAP_LINES (take_context (rev prev))).
  assert (exists q, prev = q ++ rev t) as [q Hq].
  { exists (rev (drop HUNK_OVERLAP_LINES (take_context (rev prev)) ++ post)).
    rewrite <- rev_app_distr, app_assoc. unfold t. by rewrite take_drop, <- H1, rev_involutive. }
  assert (good_overlap (rev t)) as Hg.
  { split; [rewrite length_rev; unfold t; rewrite length_take; lia|].
    rewrite forallb_forall in *. intros x Hx%in_rev. apply H2. unfold t in Hx.
    rewrite <- (take_drop HUNK_OVERLAP_LINES (take_context (rev prev))). apply in_app_iff. by left. }
  destruct (shrink_suffix budget (bytes_of g) (rev t)) as [a Ha]. rewrite Ha in Hq, Hg.
  exists (q ++ a). rewrite <- app_assoc. split; [done|]. by apply good_overlap_suffix in Hg.
Qed.

(** Where the counters stand after some cores. *)
Definition pos_after (count : list string -> Z) (start : Z) (cores : list (list string)) : Z :=
  foldl (fun p core => usize_add p (count core)) start cores.

Lemma render_parts_spec header path cap budget total gs : forall before k op np parts,
  render_parts header path cap total k op np (with_overlap budget (last before) gs) = Ok parts ->
  length parts = length gs /\
  forall i part core, parts !! i = Some part -> gs !! i = Some core ->
    len part <= cap /\ exists q ov, concat (before ++ take i gs) = q ++ ov /\ good_overlap ov /\
      part = part_text header path (k + Z.of_nat i) total
               (u64_sat_sub (pos_after old_of op (take i gs)) (old_of ov))
               (u64_sat_sub (pos_after new_of np (take i gs)) (new_of ov)) ov core.
Proof.
  induction gs as [|g gs IH]; intros before k op np parts; cbn [with_overlap render_parts]; [by intros [= <-]|].
  set (ov := match last before with None => [] | Some p => overlap_of budget p g end).
  destruct (cap <? _) eqn:Ec; [done|]. apply Z.ltb_ge in Ec.
  destruct (render_parts _ _ _ _ (k + 1) _ _ _) as [ps|] eqn:E; [|done]. intros [= <-].
  rewrite <- (last_snoc g before) in E. destruct (IH _ _ _ _ _ E) as [Hl Hi]. split; [cbn; by rewrite Hl|].
  intros [|i] part core; cbn [lookup list_lookup].
  - intros [= <-] [= <-]. split; [done|]. cbn [take]. rewrite app_nil_r.
    assert (exists q, concat before = q ++ ov /\ good_overlap ov) as (q & Hq & Hov).
    { unfold ov. destruct (last before) as [p|] eqn:El.
      - apply last_Some in El as [init ->]. destruct (overlap_of_spec budget p g) as (q & Hq & Hov).
        exists (concat init ++ q). rewrite concat_app. cbn [concat]. by rewrite app_nil_r, <- app_assoc, <- Hq.
      - exists (concat before). rewrite app_nil_r. split; [done|]. split; [cbn; lia|done]. }
    exists q, ov. by rewrite Z.add_0_r.
  - intros Hp Hg. destruct (Hi i part core Hp Hg) as (Hc & q & ov' & H1 & H2 & H3). split; [done|].
    exists q, ov'. cbn [take]. rewrite <- app_assoc in H1. split; [exact H1|]. split; [done|].
    rewrite H3. cbn [pos_after foldl]. f_equal. lia.
Qed.

Lemma old_of_app a b : old_of (a ++ b) = old_of a + old_of b.
Proof. unfold old_of. induction a as [|l a IH]; cbn in *; lia. Qed.
Lemma new_of_app a b : new_of (a ++ b) = new_of a + new_of b.
Proof. unfold new_of. induction a as [|l a IH]; cbn in *; lia. Qed.
Lemma line_counts_nonneg l : 0 <= (line_counts l).1 /\ 0 <= (line_counts l).2.
Proof. unfold line_counts. repeat case_match; cbn; lia. Qed.
Lemma old_of_nonneg ls : 0 <= old_of ls.
Proof. unfold old_of. induction ls as [|l ls IH]; cbn in *; [lia|]. pose proof (line_counts_nonneg l). lia. Qed.
Lemma new_of_nonneg ls : 0 <= new_of ls.
Proof. unfold new_of. induction ls as [|l ls IH]; cbn in *; [lia|]. pose proof (line_counts_nonneg l). lia. Qed.

Lemma pos_after_exact count start cores :
  (forall a b, count (a ++ b) = count a + count b) -> (forall a, 0 <= count a) ->
  0 <= start -> start + count (concat cores) <= U64_MAX -> pos_after count start cores = start + count (concat cores).
Proof.
  intros Happ Hnn. assert (count [] = 0) as H0 by (specialize (Happ [] []); cbn in Happ; lia).
  revert start. induction cores as [|c cores IH]; intros start Hs Hm; cbn [concat pos_after foldl] in *; [lia|].
  rewrite Happ in *. pose proof (Hnn c). pose proof (Hnn (concat cores)).
  assert (usize_add start (count c) = start + count c) as ->.
  { unfold usize_add. apply Z.mod_small. unfold U64_MAX in Hm. lia. }
  change (foldl _ ?a cores) with (pos_after count a cores). rewrite IH; lia.
Qed.

Lemma header_nonneg h : 0 <= (parse_hunk_header h).1.1 /\ 0 <= (parse_hunk_header h).2.1.
Proof.
  unfold parse_hunk_header. set (toks := take 2 _). clearbody toks.
  assert (forall s, 0 <= (parse_pair s).1) as Hp.
  { intros s. unfold parse_pair. destruct (default _ _) as [a b]. cbn. destruct (parse_u64_std (trim a)) eqn:E; cbn; [|lia].
    by apply parse_u64_nonneg in E. }
  assert (forall r, 0 <= r.1.1 -> 0 <= r.2.1 ->
    0 <= (foldl hunk_token r toks).1.1 /\ 0 <= (foldl hunk_token r toks).2.1) as H; [|by apply H; cbn; lia].
  induction toks as [|t toks IH]; intros r H1 H2; [done|]. cbn [foldl].
  apply IH; unfold hunk_token; destruct (strip_prefix "-" t); try (destruct (strip_prefix "+" t)); cbn; auto.
Qed.

(** The parts of a hunk, whatever its line numbers. *)
Lemma split_parts_shape header hunk path cap parts :
  split_oversized_hunk header hunk path cap = Ok parts ->
  let '(hunk_header, body) := default (hunk, "") (split_once newline hunk) in
  let '((old_start, _), (new_start, _)) := parse_hunk_header hunk_header in
  body <> "" /\
  exists cores, concat cores = split_inclusive body /\ length parts = length cores /\ Forall (fun g => g <> []) cores /\
  forall i part core, parts !! i = Some part -> cores !! i = Some core ->
    len part <= cap /\ exists q ov, concat (take i cores) = q ++ ov /\ good_overlap ov /\
      part = part_text header path (1 + Z.of_nat i) (Z.of_nat (length cores))
        (u64_sat_sub (pos_after old_of old_start (take i cores)) (old_of ov))
        (u64_sat_sub (pos_after new_of new_start (take i cores)) (new_of ov)) ov core.
Proof.
  unfold split_oversized_hunk. destruct (default _ _) as [hh body].
  destruct (parse_hunk_header hh) as [[os oc] [ns nc]].
  destruct (split_inclusive body) as [|l ls] eqn:Els; [done|]. destruct (cap <=? _); [done|].
  set (budget := cap - _). destruct (group_lines path cap budget [] (l :: ls)) as [cores|] eqn:Eg; [|done].
  apply group_lines_spec in Eg as [Hc Hne]. cbn [app] in Hc. intros Hr. split; [by intros ->|]. exists cores.
  destruct (render_parts_spec header path cap budget _ cores [] _ _ _ _ Hr) as [Hl Hi]. by split_and!.
Qed.

(** A hunk over the cap is cut into consecutive runs of its lines: every line
    is in exactly one run, in order; each part carries one run behind at most
    three lines of context repeated from before it, fits the cap, and, as long
    as the line numbers fit the machine word, its header counts its lines and
    starts where its first line stands in the file *)
Theorem split_parts_exact header hunk path cap parts :
  split_oversized_hunk header hunk path cap = Ok parts ->
  let '(hunk_header, body) := default (hunk, "") (split_once newline hunk) in
  let '((old_start, _), (new_start, _)) := parse_hunk_header hunk_header in
  let ls := split_inclusive body in
  old_start + old_of ls <= U64_MAX -> new_start + new_of ls <= U64_MAX ->
  exists cores, concat cores = ls /\ length parts = length cores /\
  forall i part core, parts !! i = Some part -> cores !! i = Some core ->
    core <> [] /\ len part <= cap /\ exists q ov, concat (take i cores) = q ++ ov /\ good_overlap ov /\
      part = part_text header path (1 + Z.of_nat i) (Z.of_nat (length cores)) (old_start + old_of q) (new_start + new_of q) ov core.
Proof.
  intros Hs. apply split_parts_shape in Hs. destruct (default _ _) as [hh body]. pose proof (header_nonneg hh) as [Ho Hn].
  destruct (parse_hunk_header hh) as [[os oc] [ns nc]]. cbn [fst snd] in Ho, Hn.
  destruct Hs as (_ & cores & Hc & Hl & Hne & Hi). intros ls Hmo Hmn. exists cores. split_and!; [done..|].
  intros i part core Hp Hg. destruct (Hi i part core Hp Hg) as (Hcap & q & ov & H1 & H2 & H3).
  split; [by apply (Forall_lookup_1 _ _ _ _ Hne Hg)|]. split; [done|]. exists q, ov. split_and!; [done..|]. rewrite H3.
  assert (old_of ls = old_of (concat (take i cores)) + old_of (concat (drop i cores)) /\
          new_of ls = new_of (concat (take i cores)) + new_of (concat (drop i cores))) as [Eo En].
  { rewrite <- old_of_app, <- new_of_app, <- concat_app, take_drop. by rewrite Hc. }
  pose proof (old_of_nonneg (concat (drop i cores))). pose proof (new_of_nonneg (concat (drop i cores))).
  rewrite (pos_after_exact old_of), (pos_after_exact new_of);
    [|by apply new_of_app|by apply new_of_nonneg|lia|lia|by apply old_of_app|by apply old_of_nonneg|lia|lia].
  rewrite H1, old_of_app, new_of_app. unfold u64_sat_sub. pose proof (old_of_nonneg q). pose proof (new_of_nonneg q).
  f_equal; lia.
Qed.

(** ** The chunks *)

Definition hunk_line (path : string) (k total old_start old_count new_start new_count : Z) : string :=
  "@@ -" +:+ show_u old_start +:+ "," +:+ show_u old_count +:+ " +" +:+ show_u new_start +:+ "," +:+ show_u new_count
  +:+ " @@ part " +:+ show_u k +:+ "/" +:+ show_u total +:+ " of " +:+ path.

Lemma hunk_line_flat path k total os oc ns nc : str_has newline path = false ->
  str_has newline (hunk_line path k total os oc ns nc) = false.
Proof.
  intros Hp. unfold hunk_line. rewrite !str_has_app, Hp, !no_char_in_digits by done. done.
Qed.

Lemma finish_app h x : x <> "" -> finish (h +:+ x) = h +:+ finish x.
Proof.
  intros Hx. unfold finish. assert (ends_with eol (h +:+ x) = ends_with eol x) as ->.
  { apply eq_true_iff_eq. rewrite !ends_with_eol. split.
    - intros [y Hy]. revert h y Hy. assert (forall z h y, z <> "" -> h +:+ z = y +:+ eol -> ends_eol z) as H; [|by eauto].
      intros z h. revert z. induction h as [|c h IH]; intros z y Hz Hy; [exists y; by rewrite str_nil_app in Hy|].
      destruct y as [|d y].
      + rewrite str_nil_app, str_app_cons in Hy. unfold eol in Hy. injection Hy as -> Hy. by destruct h, z.
      + rewrite !str_app_cons in Hy. injection Hy as _ Hy. by apply (IH z y).
    - intros [y ->]. exists (h +:+ y). by rewrite str_app_assoc. }
  destruct (ends_with eol x); [done|]. by rewrite str_app_assoc.
Qed.

Lemma part_text_shape header path k total os ns ov core :
  part_text header path k total os ns ov core =
    header +:+ finish ((hunk_line path k total os (old_of (ov ++ core)) ns (new_of (ov ++ core)) +:+ eol) +:+ join "" (ov ++ core)).
Proof.
  unfold part_text, hunk_line. fold (finish (header +:+ "@@ -" +:+ show_u os +:+ "," +:+ show_u (old_of (ov ++ core)) +:+ " +" +:+ show_u ns +:+ ","
    +:+ show_u (new_of (ov ++ core)) +:+ " @@ part " +:+ show_u k +:+ "/" +:+ show_u total +:+ " of " +:+ path +:+ eol +:+ join "" (ov ++ core))).
  rewrite !str_app_assoc. apply finish_app. by rewrite str_app_cons.
Qed.

Lemma changes_none ls : (forall l, l ∈ ls -> starts_with "@" l = true \/ starts_with " " l = true) -> changes ls = [].
Proof.
  intros H. unfold changes. induction ls as [|l ls IH]; [done|]. cbn [map filterb List.filter].
  assert (is_change (strip_eol l) = false) as ->.
  { assert (exists c r, l = String c r /\ c <> "+"%char /\ c <> "-"%char /\ c <> newline) as (c & r & -> & H1 & H2 & H3).
    { destruct (H l ltac:(by left)) as [Hl|Hl]; apply starts_with_spec in Hl as [r ->]; by do 2 eexists. }
    assert (exists r', strip_eol (String c r) = String c r') as [r' ->].
    { unfold strip_eol. destruct (strip_suffix eol (String c r)) as [y|] eqn:E; [|by exists r].
      apply strip_suffix_Some in E. destruct y as [|d y]; [rewrite str_nil_app in E; unfold eol in E; by injection E as -> _|].
      rewrite str_app_cons in E. injection E as -> _. by exists y. }
    unfold is_change. rewrite !starts_with_cons. apply orb_false_iff.
    split; apply andb_false_iff; left; by apply Ascii.eqb_neq. }
  apply IH. intros x Hx. apply H. by right.
Qed.

Lemma part_payload path k total os oc ns nc ov core : str_has newline path = false -> good_overlap ov -> lines_ok (ov ++ core) ->
  payload (finish ((hunk_line path k total os oc ns nc +:+ eol) +:+ join "" (ov ++ core))) = changes core.
Proof.
  intros Hp [_ Hov] Hl. rewrite payload_finish, payload_app, payload_lines, changes_app by (done || by eexists).
  unfold payload. rewrite split_whole by (by apply hunk_line_flat). rewrite (changes_none [_]), (changes_none ov); [done|..].
  - intros l Hin. right. rewrite forallb_forall in Hov. apply list_elem_of_In in Hin. by apply Hov.
  - intros l ->%list_elem_of_singleton. left. unfold hunk_line. rewrite !str_app_cons. by rewrite starts_with_cons.
Qed.

Lemma split_once_spec c s a b : split_once c s = Some (a, b) -> s = a +:+ String c b /\ str_has c a = false.
Proof.
  revert a. induction s as [|x s IH]; intros a; [done|]. cbn [split_once]. destruct (Ascii.eqb_spec x c) as [->|Hne].
  - by intros [= <- <-].
  - destruct (split_once c s) as [[a' b']|]; [|done]. intros [= <- ->]. destruct (IH a' eq_refl) as [-> Ha].
    rewrite str_app_cons. split; [done|]. cbn [str_has]. rewrite Ha, orb_false_r. by apply Ascii.eqb_neq.
Qed.

(** What a unit is made of. *)
Definition unit_fits (cap : Z) (u : ChunkUnit) : Prop := len u.1 + len u.2 <= cap.
Definition payload_of (us : list ChunkUnit) : list string := concat (map (fun u => payload u.2) us).

Lemma payload_of_app a b : payload_of (a ++ b) = payload_of a ++ payload_of b.
Proof. unfold payload_of. by rewrite map_app, concat_app. Qed.

Lemma changes_concat cores : concat (map changes cores) = changes (concat cores).
Proof. induction cores as [|c cores IH]; [done|]. cbn [map concat]. by rewrite IH, changes_app. Qed.

Lemma hunk_payload hh body : starts_with "@@" (hh +:+ String newline body) = true -> str_has newline hh = false ->
  payload (hh +:+ String newline body) = payload body.
Proof.
  intros Hs Hn. replace (hh +:+ String newline body) with ((hh +:+ eol) +:+ body).
  - rewrite payload_app by (by exists hh). unfold payload at 1. rewrite split_whole by done.
    rewrite changes_none; [done|]. intros l ->%list_elem_of_singleton. left.
    destruct hh as [|c hh]; [done|]. rewrite str_app_cons in *. rewrite starts_with_cons in *.
    apply andb_true_iff in Hs as [-> _]. done.
  - rewrite str_app_assoc. unfold eol. by rewrite str_app_cons, str_nil_app.
Qed.

Lemma hunk_units_spec header path cap split_hunks hunk us :
  hunk_units header path cap split_hunks hunk = Ok us -> starts_with "@@" hunk = true ->
  us <> [] /\ Forall (fun u => u.1 = header /\ unit_fits cap u) us /\
  (str_has newline path = false -> payload_of us = payload hunk).
Proof.
  unfold hunk_units. destruct (_ <=? cap) eqn:Ec.
  { intros [= <-] _. apply Z.leb_le in Ec. split_and!; [done|by repeat constructor|].
    intros _. unfold payload_of. cbn. by rewrite app_nil_r. }
  destruct split_hunks; [|done]. destruct (split_oversized_hunk _ _ _ _) as [parts|] eqn:E; [|done]. intros [= <-] Hs.
  apply split_parts_shape in E. destruct (split_once newline hunk) as [[hh body]|] eqn:Eo; cbn [default id] in E;
    [|destruct (parse_hunk_header hunk) as [[??][??]]; by destruct E].
  apply split_once_spec in Eo as [-> Hn]. destruct (parse_hunk_header hh) as [[os oc] [ns nc]].
  destruct E as (Hb & cores & Hc & Hl & Hne & Hi).
  assert (forall i part, parts !! i = Some part -> exists core, cores !! i = Some core) as Hcore.
  { intros i part Hp. apply lookup_lt_is_Some_2. rewrite <- Hl. by eapply lookup_lt_Some. }
  split_and!.
  - intros H. apply map_eq_nil in H as ->. destruct cores; [|done]. cbn in Hc. symmetry in Hc. by apply split_inclusive_nil in Hc.
  - apply Forall_lookup_2. intros i u Hu. apply list_lookup_fmap_Some in Hu as (part & -> & Hp).
    destruct (Hcore i part Hp) as [core Hg]. destruct (Hi i part core Hp Hg) as (Hcap & q & ov & _ & _ & Hpt).
    rewrite part_text_shape in Hpt. unfold unit_fits. cbn [fst snd]. split; [done|].
    rewrite Hpt in Hcap |- *. rewrite strip_prefix_app. cbn [default]. by rewrite <- len_app.
  - intros Hp. rewrite (hunk_payload hh body Hs Hn). change (payload body) with (changes (split_inclusive body)).
    rewrite <- Hc, <- changes_concat. unfold payload_of. f_equal. rewrite map_map. apply list_eq. intros i.
    rewrite !list_lookup_fmap. destruct (parts !! i) as [part|] eqn:Ep.
    + destruct (Hcore i part Ep) as [core Hg]. rewrite Hg. cbn. f_equal.
      destruct (Hi i part core Ep Hg) as (_ & q & ov & H1 & H2 & ->). rewrite part_text_shape, strip_prefix_app. cbn [default].
      apply part_payload; [done..|].
      assert (split_inclusive body = q ++ (ov ++ core) ++ concat (drop (S i) cores)) as Hsb.
      { rewrite <- Hc, <- (take_drop_middle _ _ _ Hg) at 1. rewrite concat_app. cbn [concat]. by rewrite H1, <- !app_assoc. }
      destruct (split_inclusive_ok body) as [Hok _]. rewrite Hsb in Hok. apply lines_ok_app in Hok as (_ & Hok & _).
      by apply lines_ok_app in Hok as (Hok & _).
    + cbn. apply lookup_ge_None in Ep. rewrite Hl in Ep. by rewrite (proj2 (lookup_ge_None _ _) Ep).
Qed.

Lemma collect_spec {A B E} (f : A -> result (list B) E) l ys : collect f l = Ok ys ->
  exists yss, ys = concat yss /\ Forall2 (fun x ys => f x = Ok ys) l yss.
Proof.
  revert ys. induction l as [|x l IH]; intros ys; cbn [collect].
  - intros [= <-]. by exists [].
  - destruct (f x) as [y|] eqn:Ex; [|done]. destruct (collect f l) as [zs|]; [|done]. intros [= <-].
    destruct (IH zs eq_refl) as (yss & -> & H). exists (y :: yss). split; [done|]. by constructor.
Qed.

(** The lines a section changes: those of its hunks, or of the whole section
    when it has none. *)
Definition section_changes (s : string) : list string :=
  match first_cut "@@" s with Some (_, body) => payload body | None => payload s end.
Definition flat_path (s : string) : Prop := forall p, section_path s = Some p -> str_has newline p = false.

Lemma section_units_spec cap split_hunks s us : section_units cap split_hunks s = Ok us ->
  us <> [] /\ Forall (unit_fits cap) us /\ (flat_path s -> payload_of us = section_changes s).
Proof.
  unfold section_units, section_changes. destruct (first_cut "@@" s) as [[h b]|] eqn:Ef.
  - intros Hc. apply collect_spec in Hc as (yss & -> & Hf).
    pose proof (pieces_head "@@" b eq_refl (first_cut_head "@@" s h b eq_refl Ef)) as Hh.
    assert (pieces "@@" b <> []) as Hne by (unfold pieces; by destruct (cut_lines "@@" b)).
    rewrite <- (payload_pieces "@@" b). unfold flat_path.
    set (path := default "" (section_path s)) in *.
    assert (flat_path s -> str_has newline path = false) as Hp.
    { intros H. unfold path. destruct (section_path s) eqn:E; [by apply H|done]. }
    clear Ef. induction Hf as [|p ys ps yss Hy Hf IH]; [done|]. cbn [concat map].
    inversion Hh as [|? ? Hp1 Hps]; subst. destruct (hunk_units_spec _ _ _ _ _ _ Hy Hp1) as (H1 & H2 & H3).
    split_and!.
    + by destruct ys.
    + apply Forall_app. split; [by eapply Forall_impl; [exact H2|intros ? [_ ?]]|].
      destruct ps as [|p' ps]; [by inversion Hf|]. by apply IH.
    + intros Hflat. rewrite payload_of_app, H3 by auto. f_equal.
      destruct ps as [|p' ps]; [by inversion Hf|]. by apply IH.
  - destruct (cap <? len s) eqn:Ec; [done|]. apply Z.ltb_ge in Ec. intros [= <-]. split_and!; [done| |].
    + repeat constructor. unfold unit_fits. cbn. unfold len in *. cbn. lia.
    + intros _. unfold payload_of. cbn. by rewrite app_nil_r.
Qed.

(** A chunk: its units one after the other, a header only where the file
    changes. *)
Fixpoint chunk_text (prev : option string) (us : list ChunkUnit) : string :=
  match us with
  | [] => ""
  | (header, body) :: us =>
      (if negb (str_is_empty header) && bool_decide (prev = Some header) then "" else header) +:+ body
      +:+ chunk_text (Some header) us
  end.

Lemma chunk_text_snoc us : forall prev h b, chunk_text prev (us ++ [(h, b)]) =
  chunk_text prev us +:+ (if negb (str_is_empty h) && bool_decide (or_opt (fst <$> last us) prev = Some h) then "" else h) +:+ b.
Proof.
  induction us as [|[h' b'] us IH]; intros prev h b.
  - cbn. by rewrite str_app_nil, str_nil_app.
  - cbn [app chunk_text]. rewrite IH, !str_app_assoc. f_equal. f_equal. f_equal.
    destruct us as [|u us]; [done|]. rewrite last_cons_cons. destruct (last (u :: us)) eqn:E; [done|]. by apply last_None in E.
Qed.

(** What the packing keeps true: the units so far are partitioned into the
    chunks, and no chunk is over the cap. *)
Definition packed_ok (cap : Z) (us : list ChunkUnit) (p : Packing) (groups : list (list ChunkUnit)) : Prop :=
  concat groups = us /\ packed p = map (chunk_text None) groups /\ Forall (fun g => g <> []) groups /\
  Forall (fun c => len c <= cap) (packed p) /\ last_header p = (fst <$> last us).

Lemma pack_step_ok cap max us p groups u p' :
  unit_fits cap u -> packed_ok cap us p groups -> pack_step cap max p u = Ok p' ->
  exists groups', packed_ok cap (us ++ [u]) p' groups' /\ (length (packed p') <= Z.to_nat max)%nat.
Proof.
  destruct u as [h b]. unfold unit_fits. cbn [fst snd]. intros Hu (Hc & Hp & Hne & Hcap & Hl).
  assert (packed_ok cap (us ++ [(h, b)]) (mkPacking (packed p ++ [h +:+ b]) (Some h)) (groups ++ [[(h, b)]])) as Hnew.
  { unfold packed_ok. cbn [packed last_header]. rewrite concat_app, Hc, map_app, Hp, last_snoc. split_and!; try done.
    - cbn. rewrite bool_decide_eq_false_2 by done. by rewrite andb_false_r, str_app_nil.
    - apply Forall_app. split; [done|]. by repeat constructor.
    - apply Forall_app. split; [by rewrite <- Hp|]. repeat constructor. by rewrite len_app. }
  unfold pack_step. set (cont := negb (str_is_empty h) && _).
  destruct (last (packed p)) as [chunk|] eqn:El.
  2:{ destruct (max <? _) eqn:Em; [done|]. intros [= <-]. exists (groups ++ [[(h, b)]]). split; [done|].
      apply Z.ltb_ge in Em. cbn [packed]. lia. }
  destruct (len chunk + _ <=? cap) eqn:Ef.
  2:{ destruct (max <? _) eqn:Em; [done|]. intros [= <-]. exists (groups ++ [[(h, b)]]). split; [done|].
      apply Z.ltb_ge in Em. cbn [packed]. lia. }
  destruct (max <? _) eqn:Em; [done|]. intros [= <-]. apply Z.ltb_ge in Em. cbn [packed].
  apply last_Some in El as [init El]. rewrite Hp in El.
  destruct (last groups) as [g|] eqn:Eg; [|apply last_None in Eg as ->; by destruct init].
  apply last_Some in Eg as [gi ->]. rewrite map_app in El. cbn [map] in El. apply app_inj_tail in El as [Ei Ech].
  exists (gi ++ [g ++ [(h, b)]]). split; [|lia]. unfold packed_ok. cbn [packed last_header].
  rewrite Hp, map_app. cbn [map]. rewrite removelast_last. apply Forall_app in Hne as [Hne Hg].
  rewrite Forall_singleton in Hg. cbv beta in Hg.
  assert (last us = last g) as Hlu.
  { rewrite <- Hc, concat_app. cbn [concat]. rewrite app_nil_r, last_app. destruct (last g) eqn:E; [done|].
    apply last_None in E. by destruct (Hg E). }
  split_and!.
  - rewrite <- Hc, !concat_app. cbn [concat]. by rewrite !app_nil_r, app_assoc.
  - rewrite map_app. f_equal. cbn [map]. f_equal. rewrite chunk_text_snoc, Ech. f_equal. f_equal.
    unfold cont. rewrite Hl, Hlu. clear. unfold ChunkUnit in *. generalize (last g). by intros [?|].
  - apply Forall_app. split; [done|]. repeat constructor. by destruct g.
  - apply Forall_app. rewrite Hp, map_app in Hcap. apply Forall_app in Hcap as [? _]. split; [done|]. repeat constructor.
    apply Z.leb_le in Ef. rewrite !len_app. destruct cont; [unfold len in *; cbn in *; lia|lia].
  - by rewrite last_snoc.
Qed.

Lemma pack_ok cap max us0 p groups us p' :
  Forall (unit_fits cap) us -> packed_ok cap us0 p groups -> (length (packed p) <= Z.to_nat max)%nat -> pack cap max p us = Ok p' ->
  exists groups', packed_ok cap (us0 ++ us) p' groups' /\ (length (packed p') <= Z.to_nat max)%nat.
Proof.
  intros Hu. revert us0 p groups. induction Hu as [|u us Hu _ IH]; intros us0 p groups Hok Hm; cbn [pack].
  - intros [= <-]. exists groups. by rewrite app_nil_r.
  - destruct (pack_step cap max p u) as [q|] eqn:E; [|done]. intros H.
    destruct (pack_step_ok _ _ _ _ _ _ _ Hu Hok E) as (groups' & Hok' & Hm').
    destruct (IH _ _ _ Hok' Hm' H) as (g & Hg & Hgm). exists g. by rewrite <- app_assoc in Hg.
Qed.

(** No change escapes the reviewers: the chunks of a diff that is not blank
    partition its units in order, none is over the cap and there are at most
    as many as allowed; and when no path holds a line feed, the lines the units
    add and remove are exactly those the diff adds and removes, each once and
    in order *)
Theorem review_chunks_exact diff cap split_hunks max cs :
  review_diff_chunks diff cap split_hunks max = Ok cs -> str_is_empty (trim diff) = false ->
  exists groups, cs = map (chunk_text None) groups /\ cs <> [] /\ Forall (fun g => g <> []) groups /\
    Forall (fun c => len c <= Z.max cap 1) cs /\ Z.of_nat (length cs) <= max /\
    (Forall flat_path (sections diff) ->
     payload_of (concat groups) = concat (map section_changes (sections diff))).
Proof.
  unfold review_diff_chunks. intros H Hb. rewrite Hb in H.
  destruct (collect _ (sections diff)) as [us|] eqn:Ec; [|done].
  destruct (pack _ max _ us) as [p|] eqn:Ep; [|done]. injection H as <-.
  apply collect_spec in Ec as (yss & -> & Hf).
  assert (Forall (unit_fits (Z.max cap 1)) (concat yss) /\ (sections diff <> [] -> concat yss <> []) /\
    (Forall flat_path (sections diff) -> payload_of (concat yss) = concat (map section_changes (sections diff)))) as (Hu & Hne & Hpay).
  { clear Ep. induction Hf as [|s ys ss yss Hs Hf (IH1 & IH2 & IH3)]; [by split_and!|].
    destruct (section_units_spec _ _ _ _ Hs) as (H1 & H2 & H3). cbn [concat map]. split_and!.
    - by apply Forall_app.
    - intros _. by destruct ys.
    - intros Hfl. inversion Hfl; subst. rewrite payload_of_app, H3, IH3; done. }
  assert (sections diff <> []) as Hsn by (unfold sections, pieces; by destruct (cut_lines _ diff)).
  destruct (concat yss) as [|u us] eqn:Ey; [by destruct (Hne Hsn)|]. cbn [pack] in Ep.
  destruct (pack_step _ max _ u) as [q|] eqn:Es; [|done]. inversion Hu as [|? ? Hu1 Hus]; subst.
  assert (packed_ok (Z.max cap 1) [] (mkPacking [] None) []) as H0 by (by split_and!).
  destruct (pack_step_ok _ _ _ _ _ _ _ Hu1 H0 Es) as (g1 & Hg1 & Hm1).
  destruct (pack_ok _ _ _ _ _ _ _ Hus Hg1 Hm1 Ep) as (groups & (Hc & Hp & Hgn & Hcap & _) & Hm).
  exists groups. cbn [app] in Hc. split_and!; [done| |done|done| |by rewrite Hc].
  - rewrite Hp. intros H. apply map_eq_nil in H as ->. done.
  - rewrite Hp in Hm |- *. destruct groups; [done|]. cbn [length map] in Hm |- *. lia.
Qed.

Definition long_hunk : string :=
  "@@ -4,8 +4,9 @@" +:+ eol
  +:+ join "" (concat (repeat ["-a line of the old text" +:+ eol; "+a line of the new text" +:+ eol; " a line of both texts" +:+ eol] 4)).
Definition long_diff : string :=
  "diff --git a/x b/x" +:+ eol +:+ "--- a/x" +:+ eol +:+ "+++ b/x" +:+ eol +:+ long_hunk.

Lemma review_chunks_exact_witness : exists cs, review_diff_chunks long_diff 270 true 24 = Ok cs /\ length cs = 2%nat /\
  exists groups, cs = map (chunk_text None) groups /\ cs <> [] /\ Forall (fun g => g <> []) groups /\
    Forall (fun c => len c <= Z.max 270 1) cs /\ Z.of_nat (length cs) <= 24 /\
    (Forall flat_path (sections long_diff) ->
     payload_of (concat groups) = concat (map section_changes (sections long_diff))).
Proof.
  assert (exists cs, review_diff_chunks long_diff 270 true 24 = Ok cs /\ length cs = 2%nat) as (cs & H & Hl)
    by (eexists; split; [vm_compute; reflexivity|reflexivity]).
  exists cs. split; [exact H|]. split; [exact Hl|].
  apply (review_chunks_exact long_diff 270 true 24 cs H). reflexivity.
Defined.

Lemma split_parts_exact_witness :
  exists parts, split_oversized_hunk "" long_hunk "x" 240 = Ok parts /\ length parts = 4%nat /\
  let '(hunk_header, body) := default (long_hunk, "") (split_once newline long_hunk) in
  let '((old_start, _), (new_start, _)) := parse_hunk_header hunk_header in
  let ls := split_inclusive body in
  old_start + old_of ls <= U64_MAX -> new_start + new_of ls <= U64_MAX ->
  exists cores, concat cores = ls /\ length parts = length cores /\
  forall i part core, parts !! i = Some part -> cores !! i = Some core ->
    core <> [] /\ len part <= 240 /\ exists q ov, concat (take i cores) = q ++ ov /\ good_overlap ov /\
      part = part_text "" "x" (1 + Z.of_nat i) (Z.of_nat (length cores)) (old_start + old_of q) (new_start + new_of q) ov core.
Proof.
  assert (exists parts, split_oversized_hunk "" long_hunk "x" 240 = Ok parts /\ length parts = 4%nat) as (parts & H & Hl)
    by (eexists; split; [vm_compute; reflexivity|reflexivity]).
  exists parts. split; [exact H|]. split; [exact Hl|]. apply (split_parts_exact "" long_hunk "x" 240 parts H).
Defined.

(** ** What a glob matches *)

Definition no_star (s : string) : Prop := Forall (fun c => c <> "*"%char) (String.list_ascii_of_string s).
Definition segment_means (pat value : string) : Prop :=
  Glob.matches (String.list_ascii_of_string pat) (String.list_ascii_of_string value).

(** [**] stands for any run of segments, any other segment for one. *)
Inductive path_matches : list string -> list string -> Prop :=
| path_nil : path_matches [] []
| path_deep pat path k : path_matches pat (drop k path) -> path_matches ("**" :: pat) path
| path_one seg pat first path : seg <> "**" -> segment_means seg first -> path_matches pat path ->
    path_matches (seg :: pat) (first :: path).

Lemma segment_match_iff pat value : no_star value -> segment_match pat value = true <-> segment_means pat value.
Proof.
  intros Hv. unfold segment_match, segment_means. by destruct (wildcard_match_spec (String.list_ascii_of_string pat) _ Hv) as (b & -> & <-).
Qed.

Lemma match_deep pat path : match_segments ("**" :: pat) path = true <-> exists k, match_segments pat (drop k path) = true.
Proof.
  cbn [match_segments]. rewrite bool_decide_eq_true_2 by done. induction path as [|x path IH].
  - rewrite orb_false_r. split; [intros H; by exists 0%nat|]. intros [k H]. by rewrite drop_nil in H.
  - rewrite orb_true_iff, IH. split.
    + intros [H|[k H]]; [by exists 0%nat|by exists (S k)].
    + intros [[|k] H]; [by left|right; by exists k].
Qed.

(** The matcher decides the meaning of the globs, on a path without a literal
    [*] *)
Theorem match_segments_iff pat path : Forall no_star path -> match_segments pat path = true <-> path_matches pat path.
Proof.
  revert path. induction pat as [|seg pat IH]; intros path Hp.
  - destruct path; cbn; split; try done; [constructor|by inversion 1].
  - destruct (decide (seg = "**")) as [->|Hne].
    + rewrite match_deep. split.
      * intros [k H]. apply (path_deep _ _ k), IH; [by apply Forall_drop|done].
      * inversion 1; [|done]; subst. exists k. apply IH; [by apply Forall_drop|done].
    + cbn [match_segments]. rewrite bool_decide_eq_false_2 by done. destruct path as [|first path].
      { split; [done|]. by inversion 1. }
      inversion Hp; subst. rewrite andb_true_iff, segment_match_iff, IH by done. split.
      * intros [? ?]. by constructor.
      * inversion 1; by subst.
Qed.

Lemma match_segments_iff_witness :
  match_segments ["src"; "**"; "*.lock"] ["src"; "a"; "b"; "Cargo.lock"] = true /\
  path_matches ["src"; "**"; "*.lock"] ["src"; "a"; "b"; "Cargo.lock"].
Proof.
  assert (match_segments ["src"; "**"; "*.lock"] ["src"; "a"; "b"; "Cargo.lock"] = true) as H by (vm_compute; reflexivity).
  split; [exact H|]. apply (match_segments_iff ["src"; "**"; "*.lock"] ["src"; "a"; "b"; "Cargo.lock"]); [|exact H].
  repeat (apply Forall_cons; split); try apply Forall_nil; try exact I; try discriminate.
Defined.

(** ** Cutting again *)

(** A text no cut falls into. *)
Definition uncut (head s : string) : Prop := cut_lines head s = (s, []).

Lemma starts_with_app head a b : starts_with head a = true -> starts_with head (a +:+ b) = true.
Proof. rewrite !starts_with_spec. intros [r ->]. exists (r +:+ b). by rewrite str_app_assoc. Qed.

Lemma cut_lines_uncut head s : head <> "" -> uncut head (cut_lines head s).1 /\ Forall (uncut head) (cut_lines head s).2.
Proof.
  intros Hh. induction s as [|c s IH]; [by split|]. pose proof (cut_lines_join head s) as Hj. cbn [cut_lines].
  destruct (cut_lines head s) as [p ps]. cbn [fst snd] in IH. destruct IH as [IH1 IH2].
  destruct (Ascii.eqb c newline && starts_with head s) eqn:E; cbn [fst snd].
  - split; [|by constructor]. unfold uncut. cbn [cut_lines].
    assert (starts_with head "" = false) as -> by (by destruct head). by rewrite andb_false_r.
  - split; [|done]. unfold uncut in *. cbn [cut_lines]. rewrite IH1.
    destruct (Ascii.eqb c newline && starts_with head p) eqn:E2; [|done].
    apply andb_true_iff in E2 as [Hc Hs]. rewrite Hc in E. cbn in E. apply (starts_with_app _ _ (join "" ps)) in Hs.
    by rewrite Hj, E in Hs.
Qed.

Lemma starts_within head : forall a b, str_has newline head = false -> ends_eol a -> starts_with head (a +:+ b) = true ->
  starts_with head a = true.
Proof.
  induction head as [|x head IH]; intros a b Hn Ha; [done|]. cbn [str_has] in Hn. apply orb_false_iff in Hn as [Hx Hn].
  destruct a as [|c a]; [by destruct Ha as [[|? ?] H]|]. rewrite str_app_cons, !starts_with_cons, !andb_true_iff.
  intros [Hc Hs]. split; [done|]. destruct Ha as [[|y z] Ha].
  - unfold eol in Ha. rewrite str_nil_app in Ha. injection Ha as -> ->. apply Ascii.eqb_eq in Hc as ->. by rewrite Ascii.eqb_refl in Hx.
  - rewrite str_app_cons in Ha. injection Ha as -> ->. apply (IH _ b); [done|by eexists|done].
Qed.

Lemma cut_at_boundary head a b : head <> "" -> str_has newline head = false -> uncut head a -> ends_eol a ->
  starts_with head b = true -> cut_lines head (a +:+ b) = let '(p, ps) := cut_lines head b in (a, p :: ps).
Proof.
  intros Hh Hn Hu [x Hx] Hb. subst a. induction x as [|c x IH].
  - unfold eol. rewrite str_nil_app, str_app_cons, str_nil_app. cbn [cut_lines]. rewrite Hb.
    by destruct (cut_lines head b) as [p ps].
  - rewrite str_app_cons in Hu |- *. unfold uncut in Hu. cbn [cut_lines] in Hu. rewrite str_app_cons. cbn [cut_lines].
    destruct (cut_lines head (x +:+ eol)) as [p ps] eqn:Ep.
    destruct (Ascii.eqb c newline && starts_with head (x +:+ eol)) eqn:E; [done|]. injection Hu as -> ->.
    rewrite (IH Ep). destruct (cut_lines head b) as [p ps].
    destruct (Ascii.eqb c newline && starts_with head ((x +:+ eol) +:+ b)) eqn:E2; [|done].
    apply andb_true_iff in E2 as [Hc Hs]. apply starts_within in Hs; [|done|by eexists]. by rewrite Hc, Hs in E.
Qed.

(** Pieces put together again are cut at the same places. *)
Lemma pieces_again head ps : head <> "" -> str_has newline head = false -> ps <> [] -> Forall (uncut head) ps ->
  Forall (fun p => starts_with head p = true) (tail ps) -> Forall ends_eol (removelast ps) -> pieces head (join "" ps) = ps.
Proof.
  intros Hh Hn. induction ps as [|p ps IH]; [done|]. intros _ Hu Hs He. inversion Hu as [|? ? Hu1 Hu2]; subst.
  destruct ps as [|q ps]. { cbn. unfold pieces. by rewrite Hu1. }
  cbn [tail] in Hs. cbn [removelast] in He. inversion He as [|? ? He1 He2]; subst. inversion Hs as [|? ? Hs1 Hs2]; subst.
  rewrite join_cons. unfold pieces. rewrite cut_at_boundary; [|done..|].
  - specialize (IH ltac:(done) Hu2 Hs2 He2). unfold pieces in IH. destruct (cut_lines head (join "" (q :: ps))). by f_equal.
  - rewrite join_cons. by apply starts_with_app.
Qed.

Lemma filterb_removelast {A} (P : A -> Prop) f (l : list A) : Forall P (removelast l) -> Forall P (removelast (filterb f l)).
Proof.
  induction l as [|x l IH]; [done|]. destruct l as [|y l].
  { intros _. cbn. destruct (f x); constructor. }
  cbn [removelast]. inversion 1 as [|? ? Hx Hl]; subst. specialize (IH Hl). change (filterb f (x :: y :: l)) with (if f x then x :: filterb f (y :: l) else filterb f (y :: l)).
  destruct (f x); [|done]. destruct (filterb f (y :: l)); [constructor|]. cbn [removelast]. by constructor.
Qed.

Lemma filterb_sub {A} (P : A -> Prop) f (l : list A) : Forall P l -> Forall P (filterb f l).
Proof. rewrite !Forall_forall. intros H x Hx. apply list_elem_of_In, filter_In in Hx as [Hx _]. by apply H, list_elem_of_In. Qed.

(** The sections of the diff an exclusion leaves are the sections it kept. *)
Lemma sections_kept patterns diff : filterb (kept patterns) (sections diff) <> [] ->
  sections (join "" (filterb (kept patterns) (sections diff))) = filterb (kept patterns) (sections diff).
Proof.
  intros Hne. pose proof (cut_lines_uncut "diff --git " diff ltac:(done)) as [H1 H2].
  pose proof (cut_heads "diff --git " diff eq_refl) as Hh. pose proof (cut_lines_ends "diff --git " diff) as He.
  unfold sections in *. revert Hne. unfold pieces at 1 3 4. destruct (cut_lines "diff --git " diff) as [p ps]. cbn [fst snd] in *.
  intros Hne. apply pieces_again; [done|done|done| | |].
  - apply filterb_sub. by constructor.
  - cbn [filterb List.filter]. destruct (kept patterns p); cbn [tail]; [by apply filterb_sub|].
    assert (Forall (fun p => starts_with "diff --git " p = true) (filterb (kept patterns) ps)) as H by (by apply filterb_sub).
    unfold filterb in *. destruct (List.filter (kept patterns) ps); [constructor|]. by inversion H.
  - apply filterb_removelast. destruct He as [He1 He2]. destruct ps as [|q ps]; [constructor|]. constructor; [by apply He1|exact He2].
Qed.

(** ** The prepared diff *)

(** C10: what is prepared is what the exclusion leaves: it is refused above the size
    limit and otherwise cut into chunks under their cap; when no path holds a
    line feed, the chunks change exactly the lines the kept sections change,
    each once and in order; a diff of which nothing is left is told from one
    with nothing in it, and a map goes with several chunks *)
Theorem prepare_exact zi raw cli cfg mx hk mc sp :
  let pats := zi ++ cfg ++ cli in
  let ss := filterb (kept pats) (sections raw) in
  match prepare_review_diff_with_chunks zi raw cli cfg mx hk mc sp with
  | Err e => (mx < len (join "" ss) /\ e = DiffTooLarge (len (join "" ss)) mx)
             \/ (len (join "" ss) <= mx /\ review_diff_chunks (join "" ss) hk sp mc = Err e)
  | Ok d =>
      len (join "" ss) <= mx /\ filtered d = join "" ss /\
      ex_files (excluded d) = omap (excluded_as pats) (sections raw) /\ len (filtered d) + ex_total (excluded d) = len raw /\
      (emptied_by_exclusion d = true <-> trim raw <> "" /\ chunks d = []) /\
      (is_Some (diff_map d) <-> (2 <= length (chunks d))%nat) /\
      Forall (fun c => len c <= Z.max hk 1) (chunks d) /\
      (chunks d <> [] -> Z.of_nat (length (chunks d)) <= mc /\
       exists groups, chunks d = map (chunk_text None) groups /\
         (Forall flat_path ss -> payload_of (concat groups) = concat (map section_changes ss)))
  end.
Proof.
  intros pats ss. unfold prepare_review_diff_with_chunks. fold pats. pose proof (filter_exact raw pats) as Hf.
  destruct (filter_diff raw pats) as [out report]. fold ss in Hf. destruct Hf as (-> & Hfiles & _ & Hsize).
  destruct (mx <? len (join "" ss)) eqn:Em; [apply Z.ltb_lt in Em; by left|]. apply Z.ltb_ge in Em.
  destruct (review_diff_chunks (join "" ss) hk sp mc) as [cs|e] eqn:Ec; [|by right].
  cbn [filtered excluded chunks diff_map emptied_by_exclusion].
  assert (str_is_empty (trim (join "" ss)) = true <-> cs = []) as Hblank.
  { destruct (str_is_empty (trim (join "" ss))) eqn:Eb.
    - unfold review_diff_chunks in Ec. rewrite Eb in Ec. by injection Ec as <-.
    - destruct (review_chunks_exact _ _ _ _ _ Ec Eb) as (g & _ & Hne & _). done. }
  split_and!; [done|done|done|done| | | |].
  - rewrite andb_true_iff, Hblank, negb_true_iff. destruct (trim raw); cbn; split; intros [? ?]; split; done.
  - destruct (1 <? length cs)%nat eqn:E1; [apply Nat.ltb_lt in E1|apply Nat.ltb_ge in E1].
    + split; [lia|]. by eexists.
    + split; [by intros [? ?]|lia].
  - destruct (str_is_empty (trim (join "" ss))) eqn:Eb; [by rewrite (proj1 Hblank eq_refl)|].
    by destruct (review_chunks_exact _ _ _ _ _ Ec Eb) as (g & _ & _ & _ & Hcap & _).
  - intros Hne. destruct (str_is_empty (trim (join "" ss))) eqn:Eb; [by rewrite (proj1 Hblank eq_refl) in Hne|].
    destruct (review_chunks_exact _ _ _ _ _ Ec Eb) as (g & Hg & _ & _ & _ & Hmc & Hpay). split; [done|].
    exists g. split; [done|]. unfold ss in *. rewrite sections_kept in Hpay; [done|].
    intros H. by rewrite H in Eb.
Qed.

(** ** The map of a diff *)

Lemma def_lines_nonneg s : 0 <= def_lines s.
Proof. induction s as [|c s IH]; [done|]. cbn [def_lines]. destruct (_ && _); lia. Qed.

Definition map_fold (m : MapState) (bs : list string) : MapState := foldl map_step m bs.

(** The blocks that fit, in order; the others are counted. *)
Lemma map_fold_spec bs : forall m, exists taken, sublist taken bs /\
  map_text (map_fold m bs) = map_text m +:+ join "" taken /\
  omitted (map_fold m bs) = omitted m + Z.of_nat (length bs - length taken) /\
  (taken <> [] -> len (map_text (map_fold m bs)) + NOTE_RESERVE <= DIFF_MAP_MAX_BYTES).
Proof.
  induction bs as [|b bs IH]; intros m.
  - exists []. split_and!; [constructor|by rewrite str_app_nil|cbn; lia|done].
  - unfold map_fold in *. cbn [foldl]. destruct (IH (map_step m b)) as (taken & Hs & Ht & Ho & Hc). pose proof (sublist_length _ _ Hs) as Hl.
    unfold map_step in *. destruct (DIFF_MAP_MAX_BYTES <? _) eqn:E; cbn [map_text omitted] in *.
    + exists taken. split_and!; [by apply sublist_cons|done| |done].
      rewrite Ho. cbn [length]. rewrite Nat.sub_succ_l by done. lia.
    + apply Z.ltb_ge in E. exists (b :: taken). split_and!; [by apply sublist_skip| | |].
      * by rewrite Ht, join_cons, str_app_assoc.
      * cbn [length]. by rewrite Ho.
      * intros _. destruct taken as [|t taken]; [|by apply Hc]. rewrite Ht, !len_app.
        change (len (join "" [])) with 0. lia.
Qed.

Definition map_header : string := "diff-map (deterministic; covers ALL chunks):" +:+ eol.
Lemma build_diff_map_eq diff : build_diff_map diff =
  let m := map_fold (mkMap map_header 0 0) (blocks diff) in
  truncate_map (if 0 <? omitted m then map_text m +:+ omitted_note m else map_text m).
Proof. done. Qed.

Lemma map_fold_defs bs : forall m, 0 <= omitted_defs m -> 0 <= omitted_defs (map_fold m bs).
Proof.
  induction bs as [|b bs IH]; intros m Hm; [done|]. cbn [map_fold foldl]. apply IH. unfold map_step.
  destruct (_ <? _); cbn [omitted_defs]; [|done]. pose proof (def_lines_nonneg b). lia.
Qed.

Lemma truncate_short s : len s <= DIFF_MAP_MAX_BYTES -> truncate_map s = s.
Proof. intros H. unfold truncate_map. by rewrite (proj2 (Z.ltb_ge _ _) H). Qed.

Lemma truncate_bound s : len (truncate_map s) <= DIFF_MAP_MAX_BYTES + 1.
Proof.
  unfold truncate_map. destruct (DIFF_MAP_MAX_BYTES <? len s) eqn:E; [apply Z.ltb_lt in E|apply Z.ltb_ge in E; lia].
  assert (len (str_take (Z.to_nat DIFF_MAP_MAX_BYTES) s) = DIFF_MAP_MAX_BYTES) as H.
  { unfold len in *. rewrite str_take_length by lia. unfold DIFF_MAP_MAX_BYTES. lia. }
  destruct (ends_with eol _); rewrite ?len_app, H; [lia|]. change (len eol) with 1. lia.
Qed.

Lemma note_bound m : 0 <= omitted m -> 0 <= omitted_defs m -> omitted m < 10 ^ 8 -> omitted_defs m < 10 ^ 8 ->
  len (omitted_note m) <= NOTE_RESERVE.
Proof.
  intros H1 H2 H3 H4. unfold omitted_note. rewrite !len_app.
  pose proof (show_u_length (omitted m) 8 ltac:(lia) ltac:(lia)). pose proof (show_u_length (omitted_defs m) 8 ltac:(lia) ltac:(lia)).
  change (len "... ") with 4. change (len " more file(s) (~") with 16.
  change (len " definition lines) omitted to keep the map under 4096 bytes") with 59. change (len eol) with 1.
  unfold len, NOTE_RESERVE. lia.
Qed.

(** The map lists the changed files in order for as long as their blocks fit,
    counts the others, is never more than one byte over its limit, and is cut
    off nowhere while the counts stay below a hundred million *)
Theorem diff_map_bounded diff : exists taken, sublist taken (blocks diff) /\
  let m := map_fold (mkMap map_header 0 0) (blocks diff) in
  map_text m = map_header +:+ join "" taken /\ omitted m = Z.of_nat (length (blocks diff) - length taken) /\
  len (build_diff_map diff) <= DIFF_MAP_MAX_BYTES + 1 /\
  (omitted m < 10 ^ 8 -> omitted_defs m < 10 ^ 8 ->
   len (build_diff_map diff) <= DIFF_MAP_MAX_BYTES /\
   build_diff_map diff = map_text m +:+ (if 0 <? omitted m then omitted_note m else "")).
Proof.
  destruct (map_fold_spec (blocks diff) (mkMap map_header 0 0)) as (taken & Hs & Ht & Ho & Hc).
  exists taken. split; [done|]. rewrite build_diff_map_eq. cbv zeta.
  pose proof (map_fold_defs (blocks diff) (mkMap map_header 0 0) ltac:(done)) as Hd.
  set (m := map_fold _ _) in *. split_and!; [exact Ht|rewrite Ho; cbn [omitted]; lia|apply truncate_bound|].
  intros H1 H2. assert (len (map_text m) + NOTE_RESERVE <= DIFF_MAP_MAX_BYTES) as Hm.
  { destruct taken; [|by apply Hc]. rewrite Ht. vm_compute. discriminate. }
  pose proof (note_bound m ltac:(rewrite Ho; cbn [omitted]; lia) Hd H1 H2) as Hn.
  rewrite truncate_short; [|destruct (0 <? omitted m); rewrite ?len_app; unfold NOTE_RESERVE in *; lia].
  destruct (0 <? omitted m); rewrite ?str_app_nil; [|unfold NOTE_RESERVE in *; split; [lia|done]].
  rewrite len_app. split; [lia|done].
Qed.

(** ** Quoted paths *)

Definition code (c : ascii) : Z := Z.of_nat (Ascii.nat_of_ascii c).
Definition oct (v : Z) : ascii := Ascii.ascii_of_nat (48 + Z.to_nat (v mod 8)).
Definition esc (x : ascii) (s : string) : string := String backslash (String x s).

(** How git writes a byte of a quoted path. *)
Definition git_escape (c : ascii) (s : string) : string :=
  if Ascii.eqb c quote then esc quote s
  else if Ascii.eqb c backslash then esc backslash s
  else if code c =? 7 then esc "a" s else if code c =? 8 then esc "b" s
  else if code c =? 9 then esc "t" s else if code c =? 10 then esc "n" s
  else if code c =? 11 then esc "v" s else if code c =? 12 then esc "f" s else if code c =? 13 then esc "r" s
  else if (code c <? 32) || (127 <=? code c) then
    esc (oct (code c / 64)) (String (oct (code c / 8)) (String (oct (code c)) s))
  else String c s.
Fixpoint git_escapes (s rest : string) : string :=
  match s with EmptyString => rest | String c s => git_escape c (git_escapes s rest) end.
Definition git_quoted (p : string) : string := String quote (git_escapes p (String quote "")).

(** The four bytes whose letter the reader does not know. *)
Definition exotic (c : ascii) : bool := (code c =? 7) || (code c =? 8) || (code c =? 11) || (code c =? 12).

Lemma unescape_git c s : exotic c = false -> unescape (git_escape c s) = String c (unescape s).
Proof.
  destruct c as [[] [] [] [] [] [] [] []]; intros H; try discriminate H; clear H; reflexivity.
Qed.

Lemma git_escape_app c s : git_escape c s = git_escape c "" +:+ s.
Proof.
  unfold git_escape, esc. repeat match goal with |- (if ?b then _ else _) = _ => destruct b end;
    by rewrite ?str_app_cons, str_nil_app.
Qed.
Lemma git_escapes_app p rest : git_escapes p rest = git_escapes p "" +:+ rest.
Proof.
  induction p as [|c p IH]; [done|]. cbn [git_escapes]. by rewrite git_escape_app, IH, (git_escape_app _ (git_escapes p "")), str_app_assoc.
Qed.

Lemma unescape_gits p rest : str_all (fun c => negb (exotic c)) p = true -> unescape (git_escapes p rest) = p +:+ unescape rest.
Proof.
  induction p as [|c p IH]; [done|]. cbn [str_all git_escapes]. intros [Hc Hp]%andb_true_iff.
  by rewrite unescape_git, IH, str_app_cons by (done || by apply negb_true_iff).
Qed.
Lemma unquote_quoted p : unquote_git_path (git_quoted p) = unescape (git_escapes p "").
Proof.
  unfold unquote_git_path, git_quoted. rewrite git_escapes_app.
  change (String quote (git_escapes p "" +:+ String quote "")) with (String quote "" +:+ (git_escapes p "" +:+ String quote "")).
  rewrite strip_prefix_app. cbn [mbind option_bind]. by rewrite strip_suffix_app.
Qed.

(** A path git had to quote is read back, byte for byte, unless it holds one of
    four control characters *)
Theorem quoted_path_roundtrip p : str_all (fun c => negb (exotic c)) p = true -> unquote_git_path (git_quoted p) = p.
Proof.
  intros Hp. by rewrite unquote_quoted, unescape_gits, str_app_nil.
Qed.

Lemma quoted_path_roundtrip_witness :
  git_quoted (String (Ascii.ascii_of_nat 195) (String (Ascii.ascii_of_nat 169) " b")) = String quote (String backslash "303\251 b" +:+ String quote "") /\
  unquote_git_path (git_quoted (String (Ascii.ascii_of_nat 195) (String (Ascii.ascii_of_nat 169) " b")))
    = String (Ascii.ascii_of_nat 195) (String (Ascii.ascii_of_nat 169) " b").
Proof. split; [reflexivity|apply quoted_path_roundtrip; reflexivity]. Defined.

(** A control character git writes with a letter is read as the letter: the
    path with a bell is taken for the path with an [a], and is excluded or kept
    with it *)
Lemma bell_is_read_as_a p :
  str_all (fun c => negb (exotic c)) p = true ->
  unquote_git_path (git_quoted (p +:+ String (Ascii.ascii_of_nat 7) "")) = p +:+ "a".
Proof.
  intros Hp. rewrite unquote_quoted. replace (git_escapes (p +:+ _) "") with (git_escapes p (esc "a" "")).
  - by rewrite unescape_gits.
  - induction p as [|c p IH]; [reflexivity|]. cbn [str_all] in Hp. apply andb_true_iff in Hp as [_ Hp].
    rewrite str_app_cons. cbn [git_escapes]. by rewrite IH.
Qed.

(** A section without the two header lines has no path: no pattern excludes a
    binary file *)
Definition binary_diff : string :=
  "diff --git a/logo.png b/logo.png" +:+ eol +:+ "index 1111111..2222222 100644" +:+ eol
  +:+ "Binary files a/logo.png and b/logo.png differ" +:+ eol.
Lemma pathless_is_kept patterns section : section_path section = None -> kept patterns section = true.
Proof. intros H. rewrite kept_spec. unfold excluded_as. by rewrite H. Qed.
Lemma binary_is_not_excluded : glob_match "*.png" "logo.png" = true /\ filter_diff binary_diff ["*.png"] = (binary_diff, mkReport [] 0).
Proof. split; reflexivity. Qed.

(** A line feed in a path comes out in the header of a split part: the rest of
    the path reads as a line of the diff *)
Lemma path_line_injected : exists path parts, clean_git_path (git_quoted ("b/x" +:+ String newline "+evil")) = Some path /\
  split_oversized_hunk "" ("@@ -1,1 +1,1 @@" +:+ eol +:+ "-old" +:+ eol +:+ "+new" +:+ eol) path 500 = Ok parts /\
  concat (map payload parts) = ["+evil"; "-old"; "+new"].
Proof. eexists _, _. split; [reflexivity|]. split; reflexivity. Qed.
