(* ===== verification/ReviewContext.v ===== *)
(** The context header of a review chunk (review_context.rs): what a reviewer
    of one chunk is told about the files it touches.  The names a line imports,
    binds or defines are read here for the filter of false findings as well.

    Texts are byte strings in UTF-8 whose white space and letters are ASCII;
    a file is read by the argument [read]. *)
From S2P Require Import Prelude Numbers Config Policy Text ReviewDiff.
Local Open Scope string_scope.
Local Open Scope Z_scope.
Local Open Scope list_scope.

Definition CONTEXT_BUDGET_BYTES : Z := 3000.
Definition CONTEXT_MIN_BYTES : Z := 512.
Definition CONTEXT_SHARE_DENOMINATOR : Z := 4.
Definition CONTEXT_WRAPPER_RESERVE_BYTES : Z := 320.
Definition WHOLE_FILE_THRESHOLD_BYTES : Z := 4096.
Definition MAX_IMPORTS_PER_FILE : nat := 25.
Definition CONTEXT_MAX_DEFS_PER_FILE : nat := 60.
Definition MAX_BINDINGS_PER_HUNK : nat := 30.
Definition MAX_REFERENCED_SYMBOLS : nat := 80.
Definition DEF_CONTEXT_LINES : nat := 2.
Definition MAX_SCOPE_LOOKBACK : nat := 400.

Definition context_budget_for_chunk_cap (chunk_cap : Z) : Z :=
  Z.min (Z.max (chunk_cap / CONTEXT_SHARE_DENOMINATOR) CONTEXT_MIN_BYTES) CONTEXT_BUDGET_BYTES.
Definition chunk_cap_for_context (route_cap : Z) : Z :=
  let reserve := context_budget_for_chunk_cap route_cap + CONTEXT_WRAPPER_RESERVE_BYTES in
  Z.max (Z.max (u64_sat_sub route_cap reserve) (route_cap / 2)) 1.

(** ** The files of a chunk *)

Definition new_start (header : string) : option nat :=
  tok ← find_first (fun t => starts_with "+" t && (1 <? String.length t)%nat) (split_whitespace header);
  n ← head (split_on "," (str_drop 1 tok));
  Z.to_nat <$> parse_u64_std n.

Definition file_line (out : list (string * list nat)) (line : string) : list (string * list nat) :=
  match strip_prefix "+++ " line with
  | Some rest =>
      let path := trim rest in
      if bool_decide (path = "/dev/null") then out
      else out ++ [(default path (strip_prefix "b/" path), [])]
  | None =>
      if starts_with "@@ " line then
        match last out, new_start line with
        | Some (path, starts), Some start => removelast out ++ [(path, starts ++ [start])]
        | _, _ => out
        end
      else out
  end.
Definition chunk_files (chunk : string) : list (string * list nat) := foldl file_line [] (lines chunk).

Definition indent_of (line : string) : nat := String.length line - String.length (trim_start line).

Definition is_import (trimmed : string) : bool :=
  existsb (fun p => starts_with p trimmed)
    ["use "; "pub use "; "import "; "from "; "#include"; "extern crate "; "require "; "using "].

(** ** Names a line defines, binds or imports *)

Definition upper_digit (c : ascii) : bool :=
  let n := Ascii.nat_of_ascii c in ((65 <=? n)%nat && (n <=? 90)%nat) || is_ascii_digit c || Ascii.eqb c "_".
Definition is_upper (c : ascii) : bool := let n := Ascii.nat_of_ascii c in (65 <=? n)%nat && (n <=? 90)%nat.
Definition is_lower (c : ascii) : bool := let n := Ascii.nat_of_ascii c in (97 <=? n)%nat && (n <=? 122)%nat.
Definition str_any (p : ascii -> bool) (s : string) : bool := negb (str_all (fun c => negb (p c)) s).
Definition first_is (p : ascii -> bool) (s : string) : bool := match s with String c _ => p c | EmptyString => false end.
Definition piece_to (c : ascii) (s : string) : string := match split_once c s with Some (a, _) => a | None => s end.

Definition leading_ident (s : string) : option string :=
  let name := take_while ident_byte s in if str_is_empty name then None else Some name.
Definition upper_const (line t : string) : option string :=
  if (indent_of line =? 0)%nat then
    '(lhs, _) ← split_once "=" t;
    let lhs := trim (piece_to ":" (trim_end_matches (Ascii.eqb ":") (trim lhs))) in
    if negb (str_is_empty lhs) && str_all upper_digit lhs && str_any is_upper lhs then Some lhs else None
  else None.
Definition const_name (line : string) : option string :=
  let t := trim_start line in
  match find_map (fun kw => strip_prefix kw t) ["#define "; "const "; "static "; "pub const "; "pub static "] with
  | Some rest => let rest := trim_start rest in leading_ident (default rest (strip_prefix "mut " rest))
  | None => upper_const line t
  end.

Definition bound_idents (s : string) : list string :=
  filterb (fun w => first_is (fun c => is_lower c || Ascii.eqb c "_") w
                    && negb (bool_decide (w ∈ ["mut"; "ref"; "_"; "in"; "as"; "let"; "for"])))
    (words_where ident_byte s).
Definition let_pattern (rest : string) : string :=
  let pat := piece_to "=" rest in
  match split_once ":" pat with
  | Some (p, _) => if negb (str_has "(" p) || str_has ")" p then p else pat
  | None => pat
  end.
Definition assigned (t : string) : list string :=
  match split_once "=" t with
  | Some (lhs, rhs) =>
      if negb (starts_with "=" rhs)
         && negb (ends_in ["!"; "<"; ">"; "="; "+"; "-"; "*"; "/"; "%"; "|"; "&"; "^"]%char lhs)
         && negb (str_has "(" lhs) && negb (str_has "." lhs) && negb (str_has "[" lhs)
         && negb (str_is_empty (trim lhs))
         && negb (starts_in ["#"; "/"; "*"]%char (trim_start lhs))
      then
        let lhs := piece_to ":" lhs in
        let words := bound_idents lhs in
        if str_has "," lhs then words else option_list (last words)
      else []
  | None => []
  end.
Definition with_target (t : string) : option (list string) :=
  if starts_with "with " t then
    '(_, after) ← split_once_str " as " t; Some (bound_idents (trim_end_matches (Ascii.eqb ":") after))
  else None.
Definition for_target (t : string) : option (list string) :=
  rest ← strip_prefix "for " t; '(pat, _) ← split_once_str " in " rest; Some (bound_idents pat).
Definition bindings_in (line : string) : list string :=
  let t := trim_start line in
  match strip_prefix "let " t with
  | Some rest => filterb (fun w => negb (bool_decide (w ∈ ["some"; "ok"; "err"]))) (bound_idents (let_pattern rest))
  | None => default (assigned t) (or_opt (for_target t) (with_target t))
  end.

Definition param_name (p : string) : option string :=
  let p := trim p in
  if str_is_empty p then None
  else
    name ← last (words_where ident_byte (piece_to ":" (piece_to "=" p)));
    if bool_decide (name ∈ ["self"; "mut"; "void"; "cls"]) then None else Some name.
Definition params_of (def_line : string) : list string :=
  match split_once "(" def_line with
  | Some (_, inner) => omap param_name (split_on "," (piece_to ")" inner))
  | None => []
  end.

(** ** Definitions that open a scope *)

Definition QUALIFIERS : list string :=
  ["pub(crate) "; "pub(super) "; "pub "; "async "; "unsafe "; "const "; "extern " +:+ String quote ("C" +:+ String quote " "); "export ";
   "static "; "inline "; "default "].
Definition strip_qualifiers (t : string) : string :=
  foldl (fun t q => default t (strip_prefix q t)) t QUALIFIERS.
(** The loop that strips until nothing is left to strip; a round that strips
    shortens the text, so [n] rounds are enough for a text of [n] bytes
    ([strip_all_fixed]). *)
Fixpoint strip_all (fuel : nat) (t : string) : string :=
  match fuel with
  | O => t
  | S fuel => let t' := strip_qualifiers t in if bool_decide (t' = t) then t else strip_all fuel t'
  end.
Definition DEF_LINE_KEYWORDS : list string :=
  ["fn "; "def "; "class "; "impl "; "impl<"; "trait "; "mod "; "function "; "func "; "struct "; "enum "; "interface "; "sub "].
Definition is_def_line (line : string) : bool :=
  let t := trim_start line in
  if starts_in ["/"; "*"; "#"; quote; "'"; "}"]%char t then false
  else
    existsb (fun k => starts_with k (strip_all (String.length t) t)) DEF_LINE_KEYWORDS
    || ((indent_of line =? 0)%nat && str_has "(" line && negb (ends_with ";" (trim_end line))
        && match extract_defs line with name :: _ => negb (str_is_empty name) | [] => false end
        && negb (starts_with "return" (trim_start line))).

Definition enclosing_def (ls : list string) (at_ : nat) : option nat :=
  let idx := Nat.min (at_ - 1) (length ls - 1) in
  let target := find_first (fun l => negb (str_is_empty (trim l)) && negb (starts_in ["}"; ")"; "]"]%char (trim l)))
                  (take 8 (drop idx ls)) in
  let floor := (idx - MAX_SCOPE_LOOKBACK)%nat in
  find_first (fun i => match ls !! i with
                       | Some l => negb (str_is_empty (trim l))
                                   && match target with Some t => (indent_of l <? indent_of t)%nat | None => true end
                                   && is_def_line l
                       | None => false
                       end) (rev (seq floor (idx - floor))).

Definition clip (s : string) (max : nat) : string :=
  let s := trim s in if (char_count s <=? max)%nat then s else chars_take max s +:+ "...".

Definition NOT_CODE : list string :=
  ["md"; "txt"; "rst"; "json"; "toml"; "yaml"; "yml"; "lock"; "csv"; "tsv"; "svg"; "html"; "xml"; "patch"; "diff"].
Definition is_code_path (path : string) : bool :=
  match rsplit_once "." path with
  | Some (_, e) => negb (bool_decide (to_ascii_lowercase e ∈ NOT_CODE))
  | None => true
  end.

Definition identifiers (s : string) : list string := words_where ident_byte s.
Definition NOISE : list string :=
  ["self"; "this"; "mut"; "ref"; "let"; "var"; "const"; "static"; "pub"; "use"; "from"; "import"; "as"; "fn"; "def"; "class";
   "struct"; "enum"; "trait"; "impl"; "mod"; "type"; "interface"; "function"; "func"; "return"; "if"; "else"; "for"; "while";
   "match"; "case"; "in"; "not"; "and"; "or"; "is"; "none"; "true"; "false"; "int"; "char"; "void"; "long"; "short"; "float";
   "double"; "unsigned"; "signed"; "bool"; "string"; "str"; "usize"; "isize"; "u8"; "u16"; "u32"; "u64"; "i8"; "i16"; "i32";
   "i64"; "f32"; "f64"; "crate"; "super"; "std"; "core"; "alloc"].
Definition is_noise_symbol (name : string) : bool := bool_decide (name ∈ NOISE).

(** ** Imports *)

Definition push_new (out : list string) (w : string) : list string := if bool_decide (w ∈ out) then out else out ++ [w].
Definition push_unique (out : list string) (word : string) : list string :=
  let word := trim word in
  if (2 <=? String.length word)%nat && negb (is_noise_symbol word) then push_new out word else out.

(** The prefixes of a dotted module path, [prefix] being the one before. *)
Fixpoint dotted_prefixes (prefix : string) (segments : list string) : list string :=
  match segments with
  | [] => []
  | s :: r =>
      let s := trim s in
      if str_is_empty s || bool_decide (s = "*") then dotted_prefixes prefix r
      else let p := if str_is_empty prefix then s else prefix +:+ "." +:+ s in p :: dotted_prefixes p r
  end.
Definition add_python_target (out : list string) (target : string) : list string :=
  let target := trim target in
  let '(module, alias) := match split_once_str " as " target with
                          | Some (m, a) => (trim m, Some (trim a))
                          | None => (target, None)
                          end in
  let out := foldl push_new out (dotted_prefixes "" (split_on "." module)) in
  match alias with Some a => push_unique out a | None => out end.
Definition include_stem (rest : string) : string :=
  let rest := trim_matches (char_in ["<"; ">"; quote]%char) (trim rest) in piece_to "." (basename rest).
Definition import_targets (rest : string) : list string :=
  let out := foldl add_python_target [] (split_on "," rest) in
  if str_has "{" rest then foldl push_unique out (identifiers rest) else out.
Definition from_targets (rest : string) : list string :=
  let '(module, names) := default (rest, "") (split_once_str " import " rest) in
  let out := foldl push_unique [] (identifiers module) in
  foldl add_python_target out (map (trim_matches (char_in ["("; ")"; "["; "]"]%char)) (split_on "," names)).
Definition imported_names (line : string) : list string :=
  let t := trim_end_matches (char_in [";"; ","; "("; ")"]%char) (trim line) in
  match find_map (fun p => strip_prefix p t) ["pub use "; "use "; "extern crate "] with
  | Some rest => foldl push_unique [] (identifiers rest)
  | None =>
      match strip_prefix "from " t with
      | Some rest => from_targets rest
      | None =>
          match strip_prefix "import " t with
          | Some rest => import_targets rest
          | None =>
              match strip_prefix "#include" t with
              | Some rest => push_unique [] (include_stem rest)
              | None =>
                  match strip_prefix "using " t with
                  | Some rest => foldl push_unique [] (identifiers rest)
                  | None => []
                  end
              end
          end
      end
  end.

(** ** The index of definitions *)

Definition comment_line (t : string) : bool :=
  str_is_empty t || starts_in ["/"; "*"]%char t
  || (starts_in ["#"]%char t && negb (starts_with "#define" t) && negb (starts_with "#include" t)).
Definition names_of_line (line : string) : list string :=
  let t := trim line in
  if comment_line t then []
  else filterb (fun n => (2 <=? String.length n)%nat && negb (is_noise_symbol n))
         (extract_defs line ++ option_list (const_name line) ++ bindings_in line
          ++ (if is_import t then imported_names line else [])).
Definition note_name (i : nat) (m : gmap string nat) (n : string) : gmap string nat :=
  match m !! n with Some _ => m | None => <[n := i]> m end.
Fixpoint index_from (i : nat) (m : gmap string nat) (ls : list string) : gmap string nat :=
  match ls with
  | [] => m
  | l :: r => index_from (S i) (foldl (note_name i) m (names_of_line l)) r
  end.
Definition definition_index (ls : list string) : gmap string nat := index_from 0 ∅ ls.

(** ** The symbols a chunk mentions *)

Definition DIFF_HEADERS : list string :=
  ["diff --git "; "index "; "new file mode "; "deleted file mode "; "old mode "; "new mode "; "similarity index ";
   "rename from "; "rename to "; "--- "; "+++ "; "@@"; "\ No newline"].
Definition mentioned (line : string) : list string :=
  if existsb (fun p => starts_with p line) DIFF_HEADERS then []
  else
    let code := trim_start (if starts_in ["+"; "-"; " "]%char line then str_drop 1 line else line) in
    if str_is_empty code || starts_in ["#"; "/"; "*"; ";"]%char code then []
    else filterb (fun w => (2 <=? String.length w)%nat && negb (is_noise_symbol w) && negb (first_is is_ascii_digit w))
           (identifiers code).
(** The symbols in order of mention; [true] when the cap was reached, which
    ends the scan. *)
Fixpoint mention (out : list string) (ws : list string) : bool * list string :=
  match ws with
  | [] => (false, out)
  | w :: r =>
      if bool_decide (w ∈ out) then mention out r
      else let out := out ++ [w] in
           if (MAX_REFERENCED_SYMBOLS <=? length out)%nat then (true, out) else mention out r
  end.
Definition referenced_symbols (chunk : string) : list string :=
  let '(full, out) := mention [] (concat (map mentioned (lines chunk))) in
  if full : bool then out else sort_by String.compare out.

(** ** The lines of the header *)

Fixpoint pad_left (width : nat) (s : string) : string :=
  match width with
  | O => s
  | S w => if (String.length s <? width)%nat then " " +:+ pad_left w s else s
  end.
Definition line_no (i : nat) : string := show_u (Z.of_nat i).

Definition near_line (path : string) (ls : list string) (idx j : nat) : option string :=
  line ← ls !! j;
  let text := trim_end line in
  if (j =? idx)%nat || str_is_empty (trim text) then None
  else Some ("    " +:+ path +:+ ":" +:+ line_no (S j) +:+ ": " +:+ clip text 120).
Definition definition_lines (path : string) (ls : list string) (index : gmap string nat) (symbol : string) : list string :=
  match index !! symbol with
  | Some idx =>
      ("- " +:+ path +:+ ":" +:+ line_no (S idx) +:+ ": " +:+ symbol +:+ " is defined or imported at the reviewed head: "
       +:+ clip (default "" (ls !! idx)) 120)
      :: omap (near_line path ls idx)
           (seq (idx - 1) (Nat.min (idx + 1 + DEF_CONTEXT_LINES) (length ls) - (idx - 1)))
  | None => []
  end.

Fixpoint numbered (width : nat) (clip_to : nat) (i : nat) (ls : list string) : list string :=
  match ls with
  | [] => []
  | l :: r => ("    " +:+ pad_left width (line_no i) +:+ ": " +:+ clip l clip_to) :: numbered width clip_to (S i) r
  end.
Definition whole_file_lines (path text : string) (budget : Z) : option (list string) :=
  if (WHOLE_FILE_THRESHOLD_BYTES <? len text) || (budget <? len text) then None
  else Some (("- " +:+ path +:+ ": whole file at the reviewed head (" +:+ show_u (len text) +:+ " bytes; not part of the diff):")
             :: numbered 4 160 1 (lines text)).

Definition add_names (names found : list string) : list string := foldl push_new names found.
(** The names bound from the definition at [def_idx] down to the line above
    the hunk. *)
Definition bound_before (ls : list string) (def_idx start : nat) : list string :=
  foldl (fun names i => match ls !! i with
                        | Some l => add_names names (if (i =? def_idx)%nat then params_of l else bindings_in l)
                        | None => names
                        end) [] (seq def_idx (start - 1 - def_idx)).
Definition hunk_scope (path : string) (ls : list string) (start : nat) : option string :=
  def_idx ← enclosing_def ls start;
  let names := bound_before ls def_idx start in
  let names := drop (length names - MAX_BINDINGS_PER_HUNK) names in
  let bound := match names with [] => "" | _ => "; names bound earlier in it: " +:+ join ", " names end in
  Some ("- " +:+ path +:+ " hunk at line " +:+ line_no start +:+ ": inside `" +:+ clip (default "" (ls !! def_idx)) 90
        +:+ "` (line " +:+ line_no (S def_idx) +:+ ")" +:+ bound).
Definition hunk_scopes (path : string) (ls : list string) (hunk_starts : list nat) : list string :=
  omap (hunk_scope path ls) hunk_starts.

(** The scan of the top-level lines ends once it has the maximum. *)
Fixpoint top_defs (defs : list string) (ls : list string) : list string :=
  match ls with
  | [] => defs
  | l :: r =>
      if (0 <? indent_of l)%nat then top_defs defs r
      else let defs := add_names defs (extract_defs l ++ option_list (const_name l)) in
           if (CONTEXT_MAX_DEFS_PER_FILE <=? length defs)%nat then defs else top_defs defs r
  end.
Definition file_wide (path : string) (ls : list string) : list string :=
  let imports := map (fun t => clip (trim_end_matches (Ascii.eqb ";") t) 80)
                   (take MAX_IMPORTS_PER_FILE (filterb is_import (map trim ls))) in
  let defs := top_defs [] ls in
  (match imports with [] => [] | _ => ["- " +:+ path +:+ ": imports: " +:+ join "; " imports] end)
  ++ (match defs with [] => [] | _ => ["- " +:+ path +:+ ": top-level definitions/constants: " +:+ join ", " defs] end).

(** ** The header *)

Fixpoint merge_file (files : list (string * list nat)) (path : string) (starts : list nat) : list (string * list nat) :=
  match files with
  | [] => [(path, starts)]
  | (p, s) :: r => if bool_decide (p = path) then (p, s ++ starts) :: r else (p, s) :: merge_file r path starts
  end.
Definition code_files (chunk : string) : list (string * list nat) :=
  foldl (fun files '(path, starts) => if is_code_path path then merge_file files path starts else files) [] (chunk_files chunk).

(** The lines about one file, most specific first. *)
Record FileContext := mkFileContext { scope : list string; defined : list string; wide : list string }.
Definition file_context (refs : list string) (per_file_budget : Z) (path text : string) (starts : list nat) : FileContext :=
  let ls := lines text in
  let sc := hunk_scopes path ls starts in
  match whole_file_lines path text per_file_budget with
  | Some whole => mkFileContext sc [] (whole ++ file_wide path ls)
  | None =>
      let index := definition_index ls in
      let d := concat (map (definition_lines path ls index) refs) in
      mkFileContext sc d (match d with [] => file_wide path ls | _ => [] end)
  end.

Definition truncation_note : string := "- (context truncated)" +:+ String newline "".
Fixpoint fill (budget : Z) (out : string) (ls : list string) : string :=
  match ls with
  | [] => out
  | l :: r =>
      if budget <? len out + len l + 1 then out +:+ truncation_note
      else fill budget (out +:+ l +:+ String newline "") r
  end.
Section Context.
Variable read : string -> option string.
Definition context_lines (chunk : string) (budget : Z) : list string :=
  let files := code_files chunk in
  let refs := referenced_symbols chunk in
  let per_file_budget := budget / Z.max (Z.of_nat (length files)) 1 in
  let contexts := omap (fun '(path, starts) =>
                    (fun text => file_context refs per_file_budget path text starts) <$> read path) files in
  concat (map scope contexts) ++ concat (map defined contexts) ++ concat (map wide contexts).
Definition chunk_context (chunk : string) (budget : Z) : string := fill budget "" (context_lines chunk budget).
End Context.

(** * Theorems *)

(** Stripping qualifiers only shortens, so the rounds given are enough: the
    text that is left has no qualifier in front. *)
Lemma strip_prefix_shorter q t : (String.length (default t (strip_prefix q t)) <= String.length t)%nat.
Proof.
  destruct (strip_prefix q t) as [r|] eqn:E; cbn; [|done]. apply strip_prefix_Some in E as ->. rewrite str_length_app. lia.
Qed.
Lemma strip_foldl_shorter qs t :
  let r := foldl (fun t q => default t (strip_prefix q t)) t qs in
  (String.length r <= String.length t)%nat /\ (r = t \/ (String.length r < String.length t)%nat).
Proof.
  revert t. induction qs as [|q qs IH]; intros t; cbn; [by split; [|left]|].
  destruct (IH (default t (strip_prefix q t))) as [H1 H2]. pose proof (strip_prefix_shorter q t) as H3.
  split; [lia|]. destruct H2 as [E|?]; [|right; lia]. rewrite E in *.
  destruct (strip_prefix q t) as [r|] eqn:Eq; cbn in *; [|by left].
  apply strip_prefix_Some in Eq as ->. rewrite str_length_app in *. destruct q; cbn; [left; by rewrite str_nil_app|right; lia].
Qed.
Lemma strip_all_fixed n t : (String.length t <= n)%nat -> strip_qualifiers (strip_all n t) = strip_all n t.
Proof.
  revert t. induction n as [|n IH]; intros t Hn; cbn [strip_all].
  - destruct t; [done|cbn in Hn; lia].
  - case_bool_decide as E; [done|]. apply IH. unfold strip_qualifiers in *.
    destruct (strip_foldl_shorter QUALIFIERS t) as [_ [?|?]]; [done|lia].
Qed.

(** ** The index of definitions *)

Lemma note_names_lookup i m ns s :
  foldl (note_name i) m ns !! s = match m !! s with Some j => Some j | None => if bool_decide (s ∈ ns) then Some i else None end.
Proof.
  revert m. induction ns as [|n ns IH]; intros m; cbn [foldl].
  { by destruct (m !! s). }
  rewrite IH. unfold note_name. destruct (m !! n) eqn:En.
  - destruct (m !! s) eqn:Es; [done|]. assert (s <> n) by congruence.
    rewrite (bool_decide_ext (s ∈ n :: ns) (s ∈ ns)); [done|]. rewrite elem_of_cons. naive_solver.
  - destruct (decide (s = n)) as [->|Hne].
    + rewrite lookup_insert, En. destruct (decide (n = n)); [|done]. rewrite bool_decide_true; [done|by left].
    + rewrite lookup_insert_ne by done. destruct (m !! s); [done|].
      rewrite (bool_decide_ext (s ∈ n :: ns) (s ∈ ns)); [done|]. rewrite elem_of_cons. naive_solver.
Qed.

Lemma index_from_lookup ls : forall i m s,
  index_from i m ls !! s =
  match m !! s with
  | Some j => Some j
  | None => (fun p => (i + p.1)%nat) <$> list_find (fun l => s ∈ names_of_line l) ls
  end.
Proof.
  induction ls as [|l ls IH]; intros i m s; cbn [index_from list_find].
  { by destruct (m !! s). }
  rewrite IH, note_names_lookup. destruct (m !! s); [done|].
  destruct (decide (s ∈ names_of_line l)).
  - rewrite bool_decide_true by done. cbn. f_equal. lia.
  - rewrite bool_decide_false by done. rewrite <- option_fmap_compose. destruct (list_find _ ls) as [[j y]|]; [|done]. cbn. f_equal. lia.
Qed.

(** The index of definitions sends a name to the first line that defines,
    binds or imports it, and knows no other name. *)
Theorem definition_index_first ls s i :
  definition_index ls !! s = Some i <->
  (exists l, ls !! i = Some l /\ s ∈ names_of_line l)
  /\ forall j l, (j < i)%nat -> ls !! j = Some l -> s ∉ names_of_line l.
Proof.
  unfold definition_index. rewrite index_from_lookup, lookup_empty. rewrite fmap_Some. split.
  - intros ([j l] & Hf & ->). cbn. apply list_find_Some in Hf as (Hl & Hs & Hmin). split; [eauto|].
    intros k l' Hk Hl'. by eapply Hmin.
  - intros [(l & Hl & Hs) Hmin]. exists (i, l). split; [|done]. apply list_find_Some. split; [done|]. split; [done|].
    intros k l' Hl' Hk. by eapply Hmin.
Qed.

(** ** The header keeps to its budget *)

Lemma fill_prefix budget ls : forall out, exists n,
  fill budget out ls = out +:+ join "" (map (fun l => l +:+ String newline "") (take n ls))
                       +:+ (if (n <? length ls)%nat then truncation_note else "")
  /\ (len out <= budget -> len out + bytes_of (map (fun l => l +:+ String newline "") (take n ls)) <= budget).
Proof.
  induction ls as [|l ls IH]; intros out; cbn [fill].
  { exists 0%nat. cbn. rewrite !str_app_nil. split; [done|]. lia. }
  destruct (Z.ltb_spec budget (len out + len l + 1)) as [Hgt|Hle].
  - exists 0%nat. cbn. rewrite str_nil_app. split; [done|]. lia.
  - destruct (IH (out +:+ l +:+ String newline "")) as (n & E & Hb). exists (S n). cbn [take map length]. split.
    + rewrite E. rewrite join_cons, !str_app_assoc. cbn [Nat.ltb Nat.leb]. done.
    + intros _. cbn [bytes_of map foldr]. rewrite !len_app in *. change (len (String newline "")) with 1 in *.
      unfold bytes_of in Hb. cbn [map foldr] in Hb. specialize (Hb ltac:(lia)). lia.
Qed.

(** The context header of a chunk is its most specific lines in order, cut
    where the next line would not fit the budget, with a note of 22 bytes when
    something was cut. *)
Theorem chunk_context_bounded read chunk budget : 0 <= budget -> exists n,
  let kept := join "" (map (fun l => l +:+ String newline "") (take n (context_lines read chunk budget))) in
  chunk_context read chunk budget
    = kept +:+ (if (n <? length (context_lines read chunk budget))%nat then truncation_note else "")
  /\ len kept <= budget
  /\ len (chunk_context read chunk budget) <= budget + 22.
Proof.
  intros Hb. unfold chunk_context. destruct (fill_prefix budget (context_lines read chunk budget) "") as (n & E & Hk).
  exists n. cbn zeta. rewrite E, str_nil_app. specialize (Hk Hb). split; [done|].
  rewrite len_app, len_join. change (len "") with 0 in Hk. split; [lia|]. case_match; [|change (len "") with 0; lia].
  change (len truncation_note) with 22. lia.
Qed.

(** A chunk, its context header and the sentence around the header stay within
    the route's cap exactly from 1663 bytes on. *)
Theorem context_cap_fits route_cap : 0 <= route_cap <= U64_MAX ->
  chunk_cap_for_context route_cap + context_budget_for_chunk_cap route_cap + CONTEXT_WRAPPER_RESERVE_BYTES <= route_cap
  <-> 1663 <= route_cap.
Proof.
  intros H. unfold chunk_cap_for_context, context_budget_for_chunk_cap, CONTEXT_SHARE_DENOMINATOR, CONTEXT_MIN_BYTES,
    CONTEXT_BUDGET_BYTES, CONTEXT_WRAPPER_RESERVE_BYTES. unfold_ints. div_lia.
Qed.

(** At least half of the cap is left to the diff, and never nothing. *)
Theorem context_cap_share route_cap : 0 <= route_cap ->
  route_cap / 2 <= chunk_cap_for_context route_cap /\ 1 <= chunk_cap_for_context route_cap <= Z.max 1 route_cap.
Proof.
  intros H. unfold chunk_cap_for_context, context_budget_for_chunk_cap, CONTEXT_SHARE_DENOMINATOR, CONTEXT_MIN_BYTES,
    CONTEXT_BUDGET_BYTES, CONTEXT_WRAPPER_RESERVE_BYTES. unfold_ints. div_lia.
Qed.

(** ** Departures *)

(** A cap of 1000 bytes is documented to hold the chunk and its context. *)
Example small_cap_overflows : 1000 < chunk_cap_for_context 1000 + context_budget_for_chunk_cap 1000.
Proof. by vm_compute. Qed.

(** A variable that is called [ok], [err] or [some] is not seen as bound. *)
Example ok_is_not_bound : bindings_in "    let ok = check();" = [] /\ bindings_in "    let okay = check();" = ["okay"].
Proof. by vm_compute. Qed.

(** From the eightieth symbol on the list is in order of mention, so the header
    depends on the order of the hunks. *)
Definition many_symbols (n : nat) : string := join " " (map (fun i => "name" +:+ show_u (Z.of_nat i)) (seq 1 n)).
Example mentions_unsorted :
  let chunk := "+zebra " +:+ many_symbols 79 in
  head (referenced_symbols chunk) = Some "zebra" /\ length (referenced_symbols chunk) = MAX_REFERENCED_SYMBOLS
  /\ head (referenced_symbols ("+zebra " +:+ many_symbols 78)) = Some "name1".
Proof. by vm_compute. Qed.

(** An added line that starts with two plus signs and a blank is taken for the
    header of a file. *)
Example added_pluses_name_a_context_file :
  chunk_files ("+++ b/a.rs" +:+ String newline ("@@ -1,2 +1,3 @@" +:+ String newline "+++ counter")) = [("a.rs", [1%nat]); ("counter", [])].
Proof. by vm_compute. Qed.

Example context_sample :
  let text := "use std::fs;" +:+ String newline ("fn run(path: &str) {" +:+ String newline ("    let data = read(path);" +:+ String newline "    data.len()")) in
  chunk_context (fun p => if bool_decide (p = "a.rs") then Some text else None)
    ("+++ b/a.rs" +:+ String newline ("@@ -4,1 +4,1 @@" +:+ String newline "+    data.len()")) 150
  = "- a.rs hunk at line 4: inside `fn run(path: &str) {` (line 2); names bound earlier in it: path, data"
    +:+ String newline truncation_note.
Proof. by vm_compute. Qed.
