(* ===== verification/ReviewFilter.v ===== *)
(** The filter of false findings (review_filter.rs): a finding that claims a
    name is undefined is dropped when every name it claims is defined,
    imported or built in at the reviewed head.

    The first part reads what a finding claims out of its prose, the second
    looks the names up in the source.  Texts are byte strings in UTF-8 whose
    white space and letters are ASCII; a file is read by the argument
    [read]. *)
From S2P Require Import Prelude Numbers Config Policy Text ReviewDiff ReviewContext.
Local Open Scope string_scope.
Local Open Scope Z_scope.
Local Open Scope list_scope.

(** ** The words of a claim *)

Definition CLAIM_PHRASES : list string :=
  ["does not import or define"; "does not define"; "nameerror"; "undefined"; "not defined"; "isn't defined";
   "not declared"; "undeclared"; "unbound"; "not bound"; "not imported"; "isn't imported"; "missing import";
   "missing imports"; "missing definition"; "no definition"; "cannot find"; "can't find"; "not in scope";
   "unknown symbol"; "undefined name"].
Definition STOPWORDS : list string :=
  ["if"; "then"; "argument"; "option"; "runtime"; "raise"; "raises"; "cause"; "will"; "which"; "chunk"; "chunks"; "diff";
   "hunk"; "part"; "here"; "there"; "scope"; "context"; "anywhere"; "codebase"; "statement"; "path"; "shown"; "visible";
   "see"; "new"; "but"; "in"; "with"; "by"; "as"; "the"; "a"; "an"; "is"; "are"; "was"; "were"; "be"; "been"; "being";
   "this"; "that"; "these"; "those"; "it"; "its"; "in"; "at"; "on"; "for"; "from"; "to"; "of"; "and"; "or"; "not"; "no";
   "never"; "does"; "do"; "did"; "doesn"; "don"; "cannot"; "can"; "could"; "would"; "should"; "undefined"; "unbound";
   "missing"; "unknown"; "undeclared"; "declared"; "defined"; "define"; "imported"; "import"; "exports"; "export";
   "symbol"; "constant"; "variable"; "function"; "method"; "class"; "module"; "file"; "line"; "code"; "name"; "value";
   "type"; "refers"; "reference"; "references"; "referenced"; "used"; "use"; "uses"; "called"; "call"; "calls"; "exists";
   "exist"; "defect"; "bug"; "error"; "critical"; "high"; "medium"; "low"; "info"].
Definition NOT_A_CLAIM : list string :=
  ["undefined behaviour"; "undefined behavior"; "undefined-behaviour"; "undefined-behavior"].
Definition CLAIM_NOUNS : list string :=
  ["has"; "have"; "had"; "is"; "does"; "did"; "was"; "were"; "missing"; "return"; "returns"; "value"; "body"; "code";
   "function"; "method"; "line"; "lines"; "file"; "chunk"; "diff"; "the"; "and"; "or"; "no"; "not"; "never"].
Definition SYMBOL_KINDS : list string :=
  ["module"; "modules"; "package"; "packages"; "library"; "libraries"; "lib"; "import"; "imports"; "constant";
   "constants"; "variable"; "variables"; "symbol"; "symbols"; "helper"; "helpers"; "types"; "names"; "values"; "members";
   "references"].
Definition SOURCE_EXTENSIONS : list string :=
  [".rs"; ".py"; ".c"; ".h"; ".cc"; ".cpp"; ".hpp"; ".go"; ".js"; ".ts"; ".tsx"; ".jsx"; ".sh"; ".java"; ".kt"; ".rb";
   ".toml"; ".json"; ".yaml"; ".yml"; ".md"].
Definition NEVER_CLAIMED : list string :=
  ["nameerror"; "importerror"; "modulenotfounderror"; "keyerror"; "attributeerror"; "valueerror"; "typeerror"; "so"].

Definition in_words (l : list string) (w : string) : bool := bool_decide (w ∈ l).
Definition alnum := is_ascii_alphanumeric.
Definition not_alnum (c : ascii) : bool := negb (alnum c).
Definition not_ident (c : ascii) : bool := negb (ident_byte c).
Definition dotted_ident (c : ascii) : bool := ident_byte c || Ascii.eqb c ".".

Definition without_non_claims (lower : string) : string :=
  foldl (fun out phrase => str_replace phrase " " out) lower NOT_A_CLAIM.
Definition has_phrase (lower : string) : bool := existsb (fun p => str_contains p lower) CLAIM_PHRASES.
Definition claims_missing_return (lower : string) : bool :=
  str_contains "missing return" lower || str_contains "no return" lower
  || str_contains "does not return" lower || str_contains "never returns" lower.
Definition claims_missing_import (lower : string) : bool :=
  existsb (fun head_ => existsb (fun tail_ => str_contains (head_ +:+ "missing import" +:+ tail_) lower)
                          [""; " missing"; " is missing"; " omitted"])
    [""; "potential "; "possible "; "likely "; "an "; "a "]
  || (existsb (fun w => bool_decide (w = "import" \/ w = "imports")) (split_where not_alnum lower) && str_contains "missing" lower)
  || str_contains "not imported" lower || str_contains "isn't imported" lower || str_contains "never imports" lower
  || str_contains "never imported" lower || str_contains "unresolved" lower || str_contains "are imported" lower.
Definition claims_undefined (text : string) : bool :=
  let lower := without_non_claims (to_ascii_lowercase text) in has_phrase lower || claims_missing_import lower.
Definition claims_return_only (text : string) : bool :=
  let lower := without_non_claims (to_ascii_lowercase text) in
  claims_missing_return lower && negb (has_phrase lower) && negb (claims_missing_import lower).

(** ** One candidate *)

Definition kind_word (w : string) : bool := in_words SYMBOL_KINDS (to_ascii_lowercase w).
Definition strip_symbol_kind (name : string) : string :=
  let name := trim name in
  if kind_word name then ""
  else match rsplit_once " " name with
       | Some (head_, tail_) => if kind_word (trim_matches not_alnum tail_) then trim head_ else name
       | None => name
       end.
Definition looks_like_module_path (name : string) : bool :=
  str_has "." name && forallb (fun seg => negb (str_is_empty seg) && str_all ident_byte seg) (split_on "." name).
Definition is_path_like (raw : string) : bool :=
  let w := to_ascii_lowercase (piece_to ":" (trim_matches (char_in ["`"; "'"; quote; ","; ";"; "("; ")"; "."]%char) raw)) in
  str_has "/" w || str_has backslash w
  || existsb (fun ext => (String.length ext <? String.length w)%nat && ends_with ext w) SOURCE_EXTENSIONS.
Definition code_shaped (raw : string) : bool :=
  let word := trim_matches not_ident raw in
  str_has "_" raw || str_contains "::" raw || str_has "(" raw || str_has "`" raw || str_has "." raw
  || str_any (fun c => is_upper c || is_ascii_digit c) (str_drop 1 word)
  || (str_any is_upper word && str_any is_lower word).
Definition looks_like_symbol (word : string) : bool :=
  if (String.length word <? 2)%nat || in_words STOPWORDS (to_ascii_lowercase word) then false
  else if first_is is_ascii_digit word then false
  else str_any is_upper word || str_has "_" word || str_any is_lower word.

(** [s.rsplit(sep).next()] *)
Fixpoint after_last (sep s : string) : option string :=
  match s with
  | EmptyString => None
  | String _ r => or_opt (after_last sep r) (strip_prefix sep s)
  end.
Definition lower_prefix (segs : list string) : list string :=
  fst (foldl (fun '(out, go) seg => if (go : bool) && first_is is_lower seg then (out ++ [seg], true) else (out, false)) ([], true) segs).
Definition module_path_of (raw : string) : string :=
  let segs := split_on "." raw in
  match lower_prefix segs with
  | [] => default raw (head segs)
  | pre => join "." pre
  end.
(** What one raw token names, if anything. *)
Definition candidate (raw : string) : option string :=
  let raw := trim_matches (char_in ["`"; "'"; quote; ","; "."; ":"; ";"]%char) (trim raw) in
  let raw := piece_to "<" (piece_to "[" (piece_to "(" raw)) in
  let raw := default raw (after_last "::" raw) in
  let raw := strip_symbol_kind raw in
  let low := to_ascii_lowercase raw in
  if str_is_empty raw || is_path_like raw || in_words STOPWORDS low || in_words CLAIM_NOUNS low || in_words NEVER_CLAIMED low
  then None
  else
    let raw := if str_has "." raw && looks_like_module_path raw then module_path_of raw else piece_to "." raw in
    let low := to_ascii_lowercase raw in
    if (2 <=? String.length raw)%nat && str_all dotted_ident raw && looks_like_symbol (piece_to "." raw)
       && negb (in_words STOPWORDS low) && negb (in_words NEVER_CLAIMED low)
    then Some raw else None.
Definition add_one (out : list string) (raw : string) : list string :=
  match candidate raw with Some w => push_new out w | None => out end.
Definition alias_of (raw : string) : option string :=
  match split_whitespace raw with
  | _ :: as_ :: alias :: _ => if bool_decide (as_ = "as") then Some alias else None
  | _ => None
  end.
Definition add_claim (out : list string) (raw : string) : list string :=
  let raw := trim raw in
  match alias_of raw with
  | Some alias => add_one (add_one out alias) (default "" (head (split_whitespace raw)))
  | None => add_one out raw
  end.

(** ** The collectors

    Each is given the words of a sentence and their normal forms, and names
    raw tokens in the order the code adds them. *)

Definition nth_word (l : list string) (i : nat) : string := default "" (l !! i).
(** A word or a letter that stands for code in front of a claim phrase. *)
Definition subject_code (word : string) : bool :=
  str_has "_" word || str_has "(" word || str_has "`" word || str_has "." word || str_contains "::" word
  || str_any is_ascii_digit word || str_all is_lower word.
(** The walk back from the word at [subject - 1]; it never takes more steps
    than there are words before it. *)
Fixpoint subject_from (words norm : list string) (fuel subject : nat) : list string :=
  match fuel, subject with
  | S fuel, S s =>
      let word := trim_matches not_ident (nth_word words s) in
      if kind_word word then subject_from words norm fuel s
      else
        (if subject_code word then [word] else [])
        ++ match s with
           | O => []
           | S s' => if in_words ["and"; "or"] (nth_word norm s') then subject_from words norm fuel s'
                     else if ends_with "," (nth_word words s') then subject_from words norm fuel s
                     else []
           end
  | _, _ => []
  end.
(** The stop words between the subject and the phrase, three at most. *)
Fixpoint skip_stopwords (norm : list string) (steps subject : nat) : nat :=
  match steps, subject with
  | S steps, S s => if in_words STOPWORDS (nth_word norm s) then skip_stopwords norm steps s else subject
  | _, _ => subject
  end.
Definition collect_subject (words norm : list string) (start : nat) : list string :=
  subject_from words norm start (skip_stopwords norm 3 start).

Definition OBJECT_BREAKS : list string := ["in"; "from"; "at"; "when"; "by"; "into"; "on"; "of"; "to"; "for"; "within"].
Fixpoint collect_object (named : bool) (words : list string) : list string :=
  match words with
  | [] => []
  | word :: r =>
      let plain := to_ascii_lowercase (trim_matches not_alnum word) in
      if in_words OBJECT_BREAKS plain then []
      else if in_words STOPWORDS plain then
        if named && negb (in_words ["and"; "or"; "as"] plain) then [] else collect_object named r
      else if code_shaped word || str_has "." (trim_matches (fun c => negb (dotted_ident c)) word) || str_all is_lower plain
      then word :: collect_object true r
      else []
  end.

(** The positions at which a phrase stands in the normal forms. *)
Fixpoint phrase_at (pw norm : list string) : bool :=
  match pw, norm with
  | [], _ => true
  | p :: pw, w :: norm => bool_decide (p = w) && phrase_at pw norm
  | _ :: _, [] => false
  end.
Definition occurrences (pw norm : list string) : list nat :=
  filterb (fun i => phrase_at pw (drop i norm)) (seq 0 (length norm)).
Definition collect_phrase (words norm : list string) (phrase : string) : list string :=
  let pw := split_on " " phrase in
  concat (map (fun start =>
    (if negb (starts_with "does not" phrase) && negb (bool_decide (phrase = "nameerror")) then collect_subject words norm start else [])
    ++ collect_object false (drop (start + length pw) words)) (occurrences pw norm)).
Definition collect_after (words norm pw : list string) : list string :=
  concat (map (fun start => collect_object false (drop (start + length pw) words)) (occurrences pw norm)).

Definition claimable_name (norm : list string) (i : nat) : bool :=
  match norm !! i with
  | Some w =>
      (2 <=? String.length w)%nat && negb (in_words STOPWORDS w) && negb (in_words CLAIM_NOUNS w) && negb (in_words NEVER_CLAIMED w)
      && (str_has "_" w || str_any is_ascii_digit w || str_has "." w || (str_any is_upper w && str_any is_lower w))
  | None => false
  end.
Definition plain_name (w : string) : bool :=
  (2 <=? String.length w)%nat && negb (in_words STOPWORDS w) && negb (in_words SYMBOL_KINDS w).
(** "X is never imported": the walk back from the verb, five words at most. *)
Fixpoint never_imported_from (words norm : list string) (rounds b : nat) : list string :=
  match rounds with
  | O => []
  | S rounds =>
      let w := nth_word norm b in
      if bool_decide (w = "module") || in_words SYMBOL_KINDS w then
        let b := (b - 1)%nat in if plain_name (nth_word norm b) then [nth_word words b] else []
      else if in_words ["the"; "a"; "an"; "is"; "that"; "this"; "which"] w then never_imported_from words norm rounds (b - 1)
      else if plain_name w then [nth_word words b] else []
  end.
Definition pair_at (norm : list string) (a b : string) (i : nat) : bool :=
  bool_decide (norm !! i = Some a) && bool_decide (norm !! S i = Some b).
Definition at_pairs (norm : list string) (a b : string) : list nat := filterb (pair_at norm a b) (seq 0 (length norm)).
Definition collect_never_imported (words norm : list string) : list string :=
  concat (map (fun i => never_imported_from words norm 5 (i - 1)) (at_pairs norm "never" "imported")).
Definition collect_never_imports (words norm : list string) : list string :=
  concat (map (fun i =>
    let j := (if bool_decide (norm !! (i + 2)%nat = Some "the") then i + 3 else i + 2)%nat in
    if claimable_name norm j then [nth_word words j] else []) (at_pairs norm "never" "imports")).
Definition collect_is_unresolved (words norm : list string) : list string :=
  concat (map (fun i =>
    let w := nth_word norm (i - 1) in
    if (1 <=? i)%nat && plain_name w && negb (in_words NEVER_CLAIMED w) && str_all ident_byte w then [nth_word words (i - 1)] else [])
    (at_pairs norm "is" "unresolved")).
Definition position (w : string) (l : list string) : option nat := fst <$> list_find (fun x => x = w) l.
(** "Unresolved types: Alpha, Beta": every name after the noun. *)
Fixpoint after_types (seen : bool) (words norm : list string) : list string :=
  match words, norm with
  | word :: words, w :: norm =>
      if bool_decide (w = "types") then after_types true words norm
      else if negb seen || in_words STOPWORDS w then after_types seen words norm
      else let clean := trim_matches not_ident w in
           if (2 <=? String.length clean)%nat && str_all ident_byte clean then word :: after_types seen words norm
           else after_types seen words norm
  | _, _ => []
  end.
Definition collect_types (words norm : list string) : list string :=
  match position "unresolved" norm with
  | Some pos => after_types false (drop (S pos) words) (drop (S pos) norm)
  | None => []
  end.
Definition collect_type_list (lower : string) : list string :=
  match split_once_str "unresolved types" lower with
  | Some (_, rest) =>
      filterb (fun item => negb (str_is_empty item) && (String.length item <=? 80)%nat && negb (str_has " " item) && code_shaped item)
        (map (fun item => trim_matches (char_in [":"; "."; ";"; " "; "("; ")"; "`"; quote; "'"]%char) (trim item)) (split_on "," rest))
  | None => []
  end.
(** "... X import": the word before the noun, unless an article, a conjunction
    or "missing" stands there. *)
Definition collect_before_import_noun (words norm : list string) : list string :=
  concat (map (fun i =>
    if in_words ["import"; "imports"] (nth_word norm i) && (1 <=? i)%nat
       && negb (in_words ["the"; "a"; "an"; "and"; "missing"] (nth_word norm (i - 1)))
    then [nth_word words (i - 1)] else []) (seq 0 (length norm))).
Definition collect_missing_return (words norm : list string) : list string :=
  match position "return" norm with
  | Some i => if (2 <=? i)%nat && in_words ["missing"; "no"] (nth_word norm (i - 1)) then [nth_word words (i - 2)] else []
  | None => []
  end.

(** ** The symbols a finding claims *)

(** Every other piece, from the first or from the second. *)
Fixpoint every_other {A} (take_ : bool) (l : list A) : list A :=
  match l with
  | [] => []
  | x :: r => if take_ then x :: every_other false r else every_other true r
  end.
Definition quoted_names (sentence : string) (q : ascii) : list string :=
  filterb (fun inner => (String.length inner <=? 80)%nat && looks_like_symbol (trim inner)) (every_other false (split_on q sentence)).
Definition unquoted (sentence : string) : string :=
  join "" (map to_ascii_lowercase (every_other true (split_where (char_in [quote; "'"]%char) sentence))).
Definition norm_word (w : string) : string :=
  to_ascii_lowercase (trim_matches (fun c => negb (alnum c || Ascii.eqb c "'")) w).
Definition sentence_names (sentence : string) : list string :=
  let lower := without_non_claims (unquoted sentence) in
  if negb (has_phrase lower || claims_missing_import lower) then []
  else
    let words := split_whitespace sentence in
    let norm := map norm_word words in
    quoted_names sentence "`" ++ quoted_names sentence "'" ++ quoted_names sentence quote
    ++ concat (map (collect_phrase words norm) CLAIM_PHRASES)
    ++ collect_after words norm ["missing"; "import"]
    ++ collect_after words norm ["missing"; "imports"]
    ++ collect_after words norm ["import"; "of"]
    ++ collect_never_imported words norm
    ++ collect_never_imports words norm
    ++ collect_is_unresolved words norm
    ++ collect_types words norm
    ++ collect_type_list lower
    ++ collect_before_import_noun words norm
    ++ collect_missing_return words norm.
Definition finding_text (title body : string) : string := title +:+ String newline body.
Definition sentences (text : string) : list string :=
  lines (foldl (fun t p => str_replace (p +:+ " ") (p +:+ String newline "") t) text ["."; ";"; "?"; "!"]).
Definition claimed_symbols (title body : string) : list string :=
  foldl add_claim [] (concat (map sentence_names (sentences (finding_text title body)))).

(** The [module as alias] pairs of the text. *)
Definition alias_clean (w : string) : string := trim_matches (fun c => negb (dotted_ident c)) w.
Definition alias_triple (words : list string) (i : nat) : option (string * string) :=
  let module := alias_clean (nth_word words i) in
  let alias := alias_clean (nth_word words (i + 2)) in
  if bool_decide (trim_matches not_alnum (nth_word words (i + 1)) = "as")
     && negb (str_is_empty module) && negb (str_is_empty alias) && negb (bool_decide (module = alias))
  then Some (module, alias) else None.
Definition push_pair (out : list (string * string)) (p : string * string) : list (string * string) :=
  if bool_decide (p ∈ out) then out else out ++ [p].
Definition claimed_alias_pairs (title body : string) : list (string * string) :=
  let words := split_whitespace (finding_text title body) in
  foldl push_pair [] (omap (alias_triple words) (seq 0 (length words - 2))).

(** The options a finding says are not accepted. *)
Definition OPTION_PHRASES : list string :=
  ["not defined"; "does not define"; "does not accept"; "does not recognize"; "does not recognise"; "not accepted";
   "not recognized"; "not recognised"; "unrecognized"; "unrecognised"; "unknown option"; "unknown argument"].
Fixpoint missing_option (ws : list string) : bool :=
  match ws with
  | a :: (b :: _) as r =>
      (bool_decide (a = "missing") && starts_with "-" (skip_while (char_in ["`"; "'"; quote]%char) b)) || missing_option r
  | _ => false
  end.
Definition valid_option (token : string) : bool :=
  match strip_prefix "--" token with Some s => first_is alnum s | None => false end
  || ((String.length token =? 2)%nat && starts_with "-" token && first_is alnum (str_drop 1 token)).
Definition sentence_options (sentence : string) : list string :=
  let lower := to_ascii_lowercase sentence in
  if missing_option (split_whitespace lower) || existsb (fun p => str_contains p lower) OPTION_PHRASES then
    filterb valid_option (split_where (fun c => negb (alnum c || Ascii.eqb c "-" || Ascii.eqb c "_")) sentence)
  else [].
Definition claimed_options (title body : string) : list string :=
  foldl push_new [] (concat (map sentence_options (lines (str_replace ". " (String newline "") (finding_text title body))))).

(** ** Options a source defines *)

Inductive Token := TWord (w : string) | TString (v : string) | TPunct (b : ascii).

(** Inside a literal: its value, whether it has an escape, whether it is
    closed, what follows, and the line reached. *)
Fixpoint scan_literal (close : string) (s : string) (line : nat) : string * bool * bool * string * nat :=
  match s with
  | EmptyString => ("", false, false, "", line)
  | String c r =>
      if Ascii.eqb c backslash then
        match r with
        | EmptyString => ("", true, false, "", line)
        | String d r' =>
            let '(v, _, closed, rest, l) := scan_literal close r' (if Ascii.eqb d newline then S line else line) in
            (v, true, closed, rest, l)
        end
      else
        let line := if Ascii.eqb c newline then S line else line in
        if starts_with close s then ("", false, true, str_drop (String.length close) s, line)
        else let '(v, escaped, closed, rest, l) := scan_literal close r line in (String c v, escaped, closed, rest, l)
  end.
Definition tripled (q : ascii) : string := String q (String q (String q "")).
(** Every round consumes a byte, so the length of the source is enough. *)
Fixpoint tokens (fuel line : nat) (s : string) : list (Token * nat) :=
  match fuel, s with
  | S fuel, String c r =>
      if Ascii.eqb c "#" then tokens fuel line (skip_while (fun d => negb (Ascii.eqb d newline)) s)
      else if Ascii.eqb c newline then tokens fuel (S line) r
      else if char_in [" "%char; tab; Ascii.ascii_of_nat 13] c then tokens fuel line r
      else if char_in [quote; "'"%char] c then
        let triple := starts_with (tripled c) s in
        let close := if triple then tripled c else String c "" in
        let '(v, escaped, closed, rest, l) := scan_literal close (str_drop (String.length close) s) line in
        (TString (if negb triple && negb escaped && closed then v else ""), line) :: tokens fuel l rest
      else if is_ascii_alpha c || Ascii.eqb c "_" then
        (TWord (take_while ident_byte s), line) :: tokens fuel line (skip_while ident_byte s)
      else (TPunct c, line) :: tokens fuel line r
  | _, _ => []
  end.
Definition is_punct (b : ascii) (t : option Token) : bool :=
  match t with Some (TPunct c) => Ascii.eqb b c | _ => false end.
(** The leading positional literals of a call, after its parenthesis. *)
Fixpoint has_argument (option_ : string) (toks : list (Token * nat)) : bool :=
  match toks with
  | (TString v, _) :: (TPunct p, _) :: r =>
      char_in [","; ")"]%char p && (bool_decide (v = option_) || (Ascii.eqb p "," && has_argument option_ r))
  | _ => false
  end.
Fixpoint option_call (option_ : string) (p2 p1 : option Token) (toks : list (Token * nat)) : option nat :=
  match toks with
  | [] => None
  | (t, line) :: r =>
      let here :=
        match t with
        | TWord name =>
            let method := in_words ["add_argument"; "add_option"] name && is_punct "." p1 in
            let click := bool_decide (name = "option") && is_punct "." p1
                         && match p2 with Some (TWord w) => bool_decide (w = "click") | _ => false end in
            (method || click)
            && match r with (TPunct p, _) :: args => Ascii.eqb p "(" && has_argument option_ args | _ => false end
        | _ => false
        end in
      if here then Some line else option_call option_ p1 (Some t) r
  end.
Definition evidence_line (path : string) (i : nat) (line : string) : string := path +:+ ":" +:+ line_no (S i) +:+ ": " +:+ trim line.
Definition option_evidence (path source option_ : string) : option string :=
  line ← option_call option_ None None (tokens (String.length source) 1 source);
  evidence_line path (line - 1) <$> lines source !! (line - 1)%nat.

(** ** Names a source defines *)

Definition is_import_line (line : string) : bool :=
  existsb (fun p => starts_with p (trim_start line)) ["use "; "pub use "; "import "; "from "; "#include"; "require "; "using "].
Definition top_level (line : string) : bool := bool_decide (trim_start line = line) && negb (str_is_empty (trim line)).
(** A line that binds the name for the whole file. *)
Definition binds_file_wide (symbol line : string) : bool :=
  (is_import_line line && in_words (imported_names line) symbol)
  || (top_level line && in_words (extract_defs line ++ option_list (const_name line)) symbol).
Fixpoint find_line (p : nat -> string -> bool) (i : nat) (ls : list string) : option (nat * string) :=
  match ls with
  | [] => None
  | l :: r => if p i l then Some (i, l) else find_line p (S i) r
  end.
(** The definition around the line a finding points at, and the lines from it
    down to that line. *)
Definition target_index (ls : list string) (target : nat) : nat := Nat.min (target - 1) (length ls - 1).
Definition scope_start (ls : list string) (target : nat) : option nat :=
  let indent := indent_of (nth_word ls (target_index ls target)) in
  find_first (fun i => is_def_line (nth_word ls i) && (indent_of (nth_word ls i) <? indent)%nat) (rev (seq 0 (target_index ls target))).
Definition binds_in_scope (symbol : string) (scope_idx target_idx i : nat) (line : string) : bool :=
  (scope_idx <=? i)%nat && (i <=? target_idx)%nat
  && in_words (if (i =? scope_idx)%nat then params_of line else bindings_in line) symbol.
Definition line_evidence (path source symbol : string) (target_line : option nat) : option string :=
  let ls := lines source in
  match find_line (fun _ => binds_file_wide symbol) 0 ls with
  | Some (i, l) => Some (evidence_line path i l)
  | None =>
      target ← target_line;
      scope_idx ← scope_start ls target;
      '(i, l) ← find_line (binds_in_scope symbol scope_idx (target_index ls target)) 0 ls;
      Some (evidence_line path i l)
  end.

(** ** The files an import line may name *)

Definition parent_dir (path : string) : string := match rsplit_once "/" path with Some (d, _) => d | None => "" end.
Definition join_dir (base rest : string) : string := if str_is_empty base then rest else base +:+ "/" +:+ rest.
Definition with_source_extensions (base : string) : list string :=
  map (fun ext => base +:+ "." +:+ ext) ["py"; "rs"; "ts"; "tsx"; "js"; "jsx"; "go"; "h"; "hpp"]
  ++ map (fun index => base +:+ "/" +:+ index) ["__init__.py"; "mod.rs"; "index.ts"; "index.js"].
Definition module_files (dir module : string) (relative_to_file : bool) : list string :=
  let module := trim_end_matches (Ascii.eqb "*") (trim_end_str "::*" (trim module)) in
  let module := trim_matches (char_in ["{"; "}"; " "]%char) module in
  if str_is_empty module || bool_decide (module = "*") then []
  else
    let module := str_replace "." "/" (str_replace "::" "/" module) in
    let base := if relative_to_file then join_dir dir module else module in
    if str_is_empty base then []
    else with_source_extensions base ++ (if relative_to_file then [] else with_source_extensions (join_dir dir module)).
Definition skip_dots (s : string) : string := skip_while (Ascii.eqb ".") s.
Definition piece_before (sep s : string) : string := match split_once_str sep s with Some (a, _) => a | None => s end.
Definition use_files (path rest : string) : list string :=
  let dir := parent_dir path in
  let rest := trim_end_matches (Ascii.eqb ";") rest in
  let before_braces := piece_before "::{" rest in
  let parts := split_str "::" before_braces in
  let module :=
    if match last parts with Some p => str_has "}" p | None => false end then piece_before "::{" (join "::" parts)
    else if (1 <? length parts)%nat then join "::" (removelast parts)
    else rest in
  let module := trim_start_str "self::" (trim_start_str "super::" (trim_start_str "crate::" module)) in
  module_files dir module (starts_with "src/" path || negb (starts_with "src" module))
  ++ (if starts_with "src" module then [] else module_files dir ("src/" +:+ module) false).
Definition import_files (path line : string) : list string :=
  let dir := parent_dir path in
  let t := trim_end_matches (Ascii.eqb ";") (trim line) in
  match strip_prefix "from " t with
  | Some rest => let module := piece_before " import " rest in module_files dir (skip_dots module) (starts_with "." module)
  | None =>
      match strip_prefix "import " t with
      | Some rest =>
          let module := piece_before " from " (trim (piece_before " as " rest)) in
          module_files dir (trim_matches (char_in ["{"; "}"]%char) (skip_dots module)) (starts_with "." module)
      | None =>
          match or_opt (strip_prefix "pub use " t) (strip_prefix "use " t) with
          | Some rest => use_files path rest
          | None =>
              match strip_prefix "#include" t with
              | Some rest =>
                  let module := trim_matches (char_in ["<"; ">"; quote]%char) (trim rest) in
                  if str_is_empty module then [] else [module; join_dir dir module]
              | None =>
                  match strip_prefix "require " t with
                  | Some rest =>
                      let module := trim_matches (char_in ["("; ")"; "'"; quote]%char) (trim rest) in
                      if starts_with "." module then with_source_extensions (join_dir dir (skip_dots module)) else []
                  | None => []
                  end
              end
          end
      end
  end.
Definition import_paths (path line : string) : list string := dedup_adjacent (sort_by String.compare (import_files path line)).
Definition import_mentions (line symbol : string) : bool :=
  in_words (imported_names line) symbol || str_has "*" line || str_has "{" line.

(** ** Evidence for one name *)

Definition SHADER_BUILTINS : list string :=
  ["iTime"; "iTimeDelta"; "iFrame"; "iFrameRate"; "iResolution"; "iMouse"; "iDate"; "iSampleRate"; "iChannel0";
   "iChannel1"; "iChannel2"; "iChannel3"; "iChannelResolution"; "iChannelTime"; "mainImage"; "mainVR"; "fract"; "mix";
   "clamp"; "smoothstep"; "step"; "length"; "normalize"; "dot"; "cross"; "sin"; "cos"; "tan"; "asin"; "acos"; "atan";
   "pow"; "exp"; "exp2"; "log"; "log2"; "sqrt"; "inversesqrt"; "abs"; "sign"; "floor"; "ceil"; "round"; "trunc"; "mod";
   "min"; "max"; "reflect"; "refract"; "texture"; "texture2D"; "textureLod"; "dFdx"; "dFdy"; "fwidth"; "distance";
   "degrees"; "radians"; "transpose"; "inverse"; "determinant"; "vec2"; "vec3"; "vec4"; "ivec2"; "ivec3"; "ivec4";
   "uvec2"; "uvec3"; "uvec4"; "bvec2"; "bvec3"; "bvec4"; "mat2"; "mat3"; "mat4"; "mat2x2"; "mat3x3"; "mat4x4"; "float";
   "int"; "uint"; "bool"; "sampler2D"; "samplerCube"; "gl_FragColor"; "gl_FragCoord"; "gl_FragData"; "gl_Position";
   "gl_PointCoord"; "discard"].
Definition PY_BUILTINS : list string :=
  ["self"; "cls"; "str"; "int"; "float"; "bool"; "list"; "dict"; "set"; "tuple"; "bytes"; "len"; "range"; "print";
   "isinstance"; "getattr"; "setattr"; "hasattr"; "super"; "enumerate"; "zip"; "sorted"; "min"; "max"; "sum"; "abs";
   "round"; "open"; "repr"; "format"; "type"; "object"; "Exception"; "ValueError"; "TypeError"; "KeyError";
   "RuntimeError"; "None"; "True"; "False"].

Definition is_shader_path (path : string) : bool :=
  existsb (fun ext => ends_with ext (to_ascii_lowercase path)) [".glsl"; ".glslf"; ".glslv"; ".frag"; ".vert"; ".comp"; ".shader"].
Definition shader_head (symbol : string) : string := trim (piece_to "(" (piece_to "[" (piece_to "." (trim symbol)))).
(** The reason a name is taken to be bound, and the evidence printed. *)
Inductive BoundReason := BoundHere | BoundInModule | ImportedHere | ShaderBuiltin (head_ : string) | OptionHere | Returns.
Definition shader_builtin_evidence (path symbol : string) : option (BoundReason * string) :=
  if is_shader_path path then
    let head_ := shader_head symbol in
    if negb (str_is_empty head_) && in_words SHADER_BUILTINS head_ then
      Some (ShaderBuiltin head_,
            path +:+ ": `" +:+ head_ +:+ "` needs no declaration in the reviewed hunk; the Shadertoy preamble and the GLSL built-ins provide it")
    else None
  else None.

Section Evidence.
Variable read : string -> option string.

Definition module_evidence (path symbol line : string) : option string :=
  find_map (fun candidate_path =>
    if bool_decide (candidate_path = path) then None
    else text ← read candidate_path; line_evidence candidate_path text symbol None) (import_paths path line).
Definition definition_evidence_at (path source symbol : string) (target_line : option nat) : option (BoundReason * string) :=
  match line_evidence path source symbol target_line with
  | Some e => Some (BoundHere, e)
  | None =>
      e ← find_map (fun line => if is_import_line line && import_mentions line symbol then module_evidence path symbol line else None)
            (lines source);
      Some (BoundInModule, e)
  end.
(** The shorter and shorter prefixes of a dotted name, the name first. *)
Fixpoint dotted_heads (fuel : nat) (name : string) : list string :=
  match fuel, rsplit_once "." name with
  | S fuel, Some (head_, _) => name :: dotted_heads fuel head_
  | _, _ => [name]
  end.
Definition prefix_evidence (path source prefix : string) : option (BoundReason * string) :=
  '(i, l) ← find_line (fun _ line => is_import_line line && in_words (imported_names line) prefix) 0 (lines source);
  Some (ImportedHere, evidence_line path i l).
Definition name_evidence (path source symbol : string) (target_line : option nat) : option (BoundReason * string) :=
  or_opt (shader_builtin_evidence path symbol)
    (or_opt (definition_evidence_at path source symbol target_line)
       (find_map (prefix_evidence path source) (dotted_heads (String.length symbol) symbol))).
End Evidence.

(** ** The lines a finding cites *)

Definition usize_or_0 (digits : string) : Z := default 0 (parse_u64_std digits).
Definition range_gap (c : ascii) : bool := char_in ["-"; ","; " "]%char c.
(** En and em dashes count as hyphens. *)
Definition plain_dashes (s : string) : string :=
  let dash n := String (Ascii.ascii_of_nat 226) (String (Ascii.ascii_of_nat 128) (String (Ascii.ascii_of_nat n) "")) in
  str_replace (dash 148%nat) "-" (str_replace (dash 147%nat) "-" s).
(** Every round consumes a byte. *)
Fixpoint range_specs_from (fuel : nat) (s : string) : list (Z * Z) :=
  match fuel, s with
  | S fuel, String c r =>
      if is_ascii_digit c then
        let first := usize_or_0 (take_while is_ascii_digit s) in
        let after := skip_while is_ascii_digit s in
        let gap := take_while range_gap after in
        let after_gap := skip_while range_gap after in
        let rest := if negb (str_is_empty gap) && starts_with "l" after_gap then str_drop 1 after_gap else after_gap in
        let second := take_while is_ascii_digit rest in
        if str_is_empty gap || str_is_empty second then range_specs_from fuel after
        else
          let tail_ := range_specs_from fuel (skip_while is_ascii_digit rest) in
          if (1 <=? first) && (first <=? usize_or_0 second) then (first, usize_or_0 second) :: tail_ else tail_
      else range_specs_from fuel r
  | _, _ => []
  end.
Definition range_specs (text : string) : list (Z * Z) :=
  let lower := plain_dashes (to_ascii_lowercase text) in range_specs_from (String.length lower) lower.
Definition cited_range (title body : string) (location : option string) (target_line : option nat) (line_count : nat) :
  option (nat * nat) :=
  let n := Z.of_nat line_count in
  match find_first (fun r => (1 <=? r.1) && (r.1 <=? n)) (concat (map range_specs (option_list location ++ [title; body]))) with
  | Some (a, b) => Some (Z.to_nat a, Z.to_nat (Z.max (Z.min b n) a))
  | None => (fun l => (l, l)) <$> opt_filter (fun l => (1 <=? l)%nat && (l <=? line_count)%nat) target_line
  end.

(** ** A claim without a name *)

Definition range_name (word : string) : option string :=
  let word := trim_matches (Ascii.eqb ".") word in
  let head_ := piece_to "." word in
  let is_constant := str_all upper_digit head_ && str_any is_upper head_ && (2 <=? String.length head_)%nat in
  let is_module := str_has "." word && negb is_constant && str_all is_lower head_ in
  if str_is_empty word || negb (is_constant || is_module) || in_words PY_BUILTINS head_ then None else Some head_.
Definition line_names (line : string) : list string :=
  omap range_name (split_where (fun c => negb (dotted_ident c)) (piece_before " #" line)).
Definition binds_locally (name line : string) : bool := in_words (params_of line) name || in_words (bindings_in line) name.
Fixpoint bind_names (path full : string) (start : nat) (range : list string) (names : list string) :
  option (list (string * BoundReason * string)) :=
  match names with
  | [] => Some []
  | name :: r =>
      if existsb (binds_locally name) range then bind_names path full start range r
      else
        '(reason, evidence) ← name_evidence (fun _ => None) path full name (Some (S start));
        rest ← bind_names path full start range r;
        Some ((name, reason, evidence) :: rest)
  end.
Definition range_names (range : list string) : list string := foldl push_new [] (concat (map line_names range)).
Definition range_lines (ls : list string) (a b : nat) : list string := take (Nat.min b (length ls) - (a - 1)) (drop (a - 1) ls).
Definition range_binding_evidence (path : string) (ls : list string) (range : nat * nat) : option (list (string * BoundReason * string)) :=
  let start := (range.1 - 1)%nat in
  let cited := range_lines ls range.1 range.2 in
  if (Nat.min range.2 (length ls) <=? start)%nat then None
  else match range_names cited with
       | [] => None
       | names =>
           out ← bind_names path (join (String newline "") ls) start cited names;
           match out with [] => None | _ => Some out end
       end.

(** ** Missing returns *)

Definition return_claim (norm : list string) (i : nat) : bool :=
  bool_decide (norm !! i = Some "return")
  && (((1 <=? i)%nat && in_words ["missing"; "no"] (nth_word norm (i - 1)))
      || ((2 <=? i)%nat && bool_decide (norm !! (i - 1)%nat = Some "and"))).
Fixpoint return_subject (norm : list string) (subject : nat) : nat :=
  match subject with
  | O => O
  | S s => if in_words STOPWORDS (nth_word norm s) || in_words ["has"; "have"; "had"; "is"; "does"; "did"] (nth_word norm s)
           then return_subject norm s else subject
  end.
Definition return_function (words norm : list string) (i : nat) : option string :=
  if return_claim norm i then
    match return_subject norm (i - 1) with
    | O => None
    | S s =>
        let name := trim_matches not_ident (nth_word words s) in
        if (2 <=? String.length name)%nat && first_is (fun c => is_ascii_alpha c || Ascii.eqb c "_") name && str_all ident_byte name
           && (str_has "_" name || str_any is_upper name)
        then Some name else None
    end
  else None.
Definition sentence_functions (sentence : string) : list string :=
  let words := split_whitespace sentence in
  let norm := map (fun w => to_ascii_lowercase (trim_matches not_ident w)) words in
  omap (return_function words norm) (seq 0 (length norm)).
Definition claimed_missing_return (title body : string) : list string :=
  foldl push_new [] (concat (map sentence_functions
    (split_where (char_in ["."%char; ";"%char; newline]) (finding_text title body)))).

Definition returns_value (trimmed : string) : bool :=
  match strip_prefix "return" trimmed with
  | Some rest => negb (str_is_empty (trim rest)) && negb (bool_decide (trim rest = ";"))
  | None => false
  end.
(** The first line of the body that returns a value, up to the next definition
    that is not deeper. *)
Fixpoint body_return (indent i : nat) (ls : list string) : option (nat * string) :=
  match ls with
  | [] => None
  | l :: r =>
      let trimmed := trim l in
      if str_is_empty trimmed then body_return indent (S i) r
      else if (indent_of l <=? indent)%nat && negb (starts_with ")" trimmed) && is_def_line l then None
      else if returns_value trimmed then Some (i, l)
      else body_return indent (S i) r
  end.
Definition defines_function (name line : string) : bool := is_def_line line && in_words (extract_defs line) name.
Definition function_return_evidence (path source name : string) : option string :=
  let ls := lines source in
  '(start, def_line) ← find_line (fun _ => defines_function name) 0 ls;
  '(i, l) ← body_return (indent_of def_line) (S start) (drop (S start) ls);
  Some (evidence_line path i l).

(** ** The decision on a finding *)

Record FilteredRecord := mkFiltered {
  fr_title : string;
  fr_location : string;
  fr_symbol : string;
  fr_symbols : list string;
  fr_reason : BoundReason;
  fr_evidence : string;
  fr_evidence_lines : option (list string)
}.

Fixpoint collect_all {A B} (f : A -> option B) (l : list A) : option (list B) :=
  match l with
  | [] => Some []
  | x :: r => y ← f x; ys ← collect_all f r; Some (y :: ys)
  end.

Section Decision.
Variable read : string -> option string.

Definition name_bound (path source : string) (target : option nat) (s : string) : bool :=
  bool_decide (is_Some (name_evidence read path source s target)).
(** An [X as Y] claim names one thing: the member the file binds, else the
    module. *)
Definition collapse (path source : string) (target : option nat) (symbols : list string) (p : string * string) : list string :=
  let '(module, alias) := p in
  let representative := if name_bound path source target module then module
                        else if name_bound path source target alias then alias else module in
  push_new (filterb (fun s => negb (bool_decide (s = module)) && negb (bool_decide (s = alias))) symbols) representative.
Definition symbol_evidence (path source : string) (target : option nat) (s : string) : option (string * BoundReason * string) :=
  if starts_with "-" s then (fun e => (s, OptionHere, e)) <$> option_evidence path source s
  else (fun '(r, e) => (s, r, e)) <$> name_evidence read path source s target.
Definition decision_symbols (title body path source : string) (target : option nat) : list string :=
  foldl (collapse path source target) (claimed_symbols title body ++ claimed_options title body) (claimed_alias_pairs title body).

Definition false_undefined_record_with_location (title body path : string) (location : option string) (target_line : option nat) :
  option FilteredRecord :=
  let options := claimed_options title body in
  let text := finding_text title body in
  let return_only := claims_return_only text in
  if str_is_empty (trim path) || (negb (claims_undefined text) && bool_decide (options = []) && negb return_only) then None
  else
    let path := trim_start_str "./" (trim path) in
    source ← read path;
    let ls := lines source in
    let range := cited_range title body location target_line (length ls) in
    let symbols := decision_symbols title body path source target_line in
    disproved ← collect_all (symbol_evidence path source target_line) symbols;
    let functions := claimed_missing_return title body in
    extra ← collect_all (function_return_evidence path source) functions;
    if bool_decide (symbols = []) && bool_decide (extra = []) && negb return_only then
      range ← range;
      bound ← range_binding_evidence path ls range;
      match bound with
      | [] => None
      | (symbol, reason, evidence) :: bound =>
          Some (mkFiltered title path symbol (map (fun b => b.1.1) bound ++ [symbol]) reason evidence
                  (Some (map snd bound ++ [evidence])))
      end
    else
      match disproved with
      | [] =>
          match functions, extra with
          | f :: _, e :: _ => Some (mkFiltered title path f functions Returns e (Some extra))
          | _, _ => None
          end
      | (symbol, reason, evidence) :: _ =>
          Some (mkFiltered title path symbol symbols reason evidence
                  (match extra with [] => None | _ => Some (evidence :: extra) end))
      end.
End Decision.

(** * Theorems *)

Lemma in_words_spec l w : in_words l w = true <-> w ∈ l.
Proof. apply bool_decide_eq_true. Qed.

Lemma find_map_some {A B} (f : A -> option B) l : is_Some (find_map f l) <-> exists x, x ∈ l /\ is_Some (f x).
Proof.
  induction l as [|x l IH]; cbn.
  { split; [by intros [? ?]|]. intros (x & Hx & _). by apply not_elem_of_nil in Hx. }
  destruct (f x) as [y|] eqn:E.
  - split; [intros _; exists x; rewrite E; split; [by left|done]|done].
  - rewrite IH. setoid_rewrite elem_of_cons. split; [naive_solver|]. intros (z & [->|Hz] & Hs); [|by exists z].
    rewrite E in Hs. by destruct Hs.
Qed.
Lemma or_opt_some {A} (a b : option A) : is_Some (or_opt a b) <-> is_Some a \/ is_Some b.
Proof. destruct a; cbn; split; naive_solver. Qed.

Lemma find_line_some p ls : forall n i l,
  find_line p n ls = Some (i, l) -> (n <= i)%nat /\ ls !! (i - n)%nat = Some l /\ p i l = true.
Proof.
  induction ls as [|x ls IH]; intros n i l; cbn [find_line]; [done|].
  destruct (p n x) eqn:Hp.
  - intros [= <- <-]. rewrite Nat.sub_diag. done.
  - intros H%IH. destruct H as (Hn & Hl & Hpi). split; [lia|]. replace (i - n)%nat with (S (i - S n)) by lia. done.
Qed.
Lemma find_line_found p ls n : is_Some (find_line p n ls) <-> exists i l, ls !! i = Some l /\ p (n + i)%nat l = true.
Proof.
  revert n. induction ls as [|x ls IH]; intros n; cbn [find_line].
  { split; [by intros [? ?]|]. by intros (i & l & Hl & _). }
  destruct (p n x) eqn:Hp.
  - split; [intros _|done]. exists 0%nat, x. by rewrite Nat.add_0_r.
  - rewrite IH. split.
    + intros (i & l & Hl & H). exists (S i), l. rewrite Nat.add_succ_r. done.
    + intros ([|i] & l & Hl & H).
      * cbn in Hl. rewrite Nat.add_0_r in H. congruence.
      * exists i, l. rewrite Nat.add_succ_r in H. done.
Qed.

(** ** What it means that a name is bound *)

(** Some line of the source binds the name for the whole file. *)
Definition file_binds (source symbol : string) : Prop := exists l, l ∈ lines source /\ binds_file_wide symbol l = true.
(** Some line between the definition around the target line and that line
    binds it: a parameter of the definition, or a local of its body. *)
Definition scope_binds (source symbol : string) (target : nat) : Prop :=
  exists sc i l, scope_start (lines source) target = Some sc /\ lines source !! i = Some l
                 /\ binds_in_scope symbol sc (target_index (lines source) target) i l = true.
Inductive bound (read : string -> option string) (path source : string) (target : option nat) (symbol : string) : Prop :=
  | bound_shader : is_shader_path path = true -> shader_head symbol <> "" -> shader_head symbol ∈ SHADER_BUILTINS ->
      bound read path source target symbol
  | bound_file : file_binds source symbol -> bound read path source target symbol
  | bound_scope t : target = Some t -> scope_binds source symbol t -> bound read path source target symbol
  | bound_module l p text : l ∈ lines source -> is_import_line l = true -> import_mentions l symbol = true ->
      p ∈ import_paths path l -> p <> path -> read p = Some text -> file_binds text symbol ->
      bound read path source target symbol
  | bound_prefix l q : l ∈ lines source -> is_import_line l = true -> q ∈ imported_names l ->
      q ∈ dotted_heads (String.length symbol) symbol -> bound read path source target symbol.

Lemma line_evidence_some path source symbol target :
  is_Some (line_evidence path source symbol target)
  <-> file_binds source symbol \/ exists t, target = Some t /\ scope_binds source symbol t.
Proof.
  unfold line_evidence. cbn zeta.
  assert (Hf : is_Some (find_line (fun _ => binds_file_wide symbol) 0 (lines source)) <-> file_binds source symbol).
  { rewrite find_line_found. unfold file_binds. setoid_rewrite list_elem_of_lookup. naive_solver. }
  destruct (find_line _ 0 (lines source)) as [[i l]|] eqn:E.
  { split; [intros _; left; by apply Hf|done]. }
  destruct target as [t|]; cbn; [|split; [by intros [? ?]|]].
  2: { intros [H%Hf|(t & ? & _)]; [by destruct H|done]. }
  assert (Hs : is_Some (scope_idx ← scope_start (lines source) t;
     '(i, l) ← find_line (binds_in_scope symbol scope_idx (target_index (lines source) t)) 0 (lines source);
     Some (evidence_line path i l)) <-> scope_binds source symbol t).
  { unfold scope_binds. destruct (scope_start (lines source) t) as [sc|]; cbn.
    - pose proof (find_line_found (binds_in_scope symbol sc (target_index (lines source) t)) (lines source) 0) as Hfl.
      destruct (find_line (binds_in_scope _ _ _) 0 (lines source)) as [[i l]|]; cbn; split.
      + intros _. destruct Hfl as [Hfl _]. destruct (Hfl ltac:(done)) as (i' & l' & Hl & Hb). exists sc, i', l'. done.
      + intros _. by eexists.
      + by intros [? ?].
      + intros (sc' & i' & l' & [= <-] & Hl & Hb). destruct (proj2 Hfl) as [? ?]; [by exists i', l'|done].
    - split; [by intros [? ?]|]. intros (? & ? & ? & ? & _). done. }
  rewrite Hs. split; [intros ?; right; by exists t|]. intros [H%Hf|(t' & [= <-] & H)]; [by destruct H|done].
Qed.

(** The evidence a file gives is one of its own lines, with its number. *)
Theorem evidence_is_a_line path source symbol target e : line_evidence path source symbol target = Some e ->
  exists i l, lines source !! i = Some l /\ e = path +:+ ":" +:+ line_no (S i) +:+ ": " +:+ trim l
              /\ (binds_file_wide symbol l = true \/ symbol ∈ params_of l \/ symbol ∈ bindings_in l).
Proof.
  unfold line_evidence. cbn zeta. destruct (find_line _ 0 (lines source)) as [[i l]|] eqn:E.
  { intros [= <-]. apply find_line_some in E as (_ & Hl & Hb). rewrite Nat.sub_0_r in Hl. exists i, l. auto. }
  destruct target as [t|]; cbn; [|done]. destruct (scope_start _ t) as [sc|]; cbn; [|done].
  destruct (find_line (binds_in_scope _ _ _) 0 (lines source)) as [[i l]|] eqn:E'; cbn; [|done]. intros [= <-].
  apply find_line_some in E' as (_ & Hl & Hb). rewrite Nat.sub_0_r in Hl. exists i, l. split; [done|]. split; [done|].
  unfold binds_in_scope in Hb. apply andb_true_iff in Hb as [_ Hb]. apply in_words_spec in Hb. case_match; auto.
Qed.

(** A name has evidence exactly when it is bound: by the file, by the
    definition around the cited line, by a file an import line names, by the
    import of one of its dotted prefixes, or by the shader preamble. *)
Theorem name_evidence_iff read path source symbol target :
  is_Some (name_evidence read path source symbol target) <-> bound read path source target symbol.
Proof.
  assert (Hsh : is_Some (shader_builtin_evidence path symbol)
    <-> is_shader_path path = true /\ shader_head symbol <> "" /\ shader_head symbol ∈ SHADER_BUILTINS).
  { unfold shader_builtin_evidence. destruct (is_shader_path path); [|split; [by intros [? ?]|by intros [? _]]].
    rewrite <- (in_words_spec SHADER_BUILTINS).
    destruct (shader_head symbol) as [|c h] eqn:Eh; [split; [by intros [? ?]|naive_solver]|].
    cbn [str_is_empty negb andb]. destruct (in_words _ _); split; try naive_solver; by intros [? ?]. }
  assert (Hmod : is_Some (find_map (fun line => if is_import_line line && import_mentions line symbol
                                   then module_evidence read path symbol line else None) (lines source))
    <-> exists l p text, l ∈ lines source /\ is_import_line l = true /\ import_mentions l symbol = true
        /\ p ∈ import_paths path l /\ p <> path /\ read p = Some text /\ file_binds text symbol).
  { rewrite find_map_some. split.
    - intros (l & Hl & Hs). destruct (is_import_line l) eqn:Hi, (import_mentions l symbol) eqn:Hm; cbn in Hs; try by destruct Hs.
      unfold module_evidence in Hs. apply find_map_some in Hs as (p & Hp & Hs). case_bool_decide; [by destruct Hs|].
      destruct (read p) as [text|] eqn:Hr; cbn in Hs; [|by destruct Hs]. apply line_evidence_some in Hs as [Hf|(t & ? & _)]; [|done].
      exists l, p, text. auto 10.
    - intros (l & p & text & Hl & Hi & Hm & Hp & Hne & Hr & Hf). exists l. split; [done|]. rewrite Hi, Hm. cbn.
      apply find_map_some. exists p. split; [done|]. rewrite bool_decide_false by done. rewrite Hr. cbn.
      apply line_evidence_some. by left. }
  assert (Hpre : is_Some (find_map (prefix_evidence path source) (dotted_heads (String.length symbol) symbol))
    <-> exists q l, q ∈ dotted_heads (String.length symbol) symbol /\ l ∈ lines source /\ is_import_line l = true /\ q ∈ imported_names l).
  { rewrite find_map_some. split.
    - intros (q & Hq & Hs). unfold prefix_evidence in Hs. destruct (find_line _ 0 (lines source)) as [[i l]|] eqn:E; cbn in Hs; [|by destruct Hs].
      apply find_line_some in E as (_ & Hl & Hb). apply andb_true_iff in Hb as [Hi Hw]. apply in_words_spec in Hw.
      exists q, l. split; [done|]. split; [by eapply list_elem_of_lookup_2|done].
    - intros (q & l & Hq & Hl & Hi & Hw). exists q. split; [done|]. unfold prefix_evidence.
      apply list_elem_of_lookup in Hl as [i Hl].
      assert (is_Some (find_line (fun _ line => is_import_line line && in_words (imported_names line) q) 0 (lines source))) as [[j l'] E].
      { apply find_line_found. exists i, l. split; [done|]. rewrite Hi. by apply in_words_spec in Hw as ->. }
      by rewrite E. }
  unfold name_evidence. rewrite !or_opt_some, Hsh, Hpre. unfold definition_evidence_at.
  pose proof (line_evidence_some path source symbol target) as Hle.
  destruct (line_evidence path source symbol target) as [e|].
  - split; [intros _|intros _; right; left; done]. destruct (proj1 Hle ltac:(done)) as [?|(t & ? & ?)]; [by apply bound_file|by eapply bound_scope].
  - assert (Hb : is_Some (e ← find_map (fun line => if is_import_line line && import_mentions line symbol
                                   then module_evidence read path symbol line else None) (lines source); Some (BoundInModule, e))
       <-> is_Some (find_map (fun line => if is_import_line line && import_mentions line symbol
                                   then module_evidence read path symbol line else None) (lines source))).
    { destruct (find_map _ (lines source)); cbn; split; by intros [? ?]. }
    rewrite Hb, Hmod. split.
    + intros [(? & ? & ?)|[(l & p & text & ?)|(q & l & ?)]].
      * by apply bound_shader.
      * destruct_and!. by eapply bound_module.
      * destruct_and!. by eapply bound_prefix.
    + intros [? ? ?|Hf|t ? Hs|l p text ???????|l q ????]; [by left| | | |].
      * exfalso. assert (is_Some (@None string)) as [? ?] by (apply Hle; by left). done.
      * exfalso. assert (is_Some (@None string)) as [? ?] by (apply Hle; right; by exists t). done.
      * right. left. exists l, p, text. auto 10.
      * right. right. exists q, l. auto.
Qed.

(** ** What a drop needs *)

Lemma collect_all_some {A B} (f : A -> option B) l :
  is_Some (collect_all f l) <-> forall x, x ∈ l -> is_Some (f x).
Proof.
  induction l as [|x l IH]; cbn; [split; [by intros _ ? ?%not_elem_of_nil|done]|].
  destruct (f x) as [y|] eqn:E; cbn.
  - destruct (collect_all f l) as [ys|]; cbn.
    + split; [|done]. intros _ z [->|Hz]%elem_of_cons; [by rewrite E|]. by apply IH.
    + split; [by intros [? ?]|]. intros H. exfalso. destruct (proj2 IH) as [? ?]; [|done]. intros z Hz. apply H. by right.
  - split; [by intros [? ?]|]. intros H. specialize (H x ltac:(by left)). rewrite E in H. by destruct H.
Qed.
Lemma collect_all_nil {A B} (f : A -> option B) l ys : collect_all f l = Some ys -> ys = [] <-> l = [].
Proof.
  destruct l as [|x l]; cbn; [by intros [= <-]|]. destruct (f x); cbn; [|done]. destruct (collect_all f l); cbn; [|done].
  by intros [= <-].
Qed.

(** A line that ends the body of a definition of that indentation. *)
Definition ends_body (indent : nat) (l : string) : bool :=
  negb (str_is_empty (trim l)) && (indent_of l <=? indent)%nat && negb (starts_with ")" (trim l)) && is_def_line l.
(** The first definition of the function has a line that returns a value
    before the next definition that is not deeper. *)
Definition function_returns (source f : string) : Prop :=
  exists i d j l, lines source !! i = Some d /\ defines_function f d = true
    /\ (forall k l', (k < i)%nat -> lines source !! k = Some l' -> defines_function f l' = false)
    /\ (i < j)%nat /\ lines source !! j = Some l /\ returns_value (trim l) = true
    /\ forall k l', (i < k <= j)%nat -> lines source !! k = Some l' -> ends_body (indent_of d) l' = false.

Lemma body_return_some indent ls : forall i,
  is_Some (body_return indent i ls) <->
  exists j l, ls !! j = Some l /\ returns_value (trim l) = true
              /\ forall k l', (k <= j)%nat -> ls !! k = Some l' -> ends_body indent l' = false.
Proof.
  induction ls as [|x ls IH]; intros i; cbn [body_return].
  { split; [by intros [? ?]|]. by intros (j & l & Hj & _). }
  assert (Hskip : ends_body indent x = false -> returns_value (trim x) = false ->
    is_Some (body_return indent (S i) ls) <->
    exists j l, (x :: ls) !! j = Some l /\ returns_value (trim l) = true
              /\ forall k l', (k <= j)%nat -> (x :: ls) !! k = Some l' -> ends_body indent l' = false).
  { intros He Hr. rewrite IH. split.
    - intros (j & l & Hj & Hl & Hall). exists (S j), l. split; [done|]. split; [done|].
      intros [|k] l' Hk; cbn; [by intros [= <-]|]. intros Hl'. apply (Hall k); [lia|done].
    - intros ([|j] & l & Hj & Hl & Hall); cbn in Hj; [congruence|]. exists j, l. split; [done|]. split; [done|].
      intros k l' Hk Hl'. apply (Hall (S k)); [lia|done]. }
  destruct (str_is_empty (trim x)) eqn:Et.
  { apply Hskip; [unfold ends_body; by rewrite Et|]. by destruct (trim x). }
  destruct ((indent_of x <=? indent)%nat && negb (starts_with ")" (trim x)) && is_def_line x) eqn:Ee.
  { assert (ends_body indent x = true) as Hx by (unfold ends_body; rewrite Et; cbn; by rewrite andb_assoc in Ee || exact Ee).
    split; [by intros [? ?]|]. intros (j & l & _ & _ & Hall). specialize (Hall 0%nat x ltac:(lia) eq_refl). congruence. }
  assert (ends_body indent x = false) as Hx by (unfold ends_body; rewrite Et; exact Ee).
  destruct (returns_value (trim x)) eqn:Er; [|by apply Hskip].
  split; [intros _|done]. exists 0%nat, x. split; [done|]. split; [done|]. intros k l' Hk. assert (k = 0%nat) as -> by lia. by intros [= <-].
Qed.

Lemma find_line_first p ls i l : find_line (fun _ => p) 0 ls = Some (i, l) ->
  forall k l', (k < i)%nat -> ls !! k = Some l' -> p l' = false.
Proof.
  enough (G : forall n, find_line (fun _ => p) n ls = Some (i, l) -> forall k l', (n + k < i)%nat -> ls !! k = Some l' -> p l' = false) by apply (G 0%nat).
  induction ls as [|x ls IH]; intros n; cbn [find_line]; [done|]. destruct (p x) eqn:Hp.
  - intros [= <- <-] k l' Hk. lia.
  - intros H [|k] l' Hk; cbn; [by intros [= <-]|]. apply (IH (S n)); [done|lia].
Qed.

Lemma function_return_some path source f : is_Some (function_return_evidence path source f) <-> function_returns source f.
Proof.
  unfold function_return_evidence, function_returns. cbn zeta.
  destruct (find_line _ 0 (lines source)) as [[i d]|] eqn:E; cbn.
  - pose proof (find_line_some _ _ _ _ _ E) as (_ & Hd & Hf). rewrite Nat.sub_0_r in Hd. pose proof (find_line_first _ _ _ _ E) as Hfirst.
    assert (Hb : is_Some ('(i0, l) ← body_return (indent_of d) (S i) (drop (S i) (lines source)); Some (evidence_line path i0 l))
      <-> is_Some (body_return (indent_of d) (S i) (drop (S i) (lines source)))).
    { destruct (body_return _ _ _) as [[? ?]|]; cbn; split; by intros [? ?]. }
    rewrite Hb, body_return_some. split.
    + intros (j & l & Hj & Hr & Hall). rewrite lookup_drop in Hj. exists i, d, (S i + j)%nat, l.
      split; [done|]. split; [done|]. split; [done|]. split; [lia|]. split; [done|]. split; [done|].
      intros k l' Hk Hl'. apply (Hall (k - S i)%nat); [lia|]. rewrite lookup_drop. by replace (S i + (k - S i))%nat with k by lia.
    + intros (i' & d' & j & l & Hd' & Hf' & Hfirst' & Hij & Hj & Hr & Hall).
      assert (i' = i) as ->.
      { destruct (Nat.lt_trichotomy i' i) as [Hlt|[?|Hlt]]; [|done|].
        - specialize (Hfirst _ _ Hlt Hd'). congruence.
        - specialize (Hfirst' _ _ Hlt Hd). congruence. }
      assert (d' = d) as -> by congruence. exists (j - S i)%nat, l. split; [rewrite lookup_drop; by replace (S i + (j - S i))%nat with j by lia|].
      split; [done|]. intros k l' Hk. rewrite lookup_drop. apply Hall. lia.
  - split; [by intros [? ?]|]. intros (i & d & j & l & Hd & Hf & _). exfalso.
    assert (is_Some (find_line (fun _ => defines_function f) 0 (lines source))) as [? ?] by (apply find_line_found; by exists i, d). congruence.
Qed.

(** Every constant and module name in the cited lines is bound, and not all of
    them by the lines themselves. *)
Definition range_disproved (path source : string) (range : nat * nat) : Prop :=
  let ls := lines source in
  let cited := range_lines ls range.1 range.2 in
  let full := join (String newline "") ls in
  let target := S (range.1 - 1) in
  (range.1 - 1 < Nat.min range.2 (length ls))%nat
  /\ (forall name, name ∈ range_names cited ->
        existsb (binds_locally name) cited = true \/ bound (fun _ => None) path full (Some target) name)
  /\ exists name, name ∈ range_names cited /\ existsb (binds_locally name) cited = false.

Lemma bind_names_some path full start range names :
  (exists b out, bind_names path full start range names = Some (b :: out)) <->
  (forall name, name ∈ names -> existsb (binds_locally name) range = true \/ bound (fun _ => None) path full (Some (S start)) name)
  /\ exists name, name ∈ names /\ existsb (binds_locally name) range = false.
Proof.
  assert (Hd : forall ns, is_Some (bind_names path full start range ns) <->
    forall name, name ∈ ns -> existsb (binds_locally name) range = true \/ bound (fun _ => None) path full (Some (S start)) name).
  { induction ns as [|n ns IH]; cbn [bind_names]; [split; [by intros _ ? ?%not_elem_of_nil|done]|].
    destruct (existsb (binds_locally n) range) eqn:El.
    - rewrite IH. split; [|intros H name Hn; apply H; by right]. intros H name [->|Hn]%elem_of_cons; auto.
    - pose proof (name_evidence_iff (fun _ => None) path full n (Some (S start))) as Hb.
      destruct (name_evidence _ path full n _) as [[r e]|]; cbn.
      + destruct (bind_names path full start range ns); cbn.
        * split; [|done]. intros _ name [->|Hn]%elem_of_cons; [right; by apply Hb|]. by apply IH.
        * split; [by intros [? ?]|]. intros H. exfalso. destruct (proj2 IH) as [? ?]; [|done]. intros name Hn. apply H. by right.
      + split; [by intros [? ?]|]. intros H. exfalso. destruct (H n ltac:(by left)) as [?|H']; [congruence|]. apply Hb in H'. by destruct H'. }
  rewrite <- Hd. clear Hd. induction names as [|n ns IH]; cbn [bind_names].
  { split; [by intros (? & ? & ?)|]. by intros [_ (? & ?%not_elem_of_nil & _)]. }
  destruct (existsb (binds_locally n) range) eqn:El.
  - rewrite IH. split; intros [H (name & Hn & Hl)]; (split; [done|]); exists name; (split; [|done]); [by right|].
    apply elem_of_cons in Hn as [->|Hn]; [congruence|done].
  - destruct (name_evidence _ path full n _) as [[r e]|]; cbn; [|split; [by intros (? & ? & ?)|by intros [[? ?] _]]].
    destruct (bind_names path full start range ns) as [out|]; cbn; [|split; [by intros (? & ? & ?)|by intros [[? ?] _]]].
    split; [|by eauto]. intros _. split; [done|]. exists n. split; [by left|done].
Qed.

Lemma range_binding_some path source range :
  (exists b out, range_binding_evidence path (lines source) range = Some (b :: out)) <-> range_disproved path source range.
Proof.
  unfold range_binding_evidence, range_disproved. cbn zeta.
  destruct (Nat.leb_spec (Nat.min range.2 (length (lines source))) (range.1 - 1)) as [Hle|Hlt].
  { split; [by intros (? & ? & ?)|]. intros [? _]. lia. }
  rewrite <- bind_names_some. destruct (range_names _) as [|n ns].
  - cbn [bind_names]. split; [by intros (? & ? & ?)|]. intros (_ & b & out & [=]).
  - destruct (bind_names _ _ _ _ _) as [[|b out]|]; cbn; (split; [intros (b' & out' & H)|intros (_ & b' & out' & H)]); try done; eauto.
Qed.

(** What is claimed about one symbol is false: the option is defined, the name
    is bound. *)
Definition disproved (read : string -> option string) (path source : string) (target : option nat) (s : string) : Prop :=
  if starts_with "-" s then is_Some (option_evidence path source s) else bound read path source target s.
Lemma symbol_evidence_some read path source target s :
  is_Some (symbol_evidence read path source target s) <-> disproved read path source target s.
Proof.
  unfold symbol_evidence, disproved. destruct (starts_with "-" s); rewrite fmap_is_Some; [done|]. apply name_evidence_iff.
Qed.

(** C13: A finding is dropped exactly when it makes one of the claims the filter
    knows, its file can be read, every symbol it claims is disproved, every
    function it says does not return does, and, when it names neither, it is
    not about a return alone and every name in the lines it cites is bound. *)
Theorem filter_drops_iff read title body path location target :
  is_Some (false_undefined_record_with_location read title body path location target) <->
  trim path <> ""
  /\ (claims_undefined (finding_text title body) = true \/ claimed_options title body <> []
      \/ claims_return_only (finding_text title body) = true)
  /\ exists source, read (trim_start_str "./" (trim path)) = Some source
     /\ (let p := trim_start_str "./" (trim path) in
         let symbols := decision_symbols read title body p source target in
         (forall s, s ∈ symbols -> disproved read p source target s)
         /\ (forall f, f ∈ claimed_missing_return title body -> function_returns source f)
         /\ (symbols = [] -> claimed_missing_return title body = [] ->
             claims_return_only (finding_text title body) = false
             /\ exists range, cited_range title body location target (length (lines source)) = Some range
                              /\ range_disproved p source range)).
Proof.
  unfold false_undefined_record_with_location. cbn zeta.
  assert (Hc : str_is_empty (trim path) || (negb (claims_undefined (finding_text title body)) && bool_decide (claimed_options title body = [])
              && negb (claims_return_only (finding_text title body))) = false
    <-> trim path <> "" /\ (claims_undefined (finding_text title body) = true \/ claimed_options title body <> []
        \/ claims_return_only (finding_text title body) = true)).
  { rewrite orb_false_iff, !andb_false_iff, !negb_false_iff, bool_decide_eq_false.
    assert (str_is_empty (trim path) = false <-> trim path <> "") as -> by (destruct (trim path); cbn; split; congruence). tauto. }
  destruct (str_is_empty (trim path) || _) eqn:Eg.
  { split; [by intros [? ?]|]. intros (H1 & H2 & _). assert (true = false) by (apply Hc; done). done. }
  destruct (proj1 Hc eq_refl) as [Hp Hclaim]. clear Hc.
  destruct (read _) as [source|]; cbn; [|split; [by intros [? ?]|by intros (_ & _ & ? & [=] & _)]].
  set (p := trim_start_str "./" (trim path)). set (symbols := decision_symbols read title body p source target).
  assert (Hs : is_Some (collect_all (symbol_evidence read p source target) symbols) <-> forall s, s ∈ symbols -> disproved read p source target s).
  { rewrite collect_all_some. setoid_rewrite symbol_evidence_some. done. }
  assert (Hf : is_Some (collect_all (function_return_evidence p source) (claimed_missing_return title body))
               <-> forall f, f ∈ claimed_missing_return title body -> function_returns source f).
  { rewrite collect_all_some. setoid_rewrite function_return_some. done. }
  assert (Hred : forall P : Prop, (trim path <> "" /\ (claims_undefined (finding_text title body) = true \/ claimed_options title body <> []
      \/ claims_return_only (finding_text title body) = true) /\ exists source0, Some source = Some source0 /\ P) <-> P) by naive_solver.
  transitivity ((forall s, s ∈ symbols -> disproved read p source target s)
         /\ (forall f, f ∈ claimed_missing_return title body -> function_returns source f)
         /\ (symbols = [] -> claimed_missing_return title body = [] ->
             claims_return_only (finding_text title body) = false
             /\ exists range, cited_range title body location target (length (lines source)) = Some range
                              /\ range_disproved p source range)); [|naive_solver].
  rewrite <- Hs, <- Hf. clear Hs Hf Hred.
  destruct (collect_all (symbol_evidence read p source target) symbols) as [disp|] eqn:Ed; cbn; [|split; [by intros [? ?]|by intros [[? ?] _]]].
  destruct (collect_all (function_return_evidence p source) (claimed_missing_return title body)) as [extra|] eqn:Ee; cbn;
    [|split; [by intros [? ?]|by intros (_ & [? ?] & _)]].
  pose proof (collect_all_nil _ _ _ Ed) as Hdn. pose proof (collect_all_nil _ _ _ Ee) as Hen.
  destruct (bool_decide (symbols = []) && bool_decide (extra = []) && negb (claims_return_only (finding_text title body))) eqn:Eb.
  - rewrite !andb_true_iff, !bool_decide_eq_true, negb_true_iff in Eb. destruct Eb as [[Hsn Hxn] Hro].
    apply Hen in Hxn. split.
    + intros Hsome. split; [done|]. split; [done|]. intros _ _. split; [done|].
      destruct (cited_range _ _ _ _ _) as [range|]; cbn in Hsome; [|by destruct Hsome]. exists range. split; [done|].
      apply range_binding_some. destruct (range_binding_evidence _ _ _) as [[|b out]|]; cbn in Hsome; try by destruct Hsome. eauto.
    + intros (_ & _ & H). destruct (H Hsn Hxn) as (_ & range & -> & Hr). cbn.
      apply range_binding_some in Hr as (b & out & ->). cbn. by destruct b as [[? ?] ?].
  - split.
    + intros Hsome. split; [done|]. split; [done|]. intros Hsn Hxn. exfalso.
      apply Hdn in Hsn as ->. rewrite Hxn in Hsome. by destruct Hsome.
    + intros (_ & _ & H). destruct disp as [|[[s r] e] disp]; [|by eexists].
      assert (symbols = []) as Hsn by by apply Hdn.
      destruct (claimed_missing_return title body) as [|f fs] eqn:Em.
      * exfalso. destruct (H Hsn eq_refl) as [Hro _]. rewrite Hsn, Hro in Eb. rewrite bool_decide_true in Eb by done.
        rewrite bool_decide_true in Eb by by apply Hen. done.
      * destruct extra; [|by eexists]. discriminate (proj1 Hen eq_refl).
Qed.

Lemma collapse_keeps read path source target pairs : forall symbols s,
  s ∈ symbols -> (forall p, p ∈ pairs -> s <> p.1 /\ s <> p.2) -> s ∈ foldl (collapse read path source target) symbols pairs.
Proof.
  induction pairs as [|[m a] pairs IH]; intros symbols s Hs Hp; cbn [foldl]; [done|].
  apply IH; [|intros p Hin; apply Hp; by right]. destruct (Hp (m, a) ltac:(by left)) as [Hm Ha]. cbn in Hm, Ha.
  unfold collapse, push_new. assert (s ∈ filterb (fun s => negb (bool_decide (s = m)) && negb (bool_decide (s = a))) symbols) as Hin.
  { apply elem_of_filterb. split; [|done]. by rewrite !bool_decide_false by done. }
  case_bool_decide; [done|]. apply elem_of_app. by left.
Qed.
(** Every symbol and option that is claimed outside an [X as Y] pair is among
    those a drop has to disprove. *)
Theorem claims_reach_decision read title body path source target s :
  s ∈ claimed_symbols title body \/ s ∈ claimed_options title body ->
  (forall p, p ∈ claimed_alias_pairs title body -> s <> p.1 /\ s <> p.2) ->
  s ∈ decision_symbols read title body path source target.
Proof. intros Hs Hp. unfold decision_symbols. apply collapse_keeps; [by apply elem_of_app|done]. Qed.

(** ** Concrete findings *)

Definition eol_join (ls : list string) : string := join (String newline "") ls.
Definition one_file (path text : string) : string -> option string := fun p => if bool_decide (p = path) then Some text else None.
Definition sample_source : string :=
  eol_join ["import json"; "from os import path as p"; ""; "def load(name):"; "    data = json.loads(name)"; "    return data"].

(** "`json` is not defined" is dropped with the import as evidence; "`yaml` is
    not defined" is kept. *)
Example json_claim_dropped :
  false_undefined_record_with_location (one_file "a.py" sample_source) "`json` is not defined" "" "a.py" None (Some 5%nat)
  = Some (mkFiltered "`json` is not defined" "a.py" "json" ["json"] BoundHere "a.py:1: import json" None).
Proof. by vm_compute. Qed.
Example yaml_claim_kept :
  false_undefined_record_with_location (one_file "a.py" sample_source) "`yaml` is not defined" "" "a.py" None (Some 5%nat) = None.
Proof. by vm_compute. Qed.
Example load_returns :
  fr_evidence <$> false_undefined_record_with_location (one_file "load.py" (eol_join ["def load_it(name):"; "    return name"]))
    "load_it has no return" "" "load.py" None None = Some "load.py:2: return name".
Proof. by vm_compute. Qed.

Lemma evidence_is_a_line_witness :
  line_evidence "a.py" sample_source "json" None = Some "a.py:1: import json" /\
  exists i l, lines sample_source !! i = Some l /\ "a.py:1: import json" = "a.py" +:+ ":" +:+ line_no (S i) +:+ ": " +:+ trim l
              /\ (binds_file_wide "json" l = true \/ "json" ∈ params_of l \/ "json" ∈ bindings_in l).
Proof. split; [by vm_compute|]. apply (evidence_is_a_line "a.py" sample_source "json" None). by vm_compute. Defined.

(** ** Departures *)

(** The quotes around text that is quoted are also the apostrophes of "isn't"
    and "can't": the phrases that contain one never match, the sentence claims
    nothing, and the finding about [foo] is dropped because the cited line
    uses a module that is imported. *)
Example apostrophe_hides_claim :
  let read := one_file "a.py" (eol_join ["import json"; "x = json.loads(foo)"]) in
  claimed_symbols "`foo` isn't defined" "" = []
  /\ name_evidence read "a.py" (eol_join ["import json"; "x = json.loads(foo)"]) "foo" (Some 2%nat) = None
  /\ is_Some (false_undefined_record_with_location read "`foo` isn't defined" "" "a.py" None (Some 2%nat))
  /\ false_undefined_record_with_location read "`foo` is not defined" "" "a.py" None (Some 2%nat) = None.
Proof. vm_compute. split; [done|]. split; [done|]. split; [by eexists|done]. Qed.

(** A line of prose that starts with "from" is an import of its words. *)
Example prose_is_an_import :
  let source := eol_join ["def run():"; "    <docstring>"; "    from the registry we take the handler"; "    return registry.handler"] in
  is_Some (false_undefined_record_with_location (one_file "a.py" source) "`registry` is not defined" "" "a.py" None (Some 4%nat)).
Proof. vm_compute. by eexists. Qed.

(** A line that assigns to a variable whose name starts with "return" returns a
    value. *)
Example returned_is_a_return :
  let source := eol_join ["def load_it(name):"; "    returned = name"] in
  is_Some (false_undefined_record_with_location (one_file "a.py" source) "load_it has no return" "" "a.py" None None).
Proof. vm_compute. by eexists. Qed.

(** Two aliases of one module: the second pair replaces the first, whose names
    are not bound. *)
Example alias_pair_lost :
  let source := "import other as n2" in
  let body := "missing import numpy as np; missing import numpy as n2" in
  name_bound (one_file "a.py" source) "a.py" source None "numpy" = false
  /\ name_bound (one_file "a.py" source) "a.py" source None "np" = false
  /\ is_Some (false_undefined_record_with_location (one_file "a.py" source) "" body "a.py" None None).
Proof. vm_compute. split; [done|]. split; [done|]. by eexists. Qed.
