(* ===== verification/ReviewConfirm.v ===== *)
(** Confirming blocking findings (review_confirm.rs and its caller in
    agentic.rs): a finding of high or critical severity blocks unless it is
    shown not to be about the code, or models of other families reject it.

    Texts are byte strings in UTF-8 whose white space and letters are ASCII.
    A file is read by [read]; [decode] reads a reply as JSON; what a confirmer
    answers is an argument, one answer per call in the order of the calls. *)
From S2P Require Import Prelude F64 Numbers Config Policy Text Json Review ReviewDiff ReviewContext ReviewFilter.
Local Open Scope string_scope.
Local Open Scope Z_scope.
Local Open Scope list_scope.

(** ** Severities, dispositions, limits *)

Definition is_blocking_severity (s : string) : bool := bool_decide (norm s ∈ ["critical"; "high"]).

Inductive Disposition := Confirmed | Rejected | Insufficient | ConfirmerFailed | FilteredZ3 | NotRun.
#[export] Instance disposition_eq_dec : EqDecision Disposition.
Proof. solve_decision. Defined.
Definition disposition_str (d : Disposition) : string :=
  match d with
  | Confirmed => "confirmed" | Rejected => "rejected" | Insufficient => "insufficient"
  | ConfirmerFailed => "confirmer_failed" | FilteredZ3 => "filtered_z3" | NotRun => "not_run"
  end.
Inductive ConfirmerOutcome := OutcomeOk | OutcomeTimeout | TooManyRequests | Unavailable | OutcomeEmpty | Unparsed.
#[export] Instance confirmer_outcome_eq_dec : EqDecision ConfirmerOutcome.
Proof. solve_decision. Defined.
Definition confirmer_outcome_str (o : ConfirmerOutcome) : string :=
  match o with
  | OutcomeOk => "ok" | OutcomeTimeout => "timeout" | TooManyRequests => "429"
  | Unavailable => "503" | OutcomeEmpty => "empty" | Unparsed => "unparsed"
  end.

Record ReviewConfirmConfig := mkConfirmConfig {
  confirm_models : list string;
  author_models : list string;
  max_per_review : nat;
  confirm_timeout_s : Z;
  confirm_max_context_lines : nat;
  cfg_critical_rejects : nat;
  cfg_high_rejects : nat;
  recall_eval_ref : string
}.
Definition confirm_config_default : ReviewConfirmConfig :=
  mkConfirmConfig ["deepseek-flash"; "MiniMax-M3.1-Flash"; "nemotron-3-ultra"; "mimo-flash"] [] 8 60 200 2 1
    "gptoss-review-eval-20261026".
Record ConfirmLimits := mkConfirmLimits {
  confirmations : nat;
  timeout_s : Z;
  max_context_lines : nat;
  critical_rejects : nat;
  high_rejects : nat
}.
Definition confirmations_per_review (cfg : ReviewConfirmConfig) : nat := Nat.max (max_per_review cfg) 1.
Definition context_line_bound (cfg : ReviewConfirmConfig) : nat := Nat.max (confirm_max_context_lines cfg) 1.
Definition cfg_rejects_required (cfg : ReviewConfirmConfig) (severity : string) : nat :=
  if bool_decide (norm severity = "critical") then Nat.max (cfg_critical_rejects cfg) 2 else Nat.max (cfg_high_rejects cfg) 1.
Definition limits_from_config (cfg : ReviewConfirmConfig) : ConfirmLimits :=
  mkConfirmLimits (confirmations_per_review cfg) (Z.max (confirm_timeout_s cfg) 1) (context_line_bound cfg)
    (cfg_rejects_required cfg "critical") (cfg_rejects_required cfg "high").
Definition rejects_required (l : ConfirmLimits) (severity : string) : nat :=
  if bool_decide (norm severity = "critical") then Nat.max (critical_rejects l) 2 else Nat.max (high_rejects l) 1.

(** ** Findings and attempts *)

Record PendingFinding := mkPending {
  pf_id : string;
  pf_severity : string;
  pf_location : string;
  pf_quote : option string;
  pf_claim : string;
  pf_quote_found : bool;
  pf_grounded : bool;
  pf_ungrounded_reason : string
}.
Record FindingPlan := mkFindingPlan {
  plan_finding : PendingFinding;
  plan_reviewer_model : string;
  plan_reviewer_family : string;
  plan_confirmer_chain : list string;
  plan_context : string
}.
Inductive ParsedDisposition := PdConfirm | PdReject | PdInsufficient.
#[export] Instance parsed_disposition_eq_dec : EqDecision ParsedDisposition.
Proof. solve_decision. Defined.
Record ConfirmerVerdict := mkVerdict {
  v_finding_id : string; v_disposition : ParsedDisposition; v_quote : option string; v_reason : string
}.
Record ConfirmerAttempt := mkAttempt {
  a_model : string;
  a_family : string;
  a_outcome : ConfirmerOutcome;
  a_latency_ms : Z;
  a_tokens_in : Z;
  a_tokens_out : Z;
  a_verdict : option ConfirmerVerdict
}.
Record FindingDecision := mkDecision {
  d_finding_id : string;
  d_severity : string;
  d_location : string;
  d_quote : option string;
  d_quote_found : bool;
  d_disposition : Disposition;
  d_blocking : bool;
  d_reason : string;
  d_attempts : list ConfirmerAttempt
}.
Record Demotion := mkDemotion { dm_finding_id : string; dm_severity : string; dm_reason : string; dm_confirmer_ids : list string }.
Record ConfirmedReview := mkConfirmed {
  decisions : list FindingDecision;
  demoted : list Demotion;
  effective_blocking : bool;
  reviewer_family_recall : option f64
}.
Definition verdict_basis (c : ConfirmedReview) : string :=
  if existsb (fun d => negb (bool_decide (d_disposition d = NotRun)) || negb (bool_decide (length (d_attempts d) = 0%nat))) (decisions c)
  then "reviewer_plus_confirmer" else "reviewer_only".
Definition effective_verdict (c : ConfirmedReview) : string := if effective_blocking c then "request_changes" else "comment".
(** The verdicts that may be raised, under the code's name. *)
Definition is_blocking_verdict (v : string) : bool := bool_decide (norm v ∈ ["comment"; "approve"]).
Definition raised_by_confirmed_finding (c : ConfirmedReview) (original : string) : bool :=
  if is_blocking_verdict original then
    effective_blocking c && existsb (fun d => d_blocking d && is_blocking_severity (d_severity d)) (decisions c)
  else false.

(** ** The identity of a finding: FNV-1a of 64 bits *)

Definition normalise_ws (text : string) : string := join " " (split_whitespace text).
Definition normalise_claim (text : string) : string := to_ascii_lowercase (normalise_ws text).
Definition FNV_OFFSET : Z := 14695981039346656037.
Definition FNV_PRIME : Z := 1099511628211.
Definition u64_wrap (x : Z) : Z := x mod 18446744073709551616.
Definition fnv_byte (hash byte : Z) : Z := u64_wrap (Z.lxor hash byte * FNV_PRIME).
Definition feed (hash : Z) (s : string) : Z :=
  fnv_byte (foldl (fun h c => fnv_byte h (Z.of_nat (Ascii.nat_of_ascii c))) hash (String.list_ascii_of_string s)) 31.
Definition hex_digit (d : Z) : ascii := Ascii.ascii_of_nat (Z.to_nat (if d <? 10 then 48 + d else 87 + d)).
(** [{:016x}]: sixteen digits, the most significant first. *)
Fixpoint hex_digits (n : nat) (v : Z) : string :=
  match n with
  | O => ""
  | S n => hex_digits n (v / 16) +:+ String (hex_digit (v mod 16)) ""
  end.
Definition finding_id (family path claim : string) : string :=
  hex_digits 16 (feed (feed (feed FNV_OFFSET (trim family)) (trim path)) (normalise_claim claim)).

(** ** Evidence *)

(** Whether a text ends with a byte of a word. *)
Definition ends_in_word (s : string) : bool := match str_last s with Some c => ident_byte c | None => false end.
(** The marker at a word boundary; [prev] is the byte before. *)
Definition marker_here (prev : option ascii) (marker s : string) : bool :=
  match strip_prefix marker s with
  | Some rest =>
      let lead_ok := match prev with Some c => negb (ident_byte c) | None => true end in
      let tail_ok := match rest with
                     | EmptyString => ends_in_word marker
                     | String c _ => if ends_in_word marker then negb (ident_byte c) else ident_byte c
                     end in
      lead_ok && tail_ok
  | None => false
  end.
Fixpoint marker_from (prev : option ascii) (marker s : string) : bool :=
  marker_here prev marker s
  || match s with String c r => marker_from (Some c) marker r | EmptyString => false end.
Definition contains_at_word_boundary (sentence marker : string) : bool :=
  negb (str_is_empty marker) && marker_from None (to_ascii_lowercase marker) (to_ascii_lowercase sentence).
Definition FIX_MARKERS : list string :=
  ["should"; "instead"; "use "; "e.g."; "replace"; "fix"; "consider"; "for example"; "change it to"; "change to"; "such as"].
Definition is_fix_proposal (sentence : string) : bool := existsb (contains_at_word_boundary sentence) FIX_MARKERS.
Fixpoint split_sentences_from (cur s : string) : list string :=
  match s with
  | EmptyString => if str_is_empty cur then [] else [cur]
  | String c r =>
      let cur := cur +:+ String c "" in
      if char_in ["."; "!"; "?"]%char c && match r with String d _ => is_ws d | EmptyString => true end
      then cur :: split_sentences_from "" r else split_sentences_from cur r
  end.
Definition split_sentences (text : string) : list string := split_sentences_from "" text.
Fixpoint snake_window (s : string) : bool :=
  match s with
  | String a ((String b (String c _)) as r) => (is_lower a && Ascii.eqb b "_" && is_lower c) || snake_window r
  | _ => false
  end.
Definition looks_like_code (span : string) : bool :=
  str_any (char_in ["("; ")"; "["; "]"; "="; "."; "_"; "/"; ":"; quote; "'"]%char) span || snake_window span.
Definition sentence_spans (sentence : string) : list string :=
  if is_fix_proposal sentence then []
  else filterb (fun span => negb ((char_count span <? 6)%nat || str_has newline span || negb (looks_like_code span)))
         (every_other false (split_on "`" sentence)).
Definition evidence_spans (text : string) : list string := concat (map sentence_spans (split_sentences text)).

(** The first number after a colon, a word "line" or "lines" allowed between. *)
Definition cited_number (rest : string) : string :=
  let rest := trim_start rest in
  let lower := to_ascii_lowercase rest in
  let rest := match find_first (fun w => starts_with w lower) ["lines"; "line"] with
              | Some w => trim_start (str_drop (String.length w) rest)
              | None => rest
              end in
  take_while is_ascii_digit rest.
Fixpoint cited_line (s : string) : option nat :=
  match s with
  | EmptyString => None
  | String c r =>
      if Ascii.eqb c ":" && negb (str_is_empty (cited_number r)) then Z.to_nat <$> parse_u64_std (cited_number r)
      else cited_line r
  end.
Definition cited_location (location : string) : option (string * option nat) :=
  let loc := trim location in
  if str_is_empty loc then None else Some (trim (piece_to ":" loc), cited_line loc).

(** ** Grounding *)

Record Grounding := mkGrounding {
  location_ok : bool;
  location_unreadable : bool;
  present : list string;
  missing : list string
}.
Definition grounded (g : Grounding) : bool :=
  (location_ok g || location_unreadable g)
  && (bool_decide (length (missing g) = 0%nat) || negb (bool_decide (length (present g) = 0%nat))).
Definition ungrounded_reason (g : Grounding) : option string :=
  if grounded g then None
  else if negb (location_ok g) && negb (location_unreadable g) then Some "the cited location does not exist at the reviewed head"
  else Some "every code span the finding quotes is absent from the reviewed text".
Definition evidence_quote (g : Grounding) : option string := head (present g).

Section Grounding.
Variable read : string -> option string.
(** The path a finding cites, when it cites one. *)
Definition cited_path (location : string) : option (string * option nat) :=
  opt_filter (fun c => negb (str_is_empty c.1)) (cited_location location).
Definition corpus_part (path : string) : string :=
  match read path with Some text => normalise_ws text +:+ String newline "" | None => "" end.
Definition ground_finding (location claim : string) (touched : list string) : Grounding :=
  let cited := cited_path location in
  let '(ok, unreadable) :=
    match cited with
    | Some (path, line) =>
        match read path, line with
        | None, _ => (false, true)
        | Some _, None => (true, false)
        | Some text, Some line => ((1 <=? line)%nat && (line <=? length (lines text))%nat, false)
        end
    | None => (true, false)
    end in
  let own := match cited with Some (path, _) => if unreadable then "" else corpus_part path | None => "" end in
  let corpus := own +:+ join "" (map corpus_part touched) in
  let spans := evidence_spans claim in
  let occurs span := str_contains (normalise_ws span) corpus in
  mkGrounding ok unreadable (filterb occurs spans)
    (filterb (fun span => negb (occurs span) && negb (unreadable && str_is_empty (trim corpus))) spans).
End Grounding.

Definition quote_in (quote_ shown : string) : bool :=
  let needle := trim quote_ in negb (str_is_empty needle) && str_contains needle shown.
Record FindingPrecheck := mkPrecheck { pc_finding_id : string; pc_quote_found : bool; pc_dropped : bool; pc_reason : string }.
Definition precheck (fs : list PendingFinding) : list FindingPrecheck * list PendingFinding :=
  (map (fun f => mkPrecheck (pf_id f) (pf_quote_found f) (negb (pf_grounded f)) (pf_ungrounded_reason f)) fs,
   filterb pf_grounded fs).

(** ** A confirmer's reply *)

Section Reply.
Variable decode : string -> option Value.

Definition parse_object (raw : string) : option Value :=
  let trimmed := trim raw in
  if str_is_empty trimmed then None
  else value ← decode trimmed; match value with Object _ => Some value | _ => None end.
Definition reply_disposition (word : string) (quote_ : option string) (context : string) : ParsedDisposition :=
  if bool_decide (word = "confirm" \/ word = "reject") then
    match quote_ with
    | Some q => if quote_in q context then if bool_decide (word = "confirm") then PdConfirm else PdReject else PdInsufficient
    | None => PdInsufficient
    end
  else PdInsufficient.
Definition parse_confirmer_output (raw expected_id context : string) : option ConfirmerVerdict :=
  value ← parse_object raw;
  id ← trim <$> value_get_str value "finding_id";
  if str_is_empty id || negb (bool_decide (id = expected_id)) then None
  else
    disposition_field ← value_get_str value "disposition";
    quote_field ← value_get_str value "quote";
    reason_field ← value_get_str value "reason";
    let quote_ := if str_is_empty (trim quote_field) then None else Some (trim quote_field) in
    Some (mkVerdict id (reply_disposition (to_ascii_lowercase (trim disposition_field)) quote_ context) quote_ (trim reason_field)).
Definition confirmer_attempt_from_reply (model family : string) (latency_ms : Z) (content finding_id_ context : string) :
  ConfirmerAttempt :=
  let empty := str_is_empty (trim content) in
  let verdict_ := if empty then None else parse_confirmer_output content finding_id_ context in
  let outcome := if empty then OutcomeEmpty else match verdict_ with Some _ => OutcomeOk | None => Unparsed end in
  mkAttempt model family outcome latency_ms 0 0 verdict_.
End Reply.

(** ** The choice of confirmers *)

Definition foreign (reviewer_family : string) (author_families : list string) (family : string) : bool :=
  negb (eq_ignore_ascii_case family reviewer_family) && negb (existsb (fun a => eq_ignore_ascii_case a family) author_families).
Definition select_step (reviewer_family : string) (author_families already_used : list string) (family_of : string -> option string)
  (out : list string) (candidate_ : string) : list string :=
  if bool_decide (candidate_ ∈ out) || bool_decide (candidate_ ∈ already_used) then out
  else match family_of candidate_ with
       | Some family => if foreign reviewer_family author_families family then out ++ [candidate_] else out
       | None => out
       end.
Definition select_confirmers (chain : list string) (reviewer_family : string) (author_families already_used : list string)
  (family_of : string -> option string) : list string :=
  foldl (select_step reviewer_family author_families already_used family_of) [] chain.

(** ** Settlement and aggregation *)

Definition answers (d : ParsedDisposition) (a : ConfirmerAttempt) : bool :=
  bool_decide (a_outcome a = OutcomeOk) && match a_verdict a with Some v => bool_decide (v_disposition v = d) | None => false end.
Inductive Settlement := SettledConfirmed | SettledDemoted | Undecided.
#[export] Instance settlement_eq_dec : EqDecision Settlement.
Proof. solve_decision. Defined.
Definition confirmed_verdict (attempts : list ConfirmerAttempt) : bool := existsb (answers PdConfirm) attempts.
Definition reject_families (attempts : list ConfirmerAttempt) : list string :=
  foldl push_new [] (map a_family (filterb (answers PdReject) attempts)).
Definition independent_rejects (attempts : list ConfirmerAttempt) : nat := length (reject_families attempts).
Definition demoted_by_rejects (attempts : list ConfirmerAttempt) (requires : nat) : bool := (requires <=? independent_rejects attempts)%nat.
Definition settlement (attempts : list ConfirmerAttempt) (requires : nat) : Settlement :=
  if confirmed_verdict attempts then SettledConfirmed
  else if demoted_by_rejects attempts requires then SettledDemoted else Undecided.
Definition reject_models (attempts : list ConfirmerAttempt) : list string := map a_model (filterb (answers PdReject) attempts).

Record ConfirmationJob := mkJob { job_plan : FindingPlan; job_confirmers : list string }.
Definition job_id (j : ConfirmationJob) : string := pf_id (plan_finding (job_plan j)).
Definition job_severity (j : ConfirmationJob) : string := pf_severity (plan_finding (job_plan j)).

Definition insufficient_seen (attempts : list ConfirmerAttempt) : bool :=
  existsb (fun a => bool_decide (a_outcome a = OutcomeOk)
                    && match a_verdict a with Some v => bool_decide (v_disposition v = PdInsufficient) | None => true end) attempts.
Definition failure_seen (attempts : list ConfirmerAttempt) : bool := existsb (fun a => negb (bool_decide (a_outcome a = OutcomeOk))) attempts.
Definition disposition_of (attempts : list ConfirmerAttempt) (requires : nat) : Disposition * bool :=
  match settlement attempts requires with
  | SettledConfirmed => (Confirmed, true)
  | SettledDemoted => (Rejected, false)
  | Undecided =>
      if failure_seen attempts then (ConfirmerFailed, true)
      else if insufficient_seen attempts || negb (bool_decide (length attempts = 0%nat)) then (Insufficient, true)
      else (NotRun, true)
  end.
Definition demotion_reason (attempts : list ConfirmerAttempt) : string :=
  default "confirmer rejected the finding"
    (find_first (fun r => negb (str_is_empty r)) (map v_reason (omap a_verdict attempts))).
Definition decide_job (limits : ConfirmLimits) (j : ConfirmationJob) (attempts : list ConfirmerAttempt) : FindingDecision * option Demotion :=
  let f := plan_finding (job_plan j) in
  let '(disposition_, blocking) := disposition_of attempts (rejects_required limits (pf_severity f)) in
  let rejected := bool_decide (disposition_ = Rejected) in
  let reason := if rejected then demotion_reason attempts else "" in
  (mkDecision (pf_id f) (pf_severity f) (pf_location f) (pf_quote f) (pf_quote_found f) disposition_ blocking reason attempts,
   if rejected then Some (mkDemotion (pf_id f) (pf_severity f) reason (reject_models attempts)) else None).

(** [aggregate]; [attempts_for] is the closure with its state. *)
Section Aggregate.
Context {S : Type} (attempts_for : S -> FindingPlan -> list ConfirmerAttempt * S) (limits : ConfirmLimits).
Fixpoint decide_jobs (jobs : list ConfirmationJob) (s : S) : list (FindingDecision * option Demotion) :=
  match jobs with
  | [] => []
  | j :: r => let '(attempts, s) := attempts_for s (job_plan j) in decide_job limits j attempts :: decide_jobs r s
  end.
Definition reached (d : FindingDecision) : bool := negb (bool_decide (length (d_attempts d) = 0%nat)).
Definition recall_of (demoted_count reached_confirmation : nat) : option f64 :=
  if bool_decide (reached_confirmation = 0%nat) then None
  else Some (f64_div (f64_of_Z (Z.of_nat demoted_count)) (f64_of_Z (Z.of_nat reached_confirmation))).
Definition confirm_aggregate (jobs : list ConfirmationJob) (s : S) : ConfirmedReview :=
  let out := decide_jobs jobs s in
  let ds := map fst out in
  let dm := omap snd out in
  mkConfirmed ds dm (existsb d_blocking ds) (recall_of (length dm) (length (filterb reached ds))).
End Aggregate.

(** ** The driver *)

Definition PRIMARY_PAIR : nat := 2.
Definition timeout_attempt (model : string) (limits : ConfirmLimits) : ConfirmerAttempt :=
  mkAttempt model "" OutcomeTimeout (Z.min U64_MAX (timeout_s limits * 1000)) 0 0 None.
Notation Table := (gmap string (list ConfirmerAttempt)).
(** [calls] is the trace of the calls made so far, with the finding each was
    for; its length is the number of the next call. *)
Record Driver := mkDriver {
  dr_budget : nat;
  dr_used : gmap string (list string);
  dr_recorded : Table;
  calls : list (string * string)
}.
Fixpoint pick_batch (want budget : nat) (used batch confirmers : list string) : list string :=
  match confirmers with
  | [] => batch
  | c :: r =>
      if (want <=? length batch)%nat || (budget <=? length batch)%nat then batch
      else if bool_decide (c ∈ batch) || bool_decide (c ∈ used) then pick_batch want budget used batch r
      else pick_batch want budget used (batch ++ [c]) r
  end.

Section Driver.
(** The answer to the [n]-th call, or nothing within the timeout. *)
Variable call : nat -> string -> FindingPlan -> option ConfirmerAttempt.
Variable limits : ConfirmLimits.

Definition attempt (n : nat) (model : string) (plan : FindingPlan) : ConfirmerAttempt :=
  default (timeout_attempt model limits) (call n model plan).
Definition dispatch (plan : FindingPlan) (batch : list string) (d : Driver) : list ConfirmerAttempt * Driver :=
  let id := pf_id (plan_finding plan) in
  (imap (fun k m => attempt (length (calls d) + k) m plan) batch,
   mkDriver (dr_budget d - length batch) (<[id := default [] (dr_used d !! id) ++ batch]> (dr_used d)) (dr_recorded d)
     (calls d ++ map (pair id) batch)).
(** The rounds of one finding.  A round asks a confirmer that was not asked
    before, so one round more than there are confirmers is never begun. *)
Fixpoint rounds (fuel : nat) (round : nat) (j : ConfirmationJob) (attempts : list ConfirmerAttempt) (d : Driver) :
  list ConfirmerAttempt * Driver :=
  match fuel with
  | O => (attempts, d)
  | S fuel =>
      let want := if (round =? 0)%nat then PRIMARY_PAIR else 1%nat in
      match pick_batch want (dr_budget d) (default [] (dr_used d !! job_id j)) [] (job_confirmers j) with
      | [] => (attempts, d)
      | batch =>
          let '(answered, d) := dispatch (job_plan j) batch d in
          let attempts := attempts ++ answered in
          if bool_decide (settlement attempts (rejects_required limits (job_severity j)) <> Undecided) then (attempts, d)
          else rounds fuel (S round) j attempts d
      end
  end.
Definition run_job (d : Driver) (j : ConfirmationJob) : Driver :=
  let '(attempts, d) := rounds (S (length (job_confirmers j))) 0 j [] d in
  mkDriver (dr_budget d) (dr_used d) (<[job_id j := attempts]> (dr_recorded d)) (calls d).
Definition run_jobs (jobs : list ConfirmationJob) : Driver := foldl run_job (mkDriver (confirmations limits) ∅ ∅ []) jobs.
(** [recorded.remove(id).unwrap_or_default()] *)
Definition take_recorded (t : Table) (plan : FindingPlan) : list ConfirmerAttempt * Table :=
  (default [] (t !! pf_id (plan_finding plan)), delete (pf_id (plan_finding plan)) t).
Definition confirm_run (jobs : list ConfirmationJob) : ConfirmedReview :=
  confirm_aggregate take_recorded limits jobs (dr_recorded (run_jobs jobs)).
End Driver.

(** ** The context a confirmer is shown *)

Definition end_of_line (s : string) : string := s +:+ String newline "".
Definition defines_or_imports (line symbol : string) : bool :=
  in_words (imported_names line) symbol || in_words (extract_defs line) symbol || bool_decide (const_name line = Some symbol).

Section Context.
Variable read : string -> option string.

Definition window_bounds (line : option nat) (count max_lines : nat) : nat * nat :=
  let centre := Nat.min (Nat.max (default 1%nat line) 1) count in
  let half := Nat.max (max_lines / 2) 1 in
  let start := (centre - half - 1)%nat in
  (start, Nat.min (start + max_lines) count).
Fixpoint window_lines (i : nat) (ls : list string) : string :=
  match ls with
  | [] => ""
  | l :: r => end_of_line (pad_left 6 (line_no (S i)) +:+ ": " +:+ l) +:+ window_lines (S i) r
  end.
Definition cited_window (location : string) (max_lines : nat) : option string :=
  '(path, line) ← cited_location location;
  text ← read path;
  let ls := lines text in
  match ls with
  | [] => None
  | _ => let '(start, stop) := window_bounds line (length ls) max_lines in
         Some (window_lines start (take (stop - start) (drop start ls)))
  end.

Definition sites_of (location : string) (site_paths : list string) : list string :=
  foldl push_new (match cited_location location with Some (p, _) => if str_is_empty p then [] else [p] | None => [] end) site_paths.
Definition site_hit (per_site : nat) (symbol site : string) : option string :=
  text ← read site;
  '(i, l) ← find_line (fun _ line => defines_or_imports line symbol) 0 (take per_site (lines text));
  Some (end_of_line ("- " +:+ symbol +:+ " at " +:+ site +:+ ":" +:+ line_no (S i) +:+ ": " +:+ trim l)).
(** The definition lines found, and the symbols left unresolved. *)
Fixpoint resolve_symbols (bound_ emitted : nat) (sites symbols : list string) : list string * list string :=
  match symbols with
  | [] => ([], [])
  | s :: r =>
      match (if (bound_ <=? emitted)%nat then None else find_map (site_hit bound_ s) sites) with
      | Some l => let '(found, unresolved) := resolve_symbols bound_ (S emitted) sites r in (l :: found, unresolved)
      | None => let '(found, unresolved) := resolve_symbols bound_ emitted sites r in (found, s :: unresolved)
      end
  end.
Definition definition_sites (claim location : string) (max_lines : nat) (site_paths : list string) : option string :=
  let symbols := claimed_symbols claim claim in
  let sites := sites_of location site_paths in
  if bool_decide (symbols = []) || bool_decide (sites = []) then None
  else
    let '(found, unresolved) := resolve_symbols (Nat.max max_lines 1) 0 sites symbols in
    let out := join "" found +:+
      (match unresolved with
       | [] => ""
       | _ => end_of_line ("- unresolved identifiers (no definition found in the " +:+ line_no (length sites)
                           +:+ " searched site(s)): " +:+ join ", " unresolved)
       end) in
    if str_is_empty out then None else Some out.
Definition build_context (f : PendingFinding) (hunk : string) (max_lines : nat) (site_paths : list string) : string :=
  let max_lines := Nat.max max_lines 1 in
  end_of_line "Finding under confirmation:"
  +:+ end_of_line ("- severity: " +:+ pf_severity f)
  +:+ (if str_is_empty (pf_location f) then "" else end_of_line ("- location: " +:+ pf_location f))
  +:+ (match opt_filter (fun q => negb (str_is_empty (trim q))) (pf_quote f) with
       | Some q => end_of_line ("- reviewer quote: " +:+ trim q) | None => "" end)
  +:+ end_of_line ("- claim: " +:+ pf_claim f)
  +:+ String newline (end_of_line "Diff hunk (the reviewer saw this):")
  +:+ join "" (map end_of_line (take max_lines (lines hunk)))
  +:+ (match cited_window (pf_location f) max_lines with
       | Some w => String newline (end_of_line "Cited file at the reviewed head (windowed around the cited line):") +:+ w
       | None => "" end)
  +:+ (match definition_sites (pf_claim f) (pf_location f) max_lines site_paths with
       | Some d => String newline (end_of_line "Definition sites of identifiers the finding names:") +:+ d
       | None => "" end).
End Context.

(** ** The caller (agentic.rs) *)

Definition verdict_triggers_confirmation (v : string) : bool := bool_decide (norm v ∈ ["request_changes"; "reject"; "block"]).
Definition confirmation_applies (r : ReviewOutput) : bool :=
  verdict_triggers_confirmation (verdict r) || existsb (fun f => is_blocking_severity (severity f)) (findings r).

(** What the caller uses of the engine: the confirm block of its configuration,
    the configured families, the model pinned by the command line, the agent or
    the configuration, in that order. *)
Record ConfirmEngine := mkConfirmEngine {
  ce_confirm : ReviewConfirmConfig;
  ce_families : list (string * string);
  ce_pinned : option string
}.
Definition push_model (models : list string) (model : string) : list string :=
  if negb (str_is_empty (trim model)) && negb (existsb (fun known => eq_ignore_ascii_case known model) models)
  then models ++ [model] else models.
Definition review_author_models (eng : ConfirmEngine) : list string :=
  foldl push_model [] (author_models (ce_confirm eng) ++ option_list (ce_pinned eng)).
Definition push_family (families : list string) (family : string) : list string :=
  if str_is_empty family || eq_ignore_ascii_case family "unknown" || existsb (fun known => eq_ignore_ascii_case known family) families
  then families else families ++ [family].
Definition review_author_families (eng : ConfirmEngine) : list string :=
  foldl push_family [] (map (fun m => trim (model_family (ce_families eng) m)) (review_author_models eng)).

Section Review.
Variable read : string -> option string.
Variable decode : string -> option Value.

Definition claim_of (f : Finding) : string := if str_is_empty (trim (body f)) then title f else title f +:+ " " +:+ body f.
Definition pending_finding (reviewer_family : string) (touched : list string) (f : Finding) : PendingFinding :=
  let claim := claim_of f in
  let location_ := default "" (location f) in
  let g := ground_finding read location_ claim touched in
  mkPending (finding_id reviewer_family location_ claim) (severity f) location_ (evidence_quote g) claim
    (bool_decide (is_Some (evidence_quote g))) (grounded g) (default "" (ungrounded_reason g)).
Definition pending_findings_for_confirm (r : ReviewOutput) (reviewer_family : string) (touched : list string) : list PendingFinding :=
  map (pending_finding reviewer_family touched) (findings r).

(** The end of a confirmer's dispatch: an answer with the model that served it,
    or an error. *)
Inductive ReviewerError := FallbackWorthy (status : option Z) | Fatal (message : string) | Skipped.
Definition classify_confirmer_error (e : ReviewerError) : ConfirmerOutcome :=
  match e with
  | FallbackWorthy (Some 429) => TooManyRequests
  | FallbackWorthy (Some 503) => Unavailable
  | FallbackWorthy _ => OutcomeEmpty
  | Skipped => Unavailable
  | Fatal message => if str_contains "timed out" message || str_contains "timeout" message then OutcomeTimeout else OutcomeEmpty
  end.
Record Dispatched := mkDispatched { ds_latency_ms : Z; ds_result : result (string * string) ReviewerError }.
Definition no_engine : ReviewerError := Fatal "confirming a finding needs a loaded engine".
Definition dispatch_confirmer (eng : option ConfirmEngine) (model finding_id_ context : string) (ran : Dispatched) : ConfirmerAttempt :=
  let family_of m := match eng with Some e => model_family (ce_families e) m | None => "" end in
  let res := match eng with Some _ => ds_result ran | None => Err no_engine end in
  match res with
  | Ok (served, content) =>
      confirmer_attempt_from_reply decode served (family_of served) (ds_latency_ms ran) content finding_id_ context
  | Err e => mkAttempt model (family_of model) (classify_confirmer_error e) (ds_latency_ms ran) 0 0 None
  end.

Definition plain_decision (f : PendingFinding) (d : Disposition) (reason : string) : FindingDecision :=
  mkDecision (pf_id f) (pf_severity f) (pf_location f) (pf_quote f) (pf_quote_found f) d false reason [].
Definition skipped_decision (f : PendingFinding) : FindingDecision :=
  plain_decision f NotRun "medium/low findings never reach confirmation".
Definition dropped_decision (blocking : list PendingFinding) (p : FindingPrecheck) : option FindingDecision :=
  if pc_dropped p then
    f ← find_first (fun f => bool_decide (pf_id f = pc_finding_id p)) blocking;
    Some (plain_decision f FilteredZ3
            (if str_is_empty (pc_reason p) then "the finding is not grounded in the code under review" else pc_reason p))
  else None.

(** What the [n]-th call comes to within the timeout, if anything. *)
Variable world : nat -> string -> FindingPlan -> option Dispatched.
Definition confirm_jobs (cfg : ReviewConfirmConfig) (family_of : string -> option string) (reviewer_model reviewer_family hunk : string)
  (touched author_families : list string) (pending : list PendingFinding) : list ConfirmationJob :=
  map (fun f =>
    let chain := select_confirmers (confirm_models cfg) reviewer_family author_families [] family_of in
    mkJob (mkFindingPlan f reviewer_model reviewer_family chain
             (build_context read f hunk (max_context_lines (limits_from_config cfg)) touched)) chain) pending.
Definition confirm_call (eng : option ConfirmEngine) (n : nat) (model : string) (plan : FindingPlan) : option ConfirmerAttempt :=
  dispatch_confirmer eng model (pf_id (plan_finding plan)) (plan_context plan) <$> world n model plan.
(** The merged review and the verdict it is left with. *)
Definition confirm_review (eng : option ConfirmEngine) (r : ReviewOutput) (reviewer_model hunk : string) (author_families : list string) :
  option (ConfirmedReview * string) :=
  let cfg := match eng with Some e => ce_confirm e | None => confirm_config_default end in
  let limits := limits_from_config cfg in
  let reviewer_family := match eng with Some e => model_family (ce_families e) reviewer_model | None => "" end in
  let family_of m := (fun e => model_family (ce_families e) m) <$> eng in
  let touched := touched_paths hunk in
  let all := pending_findings_for_confirm r reviewer_family touched in
  match all with
  | [] => None
  | _ =>
      let blocking := filterb (fun f => is_blocking_severity (pf_severity f)) all in
      let skipped := map skipped_decision (filterb (fun f => negb (is_blocking_severity (pf_severity f))) all) in
      if negb (confirmation_applies r) then Some (mkConfirmed skipped [] false None, verdict r)
      else
        let '(checks, pending) := precheck blocking in
        let dropped := omap (dropped_decision blocking) checks in
        let jobs := confirm_jobs cfg family_of reviewer_model reviewer_family hunk touched author_families pending in
        let confirmed := confirm_run (confirm_call eng) limits jobs in
        let merged := mkConfirmed (skipped ++ dropped ++ decisions confirmed) (demoted confirmed) (effective_blocking confirmed)
                        (reviewer_family_recall confirmed) in
        Some (merged, if raised_by_confirmed_finding merged (verdict r) then "request_changes" else effective_verdict merged)
  end.
End Review.

Section Reviews.
Variable read : string -> option string.
Variable decode : string -> option Value.
(** One world for each reviewer. *)
Variable worlds : nat -> nat -> string -> FindingPlan -> option Dispatched.
Definition with_review_verdict (r : ReviewOutput) (v : string) : ReviewOutput :=
  mkReview v (summary r) (findings r) (next_steps r) (escalation_reason r) (forced_family_conflict r) (filtered_findings r).
Definition confirm_slot (eng : ConfirmEngine) (diff : string) (author_families : list string) (k : nat) (slot : ReviewerSlot) :
  ReviewerSlot * option ConfirmedReview :=
  match slot with
  | SlotOk model review =>
      if confirmation_applies review then
        match confirm_review read decode (worlds k) (Some eng) review model diff author_families with
        | Some (section, v) => (SlotOk model (with_review_verdict review v), Some section)
        | None => (slot, None)
        end
      else (slot, None)
  | SlotFailed _ _ => (slot, None)
  end.
Definition confirm_reviews (eng : ConfirmEngine) (diff : string) (reviews : list ReviewerSlot) : list ReviewerSlot * list ConfirmedReview :=
  let out := imap (confirm_slot eng diff (review_author_families eng)) reviews in
  (map fst out, omap snd out).
End Reviews.

(** ** The record (shape 1) *)

Definition json_nat (n : Z) : Value := Number (Some n).
Definition reviewer_entry (model family role : string) (outcome : ConfirmerOutcome) (latency tin tout : Z) : Value :=
  Object [("model", Str model); ("family", Str family); ("role", Str role); ("outcome", Str (confirmer_outcome_str outcome));
          ("latency_ms", json_nat latency); ("tokens_in", json_nat tin); ("tokens_out", json_nat tout)].
Definition attempt_entry (a : ConfirmerAttempt) : Value :=
  reviewer_entry (a_model a) (a_family a) "confirmer" (a_outcome a) (a_latency_ms a) (a_tokens_in a) (a_tokens_out a).
Definition json_opt (s : option string) : Value := match s with Some s => Str s | None => Null end.
Definition finding_entry (d : FindingDecision) : Value :=
  Object [("id", Str (d_finding_id d)); ("severity", Str (d_severity d)); ("location", Str (d_location d)); ("quote", json_opt (d_quote d));
          ("quote_found", Bool (d_quote_found d)); ("disposition", Str (disposition_str (d_disposition d)));
          ("blocking", Bool (d_blocking d)); ("reason", Str (d_reason d))].
Definition demotion_entry (d : Demotion) : Value :=
  Object [("id", Str (dm_finding_id d)); ("severity", Str (dm_severity d)); ("reason", Str (dm_reason d));
          ("confirmer_ids", Array (map Str (dm_confirmer_ids d)))].
(** The recall is a fraction, of which no integer can be read. *)
Definition confirm_record (c : ConfirmedReview) (reviewer_model reviewer_family verdict_ : string) (latency tin tout : Z) (eval_ref : string)
  (author_families : list string) : Value :=
  Object [("version", json_nat 1); ("effective_blocking", Bool (effective_blocking c)); ("demoted", Array (map demotion_entry (demoted c)));
          ("verdict_basis", Str (verdict_basis c)); ("verdict", Str verdict_); ("reviewer_family_recall_ref", Str eval_ref);
          ("reviewer_family_recall", match reviewer_family_recall c with Some _ => Number None | None => Null end);
          ("author_families", Array (map Str author_families)); ("findings", Array (map finding_entry (decisions c)));
          ("reviewers", Array (reviewer_entry reviewer_model reviewer_family "reviewer" OutcomeOk latency tin tout
                               :: map attempt_entry (concat (map d_attempts (decisions c)))))].

(** ** What a release of a finding is stated with *)

(** The answers of the calls of a trace about one finding, in the order of the
    calls; [n] is the number of the trace's first call. *)
Fixpoint answers_about (call : nat -> string -> FindingPlan -> option ConfirmerAttempt) (limits : ConfirmLimits) (plan : FindingPlan)
  (n : nat) (trace : list (string * string)) : list ConfirmerAttempt :=
  match trace with
  | [] => []
  | (i, m) :: r =>
      if bool_decide (i = pf_id (plan_finding plan))
      then attempt call limits n m plan :: answers_about call limits plan (S n) r
      else answers_about call limits plan (S n) r
  end.
(** The calls the confirmation of a review makes. *)
Definition confirm_trace (read : string -> option string) (decode : string -> option Value)
  (world : nat -> string -> FindingPlan -> option Dispatched) (e : ConfirmEngine) (r : ReviewOutput) (model hunk : string)
  (authors : list string) : list (string * string) :=
  let fam := model_family (ce_families e) model in
  let blocking := filterb (fun f => is_blocking_severity (pf_severity f)) (pending_findings_for_confirm read r fam (touched_paths hunk)) in
  calls (run_jobs (confirm_call decode world (Some e)) (limits_from_config (ce_confirm e))
           (confirm_jobs read (ce_confirm e) (fun m => Some (model_family (ce_families e) m)) model fam hunk (touched_paths hunk)
              authors (precheck blocking).2)).
(** An attempt that served a verdict. *)
Definition voted (d : ParsedDisposition) (a : ConfirmerAttempt) : Prop :=
  a_outcome a = OutcomeOk /\ exists v, a_verdict a = Some v /\ v_disposition v = d.

(** * Theorems *)

(** ** Settlement *)

Lemma existsb_app_b {A} (p : A -> bool) l k : existsb p (l ++ k) = existsb p l || existsb p k.
Proof. apply existsb_app. Qed.

Lemma push_new_elem out w x : x ∈ push_new out w <-> x ∈ out \/ x = w.
Proof. unfold push_new. case_bool_decide; [naive_solver|]. rewrite elem_of_app, list_elem_of_singleton. done. Qed.
Lemma push_new_all_elem ws : forall out x, x ∈ foldl push_new out ws <-> x ∈ out \/ x ∈ ws.
Proof.
  induction ws as [|w ws IH]; intros out x; cbn [foldl].
  - rewrite elem_of_nil. naive_solver.
  - rewrite IH, push_new_elem, elem_of_cons. naive_solver.
Qed.
Lemma push_new_NoDup out w : NoDup out -> NoDup (push_new out w).
Proof.
  intros H. unfold push_new. case_bool_decide; [done|]. apply NoDup_app. split; [done|]. split; [|apply NoDup_singleton].
  intros x Hx ->%list_elem_of_singleton. done.
Qed.
Lemma push_new_all_NoDup ws : forall out, NoDup out -> NoDup (foldl push_new out ws).
Proof. induction ws as [|w ws IH]; intros out H; cbn [foldl]; [done|]. apply IH. by apply push_new_NoDup. Qed.

Lemma reject_families_spec attempts :
  NoDup (reject_families attempts)
  /\ forall fam, fam ∈ reject_families attempts <-> exists a, a ∈ attempts /\ answers PdReject a = true /\ a_family a = fam.
Proof.
  unfold reject_families. split; [apply push_new_all_NoDup; constructor|]. intros fam.
  rewrite push_new_all_elem, elem_of_nil, list_elem_of_fmap. setoid_rewrite elem_of_filterb. naive_solver.
Qed.

(** Only answers count: an attempt that timed out, was refused, came back empty
    or could not be read, or that was undecided, settles nothing. *)
Theorem failures_settle_nothing attempts requires :
  settlement (filterb (fun a => answers PdConfirm a || answers PdReject a) attempts) requires = settlement attempts requires.
Proof.
  unfold settlement, demoted_by_rejects, independent_rejects, reject_families, confirmed_verdict.
  assert (Hr : filterb (answers PdReject) (filterb (fun a => answers PdConfirm a || answers PdReject a) attempts)
               = filterb (answers PdReject) attempts).
  { unfold filterb. induction attempts as [|a l IH]; cbn; [done|].
    destruct (answers PdConfirm a), (answers PdReject a) eqn:E; cbn; rewrite ?E, ?IH; done. }
  assert (Hc : existsb (answers PdConfirm) (filterb (fun a => answers PdConfirm a || answers PdReject a) attempts)
               = existsb (answers PdConfirm) attempts).
  { clear Hr. unfold filterb. induction attempts as [|a l IH]; cbn; [done|].
    destruct (answers PdConfirm a) eqn:E, (answers PdReject a); cbn; rewrite ?E; cbn; auto. }
  by rewrite Hr, Hc.
Qed.

(** ** The calls of the driver *)

Lemma pick_batch_spec want budget used cs : forall batch,
  NoDup batch -> (forall m, m ∈ batch -> m ∉ used) -> (length batch <= Nat.min want budget)%nat ->
  let b := pick_batch want budget used batch cs in
  NoDup b /\ (forall m, m ∈ b -> (m ∉ used) /\ (m ∈ batch \/ m ∈ cs)) /\ (length b <= Nat.min want budget)%nat.
Proof.
  induction cs as [|c cs IH]; intros batch Hn Hu Hl; cbn [pick_batch].
  { split; [done|]. split; [|done]. intros m Hm. auto. }
  destruct ((want <=? length batch)%nat || (budget <=? length batch)%nat) eqn:Es.
  { split; [done|]. split; [|done]. intros m Hm. auto. }
  apply orb_false_iff in Es as [Hw%Nat.leb_gt Hb%Nat.leb_gt].
  destruct (bool_decide (c ∈ batch) || bool_decide (c ∈ used)) eqn:Ec.
  - destruct (IH batch Hn Hu Hl) as (H1 & H2 & H3). split; [done|]. split; [|done]. intros m Hm. destruct (H2 m Hm) as [? [?|?]]; split; auto.
    right. by right.
  - apply orb_false_iff in Ec as [Hc1%bool_decide_eq_false Hc2%bool_decide_eq_false].
    destruct (IH (batch ++ [c])) as (H1 & H2 & H3).
    + apply NoDup_app. split; [done|]. split; [|apply NoDup_singleton]. intros x Hx ->%list_elem_of_singleton. done.
    + intros m [?| ->%list_elem_of_singleton]%elem_of_app; auto.
    + rewrite length_app. cbn. lia.
    + split; [done|]. split; [|done]. intros m Hm. destruct (H2 m Hm) as [? [[?| ->%list_elem_of_singleton]%elem_of_app|?]]; split; auto.
      * right. by left.
      * right. by right.
Qed.

(** What the trace of calls and the budget always satisfy. *)
Record driver_ok (total : nat) (allowed : string -> string -> Prop) (d : Driver) : Prop := {
  ok_budget : (dr_budget d + length (calls d) = total)%nat;
  ok_once : NoDup (calls d);
  ok_used : forall id m, m ∈ default [] (dr_used d !! id) <-> (id, m) ∈ calls d;
  ok_allowed : forall id m, (id, m) ∈ calls d -> allowed id m
}.

Section Runs.
Variable call : nat -> string -> FindingPlan -> option ConfirmerAttempt.
Variable limits : ConfirmLimits.
Notation dispatch := (dispatch call limits).
Notation rounds := (rounds call limits).

Lemma dispatch_ok total allowed plan batch d answered d' :
  driver_ok total allowed d -> NoDup batch -> (length batch <= dr_budget d)%nat ->
  (forall m, m ∈ batch -> (m ∉ default [] (dr_used d !! pf_id (plan_finding plan))) /\ allowed (pf_id (plan_finding plan)) m) ->
  dispatch plan batch d = (answered, d') ->
  driver_ok total allowed d' /\ calls d' = calls d ++ map (pair (pf_id (plan_finding plan))) batch.
Proof.
  intros [Hb Ho Hu Ha] Hn Hl Hm [= <- <-]. set (id := pf_id (plan_finding plan)) in *. split; [|done]. constructor; cbn.
  - rewrite length_app, length_map. lia.
  - apply NoDup_app. split; [done|]. split; [|apply NoDup_fmap_2; [by intros ? ? [= ->]|done]].
    intros [i m] Hc (m' & [= -> ->] & Hm')%list_elem_of_fmap. destruct (Hm m' Hm') as [Hnu _]. apply Hnu. by apply Hu.
  - intros i m. rewrite elem_of_app, list_elem_of_fmap, <- Hu. destruct (decide (i = id)) as [->|Hne].
    + rewrite lookup_insert, decide_True by done. cbn. rewrite elem_of_app. naive_solver.
    + rewrite lookup_insert_ne by done. naive_solver.
  - intros i m [?|(m' & [= -> ->] & Hm')%list_elem_of_fmap]%elem_of_app; [by apply Ha|]. by apply Hm.
Qed.

Lemma rounds_ok total allowed fuel : forall round j attempts d res d',
  driver_ok total allowed d -> (forall m, m ∈ job_confirmers j -> allowed (job_id j) m) ->
  rounds fuel round j attempts d = (res, d') -> driver_ok total allowed d'.
Proof.
  induction fuel as [|fuel IH]; intros round j attempts d res d' Hd Ha; cbn [ReviewConfirm.rounds].
  { by intros [= <- <-]. }
  set (want := if (round =? 0)%nat then PRIMARY_PAIR else 1%nat).
  pose proof (pick_batch_spec want (dr_budget d) (default [] (dr_used d !! job_id j)) (job_confirmers j) [] NoDup_nil_2
                ltac:(by intros ? ?%not_elem_of_nil) ltac:(cbn; lia)) as (Hn & Hm & Hl).
  destruct (pick_batch _ _ _ _ _) as [|b bs] eqn:Ep; [by intros [= <- <-]|].
  destruct (dispatch (job_plan j) (b :: bs) d) as [answered d1] eqn:Ed. intros H.
  assert (driver_ok total allowed d1) as Hd1.
  { eapply dispatch_ok in Ed as [? _]; [done|done|done|lia|]. intros m Hin. destruct (Hm m Hin) as [? [?%not_elem_of_nil|?]]; [done|].
    split; [done|]. by apply Ha. }
  case_bool_decide; [by simplify_eq|]. by eapply IH.
Qed.

Lemma run_jobs_ok total (allowed : string -> string -> Prop) jobs : forall d,
  (forall j m, j ∈ jobs -> m ∈ job_confirmers j -> allowed (job_id j) m) ->
  driver_ok total allowed d -> driver_ok total allowed (foldl (run_job call limits) d jobs).
Proof.
  induction jobs as [|j jobs IH]; intros d Ha Hd; cbn [foldl]; [done|]. apply IH; [intros; eapply Ha; [by right|done]|].
  unfold run_job. destruct (rounds _ _ _ _ _) as [res d'] eqn:Er.
  assert (driver_ok total allowed d') as Hd' by (eapply rounds_ok; [exact Hd| |exact Er]; intros m Hm; eapply Ha; [by left|done]).
  destruct Hd'. by constructor.
Qed.

(** The rounds of one finding: every attempt answers a call about that finding
    to one of its confirmers, and while a call follows the first pair the
    finding was undecided. *)
Definition asked (j : ConfirmationJob) (a : ConfirmerAttempt) : Prop :=
  exists n m, m ∈ job_confirmers j /\ a = attempt call limits n m (job_plan j).
Definition undecided_until (r : nat) (l : list ConfirmerAttempt) (n : nat) : Prop :=
  forall k, (2 <= k < n)%nat -> settlement (take k l) r = Undecided.

Lemma imap_asked j d batch : (forall m, m ∈ batch -> m ∈ job_confirmers j) ->
  Forall (asked j) (imap (fun k m => attempt call limits (length (calls d) + k) m (job_plan j)) batch).
Proof.
  intros Hb. apply Forall_forall. intros a Ha. apply elem_of_lookup_imap in Ha as (k & m & -> & Hk).
  exists (length (calls d) + k)%nat, m. split; [|done]. apply Hb. by eapply list_elem_of_lookup_2.
Qed.

Lemma rounds_asked fuel : forall round j attempts d res d',
  Forall (asked j) attempts -> rounds fuel round j attempts d = (res, d') ->
  Forall (asked j) res /\ dr_recorded d' = dr_recorded d.
Proof.
  induction fuel as [|fuel IH]; intros round j attempts d res d' Ha; cbn [ReviewConfirm.rounds]; [by intros [= <- <-]|].
  pose proof (pick_batch_spec (if (round =? 0)%nat then PRIMARY_PAIR else 1%nat) (dr_budget d) (default [] (dr_used d !! job_id j))
                (job_confirmers j) [] NoDup_nil_2 ltac:(by intros ? ?%not_elem_of_nil) ltac:(cbn; lia)) as (_ & Hm & _).
  destruct (pick_batch _ _ _ _ _) as [|b bs] eqn:Ep; [by intros [= <- <-]|].
  unfold dispatch. cbn zeta. intros H.
  assert (Forall (asked j) (attempts ++ imap (fun k m => attempt call limits (length (calls d) + k) m (job_plan j)) (b :: bs))) as Ha'.
  { apply Forall_app. split; [done|]. apply imap_asked. intros m Hin. destruct (Hm m Hin) as [_ [?%not_elem_of_nil|?]]; done. }
  cbv iota beta in H. case_bool_decide; [by simplify_eq|]. apply IH in H; [|done]. destruct H as [? ->]. done.
Qed.

Lemma rounds_undecided fuel : forall round j attempts d res d',
  let r := rejects_required limits (job_severity j) in
  (round = 0%nat -> attempts = []) -> (round <> 0%nat -> undecided_until r attempts (S (length attempts))) ->
  rounds fuel round j attempts d = (res, d') -> undecided_until r res (length res).
Proof.
  induction fuel as [|fuel IH]; intros round j attempts d res d' r H0 Hu; cbn [ReviewConfirm.rounds].
  - intros [= <- <-] k Hk. destruct (decide (round = 0%nat)) as [->|Hr]; [rewrite H0 in Hk by done; cbn in Hk; lia|].
    apply Hu; [done|lia].
  - pose proof (pick_batch_spec (if (round =? 0)%nat then PRIMARY_PAIR else 1%nat) (dr_budget d) (default [] (dr_used d !! job_id j))
                (job_confirmers j) [] NoDup_nil_2 ltac:(by intros ? ?%not_elem_of_nil) ltac:(cbn; lia)) as (_ & _ & Hl).
    destruct (pick_batch _ _ _ _ _) as [|b bs] eqn:Ep.
    { intros [= <- <-] k Hk. destruct (decide (round = 0%nat)) as [->|Hr]; [rewrite H0 in Hk by done; cbn in Hk; lia|].
      apply Hu; [done|lia]. }
    unfold dispatch. cbn zeta. cbv iota beta.
    set (more := imap _ (b :: bs)). assert (length more = length (b :: bs)) as Hmore by apply length_imap.
    assert (forall k, (2 <= k < length (attempts ++ more))%nat -> settlement (take k (attempts ++ more)) r = Undecided) as Hall.
    { intros k Hk. rewrite length_app, Hmore in Hk. destruct (decide (round = 0%nat)) as [->|Hr].
      - rewrite H0 in Hk by done. change (0 =? 0)%nat with true in Hl. unfold PRIMARY_PAIR in Hl. cbn [length] in *. lia.
      - apply Nat.eqb_neq in Hr as Hr'. rewrite Hr' in Hl. cbn [length] in *. rewrite take_app_le by lia. apply Hu; [done|lia]. }
    case_bool_decide as Hs; intros H; [by simplify_eq|].
    refine (IH _ _ _ _ _ _ _ _ H); [done|]. intros _ k Hk. destruct (decide (k = length (attempts ++ more))) as [->|Hne]; [|apply Hall; lia].
    rewrite firstn_all. exact Hs.
Qed.

(** The rounds given are enough: with a round more than there are confirmers
    that were not asked, further fuel changes nothing. *)
Definition unused (j : ConfirmationJob) (d : Driver) : nat :=
  length (filterb (fun m => negb (bool_decide (m ∈ default [] (dr_used d !! job_id j)))) (job_confirmers j)).
Lemma filterb_less {A} (p q : A -> bool) l x : (forall y, q y = true -> p y = true) -> x ∈ l -> p x = true -> q x = false ->
  (length (filterb q l) < length (filterb p l))%nat.
Proof.
  unfold filterb. intros Hqp. assert (Hle : forall l, (length (List.filter q l) <= length (List.filter p l))%nat).
  { intros k. induction k as [|y k IH]; cbn; [done|]. destruct (q y) eqn:Eq; [rewrite (Hqp y Eq); cbn; lia|]. destruct (p y); cbn; lia. }
  induction l as [|y l IH]; [by intros ?%not_elem_of_nil|]. intros [->|Hx]%elem_of_cons Hp Hq; cbn.
  - rewrite Hp, Hq. cbn. specialize (Hle l). lia.
  - specialize (IH Hx Hp Hq). destruct (q y) eqn:Eq; [rewrite (Hqp y Eq); cbn; lia|]. destruct (p y); cbn; lia.
Qed.
Lemma dispatch_unused j b bs d answered d' : dispatch (job_plan j) (b :: bs) d = (answered, d') ->
  b ∈ job_confirmers j -> b ∉ default [] (dr_used d !! job_id j) -> (unused j d' < unused j d)%nat.
Proof.
  intros [= <- <-] Hb Hu. unfold unused. cbn [dr_used]. fold (job_id j).
  rewrite lookup_insert, decide_True by done. cbn [default from_option]. unfold id.
  apply (filterb_less _ _ _ b); [|done| |].
  - intros y. rewrite !negb_true_iff, !bool_decide_eq_false, elem_of_app. naive_solver.
  - by rewrite bool_decide_false.
  - rewrite bool_decide_true; [done|]. apply elem_of_app. right. by left.
Qed.
Lemma rounds_fuel k fuel : forall round j attempts d, (unused j d < fuel)%nat ->
  rounds (fuel + k) round j attempts d = rounds fuel round j attempts d.
Proof.
  induction fuel as [|fuel IH]; intros round j attempts d Hf; [lia|]. cbn [Nat.add ReviewConfirm.rounds].
  pose proof (pick_batch_spec (if (round =? 0)%nat then PRIMARY_PAIR else 1%nat) (dr_budget d) (default [] (dr_used d !! job_id j))
                (job_confirmers j) [] NoDup_nil_2 ltac:(by intros ? ?%not_elem_of_nil) ltac:(cbn; lia)) as (_ & Hm & _).
  destruct (pick_batch _ _ _ _ _) as [|b bs] eqn:Ep; [done|].
  destruct (dispatch (job_plan j) (b :: bs) d) as [answered d1] eqn:Ed. case_bool_decide; [done|]. apply IH.
  destruct (Hm b ltac:(by left)) as [? [?%not_elem_of_nil|?]]; [done|].
  pose proof (dispatch_unused j b bs d answered d1 Ed ltac:(done) ltac:(done)). lia.
Qed.
End Runs.

(** C35: the driver makes at most the calls its budget allows, asks no confirmer
    twice about one finding and only the confirmers planned for it. *)
Theorem confirm_budget call limits jobs :
  let d := run_jobs call limits jobs in
  (dr_budget d + length (calls d) = confirmations limits)%nat
  /\ NoDup (calls d)
  /\ forall id m, (id, m) ∈ calls d -> exists j, j ∈ jobs /\ job_id j = id /\ m ∈ job_confirmers j.
Proof.
  cbn zeta. assert (driver_ok (confirmations limits) (fun id m => exists j, j ∈ jobs /\ job_id j = id /\ m ∈ job_confirmers j)
    (run_jobs call limits jobs)) as [? ? _ ?].
  { apply run_jobs_ok; [by eauto|]. constructor; cbn.
    - lia.
    - constructor.
    - intros id m. rewrite lookup_empty. cbn. by rewrite !elem_of_nil.
    - by intros id m ?%not_elem_of_nil. }
  done.
Qed.

(** C36: the rounds of a finding end for a reason of their own, whatever the world
    answers, and a call beyond the first pair is only made while the finding is
    undecided. *)
Theorem confirm_rounds_end call limits j d k :
  let ended := rounds call limits (S (length (job_confirmers j))) 0 j [] d in
  rounds call limits (S (length (job_confirmers j)) + k) 0 j [] d = ended
  /\ forall n, (2 <= n < length ended.1)%nat ->
       settlement (take n ended.1) (rejects_required limits (job_severity j)) = Undecided.
Proof.
  cbn zeta. split.
  - apply rounds_fuel, Nat.lt_succ_r, filterb_length.
  - destruct (rounds _ _ _ _ _ _ _) as [res d'] eqn:H.
    apply (rounds_undecided call limits _ _ _ _ _ _ _) in H; [|done..]. apply H.
Qed.

(** ** What releases a finding *)

Lemma disposition_blocking attempts r : (disposition_of attempts r).2 = false <-> settlement attempts r = SettledDemoted.
Proof. unfold disposition_of. destruct (settlement attempts r); cbn; [by split|by split|]. repeat case_match; by split. Qed.
Lemma decide_job_blocking limits j attempts :
  d_blocking (decide_job limits j attempts).1 = (disposition_of attempts (rejects_required limits (job_severity j))).2.
Proof. unfold decide_job, job_severity. destruct (disposition_of attempts _) as [d b]. done. Qed.
Lemma rejects_required_pos limits s : (1 <= rejects_required limits s)%nat.
Proof. unfold rejects_required. case_match; lia. Qed.
Lemma settlement_nil r : (1 <= r)%nat -> settlement [] r = Undecided.
Proof. intros. unfold settlement, demoted_by_rejects. cbn. destruct r; [lia|done]. Qed.

(** When nothing blocks, every job was demoted by attempts recorded for it, and
    no two jobs share an identity. *)
Lemma decide_jobs_released limits jobs : forall t,
  existsb d_blocking (map fst (decide_jobs take_recorded limits jobs t)) = false ->
  NoDup (map job_id jobs)
  /\ forall j, j ∈ jobs -> settlement (default [] (t !! job_id j)) (rejects_required limits (job_severity j)) = SettledDemoted.
Proof.
  induction jobs as [|j jobs IH]; intros t; cbn [decide_jobs map].
  { intros _. split; [constructor|]. by intros j ?%not_elem_of_nil. }
  unfold take_recorded. cbn [map fst existsb]. intros [Hj Hr]%orb_false_iff.
  rewrite decide_job_blocking in Hj. apply disposition_blocking in Hj. fold (job_id j) in *.
  destruct (IH _ Hr) as [Hn Hall].
  assert (Hne : forall j', j' ∈ jobs -> job_id j' <> job_id j).
  { intros j' Hj' E. specialize (Hall j' Hj'). rewrite E, lookup_delete, decide_True in Hall by done. cbn [default from_option] in Hall.
    rewrite settlement_nil in Hall by apply rejects_required_pos. done. }
  split.
  - constructor; [|done]. intros (j' & E & Hj')%list_elem_of_fmap. by apply (Hne j').
  - intros j' [->|Hj']%elem_of_cons; [done|]. specialize (Hall j' Hj'). rewrite lookup_delete_ne in Hall; [done|].
    intros E. by apply (Hne j').
Qed.

Lemma answers_about_app call limits plan a : forall n b,
  answers_about call limits plan n (a ++ b) = answers_about call limits plan n a ++ answers_about call limits plan (n + length a) b.
Proof.
  induction a as [|[i m] a IH]; intros n b; cbn [answers_about app length]; [by rewrite Nat.add_0_r|].
  rewrite IH, <- Nat.add_succ_comm. by case_bool_decide.
Qed.
Lemma answers_about_own call limits plan ms : forall n,
  answers_about call limits plan n (map (pair (pf_id (plan_finding plan))) ms) = imap (fun k m => attempt call limits (n + k) m plan) ms.
Proof.
  induction ms as [|m ms IH]; intros n; cbn; [done|]. rewrite bool_decide_true by done. rewrite IH, Nat.add_0_r. f_equal.
  apply imap_ext. intros k x _. cbn. by rewrite Nat.add_succ_r.
Qed.
Lemma answers_about_other call limits plan trace : forall n,
  (forall c, c ∈ trace -> c.1 <> pf_id (plan_finding plan)) -> answers_about call limits plan n trace = [].
Proof.
  induction trace as [|[i m] trace IH]; intros n Hne; cbn; [done|]. rewrite bool_decide_false by (apply (Hne (i, m)); by left).
  apply IH. intros c Hc. apply Hne. by right.
Qed.

Section Recorded.
Variable call : nat -> string -> FindingPlan -> option ConfirmerAttempt.
Variable limits : ConfirmLimits.
Lemma rounds_trace fuel : forall round j attempts d res d',
  rounds call limits fuel round j attempts d = (res, d') ->
  exists new, calls d' = calls d ++ map (pair (job_id j)) new
    /\ res = attempts ++ imap (fun k m => attempt call limits (length (calls d) + k) m (job_plan j)) new.
Proof.
  induction fuel as [|fuel IH]; intros round j attempts d res d'; cbn [ReviewConfirm.rounds].
  { intros [= <- <-]. exists []. by rewrite !app_nil_r. }
  destruct (pick_batch _ _ _ _ _) as [|b bs] eqn:Ep; [intros [= <- <-]; exists []; by rewrite !app_nil_r|].
  set (batch := b :: bs). unfold dispatch. cbv zeta iota beta. case_bool_decide; intros E.
  { injection E as <- <-. by exists batch. }
  apply IH in E as (new & Hc & ->). exists (batch ++ new). cbn [calls] in *. rewrite Hc. fold (job_id j). split.
  - by rewrite map_app, app_assoc.
  - clearbody batch. rewrite <- app_assoc, imap_app. do 2 f_equal. apply imap_ext. intros k m _. unfold compose. rewrite length_app, length_map.
    by rewrite Nat.add_assoc.
Qed.
Lemma run_job_recorded d j : exists new,
  Forall (asked call limits j) (imap (fun k m => attempt call limits (length (calls d) + k) m (job_plan j)) new)
  /\ dr_recorded (run_job call limits d j) = <[job_id j := imap (fun k m => attempt call limits (length (calls d) + k) m (job_plan j)) new]> (dr_recorded d)
  /\ calls (run_job call limits d j) = calls d ++ map (pair (job_id j)) new.
Proof.
  unfold run_job. destruct (rounds _ _ _ _ _ _) as [res d'] eqn:Er. pose proof (rounds_trace _ _ _ _ _ _ _ Er) as (new & Hc & Hr).
  apply rounds_asked in Er as [Ha E]; [|constructor]. cbn in Hr. subst res. exists new. cbn. by rewrite E.
Qed.
Lemma run_jobs_other jobs id : forall d, id ∉ map job_id jobs ->
  dr_recorded (foldl (run_job call limits) d jobs) !! id = dr_recorded d !! id
  /\ exists more, calls (foldl (run_job call limits) d jobs) = calls d ++ more /\ forall c, c ∈ more -> c.1 <> id.
Proof.
  induction jobs as [|j jobs IH]; intros d; cbn [foldl map].
  { split; [done|]. exists []. split; [by rewrite app_nil_r|]. by intros c ?%not_elem_of_nil. }
  intros [Hj Hr]%not_elem_of_cons. destruct (run_job_recorded d j) as (new & _ & E & Hc).
  destruct (IH (run_job call limits d j) Hr) as (-> & more & -> & Hm). rewrite E, Hc, lookup_insert_ne by done. split; [done|].
  exists (map (pair (job_id j)) new ++ more). split; [by rewrite app_assoc|].
  intros c [(m & -> & _)%list_elem_of_fmap|?]%elem_of_app; [done|by apply Hm].
Qed.
Lemma run_jobs_recorded jobs j : forall d, NoDup (map job_id jobs) -> j ∈ jobs -> (forall c, c ∈ calls d -> c.1 <> job_id j) ->
  let d' := foldl (run_job call limits) d jobs in
  let res := answers_about call limits (job_plan j) 0 (calls d') in
  Forall (asked call limits j) res /\ dr_recorded d' !! job_id j = Some res.
Proof.
  induction jobs as [|x jobs IH]; intros d Hn; [by intros ?%not_elem_of_nil|]. cbn in Hn. apply NoDup_cons in Hn as [Hx Hn].
  destruct (run_job_recorded d x) as (new & Ha & E & Hc). intros [->|Hj]%elem_of_cons Hd; cbn [foldl].
  - destruct (run_jobs_other jobs (job_id x) (run_job call limits d x) Hx) as (-> & more & -> & Hm). rewrite E, Hc, lookup_insert, decide_True by done.
    rewrite <- app_assoc, !answers_about_app, (answers_about_other _ _ _ (calls d)), (answers_about_other _ _ _ more) by done.
    cbn [app Nat.add]. unfold job_id. rewrite answers_about_own, app_nil_r. done.
  - apply IH; [done..|]. rewrite Hc. intros c [?|(m & -> & _)%list_elem_of_fmap]%elem_of_app; [by apply Hd|].
    cbn. intros Heq. apply Hx. rewrite Heq. by apply list_elem_of_fmap_2.
Qed.
End Recorded.

Lemma select_spec rf authors used family_of chain : forall out,
  NoDup out ->
  let res := foldl (select_step rf authors used family_of) out chain in
  NoDup res /\ forall m, m ∈ res <-> m ∈ out \/ (m ∈ chain /\ (m ∉ used) /\ exists fam, family_of m = Some fam /\ foreign rf authors fam = true).
Proof.
  induction chain as [|c chain IH]; intros out Hn; cbn [foldl].
  { split; [done|]. intros m. rewrite elem_of_nil. naive_solver. }
  assert (Hstep : NoDup (select_step rf authors used family_of out c) /\ forall m, m ∈ select_step rf authors used family_of out c
     <-> m ∈ out \/ (m = c /\ (m ∉ used) /\ exists fam, family_of m = Some fam /\ foreign rf authors fam = true)).
  { unfold select_step. destruct (bool_decide (c ∈ out) || bool_decide (c ∈ used)) eqn:E.
    - split; [done|]. intros m. apply orb_true_iff in E as [E|E]; apply bool_decide_eq_true in E; naive_solver.
    - apply orb_false_iff in E as [H1%bool_decide_eq_false H2%bool_decide_eq_false].
      destruct (family_of c) as [fam|] eqn:Ef; [destruct (foreign rf authors fam) eqn:Eo|].
      + split.
        * apply NoDup_app. split; [done|]. split; [|apply NoDup_singleton]. intros x Hx ->%list_elem_of_singleton. done.
        * intros m. rewrite elem_of_app, list_elem_of_singleton. naive_solver.
      + split; [done|]. intros m. split; [by left|]. intros [?|(-> & _ & fam' & ? & ?)]; [done|congruence].
      + split; [done|]. intros m. split; [by left|]. intros [?|(-> & _ & fam' & ? & ?)]; [done|congruence]. }
  destruct Hstep as [Hn' Hin]. destruct (IH _ Hn') as [H1 H2]. split; [done|]. intros m. rewrite H2, Hin, elem_of_cons. naive_solver.
Qed.

(** The confirmers of a finding are, without repetition, the models of the
    chain that were not used and whose family is neither the reviewer's nor an
    author's. *)
Theorem select_confirmers_exact chain rf authors used family_of :
  NoDup (select_confirmers chain rf authors used family_of)
  /\ forall m, m ∈ select_confirmers chain rf authors used family_of <->
       m ∈ chain /\ (m ∉ used) /\ exists fam, family_of m = Some fam
         /\ eq_ignore_ascii_case fam rf = false /\ forall a, a ∈ authors -> eq_ignore_ascii_case a fam = false.
Proof.
  destruct (select_spec rf authors used family_of chain [] NoDup_nil_2) as [H1 H2]. split; [done|].
  intros m. unfold select_confirmers. rewrite H2, elem_of_nil.
  assert (Hf : forall fam, foreign rf authors fam = true <->
    eq_ignore_ascii_case fam rf = false /\ forall a, a ∈ authors -> eq_ignore_ascii_case a fam = false).
  { intros fam. unfold foreign. rewrite andb_true_iff, !negb_true_iff, existsb_none. done. }
  setoid_rewrite Hf. naive_solver.
Qed.

Lemma answers_voted d a : answers d a = true <-> voted d a.
Proof.
  unfold answers, voted. destruct (a_verdict a) as [v|]; rewrite andb_true_iff, ?bool_decide_eq_true; naive_solver.
Qed.
Lemma settled_demoted attempts r : settlement attempts r = SettledDemoted ->
  (forall a, a ∈ attempts -> ~ voted PdConfirm a)
  /\ (r <= length (reject_families attempts))%nat /\ NoDup (reject_families attempts)
  /\ forall x, x ∈ reject_families attempts -> exists a, a ∈ attempts /\ a_family a = x /\ answers PdReject a = true.
Proof.
  unfold settlement, demoted_by_rejects, independent_rejects, confirmed_verdict.
  destruct (existsb (answers PdConfirm) attempts) eqn:Ec; [done|]. rewrite existsb_none in Ec.
  destruct (Nat.leb_spec r (length (reject_families attempts))) as [Hle|]; [|done]. intros _.
  destruct (reject_families_spec attempts) as [Hnd Hin]. split; [|split; [done|split; [done|]]].
  - intros a Ha Hs%answers_voted. by rewrite (Ec a Ha) in Hs.
  - intros x (a & ? & ? & ?)%Hin. by exists a.
Qed.
Lemma cfg_required_le cfg s : is_blocking_severity s = true ->
  (cfg_rejects_required cfg s <= rejects_required (limits_from_config cfg) s)%nat.
Proof.
  intros _. unfold cfg_rejects_required, rejects_required. unfold limits_from_config. cbn [critical_rejects high_rejects]. unfold cfg_rejects_required.
  change (norm "critical") with "critical". change (norm "high") with "high". cbn [bool_decide].
  rewrite (bool_decide_true ("critical" = "critical")), (bool_decide_false ("high" = "critical")) by done. case_bool_decide; lia.
Qed.
Lemma decide_jobs_elem limits jobs j : forall t, NoDup (map job_id jobs) -> j ∈ jobs ->
  (decide_job limits j (default [] (t !! job_id j))).1 ∈ map fst (decide_jobs take_recorded limits jobs t).
Proof.
  induction jobs as [|x jobs IH]; intros t Hn; [by intros ?%not_elem_of_nil|]. cbn in Hn. apply NoDup_cons in Hn as [Hx Hn].
  cbn [decide_jobs]. unfold take_recorded at 1. cbn [map]. intros [->|Hj]%elem_of_cons; [by left|]. right.
  specialize (IH (delete (job_id x) t) Hn Hj). rewrite lookup_delete_ne in IH; [done|].
  intros E. apply Hx. rewrite E. by apply list_elem_of_fmap_2.
Qed.
(** When nothing blocks, a job's decision records the answers of every call
    made about it, and they demoted it. *)
Lemma released_job call limits jobs j :
  effective_blocking (confirm_run call limits jobs) = false -> j ∈ jobs ->
  exists d, d ∈ decisions (confirm_run call limits jobs) /\ d_finding_id d = job_id j /\ d_disposition d = Rejected
    /\ d_attempts d = answers_about call limits (job_plan j) 0 (calls (run_jobs call limits jobs))
    /\ Forall (asked call limits j) (d_attempts d)
    /\ settlement (d_attempts d) (rejects_required limits (job_severity j)) = SettledDemoted.
Proof.
  intros Heff Hj. unfold confirm_run, confirm_aggregate in *. cbn [effective_blocking decisions] in *.
  destruct (decide_jobs_released _ _ _ Heff) as [Hn Hall]. specialize (Hall j Hj).
  destruct (run_jobs_recorded call limits jobs j (mkDriver (confirmations limits) ∅ ∅ []) Hn Hj) as [Ha E]; [by intros c ?%not_elem_of_nil|].
  pose proof (decide_jobs_elem limits jobs j (dr_recorded (run_jobs call limits jobs)) Hn Hj) as Hin.
  fold (run_jobs call limits jobs) in Ha, E. rewrite E in Hall, Hin. cbn [default from_option] in Hall, Hin. unfold id in Hall, Hin.
  eexists. split; [exact Hin|]. unfold decide_job, job_severity in *. unfold disposition_of. rewrite Hall. done.
Qed.

(** A rejection as the release of a finding needs it: the model asked is one of
    the chain and of a family foreign to the reviewer's and the authors', the
    reply was served within the timeout, names this finding, and quotes what
    the confirmer was shown. *)
Definition valid_reject (decode : string -> option Value) (world : nat -> string -> FindingPlan -> option Dispatched)
  (e : ConfirmEngine) (authors : list string) (plan : FindingPlan) (fam : string) : Prop :=
  exists n m ran served content verdict_ q,
    m ∈ confirm_models (ce_confirm e)
    /\ foreign (plan_reviewer_family plan) authors (model_family (ce_families e) m) = true
    /\ world n m plan = Some ran /\ ds_result ran = Ok (served, content)
    /\ fam = model_family (ce_families e) served
    /\ parse_confirmer_output decode content (pf_id (plan_finding plan)) (plan_context plan) = Some verdict_
    /\ v_disposition verdict_ = PdReject /\ v_quote verdict_ = Some q /\ quote_in q (plan_context plan) = true.

Lemma parse_reject_quotes decode raw id ctx v : parse_confirmer_output decode raw id ctx = Some v -> v_disposition v = PdReject ->
  exists q, v_quote v = Some q /\ quote_in q ctx = true.
Proof.
  unfold parse_confirmer_output. destruct (parse_object decode raw) as [value|]; cbn; [|done].
  destruct (value_get_str value "finding_id"); cbn; [|done]. case_match; [done|].
  destruct (value_get_str value "disposition"); cbn; [|done]. destruct (value_get_str value "quote") as [q|]; cbn; [|done].
  destruct (value_get_str value "reason"); cbn; [|done]. intros [= <-]. cbn. unfold reply_disposition.
  destruct (bool_decide (_ \/ _)); [|done]. destruct (str_is_empty (trim q)); [done|]. destruct (quote_in (trim q) ctx) eqn:E; [|done]. eauto.
Qed.

Lemma asked_reject decode world e limits authors rf chain_models j a :
  job_confirmers j = select_confirmers chain_models rf authors [] (fun m => Some (model_family (ce_families e) m)) ->
  chain_models = confirm_models (ce_confirm e) -> plan_reviewer_family (job_plan j) = rf ->
  asked (confirm_call decode world (Some e)) limits j a -> answers PdReject a = true ->
  valid_reject decode world e authors (job_plan j) (a_family a).
Proof.
  intros Hc -> <- (n & m & Hm & ->) Hr. rewrite Hc in Hm.
  destruct (select_spec (plan_reviewer_family (job_plan j)) authors [] (fun m => Some (model_family (ce_families e) m))
              (confirm_models (ce_confirm e)) [] NoDup_nil_2) as [_ Hsel].
  apply Hsel in Hm as [?%not_elem_of_nil|(Hm & _ & fam & [= <-] & Hf)]; [done|].
  unfold attempt, confirm_call in *. destruct (world n m (job_plan j)) as [ran|] eqn:Ew; cbn in *; [|done].
  unfold dispatch_confirmer in *. destruct (ds_result ran) as [[served content]|err] eqn:Ed;
    [|unfold answers in Hr; cbn [a_verdict] in Hr; by rewrite andb_false_r in Hr].
  unfold confirmer_attempt_from_reply, answers in Hr. cbn [a_outcome a_verdict] in Hr.
  destruct (str_is_empty (trim content)) eqn:Ec; [done|].
  destruct (parse_confirmer_output decode content (pf_id (plan_finding (job_plan j))) (plan_context (job_plan j))) as [v|] eqn:Ep; [|done].
  apply andb_true_iff in Hr as [_ Hd%bool_decide_eq_true]. destruct (parse_reject_quotes _ _ _ _ _ Ep Hd) as (q & Hq & Hin).
  exists n, m, ran, served, content, v, q. cbn. auto 10.
Qed.

(** C8: A review with a finding of high or critical severity is left with a verdict
    other than [request_changes] only when each such finding is either shown
    not to be about the code, or recorded as rejected: its recorded attempts
    are the answers of all the calls made about it, none of them confirmed it,
    and as many families as its severity needs rejected it among them, each
    with a valid rejection. *)
Theorem released_only_by_rejects read decode world e r model hunk authors merged v f :
  confirm_review read decode world (Some e) r model hunk authors = Some (merged, v) -> v <> "request_changes" ->
  f ∈ findings r -> is_blocking_severity (severity f) = true ->
  let fam := model_family (ce_families e) model in
  let p := pending_finding read fam (touched_paths hunk) f in
  pf_grounded p = false
  \/ exists plan d fams,
       plan_finding plan = p /\ plan_reviewer_family plan = fam
       /\ d ∈ decisions merged /\ d_finding_id d = pf_id p /\ d_disposition d = Rejected
       /\ d_attempts d = answers_about (confirm_call decode world (Some e)) (limits_from_config (ce_confirm e)) plan 0
                           (confirm_trace read decode world e r model hunk authors)
       /\ (forall a, a ∈ d_attempts d -> ~ voted PdConfirm a)
       /\ (cfg_rejects_required (ce_confirm e) (severity f) <= length fams)%nat
       /\ NoDup fams
       /\ forall x, x ∈ fams -> (exists a, a ∈ d_attempts d /\ a_family a = x /\ voted PdReject a)
                                /\ valid_reject decode world e authors plan x.
Proof.
  unfold confirm_review, confirm_trace, pending_findings_for_confirm. cbn zeta. intros H Hv Hf Hb.
  set (rf := model_family (ce_families e) model) in *. set (touched := touched_paths hunk) in *.
  set (p := pending_finding read rf touched f). set (all := map (pending_finding read rf touched) (findings r)) in *.
  assert (Hp : p ∈ all) by (apply list_elem_of_fmap; by exists f).
  destruct all as [|a0 all'] eqn:Eall; [by apply not_elem_of_nil in Hp|]. rewrite <- Eall in *. clear Eall.
  assert (confirmation_applies r = true) as Happ.
  { unfold confirmation_applies. apply orb_true_iff. right. apply existsb_elem. by exists f. }
  rewrite Happ in H. cbn [negb precheck snd] in H |- *.
  set (cfg := ce_confirm e) in *. set (limits := limits_from_config cfg) in *.
  set (call := confirm_call decode world (Some e)) in *. cbn [fmap option_fmap option_map] in H.
  set (family_of := fun m => Some (model_family (ce_families e) m)) in *.
  set (pending := filterb pf_grounded _) in *. set (jobs := confirm_jobs _ _ _ _ _ _ _ _ _) in *.
  injection H as <- Hverdict.
  destruct (pf_grounded p) eqn:Hg; [right|by left].
  assert (Hpend : p ∈ pending).
  { apply elem_of_filterb. split; [done|]. apply elem_of_filterb. by split. }
  assert (Heff : effective_blocking (confirm_run call limits jobs) = false).
  { destruct (effective_blocking _) eqn:E; [|done]. exfalso. apply Hv. rewrite <- Hverdict. case_match; [done|].
    unfold effective_verdict. cbn [effective_blocking]. unfold confirm_run, confirm_aggregate in E. cbn [effective_blocking] in E.
    by rewrite E. }
  set (chain := select_confirmers (confirm_models cfg) rf authors [] family_of) in *.
  set (j := mkJob (mkFindingPlan p model rf chain (build_context read p hunk (max_context_lines limits) touched)) chain).
  assert (Hj : j ∈ jobs) by (apply list_elem_of_fmap; by exists p).
  destruct (released_job call limits jobs j Heff Hj) as (d & Hd & Hid & Hdisp & Hatt & Hask & Hset).
  destruct (settled_demoted _ _ Hset) as (Hno & Hle & Hnd & Hin).
  exists (job_plan j), d, (reject_families (d_attempts d)). do 2 (split; [done|]).
  split; [cbn [decisions]; apply elem_of_app; right; apply elem_of_app; by right|]. do 4 (split; [done|]).
  split; [|split; [done|]].
  - etransitivity; [|exact Hle]. by apply cfg_required_le.
  - intros x Hx. destruct (Hin x Hx) as (a & Ha & Hfam & Hr). split.
    + exists a. split; [done|]. split; [done|]. by apply answers_voted.
    + rewrite <- Hfam. rewrite Forall_forall in Hask. eapply asked_reject; [| | |by apply Hask|done]; done.
Qed.

(** The verdict a confirmed review is left with: [request_changes] exactly when
    a finding still blocks, else [comment]. *)
Theorem confirmed_verdict_exact read decode world eng r model hunk authors merged v :
  confirm_review read decode world eng r model hunk authors = Some (merged, v) -> confirmation_applies r = true ->
  effective_blocking merged = existsb d_blocking (decisions merged)
  /\ v = if existsb d_blocking (decisions merged) then "request_changes" else "comment".
Proof.
  unfold confirm_review. cbn zeta. intros H Happ. rewrite Happ in H. cbn [negb] in H.
  destruct (pending_findings_for_confirm _ _ _ _) as [|a all] eqn:Eall; [done|]. rewrite <- Eall in H. clear Eall.
  destruct (precheck _) as [checks pending] eqn:Epc. injection H as <- <-. cbn [decisions effective_blocking].
  assert (Hplain : forall l, existsb d_blocking (map skipped_decision l) = false).
  { intros l. apply existsb_none. by intros x (y & -> & _)%list_elem_of_fmap. }
  assert (Hdrop : forall bs l, existsb d_blocking (omap (dropped_decision bs) l) = false).
  { intros bs l. apply existsb_none. intros x (y & _ & Hx)%list_elem_of_omap. unfold dropped_decision in Hx.
    destruct (pc_dropped y); [|done]. destruct (find_first _ bs); cbn in Hx; [|done]. by simplify_eq. }
  rewrite !existsb_app, Hplain, Hdrop. cbn [orb]. unfold confirm_run, confirm_aggregate. cbn [decisions effective_blocking].
  split; [done|]. set (b := existsb d_blocking _). unfold raised_by_confirmed_finding, effective_verdict. cbn [effective_blocking].
  fold b. destruct (is_blocking_verdict _); [|done]. clearbody b.
  destruct b; cbn [andb]; [|done]. by match goal with |- (if ?c then _ else _) = _ => destruct c end.
Qed.

(** ** Grounding *)

(** The text a span is searched in: the cited file, when it can be read, and
    the files the diff touches. *)
Definition search_text (read : string -> option string) (location : string) (touched : list string) : string :=
  (match cited_path location with Some (path, _) => corpus_part read path | None => "" end) +:+ join "" (map (corpus_part read) touched).

(** A finding is dropped without a call exactly when the line it cites is not
    in the file it cites, or it quotes code, none of which occurs in the files
    that could be read; when the cited file could not, another must have been. *)
Theorem ground_drop_exact read location claim touched :
  grounded (ground_finding read location claim touched) = false <->
  (exists path line text, cited_path location = Some (path, Some line) /\ read path = Some text
                          /\ ~ (1 <= line <= length (lines text))%nat)
  \/ (evidence_spans claim <> []
      /\ (forall span, span ∈ evidence_spans claim -> str_contains (normalise_ws span) (search_text read location touched) = false)
      /\ ((exists path line, cited_path location = Some (path, line) /\ read path = None) ->
          str_is_empty (trim (search_text read location touched)) = false)).
Proof.
  assert (Hspans : forall (occ : string -> bool) (skip : bool) spans,
    (bool_decide (length (filterb (fun s => negb (occ s) && negb skip) spans) = 0%nat)
     || negb (bool_decide (length (filterb occ spans) = 0%nat))) = false
    <-> spans <> [] /\ (forall s, s ∈ spans -> occ s = false) /\ skip = false).
  { intros occ skip spans. rewrite orb_false_iff, negb_false_iff, bool_decide_eq_false, bool_decide_eq_true, length_zero_iff_nil, length_zero_iff_nil.
    assert (Hnil : forall p, filterb p spans = [] <-> forall s, s ∈ spans -> p s = false).
    { intros p. split.
      - intros E s Hs. destruct (p s) eqn:Ep; [|done]. assert (s ∈ filterb p spans) as Hin by by apply elem_of_filterb.
        rewrite E in Hin. by apply not_elem_of_nil in Hin.
      - intros Hall. destruct (filterb p spans) as [|s l] eqn:E; [done|]. assert (s ∈ filterb p spans) as Hin by (rewrite E; by left).
        apply elem_of_filterb in Hin as [Hp Hin]. rewrite (Hall s Hin) in Hp. done. }
    rewrite (Hnil occ). split.
    - intros [Hm Hocc]. destruct skip.
      + exfalso. apply Hm, Hnil. intros s _. by rewrite andb_false_r.
      + split; [|done]. intros ->. by apply Hm.
    - intros (Hne & Hocc & ->). split; [|done]. rewrite Hnil. intros Hall. destruct spans as [|s l]; [done|].
      specialize (Hall s ltac:(by left)). rewrite Hocc in Hall by by left. done. }
  unfold grounded, ground_finding, search_text. cbn zeta.
  destruct (cited_path location) as [[path line]|] eqn:Ec.
  2: { cbn [location_ok location_unreadable missing present orb andb]. rewrite Hspans. rewrite !str_nil_app. split.
    - intros (H1 & H2 & _). right. split; [done|]. split; [done|]. by intros (? & ? & ? & _).
    - intros [(? & ? & ? & ? & _)|(H1 & H2 & _)]; [done|]. done. }
  destruct (read path) as [text|] eqn:Er.
  - destruct line as [line|].
    + cbn [location_ok location_unreadable missing present]. rewrite orb_false_r, andb_false_iff, Hspans.
      assert (Hl : (1 <=? line)%nat && (line <=? length (lines text))%nat = false <-> ~ (1 <= line <= length (lines text))%nat).
      { rewrite <- not_true_iff_false, andb_true_iff, !Nat.leb_le. done. }
      rewrite Hl. split.
      * intros [?|(H1 & H2 & _)]; [left; eauto 10|]. right. split; [done|]. split; [done|]. intros (p & l & [= <- <-] & ?). congruence.
      * intros [(p & l & t & [= <- <-] & Ht & Hn)|(H1 & H2 & _)]; [left; congruence|]. by right.
    + cbn [location_ok location_unreadable missing present orb andb]. rewrite Hspans. split.
      * intros (H1 & H2 & _). right. split; [done|]. split; [done|]. intros (p & l & [= <- <-] & ?). congruence.
      * intros [(p & l & t & [=] & _)|(H1 & H2 & _)]. done.
  - cbn [location_ok location_unreadable missing present orb andb]. rewrite Hspans. unfold corpus_part at 1 3 5. rewrite Er.
    rewrite str_nil_app. split.
    + intros (H1 & H2 & H3). right. split; [done|]. split; [done|]. done.
    + intros [(p & l & t & [= <- ->] & ? & _)|(H1 & H2 & H3)]; [congruence|]. split; [done|]. split; [done|]. apply H3. eauto.
Qed.

(** ** Markers at word boundaries *)

Definition word_at (c : option ascii) : bool := match c with Some c => ident_byte c | None => false end.
Definition str_first (s : string) : option ascii := match s with String c _ => Some c | EmptyString => None end.
(** The [\b] of a regular expression: a word on exactly one side. *)
Definition word_boundary (l r : option ascii) : Prop := word_at l <> word_at r.

Lemma marker_here_spec prev m s : first_is ident_byte m = true ->
  marker_here prev m s = true <->
  exists post, s = m +:+ post /\ word_boundary prev (str_first m) /\ word_boundary (str_last m) (str_first post).
Proof.
  intros Hm. unfold marker_here, word_boundary. destruct (strip_prefix m s) as [rest|] eqn:E.
  - apply strip_prefix_Some in E as ->.
    assert (word_at (str_first m) = true) as -> by (destruct m; [done|exact Hm]).
    assert (ends_in_word m = word_at (str_last m)) as -> by done.
    assert (H : forall post, m +:+ rest = m +:+ post -> post = rest).
    { intros post Hp. apply (f_equal (str_drop (String.length m))) in Hp. by rewrite !str_drop_app in Hp. }
    transitivity (word_at prev <> true /\ word_at (str_last m) <> word_at (str_first rest)).
    + rewrite andb_true_iff. destruct prev as [c|], rest as [|d rest], (word_at (str_last m)); cbn;
        try destruct (ident_byte c); try destruct (ident_byte d); cbn; naive_solver.
    + split; [by exists rest|]. by intros (post & ->%H & ?).
  - split; [done|]. intros (post & -> & _). by rewrite strip_prefix_app in E.
Qed.
Lemma marker_from_spec m s : first_is ident_byte m = true -> forall prev,
  marker_from prev m s = true <->
  exists pre post, s = pre +:+ m +:+ post
    /\ word_boundary (or_opt (str_last pre) prev) (str_first m) /\ word_boundary (str_last m) (str_first post).
Proof.
  intros Hm. induction s as [|c s IH]; intros prev; cbn [marker_from]; rewrite orb_true_iff, marker_here_spec by done.
  - split; [intros [(post & E & ?)|?]; [|done]; by exists "", post|]. intros (pre & post & E & Hl & Hr). left.
    destruct pre; [|by rewrite str_app_cons in E]. by exists post.
  - rewrite IH. split.
    + intros [(post & E & ?)|(pre & post & -> & Hl & Hr)]; [by exists "", post|]. exists (String c pre), post. split; [done|]. by rewrite str_last_or.
    + intros ([|d pre] & post & E & Hl & Hr); [left; by exists post|]. right. rewrite str_app_cons in E. injection E as -> ->.
      exists pre, post. split; [done|]. by rewrite str_last_or in Hl.
Qed.

(** A sentence has a marker at word boundaries, as [\b] puts them, exactly when
    the scan finds it; letters are compared without case. *)
Theorem word_boundary_exact sentence marker : first_is ident_byte (to_ascii_lowercase marker) = true ->
  contains_at_word_boundary sentence marker = true <->
  exists pre post, to_ascii_lowercase sentence = pre +:+ to_ascii_lowercase marker +:+ post
    /\ word_boundary (str_last pre) (str_first (to_ascii_lowercase marker))
    /\ word_boundary (str_last (to_ascii_lowercase marker)) (str_first post).
Proof.
  intros Hm. unfold contains_at_word_boundary. rewrite andb_true_iff, marker_from_spec by done.
  assert (negb (str_is_empty marker) = true) as -> by (destruct marker; [done|done]).
  assert (forall o : option ascii, or_opt o None = o) as Hor by by intros [].
  setoid_rewrite Hor. naive_solver.
Qed.
Lemma word_boundary_exact_witness :
  first_is ident_byte (to_ascii_lowercase "fix") = true /\
  (contains_at_word_boundary "the prefix; Fix it" "fix" = true <->
  exists pre post, to_ascii_lowercase "the prefix; Fix it" = pre +:+ to_ascii_lowercase "fix" +:+ post
    /\ word_boundary (str_last pre) (str_first (to_ascii_lowercase "fix"))
    /\ word_boundary (str_last (to_ascii_lowercase "fix")) (str_first post)).
Proof. split; [by vm_compute|]. apply (word_boundary_exact "the prefix; Fix it" "fix"). by vm_compute. Defined.

(** ** Identity and context *)

Lemma lower_app a b : to_ascii_lowercase (a +:+ b) = to_ascii_lowercase a +:+ to_ascii_lowercase b.
Proof. induction a as [|c a IH]; [by rewrite !str_nil_app|]. rewrite str_app_cons. cbn. by rewrite IH. Qed.
Lemma lower_join ws : to_ascii_lowercase (join " " ws) = join " " (map to_ascii_lowercase ws).
Proof.
  induction ws as [|w [|w' ws] IH]; [done..|]. cbn [join map] in *. by rewrite !lower_app, IH.
Qed.
(** Two claims that differ in case and blanks only have one identity, of
    sixteen digits. *)
Theorem finding_id_stable family path c1 c2 :
  map to_ascii_lowercase (split_whitespace c1) = map to_ascii_lowercase (split_whitespace c2) ->
  finding_id family path c1 = finding_id family path c2 /\ String.length (finding_id family path c1) = 16%nat.
Proof.
  intros H. split.
  - unfold finding_id, normalise_claim, normalise_ws. by rewrite !lower_join, H.
  - unfold finding_id. generalize (feed (feed (feed FNV_OFFSET (trim family)) (trim path)) (normalise_claim c1)).
    assert (G : forall n v, String.length (hex_digits n v) = n).
    { induction n as [|n IH]; intros v; [done|]. cbn [hex_digits]. rewrite str_length_app, IH. cbn. lia. }
    intros v. apply G.
Qed.

(** From a bound of two lines on, the window around a cited line shows that
    line; it never shows more lines than the bound. *)
Theorem window_shows_line line count max_lines : (1 <= line <= count)%nat -> (2 <= max_lines)%nat ->
  let '(start, stop) := window_bounds (Some line) count max_lines in
  (start <= line - 1 < stop)%nat /\ (stop <= count)%nat /\ (stop - start <= max_lines)%nat.
Proof.
  intros Hl Hm. unfold window_bounds. cbn [default from_option]. unfold id.
  pose proof (Nat.div_mod_eq max_lines 2) as Hd. pose proof (Nat.mod_upper_bound max_lines 2 ltac:(lia)) as Hr. lia.
Qed.

Lemma window_shows_line_witness :
  (1 <= 5 <= 40)%nat /\ (2 <= 10)%nat /\
  let '(start, stop) := window_bounds (Some 5%nat) 40 10 in (start <= 5 - 1 < stop)%nat /\ (stop <= 40)%nat /\ (stop - start <= 10)%nat.
Proof. split; [lia|]. split; [lia|]. apply (window_shows_line 5 40 10); lia. Defined.
Lemma finding_id_stable_witness :
  finding_id "gpt-oss" "a.rs:3" "Loop  never breaks" = finding_id "gpt-oss" "a.rs:3" "loop never BREAKS"
  /\ String.length (finding_id "gpt-oss" "a.rs:3" "Loop  never breaks") = 16%nat.
Proof. apply (finding_id_stable "gpt-oss" "a.rs:3" "Loop  never breaks" "loop never BREAKS"). by vm_compute. Defined.

(** ** A review with one high finding *)

Module Sample.
Definition engine : ConfirmEngine :=
  mkConfirmEngine (mkConfirmConfig ["deepseek-flash"; "MiniMax-M3"; "gpt-oss-120b"] [] 8 60 20 2 1 "ref") [] None.
Definition finding (sev loc claim : string) : Finding := mkFinding sev claim "" (Some loc) None.
Definition review_made (v : string) (fs : list Finding) : ReviewOutput := plain_review v "" fs [] [].
Definition source : string := eol_join ["fn run() {"; "    let data = load_all();"; "}"].
Definition files : string -> option string := one_file "a.rs" source.
Definition diff : string := eol_join ["diff --git a/a.rs b/a.rs"; "--- a/a.rs"; "+++ b/a.rs"; "@@ -1,3 +1,3 @@"; "+    let data = load_all();"; ""].
(** A codec that reads the reply of the test. *)
Definition reply (id disposition_ reason : string) : Value :=
  Object [("finding_id", Str id); ("disposition", Str disposition_); ("quote", Str "let data = load_all();"); ("reason", Str reason)].
Definition high : Finding := finding "high" "a.rs:2" "the call `load_all()` never returns".
Definition high_id : string := finding_id "openai" "a.rs:2" "the call `load_all()` never returns".
Definition decode (s : string) : option Value :=
  if bool_decide (s = "reject") then Some (reply high_id "reject" "it does")
  else if bool_decide (s = "confirm") then Some (reply high_id "confirm" "yes")
  else if bool_decide (s = "unsure") then Some (reply high_id "insufficient" "cannot tell")
  else None.
Definition answering (answer : nat -> string -> string * string) (n : nat) (m : string) (_ : FindingPlan) : option Dispatched :=
  Some (mkDispatched 10 (Ok (answer n m))).
Definition rejects : nat -> string -> FindingPlan -> option Dispatched := answering (fun _ m => (m, "reject")).
Definition outcome (world : nat -> string -> FindingPlan -> option Dispatched) (r : ReviewOutput) : option (list Disposition * string) :=
  (fun '(c, v) => (map d_disposition (decisions c), v))
  <$> confirm_review files decode world (Some engine) r "gpt-oss-20b" diff (review_author_families engine).

Example demoted_by_one : outcome rejects (review_made "request_changes" [high]) = Some ([Rejected], "comment").
Proof. by vm_compute. Qed.
Example comment_is_raised :
  outcome (answering (fun _ m => (m, "unsure"))) (review_made "comment" [high]) = Some ([Insufficient], "request_changes").
Proof. by vm_compute. Qed.
Example failure_keeps_blocking : outcome (fun _ _ _ => None) (review_made "request_changes" [high]) = Some ([ConfirmerFailed], "request_changes").
Proof. by vm_compute. Qed.

Definition merged : ConfirmedReview :=
  match confirm_review files decode rejects (Some engine) (review_made "request_changes" [high]) "gpt-oss-20b" diff [] with
  | Some (c, _) => c | None => mkConfirmed [] [] true None
  end.
Lemma released_only_by_rejects_witness :
  let p := pending_finding files "openai" (touched_paths diff) high in
  pf_grounded p = false
  \/ exists plan d fams,
       plan_finding plan = p /\ plan_reviewer_family plan = "openai"
       /\ d ∈ decisions merged /\ d_finding_id d = pf_id p /\ d_disposition d = Rejected
       /\ d_attempts d = answers_about (confirm_call decode rejects (Some engine)) (limits_from_config (ce_confirm engine)) plan 0
                           (confirm_trace files decode rejects engine (review_made "request_changes" [high]) "gpt-oss-20b" diff [])
       /\ (forall a, a ∈ d_attempts d -> ~ voted PdConfirm a)
       /\ (cfg_rejects_required (ce_confirm engine) (severity high) <= length fams)%nat
       /\ NoDup fams
       /\ forall x, x ∈ fams -> (exists a, a ∈ d_attempts d /\ a_family a = x /\ voted PdReject a)
                                /\ valid_reject decode rejects engine [] plan x.
Proof.
  apply (released_only_by_rejects files decode rejects engine (review_made "request_changes" [high]) "gpt-oss-20b" diff [] merged "comment" high).
  - by vm_compute.
  - done.
  - by left.
  - by vm_compute.
Defined.
Lemma confirmed_verdict_exact_witness :
  effective_blocking merged = existsb d_blocking (decisions merged)
  /\ "comment" = if existsb d_blocking (decisions merged) then "request_changes" else "comment".
Proof.
  apply (confirmed_verdict_exact files decode rejects (Some engine) (review_made "request_changes" [high]) "gpt-oss-20b" diff [] merged "comment").
  - by vm_compute.
  - by vm_compute.
Defined.
(** *** Departures *)

(** The cited file cannot be read, and the code it quotes is searched in the
    other files only: the finding is dropped. *)
Example unreadable_finding_dropped :
  let g := ground_finding files "gone.rs:7" "the loop `while !stop_flag()` never ends" ["a.rs"] in
  location_unreadable g = true /\ missing g = ["while !stop_flag()"] /\ grounded g = false.
Proof. by vm_compute. Qed.

(** Two findings of one identity: the rejections of the second run release the
    first, which a confirmer had confirmed. *)
Example confirmation_lost :
  let cfg := mkConfirmConfig ["deepseek-flash"; "MiniMax-M3"; "mimo-flash"; "nemotron-3-ultra"] [] 8 60 20 2 1 "ref" in
  let world := answering (fun n m => (m, if (n <? 2)%nat then "confirm" else "reject")) in
  let result := confirm_review files decode world (Some (mkConfirmEngine cfg [] None)) (review_made "request_changes" [high; high])
                  "gpt-oss-20b" diff [] in
  (fun '(c, v) => (map d_disposition (decisions c), v)) <$> result = Some ([Rejected; NotRun], "request_changes").
Proof. by vm_compute. Qed.

(** A medium finding turns [request_changes] into [comment]; without any
    finding the verdict stands. *)
Example medium_finding_unblocks :
  outcome rejects (review_made "request_changes" [finding "medium" "a.rs:2" "naming"]) = Some ([NotRun], "comment")
  /\ outcome rejects (review_made "request_changes" []) = None.
Proof. by vm_compute. Qed.

(** The confirmer asked is of another family, the model that answered is of the
    reviewer's own: the rejection counts. *)
Example served_model_not_checked :
  outcome (answering (fun _ _ => ("gpt-oss-120b", "reject"))) (review_made "request_changes" [high]) = Some ([Rejected], "comment").
Proof. by vm_compute. Qed.

(** The reason recorded for a demotion is the first answer's, rejection or
    not. *)
Example reason_of_another_answer :
  (fun '(c, _) => map dm_reason (demoted c)) <$>
    confirm_review files decode (answering (fun n m => (m, if (n =? 0)%nat then "unsure" else "reject"))) (Some engine)
      (review_made "request_changes" [high]) "gpt-oss-20b" diff [] = Some ["cannot tell"].
Proof. by vm_compute. Qed.

(** With a bound of one line the window shows the line before the cited one. *)
Example one_line_window : window_bounds (Some 5%nat) 10 1 = (3, 4)%nat.
Proof. by vm_compute. Qed.

(** The names whose definitions are shown are those the finding claims to be
    missing; a finding about anything else names none. *)
Example definitions_not_shown :
  claimed_symbols "`spawn_worker` races with `stop_worker`" "`spawn_worker` races with `stop_worker`" = [].
Proof. by vm_compute. Qed.

(** A transport error is recorded as an empty answer. *)
Example transport_error_is_empty : classify_confirmer_error (FallbackWorthy None) = OutcomeEmpty.
Proof. done. Qed.
End Sample.
