(* ===== verification/ContextOpt.v ===== *)
(** Context optimisation (crates/zoder-core/src/context_opt/mod.rs and
    measure.rs, the [[context]] block of config.rs, zoder-cli's
    context_opt.rs): what a call's prompt is made of, what its cache split
    says, and the levers that shrink a conversation - the cap on one tool
    result, the elision of stale ones, the fold into a digest, and the fit to a
    provider's window.

    A text is a byte string in UTF-8, cut only where a character starts; its
    white space and letters are ASCII.  Byte and token counts are [Z]; their
    sums stay far below 2^64. *)
From S2P Require Import Prelude F64 Numbers Config Text ReviewDiff ReviewContext.
Local Open Scope string_scope.
Local Open Scope Z_scope.
Local Open Scope list_scope.

(** ** The cache split of a call *)

Inductive ProviderCacheShape := Split | CachedSubset | NoCounter.
#[export] Instance cache_shape_eq_dec : EqDecision ProviderCacheShape.
Proof. solve_decision. Defined.

Record CacheTelemetry := mkTelemetry {
  ct_prompt_tokens : Z;
  ct_cache_hit_tokens : Z;
  ct_completion_tokens : Z;
  reported_cache_miss : option Z
}.
Definition cache_miss_tokens (t : CacheTelemetry) : Z :=
  default (u64_sat_sub (ct_prompt_tokens t) (ct_cache_hit_tokens t)) (reported_cache_miss t).
Definition cache_read_tokens (t : CacheTelemetry) : Z := Z.min (ct_cache_hit_tokens t) (ct_prompt_tokens t).
Definition hit_share_raw (t : CacheTelemetry) : option f64 :=
  if ct_prompt_tokens t =? 0 then Some (f64_of_Z 1)
  else if (ct_cache_hit_tokens t =? 0) && bool_decide (reported_cache_miss t = None \/ reported_cache_miss t = Some 0) then None
  else Some (f64_div (f64_of_Z (cache_read_tokens t)) (f64_of_Z (ct_prompt_tokens t))).
Definition hit_share (t : CacheTelemetry) (shape : ProviderCacheShape) : option f64 :=
  match shape with NoCounter => None | Split | CachedSubset => hit_share_raw t end.
Definition call_cost_usd (t : CacheTelemetry) (hit_rate miss_rate output_rate : f64) : f64 :=
  let hit := if ct_cache_hit_tokens t =? 0 then 0 else cache_read_tokens t in
  let miss := u64_sat_sub (ct_prompt_tokens t) hit in
  ((f64_of_Z hit * hit_rate + f64_of_Z miss * miss_rate + f64_of_Z (ct_completion_tokens t) * output_rate) / f64_of_Z 1000000)%f64.

Inductive CacheVerdict := Cached | PrefixBreak | UnknownSplit.
#[export] Instance cache_verdict_eq_dec : EqDecision CacheVerdict.
Proof. solve_decision. Defined.
Definition DEFAULT_CACHE_HIT_FLOOR : f64 := f64_lit 98 100.
Definition classify_call (shape : ProviderCacheShape) (t : CacheTelemetry) (floor : f64) : CacheVerdict :=
  if bool_decide (shape = NoCounter) || (ct_prompt_tokens t =? 0) then UnknownSplit
  else match hit_share t shape with
       | Some share => if f64_leb floor share then Cached else PrefixBreak
       | None => UnknownSplit
       end.

(** ** The composition of a prompt *)

Inductive Part := PartPrefix | PartTask | PartToolOutput | PartHistory.
Inductive PromptSlice := SlicePrefix | SliceHistory | SliceToolOutput | SliceTask.
Definition as_slice (p : Part) : PromptSlice :=
  match p with
  | PartPrefix => SlicePrefix | PartTask => SliceTask | PartToolOutput => SliceToolOutput | PartHistory => SliceHistory
  end.
Record PromptComposition := mkComposition {
  prefix_bytes : Z; history_bytes : Z; tool_output_bytes : Z; task_bytes : Z
}.
Definition prompt_total_bytes (c : PromptComposition) : Z :=
  u64_sat_add (u64_sat_add (u64_sat_add (prefix_bytes c) (history_bytes c)) (tool_output_bytes c)) (task_bytes c).
Definition share_of (total n : Z) : f64 := if total =? 0 then f64_zero else f64_div (f64_of_Z n) (f64_of_Z total).
Definition prompt_shares (c : PromptComposition) : list (string * f64) :=
  let share := share_of (prompt_total_bytes c) in
  [("prefix", share (prefix_bytes c)); ("history", share (history_bytes c));
   ("tool_output", share (tool_output_bytes c)); ("task", share (task_bytes c))].

Definition BYTES_PER_TOKEN : Z := 4.
Definition context_tokens (bytes : Z) : Z := (bytes + (BYTES_PER_TOKEN - 1)) / BYTES_PER_TOKEN.

Record Segment := mkSegment { sg_part : Part; sg_text : string }.
Definition compose_step (c : PromptComposition) (s : Segment) : PromptComposition :=
  let n := len (sg_text s) in
  match sg_part s with
  | PartPrefix => mkComposition (prefix_bytes c + n) (history_bytes c) (tool_output_bytes c) (task_bytes c)
  | PartTask => mkComposition (prefix_bytes c) (history_bytes c) (tool_output_bytes c) (task_bytes c + n)
  | PartToolOutput => mkComposition (prefix_bytes c) (history_bytes c) (tool_output_bytes c + n) (task_bytes c)
  | PartHistory => mkComposition (prefix_bytes c) (history_bytes c + n) (tool_output_bytes c) (task_bytes c)
  end.
Definition compose (segments : list Segment) : PromptComposition := foldl compose_step (mkComposition 0 0 0 0) segments.

Record Growth := mkGrowth {
  gr_tool_output_bytes : Z;
  gr_history_bytes : Z;
  growing_bytes : Z;
  growing_share : f64;
  tool_output_share : f64;
  history_share : f64
}.
Definition growth (c : PromptComposition) : Growth :=
  let growing := u64_sat_add (tool_output_bytes c) (history_bytes c) in
  let share := share_of (prompt_total_bytes c) in
  mkGrowth (tool_output_bytes c) (history_bytes c) growing (share growing) (share (tool_output_bytes c)) (share (history_bytes c)).

(** ** The record of a call and the roll-up of a run *)

Record CallRecord := mkCallRecord {
  cr_turn : Z;
  cr_surface : string;
  cr_prompt_tokens : Z;
  cr_hit : option Z;
  cr_miss : option Z;
  cr_completion_tokens : Z;
  reported_usage : bool;
  composition : PromptComposition;
  next_prompt_tokens : option Z
}.
Definition new_call_record (turn : Z) (surface : string) (segments : list Segment)
  (usage_prompt usage_hit usage_reported_miss : option Z) (completion_tokens : Z) : CallRecord :=
  let composition := compose segments in
  let prompt_tokens := default (context_tokens (prompt_total_bytes composition)) usage_prompt in
  let miss := hit ← usage_hit; Some (default (u64_sat_sub prompt_tokens hit) usage_reported_miss) in
  mkCallRecord turn surface prompt_tokens usage_hit miss completion_tokens (bool_decide (is_Some usage_prompt)) composition None.
Definition record_hit_share (r : CallRecord) : option f64 :=
  hit ← cr_hit r;
  Some (if cr_prompt_tokens r =? 0 then f64_of_Z 1
        else f64_clamp (f64_div (f64_of_Z hit) (f64_of_Z (cr_prompt_tokens r))) f64_zero (f64_of_Z 1)).
Definition resend_tokens (r : CallRecord) : option Z := (fun next => Z.min next (cr_prompt_tokens r)) <$> next_prompt_tokens r.

Record RunSummary := mkSummary {
  rs_calls : Z;
  rs_prompt_tokens : Z;
  rs_completion_tokens : Z;
  rs_hit_tokens : Z;
  rs_miss_tokens : Z;
  cache_reported_calls : Z;
  resent_prompt_tokens : Z;
  final_prompt_tokens : Z;
  peak_prompt_tokens : Z
}.
Definition summarise_step (s : RunSummary) (r : CallRecord) : RunSummary :=
  let '(hit, miss, reported) := match cr_hit r, cr_miss r with Some h, Some m => (h, m, 1) | _, _ => (0, 0, 0) end in
  mkSummary (rs_calls s + 1) (rs_prompt_tokens s + cr_prompt_tokens r) (rs_completion_tokens s + cr_completion_tokens r)
    (rs_hit_tokens s + hit) (rs_miss_tokens s + miss) (cache_reported_calls s + reported)
    (resent_prompt_tokens s + default 0 (resend_tokens r)) (cr_prompt_tokens r) (Z.max (peak_prompt_tokens s) (cr_prompt_tokens r)).
Definition summarise (records : list CallRecord) : RunSummary := foldl summarise_step (mkSummary 0 0 0 0 0 0 0 0 0) records.
Definition summary_hit_share (s : RunSummary) : option f64 :=
  if cache_reported_calls s =? 0 then None
  else let total := rs_hit_tokens s + rs_miss_tokens s in
       Some (if total =? 0 then f64_of_Z 1 else f64_div (f64_of_Z (rs_hit_tokens s)) (f64_of_Z total)).
Definition resend_share (s : RunSummary) : f64 :=
  if rs_prompt_tokens s =? 0 then f64_zero else f64_div (f64_of_Z (resent_prompt_tokens s)) (f64_of_Z (rs_prompt_tokens s)).

(** ** One conversation turn *)

Record ConvTurn := mkConvTurn { t_role : string; t_content : string; t_source : option string }.
#[export] Instance conv_turn_eq_dec : EqDecision ConvTurn.
Proof. solve_decision. Defined.
Definition new_conv_turn (role content : string) : ConvTurn := mkConvTurn role content None.
Definition tool_result (source content : string) : ConvTurn := mkConvTurn "tool" content (Some source).
Definition turn_bytes (t : ConvTurn) : Z := len (t_content t).
Definition turns_bytes (ts : list ConvTurn) : Z := foldr (fun t n => turn_bytes t + n) 0 ts.
Definition with_content (t : ConvTurn) (content : string) : ConvTurn := mkConvTurn (t_role t) content (t_source t).

Definition ELISION_MARKER : string := "[elided:".
Definition is_elided (t : ConvTurn) : bool := starts_with ELISION_MARKER (trim_start (t_content t)).
Definition elision_stub (source : option string) (original_bytes : Z) : string :=
  ELISION_MARKER +:+ " " +:+ show_u original_bytes +:+ " bytes dropped from " +:+ default "tool output" source
  +:+ " to save context. The output is unchanged on disk; re-read the file (or re-run the command) if it is needed again.]".

(** *** Cuts at a character *)

Definition is_char_boundary (s : string) (n : nat) : bool :=
  (n =? 0)%nat || (n =? String.length s)%nat || match String.get n s with Some c => char_start c | None => false end.
Fixpoint floor_from (s : string) (n : nat) : nat :=
  match n with O => O | S m => if is_char_boundary s n then n else floor_from s m end.
Definition floor_char_boundary (s : string) (n : nat) : nat := floor_from s (Nat.min n (String.length s)).
(** At most the rest of the text is skipped. *)
Fixpoint ceil_from (fuel : nat) (s : string) (n : nat) : nat :=
  match fuel with O => n | S fuel => if is_char_boundary s n then n else ceil_from fuel s (S n) end.
Definition ceil_char_boundary (s : string) (n : nat) : nat :=
  let n := Nat.min n (String.length s) in ceil_from (String.length s - n) s n.

Definition MIN_CAP_BYTES : Z := 512.
Definition MIN_ELISION_BYTES : Z := 1024.
Definition cap_stub (omitted cap : Z) (source : option string) : string :=
  String newline (String newline "") +:+ ELISION_MARKER +:+ " " +:+ show_u omitted
  +:+ " bytes omitted from the middle to fit the per-tool-output cap of " +:+ show_u cap
  +:+ " bytes. The full output is unchanged on disk; re-read " +:+ default "the file" source
  +:+ " for the omitted part.]" +:+ String newline (String newline "").
(** Where the head of a capped result ends and its tail begins. *)
Definition cap_cuts (content : string) (cap : Z) : nat * nat :=
  let tail_bytes := cap / 3 in
  let head_bytes := u64_sat_sub cap tail_bytes in
  (floor_char_boundary content (Z.to_nat head_bytes), ceil_char_boundary content (Z.to_nat (u64_sat_sub (len content) tail_bytes))).
Definition cap_tool_output (t : ConvTurn) (cap_bytes : Z) : ConvTurn :=
  if cap_bytes =? 0 then t
  else
    let cap := Z.max cap_bytes MIN_CAP_BYTES in
    if len (t_content t) <=? cap then t
    else
      let content := t_content t in
      let '(head_end, tail_start) := cap_cuts content cap in
      if (tail_start <=? head_end)%nat then t
      else
        let omitted := Z.of_nat (tail_start - head_end) in
        if omitted <? MIN_ELISION_BYTES then t
        else with_content t (str_take head_end content +:+ cap_stub omitted cap (t_source t) +:+ str_drop tail_start content).

(** *** Stale results *)

Definition stale (min_bytes : Z) (t : ConvTurn) : bool :=
  bool_decide (t_role t = "tool") && negb (is_elided t) && (min_bytes <=? len (t_content t)).
Definition elide_turn (min_bytes : Z) (t : ConvTurn) : ConvTurn :=
  if stale min_bytes t then with_content t (elision_stub (t_source t) (turn_bytes t)) else t.
(** The turns that are not among the last [keep]. *)
Definition cutoff (keep : Z) (ts : list ConvTurn) : nat := Z.to_nat (u64_sat_sub (Z.of_nat (length ts)) keep).
Definition elide_stale (ts : list ConvTurn) (keep_turns min_bytes : Z) : list ConvTurn * nat :=
  let n := cutoff keep_turns ts in
  (map (elide_turn min_bytes) (take n ts) ++ drop n ts, length (filterb (stale min_bytes) (take n ts))).

(** ** The digest of folded turns *)

Record Digest := mkDigest {
  dg_files : list string;
  dg_decisions : list string;
  dg_open_todos : list string;
  dg_turns : Z;
  dg_bytes_before : Z;
  absorbed_digests : Z
}.
Definition COMPACT_MARKER : string := "[digest of earlier turns:".
Definition is_digest (t : ConvTurn) : bool := starts_with COMPACT_MARKER (t_content t).

(** [format!("{:.1}", n as f64 / 1024.0)] of a count below 2^53, which the
    division keeps exact: tenths, rounded to even in the middle. *)
Definition kib_tenths (n : Z) : Z :=
  let q := n * 10 / 1024 in
  let r := n * 10 mod 1024 in
  if r <? 512 then q else if 512 <? r then q + 1 else if Z.even q then q else q + 1.
Definition show_kib (n : Z) : string := show_u (kib_tenths n / 10) +:+ "." +:+ show_u (kib_tenths n mod 10).

Definition digest_list (label : string) (items : list string) : string :=
  match items with [] => "" | _ => String newline "" +:+ label +:+ ": " +:+ join "; " items end.
Definition digest_header (d : Digest) : string :=
  COMPACT_MARKER +:+ " A structured digest of " +:+ show_u (dg_turns d) +:+ " earlier turn(s) (" +:+ show_kib (dg_bytes_before d)
  +:+ " KiB) that were folded to keep the prompt small. The work they describe is already on disk; re-read a file if you need its text again. Do not redo what is listed as decided."
  +:+ (if 0 <? absorbed_digests d then
         " It absorbs " +:+ show_u (absorbed_digests d) +:+ " earlier digest(s); their file, decision and todo lists are merged below."
       else "").
Definition digest_render (d : Digest) : string :=
  digest_header d +:+ digest_list "Files touched" (dg_files d) +:+ digest_list "Decisions" (dg_decisions d)
  +:+ digest_list "Open todos" (dg_open_todos d) +:+ String newline "".

Definition SQUASH_MAX : Z := 160.
Definition squash_budget : Z := SQUASH_MAX - 3.
Fixpoint squash_words (out : string) (ws : list string) : string :=
  match ws with
  | [] => out
  | w :: r =>
      let extra := if str_is_empty out then len w else len w + 1 in
      if squash_budget <? len out + extra then
        if negb (str_is_empty out) then out +:+ "..."
        else let cut := floor_char_boundary w (Z.to_nat squash_budget) in
             if (cut =? 0)%nat then out else str_take cut w +:+ "..."
      else squash_words (if str_is_empty out then w else out +:+ " " +:+ w) r
  end.
Definition squash (s : string) : string :=
  let out := squash_words "" (split_whitespace s) in
  if str_is_empty out && negb (str_is_empty (trim s)) then "..." else out.

Definition str_find (needle s : string) : option nat := (fun p => String.length p.1) <$> split_once_str needle s.
Fixpoint strip_at (markers : list string) (s : string) : string :=
  match markers with
  | [] => s
  | m :: r =>
      match str_find m (to_ascii_lowercase s) with
      | Some i => if (0 <? i)%nat && is_char_boundary s i
                  then trim_end_matches (char_in [" "; "."; ","; ";"; "-"]%char) (str_take i s)
                  else strip_at r s
      | None => strip_at r s
      end
  end.
Definition strip_todo_tail (s : string) : string := strip_at ["todo:"; "todo "; "fixme:"; "fixme "] s.

Definition digest_diff_path (line : string) : option string :=
  match strip_prefix "diff --git " line with
  | Some rest => trim_start_str "b/" <$> find_first (starts_with "b/") (split_whitespace rest)
  | None =>
      rest ← strip_prefix "+++ " line;
      if bool_decide (trim rest = "/dev/null") then None else Some (trim_start_str "b/" (trim rest))
  end.
Definition reread_path (line : string) : option string :=
  rest ← strip_prefix "[elided:" line;
  tail_ ← split_str " from " rest !! 1%nat;
  let path := trim (default tail_ (head (split_str " to save context" tail_))) in
  if negb (str_is_empty path) && negb (bool_decide (path = "tool output")) then Some path else None.
Definition is_decision_line (lower : string) : bool :=
  existsb (fun k => str_contains k (" " +:+ lower +:+ " "))
    ["we decided"; "i decided"; " will "; " must "; "because"; "instead of"; "plan:"]
  || starts_with "will " lower || bool_decide (is_Some (strip_suffix " must" lower)).
Definition is_todo_line (t lower : string) : bool :=
  existsb (fun k => str_contains k lower) ["todo"; "fixme"; "xxx"; "still failing"; "does not compile"]
  || starts_with "Required next steps:" t || starts_with "- [" t.

Definition push_item (cap : nat) (v : list string) (item : string) : list string :=
  let item := trim item in
  if str_is_empty item || (cap <=? length v)%nat || bool_decide (item ∈ v) then v else v ++ [item].
Definition push_opt (cap : nat) (v : list string) (item : option string) : list string :=
  match item with Some i => push_item cap v i | None => v end.
Definition digest_line (max_files max_lines : nat) (role : string) (d : Digest) (line : string) : Digest :=
  let t := trim line in
  let lower := to_ascii_lowercase t in
  let files := push_opt max_files (dg_files d) (or_opt (digest_diff_path t) (reread_path t)) in
  let todos := if is_todo_line t lower && (len t <? 200) then push_item max_lines (dg_open_todos d) (squash t) else dg_open_todos d in
  let decisions := if bool_decide (role = "assistant") && is_decision_line lower
                   then push_item max_lines (dg_decisions d) (squash (strip_todo_tail t)) else dg_decisions d in
  mkDigest files decisions todos (dg_turns d) (dg_bytes_before d) (absorbed_digests d).
Definition digest_turn (max_files max_lines : nat) (d : Digest) (t : ConvTurn) : Digest :=
  foldl (digest_line max_files max_lines (t_role t)) d (lines (t_content t)).
Definition digest_turns (ts : list ConvTurn) (max_files max_lines : nat) : Digest :=
  foldl (digest_turn max_files max_lines) (mkDigest [] [] [] (Z.of_nat (length ts)) (turns_bytes ts) 0) ts.

(** *** Reading a rendered digest back *)

Definition digest_field (label line : string) : option (list string) :=
  (fun rest => filterb non_empty (map trim (split_on ";" rest))) <$> strip_prefix label line.
Definition read_digest_line (d : Digest) (line : string) : Digest :=
  match digest_field "Files touched: " line with
  | Some v => mkDigest v (dg_decisions d) (dg_open_todos d) (dg_turns d) (dg_bytes_before d) (absorbed_digests d)
  | None =>
      match digest_field "Decisions: " line with
      | Some v => mkDigest (dg_files d) v (dg_open_todos d) (dg_turns d) (dg_bytes_before d) (absorbed_digests d)
      | None =>
          match digest_field "Open todos: " line with
          | Some v => mkDigest (dg_files d) (dg_decisions d) v (dg_turns d) (dg_bytes_before d) (absorbed_digests d)
          | None => d
          end
      end
  end.
Definition digest_turn_count (text : string) : Z :=
  match strip_prefix COMPACT_MARKER text with
  | Some head_ => default 0 (find_map parse_u64_std (split_whitespace head_))
  | None => 0
  end.
Definition digest_absorbed (text : string) : Z :=
  default 0 (rest ← split_str "It absorbs " text !! 1%nat; w ← head (split_whitespace rest); parse_u64_std w).
Definition digest_from_render (text : string) : Digest :=
  foldl read_digest_line (mkDigest [] [] [] (digest_turn_count text) 0 (digest_absorbed text)) (map trim (lines text)).
Fixpoint merge_capped (cap : nat) (into from : list string) : list string :=
  match from with
  | [] => into
  | item :: r =>
      if (cap <=? length into)%nat then into
      else merge_capped cap (if bool_decide (item ∈ into) then into else into ++ [item]) r
  end.

(** ** Compaction *)

(** The brief: the first user turn that is not a digest. *)
Definition is_plain_user (t : ConvTurn) : bool := bool_decide (t_role t = "user") && negb (is_digest t).
Definition is_brief (ts : list ConvTurn) (i : nat) : bool :=
  match ts !! i with Some t => is_plain_user t && negb (existsb is_plain_user (take i ts)) | None => false end.
Definition is_system (t : ConvTurn) : bool := bool_decide (t_role t = "system").

Record Compacted := mkCompacted {
  cp_turns : list ConvTurn;
  folded : nat;
  bytes_before : Z;
  bytes_after : Z
}.
(** The end of the foldable part: back over the turns that are not folded. *)
Fixpoint fold_end (ts : list ConvTurn) (n : nat) : nat :=
  match n with
  | O => O
  | S m => match ts !! m with
           | Some t => if is_system t || is_digest t || is_brief ts m then fold_end ts m else n
           | None => n
           end
  end.
(** The turns pinned at the front; each round moves one turn on. *)
Fixpoint pinned_from (fuel : nat) (ts : list ConvTurn) (n : nat) : nat :=
  match fuel with
  | O => n
  | S fuel => match ts !! n with
              | Some t => if is_system t || is_brief ts n then pinned_from fuel ts (S n) else n
              | None => n
              end
  end.
Definition pinned_end (ts : list ConvTurn) : nat := pinned_from (length ts) ts 0.
Definition absorb (max_files max_lines : nat) (d : Digest) (prior : ConvTurn) : Digest :=
  let carried := digest_from_render (t_content prior) in
  mkDigest (merge_capped max_files (dg_files d) (dg_files carried)) (merge_capped max_lines (dg_decisions d) (dg_decisions carried))
    (merge_capped max_lines (dg_open_todos d) (dg_open_todos carried)) (dg_turns d) (dg_bytes_before d) (absorbed_digests d + 1).
(** What replaces the foldable turns. *)
Definition fold_digest (foldable : list ConvTurn) (max_files max_lines : nat) : Digest :=
  foldl (absorb max_files max_lines) (digest_turns (filterb (fun t => negb (is_digest t)) foldable) max_files max_lines)
    (filterb is_digest foldable).
Definition compact (ts : list ConvTurn) (threshold_tokens keep_recent : Z) (max_files max_lines : nat) : Compacted :=
  let before_ := turns_bytes ts in
  let unchanged := mkCompacted ts 0 before_ before_ in
  if (threshold_tokens =? 0) || (context_tokens before_ <=? threshold_tokens) then unchanged
  else
    match fold_end ts (cutoff keep_recent ts) with
    | O => unchanged
    | end_ =>
        let old := take end_ ts in
        let recent := drop end_ ts in
        let pinned := take (pinned_end old) old in
        match drop (pinned_end old) old with
        | [] => unchanged
        | foldable =>
            let out := pinned ++ [new_conv_turn "system" (digest_render (fold_digest foldable max_files max_lines))] ++ recent in
            mkCompacted out (length (filterb (fun t => negb (is_digest t)) foldable)) before_ (turns_bytes out)
        end
    end.

(** ** The levers *)

Inductive ContextProfile := CtxStandalone | CtxFleet.
#[export] Instance context_profile_eq_dec : EqDecision ContextProfile.
Proof. solve_decision. Defined.
Definition context_profile_named (name : string) : option ContextProfile :=
  let n := to_ascii_lowercase (trim name) in
  if bool_decide (n = "standalone") then Some CtxStandalone else if bool_decide (n = "fleet") then Some CtxFleet else None.
Definition default_enabled (p : ContextProfile) : bool := match p with CtxStandalone => false | CtxFleet => true end.

Record Levers := mkLevers {
  tool_output_cap_bytes : Z;
  elide_after_turns : Z;
  elide_min_bytes : Z;
  compact_after_tokens : Z;
  keep_recent_turns : Z;
  lv_max_context_tokens : Z
}.
Definition FLEET_DEEPSEEK : Levers := mkLevers 16384 8 2048 48000 6 131072.
Definition FLEET_MINIMAX : Levers := mkLevers 12288 6 2048 32000 6 204800.
Definition OTHER : Levers := mkLevers 16384 8 2048 0 6 0.
Definition STANDALONE_DEEPSEEK : Levers := mkLevers 32768 12 4096 96000 10 131072.
Definition STANDALONE_MINIMAX : Levers := mkLevers 24576 10 4096 64000 10 204800.
Definition STANDALONE_OTHER : Levers := mkLevers 32768 12 4096 0 10 0.

Definition apply_to_conversation (l : Levers) (ts : list ConvTurn) : Compacted :=
  let original_bytes := turns_bytes ts in
  let capped := map (fun t => if bool_decide (t_role t = "tool") then cap_tool_output t (tool_output_cap_bytes l) else t) ts in
  let elided := (elide_stale capped (elide_after_turns l) (elide_min_bytes l)).1 in
  let out := compact elided (compact_after_tokens l) (keep_recent_turns l) 64 40 in
  mkCompacted (cp_turns out) (folded out) original_bytes (bytes_after out).
Definition deepseek_levers (p : ContextProfile) : Levers := match p with CtxFleet => FLEET_DEEPSEEK | CtxStandalone => STANDALONE_DEEPSEEK end.
Definition minimax_levers (p : ContextProfile) : Levers := match p with CtxFleet => FLEET_MINIMAX | CtxStandalone => STANDALONE_MINIMAX end.
Definition other_levers (p : ContextProfile) : Levers := match p with CtxFleet => OTHER | CtxStandalone => STANDALONE_OTHER end.
Definition levers_named (p : ContextProfile) (name : string) : option Levers :=
  let n := to_ascii_lowercase (trim name) in
  if bool_decide (n = "deepseek") then Some (deepseek_levers p)
  else if bool_decide (n = "minimax") then Some (minimax_levers p)
  else if bool_decide (n = "other") then Some (other_levers p)
  else None.
Definition levers_for_model (p : ContextProfile) (model : string) : Levers :=
  let needle := to_ascii_lowercase model in
  if str_contains "deepseek" needle then deepseek_levers p
  else if str_contains "minimax" needle then minimax_levers p
  else other_levers p.

(** *** The configured levers *)

Record ContextLeverProfile := mkLeverProfile {
  lp_cap : option Z;
  lp_elide_after : option Z;
  lp_elide_min : option Z;
  lp_compact_after : option Z;
  lp_keep_recent : option Z;
  lp_window : option Z
}.
Definition to_levers (c : ContextLeverProfile) (deployment : ContextProfile) (name : string) : Levers :=
  let base := default OTHER (levers_named deployment name) in
  mkLevers (default (tool_output_cap_bytes base) (lp_cap c)) (default (elide_after_turns base) (lp_elide_after c))
    (default (elide_min_bytes base) (lp_elide_min c)) (default (compact_after_tokens base) (lp_compact_after c))
    (default (keep_recent_turns base) (lp_keep_recent c)) (default (lv_max_context_tokens base) (lp_window c)).
(** The lever profiles in the order of their keys, each key once. *)
Record ContextConfig := mkContextConfig {
  ctx_profile : option ContextProfile;
  ctx_enabled : option bool;
  ctx_profiles : list (string * ContextLeverProfile);
  ctx_default_profile : option string
}.
Definition levers_enabled_with (c : ContextConfig) (p : ContextProfile) : bool := default (default_enabled p) (ctx_enabled c).
Definition lever_entry (c : ContextConfig) (name : string) : option ContextLeverProfile :=
  snd <$> find_first (fun e => bool_decide (e.1 = name)) (ctx_profiles c).
(** Longest key first, ties in the order of the keys. *)
Definition key_longer (a b : string * ContextLeverProfile) : comparison :=
  Nat.compare (String.length b.1) (String.length a.1).
Definition key_matches (needle key : string) : bool :=
  negb (eq_ignore_ascii_case key "other") && str_contains (to_ascii_lowercase key) needle.
Definition levers_for_with (c : ContextConfig) (p : ContextProfile) (model : string) : option Levers :=
  if negb (levers_enabled_with c p) then None
  else
    match find_first (fun e => key_matches (to_ascii_lowercase model) e.1) (sort_by key_longer (ctx_profiles c)) with
    | Some (key, entry) => Some (to_levers entry p key)
    | None =>
        let by_default :=
          name ← ctx_default_profile c;
          or_opt ((fun entry => to_levers entry p name) <$> lever_entry c name) (levers_named p name) in
        Some (default (levers_for_model p model)
                (or_opt by_default ((fun entry => to_levers entry p "other") <$> lever_entry c "other")))
    end.
(** [Config::context_profile]: the block's own profile, else the deployment's. *)
Definition context_profile (c : ContextConfig) (deployment : ContextProfile) : ContextProfile := default deployment (ctx_profile c).
Definition context_levers_for (c : ContextConfig) (deployment : ContextProfile) (model : string) : option Levers :=
  levers_for_with c (context_profile c deployment) model.
Definition apply_profile_defaults (c : ContextConfig) (deployment : ContextProfile) : ContextConfig :=
  match ctx_profile c, deployment with
  | None, CtxFleet => mkContextConfig (Some CtxFleet) (ctx_enabled c) (ctx_profiles c) (ctx_default_profile c)
  | _, _ => c
  end.
Definition measure (c : ContextConfig) (model : string) : bool :=
  bool_decide (is_Some (levers_for_with c (default CtxStandalone (ctx_profile c)) model))
  || bool_decide (is_Some (ctx_default_profile c)) || negb (bool_decide (length (ctx_profiles c) = 0%nat))
  || bool_decide (is_Some (ctx_profile c)) || bool_decide (is_Some (ctx_enabled c)).

(** ** The window *)

Inductive WindowAction := AlreadyFits | Elided | CompactedDown | TooLarge.
#[export] Instance window_action_eq_dec : EqDecision WindowAction.
Proof. solve_decision. Defined.
Record WindowFit := mkFit { fit_turns : list ConvTurn; fit_tokens : Z; fit_action : WindowAction }.
Definition tokens_of (ts : list ConvTurn) : Z := context_tokens (turns_bytes ts).
Definition fit_to_window (ts : list ConvTurn) (max_context_tokens : Z) : WindowFit :=
  if (max_context_tokens =? 0) || (tokens_of ts <=? max_context_tokens) then mkFit ts (tokens_of ts) AlreadyFits
  else
    let elided := (elide_stale ts 0 0).1 in
    if tokens_of elided <=? max_context_tokens then mkFit elided (tokens_of elided) Elided
    else
      let compacted := cp_turns (compact elided 1 2 64 40) in
      mkFit compacted (tokens_of compacted) (if tokens_of compacted <=? max_context_tokens then CompactedDown else TooLarge).

(** *** zoder-cli *)

(** What the window of a model is read from: the entries of the model map, each
    with the model and the provider it names. *)
Record WindowEntry := mkWindowEntry { we_model : option string; we_provider : option string; we_window : option Z }.
Definition entry_window (provider_id model : string) (e : WindowEntry) : option Z :=
  if bool_decide (we_model e = Some model)
     && match we_provider e with Some owner => bool_decide (owner = provider_id) | None => true end
  then we_window e else None.
Definition max_context_tokens_for (entries : list WindowEntry) (providers : list Provider) (provider_id model : string) : option Z :=
  or_opt (find_map (entry_window provider_id model) entries) (config_provider providers provider_id ≫= max_context_tokens).
Definition window_for (entries : list WindowEntry) (providers : list Provider) (provider_id model : string) (levers : option Levers) :
  option Z :=
  opt_filter (fun w => 0 <? w)
    (or_opt (max_context_tokens_for entries providers provider_id model) (lv_max_context_tokens <$> levers)).

Inductive WindowOutcome := Fits | Fitted (a : WindowAction).
#[export] Instance window_outcome_eq_dec : EqDecision WindowOutcome.
Proof. solve_decision. Defined.
(** The refusals, with the tokens and the window they name. *)
Record TooLargeError := mkTooLarge { tl_tokens : Z; tl_bytes : Z; tl_window : Z }.
Definition fit_prompt (system user : string) (window : option Z) : result WindowOutcome TooLargeError :=
  match window with
  | None => Ok Fits
  | Some window =>
      let fit := fit_to_window [new_conv_turn "system" system; new_conv_turn "user" user] window in
      match fit_action fit with
      | AlreadyFits => Ok Fits
      | TooLarge => Err (mkTooLarge (context_tokens (len system + len user)) (len system + len user) window)
      | action => Ok (Fitted action)
      end
  end.
(** A message is its role and its content. *)
Local Notation ChatMessage := (string * string)%type.
Definition conv_turns (messages : list ChatMessage) : list ConvTurn := map (fun m => new_conv_turn m.1 m.2) messages.
Definition messages_bytes (messages : list ChatMessage) : Z := foldr (fun m n => len m.2 + n) 0 messages.
Definition fit_messages (messages : list ChatMessage) (window : option Z) : result WindowOutcome TooLargeError :=
  match window with
  | None => Ok Fits
  | Some window =>
      let bytes := messages_bytes messages in
      if context_tokens bytes <=? window then Ok Fits
      else
        let fit := fit_to_window (conv_turns messages) window in
        match fit_action fit with
        | TooLarge => Err (mkTooLarge (context_tokens bytes) bytes window)
        | action => Ok (Fitted action)
        end
  end.
Definition apply_levers (messages : list ChatMessage) (l : Levers) : list ChatMessage :=
  map (fun t => (t_role t, t_content t)) (cp_turns (apply_to_conversation l (conv_turns messages))).
(** One link of the chain: the messages its request carries, or a refusal. *)
Definition request_messages (levers : option Levers) (window : option Z) (messages : list ChatMessage) :
  result (list ChatMessage) TooLargeError :=
  let request := match levers with Some l => apply_levers messages l | None => messages end in
  match fit_messages request window with Ok _ => Ok request | Err e => Err e end.

Definition segments_for (system user : string) : list Segment := [mkSegment PartPrefix system; mkSegment PartTask user].
Definition message_part (role : string) : Part :=
  if bool_decide (role = "system") then PartPrefix else if bool_decide (role = "tool") then PartToolOutput else PartHistory.
Definition segments_for_messages (messages : list ChatMessage) : list Segment :=
  map (fun m => mkSegment (message_part m.1) m.2) messages.
(** [record_call]: the records are kept under a lock, so a record is numbered
    by the ones before it. *)
Definition record_call (records : list CallRecord) (surface : string) (segments : list Segment)
  (prompt hit miss completion : option Z) (tokens_out : Z) : list CallRecord :=
  records ++ [new_call_record (Z.of_nat (length records) + 1) surface segments prompt hit miss (default tokens_out completion)].
(** The review's share of a window: what is left after the reserve, in bytes. *)
Definition single_review_budget (window_tokens : option Z) (reserved_tokens max_diff_bytes chunk_cap_bytes : Z) : Z :=
  match window_tokens with
  | None => chunk_cap_bytes
  | Some window => Z.min (Z.min U64_MAX (u64_sat_sub window reserved_tokens * BYTES_PER_TOKEN)) max_diff_bytes
  end.

(** * Theorems *)

(** ** The cap on one result *)

(** The last place at or before [n] where a character starts, and the first at
    or after it. *)
Definition cut_before (s : string) (n h : nat) : Prop :=
  is_char_boundary s h = true /\ (h <= n)%nat /\ forall k, (h < k <= n)%nat -> is_char_boundary s k = false.
Definition cut_after (s : string) (n h : nat) : Prop :=
  is_char_boundary s h = true /\ (n <= h)%nat /\ forall k, (n <= k < h)%nat -> is_char_boundary s k = false.

Lemma get_past s : forall n, (String.length s <= n)%nat -> String.get n s = None.
Proof. induction s as [|c s IH]; intros [|n] H; cbn in *; [done..|lia|apply IH; lia]. Qed.
Lemma boundary_in s k : is_char_boundary s k = true -> (k <= String.length s)%nat.
Proof.
  unfold is_char_boundary. intros H. destruct (decide (k <= String.length s)%nat) as [?|Hk]; [done|].
  rewrite get_past in H by lia. destruct (Nat.eqb_spec k 0), (Nat.eqb_spec k (String.length s)); [lia..|done].
Qed.
Lemma boundary_end s : is_char_boundary s (String.length s) = true.
Proof. unfold is_char_boundary. rewrite Nat.eqb_refl. by destruct (_ =? 0)%nat. Qed.

Lemma floor_spec s n : cut_before s n (floor_char_boundary s n).
Proof.
  unfold floor_char_boundary. assert (H : forall m, cut_before s m (floor_from s m)).
  { induction m as [|m (Hb & Hle & Hno)]; cbn [floor_from].
    - split; [done|]. split; [done|]. lia.
    - destruct (is_char_boundary s (S m)) eqn:E; [split; [done|]; split; [done|]; lia|].
      split; [done|]. split; [lia|]. intros k Hk. destruct (decide (k = S m)) as [->|]; [done|]. apply Hno. lia. }
  destruct (H (Nat.min n (String.length s))) as (Hb & Hle & Hno). split; [done|]. split; [lia|]. intros k Hk.
  destruct (is_char_boundary s k) eqn:E; [|done]. pose proof (boundary_in _ _ E). rewrite Hno in E by lia. done.
Qed.
Lemma ceil_spec s n : (n <= String.length s)%nat -> cut_after s n (ceil_char_boundary s n).
Proof.
  intros Hn. unfold ceil_char_boundary. rewrite Nat.min_l by done. remember (String.length s - n)%nat as fuel eqn:Ef.
  revert n Hn Ef. induction fuel as [|fuel IH]; intros n Hn Ef; cbn [ceil_from].
  { replace n with (String.length s) by lia. split; [apply boundary_end|]. split; [done|]. lia. }
  destruct (is_char_boundary s n) eqn:E; [split; [done|]; split; [done|]; lia|].
  destruct (IH (S n)) as (Hb & Hle & Hno); [lia..|]. split; [done|]. split; [lia|]. intros k Hk.
  destruct (decide (k = n)) as [->|]; [done|]. apply Hno. lia.
Qed.

(** A tool result is left alone when the cap is off, when it fits, or when the
    cut would not pay; otherwise it is its head and its tail around a stub
    that says how many bytes are gone.  Both cuts are at characters, as close
    to two thirds and one third of the cap as characters allow, so what is
    kept fits the cap and nothing else of the result is lost. *)
Theorem cap_tool_output_exact t cap_bytes : 0 <= cap_bytes ->
  let content := t_content t in
  let cap := Z.max cap_bytes MIN_CAP_BYTES in
  exists h s,
    cut_before content (Z.to_nat (cap - cap / 3)) h
    /\ (cap < len content -> cut_after content (Z.to_nat (len content - cap / 3)) s)
    /\ (cap < len content -> Z.of_nat h + (len content - Z.of_nat s) <= cap)
    /\ cap_tool_output t cap_bytes =
       if (cap_bytes =? 0) || (len content <=? cap) || (Z.of_nat s - Z.of_nat h <? MIN_ELISION_BYTES) then t
       else with_content t (str_take h content +:+ cap_stub (Z.of_nat s - Z.of_nat h) cap (t_source t) +:+ str_drop s content).
Proof.
  intros Hc. cbn zeta. set (content := t_content t). set (cap := Z.max cap_bytes MIN_CAP_BYTES).
  assert (512 <= cap) by (subst cap; unfold MIN_CAP_BYTES; lia).
  assert (0 <= cap / 3 <= cap) by (Z.div_mod_to_equations; lia).
  exists (cap_cuts content cap).1, (cap_cuts content cap).2. unfold cap_cuts. cbn [fst snd].
  assert (Hh : u64_sat_sub cap (cap / 3) = cap - cap / 3) by (unfold u64_sat_sub; lia). rewrite Hh.
  set (h := floor_char_boundary _ _). set (s := ceil_char_boundary _ _).
  assert (Hb : cut_before content (Z.to_nat (cap - cap / 3)) h) by apply floor_spec.
  assert (Ha : cap < len content -> cut_after content (Z.to_nat (len content - cap / 3)) s).
  { intros Hl. subst s. replace (u64_sat_sub (len content) (cap / 3)) with (len content - cap / 3) by (unfold u64_sat_sub; lia).
    apply ceil_spec. unfold len in *. lia. }
  split; [done|]. split; [done|]. split.
  { intros Hl. destruct Hb as (_ & Hb & _). destruct (Ha Hl) as (_ & Ha' & _). lia. }
  unfold cap_tool_output. fold content cap. destruct (cap_bytes =? 0); [done|]. destruct (Z.leb_spec (len content) cap) as [?|Hl]; [done|].
  unfold cap_cuts. rewrite Hh. fold h s. cbn [orb]. unfold MIN_ELISION_BYTES.
  destruct (Nat.leb_spec s h); [rewrite (proj2 (Z.ltb_lt _ _)) by lia; done|].
  rewrite <- Nat2Z.inj_sub by lia. done.
Qed.

(** ** Elision *)

Lemma stub_is_elided t src n : is_elided (with_content t (elision_stub src n)) = true.
Proof. unfold is_elided. apply starts_with_spec. by eexists. Qed.
Lemma stale_elided m t : stale m (elide_turn m t) = false.
Proof.
  unfold elide_turn. destruct (stale m t) eqn:E; [|done]. unfold stale. rewrite stub_is_elided. by rewrite andb_false_r.
Qed.
Lemma elide_turn_idem m t : elide_turn m (elide_turn m t) = elide_turn m t.
Proof. unfold elide_turn at 1. by rewrite stale_elided. Qed.
Lemma elide_role m t : t_role (elide_turn m t) = t_role t.
Proof. unfold elide_turn. by destruct (stale m t). Qed.
Lemma elide_length ts keep m : length (elide_stale ts keep m).1 = length ts.
Proof. unfold elide_stale. cbn [fst]. rewrite length_app, length_map, <- length_app. by rewrite take_drop. Qed.
Lemma elide_lookup ts keep m i : 0 <= keep ->
  (elide_stale ts keep m).1 !! i = (fun t => if Z.of_nat i + keep <? Z.of_nat (length ts) then elide_turn m t else t) <$> ts !! i.
Proof.
  intros Hk. unfold elide_stale, cutoff, u64_sat_sub. cbn [fst]. set (n := Z.to_nat _).
  destruct (Z.ltb_spec (Z.of_nat i + keep) (Z.of_nat (length ts))) as [Hi|Hi].
  - rewrite lookup_app_l by (rewrite length_map, length_take; lia). rewrite list_lookup_fmap, lookup_take_lt by lia. done.
  - rewrite option_fmap_id. destruct (decide (length ts <= i)%nat) as [?|Hi2].
    { rewrite lookup_ge_None_2, lookup_ge_None_2; [done|lia|]. rewrite length_app, length_map, <- length_app, take_drop. lia. }
    rewrite lookup_app_r by (rewrite length_map, length_take; lia). rewrite length_map, length_take, lookup_drop. f_equal. lia.
Qed.

(** Elision replaces exactly the stale tool results that are not among the last
    turns kept, each by a stub with its size, and a second pass finds nothing
    left to replace. *)
Theorem elide_stale_exact ts keep m : 0 <= keep ->
  let r := elide_stale ts keep m in
  length r.1 = length ts
  /\ (forall i t, ts !! i = Some t ->
        r.1 !! i = Some (if (Z.of_nat i + keep <? Z.of_nat (length ts)) && stale m t
                         then with_content t (elision_stub (t_source t) (turn_bytes t)) else t))
  /\ elide_stale r.1 keep m = (r.1, 0%nat).
Proof.
  intros Hk. cbn zeta. split; [apply elide_length|]. split.
  { intros i t Ht. rewrite elide_lookup, Ht by done. cbn. f_equal. destruct (_ <? _); [|done]. done. }
  pose proof (elide_length ts keep m) as Hl. set (r := elide_stale ts keep m) in *. unfold elide_stale. f_equal.
  - apply list_eq. intros i.
    change (map (elide_turn m) (take (cutoff keep r.1) r.1) ++ drop (cutoff keep r.1) r.1) with (elide_stale r.1 keep m).1.
    rewrite elide_lookup by done. rewrite Hl. subst r. rewrite elide_lookup by done.
    destruct (ts !! i) as [t|]; [|done]. cbn. f_equal. destruct (_ <? _); [|done]. apply elide_turn_idem.
  - assert (Hs : forall l, filterb (stale m) (map (elide_turn m) l) = []).
    { induction l as [|t l IH]; [done|]. unfold filterb in *. cbn. by rewrite stale_elided. }
    replace (take (cutoff keep r.1) r.1) with (map (elide_turn m) (take (cutoff keep ts) ts)); [by rewrite Hs|].
    unfold cutoff. rewrite Hl. subst r. unfold elide_stale, cutoff. cbn [fst].
    rewrite take_app_le by (rewrite length_map, length_take; unfold u64_sat_sub; lia).
    symmetry. apply take_ge. rewrite length_map, length_take. lia.
Qed.

(** ** Compaction *)

Definition unfoldable (ts : list ConvTurn) (i : nat) : bool :=
  match ts !! i with Some t => is_system t || is_digest t || is_brief ts i | None => true end.
Definition pinned_turn (ts : list ConvTurn) (i : nat) : bool :=
  match ts !! i with Some t => is_system t || is_brief ts i | None => false end.

Lemma fold_end_spec ts n : (n <= length ts)%nat ->
  let e := fold_end ts n in
  (e <= n)%nat /\ (forall i, (e <= i < n)%nat -> unfoldable ts i = true)
  /\ (e = 0%nat \/ unfoldable ts (e - 1) = false).
Proof.
  cbn zeta. induction n as [|n IH]; intros Hn; cbn [fold_end]; [split; [done|]; split; [lia|by left]|].
  destruct (ts !! n) as [t|] eqn:E; [|apply lookup_ge_None_1 in E; lia].
  destruct (is_system t || is_digest t || is_brief ts n) eqn:Ek.
  - destruct IH as (Hle & Hu & He); [lia|]. split; [lia|]. split; [|done]. intros i Hi.
    destruct (decide (i = n)) as [->|]; [by unfold unfoldable; rewrite E|]. apply Hu. lia.
  - split; [done|]. split; [lia|]. right. unfold unfoldable. replace (S n - 1)%nat with n by lia. by rewrite E.
Qed.
Lemma pinned_from_spec ts fuel : forall n, (length ts <= n + fuel)%nat -> (n <= length ts)%nat ->
  let e := pinned_from fuel ts n in
  (n <= e <= length ts)%nat /\ (forall i, (n <= i < e)%nat -> pinned_turn ts i = true) /\ pinned_turn ts e = false.
Proof.
  cbn zeta. induction fuel as [|fuel IH]; intros n Hf Hn; cbn [pinned_from].
  - split; [lia|]. split; [lia|]. unfold pinned_turn. by rewrite lookup_ge_None_2 by lia.
  - destruct (ts !! n) as [t|] eqn:E.
    + destruct (is_system t || is_brief ts n) eqn:Ek.
      * apply lookup_lt_Some in E as Hlt. destruct (IH (S n)) as (Hle & Hp & He); [lia..|]. split; [lia|]. split; [|done]. intros i Hi.
        destruct (decide (i = n)) as [->|]; [by unfold pinned_turn; rewrite E|]. apply Hp. lia.
      * split; [lia|]. split; [lia|]. by unfold pinned_turn; rewrite E.
    + split; [lia|]. split; [lia|]. by unfold pinned_turn; rewrite E.
Qed.
Lemma is_brief_take ts e i : (i < e)%nat -> is_brief (take e ts) i = is_brief ts i.
Proof. intros Hi. unfold is_brief. rewrite lookup_take_lt by done. by rewrite take_take, Nat.min_l by lia. Qed.
Lemma pinned_take ts e i : (i < e)%nat -> pinned_turn (take e ts) i = pinned_turn ts i.
Proof. intros Hi. unfold pinned_turn. by rewrite lookup_take_lt, is_brief_take. Qed.
Lemma pinned_unfoldable ts i : pinned_turn ts i = true -> unfoldable ts i = true.
Proof. unfold pinned_turn, unfoldable. destruct (ts !! i) as [t|]; [|done]. destruct (is_system t), (is_digest t), (is_brief ts i); done. Qed.

(** The one way a pass splits a conversation: the turns pinned at the front, the
    turns to fold, which end with one that may be folded, and the rest, which
    holds the turns kept verbatim and the unfoldable ones right before them. *)
Record folds (ts : list ConvTurn) (keep : Z) (pinned foldable recent : list ConvTurn) : Prop := {
  fo_split : ts = pinned ++ foldable ++ recent;
  fo_pinned : forall i, (i < length pinned)%nat -> pinned_turn ts i = true;
  fo_first : pinned_turn ts (length pinned) = false;
  fo_last : unfoldable ts (length pinned + length foldable - 1) = false;
  fo_some : foldable <> [];
  fo_keep : (length pinned + length foldable <= cutoff keep ts)%nat;
  fo_rest : forall i, (length pinned + length foldable <= i < cutoff keep ts)%nat -> unfoldable ts i = true
}.

Lemma compact_split ts keep : forallb (unfoldable ts) (seq 0 (cutoff keep ts)) = false -> 0 <= keep ->
  let e := fold_end ts (cutoff keep ts) in
  let p := pinned_end (take e ts) in
  e <> 0%nat /\ folds ts keep (take p (take e ts)) (drop p (take e ts)) (drop e ts).
Proof.
  intros Hf Hk. cbn zeta. assert (Hc : (cutoff keep ts <= length ts)%nat) by (unfold cutoff, u64_sat_sub; lia).
  destruct (fold_end_spec ts _ Hc) as (Hle & Hu & He). set (e := fold_end ts (cutoff keep ts)) in *.
  assert (He0 : e <> 0%nat).
  { intros E. rewrite E in Hu. assert (forallb (unfoldable ts) (seq 0 (cutoff keep ts)) = true); [|congruence].
    apply forallb_forall. intros i Hi%in_seq. apply Hu. lia. }
  destruct He as [?|Hlast]; [done|]. split; [done|].
  assert (Hlo : length (take e ts) = e) by (rewrite length_take; lia).
  destruct (pinned_from_spec (take e ts) (length (take e ts)) 0) as (Hpl & Hp & Hpe); [lia..|].
  fold (pinned_end (take e ts)) in *. set (p := pinned_end (take e ts)) in *.
  assert (Hpe' : (p < e)%nat).
  { destruct (decide (p < e)%nat); [done|].
    pose proof (Hp (e - 1)%nat ltac:(lia)) as Hpin. rewrite pinned_take in Hpin by lia. apply pinned_unfoldable in Hpin. congruence. }
  assert (H1 : length (take p (take e ts)) = p) by (rewrite length_take; lia).
  assert (H2 : length (drop p (take e ts)) = (e - p)%nat) by (rewrite length_drop; lia).
  constructor.
  - by rewrite app_assoc, take_drop, take_drop.
  - intros i Hi. rewrite H1 in Hi. rewrite <- (pinned_take ts e i) by lia. apply Hp. lia.
  - rewrite H1, <- (pinned_take ts e p) by lia. done.
  - rewrite H1, H2. by replace (p + (e - p) - 1)%nat with (e - 1)%nat by lia.
  - intros E. rewrite E in H2. cbn in H2. lia.
  - rewrite H1, H2. lia.
  - rewrite H1, H2. intros i Hi. apply Hu. lia.
Qed.

(** A pass moves nothing below the threshold, or when every turn that is not
    kept verbatim is a system turn, a digest or the brief.  Otherwise it splits
    the conversation and puts one digest in the place of the turns to fold, of
    which it counts those that are not digests, at least one. *)
Theorem compact_exact ts threshold keep max_files max_lines : 0 <= keep ->
  let c := compact ts threshold keep max_files max_lines in
  bytes_before c = turns_bytes ts /\ bytes_after c = turns_bytes (cp_turns c) /\
  if (threshold =? 0) || (context_tokens (turns_bytes ts) <=? threshold) || forallb (unfoldable ts) (seq 0 (cutoff keep ts))
  then cp_turns c = ts /\ folded c = 0%nat
  else exists pinned foldable recent, folds ts keep pinned foldable recent
         /\ cp_turns c = pinned ++ [new_conv_turn "system" (digest_render (fold_digest foldable max_files max_lines))] ++ recent
         /\ folded c = length (filterb (fun t => negb (is_digest t)) foldable) /\ (1 <= folded c)%nat.
Proof.
  intros Hk. cbn zeta. unfold compact. destruct ((threshold =? 0) || _) eqn:Et; [done|]. cbn [orb].
  destruct (forallb _ _) eqn:Ef.
  - replace (fold_end ts (cutoff keep ts)) with 0%nat; [done|].
    assert (Hc : (cutoff keep ts <= length ts)%nat) by (unfold cutoff, u64_sat_sub; lia).
    destruct (fold_end_spec ts _ Hc) as (Hle & _ & [He|He]); [done|].
    destruct (fold_end ts (cutoff keep ts)) as [|e] eqn:E; [done|]. exfalso.
    rewrite forallb_forall in Ef. rewrite (Ef (S e - 1)%nat) in He; [done|]. apply in_seq. lia.
  - destruct (compact_split ts keep Ef Hk) as [He Hfo]. cbn zeta in Hfo.
    destruct (fold_end ts (cutoff keep ts)) as [|e] eqn:Ee; [done|]. rewrite <- Ee in *.
    destruct (drop _ (take _ ts)) as [|f fs] eqn:Ed; [by destruct (fo_some _ _ _ _ _ Hfo)|].
    split; [done|]. split; [done|]. cbn [cp_turns folded]. do 3 eexists. split; [exact Hfo|]. split; [done|]. split; [done|].
    set (p := take _ (take _ ts)) in *. set (r := drop _ ts) in *.
    destruct Hfo as [Hsp _ _ Hl Hn _ _]. destruct (filterb _ (f :: fs)) as [|x l] eqn:Ex; [|cbn; lia]. exfalso.
    destruct (last (f :: fs)) as [t|] eqn:Elast; [|by apply last_None in Elast].
    assert (Hlk : ts !! (length p + length (f :: fs) - 1)%nat = Some t).
    { rewrite Hsp, lookup_app_r by (cbn; lia). rewrite lookup_app_l by (cbn; lia). rewrite last_lookup in Elast. rewrite <- Elast. f_equal. cbn. lia. }
    unfold unfoldable in Hl. rewrite Hlk in Hl. apply orb_false_iff in Hl as [[_ Hd]%orb_false_iff _].
    assert (t ∈ filterb (fun t => negb (is_digest t)) (f :: fs)) as Hin; [|rewrite Ex in Hin; by apply not_elem_of_nil in Hin].
    apply elem_of_filterb. split; [by rewrite Hd|]. rewrite last_lookup in Elast. by eapply list_elem_of_lookup_2.
Qed.

(** The pinned turns at the front and the turns kept at the end are copied. *)
Lemma folds_head ts keep p f r n : folds ts keep p f r -> (forall i, (i < n)%nat -> pinned_turn ts i = true) -> (n <= length p)%nat.
Proof.
  intros [_ _ H _ _ _ _] Hp. destruct (decide (n <= length p)%nat); [done|]. rewrite Hp in H by lia. done.
Qed.
Lemma compact_head ts threshold keep mf ml n : 0 <= keep -> (forall i, (i < n)%nat -> pinned_turn ts i = true) ->
  take n (cp_turns (compact ts threshold keep mf ml)) = take n ts.
Proof.
  intros Hk Hp. destruct (compact_exact ts threshold keep mf ml Hk) as (_ & _ & H). case_match; [by destruct H as [-> _]|].
  destruct H as (p & f & r & Hf & -> & _). pose proof (folds_head _ _ _ _ _ _ Hf Hp). rewrite (fo_split _ _ _ _ _ Hf).
  by rewrite !take_app_le by lia.
Qed.
Lemma compact_tail ts threshold keep mf ml : 0 <= keep -> exists front,
  cp_turns (compact ts threshold keep mf ml) = front ++ drop (cutoff keep ts) ts.
Proof.
  intros Hk. destruct (compact_exact ts threshold keep mf ml Hk) as (_ & _ & H). case_match.
  { destruct H as [-> _]. exists (take (cutoff keep ts) ts). by rewrite take_drop. }
  destruct H as (p & f & r & Hf & -> & _). pose proof (fo_keep _ _ _ _ _ Hf) as Hc. pose proof (fo_split _ _ _ _ _ Hf) as Hs.
  set (d := new_conv_turn _ _). set (n := (cutoff keep ts - (length p + length f))%nat).
  assert (Hr : drop (cutoff keep ts) ts = drop n r).
  { rewrite Hs at 2. rewrite app_assoc, drop_app_ge by (rewrite length_app; lia). by rewrite length_app. }
  exists (p ++ [d] ++ take n r). rewrite Hr, <- !app_assoc. by rewrite take_drop.
Qed.

Lemma elide_all ts m : (elide_stale ts 0 m).1 = map (elide_turn m) ts.
Proof.
  unfold elide_stale, cutoff, u64_sat_sub. cbn [fst]. rewrite take_ge, drop_ge by lia. apply app_nil_r.
Qed.
Lemma elide_other m t : t_role t <> "tool"%string -> elide_turn m t = t.
Proof. intros H. unfold elide_turn, stale. by rewrite bool_decide_false. Qed.
Lemma elide_plain_user m t : is_plain_user (elide_turn m t) = is_plain_user t.
Proof.
  destruct (decide (t_role t = "tool"%string)) as [E|E]; [|by rewrite elide_other].
  unfold is_plain_user. rewrite elide_role, E. done.
Qed.
Lemma pinned_elide ts m i : pinned_turn (map (elide_turn m) ts) i = pinned_turn ts i.
Proof.
  unfold pinned_turn, is_brief. rewrite list_lookup_fmap. destruct (ts !! i) as [t|]; [|done]. cbn.
  unfold is_system. rewrite elide_role, elide_plain_user. do 3 f_equal.
  change (map (elide_turn m) ts) with (elide_turn m <$> ts). rewrite <- fmap_take.
  generalize (take i ts). intros l. induction l as [|x l IH]; [done|]. cbn. by rewrite elide_plain_user, IH.
Qed.
Lemma pinned_role ts i t : pinned_turn ts i = true -> ts !! i = Some t -> t_role t <> "tool"%string.
Proof.
  unfold pinned_turn, is_brief, is_system, is_plain_user. intros H E. rewrite E in H. intros Hr. rewrite Hr in H. done.
Qed.
Lemma elide_head ts m n : (forall i, (i < n)%nat -> pinned_turn ts i = true) -> take n (map (elide_turn m) ts) = take n ts.
Proof.
  intros Hp. apply list_eq. intros i. destruct (decide (i < n)%nat); [|by rewrite !lookup_take_ge by lia].
  rewrite !lookup_take_lt, list_lookup_fmap by done. destruct (ts !! i) as [t|] eqn:E; [|done]. cbn. f_equal.
  apply elide_other. by eapply pinned_role; [apply Hp|].
Qed.

(** A conversation that is not refused fits the window; it is refused when not
    even its digest and its last two turns do.  Whatever happens, the system
    turns and the brief at its front are sent as they are, and so are the last
    two turns unless they are tool results, which may be stubs. *)
Theorem fit_window_sound ts w : 0 < w ->
  let f := fit_to_window ts w in
  fit_tokens f = tokens_of (fit_turns f)
  /\ (fit_action f <> TooLarge <-> fit_tokens f <= w)
  /\ (fit_action f = AlreadyFits <-> tokens_of ts <= w)
  /\ (tokens_of ts <= w -> fit_turns f = ts)
  /\ (forall n, (forall i, (i < n)%nat -> pinned_turn ts i = true) -> take n (fit_turns f) = take n ts)
  /\ (exists front, fit_turns f = front ++ drop (cutoff 2 ts) ts
                    \/ fit_turns f = front ++ map (elide_turn 0) (drop (cutoff 2 ts) ts)).
Proof.
  intros Hw. cbn zeta. unfold fit_to_window. rewrite (proj2 (Z.eqb_neq w 0)) by lia. cbn [orb].
  destruct (Z.leb_spec (tokens_of ts) w) as [Hle|Hgt]; cbn [fit_tokens fit_turns fit_action].
  { split; [done|]. split; [done|]. split; [done|]. split; [done|]. split; [done|].
    exists (take (cutoff 2 ts) ts). left. by rewrite take_drop. }
  rewrite elide_all. destruct (Z.leb_spec (tokens_of (map (elide_turn 0) ts)) w) as [Hle|Hgt2]; cbn [fit_tokens fit_turns fit_action].
  { split; [done|]. split; [done|]. split; [split; [done|lia]|]. split; [lia|]. split; [intros n; apply elide_head|].
    exists (take (cutoff 2 ts) (map (elide_turn 0) ts)). right. change (map ?f ?l) with (f <$> l). by rewrite fmap_drop, take_drop. }
  split; [done|]. split; [destruct (Z.leb_spec (tokens_of (cp_turns (compact (map (elide_turn 0) ts) 1 2 64 40))) w); split; first [done|lia]|].
  split; [destruct (_ <=? _); split; first [done|lia]|]. split; [lia|]. split.
  - intros n Hp. rewrite compact_head; [by apply elide_head|lia|]. intros i Hi. rewrite pinned_elide. by apply Hp.
  - destruct (compact_tail (map (elide_turn 0) ts) 1 2 64 40 ltac:(lia)) as (front & ->). exists front. right.
    assert (Hc : cutoff 2 (map (elide_turn 0) ts) = cutoff 2 ts) by (unfold cutoff; by rewrite length_map). rewrite Hc.
    change (map ?f ?l) with (f <$> l). by rewrite fmap_drop.
Qed.
Lemma fit_window_sound_witness :
  let ts := [new_conv_turn "system" "You review code."; new_conv_turn "user" "Do it."; new_conv_turn "assistant" "Yes."] in
  let f := fit_to_window ts 3 in
  fit_tokens f = tokens_of (fit_turns f)
  /\ (fit_action f <> TooLarge <-> fit_tokens f <= 3)
  /\ (fit_action f = AlreadyFits <-> tokens_of ts <= 3)
  /\ (tokens_of ts <= 3 -> fit_turns f = ts)
  /\ (forall n, (forall i, (i < n)%nat -> pinned_turn ts i = true) -> take n (fit_turns f) = take n ts)
  /\ (exists front, fit_turns f = front ++ drop (cutoff 2 ts) ts
                    \/ fit_turns f = front ++ map (elide_turn 0) (drop (cutoff 2 ts) ts)).
Proof. apply fit_window_sound. lia. Defined.

(** ** The digest reads back *)

(** What the lists of a digest may hold to be read back. *)
Definition list_item (w : string) : Prop :=
  w <> "" /\ trimmed w /\ str_has ";" w = false /\ str_has newline w = false.
Definition digest_entry (label : string) (items : list string) : list string :=
  match items with [] => [] | _ => [label +:+ ": " +:+ join "; " items] end.
Definition digest_lines (d : Digest) : list string :=
  digest_header d :: digest_entry "Files touched" (dg_files d) ++ digest_entry "Decisions" (dg_decisions d)
                     ++ digest_entry "Open todos" (dg_open_todos d).

Lemma digest_list_entry label items rest :
  digest_list label items +:+ rest = foldr (fun l r => String newline (l +:+ r)) rest (digest_entry label items).
Proof. destruct items as [|w items]; [done|]. cbn [digest_list digest_entry foldr]. rewrite !str_app_assoc. by rewrite str_app_cons, str_nil_app. Qed.
Lemma newline_first ls : forall l, l +:+ foldr (fun l r => String newline (l +:+ r)) (String newline "") ls = end_lines (l :: ls).
Proof. induction ls as [|m ls IH]; intros l; [done|]. cbn [foldr]. rewrite IH. done. Qed.
Lemma digest_render_lines d : digest_render d = end_lines (digest_lines d).
Proof.
  unfold digest_render, digest_lines. rewrite !digest_list_entry, <- !foldr_app. rewrite !app_assoc. apply newline_first.
Qed.

Lemma join_item sep w r : r <> [] -> join sep (w :: r) = w +:+ sep +:+ join sep r.
Proof. by destruct r. Qed.
Lemma join_trimmed items : items <> [] -> Forall list_item items -> join "; " items <> "" /\ trimmed (join "; " items).
Proof.
  intros Hn H. induction H as [|w r (Hw & [Hs He] & _ & _) Hr IH]; [done|]. destruct r as [|x r]; [done|].
  rewrite join_item by done. destruct IH as [Hj [Hjs Hje]]; [done|]. split; [by destruct w|]. apply trimmed_app; [done..| |].
  - by destruct (join "; " (x :: r)).
  - rewrite trim_end_app by congruence. by rewrite Hje.
Qed.
Lemma split_items w r : forall p, str_has ";" p = false -> Forall list_item (w :: r) ->
  split_on ";" (p +:+ join "; " (w :: r)) = (p +:+ w) :: map (fun x => " " +:+ x) r.
Proof.
  revert w. induction r as [|x r IH]; intros w p Hp H; apply Forall_cons in H as [(_ & _ & Hw & _) H].
  - cbn [join map]. apply split_on_whole. by rewrite str_has_app, Hp, Hw.
  - rewrite join_item by done. change ("; " +:+ join "; " (x :: r)) with (String ";" (" " +:+ join "; " (x :: r))).
    rewrite <- str_app_assoc, split_on_app by (by rewrite str_has_app, Hp, Hw). by rewrite IH.
Qed.
Lemma items_read r : Forall list_item r -> filterb non_empty (map trim r) = r /\ filterb non_empty (map trim (map (fun x => " " +:+ x) r)) = r.
Proof.
  assert (Hne : forall x, list_item x -> trim x = x /\ non_empty x = true /\ trim (" " +:+ x) = x).
  { intros x (Hx & Ht & _). apply trimmed_trim in Ht. split; [done|]. split; [by destruct x|]. change (" " +:+ x) with (String " " x).
    by rewrite trim_blank_left. }
  induction 1 as [|x r (H1 & H2 & H3)%Hne Hr [IH1 IH2]]; [done|]. unfold filterb in *. cbn [map List.filter].
  rewrite H1, H3, H2, IH1, IH2. done.
Qed.
Lemma field_read (label : string) items : items <> [] -> Forall list_item items ->
  digest_field (label +:+ ": ") (label +:+ ": " +:+ join "; " items) = Some items.
Proof.
  intros Hn H. unfold digest_field. rewrite <- str_app_assoc, strip_prefix_app. cbn. f_equal.
  destruct items as [|w r]; [done|]. pose proof (split_items w r "" eq_refl H) as Hs. rewrite !str_nil_app in Hs. rewrite Hs.
  apply Forall_cons in H as [Hw Hr]. destruct (items_read r Hr) as [_ Hr2]. unfold filterb in *. cbn [map List.filter].
  destruct (items_read [w]) as [Hw2 _]; [by constructor|]. unfold filterb in Hw2. cbn [map List.filter] in Hw2.
  destruct (non_empty (trim w)); [|done]. injection Hw2 as Hw2. by rewrite Hw2, Hr2.
Qed.
Lemma join_flat items : Forall list_item items -> str_has newline (join "; " items) = false.
Proof.
  induction 1 as [|w r (_ & _ & _ & Hw) Hr IH]; [done|]. destruct r as [|x r]; [done|]. rewrite join_item by done.
  by rewrite !str_has_app, Hw, IH.
Qed.

Lemma ended_app a b : b <> "" /\ trim_end b = b -> a +:+ b <> "" /\ trim_end (a +:+ b) = a +:+ b.
Proof. intros [Hb He]. split; [destruct a; [by rewrite str_nil_app|done]|]. rewrite trim_end_app by congruence. by rewrite He. Qed.
Lemma header_trimmed d : trimmed (digest_header d).
Proof.
  split; [done|]. unfold digest_header. destruct (0 <? absorbed_digests d).
  - do 8 apply ended_app. done.
  - rewrite str_app_nil. do 5 apply ended_app. done.
Qed.
Lemma header_flat d : str_has newline (digest_header d) = false.
Proof.
  unfold digest_header, show_kib. rewrite !str_has_app, !no_char_in_digits by done. destruct (0 <? absorbed_digests d); [|done].
  by rewrite !str_has_app, no_char_in_digits.
Qed.
Lemma entry_line label items : label <> "" -> trim_start label = label -> str_has newline label = false -> Forall list_item items ->
  Forall (fun l => trimmed l /\ str_has newline l = false) (digest_entry label items).
Proof.
  intros Hl Hs Hf H. destruct items as [|w r]; [constructor|]. constructor; [|constructor].
  destruct (join_trimmed (w :: r) ltac:(done) H) as [Hj [Hjs Hje]]. split.
  - apply trimmed_app; [done..| |]; [by destruct (join _ _)|]. rewrite trim_end_app by congruence. by rewrite Hje.
  - by rewrite !str_has_app, Hf, join_flat.
Qed.
Lemma header_words x : split_whitespace (" A structured digest of " +:+ x) = "A" :: "structured" :: "digest" :: "of" :: words_from x "".
Proof. reflexivity. Qed.
Lemma first_number w v ws : parse_u64_std w = Some v ->
  find_map parse_u64_std ("A" :: "structured" :: "digest" :: "of" :: w :: ws) = Some v.
Proof.
  assert (Ha : parse_u64_std "A" = None) by reflexivity. assert (Hs : parse_u64_std "structured" = None) by reflexivity.
  assert (Hd : parse_u64_std "digest" = None) by reflexivity. assert (Ho : parse_u64_std "of" = None) by reflexivity.
  intros H. cbn [find_map]. by rewrite Ha, Hs, Hd, Ho, H.
Qed.
Lemma number_word n x : 0 <= n -> exists ws, words_from (show_u n +:+ String " " x) "" = show_u n :: ws.
Proof.
  intros Hn. pose proof (show_u_word n Hn) as Hw. unfold is_word in Hw. apply andb_true_iff in Hw as [Hne Hall].
  rewrite words_from_word by done. rewrite str_nil_app. cbn [words_from]. apply negb_true_iff in Hne. rewrite Hne. by eexists.
Qed.
Lemma turn_count_read d : 0 <= dg_turns d <= U64_MAX -> digest_turn_count (digest_render d) = dg_turns d.
Proof.
  intros H. unfold digest_turn_count, digest_render, digest_header. rewrite !str_app_assoc, strip_prefix_app, header_words.
  match goal with |- context [words_from (show_u _ +:+ ?x) ""] => assert (Hx : exists r, x = String " " r) by (by eexists) end.
  destruct Hx as [r ->]. destruct (number_word (dg_turns d) r) as [ws ->]; [lia|].
  by rewrite (first_number _ (dg_turns d)) by (by apply parse_u64_show).
Qed.

Definition set_files v x := mkDigest v (dg_decisions x) (dg_open_todos x) (dg_turns x) (dg_bytes_before x) (absorbed_digests x).
Definition set_decisions v x := mkDigest (dg_files x) v (dg_open_todos x) (dg_turns x) (dg_bytes_before x) (absorbed_digests x).
Definition set_todos v x := mkDigest (dg_files x) (dg_decisions x) v (dg_turns x) (dg_bytes_before x) (absorbed_digests x).
Definition set_some (set : list string -> Digest -> Digest) (v : list string) (x : Digest) : Digest :=
  match v with [] => x | _ => set v x end.
Lemma read_entry label set items x :
  (forall l v, digest_field (label +:+ ": ") l = Some v -> (exists r, l = label +:+ r) -> read_digest_line x l = set v x) ->
  Forall list_item items -> foldl read_digest_line x (digest_entry label items) = set_some set items x.
Proof.
  intros Hl H. destruct items as [|w r]; [done|]. cbn [digest_entry foldl set_some]. apply Hl; [by apply field_read|by eexists].
Qed.
Lemma read_files items x : Forall list_item items -> foldl read_digest_line x (digest_entry "Files touched" items) = set_some set_files items x.
Proof. apply read_entry. intros l v H _. unfold read_digest_line. change "Files touched: " with ("Files touched" +:+ ": "). by rewrite H. Qed.
Lemma read_decisions items x : Forall list_item items -> foldl read_digest_line x (digest_entry "Decisions" items) = set_some set_decisions items x.
Proof.
  apply read_entry. intros l v H [r ->]. unfold read_digest_line. change (digest_field "Files touched: " _) with (@None (list string)).
  change "Decisions: " with ("Decisions" +:+ ": "). by rewrite H.
Qed.
Lemma read_todos items x : Forall list_item items -> foldl read_digest_line x (digest_entry "Open todos" items) = set_some set_todos items x.
Proof.
  apply read_entry. intros l v H [r ->]. unfold read_digest_line. change (digest_field "Files touched: " _) with (@None (list string)).
  change (digest_field "Decisions: " _) with (@None (list string)). change "Open todos: " with ("Open todos" +:+ ": "). by rewrite H.
Qed.

(** A digest whose items are trimmed, on one line and without a semicolon is
    read back from its text: the three lists and the number of turns. *)
Theorem digest_roundtrip d :
  Forall list_item (dg_files d) -> Forall list_item (dg_decisions d) -> Forall list_item (dg_open_todos d) ->
  0 <= dg_turns d <= U64_MAX ->
  let r := digest_from_render (digest_render d) in
  dg_files r = dg_files d /\ dg_decisions r = dg_decisions d /\ dg_open_todos r = dg_open_todos d /\ dg_turns r = dg_turns d.
Proof.
  intros Hf Hd Ht Hn. cbn zeta. unfold digest_from_render. rewrite turn_count_read by done.
  set (a := digest_absorbed _). rewrite digest_render_lines.
  assert (Hl : Forall (fun l => trimmed l /\ str_has newline l = false) (digest_lines d)).
  { constructor; [split; [apply header_trimmed|apply header_flat]|]. rewrite !Forall_app. split_and!; by apply entry_line. }
  rewrite lines_end_lines by (by eapply Forall_impl; [exact Hl|intros ? []]).
  assert (Hid : map trim (map chomp (digest_lines d)) = digest_lines d).
  { clear -Hl. induction Hl as [|l ls [Hl _] _ IH]; [done|]. cbn [map]. rewrite IH, chomp_trimmed by done. f_equal. by apply trimmed_trim. }
  rewrite Hid. unfold digest_lines. cbn [foldl].
  change (read_digest_line ?x (digest_header d)) with x. rewrite !foldl_app.
  rewrite read_files, read_decisions, read_todos by done. by destruct (dg_files d), (dg_decisions d), (dg_open_todos d).
Qed.
Definition sample_digest : Digest := mkDigest ["src/a.rs"; "src/b.rs"] ["We decided to clamp"] ["TODO: rerun"] 37 102400 0.
Lemma digest_roundtrip_witness :
  let r := digest_from_render (digest_render sample_digest) in
  dg_files r = ["src/a.rs"; "src/b.rs"] /\ dg_decisions r = ["We decided to clamp"] /\ dg_open_todos r = ["TODO: rerun"] /\ dg_turns r = 37.
Proof. apply (digest_roundtrip sample_digest); [repeat constructor; done..|]. by vm_compute. Defined.

(** ** A squashed line keeps to its bound *)

Lemma squash_words_bound ws : forall out, len out <= squash_budget -> len (squash_words out ws) <= SQUASH_MAX.
Proof.
  assert (E3 : len "..." = 3) by reflexivity. assert (Eb : squash_budget = 157) by reflexivity. rewrite Eb. unfold SQUASH_MAX.
  induction ws as [|w r IH]; intros out Ho; cbn [squash_words]; [lia|].
  destruct (str_is_empty out) eqn:Ee; cbn [negb].
  - rewrite Eb. destruct (Z.ltb_spec 157 (len out + len w)) as [?|Hle].
    + destruct (floor_char_boundary w (Z.to_nat 157) =? 0)%nat; [unfold len in *; lia|].
      destruct (floor_spec w (Z.to_nat 157)) as (Hb & Hc & _). apply boundary_in in Hb.
      rewrite len_app, E3. unfold len at 1. rewrite str_take_length by done. lia.
    + apply IH. pose proof (len_nonneg out). lia.
  - rewrite Eb. destruct (Z.ltb_spec 157 (len out + (len w + 1))) as [?|Hle].
    + rewrite len_app, E3. lia.
    + apply IH. rewrite !len_app. change (len " ") with 1. lia.
Qed.
(** A line of the digest is at most 160 bytes, and only a blank line leaves
    none. *)
Theorem squash_bounded s : len (squash s) <= SQUASH_MAX /\ (squash s = "" -> trim s = "").
Proof.
  unfold squash. split.
  - destruct (str_is_empty _ && _); [by vm_compute|]. apply squash_words_bound. by vm_compute.
  - destruct (str_is_empty (squash_words "" (split_whitespace s))) eqn:E; cbn [andb].
    + destruct (trim s); done.
    + intros H. by rewrite H in E.
Qed.

(** ** The levers of a model *)

Definition unmatched_levers (c : ContextConfig) (p : ContextProfile) (model : string) : Levers :=
  match ctx_default_profile c with
  | Some name =>
      match lever_entry c name, levers_named p name with
      | Some entry, _ => to_levers entry p name
      | None, Some l => l
      | None, None => default (levers_for_model p model) ((fun e => to_levers e p "other") <$> lever_entry c "other")
      end
  | None => default (levers_for_model p model) ((fun e => to_levers e p "other") <$> lever_entry c "other")
  end.
Lemma key_longer_flip a b : key_longer b a = CompOpp (key_longer a b).
Proof. unfold key_longer. by rewrite Nat.compare_antisym. Qed.
Lemma key_longer_le a b : cmp_le key_longer a b <-> (String.length b.1 <= String.length a.1)%nat.
Proof. unfold cmp_le, key_longer. rewrite Nat.compare_gt_iff. lia. Qed.

(** No levers apply exactly when the switch, or else the deployment, says so.
    Otherwise the profile of a longest key that occurs in the model's name is
    taken; without such a key the default profile, then the entry for other
    models, then the built-in levers of the model's family. *)
Theorem levers_for_exact c p model :
  let matching key := key_matches (to_ascii_lowercase model) key in
  match levers_for_with c p model with
  | None => levers_enabled_with c p = false
  | Some l =>
      levers_enabled_with c p = true
      /\ ((exists key entry, (key, entry) ∈ ctx_profiles c /\ matching key = true /\ l = to_levers entry p key
             /\ forall key' entry', (key', entry') ∈ ctx_profiles c -> matching key' = true -> (String.length key' <= String.length key)%nat)
          \/ ((forall key entry, (key, entry) ∈ ctx_profiles c -> matching key = false) /\ l = unmatched_levers c p model))
  end.
Proof.
  cbn zeta. unfold levers_for_with. destruct (levers_enabled_with c p); [|done]. cbn [negb].
  destruct (find_first _ (sort_by key_longer (ctx_profiles c))) as [[key entry]|] eqn:E.
  - split; [done|]. left. exists key, entry. apply find_first_Some in E as Hf.
    destruct Hf as (Hin & Hm). rewrite elem_of_sort_by in Hin.
    split; [done|]. split; [done|]. split; [done|]. intros key' entry' Hin' Hm'.
    assert (Hs : StronglySorted (cmp_le key_longer) (sort_by key_longer (ctx_profiles c))).
    { apply (sort_by_sorted key_longer (fun _ => True)); [intros; apply key_longer_flip| |by apply Forall_true].
      intros x y z _ _ _. rewrite !key_longer_le. lia. }
    destruct (find_first_least _ _ _ _ Hs E (key', entry')) as [H|H]; [by apply elem_of_sort_by|done| |].
    + by injection H as -> _.
    + by apply key_longer_le in H.
  - split; [done|]. right. split.
    + intros key entry Hin. rewrite find_first_None in E. apply (E (key, entry)). by apply elem_of_sort_by.
    + unfold unmatched_levers. destruct (ctx_default_profile c) as [name|]; cbn; [|by destruct (lever_entry c "other")].
      destruct (lever_entry c name); cbn; [done|]. destruct (levers_named p name); cbn; [done|]. by destruct (lever_entry c "other").
Qed.

(** ** A single prompt is never trimmed *)

(** A prompt of a system text and a user text is sent as it is or refused: it
    is refused exactly when a window is stated and its estimate exceeds it. *)
Theorem fit_prompt_exact system user window : (forall w, window = Some w -> 0 <= w) ->
  fit_prompt system user window =
  match window with
  | Some w => if (w =? 0) || (context_tokens (len system + len user) <=? w) then Ok Fits
              else Err (mkTooLarge (context_tokens (len system + len user)) (len system + len user) w)
  | None => Ok Fits
  end.
Proof.
  intros Hw. destruct window as [w|]; [|done]. specialize (Hw w eq_refl). unfold fit_prompt, fit_to_window.
  assert (Ht : tokens_of [new_conv_turn "system" system; new_conv_turn "user" user] = context_tokens (len system + len user)).
  { unfold tokens_of, turns_bytes, turn_bytes. cbn [foldr new_conv_turn t_content]. f_equal. lia. }
  rewrite Ht. destruct ((w =? 0) || _) eqn:E; [done|]. apply orb_false_iff in E as [_ E].
  change (elide_stale [new_conv_turn "system" system; new_conv_turn "user" user] 0 0).1 with [new_conv_turn "system" system; new_conv_turn "user" user].
  rewrite Ht, E.
  assert (Hc : cp_turns (compact [new_conv_turn "system" system; new_conv_turn "user" user] 1 2 64 40) = [new_conv_turn "system" system; new_conv_turn "user" user]).
  { unfold compact. destruct (_ || _); [done|]. done. }
  rewrite Hc, Ht, E. cbn [fit_action]. done.
Qed.
Lemma fit_prompt_exact_witness :
  fit_prompt "You review code." "Here is the diff." (Some 3) = Err (mkTooLarge 9 33 3).
Proof. rewrite fit_prompt_exact; [done|]. intros w [= <-]. lia. Defined.

(** ** Departures *)

Definition user_turn (s : string) : ConvTurn := new_conv_turn "user" s.
Definition assistant_turn (s : string) : ConvTurn := new_conv_turn "assistant" s.
Definition system_turn (s : string) : ConvTurn := new_conv_turn "system" s.
Fixpoint str_rep (n : nat) (c : ascii) : string := match n with O => "" | S n => String c (str_rep n c) end.

(** A digest is a system turn, so it is pinned once nothing but system turns
    and the brief stand before it: the next pass adds another. *)
Example second_pass_second_digest :
  let once := cp_turns (compact [system_turn "s"; user_turn "task"; assistant_turn "a"; assistant_turn "b"] 1 1 64 40) in
  let twice := cp_turns (compact (once ++ [assistant_turn "c"; assistant_turn "d"]) 1 1 64 40) in
  map is_digest once = [false; false; true; false] /\ map is_digest twice = [false; false; true; true; false].
Proof. by vm_compute. Qed.

(** The brief is folded when an assistant turn stands before it, and so is a
    system turn among the turns to fold. *)
Example brief_folded :
  let ts := [assistant_turn "hello"; user_turn "task"; system_turn "rule"; assistant_turn "a"; assistant_turn "b"] in
  let out := cp_turns (compact ts 1 1 64 40) in
  is_brief ts 1 = true /\ length out = 2%nat /\ (user_turn "task" ∈ out -> False) /\ (system_turn "rule" ∈ out -> False).
Proof.
  cbn zeta. split; [done|]. split; [done|]. split; intros [H|[H|H%not_elem_of_nil]%elem_of_cons]%elem_of_cons; done.
Qed.

(** A zero does not switch the elision off: every tool result is replaced. *)
Example zero_elides_everything :
  map is_elided (cp_turns (apply_to_conversation (mkLevers 0 0 0 0 0 0) [user_turn "task"; tool_result "a.rs" "fn f() {}"])) = [false; true].
Proof. by vm_compute. Qed.

(** A conversation that could be brought under the window is sent as it was. *)
Example unfitted_is_sent :
  let messages := [("user", "task"); ("tool", str_rep 400 "x")] in
  fit_messages messages (Some 60) = Ok (Fitted Elided)
  /\ request_messages None (Some 60) messages = Ok messages /\ 60 < context_tokens (messages_bytes messages).
Proof. by vm_compute. Qed.

(** The turns made of messages have no source, so a stub names none. *)
Example stub_without_source :
  map snd (apply_levers [("user", "task"); ("tool", "fn f() {}")] (mkLevers 0 0 0 0 0 0)) = ["task"; elision_stub None 9].
Proof. by vm_compute. Qed.

(** Refused, although the brief is four bytes: the last two turns are too large. *)
Example recent_turns_refused :
  fit_action (fit_to_window [user_turn "task"; assistant_turn (str_rep 400 "x"); assistant_turn "ok"] 60) = TooLarge.
Proof. by vm_compute. Qed.

(** The fit replaces every tool result at once, the small ones by something
    larger. *)
Example fit_elides_all :
  let ts := [user_turn "task"; tool_result "a.rs" "ok"; tool_result "b.rs" (str_rep 900 "x")] in
  let f := fit_to_window ts 200 in
  fit_action f = Elided /\ map is_elided (fit_turns f) = [false; true; true]
  /\ turn_bytes (tool_result "a.rs" "ok") < turn_bytes (elide_turn 0 (tool_result "a.rs" "ok")).
Proof. by vm_compute. Qed.

(** A catch-all entry written in another case is neither a key nor the
    catch-all. *)
Example other_key_ignored :
  let entry := mkLeverProfile (Some 1000) None None None None None in
  levers_for_with (mkContextConfig None (Some true) [("Other", entry)] None) CtxFleet "gpt-oss" = Some OTHER
  /\ levers_for_with (mkContextConfig None (Some true) [("other", entry)] None) CtxFleet "gpt-oss" = Some (to_levers entry CtxFleet "other").
Proof. by vm_compute. Qed.

(** An item with a semicolon comes back as two. *)
Example semicolon_splits_item :
  dg_decisions (digest_from_render (digest_render (mkDigest [] ["we decided to keep a; drop b"] [] 1 10 0))) = ["we decided to keep a"; "drop b"].
Proof. by vm_compute. Qed.
