(* ===== verification/PromptPrefix.v ===== *)
(** The cache-stable prefix of a prompt
    (crates/zoder-core/src/context_opt/prefix.rs): its layout, the values that
    must stay behind it, and the check that none of them is in it.

    The tool schemas are a map listed in the order of its keys. *)
From stdpp Require Import gmap strings.
From S2P Require Import Prelude Numbers Text ReviewDiff ReviewContext Ledger ContextOpt.
Local Open Scope string_scope.
Local Open Scope Z_scope.
Local Open Scope list_scope.

(** ** The prefix *)

Record Prefix := mkPrefix { px_system : string; px_tools : gmap string string }.
Definition new_prefix (system : string) : Prefix := mkPrefix system ∅.
Definition with_tool (p : Prefix) (name schema : string) : Prefix := mkPrefix (px_system p) (<[name := schema]> (px_tools p)).
Definition sys_marker : string := "[zoder-prefix:system v1]".
Definition tools_marker : string := "[zoder-prefix:tools v1]".
Definition key_cmp (a b : string * string) : comparison := String.compare a.1 b.1.
Definition tool_lines (p : Prefix) : list string :=
  map (fun e => e.1 +:+ String tab "" +:+ trim e.2) (sort_by key_cmp (map_to_list (px_tools p))).
Definition prefix_render (p : Prefix) : string :=
  end_lines ([sys_marker; trim_end (px_system p); tools_marker] ++ tool_lines p).
Definition max_volatile_offset (p : Prefix) : nat := String.length (prefix_render p).
Definition tools_offset (p : Prefix) : nat := (String.length sys_marker + 1 + String.length (trim_end (px_system p)) + 1)%nat.
Definition prefix_is_empty (p : Prefix) : bool := str_is_empty (trim (px_system p)) && bool_decide (px_tools p = ∅).
Definition fingerprint (p : Prefix) : Z := fnv1a (String.list_ascii_of_string (prefix_render p)).

(** ** The values that vary *)

Record Volatile := mkVolatile {
  vo_cwd : option string;
  vo_session_id : option string;
  vo_model : option string;
  vo_iteration : option Z;
  vo_timestamp : option string
}.
Definition volatile_line (label : string) (v : option string) : string :=
  match v with Some v => label +:+ v +:+ String newline "" | None => "" end.
Definition volatile_render (v : Volatile) : string :=
  volatile_line "cwd: " (vo_cwd v) +:+ volatile_line "session: " (vo_session_id v) +:+ volatile_line "model: " (vo_model v)
  +:+ volatile_line "iteration: " (show_u <$> vo_iteration v) +:+ volatile_line "time: " (vo_timestamp v).
(** The values worth a search, each with whether it is a bare number. *)
Definition checkable_values (v : Volatile) : list (string * bool) :=
  map (fun s => (s, false))
    (filterb (fun s => negb (str_is_empty (trim s)))
       (concat (map option_list [vo_cwd v; vo_session_id v; vo_model v; vo_timestamp v])))
  ++ map (fun n => (show_u n, true)) (option_list (vo_iteration v)).
Definition volatile_values (v : Volatile) : list string := map fst (checkable_values v).
Definition render_first_message (p : Prefix) (v : Volatile) (body : string) : string :=
  let vol := volatile_render v in
  prefix_render p +:+ (if str_is_empty vol then "" else String newline vol) +:+ String newline body.

(** ** The leak check *)

Definition alnum_at (c : option ascii) : bool := match c with Some c => is_ascii_alphanumeric c | None => false end.
(** The first occurrence with no letter or digit on either side; [prev] is the
    byte before.  The needle is a number, so the step past a rejected match is
    one byte. *)
Fixpoint token_from (prev : option ascii) (needle s : string) (at_ : nat) : option nat :=
  match s with
  | EmptyString => None
  | String c r =>
      match strip_prefix needle s with
      | Some rest =>
          if negb (alnum_at prev) && negb (alnum_at (String.get 0 rest)) then Some at_
          else token_from (Some c) needle r (S at_)
      | None => token_from (Some c) needle r (S at_)
      end
  end.
Definition find_token (text needle : string) : option nat := token_from None needle text 0.
Definition MIN_DISTINCTIVE_LEN : nat := 1.
Definition volatile_offset (text : string) (e : string * bool) : option (string * nat) :=
  let '(value, is_number) := e in
  let is_number := is_number || (String.length value <? MIN_DISTINCTIVE_LEN)%nat in
  (fun at_ => (value, at_)) <$> (if is_number then find_token text value else str_find value text).
Definition volatile_offsets (text : string) (v : Volatile) : list (string * nat) := omap (volatile_offset text) (checkable_values v).

Inductive Stability := Stable | Leaked (value : string) (offset : nat).
Definition check_text_stability (text : string) (bound : nat) (v : Volatile) : Stability :=
  match find_first (fun e => (e.2 <? bound)%nat) (volatile_offsets text v) with
  | Some (value, offset) => Leaked value offset
  | None => Stable
  end.
Definition check_stability (p : Prefix) (v : Volatile) : Stability := check_text_stability (prefix_render p) (max_volatile_offset p) v.
Definition check_message_stability (p : Prefix) (message : string) (v : Volatile) : Stability :=
  check_text_stability message (max_volatile_offset p) v.

(** * Theorems *)

(** ** First occurrences *)

Lemma split_once_str_least sep s a b x y : split_once_str sep s = Some (a, b) -> s = x +:+ sep +:+ y ->
  (String.length a <= String.length x)%nat.
Proof.
  revert a x. induction s as [|c s IH]; intros a x; cbn [split_once_str].
  - destruct (strip_prefix sep "") eqn:E; [|done]. intros [= <- <-] _. cbn. lia.
  - destruct (strip_prefix sep (String c s)) as [r|] eqn:E; [intros [= <- <-] _; cbn; lia|].
    destruct (split_once_str sep s) as [[a' b']|] eqn:Es; [|done]. intros [= <- <-] Hs. destruct x as [|d x].
    + rewrite str_nil_app in Hs. rewrite Hs, strip_prefix_app in E. done.
    + rewrite str_app_cons in Hs. injection Hs as <- Hs. cbn. apply le_n_S. by eapply IH.
Qed.
Lemma split_once_str_None sep s : split_once_str sep s = None -> forall x y, s <> x +:+ sep +:+ y.
Proof.
  induction s as [|c s IH]; cbn [split_once_str]; intros H x y Hs.
  - destruct (strip_prefix sep "") eqn:E; [done|]. destruct x; [|done]. rewrite str_nil_app in Hs. rewrite Hs, strip_prefix_app in E. done.
  - destruct (strip_prefix sep (String c s)) as [r|] eqn:E; [done|]. destruct (split_once_str sep s) as [[a b]|] eqn:Es; [done|].
    destruct x as [|d x]; [rewrite str_nil_app in Hs; rewrite Hs, strip_prefix_app in E; done|].
    rewrite str_app_cons in Hs. injection Hs as <- Hs. by eapply IH.
Qed.

(** An occurrence of a number that is not part of a longer word. *)
Definition standalone (a b : string) : Prop := alnum_at (str_last a) = false /\ alnum_at (String.get 0 b) = false.
Definition occurs (e : string * bool) (text : string) (at_ : nat) : Prop :=
  exists a b, text = a +:+ e.1 +:+ b /\ String.length a = at_ /\ (e.2 = true -> standalone a b).

(** [k] is the place of the first standalone occurrence behind [prev], if any. *)
Definition standing (prev : option ascii) (needle s a b : string) : Prop :=
  s = a +:+ needle +:+ b /\ alnum_at (or_opt (str_last a) prev) = false /\ alnum_at (String.get 0 b) = false.
Definition first_token (prev : option ascii) (needle s : string) (k : option nat) : Prop :=
  match k with
  | Some k => (exists a b, standing prev needle s a b /\ String.length a = k)
              /\ forall a b, standing prev needle s a b -> (k <= String.length a)%nat
  | None => forall a b, ~ standing prev needle s a b
  end.
Lemma first_token_step prev needle c s k : (forall b, ~ standing prev needle (String c s) "" b) ->
  first_token (Some c) needle s k -> first_token prev needle (String c s) (S <$> k).
Proof.
  intros Hno H.
  assert (Htl : forall a b, standing prev needle (String c s) a b -> exists a', a = String c a' /\ standing (Some c) needle s a' b).
  { intros [|d a] b Hs; [by destruct (Hno b)|]. destruct Hs as (Hs & Hp & Hb). rewrite str_app_cons in Hs. injection Hs as <- Hs.
    exists a. split; [done|]. split; [done|]. by rewrite <- str_last_or with (prev := prev). }
  destruct k as [k|]; cbn in *.
  - destruct H as [(a & b & (Hs & Hp & Hb) & Ha) Hmin]. split.
    + exists (String c a), b. split; [|cbn; lia]. split; [by rewrite Hs|]. by rewrite str_last_or.
    + intros x y (a' & -> & Hx)%Htl. cbn. apply le_n_S. by eapply Hmin.
  - intros a b (a' & -> & Hx)%Htl. by eapply H.
Qed.
Lemma token_from_spec needle s : needle <> "" -> forall prev at_, exists k,
  token_from prev needle s at_ = (fun k => (at_ + k)%nat) <$> k /\ first_token prev needle s k.
Proof.
  intros Hn. induction s as [|c s IH]; intros prev at_.
  { exists None. split; [done|]. intros [|] b (Hs & _); [|done]. rewrite str_nil_app in Hs. by destruct needle. }
  assert (Hstep : token_from prev needle (String c s) at_ = token_from (Some c) needle s (S at_) ->
                  (forall b, ~ standing prev needle (String c s) "" b) -> exists k,
    token_from prev needle (String c s) at_ = (fun k => (at_ + k)%nat) <$> k /\ first_token prev needle (String c s) k).
  { intros -> Hno. destruct (IH (Some c) (S at_)) as (k & -> & Hk). exists (S <$> k).
    split; [destruct k; cbn; [f_equal; lia|done]|]. by apply first_token_step. }
  destruct (strip_prefix needle (String c s)) as [rest|] eqn:E.
  - destruct (negb (alnum_at prev) && negb (alnum_at (String.get 0 rest))) eqn:Eb.
    + exists (Some 0%nat). cbn [token_from]. rewrite E, Eb. split; [cbn; f_equal; lia|]. split; [|lia].
      apply andb_true_iff in Eb as [Hp%negb_true_iff Hr%negb_true_iff]. exists "", rest. split; [|done]. split; [|done].
      rewrite str_nil_app. by apply strip_prefix_Some.
    + apply Hstep; [cbn [token_from]; by rewrite E, Eb|]. intros b (Hs & Hp & Hb). rewrite str_nil_app in Hs.
      rewrite Hs, strip_prefix_app in E. injection E as <-. cbn in Hp. by rewrite Hp, Hb in Eb.
  - apply Hstep; [cbn [token_from]; by rewrite E|]. intros b (Hs & _). rewrite str_nil_app in Hs. by rewrite Hs, strip_prefix_app in E.
Qed.

Lemma volatile_offset_spec text e : e.1 <> "" ->
  (exists at_, volatile_offset text e = Some (e.1, at_) /\ occurs e text at_ /\ forall k, occurs e text k -> (at_ <= k)%nat)
  \/ (volatile_offset text e = None /\ forall k, ~ occurs e text k).
Proof.
  destruct e as [value num]. cbn [fst]. intros Hv. unfold volatile_offset, MIN_DISTINCTIVE_LEN.
  assert (Hl : (String.length value <? 1)%nat = false) by (apply Nat.ltb_ge; destruct value; [done|cbn; lia]). rewrite Hl, orb_false_r.
  destruct num; cbn.
  - unfold find_token. destruct (token_from_spec value text Hv None 0%nat) as ([k|] & -> & Hk); cbn in *.
    + left. exists k. split; [done|]. destruct Hk as [(a & b & (Hs & Hp & Hb) & <-) Hmin]. split.
      { exists a, b. split; [done|]. split; [done|]. intros _. split; [|done]. by destruct (str_last a). }
      intros k (x & y & Hx & <- & [Hsx Hsy]%(fun H => H eq_refl)). apply (Hmin x y). split; [done|]. split; [|done]. by destruct (str_last x).
    + right. split; [done|]. intros k (x & y & Hx & <- & [Hsx Hsy]%(fun H => H eq_refl)). apply (Hk x y). split; [done|]. split; [|done].
      by destruct (str_last x).
  - unfold str_find. destruct (split_once_str value text) as [[a b]|] eqn:E; cbn.
    + left. exists (String.length a). split; [done|]. split.
      { exists a, b. split; [by apply split_once_str_Some|]. done. }
      intros k (x & y & Hx & <- & _). by eapply split_once_str_least.
    + right. split; [done|]. intros k (x & y & Hx & _). by eapply split_once_str_None.
Qed.
Lemma checkable_non_empty v e : e ∈ checkable_values v -> e.1 <> "".
Proof.
  unfold checkable_values. rewrite elem_of_app, !list_elem_of_fmap. intros [(s & -> & Hs)|(n & -> & _)]; cbn.
  - apply elem_of_filterb in Hs as [Hs _]. by destruct s.
  - unfold show_u. destruct (N.to_uint (Z.to_N n)) eqn:E; cbn; [|done..].
    exfalso. destruct (Z.to_N n) as [|p]; [done|]. cbn in E. by apply DecimalPos.Unsigned.to_uint_nonnil in E.
Qed.

(** The check passes exactly when no value that varies occurs before the bound:
    a path, an id or a stamp anywhere in the text, a number where no letter or
    digit touches it.  When it fails it names a value and its first place. *)
Theorem stability_exact text bound v :
  match check_text_stability text bound v with
  | Stable => forall e k, e ∈ checkable_values v -> occurs e text k -> (bound <= k)%nat
  | Leaked value k => (k < bound)%nat /\ exists e, e ∈ checkable_values v /\ e.1 = value /\ occurs e text k
                      /\ forall j, occurs e text j -> (k <= j)%nat
  end.
Proof.
  unfold check_text_stability. destruct (find_first _ (volatile_offsets text v)) as [[value k]|] eqn:E.
  - apply find_first_Some in E as (Hin & Hk%Nat.ltb_lt). split; [done|]. unfold volatile_offsets in Hin.
    apply list_elem_of_omap in Hin as (e & He & Ho). exists e. split; [done|].
    destruct (volatile_offset_spec text e) as [(a & Ha & Hoc & Hmin)|[Hn _]]; [by eapply checkable_non_empty| |congruence].
    rewrite Ha in Ho. injection Ho as <- <-. done.
  - intros e k He Hoc. rewrite find_first_None in E. destruct (decide (bound <= k)%nat); [done|]. exfalso.
    destruct (volatile_offset_spec text e) as [(a & Ha & _ & Hmin)|[_ Hn]]; [by eapply checkable_non_empty| |by eapply Hn].
    assert (Hin : (e.1, a) ∈ volatile_offsets text v) by (apply list_elem_of_omap; by exists e).
    apply E in Hin. cbn in Hin. apply Nat.ltb_ge in Hin. specialize (Hmin k Hoc). lia.
Qed.

(** ** The bytes of the prefix *)

Definition register (system : string) (tools : list (string * string)) : Prefix :=
  foldl (fun p e => with_tool p e.1 e.2) (new_prefix system) tools.
Lemma register_tools (tools : list (string * string)) : forall p : Prefix, px_tools (foldl (fun p e => with_tool p e.1 e.2) p tools) = list_to_map (reverse tools) ∪ px_tools p.
Proof.
  induction tools as [|[name schema] tools IH]; intros p; cbn [foldl]; [symmetry; apply (left_id_L ∅ (∪))|].
  rewrite IH. cbn [with_tool px_tools fst snd]. rewrite reverse_cons, list_to_map_app, <- (assoc_L (∪)). f_equal.
  rewrite insert_union_singleton_l. done.
Qed.

(** The order in which tools are registered does not change a byte of the
    prefix, and every first message built on it starts with those bytes,
    whatever varies behind them. *)
Theorem prefix_bytes_stable system tools tools' v body : NoDup (map fst tools) -> tools ≡ₚ tools' ->
  prefix_render (register system tools) = prefix_render (register system tools')
  /\ exists tail_, render_first_message (register system tools') v body = prefix_render (register system tools) +:+ tail_
                   /\ exists a, tail_ = a +:+ body.
Proof.
  intros Hnd Hp. assert (E : register system tools = register system tools').
  { unfold register. assert (Hs : forall l p, px_system (foldl (fun p e => with_tool p e.1 e.2) p l) = px_system p).
    { induction l as [|e l IH]; intros p; [done|]. cbn [foldl]. by rewrite IH. }
    destruct (foldl _ _ tools) as [s1 t1] eqn:E1, (foldl _ _ tools') as [s2 t2] eqn:E2.
    pose proof (Hs tools (new_prefix system)) as H1. pose proof (Hs tools' (new_prefix system)) as H2. rewrite E1 in H1. rewrite E2 in H2.
    pose proof (register_tools tools (new_prefix system)) as H3. pose proof (register_tools tools' (new_prefix system)) as H4.
    rewrite E1 in H3. rewrite E2 in H4. cbn in *. subst. rewrite !(right_id_L ∅ (∪)). f_equal.
    apply list_to_map_proper; [|by rewrite !reverse_Permutation]. change (NoDup (fst <$> reverse tools)).
    rewrite reverse_Permutation. done. }
  rewrite E. split; [done|]. unfold render_first_message. eexists. split; [done|]. eexists (_ +:+ String newline ""). by rewrite str_app_assoc.
Qed.
Lemma prefix_bytes_stable_witness :
  let a := [("read", "{}"); ("edit", "{x}")] in let b := [("edit", "{x}"); ("read", "{}")] in
  let v := mkVolatile (Some "/work") None None (Some 3) None in
  prefix_render (register "You write code." a) = prefix_render (register "You write code." b)
  /\ exists tail_, render_first_message (register "You write code." b) v "Fix it." = prefix_render (register "You write code." a) +:+ tail_
                   /\ exists c, tail_ = c +:+ "Fix it.".
Proof.
  apply (prefix_bytes_stable "You write code." [("read", "{}"); ("edit", "{x}")] [("edit", "{x}"); ("read", "{}")]).
  - by vm_compute; apply (bool_decide_unpack _).
  - apply Permutation_swap.
Defined.

(** ** Departures *)

(** The bytes do not tell where a schema ends, so two sets of tools share them
    and their fingerprint. *)
Example same_fingerprint :
  let p := register "s" [("a", "x" +:+ String newline ("b" +:+ String tab "y"))] in
  let q := register "s" [("a", "x"); ("b", "y")] in
  px_tools p <> px_tools q /\ prefix_render p = prefix_render q /\ fingerprint p = fingerprint q.
Proof. cbn zeta. split; [by apply (bool_decide_unpack _); vm_compute|]. split; by vm_compute. Qed.

(** A new body that differs in its blank edges only is not seen. *)
Example blank_edges_unseen :
  prefix_render (with_tool (register "s" [("a", "x")]) "a" " x ") = prefix_render (register "s" [("a", "x")]).
Proof. by vm_compute. Qed.
(** A working directory at the root occurs in any path. *)
Example root_leaks :
  check_stability (register "Read https://docs/ first." []) (mkVolatile (Some "/") None None None None) = Leaked "/" 36%nat.
Proof. by vm_compute. Qed.
Example stable_sample :
  check_stability (register "You write code." [("read", "v1 of {}")]) (mkVolatile (Some "/work") (Some "abc") None (Some 1) None) = Stable.
Proof. by vm_compute. Qed.
