(* ===== verification/Reviewers.v ===== *)
(** How a review is put to its reviewers: the pool of verified routes
    (zoder-cli's reviewer_pool.rs), and the prompts of its chunks in the
    cache-stable layout and the historical one
    (crates/zoder-core/src/context_opt/review.rs, zoder-cli's
    review_baton.rs). *)
From stdpp Require Import gmap strings.
From S2P Require Import Prelude F64 Health Numbers Text Failure ReviewDiff ContextOpt PromptPrefix.
Local Open Scope string_scope.
Local Open Scope Z_scope.
Local Open Scope list_scope.

(** ** The pool *)

Definition MAX_HEALTH_AGE_SECS : Z := 3600.
(** [clock] is what the breaker and the classification read themselves. *)
Definition pool_candidate (clock now : Z) (health : gmap string ModelHealth) (route : string * string) : option (string * f64) :=
  let '(provider, model) := route in
  record ← health !! model;
  checked ← checked_at_unix record;
  latency ← ewma_latency_ms record;
  if negb (bool_decide (provider_id record = Some provider)) || negb (bool_decide (classification record = Some Reachable))
     || negb (consecutive_failures record =? 0) || breaker_open_at record clock || is_skipped_by_classification_at record clock
     || (now <? checked) || (MAX_HEALTH_AGE_SECS <=? i64_sat_sub now checked)
     || negb (f64_is_finite latency) || f64_ltb latency f64_zero
  then None else Some (model, latency).
Definition latency_cmp (a b : string * f64) : comparison := f64_total_cmp a.2 b.2.
Definition healthy_models (clock now : Z) (routes : list (string * string)) (health : gmap string ModelHealth) : list string :=
  map fst (sort_by latency_cmp (omap (pool_candidate clock now health) routes)).

(** ** The constant head of a review *)

Definition MAX_HOISTABLE_CONTEXT_BYTES : Z := 4096.
Definition PARTIAL_DIFF_NOTICE : string :=
  "Each part is a partial diff, not a complete source file. Definitions, imports and call sites may be unchanged or in other parts. Their absence here is not evidence of a defect. Report only defects established by the supplied code; do not invent missing integration or compiler failures from omitted context.".

Record ReviewPrefix := mkReviewPrefix {
  rp_system : string;
  rp_focus : string;
  rp_diff_map : string;
  rp_head : string;
  rp_context : string
}.
Definition unless_empty (s t : string) : list string := if str_is_empty s then [] else [t].
Definition review_head_render (p : ReviewPrefix) : string :=
  end_lines ([trim_end (rp_system p)] ++ unless_empty (rp_focus p) (trim_end (rp_focus p)) ++ [PARTIAL_DIFF_NOTICE; trim_end (rp_head p)]
             ++ unless_empty (rp_diff_map p) (trim_end (rp_diff_map p))).
Definition as_prefix (p : ReviewPrefix) : Prefix := new_prefix (review_head_render p).
Definition review_prefix (system focus diff_map head_ : string) (contexts : list string) : ReviewPrefix :=
  mkReviewPrefix system focus diff_map head_ "".
Definition review_fingerprint (p : ReviewPrefix) : Z := fingerprint (as_prefix p).

(** ** One chunk *)

Record ChunkMessage := mkChunkMessage {
  cm_part : Z;
  cm_parts : Z;
  cm_preamble : string;
  cm_context : string;
  cm_chunk : string
}.
Definition eol1 : string := String newline "".
Definition fence_open : string := "```diff" +:+ eol1.
Definition chunk_render (m : ChunkMessage) : string :=
  (if str_is_empty (cm_context m) then "" else trim_end (cm_context m) +:+ eol1 +:+ eol1)
  +:+ fence_open +:+ cm_chunk m
  +:+ (if bool_decide (is_Some (strip_suffix eol1 (cm_chunk m))) then "" else eol1) +:+ "```" +:+ eol1.
Definition banner (m : ChunkMessage) : string := "This is review part " +:+ show_u (cm_part m) +:+ " of " +:+ show_u (cm_parts m) +:+ ".".
Definition chunk_prompt (p : ReviewPrefix) (m : ChunkMessage) : string :=
  review_head_render p +:+ eol1
  +:+ (if str_is_empty (trim (cm_preamble m)) then "" else trim_end (cm_preamble m) +:+ eol1)
  +:+ banner m +:+ eol1 +:+ chunk_render m.
Definition chunk_message (parts : nat) (preamble : string) (context_of : nat -> string) (i : nat) (chunk : string) : ChunkMessage :=
  mkChunkMessage (Z.of_nat i + 1) (Z.of_nat parts) preamble (context_of i) chunk.
Definition review_prompts (p : ReviewPrefix) (chunks contexts : list string) (preamble : string) : list string :=
  imap (fun i chunk => chunk_prompt p (chunk_message (length chunks) preamble (fun i => default "" (contexts !! i)) i chunk)) chunks.
(** The header all chunks share, when it is one and small. *)
Definition hoistable_context_with {T} `{EqDecision T} (render : T -> string) (contexts : list T) : option string :=
  match contexts with
  | first :: _ :: _ =>
      if forallb (fun p => bool_decide (p.1 = p.2)) (zip contexts (tail contexts)) then
        let rendered := render first in
        if str_is_empty (trim rendered) || (MAX_HOISTABLE_CONTEXT_BYTES <? len rendered) then None else Some rendered
      else None
  | _ => None
  end.
Definition hoistable_context (contexts : list string) : option string := hoistable_context_with id contexts.
Definition split_prompt (prompt : string) (boundary : nat) : string * string :=
  let at_ := floor_char_boundary prompt boundary in (str_take at_ prompt, str_drop at_ prompt).

(** ** The two layouts *)

(** The layout asked for by ZODER_REVIEW_STABLE_PREFIX. *)
Definition stable_prefix_enabled (var : option string) : bool :=
  match var with
  | Some v => negb (bool_decide (to_ascii_lowercase (trim v) ∈ [""; "0"; "false"; "no"; "off"]))
  | None => true
  end.
Record RenderedReview := mkRendered {
  rr_prompts : list string;
  rr_prefix : string;
  rr_prefix_bytes : Z;
  hoisted_context : bool
}.
Definition focus_sentence (focus : string) : string :=
  if str_is_empty (trim focus) then "" else " Focus especially on: " +:+ focus +:+ ".".
Definition head_sentence (label : string) (n : nat) : string :=
  if (n <=? 1)%nat then "Review the following " +:+ label +:+ " diff."
  else "Review the following " +:+ label +:+ " diff, one part at a time.".
Definition legacy_prompt (label focus diff_map preamble : string) (count : nat) (context_of : nat -> string) (i : nat) (chunk : string) : string :=
  let no := show_u (Z.of_nat i + 1) +:+ "/" +:+ show_u (Z.of_nat count) in
  let portion := if (count =? 1)%nat then label +:+ " diff" else label +:+ " diff, chunk " +:+ no in
  let map_ := if str_is_empty diff_map then ""
              else eol1 +:+ eol1 +:+ "Diff map (deterministic; covers ALL chunks of this diff; the chunk under review is "
                   +:+ no +:+ ")." +:+ eol1 +:+ diff_map in
  preamble +:+ "Review the following " +:+ portion +:+ "." +:+ focus_sentence focus
  +:+ " Report only concrete defects visible in this portion; do not infer missing code from other chunks." +:+ map_ +:+ context_of i
  +:+ eol1 +:+ eol1 +:+ fence_open +:+ chunk +:+ eol1 +:+ "```".
Definition render_review_legacy (label focus : string) (chunks : list string) (diff_map preamble : string) (context_of : nat -> string) :
  RenderedReview :=
  mkRendered (imap (legacy_prompt label focus diff_map preamble (length chunks) context_of) chunks) "" 0 false.
Definition render_review (stable : bool) (system diff_map label focus : string) (chunks : list string) (preamble : string)
  (context_of : nat -> string) : RenderedReview :=
  if negb stable then render_review_legacy label focus chunks diff_map preamble context_of
  else
    let p := mkReviewPrefix system (focus_sentence focus) diff_map (head_sentence label (length chunks)) "" in
    let rendered := review_head_render p in
    mkRendered (imap (fun i chunk => chunk_prompt p (chunk_message (length chunks) preamble context_of i chunk)) chunks)
      rendered (len rendered) false.

(** * Theorems *)

(** ** The pool *)

(** What earns a route its place. *)
Definition verified (clock now : Z) (health : gmap string ModelHealth) (provider model : string) (latency : f64) : Prop :=
  exists record checked, health !! model = Some record
    /\ provider_id record = Some provider /\ classification record = Some Reachable /\ consecutive_failures record = 0
    /\ checked_at_unix record = Some checked /\ checked <= now /\ i64_sat_sub now checked < MAX_HEALTH_AGE_SECS
    /\ is_skipped_by_classification_at record clock = false
    /\ ewma_latency_ms record = Some latency /\ f64_is_finite latency = true /\ f64_ltb latency f64_zero = false.

Lemma pool_candidate_some clock now health provider model e :
  pool_candidate clock now health (provider, model) = Some e <-> e.1 = model /\ verified clock now health provider model e.2.
Proof.
  unfold pool_candidate, verified. destruct e as [m latency]. cbn [fst snd].
  destruct (health !! model) as [record|] eqn:Eh; cbn; [|split; [done|intros (_ & r & c & Hr & _); done]].
  assert (Hb : consecutive_failures record = 0 -> breaker_open_at record clock = false).
  { intros E. unfold breaker_open_at. by rewrite E. }
  destruct (checked_at_unix record) as [checked|] eqn:Ec; cbn; [|split; [done|intros (_ & r & c & [= <-] & H); destruct_and!; congruence]].
  destruct (ewma_latency_ms record) as [l|] eqn:El; cbn; [|split; [done|intros (_ & r & c & [= <-] & H); destruct_and!; congruence]].
  set (cond := _ || _). split.
  - destruct cond eqn:E; [done|]. intros [= <- <-]. subst cond. split; [done|]. exists record, checked.
    rewrite !orb_false_iff, !negb_false_iff, !bool_decide_eq_true, Z.eqb_eq, Z.ltb_ge, Z.leb_gt in E.
    destruct_and!. by repeat split.
  - intros (-> & r & c & Hr & Hp & Hcl & Hcf & Hc & Hle & Hage & Hsk & Hl & Hfin & Hneg). simplify_eq/=.
    assert (cond = false) as ->; [|done]. subst cond. rewrite Hb, Hsk, Hneg, Hfin, Hcf, Hp, Hcl by done. rewrite !bool_decide_true by done.
    cbn [negb orb Z.eqb]. rewrite (proj2 (Z.ltb_ge _ _)), (proj2 (Z.leb_gt _ _)) by lia. done.
Qed.

(** The pool holds the models of exactly the verified routes, one for each
    route, the one with the lowest latency first; routes of one latency keep
    their configured order. *)
Theorem healthy_pool_exact clock now routes health :
  exists ranked, healthy_models clock now routes health = map fst ranked
    /\ StronglySorted (cmp_le latency_cmp) ranked
    /\ ranked ≡ₚ omap (pool_candidate clock now health) routes
    /\ (forall model latency, (model, latency) ∈ ranked <->
          exists provider, (provider, model) ∈ routes /\ verified clock now health provider model latency)
    /\ (forall lat, filterb (fun e => bool_decide (latency_cmp e lat = Eq)) ranked
                    = filterb (fun e => bool_decide (latency_cmp e lat = Eq)) (omap (pool_candidate clock now health) routes)).
Proof.
  exists (sort_by latency_cmp (omap (pool_candidate clock now health) routes)). split; [done|]. split.
  { apply (sort_by_sorted latency_cmp (fun _ => True)); [intros; apply f64_total_cmp_flip| |by apply Forall_true].
    intros x y z _ _ _. apply f64_total_cmp_trans. }
  split; [apply sort_by_perm|]. split.
  { intros model latency. rewrite elem_of_sort_by, list_elem_of_omap. split.
    - intros ([provider m] & Hin & H). apply pool_candidate_some in H as [H Hv]. cbn in *. subst. eauto.
    - intros (provider & Hin & Hv). exists (provider, model). split; [done|]. by apply pool_candidate_some. }
  intros lat. apply sort_by_stable. intros x y _ _ Hx%bool_decide_eq_true Hy%bool_decide_eq_true.
  unfold latency_cmp in *. rewrite f64_total_cmp_rank, lex3_eq in Hx, Hy. rewrite f64_total_cmp_rank, Hx, <- Hy.
  by rewrite (proj2 (lex3_eq _ _)).
Qed.

(** ** The prompts *)

Lemma piece_after x a b : piece x b -> piece x (a +:+ b).
Proof. intros H. by apply piece_trans with b; [|apply piece_suffix]. Qed.
Lemma piece_nil x : piece "" x.
Proof. by exists "", x. Qed.

Lemma chunk_render_pieces m : piece (fence_open +:+ cm_chunk m) (chunk_render m) /\ piece (trim_end (cm_context m)) (chunk_render m).
Proof.
  unfold chunk_render. set (rest := (if bool_decide _ then _ else _) +:+ _). split.
  - apply piece_after. rewrite <- str_app_assoc. apply piece_prefix.
  - destruct (cm_context m) as [|c r]; [apply piece_nil|]. cbn [str_is_empty]. rewrite str_app_assoc. apply piece_prefix.
Qed.

(** The stable layout.  There is one prompt for each chunk, and every prompt
    is the same head followed by its own tail: the preamble, which part it
    is, the whole of the chunk's context (without its trailing blanks), and
    the whole of the chunk.  The head is the same for any two reviews of
    more than one chunk under the same system text, map, label and focus. *)
Theorem stable_review_exact system diff_map label focus chunks preamble context_of :
  let r := render_review true system diff_map label focus chunks preamble context_of in
  length (rr_prompts r) = length chunks /\ rr_prefix_bytes r = len (rr_prefix r)
  /\ (forall i chunk, chunks !! i = Some chunk -> exists tail,
        rr_prompts r !! i = Some (rr_prefix r +:+ eol1 +:+ tail)
        /\ piece (trim_end preamble) tail /\ piece (banner (chunk_message (length chunks) preamble context_of i chunk)) tail
        /\ piece (trim_end (context_of i)) tail /\ piece (fence_open +:+ chunk) tail)
  /\ (forall others preamble' context_of', ((length chunks <=? 1) = (length others <=? 1))%nat ->
        rr_prefix (render_review true system diff_map label focus others preamble' context_of') = rr_prefix r).
Proof.
  intros r. split; [apply length_imap|]. split; [done|]. split.
  - intros i chunk Hi. pose proof (chunk_render_pieces (chunk_message (length chunks) preamble context_of i chunk)) as [Hc Hx].
    subst r. cbn [render_review negb rr_prompts rr_prefix]. rewrite list_lookup_imap, Hi. cbn [fmap option_fmap option_map].
    eexists. split; [by unfold chunk_prompt|]. cbn [cm_preamble chunk_message cm_context cm_chunk] in *. repeat split.
    + destruct (str_is_empty (trim preamble)) eqn:Et; [|rewrite str_app_assoc; apply piece_prefix].
      assert (trim_end preamble = "") as ->; [|apply piece_nil].
      apply trim_empty. by destruct (trim preamble).
    + apply piece_after, piece_prefix.
    + by do 3 apply piece_after.
    + by do 3 apply piece_after.
  - intros others pre' ctx' Hn. subst r. cbn [render_review negb rr_prefix]. unfold head_sentence. by rewrite Hn.
Qed.

(** The historical layout: as many prompts, each with the whole of its
    chunk and its context, but no head in common is claimed for them. *)
Theorem legacy_review_exact system diff_map label focus chunks preamble context_of :
  let r := render_review false system diff_map label focus chunks preamble context_of in
  length (rr_prompts r) = length chunks /\ rr_prefix r = "" /\ rr_prefix_bytes r = 0
  /\ (forall i chunk, chunks !! i = Some chunk -> exists prompt, rr_prompts r !! i = Some prompt
        /\ piece preamble prompt /\ piece diff_map prompt /\ piece (context_of i) prompt /\ piece (fence_open +:+ chunk) prompt).
Proof.
  intros r. split; [apply length_imap|]. split; [done|]. split; [done|].
  intros i chunk Hi. subst r. cbn [render_review render_review_legacy negb rr_prompts]. rewrite list_lookup_imap, Hi.
  eexists. split; [reflexivity|]. unfold legacy_prompt. repeat split.
  - apply piece_prefix.
  - do 6 apply piece_after. destruct diff_map as [|c m]; [apply piece_nil|]. cbn [str_is_empty]. rewrite !str_app_assoc.
    do 8 apply piece_after. apply piece_prefix.
  - do 7 apply piece_after. apply piece_prefix.
  - do 10 apply piece_after. rewrite <- str_app_assoc. apply piece_prefix.
Qed.

(** A context header all chunks share is told to be small enough to be
    hoisted, and still it is repeated in every prompt: nothing hoists it. *)
Example shared_context_repeated :
  hoistable_context ["ctx"; "ctx"] = Some "ctx"
  /\ (let r := render_review true "sys" "" "x" "" ["a"; "b"] "" (fun _ => "ctx") in
      hoisted_context r = false /\ forallb (fun p => str_contains "ctx" p) (rr_prompts r) = true
      /\ str_contains "ctx" (rr_prefix r) = false).
Proof. repeat split; vm_compute; reflexivity. Qed.
