(* ===== verification/Minimax.v ===== *)
(** The token plan of MiniMax (crates/zoder-core/src/minimax.rs): the
    recognition of the plan's wall in an error body, the usage the plan's
    endpoint reports, the state kept of every provider, and the choice of
    another provider while a wall stands ([filter_token_plan_exhausted] of
    zoder-cli's main.rs).  Instants are nanoseconds since the epoch; what the
    endpoint answers and what the state file decodes to are arguments. *)
From stdpp Require Import gmap strings.
From S2P Require Import Prelude F64 Numbers Clock Text Json Config Quota.
Local Open Scope string_scope.
Local Open Scope Z_scope.
Local Open Scope list_scope.

(** ** The wall in an error body *)

Definition TOKEN_PLAN_LIMIT_CODE : Z := 2056.
Definition RATE_LIMIT_ERROR_TYPE : string := "rate_limit_error".
Definition DEFAULT_EXHAUSTED_GRACE_SECS : Z := 5 * 60 * 60.

(** [s.rfind(c)] *)
Fixpoint str_rfind (c : ascii) (s : string) : option nat :=
  match s with
  | EmptyString => None
  | String d r =>
      match str_rfind c r with
      | Some i => Some (S i)
      | None => if Ascii.eqb c d then Some O else None
      end
  end.

Definition parse_limit_code (message : string) : option Z :=
  let m := trim message in
  open ← str_rfind "(" m;
  close ← str_rfind ")" m;
  if negb (close =? String.length m - 1)%nat || (close <=? open)%nat then None
  else parse_u32_std (trim (str_take (close - (open + 1)) (str_drop (open + 1) m))).

(** [from_str] is the JSON parser. *)
Definition is_token_plan_limit_error (from_str : string -> option Value) (body : string) : bool :=
  match from_str body with
  | None => false
  | Some v =>
      let inner := default v (value_get v "error") in
      bool_decide (value_get_str inner "type" = Some RATE_LIMIT_ERROR_TYPE)
      && bool_decide (parse_limit_code (default "" (value_get_str inner "message")) = Some TOKEN_PLAN_LIMIT_CODE)
  end.

Record TokenPlanLimit := mkLimit {
  pl_provider_id : string;
  observed_at : Z;
  resets_at : option Z
}.
Definition limit_new (provider_id : string) (observed : Z) : TokenPlanLimit := mkLimit provider_id observed None.
Definition limit_exhausted_at (l : TokenPlanLimit) (now : Z) : bool :=
  match resets_at l with
  | Some reset => now <? reset
  | None => now - observed_at l <? DEFAULT_EXHAUSTED_GRACE_SECS * NS
  end.

(** ** The usage the endpoint reports *)

Record TokenPlanRemains := mkRemains {
  end_time : Z;                                 (* i64, milliseconds *)
  remains_time : Z;
  current_interval_total_count : Z;
  current_interval_usage_count : Z;
  current_weekly_total_count : Z;
  current_weekly_usage_count : Z;
  weekly_end_time : Z;
  weekly_remains_time : Z;
  current_interval_remaining_percent : Z;
  current_weekly_remaining_percent : Z
}.

Definition used_fraction (used total remaining_percent : Z) : f64 :=
  if 0 <? total then f64_div (f64_of_Z used) (f64_of_Z total)
  else f64_div (f64_of_Z (100 - Z.max 0 (Z.min 100 remaining_percent))) (f64_of_Z 100).
Definition interval_used_pct (r : TokenPlanRemains) : f64 :=
  used_fraction (current_interval_usage_count r) (current_interval_total_count r) (current_interval_remaining_percent r).
Definition weekly_used_pct (r : TokenPlanRemains) : f64 :=
  used_fraction (current_weekly_usage_count r) (current_weekly_total_count r) (current_weekly_remaining_percent r).
Definition f64_one : f64 := f64_of_Z 1.
Definition interval_exhausted (r : TokenPlanRemains) : bool := f64_leb f64_one (interval_used_pct r).
Definition weekly_exhausted (r : TokenPlanRemains) : bool := f64_leb f64_one (weekly_used_pct r).
Definition NS_PER_MS : Z := 1000000.
Definition epoch_ms_to_utc (ms : Z) : Z := ms / 1000 * NS + ms mod 1000 * NS_PER_MS.
Definition interval_reset_at (r : TokenPlanRemains) : Z := epoch_ms_to_utc (end_time r).
Definition weekly_reset_at (r : TokenPlanRemains) : Z := epoch_ms_to_utc (weekly_end_time r).
Definition remains_exhausted (r : TokenPlanRemains) : bool := interval_exhausted r || weekly_exhausted r.
(** [a.into_iter().chain(b).max()] *)
Definition latest (a b : option Z) : option Z :=
  match a, b with
  | Some a, Some b => Some (Z.max a b)
  | Some a, None => Some a
  | None, b => b
  end.
Definition exhausted_until (r : TokenPlanRemains) : option Z :=
  latest (if interval_exhausted r then Some (interval_reset_at r) else None)
         (if weekly_exhausted r then Some (weekly_reset_at r) else None).
Definition exhausted_until_from (r : TokenPlanRemains) (base : Z) : option Z :=
  latest (if interval_exhausted r then Some (base + remains_time r * NS_PER_MS) else None)
         (if weekly_exhausted r then Some (base + weekly_remains_time r * NS_PER_MS) else None).

(** The envelope of the endpoint; the rows and the status code are what the
    body decodes to. *)
Record TokenPlanRemainsResponse := mkRemainsResponse {
  model_remains : list TokenPlanRemains;
  status_code : Z
}.
Definition parse_token_plan_remains (decode : string -> option TokenPlanRemainsResponse) (body : string) :
  option TokenPlanRemainsResponse :=
  opt_filter (fun v => status_code v =? 0) (decode body).
Definition trim_end_slashes (s : string) : string := trim_end_matches (fun c => Ascii.eqb c "/") s.
Definition remains_url (url : string) : string :=
  let base := trim_end_slashes url in
  if bool_decide (is_Some (strip_suffix "/v1" base)) then base +:+ "/token_plan/remains" else base +:+ "/v1/token_plan/remains".
(** [get url token] is what the endpoint answers a request with that bearer:
    the body of a success. *)
Definition fetch_remains (env : string -> option string) (get : string -> string -> option string)
  (decode : string -> option TokenPlanRemainsResponse) (url : string) (a : Auth) (now : Z) : option (TokenPlanRemains * Z) :=
  token ← auth_resolve env a;
  body ← get (remains_url url) token;
  parsed ← parse_token_plan_remains decode body;
  (fun r => (r, now)) <$> head (model_remains parsed).

(** ** The state kept of a provider *)

Record ProviderQuotaState := mkQuotaState {
  qs_limit : option TokenPlanLimit;
  last_remains : option TokenPlanRemains;
  refreshed_at : option Z
}.
Definition quota_default : ProviderQuotaState := mkQuotaState None None None.
Definition quota_exhausted_at (s : ProviderQuotaState) (now : Z) : bool :=
  match qs_limit s ≫= resets_at with
  | Some reset => now <? reset
  | None =>
      let relief := match last_remains s, refreshed_at s with
                    | Some remains, Some base => exhausted_until_from remains base
                    | _, _ => None
                    end in
      match relief with
      | Some relief => if now <? relief then true else
          match qs_limit s with Some l => limit_exhausted_at l now | None => false end
      | None => match qs_limit s with Some l => limit_exhausted_at l now | None => false end
      end
  end.

Notation QuotaState := (gmap string ProviderQuotaState).
Definition record_limit (q : QuotaState) (id : string) (l : TokenPlanLimit) : QuotaState :=
  let s := default quota_default (q !! id) in
  <[id := mkQuotaState (Some l) (last_remains s) (refreshed_at s)]> q.
Definition record_remains (q : QuotaState) (id : string) (r : TokenPlanRemains) (now : Z) : QuotaState :=
  let s := default quota_default (q !! id) in
  <[id := mkQuotaState (qs_limit s) (Some r) (Some now)]> q.
Definition observed_reset_at (q : QuotaState) (id : string) : option Z :=
  s ← q !! id;
  (fun r => default (interval_reset_at r) (exhausted_until r)) <$> last_remains s.
Definition quota_is_exhausted (q : QuotaState) (id : string) (now : Z) : bool :=
  match q !! id with Some s => quota_exhausted_at s now | None => false end.
(** [loaded] is what the state file decodes to; a missing or corrupt file is
    the empty state. *)
Definition load_state (loaded : option QuotaState) : QuotaState := default ∅ loaded.

(** The limit recorded and the state written. *)
Definition observe_token_plan_limit (loaded : option QuotaState) (refreshed : option (TokenPlanRemains * Z))
  (provider_id : string) (now : Z) : TokenPlanLimit * QuotaState :=
  let state := load_state loaded in
  let plain st := let l := limit_new provider_id now in (l, record_limit st provider_id l) in
  match refreshed with
  | None => plain state
  | Some (remains, at_) =>
      let state := record_remains state provider_id remains at_ in
      match exhausted_until remains with
      | Some reset => let l := mkLimit provider_id now (Some reset) in (l, record_limit state provider_id l)
      | None => plain state
      end
  end.

(** ** Another provider while the wall stands *)

Definition is_minimax (p : Provider) : bool :=
  str_contains "minimax" (to_ascii_lowercase (prov_id p)) || str_contains "minimax" (to_ascii_lowercase (base_url p)).
Definition serves_model (model_id : string) (p : Provider) : bool :=
  existsb (fun prefix => negb (str_is_empty prefix) && starts_with prefix model_id) (serves p).
Definition longest_serving (model_id : string) (p : Provider) : Z :=
  foldr (fun prefix n => Z.max (Z.of_nat (String.length prefix)) n) 0 (filterb (fun prefix => starts_with prefix model_id) (serves p)).
Definition serving_cmp (model_id : string) (a b : Provider) : comparison :=
  Z.compare (longest_serving model_id b) (longest_serving model_id a).
(** [state] is [None] when there is no home directory. *)
Definition wall_bound (state : QuotaState) (now : Z) (p : Provider) : bool :=
  is_minimax p && quota_is_exhausted state (prov_id p) now.
Definition filter_token_plan_exhausted (providers : list Provider) (state : option QuotaState) (model_id : string)
  (choice : option Provider) (now : Z) : option Provider :=
  c ← choice;
  if negb (is_minimax c) then Some c else
  match state with
  | None => Some c
  | Some state =>
      if negb (quota_is_exhausted state (prov_id c) now) then Some c
      else
        let matching := sort_by (serving_cmp model_id) (filterb (serves_model model_id) providers) in
        Some (default c (find_first (fun p => negb (wall_bound state now p)) matching))
  end.

(** * Theorems *)

(** ** The code of a message *)

Lemma str_rfind_absent c s : str_has c s = false -> str_rfind c s = None.
Proof.
  induction s as [|d s IH]; [done|]. cbn. intros [Hd Hs]%orb_false_iff. rewrite IH by done. by rewrite Ascii.eqb_sym, Hd.
Qed.
Lemma str_rfind_last c a b : str_has c b = false -> str_rfind c (a +:+ String c b) = Some (String.length a).
Proof.
  intros Hb. induction a as [|d a IH].
  - rewrite str_nil_app. cbn. by rewrite str_rfind_absent, Ascii.eqb_refl.
  - rewrite str_app_cons. cbn. by rewrite IH.
Qed.
Lemma trim_start_app_solid a c b : is_ws c = false -> trim_start (a +:+ String c b) = trim_start a +:+ String c b.
Proof.
  intros Hc. induction a as [|d a IH]; [rewrite !str_nil_app; cbn; by rewrite Hc|].
  rewrite str_app_cons. cbn. destruct (is_ws d); [done|by rewrite str_app_cons].
Qed.

(** A code printed at the end of a message is the one read back; what stands
    before it does not matter. *)
Theorem limit_code_roundtrip message code : 0 <= code <= U32_MAX ->
  parse_limit_code (message +:+ "(" +:+ show_u code +:+ ")") = Some code.
Proof.
  intros Hc. unfold parse_limit_code, trim.
  assert (is_ws "(" = false) as Hw by done. assert (is_ws ")" = false) as Hv by done.
  assert (forall s, trim_end (s +:+ ")") = s +:+ ")") as Hend by (intros s; by rewrite (trim_end_app s ")") by discriminate).
  change ("(" +:+ show_u code +:+ ")") with (String "(" (show_u code +:+ ")")).
  rewrite trim_start_app_solid by done. set (a := trim_start message).
  replace (a +:+ String "(" (show_u code +:+ ")")) with ((a +:+ String "(" (show_u code)) +:+ ")")
    by (by rewrite str_app_assoc, str_app_cons).
  rewrite Hend, str_app_assoc, str_app_cons.
  assert (forall c, Text.is_ascii_digit c = false -> str_has c (show_u code) = false) as Hd by (intros; by apply no_char_in_digits).
  rewrite str_rfind_last by (by rewrite str_has_app, Hd).
  replace (a +:+ String "(" (show_u code +:+ ")")) with ((a +:+ String "(" (show_u code)) +:+ String ")" "")
    by (by rewrite str_app_assoc, str_app_cons).
  rewrite str_rfind_last by done. cbn [mbind option_bind]. rewrite !str_length_app. cbn [String.length].
  replace ((_ =? _)%nat) with true by (symmetry; apply Nat.eqb_eq; lia).
  replace ((_ <=? _)%nat) with false by (symmetry; apply Nat.leb_gt; lia). cbn [negb orb].
  replace (String.length a + 1)%nat with (String.length (a +:+ "(")) at 2 by (rewrite str_length_app; cbn; lia).
  rewrite str_app_assoc, str_app_cons.
  replace (a +:+ String "(" (show_u code +:+ String ")" "")) with ((a +:+ "(") +:+ show_u code +:+ ")")
    by (by rewrite str_app_assoc, str_app_cons, str_nil_app).
  rewrite str_drop_app. replace (_ - _)%nat with (String.length (show_u code)) by lia. rewrite str_take_app.
  pose proof (show_u_word code (proj1 Hc)) as Hword. apply andb_true_iff in Hword as [_ Hword].
  pose proof (trim_word _ Hword) as Ht. unfold trim in Ht. rewrite Ht. by apply parse_u32_show.
Qed.
Lemma limit_code_roundtrip_witness :
  parse_limit_code "Token Plan usage limit reached. (2056)" = Some 2056.
Proof. apply (limit_code_roundtrip "Token Plan usage limit reached. " 2056). unfold U32_MAX. lia. Defined.

(** ** How long a wall is honoured *)

(** A wall lifts once: with nothing new recorded, a provider that is skipped
    at some time was skipped at every earlier time. *)
Lemma quota_wall_lifts s t t' : t <= t' -> quota_exhausted_at s t' = true -> quota_exhausted_at s t = true.
Proof.
  intros Ht. assert (forall l, limit_exhausted_at l t' = true -> limit_exhausted_at l t = true) as Hl.
  { intros l. unfold limit_exhausted_at. destruct (resets_at l); rewrite !Z.ltb_lt; lia. }
  unfold quota_exhausted_at. destruct (qs_limit s ≫= resets_at); [rewrite !Z.ltb_lt; lia|].
  destruct (match last_remains s, refreshed_at s with Some _, Some _ => _ | _, _ => _ end) as [relief|].
  - destruct (Z.ltb_spec t' relief), (Z.ltb_spec t relief); [done|lia|done|]. destruct (qs_limit s); auto.
  - destruct (qs_limit s); auto.
Qed.

(** After a wall was met the provider is skipped: until the reset the usage
    endpoint shows, when it was asked and shows a full window; otherwise for
    the grace period, or longer when an earlier answer showed a window full
    for longer.  Other providers are left as they were. *)
Theorem observed_wall_exact loaded refreshed id now t :
  let '(l, state) := observe_token_plan_limit loaded refreshed id now in
  let relief := match refreshed with
                | Some _ => None
                | None => s ← load_state loaded !! id; r ← last_remains s; base ← refreshed_at s; exhausted_until_from r base
                end in
  l = mkLimit id now (refreshed ≫= (fun p => exhausted_until p.1))
  /\ quota_is_exhausted state id t
     = match refreshed ≫= (fun p => exhausted_until p.1) with
       | Some reset => t <? reset
       | None => match relief with Some relief => t <? relief | None => false end || (t <? now + DEFAULT_EXHAUSTED_GRACE_SECS * NS)
       end
  /\ (forall other, other <> id -> state !! other = load_state loaded !! other).
Proof.
  assert (forall x, (x - now <? DEFAULT_EXHAUSTED_GRACE_SECS * NS) = (x <? now + DEFAULT_EXHAUSTED_GRACE_SECS * NS)) as Hg.
  { intros x. destruct (Z.ltb_spec (x - now) (DEFAULT_EXHAUSTED_GRACE_SECS * NS)), (Z.ltb_spec x (now + DEFAULT_EXHAUSTED_GRACE_SECS * NS)); lia || done. }
  unfold observe_token_plan_limit. set (q := load_state loaded). destruct refreshed as [[r base]|]; cbn [mbind option_bind fst].
  - assert (exhausted_until_from r base = None <-> exhausted_until r = None) as Hn.
    { unfold exhausted_until_from, exhausted_until. by destruct (interval_exhausted r), (weekly_exhausted r). }
    destruct (exhausted_until r) as [reset|]; split; try done; split.
    + unfold quota_is_exhausted, record_limit. by rewrite lookup_insert_eq.
    + intros o Ho. unfold record_limit, record_remains. by rewrite !lookup_insert_ne.
    + unfold quota_is_exhausted, record_limit, record_remains. rewrite !lookup_insert_eq.
      unfold quota_exhausted_at. cbn. rewrite (proj2 Hn eq_refl). apply Hg.
    + intros o Ho. unfold record_limit, record_remains. by rewrite !lookup_insert_ne.
  - split; [done|]. split.
    + unfold quota_is_exhausted, record_limit. rewrite lookup_insert_eq. unfold quota_exhausted_at. cbn.
      destruct (q !! id) as [s|]; cbn; [|apply Hg]. destruct (last_remains s) as [r|]; cbn; [|apply Hg].
      destruct (refreshed_at s) as [base|]; cbn; [|apply Hg]. destruct (exhausted_until_from r base) as [relief|]; [|apply Hg].
      destruct (t <? relief); [done|]. apply Hg.
    + intros o Ho. unfold record_limit. by rewrite lookup_insert_ne.
Qed.

(** ** The provider fallen through to *)

Lemma serving_cmp_Gt m a b : serving_cmp m a b = Gt <-> longest_serving m a < longest_serving m b.
Proof. unfold serving_cmp. rewrite Z.compare_gt_iff. lia. Qed.

(** The choice stands unless the state says its window is exhausted.  Then
    the configured provider that serves the model with the longest prefix,
    and is not exhausted itself, takes its place, the first in the
    configuration among equals; only when every one that serves the model is
    exhausted is the choice called after all. *)
Theorem fall_through_exact providers state model_id choice now p :
  filter_token_plan_exhausted providers state model_id choice now = Some p ->
  (choice = Some p
   /\ forall st, state = Some st -> wall_bound st now p = true ->
        forall q, q ∈ providers -> serves_model model_id q = true -> wall_bound st now q = true)
  \/ (exists c st pre post, choice = Some c /\ state = Some st /\ wall_bound st now c = true
      /\ wall_bound st now p = false /\ serves_model model_id p = true /\ providers = pre ++ p :: post
      /\ forall q, serves_model model_id q = true -> wall_bound st now q = false ->
           (q ∈ pre -> longest_serving model_id q < longest_serving model_id p)
           /\ (q ∈ post -> longest_serving model_id q <= longest_serving model_id p)).
Proof.
  unfold filter_token_plan_exhausted. destruct choice as [c|]; [|done]. cbn [mbind option_bind].
  destruct (is_minimax c) eqn:Em; cbn [negb].
  2: { intros [= <-]. left. split; [done|]. intros st _ H. unfold wall_bound in H. by rewrite Em in H. }
  destruct state as [st|]; [|intros [= <-]; left; by split].
  destruct (quota_is_exhausted st (prov_id c) now) eqn:Eq; cbn [negb].
  2: { intros [= <-]. left. split; [done|]. intros st' [= <-] H. unfold wall_bound in H. by rewrite Em, Eq in H. }
  set (free := fun p : Provider => negb (wall_bound st now p)).
  assert (wall_bound st now c = true) as Hc by (unfold wall_bound; by rewrite Em, Eq).
  destruct (find_first free (sort_by (serving_cmp model_id) (filterb (serves_model model_id) providers))) as [w|] eqn:Ef; intros [= <-].
  - right. apply (find_first_sort_by (serving_cmp model_id) (fun _ => True)) in Ef as [Hw (pre & post & Hl & Hpre & Hpost)].
    2: { intros x y _ _. unfold serving_cmp. apply Z.compare_antisym. }
    2: { intros x y z _ _ _. unfold cmp_le. rewrite !serving_cmp_Gt. lia. }
    2: by apply Forall_true.
    apply filterb_split in Hl as (l1 & l2 & -> & Hs & <- & <-).
    exists c, st, l1, l2. split_and!; [done|done|done|by apply negb_true_iff|done|done|].
    intros q Hq Hfree. assert (free q = true) as Hf by (unfold free; by rewrite Hfree).
    split; intros Hin; [apply serving_cmp_Gt, Hpre; [|done]|].
    + by apply elem_of_filterb.
    + apply Z.nlt_ge. rewrite <- serving_cmp_Gt. apply Hpost; [|done]. by apply elem_of_filterb.
  - left. split; [done|]. intros st' [= <-] _ q Hq Hs. rewrite find_first_None in Ef.
    specialize (Ef q ltac:(apply elem_of_sort_by, elem_of_filterb; done)). by apply negb_false_iff in Ef.
Qed.

Definition plan_provider (id url : string) (prefixes : list string) : Provider :=
  mkProvider id [] None url "openai-chat" AuthNone true Metered None prefixes None None None None None None None None.
Definition walled (id : string) (reset : Z) : QuotaState := {[ id := mkQuotaState (Some (mkLimit id 0 (Some reset))) None None ]}.
Lemma fall_through_exact_witness :
  let a := plan_provider "minimax" "https://api.minimax.io" ["MiniMax"] in
  let b := plan_provider "gateway" "https://gw" ["Mini"] in
  filter_token_plan_exhausted [a; b] (Some (walled "minimax" 100)) "MiniMax-M3" (Some a) 50 = Some b
  /\ wall_bound (walled "minimax" 100) 50 a = true.
Proof.
  cbn zeta. set (a := plan_provider "minimax" _ _). set (b := plan_provider "gateway" _ _).
  assert (filter_token_plan_exhausted [a; b] (Some (walled "minimax" 100)) "MiniMax-M3" (Some a) 50 = Some b) as H by (by vm_compute).
  split; [done|].
  destruct (fall_through_exact [a; b] (Some (walled "minimax" 100)) "MiniMax-M3" (Some a) 50 b H) as [[[=] _]|(c & st & pre & post & Hc & Hs & Hw & _)].
  by simplify_eq.
Defined.

(** ** Departures *)

(** The usage is called a fraction of at most one; past the quota it is more. *)
Example usage_above_one : f64_ltb f64_one (used_fraction 3 2 100) = true.
Proof. by vm_compute. Qed.

(** The provider fallen through to may be a template whose address was never
    filled in, which the choice of a provider leaves out everywhere else. *)
Example falls_through_to_placeholder :
  let a := plan_provider "minimax" "https://api.minimax.io" ["MiniMax"] in
  let b := plan_provider "template" "https://api.example.com/v1" ["MiniMax"] in
  is_placeholder b = true
  /\ filter_token_plan_exhausted [a; b] (Some (walled "minimax" 100)) "MiniMax-M3" (Some a) 50 = Some b.
Proof. split; by vm_compute. Qed.
