(* ===== verification/ProviderWire.v ===== *)
(** What a provider client sends and how it names a failure
    (crates/zoder-core/src/provider.rs, up to the reading of a response, and
    the classification of a failure in health_probe.rs): the client and its
    settings, the pool of connections, addresses, credentials, the four
    request bodies, the error value with its retries and waits, redaction.
    Instants and durations are nanoseconds; the environment, the clock, the
    jitter of a wait and the JSON a float prints to are arguments. *)
From stdpp Require Import gmap strings.
From Stdlib Require Import SpecFloat.
From S2P Require Import Prelude F64 Numbers Clock Text Json Config Health.
Local Open Scope string_scope.
Local Open Scope Z_scope.
Local Open Scope list_scope.

(** ** Failures *)

Inductive ErrKind := ErrTimeout | ErrRateLimit | ErrServer | ErrNetwork | ErrHttp | ErrDecode | ErrTruncation.
#[export] Instance ErrKind_eq_dec : EqDecision ErrKind.
Proof. solve_decision. Defined.
Definition err_kind_default : ErrKind := ErrDecode.

Record EmptyLengthUsage := mkEmptyLength {
  el_prompt_tokens : option Z;
  el_completion_tokens : option Z
}.
Record ProviderError := mkProviderError {
  pe_message : string;
  pe_kind : ErrKind;
  pe_status : option Z;
  pe_retry_after : option Z;
  pe_emitted : bool;
  pe_token_plan_limit : bool;
  pe_token_plan_resets_at : option Z;
  pe_anthropic_error_body : option string;
  pe_reasoning : option string;
  pe_overload : bool;
  pe_length_exhausted : option EmptyLengthUsage
}.
(** [ProviderError::new] *)
Definition provider_error (kind : ErrKind) (message : string) : ProviderError :=
  mkProviderError message kind None None false false None None None false None.
Definition transient_kind (k : ErrKind) : bool :=
  match k with ErrTimeout | ErrRateLimit | ErrServer | ErrNetwork | ErrTruncation => true | ErrHttp | ErrDecode => false end.
Definition retryable (e : ProviderError) : bool :=
  negb (pe_emitted e) && negb (bool_decide (is_Some (pe_length_exhausted e)))
  && (transient_kind (pe_kind e) || (pe_overload e && bool_decide (pe_kind e = ErrHttp))).

(** [classify_err_kind], [classify_err] *)
Definition classify_err_kind (k : ErrKind) : Classification :=
  match k with ErrRateLimit => Capacity | _ => CError end.
Definition error_types (from_str : string -> option Value) (body : string) : option (option string * option string) :=
  (fun v => (value_get_str v "type", e ← value_get v "error"; value_get_str e "type")) <$> from_str body.
Definition classify_err (from_str : string -> option Value) (e : ProviderError) : Classification :=
  match pe_anthropic_error_body e with
  | Some body => from_anthropic_error_body (error_types from_str) body (default 0 (pe_status e))
  | None =>
      match pe_status e with
      | Some code => if bool_decide (from_status code = CError) then classify_err_kind (pe_kind e) else from_status code
      | None => classify_err_kind (pe_kind e)
      end
  end.

(** What the HTTP library says of a failed transport. *)
Record TransportError := mkTransport { te_timeout : bool; te_connect : bool; te_decode : bool; te_text : string }.
Definition classify_reqwest (e : TransportError) : ProviderError :=
  provider_error (if te_timeout e then ErrTimeout else if te_connect e then ErrNetwork else if te_decode e then ErrDecode else ErrNetwork)
    (te_text e).

(** ** Waiting before a retry *)

(** [as u64] of a double. *)
Definition f64_as_u64 (x : f64) : Z :=
  match x with
  | S754_finite false m e => Z.min U64_MAX (if 0 <=? e then Zpos m * 2 ^ e else Zpos m / 2 ^ (- e))
  | S754_infinity false => U64_MAX
  | _ => 0
  end.
Definition u64_sat_mul (a b : Z) : Z := Z.min U64_MAX (a * b).
(** [jitter] is drawn from 0.8 up to 1.2. *)
Definition backoff_delay (jitter : f64) (attempt : Z) (retry_after overload_floor : option Z) : Z :=
  let base_ms := u64_sat_mul 500 (Z.shiftl 1 (Z.min attempt 5)) in
  let capped := Z.min base_ms 16000 in
  let delay := f64_as_u64 (f64_mul (f64_of_Z capped) jitter) * ns_per_ms in
  let delay := match overload_floor with Some f => if delay <? f then f else delay | None => delay end in
  match retry_after with Some ra => if delay <? ra then ra else delay | None => delay end.

Definition MAX_RETRY_AFTER_SECS : Z := 60.
(** [rfc2822] reads an HTTP date. *)
Definition retry_after_value (rfc2822 : string -> option Z) (now : Z) (v : string) : option Z :=
  let v := trim v in
  match parse_u64_std v with
  | Some s => Some (Z.min s MAX_RETRY_AFTER_SECS * NS)
  | None => (fun dt => Z.max 0 (Z.min MAX_RETRY_AFTER_SECS (num_seconds (dt - now))) * NS) <$> rfc2822 v
  end.

(** ** Redaction *)

Definition secret_byte (c : ascii) : bool := Text.is_ascii_alphanumeric c || Ascii.eqb c "-" || Ascii.eqb c "_".
Definition looks_secret (word : string) : bool :=
  let core := trim_matches (fun c => negb (Text.is_ascii_alphanumeric c)) word in
  starts_with "sk-" word || starts_with "Bearer" word || ((24 <=? len core) && str_all secret_byte core).
Definition redact (s : string) : string :=
  trim_end (foldl (fun out word => out +:+ (if looks_secret word then "[REDACTED]" else word) +:+ " ") ""
              (split_whitespace (chars_take 200 s))).

(** ** Requests *)

Record Message := mkMessage { ms_role : string; ms_content : string; tool_call_id : option string }.
Definition message_new (role content : string) : Message := mkMessage role content None.
Definition message_tool_result (id content : string) : Message := mkMessage "tool" content (Some id).

(** The sampling numbers are held as the JSON they are sent as. *)
Record ChatRequest := mkChatRequest {
  rq_model : string;
  rq_messages : list Message;
  rq_max_tokens : Z;                            (* u32 *)
  rq_temperature : option Value;
  rq_stream : bool;
  rq_show_reasoning : bool;
  rq_reasoning_effort : option string;
  rq_top_p : option Value;
  rq_top_k : option Value;
  rq_presence_penalty : option Value;
  rq_chat_template_kwargs : option Value;
  rq_response_format : option Value
}.

(** [body[key] = value] on an object. *)
Fixpoint entry_set (k : string) (v : Value) (l : list (string * Value)) : list (string * Value) :=
  match l with
  | [] => [(k, v)]
  | (k', v') :: r => if bool_decide (k = k') then (k, v) :: r else (k', v') :: entry_set k v r
  end.
Definition set_opt {A} (k : string) (f : A -> Value) (o : option A) (l : list (string * Value)) : list (string * Value) :=
  match o with Some x => entry_set k (f x) l | None => l end.

Definition json_message (m : Message) : Value :=
  Object (set_opt "tool_call_id" Str (tool_call_id m) [("role", Str (ms_role m)); ("content", Str (ms_content m))]).
Definition json_int (n : Z) : Value := Number (Some n).

(** The leading system messages, and the rest. *)
Fixpoint split_system (ms : list Message) : list string * list Message :=
  match ms with
  | m :: r => if bool_decide (ms_role m = "system") then let '(s, rest) := split_system r in (ms_content m :: s, rest) else ([], ms)
  | [] => ([], [])
  end.
Definition blank_line : string := String newline (String newline "").
Definition anthropic_body (r : ChatRequest) : Value :=
  let '(system_parts, rest) := split_system (rq_messages r) in
  let body := [("model", Str (rq_model r)); ("max_tokens", json_int (rq_max_tokens r));
               ("messages", Array (map json_message rest)); ("stream", Bool (rq_stream r))] in
  let body := match system_parts with [] => body | _ => entry_set "system" (Str (join blank_line system_parts)) body end in
  Object (set_opt "temperature" id (rq_temperature r) body).

Definition responses_role (role : string) : string :=
  if bool_decide (role ∈ ["system"; "developer"]) then "system" else role.
Definition responses_item (m : Message) : Value :=
  Object [("role", Str (responses_role (ms_role m))); ("content", Str (ms_content m))].
Definition responses_body (r : ChatRequest) : Value :=
  let body := [("model", Str (rq_model r)); ("input", Array (map responses_item (rq_messages r)));
               ("max_output_tokens", json_int (rq_max_tokens r)); ("stream", Bool (rq_stream r))] in
  Object (set_opt "reasoning" (fun e => Object [("effort", Str e)]) (rq_reasoning_effort r)
           (set_opt "temperature" id (rq_temperature r) body)).

(** ** The client *)

Record OpenAiProvider := mkClient {
  pv_base_url : string;
  pv_kind : string;
  pv_auth_header : option (string * string);
  pv_auth : Auth;
  pv_provider_id : string;
  pv_plan_label : string;
  pv_account_id : string;
  pv_client_key : option Z;
  pv_request_timeout : Z;
  pv_idle_timeout : Z;
  pv_first_token_timeout : option Z;
  pv_overload_backoff_min : option Z;
  pv_request_stream : bool;
  pv_wait_notice_interval : option Z;
  pv_post_finish_grace : option Z;
  pv_azure_api_version : option string
}.

Definition DEFAULT_REQUEST_TIMEOUT_S : Z := 120.
Definition DEFAULT_IDLE_TIMEOUT_S : Z := 25.
Definition DEFAULT_WAIT_NOTICE_S : Z := 30.
Definition POST_FINISH_GRACE_S : Z := 2.
Definition ANTHROPIC_VERSION : string := "2023-06-01".
Definition ANTHROPIC_MESSAGES_SUFFIX : string := "messages".
Definition RESPONSES_SUFFIX : string := "responses".
Definition DEFAULT_AZURE_VERSION : string := "2024-10-21".

Definition Env : Type := string -> option string.
Definition env_secs (env : Env) (var : string) (dflt : Z) : Z := default dflt (env var ≫= parse_u64_std).
Definition request_timeout_s_from_env (env : Env) : option Z := env "ZODER_TIMEOUT_S" ≫= parse_u64_std.

(** The number of the pooled client of a base address: the first use of an
    address takes the next number. *)
Definition client_identity (ids : gmap string Z) (url : string) : Z * gmap string Z :=
  match ids !! url with
  | Some n => (n, ids)
  | None => let next := Z.of_nat (size ids) + 1 in (next, <[url := next]> ids)
  end.
Definition key_same_as (a b : option Z) : bool :=
  match a, b with Some a, Some b => a =? b | _, _ => false end.

Definition plan_label_of (p : Config.Provider) : string :=
  match subscription p with Some s => default "explicit" (plan_tier s) | None => prov_id p end.
Definition account_id_of (p : Config.Provider) : string :=
  match subscription p with Some s => effective_account_id s | None => DEFAULT_ACCOUNT_ID end.
Definition azure_version (env : Env) (configured : option string) : string :=
  default DEFAULT_AZURE_VERSION (or_opt configured (env "AZURE_OPENAI_API_VERSION")).

Inductive ClientError := EndpointUnset (id : string) | ZeroRequestTimeout.
Definition strip_slashes (url : string) : string := trim_end_matches (fun c => Ascii.eqb c "/") url.
Definition new_with_request_timeout_s (env : Env) (ids : gmap string Z) (p : Config.Provider) (request_timeout_s : option Z) :
  result (OpenAiProvider * gmap string Z) ClientError :=
  if negb (endpoint_is_configured p) then Err (EndpointUnset (prov_id p))
  else if bool_decide (request_timeout_s = Some 0) then Err ZeroRequestTimeout
  else
    let url := strip_slashes (base_url p) in
    let '(key, ids) := client_identity ids url in
    Ok (mkClient url (prov_kind p) (auth_header_pair env (auth p)) (auth p) (prov_id p) (plan_label_of p) (account_id_of p) (Some key)
          (default DEFAULT_REQUEST_TIMEOUT_S (or_opt request_timeout_s (request_timeout_s_from_env env)) * NS)
          (env_secs env "ZODER_IDLE_S" DEFAULT_IDLE_TIMEOUT_S * NS)
          ((fun s => s * NS) <$> first_token_timeout_s p) ((fun s => s * NS) <$> overload_backoff_min_s p)
          (default false (Config.stream p)) None None
          (if bool_decide (prov_kind p = "azure-openai") then Some (azure_version env (azure_api_version p)) else None), ids).
Definition with_request_timeout_s (c : OpenAiProvider) (s : Z) : result OpenAiProvider ClientError :=
  if s =? 0 then Err ZeroRequestTimeout
  else Ok (mkClient (pv_base_url c) (pv_kind c) (pv_auth_header c) (pv_auth c) (pv_provider_id c) (pv_plan_label c) (pv_account_id c)
             (pv_client_key c) (s * NS) (pv_idle_timeout c) (pv_first_token_timeout c) (pv_overload_backoff_min c) (pv_request_stream c)
             (pv_wait_notice_interval c) (pv_post_finish_grace c) (pv_azure_api_version c)).
Definition post_finish_grace (c : OpenAiProvider) : Z := default (POST_FINISH_GRACE_S * NS) (pv_post_finish_grace c).
Definition wait_notice_interval (env : Env) (on : bool) : option Z :=
  if on then Some (Z.max 1 (env_secs env "ZODER_WAIT_NOTICE_S" DEFAULT_WAIT_NOTICE_S) * NS) else None.

Definition is_anthropic (c : OpenAiProvider) : bool := bool_decide (pv_kind c = "anthropic").
Definition is_responses (c : OpenAiProvider) : bool := bool_decide (pv_kind c = "openai-responses").
Definition is_azure (c : OpenAiProvider) : bool := bool_decide (pv_kind c = "azure-openai").

Definition endpoint_url (env : Env) (url kind suffix : string) (api_version : option string) : string :=
  let base := strip_slashes url in
  if bool_decide (kind = "azure-openai") then base +:+ "/" +:+ suffix +:+ "?api-version=" +:+ azure_version env api_version
  else if bool_decide (is_Some (strip_suffix "/v1" base)) || str_contains "/v1/" base then base +:+ "/" +:+ suffix
  else base +:+ "/v1/" +:+ suffix.
Definition endpoint (env : Env) (c : OpenAiProvider) (suffix : string) : string :=
  endpoint_url env (pv_base_url c) (pv_kind c) suffix (pv_azure_api_version c).

(** A slice at a byte that is not the start of a character panics; [None]. *)
Definition slice_ok (n : nat) (s : string) : bool :=
  match str_drop n s with EmptyString => true | String c _ => char_start c end.
Definition strip_bearer_prefix (value : string) : option string :=
  let trimmed := trim_start value in
  if 7 <=? len trimmed then
    if slice_ok 7 trimmed then
      Some (if bool_decide (to_ascii_lowercase (str_take 7 trimmed) = "bearer ") then str_drop 7 trimmed else value)
    else None
  else Some (if bool_decide (to_ascii_lowercase trimmed = "bearer") then "" else value).
(** [None] is the panic, [Some None] no credential. *)
Definition stripped (tok : option string) : option (option string) :=
  match tok with Some t => Some <$> strip_bearer_prefix t | None => Some None end.
Definition anthropic_api_key (env : Env) (c : OpenAiProvider) : option (option string) :=
  match pv_auth c with
  | AuthNone => Some None
  | AuthEnv _ | AuthBearer _ => stripped (auth_resolve env (pv_auth c))
  | AuthApiKeyHeader _ _ => Some (auth_resolve env (pv_auth c))
  end.
Definition azure_api_key (env : Env) (c : OpenAiProvider) : option (option string) := stripped (auth_resolve env (pv_auth c)).

Definition with_stream (r : ChatRequest) (b : bool) : ChatRequest :=
  mkChatRequest (rq_model r) (rq_messages r) (rq_max_tokens r) (rq_temperature r) b (rq_show_reasoning r) (rq_reasoning_effort r)
    (rq_top_p r) (rq_top_k r) (rq_presence_penalty r) (rq_chat_template_kwargs r) (rq_response_format r).
Definition chat_body (c : OpenAiProvider) (r : ChatRequest) : Value :=
  let streamed := rq_stream r || pv_request_stream c in
  let body := [("model", Str (rq_model r)); ("messages", Array (map json_message (rq_messages r)));
               ("max_tokens", json_int (rq_max_tokens r)); ("stream", Bool streamed)] in
  let body := set_opt "temperature" id (rq_temperature r) body in
  let body := set_opt "top_p" id (rq_top_p r) body in
  let body := set_opt "top_k" id (rq_top_k r) body in
  let body := set_opt "presence_penalty" id (rq_presence_penalty r) body in
  let body := set_opt "chat_template_kwargs" id (rq_chat_template_kwargs r) body in
  let body := if streamed then entry_set "stream_options" (Object [("include_usage", Bool true)]) body else body in
  let body := set_opt "reasoning_effort" Str (rq_reasoning_effort r) body in
  Object (set_opt "response_format" id (rq_response_format r) body).
Definition request_body (c : OpenAiProvider) (r : ChatRequest) : Value :=
  if is_anthropic c then anthropic_body r
  else if is_responses c then responses_body (if pv_request_stream c then with_stream r true else r)
  else chat_body c r.

Record HttpRequest := mkHttpRequest { hr_url : string; hr_headers : list (string * string); hr_body : Value }.
Definition header_list (h : option (string * string)) : list (string * string) := match h with Some p => [p] | None => [] end.
Definition request (env : Env) (c : OpenAiProvider) (r : ChatRequest) : option HttpRequest :=
  if is_anthropic c then
    key ← anthropic_api_key env c;
    Some (mkHttpRequest (endpoint env c ANTHROPIC_MESSAGES_SUFFIX)
            (("anthropic-version", ANTHROPIC_VERSION) :: header_list ((fun k => ("x-api-key", k)) <$> key)) (request_body c r))
  else if is_responses c then
    Some (mkHttpRequest (endpoint env c RESPONSES_SUFFIX) (header_list (pv_auth_header c)) (request_body c r))
  else if is_azure c then
    key ← azure_api_key env c;
    Some (mkHttpRequest (endpoint env c "chat/completions") (header_list ((fun k => ("api-key", k)) <$> key)) (request_body c r))
  else Some (mkHttpRequest (endpoint env c "chat/completions") (header_list (pv_auth_header c)) (request_body c r)).
(** Whether the answer is read as a stream ([stream_chat_inner]). *)
Definition effective_stream (c : OpenAiProvider) (r : ChatRequest) : bool := rq_stream r || pv_request_stream c.

(** * Theorems *)

(** ** Waits *)

(** The wait before a retry is the jittered backoff, or the provider's
    Retry-After, or the configured floor after an overload, whichever is the
    longest: none of the three is undercut. *)
Theorem backoff_exact jitter attempt retry_after overload_floor :
  let base := f64_as_u64 (f64_mul (f64_of_Z (Z.min (u64_sat_mul 500 (Z.shiftl 1 (Z.min attempt 5))) 16000)) jitter) * ns_per_ms in
  backoff_delay jitter attempt retry_after overload_floor
  = Z.max base (Z.max (default base overload_floor) (default base retry_after)).
Proof.
  intros base. unfold backoff_delay. cbv zeta. fold base. clearbody base. destruct overload_floor as [f|], retry_after as [ra|]; cbn [default id].
  - destruct (Z.ltb_spec base f); [destruct (Z.ltb_spec f ra)|destruct (Z.ltb_spec base ra)]; lia.
  - destruct (Z.ltb_spec base f); lia.
  - destruct (Z.ltb_spec base ra); lia.
  - lia.
Qed.

(** The six attempts and all later ones, at the two ends of the jitter. *)
Example backoff_steps :
  map (fun n => backoff_delay (f64_lit 8 10) n None None / ns_per_ms) [0; 1; 2; 3; 4; 5; 6; 30] = [400; 800; 1600; 3200; 6400; 12800; 12800; 12800]
  /\ map (fun n => backoff_delay (f64_lit 12 10) n None None / ns_per_ms) [0; 1; 2; 3; 4; 5; 6; 30] = [600; 1200; 2400; 4800; 9600; 19200; 19200; 19200].
Proof. by vm_compute. Qed.

(** An honoured Retry-After is never longer than a minute, however it is
    written. *)
Theorem retry_after_bounded rfc2822 now v d : retry_after_value rfc2822 now v = Some d -> 0 <= d <= MAX_RETRY_AFTER_SECS * NS.
Proof.
  unfold retry_after_value, MAX_RETRY_AFTER_SECS, NS. destruct (parse_u64_std (trim v)) as [s|] eqn:E.
  - intros [= <-]. apply parse_u64_nonneg in E. lia.
  - destruct (rfc2822 (trim v)); [|done]. cbn. intros [= <-]. lia.
Qed.
Lemma retry_after_bounded_witness : retry_after_value (fun _ => None) 0 " 3600 " = Some (60 * NS) /\ 0 <= 60 * NS <= MAX_RETRY_AFTER_SECS * NS.
Proof.
  assert (retry_after_value (fun _ => None) 0 " 3600 " = Some (60 * NS)) as H by (by vm_compute).
  split; [done|]. exact (retry_after_bounded _ _ _ _ H).
Defined.

(** ** Redaction *)

Definition mask (word : string) : string := if looks_secret word then "[REDACTED]" else word.

Lemma redact_fold ws out : foldl (fun out word => out +:+ mask word +:+ " ") out ws = out +:+ foldr (fun w r => mask w +:+ " " +:+ r) "" ws.
Proof.
  revert out. induction ws as [|w ws IH]; intros out; [by rewrite str_app_nil|]. cbn [foldl foldr]. by rewrite IH, !str_app_assoc.
Qed.
Lemma words_spaced ws : forallb is_word ws = true -> split_whitespace (foldr (fun w r => w +:+ " " +:+ r) "" ws) = ws.
Proof.
  unfold split_whitespace. induction ws as [|w ws IH]; [done|]. cbn [forallb foldr]. intros [[Hne Hw]%andb_true_iff Hws]%andb_true_iff.
  rewrite words_from_word by done. rewrite str_nil_app, str_app_cons, str_nil_app. cbn [words_from is_ws].
  specialize (IH Hws). destruct w; [done|]. cbn [str_is_empty]. by rewrite IH.
Qed.

(** Redaction keeps the first two hundred characters, word by word, and puts
    a mark for every word that looks like a secret; what it returns has no
    such word, and redacting it again changes no word. *)
Theorem redact_exact s :
  split_whitespace (redact s) = map mask (split_whitespace (chars_take 200 s))
  /\ (forall w, w ∈ split_whitespace (redact s) -> looks_secret w = false).
Proof.
  assert (split_whitespace (redact s) = map mask (split_whitespace (chars_take 200 s))) as E.
  { unfold redact. rewrite split_trim_end.
    change (foldl _ "" (split_whitespace (chars_take 200 s))) with
      (foldl (fun out word => out +:+ mask word +:+ " ") "" (split_whitespace (chars_take 200 s))).
    rewrite redact_fold, str_nil_app.
    assert (forall ws, foldr (fun w r => mask w +:+ " " +:+ r) "" ws = foldr (fun w r => w +:+ " " +:+ r) "" (map mask ws)) as ->
      by (induction ws as [|w ws IH]; [done|]; cbn [foldr map]; by rewrite IH).
    apply words_spaced. pose proof (words_from_words (chars_take 200 s) "" eq_refl) as H.
    fold (split_whitespace (chars_take 200 s)) in H. induction (split_whitespace (chars_take 200 s)) as [|w ws IH]; [done|].
    cbn [forallb map] in *. apply andb_true_iff in H as [Hw H]. rewrite IH by done. unfold mask. destruct (looks_secret w); [done|by rewrite Hw]. }
  split; [done|]. intros w Hw. rewrite E in Hw. apply list_elem_of_fmap in Hw as (v & -> & _). unfold mask.
  destruct (looks_secret v) eqn:Ev; [by vm_compute|done].
Qed.

(** ** The stream flag *)

Lemma assoc_entry_set k k' v l : assoc k' (entry_set k v l) = if bool_decide (k' = k) then Some v else assoc k' l.
Proof.
  induction l as [|[k0 v0] l IH]; [done|]. cbn [entry_set assoc]. destruct (bool_decide (k = k0)) eqn:E; cbn [assoc].
  - apply bool_decide_eq_true in E as ->. by destruct (bool_decide (k' = k0)).
  - rewrite IH. apply bool_decide_eq_false in E. repeat case_bool_decide; congruence.
Qed.
Lemma assoc_set_opt {A} k k' (f : A -> Value) o l : k' <> k -> assoc k' (set_opt k f o l) = assoc k' l.
Proof. intros H. destruct o; [|done]. cbn. rewrite assoc_entry_set. by rewrite bool_decide_false. Qed.
Create Rewrite HintDb body.
#[local] Hint Rewrite @assoc_set_opt using discriminate : body.

(** The body asks for a stream exactly when the answer is read as one, but on
    the Anthropic wire, where the client's own setting is not asked. *)
Theorem body_stream_exact c r :
  value_get (request_body c r) "stream" = Some (Bool (if is_anthropic c then rq_stream r else effective_stream c r)).
Proof.
  unfold request_body, effective_stream. destruct (is_anthropic c).
  - unfold anthropic_body. destruct (split_system (rq_messages r)) as [[|x sys] rest]; cbn [value_get]; autorewrite with body; [done|].
    by rewrite assoc_entry_set.
  - destruct (is_responses c).
    + unfold responses_body. cbn [value_get]. autorewrite with body. destruct (pv_request_stream c); cbn; by rewrite ?orb_true_r, ?orb_false_r.
    + unfold chat_body. cbn [value_get]. autorewrite with body.
      destruct (rq_stream r || pv_request_stream c); autorewrite with body; rewrite ?assoc_entry_set; autorewrite with body; done.
Qed.

(** ** Pooled clients *)

(** The numbers of a pool: one for each address, counted from one. *)
Definition pool_ok (ids : gmap string Z) : Prop :=
  (forall u n, ids !! u = Some n -> 1 <= n <= Z.of_nat (size ids)) /\ (forall u v n, ids !! u = Some n -> ids !! v = Some n -> u = v).
Fixpoint identities (ids : gmap string Z) (urls : list string) : list Z :=
  match urls with
  | [] => []
  | u :: r => let '(n, ids) := client_identity ids u in n :: identities ids r
  end.

Lemma client_identity_ok ids u : pool_ok ids ->
  pool_ok (client_identity ids u).2 /\ (client_identity ids u).2 !! u = Some (client_identity ids u).1
  /\ (forall v n, ids !! v = Some n -> (client_identity ids u).2 !! v = Some n).
Proof.
  intros [Hb Hi]. unfold client_identity. destruct (ids !! u) as [n|] eqn:E; [done|]. cbn [fst snd].
  assert (forall v n, ids !! v = Some n -> v <> u) as Hne by congruence.
  split; [|split; [by rewrite lookup_insert_eq|intros v n Hv; rewrite lookup_insert_ne; [done|]; symmetry; by eapply Hne]].
  split.
  - intros v n. rewrite map_size_insert, E. cbn. rewrite lookup_insert_Some. intros [[<- <-]|[_ Hv]]; [lia|]. apply Hb in Hv. lia.
  - intros v w n. rewrite !lookup_insert_Some. intros [[<- <-]|[Hv1 Hv2]] [[<- Hn]|[Hw1 Hw2]]; [done|..].
    + apply Hb in Hw2. lia.
    + apply Hb in Hv2. lia.
    + by eapply Hi.
Qed.
Lemma identities_stable ids urls u n k i : pool_ok ids -> ids !! u = Some n ->
  urls !! i = Some u -> identities ids urls !! i = Some k -> k = n.
Proof.
  revert ids i. induction urls as [|v urls IH]; intros ids i Hok Hu Hi Hk; [done|]. cbn [identities] in Hk.
  destruct (client_identity ids v) as [m ids'] eqn:E. pose proof (client_identity_ok ids v Hok) as (Hok' & Hm & Hkeep).
  rewrite E in *. cbn [fst snd] in *. destruct i as [|i]; cbn in *; simplify_eq.
  - apply Hkeep in Hu. congruence.
  - eapply IH; eauto.
Qed.

(** Clients made one after the other share the pooled connection exactly when
    their base address is the same. *)
Theorem clients_shared_exact urls i j u v a b :
  urls !! i = Some u -> urls !! j = Some v -> identities ∅ urls !! i = Some a -> identities ∅ urls !! j = Some b ->
  key_same_as (Some a) (Some b) = true <-> u = v.
Proof.
  intros Hi Hj Ha Hb. trans (a = b); [apply Z.eqb_eq|]. revert Hi Hj Ha Hb.
  assert (pool_ok ∅) as Hok by (split; intros *; by rewrite lookup_empty). revert Hok. generalize (∅ : gmap string Z). revert i j. induction urls as [|w urls IH]; intros i j ids Hok Hi Hj Ha Hb; [done|].
  cbn [identities] in *. destruct (client_identity ids w) as [m ids'] eqn:E.
  pose proof (client_identity_ok ids w Hok) as (Hok' & Hm & Hkeep). rewrite E in *. cbn [fst snd] in *.
  assert (forall k x y, urls !! k = Some x -> identities ids' urls !! k = Some y -> (y = m <-> x = w)) as Hout.
  { intros k x y Hx Hy. split.
    - intros ->. destruct (decide (x = w)) as [|Hne]; [done|]. exfalso. revert Hx Hy. clear -Hok' Hm Hne. revert ids' k Hok' Hm.
      induction urls as [|z urls IH]; intros ids' k Hok' Hm Hx Hy; [done|]. cbn [identities] in Hy.
      destruct (client_identity ids' z) as [m' ids2] eqn:E2. pose proof (client_identity_ok ids' z Hok') as (Hok2 & Hm2 & Hk2).
      rewrite E2 in *. cbn [fst snd] in *. destruct k as [|k]; cbn in *; simplify_eq; [|by eapply IH; eauto].
      apply Hne. eapply Hok2; eauto.
    - intros ->. by eapply (identities_stable ids' urls w). }
  destruct i as [|i], j as [|j]; cbn in *; simplify_eq.
  - done.
  - specialize (Hout _ _ _ Hj Hb). naive_solver.
  - by eapply Hout.
  - by eapply IH.
Qed.
Lemma clients_shared_exact_witness :
  identities ∅ ["https://a"; "https://b"; "https://a"] = [1; 2; 1] /\ (key_same_as (Some 1) (Some 1) = true <-> "https://a" = "https://a").
Proof.
  split; [by vm_compute|].
  by apply (clients_shared_exact ["https://a"; "https://b"; "https://a"] 0 2 "https://a" "https://a" 1 1); vm_compute.
Defined.

(** ** Addresses *)

(** Off Azure every address carries the version segment. *)
Theorem endpoint_versioned env url kind suffix api_version : kind <> "azure-openai" ->
  str_contains "/v1/" (endpoint_url env url kind suffix api_version) = true.
Proof.
  intros Hk. unfold endpoint_url. rewrite bool_decide_false by done. set (base := strip_slashes url).
  destruct (strip_suffix "/v1" base) as [b|] eqn:E; [rewrite bool_decide_true by eauto|rewrite bool_decide_false by (by intros [? ?])]; cbn [orb].
  - apply strip_suffix_Some in E as ->. change ("/" +:+ suffix) with (String "/" suffix). rewrite str_app_assoc.
    change ("/v1" +:+ String "/" suffix) with ("/v1/" +:+ suffix). apply str_contains_app.
  - destruct (str_contains "/v1/" base) eqn:Ec; [|apply str_contains_app].
    clear -Ec. induction base as [|c r IH]; [done|]. rewrite str_app_cons. cbn [str_contains] in *. apply orb_true_iff in Ec as [Hp|Hp].
    + assert (forall n s x, String.prefix n s = true -> String.prefix n (s +:+ x) = true) as Hpre.
      { induction n as [|d n IHn]; intros s x; [by destruct (s +:+ x)|]. destruct s as [|e s]; [done|]. rewrite str_app_cons. cbn.
        destruct (ascii_dec d e); [apply IHn|done]. }
      apply (Hpre _ _ ("/" +:+ suffix)) in Hp. rewrite str_app_cons in Hp. by rewrite Hp.
    + by rewrite (IH Hp), orb_true_r.
Qed.
Lemma endpoint_versioned_witness :
  "openai-chat" <> "azure-openai" /\ str_contains "/v1/" (endpoint_url (fun _ => None) "https://api.x.com/v1/" "openai-chat" "models" None) = true.
Proof. split; [done|]. by apply endpoint_versioned. Defined.

(** ** Departures *)

Definition plain_client (kind : string) (a : Auth) (streamed : bool) : OpenAiProvider :=
  mkClient "https://api.x.com" kind None a "x" "x" "default" None (120 * NS) (25 * NS) None None streamed None None None.
Definition plain_request (streamed : bool) : ChatRequest :=
  mkChatRequest "m" [message_new "user" "hi"] 16 None streamed false None None None None None None.

(** On the Anthropic wire a provider with [stream = true] asks for a whole
    body and reads it as a stream. *)
Example anthropic_stream_mismatch :
  let c := plain_client "anthropic" AuthNone true in
  effective_stream c (plain_request false) = true
  /\ value_get (request_body c (plain_request false)) "stream" = Some (Bool false).
Proof. by vm_compute. Qed.

(** A credential with a character across its seventh byte panics. *)
Example bearer_slice_panics :
  let token := "secret" +:+ String (Ascii.ascii_of_nat 195) (String (Ascii.ascii_of_nat 169) "!") in
  request (fun _ => None) (plain_client "anthropic" (AuthBearer token) false) (plain_request false) = None.
Proof. by vm_compute. Qed.

(** The token behind the word Bearer is shown when it is short. *)
Example short_token_shown : redact "401: Bearer hunter2 is not valid" = "401: [REDACTED] hunter2 is not valid".
Proof. by vm_compute. Qed.

(** A version segment with a suffix is not one: a second is added. *)
Example beta_base_versioned : endpoint_url (fun _ => None) "https://x.com/v1beta" "openai-chat" "models" None = "https://x.com/v1beta/v1/models".
Proof. by vm_compute. Qed.
