(* ===== verification/ProviderStream.v ===== *)
(** How a provider's answer is read (crates/zoder-core/src/provider.rs): the
    three stream readers (chat completions, Anthropic messages, Responses)
    and the three readers of a whole body, with their ceilings, their
    deadlines and the failure each departure becomes.

    A stream is a list of feeds: the clock when the reader starts to wait,
    the clock when the wait is over, and what it brought (bytes, the end of
    the body, a broken transport, or nothing within the wait).  A reader
    yields what it has shown so far with its result, or is still running when
    the feeds are used up.  The JSON codec and its derived decoders are
    parameters, as is the printing of a duration. *)
From stdpp Require Import gmap strings.
From S2P Require Import Prelude F64 Numbers Clock Text Json Config Health ProviderWire Minimax.
Local Open Scope string_scope.
Local Open Scope Z_scope.
Local Open Scope list_scope.

(** ** Ceilings *)

Definition MAX_LINE_BYTES : Z := 1048576.
Definition MAX_BUFFER_BYTES : Z := 16777216.
Definition MAX_RESPONSE_BYTES : Z := 16777216.
Definition MAX_CONTENT_BYTES : Z := 8388608.

(** ** Wire shapes *)

Record PromptTokensDetails := mkDetails { cached_tokens : option Z }.
Record Usage := mkUsage {
  us_prompt_tokens : option Z;
  us_completion_tokens : option Z;
  us_prompt_tokens_details : option PromptTokensDetails;
  us_cache_read_input_tokens : option Z;
  us_prompt_cache_hit_tokens : option Z;
  us_prompt_cache_miss_tokens : option Z
}.
Definition cached_prompt_tokens (u : Usage) : option Z :=
  or_opt (or_opt (us_prompt_cache_hit_tokens u) (us_prompt_tokens_details u ≫= cached_tokens)) (us_cache_read_input_tokens u).
Definition some_count (o : option Z) : bool := match o with Some _ => true | None => false end.
Definition is_meaningful (u : Usage) : bool :=
  some_count (us_prompt_tokens u) || some_count (us_completion_tokens u) || some_count (cached_prompt_tokens u)
  || some_count (us_prompt_cache_miss_tokens u).

Record Delta := mkDelta { dl_content : option string; dl_reasoning_content : option string; dl_reasoning : option string }.
Record StreamChoice := mkStreamChoice { sc_delta : Delta; sc_finish_reason : option string }.
Record StreamChunk := mkStreamChunk { sk_model : option string; sk_choices : list StreamChoice; sk_usage : option Usage }.

Record CompletionMessage := mkCompletionMessage { cm_text : option string; cm_reasoning_content : option string; cm_reasoning : option string }.
Record CompletionChoice := mkCompletionChoice { cc_message : option CompletionMessage; cc_finish_reason : option string }.
Record ChatCompletion := mkCompletion { cp_model : option string; cp_choices : list CompletionChoice; cp_usage : option Usage }.

Record AnthropicContent := mkAnthropicContent { ac_kind : string; ac_text : option string }.
Record AnthropicUsage := mkAnthropicUsage {
  au_input_tokens : option Z;
  au_output_tokens : option Z;
  au_cache_read : option Z;
  au_cache_creation : option Z
}.
Record AnthropicResponse := mkAnthropicResponse { ar_model : option string; ar_content : list AnthropicContent; ar_usage : option AnthropicUsage }.

Record ResponsesContent := mkResponsesContent { rc_kind : option string; rc_text : option string }.
Record ResponsesOutputItem := mkOutputItem { ro_kind : option string; ro_role : option string; ro_content : list ResponsesContent }.
Record ResponsesUsage := mkResponsesUsage { ru_input_tokens : option Z; ru_output_tokens : option Z }.
Record ResponsesResponse := mkResponsesResponse { rr_model : option string; rr_output : list ResponsesOutputItem; rr_usage : option ResponsesUsage }.

(** Telemetry of a call; the gate reads part of it. *)
Record CallTelemetry := mkCallTelemetry {
  tm_served_model : option string;
  tm_response_model : option string;
  tm_api_base : option string;
  tm_attempted_fallbacks : option Z;
  tm_cost_usd : option f64;
  tm_duration_ms : option f64;
  tm_key_spend : option f64;
  tm_headers_ms : option Z;
  tm_first_token_ms : option Z
}.
Definition with_models (t : CallTelemetry) (model : option string) (first_token_ms : option Z) : CallTelemetry :=
  mkCallTelemetry (tm_served_model t) model (tm_api_base t) (tm_attempted_fallbacks t) (tm_cost_usd t) (tm_duration_ms t)
    (tm_key_spend t) (tm_headers_ms t) first_token_ms.
Record ChatResult := mkChatResult {
  cr_content : string;
  cr_reasoning : option string;
  cr_tokens_out : Z;
  cr_prompt : option Z;
  cr_completion : option Z;
  cr_cached : option Z;
  cr_miss : option Z;
  cr_telemetry : CallTelemetry
}.

(** The JSON codec: parsing (with the text of its error), printing, and the
    decoders derived for the shapes above. *)
Class Codec := {
  from_str : string -> result Value string;
  to_string : Value -> string;
  as_chunk : Value -> result StreamChunk string;
  decode_completion : string -> result ChatCompletion string;
  decode_anthropic : string -> result AnthropicResponse string;
  decode_responses : string -> result ResponsesResponse string;
  utf8_error : string -> string
}.
Definition parsed `{Codec} (s : string) : option Value := match from_str s with Ok v => Some v | Err _ => None end.

(** ** Bytes *)

Definition byte_of (c : ascii) : Z := Z.of_nat (Ascii.nat_of_ascii c).
Definition in_range (lo hi : Z) (c : ascii) : bool := (lo <=? byte_of c) && (byte_of c <=? hi).
Definition cont : ascii -> bool := in_range 128 191.
(** [std::str::from_utf8] accepts. *)
Fixpoint utf8_valid (s : string) : bool :=
  match s with
  | EmptyString => true
  | String a r =>
      if in_range 0 127 a then utf8_valid r
      else match r with
      | String b r1 =>
          if in_range 194 223 a then cont b && utf8_valid r1
          else match r1 with
          | String c r2 =>
              if in_range 224 239 a then
                in_range (if byte_of a =? 224 then 160 else 128) (if byte_of a =? 237 then 159 else 191) b && cont c && utf8_valid r2
              else match r2 with
              | String d r3 =>
                  in_range 240 244 a && in_range (if byte_of a =? 240 then 144 else 128) (if byte_of a =? 244 then 143 else 191) b
                  && cont c && cont d && utf8_valid r3
              | EmptyString => false
              end
          | EmptyString => false
          end
      | EmptyString => false
      end
  end.
(** [u8::is_ascii_whitespace] *)
Definition ascii_space (c : ascii) : bool := existsb (fun n => byte_of c =? n) [32; 9; 10; 12; 13].
Definition solid (s : string) : bool := negb (str_all is_ws s).

Definition opt_solid (o : option string) : bool := match o with Some s => negb (str_is_empty s) | None => false end.
Definition pick_text (content reasoning_content reasoning : option string) (show_reasoning : bool) : string :=
  if show_reasoning then default "" (or_opt (or_opt content reasoning_content) reasoning) else default "" content.

(** What was answered so far, and what of it the sink was given. *)
Record Output := mkOutput { o_content : string; o_chunks : Z; o_emitted : bool; o_sunk : string }.
Definition no_output : Output := mkOutput "" 0 false "".
Definition push_piece (sink : bool) (o : Output) (piece : string) : option Output :=
  if MAX_CONTENT_BYTES <? len (o_content o) + len piece then None
  else Some (mkOutput (o_content o +:+ piece) (o_chunks o + 1) (o_emitted o || sink) (if sink then o_sunk o +:+ piece else o_sunk o)).

Record Tokens := mkTokens { k_prompt : option Z; k_completion : option Z; k_cached : option Z; k_miss : option Z }.
Definition no_tokens : Tokens := mkTokens None None None None.
Definition merge_usage (t : Tokens) (u : Usage) : Tokens :=
  mkTokens (or_opt (us_prompt_tokens u) (k_prompt t)) (or_opt (us_completion_tokens u) (k_completion t))
    (or_opt (cached_prompt_tokens u) (k_cached t)) (or_opt (us_prompt_cache_miss_tokens u) (k_miss t)).

(** ** Lines of a body *)

Inductive Lined (S : Type) := Go (s : S) | Halt (s : S) | Stop (e : ProviderError).
Arguments Go {S} s. Arguments Halt {S} s. Arguments Stop {S} e.
Inductive Drained (S : Type) := More (s : S) (rest : string) | Halted (s : S) (rest : string) | Stopped (s : S) (e : ProviderError).
Arguments More {S} s rest. Arguments Halted {S} s rest. Arguments Stopped {S} s e.
(** Every complete line of the buffer goes to [on_line]; [acc] is the line
    being cut. *)
Fixpoint drain {S} (on_line : S -> string -> Lined S) (acc buf : string) (s : S) : Drained S :=
  match buf with
  | EmptyString => More s acc
  | String c r =>
      if Ascii.eqb c newline then
        match on_line s acc with
        | Go s' => drain on_line "" r s'
        | Halt s' => Halted s' r
        | Stop e => Stopped s e
        end
      else drain on_line (acc +:+ String c "") r s
  end.

(** ** Waiting for a chunk *)

Inductive Read := Chunk (bytes : string) | Closed | Broken (e : TransportError) | Elapsed.
Record Feed := mkFeed { fd_top : Z; fd_at : Z; fd_read : Read }.
Inductive Pull := PullFail (message : string) | PullBroken (e : TransportError) | Again | GraceOver | Bytes (b : string) | Ended.
Inductive Progress := Running (o : Output) | Finished (r : result ChatResult ProviderError) (o : Output).

Section Readers.
Context `{Codec}.
(** [{:?}] of a duration. *)
Variable show_duration : Z -> string.
Variable c : OpenAiProvider.
Variable req : ChatRequest.
(** Whether the caller gave a sink, and the clock when the reader starts. *)
Variable sink : bool.
Variable start : Z.
Variable telemetry : CallTelemetry.

Definition stream_fail (token_plan_limit : bool) (kind : ErrKind) (message : string) (emitted : bool) : ProviderError :=
  mkProviderError message kind None None emitted token_plan_limit None None None false None.

Definition deadline : Z := start + pv_request_timeout c.
Definition first_token_deadline : option Z := (fun d => start + d) <$> pv_first_token_timeout c.
Definition timeout_message : string := "request timeout after " +:+ show_duration (pv_request_timeout c).
Definition first_token_message : string :=
  "first-token timeout after " +:+ show_duration (default 0 (pv_first_token_timeout c)) +:+ " (no token before response)".
Definition stream_stall_message (idle : Z) (answer_started : bool) : string :=
  if answer_started then "stream stalled: no data for " +:+ show_duration idle +:+ " after answer output began"
  else "stream stalled: no data for " +:+ show_duration idle
       +:+ " while the model was still reasoning (no answer text yet); raise ZODER_IDLE_S if this model legitimately pauses longer mid-reasoning".
(** How long one wait may last. *)
Definition stream_read_step (saw_generation post_finish : bool) (remaining : Z) : Z :=
  if post_finish then Z.min (post_finish_grace c) remaining
  else if saw_generation then Z.min (pv_idle_timeout c) remaining
  else match pv_wait_notice_interval c with Some every => Z.min every remaining | None => remaining end.
Definition wait_step (saw_generation : bool) (finish_by : option Z) (now : Z) : Z :=
  let remaining := u64_sat_sub deadline now in
  Z.min remaining
    match finish_by with
    | Some d => u64_sat_sub d now
    | None =>
        let step := stream_read_step saw_generation false remaining in
        if saw_generation then step
        else match first_token_deadline with Some ft => Z.min (u64_sat_sub ft now) step | None => step end
    end.
Definition first_token_late (saw_generation : bool) (now : Z) : bool :=
  negb saw_generation && match first_token_deadline with Some ft => ft <=? now | None => false end.
(** One turn of the loop, up to the bytes.  [done] is set only by the chat
    reader; [answered] words the message of a stall. *)
Definition pull (saw_generation done answered : bool) (f : Feed) : Pull :=
  if deadline <=? fd_top f then PullFail timeout_message
  else if first_token_late saw_generation (fd_top f) then PullFail first_token_message
  else match fd_read f with
  | Elapsed =>
      if deadline <=? fd_at f then PullFail timeout_message
      else if first_token_late saw_generation (fd_at f) then PullFail first_token_message
      else if negb saw_generation && bool_decide (is_Some (pv_wait_notice_interval c)) then Again
      else if done then GraceOver
      else PullFail (stream_stall_message (pv_idle_timeout c) answered)
  | Closed => Ended
  | Broken e => PullBroken e
  | Chunk b => Bytes b
  end.
Definition with_emitted (e : ProviderError) (emitted : bool) : ProviderError :=
  mkProviderError (pe_message e) (pe_kind e) (pe_status e) (pe_retry_after e) emitted (pe_token_plan_limit e)
    (pe_token_plan_resets_at e) (pe_anthropic_error_body e) (pe_reasoning e) (pe_overload e) (pe_length_exhausted e).
(** The bytes read so far, unless a ceiling is passed. *)
Definition intake (total : Z) (buf bytes : string) : result Z string :=
  let total := u64_sat_add total (len bytes) in
  if MAX_RESPONSE_BYTES <? total then Err "stream exceeded 16777216 byte response ceiling"
  else if MAX_BUFFER_BYTES <? len buf + len bytes then Err "stream buffer exceeded 16777216 byte ceiling"
  else Ok total.
(** A line that is too long or is not UTF-8 ends the stream. *)
Definition checked_line {S} (fail : S -> string -> ProviderError) (on_line : S -> string -> Lined S) (s : S) (line : string) : Lined S :=
  if MAX_LINE_BYTES <? len line then Stop (fail s "stream line exceeded 1048576 byte ceiling")
  else if utf8_valid line then on_line s line
  else Stop (fail s ("stream contained invalid UTF-8: " +:+ utf8_error line)).

(** ** Chat completions *)

Record ChatSt := mkChat {
  ch_out : Output;
  ch_tokens : Tokens;
  ch_model : option string;
  ch_first_ms : option Z;
  ch_done : bool;
  ch_saw_choice : bool;
  ch_saw_length : bool;
  ch_saw_content : bool;
  ch_saw_generation : bool;
  ch_finish_by : option Z
}.
Definition chat_start : ChatSt :=
  mkChat no_output no_tokens (tm_response_model telemetry) (tm_first_token_ms telemetry) false false false false false None.
Variable token_plan_limit : bool.
Definition chat_fail (kind : ErrKind) (s : ChatSt) (message : string) : ProviderError :=
  stream_fail token_plan_limit kind message (o_emitted (ch_out s)).
Definition with_tokens (s : ChatSt) (t : Tokens) : ChatSt :=
  mkChat (ch_out s) t (ch_model s) (ch_first_ms s) (ch_done s) (ch_saw_choice s) (ch_saw_length s) (ch_saw_content s)
    (ch_saw_generation s) (ch_finish_by s).
Definition merge_opt (t : Tokens) (u : option Usage) : Tokens := match u with Some u => merge_usage t u | None => t end.
Definition error_frame (val : Value) : option string :=
  (fun err => "provider stream error: " +:+ redact (to_string err)) <$> value_get val "error".

(** A frame after [finish_reason]. *)
Definition post_finish_frame (s : ChatSt) (payload : string) : Lined ChatSt :=
  match parsed payload with
  | None => Go s
  | Some val =>
      match error_frame val with
      | Some m => Stop (chat_fail ErrHttp s m)
      | None => match as_chunk val with Ok k => Go (with_tokens s (merge_opt (ch_tokens s) (sk_usage k))) | Err _ => Go s end
      end
  end.

(** The model, the finish, the usage of a frame. *)
Definition frame_head (at_ : Z) (s : ChatSt) (k : StreamChunk) : ChatSt :=
  let finished := existsb (fun x => bool_decide (is_Some (sc_finish_reason x))) (sk_choices k) in
  mkChat (ch_out s) (merge_opt (ch_tokens s) (sk_usage k)) (or_opt (sk_model k) (ch_model s)) (ch_first_ms s) (ch_done s || finished)
    (ch_saw_choice s) (ch_saw_length s) (ch_saw_content s) (ch_saw_generation s)
    (if finished then or_opt (ch_finish_by s) (Some (at_ + post_finish_grace c)) else ch_finish_by s).
(** The first choice of a frame. *)
Definition headers_wait : Z := default 0 (tm_headers_ms telemetry) * ns_per_ms.
Definition elapsed_ms (now : Z) : Z := (headers_wait + (now - start)) / ns_per_ms.
Definition frame_choice (at_ : Z) (s : ChatSt) (x : StreamChoice) : Lined ChatSt :=
  let d := sc_delta x in
  let generated := opt_solid (dl_content d) || opt_solid (dl_reasoning_content d) || opt_solid (dl_reasoning d) in
  let piece := pick_text (dl_content d) (dl_reasoning_content d) (dl_reasoning d) (rq_show_reasoning req) in
  let next out content :=
    mkChat out (ch_tokens s) (ch_model s) (if generated && negb (ch_saw_generation s) then Some (elapsed_ms at_) else ch_first_ms s)
      (ch_done s) true (ch_saw_length s || bool_decide (sc_finish_reason x = Some "length")) (ch_saw_content s || content)
      (ch_saw_generation s || generated) (ch_finish_by s) in
  if str_is_empty piece then Go (next (ch_out s) false)
  else match push_piece sink (ch_out s) piece with
       | Some out => Go (next out (solid piece))
       | None => Stop (chat_fail ErrDecode s "decoded content exceeded 8388608 byte ceiling")
       end.
Definition chat_chunk (at_ : Z) (s : ChatSt) (k : StreamChunk) : Lined ChatSt :=
  if match sk_model k, ch_model s with Some m, Some prior => negb (bool_decide (prior = m)) | _, _ => false end
  then Stop (chat_fail ErrDecode s "provider changed model during stream")
  else if bool_decide (length (sk_choices k) = 0%nat) && negb (match sk_usage k with Some u => is_meaningful u | None => false end)
  then Stop (chat_fail ErrDecode s
         "malformed provider stream frame: expected a completion choice or meaningful usage telemetry")
  else
    let s := frame_head at_ s k in
    match sk_choices k with [] => Go s | x :: _ => frame_choice at_ s x end.
Definition chat_frame (at_ : Z) (s : ChatSt) (payload : string) : Lined ChatSt :=
  match from_str payload with
  | Err t => Stop (chat_fail ErrDecode s ("malformed provider stream JSON: " +:+ t))
  | Ok val =>
      match error_frame val with
      | Some m => Stop (chat_fail ErrHttp s m)
      | None =>
          match as_chunk val with
          | Err t => Stop (chat_fail ErrDecode s ("malformed provider stream frame: " +:+ t))
          | Ok k => chat_chunk at_ s k
          end
      end
  end.
Definition mark_done (s : ChatSt) : ChatSt :=
  mkChat (ch_out s) (ch_tokens s) (ch_model s) (ch_first_ms s) true (ch_saw_choice s) (ch_saw_length s) (ch_saw_content s)
    (ch_saw_generation s) (ch_finish_by s).
Definition chat_line (at_ : Z) (s : ChatSt) (raw : string) : Lined ChatSt :=
  match strip_prefix "data:" (trim raw) with
  | None => Go s
  | Some payload =>
      let payload := trim payload in
      if bool_decide (payload = "[DONE]") then Halt (mark_done s)
      else if ch_done s then post_finish_frame s payload
      else chat_frame at_ s payload
  end.

(** The end of the stream. *)
Definition empty_length_message : string :=
  "completion ended at finish_reason " +:+ String quote "length" +:+ String quote " with no answer: the model spent the whole "
  +:+ show_u (rq_max_tokens req) +:+ "-token budget before producing any content".
Definition with_length (e : ProviderError) (l : EmptyLengthUsage) : ProviderError :=
  mkProviderError (pe_message e) (pe_kind e) (pe_status e) (pe_retry_after e) (pe_emitted e) (pe_token_plan_limit e)
    (pe_token_plan_resets_at e) (pe_anthropic_error_body e) (pe_reasoning e) (pe_overload e) (Some l).
Definition chat_finish (s : ChatSt) (buf : string) : result ChatResult ProviderError :=
  if negb (ch_done s) && negb (str_all ascii_space buf) then Err (chat_fail ErrDecode s "stream ended with an incomplete SSE frame")
  else if negb (ch_done s) then
    Err (chat_fail ErrTruncation s "stream ended before terminal [DONE] marker - likely a premature disconnect")
  else if negb (ch_saw_choice s) then Err (chat_fail ErrDecode s "malformed completion stream: no valid completion choice")
  else if negb (ch_saw_content s) then
    Err (if ch_saw_length s
         then with_length (chat_fail ErrTruncation s empty_length_message)
                (mkEmptyLength (k_prompt (ch_tokens s)) (k_completion (ch_tokens s)))
         else chat_fail ErrDecode s "malformed completion stream: empty completion choice (no content delta)")
  else Ok (mkChatResult (o_content (ch_out s)) None (default (o_chunks (ch_out s)) (k_completion (ch_tokens s)))
             (k_prompt (ch_tokens s)) (k_completion (ch_tokens s)) (k_cached (ch_tokens s)) (k_miss (ch_tokens s))
             (with_models telemetry (ch_model s) (ch_first_ms s))).

(** [consume_stream] *)
Fixpoint chat_run (s : ChatSt) (total : Z) (buf : string) (feeds : list Feed) : Progress :=
  match feeds with
  | [] => Running (ch_out s)
  | f :: rest =>
      match pull (ch_saw_generation s) (ch_done s) (ch_saw_content s) f with
      | PullFail m => Finished (Err (chat_fail ErrTimeout s m)) (ch_out s)
      | PullBroken e => Finished (Err (with_emitted (classify_reqwest e) (o_emitted (ch_out s)))) (ch_out s)
      | Again => chat_run s total buf rest
      | GraceOver | Ended => Finished (chat_finish s buf) (ch_out s)
      | Bytes b =>
          match intake total buf b with
          | Err m => Finished (Err (chat_fail ErrDecode s m)) (ch_out s)
          | Ok total =>
              match drain (checked_line (chat_fail ErrDecode) (chat_line (fd_at f))) buf b s with
              | More s' buf' => chat_run s' total buf' rest
              | Halted s' buf' => Finished (chat_finish s' buf') (ch_out s')
              | Stopped s' e => Finished (Err e) (ch_out s')
              end
          end
      end
  end.
Definition consume_stream (feeds : list Feed) : Progress := chat_run chat_start 0 "" feeds.

(** ** Anthropic messages and Responses: events with data *)

Record WireSt := mkWire {
  w_out : Output;
  w_tokens : Tokens;
  w_first_ms : option Z;
  w_done : bool;
  w_saw_text : bool;
  w_saw_generation : bool;
  w_event : option string
}.
Definition wire_start : WireSt := mkWire no_output no_tokens (tm_first_token_ms telemetry) false false false None.
Definition wire_tokens (s : WireSt) (t : Tokens) : WireSt :=
  mkWire (w_out s) t (w_first_ms s) (w_done s) (w_saw_text s) (w_saw_generation s) (w_event s).
Definition wire_event (s : WireSt) (e : option string) : WireSt :=
  mkWire (w_out s) (w_tokens s) (w_first_ms s) (w_done s) (w_saw_text s) (w_saw_generation s) e.
Definition wire_done (s : WireSt) : WireSt :=
  mkWire (w_out s) (w_tokens s) (w_first_ms s) true (w_saw_text s) (w_saw_generation s) (w_event s).
(** Generation has begun. *)
Definition wire_generating (at_ : Z) (s : WireSt) : WireSt :=
  mkWire (w_out s) (w_tokens s) (if w_saw_generation s then w_first_ms s else Some (elapsed_ms at_)) (w_done s) (w_saw_text s) true (w_event s).
Definition wire_fail (plan_limit : bool) (kind : ErrKind) (s : WireSt) (message : string) : ProviderError :=
  stream_fail plan_limit kind message (o_emitted (w_out s)).
(** A piece of text. *)
Definition wire_piece (plan_limit : bool) (s : WireSt) (piece : string) : Lined WireSt :=
  if str_is_empty piece then Go s
  else match push_piece sink (w_out s) piece with
       | Some out => Go (mkWire out (w_tokens s) (w_first_ms s) (w_done s) true (w_saw_generation s) (w_event s))
       | None => Stop (wire_fail plan_limit ErrDecode s "decoded content exceeded 8388608 byte ceiling")
       end.
Definition eol_byte (b : ascii) : bool := Ascii.eqb b newline || (byte_of b =? 13).
Definition wire_line (on_data : WireSt -> string -> Lined WireSt) (s : WireSt) (raw : string) : Lined WireSt :=
  let line := trim_end_matches eol_byte raw in
  if str_is_empty line then Go (wire_event s None)
  else match strip_prefix "event:" line with
  | Some ev => Go (wire_event s (Some (trim ev)))
  | None =>
      match strip_prefix "data:" line with
      | None => Go s
      | Some payload =>
          let payload := trim payload in
          if str_is_empty payload || bool_decide (payload = "[DONE]") then Go s else on_data s payload
      end
  end.
Definition value_path (v : Value) (ks : list string) : option Value := foldl (fun o k => v ← o; value_get v k) (Some v) ks.
Definition path_str (v : Value) (ks : list string) : option string := value_path v ks ≫= value_as_str.
Definition path_u64 (v : Value) (ks : list string) : option Z := value_path v ks ≫= value_as_u64.

(** [consume_stream_anthropic]: one [data:] payload. *)
Definition anthropic_error (s : WireSt) (val : Value) (payload : string) : ProviderError :=
  mkProviderError ("anthropic stream error: " +:+ redact payload) ErrHttp None None (o_emitted (w_out s)) false None (Some payload) None
    (bool_decide (path_str val ["error"; "type"] = Some "overloaded_error")) None.
Definition anthropic_event (at_ : Z) (s : WireSt) (event : string) (val : Value) : Lined WireSt :=
  let t := w_tokens s in
  if bool_decide (event = "message_start") then
    Go (wire_tokens s (mkTokens (or_opt (path_u64 val ["message"; "usage"; "input_tokens"]) (k_prompt t)) (k_completion t)
                         (or_opt (path_u64 val ["message"; "usage"; "cache_read_input_tokens"]) (k_cached t)) (k_miss t)))
  else if bool_decide (event = "content_block_delta") then
    wire_piece false (wire_generating at_ s) (default "" (path_str val ["delta"; "text"]))
  else if bool_decide (event = "message_delta") then
    Go (wire_tokens s (mkTokens (k_prompt t) (or_opt (path_u64 val ["usage"; "output_tokens"]) (k_completion t))
                         (match path_u64 val ["usage"; "cache_read_input_tokens"] with
                          | Some extra => Some (u64_sat_add (default 0 (k_cached t)) extra)
                          | None => k_cached t
                          end) (k_miss t)))
  else if bool_decide (event = "message_stop") then Go (wire_done s)
  else Go s.
Definition anthropic_data (at_ : Z) (s : WireSt) (payload : string) : Lined WireSt :=
  match from_str payload with
  | Err t => Stop (wire_fail false ErrDecode s ("malformed anthropic stream JSON: " +:+ t))
  | Ok val =>
      if bool_decide (w_event s = Some "error") || bool_decide (value_get_str val "type" = Some "error")
      then Stop (anthropic_error s val payload)
      else match w_event s with Some event => anthropic_event at_ s event val | None => Go s end
  end.

(** [consume_stream_responses]: one [data:] payload.  [observed_reset] is the
    horizon the plan's endpoint gave when the wall was observed. *)
Variable observed_reset : option Z.
Definition responses_error (s : WireSt) (payload : string) : ProviderError :=
  if token_plan_limit || is_token_plan_limit_error parsed payload then
    mkProviderError ("provider stream error: " +:+ redact payload) ErrRateLimit None None (o_emitted (w_out s)) true observed_reset None None false None
  else wire_fail token_plan_limit ErrHttp s ("responses stream error: " +:+ redact payload).
Definition responses_event (at_ : Z) (s : WireSt) (event : string) (val : Value) : Lined WireSt :=
  let s := if bool_decide (is_Some (strip_suffix ".delta" event)) then wire_generating at_ s else s in
  let t := w_tokens s in
  if bool_decide (event = "response.output_text.delta") then wire_piece token_plan_limit s (default "" (value_get_str val "delta"))
  else if bool_decide (event = "response.completed") then
    Go (wire_done (wire_tokens s (mkTokens (or_opt (path_u64 val ["response"; "usage"; "input_tokens"]) (k_prompt t))
                                    (or_opt (path_u64 val ["response"; "usage"; "output_tokens"]) (k_completion t)) (k_cached t) (k_miss t))))
  else Go s.
Definition responses_data (at_ : Z) (s : WireSt) (payload : string) : Lined WireSt :=
  match from_str payload with
  | Err t => Stop (wire_fail token_plan_limit ErrDecode s ("malformed responses stream JSON: " +:+ t))
  | Ok val =>
      let event := or_opt (w_event s) (value_get_str val "type") in
      if bool_decide (event = Some "error") || bool_decide (value_get_str val "type" = Some "error") then Stop (responses_error s payload)
      else match event with
      | Some event =>
          if bool_decide (event = "response.failed")
          then Stop (wire_fail token_plan_limit ErrHttp s ("responses stream failed: " +:+ redact payload))
          else responses_event at_ s event val
      | None => Go s
      end
  end.

(** The two loops differ in their lines and their messages. *)
Definition wire_finish (plan_limit : bool) (truncated no_text : string) (s : WireSt) (buf : string) : result ChatResult ProviderError :=
  if negb (str_all ascii_space buf) then Err (wire_fail plan_limit ErrDecode s "stream ended with an incomplete SSE frame")
  else if negb (w_done s) then Err (wire_fail plan_limit ErrTruncation s truncated)
  else if negb (w_saw_text s) then Err (wire_fail plan_limit ErrDecode s no_text)
  else Ok (mkChatResult (o_content (w_out s)) None (default (o_chunks (w_out s)) (k_completion (w_tokens s)))
             (k_prompt (w_tokens s)) (k_completion (w_tokens s)) (k_cached (w_tokens s)) None
             (with_models telemetry (tm_response_model telemetry) (w_first_ms s))).
Fixpoint wire_run (plan_limit : bool) (on_data : Z -> WireSt -> string -> Lined WireSt)
  (finish : WireSt -> string -> result ChatResult ProviderError) (s : WireSt) (total : Z) (buf : string) (feeds : list Feed) : Progress :=
  match feeds with
  | [] => Running (w_out s)
  | f :: rest =>
      match pull (w_saw_generation s) false (w_saw_text s) f with
      | PullFail m => Finished (Err (wire_fail plan_limit ErrTimeout s m)) (w_out s)
      | PullBroken e => Finished (Err (with_emitted (classify_reqwest e) (o_emitted (w_out s)))) (w_out s)
      | Again => wire_run plan_limit on_data finish s total buf rest
      | GraceOver | Ended => Finished (finish s buf) (w_out s)
      | Bytes b =>
          match intake total buf b with
          | Err m => Finished (Err (wire_fail plan_limit ErrDecode s m)) (w_out s)
          | Ok total =>
              match drain (checked_line (wire_fail plan_limit ErrDecode) (wire_line (on_data (fd_at f)))) buf b s with
              | More s' buf' => if w_done s' then Finished (finish s' buf') (w_out s') else wire_run plan_limit on_data finish s' total buf' rest
              | Halted s' buf' => Finished (finish s' buf') (w_out s')
              | Stopped s' e => Finished (Err e) (w_out s')
              end
          end
      end
  end.
Definition consume_stream_anthropic (feeds : list Feed) : Progress :=
  wire_run false anthropic_data
    (wire_finish false "anthropic stream ended before terminal message_stop marker - likely a premature disconnect"
       "malformed anthropic stream: no text content") wire_start 0 "" feeds.
Definition consume_stream_responses (feeds : list Feed) : Progress :=
  wire_run token_plan_limit responses_data
    (wire_finish token_plan_limit "responses stream ended before terminal response.completed marker - likely a premature disconnect"
       "malformed responses stream: no output text") wire_start 0 "" feeds.

(** * Theorems *)

(** ** What was shown *)

(** The sink was given the whole answer so far, or nothing when there is no
    sink; the flag of an error says which. *)
Definition out_ok (o : Output) : Prop :=
  o_emitted o = negb (str_is_empty (o_sunk o)) /\ o_sunk o = (if sink then o_content o else "") /\ len (o_content o) <= MAX_CONTENT_BYTES.
Definition progress_ok (good : string -> bool) (p : Progress) : Prop :=
  match p with
  | Running o => out_ok o
  | Finished (Err e) o => out_ok o /\ pe_emitted e = o_emitted o
  | Finished (Ok r) o => out_ok o /\ cr_content r = o_content o /\ good (cr_content r) = true
  end.
Definition wordy (s : string) : bool := negb (str_is_empty s).

Lemma no_output_ok : out_ok no_output.
Proof. split; [done|]. split; [by destruct sink|]. vm_compute. discriminate. Qed.
Lemma emit_ok o piece o' : out_ok o -> str_is_empty piece = false -> push_piece sink o piece = Some o' -> out_ok o'.
Proof.
  intros (He & Hs & Hl) Hp. unfold push_piece. destruct (Z.ltb_spec MAX_CONTENT_BYTES (len (o_content o) + len piece)); [done|].
  intros [= <-]. split; [|split]; cbn [o_emitted o_sunk o_content].
  - rewrite He. destruct sink; [|by rewrite orb_false_r]. by rewrite str_is_empty_app, Hp, andb_false_r, orb_true_r.
  - destruct sink; [by rewrite Hs|done].
  - unfold len in *. rewrite str_length_app. lia.
Qed.

(** What every line keeps, the loop over lines keeps. *)
Lemma drain_ind {S} (P : S -> Prop) (E : S -> ProviderError -> Prop) (on_line : S -> string -> Lined S) acc buf s :
  (forall s line, P s -> match on_line s line with Go s' | Halt s' => P s' | Stop e => E s e end) -> P s ->
  match drain on_line acc buf s with More s' _ | Halted s' _ => P s' | Stopped s' e => P s' /\ E s' e end.
Proof.
  intros Hl. revert acc s. induction buf as [|b buf IH]; intros acc s Hs; cbn [drain]; [done|].
  destruct (Ascii.eqb b newline); [|by apply IH]. pose proof (Hl s acc Hs) as Hline.
  destruct (on_line s acc); [by apply IH|done|done].
Qed.
Lemma drain_checked_ind {S} (P : S -> Prop) (E : S -> ProviderError -> Prop) fail (on_line : S -> string -> Lined S) acc buf s :
  (forall s m, E s (fail s m)) ->
  (forall s line, P s -> match on_line s line with Go s' | Halt s' => P s' | Stop e => E s e end) -> P s ->
  match drain (checked_line fail on_line) acc buf s with More s' _ | Halted s' _ => P s' | Stopped s' e => P s' /\ E s' e end.
Proof.
  intros Hf Hl. apply drain_ind. intros s' line Hs. unfold checked_line. destruct (_ <? _); [apply Hf|].
  destruct (utf8_valid line); [by apply Hl|apply Hf].
Qed.

Definition chat_ok (s : ChatSt) : Prop :=
  out_ok (ch_out s) /\ (ch_saw_content s = true -> solid (o_content (ch_out s)) = true).
Definition chat_emitted (s : ChatSt) (e : ProviderError) : Prop := pe_emitted e = o_emitted (ch_out s).

Lemma solid_app a b : solid (a +:+ b) = solid a || solid b.
Proof. unfold solid. rewrite str_all_app. by destruct (str_all is_ws a), (str_all is_ws b). Qed.

Lemma frame_choice_ok at_ s x : chat_ok s ->
  match frame_choice at_ s x with
  | Go s' | Halt s' => chat_ok s'
  | Stop e => chat_emitted s e
  end.
Proof.
  intros [Ho Hc]. unfold frame_choice. set (piece := pick_text _ _ _ _). destruct (str_is_empty piece) eqn:Ep.
  - split; [done|]. cbn. by rewrite orb_false_r.
  - destruct (push_piece sink (ch_out s) piece) as [o'|] eqn:Ee; [|done]. split; [by eapply emit_ok|]. cbn. intros Hs.
    unfold push_piece in Ee. destruct (_ <? _); [done|]. simplify_eq/=. rewrite solid_app. apply orb_true_iff in Hs as [Hs%Hc|Hs]; [by rewrite Hs|].
    by rewrite Hs, orb_true_r.
Qed.
Lemma chat_line_ok at_ s line : chat_ok s ->
  match chat_line at_ s line with
  | Go s' | Halt s' => chat_ok s'
  | Stop e => chat_emitted s e
  end.
Proof.
  intros Hs. unfold chat_line. destruct (strip_prefix "data:" (trim line)) as [p|]; [|done]. case_bool_decide; [done|].
  destruct (ch_done s).
  - unfold post_finish_frame. destruct (parsed _) as [v|]; [|done]. destruct (error_frame v); [done|]. by destruct (as_chunk v).
  - unfold chat_frame. destruct (from_str _) as [v|]; [|done]. destruct (error_frame v); [done|]. destruct (as_chunk v) as [k|]; [|done].
    unfold chat_chunk. destruct (match sk_model k with Some _ => _ | None => _ end); [done|]. destruct (_ && _); [done|].
    destruct (sk_choices k) as [|x r] eqn:Ek; [done|]. pose proof (frame_choice_ok at_ (frame_head at_ s k) x) as Hf.
    assert (chat_ok (frame_head at_ s k)) as Hh by done. specialize (Hf Hh).
    destruct (frame_choice _ _ _); done.
Qed.
Lemma chat_finish_ok s buf : chat_ok s -> progress_ok solid (Finished (chat_finish s buf) (ch_out s)).
Proof.
  intros [Ho Hc]. unfold chat_finish. destruct (_ && _); [done|]. do 2 (destruct (negb _); [done|]).
  destruct (ch_saw_content s); cbn [negb]; [|by destruct (ch_saw_length s)]. split; [done|]. split; [done|by apply Hc].
Qed.
Lemma chat_run_ok s total buf feeds : chat_ok s ->
  progress_ok solid (chat_run s total buf feeds).
Proof.
  revert s total buf. induction feeds as [|f feeds IH]; intros s total buf Hs; cbn [chat_run]; [by destruct Hs|].
  destruct (pull _ _ _ _) as [m|e| | |b|].
  - by destruct Hs.
  - by destruct Hs.
  - by apply IH.
  - by apply chat_finish_ok.
  - destruct (intake total buf b) as [t|m]; [|by destruct Hs].
    pose proof (drain_checked_ind chat_ok chat_emitted (chat_fail ErrDecode) (chat_line (fd_at f)) buf b s
      (fun s m => eq_refl) (chat_line_ok (fd_at f)) Hs) as Hd.
    destruct (drain _ _ _ _) as [s' r|s' r|s' e]; [by apply IH|by apply chat_finish_ok|destruct Hd as [[Ho _] He]; by split].
  - by apply chat_finish_ok.
Qed.

Definition wire_ok (s : WireSt) : Prop :=
  out_ok (w_out s) /\ (w_saw_text s = true -> wordy (o_content (w_out s)) = true).
Definition wire_emitted (s : WireSt) (e : ProviderError) : Prop := pe_emitted e = o_emitted (w_out s).
(** A payload's handler keeps the invariant. *)
Definition data_ok (on_data : WireSt -> string -> Lined WireSt) : Prop :=
  forall s payload, wire_ok s ->
    match on_data s payload with Go s' | Halt s' => wire_ok s' | Stop e => wire_emitted s e end.

Lemma wire_piece_ok limit s piece : wire_ok s ->
  match wire_piece limit s piece with Go s' | Halt s' => wire_ok s' | Stop e => wire_emitted s e end.
Proof.
  intros [Ho Ht]. unfold wire_piece. destruct (str_is_empty piece) eqn:Ep; [done|].
  destruct (push_piece sink (w_out s) piece) as [o'|] eqn:Ee; [|done]. split; [by eapply emit_ok|]. intros _. cbn [w_out].
  unfold push_piece in Ee. destruct (_ <? _); [done|]. simplify_eq/=. unfold wordy. by rewrite str_is_empty_app, Ep, andb_false_r.
Qed.
Lemma wire_line_ok on_data : data_ok on_data -> data_ok (wire_line on_data).
Proof.
  intros Hd s line Hs. unfold wire_line. destruct (str_is_empty _); [done|]. destruct (strip_prefix "event:" _); [done|].
  destruct (strip_prefix "data:" _) as [p|]; [|done]. destruct (_ || _); [done|]. by apply Hd.
Qed.
Lemma anthropic_data_ok at_ : data_ok (anthropic_data at_).
Proof.
  intros s payload Hs. unfold anthropic_data. destruct (from_str payload) as [v|]; [|done]. destruct (_ || _); [done|].
  destruct (w_event s) as [ev|]; [|done]. unfold anthropic_event. case_bool_decide; [done|].
  case_bool_decide; [by apply (wire_piece_ok false (wire_generating at_ s))|]. by repeat case_bool_decide.
Qed.
Lemma responses_data_ok at_ : data_ok (responses_data at_).
Proof.
  intros s payload Hs. unfold responses_data. destruct (from_str payload) as [v|]; [|done].
  destruct (_ || _); [unfold responses_error; by destruct (_ || _)|].
  assert (forall ev, match responses_event at_ s ev v with Go s' | Halt s' => wire_ok s' | Stop e => wire_emitted s e end) as He.
  { intros ev. unfold responses_event.
    assert (wire_ok (if bool_decide (is_Some (strip_suffix ".delta" ev)) then wire_generating at_ s else s)) as Hg by by case_match.
    assert (w_out (if bool_decide (is_Some (strip_suffix ".delta" ev)) then wire_generating at_ s else s) = w_out s) as Hw by by case_match.
    revert Hg Hw. generalize (if bool_decide (is_Some (strip_suffix ".delta" ev)) then wire_generating at_ s else s) as s'.
    intros s' Hg Hw. unfold wire_emitted. rewrite <- Hw. case_bool_decide; [by apply wire_piece_ok|]. by case_bool_decide. }
  destruct (or_opt _ _) as [ev|]; [|done]. case_bool_decide; [done|]. apply He.
Qed.
Lemma wire_finish_ok limit truncated no_text s buf : wire_ok s ->
  progress_ok wordy (Finished (wire_finish limit truncated no_text s buf) (w_out s)).
Proof.
  intros [Ho Ht]. unfold wire_finish. do 2 (destruct (negb _); [done|]). destruct (w_saw_text s); [|done].
  split; [done|]. split; [done|by apply Ht].
Qed.
Lemma wire_run_ok limit on_data truncated no_text s total buf feeds : (forall at_, data_ok (on_data at_)) -> wire_ok s ->
  progress_ok wordy (wire_run limit on_data (wire_finish limit truncated no_text) s total buf feeds).
Proof.
  intros Hdata. revert s total buf. induction feeds as [|f feeds IH]; intros s total buf Hs; cbn [wire_run]; [by destruct Hs|].
  destruct (pull _ _ _ _) as [m|e| | |b|]; [by destruct Hs|by destruct Hs|by apply IH|by apply wire_finish_ok| |by apply wire_finish_ok].
  destruct (intake total buf b) as [t|m]; [|by destruct Hs].
  pose proof (drain_checked_ind wire_ok wire_emitted (wire_fail limit ErrDecode) (wire_line (on_data (fd_at f))) buf b s
    (fun s m => eq_refl) (wire_line_ok _ (Hdata (fd_at f))) Hs) as Hd.
  destruct (drain _ _ _ _) as [s' r|s' r|s' e]; [|by apply wire_finish_ok|destruct Hd as [[Ho _] He]; by split].
  destruct (w_done s'); [by apply wire_finish_ok|by apply IH].
Qed.
End Readers.
