(* ===== verification/ProviderFrames.v ===== *)
(** What the reader of a chat stream makes of a whole body
    (crates/zoder-core/src/provider.rs, [consume_stream]): how the body is cut
    into chunks does not matter, and a body of well-formed frames gives the
    text, the token counts and the model its frames say. *)
From stdpp Require Import gmap strings.
From S2P Require Import Prelude F64 Numbers Clock Text Json Config Health ProviderWire Minimax ProviderStream.
Local Open Scope string_scope.
Local Open Scope Z_scope.
Local Open Scope list_scope.

(** ** Bodies *)

Definition text_of (bs : list string) : string := foldr (fun b r => b +:+ r) "" bs.
Definition chunk_at (top at_ : Z) (b : string) : Feed := mkFeed top at_ (Chunk b).
Definition frame_line (payload : string) : string := "data: " +:+ payload.
Definition lf : string := String newline "".
(** The frames of a body, each a line and an empty line, and the marker. *)
Definition sse_frames (ps : list string) : string := text_of (map (fun p => frame_line p +:+ lf +:+ lf) ps).
Definition sse_body (ps : list string) : string := sse_frames ps +:+ frame_line "[DONE]" +:+ lf.

Section Frames.
Context `{Codec}.
Variable show_duration : Z -> string.
Variable c : OpenAiProvider.
Variable req : ChatRequest.
Variable sink : bool.
Variable start : Z.
Variable telemetry : CallTelemetry.
Variable limit : bool.

Notation run := (chat_run show_duration c req sink start telemetry limit).
Notation finish := (chat_finish req telemetry limit).
Notation lines_at at_ := (drain (checked_line (chat_fail limit ErrDecode) (chat_line c req sink start telemetry limit at_))).

(** The clock lets the reader wait. *)
Definition in_time (top : Z) : Prop :=
  top < deadline c start /\ forall ft, first_token_deadline c start = Some ft -> top < ft.

(** A frame the decoder reads, on a line of its own. *)
Definition frame_ok (p : string) (k : StreamChunk) : Prop :=
  trimmed p /\ p <> "" /\ p <> "[DONE]" /\ str_has newline p = false /\ utf8_valid p = true /\ len p + 6 <= MAX_LINE_BYTES /\
  exists v, from_str p = Ok v /\ value_get v "error" = None /\ as_chunk v = Ok k.
Definition says (m : string) (o : option string) : Prop := o = None \/ o = Some m.
(** A frame of the answer: it holds a choice, and names no other model. *)
Definition answer_frame (m : string) (k : StreamChunk) : Prop := says m (sk_model k) /\ sk_choices k <> [].
Definition frame_piece (k : StreamChunk) : string :=
  match sk_choices k with
  | x :: _ => pick_text (dl_content (sc_delta x)) (dl_reasoning_content (sc_delta x)) (dl_reasoning (sc_delta x)) (rq_show_reasoning req)
  | [] => ""
  end.
Definition answer_text (ks : list StreamChunk) : string := text_of (map frame_piece ks).
Definition usage_of (ks : list StreamChunk) : Tokens := foldl (fun t k => merge_opt t (sk_usage k)) no_tokens ks.
Definition chunk_count (ks : list StreamChunk) : Z := Z.of_nat (length (filterb wordy (map frame_piece ks))).

(** What the reader holds after the answer frames [ks]; the usage is that of
    the frames [us]. *)
Record reading (m : string) (done_ : bool) (ks us : list StreamChunk) (s : ChatSt) : Prop := {
  rd_content : o_content (ch_out s) = answer_text ks;
  rd_chunks : o_chunks (ch_out s) = chunk_count ks;
  rd_tokens : ch_tokens s = usage_of us;
  rd_model : says m (ch_model s);
  rd_done : ch_done s = done_;
  rd_choice : ch_saw_choice s = negb (bool_decide (ks = []));
  rd_solid : ch_saw_content s = existsb solid (map frame_piece ks)
}.
Definition finishes (k : StreamChunk) : bool := existsb (fun x => bool_decide (is_Some (sc_finish_reason x))) (sk_choices k).

(** ** Lemmas *)

Lemma text_of_app a b : text_of (a ++ b) = text_of a +:+ text_of b.
Proof. induction a as [|x a IH]; [done|]. cbn [app text_of foldr]. rewrite str_app_assoc. exact (f_equal (String.append x) IH). Qed.
Lemma drain_app {S} (on_line : S -> string -> Lined S) a b acc s :
  drain on_line acc (a +:+ b) s =
  match drain on_line acc a s with
  | More s' acc' => drain on_line acc' b s'
  | Halted s' r => Halted s' (r +:+ b)
  | Stopped s' e => Stopped s' e
  end.
Proof.
  revert acc s. induction a as [|x a IH]; intros acc s; [done|]. rewrite str_app_cons. cbn [drain].
  destruct (Ascii.eqb x newline); [|apply IH]. destruct (on_line s acc); [apply IH|done|done].
Qed.
Lemma drain_word {S} (on_line : S -> string -> Lined S) l acc s : str_has newline l = false -> drain on_line acc l s = More s (acc +:+ l).
Proof.
  revert acc. induction l as [|x l IH]; intros acc Hl; cbn [drain]; [by rewrite str_app_nil|]. cbn in Hl. apply orb_false_iff in Hl as [Hx Hl].
  rewrite Hx, IH by done. by rewrite str_app_assoc.
Qed.
Lemma drain_line {S} (on_line : S -> string -> Lined S) l r s : str_has newline l = false ->
  drain on_line "" (l +:+ lf +:+ r) s =
  match on_line s l with Go s' => drain on_line "" r s' | Halt s' => Halted s' r | Stop e => Stopped s e end.
Proof. intros Hl. by rewrite drain_app, drain_word. Qed.
Lemma drain_rest {S} (on_line : S -> string -> Lined S) acc b s :
  match drain on_line acc b s with More _ acc' => len acc' <= len acc + len b | _ => True end.
Proof.
  revert acc s. induction b as [|x b IH]; intros acc s; cbn [drain]; [unfold len; cbn; lia|].
  destruct (Ascii.eqb x newline).
  - destruct (on_line s acc); [|done|done]. pose proof (IH "" s0) as Hi. destruct (drain _ _ _ _); [|done|done]. unfold len in *. cbn in *. lia.
  - pose proof (IH (acc +:+ String x "") s) as Hi. destruct (drain _ _ _ _); [|done|done]. unfold len in *. rewrite str_length_app in Hi. cbn in *. lia.
Qed.

(** Only the marker halts, and it leaves the stream done. *)
Lemma chat_line_halts at_ s l : match chat_line c req sink start telemetry limit at_ s l with Halt s' => ch_done s' = true | _ => True end.
Proof.
  unfold chat_line. destruct (strip_prefix _ _) as [p|]; [|done]. case_bool_decide; [done|]. destruct (ch_done s).
  - unfold post_finish_frame. destruct (parsed _) as [v|]; [|done]. destruct (error_frame v); [done|]. by destruct (as_chunk v).
  - unfold chat_frame. destruct (from_str _) as [v|]; [|done]. destruct (error_frame v); [done|]. destruct (as_chunk v) as [k|]; [|done].
    unfold chat_chunk. destruct (match sk_model k with Some _ => _ | None => _ end); [done|]. destruct (_ && _); [done|].
    destruct (sk_choices k) as [|x r]; [done|]. unfold frame_choice. destruct (str_is_empty _); [done|]. by destruct (push_piece _ _ _).
Qed.
Lemma lines_halt_done at_ acc b s : match lines_at at_ acc b s with Halted s' _ => ch_done s' = true | _ => True end.
Proof.
  revert acc s. induction b as [|x b IH]; intros acc s; cbn [drain]; [done|]. destruct (Ascii.eqb x newline); [|apply IH].
  unfold checked_line. destruct (_ <? _); [done|]. destruct (utf8_valid acc); [|done]. pose proof (chat_line_halts at_ s acc) as Hh.
  destruct (chat_line _ _ _ _ _ _ _ _ _); [apply IH|done|done].
Qed.
Lemma finish_done s a b : ch_done s = true -> finish s a = finish s b.
Proof. intros Hd. unfold chat_finish. by rewrite Hd. Qed.
Lemma pull_chunk saw done_ answered top at_ b : in_time top -> pull show_duration c start saw done_ answered (chunk_at top at_ b) = Bytes b.
Proof.
  intros [Hd Hf]. unfold pull, first_token_late. cbn [fd_top fd_read chunk_at]. destruct (Z.leb_spec (deadline c start) top); [lia|].
  destruct (first_token_deadline c start) as [ft|]; [|by rewrite andb_false_r]. specialize (Hf ft eq_refl).
  destruct (Z.leb_spec ft top); [lia|]. by rewrite andb_false_r.
Qed.
Lemma intake_fits total buf b : 0 <= total -> len buf <= total -> total + len b <= MAX_RESPONSE_BYTES -> intake total buf b = Ok (total + len b).
Proof.
  intros H0 Hb Ht. unfold intake. unfold u64_sat_add. rewrite Z.min_r by (unfold MAX_RESPONSE_BYTES, U64_MAX in *; lia).
  destruct (Z.ltb_spec MAX_RESPONSE_BYTES (total + len b)); [lia|]. unfold MAX_BUFFER_BYTES, MAX_RESPONSE_BYTES in *.
  destruct (Z.ltb_spec 16777216 (len buf + len b)); [lia|done].
Qed.
(** Chunks that came at one instant are read as one. *)
Lemma run_chunks bs : forall top at_ tail s total buf, in_time top -> 0 <= total -> len buf <= total ->
  total + len (text_of bs) <= MAX_RESPONSE_BYTES ->
  run s total buf (map (chunk_at top at_) bs ++ tail) =
  match lines_at at_ buf (text_of bs) s with
  | More s' buf' => run s' (total + len (text_of bs)) buf' tail
  | Halted s' r => Finished (finish s' r) (ch_out s')
  | Stopped s' e => Finished (Err e) (ch_out s')
  end.
Proof.
  induction bs as [|b bs IH]; intros top at_ tail s total buf Hin H0 Hb Ht.
  - cbn. by rewrite Z.add_0_r.
  - cbn [map app text_of foldr] in *. fold (text_of bs) in *. assert (len (b +:+ text_of bs) = len b + len (text_of bs)) as Hl.
    { unfold len. rewrite str_length_app. lia. }
    rewrite Hl in *. assert (0 <= len b /\ 0 <= len (text_of bs)) as [Hb0 Hr0] by (unfold len; lia).
    cbn [chat_run]. rewrite pull_chunk, intake_fits by (done || lia). rewrite drain_app. cbn [chunk_at fd_at].
    pose proof (drain_rest (checked_line (chat_fail limit ErrDecode) (chat_line c req sink start telemetry limit at_)) buf b s) as Hr.
    pose proof (lines_halt_done at_ buf b s) as Hh.
    destruct (lines_at at_ buf b s) as [s' buf'|s' r|s' e]; [|by rewrite (finish_done s' r (r +:+ text_of bs))|done].
    rewrite IH by (done || lia). by rewrite Z.add_assoc.
Qed.

Lemma pieces_snoc ks k : answer_text (ks ++ [k]) = answer_text ks +:+ frame_piece k.
Proof. unfold answer_text. rewrite map_app, text_of_app. cbn. by rewrite str_app_nil. Qed.
Lemma usage_snoc us k : usage_of (us ++ [k]) = merge_opt (usage_of us) (sk_usage k).
Proof. unfold usage_of. by rewrite foldl_app. Qed.
Lemma count_snoc ks k : chunk_count (ks ++ [k]) = chunk_count ks + (if str_is_empty (frame_piece k) then 0 else 1).
Proof.
  unfold chunk_count, filterb. rewrite map_app, List.filter_app, length_app, Nat2Z.inj_add. f_equal. cbn. unfold wordy.
  by destruct (str_is_empty (frame_piece k)).
Qed.
Lemma says_join m o o' : says m o -> says m o' -> says m (or_opt o o') /\ match o, o' with Some a, Some b => negb (bool_decide (b = a)) | _, _ => false end = false.
Proof. intros [->| ->] [->| ->]; cbn; (split; [by (left + right)|]); by rewrite ?bool_decide_eq_true_2. Qed.

(** One frame of the answer. *)
Lemma answer_step m at_ ks us s k : reading m false ks us s -> answer_frame m k -> len (answer_text (ks ++ [k])) <= MAX_CONTENT_BYTES ->
  exists s', chat_chunk c req sink start telemetry limit at_ s k = Go s' /\ reading m (finishes k) (ks ++ [k]) (us ++ [k]) s'.
Proof.
  intros [Hc Hn Ht Hm Hd Hx Hs] [Hk Hne] Hl. destruct (says_join m (sk_model k) (ch_model s) Hk Hm) as [Hm' Hsame].
  unfold chat_chunk. rewrite Hsame. destruct (sk_choices k) as [|x xs] eqn:Ek; [done|]. rewrite bool_decide_eq_false_2 by done. cbn [andb].
  unfold frame_choice. rewrite pieces_snoc in Hl. assert (frame_piece k = pick_text (dl_content (sc_delta x)) (dl_reasoning_content (sc_delta x))
    (dl_reasoning (sc_delta x)) (rq_show_reasoning req)) as Hp by (unfold frame_piece; by rewrite Ek).
  rewrite <- Hp. assert (negb (bool_decide (ks ++ [k] = [])) = true) as Hb by (rewrite bool_decide_eq_false_2; [done|by destruct ks]).
  destruct (str_is_empty (frame_piece k)) eqn:Ep.
  - eexists. split; [done|]. assert (frame_piece k = "") as Hz by (by destruct (frame_piece k)). split; cbn.
    + by rewrite pieces_snoc, Hz, str_app_nil.
    + rewrite count_snoc, Ep. lia.
    + by rewrite usage_snoc, <- Ht.
    + done.
    + by rewrite Hd.
    + done.
    + rewrite map_app, existsb_app, Hs. cbn. by rewrite Hz.
  - unfold push_piece. cbn [ch_out frame_head o_content]. rewrite Hc. destruct (Z.ltb_spec MAX_CONTENT_BYTES (len (answer_text ks) + len (frame_piece k))).
    { unfold len in *. rewrite str_length_app in Hl. lia. }
    eexists. split; [done|]. split; cbn.
    + by rewrite pieces_snoc.
    + rewrite count_snoc, Ep, Hn. lia.
    + by rewrite usage_snoc, <- Ht.
    + done.
    + by rewrite Hd.
    + done.
    + rewrite map_app, existsb_app, Hs. cbn. by rewrite orb_false_r.
Qed.
Lemma frame_line_read m d at_ ks us s p k : reading m d ks us s -> frame_ok p k ->
  checked_line (chat_fail limit ErrDecode) (chat_line c req sink start telemetry limit at_) s (frame_line p) =
  if d then Go (with_tokens s (merge_opt (ch_tokens s) (sk_usage k))) else chat_chunk c req sink start telemetry limit at_ s k.
Proof.
  intros Hr (Htr & Hne & Hnd & Hnl & Hu & Hl & v & Hv & He & Hk). unfold checked_line. assert (len (frame_line p) = len p + 6) as Hlen.
  { unfold len, frame_line. rewrite str_length_app. cbn. lia. }
  destruct (Z.ltb_spec MAX_LINE_BYTES (len (frame_line p))); [lia|]. change (utf8_valid (frame_line p)) with (utf8_valid p). rewrite Hu.
  unfold chat_line. assert (trim (frame_line p) = frame_line p) as ->.
  { apply (proj1 (trimmed_trim _)). apply (trimmed_app "data: " p); [done|done|done|apply Htr]. }
  change (strip_prefix "data:" (frame_line p)) with (Some (String " " p)). cbn [option_map]. rewrite trim_blank_left by done.
  rewrite (proj1 (trimmed_trim p) Htr), bool_decide_eq_false_2 by done. rewrite (rd_done _ _ _ _ _ Hr). destruct d.
  - unfold post_finish_frame, parsed. rewrite Hv. unfold error_frame. by rewrite He; cbn; rewrite Hk.
  - unfold chat_frame. rewrite Hv. unfold error_frame. by rewrite He; cbn; rewrite Hk.
Qed.

Lemma one_frame at_ p r s s' : str_has newline p = false ->
  checked_line (chat_fail limit ErrDecode) (chat_line c req sink start telemetry limit at_) s (frame_line p) = Go s' ->
  lines_at at_ "" ((frame_line p +:+ lf +:+ lf) +:+ r) s = lines_at at_ "" r s'.
Proof.
  intros Hn Hl. rewrite !str_app_assoc. rewrite drain_line by (unfold frame_line; by rewrite str_has_app). rewrite Hl.
  change (lf +:+ r) with ("" +:+ lf +:+ r). by rewrite drain_line.
Qed.
Lemma text_len_app a b : len (a +:+ b) = len a + len b.
Proof. unfold len. rewrite str_length_app. lia. Qed.
Lemma pieces_len_prefix a b : len (answer_text a) <= len (answer_text (a ++ b)).
Proof. unfold answer_text. rewrite map_app, text_of_app, text_len_app. unfold len. lia. Qed.
Lemma answer_frames m at_ r ps ks : Forall2 frame_ok ps ks -> forall pre us s,
  Forall (answer_frame m) ks -> Forall (fun k => finishes k = false) ks -> reading m false pre us s -> len (answer_text (pre ++ ks)) <= MAX_CONTENT_BYTES ->
  exists s', lines_at at_ "" (sse_frames ps +:+ r) s = lines_at at_ "" r s' /\ reading m false (pre ++ ks) (us ++ ks) s'.
Proof.
  induction 1 as [|p k ps ks Hp Hps IH]; intros pre us s Ha Hf Hr Hl.
  - exists s. by rewrite !app_nil_r.
  - apply Forall_cons in Ha as [Hk Ha]. apply Forall_cons in Hf as [Hu Hf]. rewrite (cons_middle k pre ks), app_assoc in Hl.
    pose proof (pieces_len_prefix (pre ++ [k]) ks). destruct (answer_step m at_ pre us s k Hr Hk ltac:(lia)) as (s1 & Hs1 & Hr1).
    rewrite Hu in Hr1. destruct (IH (pre ++ [k]) (us ++ [k]) s1 Ha Hf Hr1 Hl) as (s2 & Hs2 & Hr2). exists s2.
    rewrite (cons_middle k pre ks), (cons_middle k us ks), !app_assoc. split; [|done]. rewrite <- Hs2. unfold sse_frames.
    cbn [map text_of foldr]. rewrite str_app_assoc. apply one_frame; [apply Hp|]. by rewrite (frame_line_read m false at_ pre us s p k Hr Hp).
Qed.
Lemma after_frames m at_ r ps ts : Forall2 frame_ok ps ts -> forall ks us s, reading m true ks us s ->
  exists s', lines_at at_ "" (sse_frames ps +:+ r) s = lines_at at_ "" r s' /\ reading m true ks (us ++ ts) s'.
Proof.
  induction 1 as [|p k ps ts Hp Hps IH]; intros ks us s Hr.
  - exists s. by rewrite !app_nil_r.
  - set (s1 := with_tokens s (merge_opt (ch_tokens s) (sk_usage k))). assert (reading m true ks (us ++ [k]) s1) as Hr1.
    { destruct Hr. split; [done|done| |done|done|done|done]. rewrite usage_snoc. cbn. by rewrite rd_tokens0. }
    destruct (IH ks (us ++ [k]) s1 Hr1) as (s2 & Hs2 & Hr2). exists s2. rewrite (cons_middle k us ts), app_assoc. split; [|done].
    rewrite <- Hs2. unfold sse_frames. cbn [map text_of foldr]. rewrite str_app_assoc. apply one_frame; [apply Hp|].
    by rewrite (frame_line_read m true at_ ks us s p k Hr Hp).
Qed.
Lemma marker_read at_ s : lines_at at_ "" (frame_line "[DONE]" +:+ lf) s = Halted (mark_done s) "".
Proof. rewrite <- (str_app_nil lf). by rewrite drain_line. Qed.
Lemma solid_text ss : solid (text_of ss) = existsb solid ss.
Proof. induction ss as [|x ss IH]; [done|]. cbn [text_of foldr existsb]. rewrite solid_app. f_equal. exact IH. Qed.
Lemma start_reading m : says m (tm_response_model telemetry) -> reading m false [] [] (chat_start telemetry).
Proof. by intros Hm; split. Qed.

Lemma frames_cons p qs r : sse_frames (p :: qs) +:+ r = (frame_line p +:+ lf +:+ lf) +:+ sse_frames qs +:+ r.
Proof. unfold sse_frames. cbn [map text_of foldr]. by rewrite str_app_assoc. Qed.
Lemma body_read m at_ ps p qs ks k ts : says m (tm_response_model telemetry) ->
  Forall2 frame_ok ps ks -> frame_ok p k -> Forall2 frame_ok qs ts ->
  Forall (answer_frame m) (ks ++ [k]) -> Forall (fun x => finishes x = false) ks -> qs = [] \/ finishes k = true ->
  len (answer_text (ks ++ [k])) <= MAX_CONTENT_BYTES ->
  exists s', lines_at at_ "" (sse_body (ps ++ p :: qs)) (chat_start telemetry) = Halted (mark_done s') "" /\
    reading m (finishes k) (ks ++ [k]) (ks ++ k :: ts) s'.
Proof.
  intros Hm Hps Hp Hqs Ha Hf Hq Hc. apply Forall_app in Ha as [Ha [Hk _]%Forall_cons]. unfold sse_body.
  assert (forall r, sse_frames (ps ++ p :: qs) +:+ r = sse_frames ps +:+ sse_frames (p :: qs) +:+ r) as ->.
  { intros r. unfold sse_frames. by rewrite map_app, text_of_app, str_app_assoc. }
  pose proof (pieces_len_prefix ks [k]).
  destruct (answer_frames m at_ (sse_frames (p :: qs) +:+ frame_line "[DONE]" +:+ lf) ps ks Hps [] [] _ Ha Hf (start_reading m Hm)
    ltac:(cbn [app]; lia)) as (s1 & -> & Hr1). cbn [app] in Hr1.
  destruct (answer_step m at_ ks ks s1 k Hr1 Hk Hc) as (s2 & Hs2 & Hr2).
  rewrite frames_cons, (one_frame at_ p _ s1 s2); [|apply Hp|by rewrite (frame_line_read m false at_ ks ks s1 p k Hr1 Hp)].
  rewrite (cons_middle k ks ts), app_assoc. destruct Hq as [->|Hfin].
  - inversion Hqs; subst. exists s2. rewrite app_nil_r. split; [|done]. apply marker_read.
  - rewrite Hfin in *. destruct (after_frames m at_ (frame_line "[DONE]" +:+ lf) qs ts Hqs _ _ _ Hr2) as (s3 & -> & Hr3).
    exists s3. by rewrite marker_read.
Qed.
Lemma finish_read m d ks us s : reading m d ks us s -> ks <> [] -> solid (answer_text ks) = true ->
  exists r, finish (mark_done s) "" = Ok r /\ cr_content r = answer_text ks /\ o_content (ch_out s) = answer_text ks /\
    mkTokens (cr_prompt r) (cr_completion r) (cr_cached r) (cr_miss r) = usage_of us /\ cr_tokens_out r = default (chunk_count ks) (cr_completion r).
Proof.
  intros [Hc Hn Ht Hm Hd Hx Hs] Hne Hsol. unfold chat_finish. cbn [mark_done ch_done ch_saw_choice ch_saw_content negb andb].
  rewrite Hx, bool_decide_eq_false_2 by done. unfold answer_text in Hsol. rewrite solid_text in Hsol. rewrite Hs, Hsol. cbn [negb].
  eexists. split; [done|]. cbn. rewrite Hc, Hn, Ht. split; [done|]. split; [done|]. by destruct (usage_of us).
Qed.

(** * Theorems *)

(** How a body is cut into chunks does not matter: chunks that arrive at one
    instant, in time and within the ceiling of a response, are read as their
    concatenation would be, whatever follows. *)
Theorem chunking_exact bs top at_ tail : in_time top -> len (text_of bs) <= MAX_RESPONSE_BYTES ->
  consume_stream show_duration c req sink start telemetry limit (map (chunk_at top at_) bs ++ tail) =
  consume_stream show_duration c req sink start telemetry limit (chunk_at top at_ (text_of bs) :: tail).
Proof.
  intros Hin Hl. unfold consume_stream. change (chunk_at top at_ (text_of bs) :: tail) with (map (chunk_at top at_) [text_of bs] ++ tail).
  rewrite !run_chunks by (done || (cbn; rewrite ?str_app_nil; done)). cbn [text_of foldr]. by rewrite str_app_nil.
Qed.

(** A body of well-formed frames, however it is cut, is read back: the
    content is the pieces of the answer frames in order and is what the sink
    was given, and the counts are those the frames say, the last one first;
    frames after the one that finishes add usage and no text. *)
Theorem frames_read_back m bs top at_ tail ps p qs ks k ts :
  in_time top -> says m (tm_response_model telemetry) ->
  Forall2 frame_ok ps ks -> frame_ok p k -> Forall2 frame_ok qs ts ->
  Forall (answer_frame m) (ks ++ [k]) -> Forall (fun x => finishes x = false) ks -> qs = [] \/ finishes k = true ->
  len (answer_text (ks ++ [k])) <= MAX_CONTENT_BYTES -> solid (answer_text (ks ++ [k])) = true ->
  text_of bs = sse_body (ps ++ p :: qs) -> len (text_of bs) <= MAX_RESPONSE_BYTES ->
  exists r o, consume_stream show_duration c req sink start telemetry limit (map (chunk_at top at_) bs ++ tail) = Finished (Ok r) o /\
    cr_content r = answer_text (ks ++ [k]) /\ o_content o = cr_content r /\
    mkTokens (cr_prompt r) (cr_completion r) (cr_cached r) (cr_miss r) = usage_of (ks ++ k :: ts) /\
    cr_tokens_out r = default (chunk_count (ks ++ [k])) (cr_completion r).
Proof.
  intros Hin Hm Hps Hp Hqs Ha Hf Hq Hc Hs Hb Hl. unfold consume_stream.
  rewrite run_chunks by (done || unfold len; cbn; lia). rewrite Hb.
  destruct (body_read m at_ ps p qs ks k ts Hm Hps Hp Hqs Ha Hf Hq Hc) as (s & -> & Hr).
  destruct (finish_read m _ _ _ s Hr ltac:(by destruct ks) Hs) as (r & -> & Hcr & Ho & Hrest).
  exists r, (ch_out (mark_done s)). split; [done|]. split; [done|]. split; [by rewrite Hcr|done].
Qed.
End Frames.

(** ** Concrete streams *)

(** A codec that knows a few payloads. *)
Definition content_frame (content reasoning finish : option string) : StreamChunk :=
  mkStreamChunk (Some "m") [mkStreamChoice (mkDelta content reasoning None) finish] None.
Definition usage_frame : StreamChunk :=
  mkStreamChunk None [] (Some (mkUsage (Some 7) (Some 2) None (Some 5) None None)).
Definition usage_entry (n : Z) : Value := Object [("cache_read_input_tokens", Number (Some n))].
Definition known_values : list (string * Value) :=
  [("start", Object [("message", Object [("usage", usage_entry 100)])]); ("text", Object [("delta", Object [("text", Str "hi")])]);
   ("last", Object [("usage", usage_entry 100)]); ("blank", Object [("delta", Object [("text", Str " ")])]); ("stop", Object []);
   ("null-error", Object [("error", Null)])].
Definition known_chunks : list (string * StreamChunk) :=
  [("one", content_frame (Some "Hello, ") None None); ("two", content_frame (Some "world") None (Some "stop")); ("usage", usage_frame);
   ("finish", content_frame None None (Some "stop")); ("null-error", content_frame (Some "Hello") None None)].
Fixpoint known {A} (k : string) (l : list (string * A)) : option A :=
  match l with [] => None | (k', v) :: r => if bool_decide (k = k') then Some v else known k r end.
#[local] Instance table_codec : Codec := {
  from_str p := match known p known_values with
                | Some v => Ok v
                | None => match known p known_chunks with Some _ => Ok (Str p) | None => Err "unknown" end
                end;
  to_string v := "null";
  as_chunk v := match v with
                | Str p => match known p known_chunks with Some k => Ok k | None => Err "unknown" end
                | _ => Err "unknown"
                end;
  decode_completion _ := Err "unknown";
  decode_anthropic _ := Err "unknown";
  decode_responses _ := Err "unknown";
  utf8_error _ := "invalid"
}.
Definition no_telemetry : CallTelemetry := mkCallTelemetry None None None None None None None (Some 10) None.
Definition chat_client : OpenAiProvider := plain_client "openai-chat" AuthNone true.
Definition chat_of (bs : list string) (tail : list Feed) : Progress :=
  consume_stream (fun _ => "") chat_client (plain_request true) true 0 no_telemetry false (map (chunk_at 5 6) bs ++ tail).

Lemma chunking_exact_witness :
  in_time chat_client 0 5 /\ len (text_of ["data: o"; "ne"; lf]) <= MAX_RESPONSE_BYTES /\
  chat_of ["data: o"; "ne"; lf] [] = chat_of ["data: one" +:+ lf] [].
Proof.
  assert (in_time chat_client 0 5) as Hin by (split; [done|by intros ft [=]]). split; [done|]. split; [done|].
  apply (chunking_exact (fun _ => "") chat_client (plain_request true) true 0 no_telemetry false ["data: o"; "ne"; lf] 5 6 [] Hin). done.
Defined.

Lemma frame_ok_known p k : trimmed p -> p <> "" -> p <> "[DONE]" -> str_has newline p = false -> utf8_valid p = true -> len p + 6 <= MAX_LINE_BYTES ->
  known p known_values = None -> known p known_chunks = Some k -> frame_ok p k.
Proof.
  intros Ht Hn Hd Hl Hu Hb Hv Hk. do 6 (split; [done|]). exists (Str p). unfold from_str, as_chunk, table_codec.
  by rewrite Hv, Hk.
Qed.
Lemma frames_read_back_witness :
  exists r o, chat_of [sse_body ["one"; "two"; "usage"]] [] = Finished (Ok r) o /\ cr_content r = "Hello, world" /\ o_content o = cr_content r /\
    mkTokens (cr_prompt r) (cr_completion r) (cr_cached r) (cr_miss r) = mkTokens (Some 7) (Some 2) (Some 5) None /\
    cr_tokens_out r = default 2 (cr_completion r).
Proof.
  apply (frames_read_back (fun _ => "") chat_client (plain_request true) true 0 no_telemetry false "m" [sse_body ["one"; "two"; "usage"]] 5 6 []
    ["one"] "two" ["usage"] [content_frame (Some "Hello, ") None None] (content_frame (Some "world") None (Some "stop")) [usage_frame]).
  - split; [done|by intros ft [=]].
  - by left.
  - constructor; [|done]. by apply frame_ok_known.
  - by apply frame_ok_known.
  - constructor; [|done]. by apply frame_ok_known.
  - repeat constructor; done.
  - by repeat constructor.
  - by right.
  - done.
  - done.
  - done.
  - done.
Defined.

(** With notices on, a stream that finished and never generated is not ended
    by its grace: the wait is zero and the reader turns without an end. *)
Definition noticed_client : OpenAiProvider :=
  mkClient "https://api.x.com" "openai-chat" None AuthNone "x" "x" "default" None (120 * NS) (25 * NS) None None true (Some (30 * NS)) None None.
Example finish_without_generation_spins n :
  wait_step noticed_client 0 false (Some (2 * NS)) (3 * NS) = 0 /\
  consume_stream (fun _ => "") noticed_client (plain_request true) true 0 no_telemetry false
    (chunk_at 5 6 (frame_line "finish" +:+ lf) :: repeat (mkFeed (3 * NS) (3 * NS) Elapsed) n) = Running no_output.
Proof.
  split; [by vm_compute|]. unfold consume_stream. cbn [chat_run]. rewrite pull_chunk by (split; [done|by intros ft [=]]).
  set (d := drain _ _ _ _). vm_compute in d. subst d. cbn [intake].
  induction n as [|n IH]; [by vm_compute|]. exact IH.
Qed.

(** A frame whose [error] is null fails the call. *)
Example null_error_fails :
  match chat_of [sse_body ["null-error"]] [] with Finished (Err e) _ => pe_message e = "provider stream error: null" | _ => False end.
Proof. by vm_compute. Qed.

(** Anthropic: the cached tokens of the start and of the last delta, which
    counts from the start, are added. *)
Definition anthropic_of (bs : list string) : Progress :=
  consume_stream_anthropic (fun _ => "") (plain_client "anthropic" AuthNone true) true 0 no_telemetry (map (chunk_at 5 6) bs).
Definition event_line (event payload : string) : string := "event: " +:+ event +:+ lf +:+ frame_line payload +:+ lf +:+ lf.
Definition hi_events : string :=
  event_line "message_start" "start" +:+ event_line "content_block_delta" "text" +:+ event_line "message_delta" "last".
Example cached_tokens_added :
  match anthropic_of [hi_events +:+ event_line "message_stop" "stop"] with Finished (Ok r) _ => cr_cached r = Some 200 | _ => False end.
Proof. by vm_compute. Qed.
(** A stream of blanks is an answer. *)
Example blank_stream_succeeds :
  match anthropic_of [event_line "content_block_delta" "blank" +:+ event_line "message_stop" "stop"] with
  | Finished (Ok r) _ => solid (cr_content r) = false
  | _ => False
  end.
Proof. by vm_compute. Qed.
(** Whether an unfinished line after the last event fails the call depends on
    how the bytes arrive. *)
Example anthropic_tail_chunking :
  let body := hi_events +:+ event_line "message_stop" "stop" in
  match anthropic_of [body +:+ ": bye"], anthropic_of [body; ": bye"] with
  | Finished (Err e) _, Finished (Ok r) _ => pe_message e = "stream ended with an incomplete SSE frame" /\ cr_content r = "hi"
  | _, _ => False
  end.
Proof. by vm_compute. Qed.
(** A frame whose content is the empty string hides its reasoning. *)
Example empty_content_hides_reasoning : pick_text (Some "") (Some "thinking") None true = "".
Proof. by vm_compute. Qed.
