(* ===== verification/ProviderCall.v ===== *)
(** One call to a provider (crates/zoder-core/src/provider.rs): the reading
    of a whole body, the three answers it may hold, the response headers, the
    HTTP failures, and the call that puts them together under one deadline.

    What the transport does is an argument; the records the call leaves in
    the utilization and quota stores are the list of its effects, in order. *)
From stdpp Require Import gmap strings.
From S2P Require Import Prelude F64 Numbers Clock Text Json Config Health ProviderWire Minimax ProviderStream.
Local Open Scope string_scope.
Local Open Scope Z_scope.
Local Open Scope list_scope.

(** ** Headers *)

(** [hdr name] is the value of a header that is visible ASCII. *)
Definition header_f64 (hdr : string -> option string) (k : string) : option f64 := hdr k ≫= (fun v => parse_f64_std (trim v)).
Definition header_i64 (hdr : string -> option string) (k : string) : option Z := hdr k ≫= (fun v => parse_i64_std (trim v)).
Definition telemetry_from_headers (hdr : string -> option string) : CallTelemetry :=
  mkCallTelemetry (hdr "x-litellm-model-id") None (hdr "x-litellm-model-api-base") (header_i64 hdr "x-litellm-attempted-fallbacks")
    (header_f64 hdr "x-litellm-response-cost-original") (header_f64 hdr "x-litellm-response-duration-ms")
    (header_f64 hdr "x-litellm-key-spend") None None.
Definition served_by (t : CallTelemetry) (headers_ms : Z) (url : string) : CallTelemetry :=
  mkCallTelemetry (tm_served_model t) (tm_response_model t) (or_opt (tm_api_base t) (Some url)) (tm_attempted_fallbacks t) (tm_cost_usd t)
    (tm_duration_ms t) (tm_key_spend t) (Some headers_ms) (tm_first_token_ms t).

Section Call.
Context `{Codec}.
Variable show_duration : Z -> string.
Variable c : OpenAiProvider.
Variable req : ChatRequest.

(** ** A whole body *)

Definition body_too_long (label : string) : ProviderError :=
  provider_error ErrDecode (label +:+ " exceeded 16777216 byte response ceiling").
Definition body_timeout (label : string) : ProviderError := provider_error ErrTimeout ("request timeout reading " +:+ label).
(** [None] while the feeds are used up and the body is not over. *)
Fixpoint read_body (label : string) (by_ : Z) (body : string) (feeds : list Feed) : option (result string ProviderError) :=
  match feeds with
  | [] => None
  | f :: rest =>
      if by_ <=? fd_top f then Some (Err (body_timeout label))
      else match fd_read f with
      | Elapsed => Some (Err (body_timeout label))
      | Closed => Some (Ok body)
      | Broken e => Some (Err (classify_reqwest e))
      | Chunk b => if MAX_RESPONSE_BYTES <? len body + len b then Some (Err (body_too_long label)) else read_body label by_ (body +:+ b) rest
      end
  end.
Definition read_limited_body (label : string) (content_length : option Z) (start : Z) (feeds : list Feed) :
  option (result string ProviderError) :=
  match content_length with
  | Some n => if MAX_RESPONSE_BYTES <? n then Some (Err (body_too_long label)) else read_body label (start + pv_request_timeout c) "" feeds
  | None => read_body label (start + pv_request_timeout c) "" feeds
  end.

(** ** The three answers *)

Definition has_meaningful_message (x : CompletionChoice) : bool :=
  match cc_message x ≫= cm_text with Some t => solid t | None => false end.
(** The answer shown, and its result. *)
Definition shown_answer (sink : bool) (content : string) : Output := mkOutput content 0 (sink && negb (str_is_empty content)) (if sink then content else "").
Definition content_ceiling : ProviderError := provider_error ErrDecode "decoded content exceeded 8388608 byte ceiling".
Definition with_reasoning (e : ProviderError) (r : option string) : ProviderError :=
  mkProviderError (pe_message e) (pe_kind e) (pe_status e) (pe_retry_after e) (pe_emitted e) (pe_token_plan_limit e)
    (pe_token_plan_resets_at e) (pe_anthropic_error_body e) r (pe_overload e) (pe_length_exhausted e).
Definition empty_choice_error (x : CompletionChoice) (usage : option Usage) : ProviderError :=
  let reasoning := m ← cc_message x; or_opt (cm_reasoning_content m) (cm_reasoning m) in
  if bool_decide (cc_finish_reason x = Some "length") then
    let usage := opt_filter is_meaningful usage in
    with_reasoning (with_length (provider_error ErrTruncation (empty_length_message req))
                      (mkEmptyLength (usage ≫= us_prompt_tokens) (usage ≫= us_completion_tokens))) reasoning
  else with_reasoning (provider_error ErrDecode "malformed chat-completion response: empty completion choice/message") reasoning.
Definition chat_answer (sink : bool) (t : CallTelemetry) (body : string) : result ChatResult ProviderError * Output :=
  match decode_completion body with
  | Err e => (Err (provider_error ErrDecode ("malformed chat-completion response: " +:+ e)), no_output)
  | Ok k =>
      match cp_choices k with
      | [] => (Err (provider_error ErrDecode "malformed chat-completion response: no completion choices"), no_output)
      | x :: _ =>
          match cc_message x, has_meaningful_message x with
          | Some m, true =>
              let content := default "" (cm_text m) in
              if MAX_CONTENT_BYTES <? len content then (Err content_ceiling, no_output)
              else
                let tokens := merge_opt no_tokens (cp_usage k) in
                (Ok (mkChatResult content (or_opt (cm_reasoning_content m) (cm_reasoning m)) (default 0 (k_completion tokens))
                       (k_prompt tokens) (k_completion tokens) (k_cached tokens) (k_miss tokens)
                       (with_models t (cp_model k) (tm_first_token_ms t))), shown_answer sink content)
          | _, _ => (Err (empty_choice_error x (cp_usage k)), no_output)
          end
      end
  end.

(** Text blocks joined by line feeds; an empty block joins nothing. *)
Definition join_block (out text : string) : string := (if str_is_empty out then "" else out +:+ String newline "") +:+ text.
Definition anthropic_texts (r : AnthropicResponse) : list string :=
  omap (fun b => if bool_decide (ac_kind b = "text") then ac_text b else None) (ar_content r).
Definition anthropic_joined (r : AnthropicResponse) : string := foldl join_block "" (anthropic_texts r).
Definition has_meaningful_text (r : AnthropicResponse) : bool := existsb solid (anthropic_texts r).
Definition anthropic_cached (u : option AnthropicUsage) : option Z :=
  match u ≫= au_cache_read, u ≫= au_cache_creation with
  | Some read, Some create => Some (u64_sat_add read create)
  | Some read, None => Some read
  | None, create => create
  end.
Definition consume_full_anthropic (sink : bool) (t : CallTelemetry) (body : string) : result ChatResult ProviderError * Output :=
  match decode_anthropic body with
  | Err e => (Err (provider_error ErrDecode ("malformed anthropic response: " +:+ e)), no_output)
  | Ok r =>
      if negb (has_meaningful_text r) then (Err (provider_error ErrDecode "malformed anthropic response: empty content"), no_output)
      else
        let content := anthropic_joined r in
        if MAX_CONTENT_BYTES <? len content then (Err content_ceiling, no_output)
        else (Ok (mkChatResult content None (default 0 (ar_usage r ≫= au_output_tokens)) (ar_usage r ≫= au_input_tokens)
                    (ar_usage r ≫= au_output_tokens) (anthropic_cached (ar_usage r)) None
                    (with_models t (ar_model r) (tm_first_token_ms t))), shown_answer sink content)
  end.

Definition item_texts (i : ResponsesOutputItem) : list string :=
  if bool_decide (ro_kind i = Some "message") && (match ro_role i with Some r => bool_decide (r = "assistant") | None => true end)
  then omap (fun b => if bool_decide (rc_kind b = Some "output_text") then rc_text b else None) (ro_content i)
  else [].
Definition responses_joined (r : ResponsesResponse) : string := foldl join_block "" (concat (map item_texts (rr_output r))).
Definition consume_full_responses (sink : bool) (t : CallTelemetry) (token_plan_limit : bool) (observed_reset : option Z) (body : string) :
  result ChatResult ProviderError * Output :=
  let plan := token_plan_limit || is_token_plan_limit_error parsed body in
  match decode_responses body with
  | Err e => (Err (let err := provider_error ErrDecode ("malformed responses response: " +:+ e) in
                   if plan then mkProviderError (pe_message err) ErrDecode None None false true observed_reset None None false None else err),
              no_output)
  | Ok r =>
      let content := responses_joined r in
      if negb (solid content) then (Err (provider_error ErrDecode "malformed responses response: empty output text"), no_output)
      else if MAX_CONTENT_BYTES <? len content then (Err content_ceiling, no_output)
      else (Ok (mkChatResult content None (default 0 (rr_usage r ≫= ru_output_tokens)) (rr_usage r ≫= ru_input_tokens)
                  (rr_usage r ≫= ru_output_tokens) None None (with_models t (rr_model r) (tm_first_token_ms t))), shown_answer sink content)
  end.
Definition body_label : string := if is_anthropic c then "anthropic message" else if is_responses c then "responses message" else "chat completion".
Definition consume_full (sink : bool) (t : CallTelemetry) (token_plan_limit : bool) (observed_reset : option Z)
  (content_length : option Z) (start : Z) (feeds : list Feed) : Progress :=
  match read_limited_body body_label content_length start feeds with
  | None => Running no_output
  | Some (Err e) => Finished (Err e) no_output
  | Some (Ok body) =>
      let '(r, o) := if is_anthropic c then consume_full_anthropic sink t body
                     else if is_responses c then consume_full_responses sink t token_plan_limit observed_reset body
                     else chat_answer sink t body in
      Finished r o
  end.
Definition consume_any_stream (sink : bool) (start : Z) (t : CallTelemetry) (token_plan_limit : bool) (observed_reset : option Z)
  (feeds : list Feed) : Progress :=
  if is_anthropic c then consume_stream_anthropic show_duration c sink start t feeds
  else if is_responses c then consume_stream_responses show_duration c sink start t token_plan_limit observed_reset feeds
  else consume_stream show_duration c req sink start t token_plan_limit feeds.

(** ** The call *)

Record Response := mkResponse {
  rs_status : Z;
  rs_status_text : string;
  rs_header : string -> option string;
  rs_retry_after : option Z;
  rs_content_length : option Z;
  rs_headers_at : Z;
  rs_feeds : list Feed
}.
Inductive SendOutcome := Responded (r : Response) | SendFailed (e : TransportError) | SendElapsed.
Inductive Effect := CaptureHeaders | ObserveWall | CaptureCounter (prompt completion : option Z).

Definition status_kind (code : Z) : ErrKind :=
  if code =? 429 then ErrRateLimit else if (500 <=? code) && (code <=? 599) then ErrServer else ErrHttp.
Definition status_ok (code : Z) : bool := (200 <=? code) && (code <=? 299).
Definition overload_status (code : Z) : bool := (code =? 503) || (code =? 529).
Definition error_body (r : option (result string ProviderError)) : option string :=
  (fun r => match r with Ok b => b | Err e => "[" +:+ pe_message e +:+ "]" end) <$> r.
Definition http_error (r : Response) (body : string) (observed_reset : option Z) : ProviderError * list Effect :=
  let code := rs_status r in
  let wall := (code =? 429) && is_token_plan_limit_error parsed body in
  (mkProviderError ("provider HTTP " +:+ rs_status_text r +:+ ": " +:+ redact body) (status_kind code) (Some code) (rs_retry_after r) false wall
     (if wall then observed_reset else None) None None (overload_status code) None,
   if wall then [ObserveWall] else []).
Definition call_effects (p : Progress) : list Effect :=
  match p with
  | Finished (Ok r) _ => [CaptureCounter (cr_prompt r) (cr_completion r)]
  | Finished (Err e) _ => if effective_stream c req && pe_token_plan_limit e then [ObserveWall] else []
  | Running _ => []
  end.
(** [stream_chat_inner]; [sent_at] is the clock when the request is sent. *)
Definition stream_chat_inner (sink : bool) (sent_at : Z) (sent : SendOutcome) (observed_reset : option Z) : Progress * list Effect :=
  match sent with
  | SendFailed e => (Finished (Err (classify_reqwest e)) no_output, [])
  | SendElapsed =>
      (Finished (Err (provider_error ErrTimeout ("request timeout: no response in " +:+ show_duration (pv_request_timeout c)))) no_output, [])
  | Responded r =>
      let t := served_by (telemetry_from_headers (rs_header r)) ((rs_headers_at r - sent_at) / ns_per_ms) (pv_base_url c) in
      if negb (status_ok (rs_status r)) then
        match error_body (read_limited_body "HTTP error body" (rs_content_length r) (rs_headers_at r) (rs_feeds r)) with
        | None => (Running no_output, [CaptureHeaders])
        | Some body => let '(e, eff) := http_error r body observed_reset in (Finished (Err e) no_output, CaptureHeaders :: eff)
        end
      else
        let p := if effective_stream c req then consume_any_stream sink (rs_headers_at r) t false observed_reset (rs_feeds r)
                 else consume_full sink t false observed_reset (rs_content_length r) (rs_headers_at r) (rs_feeds r) in
        (p, CaptureHeaders :: call_effects p)
  end.
(** [stream_chat]: a call that is not over by the request budget is dropped. *)
Definition overall_timeout (o : Output) : ProviderError :=
  with_emitted (provider_error ErrTimeout ("request timeout after " +:+ show_duration (pv_request_timeout c) +:+ " (headers and body combined)"))
    (negb (str_is_empty (o_sunk o))).
Definition stream_chat (p : Progress) : result ChatResult ProviderError * Output :=
  match p with Finished r o => (r, o) | Running o => (Err (overall_timeout o), o) end.

(** [list_models], with the list a body decodes to. *)
Definition models_kind (code : Z) : ErrKind :=
  if code =? 429 then ErrRateLimit else if (500 <=? code) && (code <=? 599) then ErrServer else ErrHttp.
Definition model_ids (v : Value) : list string :=
  omap (fun m => value_get_str m "id") (default [] (value_get v "data" ≫= value_as_array)).
Definition list_models (sent : SendOutcome) : option (result (list string) ProviderError) :=
  if is_azure c then Some (Err (provider_error ErrHttp
    "list_models not supported for azure-openai (deployment-scoped base_url has no /models route; configure model_ids instead)"))
  else match sent with
  | SendFailed e => Some (Err (classify_reqwest e))
  | SendElapsed => Some (Err (provider_error ErrTimeout "models list timeout"))
  | Responded r =>
      if negb (status_ok (rs_status r)) then
        Some (Err (mkProviderError ("models HTTP " +:+ rs_status_text r) (models_kind (rs_status r)) (Some (rs_status r)) (rs_retry_after r)
                     false false None None None (overload_status (rs_status r)) None))
      else (fun b => match b with
                     | Err e => Err e
                     | Ok body => match from_str body with
                                  | Err t => Err (provider_error ErrDecode ("malformed models list: " +:+ t))
                                  | Ok v => Ok (model_ids v)
                                  end
                     end) <$> read_limited_body "models list" (rs_content_length r) (rs_headers_at r) (rs_feeds r)
  end.

(** * Theorems *)

(** An answer and what was shown of it: an error says whether anything was. *)
Definition answered_ok (sink : bool) (a : result ChatResult ProviderError * Output) : Prop :=
  match a with
  | (Ok r, o) => o_sunk o = (if sink then cr_content r else "") /\ str_is_empty (cr_content r) = false /\ len (cr_content r) <= MAX_CONTENT_BYTES
  | (Err e, o) => pe_emitted e = negb (str_is_empty (o_sunk o))
  end.
Definition call_ok (sink : bool) (p : Progress) : Prop := answered_ok sink (stream_chat p).

Lemma wordy_nonempty s : wordy s = true -> str_is_empty s = false.
Proof. unfold wordy. by destruct (str_is_empty s). Qed.
Lemma solid_nonempty s : solid s = true -> str_is_empty s = false.
Proof. by destruct s. Qed.
Lemma progress_call sink good p : (forall s, good s = true -> str_is_empty s = false) -> progress_ok sink good p -> call_ok sink p.
Proof.
  intros Hg. destruct p as [o|[r|e] o]; cbn; [done| |].
  - intros ((He & Hs & Hl) & Hc & Hr). rewrite Hc. split; [done|]. rewrite <- Hc. split; [by apply Hg|by rewrite Hc].
  - intros [(He & _ & _) Hr]. by rewrite Hr.
Qed.
Lemma consume_any_stream_ok sink start t limit reset feeds : call_ok sink (consume_any_stream sink start t limit reset feeds).
Proof.
  unfold consume_any_stream. destruct (is_anthropic c); [|destruct (is_responses c)].
  - apply (progress_call sink wordy); [apply wordy_nonempty|]. apply wire_run_ok; [apply anthropic_data_ok|].
    split; [apply no_output_ok|done].
  - apply (progress_call sink wordy); [apply wordy_nonempty|]. apply wire_run_ok; [intros; apply responses_data_ok|].
    split; [apply no_output_ok|done].
  - apply (progress_call sink solid); [apply solid_nonempty|]. apply chat_run_ok. split; [apply no_output_ok|done].
Qed.
Lemma shown_answer_ok sink r : str_is_empty (cr_content r) = false -> (MAX_CONTENT_BYTES <? len (cr_content r)) = false ->
  answered_ok sink (Ok r, shown_answer sink (cr_content r)).
Proof. intros Hn Hl. split; [done|]. split; [done|]. by apply Z.ltb_ge in Hl. Qed.
Lemma join_block_nonempty ts out : str_is_empty out = false \/ existsb solid ts = true -> str_is_empty (foldl join_block out ts) = false.
Proof.
  revert out. induction ts as [|t ts IH]; intros out; cbn; [by intros [?|?]|]. intros Ho. apply IH. unfold join_block.
  rewrite !str_is_empty_app. destruct Ho as [Ho|[Ho|Ho]%orb_true_iff]; [|left|by right].
  - left. by rewrite Ho, str_is_empty_app, Ho.
  - rewrite (solid_nonempty _ Ho). apply andb_false_r.
Qed.
Lemma chat_answer_ok sink t body : answered_ok sink (chat_answer sink t body).
Proof.
  unfold chat_answer. destruct (decode_completion body) as [k|]; [|done]. destruct (cp_choices k) as [|x r]; [done|].
  assert (forall u, pe_emitted (empty_choice_error x u) = false) as He by (intros u; unfold empty_choice_error; by case_match).
  destruct (cc_message x) as [m|] eqn:Em; [|cbn; by rewrite He]. destruct (has_meaningful_message x) eqn:Eh; [|cbn; by rewrite He].
  destruct (_ <? _) eqn:El; [done|]. apply (shown_answer_ok sink (mkChatResult _ _ _ _ _ _ _ _)); [|done].
  unfold has_meaningful_message in Eh. rewrite Em in Eh. cbn in *. destruct (cm_text m); [by apply solid_nonempty|done].
Qed.
Lemma anthropic_answer_ok sink t body : answered_ok sink (consume_full_anthropic sink t body).
Proof.
  unfold consume_full_anthropic. destruct (decode_anthropic body) as [r|]; [|done]. destruct (has_meaningful_text r) eqn:Em; [|done].
  destruct (_ <? _) eqn:El; [done|]. apply (shown_answer_ok sink (mkChatResult _ _ _ _ _ _ _ _)); [|done]. apply join_block_nonempty. by right.
Qed.
Lemma responses_answer_ok sink t limit reset body : answered_ok sink (consume_full_responses sink t limit reset body).
Proof.
  unfold consume_full_responses. destruct (decode_responses body) as [r|]; [|by destruct (_ || _)].
  destruct (solid _) eqn:Es; [|done]. destruct (_ <? _) eqn:El; [done|].
  apply (shown_answer_ok sink (mkChatResult _ _ _ _ _ _ _ _)); [by apply solid_nonempty|done].
Qed.
Lemma read_body_quiet label by_ body feeds e : read_body label by_ body feeds = Some (Err e) -> pe_emitted e = false.
Proof.
  revert body. induction feeds as [|f feeds IH]; intros body; cbn; [done|]. destruct (_ <=? _); [by intros [= <-]|].
  destruct (fd_read f); try by intros [= <-]. destruct (_ <? _); [by intros [= <-]|apply IH].
Qed.
Lemma read_limited_body_quiet label n start feeds e : read_limited_body label n start feeds = Some (Err e) -> pe_emitted e = false.
Proof. unfold read_limited_body. destruct n as [n|]; [destruct (_ <? _); [by intros [= <-]|]|]; apply read_body_quiet. Qed.
Lemma consume_full_ok sink t limit reset n start feeds : call_ok sink (consume_full sink t limit reset n start feeds).
Proof.
  unfold consume_full. destruct (read_limited_body _ _ _ _) as [[body|e]|] eqn:Er; [| |done].
  - unfold call_ok. destruct (is_anthropic c); [|destruct (is_responses c)].
    + pose proof (anthropic_answer_ok sink t body). by destruct (consume_full_anthropic _ _ _).
    + pose proof (responses_answer_ok sink t limit reset body). by destruct (consume_full_responses _ _ _ _ _).
    + pose proof (chat_answer_ok sink t body). by destruct (chat_answer _ _ _).
  - cbn. by rewrite (read_limited_body_quiet _ _ _ _ _ Er).
Qed.
Lemma stream_chat_inner_ok sink sent_at sent reset : call_ok sink (stream_chat_inner sink sent_at sent reset).1.
Proof.
  unfold stream_chat_inner. destruct sent as [r|e|]; [|done|done]. destruct (negb (status_ok _)).
  - destruct (error_body _) as [body|]; [|done]. by destruct (http_error _ _ _) as [e eff] eqn:Eh; unfold http_error in Eh; simplify_eq/=.
  - cbn [fst]. destruct (effective_stream _ _); [apply consume_any_stream_ok|apply consume_full_ok].
Qed.

(** Nothing that was shown is shown again, whatever the wire, the transport
    and the clock: an error that may be retried left the sink empty (and an
    error after any output says so), and a success gave the sink exactly its
    content, which is not empty and within the ceiling. *)
Theorem nothing_replayed sink sent_at sent reset :
  match stream_chat (stream_chat_inner sink sent_at sent reset).1 with
  | (Ok r, o) => o_sunk o = (if sink then cr_content r else "") /\ cr_content r <> "" /\ len (cr_content r) <= MAX_CONTENT_BYTES
  | (Err e, o) => (retryable e = true -> o_sunk o = "") /\ (pe_emitted e = true <-> o_sunk o <> "")
  end.
Proof.
  pose proof (stream_chat_inner_ok sink sent_at sent reset) as Hc. unfold call_ok, answered_ok in Hc.
  destruct (stream_chat _) as [[r|e] o].
  - destruct Hc as (Hs & Hn & Hl). split; [done|]. split; [|done]. by intros Hz; rewrite Hz in Hn.
  - unfold retryable. rewrite Hc. by destruct (o_sunk o).
Qed.
End Call.

(** A wall that arrives with a success status in a body the decoder accepts is
    an ordinary decode failure: the flag computed from the body is dropped. *)
Section Wall.
Context `{Codec}.
Example plan_wall_dropped sink t body usage :
  is_token_plan_limit_error parsed body = true -> decode_responses body = Ok (mkResponsesResponse None [] usage) ->
  match (consume_full_responses sink t false (Some 0) body).1 with Err e => pe_token_plan_limit e = false | Ok _ => False end.
Proof. intros Hw Hd. unfold consume_full_responses. by rewrite Hd. Qed.
End Wall.
