(* ===== verification/Transcripts.v ===== *)
(** Sessions of a conversation (crates/zoder-core/src/session.rs): the name of
    a transcript, its load under a size cap, the latest and the list of a
    directory, the save, the mutation under the lock of a session, and the
    acquisition of that lock.

    A directory maps the names of its files to their bytes; the JSON codec, the
    clock, the order of a listing and how each call of the file system ends are
    arguments. *)
From stdpp Require Import gmap strings sorting.
From S2P Require Import Prelude Numbers Text Config Review.
Local Open Scope string_scope.
Local Open Scope Z_scope.
Local Open Scope list_scope.
Local Open Scope zoder_scope.

Record Session := mkSession { ss_id : string; ss_created : Z; ss_updated : Z; ss_messages : list (string * string) }.
Definition MAX_TRANSCRIPT_BYTES : Z := 8 * 1024 * 1024.
Notation Dir := (gmap string string).

(** ** Names *)

Definition safe_char (c : ascii) : bool := is_ascii_alphanumeric c || Ascii.eqb c "-" || Ascii.eqb c "_".
(** A character of more than one byte becomes one [_]: that of its first
    byte. *)
Definition continuation (c : ascii) : bool := let n := Ascii.nat_of_ascii c in (128 <=? n)%nat && (n <? 192)%nat.
Fixpoint safe_id (i : string) : string :=
  match i with
  | EmptyString => EmptyString
  | String c r => if continuation c then safe_id r else String (if safe_char c then c else "_"%char) (safe_id r)
  end.
Definition file_name (i : string) : string := safe_id i +:+ ".json".
Definition lockfile_name (file : string) : string := file +:+ ".lock".
(** [Path::extension] *)
Definition extension (file : string) : option string :=
  match rsplit_once "." file with Some (stem, ext) => if str_is_empty stem then None else Some ext | None => None end.
Definition is_transcript (file : string) : bool := bool_decide (extension file = Some "json").
(** [with_extension] of a transcript's name. *)
Definition with_extension (file stamp : string) : string :=
  match rsplit_once "." file with Some (stem, _) => (if str_is_empty stem then file else stem) +:+ "." +:+ stamp | None => file +:+ "." +:+ stamp end.
Definition new_session (i : string) (now : Z) : Session := mkSession (safe_id i) now now [].

Section Store.
(** [read_text]: the bytes are UTF-8 and could be read. *)
Context (decode : string -> option Session) (encode : Session -> string) (readable : string -> bool).

(** ** Loading *)

(** The time, the process and the nonce in the name a transcript gets when it is
    moved aside, and whether the move succeeds. *)
Record Quarantine := mkQuarantine { qr_now : Z; qr_pid : Z; qr_nonce : Z; qr_moves : bool }.
Definition qr_stamp (q : Quarantine) : string := "json.oversized." +:+ show_u (qr_now q) +:+ "." +:+ show_u (qr_pid q) +:+ "." +:+ show_u (qr_nonce q).
Definition oversized (d : Dir) (file : string) : bool := match d !! file with Some bytes => MAX_TRANSCRIPT_BYTES <? len bytes | None => false end.
Definition quarantine_oversized (q : Quarantine) (file : string) (d : Dir) : Dir :=
  if qr_moves q then match d !! file with Some bytes => <[with_extension file (qr_stamp q) := bytes]> (delete file d) | None => d end else d.
Inductive LoadError := Unreadable | CorruptTranscript.
Definition load_or_new (q : Quarantine) (now : Z) (i : string) (d : Dir) : result Session LoadError * Dir :=
  match d !! file_name i with
  | None => (Ok (new_session i now), d)
  | Some bytes =>
      if MAX_TRANSCRIPT_BYTES <? len bytes then (Ok (new_session i now), quarantine_oversized q (file_name i) d)
      else if negb (readable bytes) then (Err Unreadable, d)
      else match decode bytes with Some s => (Ok s, d) | None => (Err CorruptTranscript, d) end
  end.

(** ** The directory *)

(** What a listing takes of an entry. *)
Definition entry_session (d : Dir) (file : string) : option Session :=
  if is_transcript file && negb (oversized d file) then bytes ← d !! file; if readable bytes then decode bytes else None else None.
Definition newer (best : option Session) (s : Session) : option Session :=
  match best with Some b => if ss_updated b <? ss_updated s then Some s else best | None => Some s end.
(** A walk of the entries: what is too large is moved aside. *)
Definition scan_entry {A} (take : A -> Session -> A) (q : string -> Quarantine) (acc : A * Dir) (file : string) : A * Dir :=
  let '(out, d) := acc in
  if is_transcript file && oversized d file then (out, quarantine_oversized (q file) file d)
  else (match entry_session d file with Some s => take out s | None => out end, d).
(** [latest] and [list]; [None] when the directory cannot be read. *)
Definition latest (q : string -> Quarantine) (listing : option (list string)) (d : Dir) : option Session * Dir :=
  match listing with None => (None, d) | Some files => foldl (scan_entry newer q) (None, d) files end.
Definition SessionRow : Type := string * Z * nat.
Definition row_of (s : Session) : SessionRow := (ss_id s, ss_updated s, length (ss_messages s)).
Definition newest_first_rows (a b : SessionRow) : comparison := Z.compare b.1.2 a.1.2.
Definition list_sessions (q : string -> Quarantine) (listing : option (list string)) (d : Dir) : list SessionRow * Dir :=
  match listing with
  | None => ([], d)
  | Some files => let '(rows, d) := foldl (scan_entry (fun out s => out ++ [row_of s]) q) ([], d) files in (sort_by newest_first_rows rows, d)
  end.
Definition push (role content : string) (s : Session) : Session := mkSession (ss_id s) (ss_created s) (ss_updated s) (ss_messages s ++ [(role, content)]).

(** ** Saving *)

(** How the calls of a save end; the first that fails ends it, and the
    temporary file is removed. *)
Record SaveEnds := mkSaveEnds { sv_mkdir : bool; sv_encode : bool; sv_create : bool; sv_write : bool; sv_sync : bool; sv_rename : bool }.
Definition touched (now : Z) (s : Session) : Session := mkSession (ss_id s) (ss_created s) now (ss_messages s).
Definition save_locked (e : SaveEnds) (now : Z) (s : Session) (d : Dir) : bool * Dir :=
  let s := touched now s in
  if sv_mkdir e && sv_encode e && sv_create e && sv_write e && sv_sync e && sv_rename e
  then (true, <[file_name (ss_id s) := encode s]> d) else (false, d).
Inductive MutateEnd := Mutated | NoDirectory | LockRefused | LoadFailed (e : LoadError) | SaveFailed.
(** [mutate_locked]; [locked] is how the acquisition ends, [loaded_at] and
    [saved_at] are the readings of the clock. *)
Definition mutate_locked (e : SaveEnds) (q : Quarantine) (mkdir locked : bool) (loaded_at saved_at : Z) (i : string) (f : Session -> Session) (d : Dir) :
  MutateEnd * Dir :=
  if negb mkdir then (NoDirectory, d)
  else if negb locked then (LockRefused, d)
  else
    let '(r, d) := load_or_new q loaded_at i d in
    match r with
    | Err err => (LoadFailed err, d)
    | Ok s => let '(ok, d) := save_locked e saved_at (f s) d in (if ok then Mutated else SaveFailed, d)
    end.
End Store.

(** ** The lock *)

Definition LOCK_TIMEOUT_MS : Z := 5000.
Definition LOCK_RETRY_MS : Z := 5.
Definition LOCK_STALE_SECS : Z := 30.
Definition ESRCH : Z := 3.
Inductive CreateEnd := Created | AlreadyThere | CreateFailed (e : string).
(** What one turn of the loop sees: how the creation ends, the age of the lock
    in seconds (nothing when it cannot be told), its size and text, the error
    of the signal that probes a process, and the time since the start. *)
Record LockTurn := mkLockTurn {
  lt_create : CreateEnd;
  lt_age : option Z;
  lt_size : option Z;
  lt_text : option string;
  lt_kill : Z -> option Z;
  lt_elapsed : Z
}.
Definition is_stale (t : LockTurn) : bool := match lt_age t with Some age => LOCK_STALE_SECS <=? age | None => false end.
Definition recorded_pid (raw : string) : option Z :=
  opt_filter (fun p => (-2147483648 <=? p) && (p <=? 2147483647)) (parse_i64_std (trim (default raw (strip_prefix "pid=" (trim raw))))).
Definition holder_pid_alive (t : LockTurn) : bool :=
  match lt_size t with
  | None => true
  | Some size =>
      if 64 <? size then true
      else match lt_text t with
           | None => true
           | Some raw =>
               match recorded_pid raw with
               | None => true
               | Some pid => if pid <=? 0 then true
                             else match lt_kill t pid with None => true | Some errno => negb (errno =? ESRCH) end
               end
           end
  end.
Inductive LockEnd := Acquired | LockTimedOut (after : Z) | LockError (e : string).
Inductive LockStep := LockBroken | LockWaited (ms : Z).
Fixpoint acquire_with_params (fuel : nat) (turn : nat -> LockTurn) (timeout_ms retry_ms : Z) (n : nat) : option (LockEnd * list LockStep) :=
  match fuel with
  | O => None
  | S fuel =>
      let t := turn n in
      match lt_create t with
      | Created => Some (Acquired, [])
      | CreateFailed e => Some (LockError e, [])
      | AlreadyThere =>
          if is_stale t && negb (holder_pid_alive t) then
            '(r, steps) ← acquire_with_params fuel turn timeout_ms retry_ms (S n); Some (r, LockBroken :: steps)
          else if timeout_ms <=? lt_elapsed t then Some (LockTimedOut timeout_ms, [])
          else '(r, steps) ← acquire_with_params fuel turn timeout_ms retry_ms (S n); Some (r, LockWaited retry_ms :: steps)
      end
  end.
Definition acquire (fuel : nat) (turn : nat -> LockTurn) : option (LockEnd * list LockStep) := acquire_with_params fuel turn LOCK_TIMEOUT_MS LOCK_RETRY_MS 0.

(** ** Theorems *)

Lemma safe_id_safe i : str_all safe_char (safe_id i) = true.
Proof.
  induction i as [|c r IH]; [done|]. cbn [safe_id]. destruct (continuation c); [done|]. cbn [str_all].
  rewrite IH, andb_true_r. by destruct (safe_char c) eqn:E.
Qed.
Lemma safe_not_continuation c : safe_char c = true -> continuation c = false.
Proof. destruct c as [[] [] [] [] [] [] [] []]; vm_compute; congruence. Qed.
Lemma safe_id_fixed i : str_all safe_char i = true -> safe_id i = i.
Proof.
  induction i as [|c r IH]; [done|]. cbn [str_all safe_id]. intros [Hc Hr]%andb_true_iff.
  by rewrite (safe_not_continuation c Hc), Hc, IH.
Qed.
Lemma str_all_no (p : ascii -> bool) c s : p c = false -> str_all p s = true -> str_has c s = false.
Proof.
  intros Hc. induction s as [|d s IH]; [done|]. cbn [str_all str_has]. intros [Hd Hs]%andb_true_iff. rewrite (IH Hs), orb_false_r.
  destruct (Ascii.eqb d c) eqn:E; [|done]. apply Ascii.eqb_eq in E as ->. congruence.
Qed.
Lemma file_name_extension i : safe_id i <> ""%string -> extension (file_name i) = Some "json".
Proof.
  intros Hi. unfold extension, file_name. change ".json"%string with (String "." "json"). rewrite rsplit_app by done.
  by destruct (safe_id i).
Qed.

(** The name of a session's transcript is a single entry of the sessions
    directory: it has neither a separator nor a dot before its extension, a
    safe name is kept as it is, and unless the name is empty the file is one
    that listing and continuing find. *)
Theorem session_names_contained i :
  str_has "/" (file_name i) = false /\
  (exists stem, file_name i = stem +:+ ".json" /\ str_has "." stem = false /\ str_all safe_char stem = true) /\
  safe_id (safe_id i) = safe_id i /\
  (str_all safe_char i = true -> file_name i = i +:+ ".json") /\
  (safe_id i <> ""%string -> is_transcript (file_name i) = true /\ is_transcript (lockfile_name (file_name i)) = false).
Proof.
  pose proof (safe_id_safe i) as Hs. split_and!.
  - unfold file_name. rewrite str_has_app. by rewrite (str_all_no safe_char "/" _ eq_refl Hs).
  - exists (safe_id i). split_and!; [done|by apply (str_all_no safe_char)|done].
  - by apply safe_id_fixed.
  - intros Hi. unfold file_name. by rewrite safe_id_fixed.
  - intros Hi. unfold is_transcript. rewrite file_name_extension by done. split; [done|].
    unfold extension, lockfile_name. change ".lock"%string with (String "." "lock"). rewrite rsplit_app by done.
    destruct (str_is_empty _); done.
Qed.

Lemma quarantine_not_transcript q file : is_transcript (with_extension file (qr_stamp q)) = false.
Proof.
  unfold is_transcript, extension, with_extension.
  assert (forall stem, rsplit_once "." (stem +:+ "." +:+ qr_stamp q) = Some (stem +:+ "." +:+ "json.oversized." +:+ show_u (qr_now q) +:+ "." +:+ show_u (qr_pid q), show_u (qr_nonce q))) as H.
  { intros stem. unfold qr_stamp.
    replace (stem +:+ "." +:+ "json.oversized." +:+ show_u (qr_now q) +:+ "." +:+ show_u (qr_pid q) +:+ "." +:+ show_u (qr_nonce q))%string
      with ((stem +:+ "." +:+ "json.oversized." +:+ show_u (qr_now q) +:+ "." +:+ show_u (qr_pid q)) +:+ String "." (show_u (qr_nonce q)))%string
      by (rewrite !str_app_assoc; done).
    apply rsplit_app. by apply no_char_in_digits. }
  assert (Some (show_u (qr_nonce q)) <> Some "json"%string) as Hd.
  { intros [= E]. pose proof (show_u_all_digits (qr_nonce q)) as Ha. by rewrite E in Ha. }
  destruct (rsplit_once "." file) as [[stem ext]|].
  - destruct (str_is_empty stem); rewrite H; destruct (str_is_empty _); rewrite bool_decide_eq_false; done.
  - rewrite H. destruct (str_is_empty _); rewrite bool_decide_eq_false; done.
Qed.

Section StoreTheorems.
Context (decode : string -> option Session) (encode : Session -> string) (readable : string -> bool).
Local Abbreviation load := (load_or_new decode readable).
Local Abbreviation mutate := (mutate_locked decode encode readable).
Definition all_good : SaveEnds := mkSaveEnds true true true true true true.
(** The codec reads a session back, and it fits under the cap. *)
Definition codec_ok (s : Session) : Prop := decode (encode s) = Some s /\ readable (encode s) = true /\ len (encode s) <= MAX_TRANSCRIPT_BYTES.

Lemma load_stored q now i d s : codec_ok s -> d !! file_name i = Some (encode s) -> load q now i d = (Ok s, d).
Proof.
  intros (Hd & Hr & Hl) E. unfold load_or_new. rewrite E. destruct (MAX_TRANSCRIPT_BYTES <? len (encode s)) eqn:El; [lia|].
  by rewrite Hr, Hd.
Qed.
(** One locked append per turn, with the time of its save. *)
Definition Append : Type := Z * (string * string).
Definition after_append (s : Session) (a : Append) : Session := touched a.1 (push a.2.1 a.2.2 s).
Definition append_turn (q : Quarantine) (i : string) (acc : list MutateEnd * Dir) (a : Append) : list MutateEnd * Dir :=
  let '(r, d) := mutate all_good q true true a.1 a.1 i (push a.2.1 a.2.2) acc.2 in (acc.1 ++ [r], d).
Lemma after_appends s turns :
  ss_id (foldl after_append s turns) = ss_id s /\ ss_messages (foldl after_append s turns) = ss_messages s ++ map snd turns.
Proof.
  revert s. induction turns as [|[t [r c]] turns IH]; intros s; cbn [foldl map]; [by rewrite app_nil_r|].
  destruct (IH (after_append s (t, (r, c)))) as [-> ->]. split; [done|]. cbn. by rewrite <- app_assoc.
Qed.
Lemma mutate_stored q t1 t2 i f d s : codec_ok s -> d !! file_name i = Some (encode s) ->
  mutate all_good q true true t1 t2 i f d = (Mutated, <[file_name (ss_id (f s)) := encode (touched t2 (f s))]> d).
Proof. intros Hok E. unfold mutate_locked. by rewrite (load_stored q t1 i d s Hok E). Qed.

(** Locked appends to one session lose nothing: run one after the other, in
    whatever order the lock lets them in, each succeeds, the transcript read
    afterwards holds the messages it had and then every appended one in that
    order, and no other file of the directory changes. *)
Theorem locked_appends_accumulate q now i s d turns :
  ss_id s = i -> d !! file_name i = Some (encode s) ->
  (forall pre, pre `prefix_of` turns -> codec_ok (foldl after_append s pre)) ->
  let '(ends, d') := foldl (append_turn q i) ([], d) turns in
  ends = map (fun _ => Mutated) turns /\
  (exists s', load q now i d' = (Ok s', d') /\ ss_messages s' = ss_messages s ++ map snd turns) /\
  (forall f, f <> file_name i -> d' !! f = d !! f).
Proof.
  intros Hi. revert d. induction turns as [|a turns IH] using rev_ind; intros d E Hok.
  - cbn. split_and!; [done| |done]. exists s. rewrite app_nil_r. split; [|done]. by apply load_stored; [apply (Hok [])|].
  - rewrite foldl_app. cbn [foldl].
    assert (exists ends d', foldl (append_turn q i) ([], d) turns = (ends, d') /\ d' !! file_name i = Some (encode (foldl after_append s turns)) /\
              ends = map (fun _ => Mutated) turns /\ (forall f, f <> file_name i -> d' !! f = d !! f)) as (ends & d' & -> & E' & -> & Ho).
    { clear IH. assert (forall pre, pre `prefix_of` turns -> codec_ok (foldl after_append s pre)) as Hok'.
      { intros pre Hp. apply Hok. etrans; [done|]. by exists [a]. }
      clear Hok. induction turns as [|b turns IH] using rev_ind; [by exists [], d|].
      destruct IH as (ends & d' & E1 & E2 & -> & Ho); [intros pre Hp; apply Hok'; etrans; [done|by exists [b]]|].
      rewrite !foldl_app, E1. cbn [foldl append_turn snd fst].
      unfold append_turn. cbn [snd fst].
      rewrite (mutate_stored q b.1 b.1 i _ d' (foldl after_append s turns)) by (try done; apply Hok'; by exists [b]).
      cbn [push ss_id]. destruct (after_appends s turns) as [Hid _]. rewrite Hid, Hi.
      eexists _, _. split; [reflexivity|]. split; [by rewrite lookup_insert_eq|]. split; [by rewrite map_app|].
      intros f Hf. rewrite lookup_insert_ne by done. by apply Ho. }
    unfold append_turn. cbn [snd fst].
    rewrite (mutate_stored q a.1 a.1 i _ d' (foldl after_append s turns)) by (try done; apply Hok; by exists [a]).
    cbn [push ss_id]. destruct (after_appends s turns) as [Hid Hm]. rewrite Hid, Hi.
    split_and!; [by rewrite map_app| |intros f Hf; rewrite lookup_insert_ne by done; by apply Ho].
    exists (foldl after_append s (turns ++ [a])). split.
    + apply load_stored; [by apply Hok|]. rewrite lookup_insert_eq, foldl_app. done.
    + by destruct (after_appends s (turns ++ [a])) as [_ ->].
Qed.

(** *** Scans *)

Lemma quarantine_keeps q f g d : is_transcript g = true -> g <> f -> quarantine_oversized q f d !! g = d !! g.
Proof.
  intros Hg Hne. unfold quarantine_oversized. destruct (qr_moves q); [|done]. destruct (d !! f); [|done].
  rewrite lookup_insert_ne, lookup_delete_ne; [done|done|]. intros E. by rewrite <- E, quarantine_not_transcript in Hg.
Qed.
Lemma entry_same d d' f : d' !! f = d !! f -> entry_session decode readable d' f = entry_session decode readable d f /\ oversized d' f = oversized d f.
Proof. intros E. unfold entry_session, oversized. by rewrite E. Qed.
Lemma scan_entries {A} (take : A -> Session -> A) q files acc d :
  NoDup files ->
  (foldl (scan_entry decode readable take q) (acc, d) files).1 = foldl take acc (omap (entry_session decode readable d) files) /\
  (forall g, is_transcript g = true -> oversized d g = false -> (foldl (scan_entry decode readable take q) (acc, d) files).2 !! g = d !! g).
Proof.
  assert (forall files d' acc, NoDup files -> (forall f, f ∈ files -> is_transcript f = true -> d' !! f = d !! f) ->
    (foldl (scan_entry decode readable take q) (acc, d') files).1 = foldl take acc (omap (entry_session decode readable d) files) /\
    (forall g, is_transcript g = true -> oversized d g = false -> d' !! g = d !! g ->
       (foldl (scan_entry decode readable take q) (acc, d') files).2 !! g = d !! g)) as H.
  { clear acc files. induction files as [|f files IH]; intros d' acc Hnd Hsame; [done|].
    apply NoDup_cons in Hnd as [Hf Hnd]. cbn [foldl omap list_omap scan_entry].
    destruct (is_transcript f) eqn:Et.
    - destruct (entry_same d d' f) as [He Ho]; [by apply Hsame; [left|]|]. rewrite He, Ho. cbn [andb]. destruct (oversized d f) eqn:Eo.
      + assert (entry_session decode readable d f = None) as -> by (unfold entry_session; by rewrite Et, Eo).
        destruct (IH (quarantine_oversized (q f) f d') acc Hnd) as [H1 H2].
        { intros g Hg Hgt. rewrite quarantine_keeps; [by apply Hsame; [right|]|done|intros ->; done]. }
        split; [exact H1|]. intros g Hgt Hgo Hgd. apply H2; [done..|]. rewrite quarantine_keeps; [done|done|intros ->; congruence].
      + destruct (entry_session decode readable d f); (apply IH; [done|intros g Hg; apply Hsame; by right]).
    - assert (forall x, entry_session decode readable x f = None) as Hn by (intros x; unfold entry_session; by rewrite Et).
      rewrite !Hn. cbn [andb]. apply IH; [done|]. intros g Hg; apply Hsame; by right. }
  intros Hnd. destruct (H files d acc Hnd) as [H1 H2]; [done|]. split; [done|]. intros g Hg Ho. by apply H2.
Qed.
Lemma newest_fold l b : match foldl newer b l with
  | None => b = None /\ l = []
  | Some s => (b = Some s /\ Forall (fun x => ss_updated x <= ss_updated s) l) \/
      exists pre post, l = pre ++ s :: post /\ (forall x, b = Some x \/ x ∈ pre -> ss_updated x < ss_updated s) /\ Forall (fun x => ss_updated x <= ss_updated s) post
  end.
Proof.
  revert b. induction l as [|y l IH]; intros b; cbn [foldl]; [destruct b; [left; split; [done|constructor]|done]|].
  specialize (IH (newer b y)). destruct (foldl newer (newer b y) l) as [s|].
  - destruct IH as [[E Hl]|(pre & post & -> & Hpre & Hpost)].
    + destruct b as [x|]; cbn [newer] in E; [destruct (ss_updated x <? ss_updated y) eqn:El|]; injection E as ->.
      * right. exists [], l. split_and!; [done| |done]. intros z [[= ->]|Hz]; [lia|by apply not_elem_of_nil in Hz].
      * left. split; [done|]. constructor; [lia|done].
      * right. exists [], l. split_and!; [done| |done]. intros z [Hz|Hz]; [done|by apply not_elem_of_nil in Hz].
    + right. exists (y :: pre), post. split_and!; [done| |done]. intros x Hx.
      assert (forall x, newer b y = Some x \/ x ∈ pre -> ss_updated x < ss_updated s) as Hp by exact Hpre.
      assert (ss_updated y <= ss_updated s /\ forall z, b = Some z -> ss_updated z < ss_updated s) as [Hy Hz].
      { destruct b as [z|]; cbn [newer] in Hp.
        - destruct (ss_updated z <? ss_updated y) eqn:El.
          + specialize (Hp y (or_introl eq_refl)). split; [lia|]. intros ? [= <-]. lia.
          + specialize (Hp z (or_introl eq_refl)). split; [lia|]. by intros ? [= <-].
        - specialize (Hp y (or_introl eq_refl)). split; [lia|done]. }
      destruct Hx as [Hx|[->|Hx]%elem_of_cons]; [by apply Hz| |apply Hp; by right].
      destruct b as [z|]; cbn [newer] in Hp; [|apply Hp; by left].
      destruct (ss_updated z <? ss_updated y) eqn:El; [apply Hp; by left|]. specialize (Hz z eq_refl). lia.
  - destruct IH as [E ->]. destruct b as [x|]; cbn [newer] in E; [by destruct (_ <? _)|done].
Qed.

(** Continuing picks, of the transcripts that can be read and are not too
    large, the one last updated, and the first listed of those that share the
    time; listing gives each of them once, the most recent first; neither
    changes any of them. *)
Theorem scans_exact q files d :
  NoDup files ->
  let good := omap (entry_session decode readable d) files in
  (match (latest decode readable q (Some files) d).1 with
   | None => good = []
   | Some s => exists pre post, good = pre ++ s :: post /\ (forall x, x ∈ pre -> ss_updated x < ss_updated s) /\ (forall x, x ∈ post -> ss_updated x <= ss_updated s)
   end) /\
  ((list_sessions decode readable q (Some files) d).1 ≡ₚ map row_of good /\
   StronglySorted (fun a b => b.1.2 <= a.1.2) (list_sessions decode readable q (Some files) d).1) /\
  (forall g, is_transcript g = true -> oversized d g = false ->
     (latest decode readable q (Some files) d).2 !! g = d !! g /\ (list_sessions decode readable q (Some files) d).2 !! g = d !! g).
Proof.
  intros Hnd good. destruct (scan_entries newer q files None d Hnd) as [H1 H2].
  destruct (scan_entries (fun out s => out ++ [row_of s]) q files [] d Hnd) as [H3 H4].
  assert (forall acc l, foldl (fun out s => out ++ [row_of s]) acc l = acc ++ map row_of l) as Hrows.
  { intros acc l. revert acc. induction l as [|s l IH]; intros acc; cbn [foldl map]; [by rewrite app_nil_r|]. rewrite IH. by rewrite <- app_assoc. }
  rewrite Hrows in H3. cbn [app] in H3. unfold latest, list_sessions.
  destruct (foldl (scan_entry decode readable (fun out s => out ++ [row_of s]) q) ([], d) files) as [rows d'] eqn:E. cbn [fst snd] in *.
  split_and!.
  - rewrite H1. fold good. pose proof (newest_fold good None) as Hn. destruct (foldl newer None good) as [s|]; [|by destruct Hn].
    destruct Hn as [[? _]|(pre & post & -> & Hpre & Hpost)]; [done|]. exists pre, post. split_and!; [done|intros x Hx; apply Hpre; by right|by apply Forall_forall].
  - rewrite sort_by_perm. by rewrite H3.
  - eapply StronglySorted_impl; [|apply (sort_by_sorted newest_first_rows (fun _ => True)); [| |by apply Forall_true]].
    + intros a b. unfold cmp_le, newest_first_rows. intros H. destruct (Z.compare_spec b.1.2 a.1.2); [lia..|done].
    + intros a b _ _. unfold newest_first_rows. apply Z.compare_antisym.
    + intros a b c _ _ _. unfold cmp_le, newest_first_rows. rewrite !Z.compare_le_iff. lia.
  - intros g Hg Ho. split; [by apply H2|by apply H4].
Qed.
End StoreTheorems.

(** *** The lock *)

(** A turn on which the lock is broken: it is at least thirty seconds old, and
    the process it names is gone. *)
Definition abandoned (t : LockTurn) : Prop :=
  lt_create t = AlreadyThere /\ (exists age, lt_age t = Some age /\ LOCK_STALE_SECS <= age) /\
  exists size raw pid, lt_size t = Some size /\ size <= 64 /\ lt_text t = Some raw /\ recorded_pid raw = Some pid /\ 0 < pid /\ lt_kill t pid = Some ESRCH.
Lemma breaks_abandoned t : lt_create t = AlreadyThere -> is_stale t && negb (holder_pid_alive t) = true <-> abandoned t.
Proof.
  intros Hc. unfold is_stale, holder_pid_alive, abandoned. rewrite Hc. split.
  - intros [Ha Hp]%andb_true_iff. destruct (lt_age t) as [age|]; [|done]. destruct (lt_size t) as [size|]; [|done].
    destruct (64 <? size) eqn:Es; [done|]. destruct (lt_text t) as [raw|]; [|done]. destruct (recorded_pid raw) as [pid|] eqn:Ep; [|done].
    destruct (pid <=? 0) eqn:E0; [done|]. destruct (lt_kill t pid) as [e|] eqn:Ek; [|done]. rewrite negb_involutive in Hp.
    split; [done|]. split; [exists age; split; [done|lia]|]. exists size, raw, pid. assert (e = ESRCH) as -> by lia. split_and!; (done || lia).
  - intros (_ & (age & -> & Ha) & size & raw & pid & -> & Hs & -> & -> & Hp & Hk).
    destruct (64 <? size) eqn:Es; [lia|]. destruct (pid <=? 0) eqn:E0; [lia|]. rewrite Hk. apply andb_true_iff. split; [lia|done].
Qed.

(** The lock of a session is acquired by creating its file and in no other
    way: a turn that removes the file found it thirty seconds old and naming a
    process that no longer exists, every other turn waits, the wait ends with a
    timeout only once the time is over, and any other error of the creation is
    the answer. *)
Theorem session_lock_exact fuel turn timeout retry n r steps :
  acquire_with_params fuel turn timeout retry n = Some (r, steps) ->
  (forall k, steps !! k = Some LockBroken -> abandoned (turn (n + k)%nat)) /\
  (forall k ms, steps !! k = Some (LockWaited ms) ->
     ms = retry /\ lt_create (turn (n + k)%nat) = AlreadyThere /\ lt_elapsed (turn (n + k)%nat) < timeout /\ ~ abandoned (turn (n + k)%nat)) /\
  let last := turn (n + length steps)%nat in
  match r with
  | Acquired => lt_create last = Created
  | LockTimedOut after => after = timeout /\ lt_create last = AlreadyThere /\ timeout <= lt_elapsed last /\ ~ abandoned last
  | LockError e => lt_create last = CreateFailed e
  end.
Proof.
  revert n steps. induction fuel as [|fuel IH]; intros n steps; [done|]. cbn [acquire_with_params].
  assert (forall st rest, acquire_with_params fuel turn timeout retry (S n) = Some (r, rest) ->
    (st = LockBroken -> abandoned (turn n)) ->
    (forall ms, st = LockWaited ms -> ms = retry /\ lt_create (turn n) = AlreadyThere /\ lt_elapsed (turn n) < timeout /\ ~ abandoned (turn n)) ->
    (forall k, (st :: rest) !! k = Some LockBroken -> abandoned (turn (n + k)%nat)) /\
    (forall k ms, (st :: rest) !! k = Some (LockWaited ms) ->
       ms = retry /\ lt_create (turn (n + k)%nat) = AlreadyThere /\ lt_elapsed (turn (n + k)%nat) < timeout /\ ~ abandoned (turn (n + k)%nat)) /\
    let last := turn (n + length (st :: rest))%nat in
    match r with
    | Acquired => lt_create last = Created
    | LockTimedOut after => after = timeout /\ lt_create last = AlreadyThere /\ timeout <= lt_elapsed last /\ ~ abandoned last
    | LockError e => lt_create last = CreateFailed e
    end) as Hstep.
  { intros st rest E Hb Hw. destruct (IH _ _ E) as (H1 & H2 & H3). split_and!.
    - intros [|k]; cbn [lookup list_lookup]; [intros [= ->]; rewrite Nat.add_0_r; by apply Hb|]. intros Hk. specialize (H1 k Hk). by rewrite Nat.add_succ_comm in H1.
    - intros [|k] ms; cbn [lookup list_lookup]; [intros [= ->]; rewrite Nat.add_0_r; by apply Hw|]. intros Hk. specialize (H2 k ms Hk). by rewrite Nat.add_succ_comm in H2.
    - cbn [length]. rewrite <- Nat.add_succ_comm. exact H3. }
  destruct (lt_create (turn n)) as [| |e] eqn:Ec.
  - intros [= <- <-]. split_and!; [done|done|]. cbn. by rewrite Nat.add_0_r.
  - pose proof (breaks_abandoned (turn n) Ec) as Hb. destruct (is_stale (turn n) && negb (holder_pid_alive (turn n))).
    + destruct (acquire_with_params fuel turn timeout retry (S n)) as [[r' rest]|]; [|done]. cbn. intros [= -> <-]. apply Hstep; [done|intros _; by apply Hb|done].
    + assert (~ abandoned (turn n)) as Hna by (intros H; by apply Hb in H).
      destruct (timeout <=? lt_elapsed (turn n)) eqn:Et.
      * intros [= <- <-]. split; [done|]. split; [done|]. cbn. rewrite Nat.add_0_r. split_and!; [done|done|lia|done].
      * destruct (acquire_with_params fuel turn timeout retry (S n)) as [[r' rest]|]; [|done]. cbn. intros [= -> <-].
        apply Hstep; [done|done|]. intros ms [= <-]. split_and!; [done|done|lia|done].
  - intros [= <- <-]. split_and!; [done|done|]. cbn. by rewrite Nat.add_0_r.
Qed.

(** The wait ends on the first turn that creates the file, fails otherwise, or
    finds the time over and the holder not known to be gone. *)
Lemma session_lock_ends turn timeout retry k n :
  lt_create (turn (n + k)%nat) <> AlreadyThere \/ (timeout <= lt_elapsed (turn (n + k)%nat) /\ ~ abandoned (turn (n + k)%nat)) ->
  is_Some (acquire_with_params (S k) turn timeout retry n).
Proof.
  revert n. induction k as [|k IH]; intros n H; cbn [acquire_with_params].
  - rewrite Nat.add_0_r in H. destruct (lt_create (turn n)) eqn:Ec; [done| |done].
    destruct H as [H|[Ht Ha]]; [done|]. pose proof (breaks_abandoned (turn n) Ec) as Hb.
    destruct (is_stale (turn n) && negb (holder_pid_alive (turn n))); [by destruct Ha; apply Hb|]. by destruct (timeout <=? _) eqn:E; [|lia].
  - assert (is_Some (acquire_with_params (S k) turn timeout retry (S n))) as [[r rest] E] by (apply IH; by rewrite <- Nat.add_succ_comm in H).
    destruct (lt_create (turn n)); [done| |done].
    destruct (is_stale (turn n) && negb (holder_pid_alive (turn n))); [cbn [acquire_with_params] in E; by rewrite E|].
    destruct (timeout <=? _); [done|cbn [acquire_with_params] in E; by rewrite E].
Qed.

(** A file that names a process that is gone and that cannot be removed keeps
    the acquisition turning for ever: no turn of it waits, and none looks at
    the time. *)
Example unremovable_lock_never_ends turn timeout retry :
  (forall n, abandoned (turn n)) -> forall fuel n, acquire_with_params fuel turn timeout retry n = None.
Proof.
  intros H. induction fuel as [|fuel IH]; intros n; [done|]. cbn [acquire_with_params].
  destruct (H n) as [Hc _]. rewrite Hc. destruct (breaks_abandoned (turn n) Hc) as [_ Hb]. by rewrite (Hb (H n)), IH.
Qed.

(** *** Concrete runs *)

(** Two names that differ share a transcript, and that of an empty name is
    never found again. *)
Example ids_collide : file_name "a/b" = file_name "a_b" /\ is_transcript (file_name "") = false.
Proof. split; reflexivity. Qed.

Definition demo_session (n : nat) : Session := mkSession "s" 1 (Z.of_nat n) (repeat ("user", "hi") n)%string.
Definition demo_encode (s : Session) : string :=
  if bool_decide (ss_id s = "s"%string) then show_u (Z.of_nat (length (ss_messages s))) else "other".
Definition demo_decode (b : string) : option Session :=
  if bool_decide (b = "other"%string) then Some (mkSession "other" 0 9 []) else n ← parse_u64_std b; Some (demo_session (Z.to_nat n)).
Definition demo_q : Quarantine := mkQuarantine 7 8 9 true.

(** A transcript whose text names another session is changed under its own lock
    and saved over the other's. *)
Example mutation_follows_inner_id :
  let '(r, d) := mutate_locked demo_decode demo_encode (fun _ => true) all_good demo_q true true 5 5 "s" (push "user" "hi")
                   (<["s.json" := "other"]> (<["other.json" := "2"]> ∅)) in
  r = Mutated /\ d !! "s.json"%string = Some "other"%string /\ d !! "other.json"%string = Some "other"%string.
Proof. vm_compute. done. Qed.
(** A transcript that cannot be decoded fails the mutation. *)
Example corrupt_load_fails :
  mutate_locked demo_decode demo_encode (fun _ => true) all_good demo_q true true 5 5 "s" (push "user" "hi") (<["s.json" := "?"]> ∅)
  = (LoadFailed CorruptTranscript, <["s.json" := "?"]> ∅).
Proof. reflexivity. Qed.

Lemma locked_appends_accumulate_witness :
  exists d', foldl (append_turn demo_decode demo_encode (fun _ => true) demo_q "s") ([], <["s.json" := "0"]> ∅)
    [(1, ("user", "hi")); (2, ("user", "hi"))]%string = ([Mutated; Mutated], d') /\
  exists s', load_or_new demo_decode (fun _ => true) demo_q 9 "s" d' = (Ok s', d') /\ length (ss_messages s') = 2%nat.
Proof.
  pose proof (locked_appends_accumulate demo_decode demo_encode (fun _ => true) demo_q 9 "s" (demo_session 0) (<["s.json" := "0"]> ∅)
    [(1, ("user", "hi")); (2, ("user", "hi"))]%string eq_refl eq_refl) as H.
  destruct (foldl _ _ _) as [ends d'] eqn:E.
  destruct H as (-> & (s' & Hl & Hm) & _).
  { intros pre [post Hp]. destruct pre as [|a [|b [|c pre]]]; cbn in Hp; simplify_eq; unfold codec_ok; (split; [reflexivity|split; [reflexivity|vm_compute; congruence]]). }
  exists d'. split; [reflexivity|]. exists s'. split; [exact Hl|]. by rewrite Hm.
Defined.

Lemma scans_exact_witness :
  (latest demo_decode (fun _ => true) (fun _ => demo_q) (Some ["a.json"; "b.json"; "c.txt"]%string)
     (<["a.json" := "1"]> (<["b.json" := "3"]> (<["c.txt" := "5"]> ∅)))).1 = Some (demo_session 3) /\
  (list_sessions demo_decode (fun _ => true) (fun _ => demo_q) (Some ["a.json"; "b.json"; "c.txt"]%string)
     (<["a.json" := "1"]> (<["b.json" := "3"]> (<["c.txt" := "5"]> ∅)))).1 ≡ₚ [("s"%string, 1, 1%nat); ("s"%string, 3, 3%nat)].
Proof.
  destruct (scans_exact demo_decode (fun _ => true) (fun _ => demo_q) ["a.json"; "b.json"; "c.txt"]%string
    (<["a.json" := "1"]> (<["b.json" := "3"]> (<["c.txt" := "5"]> ∅)))) as (H1 & [H2 _] & _).
  { repeat (constructor; [set_solver|]). constructor. }
  split; [reflexivity|exact H2].
Defined.

Lemma session_lock_exact_witness :
  let old := mkLockTurn AlreadyThere (Some 40) (Some 8) (Some ("pid=77" +:+ String newline "")) (fun _ => Some ESRCH) 0 in
  let free := mkLockTurn Created None None None (fun _ => None) 0 in
  acquire 5 (fun n => match n with O => old | _ => free end) = Some (Acquired, [LockBroken]) /\ abandoned old.
Proof.
  cbv zeta.
  assert (acquire 5 (fun n => match n with
     | O => mkLockTurn AlreadyThere (Some 40) (Some 8) (Some ("pid=77" +:+ String newline "")) (fun _ => Some ESRCH) 0
     | _ => mkLockTurn Created None None None (fun _ => None) 0 end) = Some (Acquired, [LockBroken])) as E by (vm_compute; reflexivity).
  split; [exact E|]. destruct (session_lock_exact _ _ _ _ _ _ _ E) as (H & _). exact (H 0%nat eq_refl).
Defined.
