(* ===== verification/EngineQuery.v ===== *)
(** Queries of the local engine over its socket: the line protocol, the cost of
    a window (crates/zoder-core/src/engine_cost.rs), the live catalog and its
    merge into the corpus (crates/zoder-core/src/catalog_models.rs), the graph
    of a procedure and its overlay (crates/zoder-core/src/sop_graph.rs), and
    the commands on procedures (crates/zoder-cli/src/main.rs).

    A connection is an argument: how the connect and each write end, and the
    lines that are read.  serde's reading of a result is a parameter. *)
From stdpp Require Import gmap strings.
From S2P Require Import Prelude F64 Numbers Text Json Clock Corpus Config.
Local Open Scope string_scope.
Local Open Scope Z_scope.
Local Open Scope list_scope.
Local Open Scope zoder_scope.

(** ** The line protocol *)

Inductive ReadEnd := LineRead (line : string) | LineFailed (e : string).
(** [cn_expired]: the budget of the whole exchange ran out. *)
Record Connection := mkConnection {
  cn_connect : result unit string;
  cn_write : nat -> result unit string;
  cn_reads : list ReadEnd;
  cn_expired : bool
}.
Record RpcRequest := mkRpc { rq_id : string; rq_method : string; rq_params : list (string * Value) }.
Inductive QueryError :=
| NotConnected (e : string)
| WriteFailed (e : string)
| ReadFailed (e : string)
| EngineClosed
| EngineError (message : string)
| Undecoded (method : string)
| OtherProvider (asked got : string)
| NoEngineRef (provider : string)
| EmptyRunId
| QueryExpired.
Definition ACP_PROTOCOL_VERSION : Z := 1.
Definition QUERY_TIMEOUT : Z := 5.
Definition initialize (id : string) : RpcRequest := mkRpc id "initialize" [("protocol_version", Number (Some ACP_PROTOCOL_VERSION))].

Section Protocol.
(** [serde_json::from_str] *)
Context (parse : string -> option Value).
Definition frame_of (line : string) : option Value := parse (trim line).
Definition answers_id (want_id : string) (frame : Value) : bool := bool_decide (value_get_str frame "id" = Some want_id).
Definition response_of (frame : Value) : result Value QueryError :=
  match value_get frame "error" with
  | Some err => Err (EngineError (default "unknown error" (value_get_str err "message")))
  | None => Ok (default Null (value_get frame "result"))
  end.
(** The response, and what is left to read. *)
Fixpoint read_response (want_id : string) (reads : list ReadEnd) : result Value QueryError * list ReadEnd :=
  match reads with
  | [] => (Err EngineClosed, [])
  | LineFailed e :: reads => (Err (ReadFailed e), reads)
  | LineRead line :: reads =>
      match frame_of line with
      | None => read_response want_id reads
      | Some frame => if answers_id want_id frame then (response_of frame, reads) else read_response want_id reads
      end
  end.
(** One request after the other on a connection: the results, and the requests
    that were sent. *)
Fixpoint converse (c : Connection) (n : nat) (reads : list ReadEnd) (requests : list RpcRequest) : result (list Value) QueryError * list RpcRequest :=
  match requests with
  | [] => (Ok [], [])
  | rq :: requests =>
      match cn_write c n with
      | Err e => (Err (WriteFailed e), [])
      | Ok _ =>
          let '(r, reads) := read_response (rq_id rq) reads in
          match r with
          | Err e => (Err e, [rq])
          | Ok v => let '(rest, sent) := converse c (S n) reads requests in ((let? vs := rest in Ok (v :: vs)), rq :: sent)
          end
      end
  end.
Definition exchange (c : Connection) (requests : list RpcRequest) : result (list Value) QueryError * list RpcRequest :=
  match cn_connect c with
  | Err e => (Err (NotConnected e), [])
  | Ok _ => converse c 0 (cn_reads c) requests
  end.
(** An exchange under its budget. *)
Definition query (c : Connection) (requests : list RpcRequest) : result (list Value) QueryError :=
  if cn_expired c then Err QueryExpired else (exchange c requests).1.

(** ** The cost of a window *)

Record ModelStats := mkModelStats {
  ms_model : string; ms_cost_usd : f64; ms_total_tokens : Z; ms_input_tokens : Z; ms_output_tokens : Z; ms_request_count : Z
}.
Record AgentStats := mkAgentStats {
  as_agent_alias : string; as_cost_usd : f64; as_total_tokens : Z; as_input_tokens : Z; as_output_tokens : Z; as_request_count : Z
}.
Record CostSummary := mkCostSummary {
  session_cost_usd : f64; daily_cost_usd : f64; monthly_cost_usd : f64; cs_total_tokens : Z; cs_request_count : Z;
  by_model : gmap string ModelStats; by_agent : gmap string AgentStats
}.
Definition window_cost_usd (s : CostSummary) : f64 := session_cost_usd s.
(** [to_rfc3339] is the clock's. *)
Definition cost_params (to_rfc3339 : Z -> string) (from to_ : option Z) (agent : option string) : list (string * Value) :=
  option_list ((fun f => ("from", Str (to_rfc3339 f))) <$> from) ++ option_list ((fun t => ("to", Str (to_rfc3339 t))) <$> to_)
  ++ option_list ((fun a => ("agent", Str a)) <$> agent).
Definition cost_requests (to_rfc3339 : Z -> string) (from to_ : option Z) (agent : option string) : list RpcRequest :=
  [initialize "nvz-init"; mkRpc "nvz-cost" "cost/query" (cost_params to_rfc3339 from to_ agent)].
Definition decoded {A} (decode : Value -> option A) (method : string) (v : Value) : result A QueryError :=
  match decode v with Some a => Ok a | None => Err (Undecoded method) end.
Definition fetch_engine_cost (decode : Value -> option CostSummary) (to_rfc3339 : Z -> string) (c : Connection) (from to_ : option Z) (agent : option string) :
  result CostSummary QueryError :=
  let? vs := query c (cost_requests to_rfc3339 from to_ agent) in
  decoded decode "cost/query" (default Null (vs !! 1%nat)).

(** ** The live catalog *)

Record CatalogModel := mkCatalogModel {
  ct_id : string;
  ct_host : string;
  ct_kind : string;
  ct_free : option bool;
  ct_source : string;
  ct_input_usd : option f64;
  ct_output_usd : option f64
}.
Record EngineModelPricing := mkEnginePricing { ep_prompt : option string; ep_completion : option string }.
Record EngineCatalogResponse := mkEngineCatalog {
  ec_model_provider : string;
  ec_models : list string;
  ec_pricing : option (gmap string EngineModelPricing);
  ec_local : bool;
  ec_live : bool
}.
Section Catalog.
Context (decode_catalog : Value -> option EngineCatalogResponse) (parse_f64 : string -> option f64).
Definition per_mtok (value : option string) : option f64 := v ← value; (fun x => f64_mul x (f64_of_Z 1000000)) <$> parse_f64 v.
Definition catalog_row (p : Provider) (wire : EngineCatalogResponse) (mid : string) : CatalogModel :=
  let prices := ps ← ec_pricing wire; ps !! mid in
  mkCatalogModel mid (prov_id p) "chat" (Some (bool_decide (billing p = BillFree) || bool_decide (billing p = Subscription) || ec_local wire))
    (if ec_live wire then "daemon-live" else "daemon-fallback")
    (x ← prices; per_mtok (ep_prompt x)) (x ← prices; per_mtok (ep_completion x)).
Definition catalog_requests (model_provider : string) : list RpcRequest :=
  [initialize "nvz-init"; mkRpc "nvz-catalog" "config/catalog-models" [("model_provider", Str model_provider)]].
Definition fetch_catalog_models (c : Connection) (p : Provider) : result (list CatalogModel) QueryError :=
  match engine_provider_ref p with
  | None => Err (NoEngineRef (prov_id p))
  | Some model_provider =>
      let? vs := query c (catalog_requests model_provider) in
      let? wire := decoded decode_catalog "config/catalog-models" (default Null (vs !! 1%nat)) in
      if bool_decide (ec_model_provider wire = model_provider) then Ok (map (catalog_row p wire) (ec_models wire))
      else Err (OtherProvider model_provider (ec_model_provider wire))
  end.
End Catalog.
End Protocol.

(** ** The merge into the corpus *)

Record EnrichmentOutcome := mkEnrichment { en_rows : nat; en_added : nat; en_enriched : nat; en_skipped : nat; en_error : option string }.
Definition has_live_data (o : EnrichmentOutcome) : bool := (0 <? en_rows o)%nat && negb (bool_decide (is_Some (en_error o))).
Definition live_economics (row : CatalogModel) : option Economics :=
  i ← ct_input_usd row; o ← ct_output_usd row;
  Some (mkEconomics i o f64_zero (if str_is_empty (ct_source row) then "daemon" else ct_source row) None).
(** The fields the catalog may change; the others are the corpus's own. *)
Definition with_live (host_ family_ kind_ : string) (free_ : bool) (econ : option Economics) (m : ModelEntry) : ModelEntry :=
  mkModel (id m) host_ (leaf m) family_ kind_ (route_candidate m) free_ (me_paid m) (gated_reason m) (aliases m) (source m)
    (arena_overall_elo m) (arena_coding_elo m) (arena_webdev_elo m) (w_overall m) (w_coding m) (w_swe m) (ttft_ms_p50 m) (tok_per_s_p50 m)
    (total_ms_p50 m) (latency_score m) (latency_class m) (agentic_score m) (capability m) (preference m) econ (workflows m).
(** [enrich_existing], with whether anything changed. *)
Definition enrich_existing (m : ModelEntry) (row : CatalogModel) : ModelEntry * bool :=
  let flips := match ct_free row with Some f => negb (me_paid m) && negb (Bool.eqb (me_free m) f) | None => false end in
  let rekinds := negb (str_is_empty (ct_kind row)) && negb (bool_decide (kind m = ct_kind row)) in
  let moves := negb (str_is_empty (ct_host row)) && negb (bool_decide (host m = ct_host row)) in
  let prices := negb (bool_decide (is_Some (economics m))) && bool_decide (is_Some (live_economics row)) in
  (with_live (if moves then ct_host row else host m) (if moves then ct_host row else family m) (if rekinds then ct_kind row else kind m)
     (if flips then default (me_free m) (ct_free row) else me_free m) (if prices then live_economics row else economics m) m,
   flips || rekinds || moves || prices).
Definition CATALOG_GATE : string := "from daemon catalog: needs corpus-builder pass (capability + latency) before routing".
Definition entry_from_catalog (row : CatalogModel) : ModelEntry :=
  let split := split_once "/" (ct_id row) in
  let host_ := if str_is_empty (ct_host row) then from_option fst "" split else ct_host row in
  let free_ := default false (ct_free row) in
  mkModel (ct_id row) host_ (from_option snd (ct_id row) split) (if str_is_empty host_ then ct_id row else host_)
    (if str_is_empty (ct_kind row) then "chat" else ct_kind row) false free_ (negb free_ && bool_decide (is_Some (ct_free row)))
    (Some CATALOG_GATE) [] None None None None None None None None None None None None None None None (live_economics row) None.
(** The first entry with the id of the row, enriched; with whether there is one
    and whether it changed. *)
Fixpoint enrich_first (row : CatalogModel) (ms : list ModelEntry) : option (list ModelEntry * bool) :=
  match ms with
  | [] => None
  | m :: ms =>
      if bool_decide (id m = ct_id row) then let '(m', changed) := enrich_existing m row in Some (m' :: ms, changed)
      else '(ms', changed) ← enrich_first row ms; Some (m :: ms', changed)
  end.
Record MergeState := mkMerge { mg_models : list ModelEntry; mg_seen : gset string; mg_added : nat; mg_enriched : nat; mg_skipped : nat }.
Definition merge_row (s : MergeState) (row : CatalogModel) : MergeState :=
  if str_is_empty (trim (ct_id row)) || bool_decide (ct_id row ∈ mg_seen s)
  then mkMerge (mg_models s) (mg_seen s) (mg_added s) (mg_enriched s) (S (mg_skipped s))
  else
    let seen := {[ ct_id row ]} ∪ mg_seen s in
    match enrich_first row (mg_models s) with
    | Some (ms, changed) => mkMerge ms seen (mg_added s) (if changed then S (mg_enriched s) else mg_enriched s) (mg_skipped s)
    | None => mkMerge (mg_models s ++ [entry_from_catalog row]) seen (S (mg_added s)) (mg_enriched s) (mg_skipped s)
    end.
Definition with_models (c : Corpus) (ms : list ModelEntry) : Corpus :=
  mkCorpus (corpus_source c) (managed c) (generated c) (arena_date c) (Z.of_nat (length ms)) ms (alias_map c) (generated_at c).
Definition merge_into_corpus (c : Corpus) (rows : list CatalogModel) : Corpus * EnrichmentOutcome :=
  let s := foldl merge_row (mkMerge (models c) ∅ 0 0 0) rows in
  (with_models c (mg_models s), mkEnrichment (length rows) (mg_added s) (mg_enriched s) (mg_skipped s) None).
Definition merge_or_degrade (error_text : QueryError -> string) (c : Corpus) (r : result (list CatalogModel) QueryError) : Corpus * EnrichmentOutcome :=
  match r with Ok rows => merge_into_corpus c rows | Err e => (c, mkEnrichment 0 0 0 0 (Some (error_text e))) end.
(** [enrich_with_live_catalog]; [asked] is what the engine says of each
    provider it is asked about. *)
Definition add_outcome (o : EnrichmentOutcome) (pid : string) (cur : EnrichmentOutcome) : EnrichmentOutcome :=
  mkEnrichment (en_rows o + en_rows cur) (en_added o + en_added cur) (en_enriched o + en_enriched cur) (en_skipped o + en_skipped cur)
    (match en_error cur with
     | Some e => let message := "provider " +:+ pid +:+ ": " +:+ e in
                 Some match en_error o with Some previous => previous +:+ "; " +:+ message | None => message end
     | None => en_error o
     end).
Definition enrich_with_live_catalog (error_text : QueryError -> string) (asked : Provider -> result (list CatalogModel) QueryError)
  (skip socket_exists : bool) (providers : list Provider) (c : Corpus) : Corpus * option EnrichmentOutcome :=
  if skip || negb socket_exists then (c, None)
  else
    let '(c, o) := foldl (fun '(c, o) p => let '(c, cur) := merge_or_degrade error_text c (asked p) in (c, add_outcome o (prov_id p) cur))
      (c, mkEnrichment 0 0 0 0 None) (filterb (fun p => bool_decide (is_Some (engine_provider_ref p))) providers) in
    (c, Some o).

(** * Theorems *)

Section ProtocolTheorems.
Context (parse : string -> option Value).

(** What a wait for a response passes over. *)
Definition ignored (want_id : string) (l : ReadEnd) : Prop :=
  match l with
  | LineRead line => match frame_of parse line with Some frame => answers_id want_id frame = false | None => True end
  | LineFailed _ => False
  end.
(** A wait for a response passes over every line that is not a frame or that
    is another's, and takes the first frame with its id, whose error is the
    query's error; the end of the stream and a failed read end the wait. *)
Theorem response_exact want_id reads r rest : read_response parse want_id reads = (r, rest) ->
  exists pre, Forall (ignored want_id) pre /\
    (reads = pre /\ rest = [] /\ r = Err EngineClosed \/
     (exists e, reads = pre ++ LineFailed e :: rest /\ r = Err (ReadFailed e)) \/
     (exists line frame, reads = pre ++ LineRead line :: rest /\ frame_of parse line = Some frame /\ value_get_str frame "id" = Some want_id /\
        r = response_of frame)).
Proof.
  induction reads as [|[line|e] reads IH]; cbn [read_response].
  - intros [<- <-]%pair_eq. exists []. split; [done|]. by left.
  - destruct (frame_of parse line) as [frame|] eqn:Ef; [destruct (answers_id want_id frame) eqn:Ea|].
    + intros [<- <-]%pair_eq. exists []. split; [done|]. right; right. exists line, frame. apply bool_decide_eq_true in Ea. done.
    + intros (pre & Hpre & Hc)%IH. exists (LineRead line :: pre). split; [constructor; [by cbn; rewrite Ef|done]|].
      destruct Hc as [(-> & -> & ->)|[(e & -> & ->)|(l & f & -> & Hf & Hid & ->)]]; [by left|right; left; by exists e|right; right; by exists l, f].
    + intros (pre & Hpre & Hc)%IH. exists (LineRead line :: pre). split; [constructor; [by cbn; rewrite Ef|done]|].
      destruct Hc as [(-> & -> & ->)|[(e & -> & ->)|(l & f & -> & Hf & Hid & ->)]]; [by left|right; left; by exists e|right; right; by exists l, f].
  - intros [<- <-]%pair_eq. exists []. split; [done|]. right; left. by exists e.
Qed.
Lemma converse_prefix c requests : forall n reads r sent, converse parse c n reads requests = (r, sent) ->
  exists rest, requests = sent ++ rest /\ (forall vs, r = Ok vs -> rest = [] /\ length vs = length requests).
Proof.
  induction requests as [|rq requests IH]; intros n reads r sent; cbn [converse].
  - intros [<- <-]%pair_eq. exists []. split; [done|]. by intros vs [= <-].
  - destruct (cn_write c n); [|intros [<- <-]%pair_eq; by exists (rq :: requests)].
    destruct (read_response parse (rq_id rq) reads) as [[v|e] rest] eqn:Er; [|intros [<- <-]%pair_eq; by exists requests].
    destruct (converse parse c (S n) rest requests) as [r' sent'] eqn:Ec. intros [<- <-]%pair_eq. destruct (IH _ _ _ _ Ec) as (rest' & -> & Hok).
    exists rest'. split; [done|]. intros vs Hvs. destruct r' as [vs'|]; [|done]. injection Hvs as <-. destruct (Hok _ eq_refl) as [-> Hl].
    split; [done|]. cbn in *. by rewrite Hl.
Qed.
(** Nothing is asked before the handshake is answered: the requests that are
    sent are a prefix of the exchange, whose first is the handshake, and a
    request is sent only when the response to the one before it was a result. *)
Theorem handshake_first c r0 requests r sent : exchange parse c (r0 :: requests) = (r, sent) ->
  (exists rest, r0 :: requests = sent ++ rest /\ (forall vs, r = Ok vs -> rest = [] /\ length vs = S (length requests))) /\
  ((1 < length sent)%nat -> exists v rest, read_response parse (rq_id r0) (cn_reads c) = (Ok v, rest)).
Proof.
  unfold exchange. destruct (cn_connect c); [|intros [<- <-]%pair_eq; split; [by exists (r0 :: requests)|cbn; lia]].
  intros Hc. split; [by eapply converse_prefix in Hc|]. revert Hc. cbn [converse]. destruct (cn_write c 0%nat); [|intros [<- <-]%pair_eq; cbn; lia].
  destruct (read_response parse (rq_id r0) (cn_reads c)) as [[v|e] rest]; [|intros [<- <-]%pair_eq; cbn; lia]. intros _ _. by exists v, rest.
Qed.
End ProtocolTheorems.

(** ** The merge *)

(** What the catalog leaves of an entry. *)
Definition kept_entry (m m' : ModelEntry) : Prop :=
  m' = with_live (host m') (family m') (kind m') (me_free m') (economics m') m /\
  (me_paid m = true -> me_free m' = me_free m) /\ (is_Some (economics m) -> economics m' = economics m).
Lemma kept_refl m : kept_entry m m.
Proof. split; [by destruct m|done]. Qed.
Lemma enrich_kept m row : kept_entry m (enrich_existing m row).1.
Proof.
  unfold enrich_existing. split; [done|]. cbn. split.
  - intros Hp. rewrite Hp. destruct (ct_free row); done.
  - intros Hs. by rewrite bool_decide_true.
Qed.
Lemma kept_trans m m' m'' : kept_entry m m' -> kept_entry m' m'' -> kept_entry m m''.
Proof.
  intros (H1 & H2 & H3) (H4 & H5 & H6). assert (me_paid m' = me_paid m) as Hp by by rewrite H1.
  split; [rewrite H4; rewrite H1; reflexivity|]. split.
  - intros Hm. rewrite H5 by congruence. by apply H2.
  - intros Hm. rewrite H6; [by apply H3|]. by rewrite H3.
Qed.
Lemma kept_id m m' : kept_entry m m' -> id m' = id m.
Proof. intros (-> & _). done. Qed.
Lemma enrich_first_some row ms ms' changed : enrich_first row ms = Some (ms', changed) -> Forall2 kept_entry ms ms' /\ ct_id row ∈ map id ms.
Proof.
  revert ms' changed. induction ms as [|m ms IH]; intros ms' changed; cbn [enrich_first]; [done|]. case_bool_decide as Hid.
  - destruct (enrich_existing m row) as [m' ch] eqn:Ee. intros [= <- <-]. split; [|rewrite <- Hid; by left].
    constructor; [pose proof (enrich_kept m row) as Hk; by rewrite Ee in Hk|]. clear. induction ms; constructor; [apply kept_refl|done].
  - intros ([ms1 ch] & (H1 & H2)%IH & [= <- <-])%bind_Some. split; [constructor; [apply kept_refl|done]|]. by right.
Qed.
Lemma enrich_first_none row ms : enrich_first row ms = None <-> ct_id row ∉ map id ms.
Proof.
  induction ms as [|m ms IH]; cbn [enrich_first map]; [split; [intros _; apply not_elem_of_nil|done]|]. rewrite not_elem_of_cons. case_bool_decide as Hid.
  - destruct (enrich_existing m row). split; [done|]. intros [H _]. congruence.
  - destruct (enrich_first row ms) as [[ms1 ch]|]; cbn.
    + split; [done|]. intros [_ H]. by apply IH in H.
    + split; [|done]. intros _. split; [congruence|by apply IH].
Qed.
Lemma kept_ids ms ms' : Forall2 kept_entry ms ms' -> map id ms' = map id ms.
Proof. induction 1 as [|m m' ms ms' Hk _ IH]; cbn; [done|]. by rewrite (kept_id _ _ Hk), IH. Qed.
Lemma kept_all_trans ms ms' ms'' : Forall2 kept_entry ms ms' -> Forall2 kept_entry ms' ms'' -> Forall2 kept_entry ms ms''.
Proof. intros H. revert ms''. induction H; intros ms'' H'; inversion H'; subst; constructor; [by eapply kept_trans|by apply IHForall2]. Qed.

(** A state of the merge of [rows] into [ms]. *)
Record merged_so_far (ms : list ModelEntry) (rows : list CatalogModel) (s : MergeState) : Prop := {
  mf_split : exists old new, mg_models s = old ++ new /\ Forall2 kept_entry ms old /\ length new = mg_added s /\
    Forall (fun m => route_candidate m = false /\ id m ∉ map id ms /\ id m ∈ map ct_id rows /\ gated_reason m = Some CATALOG_GATE) new /\ NoDup (map id new);
  mf_seen : forall i, i ∈ map id (mg_models s) -> i ∉ map id ms -> i ∈ mg_seen s;
  mf_count : (mg_added s + mg_skipped s <= length rows)%nat /\ (mg_enriched s + mg_added s + mg_skipped s <= length rows)%nat
}.
Lemma merge_row_so_far ms rows s row : merged_so_far ms rows s -> merged_so_far ms (rows ++ [row]) (merge_row s row).
Proof.
  intros [(old & new & Hm & Hk & Hl & Hn & Hd) Hseen [Hc1 Hc2]]. unfold merge_row.
  assert (forall l : list ModelEntry, Forall (fun m => route_candidate m = false /\ id m ∉ map id ms /\ id m ∈ map ct_id rows /\ gated_reason m = Some CATALOG_GATE) l ->
    Forall (fun m => route_candidate m = false /\ id m ∉ map id ms /\ id m ∈ map ct_id (rows ++ [row]) /\ gated_reason m = Some CATALOG_GATE) l) as Hmore.
  { intros l Hall. eapply Forall_impl; [exact Hall|]. intros m (? & ? & ? & ?). rewrite map_app, elem_of_app. auto. }
  destruct (str_is_empty _ || _) eqn:Es.
  { split; cbn [mg_models mg_seen mg_added mg_enriched mg_skipped]; [|done|rewrite length_app; cbn; lia]. exists old, new. split_and!; auto. }
  apply orb_false_iff in Es as [_ Hns%bool_decide_eq_false]. destruct (enrich_first row (mg_models s)) as [[ms1 changed]|] eqn:Ee.
  - apply enrich_first_some in Ee as [Hk1 _]. rewrite Hm in Hk1. apply Forall2_app_inv_l in Hk1 as (old1 & new1 & Ho & Hnw & ->).
    split; cbn [mg_models mg_seen mg_added mg_enriched mg_skipped].
    + exists old1, new1. pose proof (kept_ids _ _ Hnw) as Hids. split; [done|]. split; [by eapply kept_all_trans|]. split; [by rewrite <- Hl; symmetry; eapply Forall2_length|].
      split; [|by rewrite Hids]. apply Hmore. clear -Hn Hnw. induction Hnw as [|m m' l l' Hk _ IH]; [constructor|]. inversion Hn; subst.
      constructor; [|by apply IH]. rewrite (kept_id _ _ Hk). destruct Hk as (-> & _). done.
    + intros i Hi Hni. apply elem_of_union; right. apply Hseen; [|done]. rewrite Hm, map_app. by rewrite map_app, (kept_ids _ _ Ho), (kept_ids _ _ Hnw) in Hi.
    + rewrite length_app. cbn. destruct changed; lia.
  - apply enrich_first_none in Ee. rewrite Hm, map_app, elem_of_app in Ee. apply Decidable.not_or in Ee as [Ho Hnw]. rewrite (kept_ids _ _ Hk) in Ho.
    split; cbn [mg_models mg_seen mg_added mg_enriched mg_skipped].
    + exists old, (new ++ [entry_from_catalog row]). rewrite Hm, app_assoc. split; [done|]. split; [done|]. rewrite length_app. cbn [length]. split; [lia|].
      split; [apply Forall_app; split; [by apply Hmore|]; constructor; [|done]; cbn; split_and!; [done|done|rewrite map_app; set_solver|done]|].
      rewrite map_app. apply NoDup_app. split; [done|]. cbn. split; [|apply NoDup_singleton]. intros x Hx ->%list_elem_of_singleton. done.
    + intros i. rewrite map_app, elem_of_app. cbn. intros [Hi| ->%list_elem_of_singleton] Hni; [apply elem_of_union; right; by apply Hseen|set_solver].
    + rewrite length_app. cbn. lia.
Qed.
Lemma merge_so_far ms rows : merged_so_far ms rows (foldl merge_row (mkMerge ms ∅ 0 0 0) rows).
Proof.
  induction rows as [|row rows IH] using rev_ind.
  - split; cbn; [|done|lia]. exists ms, []. rewrite app_nil_r. split_and!; [done| |done|constructor|constructor]. induction ms; constructor; [apply kept_refl|done].
  - rewrite foldl_app. cbn [foldl]. by apply merge_row_so_far.
Qed.
(** The live catalog never makes a model routable, free or priced against the
    corpus: every entry of the corpus keeps its place and everything but the
    host, the family, the kind, the flag of a model that is not paid and a
    price it did not have; every other entry is new, is no candidate, says why,
    and is there once. *)
Theorem merge_never_routes c rows :
  let '(c', o) := merge_into_corpus c rows in
  exists old new, models c' = old ++ new /\ Forall2 kept_entry (models c) old /\
    Forall (fun m => route_candidate m = false /\ id m ∉ map id (models c) /\ id m ∈ map ct_id rows /\ gated_reason m = Some CATALOG_GATE) new /\
    NoDup (map id new) /\ length new = en_added o /\ count c' = Z.of_nat (length (models c')) /\
    (en_enriched o + en_added o + en_skipped o <= en_rows o)%nat.
Proof.
  unfold merge_into_corpus. destruct (merge_so_far (models c) rows) as [(old & new & Hm & Hk & Hl & Hn & Hd) _ [_ Hc]].
  set (s := foldl merge_row _ rows) in *. exists old, new. cbn. split_and!; try done.
Qed.

Lemma enrich_idem m row : enrich_existing (enrich_existing m row).1 row = ((enrich_existing m row).1, false).
Proof.
  unfold enrich_existing. cbn.
  assert (forall (s t : string), negb (bool_decide ((if negb (str_is_empty s) && negb (bool_decide (t = s)) then s else t) = s)) && negb (str_is_empty s) = false) as Hset.
  { intros s t. destruct (str_is_empty s) eqn:E; cbn; [by rewrite andb_false_r|]. destruct (bool_decide (t = s)) eqn:Eb; cbn; [by rewrite Eb|]. by rewrite bool_decide_true. }
  pose proof (Hset (ct_kind row) (kind m)) as Hk. pose proof (Hset (ct_host row) (host m)) as Hh. rewrite andb_comm in Hk, Hh. rewrite Hk, Hh.
  assert (negb (bool_decide (is_Some (if negb (bool_decide (is_Some (economics m))) && bool_decide (is_Some (live_economics row)) then live_economics row else economics m)))
    && bool_decide (is_Some (live_economics row)) = false) as ->.
  { destruct (economics m), (live_economics row); done. }
  match goal with |- (with_live _ _ _ (if ?b then _ else _) _ _, _) = _ => assert (b = false) as -> end; [|done].
  destruct (ct_free row) as [f|]; [|done]. destruct (me_paid m); [done|]. cbn. destruct (Bool.eqb (me_free m) f) eqn:E; cbn; [by rewrite E|]. by destruct f.
Qed.
Lemma entry_idem row : enrich_existing (entry_from_catalog row) row = (entry_from_catalog row, false).
Proof.
  unfold enrich_existing. cbn.
  assert (negb (str_is_empty (ct_kind row)) && negb (bool_decide ((if str_is_empty (ct_kind row) then "chat" else ct_kind row) = ct_kind row)) = false) as ->.
  { destruct (str_is_empty (ct_kind row)); [done|]. by rewrite bool_decide_true. }
  assert (forall d, negb (str_is_empty (ct_host row)) && negb (bool_decide ((if str_is_empty (ct_host row) then d else ct_host row) = ct_host row)) = false) as Hh.
  { intros d. destruct (str_is_empty (ct_host row)); [done|]. by rewrite bool_decide_true. }
  rewrite Hh.
  assert (match ct_free row with Some f => negb (negb (default false (ct_free row)) && bool_decide (is_Some (ct_free row))) && negb (Bool.eqb (default false (ct_free row)) f) | None => false end = false) as ->
    by (by destruct (ct_free row) as [[]|]).
  assert (negb (bool_decide (is_Some (live_economics row))) && bool_decide (is_Some (live_economics row)) = false) as ->
    by (by destruct (bool_decide _)).
  done.
Qed.
(** The row says nothing new of its entry. *)
Definition absorbed (row : CatalogModel) (ms : list ModelEntry) : Prop := enrich_first row ms = Some (ms, false).
Lemma absorbed_app row ms k : absorbed row ms -> absorbed row (ms ++ k).
Proof.
  unfold absorbed. enough (forall b r, enrich_first row ms = Some (r, b) -> enrich_first row (ms ++ k) = Some (r ++ k, b)) as Hx by apply Hx.
  induction ms as [|m ms IH]; intros b r; cbn [enrich_first app]; [done|]. case_bool_decide; [destruct (enrich_existing m row); by intros [= <- <-]|].
  intros ([r1 b1] & H1 & [= <- <-])%bind_Some. by rewrite (IH _ _ H1).
Qed.
Lemma absorbed_first row ms ms' changed : enrich_first row ms = Some (ms', changed) -> absorbed row ms'.
Proof.
  unfold absorbed. revert ms' changed. induction ms as [|m ms IH]; intros ms' changed; cbn [enrich_first app]; [done|]. case_bool_decide as Hid.
  - pose proof (enrich_idem m row) as Hi. pose proof (kept_id _ _ (enrich_kept m row)) as Hk. destruct (enrich_existing m row) as [m' ch]. cbn [fst] in *.
    intros [= <- <-]. cbn [enrich_first]. rewrite bool_decide_true by congruence. by rewrite Hi.
  - intros ([r1 b1] & H1 & [= <- <-])%bind_Some. cbn [enrich_first]. rewrite bool_decide_false by done. by rewrite (IH _ _ H1).
Qed.
Lemma absorbed_other row row' ms ms' changed : ct_id row <> ct_id row' -> absorbed row ms -> enrich_first row' ms = Some (ms', changed) -> absorbed row ms'.
Proof.
  unfold absorbed. intros Hne. revert ms' changed. induction ms as [|m ms IH]; intros ms' changed; cbn [enrich_first app]; [done|]. case_bool_decide as H1.
  - destruct (enrich_existing m row) as [m1 c1] eqn:E1. intros [= -> ->]. rewrite bool_decide_false by congruence.
    intros ([r1 b1] & H2 & [= <- <-])%bind_Some. cbn [enrich_first]. rewrite bool_decide_true by done. by rewrite E1.
  - intros ([r1 b1] & H2 & [= -> ->])%bind_Some. case_bool_decide as H3.
    + pose proof (kept_id _ _ (enrich_kept m row')) as Hk. destruct (enrich_existing m row') as [m' c']. cbn [fst] in Hk. intros [= <- <-]. cbn [enrich_first].
      rewrite bool_decide_false by congruence. by rewrite H2.
    + intros ([r2 b2] & H4 & [= <- <-])%bind_Some. cbn [enrich_first]. rewrite bool_decide_false by done. by rewrite (IH _ _ H2 H4).
Qed.
Lemma absorbed_entry row ms : ct_id row ∉ map id ms -> absorbed row (ms ++ [entry_from_catalog row]).
Proof.
  unfold absorbed. induction ms as [|m ms IH]; cbn [enrich_first app map].
  - intros _. rewrite bool_decide_true by done. by rewrite entry_idem.
  - rewrite not_elem_of_cons. intros [H1 H2]. rewrite bool_decide_false by congruence. by rewrite IH.
Qed.
Lemma merge_absorbs ms rows : let s := foldl merge_row (mkMerge ms ∅ 0 0 0) rows in
  forall row, row ∈ rows -> str_is_empty (trim (ct_id row)) = true \/ ct_id row ∈ mg_seen s.
Proof.
  cbv zeta. induction rows as [|r rows IH] using rev_ind; intros row Hin; [by apply not_elem_of_nil in Hin|]. rewrite foldl_app. cbn [foldl].
  set (s := foldl merge_row _ rows) in *. unfold merge_row. apply elem_of_app in Hin as [Hin| ->%list_elem_of_singleton].
  - destruct (IH row Hin) as [|Hs]; [by left|right]. destruct (_ || _); [done|]. destruct (enrich_first _ _) as [[]|]; cbn; set_solver.
  - destruct (str_is_empty (trim (ct_id r))) eqn:E; [by left|right]. cbn. case_bool_decide; [done|]. destruct (enrich_first _ _) as [[]|]; cbn; set_solver.
Qed.
(** The row that the merge took for an id. *)
Lemma merge_taken ms rows : let s := foldl merge_row (mkMerge ms ∅ 0 0 0) rows in
  forall i, i ∈ mg_seen s -> exists row, find_first (fun r => bool_decide (ct_id r = i)) rows = Some row /\ absorbed row (mg_models s).
Proof.
  cbv zeta. induction rows as [|r rows IH] using rev_ind; intros i Hi; [cbn in Hi; set_solver|]. rewrite foldl_app in Hi |- *. cbn [foldl] in *.
  set (s := foldl merge_row _ rows) in *. unfold merge_row in *. rewrite find_first_app.
  destruct (str_is_empty (trim (ct_id r)) || _) eqn:Es.
  { destruct (IH i Hi) as (row & -> & Ha). by exists row. }
  apply orb_false_iff in Es as [Hb Hns%bool_decide_eq_false].
  assert (i ∈ mg_seen s \/ i = ct_id r) as Hcase by (destruct (enrich_first _ _) as [[]|]; cbn in Hi; set_solver).
  destruct (decide (i ∈ mg_seen s)) as [Hs|Hs].
  - destruct (IH i Hs) as (row & Hf & Ha). rewrite Hf. exists row. split; [done|].
    assert (ct_id row <> ct_id r) as Hne by (apply find_first_Some in Hf as [_ Hf%bool_decide_eq_true]; congruence).
    destruct (enrich_first r (mg_models s)) as [[ms1 ch]|] eqn:Ee; cbn; [by eapply absorbed_other|by apply absorbed_app].
  - destruct Hcase as [| ->]; [done|]. exists r. split.
    + destruct (find_first _ rows) as [row|] eqn:Ef; [|cbn; by rewrite bool_decide_true]. exfalso. apply find_first_Some in Ef as [Hin Hid%bool_decide_eq_true].
      destruct (merge_absorbs ms rows row Hin) as [He|He]; [rewrite Hid in He; congruence|]. rewrite Hid in He. done.
    + destruct (enrich_first r (mg_models s)) as [[ms1 ch]|] eqn:Ee; cbn; [by eapply absorbed_first|]. apply absorbed_entry. by apply enrich_first_none.
Qed.
(** A second merge of the same rows changes nothing: it adds no entry and
    enriches none. *)
Theorem merge_idempotent c rows :
  let '(c', _) := merge_into_corpus c rows in
  let '(c'', o) := merge_into_corpus c' rows in
  c'' = c' /\ en_added o = 0%nat /\ en_enriched o = 0%nat /\ en_rows o = length rows.
Proof.
  unfold merge_into_corpus. cbn [models with_models]. pose proof (merge_absorbs (models c) rows) as Hab. pose proof (merge_taken (models c) rows) as Ht. cbv zeta in Hab, Ht.
  set (s := foldl merge_row _ rows) in *.
  assert (forall pre post, rows = pre ++ post -> let t := foldl merge_row (mkMerge (mg_models s) ∅ 0 0 0) pre in
    mg_models t = mg_models s /\ mg_added t = 0%nat /\ mg_enriched t = 0%nat /\ (forall row, row ∈ pre -> str_is_empty (trim (ct_id row)) = true \/ ct_id row ∈ mg_seen t)) as Hx.
  { induction pre as [|r pre IH] using rev_ind; intros post Hp; cbv zeta; [split_and!; [done..|]; intros row Hr; by apply not_elem_of_nil in Hr|].
    rewrite foldl_app. cbn [foldl]. destruct (IH (r :: post)) as (Hm & Ha & He & Hs); [by rewrite Hp, <- app_assoc|]. cbv zeta in Hs.
    set (t := foldl merge_row _ pre) in *. unfold merge_row. destruct (str_is_empty (trim (ct_id r)) || _) eqn:Es.
    - cbn. split_and!; [done..|]. intros row [Hr| ->%list_elem_of_singleton]%elem_of_app; [by apply Hs|].
      apply orb_true_iff in Es as [Es|Es%bool_decide_eq_true]; [by left|by right].
    - apply orb_false_iff in Es as [Hb Hns%bool_decide_eq_false].
      assert (absorbed r (mg_models s)) as Hr.
      { assert (r ∈ rows) as Hin by (rewrite Hp; set_solver). destruct (Hab r Hin) as [Hab'|Hab']; [congruence|].
        destruct (Ht _ Hab') as (row & Hf & Hrow). rewrite Hp, <- app_assoc, find_first_app in Hf.
        assert (find_first (fun r0 => bool_decide (ct_id r0 = ct_id r)) pre = None) as Hnone.
        { apply find_first_None. intros x Hx. apply bool_decide_eq_false. intros Heq. destruct (Hs x Hx) as [Hs'|Hs']; rewrite Heq in Hs'; congruence. }
        rewrite Hnone in Hf. cbn in Hf. rewrite bool_decide_true in Hf by done. by injection Hf as <-. }
      rewrite Hm. unfold absorbed in Hr. rewrite Hr. cbn. split_and!; [done..|].
      intros row [Hrow| ->%list_elem_of_singleton]%elem_of_app; [destruct (Hs row Hrow); [by left|right; set_solver]|right; set_solver]. }
  destruct (Hx rows []) as (Hm & Ha & He & _); [by rewrite app_nil_r|]. cbv zeta in Hm, Ha, He. set (t := foldl merge_row _ rows) in *. clearbody t.
  rewrite Hm, Ha, He. done.
Qed.

(** ** Concrete exchanges *)

Definition parsed_line (s : string) : option Value :=
  if bool_decide (s = "init") then Some (Object [("id", Str "nvz-init"); ("result", Null)])
  else if bool_decide (s = "note") then Some (Object [("method", Str "session/update")])
  else if bool_decide (s = "refused") then Some (Object [("id", Str "nvz-init"); ("error", Object [("message", Str "busy")])])
  else if bool_decide (s = "cost") then Some (Object [("id", Str "nvz-cost"); ("result", Bool true)]) else None.
Definition talking (reads : list string) : Connection := mkConnection (Ok tt) (fun _ => Ok tt) (map LineRead reads) false.
Lemma response_exact_witness :
  read_response parsed_line "nvz-cost" [LineRead "?"; LineRead "note"; LineRead "cost"] = (Ok (Bool true), []) /\
  exists pre, Forall (ignored parsed_line "nvz-cost") pre /\ pre <> [].
Proof.
  assert (read_response parsed_line "nvz-cost" [LineRead "?"; LineRead "note"; LineRead "cost"] = (Ok (Bool true), [])) as Hr by (vm_compute; reflexivity).
  split; [exact Hr|]. destruct (response_exact parsed_line _ _ _ _ Hr) as (pre & Hpre & [(_ & _ & H)|[(e & _ & H)|(line & frame & Hs & Hf & Hid & _)]]); [done|done|].
  exists pre. split; [exact Hpre|]. intros ->. injection Hs as <- _. vm_compute in Hf. discriminate.
Defined.
Lemma handshake_first_witness :
  exchange parsed_line (talking ["refused"; "cost"]) (cost_requests show_u None None None) = (Err (EngineError "busy"), [initialize "nvz-init"]) /\
  exists v rest, read_response parsed_line "nvz-init" (cn_reads (talking ["note"; "init"; "cost"])) = (Ok v, rest).
Proof.
  split; [vm_compute; reflexivity|].
  assert (exchange parsed_line (talking ["note"; "init"; "cost"]) (cost_requests show_u None None None) = (Ok [Null; Bool true], cost_requests show_u None None None)) as He
    by (vm_compute; reflexivity).
  apply (proj2 (handshake_first parsed_line _ _ _ _ _ He)). cbn. lia.
Defined.
Definition routed_model : ModelEntry :=
  with_live "nim" "nim" "chat" true None
    (mkModel "nim/m" "" "m" "" "" true true false None [] None None None None None None None None None None None None None None None None None).
Definition one_row : CatalogModel := mkCatalogModel "nim/m" "gateway" "chat" (Some false) "daemon-live" None None.
Definition routed_corpus : Corpus := mkCorpus "" false "" "" 1 [routed_model] ∅ None.
(** The answer of the engine moves a routed model to another host and takes its
    free flag, so the routes shown with it are not those taken without it. *)
Example the_catalog_changes_the_route :
  routable routed_model = true /\ (forall m, m ∈ models (merge_into_corpus routed_corpus [one_row]).1 -> routable m = false /\ host m = "gateway").
Proof. split; [vm_compute; reflexivity|]. intros m Hm. vm_compute in Hm. apply list_elem_of_singleton in Hm as ->. vm_compute. done. Qed.
(** Rows without a usable id count as live data. *)
Example no_usable_row_is_live_data :
  let o := (merge_into_corpus routed_corpus [mkCatalogModel "" "" "" None "" None None]).2 in has_live_data o = true /\ en_skipped o = en_rows o.
Proof. vm_compute. done. Qed.
