(* ===== verification/Sop.v ===== *)
(** Procedures of the engine (crates/zoder-core/src/sop_graph.rs): the graph of
    a run, its overlay, the grouping of the steps by their state and the text
    of the report; the commands on procedures (crates/zoder-cli/src/main.rs).

    serde's reading of a graph and of an overlay, and the text of a number or
    of a whole value, are parameters. *)
From stdpp Require Import gmap strings.
From S2P Require Import Prelude Text Json EngineQuery.
Local Open Scope string_scope.
Local Open Scope Z_scope.
Local Open Scope list_scope.
Local Open Scope zoder_scope.

(** ** The graph and its overlay *)

Record SopStep := mkSopStep { st_id : string; st_name : string; st_kind : string; st_next : list string; st_extra : list (string * Value) }.
Record SopGraph := mkSopGraph { gr_run_id : string; gr_sop : string; gr_steps : list SopStep; gr_extra : list (string * Value) }.
Record SopOverlayStep := mkOverlayStep { os_id : string; os_state : string; os_notes : string; os_error : string; os_extra : list (string * Value) }.
Record SopOverlay := mkSopOverlay {
  ov_run_id : string; ov_active_step : string; ov_steps : list SopOverlayStep; ov_routing : string; ov_outcome : string;
  ov_extra : list (string * Value)
}.
Record SopGraphReport := mkSopReport { sr_graph : SopGraph; sr_overlay : option SopOverlay }.
Definition graph_step (g : SopGraph) (i : string) : option SopStep := find_first (fun s => bool_decide (st_id s = i)) (gr_steps g).
Definition overlay_step (o : SopOverlay) (i : string) : option SopOverlayStep := find_first (fun s => bool_decide (os_id s = i)) (ov_steps o).
Definition active_step (overlay : option SopOverlay) : option string :=
  o ← overlay; opt_filter (fun s => negb (str_is_empty s)) (Some (ov_active_step o)).

Definition BUCKETS : list string := ["active"; "done"; "failed"; "skipped"; "pending"].
(** The map of the reported steps: of two with one id, the last. *)
Definition reported (o : SopOverlay) : gmap string SopOverlayStep := foldl (fun m s => <[os_id s := s]> m) ∅ (ov_steps o).
Definition push_bucket (bucket i : string) (out : list (string * list string)) : list (string * list string) :=
  map (fun e => if bool_decide (e.1 = bucket) then (e.1, e.2 ++ [i]) else e) out.
Definition state_bucket (o : SopOverlay) (i : string) : string :=
  match reported o !! i with Some s => if str_is_empty (os_state s) then "pending" else os_state s | None => "pending" end.
Definition grouped_states (o : SopOverlay) (g : SopGraph) : list (string * list string) :=
  let out := foldl (fun out s => push_bucket (state_bucket o (st_id s)) (st_id s) out) (map (fun b => (b, [])) BUCKETS) (gr_steps g) in
  foldl (fun out s =>
      if existsb (fun t => bool_decide (st_id t = os_id s)) (gr_steps g) then out
      else push_bucket (if str_is_empty (os_state s) then "pending" else os_state s) (os_id s) out) out (ov_steps o).

(** ** The exchanges *)

Section Fetch.
Context (parse : string -> option Value) (decode_graph : Value -> option SopGraph) (decode_overlay : Value -> option SopOverlay).
Definition run_params (run_id : string) : list (string * Value) := [("run_id", Str run_id)].
Definition fetch_sop_graph (c : Connection) (run_id : string) : result SopGraph QueryError :=
  if str_is_empty run_id then Err EmptyRunId
  else
    let? vs := query parse c [initialize "sop-graph-init"; mkRpc "sop-graph" "sops/graph" (run_params run_id)] in
    decoded decode_graph "sops/graph" (default Null (vs !! 1%nat)).
Definition fetch_sop_overlay (c : Connection) (run_id : string) : result SopOverlay QueryError :=
  if str_is_empty run_id then Err EmptyRunId
  else
    let? vs := query parse c [initialize "sop-overlay-init"; mkRpc "sop-overlay" "sops/run-overlay" (run_params run_id)] in
    decoded decode_overlay "sops/run-overlay" (default Null (vs !! 1%nat)).
(** The graph is decoded before the overlay is asked for. *)
Definition fetch_sop_graph_report (c : Connection) (run_id : string) (include_overlay : bool) : result SopGraphReport QueryError :=
  if str_is_empty run_id then Err EmptyRunId
  else if negb include_overlay then let? g := fetch_sop_graph c run_id in Ok (mkSopReport g None)
  else if cn_expired c then Err QueryExpired
  else
    match cn_connect c with
    | Err e => Err (NotConnected e)
    | Ok _ =>
        match cn_write c 0%nat with
        | Err e => Err (WriteFailed e)
        | Ok _ =>
            let '(r, reads) := read_response parse "sop-report-init" (cn_reads c) in
            let? _ := r in
            match cn_write c 1%nat with
            | Err e => Err (WriteFailed e)
            | Ok _ =>
                let '(r, reads) := read_response parse "sop-report-graph" reads in
                let? v := r in
                let? g := decoded decode_graph "sops/graph" v in
                match cn_write c 2%nat with
                | Err e => Err (WriteFailed e)
                | Ok _ =>
                    let? v := (read_response parse "sop-report-overlay" reads).1 in
                    let? o := decoded decode_overlay "sops/run-overlay" v in
                    Ok (mkSopReport g (Some o))
                end
            end
        end
    end.
End Fetch.

(** ** The text of a report *)

Definition nl : string := String newline "".
Definition display_or_dash (s : string) : string := if str_is_empty s then "-" else s.
Definition state_tag (state : string) : string :=
  if bool_decide (state = "active") then "[active]" else if bool_decide (state = "done") then "[done]  "
  else if bool_decide (state = "failed") then "[FAIL]  " else if bool_decide (state = "skipped") then "[skip]  " else "[.....] ".
(** [{:<n}]; [width] counts the characters. *)
Section Render.
Context (width : string -> nat).
Definition pad_right (n : nat) (s : string) : string := s +:+ String.concat "" (repeat " " (n - width s)).
Definition render_step (overlay : option SopOverlay) (s : SopStep) : string :=
  let state := default "pending" (o ← overlay; os_state <$> (reported o !! st_id s)) in
  "  " +:+ state_tag state +:+ " " +:+ pad_right 20 (st_id s) +:+ " " +:+ (if str_is_empty (st_name s) then st_id s else st_name s)
  +:+ (if str_is_empty (st_kind s) then "" else " kind=" +:+ st_kind s)
  +:+ (match st_next s with [] => "" | next => " -> " +:+ join "," next end) +:+ nl.
Definition failed_with_error (s : SopOverlayStep) : bool := bool_decide (os_state s = "failed") && negb (str_is_empty (os_error s)).
Definition render_error (s : SopOverlayStep) : string :=
  "  " +:+ os_id s +:+ ": " +:+ os_error s +:+ (if str_is_empty (os_notes s) then "" else " (" +:+ os_notes s +:+ ")") +:+ nl.
Definition render_sop_graph_human (r : SopGraphReport) (run_id : string) : string :=
  let steps := gr_steps (sr_graph r) in
  "run    " +:+ run_id +:+ nl +:+ "sop    " +:+ gr_sop (sr_graph r) +:+ nl
  +:+ match sr_overlay r with
      | Some o => "outcome " +:+ display_or_dash (ov_outcome o) +:+ nl +:+ "active  " +:+ display_or_dash (ov_active_step o) +:+ nl
                  +:+ "routing " +:+ display_or_dash (ov_routing o) +:+ nl
      | None => "outcome (no overlay fetched)" +:+ nl
      end
  +:+ nl
  +:+ match steps with
      | [] => "graph  (no steps reported)" +:+ nl
      | _ =>
          "graph  (" +:+ show_u (Z.of_nat (length steps)) +:+ " step" +:+ (if (length steps =? 1)%nat then "" else "s") +:+ "):" +:+ nl
          +:+ join "" (map (render_step (sr_overlay r)) steps)
          +:+ match filterb failed_with_error (default [] (ov_steps <$> sr_overlay r)) with
              | [] => ""
              | failed => nl +:+ "errors:" +:+ nl +:+ join "" (map render_error failed)
              end
      end.
End Render.

(** ** The commands *)

Inductive SopError := SopQuery (e : string) | NotAList (v : Value) | PayloadEmpty | PayloadInvalid (text : string) | PayloadUnread (path : string).
Inductive SopCmd :=
| SopList (json : bool)
| SopRun (name payload : string)
| SopStatus (run_ids : list string) (json : bool)
| SopDecide (run_id decision : string) (json : bool).
Section Commands.
Context (parse : string -> option Value) (read_file : string -> option string) (number_text : option Z -> string) (pretty compact : Value -> string)
  (width : string -> nat).
Definition parse_sop_payload (raw : string) : result Value SopError :=
  let trimmed := trim raw in
  if str_is_empty trimmed then Err PayloadEmpty
  else if starts_with "{" trimmed then match parse trimmed with Some v => Ok v | None => Err (PayloadInvalid trimmed) end
  else match read_file trimmed with
       | None => Err (PayloadUnread trimmed)
       | Some bytes => match parse bytes with Some v => Ok v | None => Err (PayloadInvalid trimmed) end
       end.
Definition array_at (v : Value) (k : string) : option (list Value) := value_get v k ≫= value_as_array.
Definition sop_list_of (v : Value) : option (list Value) := or_opt (value_as_array v) (or_opt (array_at v "sops") (array_at v "items")).
Definition steps_width (sop : Value) : nat :=
  match value_get sop "steps" with
  | Some s => match value_as_u64 s with
              | Some n => width (show_u n)
              | None => match s with Array a => width (show_u (Z.of_nat (length a))) | _ => 0%nat end
              end
  | None => 0%nat
  end.
Definition steps_text (sop : Value) : string :=
  match value_get sop "steps" with
  | Some (Number n) => number_text n
  | Some (Array a) => show_u (Z.of_nat (length a))
  | _ => ""
  end.
Definition widest (least : nat) (l : list nat) : nat := foldr Nat.max least l.
Definition sop_line (name_w steps_w : nat) (name steps desc : string) : string :=
  "  " +:+ pad_right width name_w name +:+ "  " +:+ pad_right width steps_w steps +:+ "  " +:+ desc +:+ nl.
Definition render_sop_list (arr : list Value) : string :=
  match arr with
  | [] => "no SOPs registered with the local zeroclaw engine." +:+ nl
  | _ =>
      let name_w := widest 4 (map (fun s => width (default "" (value_get_str s "name"))) arr) in
      let steps_w := widest 5 (map steps_width arr) in
      "SOPs registered with the local zeroclaw engine:" +:+ nl +:+ sop_line name_w steps_w "name" "steps" "description"
      +:+ join "" (map (fun s => sop_line name_w steps_w (default "(unnamed)" (value_get_str s "name")) (steps_text s)
                                  (default "" (value_get_str s "description"))) arr)
  end.
(** The runs of an answer: a list, a list under [runs], or a map from the ids. *)
Definition run_entries (v : Value) : option (list (string * Value)) :=
  match or_opt (value_as_array v) (array_at v "runs") with
  | Some arr => Some (map (fun r => (default "?" (value_get_str r "run_id"), r)) arr)
  | None => value_as_object v
  end.
Definition render_run (e : string * Value) : string :=
  let '(i, rec) := e in
  "  " +:+ i +:+ "  status=" +:+ default "?" (or_opt (value_get_str rec "status") (value_get_str rec "state"))
  +:+ "  step=" +:+ match or_opt (value_get rec "current_step") (value_get rec "step") with
                    | Some (Str s) => s | Some (Number n) => number_text n | _ => "" end
  +:+ "  name=" +:+ default "" (or_opt (value_get rec "name") (value_get rec "sop") ≫= value_as_str) +:+ nl.
Definition render_runs (run_ids : list string) (v : Value) : string :=
  match run_entries v with
  | None => "sops/runs returned an unexpected payload shape: " +:+ compact v +:+ nl
  | Some [] =>
      match run_ids with
      | [] => "no SOP runs on the local zeroclaw engine." +:+ nl
      | _ => "no SOP run found for: " +:+ join ", " run_ids +:+ nl
      end
  | Some entries =>
      (match run_ids with [] => "All SOP runs:" | _ => "SOP runs matching: " +:+ join ", " run_ids end) +:+ nl +:+ join "" (map render_run entries)
  end.
Definition render_decision (run_id decision : string) (v : Value) : string :=
  let recorded := default decision (value_get_str v "decision") in
  let next := default "" (or_opt (value_get v "status") (value_get v "next_step") ≫= value_as_str) in
  "recorded decision `" +:+ recorded +:+ "` for run " +:+ run_id +:+ (if str_is_empty next then "" else " → " +:+ next) +:+ nl.
(** [cmd_sop_with_socket]; [rpc] is the call of one method. *)
Definition cmd_sop (rpc : string -> list (string * Value) -> result Value string) (action : SopCmd) : result string SopError :=
  let call m ps := match rpc m ps with Ok v => Ok v | Err e => Err (SopQuery e) end in
  match action with
  | SopList json =>
      let? v := call "list" [] in
      if json then Ok (pretty v +:+ nl)
      else match sop_list_of v with Some arr => Ok (render_sop_list arr) | None => Err (NotAList v) end
  | SopRun name payload =>
      let? p := parse_sop_payload payload in
      let? v := call "run" [("name", Str name); ("payload", p)] in
      Ok ("started SOP run " +:+ default "(unknown)" (value_get_str v "run_id") +:+ " (name=" +:+ name +:+ ")" +:+ nl)
  | SopStatus run_ids json =>
      let? v := call "runs" (match run_ids with [] => [] | _ => [("run_ids", Array (map Str run_ids))] end) in
      Ok (if json then pretty v +:+ nl else render_runs run_ids v)
  | SopDecide run_id decision json =>
      let? v := call "decide" [("run_id", Str run_id); ("decision", Str decision)] in
      Ok (if json then pretty v +:+ nl else render_decision run_id decision v)
  end.
End Commands.

(** ** The document of a report (sop.rs) *)

Definition sop_step_to_json (s : SopStep) : Value :=
  Object [("id", Str (st_id s)); ("name", Str (st_name s)); ("kind", Str (st_kind s)); ("next", Array (map Str (st_next s))); ("extra", Object (st_extra s))].
Definition sop_overlay_step_to_json (s : SopOverlayStep) : Value :=
  Object [("id", Str (os_id s)); ("state", Str (os_state s)); ("notes", Str (os_notes s)); ("error", Str (os_error s)); ("extra", Object (os_extra s))].
Definition sop_overlay_to_json (o : SopOverlay) : Value :=
  Object [("run_id", Str (ov_run_id o)); ("active_step", Str (ov_active_step o)); ("routing", Str (ov_routing o)); ("outcome", Str (ov_outcome o));
          ("steps", Array (map sop_overlay_step_to_json (ov_steps o))); ("extra", Object (ov_extra o))].
Definition sop_graph_report_to_json (r : SopGraphReport) : Value :=
  let g := sr_graph r in
  Object [("run_id", Str (gr_run_id g)); ("sop", Str (gr_sop g)); ("steps", Array (map sop_step_to_json (gr_steps g)));
          ("overlay", match sr_overlay r with Some o => sop_overlay_to_json o | None => Null end)].
Inductive GraphError := RunIdRequired | NoEngine | GraphQuery (e : QueryError).
(** [cmd_sop_graph]; the document, or the report to print. *)
Definition cmd_sop_graph (fetch : string -> bool -> result SopGraphReport QueryError) (width : string -> nat) (pretty : Value -> string)
  (socket_exists : bool) (run_id : string) (json_output include_overlay : bool) : result string GraphError :=
  if str_is_empty run_id then Err RunIdRequired
  else if negb socket_exists then Err NoEngine
  else match fetch run_id include_overlay with
       | Err e => Err (GraphQuery e)
       | Ok r => Ok (if json_output then pretty (sop_graph_report_to_json r) +:+ nl else render_sop_graph_human width r run_id)
       end.

(** * Theorems *)

(** ** The groups *)

Lemma push_names bucket i out : map fst (push_bucket bucket i out) = map fst out.
Proof. unfold push_bucket. rewrite List.map_map. apply map_ext. intros [b l]. cbn. by case_bool_decide. Qed.
Lemma push_lookup bucket i out b l : NoDup (map fst out) -> (b, l) ∈ out ->
  (b, if bool_decide (b = bucket) then l ++ [i] else l) ∈ push_bucket bucket i out.
Proof.
  intros _ Hin. unfold push_bucket. apply list_elem_of_fmap. exists (b, l). split; [|done]. cbn. by case_bool_decide.
Qed.
Definition ids_in {A} (id_of bucket_of : A -> string) (b : string) (l : list A) : list string :=
  map id_of (filterb (fun x => bool_decide (bucket_of x = b)) l).
Lemma push_all {A} (id_of bucket_of : A -> string) l : forall out b k, NoDup (map fst out) -> (b, k) ∈ out ->
  let out' := foldl (fun out x => push_bucket (bucket_of x) (id_of x) out) out l in
  (b, k ++ ids_in id_of bucket_of b l) ∈ out' /\ map fst out' = map fst out.
Proof.
  induction l as [|x l IH]; intros out b k Hnd Hin; cbn [foldl]; [cbn; by rewrite app_nil_r|].
  pose proof (push_lookup (bucket_of x) (id_of x) out b k Hnd Hin) as Hp.
  destruct (IH _ b _ ltac:(by rewrite push_names) Hp) as [H1 H2]. cbv zeta. rewrite push_names in H2. split; [|done].
  replace (k ++ ids_in id_of bucket_of b (x :: l)) with ((if bool_decide (b = bucket_of x) then k ++ [id_of x] else k) ++ ids_in id_of bucket_of b l); [done|].
  unfold ids_in, filterb. cbn. destruct (decide (bucket_of x = b)) as [He|He].
  - rewrite !bool_decide_true by done. cbn. by rewrite <- app_assoc.
  - by rewrite !bool_decide_false by done.
Qed.
Definition unknown_steps (o : SopOverlay) (g : SopGraph) : list SopOverlayStep :=
  filterb (fun s => negb (existsb (fun t => bool_decide (st_id t = os_id s)) (gr_steps g))) (ov_steps o).
Definition own_bucket (s : SopOverlayStep) : string := if str_is_empty (os_state s) then "pending" else os_state s.
(** The groups are the five states in their order; each holds the steps of the
    graph in that state, in the order of the graph, then the steps of the
    overlay alone, and a step the overlay does not report is pending.  A step
    in any other state is in no group. *)
Theorem grouped_exact o g :
  map fst (grouped_states o g) = BUCKETS /\
  forall b, b ∈ BUCKETS ->
    (b, ids_in st_id (fun s => state_bucket o (st_id s)) b (gr_steps g) ++ ids_in os_id own_bucket b (unknown_steps o g)) ∈ grouped_states o g.
Proof.
  unfold grouped_states. set (out0 := map _ BUCKETS). assert (map fst out0 = BUCKETS) as Hn by done. assert (NoDup (map fst out0)) as Hd by (rewrite Hn; vm_compute; repeat constructor; set_solver).
  set (out1 := foldl _ out0 (gr_steps g)).
  assert (forall out, foldl (fun out s => if existsb (fun t => bool_decide (st_id t = os_id s)) (gr_steps g) then out else push_bucket (own_bucket s) (os_id s) out) out (ov_steps o)
    = foldl (fun out s => push_bucket (own_bucket s) (os_id s) out) out (unknown_steps o g)) as Hf.
  { unfold unknown_steps, filterb. induction (ov_steps o) as [|s l IH]; intros out; [done|]. cbn. destruct (existsb _ (gr_steps g)); cbn; apply IH. }
  assert (forall b, b ∈ BUCKETS -> (b, ids_in st_id (fun s => state_bucket o (st_id s)) b (gr_steps g)) ∈ out1 /\ map fst out1 = BUCKETS) as H1.
  { intros b Hb. assert ((b, []) ∈ out0) as H0 by (apply list_elem_of_fmap; by exists b).
    destruct (push_all st_id (fun s => state_bucket o (st_id s)) (gr_steps g) out0 b [] Hd H0) as [Ha Hm]. split; [exact Ha|]. by rewrite <- Hn. }
  assert (map fst out1 = BUCKETS) as Hm by (apply (H1 "done"); vm_compute; set_solver).
  change (foldl _ out1 (ov_steps o)) with (foldl (fun out s => if existsb (fun t => bool_decide (st_id t = os_id s)) (gr_steps g) then out else push_bucket (own_bucket s) (os_id s) out) out1 (ov_steps o)).
  rewrite Hf. split.
  - destruct (push_all os_id own_bucket (unknown_steps o g) out1 "done" _ ltac:(rewrite Hm, <- Hn; exact Hd) (proj1 (H1 "done" ltac:(vm_compute; set_solver)))) as [_ ->]. exact Hm.
  - intros b Hb. apply (push_all os_id own_bucket (unknown_steps o g) out1 b _ ltac:(rewrite Hm, <- Hn; exact Hd) (proj1 (H1 b Hb))).
Qed.

(** ** The report *)

Section ReportTheorems.
Context (parse : string -> option Value) (decode_graph : Value -> option SopGraph) (decode_overlay : Value -> option SopOverlay).
Definition report_requests (run_id : string) : list RpcRequest :=
  [initialize "sop-report-init"; mkRpc "sop-report-graph" "sops/graph" (run_params run_id); mkRpc "sop-report-overlay" "sops/run-overlay" (run_params run_id)].
(** A report with an overlay is one exchange of three requests on one
    connection: it succeeds exactly when the exchange does and both results
    decode, and holds what they decode to. *)
Theorem report_is_one_exchange c run_id r : run_id <> "" ->
  fetch_sop_graph_report parse decode_graph decode_overlay c run_id true = Ok r <->
  exists v0 vg vo g o, query parse c (report_requests run_id) = Ok [v0; vg; vo] /\ decode_graph vg = Some g /\ decode_overlay vo = Some o /\
    r = mkSopReport g (Some o).
Proof.
  intros Hne. unfold fetch_sop_graph_report, query, exchange, report_requests, decoded. destruct run_id as [|a run_id]; [done|]. cbn [str_is_empty negb].
  destruct (cn_expired c); [split; [done|by intros (? & ? & ? & ? & ? & ? & _)]|]. destruct (cn_connect c); [|split; [done|by intros (? & ? & ? & ? & ? & ? & _)]].
  cbn [converse rq_id initialize]. destruct (cn_write c 0%nat); [|split; [done|by intros (? & ? & ? & ? & ? & ? & _)]].
  destruct (read_response parse "sop-report-init" (cn_reads c)) as [[v0|e] reads0]; cbn; [|split; [done|by intros (? & ? & ? & ? & ? & ? & _)]].
  destruct (cn_write c 1%nat); [|split; [done|by intros (? & ? & ? & ? & ? & ? & _)]].
  destruct (read_response parse "sop-report-graph" reads0) as [[vg|e] reads1]; cbn; [|split; [done|by intros (? & ? & ? & ? & ? & ? & _)]].
  destruct (cn_write c 2%nat).
  2: { split; [destruct (decode_graph vg); done|by intros (? & ? & ? & ? & ? & ? & _)]. }
  destruct (read_response parse "sop-report-overlay" reads1) as [[vo|e] reads2]; cbn.
  2: { split; [destruct (decode_graph vg); done|by intros (? & ? & ? & ? & ? & ? & _)]. }
  destruct (decode_graph vg) as [g|] eqn:Eg; cbn.
  - destruct (decode_overlay vo) as [o|] eqn:Eo; cbn.
    + split; [intros [= <-]; by exists v0, vg, vo, g, o|]. intros (? & ? & ? & g' & o' & [= <- <- <-] & H1 & H2 & ->). congruence.
    + split; [done|]. intros (? & ? & ? & g' & o' & [= <- <- <-] & _ & H2 & _). congruence.
  - split; [done|]. intros (? & ? & ? & g' & o' & [= <- <- <-] & H1 & _). congruence.
Qed.
End ReportTheorems.

(** ** Concrete runs *)

Definition step_of (i : string) : SopStep := mkSopStep i "" "" [] [].
Definition at_ (i state : string) : SopOverlayStep := mkOverlayStep i state "" "" [].
Definition run_graph : SopGraph := mkSopGraph "r" "triage" [step_of "a"; step_of "b"; step_of "c"] [].
Example the_run_is_grouped :
  grouped_states (mkSopOverlay "r" "b" [at_ "a" "done"; at_ "b" "active"; at_ "z" ""] "" "" []) run_graph
  = [("active", ["b"]); ("done", ["a"]); ("failed", []); ("skipped", []); ("pending", ["c"; "z"])].
Proof. vm_compute. done. Qed.
(** A step in a state of its own is in no group. *)
Example unknown_state_is_lost :
  grouped_states (mkSopOverlay "r" "" [at_ "a" "running"; at_ "z" "running"] "" "" []) (mkSopGraph "r" "" [step_of "a"] [])
  = map (fun b => (b, [])) BUCKETS.
Proof. vm_compute. done. Qed.
(** Of two reports of one step the lookup takes the first, the groups the last. *)
Example two_reports_disagree :
  let o := mkSopOverlay "r" "" [at_ "a" "failed"; at_ "a" "done"] "" "" [] in
  os_state <$> overlay_step o "a" = Some "failed" /\ state_bucket o "a" = "done".
Proof. vm_compute. done. Qed.
Definition sop_lines (s : string) : option Value :=
  if bool_decide (s = "init") then Some (Object [("id", Str "sop-report-init"); ("result", Null)])
  else if bool_decide (s = "graph") then Some (Object [("id", Str "sop-report-graph"); ("result", Bool true)])
  else if bool_decide (s = "overlay") then Some (Object [("id", Str "sop-report-overlay"); ("result", Bool false)]) else None.
Definition no_overlay : SopOverlay := mkSopOverlay "r" "" [] "" "" [].
Lemma report_is_one_exchange_witness :
  "r" <> "" /\ exists v0 vg vo g o, query sop_lines (talking ["init"; "?"; "graph"; "overlay"]) (report_requests "r") = Ok [v0; vg; vo] /\
    (fun _ => Some run_graph) vg = Some g /\ (fun _ : Value => Some no_overlay) vo = Some o /\ mkSopReport run_graph (Some no_overlay) = mkSopReport g (Some o).
Proof.
  split; [discriminate|].
  apply (report_is_one_exchange sop_lines (fun _ => Some run_graph) (fun _ => Some no_overlay) (talking ["init"; "?"; "graph"; "overlay"]) "r"); [discriminate|].
  vm_compute. reflexivity.
Defined.
