(* ===== verification/EngineRoutes.v ===== *)
(** The engine's model routes (crates/zoder-core/src/config.rs,
    [EngineModelRegistry]) and the checks that a dispatch to the engine runs
    what was gated (crates/zoder-cli/src/main.rs).

    The engine's configuration is a document; the registry keeps the agents,
    the provider profiles by their dotted reference, and the default agent.
    From it come the closure of models an agent may run, the identity of its
    provider (implementation, transport, endpoint), and the binding of the
    providers of the program to the profiles of the engine.  The parsers of
    the documents are parameters; a TOML document is taken as the value it
    holds, without dates.  The [BTreeMap]s are the lists of their entries in
    key order. *)
From stdpp Require Import gmap strings.
From S2P Require Import Prelude Text Json Config.
Local Open Scope string_scope.
Local Open Scope Z_scope.
Local Open Scope list_scope.
Local Open Scope zoder_scope.

(** ** Sorted maps *)

Definition entry_get {A} (k : string) (m : list (string * A)) : option A :=
  snd <$> find_first (fun e => bool_decide (e.1 = k)) m.
Fixpoint entry_insert {A} (k : string) (v : A) (m : list (string * A)) : list (string * A) :=
  match m with
  | [] => [(k, v)]
  | (k', v') :: r =>
      match String.compare k k' with
      | Eq => (k, v) :: r
      | Lt => (k, v) :: m
      | Gt => (k', v') :: entry_insert k v r
      end
  end.
(** An exact key, or the first that differs in case only. *)
Definition entry_get_ci {A} (k : string) (m : list (string * A)) : option (string * A) :=
  or_opt (find_first (fun e => bool_decide (e.1 = k)) m) (find_first (fun e => eq_ignore_ascii_case e.1 k) m).

(** ** The registry *)

Record EngineAgentModel := mkAgentModel { ea_model : option string; ea_provider : option string }.
Record EngineProviderModel := mkProviderModel {
  em_model : string;
  em_chat_template_kwargs : option Value;
  em_reasoning_effort : option string;
  em_response_format : option Value;
  em_request_timeout_s : option Z;
  em_kind : option string;
  em_uri : option string;
  em_api_key : option string;
  em_wire_api : option string;
  em_endpoint : option string;
  em_resource : option string;
  em_deployment : option string;
  em_requires_openai_auth : bool;
  em_fallback_models : list string;
  em_fallback : list string
}.
Record EngineModelRegistry := mkRegistry {
  er_agents : list (string * EngineAgentModel);
  er_models : list (string * EngineProviderModel);
  default_agent : option string
}.
Definition empty_registry : EngineModelRegistry := mkRegistry [] [] None.
Record EngineProviderRoute := mkEngineRoute {
  er_ref : string;
  er_type : string;
  er_alias : string;
  er_implementation : string;
  er_kind : string;
  er_uri : string
}.

Inductive EngineError :=
| RootNotObject
| NotStringArray (alias field : string)
| BadTimeout (alias : string)
| UnsupportedWireApi (reference wire_api : string)
| NoTransport (reference implementation : string)
| AzureFamily (reference : string)
| MissingField (reference field : string)
| UnknownSelector (reference selector : string)
| CustomNeedsUri (reference : string)
| NoEndpoint (reference family : string)
| EmptyReference (alias : string)
| UnknownProfile (reference : string)
| FallbackCycle (references : list string)
| AmbiguousModel (model : string) (aliases : list string) (has_default : bool)
| ProfileAbsent (provider reference : string)
| NoneCompatible (provider : string) (references : list string)
| AmbiguousProfile (provider : string) (references : list string)
| KindDiffers (provider reference : string)
| EndpointDiffers (provider reference : string)
| ClaimedTwice (previous provider reference : string)
| ModelOnTwoAgents (model : string) (aliases : list string)
| NotEnoughFuel.

(** ** Reading a document *)

Definition string_array (object : Value) (field alias : string) : result (list string) EngineError :=
  match value_get object field with
  | None => Ok []
  | Some v =>
      match value_as_array v with
      | None => Err (NotStringArray alias field)
      | Some l => match mapM value_as_str l with Some ss => Ok ss | None => Err (NotStringArray alias field) end
      end
  end.
Definition json_timeout (object : Value) (alias : string) : result (option Z) EngineError :=
  match value_get object "request_timeout_s" with
  | None => Ok None
  | Some v => match opt_filter (fun n => 0 <? n) (value_as_u64 v) with Some n => Ok (Some n) | None => Err (BadTimeout alias) end
  end.
Definition toml_timeout (object : Value) (alias : string) : result (option Z) EngineError :=
  match value_get object "request_timeout_s" with
  | None => Ok None
  | Some v => match opt_filter (fun n => 0 <? n) (value_as_i64 v) with Some n => Ok (Some n) | None => Err (BadTimeout alias) end
  end.
Definition is_object (v : Value) : bool := match v with Object _ => true | _ => false end.
Definition get_either (v : Value) (a b : string) : option Value := or_opt (value_get v a) (value_get v b).
Definition extra_or_own (v : Value) (k : string) : option Value :=
  or_opt (e ← value_get v "provider_extra"; value_get e k) (value_get v k).

Section Collect.
Variable timeout_of : Value -> string -> result (option Z) EngineError.

Definition read_profile (child : Value) (alias model : string) : result EngineProviderModel EngineError :=
  let? timeout := timeout_of child alias in
  let? fallback_models := string_array child "fallback_models" alias in
  let? fallback := string_array child "fallback" alias in
  Ok (mkProviderModel model (opt_filter is_object (value_get child "chat_template_kwargs"))
        (extra_or_own child "reasoning_effort" ≫= value_as_str) (opt_filter is_object (extra_or_own child "response_format"))
        timeout (get_either child "kind" "type" ≫= value_as_str) (value_get_str child "uri") (value_get_str child "api_key")
        (value_get_str child "wire_api") (value_get_str child "endpoint")
        (get_either child "resource" "azure_openai_resource" ≫= value_as_str)
        (get_either child "deployment" "azure_openai_deployment" ≫= value_as_str)
        (default false (value_get child "requires_openai_auth" ≫= value_as_bool)) fallback_models fallback).
Definition dotted (prefix name : string) : string := if str_is_empty prefix then name else prefix +:+ "." +:+ name.

(** One child of the table and what it nests; only a table is read. *)
Fixpoint collect_child (prefix name : string) (v : Value) (out : list (string * EngineProviderModel)) :
  result (list (string * EngineProviderModel)) EngineError :=
  match v with
  | Object entries =>
      let alias := dotted prefix name in
      let? out := match value_get_str v "model" with
                  | Some model => let? p := read_profile v alias model in Ok (entry_insert alias p out)
                  | None => Ok out
                  end in
      (fix collect (l : list (string * Value)) (out : list (string * EngineProviderModel)) :=
         match l with
         | [] => Ok out
         | (n, x) :: r => let? out := collect_child alias n x out in collect r out
         end) entries out
  | _ => Ok out
  end.
Fixpoint collect_models (l : list (string * Value)) (out : list (string * EngineProviderModel)) :
  result (list (string * EngineProviderModel)) EngineError :=
  match l with
  | [] => Ok out
  | (n, x) :: r => let? out := collect_child "" n x out in collect_models r out
  end.
Definition read_agent (e : string * Value) : option (string * EngineAgentModel) :=
  match e.2 with
  | Object _ =>
      let route := mkAgentModel (value_get_str e.2 "model") (value_get_str e.2 "model_provider") in
      if bool_decide (is_Some (ea_model route)) || bool_decide (is_Some (ea_provider route)) then Some (e.1, route) else None
  | _ => None
  end.
Definition from_document (root : Value) : result EngineModelRegistry EngineError :=
  match root with
  | Object _ =>
      let agents := foldl (fun m e => entry_insert e.1 e.2 m) [] (omap read_agent (default [] (value_get root "agents" ≫= value_as_object))) in
      let dflt := opt_filter (fun a => negb (str_is_empty a)) (trim <$> (v ← value_get root "acp"; value_get_str v "default_agent")) in
      let? models := collect_models (default [] (v ← value_get root "providers"; m ← value_get v "models"; value_as_object m)) [] in
      Ok (mkRegistry agents models dflt)
  | _ => Err RootNotObject
  end.
End Collect.
Definition from_json : Value -> result EngineModelRegistry EngineError := from_document json_timeout.
Definition from_toml : Value -> result EngineModelRegistry EngineError := from_document toml_timeout.
(** [load_from]: a missing file has no routes; [read] is what the file parses
    to. *)
Definition load_from (read : option (option Value)) : option (result EngineModelRegistry EngineError) :=
  match read with
  | None => Some (Ok empty_registry)
  | Some None => None
  | Some (Some doc) => Some (from_toml doc)
  end.

(** ** Agents, models, settings *)

Section Registry.
Variable reg : EngineModelRegistry.

Definition agent_route (alias : string) : option EngineAgentModel := snd <$> entry_get_ci alias (er_agents reg).
Definition model_for_agent (alias : string) : option string :=
  route ← agent_route alias;
  or_opt (ea_model route) (p ← ea_provider route; em_model <$> entry_get p (er_models reg)).
Definition model_provider_ref_for_agent (alias : string) : option string := agent_route alias ≫= ea_provider.
Definition registry_is_empty : bool := match er_agents reg with [] => true | _ => false end.

(** The setting of the profile that serves a model: the selected agent's, the
    reviewer's, then the first profile in key order. *)
Definition serving {A} (get : EngineProviderModel -> option A) (model : string) (p : EngineProviderModel) : option A :=
  if bool_decide (em_model p = model) then get p else None.
Definition agent_setting {A} (get : EngineProviderModel -> option A) (model alias : string) : option A :=
  reference ← model_provider_ref_for_agent alias;
  entry_get reference (er_models reg) ≫= serving get model.
Definition setting_for_model {A} (get : EngineProviderModel -> option A) (model : string) (agent_alias : option string) : option A :=
  or_opt (agent_alias ≫= agent_setting get model)
    (or_opt (agent_setting get model "reviewer") (head (omap (fun e => serving get model e.2) (er_models reg)))).
Definition chat_template_kwargs_for_model : string -> option string -> option Value := setting_for_model em_chat_template_kwargs.
Definition reasoning_effort_for_model : string -> option string -> option string := setting_for_model em_reasoning_effort.
Definition response_format_for_model : string -> option string -> option Value := setting_for_model em_response_format.
Definition request_timeout_s_for_model : string -> option string -> option Z := setting_for_model em_request_timeout_s.

Record DirectRequestSettings := mkSettings { ds_reasoning_effort : option string; ds_chat_template_kwargs : option Value }.
(** [cfg_effort] and [cfg_kwargs] are those of the program's own entry for
    the model. *)
Definition request_settings_for (model : string) (agent_alias cli_reasoning cfg_effort : option string) (cfg_kwargs : option Value) :
  DirectRequestSettings :=
  mkSettings (or_opt cli_reasoning (or_opt cfg_effort (reasoning_effort_for_model model agent_alias)))
    (or_opt cfg_kwargs (chat_template_kwargs_for_model model agent_alias)).

(** ** The closure of attempts *)

Definition index_ci (alias : string) (path : list string) : option nat :=
  fst <$> list_find (fun seen => eq_ignore_ascii_case seen alias = true) path.
(** [path] is the chain of profiles being visited, the first one visited
    first. *)
Fixpoint collect_candidates (fuel : nat) (include_primary : bool) (path : list string) (alias : string) : result (list string) EngineError :=
  match fuel with
  | O => Err NotEnoughFuel
  | S fuel =>
      match index_ci alias path with
      | Some i => Err (FallbackCycle (drop i path ++ [alias]))
      | None =>
          match entry_get_ci alias (er_models reg) with
          | None => Err (UnknownProfile alias)
          | Some (k, p) =>
              (fix visit (l : list string) (out : list string) : result (list string) EngineError :=
                 match l with
                 | [] => Ok out
                 | f :: r => let? more := collect_candidates fuel true (path ++ [k]) f in visit r (out ++ more)
                 end) (em_fallback p) ((if include_primary then [em_model p] else []) ++ em_fallback_models p)
          end
      end
  end.
Definition candidate_fuel : nat := S (length (er_models reg)).
Definition model_candidates_for_agent (alias : string) : result (option (list string)) EngineError :=
  match agent_route alias with
  | None => Ok None
  | Some route =>
      match ea_model route, ea_provider route with
      | Some model, Some provider => let? more := collect_candidates candidate_fuel false [] provider in Ok (Some (model :: more))
      | Some model, None => Ok (Some [model])
      | None, None => Ok None
      | None, Some provider => let? all := collect_candidates candidate_fuel true [] provider in Ok (Some all)
      end
  end.
End Registry.

(** ** The identity of a profile *)

Definition IMPLEMENTATION_ALIASES : list (string * string) := [
    ("azure_openai", "azure"); ("azure-openai", "azure"); ("openai_compatible", "openai-compatible");
    ("openai_responses", "openai-responses"); ("openai_codex", "openai-codex"); ("codex", "openai-codex");
    ("anthropic-custom", "anthropic"); ("claude-code", "anthropic"); ("grok", "xai"); ("google", "gemini"); ("google-gemini", "gemini");
    ("together-ai", "together"); ("fireworks-ai", "fireworks"); ("vercel-ai", "vercel"); ("cloudflare-ai", "cloudflare");
    ("nvidia-nim", "nvidia"); ("build.nvidia.com", "nvidia"); ("aws-bedrock", "bedrock"); ("lm-studio", "lmstudio");
    ("lite-llm", "litellm"); ("hf", "huggingface"); ("01ai", "yi"); ("lingyiwanwu", "yi"); ("tencent", "hunyuan"); ("baidu", "qianfan");
    ("github-copilot", "copilot"); ("ovhcloud", "ovh"); ("opencode-zen", "opencode"); ("opencode-go", "opencode");
    ("llama.cpp", "llamacpp"); ("deep-myst", "deepmyst"); ("silicon-flow", "siliconflow"); ("deep-infra", "deepinfra");
    ("ai21-labs", "ai21"); ("friendliai", "friendli"); ("lepton-ai", "lepton"); ("lambda-ai", "lambda_ai");
    ("github-models", "github_models"); ("step", "stepfun"); ("stepfun-intl", "stepfun"); ("step-intl", "stepfun");
    ("gemini-cli", "gemini_cli"); ("volcengine", "doubao"); ("ark", "doubao"); ("doubao-cn", "doubao"); ("kimi", "moonshot");
    ("kimi-cn", "moonshot"); ("kimi-intl", "moonshot"); ("kimi-global", "moonshot"); ("kimi-code", "moonshot"); ("kimi_coding", "moonshot");
    ("kimi_for_coding", "moonshot"); ("moonshot-cn", "moonshot"); ("moonshot-intl", "moonshot"); ("moonshot-global", "moonshot");
    ("qwen-cn", "qwen"); ("qwen-intl", "qwen"); ("qwen-us", "qwen"); ("qwen-international", "qwen"); ("qwen-code", "qwen");
    ("qwen-oauth", "qwen"); ("qwen_oauth", "qwen"); ("dashscope", "qwen"); ("dashscope-cn", "qwen"); ("dashscope-intl", "qwen");
    ("dashscope-us", "qwen"); ("dashscope-international", "qwen"); ("bailian", "qwen"); ("aliyun-bailian", "qwen"); ("aliyun", "qwen");
    ("zhipu", "glm"); ("glm-global", "glm"); ("zhipu-global", "glm"); ("glm-cn", "glm"); ("zhipu-cn", "glm"); ("bigmodel", "glm");
    ("z.ai", "zai"); ("zai-global", "zai"); ("z.ai-global", "zai"); ("zai-cn", "zai"); ("z.ai-cn", "zai"); ("minimax-intl", "minimax");
    ("minimax-io", "minimax"); ("minimax-global", "minimax"); ("minimax-portal", "minimax"); ("minimax-portal-global", "minimax");
    ("minimax-cn", "minimax"); ("minimaxi", "minimax"); ("minimax-portal-cn", "minimax"); ("minimax-oauth", "minimax");
    ("minimax-oauth-global", "minimax"); ("minimax-oauth-cn", "minimax")
].
Definition OPENAI_COMPATIBLE_FAMILIES : list string := [
    "ai21"; "aihubmix"; "anyscale"; "arcee"; "astrai"; "atomic_chat"; "avian"; "baichuan"; "baseten"; "cerebras"; "cloudflare"; "cohere";
    "deepinfra"; "deepmyst"; "deepseek"; "doubao"; "featherless"; "fireworks"; "friendli"; "github_models"; "glm"; "groq"; "huggingface";
    "hunyuan"; "hyperbolic"; "inception"; "kilo"; "lambda_ai"; "lepton"; "litellm"; "llamacpp"; "lmstudio"; "manifest"; "minimax";
    "mistral"; "moonshot"; "morph"; "nearai"; "nebius"; "novita"; "nscale"; "nvidia"; "opencode"; "openrouter"; "osaurus"; "perplexity";
    "qianfan"; "qwen"; "reka"; "sambanova"; "sglang"; "siliconflow"; "stepfun"; "synthetic"; "together"; "upstage"; "venice"; "vercel";
    "vllm"; "xai"; "yi"; "zai"
].
Definition FIXED_ENDPOINTS : list (string * string) := [
    ("openai", "https://api.openai.com/v1"); ("anthropic", "https://api.anthropic.com"); ("openrouter", "https://openrouter.ai/api/v1");
    ("groq", "https://api.groq.com/openai/v1"); ("vercel", "https://ai-gateway.vercel.sh/v1");
    ("cloudflare", "https://gateway.ai.cloudflare.com/v1"); ("synthetic", "https://api.synthetic.new/openai/v1");
    ("opencode", "https://opencode.ai/zen/v1"); ("doubao", "https://ark.cn-beijing.volces.com/api/v3");
    ("mistral", "https://api.mistral.ai/v1"); ("deepseek", "https://api.deepseek.com"); ("together", "https://api.together.xyz");
    ("fireworks", "https://api.fireworks.ai/inference/v1"); ("novita", "https://api.novita.ai/openai");
    ("perplexity", "https://api.perplexity.ai"); ("cohere", "https://api.cohere.com/compatibility");
    ("sglang", "http://localhost:30000/v1"); ("vllm", "http://localhost:8000/v1"); ("astrai", "https://as-trai.com/v1");
    ("siliconflow", "https://api.siliconflow.com/v1"); ("aihubmix", "https://aihubmix.com/v1"); ("litellm", "http://localhost:4000/v1");
    ("cerebras", "https://api.cerebras.ai/v1"); ("sambanova", "https://api.sambanova.ai/v1");
    ("hyperbolic", "https://api.hyperbolic.xyz/v1"); ("deepinfra", "https://api.deepinfra.com/v1/openai");
    ("huggingface", "https://router.huggingface.co/v1"); ("ai21", "https://api.ai21.com/studio/v1"); ("reka", "https://api.reka.ai/v1");
    ("baseten", "https://inference.baseten.co/v1"); ("nscale", "https://inference.api.nscale.com/v1");
    ("anyscale", "https://api.endpoints.anyscale.com/v1"); ("nebius", "https://api.tokenfactory.nebius.com/v1");
    ("friendli", "https://api.friendli.ai/serverless/v1"); ("lepton", "https://llama3-1-405b.lepton.run/api/v1");
    ("manifest", "https://app.manifest.build/v1"); ("morph", "https://api.morphllm.com/v1");
    ("github_models", "https://models.github.ai/inference"); ("upstage", "https://api.upstage.ai/v1");
    ("featherless", "https://api.featherless.ai/v1"); ("arcee", "https://api.arcee.ai/api/v1"); ("lambda_ai", "https://api.lambda.ai/v1");
    ("inception", "https://api.inceptionlabs.ai/v1"); ("baichuan", "https://api.baichuan-ai.com/v1");
    ("yi", "https://api.lingyiwanwu.com/v1"); ("hunyuan", "https://api.hunyuan.cloud.tencent.com/v1"); ("avian", "https://api.avian.io/v1");
    ("deepmyst", "https://api.deepmyst.com/v1"); ("venice", "https://api.venice.ai"); ("nearai", "https://cloud-api.near.ai/v1");
    ("atomic_chat", "http://127.0.0.1:1337/v1"); ("xai", "https://api.x.ai/v1"); ("lmstudio", "http://localhost:1234/v1");
    ("llamacpp", "http://localhost:8080/v1"); ("osaurus", "http://localhost:1337/v1"); ("qianfan", "https://qianfan.baidubce.com/v2")
].
(** The default selector of a family and its endpoints. *)
Definition TYPED_ENDPOINTS : list (string * (string * list (string * string))) := [
    ("minimax", ("intl", [("cn", "https://api.minimaxi.com/v1"); ("intl", "https://api.minimax.io/v1")]));
    ("moonshot", ("intl", [("cn", "https://api.moonshot.cn/v1"); ("intl", "https://api.moonshot.ai/v1"); ("code", "https://api.kimi.com/coding/v1")]));
    ("qwen", ("intl", [("cn", "https://dashscope.aliyuncs.com/compatible-mode/v1"); ("intl", "https://dashscope-intl.aliyuncs.com/compatible-mode/v1"); ("us", "https://dashscope-us.aliyuncs.com/compatible-mode/v1"); ("code", "https://dashscope.aliyuncs.com/api/v1/services/aigc/text-generation/generation")]));
    ("glm", ("global", [("cn", "https://open.bigmodel.cn/api/paas/v4"); ("global", "https://api.z.ai/api/paas/v4")]));
    ("zai", ("global", [("cn", "https://open.bigmodel.cn/api/coding/paas/v4"); ("global", "https://api.z.ai/api/coding/paas/v4")]));
    ("stepfun", ("intl", [("cn", "https://api.stepfun.com/v1"); ("intl", "https://api.stepfun.ai/v1")]));
    ("kilo", ("gateway", [("gateway", "https://api.kilo.ai/api/gateway")]))
].
Definition table_get {A} (k : string) (t : list (string * A)) : option A := entry_get k t.
Definition filled (o : option string) : option string := opt_filter (fun s => negb (str_is_empty s)) (trim <$> o).
Definition canonicalize_engine_provider_implementation (implementation : string) : string :=
  default implementation (table_get implementation IMPLEMENTATION_ALIASES).
Definition resolve_engine_provider_implementation (provider_type : string) (p : EngineProviderModel) : string :=
  let implementation := canonicalize_engine_provider_implementation (default provider_type (filled (em_kind p))) in
  if bool_decide (implementation = "openai") && em_requires_openai_auth p then "openai-codex" else implementation.
Definition openai_compatible_engine_family (family : string) : bool := bool_decide (family ∈ OPENAI_COMPATIBLE_FAMILIES).
Definition chat_or_responses (responses : bool) : string := if responses then "openai-responses" else "openai-chat".
Definition is_in (s : string) (l : list string) : bool := bool_decide (s ∈ l).
Definition resolve_engine_provider_kind (reference : string) (p : EngineProviderModel) (implementation : string) : result string EngineError :=
  let wire_api := filled (em_wire_api p) in
  let responses := bool_decide (wire_api = Some "responses") in
  let? _ := match wire_api with
            | Some api => if is_in api ["responses"; "chat_completions"] then Ok tt else Err (UnsupportedWireApi reference api)
            | None => Ok tt
            end in
  if is_in implementation ["anthropic"] then Ok "anthropic"
  else if is_in implementation ["azure"] then Ok "azure-openai"
  else if is_in implementation ["openai-responses"; "openai-codex"] then Ok "openai-responses"
  else if is_in implementation ["openai"] then Ok (chat_or_responses (em_requires_openai_auth p || responses))
  else if is_in implementation ["custom"] then Ok (chat_or_responses responses)
  else if is_in implementation ["openai-compatible"; "openai_compatible"; "openai-chat"; "openai_chat"] then Ok "openai-chat"
  else if openai_compatible_engine_family implementation then Ok (chat_or_responses (is_in implementation ["opencode"] && responses))
  else Err (NoTransport reference implementation).
Definition required_engine_provider_field (reference field : string) (value : option string) : result string EngineError :=
  match filled value with Some v => Ok v | None => Err (MissingField reference field) end.
Definition ignored_uri_engine_provider_endpoint (implementation : string) : option string :=
  table_get implementation [("groq", "https://api.groq.com/openai/v1"); ("openrouter", "https://openrouter.ai/api/v1")].
Definition CODEX_ENDPOINT : string := "https://chatgpt.com/backend-api/codex/responses".
Definition resolved_typed_engine_endpoint (reference family : string) (p : EngineProviderModel) : result (option string) EngineError :=
  match table_get family TYPED_ENDPOINTS with
  | None => Ok None
  | Some (dflt, selectors) =>
      let selector := default dflt (filled (em_endpoint p)) in
      match table_get selector selectors with
      | Some uri => Ok (Some uri)
      | None => Err (UnknownSelector reference selector)
      end
  end.
Definition fixed_engine_provider_endpoint (family : string) : option string := table_get family FIXED_ENDPOINTS.
Definition azure_endpoint (resource deployment : string) : string :=
  "https://" +:+ resource +:+ ".openai.azure.com/openai/deployments/" +:+ deployment.
Definition resolve_engine_provider_uri (reference family : string) (p : EngineProviderModel) (implementation kind : string) :
  result string EngineError :=
  if bool_decide (kind = "azure-openai") then
    if bool_decide (family = "azure") then
      let? resource := required_engine_provider_field reference "resource" (em_resource p) in
      let? deployment := required_engine_provider_field reference "deployment" (em_deployment p) in
      Ok (azure_endpoint resource deployment)
    else Err (AzureFamily reference)
  else match ignored_uri_engine_provider_endpoint implementation with
  | Some uri => Ok uri
  | None =>
      match filled (em_uri p) with
      | Some uri => Ok uri
      | None =>
          if bool_decide (implementation = "openai-codex") then Ok CODEX_ENDPOINT
          else if bool_decide (family = "custom") then Err (CustomNeedsUri reference)
          else
            let? typed := resolved_typed_engine_endpoint reference family p in
            match or_opt typed (fixed_engine_provider_endpoint family) with
            | Some uri => Ok uri
            | None => Err (NoEndpoint reference family)
            end
      end
  end.
Definition reference_parts (reference : string) : string * string := default (reference, reference) (split_once "." reference).
Definition project_provider_route (reference : string) (p : EngineProviderModel) : result EngineProviderRoute EngineError :=
  let '(family, profile) := reference_parts reference in
  let implementation := resolve_engine_provider_implementation family p in
  let? kind := resolve_engine_provider_kind reference p implementation in
  let? uri := resolve_engine_provider_uri reference family p implementation kind in
  Ok (mkEngineRoute reference family profile implementation kind uri).

Section Identity.
Variable reg : EngineModelRegistry.
Definition provider_route_for_agent (alias : string) : result (option EngineProviderRoute) EngineError :=
  match agent_route reg alias ≫= ea_provider with
  | None => Ok None
  | Some reference =>
      if str_is_empty (trim reference) then Err (EmptyReference alias)
      else match entry_get_ci reference (er_models reg) with
      | None => Err (UnknownProfile reference)
      | Some (k, p) => let? r := project_provider_route k p in Ok (Some r)
      end
  end.
Definition provider_route_for_ref (reference : string) : result (option EngineProviderRoute) EngineError :=
  match entry_get reference (er_models reg) with
  | None => Ok None
  | Some p => let? r := project_provider_route reference p in Ok (Some r)
  end.
Fixpoint project_all (l : list (string * EngineProviderModel)) : result (list EngineProviderRoute) EngineError :=
  match l with
  | [] => Ok []
  | (k, p) :: r => let? x := project_provider_route k p in let? xs := project_all r in Ok (x :: xs)
  end.
Definition provider_routes_for_alias (alias : string) : result (list EngineProviderRoute) EngineError :=
  project_all (filterb (fun e => bool_decide ((reference_parts e.1).2 = alias)) (er_models reg)).

(** ** The agent of a model *)

Definition select_matching_agent (model : string) (preferred : option string) (matches : list string) : result (option string) EngineError :=
  match matches with
  | [] => Ok None
  | [only] => Ok (Some only)
  | _ =>
      let named a := find_first (fun alias => eq_ignore_ascii_case alias a) matches in
      match preferred ≫= named, preferred with
      | Some alias, _ => Ok (Some alias)
      | None, Some _ => Err (AmbiguousModel model matches (bool_decide (is_Some (default_agent reg))))
      | None, None =>
          match default_agent reg ≫= named with
          | Some alias => Ok (Some alias)
          | None => Err (AmbiguousModel model matches (bool_decide (is_Some (default_agent reg))))
          end
      end
  end.
Definition agents_running (model : string) : list string :=
  filterb (fun alias => bool_decide (model_for_agent reg alias = Some model)) (map fst (er_agents reg)).
Definition agent_for_model_with_preference (model : string) (preferred : option string) : result (option string) EngineError :=
  select_matching_agent model preferred (agents_running model).
Definition agent_for_model (model : string) : result (option string) EngineError := agent_for_model_with_preference model None.
End Identity.

(** ** Binding the providers to the profiles *)

Definition trim_slashes (s : string) : string := trim_end_matches (fun c => Ascii.eqb c "/") s.
(** [Provider::engine_endpoint_is_compatible] *)
Definition engine_endpoint_is_compatible (p : Provider) (engine_uri implementation : string) : bool :=
  let engine_uri := trim_slashes engine_uri in
  let own := trim_slashes (trim (base_url p)) in
  if bool_decide (implementation = "openai-codex") then
    bool_decide (engine_uri = if bool_decide (is_Some (strip_suffix "/responses" own)) then own else own +:+ "/responses")
  else bool_decide (engine_uri = own).
Definition route_compatible (p : Provider) (r : EngineProviderRoute) : bool :=
  engine_kind_is_compatible p (er_kind r) && engine_endpoint_is_compatible p (er_uri r) (er_implementation r).
Definition with_engine_ref (p : Provider) (r : option string) : Provider :=
  mkProvider (prov_id p) (model_aliases p) r (base_url p) (prov_kind p) (auth p) (paid p) (billing p) (subscription p) (serves p)
    (azure_api_version p) (max_context_tokens p) (overload_backoff_min_s p) (first_token_timeout_s p) (stream p) (rate_limit_group p)
    (max_concurrent p) (max_requests_per_minute p).
Definition unset_unmapped (p : Provider) : Provider := if endpoint_is_configured p then p else with_engine_ref p None.
Definition bindable (p : Provider) : bool := negb (str_contains PLACEHOLDER_PROVIDER_HOST (base_url p)) && endpoint_is_configured p.
Definition select_profile (reg : EngineModelRegistry) (p : Provider) : result (option EngineProviderRoute) EngineError :=
  match engine_provider_ref p with
  | Some reference =>
      let? r := provider_route_for_ref reg reference in
      match r with Some r => Ok (Some r) | None => Err (ProfileAbsent (prov_id p) reference) end
  | None =>
      let? exact := provider_route_for_ref reg (prov_id p) in
      match exact with
      | Some r => Ok (Some r)
      | None =>
          let? named := provider_routes_for_alias reg (prov_id p) in
          match named with
          | [] => Ok None
          | [only] => Ok (Some only)
          | _ =>
              match filterb (route_compatible p) named with
              | [only] => Ok (Some only)
              | [] => Err (NoneCompatible (prov_id p) (map er_ref named))
              | several => Err (AmbiguousProfile (prov_id p) (map er_ref several))
              end
          end
      end
  end.
(** One provider; [claimed] are the profiles taken so far with their takers. *)
Definition bind_provider (reg : EngineModelRegistry) (claimed : list (string * string)) (p : Provider) :
  result (Provider * list (string * string)) EngineError :=
  if negb (bindable p) then Ok (p, claimed)
  else
    let? selected := select_profile reg p in
    match selected with
    | None => Ok (p, claimed)
    | Some r =>
        if negb (engine_kind_is_compatible p (er_kind r)) then Err (KindDiffers (prov_id p) (er_ref r))
        else if negb (engine_endpoint_is_compatible p (er_uri r) (er_implementation r)) then Err (EndpointDiffers (prov_id p) (er_ref r))
        else match entry_get (er_ref r) claimed with
        | Some previous => Err (ClaimedTwice previous (prov_id p) (er_ref r))
        | None => Ok (with_engine_ref p (Some (er_ref r)), entry_insert (er_ref r) (prov_id p) claimed)
        end
    end.
Fixpoint bind_providers (reg : EngineModelRegistry) (claimed : list (string * string)) (ps : list Provider) :
  result (list Provider) EngineError :=
  match ps with
  | [] => Ok []
  | p :: r => let? pc := bind_provider reg claimed p in let? rest := bind_providers reg pc.2 r in Ok (pc.1 :: rest)
  end.
(** A provider made of a profile that an agent selects. *)
Definition materialized (reference : string) (m : EngineProviderModel) (r : EngineProviderRoute) : Provider :=
  mkProvider reference [] (Some reference) (er_uri r) (er_kind r)
    (match filled (em_api_key m) with Some token => AuthBearer token | None => AuthNone end)
    false Metered None [em_model m] None None None None None None None None.
Definition represented (ps : list Provider) (reference : string) : bool :=
  existsb (fun p => bool_decide (prov_id p = reference) || bool_decide (engine_provider_ref p = Some reference)) ps.
Definition materialize (reg : EngineModelRegistry) (ps : list Provider) (reference : string) : result (list Provider) EngineError :=
  if represented ps reference then Ok ps
  else match entry_get reference (er_models reg) with
  | None => Ok ps
  | Some m =>
      let? r := provider_route_for_ref reg reference in
      match r with Some r => Ok (ps ++ [materialized reference m r]) | None => Ok ps end
  end.
Fixpoint materialize_all (reg : EngineModelRegistry) (ps : list Provider) (refs : list string) : result (list Provider) EngineError :=
  match refs with
  | [] => Ok ps
  | r :: rest => let? ps := materialize reg ps r in materialize_all reg ps rest
  end.
(** The references the agents name, each once, in order. *)
Definition agent_references (reg : EngineModelRegistry) : list string :=
  map fst (foldl (fun m a => match ea_provider a with Some r => entry_insert r tt m | None => m end) [] (map snd (er_agents reg))).
Definition bind_engine_provider_refs (reg : EngineModelRegistry) (ps : list Provider) : result (list Provider) EngineError :=
  let ps := map unset_unmapped ps in
  match er_models reg with
  | [] => Ok ps
  | _ => let? ps := bind_providers reg [] ps in materialize_all reg ps (agent_references reg)
  end.

(** ** Before a dispatch *)

(** [pinned_model_mismatch]: whether there is one. *)
Definition pinned_model_mismatch (pinned executed : option string) : bool :=
  match pinned, executed with
  | None, _ => false
  | Some _, None => true
  | Some p, Some e => negb (bool_decide (p = e))
  end.
Definition reconcile_agentic_model_identity (pinned : option string) (routed_model : string) (daemon_model cost_model : option string) :
  string * bool :=
  (default routed_model (or_opt cost_model daemon_model),
   pinned_model_mismatch pinned daemon_model
   || match cost_model with Some m => pinned_model_mismatch pinned (Some m) | None => false end).

Inductive VerifyError :=
| NoLiveRegistry
| Registry (e : EngineError)
| NoLiveRoute
| EmptyLiveRoute
| LiveAliasDiffers (live : string)
| NoLiveAgent
| LiveModelDiffers (live : string)
| AgentPinDiffers
| UngatedFallbacks (models : list string)
| NoLiveProvider
| NoEngineRef
| ProviderMismatch (reference family profile kind endpoint : bool).
Definition lift {A} (r : result A EngineError) : result A VerifyError := match r with Ok a => Ok a | Err e => Err (Registry e) end.
Definition verify_live_zeroclaw_provider (live : option EngineProviderRoute) (gated : Provider) : result unit VerifyError :=
  match live with
  | None => Err NoLiveProvider
  | Some live =>
      match filled (engine_provider_ref gated) with
      | None => Err NoEngineRef
      | Some expected =>
          let '(family, profile) := reference_parts expected in
          let a := negb (bool_decide (er_ref live = expected)) in
          let b := negb (bool_decide (er_type live = family)) in
          let c := negb (bool_decide (er_alias live = profile)) in
          let d := negb (engine_kind_is_compatible gated (er_kind live)) in
          let e := negb (engine_endpoint_is_compatible gated (er_uri live) (er_implementation live)) in
          if a || b || c || d || e then Err (ProviderMismatch a b c d e) else Ok tt
      end
  end.
(** [cli_model] and [cli_agent] are `-m` and `--agent`. *)
Definition verify_selection (cli_model cli_agent : option string) (selected_alias routed_model live_model : string)
  (live : EngineModelRegistry) : result unit VerifyError :=
  match cli_model, cli_agent with
  | Some pin, _ =>
      let? agent := lift (agent_for_model_with_preference live pin cli_agent) in
      match agent with
      | None => Err NoLiveAgent
      | Some a =>
          if negb (eq_ignore_ascii_case a selected_alias) then Err (LiveAliasDiffers a)
          else if pinned_model_mismatch (Some pin) (Some live_model) then Err (LiveModelDiffers live_model) else Ok tt
      end
  | None, Some pin =>
      if negb (eq_ignore_ascii_case pin selected_alias) then Err AgentPinDiffers
      else if negb (bool_decide (live_model = routed_model)) then Err (LiveModelDiffers live_model) else Ok tt
  | None, None =>
      let? agent := lift (agent_for_model_with_preference live routed_model None) in
      match agent with
      | None => Err NoLiveAgent
      | Some a =>
          if negb (eq_ignore_ascii_case a selected_alias) then Err (LiveAliasDiffers a)
          else if negb (bool_decide (live_model = routed_model)) then Err (LiveModelDiffers live_model) else Ok tt
      end
  end.
Definition verify_live_zeroclaw_route (cli_model cli_agent : option string) (selected_alias routed_model : string) (gated : Provider)
  (live : option EngineModelRegistry) : result string VerifyError :=
  match live with
  | None => Err NoLiveRegistry
  | Some live =>
      let? candidates := lift (model_candidates_for_agent live selected_alias) in
      match candidates with
      | None => Err NoLiveRoute
      | Some [] => Err EmptyLiveRoute
      | Some (live_model :: rest) =>
          let? _ := verify_selection cli_model cli_agent selected_alias routed_model live_model live in
          match rest with
          | _ :: _ => Err (UngatedFallbacks rest)
          | [] =>
              let? provider := lift (provider_route_for_agent live selected_alias) in
              let? _ := verify_live_zeroclaw_provider provider gated in
              Ok live_model
          end
      end
  end.

(** ** The alias of a model *)

(** [known] are the aliases the daemon reports, in the iteration order of the
    set. *)
Definition len_cmp (a b : string) : comparison := Nat.compare (String.length a) (String.length b).
Definition reconcile_alias (known : list string) (want : string) : string :=
  match known with
  | [] => want
  | _ =>
      if is_in want known then want
      else match find_first (fun k => eq_ignore_ascii_case k want) known with
      | Some k => k
      | None =>
          let w := to_ascii_lowercase want in
          default want (max_by len_cmp (filterb (fun k => starts_with (to_ascii_lowercase k) w) known))
      end
  end.
Definition MODEL_ALIASES : list (string * string) := [
    ("minimax", "minimax"); ("deepseek-v4-pro", "deepseek-v4-pro"); ("qwen3-coder", "qwen3-coder-480b"); ("qwen-235b", "qwen-235b");
    ("397", "qwen3-397b"); ("kimi", "kimi-k2.6"); ("nemotron-3-super", "nemotron-super"); ("nemotron-super", "nemotron-super");
    ("nemotron-ultra-253", "nemotron-ultra-253b"); ("llama-3.1-nemotron-ultra", "nemotron-ultra-253b");
    ("nemotron-3-ultra", "nemotron-ultra"); ("nemotron-ultra", "nemotron-ultra"); ("gpt-oss", "gpt-oss-120b");
    ("llama-3.3-70b", "llama-3.3-70b")].
(** [configured_agent_for_model]; [cfg_agents] are the program's own agents
    with the model each resolves to. *)
Definition configured_agent_for_model (reg : EngineModelRegistry) (cfg_agents : list (string * option string)) (model : string)
  (preferred : option string) : result (option string) EngineError :=
  let? found := agent_for_model_with_preference reg model preferred in
  match found with
  | Some alias => Ok (Some alias)
  | None =>
      if negb (registry_is_empty reg) then Ok None
      else match map fst (filterb (fun e => bool_decide (e.2 = Some model)) cfg_agents) with
      | [] => Ok None
      | [only] => Ok (Some only)
      | matches =>
          match preferred ≫= (fun a => find_first (fun alias => eq_ignore_ascii_case alias a) matches) with
          | Some alias => Ok (Some alias)
          | None => Err (ModelOnTwoAgents model matches)
          end
      end
  end.
Inductive AliasError := AliasRegistry (e : EngineError) | NotReported (alias : string) | NoAgentForModel.
Definition resolve_agent_alias (cli_model cli_agent : option string) (reg : EngineModelRegistry) (cfg_agents : list (string * option string))
  (known : list string) (model : string) : result string AliasError :=
  match cli_model, cli_agent with
  | None, Some a => Ok a
  | _, _ =>
      match configured_agent_for_model reg cfg_agents model cli_agent with
      | Err e => Err (AliasRegistry e)
      | Ok (Some alias) =>
          match known with
          | [] => Ok alias
          | _ =>
              match find_first (fun k => eq_ignore_ascii_case k alias) known with
              | Some live => Ok live
              | None => if bool_decide (is_Some cli_model) then Err (NotReported alias) else Ok (reconcile_alias known alias)
              end
          end
      | Ok None =>
          if bool_decide (is_Some cli_model) then Err NoAgentForModel
          else
            let m := to_ascii_lowercase model in
            match find_first (fun e => str_contains e.1 m) MODEL_ALIASES with
            | Some (_, alias) => Ok (reconcile_alias known alias)
            | None => Ok (reconcile_alias known "minimax")
            end
      end
  end.

(** * Theorems *)

(** ** The closure of attempts *)

Section Closure.
Variable reg : EngineModelRegistry.

Definition profile (alias : string) : option (string * EngineProviderModel) := entry_get_ci alias (er_models reg).
(** The references a profile may fall back to, itself included. *)
Inductive reaches : string -> string -> Prop :=
| reach_here a : reaches a a
| reach_step a k p f b : profile a = Some (k, p) -> f ∈ em_fallback p -> reaches f b -> reaches a b.
Definition falls_back (a b : string) : Prop := exists k p f, profile a = Some (k, p) /\ f ∈ em_fallback p /\ reaches f b.
(** A model an attempt that starts at a reference may run. *)
Definition may_run (a c : string) : Prop :=
  exists b k p, reaches a b /\ profile b = Some (k, p) /\ (c = em_model p \/ c ∈ em_fallback_models p).
Definition may_run_from (include_primary : bool) (a c : string) : Prop :=
  if include_primary then may_run a c
  else exists k p, profile a = Some (k, p) /\ (c ∈ em_fallback_models p \/ exists f, f ∈ em_fallback p /\ may_run f c).
Definition configured_all (a : string) : Prop := forall b, reaches a b -> is_Some (profile b).
(** What an error of the walk from [root] tells: a reference without a
    profile, or a profile that falls back to itself, case apart. *)
Definition defect (root : string) (e : EngineError) : Prop :=
  match e with
  | UnknownProfile b => reaches root b /\ profile b = None
  | FallbackCycle l => exists a b k p, reaches root b /\ profile b = Some (k, p) /\ falls_back b a /\ eq_ignore_ascii_case k a = true
                                  /\ head l = Some k /\ last l = Some a
  | _ => False
  end.

Lemma reaches_trans a b d : reaches a b -> reaches b d -> reaches a d.
Proof. induction 1; [done|]. intros Hd. eapply reach_step; eauto. Qed.
Lemma reaches_next a k p f : profile a = Some (k, p) -> f ∈ em_fallback p -> reaches a f.
Proof. intros Ha Hf. by eapply reach_step; [| |apply reach_here]. Qed.

(** The profiles a path has not visited. *)
Definition unvisited (path : list string) : nat := length (filterb (fun e => negb (bool_decide (e.1 ∈ path))) (er_models reg)).
Lemma eq_ignore_case_refl s : eq_ignore_ascii_case s s = true.
Proof. unfold eq_ignore_ascii_case. by apply bool_decide_eq_true_2. Qed.
Lemma profile_key a k p : profile a = Some (k, p) -> (k, p) ∈ er_models reg /\ eq_ignore_ascii_case k a = true.
Proof.
  unfold profile, entry_get_ci, or_opt. destruct (find_first _ _) as [x|] eqn:E1; intros H2; simplify_eq.
  - apply find_first_Some in E1 as [Hin Hk%bool_decide_eq_true]. cbn in Hk. subst. split; [done|apply eq_ignore_case_refl].
  - by apply find_first_Some in H2 as [Hin Hk].
Qed.
Lemma unvisited_snoc path k p : (k, p) ∈ er_models reg -> k ∉ path -> (unvisited (path ++ [k]) < unvisited path)%nat.
Proof.
  intros Hin Hk. unfold unvisited, filterb. revert Hin. generalize (er_models reg) as l.
  assert (forall l : list (string * EngineProviderModel), (length (List.filter (fun e => negb (bool_decide (e.1 ∈ path ++ [k]))) l)
    <= length (List.filter (fun e => negb (bool_decide (e.1 ∈ path))) l))%nat) as Hle.
  { induction l as [|[k' p'] l IH]; cbn; [lia|]. case_bool_decide as H1; case_bool_decide as H2; cbn; try lia.
    destruct H1. apply elem_of_app. by left. }
  induction l as [|[k' p'] l IH]; intros Hin; [by apply not_elem_of_nil in Hin|]. cbn. apply elem_of_cons in Hin as [[= <- <-]|Hin].
  - rewrite bool_decide_eq_true_2 by (apply elem_of_app; right; by left). rewrite bool_decide_eq_false_2 by done. cbn.
    pose proof (Hle l). lia.
  - specialize (IH Hin). case_bool_decide as H1; case_bool_decide as H2; cbn; try lia. destruct H1. apply elem_of_app. by left.
Qed.
Lemma index_ci_none alias path k : index_ci alias path = None -> k ∈ path -> eq_ignore_ascii_case k alias = false.
Proof.
  unfold index_ci. destruct (list_find _ path) as [x|] eqn:E; [done|]. intros _ Hk. apply list_find_None in E.
  rewrite Forall_forall in E. specialize (E k Hk). by destruct (eq_ignore_ascii_case k alias).
Qed.

Definition on_path (root : string) (path : list string) (a : string) : Prop :=
  reaches root a /\ forall k, k ∈ path -> exists b p, reaches root b /\ profile b = Some (k, p) /\ falls_back b a.
Lemma on_path_next root path a k p f : on_path root path a -> profile a = Some (k, p) -> f ∈ em_fallback p -> on_path root (path ++ [k]) f.
Proof.
  intros [Hr Hp] Ha Hf. split; [eapply reaches_trans; [done|by eapply reaches_next]|]. intros k' [Hk|Hk%list_elem_of_singleton]%elem_of_app.
  - destruct (Hp k' Hk) as (b & p' & Hb & Hpb & (k1 & p1 & f1 & H1 & H2 & H3)). exists b, p'. split; [done|]. split; [done|].
    exists k1, p1, f1. split; [done|]. split; [done|]. eapply reaches_trans; [done|by eapply reaches_next].
  - subst k'. exists a, p. split; [done|]. split; [done|]. exists k, p, f. split; [done|]. split; [done|apply reach_here].
Qed.

Lemma may_run_split a k p c : profile a = Some (k, p) ->
  may_run a c <-> c = em_model p \/ c ∈ em_fallback_models p \/ exists f, f ∈ em_fallback p /\ may_run f c.
Proof.
  intros Ha. split.
  - intros (b & k' & p' & Hr & Hb & Hc). inversion Hr as [|? k1 p1 f ? H1 H2 H3]; subst; [rewrite Ha in Hb; simplify_eq; naive_solver|].
    rewrite Ha in H1. simplify_eq. right. right. exists f. split; [done|]. by exists b, k', p'.
  - intros [Hc|[Hc|(f & Hf & b & k' & p' & Hr & Hb & Hc)]].
    + exists a, k, p. split; [apply reach_here|]. by split; [|left].
    + exists a, k, p. split; [apply reach_here|]. by split; [|right].
    + exists b, k', p'. split; [by eapply reach_step|]. by split.
Qed.
Lemma may_run_from_split inc a k p c : profile a = Some (k, p) ->
  may_run_from inc a c <-> c ∈ (if inc then [em_model p] else []) ++ em_fallback_models p \/ exists f, f ∈ em_fallback p /\ may_run f c.
Proof.
  intros Ha. destruct inc; cbn [may_run_from app].
  - rewrite (may_run_split a k p c Ha), elem_of_cons. tauto.
  - split; [intros (k' & p' & Hp & Hc); rewrite Ha in Hp; by simplify_eq|]. intros Hc. by exists k, p.
Qed.

Definition walk_ok (root : string) (inc : bool) (a : string) (r : result (list string) EngineError) : Prop :=
  match r with
  | Ok cs => configured_all a /\ forall c, c ∈ cs <-> may_run_from inc a c
  | Err e => defect root e
  end.
Lemma collect_candidates_ok root fuel : forall inc path a, (unvisited path < fuel)%nat -> on_path root path a ->
  walk_ok root inc a (collect_candidates reg fuel inc path a).
Proof.
  induction fuel as [|fuel IH]; intros inc path a Hfuel Hon; [lia|]. cbn [collect_candidates].
  destruct (index_ci a path) as [i|] eqn:Ei.
  { unfold index_ci in Ei. destruct (list_find _ path) as [[i' k]|] eqn:Ef; [|done]. simplify_eq/=.
    apply list_find_Some in Ef as (Hk & Heq & _). destruct Hon as [Hr Hp]. destruct (Hp k) as (b & p & Hb & Hpb & Hfb).
    { by eapply list_elem_of_lookup_2. }
    exists a, b, k, p. do 4 (split; [done|]). rewrite last_snoc. split; [|done].
    rewrite head_lookup, lookup_app_l, lookup_drop, Nat.add_0_r; [done|]. rewrite length_drop.
    apply lookup_lt_Some in Hk. lia. }
  destruct (entry_get_ci a (er_models reg)) as [[k p]|] eqn:Ep; [|by destruct Hon].
  destruct (profile_key a k p Ep) as [Hin Hci]. assert (k ∉ path) as Hnew.
  { intros Hk. pose proof (index_ci_none a path k Ei Hk). congruence. }
  pose proof (unvisited_snoc path k p Hin Hnew) as Hlt.
  assert (forall l out, (forall f, f ∈ l -> f ∈ em_fallback p) ->
    match (fix visit (l : list string) (out : list string) : result (list string) EngineError :=
       match l with [] => Ok out
       | f :: r => result_bind (collect_candidates reg fuel true (path ++ [k]) f) (fun more => visit r (out ++ more)) end) l out with
    | Ok cs => (forall f, f ∈ l -> configured_all f) /\ forall c, c ∈ cs <-> c ∈ out \/ exists f, f ∈ l /\ may_run f c
    | Err e => defect root e
    end) as Hv.
  { induction l as [|f l IHl]; intros out Hl.
    - split; [by intros f Hf%not_elem_of_nil|]. intros c. split; [by left|]. intros [Hc|(f & Hf%not_elem_of_nil & _)]; done.
    - assert (f ∈ em_fallback p) as Hf by (apply Hl; by left). cbn [result_bind].
      pose proof (IH true (path ++ [k]) f ltac:(lia) (on_path_next root path a k p f Hon Ep Hf)) as Hw.
      destruct (collect_candidates reg fuel true (path ++ [k]) f) as [more|e]; [|done]. destruct Hw as [Hcf Hmore]. cbn [result_bind].
      specialize (IHl (out ++ more) (fun g Hg => Hl g (list_elem_of_further _ _ _ Hg))).
      match goal with H : match ?r with Ok _ => _ | Err _ => _ end |- match ?r with Ok _ => _ | Err _ => _ end =>
        destruct r as [cs|e']; [|done] end.
      destruct IHl as [Hcl Hcs]. split; [intros g [->|Hg]%elem_of_cons; [done|by apply Hcl]|].
      intros c. rewrite Hcs, elem_of_app, Hmore. cbn [may_run_from]. setoid_rewrite elem_of_cons. naive_solver. }
  specialize (Hv (em_fallback p) ((if inc then [em_model p] else []) ++ em_fallback_models p) (fun f Hf => Hf)).
  match goal with H : match ?r with Ok _ => _ | Err _ => _ end |- walk_ok _ _ _ ?r => destruct r as [cs|e]; [|done] end.
  destruct Hv as [Hcl Hcs]. split.
  - intros b Hb. inversion Hb as [|? k1 p1 f ? H1 H2 H3]; subst; [by exists (k, p)|]. unfold profile in H1. rewrite Ep in H1. simplify_eq.
    by apply (Hcl f).
  - intros c. by rewrite (may_run_from_split inc a k p c Ep).
Qed.
Lemma candidates_walk inc a : walk_ok a inc a (collect_candidates reg (candidate_fuel reg) inc [] a).
Proof.
  apply collect_candidates_ok; [|split; [apply reach_here|by intros k Hk%not_elem_of_nil]].
  unfold unvisited, candidate_fuel, filterb. pose proof (List.filter_length_le (fun e => negb (bool_decide (e.1 ∈ []))) (er_models reg)).
  lia.
Qed.

Definition candidates_ok (alias : string) : Prop :=
match model_candidates_for_agent reg alias with
  | Ok None => model_for_agent reg alias = None \/ agent_route reg alias = None
  | Ok (Some cs) =>
      exists route, agent_route reg alias = Some route /\ forall c, c ∈ cs <->
        ea_model route = Some c \/
        exists a, ea_provider route = Some a /\ configured_all a /\ may_run_from (bool_decide (ea_model route = None)) a c
  | Err e => exists route a, agent_route reg alias = Some route /\ ea_provider route = Some a /\ defect a e
  end.
Lemma candidates_spec alias : candidates_ok alias.
Proof.
  unfold candidates_ok, model_candidates_for_agent, model_for_agent. destruct (agent_route reg alias) as [[m pr]|]; cbn [mbind option_bind ea_model ea_provider]; [|by right].
  destruct m as [m|], pr as [a|]; cbn [ea_model ea_provider].
  - pose proof (candidates_walk false a) as Hw. destruct (collect_candidates _ _ _ _ _) as [cs|e]; cbn [result_bind].
    + destruct Hw as [Hc Hcs]. eexists. split; [done|]. intros c. rewrite elem_of_cons. cbn [may_run_from] in *. rewrite Hcs. naive_solver.
    + by eexists _, a.
  - eexists. split; [done|]. intros c. rewrite list_elem_of_singleton. naive_solver.
  - pose proof (candidates_walk true a) as Hw. destruct (collect_candidates _ _ _ _ _) as [cs|e]; cbn [result_bind].
    + destruct Hw as [Hc Hcs]. eexists. split; [done|]. intros c. rewrite Hcs. naive_solver.
    + by eexists _, a.
  - left. done.
Qed.
(** The walk over the profiles ends for every registry.  What it returns for
    an agent is the models the engine may run for it, all of them and no
    other, and every profile it may come to is configured; it fails only when
    a reference that can be come to has no profile, or a profile falls back
    to itself. *)
Theorem candidates_exact alias :
  match model_candidates_for_agent reg alias with
  | Ok None => model_for_agent reg alias = None \/ agent_route reg alias = None
  | Ok (Some cs) =>
      exists route, agent_route reg alias = Some route /\ forall c, c ∈ cs <->
        ea_model route = Some c \/
        exists a, ea_provider route = Some a /\ configured_all a /\ may_run_from (bool_decide (ea_model route = None)) a c
  | Err e => exists route a, agent_route reg alias = Some route /\ ea_provider route = Some a /\ defect a e
  end.
Proof. apply (candidates_spec alias). Qed.
End Closure.

(** ** The identity of a profile *)

Lemma result_bind_Ok {A B E} (r : result A E) (k : A -> result B E) b : result_bind r k = Ok b -> exists a, r = Ok a /\ k a = Ok b.
Proof. destruct r as [a|e]; cbn; [|done]. intros Hk. by exists a. Qed.
Ltac inv_ok := repeat match goal with
  | H : result_bind _ _ = Ok _ |- _ => apply result_bind_Ok in H as (? & ? & ?); simplify_eq/=
  | H : Ok _ = Ok _ |- _ => simplify_eq/=
  | H : Err _ = Ok _ |- _ => discriminate H
  end.

(** Where an endpoint may come from. *)
Inductive known_endpoint (family : string) (p : EngineProviderModel) (implementation : string) : string -> Prop :=
| given u : filled (em_uri p) = Some u -> known_endpoint family p implementation u
| computed r d : family = "azure" -> filled (em_resource p) = Some r -> filled (em_deployment p) = Some d ->
    known_endpoint family p implementation (azure_endpoint r d)
| built_in u : ignored_uri_engine_provider_endpoint implementation = Some u -> known_endpoint family p implementation u
| subscribed : implementation = "openai-codex" -> known_endpoint family p implementation CODEX_ENDPOINT
| selected dflt sel s u : family <> "custom" -> table_get family TYPED_ENDPOINTS = Some (dflt, sel) ->
    s = default dflt (filled (em_endpoint p)) -> table_get s sel = Some u -> known_endpoint family p implementation u
| fixed u : family <> "custom" -> fixed_engine_provider_endpoint family = Some u -> known_endpoint family p implementation u.

(** The identity of a profile is never guessed: a projected route names its
    own profile, speaks one of the four wires, and its endpoint is the one the
    profile gives, is computed from its typed fields, or is the documented
    one of its family; a custom profile without an endpoint is refused, unless
    its implementation has a fixed one. *)
Theorem route_never_guessed reference p r : project_provider_route reference p = Ok r ->
  er_ref r = reference /\ (er_type r, er_alias r) = reference_parts reference /\
  er_kind r ∈ ["anthropic"; "azure-openai"; "openai-responses"; "openai-chat"] /\
  known_endpoint (er_type r) p (er_implementation r) (er_uri r) /\
  (er_type r = "custom" -> filled (em_uri p) = None -> er_implementation r ∈ ["groq"; "openrouter"; "openai-codex"]).
Proof.
  unfold project_provider_route. destruct (reference_parts reference) as [family prof]. intros Hr. inv_ok. cbn [er_ref er_type er_alias er_kind er_implementation er_uri].
  set (impl := resolve_engine_provider_implementation family p) in *. do 2 (split; [done|]).
  match goal with H : resolve_engine_provider_kind _ _ _ = Ok ?k |- _ => rename H into Hk; set (kind := k) in * end.
  match goal with H : resolve_engine_provider_uri _ _ _ _ _ = Ok ?u |- _ => rename H into Hu; set (uri := u) in * end. split.
  { unfold resolve_engine_provider_kind, chat_or_responses in Hk. clear -Hk. inv_ok.
    repeat match type of H0 with (if ?b then _ else _) = _ => destruct b end; simplify_eq/=; repeat case_match; set_solver. }
  unfold resolve_engine_provider_uri in Hu. case_bool_decide as Ha.
  { case_bool_decide as Hf; [|done]. inv_ok. unfold required_engine_provider_field in *. destruct (filled (em_resource p)) eqn:E1; [|done].
    destruct (filled (em_deployment p)) eqn:E2; [|done]. simplify_eq/=. split; [by eapply computed|]. intros Hx. congruence. }
  destruct (ignored_uri_engine_provider_endpoint impl) as [u|] eqn:Ei.
  { simplify_eq/=. split; [by apply built_in|]. intros _ _. unfold ignored_uri_engine_provider_endpoint, table_get, entry_get in Ei.
    cbn [find_first fst] in Ei. do 2 (case_bool_decide; [set_solver|]). done. }
  destruct (filled (em_uri p)) as [u|] eqn:Eu; [simplify_eq/=; split; [by apply given|done]|].
  case_bool_decide as Hc; [simplify_eq/=; split; [by apply subscribed|rewrite Hc; set_solver]|]. case_bool_decide as Hcu; [done|]. inv_ok.
  unfold resolved_typed_engine_endpoint in *. destruct (table_get family TYPED_ENDPOINTS) as [[dflt sel]|] eqn:Et.
  - destruct (table_get (default dflt (filled (em_endpoint p))) sel) as [u|] eqn:Es; [|done]. simplify_eq/=.
    split; [by eapply selected|done].
  - simplify_eq/=. destruct (fixed_engine_provider_endpoint family) as [u|] eqn:Ef; [|done]. simplify_eq/=. split; [by apply fixed|done].
Qed.

(** ** Before a dispatch *)

Lemma candidates_single live alias route m c a : model_candidates_for_agent live alias = Ok (Some [m]) -> agent_route live alias = Some route ->
  ea_provider route = Some a -> may_run_from live (bool_decide (ea_model route = None)) a c -> c = m.
Proof.
  intros Hc Hr Ha Hm. pose proof (candidates_spec live alias) as Hs. unfold candidates_ok in Hs. rewrite Hc in Hs.
  destruct Hs as (route' & Hr' & Hs). assert (c ∈ [m]) as Hin; [|by apply list_elem_of_singleton in Hin].
  apply Hs. right. exists a. rewrite Hr in Hr'. simplify_eq. split; [done|]. split; [|done].
  (* the walk succeeded, so everything it may come to is configured *)
  assert (m ∈ [m]) as Hm1 by (by left). clear Hm Hs Hm1 c. unfold model_candidates_for_agent in Hc. rewrite Hr, Ha in Hc.
  destruct (ea_model route') as [m'|]; apply result_bind_Ok in Hc as (more & Hmore & _).
  - pose proof (candidates_walk live false a) as Hw. rewrite Hmore in Hw. by destruct Hw.
  - pose proof (candidates_walk live true a) as Hw. rewrite Hmore in Hw. by destruct Hw.
Qed.

(** When the running engine is verified, it runs one model for the selected
    agent whatever fails on the way: the pinned one, or the one that was
    routed and gated; the agent is the one its own registry chooses; and its
    provider is the very profile the gated provider is bound to, with a
    compatible transport and endpoint. *)
Theorem live_route_verified cli_model cli_agent alias routed gated live m :
  verify_live_zeroclaw_route cli_model cli_agent alias routed gated (Some live) = Ok m ->
  m = default routed cli_model /\
  match cli_model, cli_agent with
  | None, Some pin => eq_ignore_ascii_case pin alias = true
  | _, _ => exists a, agent_for_model_with_preference live m (cli_model ≫= fun _ => cli_agent) = Ok (Some a) /\ eq_ignore_ascii_case a alias = true
  end /\
  exists route a k p r, agent_route live alias = Some route /\ ea_provider route = Some a /\
    (forall c, may_run_from live (bool_decide (ea_model route = None)) a c -> c = m) /\
    (forall x, ea_model route = Some x -> x = m) /\
    entry_get_ci a (er_models live) = Some (k, p) /\ project_provider_route k p = Ok r /\
    filled (engine_provider_ref gated) = Some (er_ref r) /\ route_compatible gated r = true.
Proof.
  unfold verify_live_zeroclaw_route. intros Hv. apply result_bind_Ok in Hv as (cands & Hc & Hv).
  destruct (model_candidates_for_agent live alias) as [cands'|] eqn:Ec; [|done]. cbn [lift] in Hc. simplify_eq.
  destruct cands as [[|live_model rest]|]; [done| |done]. apply result_bind_Ok in Hv as ([] & Hsel & Hv).
  destruct rest; [|done]. apply result_bind_Ok in Hv as (prov & Hprov & Hv). apply result_bind_Ok in Hv as ([] & Hlive & Hv). simplify_eq/=.
  assert (m = default routed cli_model /\
    match cli_model, cli_agent with
    | None, Some pin => eq_ignore_ascii_case pin alias = true
    | _, _ => exists a, agent_for_model_with_preference live m (cli_model ≫= fun _ => cli_agent) = Ok (Some a) /\ eq_ignore_ascii_case a alias = true
    end) as [Hm Hag].
  { unfold verify_selection in Hsel. destruct cli_model as [pin|].
    - apply result_bind_Ok in Hsel as (ag & Hag & Hsel). destruct ag as [a|]; [|done].
      destruct (eq_ignore_ascii_case a alias) eqn:Ea; [|done]. cbn in Hsel. case_bool_decide; [|done]. subst. split; [done|].
      destruct (agent_for_model_with_preference live m cli_agent) eqn:Ef; cbn in Hag; [|done]. simplify_eq. by exists a.
    - destruct cli_agent as [pin|].
      + destruct (eq_ignore_ascii_case pin alias) eqn:Ea; [|done]. cbn in Hsel. by case_bool_decide.
      + apply result_bind_Ok in Hsel as (ag & Hag & Hsel). destruct ag as [a|]; [|done].
        destruct (eq_ignore_ascii_case a alias) eqn:Ea; [|done]. cbn in Hsel. case_bool_decide; [|done]. subst. split; [done|].
        destruct (agent_for_model_with_preference live routed None) eqn:Ef; cbn in Hag; [|done]. simplify_eq. by exists a. }
  split; [done|]. split; [done|].
  unfold verify_live_zeroclaw_provider in Hlive. destruct prov as [r|]; [|done].
  destruct (filled (engine_provider_ref gated)) as [expected|] eqn:Ee; [|done].
  destruct (reference_parts expected) as [family prof]. destruct (_ || _) eqn:Eb in Hlive; [done|].
  repeat (apply orb_false_iff in Eb as [Eb ?]). repeat match goal with H : negb _ = false |- _ => apply negb_false_iff in H end.
  apply bool_decide_eq_true in Eb.
  unfold provider_route_for_agent in Hprov. destruct (agent_route live alias) as [route|] eqn:Er; [|done]. cbn [mbind option_bind] in Hprov.
  destruct (ea_provider route) as [a|] eqn:Ea; [|done]. destruct (str_is_empty (trim a)); [done|].
  destruct (entry_get_ci a (er_models live)) as [[k p]|] eqn:Ep; [|done]. destruct (project_provider_route k p) as [r'|] eqn:Epr; [|done].
  cbn in Hprov. simplify_eq. exists route, a, k, p, r. do 2 (split; [done|]).
  split; [intros c Hc; by eapply candidates_single|]. split.
  { intros x Hx. pose proof (candidates_spec live alias) as Hs. unfold candidates_ok in Hs. rewrite Ec in Hs. destruct Hs as (route' & Hr' & Hs).
    rewrite Er in Hr'. simplify_eq. assert (x ∈ [default routed cli_model]) as Hin by (apply Hs; by left). by apply list_elem_of_singleton in Hin. }
  do 3 (split; [done|]). unfold route_compatible. by apply andb_true_iff.
Qed.

(** ** Binding *)

Lemma entry_get_insert {A} k k' (v : A) m : entry_get k (entry_insert k' v m) = if bool_decide (k = k') then Some v else entry_get k m.
Proof.
  unfold entry_get. induction m as [|[k1 v1] m IH]; cbn.
  - case_bool_decide as H1; case_bool_decide as H2; naive_solver.
  - destruct (String.compare k' k1) eqn:E; cbn.
    + apply String.compare_eq_iff in E as ->. repeat case_bool_decide; naive_solver.
    + repeat case_bool_decide; naive_solver.
    + destruct (decide (k1 = k)) as [->|Hne]; [|by rewrite (bool_decide_eq_false_2 (k1 = k))].
      rewrite (bool_decide_eq_true_2 (k = k)) by done. rewrite bool_decide_eq_false_2; [done|]. intros ->.
      by rewrite string_compare_refl in E.
Qed.

(** What the pass gives of a provider. *)
Definition bound_to (reg : EngineModelRegistry) (p p' : Provider) : Prop :=
  exists r, p' = with_engine_ref p r /\ (bindable p = false -> r = engine_provider_ref p) /\
  forall x, bindable p = true -> r = Some x -> exists m route, entry_get x (er_models reg) = Some m /\
    project_provider_route x m = Ok route /\ route_compatible p route = true.
Definition taken (ps : list Provider) : list string := omap (fun p => if bindable p then engine_provider_ref p else None) ps.

Lemma with_engine_ref_id p : with_engine_ref p (engine_provider_ref p) = p.
Proof. by destruct p. Qed.
Lemma bindable_ref p r : bindable (with_engine_ref p r) = bindable p.
Proof. done. Qed.
Lemma project_ref k p r : project_provider_route k p = Ok r -> er_ref r = k.
Proof. unfold project_provider_route. destruct (reference_parts k). intros H. by inv_ok. Qed.
Lemma route_for_ref_Ok reg x r : provider_route_for_ref reg x = Ok (Some r) ->
  er_ref r = x /\ exists m, entry_get x (er_models reg) = Some m /\ project_provider_route x m = Ok r.
Proof.
  unfold provider_route_for_ref. destruct (entry_get x (er_models reg)) as [m|]; [|done]. intros H. inv_ok.
  split; [by eapply project_ref|by exists m].
Qed.
Lemma project_all_elem l rs r : project_all l = Ok rs -> r ∈ rs -> exists k p, (k, p) ∈ l /\ project_provider_route k p = Ok r.
Proof.
  revert rs. induction l as [|[k p] l IH]; intros rs; cbn; [intros [= <-] Hr%not_elem_of_nil; done|].
  intros H Hr. apply result_bind_Ok in H as (x & Hx & H). apply result_bind_Ok in H as (xs & Hxs & H). simplify_eq.
  apply elem_of_cons in Hr as [->|Hr]; [exists k, p; split; [by left|done]|].
  destruct (IH _ Hxs Hr) as (k' & p' & Hin & Hp). exists k', p'. split; [by right|done].
Qed.
(** The registry keeps one profile per reference. *)
Definition one_per_reference (reg : EngineModelRegistry) : Prop := NoDup (map fst (er_models reg)).
Lemma entry_get_unique {A} k (v : A) m : NoDup (map fst m) -> (k, v) ∈ m -> entry_get k m = Some v.
Proof.
  unfold entry_get. induction m as [|[k1 v1] m IH]; cbn; [intros _ Hm%not_elem_of_nil; done|].
  intros [Hn Hd]%NoDup_cons [[= <- <-]|Hin]%elem_of_cons; [by rewrite bool_decide_eq_true_2|].
  rewrite bool_decide_eq_false_2; [by apply IH|]. intros ->. apply Hn. apply list_elem_of_In, in_map_iff. exists (k, v).
  split; [done|by apply list_elem_of_In].
Qed.
Lemma select_profile_Ok reg p r : one_per_reference reg -> select_profile reg p = Ok (Some r) ->
  exists m, entry_get (er_ref r) (er_models reg) = Some m /\ project_provider_route (er_ref r) m = Ok r.
Proof.
  intros Hone. unfold select_profile. destruct (engine_provider_ref p) as [x|].
  - intros H. apply result_bind_Ok in H as ([r'|] & Hr & H); [|done]. simplify_eq. apply route_for_ref_Ok in Hr as [-> Hm]. done.
  - intros H. apply result_bind_Ok in H as ([r'|] & Hr & H).
    + simplify_eq. apply route_for_ref_Ok in Hr as [-> Hm]. done.
    + apply result_bind_Ok in H as (named & Hn & H). assert (r ∈ named) as Hin.
      { destruct named as [|a [|b l]]; [done|simplify_eq; by left|].
        destruct (filterb (route_compatible p) (a :: b :: l)) as [|x [|y t]] eqn:Ef; [done| |done]. simplify_eq.
        assert (r ∈ filterb (route_compatible p) (a :: b :: l)) as Hx by (rewrite Ef; by left).
        by apply elem_of_filterb in Hx as [_ Hx]. }
      destruct (project_all_elem _ _ _ Hn Hin) as (k & m & Hk & Hp). rewrite (project_ref _ _ _ Hp). exists m. split; [|done].
      apply entry_get_unique; [done|]. by apply elem_of_filterb in Hk as [_ Hk].
Qed.
Lemma select_profile_None reg p : select_profile reg p = Ok None -> engine_provider_ref p = None.
Proof.
  unfold select_profile. destruct (engine_provider_ref p) as [x|]; [|done]. intros H. apply result_bind_Ok in H as ([r|] & _ & H); done.
Qed.

Lemma bind_providers_ok reg ps : one_per_reference reg -> forall claimed ps', bind_providers reg claimed ps = Ok ps' ->
  Forall2 (bound_to reg) ps ps' /\ NoDup (taken ps') /\ forall x, x ∈ taken ps' -> entry_get x claimed = None.
Proof.
  intros Hone. induction ps as [|p ps IH]; intros claimed ps' H; cbn in H.
  - simplify_eq. split; [constructor|]. split; [constructor|]. by intros x Hx%not_elem_of_nil.
  - apply result_bind_Ok in H as ([p' claimed'] & Hp & H). apply result_bind_Ok in H as (rest & Hrest & H). simplify_eq/=.
    destruct (IH _ _ Hrest) as (Hall & Hnd & Hfree). unfold bind_provider in Hp.
    assert (forall o, engine_provider_ref (with_engine_ref p o) = o) as Href by done.
    destruct (bindable p) eqn:Eb; cbn [negb] in Hp.
    2: { simplify_eq. split; [constructor; [exists (engine_provider_ref p'); split; [by rewrite with_engine_ref_id|]; split; [done|congruence]|done]|].
         unfold taken. cbn. rewrite Eb. done. }
    apply result_bind_Ok in Hp as (sel & Hsel & Hp). destruct sel as [r|].
    + destruct (engine_kind_is_compatible p (er_kind r)) eqn:Ek; [|done]. destruct (engine_endpoint_is_compatible p (er_uri r) (er_implementation r)) eqn:Ee; [|done].
      cbn [negb] in Hp. destruct (entry_get (er_ref r) claimed) eqn:Ec; [done|]. simplify_eq.
      destruct (select_profile_Ok _ _ _ Hone Hsel) as (m & Hm & Hpr).
      split; [constructor; [|done]; exists (Some (er_ref r)); split; [done|]; split; [congruence|]|].
      { intros x _ [= <-]. exists m, r. split; [done|]. split; [done|]. unfold route_compatible. by rewrite Ek, Ee. }
      unfold taken. cbn [omap list_omap]. rewrite bindable_ref, Eb, Href. fold (taken rest). split.
      * constructor; [|done]. intros Hin. specialize (Hfree _ Hin). rewrite entry_get_insert, bool_decide_eq_true_2 in Hfree by done. done.
      * intros x [->|Hx]%elem_of_cons; [done|]. specialize (Hfree _ Hx). rewrite entry_get_insert in Hfree. by case_bool_decide.
    + simplify_eq. apply select_profile_None in Hsel. split.
      * constructor; [|done]. exists None. split; [by rewrite <- Hsel, with_engine_ref_id|]. split; [congruence|done].
      * unfold taken. cbn. rewrite Eb, Hsel. done.
Qed.

Lemma represented_app a b x : represented (a ++ b) x = represented a x || represented b x.
Proof. apply existsb_app. Qed.
Lemma materialize_all_ok reg refs : forall ps ps', materialize_all reg ps refs = Ok ps' ->
  exists made, ps' = ps ++ made /\
    Forall (fun p => exists x m r, x ∈ refs /\ entry_get x (er_models reg) = Some m /\ project_provider_route x m = Ok r /\
                     p = materialized x m r /\ represented ps x = false) made /\
    forall x, x ∈ refs -> is_Some (entry_get x (er_models reg)) -> represented ps' x = true.
Proof.
  induction refs as [|x refs IH]; intros ps ps' H; cbn in H.
  - simplify_eq. exists []. rewrite app_nil_r. split; [done|]. split; [constructor|]. by intros x Hx%not_elem_of_nil.
  - apply result_bind_Ok in H as (ps1 & H1 & H). destruct (IH _ _ H) as (made & -> & Hm & Hall).
    assert (exists one, ps1 = ps ++ one /\ (is_Some (entry_get x (er_models reg)) -> represented ps1 x = true) /\
      Forall (fun p => exists m r, entry_get x (er_models reg) = Some m /\ project_provider_route x m = Ok r /\
                     p = materialized x m r /\ represented ps x = false) one) as (one & -> & Hx & Hone).
    { unfold materialize in H1. destruct (represented ps x) eqn:Er.
      - simplify_eq. exists []. rewrite app_nil_r. by split; [|split; [|constructor]].
      - destruct (entry_get x (er_models reg)) as [m|] eqn:Em.
        + apply result_bind_Ok in H1 as ([r|] & Hr & H1).
          * simplify_eq. exists [materialized x m r]. split; [done|]. split.
            -- intros _. rewrite represented_app. cbn. rewrite (bool_decide_eq_true_2 (x = x)) by done. by rewrite orb_true_r.
            -- apply route_for_ref_Ok in Hr as (_ & m' & Hm' & Hp). rewrite Em in Hm'. simplify_eq. constructor; [|constructor]. by exists m', r.
          * unfold provider_route_for_ref in Hr. rewrite Em in Hr. apply result_bind_Ok in Hr as (? & _ & ?). done.
        + simplify_eq. exists []. rewrite app_nil_r. split; [done|]. split; [by intros [? ?]|constructor]. }
    exists (one ++ made). rewrite app_assoc. split; [done|]. split.
    + apply Forall_app. split.
      * eapply Forall_impl; [exact Hone|]. intros p (m & r & Hp). exists x, m, r. split; [by left|done].
      * eapply Forall_impl; [exact Hm|]. intros p (y & m & r & Hy & H3 & H4 & H5 & H6). exists y, m, r. split; [by right|].
        do 3 (split; [done|]). rewrite represented_app in H6. by apply orb_false_iff in H6 as [H6 _].
    + intros y [->|Hy]%elem_of_cons Hs; [|by apply Hall]. rewrite represented_app, (Hx Hs). done.
Qed.

(** Binding the providers changes nothing but their profile.  A provider that
    may be dialled is bound to at most one profile, which exists, speaks its
    wire and ends where it ends, and no two such providers share one; one
    without an endpoint keeps none.  After it every profile an agent selects
    is represented by a provider, made of the profile itself where there was
    none. *)
Theorem binding_exact reg ps ps' : one_per_reference reg -> er_models reg <> [] -> bind_engine_provider_refs reg ps = Ok ps' ->
  exists bound made, ps' = bound ++ made /\ Forall2 (fun p p' => bound_to reg (unset_unmapped p) p') ps bound /\ NoDup (taken bound) /\
    Forall (fun p => exists x m r, x ∈ agent_references reg /\ entry_get x (er_models reg) = Some m /\
                     project_provider_route x m = Ok r /\ p = materialized x m r /\ represented bound x = false) made /\
    forall x, x ∈ agent_references reg -> is_Some (entry_get x (er_models reg)) -> represented ps' x = true.
Proof.
  intros Hone Hne. unfold bind_engine_provider_refs. destruct (er_models reg) as [|e l] eqn:Em; [done|]. rewrite <- Em. intros H.
  apply result_bind_Ok in H as (bound & Hb & H). destruct (bind_providers_ok _ _ Hone _ _ Hb) as (Hall & Hnd & _).
  destruct (materialize_all_ok _ _ _ _ H) as (made & -> & Hm & Hr). exists bound, made. split; [done|].
  split; [exact (proj1 (Forall2_fmap_l unset_unmapped (bound_to reg) ps bound) Hall)|]. done.
Qed.

(** ** The registry is a map *)

Definition key_lt (a b : string) : Prop := String.compare a b = Lt.
Lemma key_lt_trans a b d : key_lt a b -> key_lt b d -> key_lt a d.
Proof.
  unfold key_lt. intros H1 H2. assert (String.compare a d <> Gt) as Hn by (apply (string_compare_trans a b); congruence).
  destruct (String.compare a d) eqn:E; [|done|done]. apply String.compare_eq_iff in E as ->.
  rewrite String.compare_antisym, H1 in H2. done.
Qed.
Definition sorted_keys {A} (m : list (string * A)) : Prop := StronglySorted key_lt (map fst m).
Lemma entry_insert_keys {A} k (v : A) m x : x ∈ map fst (entry_insert k v m) <-> x = k \/ x ∈ map fst m.
Proof.
  induction m as [|[k1 v1] m IH]; cbn; [set_solver|]. destruct (String.compare k k1) eqn:E; cbn; [|set_solver|].
  - apply String.compare_eq_iff in E as ->. set_solver.
  - rewrite elem_of_cons, IH. set_solver.
Qed.
Lemma entry_insert_sorted {A} k (v : A) m : sorted_keys m -> sorted_keys (entry_insert k v m).
Proof.
  unfold sorted_keys. induction m as [|[k1 v1] m IH]; cbn; [repeat constructor|]. intros Hs. apply StronglySorted_inv in Hs as [Hs Hk].
  destruct (String.compare k k1) eqn:E; cbn.
  - apply String.compare_eq_iff in E as ->. by constructor.
  - constructor; [by constructor|]. constructor; [done|]. eapply Forall_impl; [exact Hk|]. intros y Hy. by eapply key_lt_trans.
  - constructor; [by apply IH|]. apply Forall_forall. intros y [->|Hy]%entry_insert_keys.
    + unfold key_lt. by rewrite String.compare_antisym, E.
    + rewrite Forall_forall in Hk. by apply Hk.
Qed.
Lemma sorted_NoDup l : StronglySorted key_lt l -> NoDup l.
Proof.
  induction 1 as [|x l Hs IH Hx]; constructor; [|done]. rewrite Forall_forall in Hx. intros Hin. specialize (Hx x Hin).
  unfold key_lt in Hx. by rewrite string_compare_refl in Hx.
Qed.
Lemma collect_child_sorted timeout_of : forall v prefix name out m, sorted_keys out ->
  collect_child timeout_of prefix name v out = Ok m -> sorted_keys m.
Proof.
  fix IH 1. intros [|b|n|s|l|entries] prefix name out m Hs H; cbn [collect_child] in H; try (injection H as <-; exact Hs).
  apply result_bind_Ok in H as (out1 & H1 & H). assert (sorted_keys out1) as Hs1.
  { destruct (value_get_str (Object entries) "model"); [|injection H1 as <-; exact Hs]. apply result_bind_Ok in H1 as (p & _ & H1).
    injection H1 as <-. by apply entry_insert_sorted. }
  clear H1 Hs out. revert out1 Hs1 H. induction entries as [|[n x] r IHr]; intros out Hs H; [injection H as <-; exact Hs|].
  apply result_bind_Ok in H as (out2 & H2 & H). apply (IHr out2); [|exact H]. exact (IH x _ _ _ _ Hs H2).
Qed.
(** A registry that was read keeps its agents and its profiles once each, in
    key order, whatever the document. *)
Theorem registry_sorted timeout_of root reg : from_document timeout_of root = Ok reg ->
  sorted_keys (er_agents reg) /\ sorted_keys (er_models reg) /\ one_per_reference reg.
Proof.
  unfold from_document. destruct root as [|b|n|s|l|entries]; try done. intros H. apply result_bind_Ok in H as (models & Hm & H). simplify_eq/=.
  assert (forall l out m, sorted_keys out -> collect_models timeout_of l out = Ok m -> sorted_keys m) as Hc.
  { induction l as [|[n x] l IH]; intros out m Hs H; cbn in H; [by simplify_eq|]. apply result_bind_Ok in H as (out1 & H1 & H).
    eapply IH; [|exact H]. by eapply collect_child_sorted. }
  assert (sorted_keys models) as Hms by (eapply Hc; [|exact Hm]; constructor). split; [|split; [done|]].
  - generalize (omap read_agent (default [] (assoc "agents" entries ≫= value_as_object))) as l.
    assert (forall (l : list (string * EngineAgentModel)) m, sorted_keys m -> sorted_keys (foldl (fun m e => entry_insert e.1 e.2 m) m l)) as Hf.
    { induction l as [|e l IH]; intros m Hs; [done|]. apply IH. by apply entry_insert_sorted. }
    intros l. apply Hf. constructor.
  - unfold one_per_reference. by apply sorted_NoDup.
Qed.

(** ** The agent of a model *)

(** The agent a model runs on runs exactly that model; when several do, it is
    the preferred one, or without a preference the default one, and when that
    settles nothing there is no agent but an error. *)
Theorem agent_choice_exact reg model preferred :
  match agent_for_model_with_preference reg model preferred with
  | Ok None => agents_running reg model = []
  | Ok (Some a) => a ∈ agents_running reg model /\ model_for_agent reg a = Some model /\
      (agents_running reg model = [a] \/
       exists wish, or_opt preferred (default_agent reg) = Some wish /\ eq_ignore_ascii_case a wish = true)
  | Err e => e = AmbiguousModel model (agents_running reg model) (bool_decide (is_Some (default_agent reg))) /\
      (2 <= length (agents_running reg model))%nat /\
      forall a wish, a ∈ agents_running reg model -> or_opt preferred (default_agent reg) = Some wish -> eq_ignore_ascii_case a wish = false
  end.
Proof.
  assert (forall a, a ∈ agents_running reg model -> model_for_agent reg a = Some model) as Hrun.
  { intros a Ha. apply elem_of_filterb in Ha as [Ha _]. by apply bool_decide_eq_true in Ha. }
  unfold agent_for_model_with_preference, select_matching_agent. destruct (agents_running reg model) as [|a [|b l]] eqn:El; [done| |].
  { split; [by left|]. split; [apply Hrun; by left|by left]. }
  set (all := a :: b :: l) in *. set (named := fun w => find_first (fun alias => eq_ignore_ascii_case alias w) all).
  assert (forall w x, named w = Some x -> x ∈ all /\ eq_ignore_ascii_case x w = true) as Hsome by (intros w x Hx; by apply find_first_Some in Hx).
  assert (forall w, named w = None -> forall x, x ∈ all -> eq_ignore_ascii_case x w = false) as Hnone.
  { intros w Hw. by apply find_first_None. }
  destruct preferred as [w|]; cbn [mbind option_bind or_opt].
  - destruct (named w) as [x|] eqn:Ex.
    + destruct (Hsome _ _ Ex) as [Hin Hx]. split; [done|]. split; [by apply Hrun|]. right. by exists w.
    + split; [done|]. split; [cbn; lia|]. intros y wish Hy [= <-]. by apply (Hnone w).
  - destruct (default_agent reg) as [w|] eqn:Ed; cbn [mbind option_bind].
    + destruct (named w) as [x|] eqn:Ex.
      * destruct (Hsome _ _ Ex) as [Hin Hx]. split; [done|]. split; [by apply Hrun|]. right. by exists w.
      * split; [done|]. split; [cbn; lia|]. intros y wish Hy [= <-]. by apply (Hnone w).
    + split; [done|]. split; [cbn; lia|]. by intros y wish _ [=].
Qed.

(** ** Concrete registries *)

Definition plain_profile (model : string) (uri kind : option string) (fallback : list string) : EngineProviderModel :=
  mkProviderModel model None None None None kind uri None None None None None false [] fallback.
Definition demo_registry : EngineModelRegistry :=
  mkRegistry [("coder", mkAgentModel None (Some "custom.main")); ("loop", mkAgentModel None (Some "custom.a"))]
    [("custom.a", plain_profile "m1" (Some "https://a.example.org/v1") None ["custom.b"]);
     ("custom.b", plain_profile "m2" (Some "https://b.example.org/v1") None ["custom.A"]);
     ("custom.main", plain_profile "m" (Some "https://x.example.org/v1") None [])] None.
Definition demo_document : Value :=
  Object [("agents", Object [("coder", Object [("model_provider", Str "custom.main")])]);
          ("providers", Object [("models", Object [("custom", Object [("main",
             Object [("model", Str "m"); ("uri", Str "https://x.example.org/v1")])])])])].
Definition demo_route : EngineProviderRoute :=
  mkEngineRoute "custom.main" "custom" "main" "custom" "openai-chat" "https://x.example.org/v1".
Definition gated_provider : Provider := materialized "custom.main" (plain_profile "m" None None []) demo_route.

Example cycle_is_refused : model_candidates_for_agent demo_registry "loop" = Err (FallbackCycle ["custom.a"; "custom.b"; "custom.A"]).
Proof. by vm_compute. Qed.
Lemma registry_sorted_witness : exists reg, from_json demo_document = Ok reg /\ sorted_keys (er_models reg).
Proof.
  eexists. split; [vm_compute; reflexivity|]. destruct (registry_sorted json_timeout demo_document _ eq_refl) as (_ & H & _). exact H.
Defined.
Lemma route_never_guessed_witness :
  project_provider_route "custom.main" (plain_profile "m" (Some "https://x.example.org/v1") None []) = Ok demo_route /\
  known_endpoint "custom" (plain_profile "m" (Some "https://x.example.org/v1") None []) "custom" "https://x.example.org/v1".
Proof.
  assert (project_provider_route "custom.main" (plain_profile "m" (Some "https://x.example.org/v1") None []) = Ok demo_route) as H by (vm_compute; reflexivity).
  split; [exact H|]. exact (proj1 (proj2 (proj2 (proj2 (route_never_guessed _ _ _ H))))).
Defined.
Lemma live_route_verified_witness :
  verify_live_zeroclaw_route (Some "m") None "coder" "m" gated_provider (Some demo_registry) = Ok "m" /\ "m" = default "m" (Some "m").
Proof.
  assert (verify_live_zeroclaw_route (Some "m") None "coder" "m" gated_provider (Some demo_registry) = Ok "m") as H by (vm_compute; reflexivity).
  split; [exact H|]. exact (proj1 (live_route_verified _ _ _ _ _ _ _ H)).
Defined.
Lemma binding_exact_witness :
  exists ps', bind_engine_provider_refs demo_registry [gated_provider] = Ok ps' /\ represented ps' "custom.a" = true.
Proof.
  eexists. split; [vm_compute; reflexivity|].
  assert (one_per_reference demo_registry) as Hone by (unfold one_per_reference; cbn; repeat constructor; set_solver).
  assert (er_models demo_registry <> []) as Hne by done.
  destruct (binding_exact demo_registry [gated_provider] _ Hone Hne eq_refl) as (bound & made & _ & _ & _ & _ & Hr).
  apply Hr; [vm_compute; by (left + (right; left))|by eexists].
Defined.

(** A provider made of a subscription profile with a base endpoint does not
    match the profile it was made of. *)
Example codex_base_refused :
  let p := plain_profile "m" (Some "https://proxy.example.org/codex") (Some "codex") [] in
  match project_provider_route "openai.sub" p with
  | Ok r => er_implementation r = "openai-codex" /\ route_compatible (materialized "openai.sub" p r) r = false
  | Err _ => False
  end.
Proof. by vm_compute. Qed.
(** A reference in another case is followed by the engine and not by the
    choice of an agent. *)
Example reference_case_splits :
  let reg := mkRegistry [("coder", mkAgentModel None (Some "Custom.Main"))] [("custom.main", plain_profile "m" None None [])] None in
  model_candidates_for_agent reg "coder" = Ok (Some ["m"]) /\ agent_for_model reg "m" = Ok None.
Proof. by vm_compute. Qed.
(** Profiles whose references differ in case only are taken for a cycle. *)
Example case_twins_refused :
  let reg := mkRegistry [("coder", mkAgentModel None (Some "a.X"))]
    [("a.X", plain_profile "m1" None None ["a.x"]); ("a.x", plain_profile "m2" None None [])] None in
  model_candidates_for_agent reg "coder" = Err (FallbackCycle ["a.X"; "a.x"]).
Proof. by vm_compute. Qed.
