(* ===== verification/Routes.v ===== *)
(** The routes of an invocation (crates/zoder-cli/src/main.rs): the provider
    that serves a model on this host, by the ledger and by the telemetry of
    its accounts; the corpus the router works on; the candidates, views and
    chains of the scenario; the precedence of the pins; and the lists of the
    routes an invocation may use.

    What a resolution reads besides its arguments is the record [Feeds]: the
    ledger, the tier catalog, the telemetry, the state of the token plan and
    one clock reading.  The program reads the telemetry, the catalog and the
    clock again at every use; here one reading serves a whole resolution. *)
From stdpp Require Import gmap strings.
From S2P Require Import Prelude F64 Text Clock Health Config Corpus Ledger Tiers Quota Utilization Scenarios Router Minimax EngineRoutes.
Local Open Scope string_scope.
Local Open Scope Z_scope.
Local Open Scope list_scope.
Local Open Scope zoder_scope.

(** ** What a resolution reads *)

Record Feeds := mkFeeds {
  fd_entries : list Entry;
  fd_catalog : TierCatalog;
  fd_store : option UtilizationStore;
  fd_quota : option QuotaState;
  fd_now : Z
}.
(** [AgentConfig] and [Config], as far as routing reads them; [cf_models] is
    the model of a named entry. *)
Record AgentEntry := mkAgent { ag_model : option string; ag_reviewer_model : option string; ag_provider : option string }.
Record Config := mkConfig {
  cf_providers : list Config.Provider;
  cf_agents : gmap string AgentEntry;
  cf_models : gmap string (option string);
  cf_primary_model : option string;
  cf_scenario : string;
  cf_override : option RouteScenarioOverride
}.
Record Engine := mkEngine { eng_cfg : Config; eng_corpus : Corpus; eng_route_corpus : Corpus; eng_models : EngineModelRegistry }.
(** The options of the command line that routing reads. *)
Record Cli := mkCli {
  c_model : option string;
  c_agent : option string;
  c_tier : string;
  c_allow_paid : bool;
  c_require_free : bool;
  c_no_fallback : bool;
  c_dry_run : bool;
  c_allowed_routes : option string;
  c_reviewer_allowed_routes : option string
}.
(** [routing.active()] *)
Definition active (cfg : Config) : RouteScenario := resolve_active (cf_scenario cfg) (cf_override cfg).

(** ** The agent's model and provider *)

(** [Config::agent_model], [Config::agent_reviewer_model],
    [Config::resolve_model_for_agent] *)
Definition agent_model (cfg : Config) (alias : option string) : option string := a ← alias; e ← cf_agents cfg !! a; ag_model e.
Definition agent_reviewer_model (cfg : Config) (alias : option string) : option string :=
  a ← alias; e ← cf_agents cfg !! a; ag_reviewer_model e.
Definition resolve_model_for_agent (cfg : Config) (alias : option string) : option string :=
  a ← alias; e ← cf_agents cfg !! a; mp ← ag_provider e; m ← cf_models cfg !! mp; m.
Definition configured_model_for_agent (eng : Engine) (alias : option string) : option string :=
  a ← alias;
  or_opt (agent_model (eng_cfg eng) (Some a)) (or_opt (model_for_agent (eng_models eng) a) (resolve_model_for_agent (eng_cfg eng) (Some a))).
Definition resolve_effective_primary (cli : Cli) (eng : Engine) : option string :=
  resolve_alias (eng_corpus eng) <$> or_opt (c_model cli) (or_opt (configured_model_for_agent eng (c_agent cli)) (cf_primary_model (eng_cfg eng))).
Definition with_resolved_model_alias (cli : Cli) (corpus : Corpus) : Cli :=
  mkCli (resolve_alias corpus <$> c_model cli) (c_agent cli) (c_tier cli) (c_allow_paid cli) (c_require_free cli) (c_no_fallback cli)
    (c_dry_run cli) (c_allowed_routes cli) (c_reviewer_allowed_routes cli).
Definition configured_provider_ref_for_agent (eng : Engine) (alias : option string) : option string :=
  a ← alias;
  or_opt (model_provider_ref_for_agent (eng_models eng) a) (e ← cf_agents (eng_cfg eng) !! a; ag_provider e).

(** ** The account of a provider *)

Definition tier_of (p : Config.Provider) : string :=
  match subscription p with Some plan => default "explicit" (plan_tier plan) | None => prov_id p end.
(** [agentic::utilization_key] *)
Definition utilization_key (p : Config.Provider) : Utilization.Provider * string :=
  let id := to_ascii_lowercase (prov_id p) in
  let plan := tier_of p in
  let tier := to_ascii_lowercase plan in
  (if str_contains "codex" id || starts_with "chatgpt-" tier then OpenaiCodex
   else if str_contains "anthropic" id || starts_with "claude-" tier then Anthropic
   else if str_contains "minimax" id || starts_with "token-plan-" tier then MiniMax
   else if str_contains "openai" id then Openai else Other, plan).
Definition quota_window_applies_to_model (w : QuotaWindow) (model_id : string) : bool :=
  match qw_models w with None => true | Some patterns => existsb (fun pattern => wildcard pattern model_id) patterns end.
Definition namespace_of (catalog : TierCatalog) (p : Config.Provider) (plan : SubscriptionPlan) : string :=
  default (prov_id p) (tier ← plan_tier plan; provider_namespace catalog p tier).
(** The windows of a plan that bind a model. *)
Definition model_windows (catalog : TierCatalog) (p : Config.Provider) (plan : SubscriptionPlan) (model_id : string) : list QuotaWindow :=
  filterb (fun w => quota_window_applies_to_model w model_id)
    (rp_windows (resolve_plan_windows plan catalog (Some (namespace_of catalog p plan)))).
Definition load_snapshot_for (store : option UtilizationStore) (p : Utilization.Provider) (account_id plan : string) : option RateLimitSnapshot :=
  s ← store; as_snapshot <$> get s p account_id plan.
Definition account_of (p : Config.Provider) : string := default DEFAULT_ACCOUNT_ID (effective_account_id <$> subscription p).

(** ** The provider of a model *)

Section Choice.
Context `{Calendar} (from_timestamp : Z -> option Z) (fd : Feeds) (cfg : Config).

(** The view of the account that serves a model, when its plan binds it. *)
Definition account_view (store : UtilizationStore) (p : Config.Provider) (model_id : string) : option AccountView :=
  plan ← subscription p;
  match model_windows (fd_catalog fd) p plan model_id with
  | [] => None
  | windows =>
      let '(u, label) := utilization_key p in
      Some (build_account_view from_timestamp u (effective_account_id plan) label windows store (fd_now fd))
  end.
Definition has_live_signal (v : AccountView) : bool :=
  bool_decide (is_Some (av_has_credits v))
  || existsb (fun w => bool_decide (is_Some (wv_used_percent w)) && negb (bool_decide (wv_health w = Degraded))) (av_windows v).
(** What the telemetry says of a subscription: nothing, keep it, or leave
    it. *)
Definition live_verdict (store : UtilizationStore) (p : Config.Provider) (model_id : string) : option bool :=
  v ← account_view store p model_id;
  if has_live_signal v then Some (keeps_sub (ad_decision (decide_account v (knobs_of (active cfg)) (fd_now fd) None))) else None.
Definition is_subscription (p : Config.Provider) : bool := bool_decide (billing p = Subscription).
(** The loop over the subscriptions: the first that is kept, or whether one
    was left. *)
Fixpoint by_telemetry (store : UtilizationStore) (model_id : string) (l : list Config.Provider) (fell_back : bool) : Config.Provider + bool :=
  match l with
  | [] => inr fell_back
  | p :: r =>
      if is_subscription p then
        match live_verdict store p model_id with
        | None => by_telemetry store model_id r fell_back
        | Some true => inl p
        | Some false => by_telemetry store model_id r true
        end
      else by_telemetry store model_id r fell_back
  end.
Definition matching_providers (model_id : string) : list Config.Provider :=
  sort_by (serving_cmp model_id) (filterb (serves_model model_id) (cf_providers cfg)).
Definition real_provider_for_model_with_store (model_id : string) (ledger_choice : option Config.Provider) : option Config.Provider :=
  let ledger_choice := filter_token_plan_exhausted (cf_providers cfg) (fd_quota fd) model_id ledger_choice (fd_now fd) in
  match fd_store fd with
  | None => ledger_choice
  | Some store =>
      match by_telemetry store model_id (matching_providers model_id) false with
      | inl p => Some p
      | inr true => find_first (fun p => negb (is_subscription p) && negb (is_placeholder p)) (matching_providers model_id)
      | inr false => ledger_choice
      end
  end.
(** [RoutingContext::real_provider_for_model] *)
Definition routed_provider (model_id : string) : option Config.Provider :=
  real_provider_for_model_with_store model_id
    (real_best_provider_for_model (cf_providers cfg) model_id (fd_entries fd) (fd_catalog fd) (fd_now fd)).
(** A provider that a pin may select. *)
Definition can_be_dialled (p : Config.Provider) : bool := endpoint_is_configured p && negb (is_placeholder p).
Definition provider_for_ref (provider_ref : string) : option Config.Provider :=
  opt_filter can_be_dialled
    (or_opt (find_first (fun p => bool_decide (engine_provider_ref p = Some provider_ref)) (cf_providers cfg))
       (opt_filter (fun p => match engine_provider_ref p with None => true | Some mapped => bool_decide (mapped = provider_ref) end)
          (config_provider (cf_providers cfg) provider_ref))).
Definition provider_for_resolved_model (model : string) (agent_provider_ref : option string) : option Config.Provider :=
  match agent_provider_ref with Some provider_ref => provider_for_ref provider_ref | None => routed_provider model end.
End Choice.

(** ** The corpus routing works on *)

Record VerifiedFreeRoute := mkVerified { vf_provider_id : string; vf_model_id : string }.
Record ProviderModelOverrides := mkOverrides { ov_schema_version : Z; ov_verified_free : list VerifiedFreeRoute }.
Inductive OverridesRead := NoParent | NoFile | ReadFails | Contents (raw : string).
Inductive OverrideError :=
| CorpusPathHasNoParent | OverridesUnreadable | OverridesTooLong | OverridesMalformed | UnsupportedSchema
| EmptyOrDuplicate (model_id : string) | NoRealProvider (model_id : string) | NotTheFreeRoute (model_id : string).
Definition MAX_OVERRIDES_BYTES : Z := 64 * 1024.
(** [ModelEntry::default()] with an id. *)
Definition entry_of_id (i : string) : ModelEntry :=
  mkModel i "" "" "" "" false false false None [] None None None None None None None None None None None None None None None None None.
Definition drop_economics (m : ModelEntry) : ModelEntry :=
  mkModel (id m) (host m) (leaf m) (family m) (kind m) (route_candidate m) (me_free m) (me_paid m) (gated_reason m) (aliases m) (source m)
    (arena_overall_elo m) (arena_coding_elo m) (arena_webdev_elo m) (w_overall m) (w_coding m) (w_swe m) (ttft_ms_p50 m)
    (tok_per_s_p50 m) (total_ms_p50 m) (latency_score m) (latency_class m) (agentic_score m) (capability m) (preference m) None (workflows m).
Definition free_route (m : ModelEntry) : ModelEntry :=
  let m := drop_economics (set_class "chat" true true false None m) in
  match agentic_score m with None => set_agentic (Some UNBENCHED_PRIOR) m | Some _ => m end.

Section Overrides.
Context `{Calendar} (parse : string -> option ProviderModelOverrides) (cfg : Config) (now : Z).
Definition is_the_free_route (p : Config.Provider) (e : VerifiedFreeRoute) : bool :=
  bool_decide (prov_id p = vf_provider_id e) && negb (paid p) && bool_decide (billing p = BillFree)
  && bool_decide (vf_model_id e ∈ serves p).
(** One entry of the overlay; [seen] are the models of the entries before. *)
Definition verify_route (seen : list string) (ms : list ModelEntry) (e : VerifiedFreeRoute) : result (list ModelEntry) OverrideError :=
  if str_is_empty (trim (vf_model_id e)) || bool_decide (vf_model_id e ∈ seen) then Err (EmptyOrDuplicate (vf_model_id e))
  else match real_provider_for_model (cf_providers cfg) (vf_model_id e) now with
  | None => Err (NoRealProvider (vf_model_id e))
  | Some p =>
      if negb (is_the_free_route p e) then Err (NotTheFreeRoute (vf_model_id e))
      else
        let ms := if known (vf_model_id e) ms then ms else ms ++ [entry_of_id (vf_model_id e)] in
        Ok (update_first (fun m => bool_decide (id m = vf_model_id e)) free_route ms)
  end.
Fixpoint verify_all (seen : list string) (ms : list ModelEntry) (l : list VerifiedFreeRoute) : result (list ModelEntry) OverrideError :=
  match l with
  | [] => Ok ms
  | e :: r => let? ms := verify_route seen ms e in verify_all (vf_model_id e :: seen) ms r
  end.
Definition with_rows (c : Corpus) (ms : list ModelEntry) : Corpus :=
  mkCorpus (corpus_source c) (managed c) (generated c) (arena_date c) (Z.of_nat (length ms)) ms (alias_map c) (generated_at c).
Definition provider_route_corpus (read : OverridesRead) (public : Corpus) : result Corpus OverrideError :=
  match read with
  | NoParent => Err CorpusPathHasNoParent
  | NoFile => Ok public
  | ReadFails => Err OverridesUnreadable
  | Contents raw =>
      if MAX_OVERRIDES_BYTES <? len raw then Err OverridesTooLong
      else match parse raw with
      | None => Err OverridesMalformed
      | Some overlay =>
          if negb (ov_schema_version overlay =? 1) then Err UnsupportedSchema
          else let? ms := verify_all [] (models public) (ov_verified_free overlay) in Ok (with_rows public ms)
      end
  end.
End Overrides.

(** ** The chains of the scenario *)

Definition or_zero (o : option f64) : f64 := default f64_zero o.
Definition swe_elo (m : ModelEntry) : option f64 := or_opt (arena_coding_elo m) (arena_webdev_elo m).
Definition rank_for_model (m : ModelEntry) : f64 :=
  let cap := or_zero (code_capability m) in
  let elo := or_zero (swe_elo m) in
  let agentic := (or_zero (or_opt (agentic_score m) (w_swe m)) * f64_of_Z 100)%f64 in
  if (cap >? f64_zero)%f64 then (f64_of_Z 1 + cap)%f64
  else if (elo >? f64_zero)%f64 then (f64_lit 1 2 + elo / f64_of_Z 1000)%f64
  else if (agentic >? f64_zero)%f64 then (agentic / f64_of_Z 200)%f64
  else f64_zero.
(** The derived [==] of scenarios, on doubles. *)
Definition scenario_eqb (a b : RouteScenario) : bool :=
  bool_decide (primary_classes a = primary_classes b) && bool_decide (reviewer_classes a = reviewer_classes b)
  && (sc_use_target a =? sc_use_target b)%f64 && (sc_cap_guard a =? sc_cap_guard b)%f64
  && bool_decide (sc_budget_mode a = sc_budget_mode b) && Bool.eqb (allow_paid a) (allow_paid b).
Definition scenario_name_canonical (s : RouteScenario) : string :=
  if scenario_eqb s economy then "economy"
  else if scenario_eqb s balanced then "balanced"
  else if scenario_eqb s aggressive then "aggressive"
  else if scenario_eqb s unlimited then "unlimited" else "custom".

Inductive RoutesReason :=
| PinnedBy (pin : string) (explicit : bool)
| ByRouter (r : RouteReason)
| ByScenario (name : string) (author reviewer : option string) (r : option RouteReason).
Record ResolvedRoutes := mkRoutes {
  rr_primary : list string;
  rr_reviewer : list string;
  rr_reason : RoutesReason;
  rr_provider_ref : option string
}.
Inductive RoutingError :=
| LedgerUnreadable
| AgentHasNoModel (alias : string)
| Unrouted (e : RouteError)
| NotAPair (flag : string)
| EmptyPart (flag : string)
| NoAllowedRoute
| Outside (flag provider model : string) (allowed : list (string * string)).

Section Chains.
Context `{Calendar} `{HealthView} (from_timestamp : Z -> option Z) (fd : Feeds) (eng : Engine) (cli : Cli).
Let provider_of : string -> option Config.Provider := routed_provider from_timestamp fd (eng_cfg eng).

Definition backed_free_model_ids : gset string :=
  list_to_set (map id (filterb (fun m => model_has_real_provider (cf_providers (eng_cfg eng)) (id m) (fd_now fd)) (free_chat (eng_route_corpus eng)))).
Definition scenario_candidate (m : ModelEntry) : option RoutableCandidate :=
  if negb (bool_decide (kind m = "chat")) then None
  else if negb (route_candidate m) then None
  else p ← provider_of (id m);
    Some (mkCandidate (id m) (classify p) (rank_for_model m) (negb (breaker_open (id m)))).
Definition build_scenario_candidates : list RoutableCandidate := omap scenario_candidate (models (eng_route_corpus eng)).
Definition build_account_views_for_candidates (candidates : list RoutableCandidate) : list (option AccountView) :=
  match fd_store fd with
  | None => map (fun _ => None) candidates
  | Some store => map (fun c => p ← provider_of (model_id c); account_view from_timestamp fd store p (model_id c)) candidates
  end.
(** The snapshot of the provider that serves the model to be run. *)
Definition primary_snapshot : option RateLimitSnapshot :=
  m ← resolve_effective_primary cli eng;
  p ← provider_of m;
  let '(u, plan) := utilization_key p in
  load_snapshot_for (fd_store fd) u (account_of p) plan.
Definition use_l4 (candidates : list RoutableCandidate) (views : list (option AccountView)) : bool :=
  existsb (fun cv => bool_decide (cls cv.1 = Sub) && bool_decide (is_Some cv.2)) (zip candidates views).
Definition chain_of (role : Role) (max_chain : nat) : list string :=
  let scenario := active (eng_cfg eng) in
  let candidates := build_scenario_candidates in
  let views := build_account_views_for_candidates candidates in
  if use_l4 candidates views
  then chain_for_role_with_account role candidates views scenario primary_snapshot (c_allow_paid cli) (fd_now fd) max_chain
  else chain_for_role role candidates scenario primary_snapshot (c_allow_paid cli) (fd_now fd) max_chain.
Definition MAX_PRIMARY_CHAIN : nat := 5.
Definition MAX_REVIEWER_CHAIN : nat := 3.
(** [scenario_chain_for_roles]: the two chains; the reason names the scenario
    and their heads. *)
Definition scenario_chain_for_roles : list string * list string * (option RouteReason -> RoutesReason) :=
  let primary := chain_of Scenarios.Primary MAX_PRIMARY_CHAIN in
  let reviewer := chain_of Scenarios.Reviewer MAX_REVIEWER_CHAIN in
  (primary, reviewer, ByScenario (scenario_name_canonical (active (eng_cfg eng))) (head primary) (head reviewer)).
End Chains.

(** ** The routes an invocation may use *)

Fixpoint parse_entries (flag : string) (l : list string) : result (list (string * string)) RoutingError :=
  match l with
  | [] => Ok []
  | e :: r =>
      match split_once "="%char e with
      | None => Err (NotAPair flag)
      | Some (provider, model) =>
          let provider := trim provider in
          let model := trim model in
          if str_is_empty provider || str_is_empty model then Err (EmptyPart flag)
          else let? rest := parse_entries flag r in Ok ((provider, model) :: rest)
      end
  end.
Definition parse_route_list (raw flag : string) : result (list (string * string)) RoutingError := parse_entries flag (split_on ","%char raw).
Definition parsed (raw : option string) (flag : string) : result (option (list (string * string))) RoutingError :=
  match raw with None => Ok None | Some raw => let? l := parse_route_list raw flag in Ok (Some l) end.
Definition parsed_allowed_routes (cli : Cli) := parsed (c_allowed_routes cli) "--allowed-routes".
Definition parsed_reviewer_allowed_routes (cli : Cli) := parsed (c_reviewer_allowed_routes cli) "--reviewer-allowed-routes".
Definition format_allowed_pairs (pairs : list (string * string)) : string := join ", " (map (fun p => p.1 +:+ "=" +:+ p.2) pairs).
Definition is_allowed (allowed : list (string * string)) (provider model : string) : bool := bool_decide ((provider, model) ∈ allowed).
Definition require_listed (flag : string) (allowed : option (list (string * string))) (provider model : string) : result unit RoutingError :=
  match allowed with
  | None => Ok tt
  | Some allowed => if is_allowed allowed provider model then Ok tt else Err (Outside flag provider model allowed)
  end.
Definition require_allowed_route (cli : Cli) (provider model : string) : result unit RoutingError :=
  let? allowed := parsed_allowed_routes cli in require_listed "--allowed-routes" allowed provider model.
Definition require_allowed_reviewer_route (cli : Cli) (provider model : string) : result unit RoutingError :=
  let? _ := require_allowed_route cli provider model in
  let? allowed := parsed_reviewer_allowed_routes cli in
  require_listed "--reviewer-allowed-routes" allowed provider model.

Section Resolution.
Context `{Calendar} `{HealthView} (from_timestamp : Z -> option Z).

Definition permitted (fd : Feeds) (cfg : Config) (allowed : list (string * string)) (provider_ref : option string) (model : string) : bool :=
  match provider_for_resolved_model from_timestamp fd cfg model provider_ref with
  | Some p => is_allowed allowed (prov_id p) model
  | None => false
  end.
Definition restrict_resolved_routes (cli : Cli) (eng : Engine) (fd : Feeds) (routes : ResolvedRoutes) : result ResolvedRoutes RoutingError :=
  let? allowed := parsed_allowed_routes cli in
  match allowed with
  | None => Ok routes
  | Some allowed =>
      let primary := filterb (permitted fd (eng_cfg eng) allowed (rr_provider_ref routes)) (rr_primary routes) in
      let reviewer := filterb (permitted fd (eng_cfg eng) allowed None) (rr_reviewer routes) in
      match primary with
      | [] => Err NoAllowedRoute
      | _ => Ok (mkRoutes primary reviewer (rr_reason routes) (rr_provider_ref routes))
      end
  end.

(** ** The chain of an invocation *)

Definition is_free_link (fd : Feeds) (eng : Engine) (m : string) : bool :=
  default false (me_free <$> corpus_get (eng_route_corpus eng) m) || bool_decide (m ∈ backed_free_model_ids fd eng).
(** A pin under [--require-free] is dropped when it is not free. *)
Definition pinned_chain (cli : Cli) (fd : Feeds) (eng : Engine) (pin : string) : list string :=
  if c_require_free cli && negb (is_free_link fd eng pin) then [] else [pin].
(** The links not yet seen, in order. *)
Fixpoint layer (chain links : list string) : list string :=
  match links with
  | [] => chain
  | m :: r => layer (if bool_decide (m ∈ chain) then chain else chain ++ [m]) r
  end.
Definition free_links (cli : Cli) (fd : Feeds) (eng : Engine) (chain : list string) : list string :=
  if c_require_free cli then
    match filterb (is_free_link fd eng) chain with [] => chain | free => free end
  else chain.
Definition routed (cli : Cli) (fd : Feeds) (eng : Engine) (scn_primary : list string) (scn_reason : option RouteReason -> RoutesReason)
  (route : Route) : list string * RoutesReason :=
  let head_ := default (primary route) (head scn_primary) in
  if c_no_fallback cli then
    ([head_], match scn_primary with [] => ByRouter (reason route) | _ => scn_reason None end)
  else
    (free_links cli fd eng (layer (layer [head_] (tail scn_primary)) (fallbacks route)),
     match scn_primary with [] => ByRouter (reason route) | _ => scn_reason (Some (reason route)) end).
(** [loaded dry_run] is what the routing context reads; a dry run reads the
    ledger without its lock. *)
Definition resolve_chain (loaded : bool -> option Feeds) (cli : Cli) (eng : Engine) : result ResolvedRoutes RoutingError :=
  match loaded (c_dry_run cli) with
  | None => Err LedgerUnreadable
  | Some fd =>
      let '(scn_primary, scn_reviewer, scn_reason) := scenario_chain_for_roles from_timestamp fd eng cli in
      let cli_model := resolve_alias (eng_corpus eng) <$> c_model cli in
      let configured := configured_model_for_agent eng (c_agent cli) in
      let agent_pin := match cli_model with Some _ => None | None => resolve_alias (eng_corpus eng) <$> configured end in
      let provider_ref := match agent_pin with Some _ => configured_provider_ref_for_agent eng (c_agent cli) | None => None end in
      match c_agent cli, configured, cli_model with
      | Some alias, None, None => Err (AgentHasNoModel alias)
      | _, _, _ =>
          match or_opt cli_model agent_pin with
          | Some pin =>
              restrict_resolved_routes cli eng fd
                (mkRoutes (pinned_chain cli fd eng pin) scn_reviewer (PinnedBy pin (bool_decide (is_Some cli_model))) provider_ref)
          | None =>
              let router := with_backed (with_primary (router_new (eng_route_corpus eng)) (cf_primary_model (eng_cfg eng)))
                              (Some (backed_free_model_ids fd eng)) in
              match select router (tier_parse (c_tier cli)) with
              | Err e => Err (Unrouted e)
              | Ok route =>
                  let '(chain, why) := routed cli fd eng scn_primary scn_reason route in
                  restrict_resolved_routes cli eng fd (mkRoutes chain scn_reviewer why None)
              end
          end
      end
  end.
End Resolution.

(** * Theorems *)

(** ** The provider of a model *)

(** The provider that serves a model with the longest prefix among those that
    pass a test, the first in the configuration among equals. *)
Definition first_choice (ok : Config.Provider -> bool) (providers : list Config.Provider) (model_id : string) (p : Config.Provider) : Prop :=
  ok p = true /\ serves_model model_id p = true /\
  exists pre post, providers = pre ++ p :: post /\
    forall q, ok q = true -> serves_model model_id q = true ->
      (q ∈ pre -> longest_serving model_id q < longest_serving model_id p)
      /\ (q ∈ post -> longest_serving model_id q <= longest_serving model_id p).
Lemma first_choice_spec ok cfg model_id :
  match find_first ok (matching_providers cfg model_id) with
  | Some p => first_choice ok (cf_providers cfg) model_id p
  | None => forall q, q ∈ cf_providers cfg -> serves_model model_id q = true -> ok q = false
  end.
Proof.
  unfold matching_providers. destruct (find_first ok _) as [p|] eqn:Ef.
  - apply (find_first_sort_by (serving_cmp model_id) (fun _ => True)) in Ef as [Hp (pre & post & Hl & Hpre & Hpost)].
    2: { intros x y _ _. unfold serving_cmp. apply Z.compare_antisym. }
    2: { intros x y z _ _ _. unfold cmp_le. rewrite !serving_cmp_Gt. lia. }
    2: by apply Forall_true.
    apply filterb_split in Hl as (l1 & l2 & Hl & Hs & <- & <-). split; [done|]. split; [done|]. exists l1, l2. split; [done|].
    intros q Hq Hsq. split; intros Hin.
    + apply serving_cmp_Gt, Hpre; [|done]. by apply elem_of_filterb.
    + apply Z.nlt_ge. rewrite <- serving_cmp_Gt. apply Hpost; [|done]. by apply elem_of_filterb.
  - intros q Hq Hs. rewrite find_first_None in Ef. apply Ef. by apply elem_of_sort_by, elem_of_filterb.
Qed.

Section ChoiceTheorems.
Context `{Calendar} (from_timestamp : Z -> option Z) (fd : Feeds) (cfg : Config).

Definition kept (store : UtilizationStore) (model_id : string) (p : Config.Provider) : bool :=
  is_subscription p && bool_decide (live_verdict from_timestamp fd cfg store p model_id = Some true).
Definition left_now (store : UtilizationStore) (model_id : string) (p : Config.Provider) : bool :=
  is_subscription p && bool_decide (live_verdict from_timestamp fd cfg store p model_id = Some false).
Definition pays_per_call (p : Config.Provider) : bool := negb (is_subscription p) && negb (is_placeholder p).

Lemma by_telemetry_spec store model_id l : forall fell_back,
  by_telemetry from_timestamp fd cfg store model_id l fell_back =
  match find_first (kept store model_id) l with Some p => inl p | None => inr (fell_back || existsb (left_now store model_id) l) end.
Proof.
  induction l as [|p l IH]; intros fb; cbn; [by rewrite orb_false_r|]. unfold kept, left_now at 1. destruct (is_subscription p); cbn; [|apply IH].
  destruct (live_verdict _ _ _ store p model_id) as [[]|]; cbn; rewrite ?IH; [done| |done]. by destruct (find_first _ l), fb.
Qed.
Lemma left_matching store model_id : existsb (left_now store model_id) (matching_providers cfg model_id) = true <->
  exists p, p ∈ cf_providers cfg /\ serves_model model_id p = true /\ left_now store model_id p = true.
Proof.
  rewrite existsb_exists. setoid_rewrite <- list_elem_of_In. unfold matching_providers. setoid_rewrite elem_of_sort_by. setoid_rewrite elem_of_filterb. naive_solver.
Qed.

(** The provider a model is sent to.  A subscription that the telemetry of
    its account says to keep is taken, the one with the longest prefix, the
    first among equals.  When there is none but one was left, the provider is
    the first choice among those that are paid by the call.  Where the
    telemetry says nothing it is the choice by the ledger, moved on while a
    token plan is exhausted. *)
Theorem provider_choice_exact model_id :
  let by_ledger := filter_token_plan_exhausted (cf_providers cfg) (fd_quota fd) model_id
    (real_best_provider_for_model (cf_providers cfg) model_id (fd_entries fd) (fd_catalog fd) (fd_now fd)) (fd_now fd) in
  let chosen := routed_provider from_timestamp fd cfg model_id in
  let silent test store := forall q, q ∈ cf_providers cfg -> serves_model model_id q = true -> test store model_id q = false in
  match fd_store fd with
  | None => chosen = by_ledger
  | Some store =>
      (exists p, chosen = Some p /\ first_choice (kept store model_id) (cf_providers cfg) model_id p)
      \/ (silent kept store /\ ~ silent left_now store /\
          match chosen with
          | Some p => first_choice pays_per_call (cf_providers cfg) model_id p
          | None => forall q, q ∈ cf_providers cfg -> serves_model model_id q = true -> pays_per_call q = false
          end)
      \/ (silent kept store /\ silent left_now store /\ chosen = by_ledger)
  end.
Proof.
  cbn zeta. unfold routed_provider, real_provider_for_model_with_store. destruct (fd_store fd) as [store|]; [|done].
  rewrite by_telemetry_spec. cbn [orb]. pose proof (first_choice_spec (kept store model_id) cfg model_id) as Hk.
  destruct (find_first (kept store model_id) _) as [p|]; [left; by exists p|]. right.
  pose proof (left_matching store model_id) as Hl. destruct (existsb (left_now store model_id) _).
  - left. split; [done|]. split; [|exact (first_choice_spec pays_per_call cfg model_id)].
    intros Hn. destruct (proj1 Hl eq_refl) as (p & Hp & Hs & Hlp). by rewrite Hn in Hlp.
  - right. split; [done|]. split; [|done]. intros q Hq Hs. destruct (left_now store model_id q) eqn:E; [|done].
    discriminate (proj2 Hl (ex_intro _ q (conj Hq (conj Hs E)))).
Qed.
End ChoiceTheorems.

(** ** The lists of routes *)

Section Listed.
Context `{Calendar} `{HealthView} (from_timestamp : Z -> option Z).

(** The provider a link is dispatched to is on the list, with the link. *)
Definition on_list (fd : Feeds) (cfg : Config) (allowed : list (string * string)) (provider_ref : option string) (m : string) : Prop :=
  exists p, provider_for_resolved_model from_timestamp fd cfg m provider_ref = Some p /\ (prov_id p, m) ∈ allowed.
Lemma permitted_iff fd cfg allowed r m : permitted from_timestamp fd cfg allowed r m = true <-> on_list fd cfg allowed r m.
Proof.
  unfold permitted, on_list, is_allowed. destruct (provider_for_resolved_model _ _ _ _ _) as [p|].
  - rewrite bool_decide_eq_true. split; [by exists p|]. by intros (p' & [= <-] & Hp).
  - split; [done|]. by intros (p & [=] & _).
Qed.
Lemma restricted cli eng fd routes r : restrict_resolved_routes from_timestamp cli eng fd routes = Ok r ->
  match parsed_allowed_routes cli with
  | Ok None => r = routes
  | Ok (Some allowed) =>
      rr_primary r <> [] /\ rr_provider_ref r = rr_provider_ref routes /\ rr_reason r = rr_reason routes /\
      rr_primary r = filterb (permitted from_timestamp fd (eng_cfg eng) allowed (rr_provider_ref routes)) (rr_primary routes) /\
      rr_reviewer r = filterb (permitted from_timestamp fd (eng_cfg eng) allowed None) (rr_reviewer routes)
  | Err _ => False
  end.
Proof.
  unfold restrict_resolved_routes. destruct (parsed_allowed_routes cli) as [[allowed|]|e]; cbn [result_bind]; [|by intros [= <-]|done].
  destruct (filterb _ (rr_primary routes)) as [|m l] eqn:Ef; [done|]. intros [= <-]. by split_and!.
Qed.

Lemma resolved_restricts loaded cli eng r : resolve_chain from_timestamp loaded cli eng = Ok r ->
  exists fd routes, loaded (c_dry_run cli) = Some fd /\ restrict_resolved_routes from_timestamp cli eng fd routes = Ok r.
Proof.
  unfold resolve_chain. destruct (loaded (c_dry_run cli)) as [fd|]; [|done]. destruct (scenario_chain_for_roles _ _ _ _) as [[sp sr] why].
  destruct (c_agent cli), (configured_model_for_agent _ _), (resolve_alias _ <$> c_model cli); cbn [or_opt fmap option_fmap option_map]; intros Hr;
    try done; try (eexists fd, _; by split).
  all: destruct (select _ _) as [route|]; [|done]; destruct (routed _ _ _ _ _ _); eexists fd, _; by split.
Qed.
(** With a list of allowed routes, every link of the author's chain and of
    the reviewer's is dispatched to a provider that the list names together
    with the model, and the author's chain is not empty; a list that cannot be
    read allows nothing. *)
Theorem routes_stay_in_list loaded cli eng raw r :
  c_allowed_routes cli = Some raw -> resolve_chain from_timestamp loaded cli eng = Ok r ->
  exists fd allowed, loaded (c_dry_run cli) = Some fd /\ parse_route_list raw "--allowed-routes" = Ok allowed /\ rr_primary r <> [] /\
    (forall m, m ∈ rr_primary r -> on_list fd (eng_cfg eng) allowed (rr_provider_ref r) m) /\
    (forall m, m ∈ rr_reviewer r -> on_list fd (eng_cfg eng) allowed None m).
Proof.
  intros Hraw Hr. destruct (resolved_restricts _ _ _ _ Hr) as (fd & routes & Hfd & Hres). apply restricted in Hres.
  unfold parsed_allowed_routes, parsed in Hres. rewrite Hraw in Hres. destruct (parse_route_list raw _) as [allowed|]; [|done]. cbn [result_bind] in Hres.
  destruct Hres as (Hne & Href & _ & Hp & Hrv). exists fd, allowed. do 3 (split; [done|]). split.
  - intros m. rewrite Hp, Href. intros [Hm _]%elem_of_filterb. by apply permitted_iff.
  - intros m. rewrite Hrv. intros [Hm _]%elem_of_filterb. by apply permitted_iff.
Qed.
End Listed.

(** ** The chain of an invocation *)

Lemma layer_prefix links : forall chain, exists more, layer chain links = chain ++ more.
Proof.
  induction links as [|m l IH]; intros chain; cbn; [exists []; by rewrite app_nil_r|]. case_bool_decide; [apply IH|].
  destruct (IH (chain ++ [m])) as [more ->]. exists (m :: more). by rewrite <- app_assoc.
Qed.
Lemma elem_of_layer links m : forall chain, m ∈ layer chain links <-> m ∈ chain \/ m ∈ links.
Proof.
  induction links as [|x l IH]; intros chain; cbn; [set_solver|]. case_bool_decide; rewrite IH; set_solver.
Qed.
Lemma NoDup_layer links : forall chain, NoDup chain -> NoDup (layer chain links).
Proof.
  induction links as [|x l IH]; intros chain Hc; cbn; [done|]. case_bool_decide; apply IH; [done|]. apply NoDup_app. split; [done|].
  split; [set_solver|apply NoDup_singleton].
Qed.

Lemma NoDup_filterb {A} (f : A -> bool) l : NoDup l -> NoDup (filterb f l).
Proof.
  unfold filterb. induction 1 as [|x l Hx Hl IH]; cbn; [constructor|]. destruct (f x); [|done]. constructor; [|done].
  by intros [_ Hin]%(elem_of_filterb f l x).
Qed.

Section Shape.
Context `{Calendar} `{HealthView} (from_timestamp : Z -> option Z).

(** The model an operator pinned: [-m], else the agent's. *)
Definition the_pin (cli : Cli) (eng : Engine) : option string :=
  resolve_alias (eng_corpus eng) <$> or_opt (c_model cli) (configured_model_for_agent eng (c_agent cli)).
(** The links of an automatic chain, the first one apart. *)
Definition alternates (fd : Feeds) (cli : Cli) (eng : Engine) (route : Route) : list string :=
  tail (chain_of from_timestamp fd eng cli Scenarios.Primary MAX_PRIMARY_CHAIN) ++ fallbacks route.
Definition first_link (fd : Feeds) (cli : Cli) (eng : Engine) (route : Route) : string :=
  default (primary route) (head (chain_of from_timestamp fd eng cli Scenarios.Primary MAX_PRIMARY_CHAIN)).
Definition the_router (fd : Feeds) (eng : Engine) : Router :=
  with_backed (with_primary (router_new (eng_route_corpus eng)) (cf_primary_model (eng_cfg eng))) (Some (backed_free_model_ids fd eng)).
(** A chain drawn from links: the first is the head, none is twice; under
    [--require-free] every one is free, unless no link is. *)
Definition drawn (cli : Cli) (fd : Feeds) (eng : Engine) (head_ : string) (others chain : list string) : Prop :=
  chain <> [] /\ NoDup chain /\ (forall m, m ∈ chain -> m = head_ \/ m ∈ others) /\
  (c_require_free cli = false -> head chain = Some head_ /\ forall m, m ∈ others -> m ∈ chain) /\
  (c_require_free cli = true ->
     (forall m, m ∈ chain <-> (m = head_ \/ m ∈ others) /\ is_free_link fd eng m = true)
     \/ (forall m, m = head_ \/ m ∈ others -> is_free_link fd eng m = false)).

Lemma drawn_layered cli fd eng h a b : drawn cli fd eng h (a ++ b) (free_links cli fd eng (layer (layer [h] a) b)).
Proof.
  assert (forall m, m ∈ layer (layer [h] a) b <-> m = h \/ m ∈ a ++ b) as Hin.
  { intros m. rewrite !elem_of_layer, elem_of_app, list_elem_of_singleton. tauto. }
  assert (NoDup (layer (layer [h] a) b)) as Hnd by (apply NoDup_layer, NoDup_layer, NoDup_singleton).
  assert (exists t, layer (layer [h] a) b = h :: t) as [t Ht].
  { destruct (layer_prefix a [h]) as [x ->]. destruct (layer_prefix b ([h] ++ x)) as [y ->]. by exists (x ++ y). }
  unfold drawn, free_links. destruct (c_require_free cli) eqn:Er.
  - destruct (filterb (is_free_link fd eng) (layer (layer [h] a) b)) as [|f l] eqn:Ef.
    + split; [by rewrite Ht|]. split; [done|]. split; [intros m; apply Hin|]. split; [done|]. intros _. right. intros m Hm%Hin.
      destruct (is_free_link fd eng m) eqn:Em; [|done]. assert (m ∈ ([] : list string)) as []%not_elem_of_nil.
      rewrite <- Ef. by apply elem_of_filterb.
    + rewrite <- Ef. split; [by rewrite Ef|]. split; [by apply NoDup_filterb|].
      split; [intros m [_ Hm]%elem_of_filterb; by apply Hin|]. split; [done|]. intros _. left. intros m. rewrite elem_of_filterb, Hin. tauto.
  - split; [by rewrite Ht|]. split; [done|]. split; [intros m; apply Hin|]. split; [|done]. intros _. split; [by rewrite Ht|].
    intros m Hm. apply Hin. by right.
Qed.

(** How the author's chain comes about, where no list of routes is given.  A
    pin is the whole chain, emptied under [--require-free] when it is not
    free; an agent without a model is an error.  Otherwise the first link is
    the scenario's, or the router's; with [--no-fallback] it is the chain, and
    without it the scenario's alternates and the router's fallbacks follow,
    each once. *)
Theorem chain_exact loaded cli eng fd :
  loaded (c_dry_run cli) = Some fd -> c_allowed_routes cli = None ->
  match resolve_chain from_timestamp loaded cli eng, the_pin cli eng with
  | Ok r, Some pin =>
      rr_primary r = (if c_require_free cli && negb (is_free_link fd eng pin) then [] else [pin])
      /\ rr_provider_ref r = match c_model cli with Some _ => None | None => configured_provider_ref_for_agent eng (c_agent cli) end
  | Ok r, None =>
      c_agent cli = None /\ rr_provider_ref r = None /\
      exists route, select (the_router fd eng) (tier_parse (c_tier cli)) = Ok route /\
        if c_no_fallback cli then rr_primary r = [first_link fd cli eng route]
        else drawn cli fd eng (first_link fd cli eng route) (alternates fd cli eng route) (rr_primary r)
  | Err (AgentHasNoModel alias), pin => pin = None /\ c_agent cli = Some alias
  | Err (Unrouted e), pin => pin = None /\ select (the_router fd eng) (tier_parse (c_tier cli)) = Err e
  | Err _, _ => False
  end.
Proof.
  intros Hfd Hlist. unfold resolve_chain, the_pin. rewrite Hfd. unfold scenario_chain_for_roles.
  assert (forall routes, restrict_resolved_routes from_timestamp cli eng fd routes = Ok routes) as Hid.
  { intros routes. unfold restrict_resolved_routes, parsed_allowed_routes, parsed. by rewrite Hlist. }
  fold (the_router fd eng). destruct (c_model cli) as [m|]; cbn [fmap option_fmap option_map or_opt].
  { destruct (configured_model_for_agent eng (c_agent cli)), (c_agent cli); rewrite Hid; by split. }
  destruct (configured_model_for_agent eng (c_agent cli)) as [m|] eqn:Ec; cbn [fmap option_fmap option_map or_opt].
  { destruct (c_agent cli); rewrite Hid; by split. }
  destruct (c_agent cli) as [alias|]; [done|]. destruct (select (the_router fd eng) _) as [route|e]; [|done].
  unfold routed. destruct (c_no_fallback cli); rewrite Hid; (split; [done|]; split; [done|]; exists route; split; [done|]); [done|].
  apply drawn_layered.
Qed.
End Shape.

(** ** The lists read back *)

(** A pair that a list can hold: no comma, no equality sign in the provider,
    no white space around. *)
Definition listable (p : string * string) : Prop :=
  trim p.1 = p.1 /\ p.1 <> "" /\ str_has ","%char p.1 = false /\ str_has "="%char p.1 = false /\
  trim p.2 = p.2 /\ p.2 <> "" /\ str_has ","%char p.2 = false.
Lemma split_once_has c a b : str_has c a = false -> split_once c (a +:+ String c b) = Some (a, b).
Proof.
  induction a as [|d a IH]; cbn [str_has split_once]; [by rewrite str_nil_app; cbn; rewrite Ascii.eqb_refl|].
  intros [Hd Ha]%orb_false_iff. rewrite str_app_cons. cbn [split_once]. by rewrite Hd, IH.
Qed.
Lemma pair_piece c p : is_ws c = true -> listable p ->
  forall flag l, parse_entries flag (String c (p.1 +:+ "=" +:+ p.2) :: l) = let? r := parse_entries flag l in Ok (p :: r).
Proof.
  intros Hc (Ht1 & Hn1 & Hc1 & He1 & Ht2 & Hn2 & Hc2) flag l. cbn [parse_entries]. rewrite <- str_app_cons.
  change ("=" +:+ p.2) with (String "="%char p.2). rewrite split_once_has.
  2: { cbn [str_has]. rewrite He1, orb_false_r. destruct (Ascii.eqb_spec c "="%char) as [->|]; [done|done]. }
  rewrite trim_blank_left, Ht1, Ht2 by done. destruct p as [a b]. cbn [fst snd] in *. by destruct a, b.
Qed.
Lemma plain_piece p : listable p ->
  forall flag l, parse_entries flag ((p.1 +:+ "=" +:+ p.2) :: l) = let? r := parse_entries flag l in Ok (p :: r).
Proof.
  intros (Ht1 & Hn1 & Hc1 & He1 & Ht2 & Hn2 & Hc2) flag l. cbn [parse_entries].
  change ("=" +:+ p.2) with (String "="%char p.2). rewrite split_once_has, Ht1, Ht2 by done.
  destruct p as [a b]. cbn [fst snd] in *. by destruct a, b.
Qed.
Definition shown (p : string * string) : string := p.1 +:+ "=" +:+ p.2.
Lemma shown_no_comma p : listable p -> str_has ","%char (shown p) = false.
Proof. intros (_ & _ & H1 & _ & _ & _ & H2). unfold shown. rewrite !str_has_app, H1, H2. done. Qed.
Lemma split_listed p ps : Forall listable (p :: ps) ->
  split_on ","%char (join ", " (map shown (p :: ps))) = shown p :: map (fun q => String " "%char (shown q)) ps.
Proof.
  revert p. induction ps as [|q ps IH]; intros p Hall; apply Forall_cons in Hall as [Hp Hall].
  - cbn [map join]. by rewrite split_on_whole by by apply shown_no_comma.
  - cbn [map]. change (join ", " (shown p :: shown q :: map shown ps)) with (shown p +:+ String ","%char (String " "%char (join ", " (map shown (q :: ps))))).
    rewrite split_on_app by by apply shown_no_comma. f_equal. cbn [split_on]. rewrite IH by done. done.
Qed.
(** The list of allowed routes that an error shows can be given back: it reads
    as the pairs it was made of. *)
Theorem shown_list_reads_back flag pairs : pairs <> [] -> Forall listable pairs -> parse_route_list (format_allowed_pairs pairs) flag = Ok pairs.
Proof.
  destruct pairs as [|p ps]; [done|]. intros _ Hall. unfold parse_route_list, format_allowed_pairs.
  change (fun p0 : string * string => p0.1 +:+ "=" +:+ p0.2) with shown. rewrite split_listed by done. apply Forall_cons in Hall as [Hp Hall].
  unfold shown at 1. rewrite plain_piece by done.
  assert (parse_entries flag (map (fun q => String " "%char (shown q)) ps) = Ok ps) as ->; [|done].
  induction Hall as [|q ps Hq Hall IH]; [done|]. cbn [map]. unfold shown at 1. rewrite pair_piece by done. by rewrite IH.
Qed.

(** ** The verified free routes *)

Definition row_of (i : string) (ms : list ModelEntry) : option ModelEntry := find_first (fun m => bool_decide (id m = i)) ms.
Lemma row_of_update i j f ms : (forall m, id (f m) = id m) ->
  row_of i (update_first (fun m => bool_decide (id m = j)) f ms) = if bool_decide (i = j) then f <$> row_of i ms else row_of i ms.
Proof.
  intros Hf. unfold row_of. induction ms as [|m ms IH]; cbn; [by case_bool_decide|].
  destruct (bool_decide (id m = j)) eqn:Ej; cbn.
  - apply bool_decide_eq_true in Ej. rewrite Hf. subst j. destruct (bool_decide (i = id m)) eqn:Ei; cbn.
    + apply bool_decide_eq_true in Ei. subst. by rewrite bool_decide_true.
    + rewrite (bool_decide_false (id m = i)); [done|]. intros <-. by rewrite bool_decide_true in Ei.
  - rewrite IH. destruct (bool_decide (id m = i)) eqn:Ei; cbn; [|done]. apply bool_decide_eq_true in Ei. subst i.
    by rewrite Ej.
Qed.
Lemma row_added i ms e : row_of i ms = None -> row_of i (ms ++ [e]) = if bool_decide (id e = i) then Some e else None.
Proof. unfold row_of. intros Hn. rewrite find_first_app, Hn. cbn. done. Qed.
Lemma row_of_app_other i ms e : id e <> i -> row_of i (ms ++ [e]) = row_of i ms.
Proof. unfold row_of. intros Hn. rewrite find_first_app. destruct (find_first _ ms); [done|]. cbn. by rewrite bool_decide_false. Qed.
Lemma free_route_id m : id (free_route m) = id m.
Proof. unfold free_route. by destruct (agentic_score _). Qed.

Section OverrideTheorems.
Context `{Calendar} (parse : string -> option ProviderModelOverrides) (cfg : Config) (now : Z).

(** The provider the program would call for the model is free, is the one
    named, and lists the model itself. *)
Definition verified (e : VerifiedFreeRoute) : Prop :=
  exists p, real_provider_for_model (cf_providers cfg) (vf_model_id e) now = Some p /\
    prov_id p = vf_provider_id e /\ paid p = false /\ billing p = BillFree /\ vf_model_id e ∈ serves p.
Lemma verify_route_ok seen ms e ms' : verify_route cfg now seen ms e = Ok ms' ->
  vf_model_id e ∉ seen /\ verified e /\
  row_of (vf_model_id e) ms' = Some (free_route (default (entry_of_id (vf_model_id e)) (row_of (vf_model_id e) ms))) /\
  forall i, i <> vf_model_id e -> row_of i ms' = row_of i ms.
Proof.
  unfold verify_route. destruct (str_is_empty _ || _) eqn:E1; [done|]. apply orb_false_iff in E1 as [_ Hs%bool_decide_eq_false].
  destruct (real_provider_for_model _ _ _) as [p|] eqn:Ep; [|done]. destruct (is_the_free_route p e) eqn:Ef; [|done].
  unfold is_the_free_route in Ef. rewrite !andb_true_iff, negb_true_iff, !bool_decide_eq_true in Ef. destruct Ef as [[[Hid Hp] Hb] Hsv].
  intros [= <-]. split; [done|]. split; [by exists p|].
  set (i0 := vf_model_id e). assert (known i0 ms = true <-> is_Some (row_of i0 ms)) as Hk.
  { unfold known, row_of. rewrite existsb_exists. split.
    - intros (m & Hin%list_elem_of_In & Hm). destruct (find_first _ ms) eqn:E; [by eexists|]. rewrite find_first_None in E. by rewrite E in Hm.
    - intros [m Hm]. apply find_first_Some in Hm as [Hin Hm]. exists m. split; [by apply list_elem_of_In|done]. }
  split.
  - rewrite row_of_update by apply free_route_id. rewrite bool_decide_true by done. destruct (known i0 ms) eqn:Ek.
    + destruct (proj1 Hk eq_refl) as [m Hm]. by rewrite Hm.
    + destruct (row_of i0 ms) as [m|] eqn:Em; [by discriminate (proj2 Hk ltac:(by eexists))|].
      rewrite row_added by done. cbn [id entry_of_id]. by rewrite bool_decide_true.
  - intros i Hi. rewrite row_of_update by apply free_route_id. rewrite bool_decide_false by done. destruct (known i0 ms); [done|].
    by apply row_of_app_other.
Qed.
Lemma verify_all_ok l : forall seen ms ms', verify_all cfg now seen ms l = Ok ms' ->
  NoDup (map vf_model_id l) /\ (forall i, i ∈ map vf_model_id l -> i ∉ seen) /\ Forall verified l /\
  forall i, row_of i ms' = if bool_decide (i ∈ map vf_model_id l) then Some (free_route (default (entry_of_id i) (row_of i ms))) else row_of i ms.
Proof.
  induction l as [|e l IH]; intros seen ms ms' Hl; cbn [verify_all] in Hl.
  - injection Hl as <-. split; [constructor|]. split; [by intros i Hi%not_elem_of_nil|]. split; [constructor|]. intros i.
    rewrite bool_decide_false; [done|]. apply not_elem_of_nil.
  - apply result_bind_Ok in Hl as (ms1 & H1 & H2). apply verify_route_ok in H1 as (Hs & Hv & Hrow & Hother).
    apply IH in H2 as (Hnd & Hfresh & Hall & Hrows). cbn [map]. split; [|split; [|split; [by constructor|]]].
    + constructor; [|done]. intros Hin%Hfresh. apply Hin. by left.
    + intros i [->|Hi]%elem_of_cons; [done|]. intros Hin. apply (Hfresh i Hi). by right.
    + intros i. rewrite Hrows. destruct (decide (i = vf_model_id e)) as [->|Hne].
      * rewrite (bool_decide_true (_ ∈ _ :: _)) by by left. rewrite bool_decide_false; [done|]. intros Hin%Hfresh. apply Hin. by left.
      * rewrite Hother by done. case_bool_decide as Ha; case_bool_decide as Hb; try done.
        -- destruct Hb. by right.
        -- apply elem_of_cons in Hb as [Hb|Hb]; done.
Qed.

(** The corpus the routing works on: without a file the public one; with one,
    each model once, each served for free by the provider it names, and the
    row of every other model is the public one.  A verified model has the
    public row, or a new one, made a free route without a price. *)
Theorem overrides_exact read public c : provider_route_corpus parse cfg now read public = Ok c ->
  (read = NoFile /\ c = public) \/
  exists raw overlay, read = Contents raw /\ parse raw = Some overlay /\ ov_schema_version overlay = 1 /\
    let verified_ids := map vf_model_id (ov_verified_free overlay) in
    NoDup verified_ids /\ Forall verified (ov_verified_free overlay) /\ alias_map c = alias_map public /\
    (forall i, i ∉ verified_ids -> row_of i (models c) = row_of i (models public)) /\
    (forall i, i ∈ verified_ids -> exists m, row_of i (models c) = Some m /\ routable m = true /\ priced m = false /\
                 m = free_route (default (entry_of_id i) (row_of i (models public)))).
Proof.
  unfold provider_route_corpus. destruct read as [| | |raw]; try done; [intros [= <-]; by left|]. destruct (_ <? _); [done|].
  destruct (parse raw) as [overlay|] eqn:Ep; [|done]. destruct (ov_schema_version overlay =? 1) eqn:Es; [|done]. intros Hc. right.
  apply result_bind_Ok in Hc as (ms & Hms & [= <-]). apply verify_all_ok in Hms as (Hnd & _ & Hv & Hrows).
  exists raw, overlay. split; [done|]. split; [done|]. split; [by apply Z.eqb_eq|]. split; [done|]. split; [done|]. split; [done|]. split.
  - intros i Hi. cbn [models with_rows]. by rewrite Hrows, bool_decide_false.
  - intros i Hi. cbn [models with_rows]. rewrite Hrows, bool_decide_true by done. eexists. split; [done|].
    split; [|split; [|done]]; unfold free_route; by destruct (agentic_score _).
Qed.
End OverrideTheorems.

(** ** Concrete invocations *)

Definition header_plan : SubscriptionPlan :=
  mkPlan (f64_of_Z 20) None [mkQuotaWindow "5h" 5 Requests (Some (f64_of_Z 100)) None Header Rolling] None.
Definition route_provider (i url : string) (b : BillingMode) (plan : option SubscriptionPlan) (sv : list string) : Config.Provider :=
  mkProvider i [] None url "openai-chat" AuthNone false b plan sv None None None None None None None None.
Definition bare_config (ps : list Config.Provider) (primary_model : option string) : Config := mkConfig ps ∅ ∅ primary_model "balanced" None.
Definition quiet_feeds : Feeds := mkFeeds [] tier_catalog_empty None None 0.
Definition telemetry (p : Utilization.Provider) (percent : Z) : UtilizationStore :=
  mkStore {[ key p DEFAULT_ACCOUNT_ID "explicit" :=
    mkRecord p DEFAULT_ACCOUNT_ID "explicit" (Some (mkWindowSnapshot (Some (f64_of_Z percent)) None None None)) None None 0 ]} ∅ CURRENT_SCHEMA_VERSION.
Definition free_row (i fam : string) : ModelEntry :=
  mkModel i "h" i fam "chat" true true false None [] None None None None None None None None None None None None (Some (f64_lit 1 2)) None None None None.
Definition rows_corpus (ms : list ModelEntry) : Corpus := mkCorpus "test" false "" "" (Z.of_nat (length ms)) ms ∅ None.
Definition free_engine : Engine :=
  mkEngine (bare_config [route_provider "gw" "https://gw.test" BillFree None ["a/"; "b/"]] None)
    (rows_corpus [free_row "a/one" "a"; free_row "b/two" "b"]) (rows_corpus [free_row "a/one" "a"; free_row "b/two" "b"]) empty_registry.
Definition plain_cli (list_ : option string) : Cli := mkCli None None "auto" false false false false list_ None.
Definition no_timestamp : Z -> option Z := fun _ => None.
Definition healthy_host : HealthView := store_health ∅ 0.

Lemma routes_stay_in_list_witness :
  exists r, resolve_chain (H := gregorian) (H0 := healthy_host) no_timestamp (fun _ => Some quiet_feeds) (plain_cli (Some "gw = b/two")) free_engine = Ok r
    /\ rr_primary r = ["b/two"] /\ exists p, provider_for_resolved_model (H := gregorian) no_timestamp quiet_feeds (eng_cfg free_engine) "b/two" None = Some p.
Proof.
  eexists. split; [vm_compute; reflexivity|]. split; [reflexivity|].
  edestruct (routes_stay_in_list (H := gregorian) (H0 := healthy_host) no_timestamp (fun _ => Some quiet_feeds) (plain_cli (Some "gw = b/two")) free_engine
    "gw = b/two") as (fd & allowed & [= <-] & _ & _ & Hp & _); [reflexivity|vm_compute; reflexivity|].
  destruct (Hp "b/two") as (p & Hpp & _); [by left|]. exists p. exact Hpp.
Defined.
Lemma chain_exact_witness :
  exists r route, resolve_chain (H := gregorian) (H0 := healthy_host) no_timestamp (fun _ => Some quiet_feeds) (plain_cli None) free_engine = Ok r
    /\ rr_primary r = ["a/one"; "b/two"] /\ select (H := healthy_host) (the_router (H := gregorian) quiet_feeds free_engine) Auto = Ok route.
Proof.
  eexists. assert (resolve_chain (H := gregorian) (H0 := healthy_host) no_timestamp (fun _ => Some quiet_feeds) (plain_cli None) free_engine = Ok _) as Hr
    by (vm_compute; reflexivity).
  pose proof (chain_exact (H := gregorian) (H0 := healthy_host) no_timestamp (fun _ => Some quiet_feeds) (plain_cli None) free_engine quiet_feeds eq_refl eq_refl) as Hc.
  rewrite Hr in Hc. cbv [the_pin] in Hc. cbn [c_model c_agent plain_cli or_opt configured_model_for_agent mbind option_bind eng_cfg cf_primary_model free_engine bare_config fmap option_fmap option_map] in Hc.
  destruct Hc as (_ & _ & route & Hs & _). exists route. split; [exact Hr|]. split; [reflexivity|]. exact Hs.
Defined.
Lemma shown_list_reads_back_witness :
  parse_route_list (format_allowed_pairs [("gw", "a=1"); ("other", "b")]) "--allowed-routes" = Ok [("gw", "a=1"); ("other", "b")].
Proof. apply (shown_list_reads_back "--allowed-routes" [("gw", "a=1"); ("other", "b")]); [done|]. repeat constructor; done. Defined.
Lemma overrides_exact_witness :
  let cfg := bare_config [route_provider "gw" "https://gw.test" BillFree None ["a/one"]] None in
  exists c, provider_route_corpus (H := gregorian) (fun _ => Some (mkOverrides 1 [mkVerified "gw" "a/one"])) cfg 0 (Contents "{}") (rows_corpus []) = Ok c
    /\ exists m, row_of "a/one" (models c) = Some m /\ routable m = true.
Proof.
  cbn zeta. eexists. split; [vm_compute; reflexivity|].
  edestruct (overrides_exact (H := gregorian) (fun _ => Some (mkOverrides 1 [mkVerified "gw" "a/one"]))
    (bare_config [route_provider "gw" "https://gw.test" BillFree None ["a/one"]] None) 0 (Contents "{}") (rows_corpus []))
    as [[Hf _]|(raw & ov & _ & [= <-] & _ & _ & _ & _ & _ & Hrow)]; [vm_compute; reflexivity|discriminate Hf|].
  destruct (Hrow "a/one") as (m & Hm & Hr & _); [by left|]. exists m. split; [exact Hm|exact Hr].
Defined.

(** A subscription whose telemetry says to keep it is taken although its
    token plan is exhausted. *)
Example telemetry_passes_the_wall :
  let a := route_provider "minimax" "https://api.minimax.io" Subscription (Some header_plan) ["MiniMax"] in
  let b := route_provider "gateway" "https://gw.test" BillFree None ["MiniMax"] in
  let walled_now := {[ "minimax" := mkQuotaState (Some (mkLimit "minimax" 0 (Some 100))) None None ]} in
  let fd store := mkFeeds [] tier_catalog_empty store (Some walled_now) 0 in
  routed_provider (H := gregorian) no_timestamp (fd None) (bare_config [a; b] None) "MiniMax-M3" = Some b
  /\ routed_provider (H := gregorian) no_timestamp (fd (Some (telemetry MiniMax 10))) (bare_config [a; b] None) "MiniMax-M3" = Some a.
Proof. by vm_compute. Qed.
(** With telemetry a subscription without an address is taken. *)
Example telemetry_takes_the_placeholder :
  let a := route_provider "codex" "https://api.example.com/v1" Subscription (Some header_plan) ["gpt-"] in
  let fd store := mkFeeds [] tier_catalog_empty store None 0 in
  routed_provider (H := gregorian) no_timestamp (fd None) (bare_config [a] None) "gpt-6" = None
  /\ routed_provider (H := gregorian) no_timestamp (fd (Some (telemetry OpenaiCodex 10))) (bare_config [a] None) "gpt-6" = Some a.
Proof. by vm_compute. Qed.
(** An agent pinned in the program's own configuration keeps the provider of
    the engine's profile. *)
Example pin_keeps_engine_provider :
  let agents := {[ "coder" := mkAgent (Some "m2") None (Some "custom.own") ]} in
  let reg := mkRegistry [("coder", mkAgentModel None (Some "custom.engine"))] [("custom.engine", plain_profile "m1" None None [])] None in
  let eng := mkEngine (mkConfig [] agents ∅ None "balanced" None) (rows_corpus []) (rows_corpus []) reg in
  configured_model_for_agent eng (Some "coder") = Some "m2" /\ configured_provider_ref_for_agent eng (Some "coder") = Some "custom.engine".
Proof. by vm_compute. Qed.
