(* ===== verification/Oneshot.v ===== *)
(** The single call (crates/zoder-cli/src/main.rs, [cmd_exec_oneshot], and
    provider_health.rs): the guards before it, the walk of the chain with the
    retries of every link, the gate of a provider's health, and the settling
    of the answer in the ledger.

    What the outside answers is an argument: the readings of the routing
    files, the answers of the providers, the turns of the queue, whether the
    ledger could be written, and the two words of the operator.  The routing
    of every link is read anew, as the program does; the steps of the run are
    kept as a list of events. *)
From stdpp Require Import gmap strings.
From S2P Require Import Prelude F64 Numbers Text Json Clock Health Config Corpus Policy Pricing HostCooldown Budget Ledger Tiers Utilization Scenarios Router ProviderWire ProviderStream ContextOpt EngineRoutes Routes.
Local Open Scope string_scope.
Local Open Scope Z_scope.
Local Open Scope list_scope.
Local Open Scope zoder_scope.

(** ** Billing *)

Inductive BillingPosture := PostureMetered | PostureSubscription | PostureFree.
Definition is_cost_neutral (b : BillingPosture) : bool := match b with PostureMetered => false | _ => true end.
Definition posture_str (b : BillingPosture) : string :=
  match b with PostureMetered => "metered" | PostureSubscription => "subscription" | PostureFree => "free" end.
(** [BillingPosture::from] *)
Definition posture_of (p : Config.Provider) : BillingPosture :=
  match billing p with
  | Subscription => PostureSubscription
  | BillFree => if paid p then PostureMetered else PostureFree
  | Metered => PostureMetered
  end.
Definition is_cost_neutral_provider (p : Config.Provider) : bool := is_cost_neutral (posture_of p).

Section Cost.
Context `{Calendar} (bundled : list (string * ModelPrice)).
Definition reported_cost (c : option f64) : option f64 := opt_filter (fun c => f64_is_finite c && (c >=? f64_zero)%f64) c.
Definition ledger_call_cost (posture : BillingPosture) (telemetry_cost_usd : option f64) (pricing : PricingCatalog) (model : string)
  (tokens_in tokens_out cache_hit_tokens : Z) (ts : option Z) : f64 * bool :=
  match reported_cost telemetry_cost_usd with
  | Some cost => (cost, false)
  | None =>
      if is_cost_neutral posture then (f64_zero, false)
      else if (tokens_in =? 0) && (tokens_out =? 0) then (f64_zero, true)
      else match classify_cost_with_cache bundled pricing model tokens_in tokens_out cache_hit_tokens ts with
      | Priced cost => (cost, false)
      | VFree => (f64_zero, false)
      | VUnknown => (f64_zero, true)
      end
  end.
End Cost.

Definition billed (c : option f64) : option f64 := opt_filter (fun c => f64_is_finite c && (c >? f64_zero)%f64) c.
(** The violation of a paid call nobody asked for: the model and the cost it
    reports. *)
Record PaidViolation := mkPaid { pvn_model : string; pvn_known_paid : bool; pvn_cost : option f64 }.
Definition paid_without_opt_in (allow_paid provider_cost_neutral : bool) (model : string) (known_paid_model : bool) (observed_cost : option f64) :
  option PaidViolation :=
  if allow_paid || provider_cost_neutral || (negb known_paid_model && negb (bool_decide (is_Some (billed observed_cost)))) then None
  else Some (mkPaid model known_paid_model (billed observed_cost)).
Definition cache_hit_ratio_of (prompt_tokens : Z) (cached : option Z) : option f64 :=
  (fun c => if prompt_tokens =? 0 then f64_zero else f64_div (f64_of_Z (Z.min c prompt_tokens)) (f64_of_Z prompt_tokens)) <$> cached.
Definition finops_tags (task tier : string) (prompt_tokens : Z) (cached : option Z) : FinOpsTags :=
  mkTags (Some "zoder") (Some task) (Some tier) (cache_hit_ratio_of prompt_tokens cached) cached.

(** ** One model's attempts *)

(** What the outside does to one attempt. *)
Record AttemptFeed := mkAttempt {
  at_slot : result unit string;
  at_reserved : bool;
  at_armed : bool;
  at_answer : result ChatResult ProviderError;
  at_jitter : f64
}.
Inductive Event :=
| SlotTaken (group : string)
| SlotFreed (group : string)
| Reserved
| Armed (provider model : string)
| Sent (link : nat) (provider model : string)
| Slept (delay : Z).
Inductive Attempted :=
| Answered (r : ChatResult)
| Failed (e : ProviderError) (fatal : bool)
| NotReserved
| NotArmed.
Definition queue_error (group e : string) : ProviderError := provider_error ErrRateLimit ("endpoint group " +:+ group +:+ ": " +:+ e).
Definition overload_floor (p : Config.Provider) (e : ProviderError) : option Z :=
  if pe_overload e then (fun s => s * NS) <$> overload_backoff_min_s p else None.

Section Attempts.
Context (link : nat) (p : Config.Provider) (model : string) (feed : Z -> AttemptFeed).
Let pid := prov_id p.
Let group := (provider_call_budget p).1.1.

(** [try_model_with_budget]: [retries] are left after attempt number
    [attempt]; [initial] tells whether the reservation made before the walk
    is still to be used. *)
Fixpoint try_model (retries : nat) (attempt : Z) (initial : bool) : Attempted * bool * list Event :=
  let f := feed attempt in
  match at_slot f with
  | Err e => (Failed (queue_error group e) false, initial, [])
  | Ok _ =>
      if negb initial && negb (at_reserved f) then (NotReserved, initial, [SlotTaken group; SlotFreed group])
      else
        let taken := SlotTaken group :: (if initial then [] else [Reserved]) in
        if negb (at_armed f) then (NotArmed, false, taken ++ [SlotFreed group])
        else
          let sent := taken ++ [Armed pid model; Sent link pid model] in
          match at_answer f with
          | Ok r => (Answered r, false, sent ++ [SlotFreed group])
          | Err e =>
              if pe_emitted e then (Failed e true, false, sent ++ [SlotFreed group])
              else match retries with
              | S retries =>
                  if retryable e then
                    let wait := backoff_delay (at_jitter f) attempt (pe_retry_after e) (overload_floor p e) in
                    let '(r, i, more) := try_model retries (attempt + 1) false in
                    (r, i, sent ++ Slept wait :: SlotFreed group :: more)
                  else (Failed e false, false, sent ++ [SlotFreed group])
              | O => (Failed e false, false, sent ++ [SlotFreed group])
              end
          end
  end.
End Attempts.

(** ** The gate of a provider's health *)

Definition as_secs (ns : Z) : Z := ns / NS.
(** [provider_health::classify] *)
Definition classify_call_error (e : ProviderError) : Classification :=
  match pe_status e with Some code => from_status code | None => classify_err_kind (pe_kind e) end.
(** The outcome of the bounded probe: [None] is its time out. *)
Definition probe_failure (bound_ms : Z) (model : string) (outcome : option (result (list string) ProviderError)) :
  option (Classification * option Z * string) :=
  match outcome with
  | Some (Ok ids) =>
      if bool_decide (model ∈ ids) then None
      else Some (Unprovisioned, None, "health probe: " +:+ model +:+ " is not listed by the gateway's /models")
  | Some (Err e) => Some (classify_call_error e, pe_retry_after e, "health probe failed: " +:+ pe_message e)
  | None => Some (CError, None, "health probe timed out after " +:+ show_u bound_ms +:+ "ms")
  end.
Record ProbeFeed := mkProbe {
  pb_locked : bool;
  pb_snapshot : gmap string ModelHealth;
  pb_at : Z;
  pb_ttl : Z;
  pb_bound_ms : Z;
  pb_outcome : option (result (list string) ProviderError);
  pb_recorded_at : Z;
  pb_noted_at : Z
}.
Definition skip_note (model provider reason : string) (until now : Z) : string :=
  "skipped unhealthy provider model " +:+ model +:+ " (provider " +:+ provider +:+ "): " +:+ reason +:+ "; not querying it for another "
  +:+ show_u (Z.max 0 (until - now)) +:+ "s (circuit breaker); falling back to the next configured route".
Definition retry_horizon (store : gmap string ModelHealth) (model : string) (fallback : Z) : Z :=
  default fallback (h ← store !! model; g ← gate h; retry_not_before_unix g).
(** [admit] on the store of the host: the store after it, and the note of a
    skip. *)
Definition admit_model (store : gmap string ModelHealth) (pf : ProbeFeed) (provider model : string) :
  gmap string ModelHealth * option string :=
  let '(store, d) := decide_with_ttl (pb_locked pf) store (pb_snapshot pf) model (pb_at pf) (pb_ttl pf) in
  match d with
  | Health.Fresh _ => (store, None)
  | Skip until reason => (store, Some (skip_note model provider reason until (pb_noted_at pf)))
  | NeedsProbe _ =>
      match probe_failure (pb_bound_ms pf) model (pb_outcome pf) with
      | None => (upd store model (fun h => record_gate_success_at h (pb_recorded_at pf) provider), None)
      | Some (c, retry_after, reason) =>
          let store := upd store model
            (fun h => record_gate_failure_at h (pb_recorded_at pf) provider c (as_secs <$> retry_after) reason) in
          (store, Some (skip_note model provider reason (retry_horizon store model (pb_at pf)) (pb_noted_at pf)))
      end
  end.
Definition opens_gate (k : ErrKind) : bool := match k with ErrRateLimit | ErrServer | ErrTimeout | ErrNetwork => true | _ => false end.
Definition record_call_error (store : gmap string ModelHealth) (now : Z) (provider model : string) (e : ProviderError) : gmap string ModelHealth :=
  if opens_gate (pe_kind e)
  then upd store model (fun h => record_gate_failure_at h now provider (classify_call_error e) (as_secs <$> pe_retry_after e) (pe_message e))
  else store.

(** ** The walk of the chain *)

Inductive OneshotError :=
| LedgerRead
| Routing (e : RoutingError)
| NoModel
| NoProvider (model : string)
| NotKnownFree (model : string)
| NoPrompt
| EmptyTask
| ReservationFailed
| OverBudget (model : string) (why : list Reason)
| PaidDeclined
| ConfirmFailed
| SessionUnreadable
| LinkUnserved (model : string)
| LinkOutside (e : RoutingError)
| NotConfigured (provider : string)
| NoClient (provider : string)
| AttemptNotReserved (model : string)
| AttemptNotArmed (model : string)
| ChainFailed (summary : string)
| NotReconciled
| PolicyViolated (verdict : option FreeViolation) (paid : option PaidViolation).
(** What the outside does to one link. *)
Record LinkFeed := mkLink {
  lk_fd : Feeds;
  lk_client : bool;
  lk_probe : ProbeFeed;
  lk_attempt : Z -> AttemptFeed;
  lk_gate_at : Z;
  lk_wall_now : Z;
  lk_failed_at : Z;
  lk_checked_at : Z;
  lk_latency : f64
}.
(** The configuration and the options the call reads besides those of the
    routing. *)
Record Settings := mkSettings {
  st_strict_free : bool;
  st_free_hosts : list string;
  st_gated : list string;
  st_context : ContextConfig;
  st_deployment : ContextProfile;
  st_windows : list WindowEntry;
  st_budget : Budget;
  st_pricing : PricingCatalog
}.
Record Options := mkOptions {
  o_lenient : bool;
  o_retries : nat;
  o_max_tokens : Z;
  o_task : string
}.
Record Walk := mkWalk {
  wk_health : gmap string ModelHealth;
  wk_store : gmap string ModelHealth;
  wk_initial : bool;
  wk_failures : list string;
  wk_last : option ProviderError;
  wk_events : list Event
}.
Record Winner := mkWinner {
  wn_model : string;
  wn_provider : string;
  wn_latency : f64;
  wn_result : ChatResult;
  wn_messages : list (string * string)
}.
Inductive LinkEnd :=
| Next (w : Walk)
| Won (x : Winner) (w : Walk)
| Halt (w : Walk)
| Abandon (e : OneshotError) (w : Walk).

Definition UNKNOWN_MODEL : string := "unknown model: not in corpus, cannot verify free".
Definition unknown_row (model : string) : ModelEntry := set_class "" false false false (Some UNKNOWN_MODEL) (entry_of_id model).
Definition too_large_text (e : TooLargeError) : string :=
  "the conversation is " +:+ show_u (tl_tokens e) +:+ " tokens (about " +:+ show_u (tl_bytes e) +:+ " bytes) and does not fit this provider's "
  +:+ show_u (tl_window e) +:+ "-token context window, even after the context levers bounded it. Raise the provider's max_context_tokens or pick a model with a larger window. The conversation is NOT truncated: cutting it would silently drop the brief.".
(** The dash, the quotation mark and the ellipsis of the message, in UTF-8. *)
Definition bytes3 (a b c : nat) : string := String (Ascii.ascii_of_nat a) (String (Ascii.ascii_of_nat b) (String (Ascii.ascii_of_nat c) EmptyString)).
Definition DASH : string := bytes3 226 128 148.
Definition ELLIPSIS : string := bytes3 226 128 166.
Definition QUOTE : string := String (Ascii.ascii_of_nat 34) EmptyString.
Definition exhausted_text (max_tokens : Z) (usage : EmptyLengthUsage) (reasoning : option string) : string :=
  let used := match el_completion_tokens usage with Some t => " (" +:+ show_u t +:+ " completion tokens used)" | None => "" end in
  let because := match opt_filter (fun r => negb (str_is_empty r)) (trim <$> reasoning) with
                 | Some r => " " +:+ DASH +:+ " its reasoning ended: " +:+ QUOTE +:+ take_chars 120 r +:+ ELLIPSIS +:+ QUOTE +:+ " (full text with --show-reasoning)"
                 | None => "" end in
  "model spent its whole " +:+ show_u max_tokens +:+ "-token budget" +:+ used +:+ " and returned no answer" +:+ because
  +:+ "; raise --max-tokens or lower its reasoning effort".
Definition failure_text (max_tokens : Z) (e : ProviderError) : string :=
  match pe_length_exhausted e with Some usage => exhausted_text max_tokens usage (pe_reasoning e) | None => pe_message e end.
Definition attempt_note (model provider why : string) : string := model +:+ " via " +:+ provider +:+ ": " +:+ why.
Definition with_failure (w : Walk) (note : string) : Walk :=
  mkWalk (wk_health w) (wk_store w) (wk_initial w) (wk_failures w ++ [note]) (wk_last w) (wk_events w).
Definition with_store (w : Walk) (store : gmap string ModelHealth) : Walk :=
  mkWalk (wk_health w) store (wk_initial w) (wk_failures w) (wk_last w) (wk_events w).
Definition with_call (w : Walk) (initial : bool) (ev : list Event) : Walk :=
  mkWalk (wk_health w) (wk_store w) initial (wk_failures w) (wk_last w) (wk_events w ++ ev).

Section Run.
Context `{Calendar} (from_timestamp : Z -> option Z) (url_host : string -> option string) (from_str : string -> option Value)
  (bundled : list (string * ModelPrice)) (eng : Engine) (set_ : Settings) (cli : Cli) (opt : Options).
Let cfg : Routes.Config := eng_cfg eng.
Definition strict_free_in_force : bool := (st_strict_free set_ && negb (o_lenient opt)) || c_require_free cli.
Definition the_gate : PolicyGate := new_gate url_host (st_free_hosts set_) (cf_providers cfg) (c_allow_paid cli) strict_free_in_force.
Definition row_of_model (model : string) : ModelEntry := default (unknown_row model) (corpus_get (eng_route_corpus eng) model).
Definition spends_by_call (p : Config.Provider) : bool := paid p || bool_decide (billing p = Metered).
Definition link_paid (pid : string) : bool := default false (spends_by_call <$> config_provider (cf_providers cfg) pid).
Definition link_neutral (pid : string) : bool := default false ((fun p => negb (spends_by_call p)) <$> config_provider (cf_providers cfg) pid).
Definition needs_confirm (d : Decision) : bool := match d with NeedConfirm _ _ => true | Allow => false end.
(** A fallback that would need a confirmation is skipped. *)
Definition skips_paid (model pid : string) : bool := needs_confirm (check the_gate (row_of_model model) (link_paid pid) (link_neutral pid)).
Definition known_not_free (model : string) : bool :=
  match corpus_get (eng_route_corpus eng) model with Some m => negb (me_free m) | None => false end.
Definition wall_of (now : Z) (e : ProviderError) : option Z :=
  if pe_token_plan_limit e then Some (default (now + Minimax.DEFAULT_EXHAUSTED_GRACE_SECS) ((fun d => d / NS) <$> pe_token_plan_resets_at e)) else None.
(** The note, the two health stores and the last error after a failed call. *)
Definition record_failed (lf : LinkFeed) (gated : bool) (pid model : string) (e : ProviderError) (w : Walk) : Walk :=
  mkWalk
    (record_classified_failure_with_wall (wk_health w) model (pe_message e) pid (classify_err from_str e) (wall_of (lk_wall_now lf) e)
       (lk_failed_at lf) (lk_checked_at lf))
    (if gated then record_call_error (wk_store w) (lk_gate_at lf) pid model e else wk_store w)
    (wk_initial w) (wk_failures w ++ [attempt_note model pid (failure_text (o_max_tokens opt) e)]) (Some e) (wk_events w).

Definition link_request (pid model : string) (messages : list (string * string)) : result (list (string * string)) TooLargeError :=
  let levers := context_levers_for (st_context set_) (st_deployment set_) model in
  request_messages levers (window_for (st_windows set_) (cf_providers cfg) pid model levers) messages.
(** The call of a link whose provider, request and posture are settled. *)
Definition call_link (i : nat) (model pid : string) (pc : Config.Provider) (request : list (string * string)) (lf : LinkFeed) (w : Walk) : LinkEnd :=
  let gated := bool_decide (pid ∈ st_gated set_) in
  let '(store, skip) := if gated then admit_model (wk_store w) (lk_probe lf) pid model else (wk_store w, None) in
  let w := with_store w store in
  match skip with
  | Some note => Next (with_failure w (attempt_note model pid note))
  | None =>
      let '(a, initial, ev) := try_model i pc model (lk_attempt lf) (o_retries opt) 0 (wk_initial w) in
      let w := with_call w initial ev in
      match a with
      | NotReserved => Abandon (AttemptNotReserved model) w
      | NotArmed => Abandon (AttemptNotArmed model) w
      | Answered r =>
          let store := if gated then upd (wk_store w) model (fun h => record_gate_success_at h (lk_gate_at lf) pid) else wk_store w in
          Won (mkWinner model pid (lk_latency lf) r request) (with_store w store)
      | Failed e fatal => (if fatal then Halt else Next) (record_failed lf gated pid model e w)
      end
  end.
(** [reference] is the profile of the agent's pin; only the first link has
    it. *)
Definition walk_link (reference : option string) (messages : list (string * string)) (i : nat) (model : string) (lf : LinkFeed) (w : Walk) : LinkEnd :=
  if c_require_free cli && known_not_free model then Next w
  else match provider_for_resolved_model from_timestamp (lk_fd lf) cfg model (if bool_decide (i = 0%nat) then reference else None) with
  | None => Abandon (LinkUnserved model) w
  | Some p =>
      let pid := prov_id p in
      match require_allowed_route cli pid model with
      | Err e => Abandon (LinkOutside e) w
      | Ok _ =>
          if negb (bool_decide (i = 0%nat)) && skips_paid model pid then Next w
          else match config_provider (cf_providers cfg) pid with
          | None => Abandon (NotConfigured pid) w
          | Some pc =>
              if negb (lk_client lf) then Abandon (NoClient pid) w
              else match link_request pid model messages with
              | Err e => Next (with_failure w (attempt_note model pid (too_large_text e)))
              | Ok request => call_link i model pid pc request lf w
              end
          end
      end
  end.
Inductive WalkEnd :=
| Answer (x : Winner) (w : Walk)
| NoAnswer (w : Walk)
| Aborted (e : OneshotError) (w : Walk).
Fixpoint walk (reference : option string) (messages : list (string * string)) (i : nat) (links : list string) (feed : nat -> LinkFeed) (w : Walk) : WalkEnd :=
  match links with
  | [] => NoAnswer w
  | model :: rest =>
      match walk_link reference messages i model (feed i) w with
      | Next w => walk reference messages (S i) rest feed w
      | Won x w => Answer x w
      | Halt w => NoAnswer w
      | Abandon e w => Aborted e w
      end
  end.
Definition oneshot_failure_summary (attempts : list string) (fallback : string) : string :=
  match attempts with
  | [] => fallback
  | [one] => one
  | many => "all " +:+ show_u (Z.of_nat (length many)) +:+ " models in the chain failed: " +:+ join "; " many
  end.
Definition chain_failed (w : Walk) : OneshotError :=
  ChainFailed (oneshot_failure_summary (wk_failures w) (default "all models in the chain failed" (pe_message <$> wk_last w))).

(** ** The settling of an answer *)

(** The printing of doubles: shortest, and with four decimals. *)
Context (show_f64 fixed4 : f64 -> string).
Definition free_violation_text (model : string) (v : FreeViolation) : string :=
  match v with
  | Billed cost => "free model " +:+ model +:+ " billed $" +:+ show_f64 cost +:+ " (paid fallback)"
  | UsedFallbacks n => "free model " +:+ model +:+ " used " +:+ show_u n +:+ " fallback(s)"
  | NonFreeBackend base => "free model " +:+ model +:+ " served from non-free backend " +:+ base
  | NoServedBackend => "free model " +:+ model +:+ " returned no served-backend (api_base) telemetry; cannot prove it was served free (strict mode; pass --lenient-telemetry to allow). Cost-only telemetry is insufficient proof."
  end.
Definition paid_violation_text (context : string) (v : PaidViolation) : string :=
  context +:+ " used model '" +:+ pvn_model v +:+ "' (corpus_paid=" +:+ (if pvn_known_paid v then "true" else "false") +:+ ")"
  +:+ match pvn_cost v with Some c => " and billed $" +:+ fixed4 c | None => "" end +:+ " without --allow-paid".
Definition joined (a b : option string) : option string :=
  match a, b with Some a, Some b => Some (a +:+ "; " +:+ b) | Some a, None => Some a | None, b => b end.
Record Settled := mkSettled {
  sm_verdict : option FreeViolation;
  sm_paid : option PaidViolation;
  sm_entry : Entry
}.
Definition policy_telemetry (r : ChatResult) : Policy.Telemetry :=
  Policy.mkTelemetry (tm_cost_usd (cr_telemetry r)) (tm_attempted_fallbacks (cr_telemetry r)) (tm_api_base (cr_telemetry r)).
Definition TURN : string := "oneshot turn".
Definition settle_answer (x : Winner) (ts : Z) : Settled :=
  let r := wn_result x in
  let found := corpus_get (eng_route_corpus eng) (wn_model x) in
  let row := default (entry_of_id "") found in
  let verdict := match verify_free url_host the_gate row (policy_telemetry r) with Err v => Some v | Ok _ => None end in
  let tokens_in := default 0 (cr_prompt r) in
  let tokens_out := default (cr_tokens_out r) (cr_completion r) in
  let server := config_provider (cf_providers cfg) (wn_provider x) in
  let posture := default PostureMetered (posture_of <$> server) in
  let '(cost, unknown) := ledger_call_cost bundled posture (tm_cost_usd (cr_telemetry r)) (st_pricing set_) (wn_model x) tokens_in
    (if bool_decide (is_Some (cr_prompt r)) then tokens_out else 0) (default 0 (cr_cached r)) (Some ts) in
  let paid_ := paid_without_opt_in (c_allow_paid cli) (default false (is_cost_neutral_provider <$> server)) (wn_model x) (known_not_free (wn_model x))
    (if unknown then None else Some cost) in
  let violation := joined (joined (free_violation_text (id row) <$> verdict) (paid_violation_text TURN <$> paid_))
    (if unknown then Some ("cost unknown: no valid telemetry or catalog price for " +:+ wn_model x) else None) in
  mkSettled verdict paid_
    (mkEntry ts (wn_provider x) (wn_model x) (host_of_model (wn_model x)) tokens_in tokens_out cost unknown 1 violation
       (finops_tags (o_task opt) (c_tier cli) tokens_in (cr_cached r)) (Some (posture_str posture)) None).
Definition policy_text (x : Winner) (s : Settled) : option string :=
  joined (free_violation_text (id (default (entry_of_id "") (corpus_get (eng_route_corpus eng) (wn_model x)))) <$> sm_verdict s)
    (paid_violation_text TURN <$> sm_paid s).

(** ** The run *)

Inductive Word := NotATerminal | LineFails | Line (s : string).
Definition confirm_paid (w : Word) : result bool unit :=
  match w with NotATerminal => Ok false | LineFails => Err tt | Line s => Ok (eq_ignore_ascii_case (trim s) "yes") end.
Record RunFeed := mkRun {
  rn_gate : Feeds;
  rn_prompt : option string;
  rn_reserved : bool;
  rn_month : result f64 string;
  rn_now : Z;
  rn_marker : MarkerFile;
  rn_io : Io;
  rn_budget_word : Word;
  rn_policy_word : Word;
  rn_session : option (option (list (string * string)));
  rn_links : nat -> LinkFeed;
  rn_settled : Z;
  rn_reconciled : bool;
  rn_recorded : Z
}.
Record Served := mkServed {
  sv_requested : string;
  sv_winner : Winner;
  sv_entry : Entry;
  sv_health : gmap string ModelHealth;
  sv_exit : Z
}.
Inductive Outcome :=
| DryRun (model provider : string) (chain : list string) (free : bool)
| Answered_ (s : Served)
| Refused (e : OneshotError).
Definition cmd_exec_oneshot_exit_code (substituted no_fallback : bool) : Z := if substituted && no_fallback then 75 else 0.
(** The budget's question for the first link, when it is asked, and the
    marker of the host's cooldown after it. *)
Definition budget_question (primary prompt : string) (rn : RunFeed) : option (list Reason) * MarkerFile :=
  let '(verdict, marker) := evaluate_call_with_host_cooldown bundled (st_budget set_) (rn_marker rn) (st_pricing set_) primary
    (Budget.estimate_tokens (len prompt)) (o_max_tokens opt) 0 (Some (rn_now rn)) (rn_month rn) (rn_now rn) (rn_io rn) in
  (match verdict with Confirm why => Some why | WithinBudget => None end, marker).
Definition ask {A} (question : option A) (w : Word) (declined : OneshotError) : result unit OneshotError :=
  match question with
  | None => Ok tt
  | Some _ => match confirm_paid w with Ok true => Ok tt | Ok false => Err declined | Err _ => Err ConfirmFailed end
  end.
(** Before the walk: the guards on the first link.  The answer is the
    conversation to send. *)
Definition guards (primary : string) (p : Config.Provider) (rn : RunFeed) : result (list (string * string)) OneshotError :=
  if c_require_free cli && negb (me_free (row_of_model primary)) then Err (NotKnownFree primary)
  else
    let policy := match check the_gate (row_of_model primary) (spends_by_call p) (is_cost_neutral_provider p) with
                  | NeedConfirm m why => Some (m, why) | Allow => None end in
    match rn_prompt rn with
    | None => Err NoPrompt
    | Some prompt =>
        if str_is_empty (trim prompt) then Err EmptyTask
        else if negb (rn_reserved rn) then Err ReservationFailed
        else
          let budget := if negb (c_allow_paid cli) && negb (is_cost_neutral_provider p) then (budget_question primary prompt rn).1 else None in
          let? _ := ask budget (rn_budget_word rn) (OverBudget primary (default [] budget)) in
          let? _ := ask policy (rn_policy_word rn) PaidDeclined in
          match rn_session rn with
          | Some None => Err SessionUnreadable
          | Some (Some before) => Ok (before ++ [("user", prompt)])
          | None => Ok [("user", prompt)]
          end
    end.
Definition finish (primary : string) (rn : RunFeed) (x : Winner) (w : Walk) : Outcome :=
  let s := settle_answer x (rn_settled rn) in
  if negb (rn_reconciled rn) then Refused NotReconciled
  else match policy_text x s with
  | Some _ => Refused (PolicyViolated (sm_verdict s) (sm_paid s))
  | None =>
      Answered_ (mkServed primary x (sm_entry s) (record_success (wk_health w) (wn_model x) (wn_latency x) (rn_recorded rn))
        (cmd_exec_oneshot_exit_code (negb (bool_decide (primary = wn_model x))) (c_no_fallback cli)))
  end.
Context `{HealthView}.
(** [cmd_exec_oneshot]: the outcome and the steps of the run; [loaded] is the
    routing context of the resolution. *)
Definition cmd_exec_oneshot (loaded : bool -> option Feeds) (health store : gmap string ModelHealth) (rn : RunFeed) : Outcome * list Event :=
  match resolve_chain from_timestamp loaded cli eng with
  | Err e => (Refused (Routing e), [])
  | Ok routes =>
      match rr_primary routes with
      | [] => (Refused NoModel, [])
      | primary :: _ =>
          match provider_for_resolved_model from_timestamp (rn_gate rn) cfg primary (rr_provider_ref routes) with
          | None => (Refused (NoProvider primary), [])
          | Some p =>
              if c_dry_run cli then
                (DryRun primary (prov_id p) (rr_primary routes) (default false (me_free <$> corpus_get (eng_route_corpus eng) primary)), [])
              else match guards primary p rn with
              | Err e => (Refused e, [])
              | Ok messages =>
                  let start := mkWalk health store true [] None [Reserved] in
                  match walk (rr_provider_ref routes) messages 0 (rr_primary routes) (rn_links rn) start with
                  | Answer x w => (finish primary rn x w, wk_events w)
                  | NoAnswer w => (Refused (chain_failed w), wk_events w)
                  | Aborted e w => (Refused e, wk_events w)
                  end
              end
          end
      end
  end.
End Run.

(** * Theorems *)

(** ** The price of a call *)

(** What a call is recorded to have cost: what the provider reports, a zero
    included, when that is a finite number; else nothing on a flat plan or a
    free route; else the price of the catalog, unknown without a usage or a
    price. *)
Theorem call_cost_exact `{Calendar} bundled posture reported pricing model i o h ts :
  let '(cost, unknown) := ledger_call_cost bundled posture reported pricing model i o h ts in
  (exists c, reported = Some c /\ f64_is_finite c = true /\ (f64_zero <=? c)%f64 = true /\ cost = c /\ unknown = false)
  \/ (reported_cost reported = None /\
      ((is_cost_neutral posture = true /\ cost = f64_zero /\ unknown = false)
       \/ (is_cost_neutral posture = false /\
           if bool_decide (i = 0 /\ o = 0) then cost = f64_zero /\ unknown = true
           else match classify_cost_with_cache bundled pricing model i o h ts with
                | Priced c => cost = c /\ unknown = false
                | VFree => cost = f64_zero /\ unknown = false
                | VUnknown => cost = f64_zero /\ unknown = true
                end))).
Proof.
  unfold ledger_call_cost. destruct (reported_cost reported) as [c|] eqn:E.
  - left. exists c. unfold reported_cost, opt_filter in E. destruct reported as [c'|]; [|done].
    destruct (f64_is_finite c' && _) eqn:Ec; [|done]. apply andb_true_iff in Ec as [H1 H2]. by simplify_eq.
  - destruct (is_cost_neutral posture) eqn:En; [right; split; [done|by left]|].
    assert ((i =? 0) && (o =? 0) = bool_decide (i = 0 /\ o = 0)) as ->.
    { apply eq_true_iff_eq. rewrite andb_true_iff, !Z.eqb_eq, bool_decide_eq_true. done. }
    case_bool_decide; [right; split; [done|right; by split_and!]|].
    destruct (classify_cost_with_cache _ _ _ _ _ _ _) eqn:Ec; (right; split; [done|right; by split_and!]).
Qed.

(** ** The attempts of a link *)

(** The ledger's account of a run: the reservations at hand, and the call
    that was armed last. *)
Definition account_step (s : nat * option (string * string)) (e : Event) : option (nat * option (string * string)) :=
  match e with
  | Reserved => Some (S s.1, None)
  | Armed p m => match s.1 with O => None | S n => Some (n, Some (p, m)) end
  | Sent _ p m => if bool_decide (s.2 = Some (p, m)) then Some (s.1, None) else None
  | _ => Some (s.1, None)
  end.
Fixpoint account (s : nat * option (string * string)) (l : list Event) : option (nat * option (string * string)) :=
  match l with [] => Some s | e :: l => s ← account_step s e; account s l end.
Lemma account_app l k : forall s, account s (l ++ k) = (s ← account s l; account s k).
Proof. induction l as [|e l IH]; intros s; [done|]. cbn. destruct (account_step s e); [apply IH|done]. Qed.
Definition is_sent (e : Event) : bool := match e with Sent _ _ _ => true | _ => false end.
Definition sends (l : list Event) : nat := length (filterb is_sent l).
Lemma sends_app a b : sends (a ++ b) = (sends a + sends b)%nat.
Proof. unfold sends, filterb. by rewrite List.filter_app, length_app. Qed.
Definition at_hand (initial : bool) : nat := if initial then 1 else 0.

Lemma try_model_events link p model feed : forall retries attempt initial r i ev,
  try_model link p model feed retries attempt initial = (r, i, ev) ->
  (sends ev <= S retries)%nat /\
  (forall e, e ∈ ev -> is_sent e = true -> e = Sent link (prov_id p) model) /\
  (exists s, account (at_hand initial, None) ev = Some s /\ (r <> NotArmed -> s = (at_hand i, None))) /\
  (forall x, r = Answered x -> exists n, at_answer (feed n) = Ok x /\ Sent link (prov_id p) model ∈ ev).
Proof.
  induction retries as [|retries IH]; intros attempt initial r i ev; cbn [try_model].
  all: destruct (at_slot (feed attempt)) as [u|e] eqn:Es; [|intros [= <- <- <-]; split; [cbn; lia|]; split; [set_solver|]; split;
    [by eexists|by intros x [=]]].
  all: destruct (negb initial && negb (at_reserved (feed attempt))) eqn:Er.
  1,3: intros [= <- <- <-]; split; [cbn; lia|]; split; [set_solver|]; split; [by eexists|by intros x [=]].
  all: destruct (at_armed (feed attempt)) eqn:Ea; cbn [negb].
  2,4: intros [= <- <- <-]; split; [destruct initial; cbn; lia|]; split; [destruct initial; set_solver|]; split; [|by intros x [=]]; destruct initial; cbn; by eexists.
  all: set (taken := SlotTaken _ :: (if initial then [] else [Reserved])).
  all: assert (forall q, account (at_hand initial, None) (taken ++ Armed (prov_id p) model :: Sent link (prov_id p) model :: q) = account (0%nat, None) q) as Hacc
    by (intros q; unfold taken; destruct initial; cbn; by rewrite bool_decide_true).
  all: assert (forall q, sends (taken ++ Armed (prov_id p) model :: Sent link (prov_id p) model :: q) = S (sends q)) as Hsent
    by (intros q; rewrite sends_app; unfold taken; by destruct initial).
  all: assert (forall q e, e ∈ taken ++ Armed (prov_id p) model :: Sent link (prov_id p) model :: q -> is_sent e = true ->
    e = Sent link (prov_id p) model \/ e ∈ q) as Hin by (intros q e; unfold taken; destruct initial; set_solver).
  all: assert (forall q, Sent link (prov_id p) model ∈ taken ++ Armed (prov_id p) model :: Sent link (prov_id p) model :: q) as Hmem by (intros q; set_solver).
  all: clearbody taken; rewrite <- !app_assoc.
  all: destruct (at_answer (feed attempt)) as [x|e] eqn:Ex.
  1,3: intros [= <- <- <-]; rewrite Hsent, Hacc; split; [cbn; lia|]; split; [intros e He Hs; destruct (Hin _ _ He Hs) as [->|Hq]; [done|set_solver]|];
    split; [by eexists|]; intros y [= <-]; by exists attempt.
  all: destruct (pe_emitted e).
  1,3: intros [= <- <- <-]; rewrite Hsent, Hacc; split; [cbn; lia|]; split; [intros e' He Hs; destruct (Hin _ _ He Hs) as [->|Hq]; [done|set_solver]|];
    split; [by eexists|by intros y [=]].
  - intros [= <- <- <-]; rewrite Hsent, Hacc; split; [cbn; lia|]; split; [intros e' He Hs; destruct (Hin _ _ He Hs) as [->|Hq]; [done|set_solver]|];
    split; [by eexists|by intros y [=]].
  - destruct (retryable e).
    + destruct (try_model link p model feed retries (attempt + 1) false) as [[r' i'] more] eqn:Et. intros [= <- <- <-].
      apply IH in Et as (H1 & H2 & (s & H3 & H4) & H5). rewrite <- app_assoc. cbn [app]. rewrite Hsent, Hacc. split; [exact (le_n_S _ _ H1)|].
      split; [|split].
      * intros e' He Hs. destruct (Hin _ _ He Hs) as [->|[->|[->|Hq]%elem_of_cons]%elem_of_cons]; [done|done|done|by apply H2].
      * exists s. by split.
      * intros y Hy. destruct (H5 y Hy) as (n & Hn & _). exists n. split; [done|apply Hmem].
    + intros [= <- <- <-]; rewrite Hsent, Hacc; split; [cbn; lia|]; split; [intros e' He Hs; destruct (Hin _ _ He Hs) as [->|Hq]; [done|set_solver]|];
      split; [by eexists|by intros y [=]].
Qed.

(** ** The walk *)

Definition walk_of (r : LinkEnd) : Walk := match r with Next w | Won _ w | Halt w | Abandon _ w => w end.
Definition end_walk (r : WalkEnd) : Walk := match r with Answer _ w | NoAnswer w | Aborted _ w => w end.

Section Walks.
Context `{Calendar} (from_timestamp : Z -> option Z) (url_host : string -> option string) (from_str : string -> option Value)
  (eng : Engine) (set_ : Settings) (cli : Cli) (opt : Options).
Local Notation provider_of_link reference i model fd :=
  (provider_for_resolved_model from_timestamp fd (eng_cfg eng) model (if bool_decide (i = 0%nat) then reference else None)).

(** What holds whenever a link is called: its provider is the one its reading
    of the routing selects, the route is allowed, the model is not known to
    cost something under [--require-free], and a fallback is not paid by the
    call without [--allow-paid]; the conversation was accepted for the
    window. *)
Definition may_send (reference : option string) (messages : list (string * string)) (i : nat) (model : string) (lf : LinkFeed) (pid : string) : Prop :=
  (exists p, provider_of_link reference i model (lk_fd lf) = Some p /\ prov_id p = pid) /\
  require_allowed_route cli pid model = Ok tt /\
  (c_require_free cli = true -> known_not_free eng model = false) /\
  (i <> 0%nat -> c_allow_paid cli = true \/ link_paid eng pid = false) /\
  exists request, link_request eng set_ pid model messages = Ok request.
(** The steps a link adds. *)
Definition adds (w : Walk) (r : LinkEnd) (retries : nat) (i : nat) (model pid : string) : Prop :=
  exists ev, wk_events (walk_of r) = wk_events w ++ ev /\ (sends ev <= S retries)%nat /\
    (forall e, e ∈ ev -> is_sent e = true -> e = Sent i pid model) /\
    (exists s, account (at_hand (wk_initial w), None) ev = Some s /\
       match r with Abandon _ _ => True | _ => s = (at_hand (wk_initial (walk_of r)), None) end) /\
    (forall x w', r = Won x w' -> wn_model x = model /\ wn_provider x = pid /\ Sent i pid model ∈ ev).

Lemma adds_nothing w r retries i model pid :
  wk_events (walk_of r) = wk_events w -> wk_initial (walk_of r) = wk_initial w -> (forall x w', r <> Won x w') -> adds w r retries i model pid.
Proof.
  intros He Hi Hn. exists []. rewrite He, app_nil_r. split; [done|]. split; [cbn; lia|]. split; [by intros e Hin%not_elem_of_nil|]. split.
  - eexists. split; [done|]. rewrite Hi. by destruct r.
  - intros x w' ->. by destruct (Hn x w').
Qed.
Lemma call_link_adds i model pc request lf w :
  adds w (call_link from_str set_ opt i model (prov_id pc) pc request lf w) (o_retries opt) i model (prov_id pc).
Proof.
  unfold call_link. destruct (if bool_decide _ then _ else _) as [store skip]. destruct skip as [note|]; [by apply adds_nothing|].
  destruct (try_model i pc model (lk_attempt lf) (o_retries opt) 0 _) as [[a initial] ev] eqn:Et.
  apply try_model_events in Et as (H1 & H2 & (s & H3 & H4) & H5). cbn [wk_initial with_store] in H3.
  assert (forall r, (exists e f, a = Failed e f) \/ (exists x, a = Answered x) \/ (exists e w', r = Abandon e w') ->
    wk_events (walk_of r) = wk_events w ++ ev -> wk_initial (walk_of r) = initial ->
    (forall x w', r = Won x w' -> wn_model x = model /\ wn_provider x = prov_id pc /\ Sent i (prov_id pc) model ∈ ev) ->
    adds w r (o_retries opt) i model (prov_id pc)) as Hadd.
  { intros r Ha He Hi Hw. exists ev. split; [done|]. split; [done|]. split; [done|]. split; [|done]. exists s. split; [done|]. rewrite Hi.
    destruct Ha as [(e & f & ->)|[(x & ->)|(e & w' & ->)]]; [| |done]; rewrite H4 by done; by destruct r. }
  destruct a as [x|e fatal| |].
  - apply Hadd; [right; left; by exists x|by destruct (bool_decide _)|done|]. intros y w' [= <- _]. cbn. destruct (H5 x eq_refl) as (_ & _ & Hs). done.
  - apply Hadd; [left; by exists e, fatal|by destruct fatal|by destruct fatal|by destruct fatal].
  - apply Hadd; [right; right; by do 2 eexists|done|done|done].
  - apply Hadd; [right; right; by do 2 eexists|done|done|done].
Qed.
Lemma walk_link_adds reference messages i model lf w :
  let r := walk_link from_timestamp url_host from_str eng set_ cli opt reference messages i model lf w in
  (wk_events (walk_of r) = wk_events w /\ wk_initial (walk_of r) = wk_initial w /\ (forall x w', r <> Won x w'))
  \/ exists pid, may_send reference messages i model lf pid /\ adds w r (o_retries opt) i model pid.
Proof.
  cbn zeta. unfold walk_link. destruct (c_require_free cli && known_not_free eng model) eqn:Ef; [by left|].
  destruct (provider_of_link reference i model (lk_fd lf)) as [p|] eqn:Ep; [|by left].
  destruct (require_allowed_route cli (prov_id p) model) as [[]|e] eqn:Ea; [|by left].
  destruct (negb (bool_decide (i = 0%nat)) && skips_paid url_host eng set_ cli opt model (prov_id p)) eqn:Es; [by left|].
  destruct (config_provider (cf_providers (eng_cfg eng)) (prov_id p)) as [pc|] eqn:Ec; [|by left].
  destruct (lk_client lf); cbn [negb]; [|by left]. destruct (link_request eng set_ (prov_id p) model messages) as [request|e] eqn:Er; [|by left].
  right. exists (prov_id p). split.
  - split; [by exists p|]. split; [done|]. split; [intros Hf; by rewrite Hf in Ef|]. split; [|by exists request].
    intros Hi. rewrite bool_decide_false in Es by done. unfold skips_paid, check, the_gate in Es. cbn in Es.
    destruct (c_allow_paid cli); [by left|]. right. by destruct (link_paid eng (prov_id p)).
  - apply find_first_Some in Ec as [_ Hid%bool_decide_eq_true]. rewrite <- Hid. apply call_link_adds.
Qed.

Lemma walk_adds reference messages feed : forall links i w r,
  r = walk from_timestamp url_host from_str eng set_ cli opt reference messages i links feed w ->
  exists ev, wk_events (end_walk r) = wk_events w ++ ev /\ (sends ev <= length links * S (o_retries opt))%nat /\
    (forall e, e ∈ ev -> is_sent e = true -> exists k pid model, e = Sent (i + k) pid model /\ links !! k = Some model /\
       may_send reference messages (i + k) model (feed (i + k)%nat) pid) /\
    (exists s, account (at_hand (wk_initial w), None) ev = Some s) /\
    (forall x w', r = Answer x w' -> exists k, Sent (i + k) (wn_provider x) (wn_model x) ∈ ev).
Proof.
  induction links as [|model links IH]; intros i w r ->; cbn [walk].
  - exists []. rewrite app_nil_r. split; [done|]. split; [cbn; lia|]. split; [by intros e He%not_elem_of_nil|]. split; [by eexists|done].
  - assert (forall w1 ev1, wk_events w1 = wk_events w ++ ev1 -> (sends ev1 <= S (o_retries opt))%nat ->
      (forall e, e ∈ ev1 -> is_sent e = true -> exists pid, e = Sent i pid model /\ may_send reference messages i model (feed i) pid) ->
      forall r, (r = NoAnswer w1 \/ (exists e, r = Aborted e w1) \/ exists x, r = Answer x w1 /\ Sent i (wn_provider x) (wn_model x) ∈ ev1) ->
      (exists s, account (at_hand (wk_initial w), None) ev1 = Some s) ->
      exists ev, wk_events (end_walk r) = wk_events w ++ ev /\ (sends ev <= S (length links) * S (o_retries opt))%nat /\
       (forall e, e ∈ ev -> is_sent e = true -> exists k pid m, e = Sent (i + k) pid m /\ (model :: links) !! k = Some m /\
          may_send reference messages (i + k) m (feed (i + k)%nat) pid) /\
       (exists s, account (at_hand (wk_initial w), None) ev = Some s) /\
       (forall x w', r = Answer x w' -> exists k, Sent (i + k) (wn_provider x) (wn_model x) ∈ ev)) as Hstop.
    { intros w1 ev1 He Hs Hp r Hr Ha. exists ev1. split; [by destruct Hr as [->|[(e & ->)|(x & -> & _)]]|]. split; [lia|]. split; [|split; [done|]].
      - intros e Hin Hse. destruct (Hp e Hin Hse) as (pid & -> & Hm). exists 0%nat, pid, model. rewrite Nat.add_0_r. done.
      - intros x w' Hx. destruct Hr as [->|[(e & ->)|(y & -> & Hy)]]; simplify_eq. exists 0%nat. by rewrite Nat.add_0_r. }
    assert (forall w1 ev1, wk_events w1 = wk_events w ++ ev1 -> (sends ev1 <= S (o_retries opt))%nat ->
      (forall e, e ∈ ev1 -> is_sent e = true -> exists pid, e = Sent i pid model /\ may_send reference messages i model (feed i) pid) ->
      account (at_hand (wk_initial w), None) ev1 = Some (at_hand (wk_initial w1), None) ->
      let r := walk from_timestamp url_host from_str eng set_ cli opt reference messages (S i) links feed w1 in
      exists ev, wk_events (end_walk r) = wk_events w ++ ev /\ (sends ev <= S (length links) * S (o_retries opt))%nat /\
       (forall e, e ∈ ev -> is_sent e = true -> exists k pid m, e = Sent (i + k) pid m /\ (model :: links) !! k = Some m /\
          may_send reference messages (i + k) m (feed (i + k)%nat) pid) /\
       (exists s, account (at_hand (wk_initial w), None) ev = Some s) /\
       (forall x w', r = Answer x w' -> exists k, Sent (i + k) (wn_provider x) (wn_model x) ∈ ev)) as Hgo.
    { intros w1 ev1 He Hs Hp Ha r. destruct (IH (S i) w1 r eq_refl) as (ev2 & E2 & S2 & P2 & (s & A2) & X2). exists (ev1 ++ ev2).
      split; [by rewrite E2, He, app_assoc|]. split; [rewrite sends_app; lia|]. split; [|split].
      - intros e [Hin|Hin]%elem_of_app Hse.
        + destruct (Hp e Hin Hse) as (pid & -> & Hm). exists 0%nat, pid, model. rewrite Nat.add_0_r. done.
        + destruct (P2 e Hin Hse) as (k & pid & m & -> & Hk & Hm). exists (S k), pid, m. by rewrite <- Nat.add_succ_comm.
      - exists s. by rewrite account_app, Ha.
      - intros x w' Hx. destruct (X2 x w' Hx) as (k & Hk). exists (S k). rewrite <- Nat.add_succ_comm. apply elem_of_app. by right. }
    pose proof (walk_link_adds reference messages i model (feed i) w) as Hl. cbn zeta in Hl.
    destruct (walk_link _ _ _ _ _ _ _ _ _ _ _ _ _) as [w1|x w1|w1|e w1].
    all: cbn [walk_of] in Hl; destruct Hl as [(He & Hi & Hn)|(pid & Hm & ev1 & He & Hs & Hsent & (s & Ha & Hsa) & Hx)].
    all: try (destruct (Hn x w1 eq_refl)).
    all: try (assert (forall e', e' ∈ ev1 -> is_sent e' = true -> exists q, e' = Sent i q model /\ may_send reference messages i model (feed i) q) as Hp
      by (intros e' Hin Hse; exists pid; split; [by apply Hsent|done])).
    + apply (Hgo w1 []); [by rewrite app_nil_r|cbn; lia|by intros ? ?%not_elem_of_nil|by rewrite Hi].
    + apply (Hgo w1 ev1); [done..|]. by rewrite Ha, Hsa.
    + destruct (Hx x w1 eq_refl) as (Hm1 & Hm2 & Hin). rewrite <- Hm2, <- Hm1 in Hin.
      apply (Hstop w1 ev1); [done..| |by eexists]. right. right. by exists x.
    + apply (Hstop w1 []); [by rewrite app_nil_r|cbn; lia|by intros ? ?%not_elem_of_nil|by left|by eexists].
    + apply (Hstop w1 ev1); [done..|by left|by eexists].
    + apply (Hstop w1 []); [by rewrite app_nil_r|cbn; lia|by intros ? ?%not_elem_of_nil|right; left; by eexists|by eexists].
    + apply (Hstop w1 ev1); [done..|right; left; by eexists|by eexists].
Qed.
End Walks.

(** ** The run *)

Definition yes (w : Word) : Prop := confirm_paid w = Ok true.
Lemma ask_ok {A} (q : option A) w e : ask q w e = Ok tt <-> q = None \/ yes w.
Proof. unfold ask, yes. destruct q; [|naive_solver]. destruct (confirm_paid w) as [[]|]; naive_solver. Qed.

Section Runs.
Context `{Calendar} (from_timestamp : Z -> option Z) (url_host : string -> option string) (from_str : string -> option Value)
  (bundled : list (string * ModelPrice)) (eng : Engine) (set_ : Settings) (cli : Cli) (opt : Options) (show_f64 fixed4 : f64 -> string).

(** What the operator agreed to before the first call. *)
Definition agreed (primary : string) (p : Config.Provider) (rn : RunFeed) : Prop :=
  (c_require_free cli = true -> me_free (row_of_model eng primary) = true) /\
  (c_allow_paid cli = true \/ spends_by_call p = false \/ yes (rn_policy_word rn)) /\
  (c_allow_paid cli = true \/ is_cost_neutral_provider p = true \/ yes (rn_budget_word rn)
   \/ exists prompt, rn_prompt rn = Some prompt /\ (budget_question bundled set_ opt primary prompt rn).1 = None).
Lemma guards_ok primary p rn messages : guards url_host bundled eng set_ cli opt primary p rn = Ok messages ->
  rn_reserved rn = true /\ agreed primary p rn /\
  exists prompt before, rn_prompt rn = Some prompt /\ trim prompt <> "" /\ messages = before ++ [("user", prompt)].
Proof.
  unfold guards. destruct (c_require_free cli && negb (me_free (row_of_model eng primary))) eqn:Ef; [done|].
  destruct (rn_prompt rn) as [prompt|] eqn:Ep; [|done]. destruct (str_is_empty (trim prompt)) eqn:Et; [done|].
  destruct (rn_reserved rn); [|done]. cbn [negb]. intros Hg. apply result_bind_Ok in Hg as ([] & Hb & Hg). apply result_bind_Ok in Hg as ([] & Hp & Hg).
  apply ask_ok in Hb, Hp. split; [done|]. split.
  - split; [intros Hf; rewrite Hf in Ef; by apply negb_false_iff in Ef|]. split.
    + destruct Hp as [Hp|Hp]; [|by right; right]. unfold check, the_gate, new_gate in Hp. cbn in Hp. destruct (c_allow_paid cli); [by left|].
      right. left. by destruct (spends_by_call p).
    + destruct Hb as [Hb|Hb]; [|by right; right; left]. destruct (c_allow_paid cli); [by left|]. destruct (is_cost_neutral_provider p); [by right; left|].
      right. right. right. by exists prompt.
  - exists prompt. assert (trim prompt <> "") as Hne by (intros E; by rewrite E in Et).
    destruct (rn_session rn) as [[before|]|]; [|done|]; injection Hg as <-; [by exists before|by exists []].
Qed.
Context `{HealthView}.
Local Notation run := (cmd_exec_oneshot from_timestamp url_host from_str bundled eng set_ cli opt show_f64 fixed4).

Lemma run_walked loaded health store rn out ev : run loaded health store rn = (out, ev) ->
  ev = [] \/ exists routes primary rest p messages,
    resolve_chain from_timestamp loaded cli eng = Ok routes /\ rr_primary routes = primary :: rest /\
    provider_for_resolved_model from_timestamp (rn_gate rn) (eng_cfg eng) primary (rr_provider_ref routes) = Some p /\ c_dry_run cli = false /\
    guards url_host bundled eng set_ cli opt primary p rn = Ok messages /\
    let w := walk from_timestamp url_host from_str eng set_ cli opt (rr_provider_ref routes) messages 0 (rr_primary routes) (rn_links rn)
               (mkWalk health store true [] None [Reserved]) in
    ev = wk_events (end_walk w) /\
    out = match w with Answer x w => finish url_host bundled eng set_ cli opt show_f64 fixed4 primary rn x w
                     | NoAnswer w => Refused (chain_failed w) | Aborted e w => Refused e end.
Proof.
  unfold cmd_exec_oneshot. destruct (resolve_chain _ _ _ _) as [routes|e]; [|intros [= <- <-]; by left].
  destruct (rr_primary routes) as [|primary rest] eqn:Er; [intros [= <- <-]; by left|].
  destruct (provider_for_resolved_model _ _ _ _ _) as [p|] eqn:Ep; [|intros [= <- <-]; by left].
  destruct (c_dry_run cli); [intros [= <- <-]; by left|]. destruct (guards _ _ _ _ _ _ _ _ _) as [messages|e] eqn:Eg; [|intros [= <- <-]; by left].
  intros Hw. right. exists routes, primary, rest, p, messages. do 5 (split; [done|]). rewrite Er. cbn zeta.
  destruct (walk _ _ _ _ _ _ _ _ _ _ _ _ _); by injection Hw as <- <-.
Qed.

(** A run calls only links of its chain, each through the provider its own
    reading of the routing selects, on a route the lists allow, with a
    conversation accepted for the window; before the first call the operator
    agreed to what the policy and the budget ask, about the provider selected
    then; a fallback paid by the call needs [--allow-paid].  A dry run calls
    nothing. *)
Theorem calls_permitted loaded health store rn out ev e : run loaded health store rn = (out, ev) -> e ∈ ev -> is_sent e = true ->
  c_dry_run cli = false /\
  exists routes primary p messages i m pid, e = Sent i pid m /\ resolve_chain from_timestamp loaded cli eng = Ok routes /\
    head (rr_primary routes) = Some primary /\ rr_primary routes !! i = Some m /\
    provider_for_resolved_model from_timestamp (rn_gate rn) (eng_cfg eng) primary (rr_provider_ref routes) = Some p /\
    agreed primary p rn /\ may_send from_timestamp eng set_ cli (rr_provider_ref routes) messages i m (rn_links rn i) pid.
Proof.
  intros Hr He Hs. destruct (run_walked _ _ _ _ _ _ Hr) as [->|(routes & primary & rest & p & messages & Hres & Hc & Hp & Hd & Hg & Hw)]; [by apply not_elem_of_nil in He|].
  cbn zeta in Hw. destruct Hw as [-> _]. split; [done|].
  pose proof (walk_adds from_timestamp url_host from_str eng set_ cli opt (rr_provider_ref routes) messages (rn_links rn) (rr_primary routes) 0
    (mkWalk health store true [] None [Reserved]) _ eq_refl) as (ev & E & _ & Hev & _).
  rewrite E in He. cbn [wk_events] in He. apply elem_of_app in He as [He|He]; [set_solver|]. destruct (Hev e He Hs) as (k & pid & m & -> & Hk & Hm).
  apply guards_ok in Hg as (_ & Ha & _). exists routes, primary, p, messages, k, m, pid. by rewrite Hc in *.
Qed.

(** Every call of a run has a row of the ledger of its own, armed with its
    provider and its model directly before; and there are at most the links of
    the chain times one more than the retries. *)
Theorem calls_accounted loaded health store rn out ev : run loaded health store rn = (out, ev) ->
  (exists s, account (0%nat, None) ev = Some s) /\
  (ev = [] \/ exists routes, resolve_chain from_timestamp loaded cli eng = Ok routes /\
     (sends ev <= length (rr_primary routes) * S (o_retries opt))%nat).
Proof.
  intros Hr. destruct (run_walked _ _ _ _ _ _ Hr) as [->|(routes & primary & rest & p & messages & Hres & Hc & Hp & Hd & Hg & Hw)];
    [split; [by eexists|by left]|].
  cbn zeta in Hw. destruct Hw as [-> _].
  pose proof (walk_adds from_timestamp url_host from_str eng set_ cli opt (rr_provider_ref routes) messages (rn_links rn) (rr_primary routes) 0
    (mkWalk health store true [] None [Reserved]) _ eq_refl) as (ev & -> & Hs & _ & (s & Ha) & _).
  split; [by exists s|]. right. exists routes. split; [done|]. by rewrite sends_app.
Qed.

Lemma no_fallback_single loaded routes : c_no_fallback cli = true -> resolve_chain from_timestamp loaded cli eng = Ok routes ->
  (length (rr_primary routes) <= 1)%nat.
Proof.
  intros Hn Hr. assert (forall fd r0, restrict_resolved_routes from_timestamp cli eng fd r0 = Ok routes -> (length (rr_primary r0) <= 1)%nat ->
    (length (rr_primary routes) <= 1)%nat) as Hres.
  { intros fd r0 H1 H2. apply restricted in H1. destruct (parsed_allowed_routes cli) as [[allowed|]|]; [|by subst|done].
    destruct H1 as (_ & _ & _ & -> & _). etrans; [|exact H2]. unfold filterb. apply List.filter_length_le. }
  unfold resolve_chain in Hr. destruct (loaded (c_dry_run cli)) as [fd|]; [|done].
  destruct (scenario_chain_for_roles _ _ _ _) as [[sp sr] why].
  assert (forall pin, (length (pinned_chain cli fd eng pin) <= 1)%nat) as Hpin by (intros pin; unfold pinned_chain; destruct (_ && _); cbn; lia).
  destruct (c_agent cli), (configured_model_for_agent _ _), (resolve_alias _ <$> c_model cli); cbn [or_opt fmap option_fmap option_map] in Hr;
    try done; try (eapply Hres; [exact Hr|apply Hpin]).
  all: destruct (select _ _) as [route|]; [|done]; unfold routed in Hr; rewrite Hn in Hr; eapply Hres; [exact Hr|cbn; lia].
Qed.
Lemma run_answered loaded health store rn s ev : run loaded health store rn = (Answered_ s, ev) ->
  exists routes primary rest p messages x w,
    resolve_chain from_timestamp loaded cli eng = Ok routes /\ rr_primary routes = primary :: rest /\
    guards url_host bundled eng set_ cli opt primary p rn = Ok messages /\
    walk from_timestamp url_host from_str eng set_ cli opt (rr_provider_ref routes) messages 0 (rr_primary routes) (rn_links rn)
      (mkWalk health store true [] None [Reserved]) = Answer x w /\
    ev = wk_events w /\ finish url_host bundled eng set_ cli opt show_f64 fixed4 primary rn x w = Answered_ s.
Proof.
  unfold cmd_exec_oneshot. destruct (resolve_chain _ _ _ _) as [routes|]; [|done]. destruct (rr_primary routes) as [|primary rest] eqn:Er; [done|].
  destruct (provider_for_resolved_model _ _ _ _ _) as [p|]; [|done]. destruct (c_dry_run cli); [done|].
  destruct (guards _ _ _ _ _ _ _ _ _) as [messages|] eqn:Eg; [|done]. destruct (walk _ _ _ _ _ _ _ _ _ _ _ _ _) as [x w|w|e w] eqn:Ew; [|done|done].
  intros [= Hf <-]. exists routes, primary, rest, p, messages, x, w. by rewrite Er.
Qed.
(** An answer ends with the code zero: the code of a substitution asks for an
    answer of another model in a run that has one model. *)
Theorem substitution_never_fatal loaded health store rn s ev : run loaded health store rn = (Answered_ s, ev) -> sv_exit s = 0.
Proof.
  intros Hr. destruct (run_answered _ _ _ _ _ _ Hr) as (routes & primary & rest & p & messages & x & w & Hres & Hc & Hg & Hw & -> & Hout).
  destruct (walk_adds from_timestamp url_host from_str eng set_ cli opt _ _ _ _ _ _ _ (eq_sym Hw)) as (ev' & He & _ & Hev & _ & Hx). cbn [end_walk wk_events] in He. unfold finish in Hout. destruct (rn_reconciled rn); [|done].
  destruct (policy_text _ _ _ _ _) ; [done|]. injection Hout as <-. cbn [sv_exit]. unfold cmd_exec_oneshot_exit_code.
  destruct (c_no_fallback cli) eqn:En; [|by rewrite andb_false_r]. destruct (Hx x w eq_refl) as (k & Hk).
  destruct (Hev _ Hk eq_refl) as (j & pid & m & [= Hj _ Hm] & Hl & _). subst j. pose proof (no_fallback_single _ _ En Hres) as Hlen. rewrite Hc in *. cbn in Hlen.
  apply lookup_lt_Some in Hl as Hlt. cbn in Hlt. assert (k = 0%nat) as -> by lia. cbn in Hl. injection Hl as Hl. subst. by rewrite bool_decide_true.
Qed.

(** An answer is shown only when its row was written: the row names the
    provider and the model that were called, the free model was served for
    free, and without [--allow-paid] a provider that is not cost-neutral
    neither served a model known to cost nor reported a cost. *)
Theorem answer_settled loaded health store rn s ev : run loaded health store rn = (Answered_ s, ev) ->
  let x := sv_winner s in
  let server := config_provider (cf_providers (eng_cfg eng)) (wn_provider x) in
  rn_reconciled rn = true /\ (exists k, Sent k (wn_provider x) (wn_model x) ∈ ev) /\
  e_provider (sv_entry s) = wn_provider x /\ e_model (sv_entry s) = wn_model x /\
  verify_free url_host (the_gate url_host eng set_ cli opt) (default (entry_of_id "") (corpus_get (eng_route_corpus eng) (wn_model x)))
    (policy_telemetry (wn_result x)) = Ok tt /\
  (c_allow_paid cli = false -> default false (is_cost_neutral_provider <$> server) = false ->
     known_not_free eng (wn_model x) = false /\ (cost_unknown (sv_entry s) = false -> billed (Some (cost_usd (sv_entry s))) = None)) /\
  (cost_unknown (sv_entry s) = false -> violation (sv_entry s) = None).
Proof.
  intros Hr. cbn zeta. destruct (run_answered _ _ _ _ _ _ Hr) as (routes & primary & rest & p & messages & x & w & Hres & Hc & Hg & Hw & -> & Hout).
  destruct (walk_adds from_timestamp url_host from_str eng set_ cli opt _ _ _ _ _ _ _ (eq_sym Hw)) as (ev' & He & _ & _ & _ & Hx). cbn [end_walk wk_events] in He. unfold finish in Hout. destruct (rn_reconciled rn); [|done].
  destruct (policy_text _ _ _ _ _) eqn:Ep; [done|]. injection Hout as <-. cbn [sv_winner sv_entry]. split; [done|].
  destruct (Hx x w eq_refl) as (k & Hk). split; [exists k; rewrite He; apply elem_of_app; by right|].
  unfold policy_text, joined in Ep. unfold settle_answer in *.
  destruct (ledger_call_cost _ _ _ _ _ _ _ _ _) as [cost unknown]. cbn [sm_entry sm_verdict sm_paid e_provider e_model cost_unknown cost_usd violation] in *.
  split; [done|]. split; [done|].
  destruct (verify_free _ _ _ _) as [[]|v]; cbn [fmap option_fmap option_map] in Ep; [|destruct (paid_without_opt_in _ _ _ _ _); done].
  destruct (paid_without_opt_in _ _ _ _ _) as [pv|] eqn:Epaid; [done|]. split; [done|]. split.
  - intros Ha Hn. unfold paid_without_opt_in in Epaid. rewrite Ha, Hn in Epaid. cbn [orb] in Epaid.
    destruct (known_not_free eng (wn_model x)); cbn [negb andb] in Epaid; [done|]. split; [done|]. intros ->.
    destruct (billed (Some cost)); [done|done].
  - intros ->. done.
Qed.
End Runs.

(** ** Concrete runs *)

Definition quiet_settings : Settings :=
  mkSettings false [] [] (mkContextConfig None None [] None) CtxStandalone [] (mkBudget None None 0) catalog_default.
Definition quiet_options : Options := mkOptions false 1 1000 "exec".
Definition no_telemetry : CallTelemetry := mkCallTelemetry None None None None None None None None None.
Definition some_answer : ChatResult := mkChatResult "done" None 3 (Some 5) (Some 3) None None no_telemetry.
Definition refusal : ProviderError := provider_error ErrServer "busy".
Definition attempt_with (a : result ChatResult ProviderError) : AttemptFeed := mkAttempt (Ok tt) true true a (f64_of_Z 1).
Definition no_probe : ProbeFeed := mkProbe true ∅ 0 0 0 None 0 0.
Definition link_with (fd : Feeds) (a : Z -> result ChatResult ProviderError) : LinkFeed :=
  mkLink fd true no_probe (fun n => attempt_with (a n)) 0 0 0 0 (f64_of_Z 1).
Definition run_with (gate : Feeds) (links : nat -> LinkFeed) : RunFeed :=
  mkRun gate (Some "fix it") true (Ok f64_zero) 0 Missing (mkIo true true 0) NotATerminal NotATerminal None links 0 true 0.
Definition show_number (_ : f64) : string := "".
Definition oneshot (eng : Engine) (cli : Cli) (fd : Feeds) (rn : RunFeed) : Outcome * list Event :=
  cmd_exec_oneshot (H := gregorian) (H0 := healthy_host) no_timestamp (fun _ => None) (fun _ => None) [] eng quiet_settings cli quiet_options
    show_number show_number (fun _ => Some fd) ∅ ∅ rn.
Definition second_answers : RunFeed := run_with quiet_feeds (fun i => link_with quiet_feeds (fun _ => if bool_decide (i = 0%nat) then Err refusal else Ok some_answer)).

Lemma second_answers_run :
  match oneshot free_engine (plain_cli None) quiet_feeds second_answers with
  | (Answered_ s, ev) => filterb is_sent ev = [Sent 0 "gw" "a/one"; Sent 0 "gw" "a/one"; Sent 1 "gw" "b/two"]
      /\ sv_requested s = "a/one" /\ wn_model (sv_winner s) = "b/two"
  | _ => False
  end.
Proof. vm_compute. by split. Qed.
Lemma second_answers_served : exists s ev, oneshot free_engine (plain_cli None) quiet_feeds second_answers = (Answered_ s, ev) /\
  filterb is_sent ev = [Sent 0 "gw" "a/one"; Sent 0 "gw" "a/one"; Sent 1 "gw" "b/two"] /\ sv_requested s = "a/one" /\ wn_model (sv_winner s) = "b/two".
Proof.
  pose proof second_answers_run as H. destruct (oneshot free_engine (plain_cli None) quiet_feeds second_answers) as [[| |] ev]; [done| |done].
  by do 2 eexists.
Qed.

Lemma calls_permitted_witness :
  exists out ev routes i, oneshot free_engine (plain_cli None) quiet_feeds second_answers = (out, ev) /\
    resolve_chain (H := gregorian) (H0 := healthy_host) no_timestamp (fun _ => Some quiet_feeds) (plain_cli None) free_engine = Ok routes /\
    rr_primary routes !! i = Some "b/two".
Proof.
  destruct second_answers_served as (s & ev & Hr & Hs & _). pose proof Hr as Hrun. unfold oneshot in Hrun.
  pose proof (fun e => calls_permitted (H := gregorian) (H0 := healthy_host) no_timestamp (fun _ => None) (fun _ => None) [] free_engine
    quiet_settings (plain_cli None) quiet_options show_number show_number (fun _ => Some quiet_feeds) ∅ ∅ second_answers _ _ e Hrun) as Hc.
  assert (Sent 1 "gw" "b/two" ∈ ev) as Hin.
  { apply list_elem_of_In. apply (List.filter_In is_sent). unfold filterb in Hs. rewrite Hs. do 2 right. by left. }
  destruct (Hc _ Hin eq_refl) as (_ & routes & _ & _ & _ & i & m & _ & [= _ _ Hm] & Hres & _ & Hi & _).
  exists (Answered_ s), ev, routes, i. split; [exact Hr|]. split; [exact Hres|by rewrite Hm].
Defined.
Lemma calls_accounted_witness :
  exists out ev, oneshot free_engine (plain_cli None) quiet_feeds second_answers = (out, ev) /\ sends ev = 3%nat /\ exists s, account (0%nat, None) ev = Some s.
Proof.
  destruct second_answers_served as (s & ev & Hr & Hs & _). pose proof Hr as Hrun. unfold oneshot in Hrun. exists (Answered_ s), ev. split; [exact Hr|]. split; [unfold sends; by rewrite Hs|].
  exact (proj1 (calls_accounted (H := gregorian) (H0 := healthy_host) no_timestamp (fun _ => None) (fun _ => None) [] free_engine quiet_settings
    (plain_cli None) quiet_options show_number show_number (fun _ => Some quiet_feeds) ∅ ∅ second_answers _ _ Hrun)).
Defined.
Lemma substitution_never_fatal_witness :
  exists s ev, oneshot free_engine (plain_cli None) quiet_feeds second_answers = (Answered_ s, ev) /\ sv_requested s <> wn_model (sv_winner s) /\ sv_exit s = 0.
Proof.
  destruct second_answers_served as (s & ev & Hr & _ & Hq & Hm). pose proof Hr as Hrun. unfold oneshot in Hrun. exists s, ev. split; [exact Hr|]. split; [by rewrite Hq, Hm|].
  exact (substitution_never_fatal (H := gregorian) (H0 := healthy_host) no_timestamp (fun _ => None) (fun _ => None) [] free_engine quiet_settings
    (plain_cli None) quiet_options show_number show_number (fun _ => Some quiet_feeds) ∅ ∅ second_answers _ _ Hrun).
Defined.
Lemma answer_settled_witness :
  exists s ev, oneshot free_engine (plain_cli None) quiet_feeds second_answers = (Answered_ s, ev) /\ e_model (sv_entry s) = "b/two".
Proof.
  destruct second_answers_served as (s & ev & Hr & _ & _ & Hm). pose proof Hr as Hrun. unfold oneshot in Hrun. exists s, ev. split; [exact Hr|].
  pose proof (answer_settled (H := gregorian) (H0 := healthy_host) no_timestamp (fun _ => None) (fun _ => None) [] free_engine
    quiet_settings (plain_cli None) quiet_options show_number show_number (fun _ => Some quiet_feeds) ∅ ∅ second_answers _ _ Hrun) as (_ & _ & _ & He & _).
  by rewrite He, Hm.
Defined.

(** The operator was asked about the subscription that the routing selected
    then; the call goes to the metered provider that it selects a moment
    later. *)
Example swapped_provider_is_called :
  let sub := route_provider "minimax" "https://api.minimax.io" Subscription (Some header_plan) ["MiniMax"] in
  let metered := route_provider "payg" "https://payg.test" Metered None ["MiniMax"] in
  let eng := mkEngine (bare_config [sub; metered] None) (rows_corpus []) (rows_corpus []) empty_registry in
  let cli := mkCli (Some "MiniMax-M3") None "auto" false false false false None None in
  let before := mkFeeds [] tier_catalog_empty (Some (telemetry MiniMax 10)) None 0 in
  let after := mkFeeds [] tier_catalog_empty (Some (telemetry MiniMax 100)) None 0 in
  match oneshot eng cli before (run_with before (fun _ => link_with after (fun _ => Ok some_answer))) with
  | (_, ev) => filterb is_sent ev = [Sent 0 "payg" "MiniMax-M3"] /\ c_allow_paid cli = false
  end.
Proof. vm_compute. by split. Qed.
(** A fallback that no provider serves ends the run: the links after it are
    not tried, and the health of the ones before it is not saved. *)
Example unserved_fallback_ends_run :
  match walk (H := gregorian) no_timestamp (fun _ => None) (fun _ => None) free_engine quiet_settings (plain_cli None) quiet_options None [] 0
          ["a/one"; "zz/none"; "b/two"] (fun i => link_with quiet_feeds (fun _ => if bool_decide (i = 0%nat) then Err refusal else Ok some_answer))
          (mkWalk ∅ ∅ true [] None [Reserved]) with
  | Aborted (LinkUnserved m) w => m = "zz/none" /\ length (wk_failures w) = 1%nat
  | _ => False
  end.
Proof. vm_compute. by split. Qed.
