(* ===== verification/EngineCost.v ===== *)
(** The cost of an engine turn (crates/zoder-cli/src/main.rs,
    [AgenticCostScope], [agentic_cost] and [classify_agentic_cost_summary]): the
    window that isolates the turns of one agent from each other, the query for
    what the engine recorded in it, and what the ledger makes of the answer.

    The scopes of one agent share a directory; opening and closing a scope
    happen under its lock and are single steps, while the files of a scope that
    is dropped go without it.  The iteration order of a map, the jitter of the
    delays and the answers of the engine are arguments. *)
From stdpp Require Import gmap strings.
From S2P Require Import Prelude F64 Numbers Text Clock Config Ledger ProviderWire EngineQuery Oneshot.
Local Open Scope string_scope.
Local Open Scope Z_scope.
Local Open Scope list_scope.
Local Open Scope zoder_scope.

(** ** The scope directory *)

Definition hex_nibble (n : Z) : ascii := Ascii.ascii_of_nat (Z.to_nat (if n <? 10 then 48 + n else 87 + n)).
(** [{hash:016x}] *)
Definition hex16 (hash : Z) : string :=
  String.string_of_list_ascii (map (fun i => hex_nibble (Z.land (Z.shiftr hash (4 * (15 - Z.of_nat i))) 15)) (seq 0 16)).
Definition agentic_scope_directory (engine_socket alias : string) : string :=
  engine_socket +:+ ".agentic-cost-" +:+ hex16 (fnv1a (String.list_ascii_of_string alias)).

(** The directory of an agent's scopes: the sequence that was written, and the
    active files with the process that locks them. *)
Record ScopeDir := mkScopeDir { sd_sequence : option Z; sd_active : gmap Z (option nat) }.
Record AgenticCostScope := mkScope { sc_sequence : Z; sc_overlapped_on_start : bool; sc_from : Z }.
Definition read_agentic_scope_sequence (d : ScopeDir) : Z := default 0 (sd_sequence d).
(** Some other process holds the file. *)
Definition locked (e : Z * option nat) : Prop := is_Some e.2.
#[export] Instance locked_dec e : Decision (locked e).
Proof. unfold locked. apply _. Defined.
(** [start]: the files nobody holds are removed, the next number is taken. *)
Definition cost_scope_start (p : nat) (now : Z) (d : ScopeDir) : option (AgenticCostScope * ScopeDir) :=
  let kept := filter locked (sd_active d) in
  let sequence := read_agentic_scope_sequence d + 1 in
  if U64_MAX <? sequence then None
  else if bool_decide (is_Some (kept !! sequence)) then None
  else Some (mkScope sequence (negb (bool_decide (kept = ∅))) now, mkScopeDir (Some sequence) (<[sequence := Some p]> kept)).
(** [finish]: the window, and whether another scope was open in it. *)
Definition scope_finish (now : Z) (s : AgenticCostScope) (d : ScopeDir) : (Z * Z * bool) * ScopeDir :=
  ((sc_from s, now, sc_overlapped_on_start s || negb (read_agentic_scope_sequence d =? sc_sequence s)),
   mkScopeDir (sd_sequence d) (delete (sc_sequence s) (sd_active d))).

(** The processes with an open scope on one directory. *)
Record Scopes := mkScopes { ss_dir : ScopeDir; ss_open : gmap nat AgenticCostScope }.
Inductive ScopeLabel :=
| StartScope (p : nat) (now : Z)
| FinishScope (p : nat) (now : Z)
| DropLock (p : nat)
| RemoveFile (n : Z).
Definition scope_of (l : ScopeLabel) : option nat :=
  match l with StartScope p _ | FinishScope p _ | DropLock p => Some p | RemoveFile _ => None end.
(** A scope that is dropped, or whose process dies, loses its lock first; its
    file may be removed later, or never. *)
Definition scope_step (l : ScopeLabel) (w : Scopes) : option (Scopes * option (Z * Z * bool)) :=
  match l with
  | StartScope p now =>
      match ss_open w !! p with
      | Some _ => None
      | None => '(s, d) ← cost_scope_start p now (ss_dir w); Some (mkScopes d (<[p := s]> (ss_open w)), None)
      end
  | FinishScope p now =>
      s ← ss_open w !! p;
      let '(r, d) := scope_finish now s (ss_dir w) in
      Some (mkScopes d (delete p (ss_open w)), Some r)
  | DropLock p =>
      s ← ss_open w !! p;
      Some (mkScopes (mkScopeDir (sd_sequence (ss_dir w)) (<[sc_sequence s := None]> (sd_active (ss_dir w)))) (delete p (ss_open w)), None)
  | RemoveFile n =>
      match sd_active (ss_dir w) !! n with
      | Some None => Some (mkScopes (mkScopeDir (sd_sequence (ss_dir w)) (delete n (sd_active (ss_dir w)))) (ss_open w), None)
      | _ => None
      end
  end.
Fixpoint scope_run (ls : list ScopeLabel) (w : Scopes) : option Scopes :=
  match ls with [] => Some w | l :: ls => '(w, _) ← scope_step l w; scope_run ls w end.
Definition no_scopes : Scopes := mkScopes (mkScopeDir None ∅) ∅.

(** ** The query *)

Inductive AgenticCostGap := QueryFailed | ScopeOverlapped | ScopeUnavailable.
Record AgenticCostReport := mkReport {
  ar_cost : f64;
  ar_tokens_in : Z;
  ar_tokens_out : Z;
  ar_model : option string;
  ar_known : bool;
  ar_calls : Z;
  ar_estimated : option f64
}.
Definition unavailable_agentic_cost (gap : AgenticCostGap) : AgenticCostReport := mkReport f64_zero 0 0 None false 1 None.
Section Cost.
(** The values of a map, in the order the program meets them. *)
Context (values : gmap string ModelStats -> list ModelStats).
Definition more_tokens (a b : ModelStats) : comparison := Z.compare (ms_total_tokens a) (ms_total_tokens b).
Definition classify_agentic_cost_summary (sum : CostSummary) (posture : BillingPosture) : AgenticCostReport :=
  let cost := window_cost_usd sum in
  let rows := values (by_model sum) in
  let model := opt_filter (fun m => negb (str_is_empty m)) (ms_model <$> max_by more_tokens rows) in
  let tin := foldl (fun acc m => u64_sat_add acc (ms_input_tokens m)) 0 rows in
  let tout := foldl (fun acc m => u64_sat_add acc (ms_output_tokens m)) 0 rows in
  let calls := Z.max (cs_request_count sum) 1 in
  if (0 <? cs_request_count sum) && negb (bool_decide (by_model sum = ∅)) then
    if f64_is_finite cost && (cost >? f64_zero)%f64 then
      if is_cost_neutral posture then mkReport f64_zero tin tout model true calls (Some cost)
      else mkReport cost tin tout model true calls (Some cost)
    else if is_cost_neutral posture then mkReport f64_zero tin tout model true calls None
    else mkReport f64_zero tin tout model false calls None
  else mkReport f64_zero tin tout model false calls None.
Definition AGENTIC_COST_MAX_ATTEMPTS : nat := 3.
(** The attempts left; the answers of the engine and the jitters by attempt.
    The delays that were slept come with the report. *)
Fixpoint cost_attempts (left attempt : nat) (answer : nat -> result CostSummary QueryError) (jitter : nat -> f64) (posture : BillingPosture) :
  AgenticCostReport * list Z :=
  match left with
  | O => (unavailable_agentic_cost QueryFailed, [])
  | S left' =>
      match answer attempt with
      | Ok sum => (classify_agentic_cost_summary sum posture, [])
      | Err _ =>
          let '(r, slept) := cost_attempts left' (S attempt) answer jitter posture in
          (r, (if (S attempt <? AGENTIC_COST_MAX_ATTEMPTS)%nat then [backoff_delay (jitter attempt) (Z.of_nat attempt) None None] else []) ++ slept)
      end
  end.
Definition agentic_cost (answer : nat -> result CostSummary QueryError) (jitter : nat -> f64) (posture : BillingPosture) : AgenticCostReport * list Z :=
  cost_attempts AGENTIC_COST_MAX_ATTEMPTS 0 answer jitter posture.
Definition agentic_cost_verdict (cost : f64) (cost_known : bool) (posture : BillingPosture) : f64 * bool :=
  if negb cost_known && is_cost_neutral posture then (f64_zero, true) else (cost, cost_known).
(** What a turn asks: the scope's end, or that it could not be opened or
    closed. *)
Definition scope_cost (ended : option (Z * Z * bool)) (answer : nat -> result CostSummary QueryError) (jitter : nat -> f64) (posture : BillingPosture) :
  AgenticCostReport :=
  match ended with
  | Some (_, _, false) => (agentic_cost answer jitter posture).1
  | Some (_, _, true) => unavailable_agentic_cost ScopeOverlapped
  | None => unavailable_agentic_cost ScopeUnavailable
  end.
End Cost.

(** * Theorems *)

(** ** The window is exclusive *)

(** Every open scope holds the file of its number, the locked files are those
    of open scopes, and no number is beyond the one that was written. *)
Record scopes_ok (w : Scopes) : Prop := {
  so_holds : forall p s, ss_open w !! p = Some s -> sd_active (ss_dir w) !! sc_sequence s = Some (Some p);
  so_held : forall n p, sd_active (ss_dir w) !! n = Some (Some p) -> exists s, ss_open w !! p = Some s /\ sc_sequence s = n;
  so_numbers : forall n x, sd_active (ss_dir w) !! n = Some x -> n <= read_agentic_scope_sequence (ss_dir w)
}.
Lemma scopes_ok_init : scopes_ok no_scopes.
Proof. by split; intros; simplify_map_eq. Qed.
Lemma start_kept d n x : filter locked (sd_active d) !! n = Some x <-> sd_active d !! n = Some x /\ is_Some x.
Proof. rewrite map_lookup_filter_Some. done. Qed.
Lemma scope_start_ok p now w s d : scopes_ok w -> ss_open w !! p = None -> cost_scope_start p now (ss_dir w) = Some (s, d) ->
  scopes_ok (mkScopes d (<[p := s]> (ss_open w))) /\ sc_from s = now /\
  read_agentic_scope_sequence d = read_agentic_scope_sequence (ss_dir w) + 1 /\ sc_sequence s = read_agentic_scope_sequence d /\
  sc_overlapped_on_start s = negb (bool_decide (ss_open w = ∅)).
Proof.
  intros [Hh Hd Hn] Hp. unfold cost_scope_start.
  destruct (U64_MAX <? _) eqn:Em; [done|]. case_bool_decide as Hex; [done|]. intros [= <- <-].
  assert (forall n x, filter locked (sd_active (ss_dir w)) !! n = Some x -> n < read_agentic_scope_sequence (ss_dir w) + 1) as Hlt.
  { intros n x [H _]%start_kept. apply Hn in H. lia. }
  split_and!; [|done|done|done|].
  - split; cbn [ss_dir ss_open sd_active sc_sequence].
    + intros q s. destruct (decide (q = p)) as [->|Hq].
      * rewrite lookup_insert_eq. intros [= <-]. cbn. by rewrite lookup_insert_eq.
      * rewrite lookup_insert_ne by done. intros Hs. pose proof (Hh q s Hs) as Ha.
        rewrite lookup_insert_ne; [by apply start_kept|]. intros E. apply Hn in Ha. rewrite <- E in Ha. unfold read_agentic_scope_sequence in *. lia.
    + intros n q. destruct (decide (n = read_agentic_scope_sequence (ss_dir w) + 1)) as [->|Hne].
      * rewrite lookup_insert_eq. intros [= <-]. eexists. by rewrite lookup_insert_eq.
      * rewrite lookup_insert_ne by done. intros [Ha _]%start_kept. destruct (Hd n q Ha) as (s & Hs & <-).
        exists s. rewrite lookup_insert_ne; [done|]. intros ->. congruence.
    + intros n x. cbn [read_agentic_scope_sequence sd_sequence default id]. destruct (decide (n = read_agentic_scope_sequence (ss_dir w) + 1)) as [->|Hne]; [done|].
      rewrite lookup_insert_ne by done. intros Ha%Hlt. clear -Ha. lia.
  - cbn. f_equal. apply bool_decide_ext. split; intros E.
    + apply map_empty. intros q. destruct (ss_open w !! q) as [s|] eqn:Hs; [|done]. apply Hh in Hs.
      assert (filter locked (sd_active (ss_dir w)) !! sc_sequence s = Some (Some q)) as Hk by (by apply start_kept). by rewrite E in Hk.
    + apply map_empty. intros n. destruct (filter locked (sd_active (ss_dir w)) !! n) as [x|] eqn:Hk; [|done].
      apply start_kept in Hk as [Ha [q ->]]. destruct (Hd n q Ha) as (s & Hs & _). by rewrite E in Hs.
Qed.
Lemma scope_step_ok l w w' r : scopes_ok w -> scope_step l w = Some (w', r) -> scopes_ok w'.
Proof.
  intros Hw. destruct l as [p now|p now|p|n]; cbn [scope_step].
  - destruct (ss_open w !! p) eqn:Hp; [done|]. destruct (cost_scope_start p now (ss_dir w)) as [[s d]|] eqn:E; [|done]. cbn. intros [= <- <-].
    by destruct (scope_start_ok p now w s d Hw Hp E).
  - destruct (ss_open w !! p) as [s|] eqn:Hp; [|done]. cbn. intros [= <- <-]. destruct Hw as [Hh Hd Hn].
    split; cbn [ss_dir ss_open sd_active sd_sequence].
    + intros q t [Hq Ht]%lookup_delete_Some. pose proof (Hh q t Ht) as Ha. pose proof (Hh p s Hp) as Hb.
      rewrite lookup_delete_ne; [done|]. intros E. rewrite E in Hb. congruence.
    + intros n q [Hne Ha]%lookup_delete_Some. destruct (Hd n q Ha) as (t & Ht & <-). exists t. split; [|done].
      rewrite lookup_delete_ne; [done|]. intros ->. congruence.
    + intros n x [_ Ha]%lookup_delete_Some. by apply (Hn n x).
  - destruct (ss_open w !! p) as [s|] eqn:Hp; [|done]. cbn. intros [= <- <-]. destruct Hw as [Hh Hd Hn]. pose proof (Hh p s Hp) as Hb.
    split; cbn [ss_dir ss_open sd_active sd_sequence].
    + intros q t [Hq Ht]%lookup_delete_Some. pose proof (Hh q t Ht) as Ha.
      rewrite lookup_insert_ne; [done|]. intros E. rewrite E in Hb. congruence.
    + intros n q. destruct (decide (n = sc_sequence s)) as [->|Hne]; [by rewrite lookup_insert_eq|]. rewrite lookup_insert_ne by done.
      intros Ha. destruct (Hd n q Ha) as (t & Ht & <-). exists t. split; [|done]. rewrite lookup_delete_ne; [done|]. intros ->. congruence.
    + intros n x. destruct (decide (n = sc_sequence s)) as [->|Hne].
      * intros _. exact (Hn _ _ Hb).
      * rewrite lookup_insert_ne by done. apply Hn.
  - destruct (sd_active (ss_dir w) !! n) as [[q|]|] eqn:Ha; [done| |done]. intros [= <- <-]. destruct Hw as [Hh Hd Hn].
    split; cbn [ss_dir ss_open sd_active sd_sequence].
    + intros q t Ht. pose proof (Hh q t Ht) as Hb. rewrite lookup_delete_ne; [done|]. intros E. subst n. congruence.
    + intros m q [_ Hb]%lookup_delete_Some. by apply Hd.
    + intros m x [_ Hb]%lookup_delete_Some. by apply (Hn m x).
Qed.
Lemma scope_run_ok ls : forall w w', scopes_ok w -> scope_run ls w = Some w' -> scopes_ok w'.
Proof.
  induction ls as [|l ls IH]; intros w w' Hw; cbn [scope_run]; [by intros [= <-]|].
  destruct (scope_step l w) as [[w1 r]|] eqn:E; [|done]. cbn. apply IH. by apply (scope_step_ok l w w1 r).
Qed.

Definition is_start (l : ScopeLabel) : bool := match l with StartScope _ _ => true | _ => false end.
(** A run leaves the scope of a process it does not name, and counts the scopes
    it opens. *)
Lemma scope_run_counts p ls : forall w w' s, scopes_ok w -> scope_run ls w = Some w' -> ss_open w !! p = Some s ->
  Forall (fun l => scope_of l <> Some p) ls ->
  ss_open w' !! p = Some s /\
  read_agentic_scope_sequence (ss_dir w') = read_agentic_scope_sequence (ss_dir w) + Z.of_nat (length (filterb is_start ls)).
Proof.
  induction ls as [|l ls IH]; intros w w' s Hw; cbn [scope_run]; [intros [= <-] Hs _; cbn; split; [done|lia]|].
  destruct (scope_step l w) as [[w1 r]|] eqn:E; [|done]. cbn [mbind option_bind]. intros Hr Hs [Hl Hls]%Forall_cons.
  pose proof (scope_step_ok l w w1 r Hw E) as Hw1.
  assert (ss_open w1 !! p = Some s /\ read_agentic_scope_sequence (ss_dir w1) = read_agentic_scope_sequence (ss_dir w) + (if is_start l then 1 else 0)) as [Hs1 Hq].
  { destruct l as [q now|q now|q|n]; cbn [scope_step is_start] in *.
    - destruct (ss_open w !! q) eqn:Hp; [done|]. destruct (cost_scope_start q now (ss_dir w)) as [[t d]|] eqn:Et; [|done]. cbn in E. injection E as <- <-.
      destruct (scope_start_ok q now w t d Hw Hp Et) as (_ & _ & Hn & _). split; [|done]. cbn. rewrite lookup_insert_ne; [done|]. intros ->. by destruct Hl.
    - destruct (ss_open w !! q) eqn:Hp; [|done]. cbn in E. injection E as <- <-. cbn. rewrite lookup_delete_ne by (intros ->; by destruct Hl). split; [done|]. unfold read_agentic_scope_sequence. cbn. lia.
    - destruct (ss_open w !! q) eqn:Hp; [|done]. cbn in E. injection E as <- <-. cbn. rewrite lookup_delete_ne by (intros ->; by destruct Hl). split; [done|]. unfold read_agentic_scope_sequence. cbn. lia.
    - destruct (sd_active (ss_dir w) !! n) as [[?|]|]; [done| |done]. injection E as <- <-. cbn. split; [done|]. unfold read_agentic_scope_sequence. cbn. lia. }
  destruct (IH w1 w' s Hw1 Hr Hs1 Hls) as [H1 H2]. split; [done|]. rewrite H2, Hq. unfold filterb. cbn [List.filter]. destruct (is_start l); cbn [length]; lia.
Qed.

(** The window of a turn's cost is reported as shared exactly when it was:
    some other scope of the agent was open when it was opened, or one was
    opened before it was closed; a scope whose process died, or that was closed
    before, does not count, and its file does not stay in the way. *)
Theorem cost_window_exclusive before w p from w1 between w2 to_ w3 r :
  scope_run before no_scopes = Some w -> scope_step (StartScope p from) w = Some (w1, None) ->
  scope_run between w1 = Some w2 -> Forall (fun l => scope_of l <> Some p) between ->
  scope_step (FinishScope p to_) w2 = Some (w3, r) ->
  exists shared, r = Some (from, to_, shared) /\
    (shared = true <-> ss_open w <> ∅ \/ exists q now, StartScope q now ∈ between) /\
    (forall n q, sd_active (ss_dir w1) !! n = Some q -> is_Some q).
Proof.
  intros Hb Hs Hm Hl Hf. pose proof (scope_run_ok before _ _ scopes_ok_init Hb) as Hw. pose proof (scope_step_ok _ _ _ _ Hw Hs) as Hw1.
  cbn [scope_step] in Hs. destruct (ss_open w !! p) eqn:Hp; [done|]. destruct (cost_scope_start p from (ss_dir w)) as [[s d]|] eqn:E; [|done].
  cbn in Hs. injection Hs as <-. destruct (scope_start_ok p from w s d Hw Hp E) as (_ & Hfrom & Hn & Hseq & Hov).
  destruct (scope_run_counts p between _ w2 s Hw1 Hm) as [Hs2 Hq]; [cbn; by rewrite lookup_insert_eq|done|]. cbn [ss_dir] in Hq.
  cbn [scope_step] in Hf. rewrite Hs2 in Hf. cbn in Hf. injection Hf as _ <-. eexists. split; [by rewrite Hfrom|]. split.
  - rewrite Hov, Hq, orb_true_iff, !negb_true_iff, bool_decide_eq_false. f_equiv.
    rewrite Hseq, Z.eqb_neq. split.
    + intros H. assert (filterb is_start between <> []) as Hne by (intros E0; rewrite E0 in H; cbn in H; lia).
      destruct (filterb is_start between) as [|l ls] eqn:El; [done|].
      assert (l ∈ filterb is_start between) as [Hst Hin]%elem_of_filterb by (rewrite El; left). destruct l as [q now|q now|q|n]; try done. by exists q, now.
    + intros (q & now & Hin). assert (StartScope q now ∈ filterb is_start between) as Hin' by (by apply elem_of_filterb).
      destruct (filterb is_start between); [by apply not_elem_of_nil in Hin'|]. cbn. lia.
  - cbn. intros n q. unfold cost_scope_start in E. destruct (U64_MAX <? _); [done|]. destruct (bool_decide (is_Some _)); [done|]. injection E as <- <-. cbn.
    destruct (decide (n = read_agentic_scope_sequence (ss_dir w) + 1)) as [->|Hne]; [rewrite lookup_insert_eq; intros [= <-]; by eexists|].
    rewrite lookup_insert_ne by done. intros Hk. by apply start_kept in Hk as [_ Hk].
Qed.

(** ** The report *)

Section Report.
Context (values : gmap string ModelStats -> list ModelStats).

Lemma cost_attempts_last answer jitter posture : forall more attempt,
  let r := (cost_attempts values more attempt answer jitter posture).1 in
  r = unavailable_agentic_cost QueryFailed /\ (forall k, (attempt <= k < attempt + more)%nat -> exists e, answer k = Err e)
  \/ exists k sum, (attempt <= k < attempt + more)%nat /\ answer k = Ok sum /\ (forall j, (attempt <= j < k)%nat -> exists e, answer j = Err e) /\
       r = classify_agentic_cost_summary values sum posture.
Proof.
  induction more as [|more IH]; intros attempt; cbv zeta; cbn [cost_attempts]; [left; split; [done|lia]|].
  destruct (answer attempt) as [sum|e] eqn:E.
  - right. exists attempt, sum. split_and!; [lia|lia|done|lia|done].
  - specialize (IH (S attempt)). destruct (cost_attempts values more (S attempt) answer jitter posture) as [r slept]. cbn [fst] in *.
    destruct IH as [[-> H]|(k & sum & Hk & Hs & Hj & ->)].
    + left. split; [done|]. intros k Hk. destruct (decide (k = attempt)) as [->|]; [by exists e|]. apply H. lia.
    + right. exists k, sum. split_and!; [lia|lia|done| |done]. intros j Hj'. destruct (decide (j = attempt)) as [->|]; [by exists e|]. apply Hj. lia.
Qed.

(** What a turn's cost is taken to be.  A flat or a free plan never spends:
    whatever the engine answers or fails to, its row is a known zero, and a
    figure of the engine is kept as an estimate only.  On a metered route a cost
    is known only when it was asked in a window of its own, was answered within
    three attempts, and is a positive number the engine priced from requests of
    the window: a failed, shared or empty query, and a price of zero, are
    unknown. *)
Theorem turn_cost_exact ended answer jitter posture :
  let r := scope_cost values ended answer jitter posture in
  let '(cost, known) := agentic_cost_verdict (ar_cost r) (ar_known r) posture in
  (is_cost_neutral posture = true -> cost = f64_zero /\ known = true) /\
  (is_cost_neutral posture = false ->
     (known = false /\ cost = f64_zero) \/
     exists from to_ k sum, ended = Some (from, to_, false) /\ (k < AGENTIC_COST_MAX_ATTEMPTS)%nat /\ answer k = Ok sum /\
       known = true /\ cost = session_cost_usd sum /\ f64_is_finite cost = true /\ (cost >? f64_zero)%f64 = true /\
       0 < cs_request_count sum /\ by_model sum <> ∅ /\ ar_estimated r = Some cost) /\
  (forall e, ar_estimated r = Some e -> f64_is_finite e = true /\ (e >? f64_zero)%f64 = true) /\
  1 <= ar_calls r.
Proof.
  cbv zeta.
  assert (scope_cost values ended answer jitter posture = mkReport f64_zero 0 0 None false 1 None \/
    exists from to_ k sum, ended = Some (from, to_, false) /\ (k < AGENTIC_COST_MAX_ATTEMPTS)%nat /\ answer k = Ok sum /\
      scope_cost values ended answer jitter posture = classify_agentic_cost_summary values sum posture) as [->|(from & to_ & k & sum & -> & Hk & Ha & ->)].
  { destruct ended as [[[from to_] [|]]|]; [by left| |by left]. unfold scope_cost, agentic_cost.
    destruct (cost_attempts_last answer jitter posture AGENTIC_COST_MAX_ATTEMPTS 0) as [[-> _]|(k & sum & Hk & Hs & _ & ->)]; [by left|].
    right. exists from, to_, k, sum. split_and!; (done || lia). }
  - unfold agentic_cost_verdict. cbn. destruct (is_cost_neutral posture); split_and!; try done; intros _; by left.
  - unfold classify_agentic_cost_summary, agentic_cost_verdict, window_cost_usd.
    destruct ((0 <? cs_request_count sum) && negb (bool_decide (by_model sum = ∅))) eqn:Er.
    + apply andb_true_iff in Er as [Hn He]. apply negb_true_iff, bool_decide_eq_false in He.
      destruct (f64_is_finite (session_cost_usd sum) && (session_cost_usd sum >? f64_zero)%f64) eqn:Ec.
      * apply andb_true_iff in Ec as [Hf Hp]. destruct (is_cost_neutral posture) eqn:En; cbn [ar_cost ar_known ar_estimated ar_calls negb andb].
        -- split_and!; [done|done|by intros e [= <-]|lia].
        -- split_and!; [done| |by intros e [= <-]|lia]. intros _. right. exists from, to_, k, sum. split_and!; (done || lia).
      * destruct (is_cost_neutral posture) eqn:En; cbn [ar_cost ar_known ar_estimated ar_calls negb andb];
          split_and!; try done; try lia; intros _; by left.
    + cbn [ar_cost ar_known ar_estimated ar_calls negb andb]. destruct (is_cost_neutral posture) eqn:En; split_and!; try done; try lia; intros _; by left.
Qed.
End Report.

(** ** Concrete runs *)

Definition after_steps (ls : list ScopeLabel) : Scopes := default no_scopes (scope_run ls no_scopes).
Definition quiet_start : list ScopeLabel := [StartScope 7 1; DropLock 7].
Lemma cost_window_exclusive_witness :
  exists shared, (scope_step (FinishScope 1 40) (after_steps (quiet_start ++ [StartScope 1 10; StartScope 2 20; FinishScope 2 30]))) =
    Some (after_steps (quiet_start ++ [StartScope 1 10; StartScope 2 20; FinishScope 2 30; FinishScope 1 40]), Some (10, 40, shared)) /\ shared = true.
Proof.
  destruct (cost_window_exclusive quiet_start (after_steps quiet_start) 1 10 (after_steps (quiet_start ++ [StartScope 1 10]))
    [StartScope 2 20; FinishScope 2 30] (after_steps (quiet_start ++ [StartScope 1 10; StartScope 2 20; FinishScope 2 30])) 40
    (after_steps (quiet_start ++ [StartScope 1 10; StartScope 2 20; FinishScope 2 30; FinishScope 1 40])) (Some (10, 40, true))) as (sh & E & Hs & _);
    [vm_compute; reflexivity|vm_compute; reflexivity|vm_compute; reflexivity|repeat (constructor; [discriminate|]); constructor|vm_compute; reflexivity|].
  exists true. split; [vm_compute; reflexivity|reflexivity].
Defined.
