(* ===== verification/Gate.v ===== *)
(** The check gate (gate.rs, gate_bundle.rs, [cmd_gate] of main.rs): what a
    repository's marker files say about it, the plan of checks, its execution,
    the verdict, the report and the exit status; the catalog of tools and the
    environment that runs a step.

    The file system, the processes and the build's version variables are
    arguments.  Texts are ASCII except for the badges of the report. *)
From S2P Require Import Prelude Text.
Local Open Scope string_scope.
Local Open Scope Z_scope.
Local Open Scope list_scope.

(** ** Data *)

Inductive Ecosystem := Rust | Node | Python | Go.
Inductive StepCategory := Format | Lint | Build | Test | Security | License | Secret | Commit.
#[export] Instance ecosystem_eq_dec : EqDecision Ecosystem.
Proof. solve_decision. Defined.
#[export] Instance category_eq_dec : EqDecision StepCategory.
Proof. solve_decision. Defined.

Record GateStep := mkStep {
  step_name : string; category : StepCategory; command : list string; tool : string; required : bool
}.

Inductive StepOutcome := Passed | Failed | Skipped (reason : string).
Record StepResult := mkResult { result_name : string; result_required : bool; outcome : StepOutcome }.

Inductive GateStatus := Green | Yellow (skipped : list string) | Red (failures : list string) | Inconclusive.

(** ** Detection *)

Definition marker (eco : Ecosystem) : string :=
  match eco with Rust => "Cargo.toml" | Node => "package.json" | Python => "pyproject.toml" | Go => "go.mod" end.

Definition has (marker_files : list string) (name : string) : bool := bool_decide (name ∈ marker_files).

Definition ecosystem_matches (eco : Ecosystem) (marker_files : list string) : bool :=
  match eco with
  | Python => existsb (has marker_files) ["pyproject.toml"; "requirements.txt"; "setup.py"]
  | _ => has marker_files (marker eco)
  end.
Definition detect_ecosystems (marker_files : list string) : list Ecosystem :=
  filterb (fun eco => ecosystem_matches eco marker_files) [Rust; Node; Python; Go].

Inductive PackageManager := Yarn | Pnpm | Bun | Poetry | Uv.
Definition cli_name (pm : PackageManager) : string :=
  match pm with Yarn => "yarn" | Pnpm => "pnpm" | Bun => "bun" | Poetry => "poetry" | Uv => "uv" end.

Definition detect_package_manager (eco : Ecosystem) (marker_files : list string) : option PackageManager :=
  match eco with
  | Node =>
      if has marker_files "pnpm-lock.yaml" then Some Pnpm
      else if has marker_files "yarn.lock" then Some Yarn
      else if has marker_files "bun.lockb" then Some Bun else None
  | Python =>
      if has marker_files "uv.lock" then Some Uv
      else if has marker_files "poetry.lock" then Some Poetry else None
  | Rust | Go => None
  end.

Definition detect_rust (marker_files : list string) : bool := has marker_files "Cargo.toml".
Definition detect_node (marker_files : list string) : bool := has marker_files "package.json".
Definition detect_python (marker_files : list string) : bool :=
  has marker_files "pyproject.toml" || has marker_files "requirements.txt" || has marker_files "setup.py".
Definition detect_go (marker_files : list string) : bool := has marker_files "go.mod".

Definition MARKER_HINTS : list (string * string) :=
  [("tsconfig.json", "typescript");
   ("tsconfig.base.json", "typescript");
   ("next.config.js", "next.js");
   ("next.config.ts", "next.js");
   ("next.config.mjs", "next.js");
   ("nuxt.config.ts", "nuxt");
   ("nuxt.config.js", "nuxt");
   ("vite.config.ts", "vite");
   ("vite.config.js", "vite");
   ("vitest.config.ts", "vitest");
   ("vitest.config.js", "vitest");
   ("jest.config.js", "jest");
   ("jest.config.ts", "jest");
   ("manage.py", "django");
   ("Pipfile", "pipenv");
   ("poetry.lock", "poetry");
   ("pyproject.toml", "pyproject");
   ("uv.lock", "uv");
   ("go.mod", "go-modules")].


Definition hint_step (marker_files : list string) (out : list string) (entry : string * string) : list string :=
  let '(key, hint) := entry in
  if negb (has marker_files key) then out
  else if bool_decide (hint ∈ out) then out
  else out ++ [hint].
Definition detect_frameworks (marker_files : list string) : list string :=
  foldl (hint_step marker_files) [] MARKER_HINTS.

Record RepoSignals := mkSignals {
  ecosystems : list Ecosystem; package_managers : list (Ecosystem * PackageManager); framework_hints : list string
}.
Definition detect_repo_signals (marker_files : list string) : RepoSignals :=
  let ecos := detect_ecosystems marker_files in
  mkSignals ecos
    (omap (fun eco => pm ← detect_package_manager eco marker_files; Some (eco, pm)) ecos)
    (detect_frameworks marker_files).

(** ** Plans *)

Definition baseline_plan (eco : Ecosystem) : list GateStep :=
  match eco with
  | Rust =>
      [mkStep "fmt" Format ["cargo"; "fmt"; "--all"; "--"; "--check"] "cargo" true;
       mkStep "clippy" Lint ["cargo"; "clippy"; "--all-targets"; "--"; "-D"; "warnings"] "cargo" true;
       mkStep "build" Build ["cargo"; "build"; "--all-targets"] "cargo" true;
       mkStep "test" Test ["cargo"; "test"; "--all-targets"] "cargo" true;
       mkStep "deny" Security ["cargo"; "deny"; "check"] "cargo-deny" true;
       mkStep "audit" Security ["cargo"; "audit"] "cargo-audit" false]
  | Node =>
      [mkStep "fmt" Format ["npx"; "prettier"; "--check"; "."] "npx" false;
       mkStep "lint" Lint ["npm"; "run"; "lint"] "npm" true;
       mkStep "build" Build ["npm"; "run"; "build"] "npm" true;
       mkStep "test" Test ["npm"; "test"] "npm" true;
       mkStep "audit" Security ["npm"; "audit"; "--audit-level=high"] "npm" true]
  | Python =>
      [mkStep "fmt" Format ["ruff"; "format"; "--check"; "."] "ruff" false;
       mkStep "lint" Lint ["ruff"; "check"; "."] "ruff" true;
       mkStep "build" Build ["python"; "-m"; "build"] "python" false;
       mkStep "test" Test ["pytest"; "-q"] "pytest" true;
       mkStep "audit" Security ["pip-audit"] "pip-audit" true]
  | Go =>
      [mkStep "fmt" Format ["gofmt"; "-l"; "."] "gofmt" true;
       mkStep "lint" Lint ["go"; "vet"; "./..."] "go" true;
       mkStep "build" Build ["go"; "build"; "./..."] "go" true;
       mkStep "test" Test ["go"; "test"; "./..."] "go" true;
       mkStep "audit" Security ["govulncheck"; "./..."] "govulncheck" true]
  end.

Definition refined_plan (eco : Ecosystem) (pm : PackageManager) : option (list GateStep) :=
  match eco, pm with
  | Node, Yarn =>
      Some [mkStep "fmt" Format ["npx"; "prettier"; "--check"; "."] "npx" false;
            mkStep "lint" Lint ["yarn"; "lint"] "yarn" true;
            mkStep "build" Build ["yarn"; "build"] "yarn" true;
            mkStep "test" Test ["yarn"; "test"] "yarn" true;
            mkStep "audit" Security ["yarn"; "npm"; "audit"; "--audit-level=high"] "yarn" true]
  | Node, Pnpm =>
      Some [mkStep "fmt" Format ["npx"; "prettier"; "--check"; "."] "npx" false;
            mkStep "lint" Lint ["pnpm"; "run"; "lint"] "pnpm" true;
            mkStep "build" Build ["pnpm"; "run"; "build"] "pnpm" true;
            mkStep "test" Test ["pnpm"; "test"] "pnpm" true;
            mkStep "audit" Security ["pnpm"; "audit"; "--audit-level=high"] "pnpm" true]
  | Node, Bun =>
      Some [mkStep "fmt" Format ["bunx"; "prettier"; "--check"; "."] "bun" false;
            mkStep "lint" Lint ["bun"; "run"; "lint"] "bun" true;
            mkStep "build" Build ["bun"; "run"; "build"] "bun" true;
            mkStep "test" Test ["bun"; "test"] "bun" true;
            mkStep "audit" Security ["bun"; "audit"; "--audit-level=high"] "bun" true]
  | Python, Poetry =>
      Some [mkStep "fmt" Format ["ruff"; "format"; "--check"; "."] "ruff" false;
            mkStep "lint" Lint ["ruff"; "check"; "."] "ruff" true;
            mkStep "build" Build ["poetry"; "build"] "poetry" false;
            mkStep "test" Test ["poetry"; "run"; "pytest"; "-q"] "poetry" true;
            mkStep "audit" Security ["poetry"; "run"; "pip-audit"] "pip-audit" true]
  | Python, Uv =>
      Some [mkStep "fmt" Format ["ruff"; "format"; "--check"; "."] "ruff" false;
            mkStep "lint" Lint ["ruff"; "check"; "."] "ruff" true;
            mkStep "build" Build ["uv"; "build"] "uv" false;
            mkStep "test" Test ["uv"; "run"; "pytest"; "-q"] "uv" true;
            mkStep "audit" Security ["uv"; "run"; "pip-audit"] "pip-audit" true]
  | _, _ => None
  end.


Definition baseline_plan_for (eco : Ecosystem) (marker_files : list string) : list GateStep :=
  let default_ := baseline_plan eco in
  match detect_package_manager eco marker_files with
  | None => default_
  | Some pm => default default_ (refined_plan eco pm)
  end.

Record CiJob := mkJob {
  job_name : string; job_command : list string; job_tool : string; job_category : StepCategory;
  needs_secrets : bool; needs_services : bool; self_hosted : bool
}.
Record CompatibilityReport := mkCompat {
  runnable : list string; compat_skipped : list (string * string); added_baseline : list string
}.

Definition skip_reason (job : CiJob) : option string :=
  if needs_secrets job then Some "requires CI secrets (upstream CI verifies)"
  else if needs_services job then Some "requires service containers (upstream CI verifies)"
  else if self_hosted job then Some "requires a self-hosted runner (upstream CI verifies)"
  else None.

Definition ci_step (job : CiJob) : GateStep :=
  mkStep (job_name job) (job_category job) (job_command job) (job_tool job) true.

Definition classify_job (acc : list GateStep * CompatibilityReport) (job : CiJob) : list GateStep * CompatibilityReport :=
  let '(plan, report) := acc in
  match skip_reason job with
  | Some reason => (plan, mkCompat (runnable report) (compat_skipped report ++ [(job_name job, reason)]) (added_baseline report))
  | None => (plan ++ [ci_step job], mkCompat (runnable report ++ [job_name job]) (compat_skipped report) (added_baseline report))
  end.

(** The categories covered so far, the plan and the report. *)
Definition add_baseline (acc : list StepCategory * (list GateStep * CompatibilityReport)) (base : GateStep) :
    list StepCategory * (list GateStep * CompatibilityReport) :=
  let '(covered, (plan, report)) := acc in
  let appended := (plan ++ [base], mkCompat (runnable report) (compat_skipped report) (added_baseline report ++ [step_name base])) in
  if required base then (covered, appended)
  else if bool_decide (category base ∈ covered) then acc
  else (covered ++ [category base], appended).

Definition derive_plan (ci_jobs : list CiJob) (baseline : list GateStep) : list GateStep * CompatibilityReport :=
  let '(plan, report) := foldl classify_job ([], mkCompat [] [] []) ci_jobs in
  (foldl add_baseline (map category plan, (plan, report)) baseline).2.

(** ** Running a plan *)

Inductive GateMode := Strict | LocalIterate.
Inductive StepExec := ExecPassed | ExecFailed.

(** The runner's view of the machine; [i] steps of the plan have run. *)
Class GateEnv := { tool_available : nat -> string -> bool; run_step : nat -> GateStep -> StepExec }.

Definition bare_reason (tool : string) : string := "tool `" +:+ tool +:+ "` not available".

Definition step_outcome `{GateEnv} (mode : GateMode) (i : nat) (step : GateStep) : StepOutcome :=
  if tool_available i (tool step) then
    match run_step i step with ExecPassed => Passed | ExecFailed => Failed end
  else match mode, required step with
       | Strict, true => Failed
       | Strict, false => Skipped (bare_reason (tool step))
       | LocalIterate, _ => Skipped (bare_reason (tool step))
       end.

(** The counter, the failures and the skipped names. *)
Definition count_result (acc : nat * (list string * list string)) (r : StepResult) : nat * (list string * list string) :=
  let '(required_count, (failures, skipped)) := acc in
  let counted := if result_required r then S required_count else required_count in
  match outcome r with
  | Failed => (counted, (if result_required r then failures ++ [result_name r] else failures, skipped))
  | Skipped _ => (counted, (failures, skipped ++ [result_name r]))
  | Passed => (counted, (failures, skipped))
  end.
Definition aggregate (results : list StepResult) : GateStatus :=
  let '(required_count, (failures, skipped)) := foldl count_result (0%nat, ([], [])) results in
  if (required_count =? 0)%nat then Inconclusive
  else if negb (bool_decide (failures = [])) then Red failures
  else if negb (bool_decide (skipped = [])) then Yellow skipped
  else Green.

Definition run_plan `{GateEnv} (plan : list GateStep) (mode : GateMode) : list StepResult * GateStatus :=
  let results := imap (fun i step => mkResult (step_name step) (required step) (step_outcome mode i step)) plan in
  (results, aggregate results).

(** ** The report *)

Record GateReport := mkReport {
  status : GateStatus; results : list StepResult; compatibility : CompatibilityReport; report_mode : GateMode
}.

Definition sort_dedup (l : list string) : list string := dedup_adjacent (sort_by String.compare l).

Definition new_report (results : list StepResult) (compat : CompatibilityReport) (mode : GateMode) : GateReport :=
  let status := aggregate results in
  let names := map fst (compat_skipped compat) in
  let status :=
    if bool_decide (compat_skipped compat = []) then status
    else match status with
         | Green => Yellow (sort_dedup names)
         | Yellow existing => Yellow (sort_dedup (existing ++ names))
         | Red _ | Inconclusive => status
         end in
  mkReport status results compat mode.

Definition was_strict (r : GateReport) : bool := match report_mode r with Strict => true | LocalIterate => false end.
Definition is_passed (r : GateReport) : bool := match status r with Green => true | _ => false end.
Definition is_failed (r : GateReport) : bool := match status r with Red _ => true | _ => false end.
Definition is_inconclusive (r : GateReport) : bool := match status r with Inconclusive => true | _ => false end.
Definition is_authoritative_pass (r : GateReport) : bool := was_strict r && is_passed r.
Definition passed_required (r : StepResult) : bool :=
  result_required r && match outcome r with Passed => true | _ => false end.
Definition passed_required_names (r : GateReport) : list string := map result_name (filterb passed_required (results r)).

Definition gate_exit_code (mode : GateMode) (report : GateReport) : Z :=
  match mode with
  | Strict => if is_authoritative_pass report then 0 else 1
  | LocalIterate => match status report with Green | Yellow _ => 0 | Red _ | Inconclusive => 1 end
  end.

(** *** Rendering *)

Definition brackets (l : list string) : string := "[" +:+ join ", " l +:+ "]".
Definition count (n : nat) : string := show_u (Z.of_nat n).

Definition headline (r : GateReport) : string :=
  match status r with
  | Green => "🟢 GREEN — every required check ran and passed, nothing was skipped; safe to merge within known local scope"
  | Yellow skipped =>
      "🟡 YELLOW — all required checks that could run passed, but " +:+ count (length skipped) +:+ " step(s) skipped: " +:+ brackets skipped
  | Red failures =>
      "🔴 RED — " +:+ count (length failures) +:+ " required check(s) failed: " +:+ brackets failures
      +:+ "; cannot converge, cannot approve"
  | Inconclusive =>
      "⚪ INCONCLUSIVE — no required checks ran (empty plan or all-optional plan); the gate cannot certify a pass — cannot merge, cannot approve"
  end.

Definition nl : string := String newline "".

Definition step_line (r : StepResult) : string :=
  let '(tag, note) :=
    match outcome r with
    | Passed => ("PASSED ", "")
    | Failed => ("FAILED ", "(tool or command failed)")
    | Skipped reason => ("SKIPPED", "(" +:+ reason +:+ ")")
    end in
  let req_marker := if result_required r then "*" else " " in
  if str_is_empty note then "  " +:+ tag +:+ " " +:+ req_marker +:+ " " +:+ result_name r +:+ nl
  else "  " +:+ tag +:+ " " +:+ req_marker +:+ " " +:+ result_name r +:+ " " +:+ note +:+ nl.

Definition skipped_line (job : string * string) : string := "    (" +:+ job.1 +:+ ", " +:+ job.2 +:+ ")" +:+ nl.

Definition pretty_parts (r : GateReport) : list string :=
  let c := compatibility r in
  [headline r +:+ nl;
   "breakdown: " +:+ count (length (runnable c)) +:+ " runnable, " +:+ count (length (added_baseline c)) +:+ " added-baseline, "
     +:+ count (length (compat_skipped c)) +:+ " skipped" +:+ nl;
   "steps:" +:+ nl]
  ++ map step_line (results r)
  ++ ["compatibility:" +:+ nl;
      "  runnable        " +:+ brackets (runnable c) +:+ nl;
      "  added-baseline  " +:+ brackets (added_baseline c) +:+ nl]
  ++ match compat_skipped c with
     | [] => ["  skipped         []" +:+ nl]
     | jobs => ["  skipped-with-reason [" +:+ nl] ++ map skipped_line jobs ++ ["  ]" +:+ nl]
     end.
Definition to_pretty (r : GateReport) : string := join "" (pretty_parts r).

Definition is_required (r : StepResult) : bool := result_required r.
Definition is_optional (r : StepResult) : bool := negb (result_required r).
Definition optional_passed (r : StepResult) : bool :=
  negb (result_required r) && match outcome r with Passed => true | _ => false end.
Definition step_count (p : StepResult -> bool) (r : GateReport) : nat := length (filterb p (results r)).

Definition badge_label (s : GateStatus) : string :=
  match s with Green => "🟢 GREEN" | Yellow _ => "🟡 YELLOW" | Red _ => "🔴 RED" | Inconclusive => "⚪ INCONCLUSIVE" end.
Definition to_compact (r : GateReport) : string :=
  badge_label (status r) +:+ " [required=" +:+ count (step_count is_required r) +:+ " passed=" +:+ count (step_count passed_required r)
  +:+ " optional=" +:+ count (step_count is_optional r) +:+ " passed=" +:+ count (step_count optional_passed r) +:+ "]".

Definition eco_name (e : Ecosystem) : string :=
  match e with Rust => "rust" | Node => "node" | Python => "python" | Go => "go" end.
Definition render_signals_human (s : RepoSignals) : string :=
  "ecosystems:      " +:+ brackets (map eco_name (ecosystems s)) +:+ nl
  +:+ "package-mgrs:    " +:+ brackets (map (fun '(e, pm) => eco_name e +:+ "=" +:+ cli_name pm) (package_managers s)) +:+ nl
  +:+ "framework-hints: " +:+ brackets (framework_hints s) +:+ nl.

(** ** The catalog of tools *)

Inductive ToolCategory := ForRust | ForNode | ForPython | ForGo | CrossLanguage.
Record ManagedTool := mkTool {
  tool_id : string; binary : string; version : string; tool_category : ToolCategory; install_hint : string; homepage : string
}.

(** [env] gives the versions the build was made with. *)
Definition default_bundle (env : string -> string) : list ManagedTool :=
  [mkTool "cargo-deny" "cargo-deny" (env "CARGO_DENY_VERSION") ForRust
     "cargo install cargo-deny --locked --version ${VERSION}" "https://github.com/EmbarkStudios/cargo-deny";
   mkTool "cargo-audit" "cargo-audit" (env "CARGO_AUDIT_VERSION") ForRust
     "cargo install cargo-audit --locked --version ${VERSION}" "https://github.com/rustsec/rustsec/tree/main/cargo-audit";
   mkTool "osv-scanner" "osv-scanner" (env "OSV_SCANNER_VERSION") CrossLanguage
     "go install github.com/google/osv-scanner/v2/cmd/osv-scanner@${VERSION}" "https://github.com/google/osv-scanner";
   mkTool "gitleaks" "gitleaks" (env "GITLEAKS_VERSION") CrossLanguage
     "go install github.com/gitleaks/gitleaks/v8@${VERSION}  # or download from the releases page" "https://github.com/gitleaks/gitleaks";
   mkTool "cyclonedx" "cyclonedx" (env "CYCLONEDX_VERSION") CrossLanguage
     "go install github.com/CycloneDX/cyclonedx-gomod/cmd/cyclonedx-gomod@${VERSION}" "https://github.com/CycloneDX/cyclonedx-gomod";
   mkTool "govulncheck" "govulncheck" (env "GOVULNCHECK_VERSION") ForGo
     "go install golang.org/x/vuln/cmd/govulncheck@${VERSION}" "https://go.dev/security/vuln/";
   mkTool "pip-audit" "pip-audit" (env "PIP_AUDIT_VERSION") ForPython
     "pipx install pip-audit==${VERSION}" "https://github.com/pypa/pip-audit"].

Definition lookup_get (by_id : list ManagedTool) (id : string) : option ManagedTool :=
  find_first (fun t => bool_decide (tool_id t = id)) by_id.
Definition get_by_binary (by_id : list ManagedTool) (b : string) : option ManagedTool :=
  find_first (fun t => bool_decide (binary t = b)) by_id.

(** [s.replace(needle, by)], for a needle that is not empty; [skip] bytes of
    the last match are left to drop. *)
Fixpoint replace_from (needle by_ s : string) (skip : nat) : string :=
  match s with
  | EmptyString => EmptyString
  | String c r =>
      match skip with
      | S k => replace_from needle by_ r k
      | O => if starts_with needle s then by_ +:+ replace_from needle by_ r (String.length needle - 1)
             else String c (replace_from needle by_ r O)
      end
  end.
Definition with_version (t : ManagedTool) : string := replace_from "${VERSION}" (version t) (install_hint t) 0.

Definition hint_for_missing (tool : string) (lookup : list ManagedTool) : string :=
  match lookup_get lookup tool with
  | Some t =>
      "tool `" +:+ tool +:+ "` not available (managed v" +:+ version t +:+ "; install: `" +:+ with_version t +:+ "`; see "
      +:+ homepage t +:+ ")"
  | None => bare_reason tool
  end.

(** ** The environment that runs the steps *)

Definition path_join (dir name : string) : string :=
  if starts_with "/" name then name
  else if str_is_empty dir then name
  else if bool_decide (is_Some (strip_suffix "/" dir)) then dir +:+ name
  else dir +:+ "/" +:+ name.

Record PathEnv := mkPathEnv { extra_dirs : list string; working_dir : option string; step_timeout : option Z }.
Definition DEFAULT_GATE_STEP_TIMEOUT_SECS : Z := 1800.
Definition POLL_INTERVAL : Z := 20.

Section Machine.
(** The regular files, the search path, and what becomes of a step's process. *)
Variable is_file : string -> bool.
Variable path_var : option string.

Definition check_dir (dir binary : string) : option string :=
  let candidate := path_join dir binary in if is_file candidate then Some candidate else None.

Definition find_binary (env : PathEnv) (binary : string) : option string :=
  match find_map (fun dir => check_dir dir binary) (extra_dirs env) with
  | Some p => Some p
  | None => match path_var with
            | Some paths => find_map (fun dir => check_dir dir binary) (split_on ":" paths)
            | None => None
            end
  end.

(** One answer of [try_wait]. *)
Inductive Wait := Exited (success : bool) | StillRunning | WaitError.

(** The process of one step: whether it starts, what waiting for it to end
    reports ([None] is an error), what it answers when polled, and the clock (in
    milliseconds): [clock 0] before the first poll, [clock (S k)] after the
    [k]-th. *)
Record StepProcess := mkProcess {
  spawns : bool; exit_status : option bool; polled : nat -> Wait; clock : nat -> Z
}.

(** The largest instant; adding beyond it panics. *)
Definition INSTANT_MAX : Z := 9223372036854775807 * 1000 + 999.

Inductive CommandRun := Ran (exec : StepExec) (killed : bool) | Panicked.

Fixpoint poll_step (fuel k : nat) (deadline : Z) (p : StepProcess) : option CommandRun :=
  match fuel with
  | O => None
  | S fuel =>
      match polled p k with
      | Exited true => Some (Ran ExecPassed false)
      | Exited false => Some (Ran ExecFailed false)
      | WaitError => Some (Ran ExecFailed false)
      | StillRunning => if deadline <=? clock p (S k) then Some (Ran ExecFailed true) else poll_step fuel (S k) deadline p
      end
  end.

Definition poll_fuel (timeout : Z) : nat := Z.to_nat (timeout / POLL_INTERVAL + 2).

Definition run_command (env : PathEnv) (step : GateStep) (p : StepProcess) : option CommandRun :=
  match command step with
  | [] => Some (Ran ExecFailed false)
  | _ =>
      match step_timeout env with
      | None => Some (Ran (match exit_status p with Some true => ExecPassed | _ => ExecFailed end) false)
      | Some timeout =>
          if negb (spawns p) then Some (Ran ExecFailed false)
          else if INSTANT_MAX <? clock p 0 + timeout then Some Panicked
          else poll_step (poll_fuel timeout) 0 (clock p 0 + timeout) p
      end
  end.

Record ToolProbe := mkProbe {
  probe_tool : string; present : bool; resolved_path : option string; managed : option ManagedTool
}.

Definition probe_step (env : PathEnv) (lookup : list ManagedTool) (acc : list string * list ToolProbe) (step : GateStep) :
    list string * list ToolProbe :=
  let '(seen, out) := acc in
  if bool_decide (tool step ∈ seen) then acc
  else
    let found := find_binary env (tool step) in
    let entry := match lookup_get lookup (tool step) with Some t => Some t | None => get_by_binary lookup (tool step) end in
    (seen ++ [tool step], out ++ [mkProbe (tool step) (bool_decide (is_Some found)) found entry]).
Definition probe_tools (plan : list GateStep) (env : PathEnv) (lookup : list ManagedTool) : list ToolProbe :=
  (foldl (probe_step env lookup) ([], []) plan).2.

(** ** The command *)

Definition KNOWN_MARKERS : list string :=
  ["Cargo.toml";
   "package.json";
   "pyproject.toml";
   "requirements.txt";
   "setup.py";
   "go.mod";
   "pnpm-lock.yaml";
   "yarn.lock";
   "bun.lockb";
   "poetry.lock";
   "uv.lock";
   "Pipfile";
   "tsconfig.json";
   "tsconfig.base.json";
   "next.config.js";
   "next.config.ts";
   "next.config.mjs";
   "nuxt.config.ts";
   "nuxt.config.js";
   "vite.config.ts";
   "vite.config.js";
   "vitest.config.ts";
   "vitest.config.js";
   "jest.config.js";
   "jest.config.ts";
   "manage.py"].

Definition discover_markers (root : string) : list string := filterb (fun m => is_file (path_join root m)) KNOWN_MARKERS.

Record GateOutcome := mkOutcome {
  signals : RepoSignals; pre_run_compat : CompatibilityReport; plan : list GateStep; probe : list ToolProbe
}.

Definition run_gate_for_root (build_env : string -> string) (root : string) : GateOutcome :=
  let markers := discover_markers root in
  let sig_ := detect_repo_signals markers in
  let steps := concat (map (fun eco => baseline_plan_for eco markers) (ecosystems sig_)) in
  mkOutcome sig_ (mkCompat [] [] (map step_name steps)) steps
    (probe_tools steps (mkPathEnv [] None None) (default_bundle build_env)).

Definition outcome_run `{GateEnv} (o : GateOutcome) (mode : GateMode) : GateReport :=
  new_report (run_plan (plan o) mode).1 (pre_run_compat o) mode.

(** The runner's view through [PathEnv]; a step without an answer stops the
    command ([stopped]). *)
Definition path_env (env : PathEnv) (process : nat -> GateStep -> StepProcess) : GateEnv := {|
  tool_available _ tool := bool_decide (is_Some (find_binary env tool));
  run_step i step := match run_command env step (process i step) with Some (Ran exec _) => exec | _ => ExecFailed end
|}.

(** The first step that panics ([Some]) or does not end ([None]). *)
Definition stopped (env : PathEnv) (process : nat -> GateStep -> StepProcess) (plan : list GateStep) : option (option CommandRun) :=
  find_first (fun r => match r with Some (Ran _ _) => false | _ => true end)
    (imap (fun i step => if bool_decide (is_Some (find_binary env (tool step))) then run_command env step (process i step)
                         else Some (Ran ExecFailed false)) plan).

Inductive GateError := RootNotADirectory | GatePanicked.

Definition gate_step_env (root : string) (step_timeout_secs : option Z) : PathEnv :=
  mkPathEnv [] (Some root) (Some (1000 * default DEFAULT_GATE_STEP_TIMEOUT_SECS step_timeout_secs)).

(** The exit status of the command; [None] is a command that does not end. *)
Definition cmd_gate (build_env : string -> string) (is_dir : bool) (root : string)
    (local_iterate tools_only plan_only : bool) (step_timeout_secs : option Z) (process : nat -> GateStep -> StepProcess) :
    option (result Z GateError) :=
  if negb is_dir then Some (Err RootNotADirectory)
  else
    let mode := if local_iterate then LocalIterate else Strict in
    let o := run_gate_for_root build_env root in
    if tools_only then Some (Ok 0)
    else if plan_only then Some (Ok 0)
    else
      let env := gate_step_env root step_timeout_secs in
      match stopped env process (plan o) with
      | Some (Some _) => Some (Err GatePanicked)
      | Some None => None
      | None => Some (Ok (gate_exit_code mode (@outcome_run (path_env env process) o mode)))
      end.
End Machine.

Definition render_tool (p : ToolProbe) : string :=
  if present p then
    let path := default "<unknown path>" (resolved_path p) in
    match managed p with
    | Some t => "✅ " +:+ tool_id t +:+ " v" +:+ version t +:+ " (" +:+ path +:+ ")"
    | None => "✅ " +:+ probe_tool p +:+ " (" +:+ path +:+ ")"
    end
  else match managed p with
       | Some t => "❌ " +:+ tool_id t +:+ " (managed v" +:+ version t +:+ "; install: `" +:+ with_version t +:+ "`)"
       | None => "❌ " +:+ probe_tool p +:+ " (not managed)"
       end.
Definition render_probe (ps : list ToolProbe) : string :=
  "tool availability:" +:+ nl +:+ join "" (map (fun p => "  " +:+ render_tool p +:+ nl) ps).

(** ** Verdicts *)

Definition required_failed (r : StepResult) : bool :=
  result_required r && match outcome r with Failed => true | _ => false end.
Definition is_skipped (r : StepResult) : bool := match outcome r with Skipped _ => true | _ => false end.

Lemma count_fold rs : forall n fs ss, foldl count_result (n, (fs, ss)) rs =
  ((n + length (filterb is_required rs))%nat,
   (fs ++ map result_name (filterb required_failed rs), ss ++ map result_name (filterb is_skipped rs))).
Proof.
  induction rs as [|r rs IH]; intros n fs ss; [by rewrite Nat.add_0_r, !app_nil_r|].
  cbn [foldl count_result filterb List.filter]. unfold is_required, required_failed, is_skipped in *. unfold filterb in IH.
  destruct r as [nm q o]. cbn [result_required outcome result_name]. destruct q, o; cbn [andb]; rewrite IH; cbn [map length];
    rewrite <- ?app_assoc; (done || (f_equal; lia)).
Qed.

(** The verdict, without the accumulators. *)
Lemma aggregate_eq rs : aggregate rs =
  if (length (filterb is_required rs) =? 0)%nat then Inconclusive
  else match map result_name (filterb required_failed rs), map result_name (filterb is_skipped rs) with
       | [], [] => Green
       | [], ss => Yellow ss
       | fs, _ => Red fs
       end.
Proof.
  unfold aggregate. rewrite count_fold. cbn [app]. destruct (_ =? 0)%nat; [done|].
  destruct (map result_name (filterb required_failed rs)); [|by rewrite bool_decide_eq_false_2].
  rewrite bool_decide_eq_true_2 by done. cbn [negb].
  by destruct (map result_name (filterb is_skipped rs)).
Qed.

Lemma no_match {A} (p : A -> bool) l : (length (filterb p l) =? 0)%nat = true <-> forall x, x ∈ l -> p x = false.
Proof.
  rewrite Nat.eqb_eq, length_zero_iff_nil. split.
  - intros H x Hx. destruct (p x) eqn:E; [|done]. assert (x ∈ filterb p l) as Hf by (by apply elem_of_filterb).
    rewrite H in Hf. by apply not_elem_of_nil in Hf.
  - intros H. destruct (filterb p l) as [|x k] eqn:E; [done|]. assert (x ∈ filterb p l) as Hx by (rewrite E; by left).
    apply elem_of_filterb in Hx as [Hp Hx]. by rewrite H in Hp.
Qed.
Lemma no_names {A} (f : A -> string) (p : A -> bool) l : map f (filterb p l) = [] <-> forall x, x ∈ l -> p x = false.
Proof.
  rewrite <- no_match, Nat.eqb_eq, length_zero_iff_nil. split; [|by intros ->]. by destruct (filterb p l).
Qed.

Lemma elem_of_dedup x l : x ∈ dedup_adjacent l <-> x ∈ l.
Proof.
  induction l as [|y l IH]; [done|]. destruct l as [|z l]; [done|]. change (dedup_adjacent (y :: z :: l)) with
    (if bool_decide (y = z) then dedup_adjacent (z :: l) else y :: dedup_adjacent (z :: l)).
  case_bool_decide as E; [subst|]; rewrite ?elem_of_cons, IH, !elem_of_cons; tauto.
Qed.
Lemma elem_of_sort_dedup x l : x ∈ sort_dedup l <-> x ∈ l.
Proof. unfold sort_dedup. by rewrite elem_of_dedup, elem_of_sort_by. Qed.

(** The verdict of a report, for every list of results: green exactly when some
    step is required, no required step failed, nothing was skipped and no job
    of the repository was left out; red exactly when a required step failed;
    inconclusive exactly when no step is required; and a yellow one names
    exactly what was skipped *)
Theorem report_status_exact rs c mode :
  let r := new_report rs c mode in
  let some_required := exists x, x ∈ rs /\ result_required x = true in
  let none_failed := forall x, x ∈ rs -> required_failed x = false in
  (status r = Green <-> some_required /\ none_failed /\ (forall x, x ∈ rs -> is_skipped x = false) /\ compat_skipped c = []) /\
  (status r = Inconclusive <-> ~ some_required) /\
  (is_failed r = true <-> ~ none_failed) /\
  (forall names, status r = Yellow names -> some_required /\ none_failed /\
     forall n, n ∈ names <-> (exists x, x ∈ rs /\ is_skipped x = true /\ result_name x = n) \/ n ∈ map fst (compat_skipped c)).
Proof.
  intros r some_required none_failed.
  assert (some_required <-> (length (filterb is_required rs) =? 0)%nat = false) as Hreq.
  { rewrite <- not_true_iff_false, no_match. unfold some_required. split.
    - intros (x & Hx & Hr) H. specialize (H x Hx). unfold is_required in H. by rewrite Hr in H.
    - intros H. destruct (existsb is_required rs) eqn:E.
      + apply existsb_elem in E as (x & Hx & Hr). by exists x.
      + destruct H. by apply existsb_none. }
  assert (none_failed <-> map result_name (filterb required_failed rs) = []) as Hfail by (by rewrite no_names).
  pose proof (no_names result_name is_skipped rs) as Hskip.
  assert (forall n, n ∈ map result_name (filterb is_skipped rs) <-> exists x, x ∈ rs /\ is_skipped x = true /\ result_name x = n) as Hn.
  { intros n. rewrite list_elem_of_In, in_map_iff. setoid_rewrite <- list_elem_of_In. setoid_rewrite elem_of_filterb. naive_solver. }
  assert ((length (filterb is_required rs) =? 0)%nat = true -> map result_name (filterb required_failed rs) = []) as Hz.
  { rewrite no_match, no_names. intros H x Hx. unfold required_failed. specialize (H x Hx). unfold is_required in H. by rewrite H. }
  unfold is_failed. unfold r, new_report. cbn [status]. clear r. rewrite aggregate_eq.
  rewrite Hreq. rewrite Hfail. rewrite <- Hskip. clearbody some_required none_failed.
  destruct (_ =? 0)%nat.
  { rewrite (Hz eq_refl). case_bool_decide; split_and!; try split; intros; destruct_and?; done. }
  clear Hz.
  destruct (map result_name (filterb required_failed rs)) as [|f fs]; [|case_bool_decide; split_and!; try split; intros; destruct_and?; done].
  destruct (map result_name (filterb is_skipped rs)) as [|x xs]; case_bool_decide as Ec.
  1: rewrite Ec.
  all: split_and!; try (split; intros; destruct_and?; done); try done; intros names [= <-].
  all: split_and!; [by apply Hreq|by apply Hfail|]; intros n; specialize (Hn n);
    rewrite ?elem_of_sort_dedup, ?elem_of_app, ?Ec, ?elem_of_nil in *; cbn [map]; rewrite ?elem_of_nil;
    try (rewrite app_comm_cons, elem_of_app); tauto.
Qed.

(** ** Plans *)

Lemma classify_fold jobs : forall plan c, foldl classify_job (plan, c) jobs =
  (plan ++ map ci_step (filterb (fun j => bool_decide (skip_reason j = None)) jobs),
   mkCompat (runnable c ++ map job_name (filterb (fun j => bool_decide (skip_reason j = None)) jobs))
     (compat_skipped c ++ omap (fun j => reason ← skip_reason j; Some (job_name j, reason)) jobs) (added_baseline c)).
Proof.
  induction jobs as [|j jobs IH]; intros plan c; [by destruct c; rewrite !app_nil_r|].
  cbn [foldl classify_job filterb List.filter omap list_omap]. unfold filterb in IH.
  destruct (skip_reason j) as [reason|]; cbn [mbind option_bind].
  - rewrite IH. cbn [runnable compat_skipped added_baseline]. by rewrite bool_decide_eq_false_2, <- app_assoc by done.
  - rewrite IH. cbn [runnable compat_skipped added_baseline]. by rewrite bool_decide_eq_true_2, <- !app_assoc by done.
Qed.

(** The optional steps of a baseline that are kept: those whose category
    nothing before them covers. *)
Fixpoint kept_baseline (covered : list StepCategory) (baseline : list GateStep) : list GateStep :=
  match baseline with
  | [] => []
  | b :: bs =>
      if required b then b :: kept_baseline covered bs
      else if bool_decide (category b ∈ covered) then kept_baseline covered bs
      else b :: kept_baseline (covered ++ [category b]) bs
  end.

Lemma baseline_fold bs : forall covered plan c, (foldl add_baseline (covered, (plan, c)) bs).2 =
  (plan ++ kept_baseline covered bs,
   mkCompat (runnable c) (compat_skipped c) (added_baseline c ++ map step_name (kept_baseline covered bs))).
Proof.
  induction bs as [|b bs IH]; intros covered plan c; [by destruct c; rewrite !app_nil_r|].
  cbn [foldl kept_baseline]. unfold add_baseline at 2. destruct (required b); [|case_bool_decide; [by rewrite IH|]].
  all: rewrite IH; cbn [runnable compat_skipped added_baseline map]; by rewrite <- !app_assoc.
Qed.

Lemma kept_required bs : forall covered, filterb required (kept_baseline covered bs) = filterb required bs.
Proof.
  induction bs as [|b bs IH]; intros covered; [done|]. cbn [kept_baseline filterb List.filter]. unfold filterb in IH.
  destruct (required b) eqn:E; [|case_bool_decide]; cbn [List.filter]; rewrite ?E, IH; done.
Qed.

Lemma kept_optional bs : forall covered b, b ∈ kept_baseline covered bs -> required b = false -> category b ∉ covered.
Proof.
  induction bs as [|x bs IH]; intros covered b; cbn [kept_baseline]; [by intros ?%not_elem_of_nil|].
  destruct (required x) eqn:E; [|case_bool_decide as Hc].
  - rewrite elem_of_cons. intros [->|Hb] Hr; [congruence|by apply IH].
  - apply IH.
  - rewrite elem_of_cons. intros [->|Hb] Hr; [done|]. specialize (IH _ _ Hb Hr). set_solver.
Qed.

(** The repository's jobs never displace a required check: the plan is the
    runnable jobs, required, followed by part of the baseline in order, with
    all its required steps; an optional one goes only where its category is
    covered; and every job is reported once, as runnable or with the reason it
    is not *)
Theorem derive_plan_exact jobs baseline :
  let '(plan, report) := derive_plan jobs baseline in
  exists added, plan = map ci_step (filterb (fun j => bool_decide (skip_reason j = None)) jobs) ++ added /\
  sublist added baseline /\ filterb required added = filterb required baseline /\
  (forall b, b ∈ added -> required b = false -> forall j, j ∈ jobs -> skip_reason j = None -> job_category j <> category b) /\
  added_baseline report = map step_name added /\
  runnable report = map job_name (filterb (fun j => bool_decide (skip_reason j = None)) jobs) /\
  compat_skipped report = omap (fun j => reason ← skip_reason j; Some (job_name j, reason)) jobs.
Proof.
  unfold derive_plan. rewrite classify_fold. cbn [runnable compat_skipped added_baseline app]. rewrite baseline_fold. cbn [runnable compat_skipped added_baseline app].
  set (js := filterb _ jobs). exists (kept_baseline (map category (map ci_step js)) baseline). split_and!; try done.
  - generalize (map category (map ci_step js)). induction baseline as [|b bs IH]; intros covered; [constructor|].
    cbn [kept_baseline]. destruct (required b); [|case_bool_decide]; by constructor.
  - apply kept_required.
  - intros b Hb Hr j Hj Hs Hc. apply kept_optional in Hb; [|done]. apply Hb. rewrite map_map. apply list_elem_of_In, in_map_iff.
    exists j. split; [done|]. apply list_elem_of_In, elem_of_filterb. by case_bool_decide.
Qed.

Definition contract (s : GateStep) : string * StepCategory * bool := (step_name s, category s, required s).

(** Whatever marker files are present, the plan for an ecosystem has the
    default's steps under the same names, categories and requirements, and
    every ecosystem requires a test and a security check *)
Theorem baseline_never_weaker eco markers :
  map contract (baseline_plan_for eco markers) = map contract (baseline_plan eco) /\
  (forall c, c ∈ [Format; Lint; Build; Test; Security] -> exists s, s ∈ baseline_plan_for eco markers /\ category s = c) /\
  (forall c, c ∈ [Lint; Test; Security] -> exists s, s ∈ baseline_plan_for eco markers /\ category s = c /\ required s = true).
Proof.
  assert (map contract (baseline_plan_for eco markers) = map contract (baseline_plan eco)) as Hm.
  { unfold baseline_plan_for. destruct (detect_package_manager eco markers) as [pm|]; [|done]. by destruct eco, pm. }
  split; [done|]. assert (forall p, existsb p (map contract (baseline_plan eco)) = true -> exists s, s ∈ baseline_plan_for eco markers /\ p (contract s) = true) as Hx.
  { intros p. rewrite existsb_elem, <- Hm. setoid_rewrite list_elem_of_In. setoid_rewrite in_map_iff. intros (x & (s & <- & Hs) & Hp). by exists s. }
  clear Hm. split; intros c Hc.
  - destruct (Hx (fun x => bool_decide (x.1.2 = c))) as (s & Hs & Hp); [|exists s; by case_bool_decide].
    apply list_elem_of_In in Hc. destruct eco; repeat (destruct Hc as [<-|Hc]; [reflexivity|]); destruct Hc.
  - destruct (Hx (fun x => bool_decide (x.1.2 = c) && x.2)) as (s & Hs & Hp).
    { apply list_elem_of_In in Hc. destruct eco; repeat (destruct Hc as [<-|Hc]; [reflexivity|]); destruct Hc. }
    apply andb_true_iff in Hp as [Hp Hr]. exists s. by case_bool_decide.
Qed.

(** ** Detection *)

(** Two lists of marker files that name the same files. *)
Definition same_files (a b : list string) : Prop := forall m, m ∈ a <-> m ∈ b.
#[export] Instance same_files_equiv : Equivalence same_files.
Proof. split; repeat intro; unfold same_files in *; naive_solver. Qed.
#[export] Instance has_proper : Proper (same_files ==> eq ==> eq) has.
Proof. intros a b H x ? <-. by apply bool_decide_ext. Qed.
#[export] Instance ecosystem_matches_proper : Proper (eq ==> same_files ==> eq) ecosystem_matches.
Proof. intros e ? <- a b H. destruct e; cbn; by rewrite !H. Qed.
#[export] Instance detect_package_manager_proper : Proper (eq ==> same_files ==> eq) detect_package_manager.
Proof. intros e ? <- a b H. destruct e; cbn; by rewrite ?H. Qed.
#[export] Instance hint_step_proper : Proper (same_files ==> eq ==> eq ==> eq) hint_step.
Proof. intros a b H out ? <- [k h] ? <-. unfold hint_step. by rewrite H. Qed.

(** What is detected does not depend on the order or the repetition of the
    marker files *)
#[export] Instance detect_repo_signals_proper : Proper (same_files ==> eq) detect_repo_signals.
Proof.
  intros a b H. unfold detect_repo_signals. assert (detect_ecosystems a = detect_ecosystems b) as ->.
  { unfold detect_ecosystems, filterb. cbn [List.filter]. by rewrite !H. }
  f_equal.
  - induction (detect_ecosystems b) as [|e es IH]; [done|]. cbn [omap list_omap]. by rewrite H, IH.
  - unfold detect_frameworks. generalize (@nil string). induction MARKER_HINTS as [|x l IH]; intros out; [done|].
    cbn [foldl]. by rewrite (hint_step_proper a b H out out eq_refl x x eq_refl).
Qed.

Lemma detect_ecosystems_iff eco markers : eco ∈ detect_ecosystems markers <-> ecosystem_matches eco markers = true.
Proof.
  unfold detect_ecosystems. rewrite elem_of_filterb. split; [by intros [? _]|]. intros H. split; [done|].
  destruct eco; set_solver.
Qed.

(** ** Running *)

Lemma elem_of_imap {A B} (f : nat -> A -> B) l y : y ∈ imap f l <-> exists i x, l !! i = Some x /\ f i x = y.
Proof. rewrite elem_of_lookup_imap. naive_solver. Qed.

Lemma outcome_counts `{GateEnv} steps mode (p : StepResult -> bool) :
  let f := fun i step => mkResult (step_name step) (required step) (step_outcome mode i step) in
  (forall x, x ∈ (run_plan steps mode).1 -> p x = false) <-> forall i step, steps !! i = Some step -> p (f i step) = false.
Proof.
  cbn [run_plan fst]. split.
  - intros Hx i step Hs. apply Hx, elem_of_imap. by exists i, step.
  - intros Hx x (i & step & Hs & <-)%elem_of_imap. by apply (Hx i).
Qed.

(** When a run exits with zero, in either mode. *)
Lemma exit_zero_iff `{GateEnv} o mode : let steps := plan o in compat_skipped (pre_run_compat o) = [] ->
  gate_exit_code mode (outcome_run o mode) = 0 <->
  (exists step, step ∈ steps /\ required step = true) /\
  forall i step, steps !! i = Some step ->
    (mode = Strict -> tool_available i (tool step) = true) /\
    (tool_available i (tool step) = true -> required step = true -> run_step i step = ExecPassed).
Proof.
  intros steps Hc. unfold outcome_run. fold steps. clearbody steps. pose proof (aggregate_eq (run_plan steps mode).1) as Ha.
  pose proof (outcome_counts steps mode is_required) as Hr. pose proof (outcome_counts steps mode required_failed) as Hf.
  pose proof (outcome_counts steps mode is_skipped) as Hs. cbv zeta in *.
  rewrite <- no_match in Hr. rewrite <- (no_names result_name) in Hf, Hs. unfold gate_exit_code, is_authoritative_pass, was_strict, is_passed, new_report.
  cbn [report_mode status]. rewrite (bool_decide_eq_true_2 _ Hc), Ha. clear Ha.
  destruct (_ =? 0)%nat.
  - assert (forall i step, steps !! i = Some step -> required step = false) as Hn by (by apply Hr). split; [by destruct mode|].
    intros [(step & Hin & Hq) _]. apply list_elem_of_lookup in Hin as [i Hi]. by rewrite (Hn i step Hi) in Hq.
  - assert (exists step, step ∈ steps /\ required step = true) as Hex.
    { destruct (existsb required steps) eqn:E; [by apply existsb_elem in E|]. assert (false = true) by
        (apply Hr; intros i step Hi; cbn; by apply (existsb_none required steps), (list_elem_of_lookup_2 _ i)). done. }
    assert ((forall i step, steps !! i = Some step -> tool_available i (tool step) = true -> required step = true -> run_step i step = ExecPassed)
      /\ (mode = Strict -> forall i step, steps !! i = Some step -> required step = true -> tool_available i (tool step) = true)
      <-> map result_name (filterb required_failed (run_plan steps mode).1) = []) as Hf'.
    { rewrite Hf. unfold required_failed. cbn [result_required outcome]. unfold step_outcome. split.
      - intros [H1 H2] i step Hi. specialize (H1 i step Hi). specialize (fun E => H2 E i step Hi).
        destruct (required step); [|done]. destruct (tool_available i (tool step)); [by rewrite H1|]. destruct mode; [by discriminate H2|done].
      - intros H1. split.
        + intros i step Hi Ht Hq. specialize (H1 i step Hi). rewrite Ht, Hq in H1. by destruct (run_step i step).
        + intros -> i step Hi Hq. specialize (H1 i step Hi). rewrite Hq in H1. by destruct (tool_available i (tool step)). }
    assert ((forall i step, steps !! i = Some step -> tool_available i (tool step) = true) -> map result_name (filterb is_skipped (run_plan steps mode).1) = []) as Hs1.
    { intros Ht. apply Hs. intros i step Hi. unfold is_skipped. cbn [outcome]. unfold step_outcome. rewrite (Ht i step Hi).
      by destruct (run_step i step). }
    assert (mode = Strict -> map result_name (filterb is_skipped (run_plan steps mode).1) = [] ->
      forall i step, steps !! i = Some step -> required step = false -> tool_available i (tool step) = true) as Hs2.
    { intros -> H0 i step Hi Hq. apply Hs with (i := i) (step := step) in H0; [|done]. unfold is_skipped in H0. cbn [outcome] in H0.
      unfold step_outcome in H0. rewrite Hq in H0. by destruct (tool_available i (tool step)). }
    clear Hr Hf Hs. split.
    + intros Hz. split; [done|].
      assert (map result_name (filterb required_failed (run_plan steps mode).1) = []) as Hf0.
      { destruct (map result_name (filterb required_failed _)); [done|]. by destruct mode. }
      rewrite Hf0 in Hz. apply Hf' in Hf0 as [H1 H2]. intros i step Hi. split; [|by apply H1]. intros ->.
      destruct (required step) eqn:Hq; [by apply (H2 eq_refl i)|]. apply (Hs2 eq_refl) with (i := i) (step := step); try done.
      by destruct (map result_name (filterb is_skipped _)).
    + intros [_ H1]. rewrite (proj1 Hf') by (split; intros; eapply H1; eauto). destruct mode.
      * rewrite Hs1; [done|]. intros i step Hi. by apply (H1 i step).
      * by destruct (map result_name (filterb is_skipped _)).
Qed.

Lemma baseline_requires eco markers : exists s, s ∈ baseline_plan_for eco markers /\ required s = true.
Proof.
  assert (existsb required (baseline_plan_for eco markers) = true) as H.
  { unfold baseline_plan_for. destruct (detect_package_manager eco markers) as [pm|]; by destruct eco; try destruct pm. }
  by apply existsb_elem in H.
Qed.

Definition ECOSYSTEM_MARKERS : list string :=
  ["Cargo.toml"; "package.json"; "pyproject.toml"; "requirements.txt"; "setup.py"; "go.mod"].

Lemma eco_markers_known m : In m ECOSYSTEM_MARKERS -> m ∈ KNOWN_MARKERS.
Proof.
  assert (forallb (fun m => bool_decide (m ∈ KNOWN_MARKERS)) ECOSYSTEM_MARKERS = true) as H by (vm_compute; reflexivity).
  intros Hm. rewrite forallb_forall in H. by eapply bool_decide_eq_true, H.
Qed.

Lemma matches_iff markers (f : string -> bool) : (forall m, In m ECOSYSTEM_MARKERS -> has markers m = f m) ->
  (exists eco, ecosystem_matches eco markers = true) <-> exists m, In m ECOSYSTEM_MARKERS /\ f m = true.
Proof.
  intros Hf. assert (forall m, In m ECOSYSTEM_MARKERS -> f m = true -> exists m', In m' ECOSYSTEM_MARKERS /\ f m' = true) as Hex by eauto.
  unfold ECOSYSTEM_MARKERS in *. split.
  - intros [eco H]. destruct eco; cbn [ecosystem_matches marker existsb] in H; rewrite !Hf in H by (cbn; auto 10).
    1,2,4: eapply Hex; [|exact H]; cbn; auto 10.
    rewrite orb_false_r, !orb_true_iff in H. destruct H as [H|[H|H]]; (eapply Hex; [|exact H]); cbn; auto 10.
  - intros (m & Hm & Ht). pose proof (Hf m Hm) as Hh. rewrite Ht in Hh.
    destruct Hm as [<-|[<-|[<-|[<-|[<-|[<-|[]]]]]]].
    1: exists Rust. 2: exists Node. 3,4,5: exists Python. 6: exists Go.
    all: cbn [ecosystem_matches marker existsb]; rewrite Hh, ?orb_true_r; reflexivity.
Qed.

Section Commands.
Context (is_file : string -> bool) (path_var : option string) (build_env : string -> string).

Lemma has_marker root m : In m ECOSYSTEM_MARKERS -> has (discover_markers is_file root) m = is_file (path_join root m).
Proof.
  intros Hm%eco_markers_known. unfold has, discover_markers. destruct (is_file (path_join root m)) eqn:E.
  - apply bool_decide_eq_true, elem_of_filterb. done.
  - apply bool_decide_eq_false. rewrite elem_of_filterb, E. by intros [? _].
Qed.

Lemma plan_requires root : (exists s, s ∈ plan (run_gate_for_root is_file path_var build_env root) /\ required s = true) <->
  exists m, In m ECOSYSTEM_MARKERS /\ is_file (path_join root m) = true.
Proof.
  cbn [run_gate_for_root plan]. set (markers := discover_markers is_file root).
  rewrite <- (matches_iff markers (fun m => is_file (path_join root m))) by (intros m; apply has_marker).
  setoid_rewrite list_elem_of_In at 1. setoid_rewrite in_concat. setoid_rewrite in_map_iff. cbn [detect_repo_signals ecosystems]. split.
  - intros (s & (l & (eco & <- & Hin) & _) & _). exists eco. apply detect_ecosystems_iff. by apply list_elem_of_In.
  - intros [eco He]. destruct (baseline_requires eco markers) as (s & Hs & Hr). exists s. split; [|done].
    eexists. split; [exists eco; split; [reflexivity|by apply list_elem_of_In, detect_ecosystems_iff]|by apply list_elem_of_In].
Qed.

(** C14: what exit status zero certifies: the directory holds a marker of an
    ecosystem, every required step of the plan whose tool is there was run, by
    the deadline, with success, and, unless the degraded mode was asked for,
    the tool of every step is there *)
Theorem gate_zero_iff is_dir root local secs process :
  let env := gate_step_env root secs in
  cmd_gate is_file path_var build_env is_dir root local false false secs process = Some (Ok 0) <->
  is_dir = true /\ (exists m, In m ECOSYSTEM_MARKERS /\ is_file (path_join root m) = true) /\
  forall i step, plan (run_gate_for_root is_file path_var build_env root) !! i = Some step ->
    (local = false -> is_Some (find_binary is_file path_var env (tool step))) /\
    (is_Some (find_binary is_file path_var env (tool step)) ->
     exists e k, run_command env step (process i step) = Some (Ran e k) /\ (required step = true -> e = ExecPassed)).
Proof.
  intros env. unfold cmd_gate. destruct is_dir; cbn [negb]; [|by split; [|intros [? _]]].
  rewrite <- plan_requires. fold env. set (o := run_gate_for_root _ _ _ root).
  set (mode := if local then LocalIterate else Strict).
  assert (mode = Strict <-> local = false) as Hmode by (by destruct local).
  assert (stopped is_file path_var env process (plan o) = None <-> forall i step, plan o !! i = Some step ->
    is_Some (find_binary is_file path_var env (tool step)) -> exists e k, run_command env step (process i step) = Some (Ran e k)) as Hst.
  { unfold stopped. rewrite find_first_None. split.
    - intros H i step Hi Hf. specialize (H (run_command env step (process i step))).
      destruct (run_command env step (process i step)) as [[e k|]|] eqn:E; [by exists e, k|..].
      all: discriminate H; apply elem_of_imap; exists i, step; split; [done|]; by rewrite bool_decide_eq_true_2.
    - intros H x (i & step & Hi & <-)%elem_of_imap. case_bool_decide as Hf; [|done]. by destruct (H i step Hi Hf) as (e & k & ->). }
  pose proof (@exit_zero_iff (path_env is_file path_var env process) o mode eq_refl) as Hz. cbv zeta in Hz.
  cbn [tool_available run_step path_env] in Hz. setoid_rewrite bool_decide_eq_true in Hz.
  destruct (stopped is_file path_var env process (plan o)) as [r|].
  - split; [intros Hx; destruct r; discriminate Hx|]. intros (_ & _ & H). discriminate (proj2 Hst). intros i step Hi Hf.
    destruct (H i step Hi) as [_ H2]. destruct (H2 Hf) as (e & k & He & _). by exists e, k.
  - pose proof (proj1 Hst eq_refl) as Hran. clear Hst.
    assert (forall b : Z, Some (Ok b) = Some (@Ok Z GateError 0) <-> b = 0) as -> by (intros b; split; [by intros [= ->]|by intros ->]).
    rewrite Hz. clear Hz. split.
    + intros [Hreq H]. split; [done|]. split; [done|]. intros i step Hi. destruct (H i step Hi) as [H1 H2].
      split; [by intros ?%Hmode; apply H1|]. intros Hf. destruct (Hran i step Hi Hf) as (e & k & He).
      exists e, k. split; [done|]. intros Hq. specialize (H2 Hf Hq). by rewrite He in H2.
    + intros (_ & Hreq & H). split; [done|]. intros i step Hi. destruct (H i step Hi) as [H1 H2].
      split; [by intros ?%Hmode; apply H1|]. intros Hf Hq. destruct (H2 Hf) as (e & k & -> & He). by apply He.
Qed.
End Commands.

(** ** One step's process *)

(** A polled process ends within the timeout's polls: the clock advances by an
    interval between two readings, or the process ends before.  It passes only
    when it exited with success while every reading before stood under the
    deadline, and is killed only at or after the deadline *)
Theorem run_command_ends env step p timeout : step_timeout env = Some timeout -> 0 <= timeout -> clock p 0 + timeout <= INSTANT_MAX ->
  clock p 0 <= clock p 1 -> (forall k, clock p (S k) + POLL_INTERVAL <= clock p (S (S k))) ->
  exists e killed, run_command env step p = Some (Ran e killed) /\
  (e = ExecPassed -> command step <> [] /\ spawns p = true /\ exists k, polled p k = Exited true /\
     forall j, (j < k)%nat -> polled p j = StillRunning /\ clock p (S j) < clock p 0 + timeout) /\
  (killed = true -> e = ExecFailed /\ exists k, polled p k = StillRunning /\ clock p 0 + timeout <= clock p (S k) /\
     forall j, (j < k)%nat -> clock p (S j) < clock p 0 + timeout).
Proof.
  intros Ht Hpos Hmax H0 Hstep. unfold run_command. destruct (command step) as [|c cs]; [by eexists _, _|].
  rewrite Ht. destruct (spawns p); cbn [negb]; [|by eexists _, _].
  rewrite (proj2 (Z.ltb_ge _ _) Hmax). set (d := clock p 0 + timeout).
  assert (forall k, clock p 0 + Z.of_nat k * POLL_INTERVAL <= clock p (S k)) as Hclock.
  { induction k as [|k IH]; [lia|]. specialize (Hstep k). lia. }
  assert (forall fuel k, (forall j, (j < k)%nat -> polled p j = StillRunning /\ clock p (S j) < d) ->
    timeout / POLL_INTERVAL + 1 < Z.of_nat (k + fuel) -> (k <= Z.to_nat (timeout / POLL_INTERVAL + 1))%nat ->
    exists e killed, poll_step fuel k d p = Some (Ran e killed) /\
    (e = ExecPassed -> exists k, polled p k = Exited true /\ forall j, (j < k)%nat -> polled p j = StillRunning /\ clock p (S j) < d) /\
    (killed = true -> e = ExecFailed /\ exists k, polled p k = StillRunning /\ d <= clock p (S k) /\
      forall j, (j < k)%nat -> clock p (S j) < d)) as Hpoll.
  { assert (0 <= timeout / POLL_INTERVAL) as Hq by (apply Z.div_pos; unfold POLL_INTERVAL; lia).
    induction fuel as [|fuel IH]; intros k Hk Hf Hle; [lia|]. cbn [poll_step].
    destruct (polled p k) as [[]| |] eqn:E.
    - exists ExecPassed, false. split; [done|]. split; [|done]. intros _. by exists k.
    - by exists ExecFailed, false.
    - destruct (d <=? clock p (S k)) eqn:Ed.
      + apply Z.leb_le in Ed. exists ExecFailed, true. split; [done|]. split; [done|]. intros _. split; [done|].
        exists k. split; [done|]. split; [done|]. intros j Hj. by apply Hk.
      + apply Z.leb_gt in Ed. apply IH; [|lia|].
        * intros j Hj. destruct (decide (j = k)) as [->|]; [done|]. apply Hk. lia.
        * specialize (Hclock k). unfold d in Ed. assert (Z.of_nat k < timeout / POLL_INTERVAL + 1); [|lia].
          unfold POLL_INTERVAL in *. div_lia.
    - by exists ExecFailed, false. }
  destruct (Hpoll (poll_fuel timeout) 0%nat) as (e & killed & He & Hp & Hk); [lia| |lia|].
  { unfold poll_fuel. assert (0 <= timeout / POLL_INTERVAL) by (apply Z.div_pos; unfold POLL_INTERVAL; lia). lia. }
  exists e, killed. split; [done|]. split; [|done]. intros H. by split_and!; [| |apply Hp].
Qed.

Definition wedged : StepProcess := mkProcess true None (fun _ => StillRunning) (fun k => 20 * Z.of_nat k).
Definition env_60 : PathEnv := mkPathEnv [] None (Some 60).
Definition lint_step : GateStep := mkStep "lint" Lint ["npm"; "run"; "lint"] "npm" true.
Lemma run_command_ends_witness : exists e killed, run_command env_60 lint_step wedged = Some (Ran e killed) /\ killed = true /\
  (e = ExecPassed -> command lint_step <> [] /\ spawns wedged = true /\ exists k, polled wedged k = Exited true /\
     forall j, (j < k)%nat -> polled wedged j = StillRunning /\ clock wedged (S j) < clock wedged 0 + 60).
Proof.
  destruct (run_command_ends env_60 lint_step wedged 60 eq_refl ltac:(lia) ltac:(vm_compute; discriminate) ltac:(vm_compute; discriminate)
    ltac:(intros k; unfold wedged, POLL_INTERVAL; cbn [clock]; lia)) as (e & killed & H & Hp & _).
  exists e, killed. split; [exact H|]. split; [|exact Hp]. vm_compute in H. injection H as _ <-. reflexivity.
Defined.

(** A timeout past the largest instant takes the whole command down *)
Lemma huge_timeout_panics env step p timeout : step_timeout env = Some timeout -> command step <> [] -> spawns p = true ->
  INSTANT_MAX < clock p 0 + timeout -> run_command env step p = Some Panicked.
Proof.
  intros Ht Hc Hs Hm. unfold run_command. destruct (command step); [done|]. rewrite Ht, Hs. cbn [negb].
  by rewrite (proj2 (Z.ltb_lt _ _) Hm).
Qed.

(** ** The probe and the report *)

(** Every tool of the plan is probed, once, in the order of its first use, and
    is reported present exactly when it was found *)
Theorem probe_exact is_file path_var steps env lookup :
  let ps := probe_tools is_file path_var steps env lookup in
  NoDup (map probe_tool ps) /\ (forall t, t ∈ map probe_tool ps <-> t ∈ map tool steps) /\
  sublist (map probe_tool ps) (map tool steps) /\
  forall p, p ∈ ps -> resolved_path p = find_binary is_file path_var env (probe_tool p) /\
    (present p = true <-> is_Some (resolved_path p)).
Proof.
  cbv zeta. unfold probe_tools.
  assert (forall seen out, seen = map probe_tool out -> NoDup seen ->
    (forall p, p ∈ out -> resolved_path p = find_binary is_file path_var env (probe_tool p) /\ (present p = true <-> is_Some (resolved_path p))) ->
    let r := (foldl (probe_step is_file path_var env lookup) (seen, out) steps).2 in
    NoDup (map probe_tool r) /\ (forall t, t ∈ map probe_tool r <-> t ∈ seen \/ t ∈ map tool steps) /\
    (exists more, map probe_tool r = seen ++ more /\ sublist more (map tool steps)) /\
    forall p, p ∈ r -> resolved_path p = find_binary is_file path_var env (probe_tool p) /\ (present p = true <-> is_Some (resolved_path p))) as Hfold.
  { induction steps as [|st steps IH]; intros seen out -> Hnd Hp.
    - cbn. split_and!; [done|intros t; rewrite elem_of_nil; tauto| |done]. exists []. by rewrite app_nil_r.
    - cbn [foldl map probe_step]. case_bool_decide as Hin.
      + destruct (IH _ _ eq_refl Hnd Hp) as (H1 & H2 & (more & H3 & H4) & H5). split_and!; [done| | |done].
        * intros t. rewrite H2, elem_of_cons. split; [tauto|]. intros [?|[->|?]]; tauto.
        * exists more. split; [done|]. by apply sublist_cons.
      + match goal with |- context [foldl _ (_, out ++ [?q]) steps] => set (x := q) end.
        destruct (IH (map probe_tool out ++ [tool st]) (out ++ [x])) as (H1 & H2 & (more & H3 & H4) & H5).
        * by rewrite map_app.
        * apply NoDup_app. split_and!; [done|set_solver|apply NoDup_singleton].
        * intros p [Hq| ->%list_elem_of_singleton]%elem_of_app; [by apply Hp|]. cbn [x resolved_path probe_tool present].
          split; [done|]. apply bool_decide_eq_true.
        * split_and!; [done| | |done].
          -- intros t. rewrite H2, elem_of_app, !elem_of_cons, elem_of_nil. tauto.
          -- exists (tool st :: more). rewrite H3, <- app_assoc. split; [done|]. by apply sublist_skip. }
  destruct (Hfold [] [] eq_refl) as (H1 & H2 & (more & H3 & H4) & H5); [constructor|by intros p ?%not_elem_of_nil|].
  split_and!; [done| |by rewrite H3|done]. intros t. rewrite H2. set_solver.
Qed.

(** The printed report leaves nothing out: it holds the headline, a line for
    every step, and one with the reason for every job left to the upstream *)
Theorem pretty_shows_all r :
  (exists rest, to_pretty r = headline r +:+ nl +:+ rest) /\
  (forall x, x ∈ results r -> exists a b, to_pretty r = a +:+ step_line x +:+ b) /\
  (forall job, job ∈ compat_skipped (compatibility r) -> exists a b, to_pretty r = a +:+ skipped_line job +:+ b).
Proof.
  split_and!.
  - unfold to_pretty, pretty_parts. cbn [app join]. eexists. by rewrite str_app_assoc.
  - intros x Hx. apply join_piece. unfold pretty_parts. rewrite !elem_of_app. right. left. apply list_elem_of_In, in_map_iff.
    exists x. split; [done|]. by apply list_elem_of_In.
  - intros job Hj. apply join_piece. unfold pretty_parts. destruct (compat_skipped (compatibility r)) as [|j js]; [by apply not_elem_of_nil in Hj|].
    rewrite !elem_of_app. right. right. right. right. left. apply list_elem_of_In, in_map_iff. exists job. split; [done|]. by apply list_elem_of_In.
Qed.

(** The counts of the one-line report add up *)
Lemma compact_counts r : (step_count is_required r + step_count is_optional r = length (results r))%nat /\
  (step_count passed_required r <= step_count is_required r)%nat /\ (step_count optional_passed r <= step_count is_optional r)%nat.
Proof.
  unfold step_count, filterb, is_required, is_optional, passed_required, optional_passed.
  induction (results r) as [|x l (IH1 & IH2 & IH3)]; [done|]. cbn [List.filter].
  destruct (result_required x), (outcome x); cbn [negb andb length]; lia.
Qed.

(** *** What the comments say differently *)

Definition bare_machine : GateEnv := {| tool_available _ _ := false; run_step _ _ := ExecFailed |}.

(** When no required check could run the verdict is yellow, not inconclusive,
    and the degraded mode exits with zero *)
Lemma nothing_ran_is_yellow :
  let r := new_report (@run_plan bare_machine (baseline_plan Rust) LocalIterate).1 (mkCompat [] [] []) LocalIterate in
  passed_required_names r = [] /\ status r = Yellow ["fmt"; "clippy"; "build"; "test"; "deny"; "audit"] /\
  gate_exit_code LocalIterate r = 0.
Proof. split_and!; reflexivity. Qed.

(** A strict run with nothing missing but the tools of its optional checks, and
    every required check passed, is yellow and exits with one *)
Definition required_machine : GateEnv :=
  {| tool_available i _ := match baseline_plan Rust !! i with Some s => required s | None => false end; run_step _ _ := ExecPassed |}.
Lemma strict_yellow_exits_one :
  let r := new_report (@run_plan required_machine (baseline_plan Rust) Strict).1 (mkCompat [] [] []) Strict in
  (exists names, status r = Yellow names) /\ forallb result_required (results r) = false /\
  Forall (fun x => result_required x = true -> outcome x = Passed) (results r) /\
  gate_exit_code Strict r = 1.
Proof. split_and!; [eexists; reflexivity|reflexivity| |reflexivity]. repeat constructor. all: cbn; discriminate. Qed.

(** An optional check is dropped because of another optional check: of two
    ecosystems only the first is checked for its format *)
Lemma second_optional_dropped :
  map tool (filterb (fun s => bool_decide (category s = Format)) (derive_plan [] (baseline_plan Node ++ baseline_plan Python)).1) = ["npx"].
Proof. reflexivity. Qed.

(** Skipped steps of two ecosystems under one name are named once as soon as a
    job was left out as well *)
Lemma same_named_skips_merged :
  let rs := [mkResult "fmt" false (Skipped "a"); mkResult "fmt" false (Skipped "b"); mkResult "test" true Passed] in
  status (new_report rs (mkCompat [] [] []) Strict) = Yellow ["fmt"; "fmt"] /\
  status (new_report rs (mkCompat [] [("deploy", "c")] []) Strict) = Yellow ["deploy"; "fmt"].
Proof. split; reflexivity. Qed.

(** The hook file of pnpm alone does not select pnpm *)
Lemma pnpmfile_not_detected : detect_package_manager Node ["package.json"; ".pnpmfile.cjs"] = None.
Proof. reflexivity. Qed.

(** Required tools of the plans that the catalog does not have *)
Lemma required_tools_unmanaged env : exists s, s ∈ baseline_plan Python /\ required s = true /\ tool s = "ruff" /\
  lookup_get (default_bundle env) (tool s) = None /\ get_by_binary (default_bundle env) (tool s) = None.
Proof. eexists. split; [right; left|]. split_and!; reflexivity. Qed.

(** A missing required tool of the catalog fails without a reason, and an
    optional one is skipped without its installation hint *)
Lemma hint_not_attached env : map outcome (@run_plan bare_machine (baseline_plan Rust) Strict).1
    = [Failed; Failed; Failed; Failed; Failed; Skipped "tool `cargo-audit` not available"] /\
  hint_for_missing "cargo-audit" (default_bundle env) <> bare_reason "cargo-audit".
Proof. split; [reflexivity|]. cbn. discriminate. Qed.
