(* ===== verification/DiffScope.v ===== *)
(** The change a review is given (crates/zoder-cli/src/agentic.rs): the capped
    reading of a git command's output, the scope and its base, the untracked
    files rendered as new files, the snapshots of the working tree and the
    journal that isolates a task's own edits, and the author of the last
    commit.

    git is a function from arguments to output; one record of readings stands
    for the repository during one capture.  Texts are their bytes: the lossy
    decoding of a character cut at the cap is not modelled. *)
From stdpp Require Import base list strings.
From S2P Require Import Prelude Policy Text Substance Failure ReviewDiff.
Local Open Scope string_scope.
Local Open Scope Z_scope.
Local Open Scope list_scope.
Local Open Scope zoder_scope.

Definition eol2 : string := String newline "".

(** ** Reading the output of a child *)

Definition MAX_GIT_DIFF_BYTES : Z := 1048576.
Definition MAX_GIT_STDERR_BYTES : Z := 65536.
Record CappedRead := mkCappedRead { cr_bytes : string; cr_limit_reached : bool }.
Definition take_bytes (n : Z) (s : string) : string := str_take (Z.to_nat n) s.
(** What the reads of a pipe give: pieces, then the end or an error.  An empty
    piece is the end. *)
Fixpoint read_to_byte_cap (reads : list (result string string)) (bytes : string) (remaining : Z) : result CappedRead string :=
  if remaining <=? 0 then Ok (mkCappedRead bytes true)
  else match reads with
       | [] => Ok (mkCappedRead bytes false)
       | Err e :: _ => Err e
       | Ok piece :: reads =>
           if str_is_empty piece then Ok (mkCappedRead bytes false)
           else let got := take_bytes remaining piece in read_to_byte_cap reads (bytes +:+ got) (remaining - len got)
       end.
Fixpoint drain_to_byte_cap (reads : list (result string string)) (max : Z) (bytes : string) (limit : bool) : result CappedRead string :=
  match reads with
  | [] => Ok (mkCappedRead bytes limit)
  | Err e :: _ => Err e
  | Ok piece :: reads =>
      if str_is_empty piece then Ok (mkCappedRead bytes limit)
      else
        let remaining := Z.max 0 (max - len bytes) in
        if remaining =? 0 then drain_to_byte_cap reads max bytes true
        else
          let keep := Z.min remaining (len piece) in
          let bytes := bytes +:+ take_bytes keep piece in
          drain_to_byte_cap reads max bytes (limit || (keep <? len piece) || (len bytes =? max))
  end.
(** A git child: whether it starts, what its pipes give, whether it still runs
    when the cap is reached, and how it ends. *)
Record GitChild := mkGitChild {
  gc_started : result unit string;
  gc_stdout : list (result string string);
  gc_stderr : list (result string string);
  gc_running : result bool string;
  gc_killed : result unit string;
  gc_success : bool
}.
Record CappedGitOutput := mkCappedGit { cg_stdout : string; cg_limit_reached : bool }.
Definition git_text (args : list string) : string := join " " args.
Definition stderr_text (r : CappedRead) : string :=
  let err := trim (cr_bytes r) in
  if cr_limit_reached r then
    err +:+ (if str_is_empty err then "" else " ") +:+ "[stderr truncated at " +:+ show_u MAX_GIT_STDERR_BYTES +:+ " bytes]"
  else err.
Definition run_git_capped (args : list string) (child : GitChild) (max_stdout : Z) : result CappedGitOutput string :=
  let? _ := gc_started child in
  let? out := read_to_byte_cap (gc_stdout child) "" max_stdout in
  let? running := if cr_limit_reached out then gc_running child else Ok false in
  let killed := cr_limit_reached out && running in
  let? _ := if killed then gc_killed child else Ok tt in
  let? err := drain_to_byte_cap (gc_stderr child) MAX_GIT_STDERR_BYTES "" false in
  if (negb killed && gc_success child) || (cr_limit_reached out && killed) then Ok (mkCappedGit (cr_bytes out) (cr_limit_reached out))
  else Err ("git " +:+ git_text args +:+ " failed: " +:+ stderr_text err).
Definition with_newline (s : string) : string := if ends_with eol2 s then s else s +:+ eol2.
Definition render_capped_git_diff (capped : CappedGitOutput) (max_stdout : Z) : string :=
  if cg_limit_reached capped then
    with_newline (cg_stdout capped) +:+ eol2 +:+ "...[git diff truncated during acquisition at " +:+ show_u max_stdout +:+ " bytes]..." +:+ eol2
  else cg_stdout capped.
Definition diff_is_truncated (diff : string) : bool := str_contains DIFF_ACQUISITION_TRUNCATION_MARKER diff.
Definition truncated_diff_refusal (max_bytes : Z) : string :=
  "the review diff was truncated during acquisition at " +:+ show_u max_bytes
  +:+ " bytes, so the tail of the change was never captured; refusing to review (or approve) a partial diff. Narrow the scope (--scope working-tree, a nearer --base), exclude generated files (--exclude <glob>), or review the change in pieces".

(** ** The repository *)

Inductive PathKind := KindAbsent | KindFile | KindDir | KindOther.
#[export] Instance path_kind_eq_dec : EqDecision PathKind.
Proof. solve_decision. Defined.
Record SnapshotReads := mkSnapshot {
  sn_index_path : result string string;
  sn_index_exists : bool;
  sn_copied : bool;
  sn_added : bool;
  sn_tree : result string string
}.
(** [rg_child] is the child of a capped diff, [rg_no_index] the exit code and
    the output of [git diff --no-index] for one file, when it could be run. *)
Record Repo := mkRepo {
  rg_git : list string -> result string string;
  rg_child : list string -> GitChild;
  rg_kind : string -> PathKind;
  rg_no_index : string -> option (option Z * string);
  rg_bytes : string -> option string;
  rg_entries : string -> option (list string);
  rg_snapshot : SnapshotReads
}.
Inductive ReviewScope := ScopeAuto | ScopeWorkingTree | ScopeBranch.

Section Capture.
Context (g : Repo).
Definition run_git (args : list string) : option string := match rg_git g args with Ok s => Some s | Err _ => None end.
Definition run_git_diff (args : list string) : result string string :=
  let? capped := run_git_capped args (rg_child g args) MAX_GIT_DIFF_BYTES in Ok (render_capped_git_diff capped MAX_GIT_DIFF_BYTES).
Definition or_nothing (r : result string string) : string := match r with Ok s => s | Err _ => "" end.
Definition is_dirty : bool := match run_git ["status"; "--porcelain"] with Some s => negb (str_is_empty (trim s)) | None => false end.

(** ** The base *)

Definition BASE_CANDIDATES : list string := ["@{upstream}"; "origin/HEAD"; "origin/main"; "main"; "master"].
Definition nonempty_trimmed (s : option string) : option string := opt_filter (fun t => negb (str_is_empty t)) (trim <$> s).
Definition detect_base (base : option string) : string :=
  match base with
  | Some b => b
  | None => default "HEAD" (find_map (fun c => nonempty_trimmed (run_git ["merge-base"; "HEAD"; c])) BASE_CANDIDATES)
  end.
Definition rev_parse (rev : string) : option string := nonempty_trimmed (run_git ["rev-parse"; rev]).
Definition load_zoderignore (root_file : option string) : list string := match root_file with Some raw => parse_zoderignore raw | None => [] end.
Definition load_zoderignore_at (rev : string) : list string :=
  match run_git ["show"; rev +:+ ":.zoderignore"] with Some raw => parse_zoderignore raw | None => [] end.
(** [root_file] is the file of the working tree. *)
Definition review_zoderignore_patterns (root_file : option string) (scope : ReviewScope) (base : option string) : list string :=
  let use_base := match scope with ScopeWorkingTree => false | ScopeBranch => true | ScopeAuto => negb is_dirty end in
  if use_base then load_zoderignore_at (detect_base base) else load_zoderignore root_file.
Definition empty_branch_label (scope : ReviewScope) (base : option string) (label diff : string) : string :=
  let applies := match scope with ScopeWorkingTree => false | _ => true end in
  if negb applies || negb (str_is_empty (trim diff)) then label
  else match rev_parse "HEAD" with
       | None => label
       | Some head_ =>
           let rev := detect_base base in
           if bool_decide (rev_parse rev = Some head_) then label +:+ "; the base " +:+ rev +:+ " is HEAD, so the range is empty" else label
       end.
Definition empty_diff_hides_uncommitted_work (scope : ReviewScope) (label diff : string) : option string :=
  match scope with
  | ScopeBranch =>
      if negb (str_is_empty (trim diff)) then None
      else if is_dirty then
        Some ("the " +:+ label +:+ " diff is empty but the working tree has uncommitted changes; no reviewer was called. Pass --scope working-tree (or --scope auto) to review them, or commit them first")
      else None
  | _ => None
  end.
(** The top of the repository, when git names one. *)
Definition repo_root (cwd : string) : string := default cwd (nonempty_trimmed (run_git ["rev-parse"; "--show-toplevel"])).

(** ** Untracked files *)

Definition new_file_header (rel : string) : string :=
  "diff --git a/" +:+ rel +:+ " b/" +:+ rel +:+ eol2 +:+ "new file mode 100644" +:+ eol2 +:+ "--- /dev/null" +:+ eol2 +:+ "+++ b/" +:+ rel +:+ eol2.
Definition lines_with (prefix_ : string) (ls : list string) : string := join "" (map (fun l => prefix_ +:+ l +:+ eol2) ls).
Fixpoint from_hunk (ls : list string) : list string :=
  match ls with
  | [] => []
  | l :: rest => if starts_with "@@ " l || starts_with "Binary files " l then ls else from_hunk rest
  end.
Definition rewrite_no_index_hunk (stdout rel : string) : string := new_file_header rel +:+ lines_with "" (from_hunk (lines stdout)).
Definition nul : ascii := Ascii.ascii_of_nat 0.
Definition synthetic_new_file_hunk (rel : string) : string :=
  match rg_bytes g rel with
  | None => ""
  | Some text =>
      new_file_header rel +:+
      (if str_has nul text then "@@ -0,0 +1 @@" +:+ eol2 +:+ "Binary files /dev/null and b/" +:+ rel +:+ " differ" +:+ eol2
       else if str_is_empty text then "@@ -0,0 +0,0 @@" +:+ eol2
       else "@@ -0,0 +1," +:+ show_u (Z.of_nat (length (lines text))) +:+ " @@" +:+ eol2 +:+ lines_with "+" (lines text))
  end.
Definition render_untracked_file_hunk (rel : string) : string :=
  match rg_kind g rel with
  | KindDir | KindOther => ""
  | _ =>
      match rg_no_index g rel with
      | Some (code, stdout) => if default (-1) code <=? 1 then rewrite_no_index_hunk stdout rel else synthetic_new_file_hunk rel
      | None => synthetic_new_file_hunk rel
      end
  end.
Definition append_piece (out piece : string) : string :=
  if str_is_empty piece then out else with_newline ((if str_is_empty out then "" else with_newline out) +:+ piece).
Definition rel_join (rel name : string) : string := if ends_with "/" rel then rel +:+ name else rel +:+ "/" +:+ name.
Fixpoint render_untracked_dir_hunk (fuel : nat) (rel : string) : string :=
  match fuel with
  | O => ""
  | S fuel =>
      match rg_entries g rel with
      | None => ""
      | Some names =>
          foldl append_piece "" (map (fun name =>
            let child := rel_join rel name in
            match rg_kind g child with
            | KindDir => render_untracked_dir_hunk fuel child
            | KindFile => render_untracked_file_hunk child
            | _ => ""
            end) (sort_by String.compare names))
      end
  end.
Definition untracked_listing : option string := run_git ["ls-files"; "--others"; "--exclude-standard"; "-z"].
Definition nul_entries (s : string) : list string := filterb (fun e => negb (str_is_empty e)) (split_on nul s).
Definition untracked_piece (fuel : nat) (raw : string) : string :=
  if starts_with ".git/" raw || bool_decide (raw = ".git") then ""
  else if ends_with "/" raw then render_untracked_dir_hunk fuel raw
  else if bool_decide (rg_kind g raw = KindFile) then render_untracked_file_hunk raw
  else "".
Definition untracked_not_ignored_diff (fuel : nat) : string :=
  match untracked_listing with
  | None => ""
  | Some listing => foldl append_piece "" (map (untracked_piece fuel) (nul_entries listing))
  end.

(** ** The change of a scope *)

Definition build_diff (fuel : nat) (scope : ReviewScope) (base : option string) : result (string * string) string :=
  match (match scope with ScopeAuto => if is_dirty then ScopeWorkingTree else ScopeBranch | s => s end) with
  | ScopeBranch =>
      let b := detect_base base in
      let? d := run_git_diff ["diff"; b +:+ "...HEAD"] in Ok ("branch (base " +:+ b +:+ ")", d)
  | _ =>
      let d := or_nothing (run_git_diff ["diff"; "HEAD"]) in
      let d := if str_is_empty (trim d)
               then or_nothing (run_git_diff ["diff"; "--cached"]) +:+ eol2 +:+ or_nothing (run_git_diff ["diff"])
               else d in
      let untracked := untracked_not_ignored_diff fuel in
      Ok ("working-tree", if str_is_empty untracked then d else (if str_is_empty d then d else with_newline d) +:+ untracked)
  end.

(** ** Snapshots and the journal *)

Definition snapshot_tree : option string :=
  let r := rg_snapshot g in
  match sn_index_path r with
  | Err _ => None
  | Ok _ =>
      if sn_index_exists r && negb (sn_copied r) then None
      else if negb (sn_added r) then None
      else match sn_tree r with Ok t => nonempty_trimmed (Some t) | Err _ => None end
  end.
Record Baseline := mkBaseline { head_sha : string; tracked : list string; untracked : list string }.
Record TurnPatch := mkTurnPatch { tp_iter : nat; tp_diff : string; tp_touched : list string; tp_substance : DiffSubstance }.
Record PatchJournal := mkJournal { pj_baseline : option Baseline; pj_baseline_tree : option string; pj_turns : list TurnPatch }.
Definition journal_new : PatchJournal := mkJournal None None [].
Definition trim_slash (s : string) : string := trim_end_matches (Ascii.eqb "/") s.
Definition baseline_untracked (s : string) : list string :=
  filterb (fun p => negb (str_is_empty p) && negb (starts_with ".git/" p)) (map trim_slash (nul_entries s)).
Definition record_baseline (j : PatchJournal) : PatchJournal :=
  mkJournal
    (Some (mkBaseline (default "" (rev_parse "HEAD")) (default [] (lines <$> run_git ["ls-files"]))
       (default [] (baseline_untracked <$> untracked_listing))))
    snapshot_tree (pj_turns j).
Definition record_turn (j : PatchJournal) (iter : nat) (diff : string) (touched : list string) (substance : DiffSubstance) : PatchJournal :=
  mkJournal (pj_baseline j) (pj_baseline_tree j) (pj_turns j ++ [mkTurnPatch iter diff touched substance]).
Definition clear (j : PatchJournal) : PatchJournal := mkJournal (pj_baseline j) (pj_baseline_tree j) [].
Definition turn_diff (j : PatchJournal) (iter : nat) : option string := tp_diff <$> find_first (fun t => (tp_iter t =? iter)%nat) (pj_turns j).
Definition files_touched (j : PatchJournal) : list string := sort_by String.compare (remove_dups (concat (map tp_touched (pj_turns j)))).
(** New untracked files, when there is no snapshot. *)
Definition new_untracked (b : Baseline) : list string :=
  filterb (fun f => negb (bool_decide (f ∈ untracked b)))
    (filterb (fun e => negb (starts_with ".git/" e) && negb (ends_with "/" e)) (default [] (nul_entries <$> untracked_listing))).
Definition agent_diff (j : PatchJournal) : string :=
  match pj_baseline j with
  | None => default "" (tp_diff <$> last (pj_turns j))
  | Some b =>
      match pj_baseline_tree j with
      | Some tree =>
          match snapshot_tree with
          | Some current => or_nothing (run_git_diff ["diff"; tree; current])
          | None => ""
          end
      | None =>
          let base := match run_git ["diff"; head_sha b] with Some out => if str_is_empty (trim out) then "" else out | None => "" end in
          foldl append_piece base (map (fun f => if bool_decide (rg_kind g f = KindDir) then "" else render_untracked_file_hunk f) (new_untracked b))
      end
  end.
Record LoopStartState := mkLoopStart { ls_tree : option string; ls_dirty : bool }.
Definition loop_start_state : LoopStartState := mkLoopStart snapshot_tree is_dirty.
Definition loop_snapshot_diff (start_tree : string) : result string string :=
  match snapshot_tree with
  | None => Err ("working-tree snapshot failed while computing the loop delta from " +:+ start_tree +:+ "; refusing to review a partial delta")
  | Some current => run_git_diff ["diff"; start_tree; current]
  end.
Definition COMMITTED_LABEL : string := "task (working tree empty: author committed mid-turn)".
Definition loop_task_diff (fuel : nat) (scope : ReviewScope) (base : option string) (start : option LoopStartState) (task : PatchJournal) :
  result (string * string) string :=
  match scope with
  | ScopeAuto =>
      match pj_baseline_tree task with
      | None => Err "task baseline snapshot unavailable"
      | Some _ => Ok ("task", agent_diff task)
      end
  | ScopeWorkingTree =>
      let? captured := build_diff fuel scope base in
      let '(label, diff) := captured in
      if diff_has_content diff || bool_decide (pj_baseline_tree task = None) then Ok (label, diff)
      else
        let t := agent_diff task in
        if diff_has_content t then Ok (COMMITTED_LABEL, t) else Ok (label, diff)
  | ScopeBranch =>
      match base, start ≫= ls_tree with
      | Some b, _ => build_diff fuel scope (Some b)
      | None, Some tree =>
          let? d := loop_snapshot_diff tree in Ok ("branch (base " +:+ tree +:+ " = loop start working-tree snapshot)", d)
      | None, None =>
          Err "loop start snapshot unavailable; refusing to review a delta that could include pre-existing working-tree changes"
      end
  end.

(** ** The author of the last commit *)

Inductive CommitAuthorEnforcement :=
| NoCommit
| AlreadyCorrect (current : string)
| NoConfiguredIdentity
| Corrected (from_ to_ : string)
| EnforceFailed (reason : string).
(** How [git commit --amend] ends: its status, or why it did not start. *)
Inductive AmendEnd := AmendDone | AmendExited (status : string) | AmendSpawn (e : string).
Definition enforce_repo_commit_author (amend : string -> AmendEnd) : CommitAuthorEnforcement * list string :=
  match rev_parse "HEAD" with
  | None => (NoCommit, [])
  | Some _ =>
      match nonempty_trimmed (run_git ["config"; "user.name"]), nonempty_trimmed (run_git ["config"; "user.email"]) with
      | Some name, Some email =>
          let desired := name +:+ " <" +:+ email +:+ ">" in
          match rg_git g ["log"; "-1"; "--format=%an <%ae>"] with
          | Err e => (EnforceFailed ("reading HEAD author: " +:+ e), [])
          | Ok s =>
              let current := trim s in
              if bool_decide (current = desired) then (AlreadyCorrect current, [])
              else
                (match amend desired with
                 | AmendDone => Corrected current desired
                 | AmendExited st => EnforceFailed ("`git commit --amend` exited " +:+ st)
                 | AmendSpawn e => EnforceFailed ("spawning `git commit --amend`: " +:+ e)
                 end, [desired])
          end
      | _, _ => (NoConfiguredIdentity, [])
      end
  end.
(** The pass of one iteration, when the turn moved HEAD. *)
Definition enforce_after_turn (amend : string -> AmendEnd) (prev_head : option string) : option (CommitAuthorEnforcement * list string) :=
  if bool_decide (rev_parse "HEAD" = prev_head) then None else Some (enforce_repo_commit_author amend).
End Capture.

(** * Theorems *)

(** ** The cap *)

(** What the pipe gives until its end. *)
Fixpoint pipe_text (reads : list (result string string)) : result string string :=
  match reads with
  | [] => Ok ""
  | Err e :: _ => Err e
  | Ok piece :: reads => if str_is_empty piece then Ok "" else let? rest := pipe_text reads in Ok (piece +:+ rest)
  end.
Lemma take_bytes_all n s : len s <= n -> take_bytes n s = s.
Proof.
  unfold take_bytes, len. intros Hn. assert (String.length s <= Z.to_nat n)%nat as H by lia. generalize dependent (Z.to_nat n). clear. induction s as [|c s IH]; intros [|n] H; cbn in *; try done; [lia|].
  f_equal. apply IH. lia.
Qed.
Lemma take_bytes_nil n : take_bytes n "" = "".
Proof. unfold take_bytes. by destruct (Z.to_nat n). Qed.
Lemma take_bytes_len n s : 0 <= n <= len s -> len (take_bytes n s) = n.
Proof. unfold take_bytes, len. intros H. rewrite str_take_length; lia. Qed.
Lemma take_bytes_app n a b : 0 <= n -> take_bytes n (a +:+ b) = take_bytes (Z.min n (len a)) a +:+ take_bytes (n - len a) b.
Proof.
  intros Hn. unfold take_bytes, len. revert n Hn. induction a as [|c a IH]; intros n Hn.
  - cbn [String.length]. rewrite str_nil_app. replace (Z.to_nat (Z.min n (Z.of_nat 0))) with 0%nat by lia. cbn [str_take]. rewrite str_nil_app. f_equal. lia.
  - destruct (Z.eq_dec n 0) as [->|Hz].
    + replace (Z.to_nat (Z.min 0 (Z.of_nat (String.length (String c a))))) with 0%nat by lia. replace (Z.to_nat (0 - Z.of_nat (String.length (String c a)))) with 0%nat by (cbn; lia).
      by destruct b.
    + specialize (IH (n - 1) ltac:(lia)). rewrite str_app_cons. replace (Z.to_nat n) with (S (Z.to_nat (n - 1))) by lia. cbn [str_take]. rewrite IH.
      replace (Z.to_nat (Z.min n (Z.of_nat (String.length (String c a))))) with (S (Z.to_nat (Z.min (n - 1) (Z.of_nat (String.length a))))) by (cbn [String.length]; lia).
      cbn [str_take]. rewrite str_app_cons. do 2 f_equal. f_equal. cbn [String.length]. lia.
Qed.
Lemma read_to_byte_cap_exact reads : forall bytes remaining all, pipe_text reads = Ok all -> 0 <= remaining ->
  read_to_byte_cap reads bytes remaining = Ok (mkCappedRead (bytes +:+ take_bytes remaining all) (remaining <=? len all)).
Proof.
  induction reads as [|[piece|e] reads IH]; intros bytes remaining all Hp Hr; cbn [read_to_byte_cap].
  - injection Hp as <-. rewrite take_bytes_nil, str_app_nil. change (len "") with 0. by destruct (remaining <=? 0).
  - cbn [pipe_text] in Hp. destruct (remaining <=? 0) eqn:E.
    { replace remaining with 0 by lia. unfold take_bytes. cbn. rewrite str_app_nil. pose proof (len_nonneg all). by rewrite (proj2 (Z.leb_le _ _)). }
    destruct (str_is_empty piece) eqn:Ee.
    { injection Hp as <-. rewrite take_bytes_nil, str_app_nil. change (len "") with 0. by rewrite E. }
    destruct (pipe_text reads) as [rest|] eqn:Er; [|done]. injection Hp as <-. pose proof (len_nonneg piece) as Hlp.
    destruct (Z_le_gt_dec remaining (len piece)) as [Hle|Hgt].
    + rewrite take_bytes_len by lia. replace (remaining - remaining) with 0 by lia.
      rewrite take_bytes_app by lia. rewrite Z.min_l by lia. assert (take_bytes (remaining - len piece) rest = "") as ->.
      { unfold take_bytes. by replace (Z.to_nat (remaining - len piece)) with 0%nat by lia. }
      rewrite str_app_nil, len_app. pose proof (len_nonneg rest). rewrite (proj2 (Z.leb_le remaining _)) by lia. by destruct reads.
    + rewrite (take_bytes_all remaining piece) by lia. rewrite (IH _ _ rest) by (done || lia). rewrite take_bytes_app, Z.min_r by lia.
      rewrite (take_bytes_all (len piece) piece) by lia. rewrite str_app_assoc, len_app. do 2 f_equal. lia.
  - cbn [pipe_text] in Hp. done.
Qed.
(** A captured diff is either the whole output of a command that succeeded, or
    it reached the cap and carries the mark that every review refuses; in
    whatever pieces the output came. *)
Theorem capture_whole_or_marked g args all d : pipe_text (gc_stdout (rg_child g args)) = Ok all -> run_git_diff g args = Ok d ->
  if len all <? MAX_GIT_DIFF_BYTES then d = all /\ gc_success (rg_child g args) = true
  else diff_is_truncated d = true /\ exists rest, d = take_bytes MAX_GIT_DIFF_BYTES all +:+ rest.
Proof.
  intros Hp. unfold run_git_diff, run_git_capped. destruct (gc_started _); [|done]. cbn [result_bind].
  rewrite (read_to_byte_cap_exact _ _ _ all) by (done || (unfold MAX_GIT_DIFF_BYTES; lia)). cbn [result_bind cr_limit_reached cr_bytes]. rewrite str_nil_app.
  destruct (if (MAX_GIT_DIFF_BYTES <=? len all) then _ else _) as [running|] eqn:Er; [|done]. cbn [result_bind].
  destruct (if (MAX_GIT_DIFF_BYTES <=? len all) && running then _ else _) as [[]|]; [|done]. cbn [result_bind].
  destruct (drain_to_byte_cap _ _ _ _) as [err|]; [|done]. cbn [result_bind].
  destruct (Z.ltb_spec (len all) MAX_GIT_DIFF_BYTES) as [Hl|Hl].
  - rewrite (proj2 (Z.leb_gt _ _)) in * by lia. injection Er as <-. cbn [negb andb orb]. rewrite orb_false_r. destruct (gc_success (rg_child g args)); [|done].
    cbn [result_bind]. intros [= <-]. split; [|done]. unfold render_capped_git_diff. cbn [cg_limit_reached cg_stdout]. apply take_bytes_all. lia.
  - rewrite (proj2 (Z.leb_le _ _)) in * by lia. destruct (_ || _); [|done]. cbn [result_bind]. intros [= <-]. unfold render_capped_git_diff. cbn [cg_limit_reached cg_stdout].
    split.
    + unfold diff_is_truncated. set (head_ := with_newline _). change ("...[git diff truncated during acquisition at " +:+ ?x) with ("..." +:+ (DIFF_ACQUISITION_TRUNCATION_MARKER +:+ (" at " +:+ x))).
      rewrite <- (str_app_assoc head_), <- (str_app_assoc (head_ +:+ eol2)). apply str_contains_app.
    + unfold with_newline. destruct (ends_with eol2 _); [by eexists|]. rewrite str_app_assoc. by eexists.
Qed.

(** ** Untracked files *)

Definition occurs_in (x s : string) : Prop := exists a b, s = a +:+ x +:+ b.
Lemma occurs_app x s t : occurs_in x s -> occurs_in x (s +:+ t).
Proof. intros (a & b & ->). exists a, (b +:+ t). by rewrite !str_app_assoc. Qed.
Lemma with_newline_prefix s : exists t, with_newline s = s +:+ t.
Proof. unfold with_newline. destruct (ends_with eol2 s); [exists ""; by rewrite str_app_nil|by eexists]. Qed.
Lemma append_piece_grows out piece : exists t, append_piece out piece = out +:+ t.
Proof.
  unfold append_piece. destruct (str_is_empty piece); [exists ""; by rewrite str_app_nil|].
  destruct out as [|c out]; cbn [str_is_empty]; [eexists; by rewrite str_nil_app|].
  destruct (with_newline_prefix (String c out)) as [t Ht]. destruct (with_newline_prefix (with_newline (String c out) +:+ piece)) as [u Hu].
  exists (t +:+ piece +:+ u). by rewrite Hu, Ht, !str_app_assoc.
Qed.
Lemma append_piece_holds out piece : piece <> "" -> occurs_in piece (append_piece out piece).
Proof.
  intros Hp. unfold append_piece. destruct piece as [|c piece]; [done|]. cbn [str_is_empty].
  destruct (with_newline_prefix ((if str_is_empty out then "" else with_newline out) +:+ String c piece)) as [t ->]. rewrite str_app_assoc. by eexists _, _.
Qed.
Lemma pieces_grow l : forall out, exists t, foldl append_piece out l = out +:+ t.
Proof.
  induction l as [|x l IH]; intros out; cbn [foldl]; [exists ""; by rewrite str_app_nil|].
  destruct (IH (append_piece out x)) as [t ->]. destruct (append_piece_grows out x) as [u ->]. exists (u +:+ t). by rewrite str_app_assoc.
Qed.
Lemma pieces_hold x l : forall out, x ∈ l -> x <> "" -> occurs_in x (foldl append_piece out l).
Proof.
  induction l as [|y l IH]; intros out Hx Hne; [by apply not_elem_of_nil in Hx|]. cbn [foldl]. apply elem_of_cons in Hx as [->|Hx]; [|by apply IH].
  destruct (pieces_grow l (append_piece out y)) as [t ->]. by apply occurs_app, append_piece_holds.
Qed.
(** The review of a working tree holds the whole difference to the last commit,
    when git gives one, and the whole text of every untracked file that git
    lists and that is not ignored. *)
Theorem working_tree_complete g fuel base label d : build_diff g fuel ScopeWorkingTree base = Ok (label, d) ->
  (forall t, run_git_diff g ["diff"; "HEAD"] = Ok t -> trim t <> "" -> exists rest, d = t +:+ rest) /\
  (forall listing f, untracked_listing g = Some listing -> f ∈ nul_entries listing -> rg_kind g f = KindFile ->
     starts_with ".git/" f = false -> f <> ".git" -> ends_with "/" f = false -> render_untracked_file_hunk g f <> "" ->
     occurs_in (render_untracked_file_hunk g f) d).
Proof.
  unfold build_diff. intros [= _ <-]. split.
  - intros t -> Ht. cbn [or_nothing]. destruct (trim t) as [|c r] eqn:E; [done|]. cbn [str_is_empty]. destruct (str_is_empty (untracked_not_ignored_diff _ _)).
    + exists "". by rewrite str_app_nil.
    + destruct t as [|x t]; [done|]. cbn [str_is_empty]. destruct (with_newline_prefix (String x t)) as [u ->]. rewrite str_app_assoc. by eexists.
  - intros listing f Hl Hf Hk Hg Hg' He Hne.
    assert (occurs_in (render_untracked_file_hunk g f) (untracked_not_ignored_diff g fuel)) as (a & b & Hu).
    { unfold untracked_not_ignored_diff. rewrite Hl. apply pieces_hold; [|done]. apply list_elem_of_fmap. exists f. split; [|done].
      unfold untracked_piece. by rewrite Hg, (bool_decide_false (f = ".git")), He, (bool_decide_true (rg_kind g f = KindFile)) by done. }
    rewrite Hu. destruct (a +:+ _) as [|c r] eqn:Ec.
    + exfalso. destruct a; [|done]. rewrite str_nil_app in Ec. by destruct (render_untracked_file_hunk g f).
    + cbn [str_is_empty]. rewrite <- Ec. eexists _, _. by rewrite <- str_app_assoc.
Qed.

(** ** Snapshots *)

(** The difference from a snapshot to the tree as it is now. *)
Definition delta_of (g : Repo) (tree d : string) : Prop := exists current, snapshot_tree g = Some current /\ run_git_diff g ["diff"; tree; current] = Ok d.
(** A loop's change without an explicit base is the difference from a snapshot
    taken before its first turn, or nothing at all: without a snapshot the
    scope refuses, and it never falls back to the history. *)
Theorem task_diff_isolated g fuel start task label d :
  (loop_task_diff g fuel ScopeBranch None start task = Ok (label, d) -> exists tree, start ≫= ls_tree = Some tree /\ delta_of g tree d) /\
  (loop_task_diff g fuel ScopeAuto None start task = Ok (label, d) -> pj_baseline task <> None ->
     exists tree, pj_baseline_tree task = Some tree /\ (delta_of g tree d \/ d = "")).
Proof.
  split.
  - cbn [loop_task_diff]. destruct (start ≫= ls_tree) as [tree|]; [|done]. unfold loop_snapshot_diff. destruct (snapshot_tree g) as [cur|] eqn:Es; [|done].
    destruct (run_git_diff g _) as [d'|] eqn:Ed; [|done]. cbn [result_bind]. intros [= _ <-]. exists tree. split; [done|]. by exists cur.
  - cbn [loop_task_diff]. destruct (pj_baseline_tree task) as [tree|] eqn:Et; [|done]. intros [= _ <-] Hb. exists tree. split; [done|]. unfold agent_diff.
    destruct (pj_baseline task) as [b|]; [|done]. rewrite Et. destruct (snapshot_tree g) as [cur|] eqn:Es; [|by right].
    destruct (run_git_diff g _) as [d'|] eqn:Ed; [left; by exists cur|by right].
Qed.

(** What is done to a journal after its baseline. *)
Inductive JournalOp := TurnRecorded (iter : nat) (diff : string) (touched : list string) (substance : DiffSubstance) | TurnsCleared.
Definition journal_step (j : PatchJournal) (op : JournalOp) : PatchJournal :=
  match op with
  | TurnRecorded iter diff touched substance => record_turn j iter diff touched substance
  | TurnsCleared => clear j
  end.
Lemma journal_keeps_baseline ops : forall j,
  pj_baseline (foldl journal_step j ops) = pj_baseline j /\ pj_baseline_tree (foldl journal_step j ops) = pj_baseline_tree j.
Proof. induction ops as [|op ops IH]; intros j; cbn [foldl]; [done|]. destruct (IH (journal_step j op)) as [-> ->]. by destruct op. Qed.
(** Once a baseline is recorded the change of a task does not depend on the
    turns recorded since: the journal answers from the tree it was given, and a
    turn cannot add to it or hide from it. *)
Theorem agent_diff_ignores_turns g g0 j ops : agent_diff g (foldl journal_step (record_baseline g0 j) ops) = agent_diff g (record_baseline g0 j).
Proof. destruct (journal_keeps_baseline ops (record_baseline g0 j)) as [H1 H2]. unfold agent_diff. rewrite H1, H2. done. Qed.
(** The files a journal names are those of its turns, each once, in order. *)
Theorem files_touched_exact j : NoDup (files_touched j) /\ StronglySorted (cmp_le String.compare) (files_touched j) /\
  forall f, f ∈ files_touched j <-> exists t, t ∈ pj_turns j /\ f ∈ tp_touched t.
Proof.
  unfold files_touched. split_and!.
  - rewrite sort_by_perm. apply NoDup_remove_dups.
  - apply (sort_by_sorted _ (fun _ => True)); [|intros x y z _ _ _; apply string_compare_trans|by apply Forall_forall].
    intros x y _ _. apply String.compare_antisym.
  - intros f. rewrite elem_of_sort_by, elem_of_remove_dups, list_elem_of_In, in_concat. split.
    + intros (l & Hl & Hf). apply list_elem_of_In, list_elem_of_fmap in Hl as (t & -> & Ht). exists t. split; [done|]. by apply list_elem_of_In.
    + intros (t & Ht & Hf). exists (tp_touched t). split; [|by apply list_elem_of_In]. apply list_elem_of_In, list_elem_of_fmap. by exists t.
Qed.

(** ** The author *)

(** A commit's author is rewritten only to the identity the repository
    configures, at most once, and only when it differs; without a commit or
    without both halves of an identity nothing is touched. *)
Theorem enforce_exact g amend out calls : enforce_repo_commit_author g amend = (out, calls) ->
  match out with
  | NoCommit => calls = [] /\ rev_parse g "HEAD" = None
  | NoConfiguredIdentity => calls = [] /\ (nonempty_trimmed (run_git g ["config"; "user.name"]) = None \/ nonempty_trimmed (run_git g ["config"; "user.email"]) = None)
  | AlreadyCorrect current => calls = [] /\ exists name email, nonempty_trimmed (run_git g ["config"; "user.name"]) = Some name /\
      nonempty_trimmed (run_git g ["config"; "user.email"]) = Some email /\ current = name +:+ " <" +:+ email +:+ ">"
  | Corrected from_ to_ => calls = [to_] /\ amend to_ = AmendDone /\ from_ <> to_ /\ exists name email,
      nonempty_trimmed (run_git g ["config"; "user.name"]) = Some name /\ nonempty_trimmed (run_git g ["config"; "user.email"]) = Some email /\
      to_ = name +:+ " <" +:+ email +:+ ">"
  | EnforceFailed _ => calls = [] \/ exists to_, calls = [to_] /\ amend to_ <> AmendDone
  end.
Proof.
  unfold enforce_repo_commit_author. destruct (rev_parse g "HEAD"); [|by intros [= <- <-]].
  destruct (nonempty_trimmed (run_git g ["config"; "user.name"])) as [name|]; [|intros [= <- <-]; split; [done|by left]].
  destruct (nonempty_trimmed (run_git g ["config"; "user.email"])) as [email|]; [|intros [= <- <-]; split; [done|by right]].
  remember (name +:+ " <" +:+ email +:+ ">") as desired eqn:Hd. destruct (rg_git g _) as [s0|e]; [|intros [= <- <-]; by left].
  case_bool_decide as Hc.
  - intros [= <- <-]. split; [done|]. exists name, email. by rewrite Hc.
  - destruct (amend desired) eqn:Ea; intros [= <- <-]; [split_and!; try done; by exists name, email|right; exists desired; by rewrite Ea..].
Qed.

(** ** Concrete repositories *)

Definition child_of (out : string) : GitChild := mkGitChild (Ok tt) [Ok out] [] (Ok false) (Ok tt) true.
Definition outputs (l : list (list string * string)) (args : list string) : result string string :=
  match find_first (fun e => bool_decide (e.1 = args)) l with Some (_, out) => Ok out | None => Err "no such command" end.
Definition failed_child : GitChild := mkGitChild (Ok tt) [] [Ok "fatal"] (Ok false) (Ok tt) false.
Definition children (l : list (list string * string)) (args : list string) : GitChild :=
  match outputs l args with Ok out => child_of out | Err _ => failed_child end.
Definition tree_now (t : string) : SnapshotReads := mkSnapshot (Ok ".git/index") true true true (Ok t).
Definition repo_of (runs diffs : list (list string * string)) (files : list (string * string)) (snap : SnapshotReads) : Repo :=
  mkRepo (outputs runs) (children diffs) (fun p => if bool_decide (p ∈ map fst files) then KindFile else KindAbsent) (fun _ => None)
    (fun p => snd <$> find_first (fun e => bool_decide (e.1 = p)) files) (fun _ => None) snap.
Definition change (path text : string) : string :=
  new_file_header path +:+ "@@ -0,0 +1,1 @@" +:+ eol2 +:+ "+" +:+ text +:+ eol2.

Lemma capture_whole_or_marked_witness :
  let g := repo_of [] [(["diff"; "HEAD"], change "a.rs" "let a = 1;")] [] (tree_now "t") in
  pipe_text (gc_stdout (rg_child g ["diff"; "HEAD"])) = Ok (change "a.rs" "let a = 1;") /\
  run_git_diff g ["diff"; "HEAD"] = Ok (change "a.rs" "let a = 1;") /\ len (change "a.rs" "let a = 1;") < MAX_GIT_DIFF_BYTES.
Proof.
  cbv zeta. set (g := repo_of _ _ _ _). assert (pipe_text (gc_stdout (rg_child g ["diff"; "HEAD"])) = Ok (change "a.rs" "let a = 1;")) as Hp by (vm_compute; reflexivity).
  assert (run_git_diff g ["diff"; "HEAD"] = Ok (change "a.rs" "let a = 1;")) as Hd by (vm_compute; reflexivity). split; [exact Hp|]. split; [exact Hd|].
  pose proof (capture_whole_or_marked g ["diff"; "HEAD"] _ _ Hp Hd) as Hc. vm_compute. reflexivity.
Defined.
Definition untracked_repo : Repo :=
  repo_of [(["ls-files"; "--others"; "--exclude-standard"; "-z"], "new.rs" +:+ String nul "")] [(["diff"; "HEAD"], change "a.rs" "let a = 1;")]
    [("new.rs", "fn f() {}" +:+ eol2)] (tree_now "t").
Lemma working_tree_complete_witness : exists d, build_diff untracked_repo 3 ScopeWorkingTree None = Ok ("working-tree", d) /\
  occurs_in (render_untracked_file_hunk untracked_repo "new.rs") d.
Proof.
  destruct (build_diff untracked_repo 3 ScopeWorkingTree None) as [[label d]|] eqn:Eb; [|vm_compute in Eb; discriminate].
  assert (label = "working-tree") as -> by (vm_compute in Eb; by injection Eb as <- _). exists d. split; [done|].
  apply (proj2 (working_tree_complete untracked_repo 3 None "working-tree" d Eb) ("new.rs" +:+ String nul "")); try (vm_compute; reflexivity).
  - vm_compute. by left.
  - discriminate.
  - vm_compute. discriminate.
Defined.
Definition task_repo : Repo := repo_of [] [(["diff"; "start"; "now"], change "a.rs" "let a = 1;")] [] (tree_now "now").
Lemma task_diff_isolated_witness :
  exists d, loop_task_diff task_repo 1 ScopeBranch None (Some (mkLoopStart (Some "start") true)) journal_new = Ok ("branch (base start = loop start working-tree snapshot)", d)
  /\ delta_of task_repo "start" d.
Proof.
  exists (change "a.rs" "let a = 1;").
  assert (loop_task_diff task_repo 1 ScopeBranch None (Some (mkLoopStart (Some "start") true)) journal_new
    = Ok ("branch (base start = loop start working-tree snapshot)", change "a.rs" "let a = 1;")) as Hd by (vm_compute; reflexivity).
  split; [exact Hd|]. destruct (proj1 (task_diff_isolated task_repo 1 (Some (mkLoopStart (Some "start") true)) journal_new _ _) Hd) as (tree & Ht & Hdel).
  cbn in Ht. by injection Ht as <-.
Defined.
Lemma enforce_exact_witness :
  let g := repo_of [(["rev-parse"; "HEAD"], "c0ffee"); (["config"; "user.name"], "Ada"); (["config"; "user.email"], "ada@example.org");
                    (["log"; "-1"; "--format=%an <%ae>"], "bot <bot@example.org>")] [] [] (tree_now "t") in
  enforce_repo_commit_author g (fun _ => AmendDone) = (Corrected "bot <bot@example.org>" "Ada <ada@example.org>", ["Ada <ada@example.org>"])
  /\ "bot <bot@example.org>" <> "Ada <ada@example.org>".
Proof.
  cbv zeta. set (g := repo_of _ _ _ _).
  assert (enforce_repo_commit_author g (fun _ => AmendDone) = (Corrected "bot <bot@example.org>" "Ada <ada@example.org>", ["Ada <ada@example.org>"])) as He
    by (vm_compute; reflexivity).
  split; [exact He|]. exact (proj1 (proj2 (proj2 (enforce_exact g (fun _ => AmendDone) _ _ He)))).
Defined.

(** A failure of the tracked difference is read as no difference: the review is
    given the untracked files alone. *)
Example tracked_changes_lost :
  build_diff (repo_of [(["ls-files"; "--others"; "--exclude-standard"; "-z"], "new.rs" +:+ String nul "")] [] [("new.rs", "fn f() {}" +:+ eol2)] (tree_now "t"))
    3 ScopeWorkingTree None = Ok ("working-tree", eol2 +:+ change "new.rs" "fn f() {}").
Proof. vm_compute. reflexivity. Qed.
(** When the author committed a part of its work only, the review is given the
    part that is not committed. *)
Example committed_part_unreviewed :
  let g := repo_of [] [(["diff"; "HEAD"], change "late.rs" "let b = 2;"); (["diff"; "start"; "now"], change "early.rs" "let a = 1;" +:+ change "late.rs" "let b = 2;")]
    [] (tree_now "now") in
  let task := mkJournal (Some (mkBaseline "" [] [])) (Some "start") [] in
  loop_task_diff g 1 ScopeWorkingTree None None task = Ok ("working-tree", change "late.rs" "let b = 2;")
  /\ agent_diff g task = change "early.rs" "let a = 1;" +:+ change "late.rs" "let b = 2;".
Proof. vm_compute. split; reflexivity. Qed.
(** A repository inside the working tree is listed as a directory, and its own
    [.git] is read into the review. *)
Example nested_repository_exposed :
  let g := mkRepo (outputs [(["ls-files"; "--others"; "--exclude-standard"; "-z"], "sub/" +:+ String nul "")]) (children [])
    (fun p => if bool_decide (p = "sub/.git") then KindDir else if bool_decide (p = "sub/.git/config") then KindFile else KindAbsent) (fun _ => None)
    (fun p => if bool_decide (p = "sub/.git/config") then Some "token" else None)
    (fun p => if bool_decide (p = "sub/") then Some [".git"] else if bool_decide (p = "sub/.git") then Some ["config"] else None) (tree_now "t") in
  untracked_not_ignored_diff g 3 = change "sub/.git/config" "token".
Proof. vm_compute. reflexivity. Qed.
(** A [git diff --no-index] that a signal stopped is taken as complete. *)
Example stopped_child_is_whole :
  let g := mkRepo (outputs []) (children []) (fun _ => KindFile) (fun _ => Some (None, "")) (fun _ => Some "fn f() {}") (fun _ => None) (tree_now "t") in
  render_untracked_file_hunk g "new.rs" = new_file_header "new.rs".
Proof. vm_compute. reflexivity. Qed.
(** A diff that quotes the mark is refused as cut. *)
Example quoted_mark_is_refused : diff_is_truncated (change "agentic.rs" "const MARK: &str = [git diff truncated during acquisition;") = true.
Proof. vm_compute. reflexivity. Qed.
(** HEAD moved to a commit of somebody else, and that commit is rewritten. *)
Example foreign_commit_rewritten :
  let g := repo_of [(["rev-parse"; "HEAD"], "c0ffee"); (["config"; "user.name"], "Ada"); (["config"; "user.email"], "ada@example.org");
                    (["log"; "-1"; "--format=%an <%ae>"], "Bob <bob@example.org>")] [] [] (tree_now "t") in
  enforce_after_turn g (fun _ => AmendDone) (Some "decade") = Some (Corrected "Bob <bob@example.org>" "Ada <ada@example.org>", ["Ada <ada@example.org>"]).
Proof. vm_compute. reflexivity. Qed.
