(* ===== verification/ReviewPlan.v ===== *)
(** The reviewers of a review (crates/zoder-cli/src/agentic.rs): the order of
    the pinned, configured and routed reviewers, the lists of allowed routes,
    the pool of secondaries, the exclusion of the author's model families, and
    the second reviewer of a high-risk diff.

    Each load of the routing context is a reading of its own. *)
From stdpp Require Import gmap strings.
From S2P Require Import Prelude F64 Health Numbers Text Clock Config Corpus Quota Router Ledger Tiers Utilization EngineRoutes Routes Review ReviewDiff Reviewers Oneshot.
Local Open Scope string_scope.
Local Open Scope Z_scope.
Local Open Scope list_scope.
Local Open Scope zoder_scope.

(** ** The order of the candidates *)

Definition push_unique (out : list string) (candidate : string) : list string :=
  let trimmed := trim candidate in
  if str_is_empty trimmed || bool_decide (trimmed ∈ out) then out else out ++ [trimmed].
Definition order_reviewer_candidates (model_override agent_pin : option string) (config_chain reviewer_chain : list string) : list string :=
  foldl push_unique [] (option_list model_override ++ option_list agent_pin ++ config_chain ++ reviewer_chain).
Definition enforce_exact_model_pin (candidates : list string) (cli_model reviewer_override : option string) : list string :=
  if bool_decide (is_Some cli_model) && bool_decide (cli_model = reviewer_override) then take 1 candidates else candidates.
Definition review_roster (cli_model panel : option string) : list (option string) :=
  cli_model :: match panel with
               | Some panel => map Some (filterb (fun m => negb (str_is_empty m)) (map trim (split_on ","%char panel)))
               | None => []
               end.
Definition default_cross_family_reviewer (author_model : string) : string :=
  let a := to_ascii_lowercase author_model in
  if str_contains "glm" a || str_contains "z-ai" a then "moonshotai/kimi-k2.6" else "z-ai/glm-5.1".

(** ** The suggestion of an id *)

Fixpoint str_filter (p : ascii -> bool) (s : string) : string :=
  match s with EmptyString => EmptyString | String c r => if p c then String c (str_filter p r) else str_filter p r end.

Definition normalize_model_id (i : string) : string :=
  to_ascii_lowercase (str_filter is_ascii_alphanumeric (match rsplit_once "/" i with Some (_, last_) => last_ | None => i end)).
Definition suggestion (want c : string) : option (nat * string) :=
  let n := normalize_model_id c in
  if (4 <=? String.length n)%nat && (str_contains n want || str_contains want n) then Some (String.length n, c) else None.
(** The last of the longest. *)
Definition longer (best : option (nat * string)) (c : nat * string) : option (nat * string) :=
  match best with Some b => if (c.1 <? b.1)%nat then best else Some c | None => Some c end.
Definition suggest_model_id (requested : string) (candidates : list string) : option string :=
  let want := normalize_model_id requested in
  if (String.length want <? 4)%nat then None
  else snd <$> foldl longer None (omap (suggestion want) (filterb (fun c => negb (bool_decide (c = requested))) candidates)).
Definition no_reviewer_provider_text (model : string) (routes : list (string * string)) (served : list string) : string :=
  "no real provider is configured for reviewer model '" +:+ model
  +:+ "': no provider in the zoder config serves that id, so it would fall through to the " +:+ PLACEHOLDER_PROVIDER_HOST
  +:+ " placeholder and fail (a model listed by `zoder models` is routable only when a provider's `serves` list covers it)."
  +:+ match routes with
      | [] => " No configured reviewer route is backed by a real provider."
      | _ => " Configured reviewer routes: " +:+ format_allowed_pairs routes +:+ "."
      end
  +:+ match suggest_model_id model (map snd routes ++ served) with
      | Some s => " Did you mean `-m " +:+ s +:+ "`?"
      | None => " Pass `-m <model>` with one of the configured reviewer models."
      end.

(** ** Local routes *)

Definition SELF_HOSTED_ENGINE_FAMILIES : list string := ["vllm"; "sglang"; "litellm"; "lmstudio"; "llamacpp"; "osaurus"; "atomic_chat"].
(** [std::net::IpAddr]: the octets of an address, or its first and its other
    segments. *)
Inductive IpAddr := V4 (a b c d : Z) | V6 (first : Z) (rest : list Z).
Definition all_zero (l : list Z) : bool := forallb (Z.eqb 0) l.
Definition is_local_ip (ip : IpAddr) : bool :=
  match ip with
  | V4 a b c d =>
      (a =? 127)
      || ((a =? 10) || ((a =? 172) && (16 <=? b) && (b <=? 31)) || ((a =? 192) && (b =? 168)))
      || ((a =? 169) && (b =? 254)) || all_zero [a; b; c; d]
  | V6 first rest =>
      ((first =? 0) && bool_decide (rest = [0; 0; 0; 0; 0; 0; 1])) || all_zero (first :: rest)
      || (Z.land first 65024 =? 64512) || (Z.land first 65472 =? 65152)
  end.
Definition up_to (stop : ascii -> bool) (s : string) : string := take_while (fun c => negb (stop c)) s.
Definition url_authority_host (base_url : string) : string :=
  let rest := match split_once_str "://" base_url with Some (_, rest) => rest | None => base_url end in
  let authority := up_to (fun c => Ascii.eqb c "/" || Ascii.eqb c "?" || Ascii.eqb c "#") rest in
  let authority := match rsplit_once "@" authority with Some (_, a) => a | None => authority end in
  to_ascii_lowercase match strip_prefix "[" authority with
                     | Some inner => up_to (Ascii.eqb "]") inner
                     | None => up_to (Ascii.eqb ":") authority
                     end.
Section Local.
(** The standard library's reading of an address. *)
Variable parse_ip : string -> option IpAddr.
Definition is_local_host (host : string) : bool :=
  if str_is_empty host then false
  else if bool_decide (host = "localhost") || existsb (fun s => bool_decide (is_Some (strip_suffix s host))) [".localhost"; ".local"; ".lan"] then true
  else match parse_ip host with
       | Some ip => is_local_ip ip
       | None => negb (str_contains "." host)
       end.
(** [Provider::base_url_is_local_network], [Provider::is_local_route] *)
Definition base_url_is_local_network (p : Config.Provider) : bool := endpoint_is_configured p && is_local_host (url_authority_host (base_url p)).
Definition is_local_route (p : Config.Provider) : bool :=
  endpoint_is_configured p
  && (base_url_is_local_network p
      || match r ← engine_provider_ref p; split_once "." r with
         | Some (family, _) => bool_decide (family ∈ SELF_HOSTED_ENGINE_FAMILIES)
         | None => false
         end).
End Local.

(** ** What a plan reads *)

(** The options of the command line, and of the configuration, that only
    reviews read. *)
Record ReviewCli := mkReviewCli {
  vc_cli : Cli;
  vc_pool_routes : option string;
  vc_opts : Options
}.
Record ReviewSetup := mkSetup {
  su_engine : Engine;
  su_reviewer_model : option string;
  su_families : list (string * string);
  su_settings : Settings
}.
(** The loads of one plan: the routing of the lists and of the pool, the
    routing of the author's chain for the default and for the pool, and the
    store of health with its clock readings. *)
Record PlanFeed := mkPlanFeed {
  pn_lists : option Feeds;
  pn_pool : option Feeds;
  pn_default_chain : bool -> option Feeds;
  pn_author_chain : bool -> option Feeds;
  pn_health : gmap string ModelHealth;
  pn_clock : Z;
  pn_now : Z
}.
Inductive PlanError :=
| PlanRouting (e : RoutingError)
| RoutingUnread
| ReviewerUnserved (text : string)
| ReviewerOutside (flag provider model : string)
| NoneListed (flag : string)
| PoolNeedsList
| PoolNeedsPrimary
| PoolPrimaryIsAuthor
| PoolMemberTaken (model : string)
| PoolMemberUnbacked (provider model : string)
| SameFamilyOnly (families : list string).
Definition via {A} (r : result A RoutingError) : result A PlanError := match r with Ok a => Ok a | Err e => Err (PlanRouting e) end.

Record SkippedReviewCandidate := mkSkip { sk_model : string; sk_reason : string }.
Record ReviewerPlan := mkPlan {
  pl_candidates : list string;
  pl_skipped : list SkippedReviewCandidate;
  pl_forced : bool;
  pl_author_families : list string
}.
Definition FAMILY_EXCLUDED : string := "family_excluded".

Section Plan.
Context `{Calendar} (from_timestamp : Z -> option Z) (parse_ip : string -> option IpAddr) (su : ReviewSetup) (vc : ReviewCli).
Let eng : Engine := su_engine su.
Let cfg : Routes.Config := eng_cfg eng.
Let cli : Cli := vc_cli vc.

(** An operator's string names an agent, an alias of the corpus, or a model. *)
Definition reviewer_name (s : string) : string := resolve_alias (eng_corpus eng) (default s (configured_model_for_agent eng (Some s))).
Definition reviewer_models_for (alias : option string) : list string :=
  match agent_reviewer_model cfg alias with
  | Some pin => parse_reviewer_chain (Some pin)
  | None => parse_reviewer_chain (su_reviewer_model su)
  end.
Definition named_candidates (model_override : option string) (reviewer_chain : list string) : list string :=
  order_reviewer_candidates (reviewer_name <$> model_override) (reviewer_name <$> agent_reviewer_model cfg (c_agent cli))
    (map reviewer_name (reviewer_models_for (c_agent cli))) reviewer_chain.
Definition reviewer_family (model : string) : string := model_family (su_families su) model.
Definition provider_of (fd : Feeds) (model : string) : option Config.Provider := routed_provider from_timestamp fd cfg model.

Definition configured_reviewer_routes (fd : Feeds) : list (string * string) :=
  foldl (fun out raw =>
      let model := default raw (configured_model_for_agent eng (Some raw)) in
      match provider_of fd model with
      | Some p => if bool_decide ((prov_id p, model) ∈ out) then out else out ++ [(prov_id p, model)]
      | None => out
      end) [] (reviewer_models_for (c_agent cli)).
Definition no_reviewer_provider_message (fd : Feeds) (model : string) : string :=
  no_reviewer_provider_text model (configured_reviewer_routes fd)
    (concat (map serves (filterb (fun p => negb (is_placeholder p)) (cf_providers cfg)))).

(** ** The lists *)

Definition in_list (allowed : option (list (string * string))) (p : Config.Provider) (model : string) : bool :=
  match allowed with Some l => is_allowed l (prov_id p) model | None => true end.
Definition in_lists (fd : Feeds) (global reviewer : option (list (string * string))) (model : string) : bool :=
  match provider_of fd model with Some p => in_list global p model && in_list reviewer p model | None => false end.
Definition restrict_reviewers (fd : option Feeds) (global reviewer : option (list (string * string))) (model_override : option string)
  (out : list string) : result (list string) PlanError :=
  match global, reviewer with
  | None, None => Ok out
  | _, _ =>
      let flag := if bool_decide (is_Some reviewer) then "--reviewer-allowed-routes" else "--allowed-routes" in
      match fd with
      | None => Err RoutingUnread
      | Some fd =>
          let? _ := match model_override with
                    | None => Ok tt
                    | Some model =>
                        match provider_of fd model with
                        | None => Err (ReviewerUnserved (no_reviewer_provider_message fd model))
                        | Some p => if in_lists fd global reviewer model then Ok tt else Err (ReviewerOutside flag (prov_id p) model)
                        end
                    end in
          match filterb (in_lists fd global reviewer) out with
          | [] => Err (NoneListed flag)
          | out => Ok out
          end
      end
  end.

(** ** The pool *)

Fixpoint check_pool (fd : Feeds) (primary : string) (authors : list string) (pool : list (string * string)) : result unit PlanError :=
  match pool with
  | [] => Ok tt
  | (provider, model) :: pool =>
      let? _ := via (require_allowed_reviewer_route cli provider model) in
      if bool_decide (model = primary) || bool_decide (model ∈ authors) then Err (PoolMemberTaken model)
      else match provider_of fd model with
           | Some p => if bool_decide (prov_id p = provider) then check_pool fd primary authors pool else Err (PoolMemberUnbacked provider model)
           | None => Err (PoolMemberUnbacked provider model)
           end
  end.
Definition pooled (f : PlanFeed) (out : list string) : result (list string) PlanError :=
  match vc_pool_routes vc with
  | None => Ok out
  | Some raw =>
      if negb (bool_decide (is_Some (c_reviewer_allowed_routes cli))) then Err PoolNeedsList
      else
        let? pool := via (parse_route_list raw "--reviewer-pool-routes") in
        match pn_pool f with
        | None => Err RoutingUnread
        | Some fd =>
            let? routes := via (resolve_chain (H0 := store_health (pn_health f) (pn_clock f)) from_timestamp (pn_author_chain f) cli eng) in
            match out with
            | [] => Err PoolNeedsPrimary
            | primary :: _ =>
                if bool_decide (primary ∈ rr_primary routes) then Err PoolPrimaryIsAuthor
                else
                  let? _ := check_pool fd primary (rr_primary routes) pool in
                  Ok (if c_no_fallback cli then [primary]
                      else foldl push_unique [primary] (healthy_models (pn_clock f) (pn_now f) pool (pn_health f)))
            end
        end
  end.

(** ** The families *)

Definition add_family (families : list string) (model : string) : list string :=
  let family := reviewer_family model in
  if str_is_empty family || existsb (eq_ignore_ascii_case family) families then families else families ++ [family].
Definition author_families (author_models : list string) : list string := foldl add_family [] author_models.
Definition same_family (families : list string) (model : string) : bool := existsb (eq_ignore_ascii_case (reviewer_family model)) families.
Definition exclude_families (author_models : list string) (model_override : option string) (out : list string) : result ReviewerPlan PlanError :=
  match author_families author_models with
  | [] => Ok (mkPlan out [] false [])
  | families =>
      let explicit m := bool_decide (model_override = Some m) in
      match filterb (fun m => negb (same_family families m) || explicit m) out with
      | [] => Err (SameFamilyOnly families)
      | kept =>
          Ok (mkPlan kept (map (fun m => mkSkip m FAMILY_EXCLUDED) (filterb (fun m => same_family families m && negb (explicit m)) out))
                (existsb (fun m => same_family families m && explicit m) out) families)
      end
  end.

(** The named candidates, or the default for the author's model. *)
Definition base_candidates (f : PlanFeed) (model_override : option string) (reviewer_chain : list string) : result (list string) PlanError :=
  match named_candidates model_override reviewer_chain with
  | [] =>
      let? routes := via (resolve_chain (H0 := store_health (pn_health f) (pn_clock f)) from_timestamp (pn_default_chain f) cli eng) in
      Ok (push_unique [] (default_cross_family_reviewer (default "" (head (rr_primary routes)))))
  | out => Ok out
  end.
(** [build_reviewer_plan] *)
Definition build_reviewer_plan (f : PlanFeed) (model_override : option string) (reviewer_chain author_models : list string) :
  result ReviewerPlan PlanError :=
  let? out := base_candidates f model_override reviewer_chain in
  let out := if c_no_fallback cli then take 1 out else out in
  let? global := via (parsed_allowed_routes cli) in
  let? reviewer := via (parsed_reviewer_allowed_routes cli) in
  let? out := restrict_reviewers (pn_lists f) global reviewer (reviewer_name <$> model_override) out in
  let? out := pooled f out in
  exclude_families author_models (reviewer_name <$> model_override) out.

(** ** The second reviewer *)

Definition push_path (paths : list string) (p : string) : list string :=
  if str_is_empty p || bool_decide (p = "/dev/null") || bool_decide (p ∈ paths) then paths else paths ++ [p].
Definition path_of_line (line : string) : option string :=
  match strip_prefix "+++ " line with
  | Some rest => Some (trim (trim_start_str "b/" rest))
  | None =>
      rest ← strip_prefix "diff --git " line;
      let halves := split_whitespace rest in
      Some (default "" (or_opt (b ← halves !! 1%nat; strip_prefix "b/" b) (a ← head halves; strip_prefix "a/" a)))
  end.
Definition diff_changed_paths (diff : string) : list string := foldl push_path [] (omap path_of_line (Text.lines diff)).
Inductive SecondError := SecondPlan (e : PlanError) | SecondUnread | NoHostedReviewer (first : string).
Definition hosted_other (fd : Feeds) (first_model : option string) (model : string) : bool :=
  negb (bool_decide (first_model = Some model)) && match provider_of fd model with Some p => negb (is_local_route parse_ip p) | None => false end.
(** [high_risk_second_reviewer]; [escalate] are the globs of
    [review.escalate], when the review is configured. *)
Definition high_risk_second_reviewer (f : PlanFeed) (fd : option Feeds) (escalate : option (list string))
  (model_override : option string) (reviewer_chain author_models : list string) (diff : string) (first_model : option string) :
  result (option string) SecondError :=
  match escalate with
  | None | Some [] => Ok None
  | Some patterns =>
      if negb (existsb (fun path => existsb (fun p => glob_match p path) patterns) (diff_changed_paths diff)) then Ok None
      else match fd with
           | None => Err SecondUnread
           | Some fd =>
               match build_reviewer_plan f model_override reviewer_chain author_models with
               | Err e => Err (SecondPlan e)
               | Ok plan =>
                   match find_first (hosted_other fd first_model) (pl_candidates plan) with
                   | Some m => Ok (Some m)
                   | None => Err (NoHostedReviewer (default "none" first_model))
                   end
               end
           end
  end.
End Plan.

(** * Theorems *)

Lemma push_unique_in out c m : m ∈ push_unique out c <-> m ∈ out \/ (m = trim c /\ trim c <> "").
Proof.
  unfold push_unique. destruct (str_is_empty (trim c)) eqn:E; cbn [orb].
  - destruct (trim c) eqn:Et; [|done]. naive_solver.
  - assert (trim c <> "") as Hne by (intros Ht; by rewrite Ht in E). case_bool_decide as Hb; [naive_solver|]. rewrite elem_of_app, list_elem_of_singleton. naive_solver.
Qed.
Lemma push_unique_NoDup out c : NoDup out -> NoDup (push_unique out c).
Proof.
  intros Hn. unfold push_unique. destruct (str_is_empty (trim c)); [done|]. cbn [orb]. case_bool_decide as Hb; [done|].
  apply NoDup_app. split; [done|]. split; [|by apply NoDup_singleton]. intros x Hx ->%list_elem_of_singleton. done.
Qed.
Lemma push_all_in l : forall out m, m ∈ foldl push_unique out l <-> m ∈ out \/ (exists c, c ∈ l /\ m = trim c /\ trim c <> "").
Proof.
  induction l as [|c l IH]; intros out m; cbn [foldl]; [set_solver|]. rewrite IH, push_unique_in. set_solver.
Qed.
Lemma push_all_NoDup l : forall out, NoDup out -> NoDup (foldl push_unique out l).
Proof. induction l as [|c l IH]; intros out Hn; [done|]. cbn [foldl]. apply IH. by apply push_unique_NoDup. Qed.
Lemma push_all_grows l : forall out, exists more, foldl push_unique out l = out ++ more.
Proof.
  induction l as [|c l IH]; intros out; cbn [foldl]; [exists []; by rewrite app_nil_r|]. destruct (IH (push_unique out c)) as [more ->].
  unfold push_unique. destruct (_ || _); [by exists more|]. exists (trim c :: more). by rewrite <- app_assoc.
Qed.
Lemma via_ok {A} (r : result A RoutingError) a : via r = Ok a <-> r = Ok a.
Proof. destruct r; naive_solver. Qed.
Lemma filterb_sublist {A} (p : A -> bool) l : sublist (filterb p l) l.
Proof. induction l as [|x l IH]; [done|]. cbn. destruct (p x); by constructor. Qed.

Section PlanTheorems.
Context `{Calendar} (from_timestamp : Z -> option Z) (su : ReviewSetup) (vc : ReviewCli).
Local Notation plan_of := (build_reviewer_plan from_timestamp su vc).

Lemma restrict_ok fd global reviewer model_override out kept : restrict_reviewers from_timestamp su vc fd global reviewer model_override out = Ok kept ->
  sublist kept out /\ (out <> [] -> kept <> []) /\
  (global = None /\ reviewer = None /\ kept = out
   \/ exists fd', fd = Some fd' /\ kept = filterb (in_lists from_timestamp su fd' global reviewer) out /\
      (forall m, model_override = Some m -> in_lists from_timestamp su fd' global reviewer m = true)).
Proof.
  unfold restrict_reviewers. destruct global as [g|], reviewer as [r|].
  4: intros [= ->]; split; [done|]; split; [done|]; by left.
  all: destruct fd as [fd|]; [|done]; intros Hr; apply result_bind_Ok in Hr as ([] & Ho & Hr).
  all: destruct (filterb _ out) as [|k ks] eqn:Ef; [done|]; injection Hr as <-; rewrite <- Ef.
  all: split; [apply filterb_sublist|]; split; [by rewrite Ef|]; right; exists fd; split; [done|]; split; [done|]; intros m ->.
  all: destruct (provider_of from_timestamp su fd m); [|done]; by destruct (in_lists _ _ _ _ _ m).
Qed.

Lemma check_pool_ok fd primary authors pool : check_pool from_timestamp su vc fd primary authors pool = Ok tt -> forall p m, (p, m) ∈ pool ->
  require_allowed_reviewer_route (vc_cli vc) p m = Ok tt /\ m <> primary /\ m ∉ authors /\
  exists pr, provider_of from_timestamp su fd m = Some pr /\ prov_id pr = p.
Proof.
  induction pool as [|[p m] pool IH]; [intros _ p m Hin; by apply not_elem_of_nil in Hin|]. cbn [check_pool]. intros Hc p' m' Hin.
  apply result_bind_Ok in Hc as ([] & Ha%via_ok & Hc).
  destruct (bool_decide (m = primary) || _) eqn:Et; [done|]. apply orb_false_iff in Et as [Et1%bool_decide_eq_false Et2%bool_decide_eq_false].
  destruct (provider_of from_timestamp su fd m) as [pr|] eqn:Ep; [|done]. case_bool_decide as Hid; [|done].
  apply elem_of_cons in Hin as [[= -> ->]|Hin]; [|by apply IH]. split; [done|]. split; [done|]. split; [done|]. by exists pr.
Qed.
(** With a pool, the head is kept and followed by verified members of it. *)
Lemma pooled_ok f out kept : pooled from_timestamp su vc f out = Ok kept ->
  (vc_pool_routes vc = None /\ kept = out) \/
  exists raw pool fd authors primary rest, vc_pool_routes vc = Some raw /\ parse_route_list raw "--reviewer-pool-routes" = Ok pool /\ pn_pool f = Some fd /\
    out = primary :: rest /\ primary ∉ authors /\ check_pool from_timestamp su vc fd primary authors pool = Ok tt /\
    kept = if c_no_fallback (vc_cli vc) then [primary]
           else foldl push_unique [primary] (healthy_models (pn_clock f) (pn_now f) pool (pn_health f)).
Proof.
  unfold pooled. destruct (vc_pool_routes vc) as [raw|]; [|intros [= ->]; by left]. destruct (negb _); [done|]. intros Hp.
  apply result_bind_Ok in Hp as (pool & Hpool%via_ok & Hp). destruct (pn_pool f) as [fd|] eqn:Ef; [|done].
  apply result_bind_Ok in Hp as (routes & Hr & Hp). destruct out as [|primary rest]; [done|]. case_bool_decide as Hb; [done|].
  apply result_bind_Ok in Hp as ([] & Hc & Hp). injection Hp as <-. right. by exists raw, pool, fd, (rr_primary routes), primary, rest.
Qed.
Lemma base_ok f model_override reviewer_chain out : base_candidates from_timestamp su vc f model_override reviewer_chain = Ok out ->
  NoDup out /\ out <> [] /\
  (out = named_candidates su vc model_override reviewer_chain
   \/ named_candidates su vc model_override reviewer_chain = [] /\ exists a, out = [default_cross_family_reviewer a]).
Proof.
  unfold base_candidates. destruct (named_candidates _ _ _ _) as [|n ns] eqn:En.
  - intros Hb. apply result_bind_Ok in Hb as (routes & _ & [= <-]). set (a := default "" _).
    assert (push_unique [] (default_cross_family_reviewer a) = [default_cross_family_reviewer a]) as ->
      by (unfold default_cross_family_reviewer; by destruct (_ || _)).
    split; [apply NoDup_singleton|]. split; [done|]. right. split; [done|]. by exists a.
  - intros [= <-]. split; [|split; [done|by left]]. rewrite <- En. apply push_all_NoDup. constructor.
Qed.

(** The families of the authors. *)
Lemma add_family_in families a g : g ∈ add_family su families a -> g ∈ families \/ g = reviewer_family su a.
Proof. unfold add_family. destruct (_ || _); [by left|]. rewrite elem_of_app, list_elem_of_singleton. naive_solver. Qed.
Lemma author_families_in authors : forall families g, g ∈ foldl (add_family su) families authors ->
  g ∈ families \/ exists a, a ∈ authors /\ g = reviewer_family su a.
Proof.
  induction authors as [|a authors IH]; intros families g Hg; [by left|]. apply IH in Hg as [Hg|(b & Hb & ->)]; [|set_solver].
  apply add_family_in in Hg as [|]; [by left|set_solver].
Qed.
Lemma author_families_cover authors a : forall families, a ∈ authors \/ existsb (eq_ignore_ascii_case (reviewer_family su a)) families = true ->
  reviewer_family su a <> "" -> existsb (eq_ignore_ascii_case (reviewer_family su a)) (foldl (add_family su) families authors) = true.
Proof.
  assert (forall families b, existsb (eq_ignore_ascii_case (reviewer_family su a)) families = true ->
    existsb (eq_ignore_ascii_case (reviewer_family su a)) (add_family su families b) = true) as Hgrow.
  { intros families b Hf. unfold add_family. destruct (_ || _); [done|]. rewrite existsb_app, Hf. done. }
  assert (forall families, reviewer_family su a <> "" -> existsb (eq_ignore_ascii_case (reviewer_family su a)) (add_family su families a) = true) as Hadd.
  { intros families Hne. unfold add_family. destruct (str_is_empty (reviewer_family su a)) eqn:Ee; [by destruct (reviewer_family su a)|]. cbn [orb].
    destruct (existsb _ families) eqn:Ex; [done|]. rewrite existsb_app. cbn. unfold eq_ignore_ascii_case. rewrite bool_decide_true by done. apply orb_true_r. }
  induction authors as [|b authors IH]; intros families [Ha|Ha] Hne; cbn [foldl].
  - by apply not_elem_of_nil in Ha.
  - done.
  - apply elem_of_cons in Ha as [->|Ha]; apply IH; try done; [right; by apply Hadd|by left].
  - apply IH; [right; by apply Hgrow|done].
Qed.
Lemma same_family_of families m : same_family su families m = true <-> exists g, g ∈ families /\ eq_ignore_ascii_case (reviewer_family su m) g = true.
Proof. unfold same_family. rewrite existsb_exists. split; intros (g & H1 & H2); exists g; by rewrite list_elem_of_In in *. Qed.

Lemma exclude_ok authors model_override out plan : exclude_families su authors model_override out = Ok plan ->
  sublist (pl_candidates plan) out /\ (out <> [] -> pl_candidates plan <> []) /\
  (forall m a, m ∈ pl_candidates plan -> a ∈ authors -> reviewer_family su a <> "" ->
     eq_ignore_ascii_case (reviewer_family su m) (reviewer_family su a) = true -> model_override = Some m /\ pl_forced plan = true) /\
  (pl_forced plan = true -> exists m a, model_override = Some m /\ m ∈ pl_candidates plan /\ a ∈ authors /\
     eq_ignore_ascii_case (reviewer_family su m) (reviewer_family su a) = true) /\
  (forall m, m ∈ out -> m ∈ pl_candidates plan \/ mkSkip m FAMILY_EXCLUDED ∈ pl_skipped plan) /\
  (forall m, model_override = Some m -> m ∈ out -> m ∈ pl_candidates plan).
Proof.
  unfold exclude_families. pose proof (author_families_cover authors) as Hcov. pose proof (author_families_in authors []) as Hin.
  fold (author_families su authors) in *. destruct (author_families su authors) as [|g0 gs] eqn:Eg.
  - intros [= <-]. cbn. split; [done|]. split; [done|]. split; [|split; [done|split; [by left|done]]].
    intros m a _ Ha Hne _. specialize (Hcov a [] (or_introl Ha) Hne). unfold author_families in Eg. by rewrite Eg in Hcov.
  - remember (g0 :: gs) as families eqn:Hfam. clear Hfam. set (explicit := fun m => bool_decide (model_override = Some m)).
    destruct (filterb _ out) as [|k ks] eqn:Ef; [done|]. intros [= <-]. rewrite <- Ef. cbn [pl_candidates pl_skipped pl_forced].
    assert (forall m, m ∈ filterb (fun m => negb (same_family su families m) || explicit m) out <-> m ∈ out /\ (same_family su families m = false \/ model_override = Some m)) as Hk.
    { intros m. unfold filterb. rewrite !list_elem_of_In, List.filter_In. unfold explicit. rewrite orb_true_iff, negb_true_iff, bool_decide_eq_true. done. }
    split; [apply filterb_sublist|]. split; [intros _; by rewrite Ef|]. split; [|split; [|split]].
    + intros m a Hm Ha Hne Heq. apply Hk in Hm as [Hmo [Hs| ->]].
      * exfalso. apply not_true_iff_false in Hs. apply Hs. apply same_family_of.
        specialize (Hcov a [] (or_introl Ha) Hne). unfold author_families in Eg. rewrite Eg in Hcov. apply existsb_exists in Hcov as (g & Hg & Hag).
        exists g. split; [by apply list_elem_of_In|]. unfold eq_ignore_ascii_case in *. rewrite !bool_decide_eq_true in *. by rewrite Heq.
      * split; [done|]. apply existsb_exists. exists m. split; [by apply list_elem_of_In|].
        assert (same_family su families m = true) as Hsf; [|apply andb_true_iff; split; [exact Hsf|by apply bool_decide_eq_true]].
        apply same_family_of. specialize (Hcov a [] (or_introl Ha) Hne). unfold author_families in Eg. rewrite Eg in Hcov. apply existsb_exists in Hcov as (g & Hg & Hag).
        exists g. split; [by apply list_elem_of_In|]. unfold eq_ignore_ascii_case in *. rewrite !bool_decide_eq_true in *. by rewrite Heq.
    + intros Hf. apply existsb_exists in Hf as (m & Hm & Hf). apply andb_true_iff in Hf as [Hf Hx%bool_decide_eq_true].
      apply same_family_of in Hf as (g & Hg & Heq). destruct (Hin g Hg) as [Hg'|(a & Ha & ->)]; [by apply not_elem_of_nil in Hg'|].
      exists m, a. split; [done|]. split; [apply Hk; split; [by apply list_elem_of_In|by right]|done].
    + intros m Hm. destruct (same_family su families m) eqn:Es; [|left; apply Hk; by split; [|left]].
      destruct (explicit m) eqn:Ex; [left; apply Hk; split; [done|right; by apply bool_decide_eq_true in Ex]|]. right. apply list_elem_of_fmap. exists m.
      split; [done|]. unfold filterb. rewrite list_elem_of_In, List.filter_In, <- list_elem_of_In. split; [done|]. apply andb_true_iff. split; [exact Es|]. apply negb_true_iff. exact Ex.
    + intros m -> Hm. apply Hk. split; [done|by right].
Qed.

Lemma healthy_in clock now pool health m : m ∈ healthy_models clock now pool health -> exists p, (p, m) ∈ pool.
Proof.
  unfold healthy_models. rewrite list_elem_of_fmap. intros ([m' lat] & -> & Hin). rewrite sort_by_perm in Hin. apply list_elem_of_omap in Hin as ([p m] & Hp & Hc).
  exists p. unfold pool_candidate in Hc. destruct (health !! m); [|done]. cbn in Hc. destruct (checked_at_unix _); [|done]. cbn in Hc.
  destruct (ewma_latency_ms _); [|done]. cbn in Hc. destruct (_ || _); [done|]. by injection Hc as -> _.
Qed.
Lemma parse_entries_trimmed flag l : forall pairs p m, parse_entries flag l = Ok pairs -> (p, m) ∈ pairs -> trim m = m.
Proof.
  induction l as [|e l IH]; intros pairs p m; cbn [parse_entries]; [intros [= <-] Hin; by apply not_elem_of_nil in Hin|].
  destruct (split_once _ e) as [[a b]|]; [|done]. destruct (_ || _); [done|]. intros Hp Hin. apply result_bind_Ok in Hp as (rest & Hr & [= <-]).
  apply elem_of_cons in Hin as [[= -> ->]|Hin]; [apply trim_idem|by eapply IH].
Qed.

(** The steps of a plan that is made. *)
Lemma plan_steps f model_override reviewer_chain authors plan : plan_of f model_override reviewer_chain authors = Ok plan ->
  exists base global reviewer kept out, base_candidates from_timestamp su vc f model_override reviewer_chain = Ok base /\
    parsed_allowed_routes (vc_cli vc) = Ok global /\ parsed_reviewer_allowed_routes (vc_cli vc) = Ok reviewer /\
    restrict_reviewers from_timestamp su vc (pn_lists f) global reviewer (reviewer_name su <$> model_override)
      (if c_no_fallback (vc_cli vc) then take 1 base else base) = Ok kept /\
    pooled from_timestamp su vc f kept = Ok out /\ exclude_families su authors (reviewer_name su <$> model_override) out = Ok plan.
Proof.
  unfold build_reviewer_plan. intros Hp. apply result_bind_Ok in Hp as (base & Hb & Hp). apply result_bind_Ok in Hp as (global & Hg%via_ok & Hp).
  apply result_bind_Ok in Hp as (reviewer & Hr%via_ok & Hp). apply result_bind_Ok in Hp as (kept & Hk & Hp). apply result_bind_Ok in Hp as (out & Ho & He).
  by exists base, global, reviewer, kept, out.
Qed.
Lemma shortened_sublist (b : bool) (l : list string) : sublist (if b then take 1 l else l) l.
Proof. destruct b; [apply sublist_take|done]. Qed.
Lemma plan_shape f model_override reviewer_chain authors plan : plan_of f model_override reviewer_chain authors = Ok plan ->
  pl_candidates plan <> [] /\ NoDup (pl_candidates plan).
Proof.
  intros (base & global & reviewer & kept & out & (Hn & Hne & _)%base_ok & _ & _ & (Hs & Hkne & _)%restrict_ok & Hpool & (Hso & Hone & _)%exclude_ok)%plan_steps.
  assert (NoDup kept) as Hnk by (eapply sublist_NoDup; [eapply sublist_NoDup; [exact Hn|apply shortened_sublist]|exact Hs]).
  assert (kept <> []) as Hkn by (apply Hkne; destruct base; [done|]; by destruct (c_no_fallback _)).
  assert (out <> [] /\ NoDup out) as [Ho Hno].
  { apply pooled_ok in Hpool as [[_ ->]|(raw & pool & fd & as_ & primary & rest & _ & _ & _ & -> & _ & _ & ->)]; [done|].
    destruct (c_no_fallback _); [split; [done|apply NoDup_singleton]|]. split; [|apply push_all_NoDup, NoDup_singleton].
    destruct (push_all_grows (healthy_models (pn_clock f) (pn_now f) pool (pn_health f)) [primary]) as [more ->]. done. }
  split; [by apply Hone|]. by eapply sublist_NoDup.
Qed.

(** A plan never puts a reviewer of an author's family first or later: such a
    candidate is dropped and recorded, unless the operator named it, and then
    the plan says so.  A plan has a candidate, and no candidate twice. *)
Theorem reviewers_cross_family f model_override reviewer_chain authors plan : plan_of f model_override reviewer_chain authors = Ok plan ->
  pl_candidates plan <> [] /\ NoDup (pl_candidates plan) /\
  (forall m a, m ∈ pl_candidates plan -> a ∈ authors -> reviewer_family su a <> "" ->
     eq_ignore_ascii_case (reviewer_family su m) (reviewer_family su a) = true ->
     reviewer_name su <$> model_override = Some m /\ pl_forced plan = true) /\
  (pl_forced plan = true -> exists m a, reviewer_name su <$> model_override = Some m /\ m ∈ pl_candidates plan /\ a ∈ authors /\
     eq_ignore_ascii_case (reviewer_family su m) (reviewer_family su a) = true).
Proof.
  intros Hp. destruct (plan_shape _ _ _ _ _ Hp) as [H1 H2]. split; [done|]. split; [done|].
  apply plan_steps in Hp as (base & global & reviewer & kept & out & _ & _ & _ & _ & _ & (_ & _ & H3 & H4 & _)%exclude_ok). done.
Qed.

(** With a list of allowed routes, every candidate is served, at a reading of
    the routing the plan made, by a provider whose pair is on every list that
    is given; the secondaries of a pool included. *)
Theorem reviewers_stay_listed f model_override reviewer_chain authors plan m : plan_of f model_override reviewer_chain authors = Ok plan ->
  (c_allowed_routes (vc_cli vc) <> None \/ c_reviewer_allowed_routes (vc_cli vc) <> None) -> m ∈ pl_candidates plan ->
  exists fd p, (pn_lists f = Some fd \/ pn_pool f = Some fd) /\ provider_of from_timestamp su fd m = Some p /\
    require_allowed_reviewer_route (vc_cli vc) (prov_id p) m = Ok tt.
Proof.
  intros (base & global & reviewer & kept & out & _ & Hg & Hr & (_ & _ & Hk)%restrict_ok & Hpool & (Hso & _)%exclude_ok)%plan_steps Hl Hm.
  assert (forall m, m ∈ kept -> exists fd p, pn_lists f = Some fd /\ provider_of from_timestamp su fd m = Some p /\
    require_allowed_reviewer_route (vc_cli vc) (prov_id p) m = Ok tt) as Hkept.
  { intros m' Hm'. destruct Hk as [(-> & -> & _)|(fd & Hfd & -> & _)].
    - exfalso. unfold parsed_allowed_routes, parsed_reviewer_allowed_routes, parsed in Hg, Hr.
      destruct (c_allowed_routes _), (c_reviewer_allowed_routes _); try (by destruct (parse_route_list _ _)); naive_solver.
    - unfold filterb in Hm'. rewrite list_elem_of_In, List.filter_In in Hm'. destruct Hm' as [_ Hm']. unfold in_lists in Hm'.
      destruct (provider_of from_timestamp su fd m') as [p|] eqn:Ep; [|done]. apply andb_true_iff in Hm' as [H1 H2]. exists fd, p. split; [done|]. split; [done|].
      unfold require_allowed_reviewer_route, require_allowed_route. rewrite Hg, Hr. unfold in_list, require_listed in *. destruct global, reviewer; cbn; rewrite ?H1; cbn; by rewrite ?H2. }
  apply (elem_of_submseteq _ out) in Hm; [|by apply sublist_submseteq].
  apply pooled_ok in Hpool as [[_ ->]|(raw & pool & fd & as_ & primary & rest & _ & Hpa & Hfd & -> & _ & Hc & ->)].
  { destruct (Hkept m Hm) as (fd & p & H1 & H2 & H3). exists fd, p. split_and!; [by left|done..]. }
  assert (m = primary \/ exists p, (p, m) ∈ pool) as [->|[p Hp]].
  { destruct (c_no_fallback _); [left; by apply list_elem_of_singleton in Hm|]. apply push_all_in in Hm as [Hm|(c & Hc' & -> & _)]; [left; by apply list_elem_of_singleton in Hm|].
    right. apply healthy_in in Hc' as [p Hp]. exists p. unfold parse_route_list in Hpa. by rewrite (parse_entries_trimmed _ _ _ _ _ Hpa Hp). }
  - destruct (Hkept primary) as (fd' & p & H1 & H2 & H3); [by left|]. exists fd', p. split_and!; [by left|done..].
  - destruct (check_pool_ok _ _ _ _ Hc _ _ Hp) as (Ha & _ & _ & pr & Hpr & <-). exists fd, pr. split_and!; [by right|done..].
Qed.

(** Every model a plan can name, whatever is read. *)
Definition possible_reviewers (model_override : option string) (reviewer_chain : list string) : list string :=
  named_candidates su vc model_override reviewer_chain ++ ["moonshotai/kimi-k2.6"; "z-ai/glm-5.1"]
  ++ match vc_pool_routes vc with
     | Some raw => match parse_route_list raw "--reviewer-pool-routes" with Ok pool => map snd pool | Err _ => [] end
     | None => []
     end.
Lemma plan_possible f model_override reviewer_chain authors plan m : plan_of f model_override reviewer_chain authors = Ok plan ->
  m ∈ pl_candidates plan -> m ∈ possible_reviewers model_override reviewer_chain.
Proof.
  intros (base & global & reviewer & kept & out & (_ & _ & Hb)%base_ok & _ & _ & (Hs & _)%restrict_ok & Hpool & (Hso & _)%exclude_ok)%plan_steps Hm.
  assert (forall m, m ∈ kept -> m ∈ possible_reviewers model_override reviewer_chain) as Hkept.
  { intros m' Hm'. apply (elem_of_submseteq _ base) in Hm'; [|apply sublist_submseteq; etrans; [exact Hs|apply shortened_sublist]].
    unfold possible_reviewers. destruct Hb as [->|[_ [a ->]]]; [set_solver|]. apply list_elem_of_singleton in Hm' as ->.
    unfold default_cross_family_reviewer. destruct (_ || _); set_solver. }
  apply (elem_of_submseteq _ out) in Hm; [|by apply sublist_submseteq].
  apply pooled_ok in Hpool as [[_ ->]|(raw & pool & fd & as_ & primary & rest & Hraw & Hpa & Hfd & -> & _ & Hc & ->)]; [by apply Hkept|].
  destruct (c_no_fallback _); [apply list_elem_of_singleton in Hm as ->; apply Hkept; by left|].
  apply push_all_in in Hm as [->%list_elem_of_singleton|(c & [p Hp]%healthy_in & -> & _)]; [apply Hkept; by left|].
  rewrite (parse_entries_trimmed _ _ _ _ _ Hpa Hp). unfold possible_reviewers. rewrite Hraw, Hpa, !elem_of_app. right. right.
  apply list_elem_of_fmap. by exists (p, c).
Qed.

Lemma sublist_head {A} (x : A) l k : sublist k (x :: l) -> NoDup (x :: l) -> x ∈ k -> head k = Some x.
Proof.
  intros Hs [Hx _]%NoDup_cons Hin. inversion Hs as [|? ? ? Hs'|? ? ? Hs']; subst; [done|].
  destruct Hx. by apply (elem_of_submseteq k); [|apply sublist_submseteq].
Qed.
(** The reviewer the operator names is the first of the plan, whatever is
    configured, routed, listed or excluded. *)
Theorem override_heads f m reviewer_chain authors plan : plan_of f (Some m) reviewer_chain authors = Ok plan ->
  trim (reviewer_name su m) = reviewer_name su m -> reviewer_name su m <> "" -> head (pl_candidates plan) = Some (reviewer_name su m).
Proof.
  intros Hp Ht Hne. destruct (plan_shape _ _ _ _ _ Hp) as [_ Hnd].
  apply plan_steps in Hp as (base & global & reviewer & kept & out & (Hn & Hbne & Hb)%base_ok & _ & _ & (Hs & Hkne & Hk)%restrict_ok & Hpool & (Hso & _ & _ & _ & _ & Hex)%exclude_ok).
  set (n := reviewer_name su m) in *. cbn [fmap option_fmap option_map] in *.
  assert (exists more, named_candidates su vc (Some m) reviewer_chain = n :: more) as [more Hnamed].
  { unfold named_candidates, order_reviewer_candidates. cbn [fmap option_fmap option_map option_list app foldl]. fold n.
    change (option_list (Some n)) with [n]. cbn [app foldl]. assert (push_unique [] n = [n]) as ->.
    { unfold push_unique. rewrite Ht. destruct (str_is_empty n) eqn:E; [by destruct n|]. done. }
    destruct (push_all_grows (option_list (reviewer_name su <$> agent_reviewer_model (eng_cfg (su_engine su)) (c_agent (vc_cli vc))) ++
      map (reviewer_name su) (reviewer_models_for su (c_agent (vc_cli vc))) ++ reviewer_chain) [n]) as [more ->]. by exists more. }
  destruct Hb as [->|[Hb _]]; [|by rewrite Hnamed in Hb]. rewrite Hnamed in *.
  assert (exists more', (if c_no_fallback (vc_cli vc) then take 1 (n :: more) else n :: more) = n :: more' /\ NoDup (n :: more')) as (more' & Hm' & Hnm').
  { destruct (c_no_fallback _); [exists []; split; [done|apply NoDup_singleton]|by exists more]. }
  rewrite Hm' in *. assert (n ∈ kept) as Hnk.
  { destruct Hk as [(_ & _ & ->)|(fd & _ & -> & Hl)]; [by left|]. unfold filterb. rewrite list_elem_of_In, List.filter_In. split; [by left|by apply Hl]. }
  pose proof (sublist_head _ _ _ Hs Hnm' Hnk) as Hhead. assert (head out = Some n) as Hho.
  { apply pooled_ok in Hpool as [[_ ->]|(raw & pool & fd & as_ & primary & rest & _ & _ & _ & -> & _ & _ & ->)]; [done|].
    injection Hhead as ->. destruct (c_no_fallback _); [done|].
    by destruct (push_all_grows (healthy_models (pn_clock f) (pn_now f) pool (pn_health f)) [n]) as [mo ->]. }
  destruct out as [|o os]; [done|]. injection Hho as ->. assert (NoDup (n :: os)) as Hno.
  { apply pooled_ok in Hpool as [[_ ->]|(raw & pool & fd & as_ & primary & rest & _ & _ & _ & -> & _ & _ & ->)].
    - eapply sublist_NoDup; [exact Hnm'|exact Hs].
    - destruct (c_no_fallback _); [apply NoDup_singleton|apply push_all_NoDup, NoDup_singleton]. }
  apply (sublist_head _ _ _ Hso Hno). apply Hex; [done|by left].
Qed.

(** Whether the diff touches a path the escalation protects. *)
Definition protected (escalate : option (list string)) (diff : string) : Prop :=
  exists patterns path p, escalate = Some patterns /\ path ∈ diff_changed_paths diff /\ p ∈ patterns /\ glob_match p path = true.
(** A diff that touches a protected path is never left with one reviewer: the
    second is of the plan, not the first one, and hosted; without such a
    candidate the review is refused.  Any other diff has no second reviewer. *)
Theorem second_reviewer_exact parse_ip f fd escalate model_override reviewer_chain authors diff first_model :
  match high_risk_second_reviewer from_timestamp parse_ip su vc f fd escalate model_override reviewer_chain authors diff first_model with
  | Ok None => ~ protected escalate diff
  | Ok (Some m) => protected escalate diff /\ first_model <> Some m /\
      exists fd' plan p, fd = Some fd' /\ plan_of f model_override reviewer_chain authors = Ok plan /\ m ∈ pl_candidates plan /\
        provider_of from_timestamp su fd' m = Some p /\ is_local_route parse_ip p = false
  | Err (NoHostedReviewer _) => protected escalate diff /\
      exists fd' plan, fd = Some fd' /\ plan_of f model_override reviewer_chain authors = Ok plan /\
        forall m p, m ∈ pl_candidates plan -> first_model <> Some m -> provider_of from_timestamp su fd' m = Some p -> is_local_route parse_ip p = true
  | Err _ => protected escalate diff
  end.
Proof.
  unfold high_risk_second_reviewer. destruct escalate as [[|p0 ps]|].
  1: intros (patterns & path & p & [= <-] & _ & Hp & _); by apply not_elem_of_nil in Hp.
  2: by intros (patterns & path & p & [=] & _).
  remember (p0 :: ps) as patterns eqn:Hps. clear Hps.
  assert (protected (Some patterns) diff <-> existsb (fun path => existsb (fun p => glob_match p path) patterns) (diff_changed_paths diff) = true) as Hprot.
  { rewrite existsb_exists. split.
    - intros (ps' & path & p & [= <-] & H1 & H2 & H3). exists path. split; [by apply list_elem_of_In|]. apply existsb_exists. exists p. split; [by apply list_elem_of_In|done].
    - intros (path & H1 & (p & H2 & H3)%existsb_exists). exists patterns, path, p. rewrite !list_elem_of_In. done. }
  destruct (existsb _ (diff_changed_paths diff)) eqn:Et; cbn [negb]; [|intros Hp; by apply Hprot in Hp].
  assert (protected (Some patterns) diff) as Hp by by apply Hprot. destruct fd as [fd|]; [|done].
  destruct (plan_of f model_override reviewer_chain authors) as [plan|e] eqn:Epl; [|done].
  destruct (find_first _ (pl_candidates plan)) as [m|] eqn:Ef.
  - apply find_first_Some in Ef as [Hin Hh]. unfold hosted_other in Hh. apply andb_true_iff in Hh as [H1%negb_true_iff%bool_decide_eq_false H2].
    destruct (provider_of from_timestamp su fd m) as [p|] eqn:Epr; [|done]. apply negb_true_iff in H2. split; [done|]. split; [done|]. by exists fd, plan, p.
  - split; [done|]. exists fd, plan. split; [done|]. split; [done|]. intros m p Hm Hne Hpr.
    pose proof (proj1 (find_first_None _ _) Ef m Hm) as Hh. unfold hosted_other in Hh. rewrite bool_decide_false, Hpr in Hh by done. cbn in Hh. by apply negb_false_iff in Hh.
Qed.
End PlanTheorems.

(** ** Concrete plans *)

Definition review_config (ps : list Config.Provider) (agents : gmap string AgentEntry) : Routes.Config := mkConfig ps agents ∅ None "balanced" None.
Definition setup_with (agents : gmap string AgentEntry) (reviewer_model : option string) : ReviewSetup :=
  mkSetup (mkEngine (review_config (cf_providers (eng_cfg free_engine)) agents) (eng_corpus free_engine) (eng_route_corpus free_engine) (eng_models free_engine))
    reviewer_model [("a/*", "alpha"); ("b/*", "beta")] quiet_settings.
Definition review_cli (c : Cli) (pool : option string) : ReviewCli := mkReviewCli c pool quiet_options.
Definition quiet_plan : PlanFeed := mkPlanFeed (Some quiet_feeds) (Some quiet_feeds) (fun _ => Some quiet_feeds) (fun _ => Some quiet_feeds) ∅ 0 0.
Definition plan_with (su : ReviewSetup) (vc : ReviewCli) (model_override : option string) (chain authors : list string) : result ReviewerPlan PlanError :=
  build_reviewer_plan (H := gregorian) no_timestamp su vc quiet_plan model_override chain authors.
Definition other_family : ReviewerPlan := mkPlan ["b/two"] [mkSkip "a/one" FAMILY_EXCLUDED] false ["alpha"].
Definition same_family_forced : ReviewerPlan := mkPlan ["a/one"; "b/two"] [] true ["alpha"].

Lemma reviewers_cross_family_witness :
  plan_with (setup_with ∅ None) (review_cli (plain_cli None) None) None ["a/one"; "b/two"] ["a/one"] = Ok other_family /\ NoDup (pl_candidates other_family).
Proof.
  assert (plan_with (setup_with ∅ None) (review_cli (plain_cli None) None) None ["a/one"; "b/two"] ["a/one"] = Ok other_family) as Hp by (vm_compute; reflexivity).
  split; [exact Hp|]. unfold plan_with in Hp.
  exact (proj1 (proj2 (reviewers_cross_family (H := gregorian) no_timestamp (setup_with ∅ None) (review_cli (plain_cli None) None) quiet_plan None
    ["a/one"; "b/two"] ["a/one"] other_family Hp))).
Defined.
Definition listed_cli : Cli := mkCli None None "auto" false false false false None (Some "gw=b/two").
Lemma reviewers_stay_listed_witness :
  exists plan fd p, plan_with (setup_with ∅ None) (review_cli listed_cli None) None ["a/one"; "b/two"] [] = Ok plan /\
    provider_of (H := gregorian) no_timestamp (setup_with ∅ None) fd "b/two" = Some p.
Proof.
  assert (plan_with (setup_with ∅ None) (review_cli listed_cli None) None ["a/one"; "b/two"] [] = Ok (mkPlan ["b/two"] [] false [])) as Hp by (vm_compute; reflexivity).
  pose proof Hp as Hp'. unfold plan_with in Hp'.
  destruct (reviewers_stay_listed (H := gregorian) no_timestamp (setup_with ∅ None) (review_cli listed_cli None) quiet_plan None
    ["a/one"; "b/two"] [] _ "b/two" Hp') as (fd & p & _ & Hs & _); [right; discriminate|by left|].
  exists (mkPlan ["b/two"] [] false []), fd, p. split; [exact Hp|exact Hs].
Defined.
Lemma override_heads_witness :
  plan_with (setup_with ∅ (Some "b/two")) (review_cli (plain_cli None) None) (Some "a/one") [] ["a/one"] = Ok same_family_forced
  /\ head (pl_candidates same_family_forced) = Some (reviewer_name (setup_with ∅ (Some "b/two")) "a/one").
Proof.
  assert (plan_with (setup_with ∅ (Some "b/two")) (review_cli (plain_cli None) None) (Some "a/one") [] ["a/one"] = Ok same_family_forced) as Hp by (vm_compute; reflexivity).
  split; [exact Hp|]. unfold plan_with in Hp.
  apply (override_heads (H := gregorian) no_timestamp (setup_with ∅ (Some "b/two")) (review_cli (plain_cli None) None) quiet_plan "a/one" [] ["a/one"]
    same_family_forced Hp); [vm_compute; reflexivity|vm_compute; discriminate].
Defined.

(** A chain of reviewers in an agent's own setting puts the text of the whole
    chain before its first model. *)
Example agent_chain_is_one_id :
  let agents := {[ "rev" := mkAgent None (Some "b/two,a/one") None ]} in
  let cli := mkCli None (Some "rev") "auto" false false false false None None in
  plan_with (setup_with agents None) (review_cli cli None) None [] [] = Ok (mkPlan ["b/two,a/one"; "b/two"; "a/one"] [] false []).
Proof. vm_compute. reflexivity. Qed.
(** The member of the pool that answered a chunk is refused as the reviewer of
    the next one, and of a second answer: the pool must not contain the
    primary, and it is the primary now. *)
Example pool_member_cannot_continue :
  let cli := mkCli (Some "c/main") None "auto" false false false false None (Some "gw=a/one,gw=b/two") in
  let vc := review_cli cli (Some "gw=b/two") in
  plan_with (setup_with ∅ None) vc None ["a/one"] [] = Ok (mkPlan ["a/one"] [] false [])
  /\ plan_with (setup_with ∅ None) vc (Some "b/two") [] [] = Err (PoolMemberTaken "b/two").
Proof. vm_compute. split; reflexivity. Qed.
