(* ===== verification/ReviewDispatch.v ===== *)
(** The call of one reviewer (crates/zoder-cli/src/agentic.rs,
    [dispatch_reviewer_for_model]): the guards before it, the gate of its
    health, the queues, the attempts with their rows in the ledger, and the
    checks of the answer.

    What is done to the ledger and to the store of health is kept as a list of
    events, in the order it is done; [replayed] is their effect on a store. *)
From stdpp Require Import gmap strings.
From S2P Require Import Prelude F64 Numbers Text Json Clock Health Config Corpus Policy Pricing Ledger Utilization Scenarios Router ProviderWire ProviderStream ContextOpt EngineRoutes Routes Oneshot ReviewPlan.
Local Open Scope string_scope.
Local Open Scope Z_scope.
Local Open Scope list_scope.
Local Open Scope zoder_scope.

(** ** Data *)

Record Receipt := mkReceipt { rp_requested : string; rp_response : option string; rp_provider : string }.
Record Completion := mkCompletion {
  cp_requested_model : string;
  cp_model : string;
  cp_content : string;
  cp_cost_usd : f64;
  cp_receipts : list Receipt;
  cp_chunks : nat;
  cp_length_exhausted : bool;
  cp_max_tokens : Z
}.
Inductive ReviewerFailure :=
| ReviewerFallback (message : string) (kind : ErrKind) (status : option Z) (retry_after token_plan_resets_at : option Z)
| ReviewerFatal (message : string)
| ReviewerSkipped (message : string).
Definition fallback_worthy_from (e : ProviderError) : ReviewerFailure :=
  ReviewerFallback (pe_message e) (pe_kind e) (pe_status e) (pe_retry_after e) (pe_token_plan_resets_at e).

(** What is written to the store of health. *)
Inductive HealthOp :=
| GateProbed (pf : ProbeFeed) (provider model : string)
| GateFailed (at_ : Z) (provider model : string) (e : ProviderError)
| GateSucceeded (at_ : Z) (provider model : string)
| FailureRecorded (model err : string) (t1 t2 : Z)
| ClassifiedRecorded (model err provider : string) (c : Classification) (wall : option Z) (t1 t2 : Z)
| SuccessRecorded (model : string) (latency : f64) (now : Z)
| ReachableRecorded (model : string) (latency : f64) (provider : string) (now : Z).
Definition apply_health (store : gmap string ModelHealth) (op : HealthOp) : gmap string ModelHealth :=
  match op with
  | GateProbed pf p m => (admit_model store pf p m).1
  | GateFailed at_ p m e => record_call_error store at_ p m e
  | GateSucceeded at_ p m => upd store m (fun h => record_gate_success_at h at_ p)
  | FailureRecorded m err t1 t2 => record_failure store m err t1 t2
  | ClassifiedRecorded m err p c wall t1 t2 => record_classified_failure_with_wall store m err p c wall t1 t2
  | SuccessRecorded m latency now => Health.record_success store m latency now
  | ReachableRecorded m latency p now => record_classified_success store m latency p Reachable now
  end.
Inductive ReviewEvent :=
| RowReserved
| RowArmed (provider model : string)
| RequestSent (provider model : string)
| RowWritten (e : Entry)
| Waited (delay : Z)
| HealthWritten (op : HealthOp).
Definition replayed (store : gmap string ModelHealth) (l : list ReviewEvent) : gmap string ModelHealth :=
  foldl (fun s e => match e with HealthWritten op => apply_health s op | _ => s end) store l.

(** ** The class of a failure *)

Definition MODEL_UNAVAILABLE_WORDS : list string :=
  ["model_not_found"; "model-not-found"; "model not found"; "model does not exist"; "model doesn't exist"; "deployment_not_found";
   "deployment not found"; "invalid_api_key"; "authentication"; "unauthorized"; "forbidden"; "permission denied"].
Definition provider_error_mentions_model_unavailable (message : string) : bool :=
  existsb (fun needle => str_contains needle (to_ascii_lowercase message)) MODEL_UNAVAILABLE_WORDS.
Definition provider_error_is_model_unavailable (e : ProviderError) (server_failures : Z) : bool :=
  if pe_emitted e then false
  else
    let by_kind := match pe_kind e with
                   | ErrHttp => provider_error_mentions_model_unavailable (pe_message e)
                   | ErrServer => 1 <? server_failures
                   | _ => false
                   end in
    match pe_status e with
    | Some st =>
        if (st =? 401) || (st =? 403) || (st =? 404) then true
        else if (500 <=? st) && (st <=? 599) then 1 <? server_failures
        else if (400 <=? st) && (st <=? 499) then provider_error_mentions_model_unavailable (pe_message e)
        else by_kind
    | None => by_kind
    end.
Definition reviewer_provenance_matches (p : Config.Provider) (requested served : string) : bool :=
  bool_decide (requested = served)
  || existsb (fun group => bool_decide (requested ∈ group) && bool_decide (served ∈ group)) (model_aliases p).

(** ** The attempts *)

Inductive ReserveEnd := RowTaken | RowRefused (e : string) | ReserveJoin (e : string).
(** What the outside does to one attempt. *)
Record CallFeed := mkCallFeed {
  ca_reserved : ReserveEnd;
  ca_armed : result unit string;
  ca_answer : result ChatResult ProviderError;
  ca_jitter : f64;
  ca_at : Z
}.
Inductive CallEnd := CallServed (r : ChatResult) | CallSpent (u : EmptyLengthUsage) | CallFailed (e : ReviewerFailure).
Definition reviewer_error (model text : string) : string := "reviewer " +:+ model +:+ ": " +:+ text.

Section Calls.
Context (p : Config.Provider) (model : string) (gated has_pool : bool) (feed : Z -> CallFeed).
Let pid := prov_id p.
Definition gate_failed (at_ : Z) (e : ProviderError) : ReviewEvent := HealthWritten (GateFailed at_ pid model e).
Definition classified (e : ProviderError) : Classification := match pe_status e with Some st => from_status st | None => classify_err_kind (pe_kind e) end.
(** After a failed call that is not to be tried again here. *)
Definition gave_up (at_ : Z) (e : ProviderError) (server_failures : Z) : CallEnd * list ReviewEvent :=
  if gated && retryable e then (CallFailed (fallback_worthy_from e), [gate_failed at_ e])
  else if provider_error_is_model_unavailable e server_failures || (has_pool && retryable e) then (CallFailed (fallback_worthy_from e), [])
  else (CallFailed (ReviewerFatal (reviewer_error model (pe_message e))),
        if has_pool then [HealthWritten (ClassifiedRecorded model (pe_message e) pid (classified e) None at_ at_)] else []).
Fixpoint attempts (retries : nat) (attempt server_failures : Z) : CallEnd * list ReviewEvent :=
  let f := feed attempt in
  match ca_reserved f with
  | RowRefused e => (CallFailed (ReviewerFatal ("reserving ledger entry before reviewer dispatch: " +:+ e)), [])
  | ReserveJoin e => (CallFailed (ReviewerFatal ("joining reviewer ledger reservation task: " +:+ e)), [])
  | RowTaken =>
      match ca_armed f with
      | Err e => (CallFailed (ReviewerFatal ("verifying ledger reservation before reviewer dispatch: " +:+ e)), [RowReserved])
      | Ok _ =>
          let sent := [RowReserved; RowArmed pid model; RequestSent pid model] in
          match ca_answer f with
          | Ok r => (CallServed r, sent)
          | Err e =>
              match pe_length_exhausted e with
              | Some usage => (CallSpent usage, sent)
              | None =>
                  let server_failures := if bool_decide (pe_kind e = ErrServer) then u32_sat_add server_failures 1 else server_failures in
                  if pe_emitted e then (CallFailed (ReviewerFatal (reviewer_error model (pe_message e))), sent)
                  else if gated && bool_decide (pe_kind e = ErrRateLimit) then (CallFailed (fallback_worthy_from e), sent ++ [gate_failed (ca_at f) e])
                  else match retries with
                  | S retries =>
                      if retryable e then
                        let wait := backoff_delay (ca_jitter f) attempt (pe_retry_after e) (overload_floor p e) in
                        let '(r, more) := attempts retries (attempt + 1) server_failures in
                        (r, sent ++ Waited wait :: more)
                      else let '(r, ev) := gave_up (ca_at f) e server_failures in (r, sent ++ ev)
                  | O => let '(r, ev) := gave_up (ca_at f) e server_failures in (r, sent ++ ev)
                  end
              end
          end
      end
  end.
End Calls.

(** ** One dispatch *)

(** The text of an error of a list of routes. *)
Definition list_error_text (e : RoutingError) : string :=
  match e with
  | NotAPair flag => flag +:+ " entries must be exact PROVIDER=MODEL pairs"
  | EmptyPart flag => flag +:+ " contains an empty provider or model"
  | Outside flag provider model allowed =>
      "effective route " +:+ provider +:+ "=" +:+ model +:+ " is outside " +:+ flag +:+ " (allowed: " +:+ format_allowed_pairs allowed
      +:+ "); refusing dispatch"
  | _ => ""
  end.

Definition PAID_WARNING : string :=
  "ARE YOU SURE YOU WANT TO USE A PAID MODEL? YOU WILL INCUR REAL COSTS THAT ARE TRACKED IN YOUR LOCAL LEDGER".
Definition paid_reviewer_text (model id_ why : string) : string :=
  "reviewer/panel model '" +:+ model +:+ "' requires paid spend; pass --allow-paid to use it." +:+ String newline (PAID_WARNING
  +:+ String newline ("  model=" +:+ id_ +:+ " (" +:+ why +:+ ")")).
Definition UNKNOWN_REVIEWER : string := "unknown reviewer model: not in corpus, cannot verify free".
Definition reviewer_row (eng : Engine) (model : string) : ModelEntry :=
  default (set_class "" false false false (Some UNKNOWN_REVIEWER) (entry_of_id model)) (corpus_get (eng_route_corpus eng) model).

(** What the outside does to one dispatch. *)
Record DispatchFeed := mkDispatchFeed {
  df_routing : result Feeds string;
  df_client : result unit string;
  df_store : gmap string ModelHealth;
  df_probe : ProbeFeed;
  df_slot : result unit string;
  df_group_slot : result unit string;
  df_turn : result unit string;
  df_call : Z -> CallFeed;
  df_row_written : result unit string;
  df_health_saved : result unit string;
  df_settled : Z;
  df_failed_at : Z;
  df_latency : f64
}.
Section Dispatch.
Context `{Calendar} (from_timestamp : Z -> option Z) (url_host : string -> option string) (bundled : list (string * ModelPrice))
  (show_f64 fixed4 : f64 -> string) (su : ReviewSetup) (vc : ReviewCli).
Let eng : Engine := su_engine su.
Let set_ : Settings := su_settings su.
Let cli : Cli := vc_cli vc.
Let opt : Options := vc_opts vc.
Definition capacity (model text : string) : ReviewerFailure := ReviewerFallback (reviewer_error model text) ErrRateLimit None None None.
Definition has_pool : bool := bool_decide (is_Some (vc_pool_routes vc)).
Definition cost_neutral (p : Config.Provider) : bool := negb (spends_by_call p).

(** The row of a call that spent its whole budget. *)
Definition spent_entry (p : Config.Provider) (model : string) (u : EmptyLengthUsage) (ts : Z) : Entry :=
  mkEntry ts (prov_id p) model (host_of_model model) (default 0 (el_prompt_tokens u)) (default 0 (el_completion_tokens u)) f64_zero true 1 None
    (finops_tags (o_task opt) (c_tier cli) (default 0 (el_prompt_tokens u)) None) (Some (posture_str (posture_of p))) None.
Definition BUDGET_SPENT : string := "budget exhausted, no answer".
Definition REVIEWER_TURN : string := "reviewer turn".

(** The row of an answer, and what is wrong with it. *)
Definition provenance_text (p : Config.Provider) (model : string) (r : ChatResult) : option string :=
  served ← tm_response_model (cr_telemetry r);
  if reviewer_provenance_matches p model served then None
  else Some ("reviewer provenance mismatch: requested " +:+ model +:+ ", response model " +:+ served).
Definition settle_review (p : Config.Provider) (model : string) (r : ChatResult) (ts : Z) : option string * Entry :=
  let row := reviewer_row eng model in
  let gate := the_gate url_host eng set_ cli opt in
  let tokens_in := default 0 (cr_prompt r) in
  let tokens_out := default (cr_tokens_out r) (cr_completion r) in
  let '(cost, unknown) := ledger_call_cost bundled (posture_of p) (tm_cost_usd (cr_telemetry r)) (st_pricing set_) model tokens_in
    (if bool_decide (is_Some (cr_prompt r)) then tokens_out else 0) (default 0 (cr_cached r)) (Some ts) in
  let verify := match verify_free url_host gate row (policy_telemetry r) with Err v => Some v | Ok _ => None end in
  let paid_ := paid_without_opt_in (c_allow_paid cli) (cost_neutral p) model (known_not_free eng model) (if unknown then None else Some cost) in
  let policy := joined (joined (free_violation_text show_f64 (id row) <$> verify) (paid_violation_text fixed4 REVIEWER_TURN <$> paid_))
                  (provenance_text p model r) in
  let violation := joined policy (if unknown && negb (c_allow_paid cli) && negb (cost_neutral p)
    then Some ("cost unknown: no valid telemetry or catalog price for " +:+ model) else None) in
  (policy, mkEntry ts (prov_id p) model (host_of_model model) tokens_in tokens_out cost unknown 1 violation
     (finops_tags (o_task opt) (c_tier cli) tokens_in (cr_cached r)) (Some (posture_str (posture_of p))) None).
(** [reconcile_policy_checked_turn] *)
Definition reconcile_review (f : DispatchFeed) (model : string) (entry : Entry) (policy : option string) : option string * list ReviewEvent :=
  match df_row_written f with
  | Err e => (Some e, [])
  | Ok _ =>
      match policy with
      | None => (None, [RowWritten entry])
      | Some failure =>
          (Some ("policy violation during " +:+ REVIEWER_TURN +:+ ": " +:+ failure
                 +:+ match df_health_saved f with
                     | Err e => "; additionally failed to persist routing health: " +:+ e
                     | Ok _ => " (exiting non-zero)"
                     end),
           [RowWritten entry; HealthWritten (FailureRecorded model ("policy: " +:+ failure) (df_failed_at f) (df_failed_at f))])
      end
  end.
Definition settle_call (f : DispatchFeed) (p : Config.Provider) (gated : bool) (requested model : string) (max_tokens : Z) (r : ChatResult) :
  result Completion ReviewerFailure * list ReviewEvent :=
  let gate_ev := if gated then [HealthWritten (GateSucceeded (df_settled f) (prov_id p) model)] else [] in
  let '(policy, entry) := settle_review p model r (df_settled f) in
  let '(bad, ev) := reconcile_review f model entry policy in
  match bad with
  | Some e => (Err (ReviewerFatal ("policy check during reviewer turn: " +:+ e)), gate_ev ++ ev)
  | None =>
      let ok := if has_pool then ReachableRecorded model (df_latency f) (prov_id p) (df_settled f) else SuccessRecorded model (df_latency f) (df_settled f) in
      (Ok (mkCompletion requested model (cr_content r) (cost_usd entry)
             [mkReceipt model (tm_response_model (cr_telemetry r)) (prov_id p)] 1 false max_tokens),
       gate_ev ++ ev ++ [HealthWritten ok])
  end.
Definition settle_spent (f : DispatchFeed) (p : Config.Provider) (requested model : string) (max_tokens : Z) (u : EmptyLengthUsage) :
  result Completion ReviewerFailure * list ReviewEvent :=
  match df_row_written f with
  | Err e => (Err (ReviewerFatal ("reconciling ledger entry: " +:+ e)), [])
  | Ok _ =>
      (Ok (mkCompletion requested model "" f64_zero [] 1 true max_tokens),
       [RowWritten (spent_entry p model u (df_settled f)); HealthWritten (FailureRecorded model BUDGET_SPENT (df_failed_at f) (df_failed_at f))])
  end.
(** Before the attempts: the health of a gated model, then a turn of each
    queue. *)
Definition admitted (f : DispatchFeed) (p : Config.Provider) (gated : bool) (model : string) : result unit ReviewerFailure * list ReviewEvent :=
  let '(skip, ev) := if gated then ((admit_model (df_store f) (df_probe f) (prov_id p) model).2, [HealthWritten (GateProbed (df_probe f) (prov_id p) model)])
                     else (None, []) in
  match skip with
  | Some note => (Err (ReviewerSkipped note), ev)
  | None =>
      match df_slot f with
      | Err e => (Err (capacity model e), ev)
      | Ok _ =>
          match if bool_decide ((provider_call_budget p).1.1 = prov_id p) then Ok tt else df_group_slot f with
          | Err e => (Err (capacity model e), ev)
          | Ok _ => match df_turn f with Err e => (Err (capacity model e), ev) | Ok _ => (Ok tt, ev) end
          end
      end
  end.
(** The guards that need no call. *)
Definition dispatch_guards (f : DispatchFeed) (model system user : string) : result Config.Provider string :=
  match df_routing f with
  | Err e => Err ("loading routing context: " +:+ e)
  | Ok fd =>
      match provider_of from_timestamp su fd model with
      | None => Err (no_reviewer_provider_message from_timestamp su vc fd model)
      | Some p =>
          match require_allowed_reviewer_route cli (prov_id p) model with
          | Err e => Err (list_error_text e)
          | Ok _ =>
              match check (the_gate url_host eng set_ cli opt) (reviewer_row eng model) (spends_by_call p) (cost_neutral p) with
              | NeedConfirm id_ why => Err (paid_reviewer_text model id_ why)
              | Allow =>
                  let levers := context_levers_for (st_context set_) (st_deployment set_) model in
                  match fit_prompt system user (window_for (st_windows set_) (cf_providers (eng_cfg eng)) (prov_id p) model levers) with
                  | Err e => Err (reviewer_error model (too_large_text e))
                  | Ok _ => match df_client f with Err e => Err ("constructing provider: " +:+ e) | Ok _ => Ok p end
                  end
              end
          end
      end
  end.
(** [dispatch_reviewer_for_model] *)
Definition dispatch_reviewer_for_model (f : DispatchFeed) (requested model system user : string) (max_tokens : Z) :
  result Completion ReviewerFailure * list ReviewEvent :=
  match dispatch_guards f model system user with
  | Err e => (Err (ReviewerFatal e), [])
  | Ok p =>
      let gated := bool_decide (prov_id p ∈ st_gated set_) in
      match admitted f p gated model with
      | (Err e, ev) => (Err e, ev)
      | (Ok _, ev) =>
          let '(r, called) := attempts p model gated has_pool (df_call f) (o_retries opt) 0 0 in
          let '(r, after) := match r with
                             | CallFailed e => (Err e, [])
                             | CallSpent u => settle_spent f p requested model max_tokens u
                             | CallServed x => settle_call f p gated requested model max_tokens x
                             end in
          (r, ev ++ called ++ after)
      end
  end.
End Dispatch.

(** * Theorems *)

Definition is_request (e : ReviewEvent) : bool := match e with RequestSent _ _ => true | _ => false end.
Definition requests (l : list ReviewEvent) : nat := length (filterb is_request l).
Lemma requests_app a b : requests (a ++ b) = (requests a + requests b)%nat.
Proof. unfold requests, filterb. by rewrite List.filter_app, length_app. Qed.
(** The rows of a run: how many are reserved and not armed yet, and the call
    the last one was armed for; a request needs a row armed for it. *)
Definition row_step (s : nat * option (string * string)) (e : ReviewEvent) : option (nat * option (string * string)) :=
  match e with
  | RowReserved => Some (S s.1, None)
  | RowArmed p m => match s.1 with O => None | S n => Some (n, Some (p, m)) end
  | RequestSent p m => if bool_decide (s.2 = Some (p, m)) then Some (s.1, None) else None
  | _ => Some (s.1, None)
  end.
Fixpoint rows (s : nat * option (string * string)) (l : list ReviewEvent) : option (nat * option (string * string)) :=
  match l with [] => Some s | e :: l => s ← row_step s e; rows s l end.
Lemma rows_app l k : forall s, rows s (l ++ k) = (s ← rows s l; rows s k).
Proof. induction l as [|e l IH]; intros s; [done|]. cbn. destruct (row_step s e); [apply IH|done]. Qed.

(** An attempt that is followed by another. *)
Definition passes (gated : bool) (e : ProviderError) : Prop :=
  retryable e = true /\ ~ (gated = true /\ pe_kind e = ErrRateLimit).
Lemma retryable_unemitted e : retryable e = true -> pe_emitted e = false /\ pe_length_exhausted e = None.
Proof. unfold retryable. destruct (pe_emitted e), (pe_length_exhausted e); done. Qed.

Lemma attempts_events p model gated has_pool feed : forall retries attempt sf r ev,
  attempts p model gated has_pool feed retries attempt sf = (r, ev) ->
  (requests ev <= S retries)%nat /\
  (forall e, e ∈ ev -> is_request e = true -> e = RequestSent (prov_id p) model) /\
  (forall n, exists s, rows (n, None) ev = Some s) /\
  (forall x, r = CallServed x -> RequestSent (prov_id p) model ∈ ev) /\
  (forall e, RowWritten e ∉ ev).
Proof.
  assert (forall sf at_ e r ev, gave_up p model gated has_pool at_ e sf = (r, ev) ->
    requests ev = 0%nat /\ (forall e', e' ∈ ev -> exists op, e' = HealthWritten op) /\ (forall n, exists s, rows (n, None) ev = Some s) /\ (forall x, r <> CallServed x)) as Hgive.
  { intros sf at_ e r ev. unfold gave_up. destruct (gated && retryable e); [intros [<- <-]%pair_eq; split_and!; [done|set_solver|by eexists|done]|].
    destruct (_ || _); [intros [<- <-]%pair_eq; split_and!; [done|set_solver|by eexists|done]|]. intros [<- <-]%pair_eq. destruct has_pool; split_and!; try done; try set_solver; by eexists. }
  set (sent := [RowReserved; RowArmed (prov_id p) model; RequestSent (prov_id p) model]).
  assert (forall q, requests (sent ++ q) = S (requests q)) as Hsent by (intros q; by rewrite requests_app).
  assert (forall n q, rows (n, None) (sent ++ q) = rows (n, None) q) as Hrows by (intros n q; cbn; by rewrite bool_decide_true).
  assert (forall q e, e ∈ sent ++ q -> is_request e = true -> e = RequestSent (prov_id p) model \/ e ∈ q) as Hin by (intros q e; unfold sent; set_solver).
  assert (forall q e, RowWritten e ∈ sent ++ q -> RowWritten e ∈ q) as Hw by (intros q e; unfold sent; set_solver).
  assert (forall q, RequestSent (prov_id p) model ∈ sent ++ q) as Hmem by (intros q; unfold sent; set_solver).
  assert (forall at_ e sf r ev retries, (let '(r, ev) := gave_up p model gated has_pool at_ e sf in (r, sent ++ ev)) = (r, ev) ->
    (requests ev <= S retries)%nat /\ (forall e, e ∈ ev -> is_request e = true -> e = RequestSent (prov_id p) model) /\
    (forall n, exists s, rows (n, None) ev = Some s) /\
    (forall x, r = CallServed x -> RequestSent (prov_id p) model ∈ ev) /\ (forall e, RowWritten e ∉ ev)) as Hend.
  { intros at_ e sf r ev retries. destruct (gave_up _ _ _ _ _ _ _) as [r' ev'] eqn:Eg. intros [<- <-]%pair_eq. apply Hgive in Eg as (H1 & H2 & H3 & H4).
    rewrite Hsent, H1. split; [lia|]. split; [|split; [|split]].
    - intros e' He Hs. destruct (Hin _ _ He Hs) as [|Hq]; [done|]. destruct (H2 _ Hq) as [op ->]. done.
    - intros n. rewrite Hrows. destruct (H3 n) as [s Hs]. by exists s.
    - intros x ->. by destruct (H4 x).
    - intros e' He. apply Hw in He. destruct (H2 _ He) as [op [=]]. }
  induction retries as [|retries IH]; intros attempt sf r ev; cbn [attempts].
  all: destruct (ca_reserved (feed attempt)) as [|e|e];
    [|intros [<- <-]%pair_eq; split_and!; [cbn; lia|set_solver|intros n; by eexists|done|set_solver]
     |intros [<- <-]%pair_eq; split_and!; [cbn; lia|set_solver|intros n; by eexists|done|set_solver]].
  all: destruct (ca_armed (feed attempt)) as [u|e];
    [|intros [<- <-]%pair_eq; split_and!; [cbn; lia|set_solver|intros n; by eexists|done|set_solver]].
  all: fold sent; destruct (ca_answer (feed attempt)) as [x|e];
    [intros [<- <-]%pair_eq; rewrite <- (app_nil_r sent), Hsent; split; [cbn; lia|]; split;
      [intros e He Hs; destruct (Hin _ _ He Hs) as [|Hq]; [done|set_solver]|]; split; [intros n; rewrite Hrows; by eexists|]; split; [done|set_solver]|].
  all: destruct (pe_length_exhausted e) as [u'|] eqn:El;
    [intros [<- <-]%pair_eq; rewrite <- (app_nil_r sent), Hsent; split; [cbn; lia|]; split;
      [intros e' He Hs; destruct (Hin _ _ He Hs) as [|Hq]; [done|set_solver]|]; split; [intros n; rewrite Hrows; by eexists|]; split; [done|set_solver]|].
  all: destruct (pe_emitted e);
    [intros [<- <-]%pair_eq; rewrite <- (app_nil_r sent), Hsent; split; [cbn; lia|]; split;
      [intros e' He Hs; destruct (Hin _ _ He Hs) as [|Hq]; [done|set_solver]|]; split; [intros n; rewrite Hrows; by eexists|]; split; [done|set_solver]|].
  all: destruct (gated && bool_decide (pe_kind e = ErrRateLimit));
    [intros [<- <-]%pair_eq; rewrite Hsent; split; [cbn; lia|]; split;
      [intros e' He Hs; destruct (Hin _ _ He Hs) as [|Hq]; [done|set_solver]|]; split; [intros n; rewrite Hrows; by eexists|]; split; [done|set_solver]|].
  - apply Hend.
  - destruct (retryable e); [|apply Hend]. destruct (attempts _ _ _ _ _ retries _ _) as [r' more] eqn:Ea. intros [<- <-]%pair_eq.
    apply IH in Ea as (H1 & H2 & H3 & H4 & H5). rewrite Hsent. split; [cbn; exact (le_n_S _ _ H1)|]. split; [|split; [|split]].
    + intros e' He Hs. destruct (Hin _ _ He Hs) as [|[->|Hq]%elem_of_cons]; [done|done|by apply H2].
    + intros n. rewrite Hrows. destruct (H3 n) as (s & Hs). by exists s.
    + intros x Hx. apply Hmem.
    + intros e' He. apply Hw in He. apply elem_of_cons in He as [[=]|He]. by destruct (H5 e').
Qed.

(** Server errors up to attempt [attempt + k]. *)
Definition count_server (f : CallFeed) (sf : Z) : Z :=
  match ca_answer f with Err e => if bool_decide (pe_kind e = ErrServer) then u32_sat_add sf 1 else sf | Ok _ => sf end.
Fixpoint server_failures_at (feed : Z -> CallFeed) (attempt : Z) (k : nat) (sf : Z) : Z :=
  match k with O => count_server (feed attempt) sf | S k => server_failures_at feed (attempt + 1) k (count_server (feed attempt) sf) end.
(** What an attempt decides, the last one or one that is not followed. *)
Definition decided (p : Config.Provider) (model : string) (gated has_pool : bool) (f : CallFeed) (last_ : bool) (sf : Z) (r : CallEnd) : Prop :=
  match ca_reserved f, ca_armed f, ca_answer f with
  | RowTaken, Ok _, Ok x => r = CallServed x
  | RowTaken, Ok _, Err e =>
      match pe_length_exhausted e with
      | Some u => r = CallSpent u
      | None =>
          if pe_emitted e then r = CallFailed (ReviewerFatal (reviewer_error model (pe_message e)))
          else if gated && bool_decide (pe_kind e = ErrRateLimit) then r = CallFailed (fallback_worthy_from e)
          else (last_ = true \/ retryable e = false) /\
               r = CallFailed (if (gated && retryable e) || provider_error_is_model_unavailable e sf || (has_pool && retryable e)
                               then fallback_worthy_from e else ReviewerFatal (reviewer_error model (pe_message e)))
      end
  | _, _, _ => exists text, r = CallFailed (ReviewerFatal text)
  end.
(** The first attempt decides. *)
Ltac decides_now known :=
  exists 0%nat; cbn [attempts server_failures_at Z.of_nat]; rewrite Z.add_0_r; unfold decided; known tt; split; [lia|]; split; [lia|].
(** The attempts of a reviewer end, at the first that is not a transient
    failure or at the last one allowed: with its answer, with its spent
    budget, or with an error.  Another candidate is tried only for a failure
    that showed nothing, and is about the model or the capacity of its
    server. *)
Theorem attempts_exact p model gated has_pool feed : forall retries attempt sf,
  exists k, (k <= retries)%nat /\
    (forall j, (j < k)%nat -> exists e, ca_answer (feed (attempt + Z.of_nat j)) = Err e /\ passes gated e) /\
    decided p model gated has_pool (feed (attempt + Z.of_nat k)) (bool_decide (k = retries)) (server_failures_at feed attempt k sf)
      (attempts p model gated has_pool feed retries attempt sf).1.
Proof.
  assert (forall at_ e sf, (gave_up p model gated has_pool at_ e sf).1 =
    CallFailed (if (gated && retryable e) || provider_error_is_model_unavailable e sf || (has_pool && retryable e)
                then fallback_worthy_from e else ReviewerFatal (reviewer_error model (pe_message e)))) as Hgive.
  { intros at_ e sf. unfold gave_up. destruct (gated && retryable e); [done|]. cbn [orb]. by destruct (_ || _). }
  induction retries as [|retries IH]; intros attempt sf.
  all: destruct (ca_reserved (feed attempt)) eqn:Er;
    [|decides_now ltac:(fun _ => rewrite Er); by eexists
     |decides_now ltac:(fun _ => rewrite Er); by eexists].
  all: destruct (ca_armed (feed attempt)) eqn:Ea;
    [|decides_now ltac:(fun _ => rewrite Er, Ea); by eexists].
  all: destruct (ca_answer (feed attempt)) as [x|e] eqn:Ex;
    [decides_now ltac:(fun _ => rewrite Er, Ea, Ex); done|].
  all: destruct (pe_length_exhausted e) as [u'|] eqn:El;
    [decides_now ltac:(fun _ => rewrite Er, Ea, Ex, El); done|].
  all: destruct (pe_emitted e) eqn:Ee;
    [decides_now ltac:(fun _ => rewrite Er, Ea, Ex, El, Ee); done|].
  all: destruct (gated && bool_decide (pe_kind e = ErrRateLimit)) eqn:Eg;
    [decides_now ltac:(fun _ => rewrite Er, Ea, Ex, El, Ee, Eg); done|].
  all: set (sf' := if bool_decide (pe_kind e = ErrServer) then u32_sat_add sf 1 else sf).
  all: assert (count_server (feed attempt) sf = sf') as Hc by (unfold count_server; by rewrite Ex).
  - decides_now ltac:(fun _ => rewrite Er, Ea, Ex, El, Ee, Eg, Hc; fold sf'). split; [by left|]. rewrite <- (Hgive (ca_at (feed attempt)) e sf'). by destruct (gave_up _ _ _ _ _ _ _).
  - destruct (retryable e) eqn:Ert.
    + destruct (IH (attempt + 1) sf') as (k & Hk & Hp & Hd). exists (S k). split; [lia|]. split.
      * intros [|j] Hj; [rewrite Z.add_0_r; exists e; split; [done|]; split; [done|]; intros [-> Hrl]; by rewrite Hrl in Eg|].
        rewrite Nat2Z.inj_succ. replace (attempt + Z.succ (Z.of_nat j)) with (attempt + 1 + Z.of_nat j) by lia. apply Hp. lia.
      * cbn [attempts server_failures_at]. rewrite Er, Ea, Ex, El, Ee, Eg, Ert, Hc. fold sf'. rewrite Nat2Z.inj_succ.
        replace (attempt + Z.succ (Z.of_nat k)) with (attempt + 1 + Z.of_nat k) by lia.
        replace (bool_decide (S k = S retries)) with (bool_decide (k = retries)) by (apply bool_decide_ext; lia).
        destruct (attempts p model gated has_pool feed retries (attempt + 1) sf') as [r more] eqn:Eat. cbn [fst] in *. exact Hd.
    + decides_now ltac:(fun _ => rewrite Er, Ea, Ex, El, Ee, Eg, Hc, Ert; fold sf'). split; [by right|]. pose proof (Hgive (ca_at (feed attempt)) e sf') as Hg. rewrite Ert in Hg. rewrite <- Hg. by destruct (gave_up _ _ _ _ _ _ _).
Qed.

Section DispatchTheorems.
Context `{Calendar} (from_timestamp : Z -> option Z) (url_host : string -> option string) (bundled : list (string * ModelPrice))
  (show_f64 fixed4 : f64 -> string) (su : ReviewSetup) (vc : ReviewCli).
Local Notation dispatch := (dispatch_reviewer_for_model from_timestamp url_host bundled show_f64 fixed4 su vc).

(** What was settled before the first request. *)
Definition cleared (f : DispatchFeed) (model system user : string) (p : Config.Provider) : Prop :=
  (exists fd, df_routing f = Ok fd /\ provider_of from_timestamp su fd model = Some p) /\
  require_allowed_reviewer_route (vc_cli vc) (prov_id p) model = Ok tt /\
  (c_allow_paid (vc_cli vc) = true \/ spends_by_call p = false) /\
  exists w, fit_prompt system user (window_for (st_windows (su_settings su)) (cf_providers (eng_cfg (su_engine su))) (prov_id p) model
    (context_levers_for (st_context (su_settings su)) (st_deployment (su_settings su)) model)) = Ok w.
Lemma dispatch_guards_ok f model system user p : dispatch_guards from_timestamp url_host su vc f model system user = Ok p -> cleared f model system user p.
Proof.
  unfold dispatch_guards. destruct (df_routing f) as [fd|] eqn:Er; [|done]. destruct (provider_of from_timestamp su fd model) as [q|] eqn:Eq; [|done].
  destruct (require_allowed_reviewer_route _ _ _) as [[]|] eqn:Ea; [|done]. destruct (check _ _ _ _) eqn:Ec; [|done].
  destruct (fit_prompt _ _ _) as [x|] eqn:Ef; [|done]. destruct (df_client f); [|done]. intros [= <-]. split; [by exists fd|]. split; [done|]. split.
  - unfold check, the_gate in Ec. cbn in Ec. destruct (c_allow_paid _); [by left|]. destruct (spends_by_call q); [done|by right].
  - by exists x.
Qed.
Lemma reconcile_events f model entry policy bad ev : reconcile_review f model entry policy = (bad, ev) ->
  requests ev = 0%nat /\ (forall s, exists s', rows s ev = Some s') /\ (forall e, e ∈ ev -> is_request e = false) /\
  (bad = None -> ev = [RowWritten entry] /\ policy = None).
Proof.
  unfold reconcile_review. destruct (df_row_written f); [|intros [= <- <-]; split_and!; [done|by eexists|set_solver|done]].
  destruct policy; intros [= <- <-]; split_and!; try done; try by eexists. all: intros e He; set_unfold in He; naive_solver.
Qed.
Lemma admitted_events f p gated model r ev : admitted f p gated model = (r, ev) ->
  requests ev = 0%nat /\ (forall s, exists s', rows s ev = Some s' /\ s'.1 = s.1 /\ (s.2 = None -> s' = s)) /\
  (forall e, e ∈ ev -> is_request e = false /\ (forall x, e <> RowWritten x)) /\
  (r = Ok tt -> gated = true -> (admit_model (df_store f) (df_probe f) (prov_id p) model).2 = None).
Proof.
  unfold admitted. set (probe := HealthWritten _). destruct gated.
  - destruct (admit_model _ _ _ _).2 as [note|]; [intros [= <- <-]|destruct (df_slot f); [destruct (if bool_decide _ then _ else _); [destruct (df_turn f)|]|]; intros [= <- <-]].
    all: split_and!; try done; [intros [n o]; eexists; split; [done|]; split; [done|by intros [= ->]]|intros y ->%list_elem_of_singleton; split; [done|by intros x [=]]].
  - destruct (df_slot f); [destruct (if bool_decide _ then _ else _); [destruct (df_turn f)|]|]; intros [= <- <-].
    all: split_and!; try done; [intros [n o]; eexists; split; [done|]; split; [done|done]|intros y Hy; by apply not_elem_of_nil in Hy].
Qed.

Lemma settle_call_events f p gated requested model max_tokens x r ev :
  settle_call url_host bundled show_f64 fixed4 su vc f p gated requested model max_tokens x = (r, ev) ->
  requests ev = 0%nat /\ (forall s, exists s', rows s ev = Some s') /\ (forall e, e ∈ ev -> is_request e = false) /\
  (forall c, r = Ok c -> cp_requested_model c = requested /\ cp_model c = model /\ cp_content c = cr_content x /\ cp_length_exhausted c = false /\
     (settle_review url_host bundled show_f64 fixed4 su vc p model x (df_settled f)).1 = None /\
     RowWritten (settle_review url_host bundled show_f64 fixed4 su vc p model x (df_settled f)).2 ∈ ev).
Proof.
  unfold settle_call. destruct (settle_review _ _ _ _ _ _ _ _ _ _) as [policy entry]. destruct (reconcile_review f model entry policy) as [bad ev'] eqn:Er.
  apply reconcile_events in Er as (H1 & H2 & H3 & H4). set (gate_ev := if gated then _ else _).
  assert (requests gate_ev = 0%nat /\ (forall s, exists s', rows s gate_ev = Some s') /\ forall e, e ∈ gate_ev -> is_request e = false) as (G1 & G2 & G3).
  { unfold gate_ev. destruct gated; split_and!; try done; try by eexists. all: intros e He; set_unfold in He; naive_solver. }
  destruct bad as [t|]; intros [<- <-]%pair_eq; split_and!.
  - by rewrite requests_app, G1, H1.
  - intros s. rewrite rows_app. destruct (G2 s) as [s' ->]. apply H2.
  - intros e [He|He]%elem_of_app; [by apply G3|by apply H3].
  - done.
  - by rewrite !requests_app, G1, H1.
  - intros s. rewrite !rows_app. destruct (G2 s) as [s' ->]. cbn. rewrite rows_app. destruct (H2 s') as [s2 ->]. by eexists.
  - intros e [He|[He| ->%list_elem_of_singleton]%elem_of_app]%elem_of_app; [by apply G3|by apply H3|done].
  - intros c [= <-]. destruct (H4 eq_refl) as [-> ->]. cbn. split_and!; try done; rewrite !elem_of_app; right; left; by left.
Qed.
Lemma settle_spent_events f p requested model max_tokens u r ev : settle_spent vc f p requested model max_tokens u = (r, ev) ->
  requests ev = 0%nat /\ (forall s, exists s', rows s ev = Some s') /\ (forall e, e ∈ ev -> is_request e = false) /\
  (forall c, r = Ok c -> cp_requested_model c = requested /\ cp_model c = model /\ cp_content c = "" /\ cp_length_exhausted c = true /\
     RowWritten (spent_entry vc p model u (df_settled f)) ∈ ev).
Proof.
  unfold settle_spent. destruct (df_row_written f); intros [<- <-]%pair_eq; split_and!; try done; try by eexists.
  - intros y Hy. set_unfold in Hy. naive_solver.
  - intros c [= <-]. split_and!; try done. by left.
  - intros y Hy. by apply not_elem_of_nil in Hy.
Qed.

(** One dispatch asks one provider for one model: the provider its reading of
    the routing selects, on a route every list allows, not paid by the call
    unless the operator opted in, with a prompt accepted for the window, and a
    gated model only when its gate admits it.  Every request has a row of the
    ledger armed for it, and there are at most one more than the retries; an
    answer has its row written. *)
Theorem reviewer_calls_accounted f requested model system user max_tokens r ev : dispatch f requested model system user max_tokens = (r, ev) ->
  (exists s, rows (0%nat, None) ev = Some s) /\ (requests ev <= S (o_retries (vc_opts vc)))%nat /\
  (forall e, e ∈ ev -> is_request e = true -> exists p, e = RequestSent (prov_id p) model /\ cleared f model system user p /\
     (prov_id p ∈ st_gated (su_settings su) -> (admit_model (df_store f) (df_probe f) (prov_id p) model).2 = None)) /\
  (forall c, r = Ok c -> cp_requested_model c = requested /\ cp_model c = model /\
     exists e, RowWritten e ∈ ev /\ e_model e = model).
Proof.
  unfold dispatch_reviewer_for_model. destruct (dispatch_guards _ _ _ _ _ _ _ _) as [p|e] eqn:Eg.
  2: { intros [<- <-]%pair_eq. split_and!; [by eexists|cbn; lia|intros e' He; by apply not_elem_of_nil in He|done]. }
  apply dispatch_guards_ok in Eg. set (gated := bool_decide (prov_id p ∈ st_gated (su_settings su))).
  destruct (admitted f p gated model) as [adm ev0] eqn:Ea. apply admitted_events in Ea as (A1 & A2 & A3 & A4). destruct (A2 (0%nat, None)) as (s0 & A2s & _ & A2e).
  rewrite (A2e eq_refl) in A2s.
  destruct adm as [[]|e].
  2: { intros [<- <-]%pair_eq. split_and!; [by exists (0%nat, None)|rewrite A1; lia| |done]. intros e' He Hr. destruct (A3 _ He) as [Hf _]. by rewrite Hr in Hf. }
  destruct (attempts p model gated (has_pool vc) (df_call f) (o_retries (vc_opts vc)) 0 0) as [ce ev1] eqn:Et. apply attempts_events in Et as (T1 & T2 & T3 & T4 & T5).
  destruct (T3 0%nat) as [s1 Hs1].
  match goal with |- context [match ce with CallServed _ => _ | CallSpent _ => _ | CallFailed _ => _ end] => set (final := match ce with CallServed _ => _ | CallSpent _ => _ | CallFailed _ => _ end) end.
  assert (exists s2, rows s1 final.2 = Some s2) as Hrows. 1: destruct ce as [x|u|e']; cbn in final; subst final.
  1: destruct (settle_call _ _ _ _ _ _ _ _ _ _ _ _ _) as [r' ev2] eqn:Es; apply settle_call_events in Es as (_ & H2 & _); apply H2.
  1: destruct (settle_spent _ _ _ _ _ _ _) as [r' ev2] eqn:Es; apply settle_spent_events in Es as (_ & H2 & _); apply H2.
  1: by eexists.
  assert (requests final.2 = 0%nat /\ forall e, e ∈ final.2 -> is_request e = false) as [Hreq Hnone].
  { subst final. destruct ce as [x|u|e'].
    - destruct (settle_call _ _ _ _ _ _ _ _ _ _ _ _ _) as [r' ev2] eqn:Es; apply settle_call_events in Es as (H1 & _ & H3 & _). done.
    - destruct (settle_spent _ _ _ _ _ _ _) as [r' ev2] eqn:Es; apply settle_spent_events in Es as (H1 & _ & H3 & _). done.
    - split; [done|]. intros e He. by apply not_elem_of_nil in He. }
  assert (forall c, final.1 = Ok c -> cp_requested_model c = requested /\ cp_model c = model /\ exists e, RowWritten e ∈ final.2 /\ e_model e = model) as Hok.
  { subst final. intros c. destruct ce as [x|u|e'].
    - destruct (settle_call _ _ _ _ _ _ _ _ _ _ _ _ _) as [r' ev2] eqn:Es; apply settle_call_events in Es as (_ & _ & _ & H4). cbn. intros ->.
      destruct (H4 c eq_refl) as (-> & -> & _ & _ & _ & Hrow). split_and!; try done. eexists. split; [exact Hrow|]. unfold settle_review.
      by destruct (ledger_call_cost _ _ _ _ _ _ _ _ _).
    - destruct (settle_spent _ _ _ _ _ _ _) as [r' ev2] eqn:Es; apply settle_spent_events in Es as (_ & _ & _ & H4). cbn. intros ->.
      destruct (H4 c eq_refl) as (-> & -> & _ & _ & Hrow). split_and!; try done. by eexists.
    - done. }
  destruct final as [r' ev2]. cbn [fst snd] in *. intros [<- <-]%pair_eq. split; [|split; [|split]].
  - destruct Hrows as [s2 Hs2]. exists s2. by rewrite rows_app, A2s; cbn; rewrite rows_app, Hs1.
  - rewrite !requests_app, A1, Hreq. lia.
  - intros e [He|[He|He]%elem_of_app]%elem_of_app Hr.
    + destruct (A3 _ He) as [Hf _]. by rewrite Hr in Hf.
    + exists p. split; [by apply T2|]. split; [done|]. intros Hgp. apply A4; [done|]. unfold gated. by apply bool_decide_eq_true.
    + by rewrite (Hnone _ He) in Hr.
  - intros c Hc. destruct (Hok c Hc) as (H1 & H2 & e & He & Hm). split_and!; [done..|]. exists e. split; [|done]. rewrite !elem_of_app. by right; right.
Qed.

Lemma dispatched_ok f requested model system user max_tokens c ev : dispatch f requested model system user max_tokens = (Ok c, ev) ->
  exists p, cleared f model system user p /\
    ((exists x ev2, settle_call url_host bundled show_f64 fixed4 su vc f p (bool_decide (prov_id p ∈ st_gated (su_settings su))) requested model max_tokens x = (Ok c, ev2) /\
        forall e, e ∈ ev2 -> e ∈ ev)
     \/ exists u ev2, settle_spent vc f p requested model max_tokens u = (Ok c, ev2) /\ forall e, e ∈ ev2 -> e ∈ ev).
Proof.
  unfold dispatch_reviewer_for_model. destruct (dispatch_guards _ _ _ _ _ _ _ _) as [p|e] eqn:Eg; [|done].
  apply dispatch_guards_ok in Eg. destruct (admitted _ _ _ _) as [[]  ev0]; [|done].
  destruct (attempts _ _ _ _ _ _ _ _) as [[x|u|e'] ev1]; [| |done].
  - destruct (settle_call _ _ _ _ _ _ _ _ _ _ _ _ _) as [r' ev2] eqn:Es. intros [-> <-]%pair_eq. exists p. split; [done|]. left. exists x, ev2. split; [done|]. intros e He. rewrite !elem_of_app. by right; right.
  - destruct (settle_spent _ _ _ _ _ _ _) as [r' ev2] eqn:Es. intros [-> <-]%pair_eq. exists p. split; [done|]. right. exists u, ev2. split; [done|]. intros e He. rewrite !elem_of_app. by right; right.
Qed.
(** A reviewer's answer was checked and its row written before it is used: a
    model known to be free was served for free, and the model the answer names
    is the one asked for or one the provider says is the same.  A budget spent
    without an answer is an empty completion with a row of unknown cost. *)
Theorem review_answer_checked f requested model system user max_tokens c ev : dispatch f requested model system user max_tokens = (Ok c, ev) ->
  exists p, cleared f model system user p /\
  if cp_length_exhausted c then cp_content c = "" /\ exists e, RowWritten e ∈ ev /\ cost_unknown e = true /\ e_provider e = prov_id p /\ e_model e = model
  else exists x, cp_content c = cr_content x /\
    verify_free url_host (the_gate url_host (su_engine su) (su_settings su) (vc_cli vc) (vc_opts vc)) (reviewer_row (su_engine su) model)
      (policy_telemetry x) = Ok tt /\
    (forall served, tm_response_model (cr_telemetry x) = Some served -> reviewer_provenance_matches p model served = true) /\
    exists e, RowWritten e ∈ ev /\ e_provider e = prov_id p /\ e_model e = model.
Proof.
  intros (p & Hc & [(x & ev2 & Hs & Hsub)|(u & ev2 & Hs & Hsub)])%dispatched_ok; exists p; (split; [exact Hc|]).
  - apply settle_call_events in Hs as (_ & _ & _ & H4). destruct (H4 c eq_refl) as (_ & _ & Hx & -> & Hp & Hrow). exists x. split; [done|].
    unfold settle_review in *. destruct (ledger_call_cost _ _ _ _ _ _ _ _ _) as [cost unknown]. cbn [fst snd] in *.
    destruct (verify_free _ _ _ _) as [[]|v]; cbn [fmap option_fmap option_map joined] in Hp.
    + split; [done|]. split.
      * intros served Hsv. unfold provenance_text in Hp. rewrite Hsv in Hp. cbn in Hp. destruct (reviewer_provenance_matches p model served); [done|].
        by destruct (paid_without_opt_in _ _ _ _ _).
      * eexists. split; [by apply Hsub|]. done.
    + destruct (paid_without_opt_in _ _ _ _ _); by destruct (provenance_text _ _ _).
  - apply settle_spent_events in Hs as (_ & _ & _ & H4). destruct (H4 c eq_refl) as (_ & _ & Hx & -> & Hrow). split; [done|]. eexists. split; [by apply Hsub|]. done.
Qed.
(** The check of a charge without the opt-in never fires: the guards before
    the call leave only providers it does not look at, so a charge that such a
    provider reports is accepted for a model the corpus does not list as
    free. *)
Theorem charge_never_refused f model system user p x ts : cleared f model system user p -> me_free (reviewer_row (su_engine su) model) = false ->
  (settle_review url_host bundled show_f64 fixed4 su vc p model x ts).1 = provenance_text p model x.
Proof.
  intros (_ & _ & Hpaid & _) Hfree. unfold settle_review. destruct (ledger_call_cost _ _ _ _ _ _ _ _ _) as [cost unknown]. cbn [fst].
  unfold verify_free. rewrite Hfree. cbn [negb fmap option_fmap option_map]. unfold paid_without_opt_in, cost_neutral.
  destruct Hpaid as [-> | ->]; cbn; [done|]. by destruct (c_allow_paid (vc_cli vc)).
Qed.
End DispatchTheorems.

(** ** Concrete dispatches *)

Definition call_with (a : result ChatResult ProviderError) : CallFeed := mkCallFeed RowTaken (Ok tt) a (f64_of_Z 1) 0.
Definition dispatch_feed (a : Z -> result ChatResult ProviderError) : DispatchFeed :=
  mkDispatchFeed (Ok quiet_feeds) (Ok tt) ∅ no_probe (Ok tt) (Ok tt) (Ok tt) (fun n => call_with (a n)) (Ok tt) (Ok tt) 0 0 (f64_of_Z 1).
Definition reviewers_setup : ReviewSetup := setup_with ∅ None.
Definition reviewers_cli : ReviewCli := review_cli (plain_cli None) None.
Definition ask_reviewer (su : ReviewSetup) (f : DispatchFeed) (model : string) : result Completion ReviewerFailure * list ReviewEvent :=
  dispatch_reviewer_for_model (H := gregorian) no_timestamp (fun _ => None) [] show_number show_number su reviewers_cli f model model "review" "diff" 100.
Definition second_try : DispatchFeed := dispatch_feed (fun n => if n =? 0 then Err refusal else Ok some_answer).
Lemma second_try_run : exists c ev, ask_reviewer reviewers_setup second_try "a/one" = (Ok c, ev) /\ requests ev = 2%nat /\ cp_length_exhausted c = false /\
  RequestSent "gw" "a/one" ∈ ev.
Proof.
  assert (match ask_reviewer reviewers_setup second_try "a/one" with
    | (Ok c, ev) => requests ev = 2%nat /\ cp_length_exhausted c = false /\ filterb is_request ev = [RequestSent "gw" "a/one"; RequestSent "gw" "a/one"] | _ => False end) as Hr
    by (vm_compute; by split).
  destruct (ask_reviewer reviewers_setup second_try "a/one") as [[c|] ev]; [|done]. destruct Hr as (H1 & H2 & H3). exists c, ev. split_and!; try done.
  apply list_elem_of_In. apply (List.filter_In is_request). unfold filterb in H3. rewrite H3. by left.
Qed.
Lemma reviewer_calls_accounted_witness :
  exists c ev, ask_reviewer reviewers_setup second_try "a/one" = (Ok c, ev) /\ exists s, rows (0%nat, None) ev = Some s.
Proof.
  destruct second_try_run as (c & ev & Hr & _). exists c, ev. split; [exact Hr|]. unfold ask_reviewer in Hr.
  exact (proj1 (reviewer_calls_accounted (H := gregorian) no_timestamp (fun _ => None) [] show_number show_number reviewers_setup reviewers_cli
    second_try "a/one" "a/one" "review" "diff" 100 _ _ Hr)).
Defined.
Lemma review_answer_checked_witness :
  exists c ev, ask_reviewer reviewers_setup second_try "a/one" = (Ok c, ev) /\ exists e, RowWritten e ∈ ev /\ e_model e = "a/one".
Proof.
  destruct second_try_run as (c & ev & Hr & _ & Hx & _). exists c, ev. split; [exact Hr|]. unfold ask_reviewer in Hr.
  destruct (review_answer_checked (H := gregorian) no_timestamp (fun _ => None) [] show_number show_number reviewers_setup reviewers_cli
    second_try "a/one" "a/one" "review" "diff" 100 _ _ Hr) as (p & _ & Hc). rewrite Hx in Hc.
  destruct Hc as (x & _ & _ & _ & e & He & _ & Hm). exists e. split; [exact He|exact Hm].
Defined.
(** A charge reported by a provider that is not paid by the call, for a model
    that is not known to be free, without the opt-in. *)
Example charge_is_accepted :
  let telemetry := mkCallTelemetry None None None None (Some (f64_of_Z 5)) None None None None in
  match ask_reviewer reviewers_setup (dispatch_feed (fun _ => Ok (mkChatResult "done" None 3 (Some 5) (Some 3) None None telemetry))) "a/unlisted" with
  | (Ok c, _) => cp_cost_usd c = f64_of_Z 5 /\ c_allow_paid (vc_cli reviewers_cli) = false
  | _ => False
  end.
Proof. vm_compute. by split. Qed.
