(* ===== verification/ReviewChunks.v ===== *)
(** One reviewer's review (crates/zoder-cli/src/agentic.rs): the walk of the
    chain of candidates, the repair of an answer without a verdict, the first
    chunk along the chain, the other chunks pinned to the model that answered
    it, and the merge in the order of the plan.

    Every walk has its own readings; the order in which the concurrent chunks
    are done is an argument. *)
From stdpp Require Import gmap strings.
From S2P Require Import Prelude F64 Numbers Text Json Failure Clock Health Config Corpus Policy Pricing Ledger Quota Minimax Utilization Scenarios Router ProviderWire ProviderStream ContextOpt EngineRoutes Routes Review Oneshot ReviewPlan ReviewDispatch.
Local Open Scope string_scope.
Local Open Scope Z_scope.
Local Open Scope list_scope.
Local Open Scope zoder_scope.

(** ** Failures of the chain *)

Definition from_std (d : Z) : Z := if d <=? I64_MAX * 1000000 then d else 0.
(** [fallback_reset_wall_from]; times are in nanoseconds, the wall in
    seconds. *)
Definition fallback_reset_wall_from (quota : QuotaState) (status retry_after token_plan_resets_at : option Z) (provider : string) (now : Z) : option Z :=
  match token_plan_resets_at, retry_after with
  | Some reset, _ => Some (reset / NS)
  | None, Some after => Some ((now + from_std after) / NS)
  | None, None => if bool_decide (status = Some 429) then (fun t => t / NS) <$> observed_reset_at quota provider else None
  end.
Definition reviewer_skip_reason (kind : ErrKind) (message : string) : string :=
  let head_ := up_to (Ascii.eqb "{") (to_ascii_lowercase message) in
  if bool_decide (kind = ErrTimeout) || str_contains "timed out" head_ || str_contains "timeout" head_ || str_contains "deadline" head_
  then "timeout" else "unavailable".
Inductive ChainWhy := WhyPlan (e : PlanError) | WhyText (message : string).
Record ChainFailure := mkChainFailure {
  cn_why : ChainWhy;
  cn_skipped : list SkippedReviewCandidate;
  cn_forced : bool;
  cn_class : FailureCode
}.
Definition class_or (default_ : FailureCode) (message : string) : FailureCode :=
  match classify_message message with Some (c, _) => c | None => default_ end.
Definition text_failure (default_ : FailureCode) (skipped : list SkippedReviewCandidate) (forced : bool) (message : string) : ChainFailure :=
  mkChainFailure (WhyText message) skipped forced (class_or default_ message).
Definition trail (skipped : list SkippedReviewCandidate) : string := join ", " (map (fun s => sk_model s +:+ " (" +:+ sk_reason s +:+ ")") skipped).
Definition no_candidate_text (families : list string) (skipped : list SkippedReviewCandidate) : string :=
  if existsb (fun s => bool_decide (sk_reason s = FAMILY_EXCLUDED)) skipped && negb (bool_decide (families = [])) then
    "no reviewer candidate remains after excluding the author model families (" +:+ join ", " families
    +:+ "); refusing a same-family review (candidates skipped: " +:+ trail skipped +:+ ")"
  else if existsb (fun s => bool_decide (sk_reason s = "invalid_verdict")) skipped then
    "reviewer returned invalid JSON twice and no further reviewer candidate remains; review incomplete (candidates skipped: "
    +:+ trail skipped +:+ ")"
  else if negb (bool_decide (skipped = [])) then
    "reviewer chain exhausted without a candidate answering (candidates skipped: " +:+ trail skipped +:+ ")"
  else "no reviewer model resolved (check `--reviewer`, `[agents.X].reviewer_model`, or `Config::reviewer_model`)".

(** ** The walk of the chain *)

(** The readings of one candidate's dispatch and of the record of its
    failure. *)
Record LinkReading := mkLinkReading {
  lr_dispatch : DispatchFeed;
  lr_routing : option Feeds;
  lr_quota : QuotaState;
  lr_now : Z;
  lr_t1 : Z;
  lr_t2 : Z
}.
Record ChainCompletion := mkChain {
  cc_completion : Completion;
  cc_skipped : list SkippedReviewCandidate;
  cc_escalation_reason : option string;
  cc_forced : bool
}.
Record TryFeed := mkTryFeed { tf_plan : PlanFeed; tf_link : nat -> LinkReading }.

Section Chain.
Context `{Calendar} (from_timestamp : Z -> option Z) (url_host : string -> option string) (bundled : list (string * ModelPrice))
  (show_f64 fixed4 : f64 -> string) (su : ReviewSetup) (vc : ReviewCli).
Let cfg : Routes.Config := eng_cfg (su_engine su).

Definition failed_provider (r : LinkReading) (model : string) : string :=
  default "" (or_opt (fd ← lr_routing r; prov_id <$> provider_of from_timestamp su fd model)
                (prov_id <$> opt_filter (fun p => negb (is_placeholder p)) (config_provider (cf_providers cfg) model))).
Definition failure_record (r : LinkReading) (model message : string) (kind : ErrKind) (status retry_after resets : option Z) : ReviewEvent :=
  let provider := failed_provider r model in
  HealthWritten (ClassifiedRecorded model message provider
    (match status with Some st => from_status st | None => classify_err_kind kind end)
    (fallback_reset_wall_from (lr_quota r) status retry_after resets provider (lr_now r)) (lr_t1 r) (lr_t2 r)).
Definition NO_ANSWER : string := "no reviewer model produced a completion (chain exhausted without a candidate answering)".
Fixpoint walk_chain (forced : bool) (feed : nat -> LinkReading) (system user : string) (max_tokens : Z)
  (candidates : list string) (i : nat) (skipped : list SkippedReviewCandidate) (last_ : option string) :
  result ChainCompletion ChainFailure * list ReviewEvent :=
  match candidates with
  | [] => (Err (text_failure ReviewersUnavailable skipped forced (default NO_ANSWER last_)), [])
  | model :: rest =>
      let r := feed i in
      let '(end_, ev) := dispatch_reviewer_for_model from_timestamp url_host bundled show_f64 fixed4 su vc (lr_dispatch r) model model system user max_tokens in
      match end_ with
      | Ok c => (Ok (mkChain c skipped (sk_reason <$> head skipped) forced), ev)
      | Err (ReviewerFallback message kind status retry_after resets) =>
          let '(out, more) := walk_chain forced feed system user max_tokens rest (S i)
            (skipped ++ [mkSkip model (reviewer_skip_reason kind message)]) (Some (reviewer_error model message)) in
          (out, ev ++ failure_record r model message kind status retry_after resets :: more)
      | Err (ReviewerSkipped message) =>
          let '(out, more) := walk_chain forced feed system user max_tokens rest (S i)
            (skipped ++ [mkSkip model "unavailable"]) (Some (reviewer_error model message)) in
          (out, ev ++ more)
      | Err (ReviewerFatal message) => (Err (text_failure ConfigError skipped forced message), ev)
      end
  end.
(** The candidates left by the models already rejected, and the trail. *)
Definition without_rejected (candidates : list string) (skip_models : list (string * string)) (skipped : list SkippedReviewCandidate) :
  list string * list SkippedReviewCandidate :=
  foldl (fun '(cs, sk) '(model, reason) =>
    if bool_decide (model ∈ cs) then (filterb (fun c => negb (bool_decide (c = model))) cs, sk ++ [mkSkip model reason]) else (cs, sk))
    (candidates, skipped) skip_models.
(** [complete_once_tracked] *)
Definition complete_once_tracked (f : TryFeed) (model_override : option string) (reviewer_chain author_models : list string)
  (skip_models : list (string * string)) (system user : string) (max_tokens : Z) (exact_pin : bool) :
  result ChainCompletion ChainFailure * list ReviewEvent :=
  match build_reviewer_plan from_timestamp su vc (tf_plan f) model_override reviewer_chain author_models with
  | Err e => (Err (mkChainFailure (WhyPlan e) [] false ConfigError), [])
  | Ok plan =>
      let cs := enforce_exact_model_pin (pl_candidates plan) (c_model (vc_cli vc)) model_override in
      let cs := if exact_pin && bool_decide (is_Some model_override) then take 1 cs else cs in
      let '(cs, skipped) := without_rejected cs skip_models (pl_skipped plan) in
      match cs with
      | [] => (Err (text_failure ReviewersUnavailable skipped (pl_forced plan) (no_candidate_text (pl_author_families plan) skipped)), [])
      | cs => walk_chain (pl_forced plan) (tf_link f) system user max_tokens cs 0 skipped None
      end
  end.

(** ** The answer of a chunk *)

Record AttemptEvidence := mkEvidence {
  ae_skipped : list SkippedReviewCandidate;
  ae_escalation_reason : option string;
  ae_forced : bool;
  ae_cost_usd : f64;
  ae_receipts : list Receipt
}.
Definition no_evidence : AttemptEvidence := mkEvidence [] None false f64_zero [].
Definition from_completion (o : ChainCompletion) : AttemptEvidence :=
  mkEvidence (cc_skipped o) (cc_escalation_reason o) (cc_forced o) (cp_cost_usd (cc_completion o)) (cp_receipts (cc_completion o)).
(** [AttemptEvidence::extend] *)
Definition extend (a later : AttemptEvidence) : AttemptEvidence :=
  mkEvidence (ae_skipped a ++ ae_skipped later) (or_opt (ae_escalation_reason a) (ae_escalation_reason later)) (ae_forced a || ae_forced later)
    (f64_add (ae_cost_usd a) (ae_cost_usd later)) (ae_receipts a ++ ae_receipts later).
Definition absorb_chain (a : AttemptEvidence) (o : ChainCompletion) : AttemptEvidence := extend a (from_completion o).
Record ChunkOutcome := mkOutcome {
  co_completion : Completion;
  co_review : ReviewOutput;
  co_structured : bool;
  co_evidence : AttemptEvidence
}.

Definition REVIEW_MAX_TOKENS_CEILING : Z := 32768.
Definition reviewer_retry_budget (first_attempt : Z) : Z := Z.min (Z.min (first_attempt * 2) U32_MAX) REVIEW_MAX_TOKENS_CEILING.
(** The budget of a repair; [window] is the window of the model. *)
Definition repair_budget (window : option Z) (completion : Completion) (max_tokens : Z) : Z :=
  if cp_length_exhausted completion then
    let doubled := reviewer_retry_budget (cp_max_tokens completion) in
    match opt_filter (fun w => w <=? U32_MAX) window with Some w => Z.min doubled w | None => doubled end
  else reviewer_retry_budget max_tokens.
Definition repair_prompt (user : string) : string :=
  user +:+ String newline (String newline
    "Return ONLY the complete JSON verdict object; your previous response did not satisfy the review schema.").
Definition spent_twice_text (model : string) (first second : Z) : string :=
  if first =? second then
    "reviewer " +:+ model +:+ " spent its whole " +:+ show_u first
    +:+ "-token budget reasoning and returned no verdict (twice); lower its reasoning effort or raise max_tokens"
  else
    "reviewer " +:+ model +:+ " spent its whole " +:+ show_u first +:+ "-token budget and then its doubled " +:+ show_u second
    +:+ "-token budget reasoning, and returned no verdict (twice); lower its reasoning effort or raise max_tokens".
(** The readings of one walk and of the repair after it. *)
Record ChunkFeed := mkChunkFeed { kf_try : TryFeed; kf_window : option Feeds; kf_repair : TryFeed }.
Inductive ChunkVerdict :=
| Verdict (c : Completion) (r : ReviewOutput) (structured : bool) (e : AttemptEvidence)
| NoVerdict (e : AttemptEvidence)
| SpentTwice (message : string).

Context (decode_object : string -> option (list string * option ReviewOutput)).
Definition repair_window (fd : option Feeds) (model : string) : option Z :=
  window_for (st_windows (su_settings su)) (cf_providers cfg)
    (default "" (fd ← fd; prov_id <$> provider_of from_timestamp su fd model)) model None.
(** [chunk_structured_review] *)
Definition chunk_structured_review (f : ChunkFeed) (author_models : list string) (system user : string) (max_tokens : Z)
  (completion : Completion) (evidence : AttemptEvidence) : ChunkVerdict * list ReviewEvent :=
  match strict_review decode_object (cp_content completion) with
  | Some review => (Verdict completion review true evidence, [])
  | None =>
      let '(repaired, ev) := complete_once_tracked (kf_repair f) (Some (cp_model completion)) [] author_models [] system (repair_prompt user)
        (repair_budget (repair_window (kf_window f) (cp_model completion)) completion max_tokens) true in
      match repaired with
      | Ok repair =>
          let evidence := absorb_chain evidence repair in
          match strict_review decode_object (cp_content (cc_completion repair)) with
          | Some review => (Verdict (cc_completion repair) review false evidence, ev)
          | None =>
              if cp_length_exhausted completion && cp_length_exhausted (cc_completion repair)
              then (SpentTwice (spent_twice_text (cp_model completion) (cp_max_tokens completion) (cp_max_tokens (cc_completion repair))), ev)
              else (NoVerdict evidence, ev)
          end
      | Err failure =>
          (NoVerdict (mkEvidence (ae_skipped evidence ++ cn_skipped failure) (ae_escalation_reason evidence) (ae_forced evidence || cn_forced failure)
             (ae_cost_usd evidence) (ae_receipts evidence)), ev)
      end
  end.
Inductive LaterError := ChunkFailed (f : ChainFailure) | ChunkSpent (message : string) | ChunkUnstructured.
(** [complete_chunk_attempt]: a chunk after the first. *)
Definition complete_chunk_attempt (f : ChunkFeed) (model : string) (author_models : list string) (system user : string) (max_tokens : Z) :
  result ChunkOutcome LaterError * list ReviewEvent :=
  let '(outcome, ev) := complete_once_tracked (kf_try f) (Some model) [] author_models [] system user max_tokens false in
  match outcome with
  | Err e => (Err (ChunkFailed e), ev)
  | Ok o =>
      let '(v, more) := chunk_structured_review f author_models system user max_tokens (cc_completion o) (from_completion o) in
      (match v with
       | Verdict c r structured e => Ok (mkOutcome c r structured e)
       | NoVerdict _ => Err ChunkUnstructured
       | SpentTwice m => Err (ChunkSpent m)
       end, ev ++ more)
  end.
Definition INVALID_VERDICT : string := "invalid_verdict".
(** [complete_chunk_zero]: the first chunk, along the whole chain. *)
Fixpoint complete_chunk_zero (fuel : nat) (feed : nat -> ChunkFeed) (model_override : option string) (reviewer_chain author_models : list string)
  (system user : string) (max_tokens : Z) (invalid : list (string * string)) (rejected : AttemptEvidence) (round : nat) :
  option (result ChunkOutcome ChainFailure * list ReviewEvent) :=
  match fuel with
  | O => None
  | S fuel =>
      let f := feed round in
      let '(outcome, ev) := complete_once_tracked (kf_try f) model_override reviewer_chain author_models invalid system user max_tokens false in
      match outcome with
      | Err e => Some (Err e, ev)
      | Ok o =>
          let '(v, more) := chunk_structured_review f author_models system user max_tokens (cc_completion o) (from_completion o) in
          match v with
          | Verdict c r structured e => Some (Ok (mkOutcome c r structured (extend rejected e)), ev ++ more)
          | SpentTwice m => Some (Err (mkChainFailure (WhyText m) [] false ReviewerBudgetExhausted), ev ++ more)
          | NoVerdict e =>
              '(out, rest) ← complete_chunk_zero fuel feed model_override reviewer_chain author_models system user max_tokens
                (invalid ++ [(cp_model (cc_completion o), INVALID_VERDICT)]) (extend rejected e) (S round);
              Some (out, ev ++ more ++ rest)
          end
      end
  end.

(** ** The review *)

Definition DEFAULT_CHUNK_CONCURRENCY : nat := 4.
Definition CHUNK_REPLAY_FRONTIER : nat := 1.
(** [chunk_concurrency], with the variable's value. *)
Definition chunk_concurrency (var : option string) : nat :=
  default DEFAULT_CHUNK_CONCURRENCY
    (Z.to_nat <$> opt_filter (fun n => (0 <? n) && (n <=? U64_MAX)) (v ← var; parse_u64_std (trim v))).
(** The chunks run one at a time in the historical layout. *)
Definition chunks_at_once (preface_parts : bool) (concurrency : nat) : nat :=
  if preface_parts || (concurrency =? 1)%nat then 1 else concurrency.
Definition chunk_user_text (preface_parts : bool) (user : string) (idx count : nat) : string :=
  if preface_parts then
    "This is review part " +:+ show_u (Z.of_nat idx + 1) +:+ " of " +:+ show_u (Z.of_nat count) +:+ ". "
    +:+ Reviewers.PARTIAL_DIFF_NOTICE +:+ String newline (String newline user)
  else user.
Inductive ReviewRefusal :=
| NoChunks
| FirstChunk (total : nat) (f : ChainFailure)
| LaterChunk (idx total : nat) (e : LaterError)
| MixedModels (idx total : nat) (served pinned : string).
(** The chunks as they are done, up to the first that fails. *)
Fixpoint gather (outcome : nat -> result ChunkOutcome LaterError * list ReviewEvent) (order : list nat) :
  result (list (nat * ChunkOutcome)) (nat * LaterError) * list ReviewEvent :=
  match order with
  | [] => (Ok [], [])
  | i :: order =>
      let '(r, ev) := outcome i in
      match r with
      | Err e => (Err (i, e), ev)
      | Ok o => let '(rest, more) := gather outcome order in ((let? rest := rest in Ok ((i, o) :: rest)), ev ++ more)
      end
  end.
Definition by_index (a b : nat * ChunkOutcome) : comparison := Nat.compare a.1 b.1.
Definition run_parallel_chunks (outcome : nat -> result ChunkOutcome LaterError * list ReviewEvent) (order : list nat) :
  result (list (nat * ChunkOutcome)) (nat * LaterError) * list ReviewEvent :=
  let '(r, ev) := gather outcome order in ((let? done_ := r in Ok (sort_by by_index done_)), ev).

Record ChunkCompletion := mkChunk { ck_requested_model : string; ck_served_model : string; ck_structured : bool }.
Record ReviewerChunkReport := mkReport {
  rr_requested_model : string;
  rr_served_model : string;
  rr_chunks : list ChunkCompletion;
  rr_skipped : list SkippedReviewCandidate;
  rr_escalation_reason : option string;
  rr_forced_family_conflict : bool
}.
Definition mixed_model_chunk (pinned_served this_served : string) : bool := negb (bool_decide (pinned_served = this_served)).
Fixpoint merge_later (pin : string) (total : nat) (later : list (nat * ChunkOutcome)) : result unit ReviewRefusal :=
  match later with
  | [] => Ok tt
  | (i, o) :: later =>
      if mixed_model_chunk pin (cp_model (co_completion o)) then Err (MixedModels i total (cp_model (co_completion o)) pin)
      else merge_later pin total later
  end.
Definition chunk_record (o : ChunkOutcome) : ChunkCompletion :=
  mkChunk (cp_requested_model (co_completion o)) (cp_model (co_completion o)) (co_structured o).
Record ReviewResult := mkReviewResult { rs_review : ReviewOutput; rs_cost_usd : f64; rs_receipts : list Receipt; rs_chunks : nat; rs_max_tokens : Z }.
Definition merged_result (evidence : AttemptEvidence) (first : ChunkOutcome) (later : list ChunkOutcome) (total : nat) (max_tokens : Z) :
  ReviewResult * ReviewerChunkReport :=
  let e := foldl (fun e o => extend e (co_evidence o)) evidence later in
  (mkReviewResult (merge_chunk_reviews (map co_review (first :: later))) (ae_cost_usd e) (ae_receipts e) total max_tokens,
   mkReport (cp_requested_model (co_completion first)) (cp_model (co_completion first)) (map chunk_record (first :: later)) (ae_skipped e)
     (ae_escalation_reason e) (ae_forced e)).

(** The readings of the first chunk (before and after a new plan) and of each
    later chunk; the order in which the later chunks are done. *)
Record ReviewFeed := mkReviewFeed {
  vf_first : bool -> nat -> ChunkFeed;
  vf_later : nat -> ChunkFeed;
  vf_order : nat -> list nat
}.
Section Run.
Context (f : ReviewFeed) (preface_parts : bool) (model_override : option string) (reviewer_chain author_models : list string) (system : string).
(** Enough for every model a plan can name, and one more. *)
Definition chunk_fuel : nat := S (length (possible_reviewers su vc model_override reviewer_chain)).
Definition first_chunk (again : bool) (users : list string) (max_tokens : Z) : option (result ChunkOutcome ChainFailure * list ReviewEvent) :=
  complete_chunk_zero chunk_fuel (vf_first f again) model_override reviewer_chain author_models system
    (chunk_user_text preface_parts (default "" (head users)) 0 (length users)) max_tokens [] no_evidence 0.
Definition later_chunk (pin : string) (users : list string) (max_tokens : Z) (i : nat) : result ChunkOutcome LaterError * list ReviewEvent :=
  complete_chunk_attempt (vf_later f i) pin author_models system (chunk_user_text preface_parts (default "" (users !! i)) i (length users)) max_tokens.
(** The plan for the model that served the first chunk, when it differs. *)
Definition replanned (planned_model : option string) (replan : string -> option (list string * Z)) (users : list string) (max_tokens : Z)
  (served : string) : option (list string * Z) :=
  planned ← planned_model;
  if bool_decide (served = planned) then None
  else opt_filter (fun p => negb (bool_decide (p = (users, max_tokens)))) (replan served).
Definition later_chunks (evidence : AttemptEvidence) (first : ChunkOutcome) (users : list string) (max_tokens : Z) :
  result (ReviewResult * ReviewerChunkReport) ReviewRefusal * list ReviewEvent :=
  let pin := cp_model (co_completion first) in
  let total := length users in
  let '(r, ev) := run_parallel_chunks (later_chunk pin users max_tokens) (vf_order f total) in
  (match r with
   | Err (i, e) => Err (LaterChunk i total e)
   | Ok later =>
       let? _ := merge_later pin total later in
       Ok (merged_result evidence first (map snd later) total max_tokens)
   end, ev).
(** [complete_review_chunks_with_concurrency] *)
Definition complete_review_chunks (planned_model : option string) (replan : string -> option (list string * Z)) (users : list string) (max_tokens : Z) :
  option (result (ReviewResult * ReviewerChunkReport) ReviewRefusal * list ReviewEvent) :=
  match users with
  | [] => Some (Err NoChunks, [])
  | _ =>
      '(r, ev) ← first_chunk false users max_tokens;
      match r with
      | Err e => Some (Err (FirstChunk (length users) e), ev)
      | Ok o =>
          let evidence := extend no_evidence (co_evidence o) in
          match replanned planned_model replan users max_tokens (cp_model (co_completion o)) with
          | None => let '(out, more) := later_chunks evidence o users max_tokens in Some (out, ev ++ more)
          | Some (users, max_tokens) =>
              '(r, ev') ← first_chunk true users max_tokens;
              match r with
              | Err e => Some (Err (FirstChunk (length users) e), ev ++ ev')
              | Ok o =>
                  let '(out, more) := later_chunks (extend evidence (co_evidence o)) o users max_tokens in Some (out, ev ++ ev' ++ more)
              end
          end
      end
  end.
End Run.
End Chain.

(** * Theorems *)

Section ChunkTheorems.
Context `{Calendar} (from_timestamp : Z -> option Z) (url_host : string -> option string) (bundled : list (string * ModelPrice))
  (show_f64 fixed4 : f64 -> string) (su : ReviewSetup) (vc : ReviewCli) (decode_object : string -> option (list string * option ReviewOutput)).
Local Notation walk := (walk_chain from_timestamp url_host bundled show_f64 fixed4 su vc).
Local Notation asked := (dispatch_reviewer_for_model from_timestamp url_host bundled show_f64 fixed4 su vc).
Local Notation once := (complete_once_tracked from_timestamp url_host bundled show_f64 fixed4 su vc).
Local Notation chunk := (complete_chunk_attempt from_timestamp url_host bundled show_f64 fixed4 su vc decode_object).
Local Notation zero_ := (complete_chunk_zero from_timestamp url_host bundled show_f64 fixed4 su vc decode_object).
Local Notation reviewed := (chunk_structured_review from_timestamp url_host bundled show_f64 fixed4 su vc decode_object).

(** The trace a candidate leaves when the chain goes on after it. *)
Definition passed_over (model : string) (r : result Completion ReviewerFailure) : option SkippedReviewCandidate :=
  match r with
  | Err (ReviewerFallback message kind _ _ _) => Some (mkSkip model (reviewer_skip_reason kind message))
  | Err (ReviewerSkipped _) => Some (mkSkip model "unavailable")
  | _ => None
  end.
(** The candidates from [i] on left these traces, in order. *)
Fixpoint traces (answer : nat -> string -> result Completion ReviewerFailure) (i : nat) (candidates : list string) (l : list SkippedReviewCandidate) : Prop :=
  match candidates with
  | [] => l = []
  | model :: rest => exists s l', l = s :: l' /\ passed_over model (answer i model) = Some s /\ traces answer (S i) rest l'
  end.
(** How a walk of the candidates from [i] on ends. *)
Definition walk_of (answer : nat -> string -> result Completion ReviewerFailure) (forced : bool) (i : nat) (candidates : list string)
  (skipped : list SkippedReviewCandidate) (r : result ChainCompletion ChainFailure) : Prop :=
  match r with
  | Ok c => exists pre model post l, candidates = pre ++ model :: post /\ traces answer i pre l /\
      answer (i + length pre)%nat model = Ok (cc_completion c) /\ cc_skipped c = skipped ++ l /\
      cc_escalation_reason c = sk_reason <$> head (skipped ++ l) /\ cc_forced c = forced
  | Err e => exists l, cn_skipped e = skipped ++ l /\ cn_forced e = forced /\
      (traces answer i candidates l \/
       exists pre model post message, candidates = pre ++ model :: post /\ traces answer i pre l /\
         answer (i + length pre)%nat model = Err (ReviewerFatal message) /\ cn_why e = WhyText message)
  end.
Lemma walk_of_cons answer forced i model rest skipped s r : passed_over model (answer i model) = Some s ->
  walk_of answer forced (S i) rest (skipped ++ [s]) r -> walk_of answer forced i (model :: rest) skipped r.
Proof.
  intros Hs. destruct r as [c|e]; cbn [walk_of].
  - intros (pre & m & post & l & -> & Ht & Ha & -> & Hesc & Hf). exists (model :: pre), m, post, (s :: l). rewrite <- app_assoc in *. cbn [length app].
    rewrite <- Nat.add_succ_comm. split_and!; try done. by exists s, l.
  - intros (l & -> & Hf & Hc). exists (s :: l). rewrite <- app_assoc. split_and!; [done..|].
    destruct Hc as [Hc|(pre & m & post & message & -> & Ht & Ha & Hw)]; [left; by exists s, l|right]. exists (model :: pre), m, post, message. cbn [length app].
    rewrite <- Nat.add_succ_comm. split_and!; try done. by exists s, l.
Qed.
(** The walk of the chain stops at the first candidate that answers, or whose
    refusal is final; every one before it was passed over, and left its trace
    in the order of the chain.  With no such candidate the chain is
    exhausted, and the trace names every candidate. *)
Lemma walk_shape forced feed system user max_tokens candidates : forall i skipped last_,
  walk_of (fun k model => (asked (lr_dispatch (feed k)) model model system user max_tokens).1) forced i candidates skipped
    (walk forced feed system user max_tokens candidates i skipped last_).1.
Proof.
  induction candidates as [|model rest IH]; intros i skipped last_.
  { cbn. exists []. rewrite app_nil_r. by split_and!; [| |left]. }
  cbn [walk_chain]. destruct (asked (lr_dispatch (feed i)) model model system user max_tokens) as [end_ ev] eqn:Ed.
  destruct end_ as [c|[message kind status after resets|message|message]].
  - cbn. exists [], model, rest, []. rewrite app_nil_r, Nat.add_0_r, Ed. done.
  - rewrite (surjective_pairing (walk _ _ _ _ _ _ _ _ _)). cbn [fst]. eapply walk_of_cons; [by rewrite Ed|apply IH].
  - cbn. exists []. rewrite app_nil_r. split_and!; [done..|]. right. exists [], model, rest, message. by rewrite Nat.add_0_r, Ed.
  - rewrite (surjective_pairing (walk _ _ _ _ _ _ _ _ _)). cbn [fst]. eapply walk_of_cons; [by rewrite Ed|apply IH].
Qed.

(** ** The first chunk *)

Lemma without_rejected_in cs skip skipped m : m ∈ (without_rejected cs skip skipped).1 -> m ∈ cs /\ m ∉ map fst skip.
Proof.
  revert cs skipped. induction skip as [|[x reason] skip IH]; intros cs skipped; cbn; [set_solver|].
  unfold without_rejected in IH. destruct (bool_decide (x ∈ cs)) eqn:E; intros [Hm Hn]%IH.
  - unfold filterb in Hm. apply list_elem_of_In, List.filter_In in Hm as [Hm Hx%negb_true_iff%bool_decide_eq_false]. apply list_elem_of_In in Hm. set_solver.
  - apply bool_decide_eq_false in E. set_solver.
Qed.
Lemma take_1_in (l : list string) m : m ∈ take 1 l -> m ∈ l.
Proof. destruct l as [|x l]; cbn; [done|]. rewrite take_0. set_solver. Qed.
(** The model that answers is one a plan can name and was not rejected. *)
Lemma once_answers f model_override chain authors skip system user max_tokens exact_pin o ev :
  once f model_override chain authors skip system user max_tokens exact_pin = (Ok o, ev) ->
  cp_model (cc_completion o) ∈ possible_reviewers su vc model_override chain /\ cp_model (cc_completion o) ∉ map fst skip.
Proof.
  unfold complete_once_tracked. destruct (build_reviewer_plan _ _ _ _ _ _ _) as [plan|] eqn:Ep; [|done].
  remember (enforce_exact_model_pin _ _ _) as cs0 eqn:Hcs0. assert (forall m, m ∈ cs0 -> m ∈ pl_candidates plan) as H0.
  { intros m. rewrite Hcs0. unfold enforce_exact_model_pin. destruct (_ && _); [|done]. apply take_1_in. }
  remember (if exact_pin && _ then take 1 cs0 else cs0) as cs1 eqn:Hcs1. assert (forall m, m ∈ cs1 -> m ∈ cs0) as H1.
  { intros m. rewrite Hcs1. destruct (_ && _); [|done]. apply take_1_in. }
  destruct (without_rejected cs1 skip (pl_skipped plan)) as [cs skipped] eqn:Ew.
  pose proof (without_rejected_in cs1 skip (pl_skipped plan)) as Hw. rewrite Ew in Hw. cbn [fst] in Hw.
  destruct cs as [|c cs]; [done|]. intros Hr.
  pose proof (walk_shape (pl_forced plan) (tf_link f) system user max_tokens (c :: cs) 0 skipped None) as Hx. rewrite Hr in Hx.
  destruct Hx as (pre & m & post & l & Heq & _ & Ha & _). destruct (asked _ m m system user max_tokens) as [r ev'] eqn:Ed. cbn [fst] in Ha. subst r.
  apply reviewer_calls_accounted in Ed as (_ & _ & _ & Hok). destruct (Hok _ eq_refl) as (_ & -> & _).
  destruct (Hw m) as [Hm Hn]; [rewrite Heq; set_solver|]. split; [|done]. eapply plan_possible; [exact Ep|]. by apply H0, H1.
Qed.

Lemma without_rejected_shape skip : forall cs skipped, exists trace,
  without_rejected cs skip skipped = (filterb (fun c => negb (bool_decide (c ∈ map fst skip))) cs, skipped ++ trace) /\
  forall s, s ∈ trace -> (sk_model s, sk_reason s) ∈ skip /\ sk_model s ∈ cs.
Proof.
  induction skip as [|[x reason] skip IH]; intros cs skipped.
  { exists []. rewrite app_nil_r. cbn. split; [|intros s Hs; by apply not_elem_of_nil in Hs]. f_equal. unfold filterb. induction cs as [|c cs IH]; [done|]. cbn. f_equal. exact IH. }
  unfold without_rejected in *. cbn [foldl map fst].
  assert (forall l : list string, filterb (fun c => negb (bool_decide (c ∈ x :: map fst skip))) l =
    filterb (fun c => negb (bool_decide (c ∈ map fst skip))) (filterb (fun c => negb (bool_decide (c = x))) l)) as Hsplit.
  { induction l as [|c l IHl]; [done|]. cbn. unfold filterb in *. cbn. destruct (decide (c = x)) as [->|Hc].
    - rewrite !bool_decide_true by (done || by left). done.
    - rewrite (bool_decide_false (c = x)) by done. cbn. rewrite IHl. assert (bool_decide (c ∈ x :: map fst skip) = bool_decide (c ∈ map fst skip)) as ->; [|done].
      apply bool_decide_ext. rewrite elem_of_cons. naive_solver. }
  destruct (bool_decide (x ∈ cs)) eqn:E.
  - apply bool_decide_eq_true in E. destruct (IH (filterb (fun c => negb (bool_decide (c = x))) cs) (skipped ++ [mkSkip x reason])) as (trace & -> & Ht).
    exists (mkSkip x reason :: trace). rewrite <- app_assoc, Hsplit. split; [done|]. intros s [->|Hs]%elem_of_cons; [split; [by left|done]|].
    destruct (Ht s Hs) as [H1 H2]. split; [by right|]. unfold filterb in H2. apply list_elem_of_In, List.filter_In in H2 as [H2 _]. by apply list_elem_of_In.
  - apply bool_decide_eq_false in E. destruct (IH cs skipped) as (trace & -> & Ht). exists trace. split.
    + f_equal. rewrite Hsplit. f_equal. clear -E. induction cs as [|c cs IHl]; [done|]. apply not_elem_of_cons in E as [Hc E]. unfold filterb in *. cbn.
      rewrite bool_decide_false by done. cbn. by rewrite <- IHl.
    + intros s Hs. destruct (Ht s Hs). split; [by right|done].
Qed.
(** The candidates of one walk: those of the plan, one only for an exact pin,
    without the models already rejected. *)
Definition candidates_left (plan : ReviewerPlan) (model_override : option string) (exact_pin : bool) (skip : list (string * string)) : list string :=
  let cs := enforce_exact_model_pin (pl_candidates plan) (c_model (vc_cli vc)) model_override in
  filterb (fun c => negb (bool_decide (c ∈ map fst skip))) (if exact_pin && bool_decide (is_Some model_override) then take 1 cs else cs).
(** One completion is the walk of the plan's candidates that no earlier round
    rejected: it stops at the first that answers or refuses for good, with the
    trace of every candidate before it after those of the plan and of the
    rejected models; a plan that is refused, or that leaves no candidate, asks
    nobody. *)
Theorem once_exact f model_override chain authors skip system user max_tokens exact_pin :
  match build_reviewer_plan from_timestamp su vc (tf_plan f) model_override chain authors with
  | Err e => once f model_override chain authors skip system user max_tokens exact_pin = (Err (mkChainFailure (WhyPlan e) [] false ConfigError), [])
  | Ok plan => exists trace, (forall s, s ∈ trace -> (sk_model s, sk_reason s) ∈ skip /\ sk_model s ∈ pl_candidates plan) /\
      match candidates_left plan model_override exact_pin skip with
      | [] => exists e, once f model_override chain authors skip system user max_tokens exact_pin = (Err e, []) /\ cn_skipped e = pl_skipped plan ++ trace
      | cs => walk_of (fun k model => (asked (lr_dispatch (tf_link f k)) model model system user max_tokens).1) (pl_forced plan) 0 cs (pl_skipped plan ++ trace)
          (once f model_override chain authors skip system user max_tokens exact_pin).1
      end
  end.
Proof.
  unfold complete_once_tracked, candidates_left. destruct (build_reviewer_plan _ _ _ _ _ _ _) as [plan|e]; [|done].
  remember (enforce_exact_model_pin _ _ _) as cs0 eqn:Hcs0. assert (forall m, m ∈ cs0 -> m ∈ pl_candidates plan) as H0.
  { intros m. rewrite Hcs0. unfold enforce_exact_model_pin. destruct (_ && _); [|done]. apply take_1_in. }
  remember (if exact_pin && _ then take 1 cs0 else cs0) as cs1 eqn:Hcs1. assert (forall m, m ∈ cs1 -> m ∈ cs0) as H1.
  { intros m. rewrite Hcs1. destruct (_ && _); [|done]. apply take_1_in. }
  destruct (without_rejected_shape skip cs1 (pl_skipped plan)) as (trace & -> & Ht). exists trace. split.
  { intros s Hs. destruct (Ht s Hs) as [Hs1 Hs2]. split; [done|]. by apply H0, H1. }
  destruct (filterb _ cs1) as [|c cs]; [by eexists|]. apply walk_shape.
Qed.

(** What the review of one answer ends with, when it starts with the
    completion [c]. *)
Lemma reviewed_shape f authors system user max_tokens c e v ev : reviewed f authors system user max_tokens c e = (v, ev) ->
  forall c' r structured e', v = Verdict c' r structured e' -> strict_review decode_object (cp_content c') = Some r /\
    (structured = true -> c' = c) /\ (structured = false -> strict_review decode_object (cp_content c) = None).
Proof.
  unfold chunk_structured_review. destruct (strict_review decode_object (cp_content c)) as [r0|] eqn:E0.
  { intros [<- <-]%pair_eq c' r structured e' [= <- <- <- <-]. done. }
  destruct (once _ _ _ _ _ _ _ _ _) as [[o|e0] ev0]; [destruct (strict_review decode_object (cp_content (cc_completion o))) as [r1|] eqn:E1|];
    [|destruct (_ && _)|]; intros [<- <-]%pair_eq c' r structured e' [= <- <- <- <-]. done.
Qed.

(** The first chunk always ends: a model whose answer has no verdict is not
    asked again, and a plan can only name so many. *)
Lemma chunk_zero_runs feed model_override chain authors system user max_tokens : forall fuel invalid rejected round,
  NoDup (map fst invalid) -> (forall m, m ∈ map fst invalid -> m ∈ possible_reviewers su vc model_override chain) ->
  (length (possible_reviewers su vc model_override chain) < fuel + length invalid)%nat ->
  is_Some (zero_ fuel feed model_override chain authors system user max_tokens invalid rejected round).
Proof.
  induction fuel as [|fuel IH]; intros invalid rejected round Hnd Hin Hlen.
  { exfalso. assert (length (map fst invalid) <= length (possible_reviewers su vc model_override chain))%nat as Hle.
    { apply submseteq_length, NoDup_submseteq; [done|exact Hin]. } rewrite length_map in Hle. lia. }
  cbn [complete_chunk_zero]. destruct (once _ _ _ _ _ _ _ _ _) as [[o|e] ev] eqn:Eo; [|done].
  apply once_answers in Eo as [Hp Hn]. destruct (reviewed _ _ _ _ _ _ _) as [[c r structured e|e|m] more]; [done| |done].
  destruct (IH (invalid ++ [(cp_model (cc_completion o), INVALID_VERDICT)]) (extend rejected e) (S round)) as [[out rest] ->]; [| | |done].
  - rewrite map_app. apply NoDup_app. split_and!; [done| |apply NoDup_singleton]. intros m Hm ->%list_elem_of_singleton. done.
  - intros m. rewrite map_app. intros [Hm| ->%list_elem_of_singleton]%elem_of_app; [by apply Hin|done].
  - rewrite length_app. cbn. lia.
Qed.
(** The review of the first chunk ends whatever the routes, the providers and
    the answers: at most one round for every model the plan can name. *)
Lemma first_chunk_ends f preface model_override chain authors system again users max_tokens :
  is_Some (first_chunk from_timestamp url_host bundled show_f64 fixed4 su vc decode_object f preface model_override chain authors system again users max_tokens).
Proof. apply chunk_zero_runs; [apply NoDup_nil_2|intros m Hm; by apply not_elem_of_nil in Hm|unfold chunk_fuel; cbn; lia]. Qed.
Theorem review_ends f preface model_override chain authors system planned replan users max_tokens :
  is_Some (complete_review_chunks from_timestamp url_host bundled show_f64 fixed4 su vc decode_object f preface model_override chain authors system planned replan users max_tokens).
Proof.
  unfold complete_review_chunks. destruct users as [|u users]; [done|].
  destruct (first_chunk_ends f preface model_override chain authors system false (u :: users) max_tokens) as [[r ev] ->]. cbn [mbind option_bind].
  destruct r as [o|e]; [|done]. destruct (replanned _ _ _ _ _) as [[users' max_tokens']|].
  - destruct (first_chunk_ends f preface model_override chain authors system true users' max_tokens') as [[r ev'] ->]. cbn [mbind option_bind].
    destruct r as [o'|e]; [|done]. by destruct (later_chunks _ _ _ _ _ _ _ _ _ _ _ _ _ _ _ _).
  - by destruct (later_chunks _ _ _ _ _ _ _ _ _ _ _ _ _ _ _ _).
Qed.

(** ** The order in which the chunks are done *)

Lemma gather_shape outcome order :
  match (gather outcome order).1 with
  | Ok l => map fst l = order /\ forall i o, (i, o) ∈ l -> (outcome i).1 = Ok o
  | Err (i, e) => i ∈ order /\ (outcome i).1 = Err e
  end.
Proof.
  induction order as [|i order IH]; cbn; [split; [done|]; intros i o Hi; by apply not_elem_of_nil in Hi|].
  destruct (outcome i) as [r ev] eqn:Eo. destruct r as [o|e]; cbn; [|split; [by left|by rewrite Eo]].
  destruct (gather outcome order) as [[l|[j e]] more]; cbn in *.
  - destruct IH as [<- Hl]. split; [done|]. intros j o' [[= -> ->]|Hj]%elem_of_cons; [by rewrite Eo|by apply Hl].
  - destruct IH as [Hj He]. split; [by right|done].
Qed.
Lemma gather_done outcome order l : (gather outcome order).1 = Ok l -> NoDup order ->
  NoDup l /\ (forall i o, (i, o) ∈ l <-> i ∈ order /\ (outcome i).1 = Ok o) /\ StronglySorted (cmp_le by_index) (sort_by by_index l).
Proof.
  intros Hd Hnd. pose proof (gather_shape outcome order) as Hs. rewrite Hd in Hs. destruct Hs as [Hm Hl]. rewrite <- Hm in Hnd. split_and!.
  - by apply (NoDup_fmap_1 fst).
  - intros i o. split.
    + intros Hi. split; [|by apply Hl]. rewrite <- Hm. apply list_elem_of_fmap. by exists (i, o).
    + intros [Hi Ho]. rewrite <- Hm in Hi. apply list_elem_of_fmap in Hi as ([j o'] & -> & Hj). cbn in *. pose proof (Hl _ _ Hj) as Hj'. rewrite Ho in Hj'. by injection Hj' as ->.
  - apply (sort_by_sorted by_index (fun _ => True)); [| |by apply Forall_forall].
    + intros x y _ _. unfold by_index. by rewrite Nat.compare_antisym.
    + intros x y z _ _ _. unfold cmp_le, by_index. rewrite !Nat.compare_gt_iff. lia.
Qed.
(** Two runs end the same way: with the same result, or both refused. *)
Definition same_end {A B} (r r' : result A B) : Prop := match r, r' with Ok a, Ok b => a = b | Err _, Err _ => True | _, _ => False end.
Lemma parallel_order outcome order order' : order ≡ₚ order' -> NoDup order ->
  same_end (run_parallel_chunks outcome order).1 (run_parallel_chunks outcome order').1.
Proof.
  intros Hp Hnd. assert (NoDup order') as Hnd' by by rewrite <- Hp. unfold run_parallel_chunks.
  pose proof (gather_shape outcome order) as Hs. pose proof (gather_shape outcome order') as Hs'.
  pose proof (gather_done outcome order) as Hd. pose proof (gather_done outcome order') as Hd'.
  destruct (gather outcome order) as [[l|[i e]] ev]; destruct (gather outcome order') as [[l'|[j e']] ev']; cbn in *; try done.
  - destruct (Hd l eq_refl Hnd) as (Hn & He & Hso). destruct (Hd' l' eq_refl Hnd') as (Hn' & He' & Hso').
    eapply StronglySorted_unique_strong; [|exact Hso|exact Hso'|].
    + intros [i o] [j o'] Hi Hj. unfold cmp_le, by_index. cbn. rewrite !Nat.compare_gt_iff. intros H1 H2. assert (i = j) as -> by lia.
      rewrite elem_of_sort_by in Hi, Hj. apply He in Hi as [_ Hi]. apply He' in Hj as [_ Hj]. rewrite Hi in Hj. by injection Hj as ->.
    + rewrite !sort_by_perm. apply NoDup_Permutation; [done..|]. intros [i o]. by rewrite He, He', Hp.
  - destruct Hs as [Hm Hl]. destruct Hs' as [Hj He]. rewrite <- Hp, <- Hm in Hj. apply list_elem_of_fmap in Hj as ([j' o] & -> & Hj). cbn in He. by rewrite (Hl _ _ Hj) in He.
  - destruct Hs' as [Hm Hl]. destruct Hs as [Hj He]. rewrite Hp, <- Hm in Hj. apply list_elem_of_fmap in Hj as ([j' o] & -> & Hj). cbn in He. by rewrite (Hl _ _ Hj) in He.
Qed.
Section Orders.
Context (f : ReviewFeed) (preface : bool) (model_override : option string) (chain authors : list string) (system : string).
Definition reordered (order : nat -> list nat) : ReviewFeed := mkReviewFeed (vf_first f) (vf_later f) order.
Local Notation review g := (complete_review_chunks from_timestamp url_host bundled show_f64 fixed4 su vc decode_object g preface model_override chain authors system).
Local Notation later g := (later_chunks from_timestamp url_host bundled show_f64 fixed4 su vc decode_object g preface authors system).
Lemma later_order order evidence first users max_tokens : (forall n, vf_order f n ≡ₚ order n) -> (forall n, NoDup (vf_order f n)) ->
  same_end (later f evidence first users max_tokens).1 (later (reordered order) evidence first users max_tokens).1.
Proof.
  intros Hp Hnd. unfold later_chunks. cbn [reordered vf_order].
  pose proof (parallel_order (later_chunk from_timestamp url_host bundled show_f64 fixed4 su vc decode_object f preface authors system
    (cp_model (co_completion first)) users max_tokens) _ _ (Hp (length users)) (Hnd (length users))) as Hs.
  change (later_chunk from_timestamp url_host bundled show_f64 fixed4 su vc decode_object (reordered order) preface authors system)
    with (later_chunk from_timestamp url_host bundled show_f64 fixed4 su vc decode_object f preface authors system).
  destruct (run_parallel_chunks _ (vf_order f (length users))) as [[l|[i e]] ev]; destruct (run_parallel_chunks _ (order (length users))) as [[l'|[j e']] ev'];
    cbn in *; try done. subst l'. by destruct (merge_later _ _ _).
Qed.
(** The result of a review does not depend on the order in which its
    concurrent chunks are done: with another order of the same chunks the
    review gives the same result, with its verdict, cost, receipts and trail,
    or is refused too. *)
Theorem review_order_irrelevant order planned replan users max_tokens : (forall n, vf_order f n ≡ₚ order n) -> (forall n, NoDup (vf_order f n)) ->
  exists r r' ev ev', review f planned replan users max_tokens = Some (r, ev) /\ review (reordered order) planned replan users max_tokens = Some (r', ev') /\ same_end r r'.
Proof.
  intros Hp Hnd. unfold complete_review_chunks. destruct users as [|u us]; [by eexists _, _, _, _|].
  remember (u :: us) as users eqn:Hu. clear u us Hu.
  change (first_chunk from_timestamp url_host bundled show_f64 fixed4 su vc decode_object (reordered order))
    with (first_chunk from_timestamp url_host bundled show_f64 fixed4 su vc decode_object f).
  destruct (first_chunk_ends f preface model_override chain authors system false users max_tokens) as [[r ev] ->]. cbn [mbind option_bind].
  destruct r as [o|e]; [|by eexists _, _, _, _]. destruct (replanned _ _ _ _ _) as [[users' max_tokens']|].
  - destruct (first_chunk_ends f preface model_override chain authors system true users' max_tokens') as [[r ev'] ->]. cbn [mbind option_bind].
    destruct r as [o'|e]; [|by eexists _, _, _, _].
    pose proof (later_order order (extend (extend no_evidence (co_evidence o)) (co_evidence o')) o' users' max_tokens' Hp Hnd) as Hs.
    destruct (later f _ _ _ _) as [a ea]. destruct (later (reordered order) _ _ _ _) as [b eb]. by eexists _, _, _, _.
  - pose proof (later_order order (extend no_evidence (co_evidence o)) o users max_tokens Hp Hnd) as Hs.
    destruct (later f _ _ _ _) as [a ea]. destruct (later (reordered order) _ _ _ _) as [b eb]. by eexists _, _, _, _.
Qed.

(** ** The result of a review *)

Definition answered (o : ChunkOutcome) : Prop := strict_review decode_object (cp_content (co_completion o)) = Some (co_review o).
Lemma chunk_answered g pin users max_tokens i o : (later_chunk from_timestamp url_host bundled show_f64 fixed4 su vc decode_object g preface authors system pin users max_tokens i).1 = Ok o ->
  answered o.
Proof.
  unfold later_chunk, complete_chunk_attempt. destruct (once _ _ _ _ _ _ _ _ _) as [[c|e] ev]; [|done].
  destruct (reviewed _ _ _ _ _ _ _) as [v more] eqn:Ev. pose proof (reviewed_shape _ _ _ _ _ _ _ _ _ Ev) as Hv. cbn.
  destruct v as [c' r structured e|e|m]; [|done..]. intros [= <-]. by destruct (Hv _ _ _ _ eq_refl) as [H1 _].
Qed.
Lemma zero_answered feed users max_tokens : forall fuel invalid rejected round o ev,
  zero_ fuel feed model_override chain authors system users max_tokens invalid rejected round = Some (Ok o, ev) -> answered o.
Proof.
  induction fuel as [|fuel IH]; intros invalid rejected round o ev; cbn [complete_chunk_zero]; [done|].
  destruct (once _ _ _ _ _ _ _ _ _) as [[c|e] ev0]; [|done].
  destruct (reviewed _ _ _ _ _ _ _) as [v more] eqn:Ev. pose proof (reviewed_shape _ _ _ _ _ _ _ _ _ Ev) as Hv.
  destruct v as [c' r structured e|e|m]; [|intros ([out rest] & Ho & [= -> _])%bind_Some; by eapply IH|done].
  intros [= <- _]. by destruct (Hv _ _ _ _ eq_refl) as [H1 _].
Qed.
Lemma merge_later_same pin total l : merge_later pin total l = Ok tt <-> forall i o, (i, o) ∈ l -> cp_model (co_completion o) = pin.
Proof.
  induction l as [|[i o] l IH]; cbn; [split; [intros _ i o Hi; by apply not_elem_of_nil in Hi|done]|].
  unfold mixed_model_chunk. case_bool_decide as Hm; cbn.
  - rewrite IH. split; [intros Hl j o' [[= -> ->]|Hj]%elem_of_cons; [done|by eapply Hl]|intros Hl j o' Hj; apply (Hl j); by right].
  - split; [done|]. intros Hl. destruct Hm. symmetry. apply (Hl i). by left.
Qed.
(** A chunk of the final plan: the outcome at its place. *)
Definition covered (first : ChunkOutcome) (users : list string) (max_tokens : Z) (outcomes : list ChunkOutcome) : Prop :=
  length outcomes = length users /\ head outcomes = Some first /\
  forall i, (0 < i < length users)%nat -> exists o, outcomes !! i = Some o /\
    (later_chunk from_timestamp url_host bundled show_f64 fixed4 su vc decode_object f preface authors system (cp_model (co_completion first)) users max_tokens i).1 = Ok o.
Definition whole (first : ChunkOutcome) (users : list string) (max_tokens : Z) (out : ReviewResult * ReviewerChunkReport) : Prop :=
  exists outcomes, covered first users max_tokens outcomes /\
    Forall (fun o => answered o /\ cp_model (co_completion o) = rr_served_model out.2) outcomes /\
    rs_review out.1 = merge_chunk_reviews (map co_review outcomes) /\ rr_chunks out.2 = map chunk_record outcomes /\ rs_chunks out.1 = length users /\
    (verdict_rank (verdict (rs_review out.1)) = 0%nat <-> Forall (fun o => verdict_rank (verdict (co_review o)) = 0%nat) outcomes) /\
    rr_served_model out.2 = cp_model (co_completion first).
Lemma seq_sorted n : forall k, StronglySorted le (seq k n).
Proof.
  induction n as [|n IH]; intros k; cbn; constructor; [done|]. apply Forall_forall. intros j [H1 H2]%list_elem_of_In%in_seq. lia.
Qed.
Lemma lookup_later (first : ChunkOutcome) (l : list (nat * ChunkOutcome)) i j o : l !! i = Some (j, o) -> (first :: map snd l) !! S i = Some o.
Proof. intros Hi. rewrite lookup_cons_ne_0 by done. cbn. by rewrite list_lookup_fmap, Hi. Qed.
Lemma later_whole evidence first users max_tokens out : (forall n, vf_order f n ≡ₚ seq 1 (n - 1)) -> users <> [] -> answered first ->
  (later f evidence first users max_tokens).1 = Ok out -> whole first users max_tokens out.
Proof.
  intros Ho Hne Hf. unfold later_chunks. remember (later_chunk _ _ _ _ _ _ _ _ _ _ _ _ (cp_model (co_completion first)) users max_tokens) as outcome eqn:Hout.
  unfold run_parallel_chunks. pose proof (gather_done outcome (vf_order f (length users))) as Hd. pose proof (gather_shape outcome (vf_order f (length users))) as Hds.
  destruct (gather outcome (vf_order f (length users))) as [[l|[i e]] ev]; cbn in *; [|done].
  destruct (Hd l eq_refl) as (Hnl & Hin & Hs); [rewrite Ho; apply NoDup_seq|]. destruct Hds as [Hfst _]. remember (sort_by by_index l) as sl eqn:Hsl.
  assert (sl ≡ₚ l) as Hpl by (rewrite Hsl; apply sort_by_perm).
  destruct (merge_later _ _ sl) as [[]|] eqn:Em; cbn; [|done]. intros [= <-].
  assert (map fst sl = seq 1 (length users - 1)) as Hkeys.
  { apply (StronglySorted_unique_strong le).
    - intros x y _ _ H1 H2. lia.
    - clear -Hs. induction Hs as [|[i o] sl Hs IH Hall]; cbn; constructor; [done|]. rewrite Forall_forall in Hall. apply Forall_forall.
      intros j ([j' o'] & -> & Hj)%list_elem_of_fmap. specialize (Hall _ Hj). unfold cmp_le, by_index in Hall. cbn in *. rewrite Nat.compare_gt_iff in Hall. lia.
    - apply seq_sorted.
    - by rewrite Hpl, Hfst, Ho. }
  assert (length sl = length users - 1)%nat as Hlen by by rewrite <- (length_map fst sl), Hkeys, length_seq.
  assert (length users <> 0)%nat as Hn0 by by destruct users.
  exists (first :: map snd sl). rewrite merge_later_same in Em. split_and!; [split_and!|..]; try done.
  - cbn. rewrite length_map. lia.
  - intros i Hi. destruct i as [|i]; [lia|]. destruct (sl !! i) as [[j o]|] eqn:Ei; [|apply lookup_ge_None in Ei; lia].
    assert (j = S i) as ->. { assert (map fst sl !! i = Some j) as Hj by (change (map fst sl) with (fst <$> sl); rewrite list_lookup_fmap, Ei; done). rewrite Hkeys in Hj. apply lookup_seq in Hj as [-> _]. done. }
    exists o. split; [by eapply lookup_later|]. rewrite <- Hout. apply (Hin (S i) o). rewrite <- Hpl. by apply list_elem_of_lookup_2 in Ei.
  - apply Forall_cons. split; [by split|]. apply Forall_forall. intros o ([i o'] & -> & Hi)%list_elem_of_fmap. cbn. split; [|by apply (Em i)].
    rewrite Hpl in Hi. apply Hin in Hi as [_ Hi]. rewrite Hout in Hi. by eapply chunk_answered.
  - unfold merged_result. cbn [fst rs_review].
    destruct (merge_exact (map co_review (first :: map snd sl))) as (_ & _ & -> & _). rewrite Forall_forall. split.
    + intros Hr o Hin'. apply Hr. apply list_elem_of_fmap. by exists o.
    + intros Hr r (o & -> & Hin')%list_elem_of_fmap. by apply Hr.
Qed.
(** The plan of the review that was done: the first plan, or the one made for
    the model that served the first chunk. *)
Definition final_plan (replan : string -> option (list string * Z)) (users : list string) (max_tokens : Z) (users' : list string) (max_tokens' : Z) : Prop :=
  (users' = users /\ max_tokens' = max_tokens) \/ exists served, replan served = Some (users', max_tokens').
(** A review with a result reviewed every chunk of its plan: each has an answer
    that satisfies the strict schema, all of them from one model, the one that
    answered the first chunk, and the verdict is their merge in the order of
    the plan. *)
Theorem review_whole planned replan users max_tokens out ev : (forall n, vf_order f n ≡ₚ seq 1 (n - 1)) ->
  (forall m users' t, replan m = Some (users', t) -> users' <> []) -> review f planned replan users max_tokens = Some (Ok out, ev) ->
  exists first users' max_tokens', final_plan replan users max_tokens users' max_tokens' /\ whole first users' max_tokens' out.
Proof.
  intros Ho Hre. unfold complete_review_chunks. destruct users as [|u us]; [done|]. remember (u :: us) as users0 eqn:Hu.
  assert (users0 <> []) as Hne by by rewrite Hu. clear u us Hu. intros ([r ev1] & H1 & H2)%bind_Some. destruct r as [o|e]; [|done].
  assert (answered o) as Ha by by eapply zero_answered.
  destruct (replanned planned replan users0 max_tokens (cp_model (co_completion o))) as [[users' max_tokens']|] eqn:En.
  - unfold replanned in En. apply bind_Some in En as (pl & _ & En). case_bool_decide; [done|]. destruct (replan _) as [[a b]|] eqn:Er; [|done].
    cbn in En. destruct (negb _); [|done]. injection En as -> ->. apply bind_Some in H2 as ([r ev2] & H2 & H3). destruct r as [o'|e]; [|done].
    assert (answered o') as Ha' by by eapply zero_answered. exists o', users', max_tokens'. split; [right; by eexists|].
    destruct (later f _ _ _ _) as [end_ more] eqn:El. injection H3 as -> _. eapply (later_whole _ _ _ _ _ Ho); [by eapply Hre|done|by rewrite El].
  - exists o, users0, max_tokens. split; [by left|].
    destruct (later f _ _ _ _) as [end_ more] eqn:El. injection H2 as -> _. eapply (later_whole _ _ _ _ _ Ho); [done|done|by rewrite El].
Qed.
End Orders.
End ChunkTheorems.

(** ** Concrete reviews *)

Definition verdict_for (text : string) : option (list string * option ReviewOutput) :=
  if bool_decide (text = "done") then Some (["verdict"; "summary"; "findings"; "next_steps"], Some (plain_review "approve" "fine" [] [] [])) else None.
Definition answering (text : string) : ChatResult := mkChatResult text None 3 (Some 5) (Some 3) None None no_telemetry.
Definition link_of (a : Z -> result ChatResult ProviderError) : LinkReading := mkLinkReading (dispatch_feed a) (Some quiet_feeds) ∅ 0 0 0.
Definition try_of (a : nat -> Z -> result ChatResult ProviderError) : TryFeed := mkTryFeed quiet_plan (fun i => link_of (a i)).
Definition chunk_of (first repair : nat -> Z -> result ChatResult ProviderError) : ChunkFeed := mkChunkFeed (try_of first) (Some quiet_feeds) (try_of repair).
Definition always (text : string) : nat -> Z -> result ChatResult ProviderError := fun _ _ => Ok (answering text).
(** The first model never answers with a verdict; the second one does. *)
Definition second_model_reviews (order : nat -> list nat) : ReviewFeed :=
  mkReviewFeed (fun _ round => if bool_decide (round = 0%nat) then chunk_of (always "no") (always "no") else chunk_of (always "done") (always "no"))
    (fun _ => chunk_of (always "done") (always "no")) order.
Definition review_with (f : ReviewFeed) (users : list string) : option (result (ReviewResult * ReviewerChunkReport) ReviewRefusal * list ReviewEvent) :=
  complete_review_chunks (H := gregorian) no_timestamp (fun _ => None) [] show_number show_number reviewers_setup reviewers_cli verdict_for f false None
    ["a/one"; "b/two"] [] "review" None (fun _ => None) users 100.
Example second_model_run :
  match review_with (second_model_reviews (fun n => seq 1 (n - 1))) ["one"; "two"; "three"] with
  | Some (Ok (rs, rep), ev) => rr_served_model rep = "b/two" /\ rs_chunks rs = 3%nat /\ verdict (rs_review rs) = "approve" /\ requests ev = 5%nat /\
      rr_skipped rep = [mkSkip "a/one" INVALID_VERDICT]
  | _ => False
  end.
Proof. vm_compute. done. Qed.
Definition in_plan_order (n : nat) : list nat := seq 1 (n - 1).
Lemma review_order_irrelevant_witness :
  exists r r' ev ev', review_with (second_model_reviews in_plan_order) ["one"; "two"; "three"] = Some (r, ev) /\
    review_with (second_model_reviews (fun n => reverse (in_plan_order n))) ["one"; "two"; "three"] = Some (r', ev') /\ same_end r r'.
Proof.
  apply (review_order_irrelevant (H := gregorian) no_timestamp (fun _ => None) [] show_number show_number reviewers_setup reviewers_cli verdict_for
    (second_model_reviews in_plan_order) false None ["a/one"; "b/two"] [] "review" (fun n => reverse (in_plan_order n)) None (fun _ => None) ["one"; "two"; "three"] 100).
  - intros n. symmetry. apply reverse_Permutation.
  - intros n. apply NoDup_seq.
Defined.
Lemma review_whole_witness :
  exists out ev first users max_tokens, review_with (second_model_reviews in_plan_order) ["one"; "two"; "three"] = Some (Ok out, ev) /\
    rs_chunks out.1 = 3%nat /\
    whole (H := gregorian) no_timestamp (fun _ => None) [] show_number show_number reviewers_setup reviewers_cli verdict_for
      (second_model_reviews in_plan_order) false [] "review" first users max_tokens out.
Proof.
  assert (match review_with (second_model_reviews in_plan_order) ["one"; "two"; "three"] with Some (Ok out, ev) => rs_chunks out.1 = 3%nat | _ => False end) as Hr
    by (vm_compute; reflexivity).
  destruct (review_with (second_model_reviews in_plan_order) ["one"; "two"; "three"]) as [[[out|] ev]|] eqn:E; [|done..].
  pose proof E as E'. unfold review_with in E'.
  destruct (review_whole (H := gregorian) no_timestamp (fun _ => None) [] show_number show_number reviewers_setup reviewers_cli verdict_for
    (second_model_reviews in_plan_order) false None ["a/one"; "b/two"] [] "review" None (fun _ => None) ["one"; "two"; "three"] 100 out ev) as (first & users & mt & _ & Hw).
  - intros n. done.
  - done.
  - exact E'.
  - exists out, ev, first, users, mt. split; [done|]. split; [exact Hr|exact Hw].
Defined.
(** The model that answered the first chunk is looked up among the agents
    again for the next one: when an agent has the name of that model, another
    model is asked, and the review is refused as one of mixed models. *)
Example served_model_is_renamed :
  let su := setup_with {[ "a/one" := mkAgent (Some "b/two") None None ]} None in
  let f := mkReviewFeed (fun _ _ => chunk_of (always "done") (always "no")) (fun _ => chunk_of (always "done") (always "no")) in_plan_order in
  match complete_review_chunks (H := gregorian) no_timestamp (fun _ => None) [] show_number show_number su reviewers_cli verdict_for f false None
    ["a/one"] [] "review" None (fun _ => None) ["one"; "two"] 100 with
  | Some (Err (MixedModels i total served pinned), _) => i = 1%nat /\ served = "b/two" /\ pinned = "a/one"
  | _ => False
  end.
Proof. vm_compute. done. Qed.
