(* ===== verification/ReviewRun.v ===== *)
(** A review run (crates/zoder-cli/src/agentic.rs): the plan of a change for a
    model, the panel of reviewers, the settlement of their answers, the refusal
    of what was not reviewed and the end the command reports; the loop's review
    with its second reviewer.

    The readings of the outside (git, the routing of a window, the slots of the
    panel, the calls of the confirmers) are arguments. *)
From stdpp Require Import gmap strings.
From S2P Require Import Prelude F64 Numbers Policy Text Json Failure Clock Health Config Corpus Pricing Ledger Quota Minimax Utilization Scenarios Router ProviderWire ProviderStream ContextOpt EngineRoutes Routes Substance Review ReviewDiff ReviewContext Reviewers ReviewFilter ReviewConfirm LoopRun Oneshot DiffScope ReviewPlan ReviewDispatch ReviewChunks.
Local Open Scope string_scope.
Local Open Scope Z_scope.
Local Open Scope list_scope.
Local Open Scope zoder_scope.

Definition REVIEW_MIN_MAX_TOKENS : Z := 8192.
Definition REVIEW_SYSTEM : string :=
  "You are a meticulous senior software engineer performing a code review. Identify concrete defects in the supplied diff. Approve a sound change; request changes only for a defect you can explain and locate. Return one JSON object with keys verdict, summary, findings, and next_steps. Set verdict to exactly one of approve, request_changes, or comment. Findings MUST be an array of objects, never an array of strings. Each finding object has severity (critical, high, medium, low, or info), title, body, and optional location as a string (path:line). next_steps MUST be a top-level array of strings. Use empty arrays when there are no findings or actions. Write an actual review of this diff. Never copy these instructions or emit template values. No markdown or prose outside the JSON object.".
Definition ADVERSARIAL_SYSTEM : string :=
  "You are a demanding, skeptical staff engineer and security auditor performing an ADVERSARIAL review. Aggressively pressure-test the logic: assume the author missed edge cases, race conditions, error handling, injection/abuse vectors, and incorrect assumptions. Be specific and uncompromising. A correct change MUST be approved: report `request_changes` only for a defect you can name and locate in this diff, never for style, speculation, or unverified suspicion. Approving a sound change is as important as catching a broken one; withholding approval from correct work is itself a review failure. Return one JSON object with keys verdict, summary, findings, and next_steps. Set verdict to exactly one of approve, request_changes, or comment. Findings MUST be an array of objects, never an array of strings. Each finding object has severity (critical, high, medium, low, or info), title, body, and optional location as a string (path:line). next_steps MUST be a top-level array of strings. Use empty arrays when there are no findings or next steps. Write an actual review of this diff. Never copy these instructions or emit template values. No markdown or prose outside the JSON object.".

(** ** The filter of disproved findings *)

Section Filter.
(** [record_text] is the JSON of a record with the finding's own severity,
    location and body. *)
Context (read : string -> option string) (record_text : FilteredRecord -> Review.Finding -> string).
Definition filter_one (f : Review.Finding) : option FilteredRecord :=
  false_undefined_record_with_location read (Review.title f) (Review.body f) (finding_location_path (Review.location f)) (Review.location f)
    (Z.to_nat <$> (l ← Review.location f; finding_location_line l)).
Definition filter_false_undefined_findings (r : ReviewOutput) : ReviewOutput :=
  let kept := filterb (fun f => negb (bool_decide (is_Some (filter_one f)))) (findings r) in
  let removed := omap (fun f => (fun rec => record_text rec f) <$> filter_one f) (findings r) in
  let downgraded := negb (bool_decide (removed = [])) && bool_decide (kept = []) && is_block_verdict (verdict r) in
  mkReview (if downgraded then "comment" else verdict r)
    (if downgraded then
       summary r +:+ (if str_is_empty (summary r) then "" else " ") +:+ show_u (Z.of_nat (length removed))
       +:+ " false undefined finding(s) disproved by the reviewed head; verdict downgraded to comment."
     else summary r)
    kept (next_steps r) (escalation_reason r) (forced_family_conflict r) (filtered_findings r ++ removed).
End Filter.

(** ** Prompts *)

Definition MAP_INTRO : string :=
  "Diff map (deterministic; covers ALL chunks of this diff). Before reporting a symbol as undefined, redefined, or recursively calling a missing function, check it against this map:".
Definition build_review_users (stable : bool) (label focus preamble : string) (p : PreparedDiff) (context_for : string -> string) : list string :=
  let map_ := default "" (diff_map p) in
  let wrapped := if str_is_empty map_ then "" else MAP_INTRO +:+ eol2 +:+ map_ in
  rr_prompts (render_review stable "" wrapped label focus (chunks p) preamble (fun i => context_for (default "" (chunks p !! i)))).
Definition CONTEXT_INTRO : string :=
  "Context from the full post-change files (NOT part of the diff; do not review it). These names exist outside the lines shown, so do not report them as undefined, unbound, or missing imports:".
Definition context_header (on : bool) (read : string -> option string) (budget : Z) (chunk : string) : string :=
  if on then
    let context := chunk_context read chunk budget in
    if str_is_empty context then context else eol2 +:+ eol2 +:+ CONTEXT_INTRO +:+ eol2 +:+ context
  else "".
Definition context_budget (on : bool) (cap : Z) : Z := if on then context_budget_for_chunk_cap cap else 0.
Definition context_chunk_cap (on : bool) (cap : Z) : Z := if on then chunk_cap_for_context cap else cap.
Definition tokens_for (max_tokens : Z) (caps : ReviewCaps) : Z :=
  let base := Z.max max_tokens REVIEW_MIN_MAX_TOKENS in
  match max_tokens_floor caps with Some floor => Z.max base (Z.min floor REVIEW_MAX_TOKENS_CEILING) | None => base end.

(** ** The end of a command *)

(** The texts of a plan's refusals; [unread] is the error of the load of the
    routing. *)
Definition plan_error_text (unread : string) (e : PlanError) : string :=
  match e with
  | PlanRouting e => list_error_text e
  | RoutingUnread => unread
  | ReviewerUnserved text => text
  | ReviewerOutside flag p m => "explicit reviewer route is outside " +:+ flag +:+ ": " +:+ p +:+ "=" +:+ m +:+ " is not listed"
  | NoneListed flag => "no reviewer route matches " +:+ flag +:+ "; refusing fallback outside the allowlist"
  | PoolNeedsList => "--reviewer-pool-routes requires --reviewer-allowed-routes"
  | PoolNeedsPrimary => "reviewer pool requires a primary reviewer outside the pool"
  | PoolPrimaryIsAuthor => "reviewer pool primary must not be an author route"
  | PoolMemberTaken _ => "secondary reviewer pool must not contain the primary reviewer or an author route"
  | PoolMemberUnbacked p m => "secondary reviewer pool route " +:+ p +:+ "=" +:+ m +:+ " is not backed by that exact provider"
  | SameFamilyOnly families =>
      "no reviewer candidate remains outside the author model families (" +:+ join ", " families +:+ "); refusing a same-family review"
  end.
Definition chain_text (unread : string) (f : ChainFailure) : string := match cn_why f with WhyPlan e => plan_error_text unread e | WhyText t => t end.
Definition numbered_chunk (i total : nat) : string := "review chunk " +:+ show_u (Z.of_nat i + 1) +:+ "/" +:+ show_u (Z.of_nat total).
Definition UNSTRUCTURED_TEXT : string :=
  "reviewer returned invalid JSON twice and no further reviewer candidate remains; review incomplete (a chunk without a structured verdict cannot be merged)".
Definition refusal_text (unread : string) (r : ReviewRefusal) : string :=
  match r with
  | NoChunks => "no review chunks were generated"
  | FirstChunk total f => numbered_chunk 0 total +:+ ": " +:+ chain_text unread f
  | LaterChunk i total (ChunkFailed f) => numbered_chunk i total +:+ ": " +:+ chain_text unread f
  | LaterChunk i total (ChunkSpent m) => numbered_chunk i total +:+ ": " +:+ m
  | LaterChunk i total ChunkUnstructured => numbered_chunk i total +:+ ": " +:+ UNSTRUCTURED_TEXT
  | MixedModels i total served pinned =>
      numbered_chunk i total +:+ " was served by " +:+ served +:+ ", after earlier chunks were served by " +:+ pinned
      +:+ "; refusing a mixed-model approval"
  end.
Definition NO_ENGINE : string := "review incomplete: no engine loaded, so no reviewer can be resolved".

(** The plan of a change for one reviewer. *)
Record Chunking := mkChunking {
  cg_single : bool;
  cg_reason : string;
  cg_diff_bytes : Z;
  cg_context_bytes : Z;
  cg_budget_bytes : Z;
  cg_window_tokens : option Z;
  cg_chunk_cap_bytes : Z;
  cg_context_capped : bool
}.
Record SlotPlan := mkSlotPlan {
  pv_caps : ReviewCaps;
  pv_window_tokens : option Z;
  pv_prepared : PreparedDiff;
  pv_users : list string;
  pv_chunking : Chunking
}.
#[export] Instance review_caps_eq_dec : EqDecision ReviewCaps.
Proof. solve_decision. Defined.
Definition review_plan_matches (p : SlotPlan) (caps : ReviewCaps) (window : option Z) : bool :=
  bool_decide (pv_caps p = caps) && bool_decide (pv_window_tokens p = window).
(** What the command prints, and writes as the result of a job. *)
Record Emitted := mkEmitted {
  em_payload : PanelPayload;
  em_cost_usd : f64;
  em_receipts : list Receipt;
  em_substituted : bool;
  em_exclusions : option ExclusionReport;
  em_chunking : option Chunking;
  em_confirm : list ConfirmedReview;
  em_failure : option ClassifiedFailure
}.
Definition receipts_show_substitution (receipts : list Receipt) : bool :=
  existsb (fun r => match rp_response r with Some served => negb (bool_decide (served = rp_requested r)) | None => false end) receipts.
Record Aggregate := mkAggregate {
  ag_reviewers : list ReviewerSlot;
  ag_cost_usd : f64;
  ag_requested : nat;
  ag_ok_models : nat;
  ag_failed_models : nat;
  ag_receipts : list Receipt;
  ag_exclusions : option ExclusionReport;
  ag_chunking : option Chunking;
  ag_confirm : list ConfirmedReview
}.
Definition aggregate_of (a : Aggregate) : string := aggregate_verdict (ag_reviewers a) (ag_ok_models a) (ag_failed_models a).
Definition emit_reviews (a : Aggregate) (failure : option ClassifiedFailure) : Emitted :=
  mkEmitted (aggregate_review (ag_reviewers a) (ag_requested a) (ag_ok_models a) (ag_failed_models a)).2
    (ag_cost_usd a) (ag_receipts a) (receipts_show_substitution (ag_receipts a)) (ag_exclusions a) (ag_chunking a) (ag_confirm a) failure.
Definition one_slot (slot : ReviewerSlot) (ok : bool) (exclusions : option ExclusionReport) : Aggregate :=
  mkAggregate [slot] f64_zero 1 (if ok then 1 else 0) (if ok then 0 else 1) [] exclusions None [].
Inductive ReviewError := ErrDiff (e : string) | ErrPlan (e : ChunkError) | ErrClassified (f : ClassifiedFailure).
(** The end of a command: what it emitted, if anything, and what it returns. *)
Record Ending := mkEnding { en_emitted : option Emitted; en_result : result unit ReviewError }.
Definition failed_with (agg : Aggregate) (emitted returned : ClassifiedFailure) : Ending :=
  mkEnding (Some (emit_reviews agg (Some emitted))) (Err (ErrClassified returned)).
Definition ex_render (r : ExclusionReport) : string :=
  match ex_files r with
  | [] => ""
  | files =>
      "excluded " +:+ show_u (Z.of_nat (length files)) +:+ " file(s), " +:+ show_u (ex_total r) +:+ " bytes, from review"
      +:+ join "" (map (fun f => eol2 +:+ "  - " +:+ ex_path f +:+ " (" +:+ show_u (ex_bytes f) +:+ " bytes) matched `" +:+ ex_pattern f +:+ "`") files)
  end.
(** What the settlement of a panel comes to. *)
Definition panel_failure (a : Aggregate) : option ClassifiedFailure :=
  let requested := show_u (Z.of_nat (ag_requested a)) in
  if (ag_ok_models a =? 0)%nat then
    Some (classified_new ReviewersUnavailable
      ("review failed: 0/" +:+ requested +:+ " reviewers completed (all errors; see diagnostics above). A review that no model produced must not be reported as success."))
  else if (0 <? ag_failed_models a)%nat then
    Some (classified_new ReviewersUnavailable ("review incomplete: " +:+ show_u (Z.of_nat (ag_failed_models a)) +:+ "/" +:+ requested +:+ " reviewers failed"))
  else if (2 <=? verdict_rank (aggregate_of a))%nat then
    Some (classified_new ReviewBlocked ("review blocked: aggregate verdict `" +:+ aggregate_of a +:+ "` requests changes (a blocking review must not exit 0)"))
  else None.

(** ** The command *)

(** What a loaded engine gives a review. *)
Record Loaded := mkLoaded {
  ld_setup : ReviewSetup;
  ld_review : ReviewConfig;
  ld_escalate : list string;
  ld_confirm : ConfirmEngine
}.
Record ReviewSizeOptions := mkSizes {
  sz_hunk_bytes : option Z;
  sz_diff_bytes : option Z;
  sz_excludes : list string;
  sz_split_hunks : bool;
  sz_dry_run : bool
}.
(** The readings of one command: [rn_file] is the text of a file of the
    working tree; a slot reads the routing of its window once to compare plans
    and, when it needs a plan of its own, once more. *)
Record RunReadings := mkRun {
  rn_root_ignore : option string;
  rn_file : string -> option string;
  rn_context_on : bool;
  rn_stable : bool;
  rn_chain : bool -> option Feeds;
  rn_health : gmap string ModelHealth;
  rn_clock : Z;
  rn_head_window : option Feeds;
  rn_slot_window : nat -> bool -> option Feeds;
  rn_replan_window : nat -> option Feeds;
  rn_review : nat -> ReviewFeed;
  rn_worlds : nat -> nat -> string -> FindingPlan -> option Dispatched
}.

Section Run.
Context `{Calendar} (from_timestamp : Z -> option Z) (url_host : string -> option string) (bundled : list (string * ModelPrice))
  (show_f64 fixed4 : f64 -> string) (unread : string).
Context (decode : string -> option ReviewOutput) (decode_object : string -> option (list string * option ReviewOutput))
  (encode : ReviewOutput -> string) (record_text : FilteredRecord -> Review.Finding -> string) (decode_reply : string -> option Value).
Context (eng : option Loaded) (vc : ReviewCli) (g : Repo).
Let cli : Cli := vc_cli vc.
Let cli_tokens : Z := o_max_tokens (vc_opts vc).

Definition sizing_model (m : string) : string :=
  default m (e ← eng; configured_model_for_agent (su_engine (ld_setup e)) (Some m)).
Definition caps_for (sz : ReviewSizeOptions) (model : option string) : ReviewCaps :=
  resolve_review_caps (sz_hunk_bytes sz) (sz_diff_bytes sz) (ld_review <$> eng) (sizing_model <$> model).
(** The window of a model on the provider its route has; [fd] is the load of
    the routing. *)
Definition window_for_model (fd : option Feeds) (model : string) : option Z :=
  e ← eng;
  let su := ld_setup e in
  let set_ := su_settings su in
  p ← (fd ← fd; prov_id <$> provider_of from_timestamp su fd model);
  window_for (st_windows set_) (cf_providers (eng_cfg (su_engine su))) p model (context_levers_for (st_context set_) (st_deployment set_) model).
(** The reviewer the chunks of the default slot are sized for. *)
Definition reviewer_for_caps (reviewer_chain : list string) : option string :=
  or_opt (c_model cli) (or_opt (e ← eng; head (reviewer_models_for (ld_setup e) (c_agent cli))) (head reviewer_chain)).
Definition resolved_reviewers (r : RunReadings) : list string :=
  match eng with
  | Some e =>
      match resolve_chain (H0 := store_health (rn_health r) (rn_clock r)) from_timestamp (rn_chain r) cli (su_engine (ld_setup e)) with
      | Ok routes => rr_reviewer routes
      | Err _ => []
      end
  | None => []
  end.
(** The reviewed head of a file: on disk, or at the head of a branch. *)
Definition post_image (r : RunReadings) (label path : string) : option string :=
  if starts_with "working-tree" label then rn_file r path else run_git g ["show"; "HEAD:" +:+ path].

Section Plan.
Context (r : RunReadings) (sz : ReviewSizeOptions) (label focus diff : string) (zoderignore : list string).
Let read : string -> option string := post_image r label.
Let config_excludes : list string := default [] (exclude ∘ ld_review <$> eng).
Definition prepared_at (caps : ReviewCaps) (chunk_cap : Z) : result PreparedDiff ChunkError :=
  prepare_review_diff_with_chunks zoderignore diff (sz_excludes sz) config_excludes (max_diff_bytes caps) chunk_cap (max_chunks caps) (sz_split_hunks sz).
Definition context_bytes_of (budget : Z) (chunk : string) : Z := len (context_header (rn_context_on r) read budget chunk).
Definition single_budget_of (window : option Z) (caps : ReviewCaps) : Z :=
  single_review_budget window (Z.min (tokens_for cli_tokens caps + 2048) U32_MAX) (max_diff_bytes caps) (max_hunk_bytes caps).
Definition whole_fits (budget : Z) (p : PreparedDiff) : bool :=
  (length (chunks p) =? 1)%nat
  && (len (filtered p) + default 0 (context_bytes_of (context_budget (rn_context_on r) budget) <$> head (chunks p)) <=? budget).
Definition FITS_ONE : string := "whole diff and definition context fit the single-review budget".
Definition EXCEEDS_ONE : string := "diff or definition context exceeds the single-review budget".
Definition max_of (l : list Z) : Z := foldr Z.max 0 l.
Definition plan_from (caps : ReviewCaps) (window : option Z) (p : PreparedDiff) (ctx_budget : Z) (reason : string) : SlotPlan :=
  let budget := single_budget_of window caps in
  let context_bytes := max_of (map (context_bytes_of ctx_budget) (chunks p)) in
  mkSlotPlan caps window p (build_review_users (rn_stable r) label focus "" p (context_header (rn_context_on r) read ctx_budget))
    (mkChunking (length (chunks p) =? 1)%nat reason (len (filtered p)) context_bytes budget window (max_hunk_bytes caps)
       ((ctx_budget <=? context_bytes) && (0 <? ctx_budget))).
Definition build_plan (fd : option Feeds) (caps : ReviewCaps) (model : option string) : result SlotPlan ChunkError :=
  let window := m ← model; window_for_model fd m in
  let budget := single_budget_of window caps in
  let? initial := prepared_at caps budget in
  if whole_fits budget initial then Ok (plan_from caps window initial (context_budget (rn_context_on r) budget) FITS_ONE)
  else
    let? p := prepared_at caps (context_chunk_cap (rn_context_on r) (max_hunk_bytes caps)) in
    Ok (plan_from caps window p (context_budget (rn_context_on r) (max_hunk_bytes caps)) EXCEEDS_ONE).

(** The plan of each slot: one that is there with the same caps and the same
    window, or a new one. *)
Fixpoint plan_slots (head_model : option string) (i : nat) (models : list (option string)) (plans : list SlotPlan) :
  result (list (option string * SlotPlan)) ChunkError :=
  match models with
  | [] => Ok []
  | m :: models =>
      let caps := caps_for sz (or_opt m head_model) in
      let plan_model := or_opt m head_model in
      let window := pm ← plan_model; window_for_model (rn_slot_window r i false) pm in
      match find_first (fun p => review_plan_matches p caps window) plans with
      | Some p => let? rest := plan_slots head_model (S i) models plans in Ok ((m, p) :: rest)
      | None =>
          let? p := build_plan (rn_slot_window r i true) caps plan_model in
          let? rest := plan_slots head_model (S i) models (plans ++ [p]) in Ok ((m, p) :: rest)
      end
  end.

(** ** The panel *)

Definition SlotAnswer : Type := result (ReviewResult * ReviewerChunkReport) string.
Definition slot_replan (i : nat) (model : string) : option (list string * Z) :=
  let caps := caps_for sz (Some model) in
  match build_plan (rn_replan_window r i) caps (Some model) with Ok p => Some (pv_users p, tokens_for cli_tokens caps) | Err _ => None end.
Definition run_slot (system : string) (reviewer_chain : list string) (head_model : option string) (i : nat) (m : option string) (p : SlotPlan) :
  option (SlotAnswer * list ReviewEvent) :=
  match eng with
  | None => Some (Err NO_ENGINE, [])
  | Some e =>
      '(out, ev) ← complete_review_chunks from_timestamp url_host bundled show_f64 fixed4 (ld_setup e) vc decode_object (rn_review r i)
        (negb (rn_stable r)) m reviewer_chain [] system (or_opt m head_model) (slot_replan i) (pv_users p) (tokens_for cli_tokens (pv_caps p));
      Some (match out with Ok o => Ok o | Err e => Err (refusal_text unread e) end, ev)
  end.
Fixpoint run_slots (system : string) (reviewer_chain : list string) (head_model : option string) (i : nat) (slots : list (option string * SlotPlan)) :
  option (list (SlotAnswer * list ReviewEvent)) :=
  match slots with
  | [] => Some []
  | (m, p) :: slots =>
      one ← run_slot system reviewer_chain head_model i m p;
      rest ← run_slots system reviewer_chain head_model (S i) slots;
      Some (one :: rest)
  end.
Definition with_report (review : ReviewOutput) (rep : ReviewerChunkReport) : ReviewOutput :=
  mkReview (verdict review) (summary review) (findings review) (next_steps review) (rr_escalation_reason rep) (rr_forced_family_conflict rep)
    (filtered_findings review).
Definition settle_slot (a : SlotAnswer) : ReviewerSlot :=
  match a with
  | Ok (rs, rep) =>
      SlotOk (rr_served_model rep)
        (filter_false_undefined_findings read record_text (with_report (review_gate_parse decode decode_object (encode (rs_review rs))) rep))
  | Err e => SlotFailed "(failed)" e
  end.
Definition answered_slots (answers : list SlotAnswer) : list (ReviewResult * ReviewerChunkReport) :=
  omap (fun a => match a with Ok o => Some o | Err _ => None end) answers.
Definition confirmed_panel (reviews : list ReviewerSlot) : list ReviewerSlot * list ConfirmedReview :=
  match eng with
  | Some e => confirm_reviews read decode_reply (rn_worlds r) (ld_confirm e) diff reviews
  | None => (reviews, [])
  end.
Definition panel_aggregate (head_plan : SlotPlan) (answers : list SlotAnswer) : Aggregate :=
  let '(reviews, sections) := confirmed_panel (map settle_slot answers) in
  let ok := answered_slots answers in
  mkAggregate reviews (foldl (fun t o => f64_add t (rs_cost_usd o.1)) f64_zero ok) (length answers) (length ok)
    (length answers - length ok) (concat (map (fun o => rs_receipts o.1) ok)) (Some (excluded (pv_prepared head_plan)))
    (Some (pv_chunking head_plan)) sections.
Definition panel_ending (a : Aggregate) : Ending :=
  let failure := panel_failure a in
  mkEnding (Some (emit_reviews a failure)) (match failure with Some f => Err (ErrClassified f) | None => Ok tt end).
End Plan.

(** What is refused before a reviewer is called. *)
Definition TRUNCATED_REASON : string := truncated_diff_refusal MAX_GIT_DIFF_BYTES.
Definition truncated_ending : Ending :=
  let agg := one_slot (SlotFailed "(truncated)" TRUNCATED_REASON) false None in
  failed_with agg (classified_new DiffTruncated TRUNCATED_REASON)
    (classified_new DiffTruncated ("review refused (aggregate verdict `" +:+ aggregate_of agg +:+ "`): " +:+ TRUNCATED_REASON)).
Definition hidden_work_ending (reason : string) : Ending :=
  let agg := one_slot (SlotFailed "(no diff)" reason) false None in
  let failure := classified_new UsageError ("review refused (aggregate verdict `" +:+ aggregate_of agg +:+ "`): " +:+ reason) in
  failed_with agg failure failure.
Definition EMPTY_DIFF_RESULT : string := "empty_diff".
Definition empty_ending (label : string) : Ending :=
  let out := plain_review EMPTY_DIFF_VERDICT (EMPTY_DIFF_RESULT +:+ ": no changes to review (" +:+ label +:+ ").") [] [] [] in
  let failure := classified_new EmptyDiff
    (EMPTY_DIFF_RESULT +:+ ": no changes to review (" +:+ label
     +:+ "); nothing was reviewed, so this is not an approval. Check the scope and --base (an empty range usually means the base already contains the change).") in
  failed_with (one_slot (SlotOk "n/a" out) true None) failure failure.
Definition emptied_ending (label : string) (raw_bytes : Z) (report : ExclusionReport) : Ending :=
  let agg := one_slot (SlotFailed "(exclusions)"
    ("exclusions removed every changed file from a non-empty " +:+ label +:+ " diff; refusing to review an empty diff. " +:+ ex_render report)) false (Some report) in
  let failure := classified_new ConfigError
    ("review refused: exclusions left nothing to review while the raw " +:+ label +:+ " diff was non-empty (" +:+ show_u raw_bytes
     +:+ " byte(s) raw -> 0; aggregate verdict `" +:+ aggregate_of agg +:+ "`); " +:+ ex_render report) in
  failed_with agg failure failure.
(** [cmd_review] in the foreground; the list of events has one entry for each
    slot of the panel. *)
Definition cmd_review (fuel : nat) (r : RunReadings) (scope : ReviewScope) (base panel : option string) (adversarial : bool)
  (focus : list string) (sz : ReviewSizeOptions) : option (Ending * list (list ReviewEvent)) :=
  match build_diff g fuel scope base with
  | Err e => Some (mkEnding None (Err (ErrDiff e)), [])
  | Ok (label, diff) =>
      let label := empty_branch_label g scope base label diff in
      if diff_is_truncated diff then Some (truncated_ending, [])
      else match empty_diff_hides_uncommitted_work g scope label diff with
      | Some reason => Some (hidden_work_ending reason, [])
      | None =>
          if str_is_empty (trim diff) then Some (empty_ending label, [])
          else
            let system := if adversarial then ADVERSARIAL_SYSTEM else REVIEW_SYSTEM in
            let reviewer_chain := resolved_reviewers r in
            let head_model := reviewer_for_caps reviewer_chain in
            let zoderignore := review_zoderignore_patterns g (rn_root_ignore r) scope base in
            let focus := join " " focus in
            match build_plan r sz label focus diff zoderignore (rn_head_window r) (caps_for sz head_model) head_model with
            | Err e => Some (mkEnding None (Err (ErrPlan e)), [])
            | Ok head_plan =>
                match plan_slots r sz label focus diff zoderignore head_model 0 (review_roster (c_model cli) panel) [head_plan] with
                | Err e => Some (mkEnding None (Err (ErrPlan e)), [])
                | Ok slots =>
                    if sz_dry_run sz then Some (mkEnding None (Ok tt), [])
                    else if emptied_by_exclusion (pv_prepared head_plan)
                    then Some (emptied_ending label (len diff) (excluded (pv_prepared head_plan)), [])
                    else
                      answers ← run_slots r sz label focus diff zoderignore system reviewer_chain head_model 0 slots;
                      Some (panel_ending (panel_aggregate r label diff head_plan (map fst answers)), map snd answers)
                end
            end
      end
  end.
End Run.

(** ** The loop's review *)

Record LoopReviewPlan := mkLoopReviewPlan { lp_users : list string; lp_max_tokens : Z }.
Inductive LoopReviewError :=
| LoopTruncated (f : ClassifiedFailure)
| LoopPlan (e : ChunkError)
| LoopEmptied
| LoopRefused (r : ReviewRefusal)
| LoopUnstructured (model : string)
| LoopSecond (e : SecondError).
Record ReviewerVerdict := mkReviewerVerdict {
  vd_model : string;
  vd_verdict : string;
  vd_complete : bool;
  vd_escalation_reason : option string;
  vd_forced : bool;
  vd_skipped : list SkippedReviewCandidate;
  vd_high_risk : bool
}.
Record LoopReview := mkLoopReview {
  lv_review : ReviewOutput;
  lv_model : string;
  lv_cost_usd : f64;
  lv_chunks : nat;
  lv_verdicts : list ReviewerVerdict
}.
(** What a loop review reads: the files of the working tree, the review, and
    for the second reviewer the routing, the plan and the review. *)
Record LoopReadings := mkLoopReadings {
  ln_file : string -> option string;
  ln_context_on : bool;
  ln_stable : bool;
  ln_first : ReviewFeed;
  ln_routing : option Feeds;
  ln_plan : PlanFeed;
  ln_second : ReviewFeed
}.
Definition chunk_complete (rep : ReviewerChunkReport) : bool :=
  negb (bool_decide (rr_chunks rep = [])) && forallb (fun c => ck_structured c && bool_decide (ck_served_model c = ck_requested_model c)) (rr_chunks rep).
Definition high_risk_verdict (reason : string) (v : ReviewerVerdict) : ReviewerVerdict :=
  mkReviewerVerdict (vd_model v) (vd_verdict v) (vd_complete v) (Some reason) (vd_forced v) (vd_skipped v) true.
(** The two reviews of a change of high risk. *)
Definition with_second (second_model : string) (first second : LoopReview) : LoopReview :=
  let a := lv_review first in
  let b := lv_review second in
  let reason := if eq_ignore_ascii_case (trim (verdict a)) (trim (verdict b)) then "high_risk" else "disputed" in
  mkLoopReview
    (mkReview (if (verdict_rank (verdict a) <? verdict_rank (verdict b))%nat then verdict b else verdict a)
       (summary a +:+ eol2 +:+ eol2 +:+ "High-risk second reviewer " +:+ second_model +:+ ": " +:+ summary b)
       (findings a ++ findings b) (next_steps a ++ next_steps b) (Some reason) (forced_family_conflict a) (filtered_findings a))
    (lv_model first) (f64_add (lv_cost_usd first) (lv_cost_usd second)) (lv_chunks first + lv_chunks second)
    (lv_verdicts first ++ map (high_risk_verdict reason) (lv_verdicts second)).

Section LoopReview.
Context `{Calendar} (from_timestamp : Z -> option Z) (parse_ip : string -> option IpAddr) (url_host : string -> option string)
  (bundled : list (string * ModelPrice)) (show_f64 fixed4 : f64 -> string).
Context (decode_object : string -> option (list string * option ReviewOutput)) (encode : ReviewOutput -> string)
  (record_text : FilteredRecord -> Review.Finding -> string).
Context (e : Loaded) (vc : ReviewCli) (r : LoopReadings).
Context (reviewer_chain author_models : list string) (system diff label preamble : string) (caps_model : option string)
  (zoderignore config_excludes : list string).

Definition plan_loop_review (caps : ReviewCaps) : result LoopReviewPlan LoopReviewError :=
  if diff_is_truncated diff then Err (LoopTruncated (classified_new DiffTruncated (truncated_diff_refusal MAX_GIT_DIFF_BYTES)))
  else
    match prepare_review_diff_with_chunks zoderignore diff [] config_excludes (max_diff_bytes caps)
            (context_chunk_cap (ln_context_on r) (max_hunk_bytes caps)) (max_chunks caps) true with
    | Err e => Err (LoopPlan e)
    | Ok p =>
        if emptied_by_exclusion p then Err LoopEmptied
        else Ok (mkLoopReviewPlan
               (build_review_users (ln_stable r) label "" preamble p
                  (context_header (ln_context_on r) (ln_file r) (context_budget (ln_context_on r) (max_hunk_bytes caps))))
               (tokens_for (o_max_tokens (vc_opts vc)) caps))
    end.
Definition loop_caps (model : option string) : ReviewCaps := resolve_review_caps None None (Some (ld_review e)) model.
Definition loop_replan (served : string) : option (list string * Z) :=
  match plan_loop_review (loop_caps (Some served)) with Ok p => Some (lp_users p, lp_max_tokens p) | Err _ => None end.
Definition loop_settled (rs : ReviewResult) (rep : ReviewerChunkReport) : result LoopReview LoopReviewError :=
  match strict_review decode_object (encode (rs_review rs)) with
  | None => Err (LoopUnstructured (rr_served_model rep))
  | Some review =>
      let review := filter_false_undefined_findings (ln_file r) record_text (with_report review rep) in
      Ok (mkLoopReview review (rr_served_model rep) (rs_cost_usd rs) (rs_chunks rs)
            [mkReviewerVerdict (rr_served_model rep) (verdict review) (chunk_complete rep) (rr_escalation_reason rep) (rr_forced_family_conflict rep)
               (rr_skipped rep) false])
  end.
(** [run_loop_review_once_with_reader] *)
Definition run_loop_review_once (feed : ReviewFeed) (reviewer_override : option string) : option (result LoopReview LoopReviewError * list ReviewEvent) :=
  match plan_loop_review (loop_caps caps_model) with
  | Err e => Some (Err e, [])
  | Ok plan =>
      '(out, ev) ← complete_review_chunks from_timestamp url_host bundled show_f64 fixed4 (ld_setup e) vc decode_object feed (negb (ln_stable r))
        reviewer_override reviewer_chain author_models system caps_model loop_replan (lp_users plan) (lp_max_tokens plan);
      Some (match out with Err e => Err (LoopRefused e) | Ok (rs, rep) => loop_settled rs rep end, ev)
  end.
Definition run_loop_review (reviewer_override : option string) : option (result LoopReview LoopReviewError * list ReviewEvent) :=
  '(first, ev) ← run_loop_review_once (ln_first r) reviewer_override;
  match first with
  | Err e => Some (Err e, ev)
  | Ok first =>
      match high_risk_second_reviewer from_timestamp parse_ip (ld_setup e) vc (ln_plan r) (ln_routing r) (Some (ld_escalate e)) reviewer_override
              reviewer_chain author_models diff (Some (lv_model first)) with
      | Err e => Some (Err (LoopSecond e), ev)
      | Ok None => Some (Ok first, ev)
      | Ok (Some second_model) =>
          '(second, more) ← run_loop_review_once (ln_second r) (Some second_model);
          Some (match second with Err e => Err e | Ok second => Ok (with_second second_model first second) end, ev ++ more)
      end
  end.
End LoopReview.

(** * Theorems *)

(** ** The merged review *)

Lemma strict_review_accepts decode_object raw r : strict_review decode_object raw = Some r -> strict_accepts r = true.
Proof.
  unfold strict_review. intros ([keys review] & _ & Hs)%bind_Some. case_match; [|done]. destruct review as [r'|]; [|done]. cbn in Hs.
  destruct (strict_accepts r') eqn:Ha; [|done]. by injection Hs as <-.
Qed.
Lemma trim_kept c s : is_ws c = false -> exists t, trim (String c s) = String c t.
Proof.
  intros Hc. unfold trim. cbn [trim_start]. rewrite Hc. exists (trim_end s). cbn [trim_end]. by rewrite Hc.
Qed.
Lemma merge_summary reviews : forall merged idx count, (count <> 1)%nat -> (exists t, summary merged = String "C" t) \/ (summary merged = "" /\ reviews <> []) ->
  exists t, summary (merge_from merged idx count reviews) = String "C" t.
Proof.
  induction reviews as [|r l IH]; intros merged idx count Hc [[t Ht]|[Ht Hne]]; cbn [merge_from]; [by exists t|done|..].
  all: apply IH; [done|left]; cbn [append_chunk_review summary]; destruct (Nat.eqb_spec count 1); [done|]; rewrite Ht; cbn; by eexists.
Qed.
Lemma strict_parts r : strict_accepts r = true <->
  verdict r ∈ ["approve"; "request_changes"; "comment"]%string /\ trim (summary r) <> "" /\ trim (summary r) <> "..." /\
  (forall f, f ∈ findings r -> known_severity (severity f) && negb (str_is_empty (trim (title f))) && negb (str_is_empty (trim (body f))) = true) /\
  (verdict r = "approve" -> forall f, f ∈ findings r -> severity f ∉ ["critical"; "high"]%string).
Proof.
  unfold strict_accepts. rewrite !andb_true_iff, !negb_true_iff, !bool_decide_eq_true, bool_decide_eq_false.
  assert (str_is_empty (trim (summary r)) = false <-> trim (summary r) <> "") as -> by (destruct (trim (summary r)); naive_solver).
  assert (forall p, forallb p (findings r) = true <-> forall f, f ∈ findings r -> p f = true) as Hall.
  { intros p. rewrite forallb_forall. split; intros Hp f Hf; apply Hp; by apply list_elem_of_In. }
  rewrite Hall, andb_false_iff, bool_decide_eq_false, <- not_true_iff_false, existsb_exists.
  split.
  - intros [[[[H1 H2] H3] H4] H5]. split_and!; [done..|]. intros Hv f Hf Hs. destruct H5 as [H5|H5]; [done|]. apply H5. exists f.
    split; [by apply list_elem_of_In|by apply bool_decide_eq_true].
  - intros (H1 & H2 & H3 & H4 & H5). split; [done|]. destruct (decide (verdict r = "approve")) as [Hv|Hv]; [right|by left].
    intros (f & Hf%list_elem_of_In & Hs%bool_decide_eq_true). by apply (H5 Hv f Hf).
Qed.
Lemma elem_of_concat_map {A B} (f : A -> list B) l x : x ∈ concat (map f l) <-> exists a, a ∈ l /\ x ∈ f a.
Proof.
  rewrite list_elem_of_In, in_concat. split.
  - intros (k & (a & <- & Ha)%in_map_iff & Hx). exists a. by split; apply list_elem_of_In.
  - intros (a & Ha & Hx). exists (f a). split; [|by apply list_elem_of_In]. apply in_map_iff. exists a. split; [done|]. by apply list_elem_of_In.
Qed.
(** The merge of reviews that satisfy the strict schema satisfies it. *)
Lemma merge_strict reviews : reviews <> [] -> Forall (fun r => strict_accepts r = true) reviews -> strict_accepts (merge_chunk_reviews reviews) = true.
Proof.
  intros Hne Hall. rewrite Forall_forall in Hall. setoid_rewrite strict_parts in Hall.
  destruct (merge_exact reviews) as (Hf & _ & H0 & Hv & _). apply strict_parts. split_and!.
  - destruct (Hv Hne) as [->|(r & Hr & -> & _)]; [by left|]. by apply Hall.
  - unfold merge_chunk_reviews. destruct (decide (length reviews = 1)%nat) as [Hl|Hl].
    + destruct reviews as [|r [|r' l]]; [done| |done]. cbn. by apply (Hall r); left.
    + destruct (merge_summary reviews (plain_review "approve" "" [] [] []) 0 (length reviews) Hl) as [t ->]; [by right|].
      destruct (trim_kept "C" t eq_refl) as [t' ->]. done.
  - unfold merge_chunk_reviews. destruct (decide (length reviews = 1)%nat) as [Hl|Hl].
    + destruct reviews as [|r [|r' l]]; [done| |done]. cbn. by apply (Hall r); left.
    + destruct (merge_summary reviews (plain_review "approve" "" [] [] []) 0 (length reviews) Hl) as [t ->]; [by right|].
      destruct (trim_kept "C" t eq_refl) as [t' ->]. done.
  - rewrite Hf. intros f (r & Hr & Hl)%elem_of_concat_map. by apply (Hall r Hr).
  - intros Ha f. rewrite Hf. intros (r & Hr & Hl)%elem_of_concat_map. destruct (Hall r Hr) as (Hset & _ & _ & _ & Hn).
    apply Hn; [|done]. assert (verdict_rank (verdict r) = 0%nat) as Hz by (apply H0; [by rewrite Ha|done]).
    rewrite !elem_of_cons in Hset. destruct Hset as [->|[E|[E|E]]]; [done|..|by apply not_elem_of_nil in E]; rewrite E in Hz; by vm_compute in Hz.
Qed.

(** ** The settlement *)

Section Settlement.
Context (read : string -> option string) (record_text : FilteredRecord -> Review.Finding -> string).
Local Notation filtered_ := (filter_false_undefined_findings read record_text).
Definition disproved (f : Review.Finding) : Prop := is_Some (filter_one read f).
(** The filter takes out the disproved findings and nothing else, records
    each, and changes the verdict only of a blocking review that has nothing
    left, to a comment: it never makes an approval. *)
Theorem disproved_findings_exact r :
  findings (filtered_ r) = filterb (fun f => negb (bool_decide (disproved f))) (findings r) /\
  length (filtered_findings (filtered_ r)) = (length (filtered_findings r) + (length (findings r) - length (findings (filtered_ r))))%nat /\
  next_steps (filtered_ r) = next_steps r /\
  (verdict (filtered_ r) = verdict r \/
   verdict (filtered_ r) = "comment" /\ is_block_verdict (verdict r) = true /\ findings r <> [] /\ Forall disproved (findings r)) /\
  (verdict_rank (verdict (filtered_ r)) = 0%nat -> verdict (filtered_ r) = verdict r).
Proof.
  unfold filter_false_undefined_findings. cbn [findings filtered_findings next_steps verdict]. unfold disproved.
  set (removed := omap _ (findings r)). set (kept := filterb _ (findings r)).
  assert (length removed + length kept = length (findings r))%nat as Hlen.
  { subst removed kept. unfold filterb. induction (findings r) as [|f l IH]; [done|]. cbn. destruct (filter_one read f) as [x|]; cbn.
    - f_equal. exact IH.
    - rewrite Nat.add_succ_r. f_equal. exact IH. }
  split; [done|]. split; [rewrite length_app; lia|]. split; [done|].
  destruct (negb (bool_decide (removed = [])) && bool_decide (kept = []) && is_block_verdict (verdict r)) eqn:Ed; [|split; [by left|done]].
  apply andb_true_iff in Ed as [[Hr%negb_true_iff%bool_decide_eq_false Hk%bool_decide_eq_true]%andb_true_iff Hb].
  split; [right|intros H0; by vm_compute in H0]. split; [done|]. split; [done|]. split.
  - intros E. apply Hr. subst removed. by rewrite E.
  - apply Forall_forall. intros f Hf. destruct (decide (is_Some (filter_one read f))) as [|Hn]; [done|]. exfalso.
    assert (f ∈ kept) as Hin by (subst kept; apply elem_of_filterb; split; [by apply negb_true_iff, bool_decide_eq_false|done]).
    rewrite Hk in Hin. by apply not_elem_of_nil in Hin.
Qed.
End Settlement.

Section RunTheorems.
Context `{Calendar} (from_timestamp : Z -> option Z) (url_host : string -> option string) (bundled : list (string * ModelPrice))
  (show_f64 fixed4 : f64 -> string) (unread : string).
Context (decode : string -> option ReviewOutput) (decode_object : string -> option (list string * option ReviewOutput))
  (encode : ReviewOutput -> string) (record_text : FilteredRecord -> Review.Finding -> string) (decode_reply : string -> option Value).
Context (eng : option Loaded) (vc : ReviewCli) (g : Repo).
Local Notation reviewed := (cmd_review from_timestamp url_host bundled show_f64 fixed4 unread decode decode_object encode record_text decode_reply eng vc g).
Local Notation settled := (settle_slot decode decode_object encode record_text g).
Local Notation aggregated := (panel_aggregate decode decode_object encode record_text decode_reply eng g).
Local Notation confirmed := (confirmed_panel decode_reply eng g).

(** What serde makes of a review: an object that reads back. *)
Definition reads_back (r : ReviewOutput) : Prop :=
  exists s keys, encode r = String "{" (s +:+ "}") /\ decode_object (encode r) = Some (keys, Some r) /\
    forall k, k ∈ ["verdict"; "summary"; "findings"; "next_steps"]%string -> k ∈ keys.
Lemma gate_reads_back r : strict_accepts r = true -> reads_back r -> strict_review decode_object (encode r) = Some r.
Proof.
  intros Ha (s & keys & He & Hd & Hk). unfold strict_review.
  assert (strip_leading_reasoning_block (encode r) = encode r) as ->.
  { rewrite He. unfold strip_leading_reasoning_block. change (trim_start (String "{" (s +:+ "}"))) with (String "{" (s +:+ "}")). cbn. by rewrite !andb_false_r. }
  assert (trim (encode r) = encode r) as ->.
  { rewrite He. unfold trim. change (trim_start (String "{" (s +:+ "}"))) with (String "{" s +:+ "}"). by apply trim_end_keep. }
  assert (strip_single_code_fence (encode r) = encode r) as -> by by rewrite He.
  rewrite Hd. cbn [mbind option_bind].
  replace (forallb (fun k => bool_decide (k ∈ keys)) ["verdict"; "summary"; "findings"; "next_steps"]) with true.
  - cbn. by rewrite Ha.
  - symmetry. apply forallb_forall. intros k Hin. apply bool_decide_eq_true. apply Hk. by apply list_elem_of_In.
Qed.

Definition ok_slot (s : ReviewerSlot) : bool := slot_is_ok s.
Lemma settled_ok r label a : slot_is_ok (settled r label a) = match a with Ok _ => true | Err _ => false end.
Proof. by destruct a as [[rs rep]|e]. Qed.
Lemma confirmed_ok r label diff reviews : map slot_is_ok (confirmed r label diff reviews).1 = map slot_is_ok reviews.
Proof.
  unfold confirmed_panel. destruct eng as [e|]; [|done]. unfold confirm_reviews. cbn [fst]. rewrite !List.map_map.
  apply list_eq. intros i. rewrite !list_lookup_fmap, list_lookup_imap. destruct (reviews !! i) as [[m v|m t]|]; [|done..]. cbn.
  unfold confirm_slot. destruct (confirmation_applies v); [|done]. by destruct (confirm_review _ _ _ _ _ _ _ _) as [[]|].
Qed.

(** The panel passes when every slot has an answer and no final verdict
    blocks. *)
Definition panel_passes (reviews : list ReviewerSlot) : Prop :=
  reviews <> [] /\ Forall (fun s => exists m v, s = SlotOk m v /\ (verdict_rank (verdict v) < 2)%nat) reviews.
Lemma answered_length answers : length (answered_slots answers) = length (filterb (fun a => match a with Ok _ => true | Err _ => false end) answers).
Proof. unfold answered_slots, filterb. induction answers as [|[o|e] l IH]; cbn; [done|by f_equal|done]. Qed.
Lemma filterb_all {A} (p : A -> bool) l : length (filterb p l) = length l <-> Forall (fun x => p x = true) l.
Proof.
  unfold filterb. induction l as [|x l IH]; [by split|]. rewrite Forall_cons. cbn. destruct (p x) eqn:E; cbn.
  - rewrite Nat.succ_inj_wd. naive_solver.
  - split; [|by intros [? _]]. intros Hl. pose proof (List.filter_length_le p l). lia.
Qed.
Lemma panel_ending_exact r label diff head_plan answers :
  en_result (panel_ending (aggregated r label diff head_plan answers)) = Ok tt <-> panel_passes (confirmed r label diff (map (settled r label) answers)).1.
Proof.
  unfold panel_aggregate. pose proof (confirmed_ok r label diff (map (settled r label) answers)) as Hc.
  destruct (confirmed r label diff (map (settled r label) answers)) as [reviews sections]. cbn [fst] in *.
  assert (length reviews = length answers) as Hl.
  { apply (f_equal length) in Hc. by rewrite !length_map in Hc. }
  assert (Forall (fun a => match a with Ok _ => true | Err _ => false end = true) answers <-> Forall (fun s => slot_is_ok s = true) reviews) as Hok.
  { rewrite List.map_map in Hc. clear -Hc. revert reviews Hc. induction answers as [|a l IH]; intros [|s reviews] Hc; [done..|]. cbn in Hc. injection Hc as Hs Hc.
    rewrite !Forall_cons, (IH _ Hc), Hs. by destruct a as [[rs rep]|e]. }
  unfold panel_ending, panel_failure. cbn [ag_requested ag_ok_models ag_failed_models en_result]. unfold aggregate_of. cbn [ag_reviewers ag_ok_models ag_failed_models].
  pose proof (filterb_all (fun a : SlotAnswer => match a with Ok _ => true | Err _ => false end) answers) as Hf.
  assert (length (answered_slots answers) <= length answers)%nat as Hle by (rewrite answered_length; apply List.filter_length_le).
  rewrite <- answered_length in Hf. rewrite Hok in Hf. unfold panel_passes.
  assert (reviews <> [] <-> length answers <> 0%nat) as Hne by (rewrite <- Hl; destruct reviews; cbn; naive_solver).
  rewrite Hne. clear Hc Hok Hne.
  destruct (Nat.eqb_spec (length (answered_slots answers)) 0) as [Hz|Hz].
  { split; [done|]. intros [Hn Hp]. exfalso. assert (length (answered_slots answers) = length answers); [|lia]. apply Hf.
    eapply Forall_impl; [exact Hp|]. by intros s (m & v & -> & _). }
  destruct (Nat.ltb_spec 0 (length answers - length (answered_slots answers))) as [Hlt|Hge].
  { split; [done|]. intros [Hn Hp]. exfalso. assert (length (answered_slots answers) = length answers); [|lia]. apply Hf.
    eapply Forall_impl; [exact Hp|]. by intros s (m & v & -> & _). }
  assert (Forall (fun s => slot_is_ok s = true) reviews) as Hall by (apply Hf; lia).
  replace (length answers - length (answered_slots answers))%nat with 0%nat by lia.
  pose proof (max_rank_says reviews 1) as Hs. unfold aggregate_verdict. destruct (Nat.eqb_spec (length (answered_slots answers)) 0); [done|].
  assert (Forall (fun s => exists m v, s = SlotOk m v /\ (verdict_rank (verdict v) < 2)%nat) reviews <-> ~ says reviews 2) as ->.
  { rewrite Forall_forall in Hall |- *. split.
    - intros Hp (m & v & Hin & Hge2). destruct (Hp _ Hin) as (m' & v' & [= <- <-] & Hlt). lia.
    - intros Hp s Hin. specialize (Hall s Hin). destruct s as [m v|m e]; [|done]. exists m, v. split; [done|].
      destruct (decide (verdict_rank (verdict v) < 2)%nat) as [|Hge2]; [done|]. exfalso. apply Hp. exists m, v. split; [done|lia]. }
  rewrite <- Hs. set (w := max_rank _). destruct (Nat.leb_spec 2 w).
  - change (verdict_rank "request_changes") with 2%nat. cbn. split; [done|]. intros [_ Hp]. lia.
  - destruct (1 <=? w)%nat; [change (verdict_rank "comment") with 1%nat|change (verdict_rank "approve") with 0%nat]; cbn; (split; [intros _; split; lia|done]).
Qed.
Lemma plan_slots_models r sz label focus diff zi head_model : forall models i plans slots,
  plan_slots from_timestamp eng vc g r sz label focus diff zi head_model i models plans = Ok slots -> map fst slots = models.
Proof.
  induction models as [|m models IH]; intros i plans slots; cbn [plan_slots]; [by intros [= <-]|].
  destruct (find_first _ plans) as [p|].
  - intros (rest & Hr & [= <-])%result_bind_Ok. cbn. f_equal. by eapply IH.
  - intros (p & _ & (rest & Hr & [= <-])%result_bind_Ok)%result_bind_Ok. cbn. f_equal. by eapply IH.
Qed.
Lemma slots_run r sz label focus diff zi system chain head_model : forall slots i,
  exists answers, run_slots from_timestamp url_host bundled show_f64 fixed4 unread decode_object eng vc g r sz label focus diff zi system chain head_model i slots
    = Some answers /\ length answers = length slots.
Proof.
  induction slots as [|[m p] slots IH]; intros i; cbn [run_slots]; [by exists []|].
  destruct (IH (S i)) as (rest & Hrest & Hl). unfold run_slot. destruct eng as [e|].
  - destruct (review_ends from_timestamp url_host bundled show_f64 fixed4 (ld_setup e) vc decode_object (rn_review r i) (negb (rn_stable r)) m chain [] system
      (or_opt m head_model) (slot_replan from_timestamp (Some e) vc g r sz label focus diff zi i) (pv_users p) (tokens_for (o_max_tokens (vc_opts vc)) (pv_caps p)))
      as [[out ev] ->]. cbn [mbind option_bind]. rewrite Hrest. cbn [mbind option_bind]. eexists. split; [done|]. cbn. by rewrite Hl.
  - cbn [mbind option_bind]. rewrite Hrest. cbn [mbind option_bind]. eexists. split; [done|]. cbn. by rewrite Hl.
Qed.
(** A review command ends whatever git, the routes, the providers and the
    answers: every walk of every slot is bounded by the models its plan can
    name. *)
Theorem review_command_ends fuel r scope base panel adversarial focus sz : is_Some (reviewed fuel r scope base panel adversarial focus sz).
Proof.
  unfold cmd_review. destruct (build_diff _ _ _ _) as [[label diff]|e]; [|done]. cbv zeta. destruct (diff_is_truncated diff); [done|].
  destruct (empty_diff_hides_uncommitted_work _ _ _ _); [done|]. destruct (str_is_empty _); [done|].
  destruct (build_plan _ _ _ _ _ _ _ _ _ _ _ _ _) as [head_plan|e]; [|done]. destruct (plan_slots _ _ _ _ _ _ _ _ _ _ _ _ _ _) as [slots|e]; [|done].
  destruct (sz_dry_run sz); [done|]. destruct (emptied_by_exclusion _); [done|].
  match goal with |- context [run_slots _ _ _ _ _ _ _ _ _ _ _ _ ?l ?f _ ?zi ?system ?chain ?hm 0 _] =>
    destruct (slots_run r sz l f diff zi system chain hm slots 0) as (answers & -> & _) end. done.
Qed.

(** What a command emits and what it returns agree: a document without a
    failure and a success, or a failure of the same class in both; nothing is
    emitted only for a plan that could not be made, and for a dry run. *)
Definition agrees (dry : bool) (out : Ending) : Prop :=
  match en_emitted out, en_result out with
  | Some em, Ok _ => em_failure em = None
  | Some em, Err (ErrClassified f) => exists f', em_failure em = Some f' /\ cf_code f' = cf_code f
  | Some _, Err _ | None, Err (ErrClassified _) => False
  | None, Ok _ => dry = true
  | None, Err _ => True
  end.
Theorem exit_agrees_with_document fuel r scope base panel adversarial focus sz out evs :
  reviewed fuel r scope base panel adversarial focus sz = Some (out, evs) -> agrees (sz_dry_run sz) out.
Proof.
  unfold cmd_review. destruct (build_diff _ _ _ _) as [[label diff]|e]; [|by intros [= <- _]]. cbv zeta.
  destruct (diff_is_truncated diff); [intros [= <- _]; by eexists|]. destruct (empty_diff_hides_uncommitted_work _ _ _ _); [intros [= <- _]; by eexists|].
  destruct (str_is_empty _); [intros [= <- _]; by eexists|].
  destruct (build_plan _ _ _ _ _ _ _ _ _ _ _ _ _) as [head_plan|e]; [|by intros [= <- _]].
  destruct (plan_slots _ _ _ _ _ _ _ _ _ _ _ _ _ _) as [slots|e]; [|by intros [= <- _]].
  destruct (sz_dry_run sz); [by intros [= <- _]|]. destruct (emptied_by_exclusion _); [intros [= <- _]; by eexists|].
  intros (answers & _ & [<- _]%(inj Some)%pair_eq)%bind_Some. unfold agrees, panel_ending. cbn [en_emitted en_result]. destruct (panel_failure _) as [f|]; [|done].
  by exists f.
Qed.

(** The panel of a change that was captured whole, is not empty and is not
    emptied by the exclusions: every reviewer of the roster, each with the plan
    of its slot, and what they answered. *)
Definition asked_panel (fuel : nat) (r : RunReadings) (scope : ReviewScope) (base panel : option string) (adversarial : bool) (focus : list string)
  (sz : ReviewSizeOptions) (label diff : string) (head_plan : SlotPlan) (slots : list (option string * SlotPlan))
  (answers : list (SlotAnswer * list ReviewEvent)) : Prop :=
  let chain := resolved_reviewers from_timestamp eng vc r in
  let head_model := reviewer_for_caps eng vc chain in
  let zi := review_zoderignore_patterns g (rn_root_ignore r) scope base in
  build_diff g fuel scope base = Ok (label, diff) /\ diff_is_truncated diff = false /\ trim diff <> "" /\
  build_plan from_timestamp eng vc g r sz label (join " " focus) diff zi (rn_head_window r) (caps_for eng sz head_model) head_model = Ok head_plan /\
  emptied_by_exclusion (pv_prepared head_plan) = false /\
  plan_slots from_timestamp eng vc g r sz label (join " " focus) diff zi head_model 0 (review_roster (c_model (vc_cli vc)) panel) [head_plan] = Ok slots /\
  map fst slots = review_roster (c_model (vc_cli vc)) panel /\ length answers = length slots /\
  run_slots from_timestamp url_host bundled show_f64 fixed4 unread decode_object eng vc g r sz label (join " " focus) diff zi
    (if adversarial then ADVERSARIAL_SYSTEM else REVIEW_SYSTEM) chain head_model 0 slots = Some answers.
Lemma kept_label scope base label diff : trim diff <> "" -> empty_branch_label g scope base label diff = label.
Proof. intros Ht. unfold empty_branch_label. destruct (trim diff); [done|]. cbn. by rewrite orb_true_r. Qed.
Lemma asked_run fuel r scope base panel adversarial focus sz label diff head_plan slots answers : sz_dry_run sz = false ->
  asked_panel fuel r scope base panel adversarial focus sz label diff head_plan slots answers ->
  reviewed fuel r scope base panel adversarial focus sz = Some (panel_ending (aggregated r label diff head_plan (map fst answers)), map snd answers).
Proof.
  intros Hdry (Hb & Ht & Hne & Hh & He & Hs & _ & _ & Hr). unfold cmd_review. rewrite Hb. cbv zeta. rewrite Ht, kept_label by done.
  assert (empty_diff_hides_uncommitted_work g scope label diff = None) as ->
    by (unfold empty_diff_hides_uncommitted_work; destruct scope; [done..|]; by destruct (trim diff)).
  assert (str_is_empty (trim diff) = false) as -> by by destruct (trim diff).
  by rewrite Hh, Hs, Hdry, He, Hr.
Qed.
Lemma passed_asked fuel r scope base panel adversarial focus sz out evs : sz_dry_run sz = false ->
  reviewed fuel r scope base panel adversarial focus sz = Some (out, evs) -> en_result out = Ok tt ->
  exists label diff head_plan slots answers, asked_panel fuel r scope base panel adversarial focus sz label diff head_plan slots answers.
Proof.
  intros Hdry. unfold cmd_review. destruct (build_diff _ _ _ _) as [[label diff]|e] eqn:Eb; [|by intros [= <- _]]. cbv zeta.
  destruct (diff_is_truncated diff) eqn:Et; [by intros [= <- _]|]. destruct (empty_diff_hides_uncommitted_work _ _ _ _); [by intros [= <- _]|].
  destruct (str_is_empty _) eqn:Ee; [by intros [= <- _]|]. assert (trim diff <> "") as Hne by by destruct (trim diff).
  rewrite kept_label by done.
  destruct (build_plan _ _ _ _ _ _ _ _ _ _ _ _ _) as [head_plan|e] eqn:Eh; [|by intros [= <- _]].
  destruct (plan_slots _ _ _ _ _ _ _ _ _ _ _ _ _ _) as [slots|e] eqn:Es; [|by intros [= <- _]].
  rewrite Hdry. destruct (emptied_by_exclusion _) eqn:Em; [by intros [= <- _]|].
  match goal with |- context [run_slots _ _ _ _ _ _ _ _ _ _ _ _ ?l ?f _ ?zi ?system ?chain ?hm 0 _] =>
    destruct (slots_run r sz l f diff zi system chain hm slots 0) as (answers & Ha & Hl) end.
  intros _ _. exists label, diff, head_plan, slots, answers. unfold asked_panel. split_and!; try done. by eapply plan_slots_models.
Qed.
(** A review that is not a dry run succeeds exactly when the change was
    captured whole, is not empty, was not emptied by the exclusions, every
    reviewer of the roster answered every chunk of its plan, and no verdict
    blocks once the disproved findings are out and the blocking ones confirmed
    or released: a partial panel, an empty range and a truncated diff are
    never a success. *)
Theorem review_passes_exact fuel r scope base panel adversarial focus sz out evs : sz_dry_run sz = false ->
  reviewed fuel r scope base panel adversarial focus sz = Some (out, evs) ->
  en_result out = Ok tt <->
  exists label diff head_plan slots answers, asked_panel fuel r scope base panel adversarial focus sz label diff head_plan slots answers /\
    panel_passes (confirmed r label diff (map (settled r label) (map fst answers))).1.
Proof.
  intros Hdry Hrun. split.
  - intros Hok. destruct (passed_asked _ _ _ _ _ _ _ _ _ _ Hdry Hrun Hok) as (label & diff & head_plan & slots & answers & Ha).
    exists label, diff, head_plan, slots, answers. split; [done|]. rewrite (asked_run _ _ _ _ _ _ _ _ _ _ _ _ _ Hdry Ha) in Hrun. injection Hrun as <- _.
    by apply panel_ending_exact in Hok.
  - intros (label & diff & head_plan & slots & answers & Ha & Hp). rewrite (asked_run _ _ _ _ _ _ _ _ _ _ _ _ _ Hdry Ha) in Hrun. injection Hrun as <- _.
    by apply panel_ending_exact.
Qed.

(** A slot that answered was reviewed whole: every chunk of its final plan has
    an answer that satisfies the strict schema, all from one model, the one the
    slot names; the gate reads their merge back as it is, and an approval
    means that every chunk was approved. *)
Theorem slot_settled_soundly su f preface model_override chain authors system planned replan users max_tokens rs rep ev r label :
  (forall n, vf_order f n ≡ₚ seq 1 (n - 1)) -> (forall m users' t, replan m = Some (users', t) -> users' <> []) ->
  complete_review_chunks from_timestamp url_host bundled show_f64 fixed4 su vc decode_object f preface model_override chain authors system planned replan
    users max_tokens = Some (Ok (rs, rep), ev) ->
  reads_back (rs_review rs) ->
  exists first users' max_tokens' v, final_plan replan users max_tokens users' max_tokens' /\
    whole from_timestamp url_host bundled show_f64 fixed4 su vc decode_object f preface authors system first users' max_tokens' (rs, rep) /\
    settled r label (Ok (rs, rep)) = SlotOk (rr_served_model rep) v /\
    v = filter_false_undefined_findings (post_image g r label) record_text (with_report (rs_review rs) rep) /\
    (verdict_rank (verdict v) = 0%nat -> verdict_rank (verdict (rs_review rs)) = 0%nat).
Proof.
  intros Ho Hre Hrun Hread.
  destruct (review_whole _ _ _ _ _ _ _ _ _ _ _ _ _ _ _ _ _ _ _ _ Ho Hre Hrun) as (first & users' & mt' & Hf & Hw).
  assert (strict_accepts (rs_review rs) = true) as Hs.
  { destruct Hw as (outcomes & (_ & Hhead & _) & Hall & Hm & Hc & _). cbn [fst snd] in *. rewrite Hm. apply merge_strict.
    - by destruct outcomes.
    - apply Forall_forall. intros v (o & -> & Hin)%list_elem_of_fmap. rewrite Forall_forall in Hall. destruct (Hall o Hin) as [Ha _].
      by eapply strict_review_accepts. }
  eexists first, users', mt', _. split; [done|]. split; [done|]. split; [done|].
  unfold review_gate_parse. rewrite (gate_reads_back _ Hs Hread). split; [done|].
  destruct (disproved_findings_exact (post_image g r label) record_text (with_report (rs_review rs) rep)) as (_ & _ & _ & _ & Hz).
  intros H0. by rewrite (Hz H0) in H0.
Qed.
End RunTheorems.

Section LoopTheorems.
Context `{Calendar} (from_timestamp : Z -> option Z) (parse_ip : string -> option IpAddr) (url_host : string -> option string)
  (bundled : list (string * ModelPrice)) (show_f64 fixed4 : f64 -> string).
Context (decode_object : string -> option (list string * option ReviewOutput)) (encode : ReviewOutput -> string)
  (record_text : FilteredRecord -> Review.Finding -> string).
Context (e : Loaded) (vc : ReviewCli) (r : LoopReadings).
Context (reviewer_chain author_models : list string) (system diff label preamble : string) (caps_model : option string)
  (zoderignore config_excludes : list string).
Local Notation once_ := (run_loop_review_once from_timestamp url_host bundled show_f64 fixed4 decode_object encode record_text e vc r
  reviewer_chain author_models system diff label preamble caps_model zoderignore config_excludes).
Local Notation loop_ := (run_loop_review from_timestamp parse_ip url_host bundled show_f64 fixed4 decode_object encode record_text e vc r
  reviewer_chain author_models system diff label preamble caps_model zoderignore config_excludes).

Lemma once_ends feed reviewer_override : is_Some (once_ feed reviewer_override).
Proof.
  unfold run_loop_review_once. destruct (plan_loop_review _ _ _ _ _ _ _ _) as [plan|]; [|done].
  match goal with |- context [complete_review_chunks ?a ?b ?c ?d ?e ?su ?vc ?dec ?f ?pp ?mo ?ch ?au ?sy ?pl ?re ?us ?mt] =>
    destruct (review_ends a b c d e su vc dec f pp mo ch au sy pl re us mt) as [[out ev] ->] end. done.
Qed.
(** A loop review ends, with the second reviewer too. *)
Theorem loop_review_ends reviewer_override : is_Some (loop_ reviewer_override).
Proof.
  unfold run_loop_review. destruct (once_ends (ln_first r) reviewer_override) as [[first ev] ->]. cbn [mbind option_bind].
  destruct first as [first|]; [|done]. destruct (high_risk_second_reviewer _ _ _ _ _ _ _ _ _ _ _ _) as [[m|]|]; [|done..].
  by destruct (once_ends (ln_second r) (Some m)) as [[second more] ->].
Qed.

(** The change touches a path that escalates. *)
Definition escalates : bool := existsb (fun path => existsb (fun p => glob_match p path) (ld_escalate e)) (diff_changed_paths diff).
Lemma worse_rank a b : verdict_rank (if (verdict_rank a <? verdict_rank b)%nat then b else a) = Nat.max (verdict_rank a) (verdict_rank b).
Proof. destruct (Nat.ltb_spec (verdict_rank a) (verdict_rank b)); lia. Qed.
(** A loop review that ends with a verdict reviewed a diff that is not
    truncated; when no changed path escalates it is the first reviewer's; when
    one does, a second review was done, its findings and steps follow the
    first's, and the verdict is the worse of the two: a blocking opinion of
    either blocks. *)
Theorem loop_review_exact reviewer_override out ev : loop_ reviewer_override = Some (Ok out, ev) ->
  diff_is_truncated diff = false /\
  exists first ev1, once_ (ln_first r) reviewer_override = Some (Ok first, ev1) /\
    (escalates = false /\ out = first /\ ev = ev1 \/
     escalates = true /\ exists second_model second ev2, once_ (ln_second r) (Some second_model) = Some (Ok second, ev2) /\ ev = ev1 ++ ev2 /\
       second_model <> lv_model first /\
       verdict_rank (verdict (lv_review out)) = Nat.max (verdict_rank (verdict (lv_review first))) (verdict_rank (verdict (lv_review second))) /\
       findings (lv_review out) = findings (lv_review first) ++ findings (lv_review second) /\
       next_steps (lv_review out) = next_steps (lv_review first) ++ next_steps (lv_review second) /\
       lv_chunks out = (lv_chunks first + lv_chunks second)%nat).
Proof.
  intros Hrun. assert (diff_is_truncated diff = false) as Ht.
  { destruct (diff_is_truncated diff) eqn:Et; [|done]. exfalso. revert Hrun. unfold run_loop_review, run_loop_review_once, plan_loop_review. rewrite Et.
    by cbn. }
  split; [done|]. unfold run_loop_review in Hrun. apply bind_Some in Hrun as ([first ev1] & H1 & H2). destruct first as [first|]; [|done].
  exists first, ev1. split; [done|]. unfold high_risk_second_reviewer in H2. destruct (ld_escalate e) as [|p ps] eqn:Ep.
  { injection H2 as <- <-. left. split; [|done]. unfold escalates. rewrite Ep. by induction (diff_changed_paths diff). }
  unfold escalates. rewrite Ep. destruct (existsb _ (diff_changed_paths diff)); cbn [negb] in H2; [|injection H2 as <- <-; by left].
  right. split; [done|]. destruct (ln_routing r) as [fd|]; [|done]. destruct (build_reviewer_plan _ _ _ _ _ _ _) as [plan|]; [|done].
  destruct (find_first _ (pl_candidates plan)) as [m|] eqn:Em; [|done]. apply bind_Some in H2 as ([second more] & Hs & H2).
  destruct second as [second|]; [|done]. injection H2 as <- <-. exists m, second, more. split; [done|]. split; [done|].
  split; [|split; [apply worse_rank|done]]. apply find_first_Some in Em as (_ & Hm). unfold hosted_other in Hm.
  apply andb_true_iff in Hm as [Hm%negb_true_iff%bool_decide_eq_false _]. congruence.
Qed.
End LoopTheorems.

(** ** Concrete commands *)

Lemma done_with {A} (P : A -> Prop) (x : option A) : match x with Some a => P a | None => False end -> exists a, x = Some a /\ P a.
Proof. destruct x as [a|]; [|done]. intros Hp. by exists a. Qed.

Definition merged_fine : ReviewOutput := plain_review "approve" "fine" [] [] [].
Definition encode_as (r : ReviewOutput) : string := if bool_decide (verdict r = "approve") then "{approve}" else "{other}".
Definition reading (text : string) : option (list string * option ReviewOutput) :=
  if bool_decide (text = "{approve}") then Some (["verdict"; "summary"; "findings"; "next_steps"], Some merged_fine) else verdict_for text.
Definition two_reviewers : ReviewSetup := setup_with ∅ (Some "a/one,b/two").
Definition loaded_with (escalate : list string) : Loaded :=
  mkLoaded two_reviewers (mkReviewConfig None None [] ∅) escalate (mkConfirmEngine confirm_config_default [] None).
Definition readings_of (f : nat -> ReviewFeed) : RunReadings :=
  mkRun None (fun _ => None) false true (fun _ => Some quiet_feeds) ∅ 0 (Some quiet_feeds) (fun _ _ => Some quiet_feeds) (fun _ => Some quiet_feeds) f
    (fun _ _ _ _ => None).
Definition second_answers_all : RunReadings := readings_of (fun _ => second_model_reviews in_plan_order).
Definition plain_sizes : ReviewSizeOptions := mkSizes None None [] true false.
Definition branch_repo (d : string) : Repo := repo_of [] [(["diff"; "HEAD...HEAD"], d)] [] (tree_now "now").
Definition one_change : string := change "a.rs" "let a = 1;".
Definition command (eng : option Loaded) (d : string) (r : RunReadings) (panel : option string) : option (Ending * list (list ReviewEvent)) :=
  cmd_review (H := gregorian) no_timestamp (fun _ => None) [] show_number show_number "routing" (fun _ => None) reading encode_as (fun _ _ => "") (fun _ => None) eng
    reviewers_cli (branch_repo d) 5 r ScopeBranch None panel false [] plain_sizes.
Definition ended (c : option (Ending * list (list ReviewEvent))) : option (option FailureCode) :=
  '(out, _) ← c; match en_result out with Ok _ => Some None | Err (ErrClassified f) => Some (Some (cf_code f)) | Err _ => None end.
Example a_whole_change_passes : ended (command (Some (loaded_with [])) one_change second_answers_all None) = Some None.
Proof. vm_compute. done. Qed.
Example an_empty_range_is_no_approval : ended (command (Some (loaded_with [])) "" second_answers_all None) = Some (Some EmptyDiff).
Proof. vm_compute. done. Qed.
Example a_truncated_diff_is_refused :
  ended (command (Some (loaded_with [])) (one_change +:+ DIFF_ACQUISITION_TRUNCATION_MARKER) second_answers_all None) = Some (Some DiffTruncated).
Proof. vm_compute. done. Qed.
Example no_engine_no_review : ended (command None one_change second_answers_all None) = Some (Some ReviewersUnavailable).
Proof. vm_compute. done. Qed.
(** One of two reviewers never answers with a verdict. *)
Definition half_answers : RunReadings :=
  readings_of (fun i => if bool_decide (i = 0%nat) then second_model_reviews in_plan_order
                        else mkReviewFeed (fun _ _ => chunk_of (always "no") (always "no")) (fun _ => chunk_of (always "no") (always "no")) in_plan_order).
Example a_partial_panel_is_no_approval : ended (command (Some (loaded_with [])) one_change half_answers (Some "b/two")) = Some (Some ReviewersUnavailable).
Proof. vm_compute. done. Qed.

Lemma review_passes_exact_witness :
  exists out evs, command (Some (loaded_with [])) one_change second_answers_all None = Some (out, evs) /\
    (exists label diff head_plan slots answers,
      asked_panel (H := gregorian) no_timestamp (fun _ => None) [] show_number show_number "routing" reading (Some (loaded_with [])) reviewers_cli
        (branch_repo one_change) 5 second_answers_all ScopeBranch None None false [] plain_sizes label diff head_plan slots answers).
Proof.
  destruct (done_with (fun c => en_result c.1 = Ok tt) (command (Some (loaded_with [])) one_change second_answers_all None)) as ([out evs] & E & Hr);
    [vm_compute; reflexivity|]. exists out, evs. split; [exact E|].
  unfold command in E. apply (review_passes_exact (H := gregorian)) in E; [|reflexivity]. destruct (proj1 E Hr) as (label & diff & head_plan & slots & answers & Ha & _).
  by exists label, diff, head_plan, slots, answers.
Defined.
Lemma exit_agrees_with_document_witness :
  exists out evs em f, command (Some (loaded_with [])) one_change half_answers (Some "b/two") = Some (out, evs) /\ en_emitted out = Some em /\
    em_failure em = Some f /\ cf_code f = ReviewersUnavailable.
Proof.
  destruct (done_with (fun c => match en_emitted c.1, en_result c.1 with Some _, Err (ErrClassified f) => cf_code f = ReviewersUnavailable | _, _ => False end)
    (command (Some (loaded_with [])) one_change half_answers (Some "b/two"))) as ([out evs] & E & Hr); [vm_compute; reflexivity|].
  pose proof E as E'. unfold command in E'. apply (exit_agrees_with_document (H := gregorian)) in E'. unfold agrees in E'.
  cbn [fst] in Hr. destruct (en_emitted out) as [em|] eqn:Ee; [|contradiction]. destruct (en_result out) as [u|[e|e|f]] eqn:Er; [contradiction..|].
  destruct E' as (f' & Hf & Hc). exists out, evs, em, f'. split; [exact E|]. split; [exact Ee|]. split; [exact Hf|]. rewrite Hc. exact Hr.
Defined.
Definition one_chunk_review : option (result (ReviewResult * ReviewerChunkReport) ReviewRefusal * list ReviewEvent) :=
  complete_review_chunks (H := gregorian) no_timestamp (fun _ => None) [] show_number show_number reviewers_setup reviewers_cli reading (second_model_reviews in_plan_order)
    false None ["a/one"; "b/two"] [] "review" None (fun _ => None) ["one"] 100.
Lemma slot_settled_soundly_witness :
  exists rs rep ev v, one_chunk_review = Some (Ok (rs, rep), ev) /\
    settle_slot (fun _ => None) reading encode_as (fun _ _ => "") (branch_repo one_change) second_answers_all "branch" (Ok (rs, rep)) = SlotOk "b/two" v.
Proof.
  destruct (done_with (fun c => match c.1 with Ok (rs, rep) => rs_review rs = merged_fine /\ rr_served_model rep = "b/two" | Err _ => False end) one_chunk_review)
    as ([[[rs rep]|] ev] & E & Hr); [vm_compute; split; reflexivity| |done]. destruct Hr as [Hm Hs]. pose proof E as E0. unfold one_chunk_review in E.
  destruct (slot_settled_soundly (H := gregorian) no_timestamp (fun _ => None) [] show_number show_number (fun _ => None) reading encode_as (fun _ _ => "") reviewers_cli
    (branch_repo one_change) reviewers_setup (second_model_reviews in_plan_order) false None ["a/one"; "b/two"] [] "review" None (fun _ => None) ["one"] 100
    rs rep ev second_answers_all "branch") as (first & users' & mt & v & _ & _ & Hv & _); [|intros m users' t; intros Hn; inversion Hn|exact E|..].
  - intros n. reflexivity.
  - rewrite Hm. exists "approve", ["verdict"; "summary"; "findings"; "next_steps"]. split; [reflexivity|]. split; [reflexivity|]. done.
  - exists rs, rep, ev, v. split; [exact E0|]. by rewrite Hs in Hv.
Defined.

Definition loop_command (first second : ReviewFeed) : option (result LoopReview LoopReviewError * list ReviewEvent) :=
  run_loop_review (H := gregorian) no_timestamp (fun _ => None) (fun _ => None) [] show_number show_number reading encode_as (fun _ _ => "") (loaded_with ["*.rs"]) reviewers_cli
    (mkLoopReadings (fun _ => None) false true first (Some quiet_feeds) quiet_plan second) ["a/one"; "b/two"] [] "review" one_change "working-tree" "" None [] [] None.
Definition first_answers : ReviewFeed := mkReviewFeed (fun _ _ => chunk_of (always "done") (always "no")) (fun _ => chunk_of (always "done") (always "no")) in_plan_order.
(** The reviewer that is asked for the second opinion is not there. *)
Definition second_absent : ReviewFeed :=
  mkReviewFeed (fun _ _ => mkChunkFeed (try_of (fun i _ => if bool_decide (i = 0%nat) then Err refusal else Ok (answering "done"))) (Some quiet_feeds) (try_of (always "no")))
    (fun _ => chunk_of (always "done") (always "no")) in_plan_order.
Lemma loop_review_exact_witness :
  exists out ev first ev1, loop_command first_answers first_answers = Some (Ok out, ev) /\
    run_loop_review_once (H := gregorian) no_timestamp (fun _ => None) [] show_number show_number reading encode_as (fun _ _ => "") (loaded_with ["*.rs"]) reviewers_cli
      (mkLoopReadings (fun _ => None) false true first_answers (Some quiet_feeds) quiet_plan first_answers) ["a/one"; "b/two"] [] "review" one_change "working-tree" "" None [] []
      first_answers None = Some (Ok first, ev1) /\ map vd_model (lv_verdicts out) = ["a/one"; "b/two"].
Proof.
  destruct (done_with (fun c => match c.1 with Ok out => map vd_model (lv_verdicts out) = ["a/one"; "b/two"] | Err _ => False end)
    (loop_command first_answers first_answers)) as ([[out|] ev] & E & Hr); [vm_compute; reflexivity| |done]. pose proof E as E'. unfold loop_command in E'.
  apply (loop_review_exact (H := gregorian)) in E' as (_ & first & ev1 & H1 & _). exists out, ev, first, ev1. split; [exact E|]. split; [exact H1|exact Hr].
Defined.
(** The second opinion is asked of a model of its own, but its call falls back
    along the whole chain: when that model is not there the first reviewer
    answers again, and the two reviews of a change of high risk come from one
    model. *)
Example second_opinion_by_the_first :
  match loop_command first_answers second_absent with
  | Some (Ok out, _) => verdict (lv_review out) = "approve" /\ map vd_model (lv_verdicts out) = ["a/one"; "a/one"] /\ map vd_high_risk (lv_verdicts out) = [false; true]
  | _ => False
  end.
Proof. vm_compute. done. Qed.
(** The findings the filter took out of the second review are not kept. *)
Example second_filtered_dropped m a b : filtered_findings (lv_review (with_second m a b)) = filtered_findings (lv_review a).
Proof. done. Qed.
