(* ===== verification/AgenticTurn.v ===== *)
(** One turn of the coding engine (crates/zoder-cli/src/main.rs,
    [agentic_turn], [cmd_exec_agentic], [cmd_exec_inner]): the guards before
    it, the options the engine gets, the walk of the chain, and the settling of
    the turn in the ledger and in the health of the models.

    The routing files are read once; every resolution after that has a clock
    reading of its own.  What the engine, the daemon, the file system and the
    operator answer are arguments, as are the master prompt, the credentials
    and the texts of a mismatch.  What is printed, the event file, the file of
    the last message and the telemetry of the turn are left out, and so are the
    options only the engine reads: its socket and directory, the reasoning, the
    tool servers and the instructions of the project.

    The theorem [turn_dispatches_permitted] states what a turn may call: only
    links of the chain that pass the gates, each model once, after the
    reservation; and that a turn always ends. *)
From stdpp Require Import gmap strings.
From S2P Require Import Prelude F64 Numbers Text Json Clock Health Config Corpus Policy Pricing HostCooldown Budget Ledger Tiers Utilization Scenarios Router Headers.
From S2P Require Import Paths Approval Turn SessionStore ProviderWire ProviderStream EngineQuery EngineRoutes Routes Oneshot EngineCost ReviewPlan.
Local Open Scope string_scope.
Local Open Scope Z_scope.
Local Open Scope list_scope.
Local Open Scope zoder_scope.

(** ** The session of a turn *)

Record AgentSession := mkAgentSession { agent_alias : string; session_id : string }.
Inductive EngineSessionChoice :=
| Explicit (id : string)
| Continuity (s : AgentSession)
| Persisted (s : AgentSession)
| StoredOrFresh.
Definition choice_session_id (c : EngineSessionChoice) : option string :=
  match c with Explicit i => Some i | Continuity s | Persisted s => Some (session_id s) | StoredOrFresh => None end.
Definition is_continuity_hint (c : EngineSessionChoice) : bool := match c with Continuity _ | Persisted _ => true | _ => false end.
Definition session_for_agent (c : EngineSessionChoice) (alias : string) : option string :=
  match c with
  | Explicit i => Some i
  | Continuity s | Persisted s => if bool_decide (agent_alias s = alias) then Some (session_id s) else None
  | StoredOrFresh => None
  end.

(** ** What the turn reads *)

(** The options of the command line besides those of the routing. *)
Record TurnArgs := mkTurnArgs {
  ta_oneshot : bool;
  ta_session : option string;
  ta_continue : bool;
  ta_persist : bool;
  ta_cd : option string;
  ta_add_dir : list string;
  ta_enforce : bool;
  ta_trust : bool;
  ta_approve : option ApprovalArg;
  ta_timeout : option Z;
  ta_idle : option Z;
  ta_idle_first : option Z;
  ta_idle_between : option Z
}.
(** The idle windows of the configuration and of the environment: the one for
    both, the first event's, the one between events. *)
Record IdleSettings := mkIdle { id_both : option Z; id_first : option Z; id_between : option Z }.
Record GooseProviderEnv := mkGooseEnv { ge_provider_id : string; ge_kind : string; ge_base_url : string; ge_api_key : option string }.
Record AgentOptions := mkAgentOptions {
  op_alias : string;
  op_prompt : string;
  op_model_override : option string;
  op_model_id : option string;
  op_snapshot : option Value;
  op_session_id : option string;
  op_hint : bool;
  op_approval : ApprovalPolicy;
  op_timeout_s : Z;
  op_idle_windows : AgentIdleWindows;
  op_goose_provider : option GooseProviderEnv;
  op_roots : list (list string);
  op_enforce : bool;
  op_trust : bool;
  op_persist : bool
}.
Record AgentRun := mkAgentRun {
  run_session_id : string;
  run_outcome : AgentOutcome;
  run_content : string;
  run_input_tokens : Z;
  run_tool_calls : Z;
  run_failure_detail : option string
}.
(** What the outside does to one link: the clock of its resolution, what its
    dispatch returns (an error is the chain of its messages), and the clock of
    the failure. *)
Record LinkReadings := mkLinkReadings {
  lr_now : Z;
  lr_dispatch : AgentOptions -> result AgentRun (list string);
  lr_failed_at : Z;
  lr_checked_at : Z
}.
Record TurnFeed := mkTurnFeed {
  tn_fd : option Feeds;
  tn_head_now : Z;
  tn_probe_client : bool;
  tn_probe : ProbeFeed;
  tn_reserved : bool;
  tn_month : result f64 string;
  tn_now : Z;
  tn_marker : MarkerFile;
  tn_io : Io;
  tn_budget_word : Word;
  tn_policy_word : Word;
  tn_tree : Tree;
  tn_proc : list string;
  tn_known_before : list string;
  tn_latest : option string;
  tn_store_file : FileRead;
  tn_store_now : Z;
  tn_daemon : bool;
  tn_known : list string;
  tn_live : option Value;
  tn_idle_cfg : IdleSettings;
  tn_idle_env : IdleSettings;
  tn_armed : bool;
  tn_cooldown_now : Z;
  tn_cooldown_rm : bool;
  tn_links : nat -> LinkReadings;
  tn_elapsed_ms : f64;
  tn_posture_now : Z;
  tn_scope : option (Z * Z * bool);
  tn_cost : nat -> result CostSummary QueryError;
  tn_jitter : nat -> f64;
  tn_used_now : Z;
  tn_ts : Z;
  tn_entry_now : Z;
  tn_reconciled : bool;
  tn_policy_saved : bool;
  tn_record_now : Z;
  tn_recorded_at : Z;
  tn_recorded_check : Z
}.
Inductive AgentTurnError :=
| TRouting (e : RoutingError)
| TNoModel
| TLedgerRead
| TNoProvider (model : string)
| TNoProbeClient
| TUnhealthy (note : string)
| TNotKnownFree (model : string)
| TReservationFailed
| TOverBudget (model : string) (why : list Reason)
| TPaidDeclined
| TConfirmFailed
| TNoCwd
| TAlias (e : AliasError)
| TRoots (e : RootsError)
| TNoPriorSession
| TEngineUnavailable
| TNoLiveConfig
| TLiveRegistry (e : EngineError)
| TVerify (e : VerifyError)
| TGooseUnset (provider : string)
| TNotArmed
| TOutside (e : RoutingError)
| TNoFreeLink (model : string)
| TNoPaidLink
| TUnmapped (model : string)
| TNoMasterPrompt
| TSetup (e : list string)
| TNotReconciled
| TPolicyViolated (v : PaidViolation) (saved : bool)
| TMismatch (text : string)
| TUnreachable.
Record TurnResult := mkTurnResult {
  tr_run : AgentRun;
  tr_model : string;
  tr_alias : string;
  tr_cost_usd : f64;
  tr_cost_unknown : bool;
  tr_tokens_in : Z;
  tr_tokens_out : Z;
  tr_elapsed_ms : f64;
  tr_policy_violation : option string
}.
Definition at_time (fd : Feeds) (now : Z) : Feeds := mkFeeds (fd_entries fd) (fd_catalog fd) (fd_store fd) (fd_quota fd) now.

(** ** The idle windows *)

Definition first_given (l : list (option Z)) (d : Z) : Z := default d (foldr or_opt None l).
Definition effective_agent_idle_windows (args : TurnArgs) (cfg env : IdleSettings) (local : bool) : AgentIdleWindows :=
  let '(default_first, default_between) :=
    if local then (DEFAULT_AGENT_IDLE_FIRST_EVENT_S, DEFAULT_AGENT_IDLE_BETWEEN_EVENTS_S)
    else (HOSTED_AGENT_IDLE_FIRST_EVENT_S, HOSTED_AGENT_IDLE_BETWEEN_EVENTS_S) in
  from_secs
    (first_given [ta_idle_first args; ta_idle args; id_first cfg; id_both cfg; id_first env; id_both env] default_first)
    (first_given [ta_idle_between args; ta_idle args; id_between cfg; id_both cfg; id_between env; id_both env] default_between).
Definition DEFAULT_AGENT_TIMEOUT_S : Z := 900.

(** ** The health of a failed turn *)

Definition is_session_limit_message (text : string) : bool :=
  str_contains "session_limit:" text
  || (str_contains "session limit" (to_ascii_lowercase text) && str_contains "32001" (to_ascii_lowercase text)).
Definition is_capacity_setup_error (e : list string) : bool := existsb is_session_limit_message e.
Inductive TurnFailureHealth := Record_ (reason : string) | SkipCapacity.
Definition turn_failure_health (outcome : AgentOutcome) (detail : option string) : TurnFailureHealth :=
  if default false (is_session_limit_message <$> detail) then SkipCapacity
  else Record_ ("turn did not complete: "
    +:+ default (outcome_str outcome) (opt_filter (fun d => negb (str_is_empty d)) (trim <$> detail))).

(** ** The walk of the chain *)

Inductive TurnEvent :=
| TReserved
| TArmed (model : string)
| Dispatched (link : nat) (model : string) (provider : option string) (o : AgentOptions)
| HealthSaved (h : gmap string ModelHealth).
Record TurnWalk := mkTurnWalk { tw_health : gmap string ModelHealth; tw_skipped : list string; tw_events : list TurnEvent }.
Record Ran := mkRan { rn_run : AgentRun; rn_model : string; rn_alias : string; rn_daemon_model : option string }.
Inductive LinkStep :=
| Skipped (w : TurnWalk)
| Finished (r : Ran) (w : TurnWalk)
| Stopped (e : AgentTurnError) (w : TurnWalk).
Definition skip_link (model : string) (w : TurnWalk) : TurnWalk := mkTurnWalk (tw_health w) (tw_skipped w ++ [model]) (tw_events w).
Definition with_event (e : TurnEvent) (w : TurnWalk) : TurnWalk := mkTurnWalk (tw_health w) (tw_skipped w) (tw_events w ++ [e]).
(** [save_health] *)
Definition save_health (w : TurnWalk) : TurnWalk := with_event (HealthSaved (tw_health w)) w.
Definition failed_setup (model provider : string) (e : list string) (lr : LinkReadings) (w : TurnWalk) : TurnWalk :=
  mkTurnWalk
    (record_classified_failure (tw_health w) model ("agentic setup/turn failed: " +:+ default "" (head e)) provider CError
       (lr_failed_at lr) (lr_checked_at lr))
    (tw_skipped w) (tw_events w).
Definition with_link (o : AgentOptions) (alias model prompt : string) (session : option string) (snapshot : option Value) : AgentOptions :=
  mkAgentOptions alias prompt (op_model_override o) (Some model) snapshot session (op_hint o) (op_approval o) (op_timeout_s o)
    (op_idle_windows o) (op_goose_provider o) (op_roots o) (op_enforce o) (op_trust o) (op_persist o).
(** What the walk has at hand. *)
Record TurnSetup := mkSetup {
  su_kind : EngineKind;
  su_prompt : string;
  su_head_provider : Config.Provider;
  su_head_ref : option string;
  su_fd : Feeds;
  su_live : option Value;
  su_registry : option EngineModelRegistry;
  su_known : list string;
  su_choice : EngineSessionChoice;
  su_cooldown : bool;
  su_options : AgentOptions
}.

Section Run.
Context `{Calendar} (from_timestamp : Z -> option Z) (url_host : string -> option string) (parse_ip : string -> option IpAddr)
  (bundled : list (string * ModelPrice)) (values : gmap string ModelStats -> list ModelStats)
  (canonicalize_text : string -> option string) (decode_sessions : string -> option SessionMap) (path_text : list string -> string)
  (compose : string -> string -> option string) (api_key : Auth -> option string) (mismatch_text : string -> option string -> string)
  (fixed4 : f64 -> string) (eng : Engine) (set_ : Settings) (cli : Cli) (opt : Options) (args : TurnArgs).
Let cfg : Routes.Config := eng_cfg eng.
Let gate : PolicyGate := the_gate url_host eng set_ cli opt.
Definition agents_of_config : list (string * option string) :=
  map (fun e => (e.1, configured_model_for_agent eng (Some e.1))) (map_to_list (cf_agents cfg)).
Definition alias_for (known : list string) (model : string) : result string AliasError :=
  resolve_agent_alias (c_model cli) (c_agent cli) (eng_models eng) agents_of_config known model.
Definition goose_provider_env (p : Config.Provider) : result GooseProviderEnv AgentTurnError :=
  if negb (endpoint_is_configured p) then Err (TGooseUnset (prov_id p))
  else Ok (mkGooseEnv (prov_id p) (prov_kind p) (base_url p) (api_key (auth p))).
Definition resolve_engine_session_id (kind_ : EngineKind) (continuity : option AgentSession) (cwd : list string) (head_alias : string) (tn : TurnFeed) :
  result EngineSessionChoice AgentTurnError :=
  match continuity with
  | Some s => Ok (Continuity s)
  | None =>
      match ta_session args with
      | Some i => Ok (Explicit i)
      | None =>
          if ta_continue args then match tn_latest tn with Some i => Ok (Explicit i) | None => Err TNoPriorSession end
          else if ta_persist args then
            let scope := match kind_ with
                         | Zeroclaw => make_agent_scope canonicalize_text (engine_kind_scope kind_) (path_text cwd) head_alias
                         | Goose => make_scope canonicalize_text (engine_kind_scope kind_) (path_text cwd) end in
            match load decode_sessions (SessionStore.config tt) (tn_store_now tn) (tn_store_file tn) scope with
            | Some (Some rec) => Ok (Persisted (mkAgentSession head_alias (rec_session_id rec)))
            | _ => Ok StoredOrFresh
            end
          else Ok StoredOrFresh
      end
  end.

(** *** One link *)

Section Walk.
Context (su : TurnSetup) (links : nat -> LinkReadings).
Definition link_provider (i : nat) (model : string) (lr : LinkReadings) : option Config.Provider :=
  provider_for_resolved_model from_timestamp (at_time (su_fd su) (lr_now lr)) cfg model (if bool_decide (i = 0%nat) then su_head_ref su else None).
(** The posture of a link without a provider is the head's. *)
Definition posture_provider (i : nat) (model : string) (lr : LinkReadings) : Config.Provider := default (su_head_provider su) (link_provider i model lr).
Definition link_alias (model : string) : result string AliasError :=
  match su_kind su with Goose => Ok model | Zeroclaw => alias_for (su_known su) model end.
Definition link_daemon_model (alias model : string) (p : option Config.Provider) : result (option string) AgentTurnError :=
  match su_kind su with
  | Goose => Ok None
  | Zeroclaw =>
      match p with
      | None => Err (TUnmapped model)
      | Some p =>
          match verify_live_zeroclaw_route (c_model cli) (c_agent cli) alias model p (su_registry su) with
          | Ok m => Ok (Some m)
          | Err e => Err (TVerify e)
          end
      end
  end.
(** The call of a link that passed the gates. *)
Definition dispatch_link (i : nat) (model : string) (last : bool) (p : option Config.Provider) (lr : LinkReadings) (w : TurnWalk) : LinkStep :=
  match link_alias model with
  | Err e => Stopped (TAlias e) w
  | Ok alias =>
      match link_daemon_model alias model p with
      | Err e => Stopped e w
      | Ok daemon_model =>
          match compose model (su_prompt su) with
          | None => Stopped TNoMasterPrompt w
          | Some prompt =>
              let o := with_link (su_options su) alias model prompt (session_for_agent (su_choice su) alias)
                         (match su_kind su with Zeroclaw => su_live su | Goose => None end) in
              let w := with_event (Dispatched i model (prov_id <$> p) o) w in
              match lr_dispatch lr o with
              | Ok run => Finished (mkRan run model alias daemon_model) w
              | Err e =>
                  if is_capacity_setup_error e then Stopped (TSetup e) (save_health w)
                  else
                    let w := failed_setup model (prov_id (default (su_head_provider su) p)) e lr w in
                    if last then Stopped (TSetup e) (save_health w) else Skipped (skip_link model w)
              end
          end
      end
  end.
Definition turn_link (i : nat) (model : string) (last : bool) (lr : LinkReadings) (w : TurnWalk) : LinkStep :=
  let p := link_provider i model lr in
  match (match p with Some p => require_allowed_route cli (prov_id p) model | None => Ok tt end) with
  | Err e => Stopped (TOutside e) w
  | Ok _ =>
      let q := posture_provider i model lr in
      let row := row_of_model eng model in
      if su_cooldown su && negb (is_cost_neutral_provider q) && negb last then Skipped (skip_link model w)
      else if c_require_free cli && negb (me_free row) then
        if last then Stopped (TNoFreeLink model) w else Skipped (skip_link model w)
      else if negb (bool_decide (i = 0%nat)) && needs_confirm (check gate row (spends_by_call q) (is_cost_neutral_provider q)) then
        if last then Stopped TNoPaidLink w else Skipped (skip_link model w)
      else dispatch_link i model last p lr w
  end.
Definition skipped_in (w : TurnWalk) (m : string) : bool := bool_decide (m ∈ tw_skipped w).
(** The first link that is not skipped, else the last one. *)
Definition next_link (chain : list string) (w : TurnWalk) : nat :=
  default (length chain - 1)%nat (fst <$> list_find (fun m => skipped_in w m = false) chain).
Fixpoint walk_links (fuel : nat) (chain : list string) (w : TurnWalk) : option (result Ran AgentTurnError * TurnWalk) :=
  match fuel with
  | O => None
  | S fuel =>
      let i := next_link chain w in
      match chain !! i with
      | None => Some (Err TUnreachable, w)
      | Some model =>
          match turn_link i model (forallb (skipped_in w) (drop (S i) chain)) (links i) w with
          | Skipped w => walk_links fuel chain w
          | Finished r w => Some (Ok r, w)
          | Stopped e w => Some (Err e, w)
          end
      end
  end.
End Walk.

(** *** Before the walk *)

(** The questions of the budget and of the policy on the head. *)
Definition budget_ask (primary prompt : string) (tn : TurnFeed) : option (list Reason) :=
  match (evaluate_call_with_host_cooldown bundled (st_budget set_) (tn_marker tn) (st_pricing set_) primary (Budget.estimate_tokens (len prompt))
           (est_output_tokens (st_budget set_)) 0 (Some (tn_now tn)) (tn_month tn) (tn_now tn) (tn_io tn)).1 with
  | Confirm why => Some why
  | WithinBudget => None
  end.
Definition turn_ask {A} (question : option A) (w : Word) (declined : AgentTurnError) : result unit AgentTurnError :=
  match question with
  | None => Ok tt
  | Some _ => match confirm_paid w with Ok true => Ok tt | Ok false => Err declined | Err _ => Err TConfirmFailed end
  end.
(** The probe of a head whose provider is gated. *)
Definition head_admitted (primary : string) (p : Config.Provider) (store : gmap string ModelHealth) (tn : TurnFeed) : result unit AgentTurnError :=
  if negb (bool_decide (prov_id p ∈ st_gated set_)) then Ok tt
  else if negb (tn_probe_client tn) then Err TNoProbeClient
  else match (admit_model store (tn_probe tn) (prov_id p) primary).2 with Some note => Err (TUnhealthy note) | None => Ok tt end.
Definition head_agreed (primary prompt : string) (p : Config.Provider) (tn : TurnFeed) : result unit AgentTurnError :=
  let row := row_of_model eng primary in
  if c_require_free cli && negb (me_free row) then Err (TNotKnownFree primary)
  else
    let policy := match check gate row (spends_by_call p) (is_cost_neutral_provider p) with NeedConfirm m why => Some (m, why) | Allow => None end in
    if negb (tn_reserved tn) then Err TReservationFailed
    else
      let budget := if c_allow_paid cli || is_cost_neutral_provider p then None else budget_ask primary prompt tn in
      let? _ := turn_ask budget (tn_budget_word tn) (TOverBudget primary (default [] budget)) in
      turn_ask policy (tn_policy_word tn) TPaidDeclined.
(** What the daemon says of itself: nothing is asked of Goose. *)
Definition live_registry (kind_ : EngineKind) (tn : TurnFeed) : result (option Value * option EngineModelRegistry) AgentTurnError :=
  match kind_ with
  | Goose => Ok (None, None)
  | Zeroclaw =>
      if negb (tn_daemon tn) then Err TEngineUnavailable
      else match tn_live tn with
      | None => Err TNoLiveConfig
      | Some v => match from_json v with Ok reg => Ok (Some v, Some reg) | Err e => Err (TLiveRegistry e) end
      end
  end.
Definition zeroclaw_model_override : option string := None.
(** The options of the head; the walk sets what depends on a link. *)
Definition head_options (kind_ : EngineKind) (primary prompt head_alias : string) (p : Config.Provider) (choice : EngineSessionChoice)
  (roots : list (list string)) (goose : option GooseProviderEnv) (tn : TurnFeed) : AgentOptions :=
  mkAgentOptions head_alias prompt zeroclaw_model_override (Some primary) None (choice_session_id choice) (is_continuity_hint choice)
    (parse_approval (ta_approve args)) (default DEFAULT_AGENT_TIMEOUT_S (ta_timeout args))
    (effective_agent_idle_windows args (tn_idle_cfg tn) (tn_idle_env tn) (is_local_route parse_ip p)) goose roots (ta_enforce args) (ta_trust args)
    (ta_persist args).
(** From the directory to the walk. *)
Definition prepare (kind_ : EngineKind) (primary prompt : string) (p : Config.Provider) (reference : option string) (fd : Feeds)
  (continuity : option AgentSession) (tn : TurnFeed) : result TurnSetup AgentTurnError :=
  match agentic_cwd (tn_tree tn) (tn_proc tn) (ta_cd args) with
  | None => Err TNoCwd
  | Some cwd =>
      match (match kind_ with Goose => Ok primary | Zeroclaw => alias_for (tn_known_before tn) primary end) with
      | Err e => Err (TAlias e)
      | Ok head_alias =>
          match resolve_writable_roots (tn_tree tn) (tn_proc tn) cwd (ta_add_dir args) with
          | Err e => Err (TRoots e)
          | Ok roots =>
              let? choice := resolve_engine_session_id kind_ continuity cwd head_alias tn in
              let? live := live_registry kind_ tn in
              let? head_model := match kind_ with
                                 | Goose => Ok ""
                                 | Zeroclaw => match verify_live_zeroclaw_route (c_model cli) (c_agent cli) head_alias primary p live.2 with
                                               | Ok m => Ok m | Err e => Err (TVerify e) end
                                 end in
              let? goose := match kind_ with
                            | Goose => match goose_provider_env p with Ok g => Ok (Some g) | Err e => Err e end
                            | Zeroclaw => Ok None end in
              if negb (tn_armed tn) then Err TNotArmed
              else Ok (mkSetup kind_ prompt p reference fd live.1 live.2 (match kind_ with Zeroclaw => tn_known tn | Goose => [] end) choice
                         (cooldown_active (tn_marker tn) (tn_cooldown_now tn) (tn_cooldown_rm tn))
                         (head_options kind_ primary prompt head_alias p choice roots goose tn))
          end
      end
  end.

(** *** After the walk *)

Definition posture_at (fd : Feeds) (now : Z) (model : string) : BillingPosture :=
  default PostureMetered (posture_of <$> routed_provider from_timestamp (at_time fd now) cfg model).
Record TurnSettled := mkSettledTurn {
  ts_report : AgenticCostReport;
  ts_cost : f64;
  ts_known : bool;
  ts_model : string;
  ts_mismatch : option string;
  ts_posture : BillingPosture;
  ts_paid : option PaidViolation;
  ts_violation : option string;
  ts_entry : Entry
}.
Definition TURN_KIND : string := "agentic turn".
Definition settle_turn (su : TurnSetup) (r : Ran) (tn : TurnFeed) : TurnSettled :=
  let fd := su_fd su in
  let posture := posture_at fd (tn_posture_now tn) (rn_model r) in
  let report := match su_kind su with
                | Zeroclaw => scope_cost values (tn_scope tn) (tn_cost tn) (tn_jitter tn) posture
                | Goose => mkReport f64_zero (run_input_tokens (rn_run r)) 0 None false 1 None
                end in
  let '(cost, known) := agentic_cost_verdict (ar_cost report) (ar_known report) posture in
  let '(model_used, mismatched) := match su_kind su with
                                   | Zeroclaw => reconcile_agentic_model_identity (c_model cli) (rn_model r) (rn_daemon_model r) (ar_model report)
                                   | Goose => (rn_model r, false) end in
  let mismatch := if mismatched
                  then Some (mismatch_text (rn_alias r) (if pinned_model_mismatch (c_model cli) (rn_daemon_model r) then rn_daemon_model r else ar_model report))
                  else None in
  let posture := posture_at fd (tn_used_now tn) model_used in
  let neutral := is_cost_neutral posture in
  let paid_ := match su_kind su with
               | Zeroclaw => paid_without_opt_in (c_allow_paid cli) neutral model_used (known_not_free eng model_used) (if known then Some cost else None)
               | Goose => None end in
  let unknown := if negb known && negb (c_allow_paid cli) && negb neutral
                 then Some ("cost unknown: " +:+ (match su_kind su with Zeroclaw => "Zeroclaw" | Goose => "Goose" end) +:+ " returned no authoritative cost telemetry")
                 else None in
  let policy := joined (paid_violation_text fixed4 ("agentic run (alias " +:+ rn_alias r +:+ ")") <$> paid_) unknown in
  mkSettledTurn report cost known model_used mismatch posture paid_ policy
    (mkEntry (tn_ts tn) (default (prov_id (su_head_provider su)) (prov_id <$> routed_provider from_timestamp (at_time fd (tn_entry_now tn)) cfg model_used))
       model_used (host_of_model model_used) (ar_tokens_in report) (ar_tokens_out report) cost (negb known) (ar_calls report) (joined policy mismatch)
       (finops_tags (o_task opt) (c_tier cli) (ar_tokens_in report) None) (Some (posture_str posture)) (ar_estimated report)).
(** The health after a turn that was accounted for, and whether it is saved. *)
Definition turn_health (su : TurnSetup) (r : Ran) (s : TurnSettled) (tn : TurnFeed) (w : TurnWalk) : TurnWalk :=
  let provider := default (prov_id (su_head_provider su)) (prov_id <$> routed_provider from_timestamp (at_time (su_fd su) (tn_record_now tn)) cfg (ts_model s)) in
  let fail reason :=
    save_health (mkTurnWalk (record_classified_failure (tw_health w) (ts_model s) reason provider CError (tn_recorded_at tn) (tn_recorded_check tn))
      (tw_skipped w) (tw_events w)) in
  match ts_mismatch s, ts_violation s with
  | None, None =>
      if run_succeeded (run_outcome (rn_run r))
      then save_health (mkTurnWalk (record_success (tw_health w) (ts_model s) (tn_elapsed_ms tn) (tn_recorded_at tn)) (tw_skipped w) (tw_events w))
      else match turn_failure_health (run_outcome (rn_run r)) (run_failure_detail (rn_run r)) with
           | SkipCapacity => w
           | Record_ reason => fail reason
           end
  | Some v, _ => fail ("model selection violation: " +:+ v)
  | None, Some v => fail ("policy violation: " +:+ v)
  end.
Definition finish_turn (su : TurnSetup) (r : Ran) (tn : TurnFeed) (w : TurnWalk) : result TurnResult AgentTurnError * TurnWalk :=
  let s := settle_turn su r tn in
  if negb (tn_reconciled tn) then (Err TNotReconciled, w)
  else match ts_paid s with
  | Some v =>
      (Err (TPolicyViolated v (tn_policy_saved tn)),
       save_health (mkTurnWalk
         (record_failure (tw_health w) (ts_model s) ("policy: " +:+ paid_violation_text fixed4 ("agentic run (alias " +:+ rn_alias r +:+ ")") v)
            (tn_recorded_at tn) (tn_recorded_check tn)) (tw_skipped w) (tw_events w)))
  | None =>
      let w := turn_health su r s tn w in
      match ts_mismatch s with
      | Some m => (Err (TMismatch m), w)
      | None =>
          (Ok (mkTurnResult (rn_run r) (ts_model s) (rn_alias r) (ts_cost s) (negb (ts_known s)) (ar_tokens_in (ts_report s)) (ar_tokens_out (ts_report s))
                 (tn_elapsed_ms tn) (ts_violation s)), w)
      end
  end.
Fixpoint distinct (seen l : list string) : list string :=
  match l with
  | [] => []
  | m :: r => if bool_decide (m ∈ seen) then distinct seen r else m :: distinct (m :: seen) r
  end.
Context `{HealthView}.
(** The turn, with the alias of the pinned model resolved; [loaded] is the
    routing context of the resolution. *)
Definition resolved_turn (kind_ : EngineKind) (prompt : string) (continuity : option AgentSession) (loaded : bool -> option Feeds)
  (health store : gmap string ModelHealth) (tn : TurnFeed) : result TurnResult AgentTurnError * list TurnEvent :=
  match resolve_chain from_timestamp loaded cli eng with
  | Err e => (Err (TRouting e), [])
  | Ok routes =>
      match distinct [] (rr_primary routes) with
      | [] => (Err TNoModel, [])
      | (primary :: _) as chain =>
          match tn_fd tn with
          | None => (Err TLedgerRead, [])
          | Some fd =>
              match provider_for_resolved_model from_timestamp (at_time fd (tn_head_now tn)) cfg primary (rr_provider_ref routes) with
              | None => (Err (TNoProvider primary), [])
              | Some p =>
                  match head_admitted primary p store tn with
                  | Err e => (Err e, [])
                  | Ok _ =>
                      match head_agreed primary prompt p tn with
                      | Err e => (Err e, [])
                      | Ok _ =>
                          match prepare kind_ primary prompt p (rr_provider_ref routes) fd continuity tn with
                          | Err e => (Err e, [TReserved])
                          | Ok su =>
                              match walk_links su (tn_links tn) (length chain) chain (mkTurnWalk health [] [TReserved; TArmed primary]) with
                              | None => (Err TUnreachable, [])
                              | Some (Err e, w) => (Err e, tw_events w)
                              | Some (Ok r, w) => let '(out, w) := finish_turn su r tn w in (out, tw_events w)
                              end
                          end
                      end
                  end
              end
          end
      end
  end.
End Run.

(** *** The command *)

(** Standard input: a terminal, or what is still to be read of a pipe. *)
Inductive Stdin := Terminal | Piped (rest : option string).
(** [read_prompt]: a pipe is read to its end. *)
Definition read_prompt (arg : option string) (stdin : Stdin) : option string * Stdin :=
  match opt_filter (fun p => negb (bool_decide (p = "-"))) arg with
  | Some p => (Some p, stdin)
  | None => match stdin with Terminal => (None, stdin) | Piped None => (None, stdin) | Piped (Some s) => (Some s, Piped (Some "")) end
  end.
Definition TURN_DETAIL_MAX_CHARS : nat := 400.
Definition turn_failure_summary (outcome : AgentOutcome) (detail : option string) : string :=
  let line := d ← detail; find_first (fun l => negb (str_is_empty l)) (map trim (Text.lines d)) in
  let cut l := if (TURN_DETAIL_MAX_CHARS <? char_count l)%nat then take_chars TURN_DETAIL_MAX_CHARS l +:+ ELLIPSIS else l in
  match line with
  | Some l => "agentic turn ended: " +:+ outcome_str outcome +:+ ": " +:+ cut l
  | None => "agentic turn ended: " +:+ outcome_str outcome
  end.
Inductive ExecError :=
| BadEngine
| NoTask
| EmptyTask
| TurnFailed (e : AgentTurnError)
| FreePolicyViolated (v : string)
| TurnIncomplete (summary : string) (budget : option (option string)).
(** [turn_failure_error]: a budget refusal of the engine keeps its reset. *)
Definition turn_failure_error (outcome : AgentOutcome) (detail : option string) : ExecError :=
  let summary := turn_failure_summary outcome detail in
  TurnIncomplete summary (snd <$> Failure.classify_engine_budget_exceeded (default summary detail)).
Inductive ExecEnd :=
| ExecDryRun (alias model : string)
| ExecDone (t : TurnResult)
| ExecFailed (t : option TurnResult) (e : ExecError)
| ExecOneshot (o : Oneshot.Outcome).
Section Command.
Context `{Calendar} `{HealthView} (from_timestamp : Z -> option Z) (url_host : string -> option string) (parse_ip : string -> option IpAddr)
  (bundled : list (string * ModelPrice)) (values : gmap string ModelStats -> list ModelStats)
  (canonicalize_text : string -> option string) (decode_sessions : string -> option SessionMap) (path_text : list string -> string)
  (compose : string -> string -> option string) (api_key : Auth -> option string) (mismatch_text : string -> option string -> string)
  (fixed4 : f64 -> string) (eng : Engine) (set_ : Settings) (cli : Cli) (opt : Options) (args : TurnArgs).
Definition agentic_turn (kind_ : EngineKind) (prompt : string) (continuity : option AgentSession) (loaded : bool -> option Feeds)
  (health store : gmap string ModelHealth) (tn : TurnFeed) : result TurnResult AgentTurnError * list TurnEvent :=
  resolved_turn from_timestamp url_host parse_ip bundled values canonicalize_text decode_sessions path_text compose api_key mismatch_text fixed4
    eng set_ (with_resolved_model_alias cli (eng_corpus eng)) opt args kind_ prompt continuity loaded health store tn.
(** [cmd_exec_agentic]: what is left of standard input, the end and the steps. *)
Definition cmd_exec_agentic (engine : string) (prompt : option string) (stdin : Stdin) (loaded : bool -> option Feeds)
  (health store : gmap string ModelHealth) (tn : TurnFeed) : ExecEnd * list TurnEvent * Stdin :=
  match parse_engine_kind engine with
  | None => (ExecFailed None BadEngine, [], stdin)
  | Some kind_ =>
      if c_dry_run cli then
        match resolve_chain from_timestamp loaded cli eng with
        | Err e => (ExecFailed None (TurnFailed (TRouting e)), [], stdin)
        | Ok routes =>
            let primary := default "" (head (rr_primary routes)) in
            match (match kind_ with Goose => Ok primary | Zeroclaw => alias_for eng cli (tn_known_before tn) primary end) with
            | Err e => (ExecFailed None (TurnFailed (TAlias e)), [], stdin)
            | Ok alias =>
                match agentic_cwd (tn_tree tn) (tn_proc tn) (ta_cd args) with
                | None => (ExecFailed None (TurnFailed TNoCwd), [], stdin)
                | Some _ => (ExecDryRun alias primary, [], stdin)
                end
            end
        end
      else
        let '(task, stdin) := read_prompt prompt stdin in
        match task with
        | None => (ExecFailed None NoTask, [], stdin)
        | Some task =>
            if str_is_empty (trim task) then (ExecFailed None EmptyTask, [], stdin)
            else match agentic_turn kind_ task None loaded health store tn with
            | (Err e, ev) => (ExecFailed None (TurnFailed e), ev, stdin)
            | (Ok t, ev) =>
                (match tr_policy_violation t with
                 | Some v => ExecFailed (Some t) (FreePolicyViolated v)
                 | None =>
                     if run_succeeded (run_outcome (tr_run t)) then ExecDone t
                     else ExecFailed (Some t) (turn_failure_error (run_outcome (tr_run t)) (run_failure_detail (tr_run t)))
                 end, ev, stdin)
            end
        end
  end.
(** [cmd_exec_inner]; [single] is the single call on a prompt. *)
Definition is_engine_unavailable (e : ExecEnd) : bool := match e with ExecFailed None (TurnFailed TEngineUnavailable) => true | _ => false end.
Definition cmd_exec_inner (engine : string) (prompt : option string) (stdin : Stdin) (loaded : bool -> option Feeds)
  (health store : gmap string ModelHealth) (tn : TurnFeed) (single : option string -> Oneshot.Outcome) : ExecEnd :=
  if ta_oneshot args then ExecOneshot (single (read_prompt prompt stdin).1)
  else
    let '(e, _, stdin) := cmd_exec_agentic engine prompt stdin loaded health store tn in
    if is_engine_unavailable e then ExecOneshot (single (read_prompt prompt stdin).1) else e.
End Command.

(** ** The walk ends, and dispatches only what it may *)

Lemma next_link_in chain w : chain <> [] -> is_Some (chain !! next_link chain w).
Proof.
  intros Hne. unfold next_link. apply lookup_lt_is_Some.
  destruct (list_find _ chain) as [[j m]|] eqn:E; cbn.
  - apply list_find_Some in E as (Hj & _). by eapply lookup_lt_Some.
  - destruct chain; [done|]. cbn. lia.
Qed.
(** The links that are still to be tried. *)
Definition unskipped (chain : list string) (w : TurnWalk) : list string := filterb (fun m => negb (skipped_in w m)) chain.
Lemma skipped_in_skip model w m : skipped_in (skip_link model w) m = skipped_in w m || bool_decide (m = model).
Proof. unfold skipped_in, skip_link. cbn. destruct (decide (m = model)), (decide (m ∈ tw_skipped w)); repeat case_bool_decide; set_solver. Qed.
Lemma filterb_fewer {A} (p q : A -> bool) l x : x ∈ l -> p x = true -> q x = false -> (forall y, q y = true -> p y = true) ->
  (length (filterb q l) < length (filterb p l))%nat.
Proof.
  intros Hin Hp Hq Hqp. assert (forall k, length (filterb q k) <= length (filterb p k))%nat as Hle.
  { induction k as [|y k IH]; unfold filterb in *; cbn; [lia|]. destruct (q y) eqn:E; [rewrite (Hqp y E); cbn; lia|destruct (p y); cbn; lia]. }
  apply list_elem_of_split in Hin as (a & b & ->). unfold filterb. rewrite !List.filter_app, !length_app. cbn. rewrite Hp, Hq. cbn.
  pose proof (Hle a). pose proof (Hle b). unfold filterb in *. lia.
Qed.

Section WalkProofs.
Context `{Calendar} (from_timestamp : Z -> option Z) (url_host : string -> option string)
  (compose : string -> string -> option string) (eng : Engine) (set_ : Settings) (cli : Cli) (opt : Options) (su : TurnSetup)
  (links : nat -> LinkReadings).
Local Notation walk := (walk_links from_timestamp url_host compose eng set_ cli opt su links).
Local Notation step := (turn_link from_timestamp url_host compose eng set_ cli opt su).
Local Notation provider_of := (link_provider from_timestamp eng su).

(** What a link must satisfy to be called with the options [o]: its provider
    is an allowed route, a run that may only use free models calls a free one,
    a link after the head needs no confirmation (nobody is asked again), its
    alias resolves and is the alias of the options, the daemon of Zeroclaw was
    seen to route the alias to the model, and the session is the one that was
    kept for that alias. *)
Definition may_dispatch (i : nat) (model : string) (pid : option string) (o : AgentOptions) : Prop :=
  let p := provider_of i model (links i) in
  let q := posture_provider from_timestamp eng su i model (links i) in
  let row := row_of_model eng model in
  pid = prov_id <$> p /\
  (forall v, p = Some v -> require_allowed_route cli (prov_id v) model = Ok tt) /\
  (c_require_free cli = true -> me_free row = true) /\
  (i = 0%nat \/ needs_confirm (check (the_gate url_host eng set_ cli opt) row (spends_by_call q) (is_cost_neutral_provider q)) = false) /\
  link_alias eng cli su model = Ok (op_alias o) /\
  (su_kind su = Zeroclaw -> exists v m, p = Some v /\ verify_live_zeroclaw_route (c_model cli) (c_agent cli) (op_alias o) model v (su_registry su) = Ok m) /\
  compose model (su_prompt su) = Some (op_prompt o) /\
  op_model_id o = Some model /\
  op_session_id o = session_for_agent (su_choice su) (op_alias o).
(** The events of one link. *)
Definition link_events (i : nat) (model : string) (new : list TurnEvent) : Prop :=
  new = [] \/ exists pid o, may_dispatch i model pid o /\
    (new = [Dispatched i model pid o] \/ exists h, new = [Dispatched i model pid o; HealthSaved h]).
Lemma turn_link_shape i model last w :
  match step i model last (links i) w with
  | Skipped w' => last = false /\ (exists new, tw_events w' = tw_events w ++ new /\ link_events i model new)
      /\ (forall m, skipped_in w' m = skipped_in w m || bool_decide (m = model))
  | Finished r w' => exists pid o, may_dispatch i model pid o /\ tw_events w' = tw_events w ++ [Dispatched i model pid o]
      /\ lr_dispatch (links i) o = Ok (rn_run r) /\ rn_model r = model /\ rn_alias r = op_alias o
  | Stopped e w' => e <> TUnreachable /\ exists new, tw_events w' = tw_events w ++ new /\ link_events i model new
  end.
Proof.
  assert (forall w0 : TurnWalk, exists new, tw_events w0 = tw_events w0 ++ new /\ link_events i model new) as Hnone
    by (intros w0; exists []; rewrite app_nil_r; split; [done|by left]).
  unfold turn_link. set (p := provider_of i model (links i)). set (q := posture_provider _ _ _ i model _).
  destruct (match p with Some v => require_allowed_route cli (prov_id v) model | None => Ok tt end) as [[]|e] eqn:Hr; [|split; [done|exact (Hnone w)]].
  destruct (su_cooldown su && negb (is_cost_neutral_provider q) && negb last) eqn:Hc.
  { split; [destruct last; [|done]; by rewrite andb_false_r in Hc|]. split; [exact (Hnone w)|intros; apply skipped_in_skip]. }
  destruct (c_require_free cli && negb (me_free (row_of_model eng model))) eqn:Hf.
  { destruct last; [split; [done|exact (Hnone w)]|]. split; [done|]. split; [exact (Hnone w)|intros; apply skipped_in_skip]. }
  destruct (negb (bool_decide (i = 0%nat)) && needs_confirm _) eqn:Hn.
  { destruct last; [split; [done|exact (Hnone w)]|]. split; [done|]. split; [exact (Hnone w)|intros; apply skipped_in_skip]. }
  unfold dispatch_link. destruct (link_alias eng cli su model) as [alias|e] eqn:Ha; [|split; [done|exact (Hnone w)]].
  destruct (link_daemon_model cli su alias model p) as [dm|e] eqn:Hd.
  2: { split; [|exact (Hnone w)]. unfold link_daemon_model in Hd. destruct (su_kind su); [|done]. destruct p; [|by injection Hd as <-].
       destruct (verify_live_zeroclaw_route _ _ _ _ _ _); [done|by injection Hd as <-]. }
  destruct (compose model (su_prompt su)) as [prompt|] eqn:Hp; [|split; [done|exact (Hnone w)]].
  set (o := with_link _ _ _ _ _ _).
  assert (may_dispatch i model (prov_id <$> p) o) as Hmay.
  { unfold may_dispatch. fold p q. split; [done|]. split; [intros v Hv; by rewrite Hv in Hr|].
    split; [intros Hreq; rewrite Hreq in Hf; by destruct (me_free _)|].
    split. { apply andb_false_iff in Hn as [Hn%negb_false_iff|Hn]; [left; by apply bool_decide_eq_true in Hn|by right]. }
    split; [done|]. split; [|done].
    intros Hz. unfold link_daemon_model in Hd. rewrite Hz in Hd. destruct p as [v|]; [|done].
    destruct (verify_live_zeroclaw_route _ _ alias model v _) as [m|] eqn:E; [|done]. by exists v, m. }
  destruct (lr_dispatch (links i) o) as [run|e] eqn:El; [by exists (prov_id <$> p), o|].
  assert (forall h, link_events i model [Dispatched i model (prov_id <$> p) o; HealthSaved h]) as Hsaved by (intros h; right; eauto 10).
  destruct (is_capacity_setup_error e); [|destruct last].
  - split; [done|]. eexists. split; [|apply Hsaved]. cbn. by rewrite <- app_assoc.
  - split; [done|]. eexists. split; [|apply Hsaved]. cbn. by rewrite <- app_assoc.
  - split; [done|]. split; [|intros m; by rewrite skipped_in_skip]. exists [Dispatched i model (prov_id <$> p) o]. split; [done|right; eauto 10].
Qed.
Definition untried (chain : list string) (w : TurnWalk) : Prop := exists m, m ∈ chain /\ skipped_in w m = false.
Lemma next_link_untried chain w : untried chain w ->
  exists m, chain !! next_link chain w = Some m /\ skipped_in w m = false.
Proof.
  intros (m & Hin & Hm). unfold next_link. destruct (list_find _ chain) as [[j n]|] eqn:E; cbn.
  - apply list_find_Some in E as (Hj & Hn & _). by exists n.
  - apply list_find_None in E. rewrite Forall_forall in E. by destruct (E m Hin).
Qed.
(** A link is the last one when it and the ones before it are all that is
    left. *)
Lemma not_last_left i chain w : forallb (skipped_in w) (drop (S i) chain) = false ->
  exists m, m ∈ drop (S i) chain /\ skipped_in w m = false.
Proof.
  intros Hf. destruct (list_find (fun m => skipped_in w m = false) (drop (S i) chain)) as [[j n]|] eqn:E.
  - apply list_find_Some in E as (Hj & Hm & _). exists n. split; [by eapply list_elem_of_lookup_2|done].
  - exfalso. apply not_true_iff_false in Hf. apply Hf. apply forallb_elem. intros m Hin. apply list_find_None in E.
    rewrite Forall_forall in E. specialize (E m Hin). by destruct (skipped_in w m).
Qed.
(** The models that were called. *)
Definition called (ev : list TurnEvent) : list string := omap (fun e => match e with Dispatched _ m _ _ => Some m | _ => None end) ev.
Definition permitted_event (chain : list string) (e : TurnEvent) : Prop :=
  match e with
  | Dispatched i m pid o => chain !! i = Some m /\ may_dispatch i m pid o
  | HealthSaved _ => True
  | TReserved | TArmed _ => False
  end.
Lemma link_events_permitted chain i model new : chain !! i = Some model -> link_events i model new ->
  Forall (permitted_event chain) new /\ (called new = [] \/ called new = [model]).
Proof.
  intros Hi [->|(pid & o & Hm & [->|[h ->]])]; (split; [|cbn; by auto]); rewrite ?Forall_cons, ?Forall_nil; by cbn.
Qed.
(** What a walk added to the events, and how it ended. *)
Definition walked (chain : list string) (out : result Ran AgentTurnError) (new : list TurnEvent) : Prop :=
  Forall (permitted_event chain) new /\ NoDup (called new) /\
  match out with
  | Ok r => exists i pid o before, new = before ++ [Dispatched i (rn_model r) pid o] /\ lr_dispatch (links i) o = Ok (rn_run r)
  | Err e => e <> TUnreachable
  end.
Lemma one_link chain i m last w : chain !! i = Some m ->
  let ended out w' := exists new, tw_events w' = tw_events w ++ new /\ walked chain out new /\ forall n, n ∈ called new -> n = m in
  match step i m last (links i) w with
  | Skipped _ => True
  | Finished r w' => ended (Ok r) w'
  | Stopped e w' => ended (Err e) w'
  end.
Proof.
  intros Hm ended. pose proof (turn_link_shape i m last w) as Hs. destruct (step i m last (links i) w) as [w'|r w'|e w']; [done| |].
  - destruct Hs as (pid & o & Hmay & Hev & Hd & Hr & _). exists [Dispatched i m pid o]. split; [done|].
    split; [|intros n Hn; by apply list_elem_of_singleton in Hn].
    split; [by rewrite Forall_singleton|]. split; [by apply NoDup_singleton|]. rewrite Hr. by exists i, pid, o, [].
  - destruct Hs as (Hu & new & Hev & Hnew). exists new. split; [done|].
    destruct (link_events_permitted chain i m new Hm Hnew) as [Hp [Hc|Hc]]; unfold walked; rewrite Hc.
    + split; [split; [done|split; [constructor|done]]|intros n Hn; by apply not_elem_of_nil in Hn].
    + split; [split; [done|split; [apply NoDup_singleton|done]]|intros n Hn; by apply list_elem_of_singleton in Hn].
Qed.
Lemma skip_untried chain m w w' : (forall n, skipped_in w' n = skipped_in w n || bool_decide (n = m)) ->
  m ∈ chain -> skipped_in w m = false -> (length (unskipped chain w') < length (unskipped chain w))%nat.
Proof.
  intros Hs Hin Hm. apply (filterb_fewer _ _ chain m Hin).
  - by rewrite Hm.
  - rewrite Hs, bool_decide_true by done. by rewrite orb_true_r.
  - intros n. rewrite Hs. by destruct (skipped_in w n).
Qed.
Lemma walk_ends : forall fuel chain w, NoDup chain -> untried chain w -> (length (unskipped chain w) <= fuel)%nat ->
  exists out w' new, walk fuel chain w = Some (out, w') /\ tw_events w' = tw_events w ++ new /\ walked chain out new
    /\ forall m, m ∈ called new -> skipped_in w m = false.
Proof.
  induction fuel as [|fuel IH]; intros chain w Hnd Hu Hle.
  { destruct Hu as (m & Hin & Hm). assert (m ∈ unskipped chain w) as Hx by (apply elem_of_filterb; by rewrite Hm).
    destruct (unskipped chain w); [by apply elem_of_nil in Hx|cbn in Hle; lia]. }
  destruct (next_link_untried chain w Hu) as (m & Hi & Hm). cbn [walk_links]. rewrite Hi. set (i := next_link chain w) in *.
  assert (m ∈ chain) as Hin by (by eapply list_elem_of_lookup_2).
  set (last := forallb _ _). pose proof (one_link chain i m last w Hi) as Hone. pose proof (turn_link_shape i m last w) as Hs.
  destruct (step i m last (links i) w) as [w'|r w'|e w'].
  2, 3: destruct Hone as (new & Hev & Hw & Hc); do 3 eexists; split; [done|split; [done|split; [done|]]]; intros n Hn; by rewrite (Hc n Hn).
  destruct Hs as (Hl & (new & Hev & Hnew) & Hsk). destruct (link_events_permitted chain i m new Hi Hnew) as [Hp Hc].
  assert (untried chain w') as Hu'.
  { destruct (not_last_left i chain w Hl) as (n & Hn & Hf). exists n. split.
    - rewrite <- (take_drop (S i) chain). apply elem_of_app. by right.
    - rewrite Hsk, Hf. cbn. apply bool_decide_eq_false. intros ->. rewrite <- (take_drop_middle chain i m Hi) in Hnd.
      apply NoDup_app in Hnd as (_ & _ & [Hx _]%NoDup_cons). done. }
  pose proof (skip_untried chain m w w' Hsk Hin Hm).
  destruct (IH chain w' Hnd Hu' ltac:(lia)) as (out & w2 & new2 & Hw2 & Hev2 & (Hp2 & Hn2 & Ho2) & Hc2).
  exists out, w2, (new ++ new2). split; [done|]. split; [by rewrite Hev2, Hev, app_assoc|].
  assert (called (new ++ new2) = called new ++ called new2) as Happ by apply omap_app.
  split; [split; [by apply Forall_app|split]|].
  - rewrite Happ. destruct Hc as [->| ->]; [done|]. constructor; [|done]. intros Hx%Hc2. rewrite Hsk, bool_decide_true, orb_true_r in Hx; done.
  - destruct out as [r|e]; [|done]. destruct Ho2 as (j & pid & o & before & -> & Ho2). exists j, pid, o, (new ++ before). by rewrite app_assoc.
  - rewrite Happ. intros n [Hx|Hx]%elem_of_app.
    + destruct Hc as [Hc|Hc]; rewrite Hc in Hx; [by apply not_elem_of_nil in Hx|]. apply list_elem_of_singleton in Hx. by subst n.
    + specialize (Hc2 n Hx). rewrite Hsk in Hc2. by apply orb_false_iff in Hc2 as [? _].
Qed.
End WalkProofs.

Lemma distinct_spec l : forall seen, NoDup (distinct seen l) /\ (forall m, m ∈ distinct seen l -> m ∉ seen /\ m ∈ l).
Proof.
  induction l as [|m l IH]; intros seen; cbn; [split; [constructor|intros m Hm; by apply not_elem_of_nil in Hm]|].
  case_bool_decide as Hm; [destruct (IH seen) as [Hn Hx]; split; [done|set_solver]|].
  destruct (IH (m :: seen)) as [Hn Hx]. split; [constructor; [set_solver|done]|set_solver].
Qed.

Section TurnProofs.
Context `{Calendar} (from_timestamp : Z -> option Z) (url_host : string -> option string) (parse_ip : string -> option IpAddr)
  (bundled : list (string * ModelPrice)) (values : gmap string ModelStats -> list ModelStats)
  (canonicalize_text : string -> option string) (decode_sessions : string -> option SessionMap) (path_text : list string -> string)
  (compose : string -> string -> option string) (api_key : Auth -> option string) (mismatch_text : string -> option string -> string)
  (fixed4 : f64 -> string) (eng : Engine) (set_ : Settings) (cli : Cli) (opt : Options) (args : TurnArgs) `{HealthView}.
Local Notation turn := (resolved_turn from_timestamp url_host parse_ip bundled values canonicalize_text decode_sessions path_text compose api_key
  mismatch_text fixed4 eng set_ cli opt args).
Local Notation prepared := (prepare parse_ip canonicalize_text decode_sessions path_text api_key eng cli args).

Definition reachable_error {A} (r : result A AgentTurnError) : Prop := r <> Err TUnreachable.
Lemma turn_ask_reachable {A} (q : option A) w e : e <> TUnreachable -> reachable_error (turn_ask q w e).
Proof. unfold reachable_error, turn_ask. intros. repeat case_match; naive_solver. Qed.
Lemma head_admitted_reachable primary p store tn : reachable_error (head_admitted set_ primary p store tn).
Proof. unfold reachable_error, head_admitted. repeat case_match; naive_solver. Qed.
Lemma head_agreed_reachable primary prompt p tn : reachable_error (head_agreed url_host bundled eng set_ cli opt primary prompt p tn).
Proof.
  unfold head_agreed. destruct (_ && _); [done|]. destruct (negb _); [done|].
  pose proof (turn_ask_reachable (if c_allow_paid cli || is_cost_neutral_provider p then None else budget_ask bundled set_ primary prompt tn)
    (tn_budget_word tn) (TOverBudget primary (default [] (if c_allow_paid cli || is_cost_neutral_provider p then None else budget_ask bundled set_ primary prompt tn)))
    ltac:(done)) as Hb.
  destruct (turn_ask _ (tn_budget_word tn) _) as [u|e]; [by apply turn_ask_reachable|]. cbn. intros [= ->]. by apply Hb.
Qed.
Lemma prepare_reachable kind_ primary prompt p reference fd continuity tn : reachable_error (prepared kind_ primary prompt p reference fd continuity tn).
Proof.
  unfold reachable_error, prepare, resolve_engine_session_id, live_registry, goose_provider_env, result_bind. repeat case_match; (done || congruence).
Qed.
Lemma prepare_setup kind_ primary prompt p reference fd continuity tn su : prepared kind_ primary prompt p reference fd continuity tn = Ok su ->
  tn_armed tn = true /\ su_kind su = kind_ /\ su_prompt su = prompt /\ su_head_provider su = p.
Proof.
  unfold prepare, result_bind. destruct (tn_armed tn); repeat case_match; intros [=]; subst; done.
Qed.
Lemma head_agreed_reserved primary prompt p tn : head_agreed url_host bundled eng set_ cli opt primary prompt p tn = Ok tt -> tn_reserved tn = true.
Proof. unfold head_agreed. destruct (_ && _); [done|]. by destruct (tn_reserved tn). Qed.
(** A turn that ended before its walk. *)
Ltac quit_early He := injection He as <- <-; unfold reachable_error in *;
  split; [congruence|split; [repeat constructor; set_solver|split; [set_solver|done]]].
Lemma turn_health_called su r st tn w : exists more,
  tw_events (turn_health from_timestamp eng su r st tn w) = tw_events w ++ more /\ called more = [] /\ forall i m pid o, Dispatched i m pid o ∉ more.
Proof.
  unfold turn_health. repeat case_match; (eexists; split; [first [symmetry; apply app_nil_r|done]|]); (split; [done|]); set_solver.
Qed.
Lemma finish_turn_sound su r tn w :
  let '(out, w') := finish_turn from_timestamp values mismatch_text fixed4 eng cli opt su r tn w in
  reachable_error out /\
  (exists more, tw_events w' = tw_events w ++ more /\ called more = [] /\ forall i m pid o, Dispatched i m pid o ∉ more) /\
  forall t, out = Ok t -> tn_reconciled tn = true /\ tr_run t = rn_run r /\ tr_alias t = rn_alias r.
Proof.
  unfold finish_turn. set (st := settle_turn _ _ _ _ _ _ _ _ _ _).
  destruct (tn_reconciled tn); cbn [negb].
  2: { split; [done|]. split; [|done]. exists []. rewrite app_nil_r. set_solver. }
  destruct (ts_paid st).
  { split; [done|]. split; [|done]. eexists. split; [done|]. split; [done|set_solver]. }
  destruct (ts_mismatch st) eqn:E; (split; [done|split; [apply turn_health_called|]]); naive_solver.
Qed.
(** A turn ends with an answer or with an error of the program; the engine is
    only called by links of the chain that may be dispatched, each model at
    most once, after the row was reserved, the questions on the head were
    answered and the watchdog was armed; and an answer is the one of a call
    made, accounted for before it is returned. *)
Theorem turn_dispatches_permitted kind_ prompt continuity loaded health store tn out ev :
  turn kind_ prompt continuity loaded health store tn = (out, ev) ->
  out <> Err TUnreachable /\ NoDup (called ev) /\
  (forall i m pid o, Dispatched i m pid o ∈ ev -> exists routes p su,
     resolve_chain from_timestamp loaded cli eng = Ok routes /\
     distinct [] (rr_primary routes) !! i = Some m /\
     head_admitted set_ (default "" (head (rr_primary routes))) p store tn = Ok tt /\
     head_agreed url_host bundled eng set_ cli opt (default "" (head (rr_primary routes))) prompt p tn = Ok tt /\
     tn_reserved tn = true /\ tn_armed tn = true /\
     su_kind su = kind_ /\ su_prompt su = prompt /\ su_head_provider su = p /\
     may_dispatch from_timestamp url_host compose eng set_ cli opt su (tn_links tn) i m pid o) /\
  (forall t, out = Ok t -> tn_reconciled tn = true /\
     exists i m pid o, Dispatched i m pid o ∈ ev /\ lr_dispatch (tn_links tn i) o = Ok (tr_run t)).
Proof.
  intros Hrun. unfold resolved_turn in Hrun.
  destruct (resolve_chain from_timestamp loaded cli eng) as [routes|e] eqn:Hroutes; [|quit_early Hrun].
  destruct (distinct_spec (rr_primary routes) []) as [Hnd Hfrom]. destruct (distinct [] (rr_primary routes)) as [|primary rest] eqn:Hchain; [quit_early Hrun|].
  assert (default "" (head (rr_primary routes)) = primary) as Hhead.
  { destruct (rr_primary routes); [done|]. cbn in Hchain. by injection Hchain. }
  destruct (tn_fd tn) as [fd|]; [|quit_early Hrun].
  destruct (provider_for_resolved_model _ _ _ _ _) as [p|]; [|quit_early Hrun].
  pose proof (head_admitted_reachable primary p store tn) as Ha. destruct (head_admitted set_ primary p store tn) as [[]|e] eqn:Hadm; [|quit_early Hrun].
  pose proof (head_agreed_reachable primary prompt p tn) as Hg. destruct (head_agreed _ _ _ _ _ _ _ _ p tn) as [[]|e] eqn:Hagr; [|quit_early Hrun].
  pose proof (prepare_reachable kind_ primary prompt p (rr_provider_ref routes) fd continuity tn) as Hp.
  destruct (prepare _ _ _ _ _ _ _ _ _ _ _ _ _ _ _) as [su|e] eqn:Hprep; [|quit_early Hrun].
  set (w0 := mkTurnWalk health [] [TReserved; TArmed primary]) in Hrun. set (chain := primary :: rest) in *.
  destruct (walk_ends from_timestamp url_host compose eng set_ cli opt su (tn_links tn) (length chain) chain w0 Hnd) as (res & w & new & Hw & Hev & (Hperm & Hcalled & Hend) & _).
  { exists primary. split; [by left|done]. }
  { apply filterb_length. }
  rewrite Hw in Hrun. destruct (prepare_setup _ _ _ _ _ _ _ _ _ Hprep) as (Harm & Hk & Hpr & Hhp).
  assert (forall i m pid o, Dispatched i m pid o ∈ tw_events w -> chain !! i = Some m /\
    may_dispatch from_timestamp url_host compose eng set_ cli opt su (tn_links tn) i m pid o) as Hd.
  { intros i m pid o. rewrite Hev. intros [Hx|Hx]%elem_of_app; [set_solver|]. rewrite Forall_forall in Hperm. by apply (Hperm _ Hx). }
  assert (called (tw_events w) = called new) as Hc by (by rewrite Hev).
  assert (forall more, (forall i m pid o, Dispatched i m pid o ∉ more) -> forall i m pid o, Dispatched i m pid o ∈ tw_events w ++ more ->
    exists routes0 p0 su0, (Ok routes : result _ RoutingError) = Ok routes0 /\ distinct [] (rr_primary routes0) !! i = Some m /\
      head_admitted set_ (default "" (head (rr_primary routes0))) p0 store tn = Ok tt /\
      head_agreed url_host bundled eng set_ cli opt (default "" (head (rr_primary routes0))) prompt p0 tn = Ok tt /\
      tn_reserved tn = true /\ tn_armed tn = true /\ su_kind su0 = kind_ /\ su_prompt su0 = prompt /\ su_head_provider su0 = p0 /\
      may_dispatch from_timestamp url_host compose eng set_ cli opt su0 (tn_links tn) i m pid o) as Hall.
  { intros more Hmore i m pid o [Hx|Hx]%elem_of_app; [|by destruct (Hmore i m pid o Hx)]. destruct (Hd i m pid o Hx) as [Hi Hmay].
    exists routes, p, su. rewrite Hhead, Hchain. by pose proof (head_agreed_reserved _ _ _ _ Hagr). }
  destruct res as [r|e].
  - destruct Hend as (i & pid & o & before & Hnew & Hok). pose proof (finish_turn_sound su r tn w) as Hfin.
    destruct (finish_turn _ _ _ _ _ _ _ su r tn w) as [out' w'] eqn:Ef. injection Hrun as <- <-. destruct Hfin as (Hr & (more & Hev' & Hcm & Hmore) & Ht).
    split; [exact Hr|]. split. { unfold called in *. rewrite Hev', omap_app, Hcm, app_nil_r. by rewrite Hc. }
    rewrite Hev'. split; [by apply Hall|]. intros t Hot. destruct (Ht t Hot) as (Hrec & Hrun & _). split; [done|].
    exists i, (rn_model r), pid, o. rewrite Hrun. split; [|done]. rewrite Hev, Hnew, !elem_of_app. left. right. right. by left.
  - injection Hrun as <- <-. split; [congruence|]. split; [by rewrite Hc|]. split; [|done].
    intros i m pid o Hx. apply (Hall [] ltac:(set_solver)). by rewrite app_nil_r.
Qed.
End TurnProofs.

(** ** A concrete turn *)

Definition plain_args : TurnArgs := mkTurnArgs false None false false None [] false false None None None None None.
Definition no_idle : IdleSettings := mkIdle None None None.
Definition done_run : AgentRun := mkAgentRun "s1" Completed "done" 7 1 None.
(** The engine is busy for the head and runs the second link. *)
Definition busy_head (i : nat) : LinkReadings :=
  mkLinkReadings 0 (fun _ => if bool_decide (i = 0%nat) then Err ["busy"] else Ok done_run) 0 0.
Definition quiet_turn : TurnFeed :=
  mkTurnFeed (Some quiet_feeds) 0 true no_probe true (Ok f64_zero) 0 Missing (mkIo true true 0) NotATerminal NotATerminal
    Sample.tree ["r"] [] None Absent 0 false [] None no_idle no_idle true 0 true busy_head (f64_of_Z 1) 0 None
    (fun _ => Err (EngineClosed)) (fun _ => f64_zero) 0 0 0 true true 0 0 0.
Definition sample_turn : result TurnResult AgentTurnError * list TurnEvent :=
  resolved_turn (H := gregorian) (H0 := healthy_host) no_timestamp (fun _ => None) (fun _ => None) [] (fun _ => []) Some (fun _ => None)
    (fun _ => "") (fun _ p => Some p) (fun _ => None) (fun _ _ => "") show_number free_engine quiet_settings (plain_cli None) quiet_options plain_args
    Goose "fix it" None (fun _ => Some quiet_feeds) ∅ ∅ quiet_turn.
Lemma sample_turn_served : exists t ev, sample_turn = (Ok t, ev) /\ tr_model t = "b/two" /\ called ev = ["a/one"; "b/two"].
Proof. destruct sample_turn as [[t|e] ev] eqn:E; vm_compute in E; [|done]. injection E as <- <-. do 2 eexists. split; [done|]. by vm_compute. Qed.
Lemma turn_dispatches_permitted_witness :
  exists t ev, sample_turn = (Ok t, ev) /\ called ev = ["a/one"; "b/two"] /\ NoDup (called ev) /\ tn_reconciled quiet_turn = true.
Proof.
  destruct sample_turn_served as (t & ev & Hr & _ & Hc). pose proof Hr as Hrun. unfold sample_turn in Hrun. exists t, ev. split; [exact Hr|]. split; [exact Hc|].
  pose proof (turn_dispatches_permitted (H := gregorian) (H0 := healthy_host) no_timestamp (fun _ => None) (fun _ => None) [] (fun _ => []) Some (fun _ => None)
    (fun _ => "") (fun _ p => Some p) (fun _ => None) (fun _ _ => "") show_number free_engine quiet_settings (plain_cli None) quiet_options plain_args
    Goose "fix it" None (fun _ => Some quiet_feeds) ∅ ∅ quiet_turn _ _ Hrun) as (_ & Hn & _ & Ht).
  split; [exact Hn|]. exact (proj1 (Ht t eq_refl)).
Defined.

Definition sample_command (prompt : option string) (stdin : Stdin) (single : option string -> Oneshot.Outcome) : ExecEnd :=
  cmd_exec_inner (H := gregorian) (H0 := healthy_host) no_timestamp (fun _ => None) (fun _ => None) [] (fun _ => []) Some (fun _ => None)
    (fun _ => "") (fun _ p => Some p) (fun _ => None) (fun _ _ => "") show_number free_engine quiet_settings
    (plain_cli None) quiet_options plain_args
    "zeroclaw" prompt stdin (fun _ => Some quiet_feeds) ∅ ∅ quiet_turn single.
(** Without a daemon the single call takes over.  It reads the prompt again:
    a prompt that was piped is gone by then, and an empty one is handed on. *)
Example fallback_loses_piped_prompt single :
  sample_command (Some "fix it") Terminal single = ExecOneshot (single (Some "fix it")) /\
  sample_command None (Piped (Some "fix it")) single = ExecOneshot (single (Some "")).
Proof. by vm_compute. Qed.
